(* ===== verification/_CoqProject ===== *)
-Q . S2P
Prelude.v
Contract.v
CheckedArithmetic.v
Identifiers.v
MemoryBudget.v
BudgetInvariant.v
MemoryBudgetSpec.v
Views.v
SharedOffsets.v
BinaryEnvelope.v
StateTransitions.v
Clocks.v
Cancellation.v
BudgetClient.v
BlockSource.v
BoundedBuffer.v
BufferSpec.v
IoSlices.v
BoundedArena.v
ArenaSpec.v
SlabPool.v
SlabSpec.v
Handles.v
MappedRegions.v
MappedSpec.v
Digest.v
DependencyLifecycle.v
LifecycleSpec.v
Dependencies.v
NativeMemory.v
NativeSpec.v
Json.v
JsonSpec.v
Regression.v
Manifest.v
Artifact.v
Evaluator.v
EvaluatorIo.v
EvaluatorMain.v
Metrics.v
Runner.v
ReportText.v
RunnerSpec.v
RunnerMain.v
Codecs.v
CodecPool.v
CodecSpec.v
CodecClient.v
StructuredData.v
StructuredSpec.v
StructuredClient.v
Dns.v
DnsSpec.v
DnsNameservers.v
DnsQueries.v
DnsOperations.v
DnsLifetime.v
DnsClient.v
Regex.v
RegexSpec.v
RegexOperations.v
RegexClient.v
TextOps.v
Password.v
Idna.v
GeoIp.v
GeoIpClient.v
Otlp.v
OtlpSpec.v
OtlpRequests.v
OpenSsl.v
Entropy.v
Conversations.v
Http3.v
Http3Spec.v
Http3Client.v
Http2.v
Http2Spec.v
Http2Sessions.v
Http2Client.v
