(* ===== verification/Prelude.v ===== *)
(** * Laghu: verification of the core runtime and the benchmark programs

    Laghu is a C++23 server runtime.  Its core ([src/core], mostly header templates under
    [src/core/contract/laghu/core]) supplies the primitives everything else is built from:
    bounded memory with hierarchical accounting, checked arithmetic, views, framed binary
    messages, deadlines, owned operating-system resources.  [src/os] makes the transfer
    calls, and [src/adapters] wraps native libraries, which are started and stopped through
    one lifecycle registry and report their failures through one error type.  [bench] has a
    runner that measures a workload and writes a report, and an evaluator that compares two
    reports under a manifest of thresholds and decides whether a change is a regression.
    Paths below are relative to the repository root.

    ** How the parts interact

    Every fallible operation returns a [Result] holding a value or an [Error] of
    [contract.hpp].  Sizes are computed with [checked_arithmetic.hpp].  A container (buffer,
    arena) holds one [MemoryReservation] of a [MemoryBudget], takes its storage from a block
    source its owner supplies, and charges the budget and all its ancestors before it asks
    for the block.  Views are non-owning ranges of such storage; the binary envelope, the
    shared offsets, the digests and the I/O slices read and write through them.  Mapped
    regions own a file handle.  Cancellation reads clocks and shares one atomic cell per
    state between threads.  The lifecycle registry calls the hooks of the adapters in the
    master process and in each worker forked from it.  Native libraries allocate from a pool
    over a bounded arena.  A codec stream owns a native object, the adapter's state in storage
    of the caller and a pin that keeps the arena from being reset.  A JSON document lives in
    the arena it was parsed into and is valid for one generation of it.  A DNS resolver keeps a
    channel of c-ares per query; c-ares calls back into the slot of the query, the resolver
    answers its owner through a sink, and the lifecycle object of c-ares counts the resolvers.
    HTTP/2 sessions share an arena, in which each has its state and a free list of its own;
    HTTP/3 sessions take theirs from a native pool and pin its arena.  Both are driven by calls
    of a library that asks the session for memory and reports to it while a call runs.

    The runner parses its options, runs the workload in warm-up and measured intervals, and
    writes one JSON document; the evaluator parses two such documents and a manifest, checks
    that the documents come from the same environment, resamples the measured series and
    writes a verdict.  Both use the system only through [open], [read], [write] and [close],
    and the runner also through the clocks and [getrusage].

    ** Files

    - [Prelude]: outcomes of C++ code, machine integers, checked indexing, sums over finite
      maps, big-endian bytes, the tactics and the hint database [laghu].
    - [Contract]: [contract.hpp], the error value and its bounded diagnostic.
    - [CheckedArithmetic]: [checked_arithmetic.hpp], each template as a function of the
      integral type.
    - [Identifiers]: [identifiers.hpp], the nonzero identifiers and their codec.
    - [MemoryBudget]: [memory_budget.hpp], budgets and reservations as objects of a [Heap];
      [BudgetInvariant] has the accounting invariant and its preservation, and
      [MemoryBudgetSpec] the step relation of a client and the properties.
    - [BudgetClient]: what a container may do with the reservation it owns, proved once for
      the buffer and the arena.
    - [Views]: [views.hpp], a memory of byte blocks, spans, byte and text views, C strings.
    - [SharedOffsets]: [shared_offsets.hpp], big-endian fields and checked offsets.
    - [BinaryEnvelope]: [binary_envelope.hpp], CRC-32C, [encode] and [decode].
    - [StateTransitions]: [state_transitions.hpp], rule tables, machines, bounded traces.
    - [Clocks]: [clocks.hpp] and [clocks.cpp].
    - [Cancellation]: [deadlines_cancellation.hpp], as programs over atomic actions, run
      alone or interleaved.
    - [BlockSource]: the class of block sources and an instance; [BoundedBuffer] and
      [BufferSpec]: the buffer of [bounded_buffer.hpp] and its refinement to a byte queue.
    - [IoSlices]: the slices of [bounded_buffer.hpp], [os/io_slices.cpp] and
      [os/io_operations.cpp].
    - [BoundedArena] and [ArenaSpec]: [bounded_arena.hpp], with pins, quiescent boundaries
      and the polymorphic memory resource.
    - [SlabPool] and [SlabSpec]: [slab_pool.hpp] and its refinement to a map of leases.
    - [Handles]: [handles.hpp] and [handles.cpp].
    - [MappedRegions] and [MappedSpec]: [mapped_regions.hpp] and [mapped_regions.cpp].
    - [Digest]: [digest.cpp], [fingerprints.cpp] and the provider table of [crypto.hpp].
    - [DependencyLifecycle] and [LifecycleSpec]: [adapters/dependency_lifecycle.cpp].
    - [Dependencies]: [adapters/dependency.cpp].
    - [NativeMemory] and [NativeSpec]: [adapters/internal/arena_memory.hpp] and
      [native_memory.hpp], the allocation functions given to native libraries, and their
      refinement to a heap of disjoint blocks with a list of free ones.  [CodecPool] has what every library may do to the
      pool, who owns a block, pins, and handles that pin the arena.
    - [Codecs]: [adapters/codecs.hpp], [codecs.cpp] and the adapters [codec_zlib_ng.cpp],
      [codec_brotli.cpp] and [codec_zstd.cpp]; [CodecSpec] has the laws of the libraries and one call of each adapter, [CodecClient]
      runs of calls and clients with many streams.
    - [StructuredData]: [adapters/structured_data.cpp], the validation of documents over frames
      and key scratch, documents and borrowed values; [StructuredSpec] has JSON trees, the laws
      of yyjson and the validation against a specification, [StructuredClient] parsing, the
      accessors and clients with many documents.
    - [Dns]: [adapters/dns.cpp], the callbacks, the channels and the resolver; [DnsSpec] has the
      laws of c-ares and one call with its callbacks, [DnsNameservers] the text of the
      nameservers, [DnsQueries] a query from the call to its completion, [DnsOperations] and
      [DnsLifetime] the operations of a resolver, [DnsClient] programs with many resolvers.
    - [Regex]: [adapters/regex.cpp], patterns and bounded matching; [RegexSpec] has the laws of
      PCRE2, [RegexOperations] matching, compilation and release, [RegexClient] programs with
      many patterns.
    - [TextOps]: the operations of [std::string_view] and the character loops the next three
      share, with the texts between separators.
    - [Password]: [adapters/password_auth.hpp], its private header and [password_auth.cpp],
      against grammars of bcrypt and SHA-512 hashes.
    - [Idna]: [adapters/idna.hpp] and [idna.cpp], against labels and hostnames.
    - [GeoIp]: [adapters/geoip.hpp] and [geoip.cpp], with normal paths, the laws of libmaxminddb
      and what a lookup reports; [GeoIpClient]: programs with many databases.
    - [Otlp]: [adapters/otlp.hpp] and [otlp.cpp]; [OtlpSpec] has UTF-8, the protobuf wire format
      and each encoder, [OtlpRequests] whole requests and a reader of the wire format.
    - [OpenSsl]: [adapters/crypto_provider.cpp], digests, authentication codes and signatures
      over the contexts and keys of the library; [Entropy]: [adapters/entropy.cpp].
    - [Conversations]: calls of libraries that ask for memory and call back, run against a
      program; both adapters below use it.
    - [Http2]: [adapters/http2.hpp] and [http2.cpp]; [Http2Spec] has the allocator, the blocks of
      an arena, the callbacks, the laws of nghttp2 and one call, [Http2Sessions] the blocks of all
      sessions and the operations of one, [Http2Client] programs with many sessions and the input
      that reaches a sink.
    - [Http3]: [adapters/http3.hpp] and [http3.cpp]; [Http3Spec] has the conditions nghttp3 puts on
      its callers, its laws and one call, [Http3Client] the operations of a session and programs
      with many that keep these conditions, which the adapter forwards unchecked.
    - [bench/evaluator.cpp] is five components.  [Json] and [JsonSpec]: the parser over fixed
      index tables, against a grammar.  [Regression]: the relative change and the bootstrap
      interval.  [Manifest]: the rules.  [Artifact]: reports as the evaluator reads them.
      [Evaluator]: files, options, JSON output, the evaluation of rules and [main]; [EvaluatorIo]
      has its writer, the laws of the system calls and the transfers, [EvaluatorMain] the
      decision and the refinement of [main].
    - [Metrics]: [bench/private/.../metrics.hpp] and [workload.hpp], percentiles and counters.
    - [Runner]: [bench/runner.cpp]; [ReportText] and [RunnerSpec] have the report as a JSON
      text and as an artifact, [RunnerMain] the laws of the host and the theorem on a run.

    ** How the code is represented

    An operation is a function with the source's name and guards, in the source's order.
    Code that cannot fail at the language level returns its value; the rest returns an
    [outcome], where [Stop] is a call of [std::terminate], an access the language leaves
    undefined, or exhausted fuel.  Errors the code reports are values of [Result], so the
    two never mix.  Unsigned arithmetic is [Z] with its wrap-around written out ([u64],
    [u32], [cast]); signed arithmetic faults where C++ leaves overflow undefined.

    Pointers between objects are identities in a store ([Heap] for budgets and reservations,
    [Memory] for bytes), so aliasing and moves are those of the code.  A destructor is an
    operation of its own.  Class members are record fields; a moved-from object keeps the
    values the move leaves in it.

    What the code receives from outside is an argument: the functions of a block source, a
    clock, a descriptor or mapping table, the hooks, the log sink, the crypto provider.  They
    act on a state of their own (a context, or the state [W] of the world) that is threaded
    through the calls.  A native library is a record of functions over its own state; c-ares
    returns the callbacks a call makes, which are run after it, and a call of nghttp2 or nghttp3
    is a tree of requests and callbacks, each reply of the program choosing the branch.  Block
    sources and libraries are constrained by the laws of a class, which an instance in the file
    of their clients satisfies; the answers of the operating system and of the hooks are
    arbitrary in the ownership and lifecycle theorems.

    ** Loops and fuel

    Loops over counts are structural.  The walk over the ancestors of budget [this] has fuel
    [S this]: a parent is constructed before its child and so has a smaller identity.  The
    doubling of a buffer's capacity has fuel [doubling_fuel] = 65: a positive 64-bit value
    doubles at most 64 times before it exceeds the maximum.  The scan for consumed I/O
    slices has the number of slices as fuel.  A cancellation program run alone
    has fuel one per atomic action.  The search of the free list of the native pool has one
    per block.  The JSON parser has [parse_fuel], twice the length of the text and two, since
    every call of a rule but the first follows a character it consumed; the loop over the
    lines of a manifest has one more than its length; a decimal number has 20 digits.  The
    loops of [read_file] and [write_all] have the capacity or the length and the interruptions
    still to come, which the laws bound.  The traversal of a JSON document has three rounds per
    value, since a frame is entered once, left once and a child is taken once; the keys of an
    object are collected with two more than the members.  The digits of a port have fuel five.
    The UTF-8 loop has one more than the length of the text, a varint ten bytes, a request for
    entropy seventeen chunks (4096 bytes in chunks of 256, and one), and the resets of rejected
    HTTP/2 streams the 64 entries of their queue.
    The theorems state results, so in particular that
    the fuel is never exhausted.

    ** What the theorems show

    - Budgets: in every reachable store every charge is the sum of the live reservations
      below it and never exceeds its limit; legal operations return; [reserve] is
      all-or-nothing, undone exactly by [release], and rolled back when the acquisition it
      covers fails; destruction terminates the process exactly when the budget is in use.
    - Containers: the buffer refines a FIFO byte queue, the slab pool a map from leases to
      values, the slices the concatenated bytes; live arena views never overlap and stale ones
      are refused.
    - Codecs: envelopes, big-endian fields, identifiers and digests round-trip; the decoder
      accepts exactly the frames; every burst of four adjacent bytes is detected.
    - Concurrency: one finisher of a cancellation state wins and all agree on it; a token
      reports only cancellations that happened and misses none that preceded it.
    - Resources: every adopted descriptor is closed exactly once; regions unmap before they
      close, once each; a flush covers whole pages within the mapping.
    - Lifecycle: the hook calls of a process are determined by its phase, stop hooks run in
      reverse of the start hooks that succeeded, and never in another kind of process.
    - Bounds: arithmetic, ranges, slices, deadlines and clock readings are exact or refused.
    - Native memory: the pool refines a heap with a free list: blocks are disjoint and keep their
      bytes; a request takes the first free block that is large enough, a new one only when there
      is none, and fails only when the arena refuses that.
    - Codec streams: every run of calls stays within the limits of the stream; clients that
      create, move, use and destroy streams never reach undefined behaviour, leak no native
      object, end none twice, and cannot have the arena reset under an active stream.
    - JSON documents: validation ends and accepts exactly the trees within the limits and without
      duplicate keys; every path reads back the value of the text; documents are freed once
      and no value is read after its document ended or the arena was reset.
    - DNS: every operation of a program with many resolvers returns; the tokens it was given
      are, once each, those of its completions and of its active queries; completions are what
      the library reported; no channel is lost, the socket interests are the open sockets, and
      the library is not cleaned up under a resolver; the text of the nameservers always fits.
    - Regular expressions: a match reports exactly what the library answers under the limits of
      the caller; every failure of a compilation gives back all it acquired; every object of the
      library and every block of the pool belongs to a pattern, and nothing invalidates one.
    - Passwords: exactly the hashes of the grammars are accepted; a verification returns, gives
      the slot of the worker back, leaves no copy of the password, and compares exactly.
    - Hostnames: a conversion gives a well-formed hostname that is the output of the library, or
      the error of exactly the first check that fails, and frees the output in every case.
    - GeoIP: sources are exactly the permitted paths; every open database belongs to one handle
      and is closed once; lookups report exactly what the library answers.
    - Telemetry: a request is encoded exactly as protobuf and read back as it was.
    - Crypto and entropy: operations give what the library computes of the given bytes or an
      error, and leave no context, key or copy of a seed behind; outputs are filled completely,
      or the error is that of the call that failed.
    - HTTP/2 and HTTP/3: programs with many sessions never reach undefined behaviour; every block
      belongs to one session or to the library for it, every native object to one session object;
      operations report exactly what the library answers; the sink of an HTTP/3 session is told
      the event of each callback and its refusal reaches the library; the input of an HTTP/2 peer
      reaches a sink only within the limits.
    - Evaluator: the parser accepts exactly the texts of the grammar that fit its tables, the artifact and manifest readers
      exactly what the tree and the lines prescribe, the statistics equal references over
      unbounded integers; files are read whole and texts written whole through partial and
      interrupted calls; the exit code is right, and [main] over every lawful system on which no
      call fails computes a function of the files, unless the check for the end of a file of
      exactly 262144 bytes is interrupted.
    - Runner: the percentiles are nearest-rank percentiles; a run ends, its report has the
      totals of its samples, and the evaluator accepts it when it has ten intervals or more.

    ** What is not modelled

    The native libraries, which are parameters; the POSIX tables that forward to system calls,
    whose answers are parameters; compile-time concepts and [constexpr] evaluation, which have
    no run-time effect; the branches of the runner for systems other than Linux and the
    workloads linked into it; the command line, the fuzz drivers and the tests.  The QUIC
    adapter ([adapters/quic.cpp]), which passes keys, packets and handshake messages between
    ngtcp2 and a TLS provider that call each other, is the one adapter left out.  Atomic
    accesses interleave as whole actions; executions in which acquire and release accesses to
    several cells are observed in different orders by different threads are outside the model. *)
From Stdlib Require Import ZArith Lia.
From stdpp Require Import base numbers list gmap strings option.

Set Default Goal Selector "!".

Declare Scope laghu_scope.
Delimit Scope laghu_scope with laghu.
#[global] Open Scope laghu_scope.
#[global] Open Scope Z_scope.

(** ** Outcomes of running C++ code

    A C++ function either returns, calls [std::terminate], performs an access the
    language leaves undefined (a dangling pointer, an index out of range), or, in
    the model only, exhausts the fuel of a loop.  [Undefined] and [OutOfFuel] are
    never produced by a hypothesis: theorems show that they are unreachable. *)
Inductive fault :=
  | Terminated
  | Undefined
  | OutOfFuel.

Inductive outcome (A : Type) :=
  | Ret (a : A)
  | Stop (f : fault).
Arguments Ret {A} a.
Arguments Stop {A} f.

#[export] Instance fault_eq_dec : EqDecision fault.
Proof. solve_decision. Defined.
#[export] Instance outcome_eq_dec `{EqDecision A} : EqDecision (outcome A).
Proof. solve_decision. Defined.

#[export] Instance outcome_ret : MRet outcome := fun _ a => Ret a.
#[export] Instance outcome_bind : MBind outcome := fun _ _ k m =>
  match m with Ret a => k a | Stop f => Stop f end.
#[export] Instance outcome_fmap : FMap outcome := fun _ _ g m =>
  match m with Ret a => Ret (g a) | Stop f => Stop f end.

(** [run_to m P]: the computation returns, and its value satisfies [P]. *)
Definition run_to {A} (m : outcome A) (P : A -> Prop) : Prop :=
  exists a, m = Ret a /\ P a.

Lemma outcome_bind_Ret {A B} (k : A -> outcome B) (a : A) : (Ret a ≫= k) = k a.
Proof. reflexivity. Qed.

Lemma outcome_bind_assoc {A B C} (m : outcome A) (k : A -> outcome B) (h : B -> outcome C) :
  ((m ≫= k) ≫= h) = (m ≫= (fun a => k a ≫= h)).
Proof. by destruct m. Qed.

Lemma outcome_bind_Ret_inv {A B} (m : outcome A) (k : A -> outcome B) (b : B) :
  (m ≫= k) = Ret b -> exists a, m = Ret a /\ k a = Ret b.
Proof. destruct m as [a|]; simpl; [eauto | discriminate]. Qed.

Lemma run_to_bind {A B} (m : outcome A) (k : A -> outcome B) (P : A -> Prop) (Q : B -> Prop) :
  run_to m P -> (forall a, P a -> run_to (k a) Q) -> run_to (m ≫= k) Q.
Proof. intros (a & -> & Ha) Hk. apply (Hk a Ha). Qed.

Lemma run_to_mono {A} (m : outcome A) (P Q : A -> Prop) :
  run_to m P -> (forall a, P a -> Q a) -> run_to m Q.
Proof. intros (a & -> & Ha) H. exists a; eauto. Qed.

(** ** Machine integers

    An integral type is its signedness and its width.  [cast] is the modular
    conversion [static_cast] performs. *)
Record int_type := IntType { is_signed : bool; bits : Z }.

#[export] Instance int_type_eq_dec : EqDecision int_type.
Proof. solve_decision. Defined.

Definition int_min (T : int_type) : Z := if is_signed T then - 2 ^ (bits T - 1) else 0.
Definition int_max (T : int_type) : Z :=
  if is_signed T then 2 ^ (bits T - 1) - 1 else 2 ^ bits T - 1.
Definition in_range (T : int_type) (z : Z) : bool := (int_min T <=? z) && (z <=? int_max T).
Definition cast (T : int_type) (z : Z) : Z :=
  if is_signed T then (z + 2 ^ (bits T - 1)) mod 2 ^ bits T - 2 ^ (bits T - 1)
  else z mod 2 ^ bits T.

Definition uint8_t : int_type := IntType false 8.
Definition uint16_t : int_type := IntType false 16.
Definition uint32_t : int_type := IntType false 32.
Definition uint64_t : int_type := IntType false 64.
Definition size_t : int_type := uint64_t.
Definition int32_t : int_type := IntType true 32.
Definition int64_t : int_type := IntType true 64.

(** The widths the code instantiates its templates at are all positive. *)
Definition int_type_ok (T : int_type) : Prop := 0 < bits T.

Definition u64_max : Z := 18446744073709551615.
Definition size_max : Z := u64_max.
Definition u32_max : Z := 4294967295.

Lemma u64_max_eq : u64_max = 2 ^ 64 - 1.
Proof. reflexivity. Qed.

Definition u64 (z : Z) : Z := z mod 2 ^ 64.
Definition u32 (z : Z) : Z := z mod 2 ^ 32.

Lemma in_range_iff T z : in_range T z = true <-> int_min T <= z <= int_max T.
Proof. unfold in_range. rewrite andb_true_iff, !Z.leb_le. tauto. Qed.

Lemma in_range_false_iff T z : in_range T z = false <-> ~ (int_min T <= z <= int_max T).
Proof. rewrite <- in_range_iff. by destruct (in_range T z). Qed.

Lemma pow2_half T : int_type_ok T -> 2 ^ bits T = 2 * 2 ^ (bits T - 1).
Proof. intros H. unfold int_type_ok in H. rewrite <- Z.pow_succ_r by lia. f_equal; lia. Qed.

Lemma pow2_pos z : 0 <= z -> 0 < 2 ^ z.
Proof. intros; apply Z.pow_pos_nonneg; lia. Qed.

Lemma cast_in_range T z : int_type_ok T -> int_min T <= z <= int_max T -> cast T z = z.
Proof.
  intros Hok. pose proof (pow2_half T Hok). unfold cast, int_min, int_max.
  unfold int_type_ok in Hok. pose proof (pow2_pos (bits T - 1) ltac:(lia)).
  destruct (is_signed T); intros; rewrite Z.mod_small; lia.
Qed.

Lemma cast_range T z : int_type_ok T -> int_min T <= cast T z <= int_max T.
Proof.
  intros Hok. pose proof (pow2_half T Hok). unfold cast, int_min, int_max.
  unfold int_type_ok in Hok. pose proof (pow2_pos (bits T - 1) ltac:(lia)).
  destruct (is_signed T).
  - pose proof (Z.mod_pos_bound (z + 2 ^ (bits T - 1)) (2 ^ bits T)); lia.
  - pose proof (Z.mod_pos_bound z (2 ^ bits T)); lia.
Qed.

Lemma u64_small z : 0 <= z <= u64_max -> u64 z = z.
Proof. unfold u64, u64_max. intros. apply Z.mod_small. lia. Qed.

Lemma u32_small z : 0 <= z <= u32_max -> u32 z = z.
Proof. unfold u32, u32_max. intros H. apply Z.mod_small. lia. Qed.

Lemma u64_range z : 0 <= u64 z <= u64_max.
Proof. unfold u64, u64_max. pose proof (Z.mod_pos_bound z (2 ^ 64)). lia. Qed.

(** ** Element access of a span, undefined out of range *)
Definition slot {A} (storage : list A) (index : Z) : outcome A :=
  match storage !! Z.to_nat index with Some s => Ret s | None => Stop Undefined end.
Definition set_slot {A} (storage : list A) (index : Z) (s : A) : outcome (list A) :=
  if Z.of_nat (length storage) <=? index then Stop Undefined else Ret (<[Z.to_nat index := s]> storage).

Lemma slot_ok {A} (l : list A) index s : l !! Z.to_nat index = Some s -> slot l index = Ret s.
Proof. unfold slot. by intros ->. Qed.

Lemma set_slot_ok {A} (l : list A) index s :
  index < Z.of_nat (length l) -> set_slot l index s = Ret (<[Z.to_nat index := s]> l).
Proof. intros. unfold set_slot. by rewrite (proj2 (Z.leb_gt _ _)) by done. Qed.

(** ** Rounding up *)

(** The next multiple of the alignment. *)
Definition align_up (offset alignment : Z) : Z :=
  offset + (if offset mod alignment =? 0 then 0 else alignment - offset mod alignment).

Lemma align_up_spec offset alignment :
  0 <= offset -> 0 < alignment ->
  align_up offset alignment mod alignment = 0 /\ offset <= align_up offset alignment < offset + alignment.
Proof.
  intros Ho Ha. unfold align_up. pose proof (Z.mod_pos_bound offset alignment Ha).
  destruct (Z.eqb_spec (offset mod alignment) 0) as [E|E].
  - rewrite Z.add_0_r. lia.
  - split; [|lia]. rewrite (Z.div_mod offset alignment) at 1 by lia.
    replace (alignment * (offset / alignment) + offset mod alignment + (alignment - offset mod alignment))
      with ((offset / alignment + 1) * alignment) by lia.
    apply Z.mod_mul. lia.
Qed.

Lemma align_up_mono a b alignment :
  0 <= a <= b -> 0 < alignment -> align_up a alignment <= align_up b alignment.
Proof.
  intros Hab Hp. destruct (align_up_spec a alignment) as [Ha1 Ha2]; [lia..|].
  destruct (align_up_spec b alignment) as [Hb1 Hb2]; [lia..|].
  apply Z.mod_divide in Ha1 as [x Hx]; [|lia]. apply Z.mod_divide in Hb1 as [y Hy]; [|lia].
  rewrite Hx, Hy in *. apply Z.mul_le_mono_nonneg_r; [lia|].
  apply Z.lt_succ_r, (Z.mul_lt_mono_pos_r alignment); lia.
Qed.

(** ** Bytes and big-endian numbers

    The reference definitions the encoders are proved against: [be_bytes n v] is the
    [n]-byte big-endian representation of [v], [be_value l] the number a byte string
    denotes. *)
Definition is_byte (z : Z) : Prop := 0 <= z < 256.

Fixpoint be_bytes (n : nat) (v : Z) : list Z :=
  match n with
  | O => []
  | S n' => (v / 256 ^ Z.of_nat n') mod 256 :: be_bytes n' v
  end.

Definition be_value (l : list Z) : Z := foldl (fun value byte => value * 256 + byte) 0 l.

Lemma pow256_pos n : 0 < 256 ^ Z.of_nat n.
Proof. apply Z.pow_pos_nonneg; lia. Qed.

Lemma pow256_succ n : 256 ^ Z.of_nat (S n) = 256 ^ Z.of_nat n * 256.
Proof. rewrite Nat2Z.inj_succ, Z.pow_succ_r by lia. lia. Qed.

Lemma be_bytes_length n v : length (be_bytes n v) = n.
Proof. induction n; simpl; congruence. Qed.

Lemma be_bytes_is_byte n v : Forall is_byte (be_bytes n v).
Proof.
  induction n; simpl; constructor; [|done]. unfold is_byte. apply Z.mod_pos_bound. lia.
Qed.

Lemma be_value_acc l a :
  foldl (fun value byte => value * 256 + byte) a l = a * 256 ^ Z.of_nat (length l) + be_value l.
Proof.
  unfold be_value. revert a.
  induction l as [|b l IH]; intros a; [cbn; lia|]. cbn [foldl length].
  rewrite IH, (IH (0 * 256 + b)), pow256_succ. lia.
Qed.

Lemma be_value_cons b l : be_value (b :: l) = b * 256 ^ Z.of_nat (length l) + be_value l.
Proof. unfold be_value at 1. cbn [foldl]. rewrite be_value_acc. lia. Qed.

Lemma be_value_snoc l b : be_value (l ++ [b]) = be_value l * 256 + b.
Proof. unfold be_value. by rewrite foldl_app. Qed.

Lemma be_value_range l : Forall is_byte l -> 0 <= be_value l < 256 ^ Z.of_nat (length l).
Proof.
  induction 1 as [|b l Hb _ IH]; [cbn; lia|].
  rewrite be_value_cons. cbn [length]. rewrite pow256_succ.
  unfold is_byte in Hb. pose proof (pow256_pos (length l)). nia.
Qed.

Lemma be_value_bytes n v : be_value (be_bytes n v) = v mod 256 ^ Z.of_nat n.
Proof.
  induction n as [|n IH]; [cbn; by rewrite Z.mod_1_r|].
  cbn [be_bytes]. rewrite be_value_cons, be_bytes_length, IH, pow256_succ.
  pose proof (pow256_pos n). rewrite Z.rem_mul_r by lia. lia.
Qed.

Lemma be_bytes_mod n v k : be_bytes n (v + k * 256 ^ Z.of_nat n) = be_bytes n v.
Proof.
  revert k. induction n as [|n IH]; intros k; [done|]. cbn [be_bytes].
  rewrite pow256_succ. pose proof (pow256_pos n).
  replace (v + k * (256 ^ Z.of_nat n * 256)) with (v + (k * 256) * 256 ^ Z.of_nat n) by lia.
  rewrite IH, Z.div_add by lia. by rewrite Z.mod_add by lia.
Qed.

Lemma be_bytes_value l : Forall is_byte l -> be_bytes (length l) (be_value l) = l.
Proof.
  induction 1 as [|b l Hb Hl IH]; [done|]. cbn [length be_bytes].
  rewrite be_value_cons. pose proof (pow256_pos (length l)). pose proof (be_value_range l Hl).
  unfold is_byte in Hb. f_equal.
  - rewrite Z.add_comm, Z.div_add by lia. rewrite (Z.div_small (be_value l)) by lia.
    apply Z.mod_small. lia.
  - rewrite Z.add_comm, be_bytes_mod. exact IH.
Qed.

(** ** Sums over finite maps

    The accounting invariants compare a counter with a sum over the live objects. *)
Section map_sum.
Context {K : Type} `{Countable K} {A : Type}.
Implicit Types (f g : K -> A -> Z) (m : gmap K A).

Definition map_sum f m : Z := map_fold (fun k a acc => f k a + acc) 0 m.

Lemma map_sum_empty f : map_sum f ∅ = 0.
Proof. apply map_fold_empty. Qed.

Lemma map_sum_insert f m k a :
  m !! k = None -> map_sum f (<[k:=a]> m) = f k a + map_sum f m.
Proof. intros Hk. unfold map_sum. rewrite map_fold_insert_L; [done | intros; lia | done]. Qed.

Lemma map_sum_lookup f m k a :
  m !! k = Some a -> map_sum f m = f k a + map_sum f (delete k m).
Proof.
  intros Hk. rewrite <- (insert_delete_id m k a Hk) at 1.
  apply map_sum_insert, lookup_delete_eq.
Qed.

Lemma map_sum_update f m k a b :
  m !! k = Some a -> map_sum f (<[k:=b]> m) = map_sum f m - f k a + f k b.
Proof.
  intros Hk. rewrite (map_sum_lookup f m k a Hk).
  rewrite <- insert_delete_eq, map_sum_insert by apply lookup_delete_eq. lia.
Qed.

(** The contribution of the entry at [k], if there is one. *)
Definition entry_of f m (k : K) : Z := match m !! k with Some a => f k a | None => 0 end.

Lemma map_sum_set f m k b : map_sum f (<[k:=b]> m) = map_sum f m - entry_of f m k + f k b.
Proof.
  unfold entry_of. destruct (m !! k) as [a|] eqn:Hk.
  - by apply map_sum_update.
  - rewrite map_sum_insert by done. lia.
Qed.

Lemma map_sum_remove f m k : map_sum f (delete k m) = map_sum f m - entry_of f m k.
Proof.
  unfold entry_of. destruct (m !! k) as [a|] eqn:Hk.
  - rewrite (map_sum_lookup f m k a Hk). lia.
  - rewrite delete_id by done. lia.
Qed.

Lemma map_sum_ext f g m :
  (forall k a, m !! k = Some a -> f k a = g k a) -> map_sum f m = map_sum g m.
Proof.
  induction m as [|k a m Hk IH] using map_ind; intros Hfg; [by rewrite !map_sum_empty|].
  rewrite !map_sum_insert, (Hfg k a) by (done || apply lookup_insert_eq).
  f_equal. apply IH. intros k' a' Hk'. apply Hfg. rewrite lookup_insert_ne; [done|congruence].
Qed.

Lemma map_sum_nonneg f m :
  (forall k a, m !! k = Some a -> 0 <= f k a) -> 0 <= map_sum f m.
Proof.
  induction m as [|k a m Hk IH] using map_ind; intros Hf.
  - by rewrite map_sum_empty.
  - rewrite map_sum_insert by done.
    pose proof (Hf k a (lookup_insert_eq _ _ _)).
    assert (0 <= map_sum f m); [|lia].
    apply IH. intros k' a' Hk'. apply (Hf k' a').
    rewrite lookup_insert_ne; [done|congruence].
Qed.

Lemma map_sum_le f g m :
  (forall k a, m !! k = Some a -> f k a <= g k a) -> map_sum f m <= map_sum g m.
Proof.
  induction m as [|k a m Hk IH] using map_ind; intros Hfg; [by rewrite !map_sum_empty|].
  rewrite !map_sum_insert by done. pose proof (Hfg k a (lookup_insert_eq _ _ _)).
  assert (map_sum f m <= map_sum g m); [|lia].
  apply IH. intros k' a' Hk'. apply Hfg. rewrite lookup_insert_ne; [done|congruence].
Qed.

Lemma map_sum_ge f m k a :
  (forall k a, m !! k = Some a -> 0 <= f k a) -> m !! k = Some a -> f k a <= map_sum f m.
Proof.
  intros Hf Hk. rewrite (map_sum_lookup f m k a Hk).
  assert (0 <= map_sum f (delete k m)); [|lia].
  apply map_sum_nonneg. intros k' a' Hk'. apply lookup_delete_Some in Hk' as [_ Hk'].
  by apply Hf.
Qed.

Lemma map_sum_zero f m :
  (forall k a, m !! k = Some a -> f k a = 0) -> map_sum f m = 0.
Proof.
  induction m as [|k a m Hk IH] using map_ind; intros Hf.
  - apply map_sum_empty.
  - rewrite map_sum_insert, (Hf k a) by (done || apply lookup_insert_eq).
    rewrite IH; [done|]. intros k' a' Hk'. apply Hf.
    rewrite lookup_insert_ne; [done|congruence].
Qed.
End map_sum.

(** ** Automation *)
Create HintDb laghu.
#[export] Hint Resolve u64_range run_to_mono : laghu.

(** Case analysis on every boolean test and match of the goal, then linear arithmetic. *)
Ltac split_ifs :=
  repeat match goal with
  | |- context [ if ?b then _ else _ ] => let E := fresh "E" in destruct b eqn:E
  end.

Ltac split_ifs_in H :=
  repeat match type of H with
  | context [ if ?b then _ else _ ] => let E := fresh "E" in destruct b eqn:E
  end.

(** Step through a monadic equation [m ≫= k = Ret b]. *)
Ltac inv_bind H :=
  apply outcome_bind_Ret_inv in H;
  let a := fresh "a" in let E := fresh "Hrun" in destruct H as (a & E & H).
