(* ===== verification/Contract.v ===== *)
(** * Errors and results

    Models [src/core/contract/laghu/core/contract.hpp]: the error enumerations, the
    fixed-size [Error] value with its bounded diagnostic, and [Result].  The enumerations
    whose membership the code tests ([DependencyId], [DependencyOperation],
    [DependencyStatus]) carry one more constructor for a byte that names no enumerator,
    since an [enum class] over [uint8_t] can hold it. *)
From S2P Require Import Prelude.
From Stdlib Require Import ZArith Lia Ascii String.
From stdpp Require Import base numbers list strings option.

Set Default Goal Selector "!".
#[local] Open Scope Z_scope.

(** ** Enumerations *)
Inductive ErrorDomain :=
  | domain_core
  | domain_posix
  | domain_dependency
  | domain_crypto.

Inductive ErrorCode :=
  | invalid_input
  | invalid_range
  | overflow
  | exhaustion
  | unavailable_capability
  | invalid_state
  | cancellation
  | deadline
  | io
  | corrupt_data
  | unsupported_version
  | checksum
  | dependency
  | crypto.

Inductive Retryability :=
  | never
  | may_retry.

Inductive SecurityRelevance :=
  | ordinary
  | security_relevant.

Inductive DependencyStatus :=
  | status_invalid_input
  | status_invalid_range
  | status_unavailable
  | status_exhaustion
  | status_unsupported_version
  | status_corrupt_data
  | status_checksum
  | status_crypto
  | status_io
  | status_unknown
  | status_unlisted (raw : Z).

Inductive DependencyId :=
  | id_none
  | id_openssl
  | id_libressl
  | id_yyjson
  | id_nghttp2
  | id_ngtcp2
  | id_nghttp3
  | id_c_ares
  | id_pcre2_8bit
  | id_zlib_ng
  | id_brotli
  | id_zstd
  | id_libmaxminddb
  | id_libidn2
  | id_libxcrypt
  | id_protobuf_c
  | id_unlisted (raw : Z).

Definition is_known_dependency_id (value : DependencyId) : bool :=
  match value with
  | id_none | id_openssl | id_libressl | id_yyjson | id_nghttp2 | id_ngtcp2 | id_nghttp3
  | id_c_ares | id_pcre2_8bit | id_zlib_ng | id_brotli | id_zstd | id_libmaxminddb
  | id_libidn2 | id_libxcrypt | id_protobuf_c => true
  | id_unlisted _ => false
  end.

Inductive DependencyOperation :=
  | op_none
  | op_sha256
  | op_hmac_sha256
  | op_ed25519_private_key
  | op_ed25519_sign
  | op_ed25519_verify
  | op_spki_decode
  | op_idna_lookup
  | op_password_verify
  | op_json_parse
  | op_http2_session
  | op_http2_receive
  | op_http2_send
  | op_http2_submit
  | op_quic_session
  | op_quic_receive
  | op_quic_send
  | op_quic_stream
  | op_quic_expiry
  | op_http3_session
  | op_http3_receive
  | op_http3_send
  | op_http3_submit
  | op_dns_session
  | op_dns_query
  | op_regex_compile
  | op_regex_match
  | op_codec_initialize
  | op_codec_process
  | op_geoip_open
  | op_geoip_lookup
  | op_unlisted (raw : Z).

#[export] Instance ErrorDomain_eq_dec : EqDecision ErrorDomain.
Proof. solve_decision. Defined.
#[export] Instance ErrorCode_eq_dec : EqDecision ErrorCode.
Proof. solve_decision. Defined.
#[export] Instance Retryability_eq_dec : EqDecision Retryability.
Proof. solve_decision. Defined.
#[export] Instance SecurityRelevance_eq_dec : EqDecision SecurityRelevance.
Proof. solve_decision. Defined.
#[export] Instance DependencyStatus_eq_dec : EqDecision DependencyStatus.
Proof. solve_decision. Defined.
#[export] Instance DependencyId_eq_dec : EqDecision DependencyId.
Proof. solve_decision. Defined.
#[export] Instance DependencyOperation_eq_dec : EqDecision DependencyOperation.
Proof. solve_decision. Defined.

(** ** The error value *)
Definition diagnostic_context_capacity : nat := 96.

Record Error := MkError {
  domain_ : ErrorDomain;
  code_ : ErrorCode;
  native_code_ : Z;
  retryability_ : Retryability;
  security_relevance_ : SecurityRelevance;
  dependency_id_ : DependencyId;
  dependency_operation_ : DependencyOperation;
  dependency_status_ : DependencyStatus;
  diagnostic_context_ : list ascii;
  diagnostic_context_length_ : Z;
  diagnostic_truncated_ : bool }.

#[export] Instance Error_eq_dec : EqDecision Error.
Proof. solve_decision. Defined.

Definition retryability_for (code : ErrorCode) : Retryability :=
  match code with
  | exhaustion | deadline | io | dependency => may_retry
  | invalid_input | invalid_range | overflow | unavailable_capability | invalid_state
  | cancellation | corrupt_data | unsupported_version | checksum | crypto => never
  end.

Definition security_relevance_for (code : ErrorCode) : SecurityRelevance :=
  match code with
  | corrupt_data | checksum | crypto => security_relevant
  | invalid_input | invalid_range | overflow | exhaustion | unavailable_capability
  | invalid_state | cancellation | deadline | io | unsupported_version | dependency => ordinary
  end.

Definition normalize_dependency (status : DependencyStatus) : ErrorCode :=
  match status with
  | status_invalid_input => invalid_input
  | status_invalid_range => invalid_range
  | status_unavailable => unavailable_capability
  | status_exhaustion => exhaustion
  | status_unsupported_version => unsupported_version
  | status_corrupt_data => corrupt_data
  | status_checksum => checksum
  | status_crypto => crypto
  | status_io => io
  | status_unknown => dependency
  | status_unlisted _ => dependency
  end.

(** The [errno] values of Linux, where [ENOTSUP] and [EOPNOTSUPP] coincide. *)
Definition EINVAL : Z := 22.
Definition ERANGE : Z := 34.
Definition EOVERFLOW : Z := 75.
Definition ENOMEM : Z := 12.
Definition ECANCELED : Z := 125.
Definition ETIMEDOUT : Z := 110.
Definition EILSEQ : Z := 84.
Definition EBADMSG : Z := 74.
Definition ENOSYS : Z := 38.
Definition ENOTSUP : Z := 95.
Definition EOPNOTSUPP : Z := 95.

Definition normalize_errno (native_code : Z) : ErrorCode :=
  if native_code =? EINVAL then invalid_input
  else if native_code =? ERANGE then invalid_range
  else if native_code =? EOVERFLOW then overflow
  else if native_code =? ENOMEM then exhaustion
  else if native_code =? ECANCELED then cancellation
  else if native_code =? ETIMEDOUT then deadline
  else if (native_code =? EILSEQ) || (native_code =? EBADMSG) then corrupt_data
  else if (native_code =? ENOSYS) || (native_code =? ENOTSUP) || (native_code =? EOPNOTSUPP)
       then unavailable_capability
  else io.

(** [set_diagnostic_context]: zero-fill, copy at most 96 characters, record length and
    truncation.  The result is the triple of the three diagnostic members. *)
Definition set_diagnostic_context (diagnostic : list ascii) : list ascii * Z * bool :=
  let zeroed := replicate diagnostic_context_capacity Ascii.zero in
  let copied := if (length diagnostic <? diagnostic_context_capacity)%nat
                then length diagnostic else diagnostic_context_capacity in
  (list_inserts 0 (take copied diagnostic) zeroed,
   cast uint8_t (Z.of_nat copied),
   (diagnostic_context_capacity <? length diagnostic)%nat).

Definition make_error (d : ErrorDomain) (c : ErrorCode) (native : Z) (diagnostic : list ascii) :
    Error :=
  let '(context, len, truncated) := set_diagnostic_context diagnostic in
  MkError d c native (retryability_for c) (security_relevance_for c)
    id_none op_none status_unknown context len truncated.

(** [Error{ErrorDomain::core, code, 0, "..."}], the form most of the code uses. *)
Definition core_error (c : ErrorCode) (diagnostic : string) : Error :=
  make_error domain_core c 0 (list_ascii_of_string diagnostic).

Definition from_errno (native_code : Z) (diagnostic : string) : Error :=
  make_error domain_posix (normalize_errno native_code) (cast int32_t native_code)
    (list_ascii_of_string diagnostic).

Definition from_dependency (id : DependencyId) (operation : DependencyOperation)
    (status : DependencyStatus) (native_code : Z) (diagnostic : list ascii) : Error :=
  let e := make_error domain_dependency (normalize_dependency status) native_code diagnostic in
  MkError (domain_ e) (code_ e) (native_code_ e) (retryability_ e) (security_relevance_ e)
    id operation status (diagnostic_context_ e) (diagnostic_context_length_ e)
    (diagnostic_truncated_ e).

(** The three-argument overload names no dependency. *)
Definition from_dependency_status (status : DependencyStatus) (native_code : Z)
    (diagnostic : list ascii) : Error :=
  from_dependency id_none op_none status native_code diagnostic.

Definition diagnostic_context (e : Error) : list ascii :=
  take (Z.to_nat (diagnostic_context_length_ e)) (diagnostic_context_ e).

(** ** Results *)
Inductive Result (A : Type) :=
  | Ok (a : A)
  | Err (e : Error).
Arguments Ok {A} a.
Arguments Err {A} e.

#[export] Instance Result_eq_dec `{EqDecision A} : EqDecision (Result A).
Proof. solve_decision. Defined.

#[export] Instance Result_ret : MRet Result := fun _ a => Ok a.
#[export] Instance Result_bind : MBind Result := fun _ _ k m =>
  match m with Ok a => k a | Err e => Err e end.
#[export] Instance Result_fmap : FMap Result := fun _ _ g m =>
  match m with Ok a => Ok (g a) | Err e => Err e end.

Definition has_value {A} (r : Result A) : bool :=
  match r with Ok _ => true | Err _ => false end.

(** [TRY x ⇐ r AT s IN k]: the code's [if (!r.has_value()) return unexpected{r.error()}],
    in a function that returns a result and the state [s] it has reached. *)
Notation "'TRY' x ⇐ r 'AT' s 'IN' k" :=
  (match r with Ok x => k | Err e => Ret (Err e, s) end)
  (at level 10, x pattern, r at level 99, s at level 99, k at level 200) : laghu_scope.

Lemma Result_bind_Ok_inv {A B} (m : Result A) (k : A -> Result B) (b : B) :
  (m ≫= k) = Ok b -> exists a, m = Ok a /\ k a = Ok b.
Proof. destruct m as [a|]; simpl; [eauto | discriminate]. Qed.

(** ** The diagnostic is bounded and zero-padded *)
Lemma list_inserts_replicate {A} (x : A) (l : list A) (n : nat) :
  (length l <= n)%nat -> list_inserts 0 l (replicate n x) = l ++ replicate (n - length l) x.
Proof.
  intros Hl. apply list_eq. intros i.
  destruct (decide (i < length l)%nat) as [Hi|Hi].
  - rewrite list_lookup_inserts by (rewrite ?length_replicate; lia).
    rewrite lookup_app_l by lia. f_equal; lia.
  - rewrite list_lookup_inserts_ge by lia.
    rewrite lookup_app_r by lia.
    destruct (decide (i < n)%nat).
    + rewrite !lookup_replicate_2 by lia. done.
    + rewrite !lookup_ge_None_2 by (rewrite length_replicate; lia). done.
Qed.

Lemma set_diagnostic_context_eq (diagnostic : list ascii) :
  set_diagnostic_context diagnostic =
    (take diagnostic_context_capacity diagnostic ++
       replicate (diagnostic_context_capacity - length diagnostic) Ascii.zero,
     Z.of_nat (Nat.min (length diagnostic) diagnostic_context_capacity),
     (diagnostic_context_capacity <? length diagnostic)%nat).
Proof.
  unfold set_diagnostic_context.
  set (copied := if (length diagnostic <? diagnostic_context_capacity)%nat
                 then length diagnostic else diagnostic_context_capacity).
  assert (copied = Nat.min (length diagnostic) diagnostic_context_capacity) as Hc.
  { unfold copied. destruct (Nat.ltb_spec (length diagnostic) diagnostic_context_capacity); lia. }
  rewrite list_inserts_replicate by (rewrite length_take; lia).
  assert (cast uint8_t (Z.of_nat copied) = Z.of_nat copied) as ->.
  { apply cast_in_range; [unfold int_type_ok; cbn; lia|].
    unfold diagnostic_context_capacity in *. cbn; lia. }
  rewrite Hc. f_equal; f_equal. f_equal.
  - by rewrite Nat.min_comm, <- take_take, (take_ge diagnostic (length diagnostic)).
  - f_equal. rewrite length_take. lia.
Qed.

(** The diagnostic of an error is the first 96 characters of the text it was given,
    the rest of the array is zero, and the truncation flag says whether text was lost. *)
Theorem Error_diagnostic_bounded (d : ErrorDomain) (c : ErrorCode) (native : Z)
    (diagnostic : list ascii) :
  let e := make_error d c native diagnostic in
  diagnostic_context e = take diagnostic_context_capacity diagnostic /\
  length (diagnostic_context_ e) = diagnostic_context_capacity /\
  drop (length (diagnostic_context e)) (diagnostic_context_ e) =
    replicate (diagnostic_context_capacity - length diagnostic) Ascii.zero /\
  (diagnostic_truncated_ e = true <-> (diagnostic_context_capacity < length diagnostic)%nat).
Proof.
  unfold make_error, diagnostic_context. rewrite set_diagnostic_context_eq. simpl.
  set (n := diagnostic_context_capacity).
  assert (length (take n diagnostic) = Nat.min (length diagnostic) n) as Hlen.
  { rewrite length_take. lia. }
  rewrite Nat2Z.id, <- Hlen, take_app_length. repeat split.
  - rewrite length_app, length_replicate. lia.
  - apply drop_app_length.
  - apply Nat.ltb_lt.
  - intros. by apply Nat.ltb_lt.
Qed.
