(* ===== verification/CheckedArithmetic.v ===== *)
(** * Checked arithmetic

    Models [src/core/contract/laghu/core/checked_arithmetic.hpp].  Each template is a
    function of the integral type it is instantiated at.  Every intermediate expression is
    computed modulo the width of the type, as the code computes it, so the exactness
    theorems also say that the guards themselves never wrap. *)
From S2P Require Import Prelude Contract.
From Stdlib Require Import ZArith Lia String.
From stdpp Require Import base numbers list option.

Set Default Goal Selector "!".
#[local] Open Scope Z_scope.

Definition arithmetic_overflow_error : Error :=
  core_error overflow "checked arithmetic overflow".

Definition invalid_range_error : Error :=
  core_error invalid_range "checked range is invalid".

Definition checked_add (T : int_type) (left right : Z) : Result Z :=
  let exceeds :=
    if is_signed T then
      ((0 <? right) && (cast T (int_max T - right) <? left)) ||
      ((right <? 0) && (left <? cast T (int_min T - right)))
    else cast T (int_max T - right) <? left in
  if exceeds then Err arithmetic_overflow_error else Ok (cast T (left + right)).

Definition checked_subtract (T : int_type) (left right : Z) : Result Z :=
  let exceeds :=
    if is_signed T then
      ((0 <? right) && (left <? cast T (int_min T + right))) ||
      ((right <? 0) && (cast T (int_max T + right) <? left))
    else left <? right in
  if exceeds then Err arithmetic_overflow_error else Ok (cast T (left - right)).

(** C++ integer division truncates towards zero: [Z.quot]. *)
Definition checked_multiply (T : int_type) (left right : Z) : Result Z :=
  if (left =? 0) || (right =? 0) then Ok 0
  else if is_signed T then
    if ((left =? -1) && (right =? int_min T)) || ((right =? -1) && (left =? int_min T))
    then Err arithmetic_overflow_error
    else if ((0 <? left) && (0 <? right) && (cast T (int_max T ÷ right) <? left)) ||
            ((0 <? left) && (right <? 0) && (right <? cast T (int_min T ÷ left))) ||
            ((left <? 0) && (0 <? right) && (left <? cast T (int_min T ÷ right))) ||
            ((left <? 0) && (right <? 0) && (left <? cast T (int_max T ÷ right)))
    then Err arithmetic_overflow_error
    else Ok (cast T (left * right))
  else if cast T (int_max T ÷ right) <? left then Err arithmetic_overflow_error
  else Ok (cast T (left * right)).

Definition checked_narrow (To : int_type) (value : Z) : Result Z :=
  if negb (in_range To value) then Err arithmetic_overflow_error else Ok (cast To value).

Definition checked_range (T : int_type) (offset length limit : Z) : Result unit :=
  if is_signed T && ((offset <? 0) || (length <? 0) || (limit <? 0)) then Err invalid_range_error
  else if limit <? offset then Err invalid_range_error
  else if cast T (int_max T - offset) <? length then Err arithmetic_overflow_error
  else if cast T (limit - offset) <? length then Err invalid_range_error
  else Ok tt.

Definition is_valid_range (T : int_type) (offset length limit : Z) : bool :=
  has_value (checked_range T offset length limit).

(** ** Exactness *)

Lemma int_bounds T : int_type_ok T ->
  (is_signed T = true /\ int_min T = - int_max T - 1 /\ 0 <= int_max T) \/
  (is_signed T = false /\ int_min T = 0 /\ 1 <= int_max T).
Proof.
  intros Hok. pose proof (pow2_half T Hok). unfold int_type_ok in Hok.
  pose proof (pow2_pos (bits T - 1) ltac:(lia)).
  unfold int_min, int_max. destruct (is_signed T); [left|right]; repeat split; lia.
Qed.

(** A checked operation returns the exact integer when it is representable, and the
    overflow error otherwise. *)
Definition exact_or_overflow (T : int_type) (z : Z) : Result Z :=
  if in_range T z then Ok z else Err arithmetic_overflow_error.

Lemma exact_or_overflow_iff T z b :
  int_type_ok T ->
  (b = true <-> ~ (int_min T <= z <= int_max T)) ->
  (if b then Err arithmetic_overflow_error else Ok (cast T z)) = exact_or_overflow T z.
Proof.
  intros Hok Hb. unfold exact_or_overflow. destruct (in_range T z) eqn:E.
  - apply in_range_iff in E. destruct b; [tauto|]. by rewrite cast_in_range.
  - apply in_range_false_iff in E. destruct b; [done|]. assert (false = true) by tauto. done.
Qed.

Section exactness.
Context (T : int_type) (Hok : int_type_ok T).
Context (left right : Z).
Context (Hl : int_min T <= left <= int_max T) (Hr : int_min T <= right <= int_max T).

Lemma checked_add_exact : checked_add T left right = exact_or_overflow T (left + right).
Proof using Hok Hl Hr.
  unfold checked_add. apply exact_or_overflow_iff; [done|].
  destruct (int_bounds T Hok) as [(Hs & Hm & Hp)|(Hs & Hm & Hp)]; rewrite Hs.
  - destruct (Z.ltb_spec 0 right), (Z.ltb_spec right 0); simpl;
      rewrite ?cast_in_range by (assumption || lia); rewrite ?orb_false_r; try lia.
  - rewrite cast_in_range by (assumption || lia). lia.
Qed.

Lemma checked_subtract_exact :
  checked_subtract T left right = exact_or_overflow T (left - right).
Proof using Hok Hl Hr.
  unfold checked_subtract. apply exact_or_overflow_iff; [done|].
  destruct (int_bounds T Hok) as [(Hs & Hm & Hp)|(Hs & Hm & Hp)]; rewrite Hs.
  - destruct (Z.ltb_spec 0 right), (Z.ltb_spec right 0); simpl;
      rewrite ?cast_in_range by (assumption || lia); rewrite ?orb_false_r; try lia.
  - lia.
Qed.

Lemma quot_bound m b : 0 <= m -> 0 < b -> forall a, (m ÷ b < a <-> m < a * b).
Proof using.
  intros Hm Hb a. rewrite Z.quot_div_nonneg by lia.
  pose proof (Z.mul_div_le m b ltac:(lia)). pose proof (Z.mul_succ_div_gt m b ltac:(lia)). nia.
Qed.

Lemma quot_range m b : 0 <= m -> 0 < b -> 0 <= m ÷ b <= m.
Proof using.
  intros Hm Hb. rewrite Z.quot_div_nonneg by lia.
  pose proof (Z.mul_div_le m b ltac:(lia)). pose proof (Z.div_pos m b). nia.
Qed.

(** The four sign cases of a signed multiplication guard. *)
Lemma signed_multiply_guard :
  is_signed T = true -> left <> 0 -> right <> 0 ->
  ~ (left = -1 /\ right = int_min T) -> ~ (right = -1 /\ left = int_min T) ->
  (((0 <? left) && (0 <? right) && (cast T (int_max T ÷ right) <? left)) ||
   ((0 <? left) && (right <? 0) && (right <? cast T (int_min T ÷ left))) ||
   ((left <? 0) && (0 <? right) && (left <? cast T (int_min T ÷ right))) ||
   ((left <? 0) && (right <? 0) && (left <? cast T (int_max T ÷ right)))) = true <->
  ~ (int_min T <= left * right <= int_max T).
Proof using Hok Hl Hr.
  intros Hs Hl0 Hr0 Hx Hy.
  destruct (int_bounds T Hok) as [(_ & Hm & Hp)|(Hf & _)]; [|congruence].
  set (M := int_max T) in *.
  destruct (Z.ltb_spec 0 left), (Z.ltb_spec left 0); try lia;
    destruct (Z.ltb_spec 0 right), (Z.ltb_spec right 0); try lia; simpl; rewrite ?orb_false_r.
  - pose proof (quot_range M right ltac:(lia) ltac:(lia)).
    rewrite cast_in_range by (assumption || lia). rewrite Z.ltb_lt, quot_bound by lia. nia.
  - replace (int_min T) with (- (M + 1)) by lia. rewrite Z.quot_opp_l by lia.
    pose proof (quot_range (M + 1) left ltac:(lia) ltac:(lia)).
    rewrite cast_in_range by (assumption || lia).
    pose proof (quot_bound (M + 1) left ltac:(lia) ltac:(lia) (- right)) as Hq.
    rewrite Z.ltb_lt. nia.
  - replace (int_min T) with (- (M + 1)) by lia. rewrite Z.quot_opp_l by lia.
    pose proof (quot_range (M + 1) right ltac:(lia) ltac:(lia)).
    rewrite cast_in_range by (assumption || lia).
    pose proof (quot_bound (M + 1) right ltac:(lia) ltac:(lia) (- left)) as Hq.
    rewrite Z.ltb_lt. nia.
  - replace right with (- - right) by lia. rewrite Z.quot_opp_r by lia.
    pose proof (quot_range M (- right) ltac:(lia) ltac:(lia)).
    rewrite cast_in_range by (assumption || lia).
    pose proof (quot_bound M (- right) ltac:(lia) ltac:(lia) (- left)) as Hq.
    rewrite Z.ltb_lt. nia.
Qed.

Lemma checked_multiply_exact :
  checked_multiply T left right = exact_or_overflow T (left * right).
Proof using Hok Hl Hr.
  unfold checked_multiply.
  destruct (int_bounds T Hok) as [(Hs & Hm & Hp)|(Hs & Hm & Hp)].
  all: destruct (Z.eqb_spec left 0) as [->|Hl0]; simpl;
    [rewrite Z.mul_0_l; unfold exact_or_overflow;
     by rewrite (proj2 (in_range_iff T 0)) by lia|].
  all: destruct (Z.eqb_spec right 0) as [->|Hr0]; simpl;
    [rewrite Z.mul_0_r; unfold exact_or_overflow;
     by rewrite (proj2 (in_range_iff T 0)) by lia|].
  all: rewrite Hs.
  - destruct (_ || _) eqn:Hcorner.
    + unfold exact_or_overflow. rewrite (proj2 (in_range_false_iff _ _)); [done|].
      apply orb_true_iff in Hcorner as [H|H]; apply andb_true_iff in H as [H1 H2]; lia.
    + apply orb_false_iff in Hcorner as [H1 H2].
      apply exact_or_overflow_iff; [done|]. apply signed_multiply_guard; try done; lia.
  - apply exact_or_overflow_iff; [done|].
    pose proof (quot_range (int_max T) right ltac:(lia) ltac:(lia)).
    rewrite cast_in_range by (assumption || lia). rewrite Z.ltb_lt, quot_bound by lia. nia.
Qed.
End exactness.

Lemma checked_narrow_exact To value :
  int_type_ok To -> checked_narrow To value = exact_or_overflow To value.
Proof.
  intros Hok. unfold checked_narrow, exact_or_overflow.
  destruct (in_range To value) eqn:E; simpl; [|done].
  apply in_range_iff in E. by rewrite cast_in_range.
Qed.

(** The reference definition of a valid sub-range, on unbounded integers. *)
Definition range_within (offset length limit : Z) : Prop :=
  0 <= offset /\ 0 <= length /\ offset + length <= limit.

Lemma checked_range_cases T offset length limit :
  int_type_ok T ->
  int_min T <= offset <= int_max T -> int_min T <= length <= int_max T ->
  int_min T <= limit <= int_max T ->
  (checked_range T offset length limit = Ok tt /\ range_within offset length limit) \/
  (checked_range T offset length limit = Err arithmetic_overflow_error /\
     0 <= offset <= limit /\ int_max T < offset + length) \/
  (checked_range T offset length limit = Err invalid_range_error /\
     ~ range_within offset length limit /\ (offset <= limit -> offset + length <= int_max T)).
Proof.
  intros Hok Ho Hn Hm. unfold checked_range, range_within.
  destruct (int_bounds T Hok) as [(Hs & Hmin & Hp)|(Hs & Hmin & Hp)]; rewrite Hs; simpl.
  1: destruct (Z.ltb_spec offset 0), (Z.ltb_spec length 0), (Z.ltb_spec limit 0); simpl;
    try (right; right; repeat split; lia).
  all: destruct (Z.ltb_spec limit offset); [right; right; repeat split; lia|].
  all: rewrite cast_in_range by (assumption || lia).
  all: destruct (Z.ltb_spec (int_max T - offset) length); [right; left; repeat split; lia|].
  all: rewrite cast_in_range by (assumption || lia).
  all: destruct (Z.ltb_spec (limit - offset) length); [right; right|left]; repeat split; lia.
Qed.

(** At [size_t], the form every other component uses. *)
Lemma size_t_ok : int_type_ok size_t.
Proof. unfold int_type_ok; cbn; lia. Qed.
#[export] Hint Resolve size_t_ok : laghu.

Lemma size_t_min : int_min size_t = 0.
Proof. reflexivity. Qed.
Lemma size_t_max : int_max size_t = size_max.
Proof. reflexivity. Qed.

Lemma checked_add_size_ok a b :
  0 <= a -> 0 <= b -> a + b <= size_max -> checked_add size_t a b = Ok (a + b).
Proof.
  intros. rewrite checked_add_exact; rewrite ?size_t_min, ?size_t_max; auto with laghu; try lia.
  unfold exact_or_overflow. rewrite (proj2 (in_range_iff _ _)); [done|].
  rewrite size_t_min, size_t_max. lia.
Qed.

Lemma checked_add_size_cases a b :
  0 <= a <= size_max -> 0 <= b <= size_max ->
  (a + b <= size_max /\ checked_add size_t a b = Ok (a + b)) \/
  (size_max < a + b /\ checked_add size_t a b = Err arithmetic_overflow_error).
Proof.
  intros. destruct (Z.le_gt_cases (a + b) size_max); [left|right]; split; try lia.
  - apply checked_add_size_ok; lia.
  - rewrite checked_add_exact; rewrite ?size_t_min, ?size_t_max; auto with laghu; try lia.
    unfold exact_or_overflow. rewrite (proj2 (in_range_false_iff _ _)); [done|].
    rewrite size_t_min, size_t_max. lia.
Qed.

Lemma checked_range_size_ok offset length limit :
  0 <= offset -> 0 <= length -> offset + length <= limit -> limit <= size_max ->
  checked_range size_t offset length limit = Ok tt.
Proof.
  intros. destruct (checked_range_cases size_t offset length limit) as [[-> _]|[(_&H')|(_&H'&_)]];
    rewrite ?size_t_min, ?size_t_max in *; auto with laghu; try lia.
  exfalso. apply H'. unfold range_within. lia.
Qed.

Lemma checked_range_size_inv offset length limit :
  0 <= offset <= size_max -> 0 <= length <= size_max -> 0 <= limit <= size_max ->
  checked_range size_t offset length limit = Ok tt -> offset + length <= limit.
Proof.
  intros ??? H. destruct (checked_range_cases size_t offset length limit)
    as [(_&Hr)|[(Hr&_)|(Hr&_)]]; rewrite ?size_t_min, ?size_t_max; auto with laghu.
  1: unfold range_within in Hr; lia.
  all: congruence.
Qed.

(** ** Properties *)

(** addition, subtraction, multiplication and narrowing at any integral width and
    signedness return the mathematical result exactly when it is representable, and the
    overflow error in every other case. *)
Theorem checked_arithmetic_exact (T : int_type) (left right : Z) :
  int_type_ok T ->
  int_min T <= left <= int_max T -> int_min T <= right <= int_max T ->
  checked_add T left right = exact_or_overflow T (left + right) /\
  checked_subtract T left right = exact_or_overflow T (left - right) /\
  checked_multiply T left right = exact_or_overflow T (left * right) /\
  (forall value, checked_narrow T value = exact_or_overflow T value).
Proof.
  intros Hok Hl Hr. repeat split.
  - by apply checked_add_exact.
  - by apply checked_subtract_exact.
  - by apply checked_multiply_exact.
  - intros. by apply checked_narrow_exact.
Qed.

Lemma checked_arithmetic_exact_witness :
  checked_multiply int32_t (-65536) 32768 = Ok (-2147483648) /\
  checked_multiply int32_t (-65536) (-32768) = Err arithmetic_overflow_error.
Proof.
  assert (int_type_ok int32_t) as Hok by (unfold int_type_ok; cbn; lia).
  split.
  - destruct (checked_arithmetic_exact int32_t (-65536) 32768 Hok) as (_ & _ & -> & _);
      [cbn; lia|cbn; lia|]. vm_compute. reflexivity.
  - destruct (checked_arithmetic_exact int32_t (-65536) (-32768) Hok) as (_ & _ & -> & _);
      [cbn; lia|cbn; lia|]. vm_compute. reflexivity.
Defined.

(** A range check accepts exactly the sub-ranges of the limit, and on rejection the
    error tells overflow of [offset + length] from a range that lies outside the limit. *)
Theorem checked_range_spec (T : int_type) (offset length limit : Z) :
  int_type_ok T ->
  int_min T <= offset <= int_max T -> int_min T <= length <= int_max T ->
  int_min T <= limit <= int_max T ->
  (is_valid_range T offset length limit = true <-> range_within offset length limit) /\
  (checked_range T offset length limit = Err arithmetic_overflow_error <->
     0 <= offset <= limit /\ int_max T < offset + length) /\
  (checked_range T offset length limit = Err invalid_range_error <->
     ~ range_within offset length limit /\
     ~ (0 <= offset <= limit /\ int_max T < offset + length)).
Proof.
  intros Hok Ho Hn Hm. unfold is_valid_range.
  destruct (checked_range_cases T offset length limit Hok Ho Hn Hm)
    as [(-> & H)|[(-> & H)|(-> & H & H')]]; simpl; unfold range_within in *.
  - split; [tauto|]. split; (split; [discriminate|]); intros; lia.
  - split; [split; [discriminate|lia]|]. split; [tauto|].
    split; [|lia]. intros Habs. by vm_compute in Habs.
  - split; [split; [discriminate|tauto]|]. split; [|split; [lia|tauto]].
    split; [|lia]. intros Habs. by vm_compute in Habs.
Qed.

Lemma checked_range_spec_witness :
  is_valid_range size_t 4 12 16 = true /\
  checked_range size_t 8 18446744073709551615 16 = Err arithmetic_overflow_error.
Proof.
  split.
  - apply (proj1 (checked_range_spec size_t 4 12 16 size_t_ok
             ltac:(cbn; lia) ltac:(cbn; lia) ltac:(cbn; lia))).
    unfold range_within. lia.
  - apply (proj1 (proj2 (checked_range_spec size_t 8 18446744073709551615 16 size_t_ok
             ltac:(cbn; lia) ltac:(cbn; lia) ltac:(cbn; lia)))).
    cbn. lia.
Defined.
