(* ===== verification/Identifiers.v ===== *)
(** * Strong identifiers

    Models [src/core/contract/laghu/core/identifiers.hpp]: the nonzero 64-bit identifier
    template and its fixed big-endian encoding.  The eight tags of the source only separate
    C++ types; one record models all of them. *)
From S2P Require Import Prelude Contract.
From Stdlib Require Import ZArith Lia String.
From stdpp Require Import base numbers list option.

Set Default Goal Selector "!".
#[local] Open Scope Z_scope.

Record StrongIdentifier := MkStrongIdentifier { value_ : Z }.

#[export] Instance StrongIdentifier_eq_dec : EqDecision StrongIdentifier.
Proof. solve_decision. Defined.

Definition WorkerId := StrongIdentifier.

Definition StrongIdentifier_encoded_size : nat := 8.

Definition from_uint64 (value : Z) : Result StrongIdentifier :=
  if value =? 0 then Err (core_error invalid_input "strong identifier must be nonzero")
  else Ok (MkStrongIdentifier value).

(** [encoded[index] = static_cast<std::byte>(value_ >> shift)] for each index in turn. *)
Definition StrongIdentifier_encode_big_endian (id : StrongIdentifier) : list Z :=
  map (fun index : nat =>
         let shift := Z.of_nat ((StrongIdentifier_encoded_size - 1 - index) * 8) in
         cast uint8_t (Z.shiftr (value_ id) shift))
      (seq 0 StrongIdentifier_encoded_size).

Definition StrongIdentifier_decode_big_endian (encoded : list Z) : Result StrongIdentifier :=
  if negb (length encoded =? StrongIdentifier_encoded_size)%nat then
    Err (core_error invalid_range "strong identifier encoding must contain 8 bytes")
  else
    from_uint64 (foldl (fun value byte => Z.lor (cast uint64_t (Z.shiftl value 8)) byte) 0 encoded).

(** ** The loops compute the reference representation *)
Lemma shift_loop_be_bytes (n : nat) (v : Z) :
  map (fun index : nat => cast uint8_t (Z.shiftr v (Z.of_nat ((n - 1 - index) * 8)))) (seq 0 n) =
  be_bytes n v.
Proof.
  assert (Hgen : forall k m, (k + m = n)%nat ->
    map (fun index : nat => cast uint8_t (Z.shiftr v (Z.of_nat ((n - 1 - index) * 8)))) (seq k m)
    = be_bytes m v).
  { intros k m. revert k. induction m as [|m IH]; intros k Hk; [done|].
    cbn [seq map be_bytes]. rewrite (IH (S k)) by lia. f_equal.
    replace (n - 1 - k)%nat with m by lia.
    rewrite Z.shiftr_div_pow2 by lia. unfold cast. cbn [is_signed bits uint8_t].
    replace (2 ^ Z.of_nat (m * 8)) with (256 ^ Z.of_nat m); [done|].
    change 256 with (2 ^ 8). rewrite <- Z.pow_mul_r by lia. f_equal. lia. }
  by apply (Hgen 0%nat n).
Qed.

(** A shift-and-or loop on an unsigned type of [8 * n] bits reads [n] bytes without loss. *)
Lemma lor_shift_add value byte : is_byte byte -> Z.lor (Z.shiftl value 8) byte = value * 256 + byte.
Proof.
  intros Hb. unfold is_byte in Hb.
  rewrite Z.shiftl_mul_pow2 by lia. change (2 ^ 8) with 256.
  rewrite <- Z.lxor_lor, <- Z.add_nocarry_lxor; [lia| |];
    apply Z.bits_inj'; intros i Hi; rewrite Z.land_spec, Z.bits_0; change 256 with (2 ^ 8);
    (destruct (Z.ltb_spec i 8);
     [rewrite Z.mul_pow2_bits_low by lia; done|
      replace byte with (byte mod 2 ^ 8) by (apply Z.mod_small; lia);
      rewrite Z.mod_pow2_bits_high by lia; apply andb_false_r]).
Qed.

Lemma lor_shift_loop (wrap_before : bool) (T : int_type) (w : nat) (l : list Z) :
  is_signed T = false -> bits T = 8 * Z.of_nat w -> (0 < w)%nat ->
  Forall is_byte l -> (length l <= w)%nat ->
  foldl (fun value byte =>
           if wrap_before then Z.lor (cast T (Z.shiftl value 8)) byte
           else cast T (Z.lor (Z.shiftl value 8) byte)) 0 l = be_value l.
Proof.
  intros Hs Hb Hw. induction l as [|b l IH] using rev_ind; intros Hl Hlen; [done|].
  apply Forall_app in Hl as [Hl Hb']. rewrite Forall_singleton in Hb'.
  rewrite length_app in Hlen. simpl in Hlen.
  rewrite be_value_snoc, foldl_app, IH by (done || lia). cbn [foldl].
  pose proof (be_value_range l Hl) as Hr. set (v := be_value l) in *.
  assert (Hp : 2 ^ bits T = 256 ^ Z.of_nat w).
  { rewrite Hb. change 256 with (2 ^ 8). by rewrite <- Z.pow_mul_r by lia. }
  assert (v * 256 + b < 2 ^ bits T).
  { rewrite Hp. apply Z.lt_le_trans with (256 ^ Z.of_nat (S (length l))).
    - rewrite pow256_succ. unfold is_byte in Hb'.
      lia.
    - apply Z.pow_le_mono_r; lia. }
  unfold is_byte in Hb'. unfold cast. rewrite Hs. destruct wrap_before.
  - rewrite Z.shiftl_mul_pow2 at 1 by lia. change (2 ^ 8) with 256.
    rewrite Z.mod_small by lia.
    rewrite <- (lor_shift_add v b Hb'), Z.shiftl_mul_pow2 by lia. done.
  - rewrite lor_shift_add by done. apply Z.mod_small. lia.
Qed.

Lemma StrongIdentifier_encode_eq id : StrongIdentifier_encode_big_endian id = be_bytes 8 (value_ id).
Proof. apply shift_loop_be_bytes. Qed.

Lemma StrongIdentifier_decode_eq encoded :
  Forall is_byte encoded -> length encoded = 8%nat ->
  StrongIdentifier_decode_big_endian encoded = from_uint64 (be_value encoded).
Proof.
  intros Hb Hl. unfold StrongIdentifier_decode_big_endian, StrongIdentifier_encoded_size.
  rewrite Hl. simpl. f_equal.
  apply (lor_shift_loop true uint64_t 8 encoded); auto; lia.
Qed.

(** Every identifier the constructor accepts survives encoding and decoding, the
    encoding has 8 bytes, and decoding accepts exactly the 8-byte strings that are not all
    zero, so the two directions are mutually inverse. *)
Theorem StrongIdentifier_roundtrip (value : Z) (encoded : list Z) :
  0 <= value <= u64_max -> Forall is_byte encoded ->
  (forall id, from_uint64 value = Ok id ->
     length (StrongIdentifier_encode_big_endian id) = 8%nat /\
     StrongIdentifier_decode_big_endian (StrongIdentifier_encode_big_endian id) = Ok id) /\
  (forall id, StrongIdentifier_decode_big_endian encoded = Ok id ->
     StrongIdentifier_encode_big_endian id = encoded) /\
  (has_value (StrongIdentifier_decode_big_endian encoded) = true <->
     length encoded = 8%nat /\ encoded <> replicate 8 0).
Proof.
  intros Hv Hb. split; [|split].
  - intros id Hid. rewrite StrongIdentifier_encode_eq. split; [apply be_bytes_length|].
    rewrite StrongIdentifier_decode_eq; [|apply be_bytes_is_byte|apply be_bytes_length].
    rewrite be_value_bytes. unfold from_uint64 in Hid.
    destruct (Z.eqb_spec value 0); [done|]. injection Hid as <-. simpl.
    unfold u64_max in Hv. change (256 ^ Z.of_nat 8) with (2 ^ 64).
    rewrite Z.mod_small by lia. unfold from_uint64. by rewrite (proj2 (Z.eqb_neq value 0)).
  - intros id Hid. assert (length encoded = 8%nat) as Hl.
    { unfold StrongIdentifier_decode_big_endian, StrongIdentifier_encoded_size in Hid.
      destruct (Nat.eqb_spec (length encoded) 8); [done|]. simpl in Hid. done. }
    rewrite StrongIdentifier_decode_eq in Hid by done. unfold from_uint64 in Hid.
    destruct (be_value encoded =? 0); [done|]. injection Hid as <-.
    rewrite StrongIdentifier_encode_eq. cbn [value_]. rewrite <- Hl. by apply be_bytes_value.
  - destruct (decide (length encoded = 8%nat)) as [Hl|Hl].
    + rewrite StrongIdentifier_decode_eq by done. unfold from_uint64.
      destruct (Z.eqb_spec (be_value encoded) 0) as [Hz|Hz]; simpl.
      * split; [done|]. intros [_ Hne]. destruct Hne.
        rewrite <- (be_bytes_value encoded Hb), Hl, Hz. reflexivity.
      * split; [|done]. intros _. split; [done|]. intros ->. apply Hz. reflexivity.
    + unfold StrongIdentifier_decode_big_endian, StrongIdentifier_encoded_size.
      rewrite (proj2 (Nat.eqb_neq _ _) Hl). simpl. split; [done|tauto].
Qed.

Lemma StrongIdentifier_roundtrip_witness :
  StrongIdentifier_decode_big_endian [0; 0; 0; 0; 0; 0; 1; 2] = Ok (MkStrongIdentifier 258) /\
  StrongIdentifier_encode_big_endian (MkStrongIdentifier 258) = [0; 0; 0; 0; 0; 0; 1; 2].
Proof.
  split; [reflexivity|].
  apply (proj1 (proj2 (StrongIdentifier_roundtrip 258 [0; 0; 0; 0; 0; 0; 1; 2]
           ltac:(unfold u64_max; lia)
           ltac:(repeat constructor; unfold is_byte; lia)))).
  reflexivity.
Defined.
