(* ===== verification/MemoryBudget.v ===== *)
(** * Hierarchical memory budgets

    Models [src/core/contract/laghu/core/memory_budget.hpp].  Budgets point to their
    parents and reservations point to budgets, so both live in one object store: a [Heap]
    maps the identity of each live object to its members.  Identities are handed out in
    construction order and never reused; a parent is constructed before its child, which
    bounds the loops over the chain of parents by [S this] iterations.

    The operations are written as the code writes them; the accounting invariant is in
    [BudgetInvariant.v] and the properties are in [MemoryBudgetSpec.v]. *)
From S2P Require Import Prelude Contract CheckedArithmetic Identifiers.
From Stdlib Require Import ZArith Lia String.
From stdpp Require Import base numbers list gmap option.

Set Default Goal Selector "!".
#[local] Open Scope Z_scope.

(** ** Data *)
Record MemoryBudget := MkMemoryBudget {
  mb_worker : WorkerId;
  mb_limit : Z;
  mb_charged : Z;
  mb_live_reservations : Z;
  mb_live_children : Z;
  mb_parent : option nat }.

Record MemoryReservation := MkMemoryReservation {
  mr_budget : option nat;
  mr_bytes : Z }.

Record Heap := MkHeap {
  budgets : gmap nat MemoryBudget;
  reservations : gmap nat MemoryReservation;
  next_object : nat }.

#[export] Instance MemoryBudget_eq_dec : EqDecision MemoryBudget.
Proof. solve_decision. Defined.
#[export] Instance MemoryReservation_eq_dec : EqDecision MemoryReservation.
Proof. solve_decision. Defined.

Definition empty_heap : Heap := MkHeap ∅ ∅ 0.

Definition inactive_reservation : MemoryReservation := MkMemoryReservation None 0.

Definition set_charged (b : MemoryBudget) (charged live : Z) : MemoryBudget :=
  MkMemoryBudget (mb_worker b) (mb_limit b) charged live (mb_live_children b) (mb_parent b).
Definition set_live_children (b : MemoryBudget) (n : Z) : MemoryBudget :=
  MkMemoryBudget (mb_worker b) (mb_limit b) (mb_charged b) (mb_live_reservations b) n (mb_parent b).
Definition with_budgets (h : Heap) (m : gmap nat MemoryBudget) : Heap :=
  MkHeap m (reservations h) (next_object h).
Definition with_reservation (h : Heap) (rid : nat) (r : MemoryReservation) : Heap :=
  MkHeap (budgets h) (<[rid := r]> (reservations h)) (next_object h).

(** Dereferencing a pointer to an object that is not live is undefined. *)
Definition the_budget (h : Heap) (id : nat) : outcome MemoryBudget :=
  match budgets h !! id with Some b => Ret b | None => Stop Undefined end.
Definition the_reservation (h : Heap) (rid : nat) : outcome MemoryReservation :=
  match reservations h !! rid with Some r => Ret r | None => Stop Undefined end.

(** ** Loops over the chain of parents

    [for (current = this; current != nullptr; current = current->parent_)], the body
    updating [*current] or terminating. *)
Fixpoint for_each_ancestor (fuel : nat) (body : MemoryBudget -> outcome MemoryBudget)
    (m : gmap nat MemoryBudget) (current : option nat) : outcome (gmap nat MemoryBudget) :=
  match current with
  | None => Ret m
  | Some id =>
      match fuel with
      | O => Stop OutOfFuel
      | S fuel' =>
          match m !! id with
          | None => Stop Undefined
          | Some b =>
              b' ← body b;
              for_each_ancestor fuel' body (<[id := b']> m) (mb_parent b')
          end
      end
  end.

Definition budget_exhausted_error : Error :=
  core_error exhaustion "memory budget capacity is exhausted".
Definition reservation_count_error : Error :=
  core_error overflow "memory budget reservation count overflow".

Fixpoint preflight_loop (fuel : nat) (m : gmap nat MemoryBudget) (current : option nat)
    (bytes : Z) : outcome (Result unit) :=
  match current with
  | None => Ret (Ok tt)
  | Some id =>
      match fuel with
      | O => Stop OutOfFuel
      | S fuel' =>
          match m !! id with
          | None => Stop Undefined
          | Some b =>
              if u64 (mb_limit b - mb_charged b) <? bytes then Ret (Err budget_exhausted_error)
              else if mb_live_reservations b =? size_max then Ret (Err reservation_count_error)
              else preflight_loop fuel' m (mb_parent b) bytes
          end
      end
  end.

(** ** [MemoryBudget] *)
Definition MemoryBudget_owns (b : MemoryBudget) (worker : WorkerId) : bool :=
  value_ (mb_worker b) =? value_ worker.

Definition budget_worker_error : Error :=
  core_error invalid_state "memory budget accessed by a different worker".

Definition MemoryBudget_require_worker (b : MemoryBudget) (worker : WorkerId) : Result unit :=
  if negb (MemoryBudget_owns b worker) then Err budget_worker_error else Ok tt.

Definition lifetime_error : Error :=
  core_error invalid_state "memory budget still has live children or reservations".

Definition MemoryBudget_preflight_reservation (h : Heap) (this : nat) (bytes : Z) :
    outcome (Result unit) :=
  preflight_loop (S this) (budgets h) (Some this) bytes.

Definition MemoryBudget_register_child (b : MemoryBudget) : outcome MemoryBudget :=
  if mb_live_children b =? size_max then Stop Terminated
  else Ret (set_live_children b (u64 (mb_live_children b + 1))).

Definition MemoryBudget_unregister_child (b : MemoryBudget) : outcome MemoryBudget :=
  if mb_live_children b =? 0 then Stop Terminated
  else Ret (set_live_children b (u64 (mb_live_children b - 1))).

Definition MemoryBudget_construct_root (h : Heap) (worker : WorkerId) (limit : Z) : nat * Heap :=
  let id := next_object h in
  (id, MkHeap (<[id := MkMemoryBudget worker limit 0 0 0 None]> (budgets h))
              (reservations h) (S id)).

Definition MemoryBudget_construct_child (h : Heap) (parent : nat) (limit : Z) :
    outcome (nat * Heap) :=
  p ← the_budget h parent;
  p' ← MemoryBudget_register_child p;
  let id := next_object h in
  Ret (id, MkHeap (<[id := MkMemoryBudget (mb_worker p) limit 0 0 0 (Some parent)]>
                     (<[parent := p']> (budgets h)))
                  (reservations h) (S id)).

Definition MemoryBudget_destroy (h : Heap) (this : nat) : outcome Heap :=
  b ← the_budget h this;
  if negb (mb_live_reservations b =? 0) || negb (mb_live_children b =? 0) then Stop Terminated
  else
    match mb_parent b with
    | None => Ret (with_budgets h (delete this (budgets h)))
    | Some p =>
        pb ← the_budget h p;
        pb' ← MemoryBudget_unregister_child pb;
        Ret (with_budgets h (delete this (<[p := pb']> (budgets h))))
    end.

Definition MemoryBudget_charged (h : Heap) (this : nat) (worker : WorkerId) : outcome (Result Z) :=
  b ← the_budget h this;
  Ret (_ ← MemoryBudget_require_worker b worker; Ok (mb_charged b)).

Definition MemoryBudget_available (h : Heap) (this : nat) (worker : WorkerId) :
    outcome (Result Z) :=
  b ← the_budget h this;
  Ret (_ ← MemoryBudget_require_worker b worker; Ok (u64 (mb_limit b - mb_charged b))).

Definition MemoryBudget_ready_for_destruction (h : Heap) (this : nat) (worker : WorkerId) :
    outcome (Result unit) :=
  b ← the_budget h this;
  Ret (_ ← MemoryBudget_require_worker b worker;
       if negb (mb_live_reservations b =? 0) || negb (mb_live_children b =? 0)
       then Err lifetime_error else Ok tt).

Definition charge_body (bytes : Z) (b : MemoryBudget) : outcome MemoryBudget :=
  Ret (set_charged b (u64 (mb_charged b + bytes)) (u64 (mb_live_reservations b + 1))).

(** The result is the identity of the reservation that is returned by value. *)
Definition MemoryBudget_reserve (h : Heap) (this : nat) (worker : WorkerId) (bytes : Z) :
    outcome (Result nat * Heap) :=
  b ← the_budget h this;
  TRY _ ⇐ MemoryBudget_require_worker b worker AT h IN
  preflight ← MemoryBudget_preflight_reservation h this bytes;
  TRY _ ⇐ preflight AT h IN
  m ← for_each_ancestor (S this) (charge_body bytes) (budgets h) (Some this);
  let rid := next_object h in
  Ret (Ok rid, MkHeap m (<[rid := MkMemoryReservation (Some this) bytes]> (reservations h)) (S rid)).

Definition release_body (bytes : Z) (b : MemoryBudget) : outcome MemoryBudget :=
  if (mb_charged b <? bytes) || (mb_live_reservations b =? 0) then Stop Terminated
  else Ret (set_charged b (u64 (mb_charged b - bytes)) (u64 (mb_live_reservations b - 1))).

Definition MemoryBudget_release (h : Heap) (this : nat) (bytes : Z) : outcome Heap :=
  m ← for_each_ancestor (S this) (release_body bytes) (budgets h) (Some this);
  Ret (with_budgets h m).

Definition grow_body (additional_bytes : Z) (b : MemoryBudget) : outcome MemoryBudget :=
  Ret (set_charged b (u64 (mb_charged b + additional_bytes)) (mb_live_reservations b)).

Definition reservation_size_error : Error :=
  core_error overflow "memory budget reservation size overflow".

Definition MemoryBudget_grow_reservation (h : Heap) (this rid : nat) (additional_bytes : Z) :
    outcome (Result unit * Heap) :=
  r ← the_reservation h rid;
  if negb (bool_decide (mr_budget r = Some this)) then Ret (Err lifetime_error, h) else
  preflight ← MemoryBudget_preflight_reservation h this additional_bytes;
  TRY _ ⇐ preflight AT h IN
  if u64 (size_max - mr_bytes r) <? additional_bytes then Ret (Err reservation_size_error, h) else
  m ← for_each_ancestor (S this) (grow_body additional_bytes) (budgets h) (Some this);
  Ret (Ok tt, with_reservation (with_budgets h m) rid
                (MkMemoryReservation (mr_budget r) (u64 (mr_bytes r + additional_bytes)))).

Definition shrink_body (bytes : Z) (b : MemoryBudget) : outcome MemoryBudget :=
  if mb_charged b <? bytes then Stop Terminated
  else Ret (set_charged b (u64 (mb_charged b - bytes)) (mb_live_reservations b)).

Definition shrink_error : Error :=
  core_error invalid_range "memory reservation cannot shrink below zero".

Definition MemoryBudget_shrink_reservation (h : Heap) (this rid : nat) (bytes : Z) :
    outcome (Result unit * Heap) :=
  r ← the_reservation h rid;
  if negb (bool_decide (mr_budget r = Some this)) then Ret (Err lifetime_error, h) else
  if mr_bytes r <? bytes then Ret (Err shrink_error, h) else
  m ← for_each_ancestor (S this) (shrink_body bytes) (budgets h) (Some this);
  Ret (Ok tt, with_reservation (with_budgets h m) rid
                (MkMemoryReservation (mr_budget r) (u64 (mr_bytes r - bytes)))).

(** ** [MemoryReservation] *)
Definition MemoryReservation_is_active (r : MemoryReservation) : bool :=
  bool_decide (mr_budget r ≠ None).

Definition MemoryReservation_construct (h : Heap) : nat * Heap :=
  let rid := next_object h in
  (rid, MkHeap (budgets h) (<[rid := inactive_reservation]> (reservations h)) (S rid)).

Definition MemoryReservation_release_unchecked (h : Heap) (rid : nat) : outcome Heap :=
  r ← the_reservation h rid;
  match mr_budget r with
  | None => Ret h
  | Some budget =>
      let bytes := mr_bytes r in
      MemoryBudget_release (with_reservation h rid inactive_reservation) budget bytes
  end.

Definition MemoryReservation_destroy (h : Heap) (rid : nat) : outcome Heap :=
  h' ← MemoryReservation_release_unchecked h rid;
  Ret (MkHeap (budgets h') (delete rid (reservations h')) (next_object h')).

Definition MemoryReservation_move_from (h : Heap) (this other : nat) : outcome Heap :=
  o ← the_reservation h other;
  Ret (with_reservation (with_reservation h this o) other inactive_reservation).

Definition MemoryReservation_move_construct (h : Heap) (other : nat) : outcome (nat * Heap) :=
  let '(rid, h) := MemoryReservation_construct h in
  h' ← MemoryReservation_move_from h rid other;
  Ret (rid, h').

Definition MemoryReservation_move_assign (h : Heap) (this other : nat) : outcome Heap :=
  if bool_decide (this = other) then Ret h
  else h' ← MemoryReservation_release_unchecked h this;
       MemoryReservation_move_from h' this other.

Definition MemoryReservation_release (h : Heap) (rid : nat) (worker : WorkerId) :
    outcome (Result unit * Heap) :=
  r ← the_reservation h rid;
  match mr_budget r with
  | None => Ret (Ok tt, h)
  | Some budget =>
      b ← the_budget h budget;
      TRY _ ⇐ MemoryBudget_require_worker b worker AT h IN
      h' ← MemoryReservation_release_unchecked h rid;
      Ret (Ok tt, h')
  end.

Definition inactive_grow_error : Error :=
  core_error invalid_state "inactive memory reservation cannot grow".
Definition inactive_shrink_error : Error :=
  core_error invalid_state "inactive memory reservation cannot shrink".

Definition MemoryReservation_grow (h : Heap) (rid : nat) (worker : WorkerId)
    (additional_bytes : Z) : outcome (Result unit * Heap) :=
  r ← the_reservation h rid;
  match mr_budget r with
  | None => Ret (Err inactive_grow_error, h)
  | Some budget =>
      b ← the_budget h budget;
      TRY _ ⇐ MemoryBudget_require_worker b worker AT h IN
      MemoryBudget_grow_reservation h budget rid additional_bytes
  end.

Definition MemoryReservation_shrink (h : Heap) (rid : nat) (worker : WorkerId) (bytes : Z) :
    outcome (Result unit * Heap) :=
  r ← the_reservation h rid;
  match mr_budget r with
  | None => Ret (Err inactive_shrink_error, h)
  | Some budget =>
      b ← the_budget h budget;
      TRY _ ⇐ MemoryBudget_require_worker b worker AT h IN
      MemoryBudget_shrink_reservation h budget rid bytes
  end.

(** [reserve_for_allocation]: the acquisition is the caller's; it acts on state of its own,
    of type [X].  When it fails, the temporary reservation is destroyed; when it succeeds,
    the temporary is moved into the result and then destroyed. *)
Definition MemoryBudget_reserve_for_allocation {X : Type} (h : Heap) (this : nat)
    (worker : WorkerId) (bytes : Z) (acquire : X -> outcome (Result unit * X)) (x : X) :
    outcome (Result nat * Heap * X) :=
  '(reservation, h) ← MemoryBudget_reserve h this worker bytes;
  match reservation with
  | Err e => Ret (Err e, h, x)
  | Ok temporary =>
      '(acquisition, x) ← acquire x;
      match acquisition with
      | Err e =>
          h ← MemoryReservation_destroy h temporary;
          Ret (Err e, h, x)
      | Ok _ =>
          '(result, h) ← MemoryReservation_move_construct h temporary;
          h ← MemoryReservation_destroy h temporary;
          Ret (Ok result, h, x)
      end
  end.

(** ** [EmergencyMemoryReserve]: a root budget of its own *)
Record EmergencyMemoryReserve := MkEmergencyMemoryReserve { emr_budget : nat }.

Definition EmergencyMemoryReserve_construct (h : Heap) (worker : WorkerId) (limit : Z) :
    EmergencyMemoryReserve * Heap :=
  let '(id, h) := MemoryBudget_construct_root h worker limit in
  (MkEmergencyMemoryReserve id, h).

Definition EmergencyMemoryReserve_reserve_emergency (h : Heap) (e : EmergencyMemoryReserve)
    (worker : WorkerId) (bytes : Z) : outcome (Result nat * Heap) :=
  MemoryBudget_reserve h (emr_budget e) worker bytes.

Definition EmergencyMemoryReserve_reserve_emergency_for_allocation {X : Type} (h : Heap)
    (e : EmergencyMemoryReserve) (worker : WorkerId) (bytes : Z)
    (acquire : X -> outcome (Result unit * X)) (x : X) : outcome (Result nat * Heap * X) :=
  MemoryBudget_reserve_for_allocation h (emr_budget e) worker bytes acquire x.

Definition EmergencyMemoryReserve_charged (h : Heap) (e : EmergencyMemoryReserve)
    (worker : WorkerId) : outcome (Result Z) :=
  MemoryBudget_charged h (emr_budget e) worker.

Definition EmergencyMemoryReserve_ready_for_destruction (h : Heap) (e : EmergencyMemoryReserve)
    (worker : WorkerId) : outcome (Result unit) :=
  MemoryBudget_ready_for_destruction h (emr_budget e) worker.
