(* ===== verification/BudgetInvariant.v ===== *)
(** * The accounting invariant of memory budgets

    The chain of a budget, the effect of a loop over it, and the invariant [Inv] that ties
    every counter of every budget to the live reservations and children, with one
    preservation lemma per way an operation changes the store. *)
From S2P Require Import Prelude Contract CheckedArithmetic Identifiers MemoryBudget.
From Stdlib Require Import ZArith Lia String.
From stdpp Require Import base numbers list gmap option.

Set Default Goal Selector "!".
#[local] Open Scope Z_scope.

(** ** Chains of parents *)
Definition parent_of (m : gmap nat MemoryBudget) (id : nat) : option nat := m !! id ≫= mb_parent.

Fixpoint chain_of (fuel : nat) (m : gmap nat MemoryBudget) (current : option nat) : list nat :=
  match current, fuel with
  | Some id, S fuel' => id :: chain_of fuel' m (parent_of m id)
  | _, _ => []
  end.

(** The budget [id] and its ancestors, nearest first. *)
Definition chain (m : gmap nat MemoryBudget) (id : nat) : list nat := chain_of (S id) m (Some id).

(** Parents are live, older than their children, and owned by the same worker. *)
Definition topology (m : gmap nat MemoryBudget) : Prop :=
  forall id b p, m !! id = Some b -> mb_parent b = Some p ->
    (p < id)%nat /\ exists pb, m !! p = Some pb /\ mb_worker pb = mb_worker b.

Lemma parent_of_Some m id b : m !! id = Some b -> parent_of m id = mb_parent b.
Proof. intros H. unfold parent_of. by rewrite H. Qed.

Lemma parent_of_lt m id p : topology m -> parent_of m id = Some p -> (p < id)%nat.
Proof.
  intros Ht. unfold parent_of. destruct (m !! id) as [b|] eqn:E; simpl; [|done].
  intros Hp. by destruct (Ht id b p E Hp).
Qed.

Lemma chain_of_fuel m f1 f2 cur :
  topology m -> (forall c, cur = Some c -> (c < f1)%nat /\ (c < f2)%nat) ->
  chain_of f1 m cur = chain_of f2 m cur.
Proof.
  intros Ht. revert f2 cur. induction f1 as [|f1 IH]; intros f2 cur Hc.
  - destruct cur as [c|]; [specialize (Hc c eq_refl); lia|]. by destruct f2.
  - destruct cur as [c|]; [|by destruct f2].
    destruct f2 as [|f2]; [specialize (Hc c eq_refl); lia|]. simpl. f_equal.
    apply IH. intros p Hp. pose proof (parent_of_lt m c p Ht Hp).
    specialize (Hc c eq_refl). lia.
Qed.

Lemma chain_unfold m id :
  topology m ->
  chain m id = id :: match parent_of m id with Some p => chain m p | None => [] end.
Proof.
  intros Ht. unfold chain at 1. cbn [chain_of]. f_equal.
  destruct (parent_of m id) as [p|] eqn:E; [|by destruct id].
  apply chain_of_fuel; [done|]. intros c [= <-]. pose proof (parent_of_lt m id p Ht E). lia.
Qed.

Lemma chain_of_le m fuel cur i :
  topology m -> i ∈ chain_of fuel m cur -> exists c, cur = Some c /\ (i <= c)%nat.
Proof.
  intros Ht. revert cur. induction fuel as [|f IH]; intros [c|]; simpl;
    try (intros H%elem_of_nil; done).
  intros [->|Hi]%elem_of_cons; [by exists c|].
  destruct (IH _ Hi) as (p & Hp & Hle). pose proof (parent_of_lt m c p Ht Hp).
  exists c. split; [done|lia].
Qed.

Lemma chain_le m id i : topology m -> i ∈ chain m id -> (i <= id)%nat.
Proof. intros Ht Hi. destruct (chain_of_le m _ _ _ Ht Hi) as (c & [= <-] & H). done. Qed.

Lemma chain_self m id : id ∈ chain m id.
Proof. unfold chain. simpl. apply elem_of_cons; by left. Qed.

(** Chains only read the parents of the identities they visit. *)
Lemma chain_of_agree m m' fuel cur :
  topology m ->
  (forall c i, cur = Some c -> (i <= c)%nat -> parent_of m i = parent_of m' i) ->
  chain_of fuel m cur = chain_of fuel m' cur.
Proof.
  intros Ht. revert cur. induction fuel as [|f IH]; intros [c|] Hag; simpl; try done.
  f_equal. rewrite <- (Hag c c eq_refl (le_n c)).
  apply IH. intros p i Hp Hi. apply (Hag c i eq_refl).
  pose proof (parent_of_lt m c p Ht Hp). lia.
Qed.

Lemma chain_agree m m' id :
  topology m -> (forall i, (i <= id)%nat -> parent_of m i = parent_of m' i) ->
  chain m id = chain m' id.
Proof.
  intros Ht Hag. apply chain_of_agree; [done|]. intros c i [= <-]. apply Hag.
Qed.

Lemma chain_same_parents m m' id :
  topology m -> (forall i, parent_of m i = parent_of m' i) -> chain m id = chain m' id.
Proof. intros Ht Hag. by apply chain_agree. Qed.

(** Every member of the chain of a live budget is live. *)
Lemma chain_live m id b i :
  topology m -> m !! id = Some b -> i ∈ chain m id ->
  exists bi, m !! i = Some bi /\ mb_worker bi = mb_worker b.
Proof.
  intros Ht. revert b. induction id as [id IH] using lt_wf_ind. intros b Hb.
  rewrite (chain_unfold m id Ht), (parent_of_Some _ _ _ Hb). intros [->|Hi]%elem_of_cons.
  - by exists b.
  - destruct (mb_parent b) as [p|] eqn:Hp; [|by apply elem_of_nil in Hi].
    destruct (Ht id b p Hb Hp) as (Hlt & pb & Hpb & Hw).
    destruct (IH p Hlt pb Hpb Hi) as (bi & Hbi & Hwi). exists bi. split; [done|congruence].
Qed.

(** ** Loops over a chain *)

(** The store in which [g] has been applied to every budget of the chain of [id]. *)
Definition update_chain (g : MemoryBudget -> MemoryBudget) (m : gmap nat MemoryBudget) (id : nat) :
    gmap nat MemoryBudget :=
  map_imap (fun i b => Some (if decide (i ∈ chain m id) then g b else b)) m.

Lemma lookup_update_chain g m id i :
  update_chain g m id !! i =
  (fun b => if decide (i ∈ chain m id) then g b else b) <$> m !! i.
Proof. unfold update_chain. rewrite map_lookup_imap. by destruct (m !! i). Qed.

(** The shape of the tree does not depend on the counters. *)
Lemma topology_update m c b b' :
  topology m -> m !! c = Some b -> mb_parent b' = mb_parent b -> mb_worker b' = mb_worker b ->
  topology (<[c:=b']> m).
Proof.
  intros Ht Hb Hgp Hgw i bi p Hi Hp.
  assert (exists bi0, m !! i = Some bi0 /\ mb_parent bi0 = Some p
    /\ mb_worker bi0 = mb_worker bi) as (bi0 & Hi0 & Hp0 & Hw0).
  { destruct (decide (i = c)) as [->|Hne].
    - rewrite lookup_insert_eq in Hi. injection Hi as <-. exists b. by rewrite <- Hgp.
    - rewrite lookup_insert_ne in Hi by done. by exists bi. }
  destruct (Ht i bi0 p Hi0 Hp0) as (Hpi & pb & Hpb & Hw). split; [done|].
  destruct (decide (p = c)) as [->|Hne].
  - exists b'. rewrite lookup_insert_eq. split; [done|].
    rewrite Hb in Hpb. injection Hpb as <-. congruence.
  - exists pb. rewrite lookup_insert_ne by done. split; [done|congruence].
Qed.

Lemma for_each_ancestor_aux body g fuel m cur :
  topology m ->
  (forall c, cur = Some c -> (c < fuel)%nat /\ is_Some (m !! c)) ->
  (forall i b, i ∈ chain_of fuel m cur -> m !! i = Some b -> body b = Ret (g b)) ->
  (forall b, mb_parent (g b) = mb_parent b /\ mb_worker (g b) = mb_worker b) ->
  exists m', for_each_ancestor fuel body m cur = Ret m' /\
    forall i, m' !! i = (fun b => if decide (i ∈ chain_of fuel m cur) then g b else b) <$> m !! i.
Proof.
  intros Ht Hc Hbody Hg. revert m cur Ht Hc Hbody.
  induction fuel as [|f IH]; intros m [c|] Ht Hc Hbody.
  1: destruct (Hc c eq_refl); lia.
  1, 3: exists m; split; [done|]; intros i; simpl; destruct (m !! i); done.
  destruct (Hc c eq_refl) as (Hlt & b & Hb). simpl. rewrite Hb.
  rewrite (Hbody c b) by (done || (simpl; apply elem_of_cons; by left)). simpl.
  destruct (Hg b) as [Hgp Hgw]. rewrite Hgp.
  assert (Hpar : forall i, parent_of m i = parent_of (<[c:=g b]> m) i).
  { intros i. unfold parent_of. destruct (decide (i = c)) as [->|Hne].
    - rewrite lookup_insert_eq, Hb. simpl. by rewrite Hgp.
    - by rewrite lookup_insert_ne. }
  pose proof (topology_update m c b (g b) Ht Hb Hgp Hgw) as Ht'.
  rewrite (parent_of_Some _ _ _ Hb).
  assert (Hch : chain_of f (<[c:=g b]> m) (mb_parent b) = chain_of f m (mb_parent b)).
  { symmetry. apply chain_of_agree; auto. }
  assert (Hbelow : forall i, i ∈ chain_of f m (mb_parent b) -> (i < c)%nat).
  { intros i Hi. destruct (chain_of_le m f _ i Ht Hi) as (p & Hp & Hle).
    destruct (Ht c b p Hb Hp). lia. }
  destruct (IH (<[c:=g b]> m) (mb_parent b)) as (m' & Hrun & Hm').
  - done.
  - intros p Hp. destruct (Ht c b p Hb Hp) as (Hpc & pb & Hpb & _). split; [lia|].
    rewrite lookup_insert_ne by lia. by exists pb.
  - intros i bi. rewrite Hch. intros Hi. pose proof (Hbelow i Hi).
    rewrite lookup_insert_ne by lia. apply Hbody. apply elem_of_cons; right.
    by rewrite (parent_of_Some _ _ _ Hb).
  - exists m'. split; [done|]. intros i. rewrite Hm', Hch.
    destruct (decide (i = c)) as [->|Hne].
    + rewrite lookup_insert_eq, Hb. simpl.
      rewrite decide_False by (intros Hi; pose proof (Hbelow c Hi); lia).
      rewrite decide_True by (apply elem_of_cons; by left). done.
    + rewrite lookup_insert_ne by done. destruct (m !! i); simpl; [|done]. f_equal.
      apply decide_ext. rewrite elem_of_cons. split; [by right|]. intros [?|?]; done.
Qed.

(** A loop whose body returns [g] on every budget of the chain updates exactly the chain. *)
Lemma for_each_ancestor_run body g m this b0 :
  topology m -> m !! this = Some b0 ->
  (forall i b, i ∈ chain m this -> m !! i = Some b -> body b = Ret (g b)) ->
  (forall b, mb_parent (g b) = mb_parent b /\ mb_worker (g b) = mb_worker b) ->
  for_each_ancestor (S this) body m (Some this) = Ret (update_chain g m this).
Proof.
  intros Ht Hb0 Hbody Hg.
  destruct (for_each_ancestor_aux body g (S this) m (Some this)) as (m' & -> & Hm'); try done.
  - intros c [= <-]. split; [lia|by exists b0].
  - f_equal. apply map_eq. intros i. by rewrite Hm', lookup_update_chain.
Qed.

(** The preflight accepts exactly when every budget of the chain has room and a free
    reservation count. *)
Definition has_room (bytes : Z) (b : MemoryBudget) : bool :=
  negb (u64 (mb_limit b - mb_charged b) <? bytes) && negb (mb_live_reservations b =? size_max).

Lemma preflight_loop_run fuel m cur bytes :
  topology m -> (forall c, cur = Some c -> (c < fuel)%nat /\ is_Some (m !! c)) ->
  exists r, preflight_loop fuel m cur bytes = Ret r /\
    (r = Ok tt <->
     forall i b, i ∈ chain_of fuel m cur -> m !! i = Some b -> has_room bytes b = true) /\
    (r = Ok tt \/ r = Err budget_exhausted_error \/ r = Err reservation_count_error).
Proof.
  intros Ht. revert cur. induction fuel as [|f IH]; intros [c|] Hc.
  1: destruct (Hc c eq_refl); lia.
  1, 3: exists (Ok tt); simpl; repeat split; auto; intros; by apply elem_of_nil in H0.
  destruct (Hc c eq_refl) as (Hlt & b & Hb). cbn [preflight_loop chain_of]. rewrite Hb.
  rewrite (parent_of_Some _ _ _ Hb).
  assert (Hself : has_room bytes b = false -> ~ (forall i b0, i ∈ c :: chain_of f m (mb_parent b) ->
    m !! i = Some b0 -> has_room bytes b0 = true)).
  { intros Hno Hall. rewrite (Hall c b) in Hno; [done|apply elem_of_cons; by left|done]. }
  destruct (u64 (mb_limit b - mb_charged b) <? bytes) eqn:E1.
  { eexists; split; [done|]. split; [|auto]. split; [done|]. intros Hall.
    exfalso. apply Hself; [|done]. unfold has_room. by rewrite E1. }
  destruct (mb_live_reservations b =? size_max) eqn:E2.
  { eexists; split; [done|]. split; [|auto]. split; [done|]. intros Hall.
    exfalso. apply Hself; [|done]. unfold has_room. by rewrite E1, E2. }
  destruct (IH (mb_parent b)) as (r & -> & Hr & Hcases).
  { intros p Hp. destruct (Ht c b p Hb Hp) as (? & pb & ? & _). split; [lia|by exists pb]. }
  exists r. split; [done|]. split; [|done]. rewrite Hr. split; intros Hall i bi.
  - intros [->|Hi]%elem_of_cons Hbi; [|by apply (Hall i)].
    rewrite Hb in Hbi. injection Hbi as <-. unfold has_room. by rewrite E1, E2.
  - intros Hi. apply Hall. apply elem_of_cons; by right.
Qed.

(** ** The invariant *)

(** Reservation [r] is charged to the budget [id]: [id] is on the chain of its budget. *)
Definition below (m : gmap nat MemoryBudget) (id : nat) (r : MemoryReservation) : bool :=
  match mr_budget r with Some a => bool_decide (id ∈ chain m a) | None => false end.

Definition bytes_below (m : gmap nat MemoryBudget) (id : nat) (_ : nat) (r : MemoryReservation) : Z :=
  if below m id r then mr_bytes r else 0.
Definition count_below (m : gmap nat MemoryBudget) (id : nat) (_ : nat) (r : MemoryReservation) : Z :=
  if below m id r then 1 else 0.
Definition is_child (id : nat) (_ : nat) (b : MemoryBudget) : Z :=
  if bool_decide (mb_parent b = Some id) then 1 else 0.

Definition reservation_ok (m : gmap nat MemoryBudget) (r : MemoryReservation) : Prop :=
  0 <= mr_bytes r /\
  match mr_budget r with Some a => is_Some (m !! a) | None => mr_bytes r = 0 end.

Record budget_ok (h : Heap) (id : nat) (b : MemoryBudget) : Prop := {
  ok_limit : mb_limit b <= size_max;
  ok_charged : mb_charged b = map_sum (bytes_below (budgets h) id) (reservations h);
  ok_within : mb_charged b <= mb_limit b;
  ok_live : mb_live_reservations b = map_sum (count_below (budgets h) id) (reservations h);
  ok_live_max : mb_live_reservations b <= size_max;
  ok_children : mb_live_children b = map_sum (is_child id) (budgets h);
  ok_children_max : mb_live_children b <= size_max }.

Record Inv (h : Heap) : Prop := {
  inv_topology : topology (budgets h);
  inv_fresh : forall id, (next_object h <= id)%nat ->
    budgets h !! id = None /\ reservations h !! id = None;
  inv_budgets : forall id b, budgets h !! id = Some b -> budget_ok h id b;
  inv_reservations : forall rid r, reservations h !! rid = Some r -> reservation_ok (budgets h) r }.

Lemma Inv_empty : Inv empty_heap.
Proof.
  split; cbn.
  - intros ??? H. by rewrite lookup_empty in H.
  - intros. by rewrite !lookup_empty.
  - intros ?? H. by rewrite lookup_empty in H.
  - intros ?? H. by rewrite lookup_empty in H.
Qed.

Lemma bytes_below_nonneg h id k r :
  Inv h -> reservations h !! k = Some r -> 0 <= bytes_below (budgets h) id k r.
Proof.
  intros HI Hr. unfold bytes_below. destruct (inv_reservations h HI k r Hr).
  destruct (below _ _ r); lia.
Qed.

Lemma count_below_nonneg m id k r : 0 <= count_below m id k r.
Proof. unfold count_below. destruct (below _ _ _); lia. Qed.

Lemma is_child_nonneg id k b : 0 <= is_child id k b.
Proof. unfold is_child. destruct (bool_decide _); lia. Qed.
#[export] Hint Resolve bytes_below_nonneg count_below_nonneg is_child_nonneg : laghu.

Lemma budget_ok_nonneg h id b :
  Inv h -> budgets h !! id = Some b ->
  0 <= mb_charged b /\ 0 <= mb_live_reservations b /\ 0 <= mb_live_children b /\
  mb_charged b <= mb_limit b <= size_max /\
  mb_live_reservations b <= size_max /\ mb_live_children b <= size_max.
Proof.
  intros HI Hb. destruct (inv_budgets h HI id b Hb) as [? Hc ? Hl ? Hk ?].
  assert (0 <= mb_charged b) by (rewrite Hc; apply map_sum_nonneg; eauto with laghu).
  assert (0 <= mb_live_reservations b) by (rewrite Hl; apply map_sum_nonneg; auto with laghu).
  assert (0 <= mb_live_children b) by (rewrite Hk; apply map_sum_nonneg; auto with laghu).
  repeat split; lia.
Qed.

(** An active reservation is covered by the counters of every budget above it. *)
Lemma active_covered h rid r a i b :
  Inv h -> reservations h !! rid = Some r -> mr_budget r = Some a ->
  i ∈ chain (budgets h) a -> budgets h !! i = Some b ->
  mr_bytes r <= mb_charged b /\ 1 <= mb_live_reservations b.
Proof.
  intros HI Hr Ha Hi Hb. destruct (inv_budgets h HI i b Hb) as [? Hc ? Hl ? Hk ?].
  assert (Hbel : below (budgets h) i r = true).
  { unfold below. rewrite Ha. by apply bool_decide_eq_true. }
  rewrite Hc, Hl. split.
  - replace (mr_bytes r) with (bytes_below (budgets h) i rid r)
      by (unfold bytes_below; by rewrite Hbel).
    apply map_sum_ge; eauto with laghu.
  - replace 1 with (count_below (budgets h) i rid r) by (unfold count_below; by rewrite Hbel).
    apply map_sum_ge; auto with laghu.
Qed.

(** Reservations live under live budgets, so their chains are live. *)
Lemma reservation_budget_live h rid r a :
  Inv h -> reservations h !! rid = Some r -> mr_budget r = Some a ->
  exists b, budgets h !! a = Some b.
Proof.
  intros HI Hr Ha. destruct (inv_reservations h HI rid r Hr) as [_ H]. rewrite Ha in H. exact H.
Qed.

(** ** Updates of a chain *)
Definition adjust (delta epsilon : Z) (b : MemoryBudget) : MemoryBudget :=
  set_charged b (mb_charged b + delta) (mb_live_reservations b + epsilon).

Lemma adjust_parent delta epsilon b :
  mb_parent (adjust delta epsilon b) = mb_parent b /\
  mb_worker (adjust delta epsilon b) = mb_worker b.
Proof. done. Qed.

Section update_chain.
Context (m : gmap nat MemoryBudget) (a : nat) (g : MemoryBudget -> MemoryBudget).
Context (Hg : forall b, mb_parent (g b) = mb_parent b /\ mb_worker (g b) = mb_worker b).

Lemma update_chain_parent i : parent_of (update_chain g m a) i = parent_of m i.
Proof using Hg.
  unfold parent_of. rewrite lookup_update_chain. destruct (m !! i) as [b|]; simpl; [|done].
  destruct (decide _); [apply Hg|done].
Qed.

Lemma update_chain_topology : topology m -> topology (update_chain g m a).
Proof using Hg.
  intros Ht i b p Hb Hp. rewrite lookup_update_chain in Hb.
  destruct (m !! i) as [b0|] eqn:Hb0; simpl in Hb; [|done]. injection Hb as <-.
  assert (mb_parent b0 = Some p) as Hp0.
  { destruct (decide _); [|done]. by rewrite <- (proj1 (Hg b0)). }
  destruct (Ht i b0 p Hb0 Hp0) as (Hlt & pb & Hpb & Hw). split; [done|].
  rewrite lookup_update_chain, Hpb. simpl. eexists; split; [done|].
  destruct (decide (p ∈ _)), (decide (i ∈ _)); rewrite ?(proj2 (Hg _)); done.
Qed.

Lemma update_chain_chain i : topology m -> chain (update_chain g m a) i = chain m i.
Proof using Hg.
  intros Ht. symmetry. apply chain_same_parents; [done|]. intros. symmetry. apply update_chain_parent.
Qed.

Lemma update_chain_below i r : topology m -> below (update_chain g m a) i r = below m i r.
Proof using Hg. intros Ht. unfold below. destruct (mr_budget r); [|done]. by rewrite update_chain_chain. Qed.

Lemma update_chain_is_child id : map_sum (is_child id) (update_chain g m a) = map_sum (is_child id) m.
Proof using Hg.
  unfold update_chain. generalize (chain m a). intros l. clear a.
  induction m as [|k b m' Hk IH] using map_ind; [by rewrite map_imap_empty|].
  rewrite (map_imap_insert_Some _ k b _ (if decide (k ∈ l) then g b else b)) by done.
  rewrite !map_sum_insert by (done || (rewrite map_lookup_imap, Hk; done)).
  rewrite IH. f_equal. unfold is_child. destruct (decide _); [|done]. by rewrite (proj1 (Hg b)).
Qed.
End update_chain.

Lemma update_chain_ext g g' m a :
  (forall i b, i ∈ chain m a -> m !! i = Some b -> g b = g' b) ->
  update_chain g m a = update_chain g' m a.
Proof.
  intros Hgg. apply map_eq. intros i. rewrite !lookup_update_chain.
  destruct (m !! i) as [b|] eqn:Hb; simpl; [|done]. f_equal.
  destruct (decide _) as [Hi|]; [by apply (Hgg i)|done].
Qed.

Lemma update_chain_compose g g' m a :
  topology m -> (forall b, mb_parent (g b) = mb_parent b /\ mb_worker (g b) = mb_worker b) ->
  update_chain g' (update_chain g m a) a = update_chain (fun b => g' (g b)) m a.
Proof.
  intros Ht Hg. apply map_eq. intros i. rewrite !lookup_update_chain.
  rewrite update_chain_chain by done.
  destruct (m !! i) as [b|]; simpl; [|done]. by destruct (decide _).
Qed.

Lemma update_chain_id m a : update_chain (fun b => b) m a = m.
Proof.
  apply map_eq. intros i. rewrite lookup_update_chain. destruct (m !! i); simpl; [|done].
  by destruct (decide _).
Qed.

(** The invariant after the counters of one chain moved by [delta] and [epsilon], when the
    reservations account for exactly that movement. *)
Lemma Inv_adjust h a b0 delta epsilon rs next :
  Inv h -> budgets h !! a = Some b0 ->
  (forall i b, i ∈ chain (budgets h) a -> budgets h !! i = Some b ->
     mb_charged b + delta <= mb_limit b /\ mb_live_reservations b + epsilon <= size_max) ->
  (forall id, map_sum (bytes_below (budgets h) id) rs =
     map_sum (bytes_below (budgets h) id) (reservations h) +
     (if decide (id ∈ chain (budgets h) a) then delta else 0)) ->
  (forall id, map_sum (count_below (budgets h) id) rs =
     map_sum (count_below (budgets h) id) (reservations h) +
     (if decide (id ∈ chain (budgets h) a) then epsilon else 0)) ->
  (forall rid r, rs !! rid = Some r -> reservation_ok (budgets h) r) ->
  (next_object h <= next)%nat -> (forall rid, (next <= rid)%nat -> rs !! rid = None) ->
  Inv (MkHeap (update_chain (adjust delta epsilon) (budgets h) a) rs next).
Proof.
  intros HI Ha Hroom Hbytes Hcount Hok Hnext Hfresh.
  pose proof (inv_topology h HI) as Ht. pose proof (adjust_parent delta epsilon) as Hg.
  split; cbn [budgets reservations next_object].
  - by apply update_chain_topology.
  - intros id Hid. split; [|by apply Hfresh]. rewrite lookup_update_chain.
    by rewrite (proj1 (inv_fresh h HI id ltac:(lia))).
  - intros id b Hb. rewrite lookup_update_chain in Hb.
    destruct (budgets h !! id) as [b1|] eqn:Hb1; simpl in Hb; [|done]. injection Hb as <-.
    destruct (inv_budgets h HI id b1 Hb1) as [H1 H2 H3 H4 H5 H6 H7].
    assert (Hs1 : map_sum (bytes_below (update_chain (adjust delta epsilon) (budgets h) a) id) rs =
                  map_sum (bytes_below (budgets h) id) rs).
    { apply map_sum_ext. intros. unfold bytes_below. by rewrite update_chain_below. }
    assert (Hs2 : map_sum (count_below (update_chain (adjust delta epsilon) (budgets h) a) id) rs =
                  map_sum (count_below (budgets h) id) rs).
    { apply map_sum_ext. intros. unfold count_below. by rewrite update_chain_below. }
    specialize (Hbytes id). specialize (Hcount id). specialize (Hroom id b1).
    destruct (decide (id ∈ chain (budgets h) a)) as [Hin|Hin];
      split; cbn [budgets reservations adjust set_charged mb_limit mb_charged
                  mb_live_reservations mb_live_children];
      rewrite ?Hs1, ?Hs2, ?update_chain_is_child by done; try done; try lia.
    all: destruct (Hroom Hin Hb1); lia.
  - intros rid r Hr. destruct (Hok rid r Hr) as [Hpos Hlive]. split; [done|].
    destruct (mr_budget r) as [c|]; [|done]. destruct Hlive as [bc Hbc].
    rewrite lookup_update_chain, Hbc. by eexists.
Qed.

(** The reservation movements the operations perform. *)
Lemma bytes_below_eq m id rid r a :
  mr_budget r = Some a -> bytes_below m id rid r = if decide (id ∈ chain m a) then mr_bytes r else 0.
Proof.
  intros Ha. unfold bytes_below, below. rewrite Ha. by destruct (decide _) as [H|H];
    [rewrite bool_decide_true|rewrite bool_decide_false].
Qed.
Lemma count_below_eq m id rid r a :
  mr_budget r = Some a -> count_below m id rid r = if decide (id ∈ chain m a) then 1 else 0.
Proof.
  intros Ha. unfold count_below, below. rewrite Ha. by destruct (decide _) as [H|H];
    [rewrite bool_decide_true|rewrite bool_decide_false].
Qed.
Lemma below_inactive m id r : mr_budget r = None -> below m id r = false.
Proof. intros H. unfold below. by rewrite H. Qed.
