(* ===== verification/MemoryBudgetSpec.v ===== *)
(** * What memory budgets promise

    Specifications of the operations of [MemoryBudget.v] from a store that satisfies the
    accounting invariant, the step relation of a client program, and the properties:
    the invariant holds in every reachable store, no operation on live objects terminates
    the process, [reserve] is all-or-nothing and is undone exactly by [release]. *)
From S2P Require Import Prelude Contract CheckedArithmetic Identifiers MemoryBudget BudgetInvariant.
From Stdlib Require Import ZArith Lia String.
From stdpp Require Import base numbers list gmap option.

Set Default Goal Selector "!".
#[local] Open Scope Z_scope.

#[global] Arguments for_each_ancestor : simpl never.
#[global] Arguments preflight_loop : simpl never.

Definition is_size (z : Z) : Prop := 0 <= z <= size_max.

(** ** Loops of the operations *)
Section loops.
Context (h : Heap) (HI : Inv h) (this : nat) (b0 : MemoryBudget).
Context (Hthis : budgets h !! this = Some b0).

Lemma chain_member_live i :
  i ∈ chain (budgets h) this -> exists b, budgets h !! i = Some b.
Proof using HI Hthis.
  intros Hi. destruct (chain_live (budgets h) this b0 i (inv_topology h HI) Hthis Hi) as (b & Hb & _).
  by exists b.
Qed.

(** The room every budget of the chain must have for [bytes] more. *)
Definition chain_has_room (bytes : Z) : Prop :=
  forall i b, i ∈ chain (budgets h) this -> budgets h !! i = Some b ->
    mb_charged b + bytes <= mb_limit b /\ mb_live_reservations b < size_max.

Lemma has_room_iff bytes i b :
  budgets h !! i = Some b -> 0 <= bytes ->
  has_room bytes b = true <-> mb_charged b + bytes <= mb_limit b /\ mb_live_reservations b < size_max.
Proof using HI.
  intros Hb Hn. pose proof (budget_ok_nonneg h i b HI Hb). unfold has_room.
  rewrite u64_small by (unfold size_max in *; lia). rewrite andb_true_iff, !negb_true_iff. lia.
Qed.

Lemma preflight_run bytes :
  0 <= bytes ->
  exists r, MemoryBudget_preflight_reservation h this bytes = Ret r /\
    (r = Ok tt <-> chain_has_room bytes) /\
    (r = Ok tt \/ r = Err budget_exhausted_error \/ r = Err reservation_count_error).
Proof using HI Hthis.
  intros Hn. unfold MemoryBudget_preflight_reservation.
  destruct (preflight_loop_run (S this) (budgets h) (Some this) bytes (inv_topology h HI))
    as (r & Hr & Hiff & Hc).
  { intros c [= <-]. split; [lia|by exists b0]. }
  exists r. split; [done|]. split; [|done]. rewrite Hiff. unfold chain_has_room.
  split; intros H i b Hi Hb; specialize (H i b Hi Hb); by apply (has_room_iff bytes i b Hb Hn).
Qed.

Lemma charge_run bytes :
  is_size bytes -> chain_has_room bytes ->
  for_each_ancestor (S this) (charge_body bytes) (budgets h) (Some this) =
    Ret (update_chain (adjust bytes 1) (budgets h) this).
Proof using HI Hthis.
  intros Hn Hroom. apply (for_each_ancestor_run _ _ _ _ b0 (inv_topology h HI) Hthis).
  - intros i b Hi Hb. pose proof (budget_ok_nonneg h i b HI Hb).
    destruct (Hroom i b Hi Hb). unfold is_size, charge_body, adjust, size_max in *.
    by rewrite !u64_small by lia.
  - apply adjust_parent.
Qed.

Lemma grow_run bytes :
  is_size bytes -> chain_has_room bytes ->
  for_each_ancestor (S this) (grow_body bytes) (budgets h) (Some this) =
    Ret (update_chain (adjust bytes 0) (budgets h) this).
Proof using HI Hthis.
  intros Hn Hroom. apply (for_each_ancestor_run _ _ _ _ b0 (inv_topology h HI) Hthis).
  - intros i b Hi Hb. pose proof (budget_ok_nonneg h i b HI Hb).
    destruct (Hroom i b Hi Hb). unfold is_size, grow_body, adjust, size_max in *.
    by rewrite !u64_small, Z.add_0_r by lia.
  - apply adjust_parent.
Qed.

(** Giving back bytes an active reservation holds never terminates. *)
Lemma release_run rid r :
  reservations h !! rid = Some r -> mr_budget r = Some this ->
  for_each_ancestor (S this) (release_body (mr_bytes r)) (budgets h) (Some this) =
    Ret (update_chain (adjust (- mr_bytes r) (-1)) (budgets h) this).
Proof using HI Hthis.
  intros Hr Ha. apply (for_each_ancestor_run _ _ _ _ b0 (inv_topology h HI) Hthis).
  - intros i b Hi Hb. pose proof (budget_ok_nonneg h i b HI Hb).
    destruct (active_covered h rid r this i b HI Hr Ha Hi Hb).
    destruct (inv_reservations h HI rid r Hr) as [Hpos _].
    unfold release_body, adjust, size_max in *.
    destruct (Z.ltb_spec (mb_charged b) (mr_bytes r)), (Z.eqb_spec (mb_live_reservations b) 0);
      simpl; try lia.
    by rewrite !u64_small by lia.
  - apply adjust_parent.
Qed.

Lemma shrink_run rid r bytes :
  reservations h !! rid = Some r -> mr_budget r = Some this -> 0 <= bytes <= mr_bytes r ->
  for_each_ancestor (S this) (shrink_body bytes) (budgets h) (Some this) =
    Ret (update_chain (adjust (- bytes) 0) (budgets h) this).
Proof using HI Hthis.
  intros Hr Ha Hn. apply (for_each_ancestor_run _ _ _ _ b0 (inv_topology h HI) Hthis).
  - intros i b Hi Hb. pose proof (budget_ok_nonneg h i b HI Hb).
    destruct (active_covered h rid r this i b HI Hr Ha Hi Hb).
    unfold shrink_body, adjust, size_max in *.
    destruct (Z.ltb_spec (mb_charged b) bytes); [lia|].
    by rewrite !u64_small, Z.add_0_r by lia.
  - apply adjust_parent.
Qed.

(** Storing a reservation of this budget in place of an entry that held [old] bytes and
    counted [cnt] moves the sums of its chain, and of nothing else. *)
Lemma Inv_store rid r old cnt next :
  mr_budget r = Some this -> 0 <= mr_bytes r ->
  (match reservations h !! rid with
   | Some r0 => (mr_budget r0 = Some this /\ old = mr_bytes r0 /\ cnt = 1) \/
                (mr_budget r0 = None /\ old = 0 /\ cnt = 0)
   | None => old = 0 /\ cnt = 0
   end) ->
  (forall i b, i ∈ chain (budgets h) this -> budgets h !! i = Some b ->
     mb_charged b + (mr_bytes r - old) <= mb_limit b /\
     mb_live_reservations b + (1 - cnt) <= size_max) ->
  (next_object h <= next)%nat -> (rid < next)%nat ->
  Inv (MkHeap (update_chain (adjust (mr_bytes r - old) (1 - cnt)) (budgets h) this)
              (<[rid := r]> (reservations h)) next).
Proof using HI Hthis.
  intros Ha Hpos Hold Hroom Hnext Hrid.
  apply (Inv_adjust h this b0); auto.
  - intros id. rewrite map_sum_set, (bytes_below_eq _ _ _ r this Ha). unfold entry_of.
    destruct (reservations h !! rid) as [r0|].
    + destruct Hold as [(H0 & -> & ->)|(H0 & -> & ->)].
      * rewrite (bytes_below_eq _ _ _ r0 this H0). destruct (decide _); lia.
      * unfold bytes_below at 2. rewrite (below_inactive _ _ _ H0). destruct (decide _); lia.
    + destruct Hold as [-> ->]. destruct (decide _); lia.
  - intros id. rewrite map_sum_set, (count_below_eq _ _ _ r this Ha). unfold entry_of.
    destruct (reservations h !! rid) as [r0|].
    + destruct Hold as [(H0 & -> & ->)|(H0 & -> & ->)].
      * rewrite (count_below_eq _ _ _ r0 this H0). destruct (decide _); lia.
      * unfold count_below at 2. rewrite (below_inactive _ _ _ H0). destruct (decide _); lia.
    + destruct Hold as [-> ->]. destruct (decide _); lia.
  - intros k r' Hk. destruct (decide (k = rid)) as [->|Hne].
    + rewrite lookup_insert_eq in Hk. injection Hk as <-. split; [done|]. rewrite Ha. by exists b0.
    + rewrite lookup_insert_ne in Hk by done. by apply (inv_reservations h HI k).
  - intros k Hk. rewrite lookup_insert_ne by lia. apply (inv_fresh h HI). lia.
Qed.

(** Clearing an entry that was active on this budget. *)
Lemma Inv_clear rid r :
  reservations h !! rid = Some r -> mr_budget r = Some this ->
  Inv (MkHeap (update_chain (adjust (- mr_bytes r) (-1)) (budgets h) this)
              (<[rid := inactive_reservation]> (reservations h)) (next_object h)).
Proof using HI Hthis.
  intros Hr Ha. destruct (inv_reservations h HI rid r Hr) as [Hpos _].
  apply (Inv_adjust h this b0); auto.
  - intros i b Hi Hb. pose proof (budget_ok_nonneg h i b HI Hb). lia.
  - intros id. rewrite map_sum_set. unfold entry_of. rewrite Hr, (bytes_below_eq _ _ _ r this Ha).
    unfold bytes_below at 2. simpl. destruct (decide _); lia.
  - intros id. rewrite map_sum_set. unfold entry_of. rewrite Hr, (count_below_eq _ _ _ r this Ha).
    unfold count_below at 2. simpl. destruct (decide _); lia.
  - intros k r' Hk. destruct (decide (k = rid)) as [->|Hne].
    + rewrite lookup_insert_eq in Hk. by injection Hk as <-.
    + rewrite lookup_insert_ne in Hk by done. by apply (inv_reservations h HI k).
  - intros k Hk. destruct (inv_fresh h HI k Hk) as [_ Hnone].
    rewrite lookup_insert_ne; [done|]. intros ->. congruence.
Qed.
End loops.

(** ** Changes of the reservations alone *)
Lemma Inv_same_budgets h rs next :
  Inv h ->
  (forall id, map_sum (bytes_below (budgets h) id) rs =
              map_sum (bytes_below (budgets h) id) (reservations h)) ->
  (forall id, map_sum (count_below (budgets h) id) rs =
              map_sum (count_below (budgets h) id) (reservations h)) ->
  (forall rid r, rs !! rid = Some r -> reservation_ok (budgets h) r) ->
  (next_object h <= next)%nat -> (forall rid, (next <= rid)%nat -> rs !! rid = None) ->
  Inv (MkHeap (budgets h) rs next).
Proof.
  intros HI Hb Hc Hok Hnext Hfresh. split; cbn [budgets reservations next_object].
  - apply (inv_topology h HI).
  - intros id Hid. split; [apply (inv_fresh h HI); lia|by apply Hfresh].
  - intros id b Hid. destruct (inv_budgets h HI id b Hid) as [H1 H2 H3 H4 H5 H6 H7].
    split; cbn [budgets reservations]; rewrite ?Hb, ?Hc; done.
  - done.
Qed.

Lemma inactive_entry h id rid :
  (match reservations h !! rid with Some r => mr_budget r = None | None => True end) ->
  entry_of (bytes_below (budgets h) id) (reservations h) rid = 0 /\
  entry_of (count_below (budgets h) id) (reservations h) rid = 0.
Proof.
  intros H. unfold entry_of, bytes_below, count_below.
  destruct (reservations h !! rid) as [r|]; [|done]. by rewrite (below_inactive _ _ _ H).
Qed.

Lemma Inv_construct_reservation h :
  Inv h -> Inv (MemoryReservation_construct h).2.
Proof.
  intros HI. destruct (inv_fresh h HI (next_object h) (le_n _)) as [_ Hnone].
  apply Inv_same_budgets; simpl; auto.
  1, 2: intros id; rewrite map_sum_insert by done;
    unfold bytes_below at 1 || unfold count_below at 1; simpl; lia.
  - intros k r Hk. destruct (decide (k = next_object h)) as [->|Hne].
    + rewrite lookup_insert_eq in Hk. by injection Hk as <-.
    + rewrite lookup_insert_ne in Hk by done. by apply (inv_reservations h HI k).
  - intros k Hk. rewrite lookup_insert_ne by lia. apply (inv_fresh h HI). lia.
Qed.

Lemma Inv_delete_inactive h rid :
  Inv h -> (forall r, reservations h !! rid = Some r -> mr_budget r = None) ->
  Inv (MkHeap (budgets h) (delete rid (reservations h)) (next_object h)).
Proof.
  intros HI Hin. assert (He : forall id, _) by (intros id; apply (inactive_entry h id rid);
    destruct (reservations h !! rid); auto).
  apply Inv_same_budgets; auto.
  - intros id. rewrite map_sum_remove. destruct (He id). lia.
  - intros id. rewrite map_sum_remove. destruct (He id). lia.
  - intros k r Hk. apply lookup_delete_Some in Hk as [_ Hk]. by apply (inv_reservations h HI k).
  - intros k Hk. apply lookup_delete_None. right. by apply (inv_fresh h HI).
Qed.

(** [move_from] into an inactive object keeps every sum. *)
Lemma move_from_run h this other o t :
  Inv h -> this <> other -> reservations h !! this = Some t -> mr_budget t = None ->
  reservations h !! other = Some o ->
  MemoryReservation_move_from h this other =
    Ret (with_reservation (with_reservation h this o) other inactive_reservation) /\
  Inv (with_reservation (with_reservation h this o) other inactive_reservation).
Proof.
  intros HI Hne Ht Hinact Ho. unfold MemoryReservation_move_from, the_reservation. rewrite Ho.
  split; [done|]. unfold with_reservation. simpl. apply Inv_same_budgets; auto.
  1, 2: intros id; rewrite !map_sum_set; unfold entry_of; rewrite lookup_insert_ne, Ho, Ht by done;
    unfold bytes_below, count_below;
    rewrite (below_inactive _ _ t Hinact), (below_inactive _ _ inactive_reservation eq_refl);
    unfold below; destruct (mr_budget o); lia.
  - intros k r Hk. destruct (decide (k = other)) as [->|Hk1].
    + rewrite lookup_insert_eq in Hk. by injection Hk as <-.
    + rewrite lookup_insert_ne in Hk by done. destruct (decide (k = this)) as [->|Hk2].
      * rewrite lookup_insert_eq in Hk. injection Hk as <-. by apply (inv_reservations h HI other).
      * rewrite lookup_insert_ne in Hk by done. by apply (inv_reservations h HI k).
  - intros k Hk. destruct (inv_fresh h HI k Hk) as [_ Hnone].
    rewrite !lookup_insert_ne; congruence.
Qed.

(** ** Operations on reservations *)
Definition after_release (h : Heap) (rid : nat) (r : MemoryReservation) : Heap :=
  match mr_budget r with
  | None => h
  | Some a => MkHeap (update_chain (adjust (- mr_bytes r) (-1)) (budgets h) a)
                     (<[rid := inactive_reservation]> (reservations h)) (next_object h)
  end.

Lemma release_unchecked_run h rid r :
  Inv h -> reservations h !! rid = Some r ->
  MemoryReservation_release_unchecked h rid = Ret (after_release h rid r) /\
  Inv (after_release h rid r) /\
  exists r', reservations (after_release h rid r) !! rid = Some r' /\ mr_budget r' = None.
Proof.
  intros HI Hr. unfold MemoryReservation_release_unchecked, the_reservation, after_release.
  rewrite Hr. simpl. destruct (mr_budget r) as [a|] eqn:Ha.
  - destruct (reservation_budget_live h rid r a HI Hr Ha) as [b0 Hb0].
    unfold MemoryBudget_release. cbn [budgets with_reservation].
    rewrite (release_run h HI a b0 Hb0 rid r Hr Ha). simpl. split; [done|]. split.
    + by apply (Inv_clear h HI a b0 Hb0).
    + exists inactive_reservation. by rewrite lookup_insert_eq.
  - split; [done|]. split; [done|]. by exists r.
Qed.

Definition after_destroy (h : Heap) (rid : nat) (r : MemoryReservation) : Heap :=
  let h' := after_release h rid r in
  MkHeap (budgets h') (delete rid (reservations h')) (next_object h').

Lemma destroy_run h rid r :
  Inv h -> reservations h !! rid = Some r ->
  MemoryReservation_destroy h rid = Ret (after_destroy h rid r) /\ Inv (after_destroy h rid r).
Proof.
  intros HI Hr. destruct (release_unchecked_run h rid r HI Hr) as (Hrun & HI' & r' & Hr' & Hina).
  unfold MemoryReservation_destroy. rewrite Hrun. simpl. split; [done|].
  apply Inv_delete_inactive; [done|]. intros r0. rewrite Hr'. by intros [= <-].
Qed.

Lemma move_assign_run h this other t o :
  Inv h -> reservations h !! this = Some t -> reservations h !! other = Some o ->
  exists h', MemoryReservation_move_assign h this other = Ret h' /\ Inv h' /\
    (this <> other -> h' = with_reservation (with_reservation (after_release h this t) this o)
                             other inactive_reservation).
Proof.
  intros HI Ht Ho. unfold MemoryReservation_move_assign.
  destruct (bool_decide (this = other)) eqn:E; [by exists h; apply bool_decide_eq_true in E|].
  apply bool_decide_eq_false in E.
  destruct (release_unchecked_run h this t HI Ht) as (Hrun & HI' & t' & Ht' & Hina).
  rewrite Hrun. simpl.
  assert (Ho' : reservations (after_release h this t) !! other = Some o).
  { unfold after_release. destruct (mr_budget t); [|done]. simpl. by rewrite lookup_insert_ne. }
  destruct (move_from_run _ this other o t' HI' E Ht' Hina Ho') as [Hmv HI''].
  eexists. split; [exact Hmv|]. split; [done|]. done.
Qed.

Lemma move_construct_run h other o :
  Inv h -> reservations h !! other = Some o ->
  exists h', MemoryReservation_move_construct h other = Ret (next_object h, h') /\ Inv h' /\
    budgets h' = budgets h /\
    reservations h' = <[other := inactive_reservation]> (<[next_object h := o]> (reservations h)) /\
    next_object h' = S (next_object h).
Proof.
  intros HI Ho. unfold MemoryReservation_move_construct. simpl.
  assert (Hne : next_object h <> other).
  { intros <-. destruct (inv_fresh h HI (next_object h) (le_n _)). congruence. }
  pose proof (Inv_construct_reservation h HI) as HI'. simpl in HI'.
  destruct (move_from_run _ (next_object h) other o inactive_reservation HI' Hne) as [Hmv HI''];
    simpl; rewrite ?lookup_insert_eq, ?lookup_insert_ne by done; auto.
  rewrite Hmv. simpl. eexists. split; [done|]. split; [done|]. simpl.
  by rewrite insert_insert_eq.
Qed.

(** ** [reserve] *)
Definition after_reserve (h : Heap) (this : nat) (bytes : Z) : Heap :=
  MkHeap (update_chain (adjust bytes 1) (budgets h) this)
         (<[next_object h := MkMemoryReservation (Some this) bytes]> (reservations h))
         (S (next_object h)).

Lemma reserve_run h this b worker bytes :
  Inv h -> budgets h !! this = Some b -> is_size bytes ->
  (value_ (mb_worker b) = value_ worker /\ chain_has_room h this bytes /\
     MemoryBudget_reserve h this worker bytes = Ret (Ok (next_object h), after_reserve h this bytes)) \/
  (exists e, MemoryBudget_reserve h this worker bytes = Ret (Err e, h) /\
     ((value_ (mb_worker b) <> value_ worker /\ e = budget_worker_error) \/
      (value_ (mb_worker b) = value_ worker /\ ~ chain_has_room h this bytes /\
         (e = budget_exhausted_error \/ e = reservation_count_error)))).
Proof.
  intros HI Hb Hn. unfold MemoryBudget_reserve, the_budget, MemoryBudget_require_worker,
    MemoryBudget_owns. rewrite Hb. simpl.
  destruct (Z.eqb_spec (value_ (mb_worker b)) (value_ worker)) as [Hw|Hw]; simpl.
  2: { right. eexists. split; [done|]. by left. }
  destruct (preflight_run h HI this b Hb bytes) as (r & -> & Hiff & Hc); [unfold is_size in Hn; lia|].
  simpl. destruct r as [[]|e].
  - left. destruct Hiff as [Hroom _]. specialize (Hroom eq_refl). split; [done|]. split; [done|].
    rewrite (charge_run h HI this b Hb bytes Hn Hroom). done.
  - right. exists e. split; [done|]. right. split; [done|]. split.
    + intros Hroom. apply Hiff in Hroom. done.
    + destruct Hc as [?|[?|?]]; [done|left|right]; congruence.
Qed.

Lemma Inv_after_reserve h this b bytes :
  Inv h -> budgets h !! this = Some b -> is_size bytes -> chain_has_room h this bytes ->
  Inv (after_reserve h this bytes).
Proof.
  intros HI Hb Hn Hroom. unfold after_reserve, is_size in *.
  destruct (inv_fresh h HI (next_object h) (le_n _)) as [_ Hnone].
  pose proof (Inv_store h HI this b Hb (next_object h) (MkMemoryReservation (Some this) bytes) 0 0
                (S (next_object h))) as H. simpl in H.
  rewrite Z.sub_0_r in H. apply H; try done; try lia; [by rewrite Hnone|].
  intros i bi Hi Hbi. destruct (Hroom i bi Hi Hbi). lia.
Qed.

(** ** [grow], [shrink] and [release] *)
Definition after_resize (h : Heap) (rid this : nat) (r : MemoryReservation) (delta : Z) : Heap :=
  MkHeap (update_chain (adjust delta 0) (budgets h) this)
         (<[rid := MkMemoryReservation (Some this) (mr_bytes r + delta)]> (reservations h))
         (next_object h).

Lemma Inv_after_resize h rid this b r delta :
  Inv h -> budgets h !! this = Some b -> reservations h !! rid = Some r ->
  mr_budget r = Some this -> 0 <= mr_bytes r + delta ->
  (forall i bi, i ∈ chain (budgets h) this -> budgets h !! i = Some bi ->
     mb_charged bi + delta <= mb_limit bi) ->
  Inv (after_resize h rid this r delta).
Proof.
  intros HI Hb Hr Ha Hpos Hroom. unfold after_resize.
  assert (Hlt : (rid < next_object h)%nat).
  { destruct (decide (rid < next_object h)%nat); [done|].
    destruct (inv_fresh h HI rid ltac:(lia)). congruence. }
  pose proof (Inv_store h HI this b Hb rid (MkMemoryReservation (Some this) (mr_bytes r + delta))
                (mr_bytes r) 1 (next_object h)) as H. simpl in H.
  replace (mr_bytes r + delta - mr_bytes r) with delta in H by lia.
  apply H; try done; [by rewrite Hr; left|].
  intros i bi Hi Hbi. pose proof (budget_ok_nonneg h i bi HI Hbi).
  specialize (Hroom i bi Hi Hbi). lia.
Qed.

Lemma reservation_grow_run h rid r this b worker bytes :
  Inv h -> reservations h !! rid = Some r -> mr_budget r = Some this ->
  budgets h !! this = Some b -> is_size bytes ->
  (MemoryReservation_grow h rid worker bytes = Ret (Ok tt, after_resize h rid this r bytes) /\
     chain_has_room h this bytes /\ value_ (mb_worker b) = value_ worker) \/
  (exists e, MemoryReservation_grow h rid worker bytes = Ret (Err e, h) /\
     (value_ (mb_worker b) = value_ worker -> ~ chain_has_room h this bytes)).
Proof.
  intros HI Hr Ha Hb Hn. unfold MemoryReservation_grow, the_reservation, the_budget,
    MemoryBudget_require_worker, MemoryBudget_owns. rewrite Hr. simpl. rewrite Ha, Hb. simpl.
  destruct (Z.eqb_spec (value_ (mb_worker b)) (value_ worker)) as [Hw|Hw]; simpl.
  2: { right. eexists. by split. }
  unfold MemoryBudget_grow_reservation, the_reservation. rewrite Hr. simpl.
  rewrite (bool_decide_true _ Ha). simpl.
  destruct (preflight_run h HI this b Hb bytes) as (p & -> & Hiff & _); [unfold is_size in Hn; lia|].
  simpl. destruct p as [[]|e].
  2: { right. exists e. split; [done|]. intros _ Hroom. apply Hiff in Hroom. done. }
  destruct Hiff as [Hroom _]. specialize (Hroom eq_refl). left.
  destruct (Hroom this b (chain_self _ _) Hb) as [Hfit _].
  destruct (active_covered h rid r this this b HI Hr Ha (chain_self _ _) Hb) as [Hcov _].
  pose proof (budget_ok_nonneg h this b HI Hb).
  destruct (inv_reservations h HI rid r Hr) as [Hpos _].
  unfold is_size, size_max in *. rewrite u64_small by lia.
  destruct (Z.ltb_spec (u64_max - mr_bytes r) bytes); [lia|].
  rewrite (grow_run h HI this b Hb bytes) by done. simpl.
  rewrite u64_small, Ha by lia. done.
Qed.

Lemma reservation_shrink_run h rid r this b worker bytes :
  Inv h -> reservations h !! rid = Some r -> mr_budget r = Some this ->
  budgets h !! this = Some b -> is_size bytes ->
  (MemoryReservation_shrink h rid worker bytes = Ret (Ok tt, after_resize h rid this r (- bytes)) /\
     bytes <= mr_bytes r /\ value_ (mb_worker b) = value_ worker) \/
  (exists e, MemoryReservation_shrink h rid worker bytes = Ret (Err e, h) /\
     (value_ (mb_worker b) = value_ worker -> mr_bytes r < bytes)).
Proof.
  intros HI Hr Ha Hb Hn. unfold MemoryReservation_shrink, the_reservation, the_budget,
    MemoryBudget_require_worker, MemoryBudget_owns. rewrite Hr. simpl. rewrite Ha, Hb. simpl.
  destruct (Z.eqb_spec (value_ (mb_worker b)) (value_ worker)) as [Hw|Hw]; simpl.
  2: { right. eexists. by split. }
  unfold MemoryBudget_shrink_reservation, the_reservation. rewrite Hr. simpl.
  rewrite (bool_decide_true _ Ha). simpl.
  destruct (Z.ltb_spec (mr_bytes r) bytes); simpl.
  { right. eexists. by split. }
  left. unfold is_size in Hn. rewrite (shrink_run h HI this b Hb rid r bytes) by (done || lia). simpl.
  destruct (active_covered h rid r this this b HI Hr Ha (chain_self _ _) Hb) as [Hcov _].
  pose proof (budget_ok_nonneg h this b HI Hb). unfold size_max in *.
  rewrite u64_small, Ha by lia. unfold after_resize.
  by replace (mr_bytes r + - bytes) with (mr_bytes r - bytes) by lia.
Qed.

Lemma reservation_release_run h rid r worker :
  Inv h -> reservations h !! rid = Some r ->
  (exists b, MemoryReservation_release h rid worker = Ret (Err budget_worker_error, h) /\
     (exists a, mr_budget r = Some a /\ budgets h !! a = Some b) /\
     value_ (mb_worker b) <> value_ worker) \/
  MemoryReservation_release h rid worker = Ret (Ok tt, after_release h rid r).
Proof.
  intros HI Hr. unfold MemoryReservation_release, the_reservation. rewrite Hr. simpl.
  destruct (mr_budget r) as [a|] eqn:Ha.
  2: { right. unfold after_release. by rewrite Ha. }
  destruct (reservation_budget_live h rid r a HI Hr Ha) as [b Hb].
  unfold the_budget, MemoryBudget_require_worker, MemoryBudget_owns. rewrite Hb. simpl.
  destruct (Z.eqb_spec (value_ (mb_worker b)) (value_ worker)) as [Hw|Hw]; simpl.
  - right. destruct (release_unchecked_run h rid r HI Hr) as (-> & _). done.
  - left. exists b. split; [done|]. split; [by exists a|done].
Qed.

(** ** Construction and destruction of budgets *)

(** The store after the child count of [parent], if any, moved by [delta]. *)
Definition count_child (m : gmap nat MemoryBudget) (parent : option nat) (delta : Z) :
    gmap nat MemoryBudget :=
  match parent with
  | None => m
  | Some p => alter (fun b => set_live_children b (mb_live_children b + delta)) p m
  end.

Lemma lookup_count_child m parent delta i :
  count_child m parent delta !! i =
  (fun b => if decide (parent = Some i) then set_live_children b (mb_live_children b + delta) else b)
    <$> m !! i.
Proof.
  destruct parent as [p|]; simpl.
  - rewrite lookup_alter. destruct (decide (p = i)) as [->|Hne].
    + destruct (m !! i); simpl; [|done]. by rewrite decide_True.
    + destruct (m !! i); simpl; [|done]. rewrite decide_False; [done|congruence].
  - by destruct (m !! i).
Qed.

Lemma count_child_parent m parent delta i : parent_of (count_child m parent delta) i = parent_of m i.
Proof.
  unfold parent_of. rewrite lookup_count_child. destruct (m !! i) as [b|]; simpl; [|done].
  by destruct (decide _).
Qed.

Lemma count_child_is_child m parent delta id :
  map_sum (is_child id) (count_child m parent delta) = map_sum (is_child id) m.
Proof.
  destruct parent as [p|]; simpl; [|done].
  destruct (m !! p) as [b|] eqn:Hb.
  - replace (alter _ p m) with (<[p := set_live_children b (mb_live_children b + delta)]> m).
    + rewrite (map_sum_update _ m p b _ Hb). unfold is_child. simpl. lia.
    + apply map_eq. intros i. rewrite lookup_alter. destruct (decide (p = i)) as [->|Hne].
      * by rewrite lookup_insert_eq, Hb.
      * by rewrite lookup_insert_ne.
  - f_equal. apply map_eq. intros i. rewrite lookup_alter.
    destruct (decide (p = i)) as [->|]; [by rewrite Hb|done].
Qed.

Lemma chain_of_members m m' fuel cur :
  (forall i, i ∈ chain_of fuel m cur -> parent_of m i = parent_of m' i) ->
  chain_of fuel m cur = chain_of fuel m' cur.
Proof.
  revert cur. induction fuel as [|f IH]; intros [c|] Hag; simpl; try done.
  f_equal. rewrite <- (Hag c) by (simpl; apply elem_of_cons; by left).
  apply IH. intros i Hi. apply Hag. simpl. apply elem_of_cons; by right.
Qed.

Lemma reservation_chain_fresh h rid r a :
  Inv h -> reservations h !! rid = Some r -> mr_budget r = Some a -> (a < next_object h)%nat.
Proof.
  intros HI Hr Ha. destruct (reservation_budget_live h rid r a HI Hr Ha) as [b Hb].
  destruct (decide (a < next_object h)%nat); [done|].
  destruct (inv_fresh h HI a ltac:(lia)). congruence.
Qed.

(** A budget store in which the chains of the live reservations are unchanged keeps every
    sum over them. *)
Lemma sums_same_chains h m' id :
  (forall rid r a, reservations h !! rid = Some r -> mr_budget r = Some a ->
     chain m' a = chain (budgets h) a) ->
  map_sum (bytes_below m' id) (reservations h) =
    map_sum (bytes_below (budgets h) id) (reservations h) /\
  map_sum (count_below m' id) (reservations h) =
    map_sum (count_below (budgets h) id) (reservations h).
Proof.
  intros Hch. assert (Hb : forall rid r, reservations h !! rid = Some r ->
    below m' id r = below (budgets h) id r).
  { intros rid r Hr. unfold below. destruct (mr_budget r) as [a|] eqn:Ha; [|done].
    by rewrite (Hch rid r a Hr Ha). }
  split; apply map_sum_ext; intros k r Hr; unfold bytes_below, count_below; by rewrite (Hb k r Hr).
Qed.

Section add_budget.
Context (h : Heap) (HI : Inv h) (worker : WorkerId) (limit : Z) (parent : option nat).
Context (Hlimit : is_size limit).
Context (Hparent : forall p, parent = Some p -> exists pb, budgets h !! p = Some pb /\
  mb_worker pb = worker /\ mb_live_children pb < size_max).

Definition new_budget : MemoryBudget := MkMemoryBudget worker limit 0 0 0 parent.
Definition added : gmap nat MemoryBudget :=
  <[next_object h := new_budget]> (count_child (budgets h) parent 1).

Lemma added_parent_of i : i <> next_object h -> parent_of added i = parent_of (budgets h) i.
Proof using.
  intros Hne. unfold added. rewrite <- (count_child_parent (budgets h) parent 1 i).
  unfold parent_of. by rewrite lookup_insert_ne.
Qed.

Lemma added_chain a : (a < next_object h)%nat -> chain added a = chain (budgets h) a.
Proof using HI.
  intros Ha. symmetry. apply chain_agree; [apply (inv_topology h HI)|].
  intros i Hi. symmetry. apply added_parent_of. lia.
Qed.

Lemma added_topology : topology added.
Proof using HI Hparent.
  intros i b p Hb Hp. destruct (decide (i = next_object h)) as [->|Hne].
  - unfold added in Hb. rewrite lookup_insert_eq in Hb. injection Hb as <-. simpl in Hp.
    destruct (Hparent p Hp) as (pb & Hpb & Hw & _).
    assert (p < next_object h)%nat as Hlt.
    { destruct (decide (p < next_object h)%nat); [done|].
      destruct (inv_fresh h HI p ltac:(lia)). congruence. }
    split; [done|]. unfold added. rewrite lookup_insert_ne, lookup_count_child, Hpb by lia. simpl.
    eexists. split; [done|]. destruct (decide _); done.
  - unfold added in Hb. rewrite lookup_insert_ne, lookup_count_child in Hb by done.
    destruct (budgets h !! i) as [b1|] eqn:Hb1; simpl in Hb; [|done]. injection Hb as <-.
    assert (mb_parent b1 = Some p) as Hp1 by (by destruct (decide _)).
    destruct (inv_topology h HI i b1 p Hb1 Hp1) as (Hlt & pb & Hpb & Hw). split; [done|].
    assert (p <> next_object h).
    { intros ->. destruct (inv_fresh h HI (next_object h) (le_n _)). congruence. }
    unfold added. rewrite lookup_insert_ne, lookup_count_child, Hpb by done. simpl.
    eexists. split; [done|]. by destruct (decide (parent = Some p)), (decide (parent = Some i)).
Qed.

Lemma added_children i :
  map_sum (is_child i) added =
  map_sum (is_child i) (budgets h) + (if decide (parent = Some i) then 1 else 0).
Proof using HI.
  unfold added. rewrite map_sum_insert, count_child_is_child.
  - unfold is_child at 1. simpl. destruct (decide _); [rewrite bool_decide_true|
      rewrite bool_decide_false]; done || lia.
  - rewrite lookup_count_child. by rewrite (proj1 (inv_fresh h HI _ (le_n _))).
Qed.

Lemma added_sums i :
  map_sum (bytes_below added i) (reservations h) =
    map_sum (bytes_below (budgets h) i) (reservations h) /\
  map_sum (count_below added i) (reservations h) =
    map_sum (count_below (budgets h) i) (reservations h).
Proof using HI.
  apply sums_same_chains. intros rid r a Hr Ha. apply added_chain.
  by apply (reservation_chain_fresh h rid r).
Qed.

(** Nothing is charged to a budget that is being constructed. *)
Lemma fresh_sums :
  map_sum (bytes_below (budgets h) (next_object h)) (reservations h) = 0 /\
  map_sum (count_below (budgets h) (next_object h)) (reservations h) = 0 /\
  map_sum (is_child (next_object h)) (budgets h) = 0.
Proof using HI.
  assert (Hb : forall rid r, reservations h !! rid = Some r ->
    below (budgets h) (next_object h) r = false).
  { intros rid r Hr. unfold below. destruct (mr_budget r) as [a|] eqn:Ha; [|done].
    apply bool_decide_eq_false. intros Hin.
    pose proof (chain_le _ _ _ (inv_topology h HI) Hin).
    pose proof (reservation_chain_fresh h rid r a HI Hr Ha). lia. }
  split; [|split]; apply map_sum_zero.
  - intros k r Hr. unfold bytes_below. by rewrite (Hb k r Hr).
  - intros k r Hr. unfold count_below. by rewrite (Hb k r Hr).
  - intros k b Hk. unfold is_child. rewrite bool_decide_false; [done|]. intros Hp.
    destruct (inv_topology h HI k b _ Hk Hp) as (_ & pb & Hpb & _).
    destruct (inv_fresh h HI (next_object h) (le_n _)). congruence.
Qed.

Lemma Inv_added : Inv (MkHeap added (reservations h) (S (next_object h))).
Proof using HI Hlimit Hparent.
  split; cbn [budgets reservations next_object].
  - apply added_topology.
  - intros id Hid. destruct (inv_fresh h HI id ltac:(lia)) as [Hb Hr]. split; [|done].
    unfold added. rewrite lookup_insert_ne, lookup_count_child, Hb by lia. done.
  - intros id b Hb. destruct (added_sums id) as [Hs1 Hs2]. pose proof (added_children id) as Hs3.
    unfold is_size in Hlimit.
    destruct (decide (id = next_object h)) as [->|Hne].
    + unfold added in Hb. rewrite lookup_insert_eq in Hb. injection Hb as <-.
      destruct fresh_sums as (H1 & H2 & H3).
      assert (parent <> Some (next_object h)) as Hnp.
      { intros Hp. destruct (Hparent _ Hp) as (pb & Hpb & _).
        destruct (inv_fresh h HI (next_object h) (le_n _)). congruence. }
      rewrite decide_False in Hs3 by done.
      split; cbn [budgets reservations new_budget mb_limit mb_charged mb_live_reservations
        mb_live_children]; unfold size_max, u64_max in *; lia.
    + unfold added in Hb. rewrite lookup_insert_ne, lookup_count_child in Hb by done.
      destruct (budgets h !! id) as [b1|] eqn:Hb1; simpl in Hb; [|done]. injection Hb as <-.
      destruct (inv_budgets h HI id b1 Hb1) as [H1 H2 H3 H4 H5 H6 H7].
      destruct (decide (parent = Some id)) as [Hp|Hp].
      * destruct (Hparent id Hp) as (pb & Hpb & _ & Hmax). rewrite Hb1 in Hpb. injection Hpb as <-.
        split; cbn [budgets reservations set_live_children mb_limit mb_charged mb_live_reservations
          mb_live_children]; lia.
      * split; cbn [budgets reservations]; lia.
  - intros rid r Hr. destruct (inv_reservations h HI rid r Hr) as [Hpos Hl]. split; [done|].
    destruct (mr_budget r) as [a|]; [|done]. destruct Hl as [ba Hba].
    unfold added. destruct (decide (a = next_object h)) as [->|Hne].
    + rewrite lookup_insert_eq. by eexists.
    + rewrite lookup_insert_ne, lookup_count_child, Hba by done. by eexists.
Qed.
End add_budget.

Section remove_budget.
Context (h : Heap) (HI : Inv h) (this : nat) (b : MemoryBudget).
Context (Hthis : budgets h !! this = Some b).
Context (Hlive : mb_live_reservations b = 0) (Hchild : mb_live_children b = 0).

Definition removed : gmap nat MemoryBudget := delete this (count_child (budgets h) (mb_parent b) (-1)).

Lemma no_child i bi : budgets h !! i = Some bi -> mb_parent bi <> Some this.
Proof using HI Hthis Hchild.
  intros Hi Hp. destruct (inv_budgets h HI this b Hthis) as [_ _ _ _ _ Hk _].
  pose proof (map_sum_ge (is_child this) (budgets h) i bi ltac:(auto with laghu) Hi) as Hge.
  unfold is_child in Hge at 1. rewrite bool_decide_true in Hge by done. lia.
Qed.

Lemma not_charged rid r : reservations h !! rid = Some r -> below (budgets h) this r = false.
Proof using HI Hthis Hlive.
  intros Hr. destruct (inv_budgets h HI this b Hthis) as [_ _ _ Hl _ _ _].
  pose proof (map_sum_ge (count_below (budgets h) this) (reservations h) rid r
    ltac:(auto with laghu) Hr) as Hge.
  unfold count_below in Hge at 1. destruct (below _ _ r); [lia|done].
Qed.

Lemma not_on_chain a ba : a <> this -> budgets h !! a = Some ba -> this ∉ chain (budgets h) a.
Proof using HI Hthis Hchild.
  revert ba. induction a as [a IH] using lt_wf_ind. intros ba Hne Ha.
  pose proof (inv_topology h HI) as Ht.
  rewrite (chain_unfold _ _ Ht), (parent_of_Some _ _ _ Ha), elem_of_cons.
  intros [?|Hin]; [congruence|]. destruct (mb_parent ba) as [p|] eqn:Hp; [|by apply elem_of_nil in Hin].
  destruct (Ht a ba p Ha Hp) as (Hlt & pb & Hpb & _).
  apply (IH p Hlt pb); auto. intros ->. by apply (no_child a ba Ha).
Qed.

Lemma lookup_removed i :
  i <> this -> removed !! i = (fun bi => if decide (mb_parent b = Some i)
    then set_live_children bi (mb_live_children bi + -1) else bi) <$> budgets h !! i.
Proof using. intros Hne. unfold removed. by rewrite lookup_delete_ne, lookup_count_child. Qed.

Lemma removed_parent_of i : i <> this -> parent_of removed i = parent_of (budgets h) i.
Proof using.
  intros Hne. unfold parent_of. rewrite lookup_removed by done.
  destruct (budgets h !! i); simpl; [|done]. by destruct (decide _).
Qed.

Lemma removed_chain a ba :
  a <> this -> budgets h !! a = Some ba -> chain removed a = chain (budgets h) a.
Proof using HI Hthis Hchild.
  intros Hne Ha. symmetry. apply chain_of_members. intros i Hi. symmetry.
  apply removed_parent_of. intros ->. by apply (not_on_chain a ba Hne Ha).
Qed.

Lemma removed_children i :
  i <> this -> map_sum (is_child i) removed =
    map_sum (is_child i) (budgets h) - (if decide (mb_parent b = Some i) then 1 else 0).
Proof using Hthis.
  intros Hne. unfold removed. rewrite map_sum_remove, count_child_is_child. unfold entry_of.
  rewrite lookup_count_child, Hthis. simpl. unfold is_child at 2.
  destruct (decide (mb_parent b = Some this)); simpl;
    (destruct (decide (mb_parent b = Some i)); [rewrite bool_decide_true|rewrite bool_decide_false];
     done || lia).
Qed.

Lemma Inv_removed : Inv (MkHeap removed (reservations h) (next_object h)).
Proof using HI Hthis Hlive Hchild.
  assert (Hres : forall rid r a, reservations h !! rid = Some r -> mr_budget r = Some a -> a <> this).
  { intros rid r a Hr Ha ->. pose proof (not_charged rid r Hr) as Hn. unfold below in Hn.
    rewrite Ha in Hn. apply bool_decide_eq_false in Hn. apply Hn, chain_self. }
  split; cbn [budgets reservations next_object].
  - intros i bi p Hi Hp. unfold removed in Hi. apply lookup_delete_Some in Hi as [Hne Hi].
    rewrite lookup_count_child in Hi. destruct (budgets h !! i) as [b1|] eqn:Hb1; simpl in Hi; [|done].
    injection Hi as <-. assert (mb_parent b1 = Some p) as Hp1 by (by destruct (decide _)).
    destruct (inv_topology h HI i b1 p Hb1 Hp1) as (Hlt & pb & Hpb & Hw). split; [done|].
    rewrite lookup_removed, Hpb by (intros ->; by apply (no_child i b1 Hb1)). simpl.
    eexists. split; [done|]. by destruct (decide (mb_parent b = Some p)), (decide (mb_parent b = Some i)).
  - intros id Hid. destruct (inv_fresh h HI id Hid) as [Hb Hr]. split; [|done].
    rewrite lookup_removed, Hb by congruence. done.
  - intros id bi Hi. assert (id <> this) as Hne.
    { intros ->. unfold removed in Hi. by rewrite lookup_delete_eq in Hi. }
    rewrite lookup_removed in Hi by done.
    destruct (budgets h !! id) as [b1|] eqn:Hb1; simpl in Hi; [|done]. injection Hi as <-.
    destruct (inv_budgets h HI id b1 Hb1) as [H1 H2 H3 H4 H5 H6 H7].
    pose proof (removed_children id Hne) as Hk.
    destruct (sums_same_chains h removed id) as [Hs1 Hs2].
    { intros rid r a Hr Ha. destruct (reservation_budget_live h rid r a HI Hr Ha) as [ba Hba].
      apply (removed_chain a ba); eauto. }
    destruct (decide (mb_parent b = Some id)); split;
      cbn [budgets reservations set_live_children mb_limit mb_charged mb_live_reservations
        mb_live_children]; lia.
  - intros rid r Hr. destruct (inv_reservations h HI rid r Hr) as [Hpos Hl]. split; [done|].
    destruct (mr_budget r) as [a|] eqn:Ha; [|done]. destruct Hl as [ba Hba].
    rewrite lookup_removed, Hba by (by apply (Hres rid r a)). by eexists.
Qed.
End remove_budget.

Lemma construct_child_run h parent pb limit :
  Inv h -> budgets h !! parent = Some pb -> is_size limit -> mb_live_children pb < size_max ->
  exists h', MemoryBudget_construct_child h parent limit = Ret (next_object h, h') /\ Inv h' /\
    budgets h' !! next_object h = Some (MkMemoryBudget (mb_worker pb) limit 0 0 0 (Some parent)).
Proof.
  intros HI Hp Hlim Hmax. unfold MemoryBudget_construct_child, the_budget,
    MemoryBudget_register_child. rewrite Hp. simpl.
  pose proof (budget_ok_nonneg h parent pb HI Hp). unfold size_max in *.
  destruct (Z.eqb_spec (mb_live_children pb) u64_max); [lia|]. simpl.
  rewrite u64_small by lia. eexists. split; [done|]. split.
  - assert (Hadd := Inv_added h HI (mb_worker pb) limit (Some parent) Hlim).
    unfold added in Hadd.
    replace (<[parent:=_]> (budgets h)) with (count_child (budgets h) (Some parent) 1).
    + apply Hadd. intros p [= <-]. by exists pb.
    + apply map_eq. intros i. rewrite lookup_count_child. destruct (decide (parent = i)) as [->|Hne].
      * rewrite lookup_insert_eq, Hp. simpl. by rewrite decide_True.
      * rewrite lookup_insert_ne by done. destruct (budgets h !! i); simpl; [|done].
        rewrite decide_False; [done|congruence].
  - simpl. by rewrite lookup_insert_eq.
Qed.

Lemma budget_destroy_run h this b :
  Inv h -> budgets h !! this = Some b ->
  (mb_live_reservations b = 0 /\ mb_live_children b = 0 /\
     MemoryBudget_destroy h this = Ret (with_budgets h (removed h this b)) /\
     Inv (with_budgets h (removed h this b))) \/
  ((mb_live_reservations b <> 0 \/ mb_live_children b <> 0) /\
     MemoryBudget_destroy h this = Stop Terminated).
Proof.
  intros HI Hb. unfold MemoryBudget_destroy, the_budget. rewrite Hb. simpl.
  destruct (Z.eqb_spec (mb_live_reservations b) 0), (Z.eqb_spec (mb_live_children b) 0); simpl.
  2-4: right; split; auto.
  left. split; [done|]. split; [done|]. split; [|by apply Inv_removed].
  unfold removed. destruct (mb_parent b) as [p|] eqn:Hp; [|done].
  destruct (inv_topology h HI this b p Hb Hp) as (Hlt & pb & Hpb & _). rewrite Hpb. simpl.
  destruct (inv_budgets h HI p pb Hpb) as [_ _ _ _ _ Hk _].
  pose proof (map_sum_ge (is_child p) (budgets h) this b ltac:(auto with laghu) Hb) as Hge.
  unfold is_child in Hge at 1. rewrite bool_decide_true in Hge by done.
  pose proof (budget_ok_nonneg h p pb HI Hpb).
  unfold MemoryBudget_unregister_child.
  destruct (Z.eqb_spec (mb_live_children pb) 0); [lia|]. simpl. unfold size_max in *.
  rewrite u64_small by lia. do 3 f_equal. apply map_eq. intros i. rewrite lookup_alter.
  destruct (decide (p = i)) as [->|Hne].
  - rewrite lookup_insert_eq, Hpb. simpl. by replace (mb_live_children pb + -1) with
      (mb_live_children pb - 1) by lia.
  - by rewrite lookup_insert_ne.
Qed.

(** ** A client of the budgets *)
Inductive BudgetOp :=
  | OpConstructRoot (worker : WorkerId) (limit : Z)
  | OpConstructChild (parent : nat) (limit : Z)
  | OpDestroyBudget (this : nat)
  | OpReserve (this : nat) (worker : WorkerId) (bytes : Z)
  | OpConstructReservation
  | OpRelease (rid : nat) (worker : WorkerId)
  | OpGrow (rid : nat) (worker : WorkerId) (bytes : Z)
  | OpShrink (rid : nat) (worker : WorkerId) (bytes : Z)
  | OpMoveConstruct (other : nat)
  | OpMoveAssign (this other : nat)
  | OpDestroyReservation (rid : nat).

(** The store after one operation; results are dropped. *)
Definition exec (h : Heap) (op : BudgetOp) : outcome Heap :=
  match op with
  | OpConstructRoot worker limit => Ret (MemoryBudget_construct_root h worker limit).2
  | OpConstructChild parent limit => snd <$> MemoryBudget_construct_child h parent limit
  | OpDestroyBudget this => MemoryBudget_destroy h this
  | OpReserve this worker bytes => snd <$> MemoryBudget_reserve h this worker bytes
  | OpConstructReservation => Ret (MemoryReservation_construct h).2
  | OpRelease rid worker => snd <$> MemoryReservation_release h rid worker
  | OpGrow rid worker bytes => snd <$> MemoryReservation_grow h rid worker bytes
  | OpShrink rid worker bytes => snd <$> MemoryReservation_shrink h rid worker bytes
  | OpMoveConstruct other => snd <$> MemoryReservation_move_construct h other
  | OpMoveAssign this other => MemoryReservation_move_assign h this other
  | OpDestroyReservation rid => MemoryReservation_destroy h rid
  end.

(** What the language asks of the caller: arguments of type [size_t], pointers to live
    objects, no budget destroyed while something lives under it, and fewer than [2^64 - 1]
    children of one budget. *)
Definition legal (h : Heap) (op : BudgetOp) : Prop :=
  match op with
  | OpConstructRoot _ limit => is_size limit
  | OpConstructChild parent limit =>
      is_size limit /\ exists b, budgets h !! parent = Some b /\ mb_live_children b < size_max
  | OpDestroyBudget this =>
      exists b, budgets h !! this = Some b /\ mb_live_reservations b = 0 /\ mb_live_children b = 0
  | OpReserve this _ bytes => is_size bytes /\ is_Some (budgets h !! this)
  | OpConstructReservation => True
  | OpRelease rid _ => is_Some (reservations h !! rid)
  | OpGrow rid _ bytes | OpShrink rid _ bytes =>
      is_size bytes /\ is_Some (reservations h !! rid)
  | OpMoveConstruct other => is_Some (reservations h !! other)
  | OpMoveAssign this other => is_Some (reservations h !! this) /\ is_Some (reservations h !! other)
  | OpDestroyReservation rid => is_Some (reservations h !! rid)
  end.

Inductive reachable : Heap -> Prop :=
  | reachable_empty : reachable empty_heap
  | reachable_step h op h' :
      reachable h -> legal h op -> exec h op = Ret h' -> reachable h'.

(** One step from a store that satisfies the invariant returns, in such a store. *)
Lemma exec_step h op : Inv h -> legal h op -> exists h', exec h op = Ret h' /\ Inv h'.
Proof.
  intros HI. destruct op; simpl.
  - intros Hl. eexists. split; [done|].
    by apply (Inv_added h HI worker limit None Hl).
  - intros (Hl & b & Hb & Hmax).
    destruct (construct_child_run h parent b limit HI Hb Hl Hmax) as (h' & -> & HI' & _). by exists h'.
  - intros (b & Hb & Hr & Hc). destruct (budget_destroy_run h this b HI Hb) as
      [(_ & _ & -> & HI')|([?|?] & _)]; [by eexists|done|done].
  - intros (Hn & b & Hb). destruct (reserve_run h this b worker bytes HI Hb Hn) as
      [(_ & Hroom & ->)|(e & -> & _)]; simpl; [|by exists h].
    eexists. split; [done|]. by apply (Inv_after_reserve h this b).
  - intros _. eexists. split; [done|]. by apply Inv_construct_reservation.
  - intros (r & Hr). destruct (reservation_release_run h rid r worker HI Hr) as
      [(b & -> & _)| ->]; simpl; [by exists h|]. eexists. split; [done|].
    by destruct (release_unchecked_run h rid r HI Hr) as (_ & ? & _).
  - intros (Hn & r & Hr). destruct (mr_budget r) as [a|] eqn:Ha.
    + destruct (reservation_budget_live h rid r a HI Hr Ha) as [b Hb].
      destruct (reservation_grow_run h rid r a b worker bytes HI Hr Ha Hb Hn) as
        [(-> & Hroom & _)|(e & -> & _)]; simpl; [|by exists h]. eexists. split; [done|].
      apply (Inv_after_resize h rid a b r); auto.
      * destruct (inv_reservations h HI rid r Hr). unfold is_size in Hn. lia.
      * intros i bi Hi Hbi. by destruct (Hroom i bi Hi Hbi).
    + unfold MemoryReservation_grow, the_reservation. rewrite Hr. simpl. rewrite Ha. by exists h.
  - intros (Hn & r & Hr). destruct (mr_budget r) as [a|] eqn:Ha.
    + destruct (reservation_budget_live h rid r a HI Hr Ha) as [b Hb].
      destruct (reservation_shrink_run h rid r a b worker bytes HI Hr Ha Hb Hn) as
        [(-> & Hle & _)|(e & -> & _)]; simpl; [|by exists h]. eexists. split; [done|].
      unfold is_size in Hn. apply (Inv_after_resize h rid a b r); auto; [lia|].
      intros i bi Hi Hbi. pose proof (budget_ok_nonneg h i bi HI Hbi). lia.
    + unfold MemoryReservation_shrink, the_reservation. rewrite Hr. simpl. rewrite Ha. by exists h.
  - intros (o & Ho). destruct (move_construct_run h other o HI Ho) as (h' & -> & HI' & _). by exists h'.
  - intros ((t & Ht) & (o & Ho)). destruct (move_assign_run h this other t o HI Ht Ho)
      as (h' & -> & HI' & _). by exists h'.
  - intros (r & Hr). destruct (destroy_run h rid r HI Hr) as [-> HI']. by eexists.
Qed.

Lemma reachable_Inv h : reachable h -> Inv h.
Proof.
  induction 1 as [|h op h' _ IH Hl He]; [apply Inv_empty|].
  destruct (exec_step h op IH Hl) as (h1 & He1 & HI). congruence.
Qed.

(** A chain contains the chain of each of its members, so what is charged to a child is
    charged to its parent. *)
Lemma chain_transitive m a i j :
  topology m -> i ∈ chain m a -> j ∈ chain m i -> j ∈ chain m a.
Proof.
  intros Ht. induction a as [a IH] using lt_wf_ind. intros Hi Hj.
  rewrite (chain_unfold m a Ht) in Hi. apply elem_of_cons in Hi as [->|Hi]; [done|].
  rewrite (chain_unfold m a Ht). apply elem_of_cons. right.
  destruct (parent_of m a) as [p|] eqn:Hp; [|by apply elem_of_nil in Hi].
  apply (IH p); auto. by apply (parent_of_lt m a p).
Qed.

(** Giving back a charge restores the chain. *)
Lemma adjust_inverse h this bytes :
  Inv h ->
  update_chain (adjust (- bytes) (-1)) (update_chain (adjust bytes 1) (budgets h) this) this =
  budgets h.
Proof.
  intros HI. rewrite update_chain_compose by (apply (inv_topology h HI) || apply adjust_parent).
  rewrite (update_chain_ext _ (fun b => b)); [apply update_chain_id|].
  intros i b _ _. unfold adjust, set_charged. destruct b; simpl. f_equal; lia.
Qed.

(** ** Properties *)

(** C1: in every store a client can reach, the charge of a budget is exactly the sum of the
    bytes of the live reservations made on it or on a budget below it, it never exceeds the
    limit, the reservation and child counts are the numbers of those objects, and a child is
    never charged more than its parent. *)
Theorem budget_accounting (h : Heap) (id : nat) (b : MemoryBudget) :
  reachable h -> budgets h !! id = Some b ->
  0 <= mb_charged b <= mb_limit b /\
  mb_charged b = map_sum (bytes_below (budgets h) id) (reservations h) /\
  mb_live_reservations b = map_sum (count_below (budgets h) id) (reservations h) /\
  mb_live_children b = map_sum (is_child id) (budgets h) /\
  (forall p, mb_parent b = Some p ->
     exists pb, budgets h !! p = Some pb /\ mb_charged b <= mb_charged pb).
Proof.
  intros HI%reachable_Inv Hb. pose proof (budget_ok_nonneg h id b HI Hb).
  destruct (inv_budgets h HI id b Hb) as [H1 H2 H3 H4 H5 H6 H7]. repeat split; try lia.
  intros p Hp. pose proof (inv_topology h HI) as Ht.
  destruct (Ht id b p Hb Hp) as (Hlt & pb & Hpb & _). exists pb. split; [done|].
  destruct (inv_budgets h HI p pb Hpb) as [_ Hc _ _ _ _ _]. rewrite H2, Hc.
  apply map_sum_le. intros k r Hr. destruct (inv_reservations h HI k r Hr) as [Hpos _].
  unfold bytes_below, below. destruct (mr_budget r) as [a|]; [|lia].
  destruct (bool_decide_reflect (id ∈ chain (budgets h) a)) as [Hin|];
    [|destruct (bool_decide _); lia].
  rewrite bool_decide_true; [lia|]. apply (chain_transitive _ a id p Ht Hin).
  rewrite (chain_unfold _ id Ht), (parent_of_Some _ _ _ Hb), Hp.
  apply elem_of_cons. right. apply chain_self.
Qed.

(** C39: an operation on live objects, with [size_t] arguments, always returns: no loop over
    the parents runs away, no counter check reaches [std::terminate], no dangling pointer is
    followed. *)
Theorem budget_operations_return (h : Heap) (op : BudgetOp) :
  reachable h -> legal h op -> exists h', exec h op = Ret h' /\ reachable h'.
Proof.
  intros Hr Hl. destruct (exec_step h op (reachable_Inv h Hr) Hl) as (h' & He & _).
  exists h'. split; [done|]. by apply (reachable_step h op).
Qed.

(** [reserve] is all-or-nothing: it succeeds exactly for the owning worker when every
    budget from the requested one to the root has room and a free count; then exactly those
    budgets are charged, by exactly the requested bytes; otherwise the store is unchanged. *)
Theorem reserve_all_or_nothing (h : Heap) (this : nat) (b : MemoryBudget) (worker : WorkerId)
    (bytes : Z) :
  reachable h -> budgets h !! this = Some b -> is_size bytes ->
  exists r h', MemoryBudget_reserve h this worker bytes = Ret (r, h') /\
    (has_value r = true <->
       value_ (mb_worker b) = value_ worker /\ chain_has_room h this bytes) /\
    match r with
    | Err _ => h' = h
    | Ok rid =>
        reservations h !! rid = None /\
        reservations h' = <[rid := MkMemoryReservation (Some this) bytes]> (reservations h) /\
        (forall i bi, budgets h !! i = Some bi -> budgets h' !! i =
           Some (if decide (i ∈ chain (budgets h) this)
                 then set_charged bi (mb_charged bi + bytes) (mb_live_reservations bi + 1)
                 else bi)) /\
        (forall i, budgets h !! i = None -> budgets h' !! i = None)
    end.
Proof.
  intros HI%reachable_Inv Hb Hn.
  destruct (reserve_run h this b worker bytes HI Hb Hn) as [(Hw & Hroom & ->)|(e & -> & He)].
  - eexists _, _. split; [done|]. split; [done|]. simpl.
    split; [apply (inv_fresh h HI); lia|]. split; [done|].
    split; intros i; intros; rewrite lookup_update_chain.
    + by rewrite H.
    + by rewrite H.
  - eexists _, _. split; [done|]. split; [|done]. simpl. split; [done|]. intros [Hw Hroom].
    destruct He as [[? _]|(_ & ? & _)]; done.
Qed.

(** Releasing a reservation that was just made restores every budget of the store. *)
Theorem reserve_release_roundtrip (h h1 : Heap) (this rid : nat) (b : MemoryBudget)
    (worker : WorkerId) (bytes : Z) :
  reachable h -> budgets h !! this = Some b -> is_size bytes ->
  MemoryBudget_reserve h this worker bytes = Ret (Ok rid, h1) ->
  exists h2, MemoryReservation_release h1 rid worker = Ret (Ok tt, h2) /\
    budgets h2 = budgets h /\
    reservations h2 = <[rid := inactive_reservation]> (reservations h).
Proof.
  intros HI%reachable_Inv Hb Hn Hres.
  destruct (reserve_run h this b worker bytes HI Hb Hn) as [(Hw & Hroom & Hrun)|(e & Hrun & _)];
    rewrite Hres in Hrun; [|done]. injection Hrun as -> ->.
  pose proof (Inv_after_reserve h this b bytes HI Hb Hn Hroom) as HI'.
  set (r := MkMemoryReservation (Some this) bytes).
  assert (Hr : reservations (after_reserve h this bytes) !! next_object h = Some r)
    by (simpl; by rewrite lookup_insert_eq).
  pose proof (adjust_inverse h this bytes HI) as Hcomp.
  destruct (reservation_release_run _ (next_object h) r worker HI' Hr) as
    [(b' & _ & (a & [= <-] & Hb') & Hne)| ->].
  - destruct Hne. simpl in Hb'. rewrite lookup_update_chain, Hb in Hb'. simpl in Hb'.
    injection Hb' as <-. by destruct (decide _).
  - eexists. split; [done|]. unfold after_release. simpl. split; [exact Hcomp|].
    by rewrite insert_insert_eq.
Qed.

(** [reserve_for_allocation] when the charge fits: the effect on the heap. *)
Lemma reserve_for_allocation_run {X : Type} h this b worker bytes
    (acquire : X -> outcome (Result unit * X)) x x' acquisition :
  Inv h -> budgets h !! this = Some b -> is_size bytes ->
  value_ (mb_worker b) = value_ worker -> chain_has_room h this bytes ->
  acquire x = Ret (acquisition, x') ->
  exists h', MemoryBudget_reserve_for_allocation h this worker bytes acquire x =
    Ret (match acquisition with Ok _ => Ok (S (next_object h)) | Err e => Err e end, h', x') /\
  Inv h' /\
  match acquisition with
  | Err _ => budgets h' = budgets h /\ reservations h' = reservations h
  | Ok _ => budgets h' = update_chain (adjust bytes 1) (budgets h) this /\
            reservations h' =
              <[S (next_object h) := MkMemoryReservation (Some this) bytes]> (reservations h)
  end.
Proof.
  intros HI Hb Hn Hw Hroom Hacq. unfold MemoryBudget_reserve_for_allocation.
  destruct (reserve_run h this b worker bytes HI Hb Hn) as
    [(_ & _ & ->)|(e & _ & [[? _]|(_ & ? & _)])]; try done. simpl. rewrite Hacq. simpl.
  pose proof (Inv_after_reserve h this b bytes HI Hb Hn Hroom) as HI'.
  destruct (inv_fresh h HI (next_object h) (le_n _)) as [_ Hnone].
  destruct (inv_fresh h HI (S (next_object h)) ltac:(lia)) as [_ Hnone'].
  pose proof (adjust_inverse h this bytes HI) as Hcomp.
  set (r := MkMemoryReservation (Some this) bytes).
  assert (Hr : reservations (after_reserve h this bytes) !! next_object h = Some r)
    by (simpl; by rewrite lookup_insert_eq).
  destruct acquisition as [[]|e].
  - destruct (move_construct_run _ (next_object h) r HI' Hr) as (h1 & -> & HI1 & Hb1 & Hr1 & Hn1).
    simpl. assert (Hr1' : reservations h1 !! next_object h = Some inactive_reservation)
      by (rewrite Hr1; apply lookup_insert_eq).
    destruct (destroy_run h1 (next_object h) inactive_reservation HI1 Hr1') as [-> HI2]. simpl.
    eexists. split; [done|]. split; [done|]. unfold after_destroy, after_release. simpl.
    split; [by rewrite Hb1|]. rewrite Hr1. simpl.
    rewrite delete_insert_eq. rewrite delete_insert_ne by lia. rewrite delete_insert_id by done. done.
  - destruct (destroy_run _ (next_object h) r HI' Hr) as [-> HI2]. simpl.
    eexists. split; [done|]. split; [done|]. unfold after_destroy, after_release. simpl.
    split; [exact Hcomp|]. rewrite insert_insert_eq. by apply delete_insert_id.
Qed.

(** When the acquisition that follows a charge fails, [reserve_for_allocation] hands its
    error on and leaves every budget and every reservation as it found them; when it
    succeeds, the result is one live reservation of the requested size and the temporary is
    gone. *)
Theorem reserve_for_allocation_rollback {X : Type} (h : Heap) (this : nat) (b : MemoryBudget)
    (worker : WorkerId) (bytes : Z) (acquire : X -> outcome (Result unit * X)) (x x' : X)
    (acquisition : Result unit) :
  reachable h -> budgets h !! this = Some b -> is_size bytes ->
  value_ (mb_worker b) = value_ worker -> chain_has_room h this bytes ->
  acquire x = Ret (acquisition, x') ->
  exists h', MemoryBudget_reserve_for_allocation h this worker bytes acquire x =
    Ret (match acquisition with Ok _ => Ok (S (next_object h)) | Err e => Err e end, h', x') /\
  match acquisition with
  | Err _ => budgets h' = budgets h /\ reservations h' = reservations h
  | Ok _ => budgets h' = update_chain (adjust bytes 1) (budgets h) this /\
            reservations h' =
              <[S (next_object h) := MkMemoryReservation (Some this) bytes]> (reservations h)
  end.
Proof.
  intros HI%reachable_Inv Hb Hn Hw Hroom Hacq.
  destruct (reserve_for_allocation_run h this b worker bytes acquire x x' acquisition)
    as (h' & Hrun & _ & H'); try done. eauto.
Qed.

(** destroying a budget terminates the process exactly when a reservation or a child
    still lives under it, and [ready_for_destruction] tells the owner which it will be. *)
Theorem destroy_guard_exact (h : Heap) (this : nat) (b : MemoryBudget) (worker : WorkerId) :
  reachable h -> budgets h !! this = Some b -> value_ (mb_worker b) = value_ worker ->
  (MemoryBudget_destroy h this = Stop Terminated <->
     MemoryBudget_ready_for_destruction h this worker = Ret (Err lifetime_error)) /\
  (MemoryBudget_ready_for_destruction h this worker = Ret (Ok tt) <->
     exists h', MemoryBudget_destroy h this = Ret h' /\ Inv h' /\ budgets h' !! this = None).
Proof.
  intros HI%reachable_Inv Hb Hw.
  unfold MemoryBudget_ready_for_destruction, the_budget, MemoryBudget_require_worker,
    MemoryBudget_owns. rewrite Hb. simpl. rewrite (proj2 (Z.eqb_eq _ _) Hw). simpl.
  destruct (budget_destroy_run h this b HI Hb) as [(H1 & H2 & -> & HI')|(H & ->)].
  - rewrite H1, H2. simpl. split; [done|]. split; [|done]. intros _.
    eexists. split; [done|]. split; [done|]. simpl. unfold removed. apply lookup_delete_eq.
  - assert (negb (mb_live_reservations b =? 0) || negb (mb_live_children b =? 0) = true) as ->.
    { destruct H as [H|H]; rewrite (proj2 (Z.eqb_neq _ _) H); simpl; [done|apply orb_true_r]. }
    split; [done|]. split; [done|]. by intros (h' & ? & _).
Qed.

(** ** Witnesses: a root of 100 bytes, a child of 60, and 40 bytes reserved on the child *)
Definition demo_worker : WorkerId := MkStrongIdentifier 7.
Definition demo_tree : Heap :=
  MkHeap {[ 0%nat := MkMemoryBudget demo_worker 100 0 0 1 None;
            1%nat := MkMemoryBudget demo_worker 60 0 0 0 (Some 0%nat) ]} ∅ 2.
Definition demo_reserved : Heap :=
  MkHeap {[ 0%nat := MkMemoryBudget demo_worker 100 40 1 1 None;
            1%nat := MkMemoryBudget demo_worker 60 40 1 0 (Some 0%nat) ]}
         {[ 2%nat := MkMemoryReservation (Some 1%nat) 40 ]} 3.

Lemma demo_tree_reachable : reachable demo_tree.
Proof.
  apply (reachable_step (MkHeap {[ 0%nat := MkMemoryBudget demo_worker 100 0 0 0 None ]} ∅ 1)
           (OpConstructChild 0 60)).
  - apply (reachable_step empty_heap (OpConstructRoot demo_worker 100)).
    + apply reachable_empty.
    + simpl. unfold is_size, size_max, u64_max. lia.
    + vm_compute. reflexivity.
  - simpl. split; [unfold is_size, size_max, u64_max; lia|]. eexists. split; [vm_compute; reflexivity|].
    simpl. unfold size_max, u64_max. lia.
  - vm_compute. reflexivity.
Qed.

Lemma demo_reserved_reachable : reachable demo_reserved.
Proof.
  apply (reachable_step demo_tree (OpReserve 1 demo_worker 40)).
  - apply demo_tree_reachable.
  - simpl. split; [unfold is_size, size_max, u64_max; lia|]. eexists. vm_compute. reflexivity.
  - vm_compute. reflexivity.
Qed.

Lemma demo_size n : 0 <= n <= 1000 -> is_size n.
Proof. unfold is_size, size_max, u64_max. lia. Qed.

Lemma demo_room : chain_has_room demo_tree 1 40.
Proof.
  intros i b Hi Hb. vm_compute in Hi. apply list_elem_of_In in Hi as [<-|[<-|[]]];
    vm_compute in Hb; injection Hb as <-; simpl; unfold size_max, u64_max; lia.
Qed.

Lemma budget_accounting_witness :
  map_sum (bytes_below (budgets demo_reserved) 0) (reservations demo_reserved) = 40 /\
  exists b, budgets demo_reserved !! 0%nat = Some b /\ 0 <= mb_charged b <= mb_limit b.
Proof.
  destruct (budget_accounting demo_reserved 0 (MkMemoryBudget demo_worker 100 40 1 1 None)
              demo_reserved_reachable ltac:(vm_compute; reflexivity)) as (H1 & H2 & _).
  split; [symmetry; exact H2|]. eexists. split; [vm_compute; reflexivity|exact H1].
Defined.

Lemma budget_operations_return_witness :
  exists h', exec demo_reserved (OpRelease 2 demo_worker) = Ret h' /\ reachable h'.
Proof.
  apply (budget_operations_return demo_reserved (OpRelease 2 demo_worker)).
  - exact demo_reserved_reachable.
  - simpl. eexists. vm_compute. reflexivity.
Defined.

Lemma reserve_all_or_nothing_witness :
  (exists r h', MemoryBudget_reserve demo_reserved 1 demo_worker 21 = Ret (r, h')) /\
  has_value (match MemoryBudget_reserve demo_reserved 1 demo_worker 21 with
             | Ret (r, _) => r | Stop _ => Ok 0%nat end) = false.
Proof.
  split; [|vm_compute; reflexivity].
  destruct (reserve_all_or_nothing demo_reserved 1
    (MkMemoryBudget demo_worker 60 40 1 0 (Some 0%nat)) demo_worker 21
    demo_reserved_reachable ltac:(vm_compute; reflexivity) (demo_size 21 ltac:(lia)))
    as (r & h' & H & _).
  exists r, h'. exact H.
Defined.

Lemma reserve_release_roundtrip_witness :
  exists h2, MemoryReservation_release demo_reserved 2 demo_worker = Ret (Ok tt, h2) /\
    budgets h2 = budgets demo_tree.
Proof.
  destruct (reserve_release_roundtrip demo_tree demo_reserved 1 2
    (MkMemoryBudget demo_worker 60 0 0 0 (Some 0%nat)) demo_worker 40
    demo_tree_reachable ltac:(vm_compute; reflexivity) (demo_size 40 ltac:(lia))
    ltac:(vm_compute; reflexivity)) as (h2 & H & Hb & _).
  exists h2. split; [exact H|exact Hb].
Defined.

Lemma reserve_for_allocation_rollback_witness :
  exists h', MemoryBudget_reserve_for_allocation demo_tree 1 demo_worker 40
    (fun x : nat => Ret (Err lifetime_error, S x)) 0%nat = Ret (Err lifetime_error, h', 1%nat) /\
    budgets h' = budgets demo_tree /\ reservations h' = reservations demo_tree.
Proof.
  apply (reserve_for_allocation_rollback demo_tree 1
    (MkMemoryBudget demo_worker 60 0 0 0 (Some 0%nat)) demo_worker 40
    (fun x : nat => Ret (Err lifetime_error, S x)) 0%nat 1%nat (Err lifetime_error)
    demo_tree_reachable ltac:(vm_compute; reflexivity) (demo_size 40 ltac:(lia))
    eq_refl demo_room eq_refl).
Defined.

Lemma destroy_guard_exact_witness :
  MemoryBudget_ready_for_destruction demo_reserved 1 demo_worker = Ret (Err lifetime_error) /\
  MemoryBudget_destroy demo_reserved 1 = Stop Terminated.
Proof.
  assert (MemoryBudget_ready_for_destruction demo_reserved 1 demo_worker = Ret (Err lifetime_error))
    as H by (vm_compute; reflexivity).
  split; [exact H|].
  apply (proj1 (destroy_guard_exact demo_reserved 1
    (MkMemoryBudget demo_worker 60 40 1 0 (Some 0%nat)) demo_worker
    demo_reserved_reachable ltac:(vm_compute; reflexivity) eq_refl)). exact H.
Defined.
