(* ===== verification/Views.v ===== *)
(** * Memory, byte views and text views

    Models [src/core/contract/laghu/core/views.hpp].  A span is a nullable pointer and a
    size; the bytes live in a [Memory] of allocated blocks, so two views of one block share
    its contents.  Reading or writing outside a block is undefined.  [copy_loop] is the
    byte-wise copy the containers write by hand.  Text views and bounded C strings are
    modelled by their characters. *)
From S2P Require Import Prelude Contract CheckedArithmetic.
From Stdlib Require Import ZArith Lia Ascii String.
From stdpp Require Import base numbers list gmap strings option.

Set Default Goal Selector "!".
#[local] Open Scope Z_scope.

(** ** Memory *)
Record pointer := MkPointer { ptr_block : nat; ptr_offset : Z }.

Abbreviation Memory := (gmap nat (list Z)).

#[export] Instance pointer_eq_dec : EqDecision pointer.
Proof. solve_decision. Defined.

Definition ptr_add (p : pointer) (n : Z) : pointer := MkPointer (ptr_block p) (ptr_offset p + n).

Definition load_byte (mem : Memory) (p : pointer) : outcome Z :=
  match mem !! ptr_block p with
  | None => Stop Undefined
  | Some l =>
      if ptr_offset p <? 0 then Stop Undefined else
      match l !! Z.to_nat (ptr_offset p) with
      | None => Stop Undefined
      | Some v => Ret v
      end
  end.

Definition store_byte (mem : Memory) (p : pointer) (v : Z) : outcome Memory :=
  match mem !! ptr_block p with
  | None => Stop Undefined
  | Some l =>
      if (ptr_offset p <? 0) || (Z.of_nat (length l) <=? ptr_offset p) then Stop Undefined
      else Ret (<[ptr_block p := <[Z.to_nat (ptr_offset p) := v]> l]> mem)
  end.

(** [for (index = 0; index < n; ++index) output[index] = input[index]] *)
Fixpoint copy_loop (n : nat) (mem : Memory) (output input : pointer) : outcome Memory :=
  match n with
  | O => Ret mem
  | S n' =>
      v ← load_byte mem input;
      mem' ← store_byte mem output v;
      copy_loop n' mem' (ptr_add output 1) (ptr_add input 1)
  end.

(** ** Spans *)
Record span := MkSpan { span_data : option pointer; span_size : Z }.

#[export] Instance span_eq_dec : EqDecision span.
Proof. solve_decision. Defined.

Definition empty_span : span := MkSpan None 0.

Definition span_empty (s : span) : bool := span_size s =? 0.

Definition subspan (s : span) (offset count : Z) : span :=
  MkSpan ((fun p => ptr_add p offset) <$> span_data s) count.

(** The bytes a span shows. *)
Definition span_bytes (mem : Memory) (s : span) : option (list Z) :=
  if span_size s =? 0 then Some []
  else
    p ← span_data s;
    l ← mem !! ptr_block p;
    if (0 <=? ptr_offset p) && (0 <? span_size s) && (ptr_offset p + span_size s <=? Z.of_nat (length l))
    then Some (take (Z.to_nat (span_size s)) (drop (Z.to_nat (ptr_offset p)) l))
    else None.

(** ** [ByteView] and [MutableByteView] *)
Definition ByteView := span.
Definition MutableByteView := span.

Definition ByteView_from (bytes : span) : Result ByteView :=
  if bool_decide (span_data bytes = None) && negb (span_empty bytes)
  then Err (core_error invalid_input "byte view requires non-null data")
  else Ok bytes.

Definition ByteView_slice (this : ByteView) (offset length : Z) : Result ByteView :=
  _ ← checked_range size_t offset length (span_size this);
  Ok (subspan this offset length).

Definition MutableByteView_from (bytes : span) : Result MutableByteView :=
  if bool_decide (span_data bytes = None) && negb (span_empty bytes)
  then Err (core_error invalid_input "mutable byte view requires non-null data")
  else Ok bytes.

Definition MutableByteView_slice (this : MutableByteView) (offset length : Z) :
    Result MutableByteView :=
  _ ← checked_range size_t offset length (span_size this);
  Ok (subspan this offset length).

Definition MutableByteView_as_const (this : MutableByteView) : ByteView := this.

(** ** [StaticCString] and [TextView] *)
Record StaticCString := MkStaticCString { cs_storage : list ascii; cs_size : Z }.

Definition StaticCString_default (Capacity : nat) : StaticCString :=
  MkStaticCString (replicate Capacity Ascii.zero) 0.
Definition StaticCString_capacity (s : StaticCString) : Z := Z.of_nat (length (cs_storage s)) - 1.
Definition StaticCString_view (s : StaticCString) : list ascii :=
  take (Z.to_nat (cs_size s)) (cs_storage s).
Definition StaticCString_cleanse (s : StaticCString) : StaticCString :=
  MkStaticCString (map (fun _ => Ascii.zero) (cs_storage s)) 0.

(** [c_str()] as a C caller reads it: up to the first NUL. *)
Fixpoint c_string_read (l : list ascii) : option (list ascii) :=
  match l with
  | [] => None
  | c :: l' => if bool_decide (c = Ascii.zero) then Some [] else cons c <$> c_string_read l'
  end.

Definition TextView := list ascii.

(** [from(data, size)]: [data] is the character array the pointer denotes, if not null. *)
Definition TextView_from (data : option (list ascii)) (size : Z) : Result TextView :=
  match data with
  | None =>
      if negb (size =? 0) then Err (core_error invalid_input "text view requires non-null data")
      else Ok []
  | Some chars => if size =? 0 then Ok [] else Ok (take (Z.to_nat size) chars)
  end.

Definition TextView_slice (this : TextView) (offset length : Z) : Result TextView :=
  _ ← checked_range size_t offset length (Z.of_nat (List.length this));
  Ok (take (Z.to_nat length) (drop (Z.to_nat offset) this)).

Fixpoint TextView_contains_nul (this : TextView) : bool :=
  match this with
  | [] => false
  | character :: rest => if bool_decide (character = Ascii.zero) then true else TextView_contains_nul rest
  end.

Definition TextView_to_c_string (Capacity : nat) (this : TextView) : Result StaticCString :=
  if TextView_contains_nul this
  then Err (core_error invalid_input "text contains an embedded NUL")
  else if Z.of_nat Capacity <=? Z.of_nat (length this)
  then Err (core_error invalid_range "text does not fit including terminator")
  else
    let output := StaticCString_default Capacity in
    Ok (MkStaticCString (list_inserts 0 this (cs_storage output)) (Z.of_nat (length this))).

(** ** Lemmas on memory *)
Lemma load_byte_ok mem p l v :
  mem !! ptr_block p = Some l -> 0 <= ptr_offset p -> l !! Z.to_nat (ptr_offset p) = Some v ->
  load_byte mem p = Ret v.
Proof.
  intros Hl Ho Hv. unfold load_byte. rewrite Hl.
  destruct (Z.ltb_spec (ptr_offset p) 0); [lia|]. by rewrite Hv.
Qed.

Lemma store_byte_ok mem p l v :
  mem !! ptr_block p = Some l -> 0 <= ptr_offset p < Z.of_nat (length l) ->
  store_byte mem p v = Ret (<[ptr_block p := <[Z.to_nat (ptr_offset p) := v]> l]> mem).
Proof.
  intros Hl Ho. unfold store_byte. rewrite Hl.
  destruct (Z.ltb_spec (ptr_offset p) 0), (Z.leb_spec (Z.of_nat (length l)) (ptr_offset p));
    simpl; lia || done.
Qed.

(** Inserting a run of bytes that starts with [v]. *)
Lemma list_inserts_step {A} (d : nat) (v : A) (k l : list A) :
  (d < length l)%nat -> list_inserts (S d) k (<[d := v]> l) = list_inserts d (v :: k) l.
Proof.
  intros Hd. simpl. apply list_eq. intros i.
  destruct (decide (i = d)) as [->|Hne].
  - rewrite list_lookup_inserts_lt by lia. rewrite !list_lookup_insert_eq by
      (rewrite ?length_inserts; lia). done.
  - rewrite list_lookup_insert_ne by done.
    destruct (decide (i < S d)%nat).
    + rewrite !list_lookup_inserts_lt by lia. by rewrite list_lookup_insert_ne by lia.
    + destruct (decide (i < S d + length k)%nat).
      * destruct (decide (i < length l)%nat).
        -- rewrite !list_lookup_inserts by (rewrite ?length_insert; lia). done.
        -- rewrite !lookup_ge_None_2 by (rewrite ?length_inserts, ?length_insert; lia). done.
      * rewrite !list_lookup_inserts_ge by lia. by rewrite list_lookup_insert_ne by lia.
Qed.

(** The copy is exact when the blocks differ, and also within one block when the output
    does not start inside the input. *)
Lemma copy_loop_run n mem output input lo li :
  mem !! ptr_block output = Some lo -> mem !! ptr_block input = Some li ->
  0 <= ptr_offset output -> ptr_offset output + Z.of_nat n <= Z.of_nat (length lo) ->
  0 <= ptr_offset input -> ptr_offset input + Z.of_nat n <= Z.of_nat (length li) ->
  (ptr_block output = ptr_block input ->
     ptr_offset output <= ptr_offset input \/ ptr_offset input + Z.of_nat n <= ptr_offset output) ->
  copy_loop n mem output input =
    Ret (<[ptr_block output :=
            list_inserts (Z.to_nat (ptr_offset output))
              (take n (drop (Z.to_nat (ptr_offset input)) li)) lo]> mem).
Proof.
  revert mem output input lo li. induction n as [|n IH]; intros mem [ob oo] [ib io] lo li Ho Hi
    H1 H2 H3 H4 Hal; simpl in *.
  { by rewrite insert_id. }
  destruct (lookup_lt_is_Some_2 li (Z.to_nat io)) as [v Hv]; [lia|].
  rewrite (load_byte_ok mem (MkPointer ib io) li v) by (simpl; done || lia). simpl.
  rewrite (store_byte_ok mem (MkPointer ob oo) lo v) by (simpl; done || lia). simpl.
  set (lo' := <[Z.to_nat oo := v]> lo).
  set (li' := if decide (ob = ib) then lo' else li).
  assert (Hi' : (<[ob := lo']> mem) !! ib = Some li').
  { unfold li'. destruct (decide (ob = ib)) as [->|Hne]; [by rewrite lookup_insert_eq|].
    by rewrite lookup_insert_ne. }
  assert (Hlen : length li' = length li).
  { unfold li', lo'. destruct (decide (ob = ib)) as [->|]; [|done].
    rewrite length_insert. congruence. }
  rewrite (IH (<[ob := lo']> mem) (MkPointer ob (oo + 1)) (MkPointer ib (io + 1)) lo' li');
    simpl; rewrite ?lookup_insert_eq; unfold lo'; rewrite ?length_insert; try done; try lia.
  rewrite insert_insert_eq. do 2 f_equal.
  replace (Z.to_nat (oo + 1)) with (S (Z.to_nat oo)) by lia.
  replace (Z.to_nat (io + 1)) with (S (Z.to_nat io)) by lia.
  rewrite (drop_S li v (Z.to_nat io) Hv). simpl. unfold lo'.
  rewrite list_inserts_step by lia. simpl. do 2 f_equal.
  unfold li', lo'. destruct (decide (ob = ib)) as [->|]; [|done].
  assert (lo = li) by congruence. subst lo. destruct (Hal eq_refl) as [Hle|Hge].
  - by rewrite drop_insert_lt by lia.
  - rewrite drop_insert_ge by lia. by rewrite take_insert_ge by lia.
Qed.

(** A successful slice shows the corresponding bytes. *)
Lemma slice_bytes mem s offset length l :
  0 <= offset <= size_max -> 0 <= length <= size_max -> 0 <= span_size s <= size_max ->
  span_bytes mem s = Some l ->
  checked_range size_t offset length (span_size s) = Ok tt ->
  span_bytes mem (subspan s offset length) =
    Some (take (Z.to_nat length) (drop (Z.to_nat offset) l)).
Proof.
  intros Ho Hn Hs Hl Hr. apply checked_range_size_inv in Hr; try done.
  unfold span_bytes, subspan in *. simpl.
  destruct (Z.eqb_spec length 0) as [->|Hne]; [by rewrite take_0|].
  destruct (Z.eqb_spec (span_size s) 0); [lia|].
  destruct (span_data s) as [p|]; simpl in *; [|done].
  destruct (mem !! ptr_block p) as [lb|]; simpl in *; [|done].
  destruct (_ && _) eqn:E in Hl; [|done]. injection Hl as <-.
  apply andb_true_iff in E as [E E3]. apply andb_true_iff in E as [E1 E2].
  apply Z.leb_le in E1, E3.
  destruct (Z.leb_spec 0 (ptr_offset p + offset)), (Z.ltb_spec 0 length),
    (Z.leb_spec (ptr_offset p + offset + length) (Z.of_nat (List.length lb))); simpl; try lia.
  f_equal. rewrite skipn_firstn_comm, drop_drop, take_take. f_equal; [lia|]. f_equal. lia.
Qed.

(** ** Properties *)
Lemma contains_nul_false this :
  TextView_contains_nul this = false <-> Ascii.zero ∉ this.
Proof.
  induction this as [|c l IH]; simpl; [split; [intros _; apply not_elem_of_nil|done]|].
  rewrite elem_of_cons. destruct (bool_decide_reflect (c = Ascii.zero)) as [->|Hne].
  - split; [done|]. intros H. exfalso. by apply H; left.
  - rewrite IH. split; [|tauto]. intros H [?|?]; [congruence|done].
Qed.

Lemma c_string_read_app (l rest : list ascii) :
  Ascii.zero ∉ l -> c_string_read (l ++ Ascii.zero :: rest) = Some l.
Proof.
  induction l as [|c l IH]; intros Hl; simpl; [done|].
  rewrite elem_of_cons in Hl. rewrite bool_decide_false by (intros ->; tauto).
  rewrite IH by tauto. done.
Qed.

Lemma map_const_replicate {A B} (b : B) (l : list A) : map (fun _ => b) l = replicate (length l) b.
Proof. induction l; simpl; congruence. Qed.

(** Slicing a view succeeds exactly for sub-ranges of it, and the slice shows exactly
    the bytes of that range of the viewed memory. *)
Theorem ByteView_slice_spec (mem : Memory) (s : ByteView) (offset length : Z) (l : list Z) :
  0 <= offset <= size_max -> 0 <= length <= size_max -> 0 <= span_size s <= size_max ->
  span_bytes mem s = Some l ->
  (offset + length <= span_size s ->
     exists v, ByteView_slice s offset length = Ok v /\
       span_bytes mem v = Some (take (Z.to_nat length) (drop (Z.to_nat offset) l)) /\
       MutableByteView_slice s offset length = Ok v) /\
  (span_size s < offset + length ->
     exists e, ByteView_slice s offset length = Err e /\ MutableByteView_slice s offset length = Err e).
Proof.
  intros Ho Hn Hs Hl. unfold ByteView_slice, MutableByteView_slice. split; intros Hr.
  - rewrite checked_range_size_ok by lia. simpl. eexists. split; [done|]. split; [|done].
    apply slice_bytes; try done. apply checked_range_size_ok; lia.
  - destruct (checked_range size_t offset length (span_size s)) as [[]|e] eqn:E.
    + apply checked_range_size_inv in E; lia.
    + by exists e.
Qed.

Definition demo_memory : Memory := {[ 0%nat := [10; 11; 12; 13; 14; 15] ]}.

Lemma ByteView_slice_spec_witness :
  exists v, ByteView_slice (MkSpan (Some (MkPointer 0 1)) 4) 1 2 = Ok v /\
    span_bytes demo_memory v = Some [12; 13].
Proof.
  destruct (proj1 (ByteView_slice_spec demo_memory
    (MkSpan (Some (MkPointer 0 1)) 4) 1 2 [11; 12; 13; 14]
    ltac:(unfold size_max, u64_max; lia) ltac:(unfold size_max, u64_max; lia)
    ltac:(simpl; unfold size_max, u64_max; lia) ltac:(vm_compute; reflexivity))
    ltac:(simpl; lia)) as (v & H1 & H2 & _).
  exists v. split; [exact H1|exact H2].
Defined.

(** Conversion to a bounded C string succeeds exactly for text without NUL that leaves
    room for the terminator; a C reader of the result then sees exactly the text; and
    cleansing leaves only zero bytes. *)
Theorem to_c_string_spec (Capacity : nat) (this : TextView) :
  (has_value (TextView_to_c_string Capacity this) = true <->
     (Ascii.zero ∉ this) /\ (length this < Capacity)%nat) /\
  (forall s, TextView_to_c_string Capacity this = Ok s ->
     length (cs_storage s) = Capacity /\
     c_string_read (cs_storage s) = Some this /\
     StaticCString_view s = this /\
     cs_storage (StaticCString_cleanse s) = replicate Capacity Ascii.zero).
Proof.
  unfold TextView_to_c_string.
  destruct (TextView_contains_nul this) eqn:E.
  { split; [|done]. split; [done|]. intros [H _]. apply contains_nul_false in H. congruence. }
  apply contains_nul_false in E.
  destruct (Z.leb_spec (Z.of_nat Capacity) (Z.of_nat (length this))) as [Hle|Hlt]; simpl.
  { split; [|done]. split; [done|]. intros [_ H]. lia. }
  split; [split; [intros _; split; [done|lia]|done]|]. intros s [= <-]. simpl.
  rewrite list_inserts_replicate by lia.
  replace (Capacity - length this)%nat with (S (Capacity - length this - 1)) by lia. simpl.
  assert (Hlen : length (this ++ Ascii.zero :: replicate (Capacity - length this - 1) Ascii.zero)
                 = Capacity).
  { rewrite length_app. simpl. rewrite length_replicate. lia. }
  split; [done|]. split; [by apply c_string_read_app|]. split.
  - unfold StaticCString_view. simpl. rewrite Nat2Z.id. by rewrite take_app_length.
  - rewrite <- Hlen at 2. apply map_const_replicate.
Qed.
