(* ===== verification/SharedOffsets.v ===== *)
(** * Big-endian fields and shared offsets

    Models [src/core/contract/laghu/core/shared_offsets.hpp]: fixed-width big-endian
    encoding of unsigned integers, and offsets into a mapping that are resolved to a
    pointer only after their range and alignment have been checked.  The address a block
    was mapped at is a parameter, as the code learns it from the operating system. *)
From S2P Require Import Prelude Contract CheckedArithmetic Identifiers Views.
From Stdlib Require Import ZArith Lia String.
From stdpp Require Import base numbers list gmap option.

Set Default Goal Selector "!".
#[local] Open Scope Z_scope.

(** [sizeof(T)] for an unsigned integral type. *)
Definition int_sizeof (T : int_type) : nat := Z.to_nat (bits T / 8).

(** The concept [BigEndianFixedWidth]. *)
Definition BigEndianFixedWidth (T : int_type) : bool :=
  bool_decide (T = uint16_t) || bool_decide (T = uint32_t) || bool_decide (T = uint64_t).

Definition encode_big_endian (T : int_type) (value : Z) : list Z :=
  map (fun index : nat =>
         let shift := Z.of_nat ((int_sizeof T - 1 - index) * 8) in
         cast uint8_t (Z.shiftr value shift))
      (seq 0 (int_sizeof T)).

Definition decode_big_endian (T : int_type) (encoded : list Z) : Result Z :=
  if negb (length encoded =? int_sizeof T)%nat then
    Err (core_error invalid_range "big-endian value has an invalid encoded size")
  else
    Ok (foldl (fun value byte => cast T (Z.lor (Z.shiftl value 8) byte)) 0 encoded).

(** ** Shared offsets *)
Record SharedOffset := MkSharedOffset { so_value : Z }.

Definition SharedOffset_from_raw (value : Z) : SharedOffset := MkSharedOffset value.
Definition SharedOffset_raw (o : SharedOffset) : Z := so_value o.
Definition SharedOffset_is_null (o : SharedOffset) : bool := so_value o =? 0.

Definition alignment_error : Error :=
  core_error invalid_range "shared offset does not meet mapped object alignment".

Section resolve.
Context (base_address : nat -> Z).

(** [reinterpret_cast<std::uintptr_t>] of a possibly null pointer. *)
Definition pointer_address (p : option pointer) : Z :=
  match p with Some p => base_address (ptr_block p) + ptr_offset p | None => 0 end.

(** [resolve<T>(ByteView)]; [None] is the null pointer. *)
Definition SharedOffset_resolve (sizeof_T alignof_T : Z) (this : SharedOffset) (mapping : ByteView) :
    Result (option pointer) :=
  if SharedOffset_is_null this then Ok None else
  offset ← checked_narrow size_t (so_value this);
  _ ← checked_range size_t offset sizeof_T (span_size mapping);
  let resolved := span_data (subspan mapping offset sizeof_T) in
  if negb (pointer_address resolved mod alignof_T =? 0) then Err alignment_error
  else Ok resolved.

(** [resolve<T>(MutableByteView)]: the same checks on a writable mapping. *)
Definition SharedOffset_resolve_mutable (sizeof_T alignof_T : Z) (this : SharedOffset)
    (mapping : MutableByteView) : Result (option pointer) :=
  if SharedOffset_is_null this then Ok None else
  offset ← checked_narrow size_t (so_value this);
  _ ← checked_range size_t offset sizeof_T (span_size mapping);
  let resolved := span_data (subspan mapping offset sizeof_T) in
  if negb (pointer_address resolved mod alignof_T =? 0) then Err alignment_error
  else Ok resolved.
End resolve.

(** ** Lemmas *)
Lemma BigEndianFixedWidth_facts T :
  BigEndianFixedWidth T = true ->
  is_signed T = false /\ bits T = 8 * Z.of_nat (int_sizeof T) /\ (0 < int_sizeof T)%nat /\
  2 ^ bits T = 256 ^ Z.of_nat (int_sizeof T) /\ int_type_ok T.
Proof.
  unfold BigEndianFixedWidth. rewrite !orb_true_iff, !bool_decide_eq_true.
  intros [[->| ->]| ->]; unfold int_type_ok; repeat split; vm_compute; (reflexivity || lia).
Qed.

Lemma encode_big_endian_eq T value : encode_big_endian T value = be_bytes (int_sizeof T) value.
Proof. apply shift_loop_be_bytes. Qed.

Lemma encode_big_endian_length T value : length (encode_big_endian T value) = int_sizeof T.
Proof. rewrite encode_big_endian_eq. apply be_bytes_length. Qed.

Lemma encode_big_endian_is_byte T value : Forall is_byte (encode_big_endian T value).
Proof. rewrite encode_big_endian_eq. apply be_bytes_is_byte. Qed.

Lemma decode_big_endian_eq T encoded :
  BigEndianFixedWidth T = true -> Forall is_byte encoded -> length encoded = int_sizeof T ->
  decode_big_endian T encoded = Ok (be_value encoded).
Proof.
  intros HT Hb Hl. destruct (BigEndianFixedWidth_facts T HT) as (Hs & Hbits & Hpos & _).
  unfold decode_big_endian. rewrite Hl, Nat.eqb_refl. simpl. f_equal.
  apply (lor_shift_loop false T (int_sizeof T)); auto. lia.
Qed.

Lemma decode_encode_big_endian T value :
  BigEndianFixedWidth T = true -> 0 <= value <= int_max T ->
  decode_big_endian T (encode_big_endian T value) = Ok value.
Proof.
  intros HT Hv. destruct (BigEndianFixedWidth_facts T HT) as (Hs & _ & _ & Hp & _).
  rewrite decode_big_endian_eq; [|done|apply encode_big_endian_is_byte|apply encode_big_endian_length].
  rewrite encode_big_endian_eq, be_value_bytes, <- Hp. f_equal. apply Z.mod_small.
  unfold int_max in Hv. rewrite Hs in Hv. lia.
Qed.

(** ** Properties *)

(** At each supported width, decoding an encoded value gives the value back, encoding a
    decoded field gives its bytes back, and only strings of exactly the field's size decode. *)
Theorem big_endian_roundtrip (T : int_type) (value : Z) (encoded : list Z) :
  BigEndianFixedWidth T = true -> 0 <= value <= int_max T -> Forall is_byte encoded ->
  decode_big_endian T (encode_big_endian T value) = Ok value /\
  (forall v, decode_big_endian T encoded = Ok v ->
     encode_big_endian T v = encoded /\ 0 <= v <= int_max T) /\
  (has_value (decode_big_endian T encoded) = true <-> length encoded = int_sizeof T).
Proof.
  intros HT Hv Hb. destruct (BigEndianFixedWidth_facts T HT) as (Hs & _ & _ & Hp & _).
  split; [by apply decode_encode_big_endian|]. split.
  - intros v Hd. assert (length encoded = int_sizeof T) as Hl.
    { unfold decode_big_endian in Hd. destruct (Nat.eqb_spec (length encoded) (int_sizeof T)); done. }
    rewrite decode_big_endian_eq in Hd by done. injection Hd as <-.
    rewrite encode_big_endian_eq, <- Hl. split; [by apply be_bytes_value|].
    pose proof (be_value_range encoded Hb) as Hr. unfold int_max. rewrite Hs, Hp, <- Hl. lia.
  - unfold decode_big_endian. destruct (Nat.eqb_spec (length encoded) (int_sizeof T)); done.
Qed.

Lemma big_endian_roundtrip_witness :
  encode_big_endian uint32_t 3735928559 = [222; 173; 190; 239] /\
  decode_big_endian uint32_t [222; 173; 190; 239] = Ok 3735928559.
Proof.
  assert (encode_big_endian uint32_t 3735928559 = [222; 173; 190; 239]) as E by (vm_compute; reflexivity).
  split; [exact E|]. rewrite <- E.
  apply (proj1 (big_endian_roundtrip uint32_t 3735928559 [] eq_refl ltac:(cbn; lia) (Forall_nil_2 _))).
Defined.

(** a nonzero shared offset resolves exactly when the whole object lies inside the
    mapping and its address is aligned; the pointer is then [offset] bytes into the mapping,
    so every byte of the object is a byte of the mapping.  The null offset resolves to the
    null pointer. *)
Theorem SharedOffset_resolve_spec (base_address : nat -> Z) (sizeof_T alignof_T offset : Z)
    (mapping : ByteView) (p0 : pointer) :
  0 < sizeof_T <= size_max -> 0 < alignof_T -> 0 <= offset <= u64_max ->
  0 <= span_size mapping <= size_max -> span_data mapping = Some p0 ->
  let r := SharedOffset_resolve base_address sizeof_T alignof_T (SharedOffset_from_raw offset) mapping in
  SharedOffset_resolve_mutable base_address sizeof_T alignof_T (SharedOffset_from_raw offset) mapping = r /\
  (offset = 0 -> r = Ok None) /\
  (offset <> 0 ->
     (r = Ok (Some (ptr_add p0 offset)) <->
        offset + sizeof_T <= span_size mapping /\
        (base_address (ptr_block p0) + (ptr_offset p0 + offset)) mod alignof_T = 0) /\
     (has_value r = true -> r = Ok (Some (ptr_add p0 offset)))).
Proof.
  intros Hsz Hal Ho Hm Hp. simpl. split; [done|].
  unfold SharedOffset_resolve, SharedOffset_is_null, SharedOffset_from_raw. simpl.
  split; [by intros ->|]. intros Hne. rewrite (proj2 (Z.eqb_neq _ _) Hne).
  rewrite checked_narrow_exact by auto with laghu. unfold exact_or_overflow.
  rewrite (proj2 (in_range_iff size_t offset)) by (rewrite size_t_min, size_t_max; done). simpl.
  destruct (checked_range size_t offset sizeof_T (span_size mapping)) as [[]|e] eqn:E; simpl.
  - apply checked_range_size_inv in E; try (unfold size_max in *; lia).
    rewrite Hp. simpl.
    destruct (Z.eqb_spec ((base_address (ptr_block p0) + (ptr_offset p0 + offset)) mod alignof_T) 0);
      simpl; split; try done; split; try done; lia.
  - split; [|done]. split; [done|]. intros [Hin _].
    rewrite checked_range_size_ok in E by (unfold size_max in *; lia). done.
Qed.

Lemma SharedOffset_resolve_spec_witness :
  SharedOffset_resolve (fun _ => 4096) 8 8 (SharedOffset_from_raw 16)
    (MkSpan (Some (MkPointer 3 0)) 24) = Ok (Some (MkPointer 3 16)).
Proof.
  apply (proj1 (proj2 (proj2 (SharedOffset_resolve_spec (fun _ => 4096) 8 8 16
    (MkSpan (Some (MkPointer 3 0)) 24) (MkPointer 3 0)
    ltac:(unfold size_max, u64_max; lia) ltac:(lia) ltac:(unfold u64_max; lia)
    ltac:(simpl; unfold size_max, u64_max; lia) eq_refl)) ltac:(lia))).
  simpl. split; [lia|reflexivity].
Defined.
