(* ===== verification/BinaryEnvelope.v ===== *)
(** * Binary envelopes and CRC-32C

    Models [src/core/contract/laghu/core/binary_envelope.hpp]: the checksummed frame that
    carries persistent and cross-process payloads.  Encoding writes into a caller's view
    and decoding reads from one, so both work on a [Memory]; [frame] is the reference
    definition of the bytes a frame consists of. *)
From S2P Require Import Prelude Contract CheckedArithmetic Identifiers Views SharedOffsets.
From Stdlib Require Import ZArith Lia String.
From stdpp Require Import base numbers list gmap option.

Set Default Goal Selector "!".
#[local] Open Scope Z_scope.

Definition binary_envelope_header_size : Z := 16.
Definition binary_envelope_version : Z := 1.

Record BinaryEnvelope := MkBinaryEnvelope { be_kind : Z; be_payload : ByteView }.

Definition BinaryEnvelope_default : BinaryEnvelope := MkBinaryEnvelope 0 empty_span.

Definition binary_envelope_error (code : ErrorCode) (diagnostic : string) : Error :=
  core_error code diagnostic.

Definition BinaryEnvelope_from_parts (kind : Z) (payload : ByteView) : Result BinaryEnvelope :=
  if kind =? 0 then Err (core_error invalid_input "binary envelope kind must be nonzero")
  else Ok (MkBinaryEnvelope kind payload).

(** ** The checksum *)
Definition crc32c_polynomial : Z := 0x82F63B78.

(** One turn of the inner loop. *)
Definition crc32c_bit (state : Z) : Z :=
  let mask := u32 (0 - Z.land state 1) in
  Z.lxor (Z.shiftr state 1) (Z.land crc32c_polynomial mask).

Definition crc32c_extend (state : Z) (bytes : list Z) : Z :=
  foldl (fun state byte => Nat.iter 8 crc32c_bit (Z.lxor state byte)) state bytes.

Definition crc32c_castagnoli (bytes : list Z) : Z :=
  Z.lxor (crc32c_extend u32_max bytes) u32_max.

Definition crc32c_castagnoli_pair (first second : list Z) : Z :=
  Z.lxor (crc32c_extend (crc32c_extend u32_max first) second) u32_max.

(** ** Encoding and decoding *)
Definition binary_envelope_encoded_size (payload_size : Z) : Result Z :=
  if u32_max <? payload_size then
    Err (binary_envelope_error overflow "binary envelope payload exceeds the 32-bit wire length")
  else checked_add size_t binary_envelope_header_size payload_size.

(** Reading all bytes of a view. *)
Definition view_bytes (mem : Memory) (s : span) : outcome (list Z) :=
  match span_bytes mem s with Some l => Ret l | None => Stop Undefined end.

(** Element access of a span whose pointer may be null. *)
Definition deref (p : option pointer) : outcome pointer :=
  match p with Some p => Ret p | None => Stop Undefined end.

(** [for (index ...) output[index] = bytes[index]] from a local array. *)
Fixpoint store_bytes (mem : Memory) (output : pointer) (bytes : list Z) : outcome Memory :=
  match bytes with
  | [] => Ret mem
  | v :: rest => mem' ← store_byte mem output v; store_bytes mem' (ptr_add output 1) rest
  end.

Definition envelope_magic : list Z := [76; 71; 72; 85].

(** The header is a local array, whose address is never null: [ByteView::from] on its first
    twelve bytes is the view of these bytes. *)
Definition encode_binary_envelope (mem : Memory) (envelope : BinaryEnvelope)
    (output : MutableByteView) : outcome (Result Z * Memory) :=
  if be_kind envelope =? 0 then
    Ret (Err (binary_envelope_error invalid_input "binary envelope kind must be nonzero"), mem)
  else
  TRY encoded_size ⇐ binary_envelope_encoded_size (span_size (be_payload envelope)) AT mem IN
  if span_size output <? encoded_size then
    Ret (Err (binary_envelope_error invalid_range "binary envelope output is too small"), mem)
  else
    let header := envelope_magic ++ replicate 12 0 in
    let version := encode_big_endian uint16_t binary_envelope_version in
    let kind := encode_big_endian uint16_t (be_kind envelope) in
    let payload_length :=
      encode_big_endian uint32_t (cast uint32_t (span_size (be_payload envelope))) in
    let header := list_inserts 6 kind (list_inserts 4 version header) in
    let header := list_inserts 8 payload_length header in
    payload ← view_bytes mem (be_payload envelope);
    let checksum_ := crc32c_castagnoli_pair (take 12 header) payload in
    let header := list_inserts 12 (encode_big_endian uint32_t checksum_) header in
    out ← deref (span_data output);
    mem ← store_bytes mem out header;
    mem ← (if span_size (be_payload envelope) =? 0 then Ret mem else
             input ← deref (span_data (be_payload envelope));
             copy_loop (Z.to_nat (span_size (be_payload envelope))) mem
               (ptr_add out binary_envelope_header_size) input);
    Ret (Ok encoded_size, mem).

(** [output] is the reference parameter; the value it has on return is returned too. *)
Definition decode_binary_envelope (mem : Memory) (input : ByteView) (maximum_payload_size : Z)
    (output : BinaryEnvelope) : outcome (Result unit * BinaryEnvelope) :=
  if span_size input <? binary_envelope_header_size then
    Ret (Err (binary_envelope_error corrupt_data "binary envelope is shorter than its header"), output)
  else
  TRY header ⇐ ByteView_slice input 0 binary_envelope_header_size AT output IN
  (header_bytes ← view_bytes mem header;
   if negb (bool_decide (take 4 header_bytes = envelope_magic)) then
     Ret (Err (binary_envelope_error corrupt_data "binary envelope magic is invalid"), output)
   else
   match ByteView_slice header 4 2, ByteView_slice header 6 2, ByteView_slice header 8 4,
         ByteView_slice header 12 4 with
   | Ok encoded_version, Ok encoded_kind, Ok encoded_length, Ok encoded_checksum =>
     version_bytes ← view_bytes mem encoded_version;
     kind_bytes ← view_bytes mem encoded_kind;
     length_bytes ← view_bytes mem encoded_length;
     checksum_bytes ← view_bytes mem encoded_checksum;
     match decode_big_endian uint16_t version_bytes, decode_big_endian uint16_t kind_bytes,
           decode_big_endian uint32_t length_bytes, decode_big_endian uint32_t checksum_bytes with
     | Ok version, Ok kind, Ok payload_length, Ok checksum_ =>
       if negb (version =? binary_envelope_version) then
         Ret (Err (binary_envelope_error unsupported_version "binary envelope version is unsupported"), output)
       else if kind =? 0 then
         Ret (Err (binary_envelope_error invalid_input "binary envelope kind must be nonzero"), output)
       else
       TRY payload_size ⇐ checked_narrow size_t payload_length AT output IN
       if maximum_payload_size <? payload_size then
         Ret (Err (binary_envelope_error invalid_range "binary envelope payload exceeds the caller maximum"), output)
       else
       TRY expected_size ⇐ binary_envelope_encoded_size payload_size AT output IN
       if span_size input <? expected_size then
         Ret (Err (binary_envelope_error corrupt_data "binary envelope payload is truncated"), output)
       else if expected_size <? span_size input then
         Ret (Err (binary_envelope_error corrupt_data "binary envelope has trailing bytes"), output)
       else
       match ByteView_slice input binary_envelope_header_size payload_size, ByteView_slice input 0 12 with
       | Ok payload, Ok checksum_header =>
         checksum_header_bytes ← view_bytes mem checksum_header;
         payload_bytes ← view_bytes mem payload;
         if negb (crc32c_castagnoli_pair checksum_header_bytes payload_bytes =? checksum_) then
           Ret (Err (binary_envelope_error checksum "binary envelope checksum does not match"), output)
         else
         TRY decoded ⇐ BinaryEnvelope_from_parts kind payload AT output IN
         Ret (Ok tt, decoded)
       | _, _ => Ret (Err (binary_envelope_error corrupt_data "binary envelope payload range is invalid"), output)
       end
     | _, _, _, _ => Ret (Err (binary_envelope_error corrupt_data "binary envelope fields are malformed"), output)
     end
   | _, _, _, _ => Ret (Err (binary_envelope_error corrupt_data "binary envelope header is malformed"), output)
   end).

(** ** Reference definition: the bytes of a frame *)
Definition frame_header (kind : Z) (payload : list Z) : list Z :=
  envelope_magic ++ be_bytes 2 binary_envelope_version ++ be_bytes 2 kind ++
  be_bytes 4 (Z.of_nat (length payload)).

Definition frame (kind : Z) (payload : list Z) : list Z :=
  frame_header kind payload ++
  be_bytes 4 (crc32c_castagnoli (frame_header kind payload ++ payload)) ++ payload.

(** ** The checksum is a bijective shift register *)
Lemma lxor_bound a b n : 0 <= n -> 0 <= a < 2 ^ n -> 0 <= b < 2 ^ n -> 0 <= Z.lxor a b < 2 ^ n.
Proof.
  intros Hn Ha Hb. split; [by apply Z.lxor_nonneg; lia|].
  destruct (Z.eq_dec (Z.lxor a b) 0) as [->|Hne]; [lia|].
  assert (0 < Z.lxor a b) by (assert (0 <= Z.lxor a b) by (by apply Z.lxor_nonneg; lia); lia).
  apply Z.log2_lt_pow2; [done|].
  pose proof (Z.log2_lxor a b ltac:(lia) ltac:(lia)) as Hl.
  destruct (Z.eq_dec a 0) as [->|], (Z.eq_dec b 0) as [->|].
  - by rewrite Z.lxor_0_l in Hne.
  - rewrite Z.lxor_0_l. apply Z.log2_lt_pow2; lia.
  - rewrite Z.lxor_0_r. apply Z.log2_lt_pow2; lia.
  - assert (Z.log2 a < n) by (apply Z.log2_lt_pow2; lia).
    assert (Z.log2 b < n) by (apply Z.log2_lt_pow2; lia). lia.
Qed.

Lemma crc32c_bit_eq s :
  crc32c_bit s = Z.lxor (Z.div2 s) (if Z.odd s then crc32c_polynomial else 0).
Proof.
  unfold crc32c_bit. rewrite <- Z.div2_spec. f_equal.
  change 1 with (Z.ones 1) at 1. rewrite Z.land_ones by lia.
  change (2 ^ 1) with 2. rewrite Zmod_odd. by destruct (Z.odd s).
Qed.

Lemma crc32c_bit_range s : 0 <= s < 2 ^ 32 -> 0 <= crc32c_bit s < 2 ^ 32.
Proof.
  intros Hs. rewrite crc32c_bit_eq. apply lxor_bound; [lia| |].
  - rewrite Z.div2_div. pose proof (Z.div_mod s 2). pose proof (Z.mod_pos_bound s 2). lia.
  - destruct (Z.odd s); unfold crc32c_polynomial; lia.
Qed.

(** The polynomial's top bit records the bit shifted out. *)
Lemma crc32c_bit_top s : 0 <= s < 2 ^ 32 -> Z.testbit (crc32c_bit s) 31 = Z.odd s.
Proof.
  intros Hs. rewrite crc32c_bit_eq, Z.lxor_spec.
  assert (Z.testbit (Z.div2 s) 31 = false) as ->.
  { apply Z.bits_above_log2; rewrite Z.div2_div; [apply Z.div_pos; lia|].
    destruct (Z.eq_dec (s / 2) 0) as [->|]; [cbn; lia|].
    pose proof (Z.div_pos s 2). apply Z.log2_lt_pow2; [lia|]. apply Z.div_lt_upper_bound; lia. }
  by destruct (Z.odd s).
Qed.

Lemma crc32c_bit_inj s t :
  0 <= s < 2 ^ 32 -> 0 <= t < 2 ^ 32 -> crc32c_bit s = crc32c_bit t -> s = t.
Proof.
  intros Hs Ht He. assert (Z.odd s = Z.odd t) as Ho by (rewrite <- !crc32c_bit_top, He; done).
  rewrite !crc32c_bit_eq, Ho in He.
  assert (Z.div2 s = Z.div2 t) as Hd.
  { set (p := if Z.odd t then crc32c_polynomial else 0) in *.
    by rewrite <- (Z.lxor_0_r (Z.div2 s)), <- (Z.lxor_nilpotent p), <- Z.lxor_assoc, He,
      Z.lxor_assoc, Z.lxor_nilpotent, Z.lxor_0_r. }
  rewrite (Z.div2_odd s), (Z.div2_odd t). by rewrite Hd, Ho.
Qed.

(** Bits above those shifted out pass through the register unchanged. *)
Lemma crc32c_bit_lxor s x : crc32c_bit (Z.lxor s (2 * x)) = Z.lxor (crc32c_bit s) x.
Proof.
  rewrite !crc32c_bit_eq.
  assert (Z.odd (Z.lxor s (2 * x)) = Z.odd s) as ->.
  { rewrite <- !Z.bit0_odd, Z.lxor_spec, Z.testbit_even_0. by destruct (Z.testbit s 0). }
  assert (Z.div2 (Z.lxor s (2 * x)) = Z.lxor (Z.div2 s) x) as ->.
  { rewrite !Z.div2_spec, Z.shiftr_lxor. f_equal.
    rewrite Z.shiftr_div_pow2 by lia. rewrite Z.mul_comm. apply Z.div_mul. lia. }
  rewrite !Z.lxor_assoc. f_equal. apply Z.lxor_comm.
Qed.

Lemma crc32c_iter_lxor n s x :
  Nat.iter n crc32c_bit (Z.lxor s (2 ^ Z.of_nat n * x)) = Z.lxor (Nat.iter n crc32c_bit s) x.
Proof.
  revert x. induction n as [|n IH]; intros x; [cbn; by rewrite Z.mul_1_l|].
  cbn [Nat.iter nat_rect]. rewrite Nat2Z.inj_succ, Z.pow_succ_r by lia.
  replace (2 * 2 ^ Z.of_nat n * x) with (2 ^ Z.of_nat n * (2 * x)) by lia.
  fold (Nat.iter n crc32c_bit (Z.lxor s (2 ^ Z.of_nat n * (2 * x)))). rewrite IH.
  fold (Nat.iter n crc32c_bit s). apply crc32c_bit_lxor.
Qed.

Lemma crc32c_iter_range n s : 0 <= s < 2 ^ 32 -> 0 <= Nat.iter n crc32c_bit s < 2 ^ 32.
Proof. intros Hs. induction n as [|n IH]; [done|]. by apply crc32c_bit_range. Qed.

Lemma crc32c_iter_inj n s t :
  0 <= s < 2 ^ 32 -> 0 <= t < 2 ^ 32 ->
  Nat.iter n crc32c_bit s = Nat.iter n crc32c_bit t -> s = t.
Proof.
  intros Hs Ht. induction n as [|n IH]; [done|]. cbn. intros He. apply IH.
  by apply crc32c_bit_inj in He; [|apply crc32c_iter_range..].
Qed.

(** The little-endian number a byte string denotes. *)
Fixpoint le_value (l : list Z) : Z :=
  match l with [] => 0 | b :: l' => b + 256 * le_value l' end.

Lemma le_value_range l : Forall is_byte l -> 0 <= le_value l < 256 ^ Z.of_nat (length l).
Proof.
  induction 1 as [|b l Hb _ IH]; [cbn; lia|]. cbn [le_value length]. rewrite pow256_succ.
  unfold is_byte in Hb. lia.
Qed.

Lemma le_value_inj l k :
  Forall is_byte l -> Forall is_byte k -> length l = length k -> le_value l = le_value k -> l = k.
Proof.
  intros Hl. revert k. induction Hl as [|b l Hb Hl IH]; intros [|c k] Hk Hlen He; try done.
  apply Forall_cons_1 in Hk as [Hc Hk]. cbn [le_value] in He. unfold is_byte in Hb, Hc.
  pose proof (le_value_range l Hl). pose proof (le_value_range k Hk).
  injection Hlen as Hlen. f_equal; [lia|]. apply IH; auto. lia.
Qed.

Lemma lxor_byte_high b x : is_byte b -> 0 <= x -> Z.lxor b (256 * x) = b + 256 * x.
Proof.
  intros Hb Hx. symmetry. apply Z.add_nocarry_lxor. rewrite Z.mul_comm.
  change 256 with (2 ^ 8). rewrite <- Z.shiftl_mul_pow2 by lia. apply Z.bits_inj'. intros i Hi.
  rewrite Z.land_spec, Z.bits_0. destruct (decide (i < 8)) as [Hlt|Hge].
  - rewrite Z.shiftl_spec_low by lia. apply andb_false_r.
  - destruct (Z.eq_dec b 0) as [->|Hne]; [by rewrite Z.bits_0|].
    unfold is_byte in Hb. rewrite Z.bits_above_log2; [done|lia|].
    assert (Z.log2 b < 8) by (apply Z.log2_lt_pow2; lia). lia.
Qed.

(** Feeding a byte string is shifting the register, xored with the string. *)
Lemma crc32c_extend_word s w :
  Forall is_byte w ->
  crc32c_extend s w = Nat.iter (8 * length w) crc32c_bit (Z.lxor s (le_value w)).
Proof.
  intros Hw. revert s. induction Hw as [|b w Hb Hw IH]; intros s.
  { cbn. by rewrite Z.lxor_0_r. }
  cbn [crc32c_extend foldl le_value length].
  change (foldl _ _ w) with (crc32c_extend (Nat.iter 8 crc32c_bit (Z.lxor s b)) w). rewrite IH.
  replace (8 * S (length w))%nat with (8 * length w + 8)%nat by lia.
  rewrite Nat.iter_add. f_equal.
  rewrite <- lxor_byte_high, <- Z.lxor_assoc by (done || apply le_value_range; done).
  symmetry. exact (crc32c_iter_lxor 8 (Z.lxor s b) (le_value w)).
Qed.

Lemma crc32c_extend_app s a b : crc32c_extend s (a ++ b) = crc32c_extend (crc32c_extend s a) b.
Proof. apply foldl_app. Qed.

Lemma crc32c_extend_range s l :
  0 <= s < 2 ^ 32 -> Forall is_byte l -> 0 <= crc32c_extend s l < 2 ^ 32.
Proof.
  intros Hs Hl. revert s Hs. induction Hl as [|b l Hb Hl IH]; intros s Hs; [done|].
  apply IH, crc32c_iter_range, lxor_bound; [lia|done|]. unfold is_byte in Hb. lia.
Qed.

Lemma crc32c_extend_inj s t l :
  0 <= s < 2 ^ 32 -> 0 <= t < 2 ^ 32 -> Forall is_byte l ->
  crc32c_extend s l = crc32c_extend t l -> s = t.
Proof.
  intros Hs Ht Hl. revert s t Hs Ht. induction Hl as [|b l Hb Hl IH]; intros s t Hs Ht He; [done|].
  assert (0 <= b < 2 ^ 32) by (unfold is_byte in Hb; lia).
  apply IH in He; [|apply crc32c_iter_range, lxor_bound; lia..].
  apply crc32c_iter_inj in He; [|apply lxor_bound; lia..].
  by rewrite <- (Z.lxor_0_r s), <- (Z.lxor_nilpotent b), <- Z.lxor_assoc, He,
    Z.lxor_assoc, Z.lxor_nilpotent, Z.lxor_0_r.
Qed.

(** Two messages that differ only in a window of at most four bytes have different sums. *)
Lemma crc32c_window a w w' b :
  Forall is_byte (a ++ w ++ b) -> Forall is_byte w' -> length w = length w' ->
  (length w <= 4)%nat ->
  crc32c_castagnoli (a ++ w ++ b) = crc32c_castagnoli (a ++ w' ++ b) -> w = w'.
Proof.
  rewrite !Forall_app. intros (Ha & Hw & Hb) Hw' Hlen H4.
  unfold crc32c_castagnoli. intros He.
  assert (crc32c_extend u32_max (a ++ w ++ b) = crc32c_extend u32_max (a ++ w' ++ b)) as He'.
  { by rewrite <- (Z.lxor_0_r (crc32c_extend _ (a ++ w ++ b))), <- (Z.lxor_nilpotent u32_max),
      <- Z.lxor_assoc, He, Z.lxor_assoc, Z.lxor_nilpotent, Z.lxor_0_r. }
  rewrite !crc32c_extend_app in He'. set (s := crc32c_extend u32_max a) in *.
  assert (0 <= s < 2 ^ 32) by (apply crc32c_extend_range; [unfold u32_max; lia|done]).
  apply crc32c_extend_inj in He'; [|by apply crc32c_extend_range..|done].
  rewrite !crc32c_extend_word, Hlen in He' by done.
  assert (256 ^ Z.of_nat (length w') <= 256 ^ 4) by (apply Z.pow_le_mono_r; lia).
  pose proof (le_value_range w Hw) as R1. pose proof (le_value_range w' Hw') as R2. rewrite Hlen in R1.
  apply crc32c_iter_inj in He'; [|apply lxor_bound; lia..].
  apply le_value_inj; [done..|].
  by rewrite <- (Z.lxor_0_l (le_value w)), <- (Z.lxor_nilpotent s), Z.lxor_assoc, He',
    <- Z.lxor_assoc, Z.lxor_nilpotent, Z.lxor_0_l.
Qed.

(** ** Views of a valid memory *)
Lemma span_bytes_length mem s l :
  0 <= span_size s -> span_bytes mem s = Some l -> Z.of_nat (length l) = span_size s.
Proof.
  unfold span_bytes. intros Hs. destruct (Z.eqb_spec (span_size s) 0) as [->|].
  { by intros [= <-]. }
  destruct (span_data s) as [p|]; simpl; [|done].
  destruct (mem !! ptr_block p) as [lb|]; simpl; [|done].
  destruct (_ && _) eqn:E; [|done]. intros [= <-].
  rewrite !andb_true_iff, !Z.leb_le, Z.ltb_lt in E. rewrite length_take, length_drop. lia.
Qed.

Lemma slice_ok mem s offset n l :
  0 <= offset -> 0 <= n -> offset + n <= span_size s <= size_max -> span_bytes mem s = Some l ->
  ByteView_slice s offset n = Ok (subspan s offset n) /\
  span_bytes mem (subspan s offset n) = Some (take (Z.to_nat n) (drop (Z.to_nat offset) l)).
Proof.
  intros Ho Hn Hs Hl. unfold ByteView_slice.
  assert (checked_range size_t offset n (span_size s) = Ok tt) as E
    by (apply checked_range_size_ok; unfold size_max in *; lia).
  rewrite E. split; [done|]. apply slice_bytes; try done; lia.
Qed.

Lemma view_bytes_ok mem s l : span_bytes mem s = Some l -> view_bytes mem s = Ret l.
Proof. unfold view_bytes. by intros ->. Qed.

Lemma store_bytes_run mem p bytes lo :
  mem !! ptr_block p = Some lo -> 0 <= ptr_offset p ->
  ptr_offset p + Z.of_nat (length bytes) <= Z.of_nat (length lo) ->
  store_bytes mem p bytes =
    Ret (<[ptr_block p := list_inserts (Z.to_nat (ptr_offset p)) bytes lo]> mem).
Proof.
  revert mem p lo. induction bytes as [|v bytes IH]; intros mem [b o] lo Hlo Ho Hr; simpl in *.
  { by rewrite insert_id. }
  rewrite (store_byte_ok mem (MkPointer b o) lo v) by (simpl; done || lia). simpl.
  rewrite (IH _ (MkPointer b (o + 1)) (<[Z.to_nat o := v]> lo)); simpl;
    rewrite ?lookup_insert_eq, ?length_insert; try done; try lia.
  rewrite insert_insert_eq. do 2 f_equal.
  replace (Z.to_nat (o + 1)) with (S (Z.to_nat o)) by lia. by rewrite list_inserts_step by lia.
Qed.

Lemma list_inserts_middle {A} (i : nat) (a x b new : list A) :
  length a = i -> length x = length new -> list_inserts i new (a ++ x ++ b) = a ++ new ++ b.
Proof.
  intros <- Hx. rewrite <- (Nat.add_0_r (length a)), list_inserts_app_r.
  by rewrite list_inserts_0_r.
Qed.

Lemma take_drop_middle_eq {A} (i n : nat) (a x b : list A) :
  length a = i -> length x = n -> take n (drop i (a ++ x ++ b)) = x.
Proof. intros <- <-. by rewrite drop_app_length, take_app_length. Qed.

(** ** Frames *)
Lemma frame_header_length kind payload : length (frame_header kind payload) = 12%nat.
Proof. reflexivity. Qed.

Lemma frame_length kind payload : length (frame kind payload) = (16 + length payload)%nat.
Proof. unfold frame. by rewrite !length_app, frame_header_length, be_bytes_length. Qed.

Lemma frame_header_is_byte kind payload : Forall is_byte (frame_header kind payload).
Proof.
  unfold frame_header. rewrite !Forall_app. repeat split; try apply be_bytes_is_byte.
  repeat constructor; unfold is_byte; lia.
Qed.

Lemma crc32c_pair_eq first second :
  crc32c_castagnoli_pair first second = crc32c_castagnoli (first ++ second).
Proof. unfold crc32c_castagnoli. by rewrite crc32c_extend_app. Qed.

Lemma crc32c_range l : Forall is_byte l -> 0 <= crc32c_castagnoli l < 2 ^ 32.
Proof.
  intros Hl. apply lxor_bound; [lia| |unfold u32_max; lia].
  apply crc32c_extend_range; [unfold u32_max; lia|done].
Qed.

(** The header the encoder assembles in place is the frame's. *)
Lemma encoded_header kind payload :
  0 <= Z.of_nat (length payload) <= u32_max ->
  let header := envelope_magic ++ replicate 12 0 in
  let header := list_inserts 6 (encode_big_endian uint16_t kind)
                  (list_inserts 4 (encode_big_endian uint16_t binary_envelope_version) header) in
  let header := list_inserts 8 (encode_big_endian uint32_t
                  (cast uint32_t (Z.of_nat (length payload)))) header in
  header = frame_header kind payload ++ replicate 4 0 /\
  take 12 header = frame_header kind payload.
Proof.
  intros Hp. cbv zeta. rewrite !encode_big_endian_eq.
  rewrite cast_in_range by (unfold int_type_ok, u32_max in *; cbn; lia).
  change (replicate 12 0) with (replicate 2 0 ++ replicate 2 0 ++ replicate 4 0 ++ replicate 4 0).
  change (int_sizeof uint16_t) with 2%nat. change (int_sizeof uint32_t) with 4%nat.
  rewrite (list_inserts_middle 4) by (rewrite ?be_bytes_length; done).
  rewrite (app_assoc envelope_magic).
  rewrite (list_inserts_middle 6) by (rewrite ?length_app, ?be_bytes_length; done).
  rewrite (app_assoc (envelope_magic ++ _)).
  rewrite (list_inserts_middle 8) by (rewrite ?length_app, ?be_bytes_length; done).
  rewrite app_assoc, <- !(app_assoc envelope_magic).
  split; [unfold frame_header; by rewrite <- !app_assoc|].
  apply (take_app_length' (frame_header kind payload)). reflexivity.
Qed.

Lemma encoded_size_ok n :
  0 <= n <= u32_max -> binary_envelope_encoded_size n = Ok (16 + n).
Proof.
  intros Hn. unfold binary_envelope_encoded_size. rewrite (proj2 (Z.ltb_ge _ _)) by lia.
  unfold binary_envelope_header_size. apply checked_add_size_ok; unfold size_max, u64_max, u32_max in *; lia.
Qed.

(** Where the payload may lie relative to the output: in another block, or at or after the
    place it is copied to, which includes encoding in place. *)
Definition payload_clear_of (output payload : pointer) : Prop :=
  ptr_block output = ptr_block payload -> ptr_offset output + 16 <= ptr_offset payload.

(** Writing the header in front of a payload of the same block leaves the payload as it was. *)
Lemma payload_kept (mem : Memory) out p hd lo lp :
  mem !! ptr_block out = Some lo -> mem !! ptr_block p = Some lp -> 0 <= ptr_offset out ->
  (ptr_block out = ptr_block p -> ptr_offset out + Z.of_nat (length hd) <= ptr_offset p) ->
  exists lp1,
    <[ptr_block out := list_inserts (Z.to_nat (ptr_offset out)) hd lo]> mem !! ptr_block p = Some lp1 /\
    length lp1 = length lp /\ drop (Z.to_nat (ptr_offset p)) lp1 = drop (Z.to_nat (ptr_offset p)) lp.
Proof.
  intros Hlo Hlp Ho Hclear. destruct (decide (ptr_block out = ptr_block p)) as [e|Hne].
  - specialize (Hclear e). rewrite e in *. assert (lo = lp) as -> by congruence.
    exists (list_inserts (Z.to_nat (ptr_offset out)) hd lp).
    split; [apply lookup_insert_eq|]. split; [apply length_inserts|].
    apply list_eq. intros i. rewrite !lookup_drop. apply list_lookup_inserts_ge. lia.
  - exists lp. by rewrite lookup_insert_ne.
Qed.

Lemma encode_run mem env output out lo payload :
  0 < be_kind env < 2 ^ 16 ->
  span_bytes mem (be_payload env) = Some payload -> 0 <= span_size (be_payload env) <= u32_max ->
  Forall is_byte payload ->
  span_data output = Some out -> mem !! ptr_block out = Some lo -> 0 <= ptr_offset out ->
  ptr_offset out + span_size output <= Z.of_nat (length lo) ->
  16 + span_size (be_payload env) <= span_size output ->
  (forall p, span_data (be_payload env) = Some p -> payload_clear_of out p) ->
  encode_binary_envelope mem env output =
    Ret (Ok (16 + span_size (be_payload env)),
         <[ptr_block out := list_inserts (Z.to_nat (ptr_offset out)) (frame (be_kind env) payload) lo]> mem).
Proof.
  destruct env as [kind view], output as [d osize]; cbn [be_kind be_payload span_size span_data].
  intros Hk Hp Hsz Hb Hd Hlo Ho Hr Hfit Hclear. subst d.
  pose proof (span_bytes_length _ _ _ (proj1 Hsz) Hp) as Hlen.
  unfold encode_binary_envelope. cbn [be_kind be_payload span_size span_data].
  rewrite (proj2 (Z.eqb_neq kind 0)) by lia. rewrite encoded_size_ok by done.
  rewrite (proj2 (Z.ltb_ge _ _)) by lia.
  rewrite (view_bytes_ok _ _ _ Hp). rewrite <- Hlen.
  destruct (encoded_header kind payload) as [-> Ht]; [rewrite Hlen; done|].
  cbn [mbind outcome_bind deref].
  rewrite (take_app_length' (frame_header kind payload)) by reflexivity.
  rewrite crc32c_pair_eq, encode_big_endian_eq. change (int_sizeof uint32_t) with 4%nat.
  set (crc := be_bytes 4 _).
  assert (list_inserts 12 crc (frame_header kind payload ++ replicate 4 0) =
          frame_header kind payload ++ crc) as ->.
  { rewrite <- (app_nil_r (replicate 4 0)), (list_inserts_middle 12) by done. by rewrite app_nil_r. }
  assert (length (frame_header kind payload ++ crc) = 16%nat) as Hl16 by done.
  rewrite (store_bytes_run mem out _ lo); [|done|done|rewrite Hl16; lia]. cbn [mbind outcome_bind].
  unfold frame. fold crc. rewrite app_assoc.
  set (hd := frame_header kind payload ++ crc) in *. clearbody hd.
  set (mem1 := <[ptr_block out := list_inserts (Z.to_nat (ptr_offset out)) hd lo]> mem).
  destruct (Z.eqb_spec (Z.of_nat (length payload)) 0) as [E0|E0].
  { assert (payload = []) as -> by (apply length_zero_iff_nil; lia). by rewrite app_nil_r. }
  unfold span_bytes in Hp. rewrite (proj2 (Z.eqb_neq _ _)) in Hp by lia.
  destruct (span_data view) as [p|] eqn:Hpd; simpl in Hp; [|done].
  destruct (mem !! ptr_block p) as [lp|] eqn:Hlp; simpl in Hp; [|done].
  destruct (_ && _) eqn:E in Hp; [|done]. injection Hp as Hp.
  rewrite !andb_true_iff, !Z.leb_le, Z.ltb_lt in E.
  specialize (Hclear p eq_refl). unfold payload_clear_of in Hclear. cbn [deref mbind outcome_bind].
  destruct (payload_kept mem out p hd lo lp) as (lp1 & Hlp1 & Hlp1len & Hdrop); [done|done|lia|by rewrite Hl16|].
  fold mem1 in Hlp1.
  rewrite (copy_loop_run _ mem1 (ptr_add out binary_envelope_header_size) p
    (list_inserts (Z.to_nat (ptr_offset out)) hd lo) lp1); simpl; unfold binary_envelope_header_size;
    rewrite ?length_inserts; try done; try lia.
  - cbn [mbind outcome_bind]. do 2 f_equal. unfold mem1. rewrite insert_insert_eq. f_equal.
    rewrite Hdrop, Nat2Z.id. rewrite <- Hlen, Nat2Z.id in Hp. rewrite Hp, list_inserts_app_l, Hl16.
    f_equal. lia.
  - unfold mem1. apply lookup_insert_eq.
Qed.

(** ** What the decoder decides, field by field *)
Section decode.
Context (mem : Memory) (input : ByteView) (m v k n c p : list Z).
Context (Hbytes : span_bytes mem input = Some (m ++ v ++ k ++ n ++ c ++ p)).
Context (Hb : Forall is_byte (m ++ v ++ k ++ n ++ c ++ p)).
Context (Hm : length m = 4%nat) (Hv : length v = 2%nat) (Hk : length k = 2%nat).
Context (Hn : length n = 4%nat) (Hc : length c = 4%nat).
Context (Hsize : 0 <= span_size input <= size_max).

Lemma field_bytes offset count x a b :
  m ++ v ++ k ++ n ++ c ++ p = a ++ x ++ b ->
  offset = Z.of_nat (length a) -> count = Z.of_nat (length x) ->
  ByteView_slice input offset count = Ok (subspan input offset count) /\
  view_bytes mem (subspan input offset count) = Ret x.
Proof.
  intros He Ho Hx. pose proof (span_bytes_length _ _ _ (proj1 Hsize) Hbytes) as Hlen.
  rewrite He, !length_app in Hlen. rewrite He in Hbytes.
  destruct (slice_ok mem input offset count _ ltac:(lia) ltac:(lia) ltac:(lia) Hbytes) as [H1 H2].
  split; [done|]. rewrite (view_bytes_ok _ _ _ H2), Ho, Hx, !Nat2Z.id. by rewrite (take_drop_middle_eq).
Qed.

Lemma header_field offset count x a b :
  m ++ v ++ k ++ n ++ c = a ++ x ++ b ->
  offset = Z.of_nat (length a) -> count = Z.of_nat (length x) ->
  ByteView_slice (subspan input 0 16) offset count = Ok (subspan (subspan input 0 16) offset count) /\
  view_bytes mem (subspan (subspan input 0 16) offset count) = Ret x.
Proof.
  intros He Ho Hx. pose proof (span_bytes_length _ _ _ (proj1 Hsize) Hbytes) as Hlen.
  assert (length (a ++ x ++ b) = 16%nat) as Hl16
    by (rewrite <- He, !length_app; lia).
  assert (span_bytes mem (subspan input 0 16) = Some (a ++ x ++ b)) as Hh.
  { rewrite !length_app in Hlen.
    destruct (slice_ok mem input 0 16 _ ltac:(lia) ltac:(lia) ltac:(lia) Hbytes) as [_ ->].
    rewrite <- He. f_equal. rewrite drop_0, !app_assoc. apply take_app_length'.
    rewrite !length_app. lia. }
  rewrite !length_app in Hl16.
  destruct (slice_ok mem (subspan input 0 16) offset count _ ltac:(lia) ltac:(lia)
    ltac:(simpl; unfold size_max, u64_max; lia) Hh) as [H1 H2].
  split; [done|]. rewrite (view_bytes_ok _ _ _ H2), Ho, Hx, !Nat2Z.id. by rewrite take_drop_middle_eq.
Qed.

Lemma decode_fields maximum output :
  exists e, decode_binary_envelope mem input maximum output =
    Ret (if bool_decide (m = envelope_magic) && (be_value v =? 1) && negb (be_value k =? 0) &&
            (be_value n <=? maximum) && (span_size input =? 16 + be_value n) &&
            (crc32c_castagnoli ((m ++ v ++ k ++ n) ++ p) =? be_value c)
         then (Ok tt, MkBinaryEnvelope (be_value k) (subspan input 16 (be_value n)))
         else (Err e, output)).
Proof.
  pose proof (span_bytes_length _ _ _ (proj1 Hsize) Hbytes) as Hlen. rewrite !length_app in Hlen.
  unfold decode_binary_envelope, binary_envelope_header_size.
  rewrite (proj2 (Z.ltb_ge _ _)) by lia.
  destruct (field_bytes 0 16 (m ++ v ++ k ++ n ++ c) [] p) as [-> ->];
    [by rewrite <- !app_assoc|done|rewrite !length_app; lia|].
  cbn [mbind outcome_bind]. rewrite (take_app_length' m) by done.
  destruct (bool_decide_reflect (m = envelope_magic)) as [_|_]; simpl negb; cbv iota; [|by eexists].
  destruct (header_field 4 2 v m (k ++ n ++ c)) as [-> Ev]; [done|lia|lia|].
  destruct (header_field 6 2 k (m ++ v) (n ++ c)) as [-> Ek]; [by rewrite <- app_assoc|rewrite length_app; lia|lia|].
  destruct (header_field 8 4 n (m ++ v ++ k) c) as [-> En]; [by rewrite <- !app_assoc|rewrite !length_app; lia|lia|].
  destruct (header_field 12 4 c (m ++ v ++ k ++ n) []) as [-> Ec];
    [by rewrite <- !app_assoc, app_nil_r|rewrite !length_app; lia|lia|].
  rewrite Ev, Ek, En, Ec. cbn [mbind outcome_bind].
  rewrite !Forall_app in Hb. destruct Hb as (Bm & Bv & Bk & Bn & Bc & Bp).
  rewrite !decode_big_endian_eq by done. unfold binary_envelope_version.
  destruct (be_value v =? 1); simpl negb; cbv iota; [|by eexists].
  destruct (be_value k =? 0) eqn:Ek0; [by eexists|].
  pose proof (be_value_range n Bn) as Rn. rewrite Hn in Rn. change (256 ^ Z.of_nat 4) with (2 ^ 32) in Rn.
  rewrite checked_narrow_exact by auto with laghu. unfold exact_or_overflow.
  rewrite (proj2 (in_range_iff size_t _)) by (rewrite size_t_min, size_t_max; unfold size_max, u64_max; lia).
  rewrite Z.ltb_antisym. destruct (be_value n <=? maximum); simpl negb; cbv iota; [|by eexists].
  rewrite encoded_size_ok by (unfold u32_max; lia).
  destruct (Z.ltb_spec (span_size input) (16 + be_value n)).
  { rewrite (proj2 (Z.eqb_neq _ _)) by lia. by eexists. }
  destruct (Z.ltb_spec (16 + be_value n) (span_size input)).
  { rewrite (proj2 (Z.eqb_neq _ _)) by lia. by eexists. }
  rewrite (proj2 (Z.eqb_eq _ _)) by lia.
  destruct (field_bytes 16 (be_value n) p (m ++ v ++ k ++ n ++ c) []) as [-> ->];
    [by rewrite <- !app_assoc, app_nil_r|rewrite !length_app; lia|lia|].
  destruct (field_bytes 0 12 (m ++ v ++ k ++ n) [] (c ++ p)) as [-> ->];
    [by rewrite <- !app_assoc|done|rewrite !length_app; lia|].
  cbn [mbind outcome_bind]. rewrite crc32c_pair_eq.
  destruct (crc32c_castagnoli _ =? be_value c); simpl negb; cbv iota; [|by eexists].
  unfold BinaryEnvelope_from_parts. rewrite Ek0.
  by exists (core_error invalid_input ""). 
Qed.
End decode.

Lemma frame_fields kind payload :
  frame kind payload =
    envelope_magic ++ be_bytes 2 1 ++ be_bytes 2 kind ++ be_bytes 4 (Z.of_nat (length payload)) ++
    be_bytes 4 (crc32c_castagnoli (frame_header kind payload ++ payload)) ++ payload.
Proof. unfold frame, frame_header. by rewrite <- !app_assoc. Qed.

Lemma frame_is_byte kind payload : Forall is_byte payload -> Forall is_byte (frame kind payload).
Proof.
  intros Hp. unfold frame. rewrite !Forall_app. repeat split; try done.
  - apply frame_header_is_byte.
  - apply be_bytes_is_byte.
Qed.

Lemma be_value_bytes_small n v : 0 <= v < 256 ^ Z.of_nat n -> be_value (be_bytes n v) = v.
Proof. intros. rewrite be_value_bytes. by apply Z.mod_small. Qed.

(** Every frame decodes to the parts it was made of. *)
Lemma decode_frame mem input kind payload maximum output :
  span_bytes mem input = Some (frame kind payload) -> 0 <= span_size input <= size_max ->
  0 < kind < 2 ^ 16 -> Forall is_byte payload ->
  Z.of_nat (length payload) <= maximum -> Z.of_nat (length payload) <= u32_max ->
  decode_binary_envelope mem input maximum output =
    Ret (Ok tt, MkBinaryEnvelope kind (subspan input 16 (Z.of_nat (length payload)))).
Proof.
  intros Hi Hs Hk Hp Hm Hu. pose proof (span_bytes_length _ _ _ (proj1 Hs) Hi) as Hlen.
  pose proof (frame_is_byte kind payload Hp) as Hb. rewrite frame_length in Hlen.
  rewrite frame_fields in Hi, Hb. set (crc := crc32c_castagnoli _) in *.
  assert (0 <= crc < 2 ^ 32)
    by (apply crc32c_range, Forall_app; split; [apply frame_header_is_byte|done]).
  destruct (decode_fields mem input envelope_magic (be_bytes 2 1) (be_bytes 2 kind)
    (be_bytes 4 (Z.of_nat (length payload))) (be_bytes 4 crc) payload Hi Hb eq_refl
    (be_bytes_length _ _) (be_bytes_length _ _) (be_bytes_length _ _) (be_bytes_length _ _)
    Hs maximum output) as [e ->].
  rewrite !be_value_bytes_small by (unfold u32_max in *; change (256 ^ Z.of_nat 2) with (2 ^ 16);
    change (256 ^ Z.of_nat 4) with (2 ^ 32); lia).
  rewrite bool_decide_true by done. rewrite (proj2 (Z.eqb_neq kind 0)) by lia.
  rewrite (proj2 (Z.leb_le _ _)), (proj2 (Z.eqb_eq (span_size input) _)) by lia. simpl andb.
  by rewrite (proj2 (Z.eqb_eq _ crc)) by done.
Qed.

(** Nothing else decodes, and a rejected input leaves the output alone. *)
Lemma decode_inv mem input l maximum output :
  span_bytes mem input = Some l -> Forall is_byte l -> 0 <= span_size input <= size_max ->
  (exists kind payload, l = frame kind payload /\ 0 < kind < 2 ^ 16 /\
     Z.of_nat (length payload) <= maximum /\ Z.of_nat (length payload) <= u32_max /\
     decode_binary_envelope mem input maximum output =
       Ret (Ok tt, MkBinaryEnvelope kind (subspan input 16 (Z.of_nat (length payload))))) \/
  (exists e, decode_binary_envelope mem input maximum output = Ret (Err e, output)).
Proof.
  intros Hl Hb Hs. pose proof (span_bytes_length _ _ _ (proj1 Hs) Hl) as Hlen.
  destruct (Z.ltb_spec (span_size input) 16) as [Hlt|Hge].
  { right. unfold decode_binary_envelope, binary_envelope_header_size.
    rewrite (proj2 (Z.ltb_lt _ _)) by done. by eexists. }
  assert (exists m v k n c p, l = m ++ v ++ k ++ n ++ c ++ p /\ length m = 4%nat /\ length v = 2%nat /\
    length k = 2%nat /\ length n = 4%nat /\ length c = 4%nat) as (m & v & k & n & c & p & -> & Hm & Hv & Hk & Hn & Hc).
  { exists (take 4 l), (take 2 (drop 4 l)), (take 2 (drop 6 l)), (take 4 (drop 8 l)),
      (take 4 (drop 12 l)), (drop 16 l).
    rewrite !length_take, !length_drop. split; [|lia].
    rewrite <- (take_drop 4 l) at 1. f_equal. rewrite <- (take_drop 2 (drop 4 l)) at 1.
    rewrite drop_drop. f_equal. rewrite <- (take_drop 2 (drop (4 + 2) l)) at 1.
    rewrite drop_drop. f_equal. rewrite <- (take_drop 4 (drop (4 + 2 + 2) l)) at 1.
    rewrite drop_drop. f_equal. rewrite <- (take_drop 4 (drop (4 + 2 + 2 + 4) l)) at 1.
    by rewrite drop_drop. }
  destruct (decode_fields mem input m v k n c p Hl Hb Hm Hv Hk Hn Hc Hs maximum output) as [e He].
  destruct (_ && _) eqn:E in He; [|right; eauto]. left. rewrite He.
  rewrite !andb_true_iff, bool_decide_eq_true, negb_true_iff, Z.eqb_neq, !Z.eqb_eq, Z.leb_le in E.
  destruct E as (((((-> & Ev) & Ek) & En) & Es) & Ec).
  rewrite !Forall_app in Hb. destruct Hb as (_ & Bv & Bk & Bn & Bc & Bp).
  rewrite !length_app in Hlen. exists (be_value k), p.
  pose proof (be_value_range k Bk) as Rk. rewrite Hk in Rk.
  pose proof (be_value_range n Bn) as Rn. rewrite Hn in Rn.
  change (256 ^ Z.of_nat 2) with (2 ^ 16) in Rk. change (256 ^ Z.of_nat 4) with (2 ^ 32) in Rn.
  assert (be_value n = Z.of_nat (length p)) as Enp by (simpl in Hlen; lia).
  rewrite <- Enp. split; [|repeat split; try done; unfold u32_max; lia].
  assert (frame_header (be_value k) p = envelope_magic ++ v ++ k ++ n) as Eh.
  { unfold frame_header. rewrite <- Enp. unfold binary_envelope_version. rewrite <- Ev.
    rewrite <- Hv, <- Hn at 1. rewrite <- Hk at 1. by rewrite !be_bytes_value. }
  unfold frame. rewrite Eh, Ec, <- Hc, be_bytes_value by done. by rewrite <- !app_assoc.
Qed.

Lemma be_bytes4_inj a b : 0 <= a < 2 ^ 32 -> 0 <= b < 2 ^ 32 -> be_bytes 4 a = be_bytes 4 b -> a = b.
Proof.
  intros Ha Hb He. rewrite <- (be_value_bytes_small 4 a), <- (be_value_bytes_small 4 b), He
    by (change (256 ^ Z.of_nat 4) with (2 ^ 32); lia). done.
Qed.

(** Where a window of [n] bytes at offset [i] lies: in the checked header, in the checksum,
    or in the payload. *)
Definition in_one_part (i n : nat) : Prop :=
  (i + n <= 12)%nat \/ (12 <= i /\ i + n <= 16)%nat \/ (16 <= i)%nat.

Lemma app_eq_lengths {A} (a b c d : list A) :
  a ++ b = c ++ d -> length a = length c -> a = c /\ b = d.
Proof. intros. by apply app_inj_1. Qed.

Lemma app_split_prefix {A} (x y h t : list A) :
  h ++ t = x ++ y -> (length x <= length h)%nat -> exists z, h = x ++ z /\ y = z ++ t.
Proof.
  intros E Hl. exists (drop (length x) h).
  assert (take (length x) (h ++ t) = x) as Ht by (by rewrite E, take_app_length).
  rewrite take_app_le in Ht by done.
  assert (h = x ++ drop (length x) h) as Eh by (rewrite <- Ht at 1; by rewrite take_drop).
  split; [done|]. rewrite Eh, <- app_assoc in E at 1. by apply app_inj_1 in E as [_ <-].
Qed.

(** Two frames, by their header and payload, that read [a ++ w ++ b] and [a ++ w' ++ b]. *)
Record frames_differ_in (h h' p p' a w w' b : list Z) : Prop := {
  fd_header : length h = 12%nat; fd_header' : length h' = 12%nat;
  fd_window : length w = length w'; fd_small : (length w <= 4)%nat;
  fd_bytes : Forall is_byte (h ++ p); fd_bytes' : Forall is_byte (h' ++ p');
  fd_frame : h ++ be_bytes 4 (crc32c_castagnoli (h ++ p)) ++ p = a ++ w ++ b;
  fd_frame' : h' ++ be_bytes 4 (crc32c_castagnoli (h' ++ p')) ++ p' = a ++ w' ++ b
}.

Lemma same_crc x y :
  Forall is_byte x -> Forall is_byte y ->
  be_bytes 4 (crc32c_castagnoli x) = be_bytes 4 (crc32c_castagnoli y) ->
  crc32c_castagnoli x = crc32c_castagnoli y.
Proof. intros. apply be_bytes4_inj; auto using crc32c_range. Qed.

Lemma header_window h h' p p' a w w' b :
  frames_differ_in h h' p p' a w w' b -> (length a + length w <= 12)%nat -> w = w'.
Proof.
  intros [Hh Hh' Hw H4 B B' E E'] Hi. rewrite (app_assoc a) in E, E'.
  apply app_split_prefix in E as (b1 & -> & Eb); [|rewrite length_app; lia].
  apply app_split_prefix in E' as (b1' & -> & Eb'); [|rewrite length_app; lia].
  rewrite Eb in Eb'. rewrite !length_app in Hh, Hh'.
  apply app_eq_lengths in Eb' as [<- Ec]; [|lia].
  apply app_eq_lengths in Ec as [Ec <-]; [|by rewrite !be_bytes_length].
  apply same_crc in Ec; [|done..]. do 4 rewrite <- ?app_assoc in Ec. rewrite <- !app_assoc in B. rewrite !Forall_app in B'.
  eapply crc32c_window; [..|exact Ec]; done || tauto.
Qed.

Lemma tail_window h h' p p' a w w' b :
  frames_differ_in h h' p p' a w w' b -> (12 <= length a)%nat ->
  (length a + length w <= 16 \/ 16 <= length a)%nat -> w = w'.
Proof.
  intros [Hh Hh' Hw H4 B B' E E'] Ha Hi. symmetry in E, E'.
  apply app_split_prefix in E as (a1 & Ea & E1); [|lia].
  apply app_split_prefix in E' as (a1' & Ea' & E1'); [|lia].
  rewrite Ea in Ea'. apply app_eq_lengths in Ea' as [<- <-]; [|lia].
  assert (length a = 12 + length a1)%nat as Hla by (rewrite Ea, length_app; lia).
  destruct Hi as [Hi|Hi].
  - rewrite (app_assoc a1) in E1, E1'.
    apply app_split_prefix in E1 as (c & Ec & Eb); [|rewrite length_app, be_bytes_length; lia].
    apply app_split_prefix in E1' as (c' & Ec' & Eb'); [|rewrite length_app, be_bytes_length; lia].
    rewrite Eb in Eb'. apply (f_equal length) in Ec as Lc. apply (f_equal length) in Ec' as Lc'.
    rewrite !length_app, be_bytes_length in Lc, Lc'.
    apply app_eq_lengths in Eb' as [<- <-]; [|lia].
    rewrite Ec, <- !app_assoc in Ec'. apply app_inj_1 in Ec' as [_ Ew]; [|done].
    by apply app_inj_1 in Ew as [-> _].
  - symmetry in E1, E1'.
    apply app_split_prefix in E1 as (a2 & -> & ->); [|rewrite be_bytes_length; lia].
    apply app_split_prefix in E1' as (a2' & Ec & ->); [|rewrite be_bytes_length; lia].
    apply app_eq_lengths in Ec as [Ec <-]; [|by rewrite !be_bytes_length].
    apply same_crc in Ec; [|done..]. do 2 rewrite ?(app_assoc h) in Ec. rewrite !(app_assoc h) in B. rewrite !Forall_app in B'.
    eapply crc32c_window; [..|exact Ec]; done || tauto.
Qed.

(** Two frames that differ only in one window inside one part are equal. *)
Lemma frame_window kind payload kind' payload' a w w' b :
  Forall is_byte payload -> Forall is_byte payload' ->
  frame kind payload = a ++ w ++ b -> frame kind' payload' = a ++ w' ++ b ->
  length w = length w' -> (length w <= 4)%nat -> in_one_part (length a) (length w) -> w = w'.
Proof.
  intros Hp Hp' E E' Hw H4 Hi.
  assert (D : frames_differ_in (frame_header kind payload) (frame_header kind' payload')
    payload payload' a w w' b).
  { split; try done; apply Forall_app; auto using frame_header_is_byte. }
  destruct Hi as [Hi|Hi]; [by apply (header_window _ _ _ _ _ _ _ _ D)|].
  apply (tail_window _ _ _ _ _ _ _ _ D); lia.
Qed.

(** ** Properties *)

(** Encoding a valid envelope writes exactly its frame to the start of the output and
    nothing else, and decoding what was written gives back the kind and a view of the same
    payload bytes; the payload may lie in the output itself, behind the header. *)
Theorem encode_decode_roundtrip (mem : Memory) (kind : Z) (view : ByteView) (output : MutableByteView)
    (out : pointer) (lo payload : list Z) (maximum : Z) (previous : BinaryEnvelope) :
  0 < kind < 2 ^ 16 ->
  span_bytes mem view = Some payload -> 0 <= span_size view <= u32_max -> Forall is_byte payload ->
  span_data output = Some out -> mem !! ptr_block out = Some lo -> 0 <= ptr_offset out ->
  ptr_offset out + span_size output <= Z.of_nat (length lo) ->
  16 + span_size view <= span_size output -> span_size view <= maximum ->
  (forall p, span_data view = Some p -> payload_clear_of out p) ->
  exists mem', encode_binary_envelope mem (MkBinaryEnvelope kind view) output =
      Ret (Ok (16 + span_size view), mem') /\
    mem' = <[ptr_block out := list_inserts (Z.to_nat (ptr_offset out)) (frame kind payload) lo]> mem /\
    exists decoded, decode_binary_envelope mem' (subspan output 0 (16 + span_size view)) maximum previous =
        Ret (Ok tt, decoded) /\
      be_kind decoded = kind /\ span_bytes mem' (be_payload decoded) = Some payload.
Proof.
  intros Hk Hp Hsz Hb Hd Hlo Ho Hr Hfit Hmax Hclear.
  pose proof (span_bytes_length _ _ _ (proj1 Hsz) Hp) as Hlen.
  eexists. split; [by apply (encode_run mem (MkBinaryEnvelope kind view) output out lo payload)|].
  split; [done|]. cbn [be_kind].
  set (mem' := <[ptr_block out := _]> mem).
  assert (Hf : span_bytes mem' (subspan output 0 (16 + span_size view)) = Some (frame kind payload)).
  { unfold span_bytes, subspan. cbn [span_size span_data]. rewrite (proj2 (Z.eqb_neq _ _)) by lia.
    rewrite Hd. simpl. unfold mem'. rewrite lookup_insert_eq. cbn [mbind option_bind].
    rewrite length_inserts.
    destruct (_ && _) eqn:E; [|rewrite !andb_false_iff, !Z.leb_gt, Z.ltb_ge in E; lia].
    f_equal. rewrite Z.add_0_r. apply list_eq. intros i.
    destruct (decide (i < length (frame kind payload))%nat) as [Hi|Hi].
    - rewrite frame_length in Hi. rewrite lookup_take_lt, lookup_drop by lia.
      rewrite list_lookup_inserts by (rewrite ?frame_length; lia). f_equal. lia.
    - rewrite (lookup_ge_None_2 (frame _ _)) by lia. apply lookup_ge_None_2.
      rewrite frame_length in Hi. rewrite length_take. lia. }
  assert (Hs : 0 <= span_size (subspan output 0 (16 + span_size view)) <= size_max)
    by (simpl; unfold size_max, u64_max, u32_max in *; lia).
  eexists. split; [apply (decode_frame mem' _ kind payload); try done; lia|]. split; [done|].
  cbn [be_payload].
  destruct (slice_ok mem' (subspan output 0 (16 + span_size view)) 16 (Z.of_nat (length payload))
    (frame kind payload)) as [_ ->]; try done; try (simpl in *; lia).
  rewrite Nat2Z.id. f_equal. unfold frame. rewrite app_assoc. change (Z.to_nat 16) with 16%nat.
  rewrite drop_app_length' by (rewrite length_app, frame_header_length, be_bytes_length; done).
  by rewrite take_ge.
Qed.

(** The decoder always returns; it accepts exactly the frames of a nonzero kind whose
    payload fits the caller's maximum, and gives back their parts; any other input is
    rejected and leaves the caller's envelope unchanged. *)
Theorem decode_accepts_exactly_frames (mem : Memory) (input : ByteView) (l : list Z) (maximum : Z)
    (previous : BinaryEnvelope) :
  span_bytes mem input = Some l -> Forall is_byte l -> 0 <= span_size input <= size_max ->
  exists r decoded, decode_binary_envelope mem input maximum previous = Ret (r, decoded) /\
    (r = Ok tt <-> exists kind payload, l = frame kind payload /\ 0 < kind < 2 ^ 16 /\
       Z.of_nat (length payload) <= Z.min maximum u32_max) /\
    (has_value r = false -> decoded = previous) /\
    (forall kind payload, r = Ok tt -> l = frame kind payload -> 0 < kind < 2 ^ 16 ->
       Z.of_nat (length payload) <= Z.min maximum u32_max ->
       decoded = MkBinaryEnvelope kind (subspan input 16 (Z.of_nat (length payload)))).
Proof.
  intros Hl Hb Hs.
  assert (Hframe : forall kind payload, l = frame kind payload -> 0 < kind < 2 ^ 16 ->
    Z.of_nat (length payload) <= Z.min maximum u32_max ->
    decode_binary_envelope mem input maximum previous =
      Ret (Ok tt, MkBinaryEnvelope kind (subspan input 16 (Z.of_nat (length payload))))).
  { intros kind payload -> Hk Hm. apply decode_frame; try done; try lia.
    unfold frame in Hb. rewrite !Forall_app in Hb. tauto. }
  destruct (decode_inv mem input l maximum previous Hl Hb Hs)
    as [(kind & payload & El & Hk & Hm & Hu & Hd)|[e Hd]]; rewrite Hd; do 2 eexists;
    (split; [done|]); (split; [split|split]); try done.
  - intros _. exists kind, payload. auto with lia.
  - intros kind' payload' _ El' Hk' Hm'. rewrite (Hframe kind' payload') in Hd by done. congruence.
  - intros (kind & payload & El & Hk & Hm). rewrite (Hframe kind payload) in Hd by done. congruence.
Qed.

(** C3: no corruption confined to four consecutive bytes of the header, of the checksum or of
    the payload of a frame is accepted: the decoder rejects the input and leaves the
    caller's envelope unchanged. *)
Theorem corruption_detected (mem : Memory) (input : ByteView) (kind : Z) (payload a w w' b : list Z)
    (maximum : Z) (previous : BinaryEnvelope) :
  Forall is_byte payload -> frame kind payload = a ++ w ++ b ->
  Forall is_byte w' -> length w' = length w -> (length w <= 4)%nat -> w' <> w ->
  in_one_part (length a) (length w) ->
  span_bytes mem input = Some (a ++ w' ++ b) -> 0 <= span_size input <= size_max ->
  exists e, decode_binary_envelope mem input maximum previous = Ret (Err e, previous).
Proof.
  intros Hp Hf Hw' Hlen H4 Hne Hpart Hi Hs.
  assert (Hb : Forall is_byte (a ++ w' ++ b)).
  { pose proof (frame_is_byte kind payload Hp) as Hb. rewrite Hf in Hb.
    rewrite !Forall_app in *. tauto. }
  destruct (decode_inv mem input _ maximum previous Hi Hb Hs)
    as [(kind' & payload' & El & _)|He]; [|done].
  exfalso. apply Hne. symmetry. apply (frame_window kind payload kind' payload' a w w' b); try done.
  rewrite El in Hb. unfold frame in Hb. rewrite !Forall_app in Hb. tauto.
Qed.

(** ** Concrete frames *)
Definition envelope_memory : Memory := <[ 1%nat := replicate 20 0 ]> {[ 0%nat := [1; 2; 3] ]}.
Definition frame_memory : Memory := {[ 0%nat := frame 7 [1; 2; 3] ]}.
Definition corrupt_memory : Memory := {[ 0%nat := take 16 (frame 7 [1; 2; 3]) ++ [1; 9; 3] ]}.

(** The check value of CRC-32C for the digits 1 to 9. *)
Example crc32c_check_value : crc32c_castagnoli [49; 50; 51; 52; 53; 54; 55; 56; 57] = 0xE3069283.
Proof. vm_compute. reflexivity. Qed.

Lemma encode_decode_roundtrip_witness :
  exists mem' decoded,
    encode_binary_envelope envelope_memory (MkBinaryEnvelope 7 (MkSpan (Some (MkPointer 0 0)) 3))
      (MkSpan (Some (MkPointer 1 0)) 20) = Ret (Ok 19, mem') /\
    decode_binary_envelope mem' (MkSpan (Some (MkPointer 1 0)) 19) 3 BinaryEnvelope_default =
      Ret (Ok tt, decoded) /\ be_kind decoded = 7 /\ span_bytes mem' (be_payload decoded) = Some [1; 2; 3].
Proof.
  destruct (encode_decode_roundtrip envelope_memory 7 (MkSpan (Some (MkPointer 0 0)) 3)
    (MkSpan (Some (MkPointer 1 0)) 20) (MkPointer 1 0) (replicate 20 0) [1; 2; 3] 3
    BinaryEnvelope_default ltac:(lia) ltac:(vm_compute; reflexivity)
    ltac:(simpl; unfold u32_max; lia) ltac:(repeat constructor; unfold is_byte; lia) eq_refl
    ltac:(vm_compute; reflexivity) ltac:(simpl; lia) ltac:(simpl; lia) ltac:(simpl; lia)
    ltac:(simpl; lia) ltac:(simpl; intros p [= <-] E; discriminate E))
    as (mem' & H1 & _ & decoded & H2 & H3 & H4).
  exists mem', decoded. split; [exact H1|]. split; [exact H2|]. split; [exact H3|exact H4].
Defined.

Lemma decode_accepts_exactly_frames_witness :
  exists decoded, decode_binary_envelope frame_memory
    (MkSpan (Some (MkPointer 0 0)) 19) 3 BinaryEnvelope_default = Ret (Ok tt, decoded).
Proof.
  destruct (decode_accepts_exactly_frames frame_memory
    (MkSpan (Some (MkPointer 0 0)) 19) (frame 7 [1; 2; 3]) 3 BinaryEnvelope_default
    ltac:(vm_compute; reflexivity)
    ltac:(apply frame_is_byte; repeat constructor; unfold is_byte; lia)
    ltac:(simpl; unfold size_max, u64_max; lia)) as (r & decoded & Hd & Hr & _).
  exists decoded. rewrite Hd. do 2 f_equal. apply Hr. exists 7, [1; 2; 3].
  split; [reflexivity|]. split; [lia|]. simpl. unfold u32_max. lia.
Defined.

Lemma corruption_detected_witness :
  exists e, decode_binary_envelope corrupt_memory
    (MkSpan (Some (MkPointer 0 0)) 19) 3 BinaryEnvelope_default = Ret (Err e, BinaryEnvelope_default).
Proof.
  apply (corruption_detected _ _ 7 [1; 2; 3] (take 17 (frame 7 [1; 2; 3])) [2] [9] [3] 3).
  - repeat constructor; unfold is_byte; lia.
  - vm_compute. reflexivity.
  - repeat constructor; unfold is_byte; lia.
  - reflexivity.
  - simpl. lia.
  - discriminate.
  - right. right. vm_compute. lia.
  - vm_compute. reflexivity.
  - simpl. unfold size_max, u64_max. lia.
Defined.
