(* ===== verification/StateTransitions.v ===== *)
(** * State transition tables, machines and traces

    Models [src/core/contract/laghu/core/state_transitions.hpp].  The [State] and [Reason]
    enumerations are types with decidable equality; a table borrows its rules as a list, a
    trace owns a fixed array of records of which the first [size_] are in use.  A machine
    changes state only along a rule of its table, and a traced machine only when the change
    can be recorded. *)
From S2P Require Import Prelude Contract.
From Stdlib Require Import ZArith Lia String.
From stdpp Require Import base numbers list option.

Set Default Goal Selector "!".
#[local] Open Scope Z_scope.

Record TransitionRule (State Reason : Type) := MkTransitionRule {
  tr_current : State; tr_next : State; tr_reason : Reason }.
Arguments MkTransitionRule {State Reason}.
Arguments tr_current {State Reason}.
Arguments tr_next {State Reason}.
Arguments tr_reason {State Reason}.

#[export] Instance TransitionRule_eq_dec {State Reason : Type} `{EqDecision State} `{EqDecision Reason} :
  EqDecision (TransitionRule State Reason).
Proof. solve_decision. Defined.

Record TransitionRecord (State Reason : Type) := MkTransitionRecord {
  rec_sequence : Z; rec_current : State; rec_next : State; rec_reason : Reason }.
Arguments MkTransitionRecord {State Reason}.
Arguments rec_sequence {State Reason}.
Arguments rec_current {State Reason}.
Arguments rec_next {State Reason}.
Arguments rec_reason {State Reason}.

Record TransitionTable (State Reason : Type) := MkTransitionTable {
  rules_ : list (TransitionRule State Reason) }.
Arguments MkTransitionTable {State Reason}.
Arguments rules_ {State Reason}.

Record TransitionTrace (State Reason : Type) := MkTransitionTrace {
  records_ : list (TransitionRecord State Reason); trace_size_ : Z; sequence_ : Z }.
Arguments MkTransitionTrace {State Reason}.
Arguments records_ {State Reason}.
Arguments trace_size_ {State Reason}.
Arguments sequence_ {State Reason}.

Section transitions.
Context {State Reason : Type} `{EqDecision State} `{EqDecision Reason}.
Implicit Types (rules : list (TransitionRule State Reason)) (table : TransitionTable State Reason)
  (trace : TransitionTrace State Reason).

(** ** Tables *)

(** The inner loop of [create] for one [left]: does a later rule repeat it? *)
Fixpoint repeats_rule (left : TransitionRule State Reason) rules : bool :=
  match rules with
  | [] => false
  | right_rule :: rest =>
      if negb (bool_decide (tr_current left = tr_current right_rule)) then repeats_rule left rest
      else if bool_decide (tr_next left = tr_next right_rule) && bool_decide (tr_reason left = tr_reason right_rule)
           then true
           else repeats_rule left rest
  end.

Fixpoint has_duplicate_rule rules : bool :=
  match rules with
  | [] => false
  | left_rule :: rest => if repeats_rule left_rule rest then true else has_duplicate_rule rest
  end.

Definition TransitionTable_create rules : Result (TransitionTable State Reason) :=
  match rules with
  | [] => Err (core_error invalid_input "state transition table must not be empty")
  | _ =>
      if has_duplicate_rule rules
      then Err (core_error invalid_input "state transition table has a duplicate rule")
      else Ok (MkTransitionTable rules)
  end.

Fixpoint permits_loop rules (current next : State) (reason : Reason) : bool :=
  match rules with
  | [] => false
  | rule :: rest =>
      if bool_decide (tr_current rule = current) && bool_decide (tr_next rule = next) &&
         bool_decide (tr_reason rule = reason)
      then true else permits_loop rest current next reason
  end.

Definition TransitionTable_permits table (current next : State) (reason : Reason) : bool :=
  permits_loop (rules_ table) current next reason.

Definition TransitionTable_size table : Z := Z.of_nat (length (rules_ table)).

(** ** Traces *)
Definition TransitionTrace_construct (records : list (TransitionRecord State Reason)) (sequence : Z) :
    TransitionTrace State Reason := MkTransitionTrace records 0 sequence.

Definition TransitionTrace_records trace : list (TransitionRecord State Reason) :=
  take (Z.to_nat (trace_size_ trace)) (records_ trace).

Definition TransitionTrace_append trace (current next : State) (reason : Reason) :
    Result unit * TransitionTrace State Reason :=
  if trace_size_ trace =? Z.of_nat (length (records_ trace)) then
    (Err (core_error exhaustion "state transition trace capacity is exhausted"), trace)
  else if sequence_ trace =? u64_max then
    (Err (core_error overflow "state transition trace sequence overflow"), trace)
  else
    (Ok tt, MkTransitionTrace
       (<[Z.to_nat (trace_size_ trace) :=
            MkTransitionRecord (sequence_ trace + 1) current next reason]> (records_ trace))
       (trace_size_ trace + 1) (sequence_ trace + 1)).

(** ** Machines *)
Definition invalid_transition_error : Error :=
  core_error invalid_state "state transition is not permitted".

(** [StateMachine<State, Reason, false>::transition]; the state is [current_]. *)
Definition StateMachine_transition table (current : State) (next : State) (reason : Reason) :
    Result unit * State :=
  if negb (TransitionTable_permits table current next reason)
  then (Err invalid_transition_error, current)
  else (Ok tt, next).

(** [StateMachine<State, Reason, true>::transition]: the machine and the trace it points to. *)
Definition StateMachine_traced_transition table (current : State) trace (next : State) (reason : Reason) :
    Result unit * State * TransitionTrace State Reason :=
  if negb (TransitionTable_permits table current next reason)
  then (Err invalid_transition_error, current, trace)
  else
    match TransitionTrace_append trace current next reason with
    | (Err e, trace') => (Err e, current, trace')
    | (Ok _, trace') => (Ok tt, next, trace')
    end.

(** A client that issues requests one after the other, whatever each returns. *)
Fixpoint run_requests table (current : State) trace (requests : list (State * Reason)) :
    State * TransitionTrace State Reason :=
  match requests with
  | [] => (current, trace)
  | (next, reason) :: rest =>
      let '(_, current', trace') := StateMachine_traced_transition table current trace next reason in
      run_requests table current' trace' rest
  end.

(** ** Specification: what a faithful trace is *)
Inductive recorded_path rules (q : Z) : State -> list (TransitionRecord State Reason) -> State -> Prop :=
  | path_nil s : recorded_path rules q s [] s
  | path_snoc s path s1 s2 reason :
      recorded_path rules q s path s1 ->
      MkTransitionRule s1 s2 reason ∈ rules ->
      recorded_path rules q s
        (path ++ [MkTransitionRecord (q + Z.of_nat (length path) + 1) s1 s2 reason]) s2.

(** ** Lemmas *)
Lemma repeats_rule_iff left rules : repeats_rule left rules = true <-> left ∈ rules.
Proof.
  induction rules as [|r1 rest IH]; simpl; [by rewrite elem_of_nil|].
  rewrite elem_of_cons, <- IH. destruct left as [c n r], r1 as [c' n' r']; simpl.
  repeat case_bool_decide; simpl; subst; split; intros Hx; try done; auto;
    destruct Hx as [Hx|Hx]; try done; congruence.
Qed.

Lemma has_duplicate_rule_iff rules : has_duplicate_rule rules = false <-> NoDup rules.
Proof.
  induction rules as [|l1 rest IH]; simpl; [split; [constructor|done]|].
  rewrite (list.NoDup_cons l1 rest). pose proof (repeats_rule_iff l1 rest) as Hr.
  destruct (repeats_rule l1 rest).
  - split; [done|]. intros [Hl _]. by destruct Hl; apply Hr.
  - rewrite IH. split; [|tauto]. intros Hd. split; [|done]. by intros Hl%Hr.
Qed.

Lemma permits_iff table current next reason :
  TransitionTable_permits table current next reason = true <->
  MkTransitionRule current next reason ∈ rules_ table.
Proof.
  unfold TransitionTable_permits.
  induction (rules_ table) as [|[c n r] rest IH]; simpl; [by rewrite elem_of_nil|].
  rewrite elem_of_cons, <- IH.
  repeat case_bool_decide; simpl; subst; split; intros Hx; try done; auto;
    destruct Hx as [Hx|Hx]; try done; congruence.
Qed.

(** The invariant of a traced machine that started in [s0] with sequence [q] and an array
    of [n] records. *)
Definition traced rules (q : Z) (n : nat) (s0 : State) (current : State) trace : Prop :=
  0 <= trace_size_ trace <= Z.of_nat n /\ length (records_ trace) = n /\
  sequence_ trace = q + trace_size_ trace /\
  recorded_path rules q s0 (TransitionTrace_records trace) current.

Lemma append_records trace current next reason trace' :
  0 <= trace_size_ trace <= Z.of_nat (length (records_ trace)) ->
  TransitionTrace_append trace current next reason = (Ok tt, trace') ->
  trace_size_ trace < Z.of_nat (length (records_ trace)) /\
  length (records_ trace') = length (records_ trace) /\
  trace_size_ trace' = trace_size_ trace + 1 /\ sequence_ trace' = sequence_ trace + 1 /\
  TransitionTrace_records trace' =
    TransitionTrace_records trace ++ [MkTransitionRecord (sequence_ trace + 1) current next reason].
Proof.
  intros Hs. unfold TransitionTrace_append.
  destruct (Z.eqb_spec (trace_size_ trace) (Z.of_nat (length (records_ trace)))); [done|].
  destruct (Z.eqb_spec (sequence_ trace) u64_max); [done|]. intros [= <-]. simpl.
  rewrite length_insert. split; [lia|]. do 3 (split; [done|]).
  unfold TransitionTrace_records. simpl.
  replace (Z.to_nat (trace_size_ trace + 1)) with (S (Z.to_nat (trace_size_ trace))) by lia.
  erewrite take_S_r by (apply list_lookup_insert_eq; lia). by rewrite take_insert_ge.
Qed.

Lemma traced_transition_ok rules table q n s0 current trace next reason :
  rules_ table = rules -> traced rules q n s0 current trace ->
  let '(_, current', trace') := StateMachine_traced_transition table current trace next reason in
  traced rules q n s0 current' trace'.
Proof.
  intros <- (Hs & Hl & Hq & Hp). unfold StateMachine_traced_transition.
  destruct (TransitionTable_permits table current next reason) eqn:Hperm; simpl; [|done].
  apply permits_iff in Hperm.
  destruct (TransitionTrace_append trace current next reason) as [[[]|e] trace'] eqn:E.
  - apply append_records in E as (Hlt & Hl' & Hs' & Hq' & Hr'); [|lia].
    split; [lia|]. split; [lia|]. split; [lia|]. rewrite Hr'.
    assert (Z.of_nat (length (TransitionTrace_records trace)) = trace_size_ trace) as Hlen.
    { unfold TransitionTrace_records. rewrite length_take. lia. }
    rewrite Hq, <- Hlen. by constructor.
  - assert (trace' = trace) as ->; [|done].
    unfold TransitionTrace_append in E. repeat case_match; congruence.
Qed.

Lemma traced_run table q n s0 current trace requests current' trace' :
  traced (rules_ table) q n s0 current trace ->
  run_requests table current trace requests = (current', trace') ->
  traced (rules_ table) q n s0 current' trace'.
Proof.
  revert current trace. induction requests as [|[next reason] rest IH]; intros current trace Ht; simpl.
  - by intros [= <- <-].
  - pose proof (traced_transition_ok _ table q n s0 current trace next reason eq_refl Ht) as Hstep.
    destruct (StateMachine_traced_transition table current trace next reason) as [[r c] t].
    by apply IH.
Qed.
End transitions.

(** ** Properties *)

(** A table is created exactly from a nonempty list of distinct rules and then permits
    exactly its rules; a machine moves exactly along permitted rules and otherwise keeps its
    state and reports the invalid transition. *)
Theorem table_and_machine_spec {State Reason : Type} `{EqDecision State} `{EqDecision Reason}
    (rules : list (TransitionRule State Reason)) (current next : State) (reason : Reason) :
  (has_value (TransitionTable_create rules) = true <-> rules <> [] /\ NoDup rules) /\
  (forall table, TransitionTable_create rules = Ok table ->
     (TransitionTable_permits table current next reason = true <->
        MkTransitionRule current next reason ∈ rules) /\
     StateMachine_transition table current next reason =
       if decide (MkTransitionRule current next reason ∈ rules)
       then (Ok tt, next) else (Err invalid_transition_error, current)).
Proof.
  unfold TransitionTable_create. destruct rules as [|rule rest].
  { split; [split; [done|by intros []]|done]. }
  pose proof (has_duplicate_rule_iff (rule :: rest)) as Hd.
  destruct (has_duplicate_rule (rule :: rest)).
  { split; [|done]. split; [done|]. intros [_ Hn]. by apply Hd in Hn. }
  split; [split; [intros _; split; [done|by apply Hd]|done]|].
  intros table [= <-]. split; [apply permits_iff|].
  unfold StateMachine_transition. case_decide as Hr.
  - apply (permits_iff (MkTransitionTable (rule :: rest))) in Hr. by rewrite Hr.
  - destruct (TransitionTable_permits _ current next reason) eqn:E; [|done].
    by apply permits_iff in E.
Qed.

(** whatever requests a traced machine receives, its trace is a complete account of how
    it reached its state: the recorded transitions form a path of table rules from the
    initial state to the current one, numbered consecutively from the initial sequence,
    within the array's capacity. *)
Theorem traced_machine_records_its_path {State Reason : Type} `{EqDecision State} `{EqDecision Reason}
    (table : TransitionTable State Reason) (records : list (TransitionRecord State Reason))
    (sequence : Z) (initial : State) (requests : list (State * Reason)) :
  let '(current, trace) :=
    run_requests table initial (TransitionTrace_construct records sequence) requests in
  recorded_path (rules_ table) sequence initial (TransitionTrace_records trace) current /\
  (length (TransitionTrace_records trace) <= length records)%nat /\
  sequence_ trace = sequence + Z.of_nat (length (TransitionTrace_records trace)).
Proof.
  destruct (run_requests _ _ _ _) as [current trace] eqn:E.
  apply (traced_run table sequence (length records) initial) in E as (Hs & Hl & Hq & Hp).
  - assert (Z.of_nat (length (TransitionTrace_records trace)) = trace_size_ trace) as Hlen.
    { unfold TransitionTrace_records. rewrite length_take. lia. }
    split; [done|]. split; [lia|]. by rewrite Hlen.
  - unfold traced, TransitionTrace_construct, TransitionTrace_records. simpl.
    split; [lia|]. split; [done|]. split; [lia|]. constructor.
Qed.
