(* ===== verification/Clocks.v ===== *)
(** * Clocks

    Models [src/core/clocks.cpp] and the [ClockOperations] table of
    [src/core/contract/laghu/core/clocks.hpp].  A table's functions act on the caller's
    context, a state that is threaded through; what [clock_gettime] answers is a parameter.
    Arithmetic on the signed [RealtimeInstant] faults where C++ leaves overflow undefined. *)
From S2P Require Import Prelude Contract.
From Stdlib Require Import ZArith Lia String.
From stdpp Require Import base numbers option.

Set Default Goal Selector "!".
#[local] Open Scope Z_scope.

(** ** The table *)
Record ClockOperations (context : Type) := MkClockOperations {
  monotonic_now : option (context -> Result Z * context);
  realtime_now : option (context -> Result Z * context) }.
Arguments MkClockOperations {context}.
Arguments monotonic_now {context}.
Arguments realtime_now {context}.

Definition read_monotonic_clock {context : Type} (operations : ClockOperations context) (ctx : context) :
    Result Z * context :=
  match monotonic_now operations with
  | None => (Err (core_error invalid_state "monotonic clock operation is missing"), ctx)
  | Some now => now ctx
  end.

Definition read_realtime_clock {context : Type} (operations : ClockOperations context) (ctx : context) :
    Result Z * context :=
  match realtime_now operations with
  | None => (Err (core_error invalid_state "realtime clock operation is missing"), ctx)
  | Some now => now ctx
  end.

(** ** The POSIX clock *)
Definition nanoseconds_per_second : Z := 1000000000.

(** What [clock_gettime] left: a nonzero return with [errno], or a [timespec]. *)
Inductive gettime_result :=
  | gettime_failed (errno : Z)
  | gettime_value (tv_sec tv_nsec : Z).

Definition posix_monotonic_now (answer : gettime_result) : Result Z :=
  match answer with
  | gettime_failed errno => Err (from_errno errno "CLOCK_MONOTONIC query failed")
  | gettime_value tv_sec tv_nsec =>
      if (tv_sec <? 0) || (tv_nsec <? 0) || (nanoseconds_per_second <=? tv_nsec) then
        Err (core_error corrupt_data "CLOCK_MONOTONIC result is invalid")
      else
        let seconds := cast uint64_t tv_sec in
        let nanoseconds := cast uint64_t tv_nsec in
        if u64 (u64_max - nanoseconds) / nanoseconds_per_second <? seconds then
          Err (core_error overflow "CLOCK_MONOTONIC result overflows")
        else Ok (u64 (u64 (seconds * nanoseconds_per_second) + nanoseconds))
  end.

(** Signed 64-bit arithmetic: overflow is undefined behaviour. *)
Definition int64_exact (z : Z) : outcome Z := if in_range int64_t z then Ret z else Stop Undefined.

Definition realtime_instant_from_parts (seconds nanoseconds : Z) : outcome (Result Z) :=
  if (nanoseconds <? 0) || (nanoseconds_per_second <=? nanoseconds) then
    Ret (Err (core_error corrupt_data "CLOCK_REALTIME result is invalid"))
  else
    let maximum := int_max int64_t in
    let minimum := int_min int64_t in
    let maximum_seconds := maximum ÷ nanoseconds_per_second in
    let maximum_nanoseconds := Z.rem maximum nanoseconds_per_second in
    let minimum_truncated_seconds := minimum ÷ nanoseconds_per_second in
    let minimum_remainder := Z.rem minimum nanoseconds_per_second in
    minimum_seconds ← int64_exact (minimum_truncated_seconds - 1);
    minimum_nanoseconds ← int64_exact (nanoseconds_per_second + minimum_remainder);
    if (maximum_seconds <? seconds) ||
       ((seconds =? maximum_seconds) && (maximum_nanoseconds <? nanoseconds)) ||
       (seconds <? minimum_seconds) ||
       ((seconds =? minimum_seconds) && (nanoseconds <? minimum_nanoseconds)) then
      Ret (Err (core_error overflow "CLOCK_REALTIME result overflows"))
    else if seconds =? minimum_seconds then
      difference ← int64_exact (nanoseconds - minimum_nanoseconds);
      sum ← int64_exact (minimum + difference);
      Ret (Ok sum)
    else
      product ← int64_exact (seconds * nanoseconds_per_second);
      sum ← int64_exact (product + nanoseconds);
      Ret (Ok sum).

Definition posix_realtime_now (answer : gettime_result) : outcome (Result Z) :=
  match answer with
  | gettime_failed errno => Ret (Err (from_errno errno "CLOCK_REALTIME query failed"))
  | gettime_value tv_sec tv_nsec => realtime_instant_from_parts tv_sec tv_nsec
  end.

(** [system_clock_operations()]: the table over the operating system's answers.  The context
    pointer is null and unused; here it is what [clock_gettime] answers next for either
    clock.  [posix_realtime_now] never faults, so the table's entry is its result. *)
Definition system_clock_operations (fallback : Result Z) :
    ClockOperations (gettime_result * gettime_result) :=
  MkClockOperations
    (Some (fun answers => (posix_monotonic_now (fst answers), answers)))
    (Some (fun answers =>
       (match posix_realtime_now (snd answers) with Ret r => r | Stop _ => fallback end, answers))).

(** ** Lemmas *)
Lemma int64_exact_ok z : -9223372036854775808 <= z <= 9223372036854775807 -> int64_exact z = Ret z.
Proof.
  intros Hz. unfold int64_exact. rewrite (proj2 (in_range_iff int64_t z)); [done|]. cbn. lia.
Qed.

Lemma monotonic_value tv_sec tv_nsec :
  0 <= tv_sec <= int_max int64_t -> 0 <= tv_nsec < nanoseconds_per_second ->
  posix_monotonic_now (gettime_value tv_sec tv_nsec) =
    if tv_sec * nanoseconds_per_second + tv_nsec <=? u64_max
    then Ok (tv_sec * nanoseconds_per_second + tv_nsec)
    else Err (core_error overflow "CLOCK_MONOTONIC result overflows").
Proof.
  unfold posix_monotonic_now, nanoseconds_per_second. change (int_max int64_t) with 9223372036854775807.
  intros Hs Hn.
  destruct (Z.ltb_spec tv_sec 0), (Z.ltb_spec tv_nsec 0), (Z.leb_spec 1000000000 tv_nsec);
    try lia; simpl orb; cbv iota.
  rewrite !cast_in_range by (unfold int_type_ok; cbn; lia).
  rewrite (u64_small (u64_max - tv_nsec)) by (unfold u64_max; lia).
  pose proof (Z.mul_div_le (u64_max - tv_nsec) 1000000000 ltac:(lia)).
  pose proof (Z.mul_succ_div_gt (u64_max - tv_nsec) 1000000000 ltac:(lia)).
  destruct (Z.ltb_spec ((u64_max - tv_nsec) / 1000000000) tv_sec),
    (Z.leb_spec (tv_sec * 1000000000 + tv_nsec) u64_max); try done; try lia.
  rewrite (u64_small (tv_sec * 1000000000)) by lia. by rewrite u64_small by lia.
Qed.

Lemma realtime_value seconds nanoseconds :
  int_min int64_t <= seconds <= int_max int64_t -> 0 <= nanoseconds < nanoseconds_per_second ->
  realtime_instant_from_parts seconds nanoseconds =
    Ret (if in_range int64_t (seconds * nanoseconds_per_second + nanoseconds)
         then Ok (seconds * nanoseconds_per_second + nanoseconds)
         else Err (core_error overflow "CLOCK_REALTIME result overflows")).
Proof.
  unfold realtime_instant_from_parts, in_range, nanoseconds_per_second.
  change (int_max int64_t) with 9223372036854775807. change (int_min int64_t) with (-9223372036854775808).
  change (9223372036854775807 ÷ 1000000000) with 9223372036.
  change (Z.rem 9223372036854775807 1000000000) with 854775807.
  change (-9223372036854775808 ÷ 1000000000) with (-9223372036).
  change (Z.rem (-9223372036854775808) 1000000000) with (-854775808).
  intros Hs Hn.
  destruct (Z.ltb_spec nanoseconds 0), (Z.leb_spec 1000000000 nanoseconds); try lia; simpl orb; cbv iota.
  change (int64_exact (-9223372036 - 1)) with (Ret (-9223372037)).
  change (int64_exact (1000000000 + -854775808)) with (Ret 145224192). cbn [mbind outcome_bind].
  destruct (Z.leb_spec (-9223372036854775808) (seconds * 1000000000 + nanoseconds)),
    (Z.leb_spec (seconds * 1000000000 + nanoseconds) 9223372036854775807); simpl andb; cbv iota.
  - destruct (Z.ltb_spec 9223372036 seconds), (Z.eqb_spec seconds 9223372036),
      (Z.ltb_spec 854775807 nanoseconds), (Z.ltb_spec seconds (-9223372037)),
      (Z.eqb_spec seconds (-9223372037)), (Z.ltb_spec nanoseconds 145224192); try lia; simpl orb; cbv iota;
      rewrite !int64_exact_ok by lia; cbn [mbind outcome_bind]; rewrite int64_exact_ok by lia;
      cbn [mbind outcome_bind]; do 2 f_equal; lia.
  - destruct (Z.ltb_spec 9223372036 seconds), (Z.eqb_spec seconds 9223372036),
      (Z.ltb_spec 854775807 nanoseconds); try lia; done.
  - destruct (Z.ltb_spec 9223372036 seconds), (Z.eqb_spec seconds 9223372036),
      (Z.ltb_spec 854775807 nanoseconds), (Z.ltb_spec seconds (-9223372037)),
      (Z.eqb_spec seconds (-9223372037)), (Z.ltb_spec nanoseconds 145224192); try lia; done.
  - lia.
Qed.

(** ** Properties *)

(** a clock reading is exactly [seconds * 10^9 + nanoseconds] whenever that instant is
    representable and the overflow error otherwise; a [timespec] with an invalid field is
    reported as corrupt, and no intermediate signed operation overflows. *)
Theorem clock_readings_exact (tv_sec tv_nsec : Z) :
  int_min int64_t <= tv_sec <= int_max int64_t -> int_min int64_t <= tv_nsec <= int_max int64_t ->
  posix_monotonic_now (gettime_value tv_sec tv_nsec) =
    (if (0 <=? tv_sec) && (0 <=? tv_nsec) && (tv_nsec <? nanoseconds_per_second) then
       if tv_sec * nanoseconds_per_second + tv_nsec <=? u64_max
       then Ok (tv_sec * nanoseconds_per_second + tv_nsec)
       else Err (core_error overflow "CLOCK_MONOTONIC result overflows")
     else Err (core_error corrupt_data "CLOCK_MONOTONIC result is invalid")) /\
  posix_realtime_now (gettime_value tv_sec tv_nsec) =
    Ret (if (0 <=? tv_nsec) && (tv_nsec <? nanoseconds_per_second) then
           if in_range int64_t (tv_sec * nanoseconds_per_second + tv_nsec)
           then Ok (tv_sec * nanoseconds_per_second + tv_nsec)
           else Err (core_error overflow "CLOCK_REALTIME result overflows")
         else Err (core_error corrupt_data "CLOCK_REALTIME result is invalid")).
Proof.
  intros Hs Hn. split.
  - destruct (Z.leb_spec 0 tv_sec), (Z.leb_spec 0 tv_nsec), (Z.ltb_spec tv_nsec nanoseconds_per_second);
      simpl andb; cbv iota; [apply monotonic_value; lia|..]; unfold posix_monotonic_now;
      destruct (Z.ltb_spec tv_sec 0), (Z.ltb_spec tv_nsec 0),
        (Z.leb_spec nanoseconds_per_second tv_nsec); try lia; done.
  - destruct (Z.leb_spec 0 tv_nsec), (Z.ltb_spec tv_nsec nanoseconds_per_second);
      simpl andb; cbv iota; [apply realtime_value; lia|..];
      unfold posix_realtime_now, realtime_instant_from_parts;
      destruct (Z.ltb_spec tv_nsec 0), (Z.leb_spec nanoseconds_per_second tv_nsec); try lia; done.
Qed.

(** The earliest representable instant, one nanosecond before it, and a plain reading. *)
Lemma clock_readings_exact_witness :
  posix_monotonic_now (gettime_value 12 34) = Ok 12000000034 /\
  posix_realtime_now (gettime_value (-9223372037) 145224192) = Ret (Ok (-9223372036854775808)) /\
  posix_realtime_now (gettime_value (-9223372037) 145224191) =
    Ret (Err (core_error overflow "CLOCK_REALTIME result overflows")).
Proof.
  split; [|split].
  - exact (proj1 (clock_readings_exact 12 34 ltac:(cbn; lia) ltac:(cbn; lia))).
  - exact (proj2 (clock_readings_exact (-9223372037) 145224192 ltac:(cbn; lia) ltac:(cbn; lia))).
  - exact (proj2 (clock_readings_exact (-9223372037) 145224191 ltac:(cbn; lia) ltac:(cbn; lia))).
Defined.
