(* ===== verification/Cancellation.v ===== *)
(** * Deadlines and cancellation

    Models [src/core/contract/laghu/core/deadlines_cancellation.hpp].  A cancellation state
    is one atomic cell shared by threads, so its operations are written as programs over
    atomic actions: a load, a compare-exchange from [pending], or a clock reading.  [run]
    executes a program alone; [step] interleaves the actions of any number of threads.  The
    code's acquire/release orderings act on a single cell, whose modification order every
    thread observes; interleavings of whole actions cover that. *)
From S2P Require Import Prelude Contract Clocks.
From Stdlib Require Import ZArith Lia String.
From stdpp Require Import base numbers list gmap option relations.

Set Default Goal Selector "!".
#[local] Open Scope Z_scope.

(** ** Deadlines *)
Record Deadline := MkDeadline { instant_ : Z }.

Definition Deadline_at (instant : Z) : Deadline := MkDeadline instant.

Definition deadline_overflow_error : Error := core_error overflow "monotonic deadline overflows".

(** [after(clock, duration)] for a clock that reads [now]. *)
Definition Deadline_after (now duration : Z) : Result Deadline :=
  if u64 (u64_max - now) <? duration then Err deadline_overflow_error
  else Ok (MkDeadline (u64 (now + duration))).

Definition Deadline_after_operations {context : Type} (operations : ClockOperations context)
    (ctx : context) (duration : Z) : Result Deadline * context :=
  match read_monotonic_clock operations ctx with
  | (Err e, ctx') => (Err e, ctx')
  | (Ok now, ctx') =>
      if u64 (u64_max - now) <? duration then (Err deadline_overflow_error, ctx')
      else (Ok (MkDeadline (u64 (now + duration))), ctx')
  end.

Definition Deadline_child (parent requested : Deadline) : Deadline :=
  MkDeadline (if instant_ parent <? instant_ requested then instant_ parent else instant_ requested).

Definition Deadline_expired (this : Deadline) (now : Z) : bool := instant_ this <=? now.

(** [expired(operations)], given what [read_monotonic_clock] returned. *)
Definition Deadline_expired_operations (this : Deadline) (reading : Result Z) : Result bool :=
  now ← reading; Ok (instant_ this <=? now).

Definition deadline_error : Error := core_error deadline "monotonic deadline expired".

Definition Deadline_require_not_expired (this : Deadline) (now : Z) : Result unit :=
  if Deadline_expired this now then Err deadline_error else Ok tt.

Definition Deadline_require_not_expired_operations (this : Deadline) (reading : Result Z) : Result unit :=
  is_expired ← Deadline_expired_operations this reading;
  if (is_expired : bool) then Err deadline_error else Ok tt.

(** ** Outcomes *)
Inductive CancellationTerminal := pending | completed | cancelled.
Inductive CancellationCause := cause_none | explicit_request | deadline_expired.
Record CancellationOutcome := MkCancellationOutcome {
  terminal : CancellationTerminal; cause : CancellationCause }.

#[export] Instance CancellationTerminal_eq_dec : EqDecision CancellationTerminal.
Proof. solve_decision. Defined.
#[export] Instance CancellationCause_eq_dec : EqDecision CancellationCause.
Proof. solve_decision. Defined.

Definition CancellationOutcome_is_terminal (o : CancellationOutcome) : bool :=
  negb (bool_decide (terminal o = pending)).
Definition CancellationOutcome_is_cancelled (o : CancellationOutcome) : bool :=
  bool_decide (terminal o = cancelled).

Definition cancellation_error (c : CancellationCause) : Error :=
  if bool_decide (c = deadline_expired) then deadline_error
  else core_error cancellation "operation cancellation was requested".

Definition CancellationOutcome_require_active (o : CancellationOutcome) : Result unit :=
  if bool_decide (terminal o = cancelled) then Err (cancellation_error (cause o))
  else if bool_decide (terminal o = completed)
  then Err (core_error invalid_state "operation has already completed")
  else Ok tt.

Inductive StoredTerminal :=
  | stored_pending | stored_completed | stored_cancelled_explicit | stored_cancelled_deadline.

#[export] Instance StoredTerminal_eq_dec : EqDecision StoredTerminal.
Proof. solve_decision. Defined.

(** The switch of [CancellationState::outcome]. *)
Definition stored_outcome (v : StoredTerminal) : CancellationOutcome :=
  match v with
  | stored_pending => MkCancellationOutcome pending cause_none
  | stored_completed => MkCancellationOutcome completed cause_none
  | stored_cancelled_explicit => MkCancellationOutcome cancelled explicit_request
  | stored_cancelled_deadline => MkCancellationOutcome cancelled deadline_expired
  end.

(** ** Programs over atomic actions *)
Inductive prog (A : Type) :=
  | Done (a : A)
  | Load (state : nat) (k : StoredTerminal -> prog A)
  | CompareExchange (state : nat) (requested : StoredTerminal) (k : bool -> prog A)
  | ReadClock (k : Result Z -> prog A).
Arguments Done {A}.
Arguments Load {A}.
Arguments CompareExchange {A}.
Arguments ReadClock {A}.

Fixpoint prog_bind {A B} (p : prog A) (f : A -> prog B) : prog B :=
  match p with
  | Done a => f a
  | Load s k => Load s (fun v => prog_bind (k v) f)
  | CompareExchange s r k => CompareExchange s r (fun b => prog_bind (k b) f)
  | ReadClock k => ReadClock (fun r => prog_bind (k r) f)
  end.
#[export] Instance prog_mret : MRet prog := fun _ a => Done a.
#[export] Instance prog_mbind : MBind prog := fun _ _ f p => prog_bind p f.

(** ** [CancellationState] *)
Definition CancellationState_outcome (state : nat) : prog CancellationOutcome :=
  Load state (fun v => Done (stored_outcome v)).

Definition CancellationState_finish (state : nat) (requested : StoredTerminal) :
    prog CancellationOutcome :=
  CompareExchange state requested (fun won =>
    if (won : bool) then CancellationState_outcome state else CancellationState_outcome state).

(** ** [CancellationToken] *)
Definition maximum_parent_depth : Z := 8.

Record CancellationToken := MkCancellationToken {
  states_ : list (option nat); state_count_ : Z }.

(** The private constructor from a state. *)
Definition CancellationToken_construct (state : nat) : CancellationToken :=
  MkCancellationToken (<[0%nat := Some state]> (replicate (Z.to_nat (maximum_parent_depth + 1)) None)) 1.

(** The pointers in use. *)
Definition token_states (t : CancellationToken) : list (option nat) :=
  take (Z.to_nat (state_count_ t)) (states_ t).

(** The loop of [outcome] over the inherited states; a null entry would be dereferenced. *)
Fixpoint inherited_loop (own : CancellationOutcome) (states : list (option nat)) :
    prog (outcome CancellationOutcome) :=
  match states with
  | [] => Done (Ret own)
  | None :: _ => Done (Stop Undefined)
  | Some state :: rest =>
      inherited ← CancellationState_outcome state;
      if CancellationOutcome_is_cancelled inherited then Done (Ret inherited)
      else inherited_loop own rest
  end.

Definition CancellationToken_outcome (t : CancellationToken) : prog (outcome CancellationOutcome) :=
  match states_ t !! 0%nat with
  | Some (Some state) =>
      own ← CancellationState_outcome state;
      if CancellationOutcome_is_terminal own then Done (Ret own)
      else inherited_loop own (drop 1 (token_states t))
  | _ => Done (Stop Undefined)
  end.

Definition CancellationToken_require_active (t : CancellationToken) : prog (outcome (Result unit)) :=
  r ← CancellationToken_outcome t;
  Done (o ← r; Ret (CancellationOutcome_require_active o)).

(** [require_active(deadline, clock)] with a clock that reads [now]. *)
Definition CancellationToken_require_active_deadline (t : CancellationToken) (d : Deadline) (now : Z) :
    prog (outcome (Result unit)) :=
  active ← CancellationToken_require_active t;
  Done (a ← active;
        Ret (match a with Err e => Err e | Ok _ => Deadline_require_not_expired d now end)).

Definition CancellationToken_require_active_operations (t : CancellationToken) (d : Deadline) :
    prog (outcome (Result unit)) :=
  active ← CancellationToken_require_active t;
  match active with
  | Stop f => Done (Stop f)
  | Ret (Err e) => Done (Ret (Err e))
  | Ret (Ok _) => ReadClock (fun reading => Done (Ret (Deadline_require_not_expired_operations d reading)))
  end.

(** [for (index ...) child.states_[index + 1] = states_[index]] *)
Fixpoint copy_states (n index : nat) (parent child : list (option nat)) : outcome (list (option nat)) :=
  match n with
  | O => Ret child
  | S n' =>
      match parent !! index with
      | None => Stop Undefined
      | Some p =>
          if (S index <? length child)%nat
          then copy_states n' (S index) parent (<[S index := p]> child)
          else Stop Undefined
      end
  end.

Definition CancellationToken_child (t : CancellationToken) (child_state : nat) :
    outcome (Result CancellationToken) :=
  if bool_decide (Some child_state ∈ token_states t) then
    Ret (Err (core_error invalid_state "cancellation parent cycle is not allowed"))
  else if maximum_parent_depth <? state_count_ t then
    Ret (Err (core_error invalid_range "cancellation parent depth exceeds 8"))
  else
    let child := CancellationToken_construct child_state in
    states ← copy_states (Z.to_nat (state_count_ t)) 0 (states_ t) (states_ child);
    Ret (Ok (MkCancellationToken states (cast uint8_t (state_count_ t + 1)))).

(** ** [CancellationSource] *)
Record CancellationSource := MkCancellationSource { state_ : nat }.

Definition CancellationSource_token (s : CancellationSource) : CancellationToken :=
  CancellationToken_construct (state_ s).

Definition CancellationSource_complete (s : CancellationSource) : prog CancellationOutcome :=
  CancellationState_finish (state_ s) stored_completed.

Definition CancellationSource_cancel (s : CancellationSource) : prog CancellationOutcome :=
  CancellationState_finish (state_ s) stored_cancelled_explicit.

Definition CancellationSource_cancel_if_expired (s : CancellationSource) (d : Deadline) (now : Z) :
    prog CancellationOutcome :=
  if negb (Deadline_expired d now) then CancellationState_outcome (state_ s)
  else CancellationState_finish (state_ s) stored_cancelled_deadline.

Definition CancellationSource_cancel_if_expired_operations (s : CancellationSource) (d : Deadline) :
    prog (Result CancellationOutcome) :=
  existing ← CancellationState_outcome (state_ s);
  if CancellationOutcome_is_terminal existing then Done (Ok existing) else
  ReadClock (fun reading =>
    match Deadline_expired_operations d reading with
    | Err e => Done (Err e)
    | Ok is_expired =>
        if negb is_expired then (o ← CancellationState_outcome (state_ s); Done (Ok o))
        else (o ← CancellationState_finish (state_ s) stored_cancelled_deadline; Done (Ok o))
    end).

(** ** Execution *)
Abbreviation Store := (gmap nat StoredTerminal).

(** One atomic action of a program; a clock answers [reading]. *)
Definition action {A} (reading : Result Z) (m : Store) (p : prog A) : option (Store * prog A) :=
  match p with
  | Done _ => None
  | Load s k => v ← m !! s; Some (m, k v)
  | CompareExchange s requested k =>
      v ← m !! s;
      if bool_decide (v = stored_pending) then Some (<[s := requested]> m, k true)
      else Some (m, k false)
  | ReadClock k => Some (m, k reading)
  end.

(** A program alone, with the answers of the clock in order. *)
Fixpoint run {A} (fuel : nat) (readings : list (Result Z)) (m : Store) (p : prog A) : option (Store * A) :=
  match fuel, p with
  | _, Done a => Some (m, a)
  | O, _ => None
  | S fuel', Load s k => v ← m !! s; run fuel' readings m (k v)
  | S fuel', CompareExchange s requested k =>
      v ← m !! s;
      if bool_decide (v = stored_pending) then run fuel' readings (<[s := requested]> m) (k true)
      else run fuel' readings m (k false)
  | S fuel', ReadClock k =>
      match readings with [] => None | r :: rest => run fuel' rest m (k r) end
  end.

(** Threads of one result type, interleaved. *)
Inductive step {A : Type} : Store * list (prog A) -> Store * list (prog A) -> Prop :=
  | step_thread m m' threads i p p' reading :
      threads !! i = Some p -> action reading m p = Some (m', p') ->
      step (m, threads) (m', <[i := p']> threads).

(** ** Interference: a decided state never changes *)
Definition grows (m m' : Store) : Prop :=
  forall s v, m !! s = Some v -> exists v', m' !! s = Some v' /\ (v <> stored_pending -> v' = v).

#[export] Instance grows_preorder : PreOrder grows.
Proof.
  split.
  - intros m s v Hv. eauto.
  - intros m1 m2 m3 H1 H2 s v Hv. destruct (H1 s v Hv) as (v2 & Hv2 & E2).
    destruct (H2 s v2 Hv2) as (v3 & Hv3 & E3). exists v3. split; [done|].
    intros Hp. specialize (E2 Hp). subst v2. auto.
Qed.

Lemma action_grows {A} reading m (p : prog A) m' p' :
  action reading m p = Some (m', p') -> grows m m'.
Proof.
  destruct p as [a|s k|s requested k|k]; simpl; [done|..].
  - destruct (m !! s); simpl; [|done]. by intros [= <- <-].
  - destruct (m !! s) as [v|] eqn:Hs; simpl; [|done].
    case_bool_decide as Hv; intros [= <- <-]; [|done]. subst v.
    intros s' v' Hs'. destruct (decide (s = s')) as [<-|Hne].
    + rewrite lookup_insert_eq. exists requested. split; [done|]. congruence.
    + rewrite lookup_insert_ne by done. eauto.
  - by intros [= <- <-].
Qed.

(** A thread's own invariant, stable under interference, holds along every interleaving. *)
Lemma pool_invariant {A} (I : Store -> prog A -> Prop) :
  (forall m m' p, I m p -> grows m m' -> I m' p) ->
  (forall reading m p m' p', I m p -> action reading m p = Some (m', p') -> I m' p') ->
  forall c c' i p, rtc step c c' -> c.2 !! i = Some p -> I c.1 p ->
  exists p', c'.2 !! i = Some p' /\ I c'.1 p'.
Proof.
  intros Hstable Hown c c' i p Hsteps. revert p.
  induction Hsteps as [c|c1 c2 c3 Hstep _ IH]; intros p Hp HI; [eauto|].
  inversion Hstep as [m m' threads j q q' reading Hj Ha]; subst; simpl in *.
  destruct (decide (j = i)) as [->|Hne].
  - assert (q = p) as -> by congruence. apply (IH q').
    + apply list_lookup_insert_eq. by eapply lookup_lt_Some.
    + by eapply Hown.
  - apply (IH p).
    + by rewrite list_lookup_insert_ne.
    + eapply Hstable; [done|]. by eapply action_grows.
Qed.

(** Programs that reach their result within [n] actions, whatever the answers. *)
Fixpoint within {A} (n : nat) (p : prog A) {struct p} : Prop :=
  match p with
  | Done _ => True
  | Load _ k => match n with O => False | S n' => forall v, within n' (k v) end
  | CompareExchange _ _ k => match n with O => False | S n' => forall b, within n' (k b) end
  | ReadClock k => match n with O => False | S n' => forall r, within n' (k r) end
  end.

Lemma within_mono {A} (p : prog A) n n' : (n <= n')%nat -> within n p -> within n' p.
Proof.
  revert n n'. induction p as [a|s k IH|s r k IH|k IH]; intros n n' Hn; simpl; [done|..];
    (destruct n as [|n]; [done|]); (destruct n' as [|n']; [lia|]); intros Hk x;
    (apply (IH x n n'); [lia|apply Hk]).
Qed.

Lemma within_bind {A B} (p : prog A) (f : A -> prog B) n n' :
  within n p -> (forall a, within n' (f a)) -> within (n + n') (p ≫= f).
Proof.
  intros Hp Hf. revert n Hp. change (p ≫= f) with (prog_bind p f).
  induction p as [a|s k IH|s r k IH|k IH]; intros n Hp; simpl in *;
    [apply (within_mono _ n'); [lia|apply Hf]|..]; (destruct n as [|n]; [done|]); simpl; auto.
Qed.

(** ** Finishing *)
Definition finish_invariant (s : nat) (requested : StoredTerminal) (m : Store)
    (p : prog CancellationOutcome) : Prop :=
  (exists v, m !! s = Some v) /\
  (p = CancellationState_finish s requested \/
   exists v, m !! s = Some v /\ v <> stored_pending /\
     (p = CancellationState_outcome s \/ p = Done (stored_outcome v))).

Lemma finish_stable s requested m m' p :
  finish_invariant s requested m p -> grows m m' -> finish_invariant s requested m' p.
Proof.
  intros [[w Hw] H] Hg. split.
  - destruct (Hg s w Hw) as (w' & Hw' & _). eauto.
  - destruct H as [->|(v & Hv & Hne & H)]; [by left|]. right.
    destruct (Hg s v Hv) as (v' & Hv' & E). specialize (E Hne). subst v'. eauto.
Qed.

Lemma finish_own s requested reading m p m' p' :
  requested <> stored_pending -> finish_invariant s requested m p ->
  action reading m p = Some (m', p') -> finish_invariant s requested m' p'.
Proof.
  intros Hr [_ [->|(v & Hv & Hne & [->| ->])]]; simpl; [..|done].
  - destruct (m !! s) as [v|] eqn:Hv; simpl; [|done].
    case_bool_decide as Hp; intros [= <- <-].
    + split; [exists requested; apply lookup_insert_eq|]. right. exists requested.
      rewrite lookup_insert_eq. auto.
    + split; [eauto|]. right. exists v. auto.
  - rewrite Hv. simpl. intros [= <- <-]. split; [eauto|]. right. eauto 6.
Qed.

(** ** Token chains *)
Inductive token_of : CancellationToken -> list nat -> Prop :=
  | token_root s : token_of (CancellationSource_token s) [state_ s]
  | token_derived t chain c t' :
      token_of t chain -> CancellationToken_child t c = Ret (Ok t') -> token_of t' (c :: chain).

Lemma copy_states_run n index parent child :
  (index + n <= length parent)%nat -> (S index + n <= length child)%nat ->
  copy_states n index parent child =
    Ret (take (S index) child ++ take n (drop index parent) ++ drop (S index + n) child).
Proof.
  revert index child. induction n as [|n IH]; intros index child Hp Hc; simpl copy_states.
  { rewrite Nat.add_0_r. simpl app. by rewrite take_drop. }
  destruct (lookup_lt_is_Some_2 parent index) as [p Hpi]; [lia|]. rewrite Hpi.
  destruct (Nat.ltb_spec (S index) (length child)); [|lia].
  rewrite IH by (rewrite ?length_insert; lia). f_equal.
  rewrite (take_S_r (<[S index:=p]> child) (S index) p) by (apply list_lookup_insert_eq; lia).
  rewrite take_insert_ge, drop_insert_lt by lia. rewrite (drop_S parent p index Hpi).
  rewrite <- app_assoc. simpl. do 3 f_equal. f_equal. lia.
Qed.

Record token_wf (t : CancellationToken) (chain : list nat) : Prop := {
  wf_count : state_count_ t = Z.of_nat (length chain);
  wf_bound : (1 <= length chain <= 9)%nat;
  wf_array : states_ t = (Some <$> chain) ++ replicate (9 - length chain) None;
  wf_distinct : NoDup chain
}.

Lemma token_wf_states t chain : token_wf t chain -> token_states t = Some <$> chain.
Proof.
  intros [Hc _ Ha _]. unfold token_states. rewrite Hc, Ha, Nat2Z.id.
  apply take_app_length'. by rewrite length_fmap.
Qed.

Definition child_result (t : CancellationToken) (chain : list nat) (c : nat) : Result CancellationToken :=
  if decide (c ∈ chain) then
    Err (core_error invalid_state "cancellation parent cycle is not allowed")
  else if decide (8 < length chain)%nat then
    Err (core_error invalid_range "cancellation parent depth exceeds 8")
  else Ok (MkCancellationToken ((Some <$> c :: chain) ++ replicate (8 - length chain) None)
             (Z.of_nat (S (length chain)))).

Lemma child_run t chain c :
  token_wf t chain -> CancellationToken_child t c = Ret (child_result t chain c).
Proof.
  intros Hwf. unfold CancellationToken_child, child_result. rewrite (token_wf_states t chain Hwf).
  destruct Hwf as [Hc Hb Ha _].
  assert (Some c ∈ Some <$> chain <-> c ∈ chain) as Hin
    by (rewrite list_elem_of_fmap; split; [by intros (x & [= <-] & Hx)|eauto]).
  destruct (decide (c ∈ chain)) as [H1|H1]; [by rewrite bool_decide_true by tauto|].
  rewrite bool_decide_false by tauto. rewrite Hc. unfold maximum_parent_depth.
  destruct (decide (8 < length chain)%nat), (Z.ltb_spec 8 (Z.of_nat (length chain))); try lia; [done|].
  rewrite Nat2Z.id, Ha.
  rewrite copy_states_run; rewrite ?length_app, ?length_fmap, ?length_replicate; simpl; try lia.
  do 3 f_equal.
  - rewrite drop_0, take_app_length' by (by rewrite length_fmap). f_equal.
    f_equal. change ([None; None; None; None; None; None; None; None]) with (replicate 8 (@None nat)).
    rewrite drop_replicate. f_equal.
  - rewrite cast_in_range; [lia|unfold int_type_ok; cbn; lia|cbn; lia].
Qed.

Lemma token_of_wf t chain : token_of t chain -> token_wf t chain.
Proof.
  induction 1 as [s|t chain c t' _ IH Hc]; [split; simpl; [done|lia|done|apply NoDup_singleton]|].
  rewrite (child_run t chain c IH) in Hc. injection Hc as Hc. unfold child_result in Hc.
  destruct (decide (c ∈ chain)); [done|]. destruct (decide (8 < length chain)%nat); [done|].
  injection Hc as <-. destruct IH as [_ Hb _ Hd].
  split; simpl; [done|lia|done|]. by apply list.NoDup_cons.
Qed.

Definition is_cancelled_value (v : StoredTerminal) : bool :=
  CancellationOutcome_is_cancelled (stored_outcome v).

Lemma not_pending_terminal v :
  CancellationOutcome_is_terminal (stored_outcome v) = true <-> v <> stored_pending.
Proof. destruct v; vm_compute; split; congruence. Qed.

(** Where a thread that asks a token for its outcome can be. *)
Inductive token_progress (m0 m : Store) (own : nat) (parents : list nat) :
    prog (outcome CancellationOutcome) -> Prop :=
  | token_start :
      token_progress m0 m own parents
        (own_outcome ← CancellationState_outcome own;
         if CancellationOutcome_is_terminal own_outcome then Done (Ret own_outcome)
         else inherited_loop own_outcome (Some <$> parents))
  | token_scan before rest :
      parents = before ++ rest -> (forall v, m0 !! own = Some v -> v = stored_pending) ->
      (forall s v, s ∈ before -> m0 !! s = Some v -> is_cancelled_value v = false) ->
      token_progress m0 m own parents (inherited_loop (stored_outcome stored_pending) (Some <$> rest))
  | token_result s v :
      s ∈ own :: parents -> m !! s = Some v -> v <> stored_pending ->
      (s = own \/ (forall w, m0 !! own = Some w -> w = stored_pending) /\ is_cancelled_value v = true) ->
      token_progress m0 m own parents (Done (Ret (stored_outcome v))).

Lemma token_progress_stable m0 m m' own parents p :
  token_progress m0 m own parents p -> grows m m' -> token_progress m0 m' own parents p.
Proof.
  intros [|before rest -> H1 H2|s v Hs Hv Hne H1] Hg; [constructor|by econstructor|].
  destruct (Hg s v Hv) as (v' & Hv' & E). specialize (E Hne). subst v'. by econstructor.
Qed.

Lemma token_progress_own m0 m own parents p reading m' p' :
  grows m0 m -> token_progress m0 m own parents p -> action reading m p = Some (m', p') ->
  token_progress m0 m' own parents p'.
Proof.
  intros Hg H Ha. inversion H as [Hp|before rest Hsplit H1 H2 Hp|s v Hs Hv Hne H1 Hp]; subst p.
  - simpl in Ha. destruct (m !! own) as [v|] eqn:Hv; simpl in Ha; [|done].
    injection Ha as <- <-. destruct (decide (v = stored_pending)) as [->|Hne]; simpl.
    + apply (token_scan m0 m own parents []); [done|..].
      * intros w Hw. destruct (Hg own w Hw) as (w' & Hw' & E).
        destruct (decide (w = stored_pending)) as [->|Hwp]; [done|].
        specialize (E Hwp). congruence.
      * intros s v Hs. by apply elem_of_nil in Hs.
    + rewrite (proj2 (not_pending_terminal v) Hne).
      apply (token_result m0 m own parents own); auto. apply elem_of_cons. auto.
  - destruct rest as [|s rest]; simpl in Ha; [done|].
    destruct (m !! s) as [v|] eqn:Hv; simpl in Ha; [|done]. injection Ha as <- <-.
    fold (is_cancelled_value v). destruct (is_cancelled_value v) eqn:Hc.
    + apply (token_result m0 m own parents s); auto.
      * rewrite Hsplit. apply elem_of_cons. right. apply elem_of_app. right. apply elem_of_cons. auto.
      * by intros ->.
    + apply (token_scan m0 m own parents (before ++ [s])); [by rewrite <- app_assoc|done|].
      intros s' v' [Hs'|Hs']%elem_of_app Hv'; [eauto|].
      apply list_elem_of_singleton in Hs' as ->. destruct (Hg s v' Hv') as (v'' & Hv'' & E).
      destruct (decide (v' = stored_pending)) as [->|Hne]; [done|].
      specialize (E Hne). congruence.
  - done.
Qed.

Lemma inherited_loop_within own states : within (length states) (inherited_loop own (Some <$> states)).
Proof.
  induction states as [|s states IH]; simpl; [done|]. intros v.
  by destruct (CancellationOutcome_is_cancelled (stored_outcome v)).
Qed.

Lemma token_outcome_eq t own parents :
  token_of t (own :: parents) ->
  CancellationToken_outcome t =
    (own_outcome ← CancellationState_outcome own;
     if CancellationOutcome_is_terminal own_outcome then Done (Ret own_outcome)
     else inherited_loop own_outcome (Some <$> parents)).
Proof.
  intros Ht%token_of_wf. unfold CancellationToken_outcome.
  rewrite (token_wf_states _ _ Ht). destruct Ht as [_ _ -> _]. simpl. by rewrite drop_0.
Qed.

(** ** Properties *)

(** C4: whatever other threads do, every call of [finish] on one cancellation state returns the
    same terminal outcome, the one the state keeps for good: the first to finish wins, later
    ones and the winner all observe its decision, and each call takes two atomic actions. *)
Theorem finish_agreement {threads threads' : list (prog CancellationOutcome)} (m m' : Store)
    (i s : nat) (requested v0 : StoredTerminal) (o : CancellationOutcome) :
  requested <> stored_pending -> m !! s = Some v0 ->
  threads !! i = Some (CancellationState_finish s requested) ->
  rtc step (m, threads) (m', threads') -> threads' !! i = Some (Done o) ->
  (exists v, m' !! s = Some v /\ v <> stored_pending /\ o = stored_outcome v /\
     (v0 <> stored_pending -> v = v0)) /\
  (forall m'' threads'', rtc step (m', threads') (m'', threads'') ->
     m'' !! s = m' !! s /\
     forall j req' o', threads !! j = Some (CancellationState_finish s req') ->
       req' <> stored_pending -> threads'' !! j = Some (Done o') -> o' = o) /\
  within 2 (CancellationState_finish s requested).
Proof.
  intros Hr Hm Hi Hrun Hdone.
  assert (Hfin : forall j req' mm tt oo, req' <> stored_pending ->
    threads !! j = Some (CancellationState_finish s req') -> rtc step (m, threads) (mm, tt) ->
    tt !! j = Some (Done oo) ->
    exists v, mm !! s = Some v /\ v <> stored_pending /\ oo = stored_outcome v).
  { intros j req' mm tt oo Hreq Hj Hsteps Hoo.
    destruct (pool_invariant (finish_invariant s req') (finish_stable s req')
      (fun rd a p b p' => finish_own s req' rd a p b p' Hreq) _ _ j _ Hsteps Hj)
      as (p & Hp & _ & Hcase); [split; [eauto|by left]|].
    simpl in Hp. rewrite Hoo in Hp. injection Hp as <-.
    destruct Hcase as [Hd|(v & Hv & Hne & [Hd|Hd])]; [discriminate Hd|discriminate Hd|].
    exists v. split; [done|]. split; [done|]. congruence. }
  assert (Hgrow : forall c c' : Store * list (prog CancellationOutcome), rtc step c c' -> grows c.1 c'.1).
  { induction 1 as [|x y z Hxy _ IH]; [done|]. transitivity y.1; [|done].
    inversion Hxy; subst; simpl. by eapply action_grows. }
  destruct (Hfin i requested m' threads' o Hr Hi Hrun Hdone) as (v & Hv & Hne & Ho).
  split; [|split].
  - exists v. split; [done|]. split; [done|]. split; [done|]. intros Hv0.
    destruct (Hgrow _ _ Hrun s v0 Hm) as (v' & Hv' & E). specialize (E Hv0). simpl in Hv'. congruence.
  - intros m'' threads'' Hrun'. destruct (Hgrow _ _ Hrun' s v Hv) as (v'' & Hv'' & E).
    specialize (E Hne). subst v''. simpl in Hv''. split; [congruence|].
    intros j req' o' Hj Hreq Ho'.
    destruct (Hfin j req' m'' threads'' o' Hreq Hj ltac:(by etrans) Ho') as (w & Hw & _ & ->).
    congruence.
  - intros []; simpl; done.
Qed.

(** The run of two finishers: the first wins, both see its decision. *)
Definition race_store : Store := {[ 0%nat := stored_pending ]}.
Definition race_threads : list (prog CancellationOutcome) :=
  [CancellationSource_complete (MkCancellationSource 0); CancellationSource_cancel (MkCancellationSource 0)].

Lemma race_run :
  rtc step (race_store, race_threads)
    (<[0%nat := stored_completed]> race_store,
     [Done (stored_outcome stored_completed); Done (stored_outcome stored_completed)]).
Proof.
  eapply rtc_l; [eapply (step_thread _ _ _ 0%nat _ _ (Ok 0)); reflexivity|].
  eapply rtc_l; [eapply (step_thread _ _ _ 1%nat _ _ (Ok 0)); reflexivity|].
  eapply rtc_l; [eapply (step_thread _ _ _ 1%nat _ _ (Ok 0)); reflexivity|].
  eapply rtc_l; [eapply (step_thread _ _ _ 0%nat _ _ (Ok 0)); reflexivity|].
  apply rtc_refl.
Qed.

Lemma finish_agreement_witness :
  exists v, (<[0%nat := stored_completed]> race_store) !! 0%nat = Some v /\ v <> stored_pending /\
    stored_outcome stored_completed = stored_outcome v.
Proof.
  destruct (finish_agreement race_store (<[0%nat := stored_completed]> race_store) 1 0
    stored_cancelled_explicit stored_pending (stored_outcome stored_completed)
    ltac:(discriminate) eq_refl (threads := race_threads) eq_refl race_run eq_refl)
    as [(v & H1 & H2 & H3 & _) _].
  exists v. split; [exact H1|]. split; [exact H2|exact H3].
Defined.

(** A token's outcome, read while other threads run: a terminal answer is the decision of
    its own state or a cancellation of an ancestor; a pending answer means that when the call
    began its own state was pending and no ancestor was cancelled; a decided own state is
    always the answer; and a call takes at most nine atomic actions. *)
Theorem token_outcome_inherits {threads threads' : list (prog (outcome CancellationOutcome))}
    (m m' : Store) (t : CancellationToken) (own : nat) (parents : list nat) (i : nat)
    (r : outcome CancellationOutcome) :
  token_of t (own :: parents) -> threads !! i = Some (CancellationToken_outcome t) ->
  rtc step (m, threads) (m', threads') -> threads' !! i = Some (Done r) ->
  (exists o, r = Ret o /\
    (CancellationOutcome_is_terminal o = true ->
       exists s v, s ∈ own :: parents /\ m' !! s = Some v /\ o = stored_outcome v /\
         (s = own \/ CancellationOutcome_is_cancelled o = true)) /\
    (CancellationOutcome_is_terminal o = false ->
       (forall v, m !! own = Some v -> v = stored_pending) /\
       forall s v, s ∈ parents -> m !! s = Some v ->
         CancellationOutcome_is_cancelled (stored_outcome v) = false) /\
    (forall v, m !! own = Some v -> v <> stored_pending -> o = stored_outcome v)) /\
  within 9 (CancellationToken_outcome t).
Proof.
  intros Ht Hi Hrun Hdone. pose proof (token_of_wf _ _ Ht) as Hwf.
  rewrite (token_outcome_eq t own parents Ht) in *. split.
  - destruct (pool_invariant (fun mm p => grows m mm /\ token_progress m mm own parents p)) with
      (c := (m, threads)) (c' := (m', threads')) (i := i)
      (p := (own_outcome ← CancellationState_outcome own;
         if CancellationOutcome_is_terminal own_outcome then Done (Ret own_outcome)
         else inherited_loop own_outcome (Some <$> parents))) as (p & Hp & Hg & Hprog).
    + intros mm mm' p [Hg Hp] Hgm. split; [by etrans|]. by eapply token_progress_stable.
    + intros rd mm p mm' p' [Hg Hp] Ha. split; [etrans; [done|by eapply action_grows]|].
      by eapply token_progress_own.
    + done.
    + done.
    + split; [done|constructor].
    + simpl in *. rewrite Hdone in Hp. injection Hp as <-.
      inversion Hprog as [He|before rest Hsplit H1 H2 He|s v Hs Hv Hne H1 He].
      * destruct rest as [|s rest]; [|done]. injection He as <-. rewrite app_nil_r in Hsplit.
        subst before. eexists. split; [done|]. split; [done|]. split; [|naive_solver].
        intros _. split; [done|]. exact H2.
      * exists (stored_outcome v). split; [done|]. split; [|split].
        -- intros _. exists s, v. do 3 (split; [done|]). destruct H1 as [?|[_ ?]]; [by left|by right].
        -- rewrite (proj2 (not_pending_terminal v) Hne). done.
        -- intros w Hw Hwne. destruct H1 as [->|[H1 _]]; [|by destruct Hwne; apply H1].
           destruct (Hg own w Hw) as (w' & Hw' & E). specialize (E Hwne). congruence.
  - destruct Hwf as [_ Hb _ _]. simpl in Hb. intros v. simpl.
    destruct (CancellationOutcome_is_terminal (stored_outcome v)); [done|].
    apply (within_mono _ (length parents)); [lia|]. apply inherited_loop_within.
Qed.

(** A child of a cancelled parent. *)
Definition family_store : Store := <[1%nat := stored_cancelled_explicit]> {[ 0%nat := stored_pending ]}.
Definition child_token : CancellationToken :=
  MkCancellationToken ((Some <$> [0%nat; 1%nat]) ++ replicate 7 None) 2.

Lemma token_outcome_inherits_witness :
  exists o, Ret (stored_outcome stored_cancelled_explicit) = Ret o /\
    forall v, family_store !! 0%nat = Some v -> v <> stored_pending -> o = stored_outcome v.
Proof.
  assert (token_of child_token [0%nat; 1%nat]) as Ht.
  { apply (token_derived (CancellationSource_token (MkCancellationSource 1)) [1%nat]);
      [exact (token_root (MkCancellationSource 1))|reflexivity]. }
  assert (rtc step (family_store, [CancellationToken_outcome child_token])
    (family_store, [Done (Ret (stored_outcome stored_cancelled_explicit))])) as Hrun.
  { eapply rtc_l; [eapply (step_thread _ _ _ 0%nat _ _ (Ok 0)); reflexivity|].
    eapply rtc_l; [eapply (step_thread _ _ _ 0%nat _ _ (Ok 0)); reflexivity|].
    apply rtc_refl. }
  destruct (token_outcome_inherits family_store family_store child_token 0 [1%nat] 0
    (Ret (stored_outcome stored_cancelled_explicit)) Ht
    (threads := [CancellationToken_outcome child_token])
    (threads' := [Done (Ret (stored_outcome stored_cancelled_explicit))]) eq_refl Hrun eq_refl)
    as [(o & H1 & _ & _ & H4) _].
  exists o. split; [exact H1|exact H4].
Defined.

(** Deriving a child token always returns: it fails exactly for a state already in the
    chain or a chain of nine states, and otherwise the child's chain is the new state
    followed by the parent's; so every token holds between one and nine distinct states. *)
Theorem token_child_spec (t : CancellationToken) (chain : list nat) (c : nat) :
  token_of t chain ->
  (1 <= length chain <= 9)%nat /\ NoDup chain /\ token_states t = Some <$> chain /\
  exists r, CancellationToken_child t c = Ret r /\
    (has_value r = true <-> (c ∉ chain) /\ (length chain <= 8)%nat) /\
    (forall t', r = Ok t' -> token_states t' = Some <$> c :: chain).
Proof.
  intros Ht. pose proof (token_of_wf _ _ Ht) as Hwf.
  split; [by destruct Hwf|]. split; [by destruct Hwf|]. split; [by apply token_wf_states|].
  pose proof (child_run t chain c Hwf) as Hc.
  exists (child_result t chain c). split; [done|]. split.
  - unfold child_result. destruct (decide (c ∈ chain)), (decide (8 < length chain)%nat); simpl;
      split; try done; try (intros _; split; [done|lia]); intros [? ?]; try done; lia.
  - intros t' Ht'. rewrite Ht' in Hc. apply token_wf_states, token_of_wf.
    by eapply token_derived.
Qed.

Lemma token_child_spec_witness :
  exists r, CancellationToken_child (CancellationSource_token (MkCancellationSource 3)) 4 = Ret r /\
    forall t', r = Ok t' -> token_states t' = [Some 4%nat; Some 3%nat].
Proof.
  destruct (proj2 (proj2 (proj2 (token_child_spec (CancellationSource_token (MkCancellationSource 3))
    [3%nat] 4 (token_root (MkCancellationSource 3)))))) as (r & H1 & _ & H3).
  exists r. split; [exact H1|exact H3].
Defined.

(** A deadline after a duration is the exact sum or the overflow error, never a wrapped
    instant; a child deadline has expired exactly when its parent or the requested one has;
    and an operation is refused exactly from its deadline on. *)
Theorem deadline_spec (now duration later : Z) (parent requested : Deadline) :
  0 <= now <= u64_max -> 0 <= duration <= u64_max ->
  Deadline_after now duration =
    (if now + duration <=? u64_max then Ok (MkDeadline (now + duration)) else Err deadline_overflow_error) /\
  Deadline_expired (Deadline_child parent requested) later =
    Deadline_expired parent later || Deadline_expired requested later /\
  (Deadline_require_not_expired parent later = Ok tt <-> later < instant_ parent) /\
  Deadline_require_not_expired_operations parent (Ok later) = Deadline_require_not_expired parent later.
Proof.
  intros Hn Hd. split; [|split; [|split]].
  - unfold Deadline_after. rewrite (u64_small (u64_max - now)) by lia.
    destruct (Z.ltb_spec (u64_max - now) duration), (Z.leb_spec (now + duration) u64_max);
      try lia; [done|]. by rewrite u64_small by lia.
  - unfold Deadline_expired, Deadline_child. simpl.
    destruct (Z.ltb_spec (instant_ parent) (instant_ requested)), (Z.leb_spec (instant_ parent) later),
      (Z.leb_spec (instant_ requested) later); simpl; try done; lia.
  - unfold Deadline_require_not_expired, Deadline_expired.
    destruct (Z.leb_spec (instant_ parent) later); split; intros; try done; lia.
  - done.
Qed.

Lemma deadline_spec_witness :
  Deadline_after 5 10 = Ok (MkDeadline 15) /\ Deadline_after u64_max 1 = Err deadline_overflow_error.
Proof.
  split.
  - exact (proj1 (deadline_spec 5 10 0 (MkDeadline 0) (MkDeadline 0)
      ltac:(unfold u64_max; lia) ltac:(unfold u64_max; lia))).
  - exact (proj1 (deadline_spec u64_max 1 0 (MkDeadline 0) (MkDeadline 0)
      ltac:(unfold u64_max; lia) ltac:(unfold u64_max; lia))).
Defined.

(** Expiring a source by its deadline: a decided state is returned without reading the
    clock; a failing clock changes nothing and its error is returned; a pending state is
    cancelled with the deadline cause exactly when the reading has reached the deadline. *)
Theorem cancel_if_expired_spec (m : Store) (s : CancellationSource) (d : Deadline) (v : StoredTerminal)
    (reading : Result Z) :
  m !! state_ s = Some v ->
  let p := CancellationSource_cancel_if_expired_operations s d in
  (v <> stored_pending -> run 4 [] m p = Some (m, Ok (stored_outcome v))) /\
  (v = stored_pending ->
     run 4 [reading] m p =
       Some (match reading with
             | Err e => (m, Err e)
             | Ok now =>
                 if instant_ d <=? now
                 then (<[state_ s := stored_cancelled_deadline]> m,
                       Ok (MkCancellationOutcome cancelled deadline_expired))
                 else (m, Ok (MkCancellationOutcome pending cause_none))
             end) /\
     forall now, reading = Ok now ->
       run 4 [] m (o ← CancellationSource_cancel_if_expired s d now; Done (Ok o)) = run 4 [reading] m p).
Proof.
  intros Hv. split.
  - intros Hne. simpl. rewrite Hv. simpl. by rewrite (proj2 (not_pending_terminal v) Hne).
  - intros ->.
    assert (run 4 [reading] m (CancellationSource_cancel_if_expired_operations s d) =
       Some (match reading with
             | Err e => (m, Err e)
             | Ok now =>
                 if instant_ d <=? now
                 then (<[state_ s := stored_cancelled_deadline]> m,
                       Ok (MkCancellationOutcome cancelled deadline_expired))
                 else (m, Ok (MkCancellationOutcome pending cause_none))
             end)) as E.
    { simpl. rewrite Hv. simpl. destruct reading as [now|e]; simpl; [|done].
      destruct (instant_ d <=? now); simpl; rewrite Hv; simpl; [by rewrite lookup_insert_eq|done]. }
    split; [exact E|]. intros now ->. rewrite E.
    unfold CancellationSource_cancel_if_expired, Deadline_expired.
    destruct (instant_ d <=? now); simpl; rewrite Hv; simpl; [by rewrite lookup_insert_eq|done].
Qed.

Lemma cancel_if_expired_spec_witness :
  run 4 [Ok 20] race_store
    (CancellationSource_cancel_if_expired_operations (MkCancellationSource 0) (MkDeadline 15)) =
  Some (<[0%nat := stored_cancelled_deadline]> race_store,
        Ok (MkCancellationOutcome cancelled deadline_expired)).
Proof.
  exact (proj1 (proj2 (cancel_if_expired_spec race_store (MkCancellationSource 0) (MkDeadline 15)
    stored_pending (Ok 20) eq_refl) eq_refl)).
Defined.
