(* ===== verification/BudgetClient.v ===== *)
(** * What the containers use of the memory budget

    The buffer and the arena keep one reservation as a member, fill it from
    [reserve_for_allocation], grow it, and clear it.  This file gives these member
    operations the form their owners use: the budget tree stays consistent, every other
    reservation is untouched, and a refused operation changes nothing. *)
From S2P Require Import Prelude Contract CheckedArithmetic Identifiers MemoryBudget BudgetInvariant.
From S2P Require Import MemoryBudgetSpec.
From Stdlib Require Import ZArith Lia.
From stdpp Require Import base numbers list gmap option.

Set Default Goal Selector "!".
#[local] Open Scope Z_scope.

(** [reservation_ = std::move( *reservation)], the local result then going out of scope. *)
Definition MemoryReservation_adopt (h : Heap) (this other : nat) : outcome Heap :=
  h ← MemoryReservation_move_assign h this other;
  MemoryReservation_destroy h other.

(** [reservation_ = MemoryReservation{}] *)
Definition MemoryReservation_clear (h : Heap) (this : nat) : outcome Heap :=
  let '(temporary, h) := MemoryReservation_construct h in
  MemoryReservation_adopt h this temporary.

(** The reservation of a container that has charged [bytes] to [budget]. *)
Definition charge_of (budget : nat) (bytes : Z) : MemoryReservation :=
  if bytes =? 0 then inactive_reservation else MkMemoryReservation (Some budget) bytes.

(** Owners keep their budgets: the same objects with the same worker and limit. *)
Definition budgets_kept (h h' : Heap) : Prop :=
  forall i b, budgets h !! i = Some b -> exists b', budgets h' !! i = Some b' /\
    mb_worker b' = mb_worker b /\ mb_limit b' = mb_limit b.

#[export] Instance budgets_kept_preorder : PreOrder budgets_kept.
Proof.
  split.
  - intros h i b Hb. eauto.
  - intros h1 h2 h3 H1 H2 i b Hb. destruct (H1 i b Hb) as (b2 & Hb2 & ? & ?).
    destruct (H2 i b2 Hb2) as (b3 & Hb3 & ? & ?). exists b3. split; [done|]. split; congruence.
Qed.

Lemma budgets_kept_eq h h' : budgets h' = budgets h -> budgets_kept h h'.
Proof. intros E i b Hb. rewrite E. eauto. Qed.

Lemma budgets_kept_update h h' a d e :
  budgets h' = update_chain (adjust d e) (budgets h) a -> budgets_kept h h'.
Proof.
  intros E i b Hb. rewrite E, lookup_update_chain, Hb. simpl.
  destruct (decide (i ∈ chain (budgets h) a)); eauto.
Qed.

(** The heap a member operation leaves behind: [rid] holds [r], the rest is as before. *)
Record heap_set (h h' : Heap) (rid : nat) (r : MemoryReservation) : Prop := {
  hs_inv : Inv h';
  hs_kept : budgets_kept h h';
  hs_res : reservations h' = <[rid := r]> (reservations h) }.

Lemma heap_set_lookup h h' rid r : heap_set h h' rid r -> reservations h' !! rid = Some r.
Proof. intros [_ _ ->]. apply lookup_insert_eq. Qed.

Lemma heap_set_id h rid r : Inv h -> reservations h !! rid = Some r -> heap_set h h rid r.
Proof. intros HI Hr. split; [done|done|by rewrite insert_id]. Qed.

Lemma adopt_run h this other o :
  Inv h -> reservations h !! this = Some inactive_reservation ->
  reservations h !! other = Some o -> this <> other ->
  exists h', MemoryReservation_adopt h this other = Ret h' /\ Inv h' /\ budgets h' = budgets h /\
    reservations h' = delete other (<[this := o]> (reservations h)).
Proof.
  intros HI Ht Ho Hne. unfold MemoryReservation_adopt.
  destruct (move_assign_run h this other _ o HI Ht Ho) as (h1 & -> & HI1 & Hh1). simpl.
  specialize (Hh1 Hne). subst h1. unfold after_release in *. simpl in *.
  destruct (destroy_run _ other inactive_reservation HI1) as [-> HI2].
  { simpl. apply lookup_insert_eq. }
  eexists. split; [done|]. split; [done|]. split; [done|]. simpl. by rewrite delete_insert_eq.
Qed.

(** Charging and acquiring into an empty member. *)
Lemma charge_member_run {X : Type} h rid this b worker bytes
    (acquire : X -> outcome (Result unit * X)) x x' acquisition :
  Inv h -> budgets h !! this = Some b -> 0 < bytes <= size_max ->
  reservations h !! rid = Some inactive_reservation ->
  acquire x = Ret (acquisition, x') ->
  (exists e, MemoryBudget_reserve_for_allocation h this worker bytes acquire x = Ret (Err e, h, x)) \/
  (exists h', match acquisition with
     | Err e =>
         MemoryBudget_reserve_for_allocation h this worker bytes acquire x = Ret (Err e, h', x') /\
         heap_set h h' rid inactive_reservation /\ budgets h' = budgets h
     | Ok _ =>
         value_ (mb_worker b) = value_ worker /\
         exists temporary h1,
           MemoryBudget_reserve_for_allocation h this worker bytes acquire x = Ret (Ok temporary, h1, x') /\
           MemoryReservation_adopt h1 rid temporary = Ret h' /\
           heap_set h h' rid (charge_of this bytes)
     end).
Proof.
  intros HI Hb Hn Hr Hacq.
  assert (Hsz : is_size bytes) by (unfold is_size; lia).
  destruct (reserve_run h this b worker bytes HI Hb Hsz) as [(Hw & Hroom & _)|(e & He & _)].
  2: { left. exists e. unfold MemoryBudget_reserve_for_allocation. by rewrite He. }
  right. destruct (reserve_for_allocation_run h this b worker bytes acquire x x' acquisition
    HI Hb Hsz Hw Hroom Hacq) as (h1 & Hrun & HI1 & Hh1).
  destruct acquisition as [[]|e].
  - destruct Hh1 as [Hb1 Hr1].
    assert (Hlt : (rid < next_object h)%nat).
    { destruct (Nat.lt_ge_cases rid (next_object h)); [done|].
      destruct (inv_fresh h HI rid); [done|congruence]. }
    destruct (inv_fresh h HI (S (next_object h)) ltac:(lia)) as [_ Hnone].
    destruct (adopt_run h1 rid (S (next_object h)) (MkMemoryReservation (Some this) bytes))
      as (h2 & Hadopt & HI2 & Hb2 & Hr2); [done| | |lia|].
    { rewrite Hr1. by rewrite lookup_insert_ne by lia. }
    { rewrite Hr1. apply lookup_insert_eq. }
    exists h2. split; [done|]. exists (S (next_object h)), h1. split; [done|]. split; [done|].
    split; [done| |].
    + apply (budgets_kept_update h h2 this bytes 1). by rewrite Hb2.
    + rewrite Hr2, Hr1. rewrite insert_insert_ne by lia. rewrite delete_insert_id.
      * unfold charge_of. by rewrite (proj2 (Z.eqb_neq _ _)) by lia.
      * by rewrite lookup_insert_ne by lia.
  - exists h1. split; [done|]. destruct Hh1 as [Hb1 Hr1]. split; [|done].
    split; [done|by apply budgets_kept_eq|]. by rewrite Hr1, insert_id.
Qed.

(** Growing an active member, and giving the growth back. *)
Lemma grow_member_run h rid this b worker bytes additional :
  Inv h -> budgets h !! this = Some b -> 0 < bytes -> is_size additional -> 0 < additional ->
  reservations h !! rid = Some (charge_of this bytes) ->
  (exists e, MemoryReservation_grow h rid worker additional = Ret (Err e, h)) \/
  (exists h', MemoryReservation_grow h rid worker additional = Ret (Ok tt, h') /\
     heap_set h h' rid (charge_of this (bytes + additional)) /\
     MemoryReservation_shrink h' rid worker additional = Ret (Ok tt, h)).
Proof.
  intros HI Hb Hpos Hadd Hpa Hr.
  assert (Hc : charge_of this bytes = MkMemoryReservation (Some this) bytes)
    by (unfold charge_of; by rewrite (proj2 (Z.eqb_neq _ _)) by lia).
  rewrite Hc in Hr.
  destruct (reservation_grow_run h rid _ this b worker additional HI Hr eq_refl Hb Hadd)
    as [(Hrun & Hroom & Hw)|(e & He & _)]; [|eauto].
  right. exists (after_resize h rid this (MkMemoryReservation (Some this) bytes) additional).
  split; [done|].
  assert (HI' : Inv (after_resize h rid this (MkMemoryReservation (Some this) bytes) additional)).
  { apply (Inv_after_resize h rid this b); try done; simpl; [unfold is_size in Hadd; lia|].
    intros i bi Hi Hbi. by apply (Hroom i bi). }
  split.
  - split; [done| |].
    + by apply (budgets_kept_update _ _ this additional 0).
    + unfold after_resize, charge_of. simpl. by rewrite (proj2 (Z.eqb_neq _ _)) by lia.
  - set (h' := after_resize _ _ _ _ _) in *.
    assert (Hr' : reservations h' !! rid = Some (MkMemoryReservation (Some this) (bytes + additional)))
      by apply lookup_insert_eq.
    assert (exists b', budgets h' !! this = Some b' /\ mb_worker b' = mb_worker b) as (b' & Hb' & Hw').
    { destruct (budgets_kept_update h h' this additional 0 eq_refl this b Hb) as (b' & ? & ? & _). eauto. }
    destruct (reservation_shrink_run h' rid _ this b' worker additional HI' Hr' eq_refl Hb' Hadd)
      as [(-> & _)|(e & _ & Hbad)].
    + do 2 f_equal. unfold h', after_resize. destruct h as [bs rs nx]. simpl in *. f_equal.
      * rewrite update_chain_compose; [|by destruct HI|intros ?; apply adjust_parent].
        rewrite (update_chain_ext _ (fun b => b)); [apply update_chain_id|].
        intros i bi _ _. destruct bi. unfold adjust, set_charged. simpl. f_equal; lia.
      * rewrite insert_insert_eq, insert_id; [done|]. rewrite Hr. f_equal. f_equal. lia.
    + exfalso. simpl in Hbad. assert (value_ (mb_worker b') = value_ worker) as Hv by congruence.
      specialize (Hbad Hv). lia.
Qed.

(** Clearing a member, active or not. *)
Lemma clear_member_run h rid r :
  Inv h -> reservations h !! rid = Some r ->
  exists h', MemoryReservation_clear h rid = Ret h' /\ heap_set h h' rid inactive_reservation.
Proof.
  intros HI Hr. unfold MemoryReservation_clear, MemoryReservation_adopt. simpl.
  pose proof (Inv_construct_reservation h HI) as HI1. simpl in HI1.
  assert (Hlt : (rid < next_object h)%nat).
  { destruct (Nat.lt_ge_cases rid (next_object h)); [done|].
    destruct (inv_fresh h HI rid); [done|congruence]. }
  destruct (inv_fresh h HI (next_object h) (le_n _)) as [_ Hnone].
  set (h1 := MkHeap _ _ _) in *.
  assert (Hr1 : reservations h1 !! rid = Some r)
    by (simpl; rewrite lookup_insert_ne by lia; done).
  destruct (move_assign_run h1 rid (next_object h) r inactive_reservation HI1 Hr1)
    as (h2 & -> & HI2 & Hh2); [apply lookup_insert_eq|]. simpl.
  specialize (Hh2 ltac:(lia)).
  assert (Hr2 : reservations h2 !! next_object h = Some inactive_reservation)
    by (subst h2; apply lookup_insert_eq).
  destruct (destroy_run h2 (next_object h) _ HI2 Hr2) as [-> HI3].
  eexists. split; [done|]. split; [done| |].
  - unfold after_destroy, after_release at 1. subst h2. simpl. unfold after_release.
    destruct (mr_budget r) as [a|]; [|by apply budgets_kept_eq].
    by apply (budgets_kept_update _ _ a (- mr_bytes r) (-1)).
  - unfold after_destroy, after_release at 1. subst h2. simpl. rewrite delete_insert_eq.
    unfold after_release. destruct (mr_budget r) as [a|]; simpl.
    + rewrite insert_insert_eq, delete_insert_ne by lia. by rewrite delete_insert_id.
    + rewrite delete_insert_ne by lia. by rewrite delete_insert_id.
Qed.
