(* ===== verification/BlockSource.v ===== *)
(** * Block sources

    What a block source promises the containers that use it, as a class: the blocks handed
    out are valid, pairwise disjoint ranges of memory, and neither acquiring nor releasing
    disturbs the blocks still held.  [bump_source], which hands out a fresh allocation each
    time, shows that the promise can be kept. *)
From S2P Require Import Prelude Contract CheckedArithmetic Views BinaryEnvelope.
From Stdlib Require Import ZArith Lia String.
From stdpp Require Import base numbers list gmap option.

Set Default Goal Selector "!".
#[local] Open Scope Z_scope.

(** Two spans share no byte. *)
Definition disjoint_spans (a b : span) : Prop :=
  forall pa pb, span_data a = Some pa -> span_data b = Some pb ->
    ptr_block pa <> ptr_block pb \/ ptr_offset pa + span_size a <= ptr_offset pb \/
    ptr_offset pb + span_size b <= ptr_offset pa.

(** A span with its place in memory: block [p], whose contents are [l]. *)
Record located (m : Memory) (v : span) (p : pointer) (l : list Z) : Prop := {
  loc_data : span_data v = Some p;
  loc_block : m !! ptr_block p = Some l;
  loc_low : 0 <= ptr_offset p;
  loc_size : 0 <= span_size v <= size_max;
  loc_high : ptr_offset p + span_size v <= Z.of_nat (length l) }.

Definition same_bytes (bs : list span) (m m' : Memory) : Prop :=
  forall b, b ∈ bs -> span_bytes m' b = span_bytes m b.

(** Writing [bytes] at [offset] of the block of [p]. *)
Definition write_at (m : Memory) (p : pointer) (l : list Z) (offset : Z) (bytes : list Z) : Memory :=
  <[ptr_block p := list_inserts (Z.to_nat offset) bytes l]> m.

Class LawfulSource {C : Type} (acquire : C -> Memory -> Z -> Result MutableByteView * (C * Memory))
    (release : C -> Memory -> MutableByteView -> C * Memory)
    (held : C -> Memory -> list span -> Prop) : Prop := {
  held_perm c m bs bs' : bs ≡ₚ bs' -> held c m bs -> held c m bs';
  held_located c m v bs : held c m (v :: bs) -> exists p l, located m v p l;
  held_disjoint c m v bs : held c m (v :: bs) -> Forall (disjoint_spans v) bs;
  held_write c m v bs p l offset bytes :
    held c m (v :: bs) -> located m v p l -> ptr_offset p <= offset ->
    offset + Z.of_nat (length bytes) <= ptr_offset p + span_size v ->
    held c (write_at m p l offset bytes) (v :: bs);
  acquire_ok c m bs n v c' m' :
    held c m bs -> acquire c m n = (Ok v, (c', m')) -> held c' m' (v :: bs) /\ same_bytes bs m m';
  acquire_error c m bs n e c' m' :
    held c m bs -> acquire c m n = (Err e, (c', m')) -> held c' m' bs /\ same_bytes bs m m';
  release_ok c m v bs c' m' :
    held c m (v :: bs) -> release c m v = (c', m') -> held c' m' bs /\ same_bytes bs m m' }.

(** ** Ranges of memory *)
Lemma located_bytes m v p l :
  located m v p l ->
  span_bytes m v = Some (take (Z.to_nat (span_size v)) (drop (Z.to_nat (ptr_offset p)) l)).
Proof.
  intros [Hd Hb Hlo Hs Hh]. unfold span_bytes.
  destruct (Z.eqb_spec (span_size v) 0) as [->|Hne]; [by rewrite take_0|].
  rewrite Hd. simpl. rewrite Hb. simpl.
  destruct (_ && _) eqn:E; [done|]. rewrite !andb_false_iff, !Z.leb_gt, Z.ltb_ge in E. lia.
Qed.

Lemma located_subspan m v p l offset n :
  located m v p l -> 0 <= offset -> 0 <= n -> offset + n <= span_size v ->
  located m (subspan v offset n) (ptr_add p offset) l.
Proof.
  intros [Hd Hb Hlo Hs Hh] Ho Hn Hr. split; simpl; [by rewrite Hd|done|lia|lia|lia].
Qed.

Lemma write_at_located m v p l offset bytes :
  located m v p l -> located (write_at m p l offset bytes) v p
    (list_inserts (Z.to_nat offset) bytes l).
Proof.
  intros [Hd Hb Hlo Hs Hh]. split; try done; [apply lookup_insert_eq|by rewrite length_inserts].
Qed.

Lemma write_at_disjoint m v p l b offset bytes :
  located m v p l -> ptr_offset p <= offset ->
  offset + Z.of_nat (length bytes) <= ptr_offset p + span_size v ->
  disjoint_spans v b -> 0 <= span_size b ->
  span_bytes (write_at m p l offset bytes) b = span_bytes m b.
Proof.
  intros [Hd Hb Hlo Hs Hh] Ho Hr Hdis Hsb. unfold span_bytes, write_at.
  destruct (Z.eqb_spec (span_size b) 0) as [|Hne]; [done|].
  destruct (span_data b) as [pb|] eqn:Epb; simpl; [|done].
  destruct (decide (ptr_block p = ptr_block pb)) as [e|Hnb]; [|by rewrite lookup_insert_ne].
  rewrite <- e, lookup_insert_eq, Hb. simpl. rewrite length_inserts.
  destruct (_ && _) eqn:E; [|done]. rewrite !andb_true_iff, !Z.leb_le, Z.ltb_lt in E. f_equal.
  destruct (Hdis p pb Hd Epb) as [?|Hrange]; [done|].
  apply list_eq. intros i. destruct (decide (i < Z.to_nat (span_size b))%nat).
  - rewrite !lookup_take_lt, !lookup_drop by done. destruct Hrange as [Hlt|Hge].
    + rewrite list_lookup_inserts_ge by lia. done.
    + rewrite list_lookup_inserts_lt by lia. done.
  - rewrite !lookup_take_ge by lia. done.
Qed.

(** A write inside one held block leaves the bytes of the others. *)
Lemma write_keeps_others {C : Type} acquire release held
    `{!@LawfulSource C acquire release held} c m v bs p l offset bytes :
  held c m (v :: bs) -> located m v p l -> ptr_offset p <= offset ->
  offset + Z.of_nat (length bytes) <= ptr_offset p + span_size v ->
  same_bytes bs m (write_at m p l offset bytes).
Proof.
  intros Hheld Hl Ho Hr b Hin. pose proof (held_disjoint _ _ _ _ Hheld) as Hdis.
  rewrite Forall_forall in Hdis.
  assert (exists pb lb, located m b pb lb) as (pb & lb & Hlb).
  { apply list_elem_of_split in Hin as (o1 & o2 & ->).
    eapply (held_located c _ b (v :: o1 ++ o2)). eapply held_perm; [|done]. solve_Permutation. }
  apply (write_at_disjoint _ v); try done.
  - apply Hdis. by apply list_elem_of_In.
  - destruct Hlb. lia.
Qed.

(** ** A source that hands out fresh allocations

    The context counts the allocations made; released blocks are dropped from memory. *)
Definition bump_acquire (c : nat) (m : Memory) (n : Z) : Result MutableByteView * (nat * Memory) :=
  if (0 <=? n) && (n <=? size_max) then
    (Ok (MkSpan (Some (MkPointer c 0)) n), (S c, <[c := replicate (Z.to_nat n) 0]> m))
  else (Err (core_error exhaustion "no block of that size"), (c, m)).

Definition bump_release (c : nat) (m : Memory) (v : MutableByteView) : nat * Memory :=
  match span_data v with Some p => (c, delete (ptr_block p) m) | None => (c, m) end.

Definition bump_held (c : nat) (m : Memory) (bs : list span) : Prop :=
  (forall b, b ∈ bs -> exists p l, located m b p l /\ (ptr_block p < c)%nat) /\
  (forall i j a b pa pb, bs !! i = Some a -> bs !! j = Some b -> i <> j ->
     span_data a = Some pa -> span_data b = Some pb -> ptr_block pa <> ptr_block pb).

Lemma bump_held_tail c m v bs : bump_held c m (v :: bs) -> bump_held c m bs.
Proof.
  intros [H1 H2]. split.
  - intros b Hb. apply H1. apply elem_of_cons. auto.
  - intros i j a b pa pb Hi Hj Hne. apply (H2 (S i) (S j)); [done|done|lia].
Qed.

Lemma bump_held_other c m v bs b pv pb :
  bump_held c m (v :: bs) -> b ∈ bs -> span_data v = Some pv -> span_data b = Some pb ->
  ptr_block pv <> ptr_block pb.
Proof.
  intros [_ H2] Hb Hv Hpb. apply list_elem_of_lookup in Hb as [i Hi].
  by apply (H2 0%nat (S i) v b).
Qed.

Lemma bump_held_grow c c' m m' bs :
  bump_held c m bs -> (c <= c')%nat ->
  (forall b p l, b ∈ bs -> located m b p l -> exists l', located m' b p l') ->
  bump_held c' m' bs.
Proof.
  intros [H1 H2] Hc Hl. split; [|done]. intros b Hb. destruct (H1 b Hb) as (p & l & Hpl & Hlt).
  destruct (Hl b p l Hb Hpl) as [l' Hl']. exists p, l'. split; [done|lia].
Qed.

Lemma same_bytes_other_block (bs : list span) (m m' : Memory) (k : nat) :
  (forall i, i <> k -> m' !! i = m !! i) ->
  (forall b p, b ∈ bs -> span_data b = Some p -> ptr_block p <> k) -> same_bytes bs m m'.
Proof.
  intros Hm Hb b Hin. unfold span_bytes. destruct (span_size b =? 0); [done|].
  destruct (span_data b) as [p|] eqn:E; simpl; [|done]. rewrite Hm; [done|]. by apply (Hb b).
Qed.

(** A fresh block is disjoint from those held, which keep their bytes. *)
Lemma bump_acquire_held c m bs n v c' m' :
  bump_held c m bs -> bump_acquire c m n = (Ok v, (c', m')) ->
  bump_held c' m' (v :: bs) /\ same_bytes bs m m'.
Proof.
  intros H. unfold bump_acquire.
  destruct (_ && _) eqn:E; [|done]. rewrite andb_true_iff, !Z.leb_le in E. intros [= <- <- <-].
  assert (Hfresh : forall b p, b ∈ bs -> span_data b = Some p -> ptr_block p <> c).
  { intros b p Hb Hp. destruct H as [H1 _]. destruct (H1 b Hb) as (q & l & [Hd _ _ _ _] & Hlt).
    rewrite Hd in Hp. injection Hp as <-. lia. }
  split.
  + split.
    * intros b [->|Hb]%elem_of_cons.
      -- exists (MkPointer c 0), (replicate (Z.to_nat n) 0). split; [|simpl; lia].
         split; simpl; [done|apply lookup_insert_eq|lia|lia|rewrite length_replicate; lia].
      -- destruct H as [H1 _]. destruct (H1 b Hb) as (p & l & Hpl & Hlt). exists p, l.
         split; [|lia]. destruct Hpl as [Hd Hbl Hlo Hs Hh]. split; try done.
         rewrite lookup_insert_ne; [done|lia].
    * intros [|i] [|j] a b pa pb Hi Hj Hne Ha Hb; simpl in *; try done.
      -- injection Hi as <-. injection Ha as <-. simpl.
         apply list_elem_of_lookup_2 in Hj. specialize (Hfresh b pb Hj Hb). congruence.
      -- injection Hj as <-. injection Hb as <-. simpl.
         apply list_elem_of_lookup_2 in Hi. by apply (Hfresh a).
      -- destruct H as [_ H2]. apply (H2 i j a b); auto.
  + apply (same_bytes_other_block bs m _ c); [|done]. intros i Hi. by rewrite lookup_insert_ne.
Qed.

#[export] Instance bump_lawful : LawfulSource bump_acquire bump_release bump_held.
Proof.
  split.
  - intros c m bs bs' Hp [H1 H2]. split.
    + intros b Hb. apply H1. by rewrite Hp.
    + symmetry in Hp. apply Permutation_inj in Hp as (_ & f & Hinj & Hf).
      intros i j a b pa pb Hi Hj Hne. apply (H2 (f i) (f j) a b); [by rewrite <- Hf..|].
      intros E. by apply Hne, Hinj.
  - intros c m v bs [H1 _]. destruct (H1 v) as (p & l & Hpl & _); [apply elem_of_cons; by left|]. eauto.
  - intros c m v bs H. apply Forall_forall. intros b Hb%list_elem_of_In pa pb Ha Hpb. left.
    by eapply (bump_held_other c m v bs b).
  - intros c m v bs p l offset bytes H Hpl Ho Hr. apply (bump_held_grow c c m); [done|lia|].
    intros b p' l' Hb [Hd Hbl Hlo Hs Hh]. unfold write_at.
    destruct (decide (ptr_block p = ptr_block p')) as [e|Hne].
    + rewrite e. destruct Hpl as [_ Hbp _ _ _]. rewrite e, Hbl in Hbp. injection Hbp as ->.
      exists (list_inserts (Z.to_nat offset) bytes l).
      split; try done; [apply lookup_insert_eq|by rewrite length_inserts].
    + exists l'. split; try done. by rewrite lookup_insert_ne.
  - intros c m bs n v c' m' H. by apply bump_acquire_held.
  - intros c m bs n e c' m' H. unfold bump_acquire. destruct (_ && _); [done|].
    intros [= _ <- <-]. split; [done|]. by intros b _.
  - intros c m v bs c' m' H. unfold bump_release.
    pose proof (proj1 H v ltac:(apply elem_of_cons; auto)) as (p & l & [Hd _ _ _ _] & _).
    rewrite Hd. intros [= <- <-]. split.
    + apply (bump_held_grow c c m); [by eapply bump_held_tail|lia|].
      intros b q k Hb [Hdb Hbl Hlo Hs Hh]. exists k. split; try done.
      rewrite lookup_delete_ne; [done|]. by eapply (bump_held_other c m v bs b).
    + apply (same_bytes_other_block bs m _ (ptr_block p)).
      * intros i Hi. by rewrite lookup_delete_ne.
      * intros b q Hb Hq Heq. by eapply (bump_held_other c m v bs b p q).
Qed.
