(* ===== verification/BoundedBuffer.v ===== *)
(** * The bounded buffer

    Models the class [BoundedBuffer] of [src/core/contract/laghu/core/bounded_buffer.hpp].
    The buffer object, the budget heap, the memory and the block source's own state make up
    what an operation acts on; the block source is the caller's code and is a parameter.
    Pointers to functions may be null, and calling a null one is undefined. *)
From S2P Require Import Prelude Contract CheckedArithmetic Identifiers MemoryBudget BudgetClient Views.
From Stdlib Require Import ZArith Lia String.
From stdpp Require Import base numbers list gmap option.

Set Default Goal Selector "!".
#[local] Open Scope Z_scope.

(** [Acquire] and [Release] act on the source's context and on memory. *)
Record BufferBlockSource (S : Type) := MkBufferBlockSource {
  bs_acquire : option (S -> Memory -> Z -> Result MutableByteView * (S * Memory));
  bs_release : option (S -> Memory -> MutableByteView -> S * Memory) }.
Arguments MkBufferBlockSource {S}.
Arguments bs_acquire {S}.
Arguments bs_release {S}.

(** What the code reaches besides the buffer object. *)
Record World (S : Type) := MkWorld { w_heap : Heap; w_context : S; w_memory : Memory }.
Arguments MkWorld {S}.
Arguments w_heap {S}.
Arguments w_context {S}.
Arguments w_memory {S}.

Record BoundedBuffer (S : Type) := MkBoundedBuffer {
  bb_worker : WorkerId;
  bb_budget : option nat;
  bb_source : BufferBlockSource S;
  bb_block : MutableByteView;
  bb_storage : MutableByteView;
  bb_reservation : nat;
  bb_initial_capacity : Z;
  bb_maximum_capacity : Z;
  bb_capacity : Z;
  bb_read_offset : Z;
  bb_write_offset : Z }.
Arguments MkBoundedBuffer {S}.
Arguments bb_worker {S}.
Arguments bb_budget {S}.
Arguments bb_source {S}.
Arguments bb_block {S}.
Arguments bb_storage {S}.
Arguments bb_reservation {S}.
Arguments bb_initial_capacity {S}.
Arguments bb_maximum_capacity {S}.
Arguments bb_capacity {S}.
Arguments bb_read_offset {S}.
Arguments bb_write_offset {S}.

Definition buffer_worker_error : Error :=
  core_error invalid_state "bounded buffer accessed by a different worker".
Definition buffer_exhausted_error : Error :=
  core_error exhaustion "bounded buffer maximum capacity is exhausted".
Definition buffer_source_error : Error :=
  core_error invalid_input "bounded buffer has an invalid block source or capacity".
Definition buffer_small_block_error : Error :=
  core_error exhaustion "bounded buffer block source is too small".
Definition buffer_commit_error : Error :=
  core_error invalid_range "bounded buffer commit exceeds writable region".
Definition buffer_consume_error : Error :=
  core_error invalid_range "bounded buffer consume exceeds readable region".

(** The doubling loop of [next_capacity]; the arena has the same loop. *)
Fixpoint doubling_loop (fuel : nat) (target required maximum_capacity : Z) : outcome Z :=
  if target <? required then
    match fuel with
    | O => Stop OutOfFuel
    | S fuel' =>
        if u64 (maximum_capacity - target) <? target
        then doubling_loop fuel' maximum_capacity required maximum_capacity
        else doubling_loop fuel' (u64 (target * 2)) required maximum_capacity
    end
  else Ret target.

(** Sixty-five turns suffice: a nonzero 64-bit target can double at most 64 times. *)
Definition doubling_fuel : nat := 65.

Section buffer.
Context {S : Type}.
Implicit Types (this : BoundedBuffer S) (w : World S).

Definition BoundedBuffer_construct (worker : WorkerId) (budget : nat) (source : BufferBlockSource S)
    (reservation : nat) (initial_capacity maximum_capacity : Z) : BoundedBuffer S :=
  MkBoundedBuffer worker (Some budget) source empty_span empty_span reservation
    initial_capacity maximum_capacity 0 0 0.

Definition BoundedBuffer_size this : Z := u64 (bb_write_offset this - bb_read_offset this).
Definition BoundedBuffer_empty this : bool := BoundedBuffer_size this =? 0.

Definition set_offsets this (read write : Z) : BoundedBuffer S :=
  MkBoundedBuffer (bb_worker this) (bb_budget this) (bb_source this) (bb_block this) (bb_storage this)
    (bb_reservation this) (bb_initial_capacity this) (bb_maximum_capacity this) (bb_capacity this)
    read write.
Definition set_storage this (block storage : MutableByteView) (capacity read write : Z) : BoundedBuffer S :=
  MkBoundedBuffer (bb_worker this) (bb_budget this) (bb_source this) block storage
    (bb_reservation this) (bb_initial_capacity this) (bb_maximum_capacity this) capacity read write.
Definition set_heap w (h : Heap) : World S := MkWorld h (w_context w) (w_memory w).
Definition set_memory w (m : Memory) : World S := MkWorld (w_heap w) (w_context w) m.

Definition BoundedBuffer_require_worker this (worker : WorkerId) : Result unit :=
  if negb (value_ worker =? value_ (bb_worker this)) then Err buffer_worker_error else Ok tt.

Definition BoundedBuffer_validate_source this : Result unit :=
  if bool_decide (bb_budget this = None) ||
     match bs_acquire (bb_source this) with None => true | Some _ => false end ||
     match bs_release (bb_source this) with None => true | Some _ => false end ||
     (bb_initial_capacity this =? 0) || (bb_maximum_capacity this <? bb_initial_capacity this)
  then Err buffer_source_error else Ok tt.

Definition BoundedBuffer_next_capacity this (required : Z) : outcome Z :=
  doubling_loop doubling_fuel
    (if bb_capacity this =? 0 then bb_initial_capacity this else bb_capacity this)
    required (bb_maximum_capacity this).

(** [source_.acquire(...)] and [source_.release(...)] *)
Definition call_acquire (source : BufferBlockSource S) (x : S * Memory) (minimum : Z) :
    outcome (Result MutableByteView * (S * Memory)) :=
  match bs_acquire source with
  | None => Stop Undefined
  | Some f => Ret (f (fst x) (snd x) minimum)
  end.
Definition call_release (source : BufferBlockSource S) (x : S * Memory) (block : MutableByteView) :
    outcome (S * Memory) :=
  match bs_release source with
  | None => Stop Undefined
  | Some f => Ret (f (fst x) (snd x) block)
  end.

(** The acquisition passed to [reserve_for_allocation]: it stores the block in [acquired]. *)
Definition acquire_block (source : BufferBlockSource S) (target : Z)
    (x : MutableByteView * (S * Memory)) : outcome (Result unit * (MutableByteView * (S * Memory))) :=
  '(block, c) ← call_acquire source (snd x) target;
  match block with
  | Err e => Ret (Err e, (fst x, c))
  | Ok block =>
      if span_size block <? target then
        c ← call_release source c block;
        Ret (Err buffer_small_block_error, (fst x, c))
      else Ret (Ok tt, (block, c))
  end.

Definition copy_bytes (n : Z) (m : Memory) (output input : option pointer) : outcome Memory :=
  match output, input with
  | Some o, Some i => copy_loop (Z.to_nat n) m o i
  | _, _ => Stop Undefined
  end.

(** The branch of [grow] that replaces a block already held. *)
Definition grow_replace this w (worker : WorkerId) (target : Z) :
    outcome (Result unit * (BoundedBuffer S * World S)) :=
  let additional := u64 (target - bb_capacity this) in
  '(charged, h) ← MemoryReservation_grow (w_heap w) (bb_reservation this) worker additional;
  match charged with
  | Err e => Ret (Err e, (this, set_heap w h))
  | Ok _ =>
    '(block, c) ← call_acquire (bb_source this) (w_context w, w_memory w) target;
    match block with
    | Err e =>
        '(rollback, h) ← MemoryReservation_shrink h (bb_reservation this) worker additional;
        match rollback with
        | Err _ => Stop Terminated
        | Ok _ => Ret (Err e, (this, MkWorld h (fst c) (snd c)))
        end
    | Ok block =>
      if span_size block <? target then
        c ← call_release (bb_source this) c block;
        '(rollback, h) ← MemoryReservation_shrink h (bb_reservation this) worker additional;
        match rollback with
        | Err _ => Stop Terminated
        | Ok _ => Ret (Err buffer_small_block_error, (this, MkWorld h (fst c) (snd c)))
        end
      else
      match MutableByteView_slice block 0 target with
      | Err e =>
          c ← call_release (bb_source this) c block;
          '(rollback, h) ← MemoryReservation_shrink h (bb_reservation this) worker additional;
          match rollback with
          | Err _ => Stop Terminated
          | Ok _ => Ret (Err e, (this, MkWorld h (fst c) (snd c)))
          end
      | Ok replacement =>
          let readable_bytes := BoundedBuffer_size this in
          m ← (if readable_bytes =? 0 then Ret (snd c) else
                 copy_bytes readable_bytes (snd c) (span_data replacement)
                   (span_data (subspan (bb_storage this) (bb_read_offset this) readable_bytes)));
          c ← call_release (bb_source this) (fst c, m) (bb_block this);
          Ret (Ok tt, (set_storage this block replacement target 0 readable_bytes,
                       MkWorld h (fst c) (snd c)))
      end
    end
  end.

(** The branch of [grow] that acquires the first block. *)
Definition grow_first this w (worker : WorkerId) (target : Z) :
    outcome (Result unit * (BoundedBuffer S * World S)) :=
  match bb_budget this with
  | None => Stop Undefined
  | Some budget =>
    '(reservation, h, x) ← MemoryBudget_reserve_for_allocation (w_heap w) budget worker target
        (acquire_block (bb_source this) target) (empty_span, (w_context w, w_memory w));
    let '(acquired, c) := x in
    match reservation with
    | Err e => Ret (Err e, (this, MkWorld h (fst c) (snd c)))
    | Ok reservation =>
      match MutableByteView_slice acquired 0 target with
      | Err e =>
          c ← call_release (bb_source this) c acquired;
          h ← MemoryReservation_destroy h reservation;
          Ret (Err e, (this, MkWorld h (fst c) (snd c)))
      | Ok storage =>
          h ← MemoryReservation_adopt h (bb_reservation this) reservation;
          Ret (Ok tt, (set_storage this acquired storage target (bb_read_offset this) (bb_write_offset this),
                       MkWorld h (fst c) (snd c)))
      end
    end
  end.

Definition BoundedBuffer_grow this w (worker : WorkerId) (required : Z) :
    outcome (Result unit * (BoundedBuffer S * World S)) :=
  TRY _ ⇐ BoundedBuffer_validate_source this AT (this, w) IN
  (target ← BoundedBuffer_next_capacity this required;
   if bb_maximum_capacity this <? target then Ret (Err buffer_exhausted_error, (this, w)) else
   r ← the_reservation (w_heap w) (bb_reservation this);
   if negb (MemoryReservation_is_active r) then grow_first this w worker target
   else grow_replace this w worker target).

Definition BoundedBuffer_compact_unchecked this w : outcome (BoundedBuffer S * World S) :=
  if bb_read_offset this =? 0 then Ret (this, w) else
  let readable_bytes := BoundedBuffer_size this in
  m ← (if readable_bytes =? 0 then Ret (w_memory w) else
         copy_bytes readable_bytes (w_memory w) (span_data (bb_storage this))
           (span_data (subspan (bb_storage this) (bb_read_offset this) readable_bytes)));
  Ret (set_offsets this 0 readable_bytes, set_memory w m).

Definition BoundedBuffer_release_unchecked this w : outcome (BoundedBuffer S * World S) :=
  c ← (if bool_decide (span_data (bb_block this) = None) then Ret (w_context w, w_memory w)
       else call_release (bb_source this) (w_context w, w_memory w) (bb_block this));
  h ← MemoryReservation_clear (w_heap w) (bb_reservation this);
  Ret (set_storage this empty_span empty_span 0 0 0, MkWorld h (fst c) (snd c)).

(** ** Public operations *)
Definition BoundedBuffer_readable this (worker : WorkerId) : Result ByteView :=
  _ ← BoundedBuffer_require_worker this worker;
  ByteView_from (subspan (bb_storage this) (bb_read_offset this) (BoundedBuffer_size this)).

Definition BoundedBuffer_writable this (worker : WorkerId) : Result MutableByteView :=
  _ ← BoundedBuffer_require_worker this worker;
  MutableByteView_from (subspan (bb_storage this) (bb_write_offset this)
                          (u64 (bb_capacity this - bb_write_offset this))).

Definition BoundedBuffer_reserve this w (worker : WorkerId) (minimum_writable : Z) :
    outcome (Result MutableByteView * (BoundedBuffer S * World S)) :=
  TRY _ ⇐ BoundedBuffer_require_worker this worker AT (this, w) IN
  if minimum_writable =? 0 then Ret (Ok empty_span, (this, w)) else
  if u64 (bb_maximum_capacity this - BoundedBuffer_size this) <? minimum_writable
  then Ret (Err buffer_exhausted_error, (this, w)) else
  '(prepared, (this, w)) ←
    (if u64 (bb_capacity this - bb_write_offset this) <? minimum_writable then
       TRY required ⇐ checked_add size_t (BoundedBuffer_size this) minimum_writable AT (this, w) IN
       if required <=? bb_capacity this then
         s ← BoundedBuffer_compact_unchecked this w; Ret (Ok tt, s)
       else BoundedBuffer_grow this w worker required
     else Ret (Ok tt, (this, w)));
  TRY _ ⇐ prepared AT (this, w) IN
  match MutableByteView_from (subspan (bb_storage this) (bb_write_offset this) minimum_writable) with
  | Err _ => Stop Terminated
  | Ok region => Ret (Ok region, (this, w))
  end.

Definition BoundedBuffer_commit this (worker : WorkerId) (bytes : Z) : Result unit * BoundedBuffer S :=
  match BoundedBuffer_require_worker this worker with
  | Err e => (Err e, this)
  | Ok _ =>
      if u64 (bb_capacity this - bb_write_offset this) <? bytes then (Err buffer_commit_error, this) else
      match checked_add size_t (bb_write_offset this) bytes with
      | Err e => (Err e, this)
      | Ok next => (Ok tt, set_offsets this (bb_read_offset this) next)
      end
  end.

Definition BoundedBuffer_consume this (worker : WorkerId) (bytes : Z) : Result unit * BoundedBuffer S :=
  match BoundedBuffer_require_worker this worker with
  | Err e => (Err e, this)
  | Ok _ =>
      if BoundedBuffer_size this <? bytes then (Err buffer_consume_error, this) else
      match checked_add size_t (bb_read_offset this) bytes with
      | Err e => (Err e, this)
      | Ok next =>
          if next =? bb_write_offset this then (Ok tt, set_offsets this 0 0)
          else (Ok tt, set_offsets this next (bb_write_offset this))
      end
  end.

Definition BoundedBuffer_compact this w (worker : WorkerId) :
    outcome (Result unit * (BoundedBuffer S * World S)) :=
  TRY _ ⇐ BoundedBuffer_require_worker this worker AT (this, w) IN
  (s ← BoundedBuffer_compact_unchecked this w; Ret (Ok tt, s)).

Definition BoundedBuffer_release this w (worker : WorkerId) :
    outcome (Result unit * (BoundedBuffer S * World S)) :=
  TRY _ ⇐ BoundedBuffer_require_worker this worker AT (this, w) IN
  (s ← BoundedBuffer_release_unchecked this w; Ret (Ok tt, s)).

(** The destructor; the member reservation, already inactive, is destroyed after it. *)
Definition BoundedBuffer_destroy this w : outcome (World S) :=
  '(this, w) ← BoundedBuffer_release_unchecked this w;
  h ← MemoryReservation_destroy (w_heap w) (bb_reservation this);
  Ret (set_heap w h).
End buffer.
