(* ===== verification/BufferSpec.v ===== *)
(** * The bounded buffer is a byte queue

    The abstract state of a buffer is a queue: the committed bytes not yet consumed, and
    the pending bytes of the writable region.  [buffer_inv] relates a buffer, the budget
    heap, the memory and the source's context to that queue, and every operation is shown
    to keep the relation, to charge the budget exactly the capacity in use, and to leave
    everything else in memory and in the heap alone. *)
From S2P Require Import Prelude Contract CheckedArithmetic Identifiers MemoryBudget BudgetInvariant.
From S2P Require Import MemoryBudgetSpec BudgetClient Views BinaryEnvelope BlockSource BoundedBuffer.
From Stdlib Require Import ZArith Lia String.
From stdpp Require Import base numbers list gmap option.

Set Default Goal Selector "!".
#[local] Open Scope Z_scope.

(** ** The doubling loop *)
Lemma doubling_run fuel target required maximum :
  1 <= target <= maximum -> required <= maximum <= size_max ->
  required <= target * 2 ^ Z.of_nat fuel ->
  exists t, doubling_loop fuel target required maximum = Ret t /\
    target <= t <= maximum /\ required <= t /\ (required <= target -> t = target).
Proof.
  revert target. induction fuel as [|fuel IH]; intros target Ht Hr Hf; simpl.
  - destruct (Z.ltb_spec target required); [simpl in Hf; lia|]. exists target. lia || auto with lia.
  - destruct (Z.ltb_spec target required) as [Hlt|Hge]; [|exists target; auto with lia].
    rewrite (u64_small (maximum - target)) by (unfold size_max in *; lia).
    destruct (Z.ltb_spec (maximum - target) target) as [Hover|Hdbl].
    + assert (doubling_loop fuel maximum required maximum = Ret maximum) as ->.
      { destruct fuel; simpl; destruct (Z.ltb_spec maximum required); try lia; done. }
      exists maximum. split; [done|]. lia.
    + rewrite (u64_small (target * 2)) by (unfold size_max in *; lia).
      rewrite Nat2Z.inj_succ, Z.pow_succ_r in Hf by lia.
      destruct (IH (target * 2)) as (t & Ht1 & Ht2 & Ht3 & _); [lia|lia|lia|].
      exists t. split; [done|]. lia.
Qed.

Lemma doubling_enough target required maximum :
  1 <= target <= maximum -> required <= maximum <= size_max ->
  exists t, doubling_loop doubling_fuel target required maximum = Ret t /\
    target <= t <= maximum /\ required <= t /\ (required <= target -> t = target).
Proof.
  intros Ht Hr. apply doubling_run; [done|done|]. unfold doubling_fuel.
  change (2 ^ Z.of_nat 65) with 36893488147419103232. unfold size_max, u64_max in Hr. lia.
Qed.

(** ** Slices of a block *)
Definition slice (l : list Z) (offset n : Z) : list Z :=
  take (Z.to_nat n) (drop (Z.to_nat offset) l).

Lemma slice_length l offset n :
  0 <= offset -> 0 <= n -> offset + n <= Z.of_nat (length l) -> Z.of_nat (length (slice l offset n)) = n.
Proof. intros. unfold slice. rewrite length_take, length_drop. lia. Qed.

Lemma slice_slice l o n o' n' :
  0 <= o -> 0 <= o' -> 0 <= n' -> o' + n' <= n -> slice (slice l o n) o' n' = slice l (o + o') n'.
Proof.
  intros. unfold slice. rewrite skipn_firstn_comm, drop_drop, take_take. f_equal; [lia|]. f_equal. lia.
Qed.

Lemma slice_app l o n n' : 0 <= o -> 0 <= n -> 0 <= n' -> slice l o n ++ slice l (o + n) n' = slice l o (n + n').
Proof.
  intros. unfold slice.
  replace (Z.to_nat (o + n)) with (Z.to_nat o + Z.to_nat n)%nat by lia.
  rewrite <- drop_drop. generalize (drop (Z.to_nat o) l). intros k.
  rewrite take_take_drop. f_equal. lia.
Qed.

(** Reading inside and outside a region that was overwritten. *)
Lemma slice_inserts_same l o bytes :
  0 <= o -> o + Z.of_nat (length bytes) <= Z.of_nat (length l) ->
  slice (list_inserts (Z.to_nat o) bytes l) o (Z.of_nat (length bytes)) = bytes.
Proof.
  intros Ho Hl. unfold slice. rewrite Nat2Z.id. apply list_eq. intros i.
  destruct (decide (i < length bytes)%nat).
  - rewrite lookup_take_lt, lookup_drop by done. rewrite list_lookup_inserts by lia. f_equal. lia.
  - rewrite lookup_take_ge by lia. by rewrite lookup_ge_None_2 by lia.
Qed.

Lemma slice_inserts_other l i bytes o n :
  0 <= o -> 0 <= n -> 0 <= i -> (o + n <= i \/ i + Z.of_nat (length bytes) <= o) ->
  slice (list_inserts (Z.to_nat i) bytes l) o n = slice l o n.
Proof.
  intros Ho Hn Hi Hd. unfold slice. apply list_eq. intros k.
  destruct (decide (k < Z.to_nat n)%nat); [|by rewrite !lookup_take_ge by lia].
  rewrite !lookup_take_lt, !lookup_drop by done.
  destruct Hd; [by rewrite list_lookup_inserts_lt by lia|by rewrite list_lookup_inserts_ge by lia].
Qed.

(** Writing into a window of a list is writing into the list. *)
Lemma slice_inserts_window l o n i bytes :
  0 <= o -> 0 <= i -> i + Z.of_nat (length bytes) <= n -> o + n <= Z.of_nat (length l) ->
  slice (list_inserts (Z.to_nat (o + i)) bytes l) o n = list_inserts (Z.to_nat i) bytes (slice l o n).
Proof.
  intros Ho Hi Hb Hl. apply list_eq. intros k. unfold slice.
  destruct (decide (k < Z.to_nat n)%nat).
  - rewrite lookup_take_lt, lookup_drop by done.
    destruct (decide (k < Z.to_nat i)%nat).
    + rewrite !list_lookup_inserts_lt by lia. by rewrite lookup_take_lt, lookup_drop.
    + destruct (decide (k < Z.to_nat i + length bytes)%nat).
      * rewrite !list_lookup_inserts; rewrite ?length_take, ?length_drop; try lia. f_equal. lia.
      * rewrite !list_lookup_inserts_ge by lia. by rewrite lookup_take_lt, lookup_drop.
  - rewrite lookup_take_ge by lia. rewrite lookup_ge_None_2; [done|].
    rewrite length_inserts, length_take. lia.
Qed.

Lemma write_at_span_bytes m v p l B i bytes :
  located m v p l -> span_bytes m v = Some B -> 0 <= i -> i + Z.of_nat (length bytes) <= span_size v ->
  span_bytes (write_at m p l (ptr_offset p + i) bytes) v = Some (list_inserts (Z.to_nat i) bytes B).
Proof.
  intros Hl HB Hi Hb. rewrite (located_bytes _ _ _ _ Hl) in HB. injection HB as <-.
  pose proof (write_at_located m v p l (ptr_offset p + i) bytes Hl) as Hl'.
  rewrite (located_bytes _ _ _ _ Hl'). f_equal. destruct Hl as [_ _ Hlo Hs Hh].
  apply (slice_inserts_window l (ptr_offset p) (span_size v)); lia.
Qed.

Section buffer_spec.
Context {C : Type} (acquire : C -> Memory -> Z -> Result MutableByteView * (C * Memory)).
Context (release : C -> Memory -> MutableByteView -> C * Memory).
Context (held : C -> Memory -> list span -> Prop) `{!LawfulSource acquire release held}.
Implicit Types (this : BoundedBuffer C) (w : World C) (others : list span) (contents pending : list Z).

Definition lawful_source : BufferBlockSource C := MkBufferBlockSource (Some acquire) (Some release).

(** The block a buffer holds, with its bytes, split at the buffer's offsets. *)
Record stored this w others contents pending : Prop := {
  st_bytes : exists B, span_bytes (w_memory w) (bb_block this) = Some B /\
    contents = slice B (bb_read_offset this) (bb_write_offset this - bb_read_offset this) /\
    pending = slice B (bb_write_offset this) (bb_capacity this - bb_write_offset this);
  st_storage : bb_storage this = subspan (bb_block this) 0 (bb_capacity this);
  st_fits : bb_capacity this <= span_size (bb_block this) <= size_max;
  st_initial : 1 <= bb_initial_capacity this <= bb_maximum_capacity this;
  st_held : held (w_context w) (w_memory w) (bb_block this :: others) }.

Record empty_handed this w others contents pending : Prop := {
  eh_block : bb_block this = empty_span;
  eh_storage : bb_storage this = empty_span;
  eh_contents : contents = [] /\ pending = [];
  eh_held : held (w_context w) (w_memory w) others }.

Record buffer_inv this w others contents pending : Prop := {
  bi_heap : Inv (w_heap w);
  bi_budget : exists a b, bb_budget this = Some a /\ budgets (w_heap w) !! a = Some b /\
    reservations (w_heap w) !! bb_reservation this = Some (charge_of a (bb_capacity this));
  bi_offsets : 0 <= bb_read_offset this <= bb_write_offset this /\
    bb_write_offset this <= bb_capacity this <= bb_maximum_capacity this /\
    bb_maximum_capacity this <= size_max /\ 0 <= bb_initial_capacity this <= size_max;
  bi_source : bb_source this = lawful_source;
  bi_store : if decide (bb_capacity this = 0) then empty_handed this w others contents pending
             else stored this w others contents pending }.

(** What stays the same across an operation. *)
Record same_buffer this this' : Prop := {
  sb_worker : bb_worker this' = bb_worker this;
  sb_budget : bb_budget this' = bb_budget this;
  sb_reservation : bb_reservation this' = bb_reservation this;
  sb_initial : bb_initial_capacity this' = bb_initial_capacity this;
  sb_maximum : bb_maximum_capacity this' = bb_maximum_capacity this }.

Record frame_kept others this w w' : Prop := {
  fk_bytes : same_bytes others (w_memory w) (w_memory w');
  fk_budgets : budgets_kept (w_heap w) (w_heap w');
  fk_reservations : forall rid, rid <> bb_reservation this ->
    reservations (w_heap w') !! rid = reservations (w_heap w) !! rid }.

Lemma frame_kept_refl others this w : frame_kept others this w w.
Proof. split; [by intros b _|done|done]. Qed.

Lemma frame_kept_heap_set others this w h' c m r :
  heap_set (w_heap w) h' (bb_reservation this) r -> same_bytes others (w_memory w) m ->
  frame_kept others this w (MkWorld h' c m).
Proof.
  intros [_ Hk Hr] Hb. split; simpl; [done|done|]. intros rid Hne. rewrite Hr.
  by rewrite lookup_insert_ne.
Qed.

Lemma same_buffer_refl this : same_buffer this this.
Proof. by split. Qed.

Lemma size_exact this w others contents pending :
  buffer_inv this w others contents pending ->
  BoundedBuffer_size this = bb_write_offset this - bb_read_offset this /\
  u64 (bb_maximum_capacity this - BoundedBuffer_size this) =
    bb_maximum_capacity this - BoundedBuffer_size this /\
  u64 (bb_capacity this - bb_write_offset this) = bb_capacity this - bb_write_offset this.
Proof.
  intros [_ _ Ho _ _]. unfold BoundedBuffer_size. unfold size_max in Ho.
  rewrite (u64_small (bb_write_offset this - bb_read_offset this)) by lia.
  split; [done|]. split; apply u64_small; lia.
Qed.

Lemma queue_lengths this w others contents pending :
  buffer_inv this w others contents pending ->
  Z.of_nat (length contents) = bb_write_offset this - bb_read_offset this /\
  Z.of_nat (length pending) = bb_capacity this - bb_write_offset this.
Proof.
  intros [_ _ Ho _ Hs]. destruct (decide (bb_capacity this = 0)).
  - destruct Hs as [_ _ [-> ->] _]. simpl. lia.
  - destruct Hs as [(B & HB & -> & ->) _ Hf _ _].
    assert (Z.of_nat (length B) = span_size (bb_block this)) by (eapply span_bytes_length; [lia|done]).
    rewrite !slice_length by lia. lia.
Qed.

(** The bytes of a held block seen through the storage view. *)
Lemma storage_slice this w others contents pending offset n :
  stored this w others contents pending -> 0 <= offset -> 0 <= n -> offset + n <= bb_capacity this ->
  exists p B, span_bytes (w_memory w) (bb_block this) = Some B /\
    span_data (subspan (bb_storage this) offset n) = Some (ptr_add (ptr_add p 0) offset) /\
    span_data (bb_block this) = Some p /\
    span_bytes (w_memory w) (subspan (bb_storage this) offset n) = Some (slice B offset n).
Proof.
  intros [(B & HB & _ & _) Hst Hf _ Hh] Ho Hn Hr.
  destruct (held_located _ _ _ _ Hh) as (p & l & Hl). exists p, B.
  split; [done|]. rewrite Hst. split; [simpl; by rewrite (loc_data _ _ _ _ Hl)|].
  split; [by apply (loc_data _ _ _ _ Hl)|].
  rewrite (located_bytes _ _ _ _ Hl) in HB. injection HB as <-.
  assert (located (w_memory w) (subspan (subspan (bb_block this) 0 (bb_capacity this)) offset n)
            (ptr_add (ptr_add p 0) offset) l) as Hl'.
  { apply located_subspan; [apply located_subspan; [done|lia..]|lia..|simpl; lia]. }
  rewrite (located_bytes _ _ _ _ Hl'). simpl. f_equal. rewrite Z.add_0_r.
  symmetry. apply slice_slice; destruct Hl; lia.
Qed.

(** Copying a slice of the held block to the start of a span of the same memory. *)
Lemma copy_to_start m v p l block q k B offset n :
  located m v p l -> located m block q k -> span_bytes m block = Some B ->
  0 <= offset -> 0 <= n -> offset + n <= span_size block -> n <= span_size v ->
  (disjoint_spans v block \/ (p = q /\ l = k)) ->
  copy_bytes n m (Some (ptr_add p 0)) (Some (ptr_add (ptr_add q 0) offset)) =
    Ret (write_at m p l (ptr_offset p + 0) (slice B offset n)).
Proof.
  intros Hv Hb HB Ho Hn Hr Hfit Hd. unfold copy_bytes.
  pose proof (located_bytes _ _ _ _ Hb) as HB'. rewrite HB in HB'. injection HB' as ->.
  destruct Hv as [Hvd Hvb Hvlo Hvs Hvh]. destruct Hb as [Hbd Hbb Hblo Hbs Hbh].
  rewrite (copy_loop_run _ m (ptr_add p 0) (ptr_add (ptr_add q 0) offset) l k); simpl; try done; try lia.
  - unfold write_at. do 3 f_equal. unfold slice. rewrite Z.add_0_r.
    rewrite skipn_firstn_comm, drop_drop, take_take. f_equal; [lia|]. f_equal. lia.
  - intros Heq. destruct Hd as [Hd|[-> _]]; [|lia].
    destruct (Hd p q Hvd Hbd) as [?|[?|?]]; [done|lia|lia].
Qed.
(** [compact_unchecked] keeps the queue and makes all free space writable. *)
Lemma compact_run this w others contents pending :
  buffer_inv this w others contents pending ->
  exists this' w' pending', BoundedBuffer_compact_unchecked this w = Ret (this', w') /\
    buffer_inv this' w' others contents pending' /\ same_buffer this this' /\
    frame_kept others this w w' /\ w_heap w' = w_heap w /\
    bb_capacity this' = bb_capacity this /\
    bb_write_offset this' = Z.of_nat (length contents).
Proof.
  intros HI. pose proof HI as [Hh Hb Ho Hsrc Hs]. pose proof (size_exact _ _ _ _ _ HI) as (Hsz & _ & _).
  pose proof (queue_lengths _ _ _ _ _ HI) as (Hlc & Hlp).
  unfold BoundedBuffer_compact_unchecked. destruct (Z.eqb_spec (bb_read_offset this) 0) as [E|E].
  { exists this, w, pending. split; [done|]. split; [done|]. split; [apply same_buffer_refl|].
    split; [apply frame_kept_refl|]. split; [done|]. split; [done|]. lia. }
  destruct (decide (bb_capacity this = 0)) as [Hc|Hc]; [lia|].
  pose proof Hs as [(B & HB & Hcont & Hpend) Hst Hf Hinit Hheld].
  assert (HlB : Z.of_nat (length B) = span_size (bb_block this))
    by (eapply span_bytes_length; [lia|done]).
  destruct (held_located _ _ _ _ Hheld) as (p & l & Hl).
  rewrite Hsz.
  set (n := bb_write_offset this - bb_read_offset this) in *.
  assert (Hn : n = bb_write_offset this - bb_read_offset this) by done.
  set (bytes := slice B (bb_read_offset this) n).
  assert (Hbl : Z.of_nat (length bytes) = n) by (apply slice_length; lia).
  assert (exists m', (if n =? 0 then Ret (w_memory w) else
       copy_bytes n (w_memory w) (span_data (bb_storage this))
         (span_data (subspan (bb_storage this) (bb_read_offset this) n))) = Ret m' /\
       held (w_context w) m' (bb_block this :: others) /\
       same_bytes others (w_memory w) m' /\
       span_bytes m' (bb_block this) = Some (list_inserts 0 bytes B)) as (m' & -> & Hheld' & Hsame & HB').
  { destruct (Z.eqb_spec n 0) as [En|En].
    { exists (w_memory w). split; [done|]. split; [done|]. split; [by intros b _|].
      assert (bytes = []) as -> by (apply length_zero_iff_nil; lia). done. }
    rewrite Hst. cbn [subspan span_data]. rewrite (loc_data _ _ _ _ Hl). cbn [fmap option_fmap option_map].
    rewrite (copy_to_start _ (bb_block this) p l (bb_block this) p l B) by (done || lia || auto).
    fold bytes. eexists. split; [done|]. split; [|split].
    - apply held_write; try done; lia.
    - eapply write_keeps_others; try done; lia.
    - rewrite (write_at_span_bytes _ _ _ _ B 0); try done; lia. }
  cbn [mbind outcome_bind].
  exists (set_offsets this 0 n), (set_memory w m'),
    (slice (list_inserts 0 bytes B) n (bb_capacity this - n)).
  split; [done|]. split.
  - split; simpl; [done|done|lia|done|]. rewrite decide_False by done.
    split; simpl; try done. exists (list_inserts 0 bytes B). split; [done|]. split; [|done].
    rewrite Hcont, Z.sub_0_r. fold n bytes. rewrite <- Hbl. symmetry.
    change 0%nat with (Z.to_nat 0). apply slice_inserts_same; lia.
  - split; [by split|]. split; [by split|]. split; [done|]. split; [done|]. simpl. lia.
Qed.

(** The blocks a buffer accounts for, its own first. *)
Definition held_blocks this others : list span :=
  if decide (bb_capacity this = 0) then others else bb_block this :: others.

Lemma inv_held this w others contents pending :
  buffer_inv this w others contents pending ->
  held (w_context w) (w_memory w) (held_blocks this others).
Proof.
  intros [_ _ _ _ Hs]. unfold held_blocks.
  destruct (decide (bb_capacity this = 0)); by destruct Hs.
Qed.

(** The invariant does not depend on what the source or the heap do elsewhere. *)
Lemma inv_world this w w' others contents pending :
  buffer_inv this w others contents pending ->
  Inv (w_heap w') -> budgets_kept (w_heap w) (w_heap w') ->
  reservations (w_heap w') !! bb_reservation this = reservations (w_heap w) !! bb_reservation this ->
  held (w_context w') (w_memory w') (held_blocks this others) ->
  same_bytes (held_blocks this others) (w_memory w) (w_memory w') ->
  buffer_inv this w' others contents pending.
Proof.
  intros [Hh (a & b & Ha & Hb & Hr) Ho Hsrc Hs] Hh' Hk Hr' Hheld Hsame. unfold held_blocks in *.
  split; try done.
  - destruct (Hk a b Hb) as (b' & Hb' & _). exists a, b'. split; [done|]. split; [done|]. by rewrite Hr'.
  - destruct (decide (bb_capacity this = 0)); destruct Hs; [by split|]. split; try done.
    destruct st_bytes0 as (B & HB & Hc & Hp). exists B. split; [|done].
    rewrite Hsame; [done|]. apply elem_of_cons. by left.
Qed.

Lemma same_bytes_tail this others m m' :
  same_bytes (held_blocks this others) m m' -> same_bytes others m m'.
Proof.
  unfold held_blocks. destruct (decide _); [done|]. intros Hs b Hb. apply Hs, elem_of_cons. by right.
Qed.

(** What [acquire_block] leaves: a new block of at least the target, or nothing. *)
Lemma acquire_block_run this c m bs target acquired :
  bb_source this = lawful_source -> held c m bs ->
  exists r v c' m', acquire_block (bb_source this) target (acquired, (c, m)) = Ret (r, (v, (c', m'))) /\
    same_bytes bs m m' /\
    match r with
    | Ok _ => held c' m' (v :: bs) /\ target <= span_size v
    | Err _ => held c' m' bs /\ v = acquired
    end.
Proof.
  intros -> Hh. unfold acquire_block, call_acquire. simpl.
  destruct (acquire c m target) as [[v|e] [c1 m1]] eqn:E; simpl.
  - destruct (acquire_ok _ _ _ _ _ _ _ Hh E) as [Hh1 Hs1].
    destruct (Z.ltb_spec (span_size v) target).
    + unfold call_release. simpl. destruct (release c1 m1 v) as [c2 m2] eqn:E2. simpl.
      destruct (release_ok _ _ _ _ _ _ Hh1 E2) as [Hh2 Hs2].
      do 4 eexists. split; [done|]. split; [|done]. intros b Hb. by rewrite Hs2, Hs1.
    + do 4 eexists. split; [done|]. split; [done|]. split; [done|lia].
  - destruct (acquire_error _ _ _ _ _ _ _ Hh E) as [Hh1 Hs1].
    do 4 eexists. split; [done|]. done.
Qed.

Definition grow_result this w others contents pending required
    (r : Result unit) this' w' : Prop :=
  same_buffer this this' /\ frame_kept others this w w' /\
  match r with
  | Err _ => this' = this /\ budgets (w_heap w') = budgets (w_heap w) /\
             buffer_inv this w' others contents pending
  | Ok _ => required <= bb_capacity this' /\ bb_write_offset this' = Z.of_nat (length contents) /\
            exists pending', buffer_inv this' w' others contents pending'
  end.

Lemma slice_prefix (v : span) (m : Memory) p l target :
  located m v p l -> 0 <= target <= span_size v ->
  MutableByteView_slice v 0 target = Ok (subspan v 0 target).
Proof.
  intros [_ _ _ Hs _] Ht. unfold MutableByteView_slice.
  by rewrite checked_range_size_ok by lia.
Qed.

Lemma grow_first_run this w others contents pending worker target required :
  buffer_inv this w others contents pending -> bb_capacity this = 0 ->
  1 <= bb_initial_capacity this <= bb_maximum_capacity this ->
  1 <= target <= bb_maximum_capacity this -> required <= target ->
  exists r this' w', grow_first this w worker target = Ret (r, (this', w')) /\
    grow_result this w others contents pending required r this' w'.
Proof.
  intros HI Hc Hinit Ht Hreq. pose proof HI as [Hh (a & b & Ha & Hb & Hr) Ho Hsrc Hs].
  pose proof (inv_held _ _ _ _ _ HI) as Hheld.
  assert (Hhb : held_blocks this others = others) by (unfold held_blocks; by rewrite decide_True).
  rewrite decide_True in Hs by done. destruct Hs as [Hblk Hst [-> ->] _].
  rewrite Hc in Hr. change (charge_of a 0) with inactive_reservation in Hr. rewrite Hhb in Hheld.
  destruct (acquire_block_run this (w_context w) (w_memory w) others target empty_span Hsrc Hheld)
    as (racq & v & c1 & m1 & Hacq & Hsame & Hpost).
  unfold grow_first. rewrite Ha.
  destruct (charge_member_run (w_heap w) (bb_reservation this) a b worker target
    (acquire_block (bb_source this) target) (empty_span, (w_context w, w_memory w)) _ racq
    Hh Hb ltac:(lia) Hr Hacq) as [(e & ->)|(h' & Hcase)].
  { cbn [mbind outcome_bind]. exists (Err e), this, w. destruct w. split; [done|].
    split; [apply same_buffer_refl|]. split; [apply frame_kept_refl|]. done. }
  destruct racq as [[]|e].
  - destruct Hcase as (_ & temporary & h1 & -> & Hadopt & Hset). cbn [mbind outcome_bind].
    destruct Hpost as [Hheld1 Hfit].
    destruct (held_located _ _ _ _ Hheld1) as (p & l & Hl).
    rewrite (slice_prefix v m1 p l) by (done || lia). rewrite Hadopt. cbn [mbind outcome_bind].
    eexists (Ok tt), _, _. split; [done|]. split; [by split|]. split; [by eapply frame_kept_heap_set|].
    simpl. split; [done|]. split; [lia|].
    exists (slice (slice l (ptr_offset p) (span_size v)) 0 target). split; simpl; try done; try lia.
    + apply Hset.
    + destruct (hs_kept _ _ _ _ Hset a b Hb) as (b' & Hb' & _). exists a, b'. split; [done|].
      split; [done|]. by rewrite (hs_res _ _ _ _ Hset), lookup_insert_eq.
    + rewrite decide_False by lia. split; simpl; try done; [|by destruct Hl; lia].
      exists (slice l (ptr_offset p) (span_size v)). split; [by apply located_bytes|].
      assert (bb_read_offset this = 0) as -> by lia. assert (bb_write_offset this = 0) as -> by lia.
      by rewrite !Z.sub_0_r.
  - destruct Hcase as (-> & Hset & Hbud). destruct Hpost as [Hheld1 ->]. cbn [mbind outcome_bind].
    eexists (Err e), this, _. split; [done|]. split; [apply same_buffer_refl|].
    split; [by eapply frame_kept_heap_set|]. split; [done|]. split; [done|].
    apply (inv_world _ _ _ _ _ _ HI); simpl; rewrite ?Hhb; try done; try apply Hset.
    by rewrite (hs_res _ _ _ _ Hset), lookup_insert_eq.
Qed.
(** The failed branches of [grow_replace]: the charge is given back, the source has no new
    block, the buffer is unchanged. *)
Lemma grow_rollback this w others contents pending required e c m :
  buffer_inv this w others contents pending -> held c m (held_blocks this others) ->
  same_bytes (held_blocks this others) (w_memory w) m ->
  grow_result this w others contents pending required (Err e) this (MkWorld (w_heap w) c m).
Proof.
  intros HI Hh Hs. split; [apply same_buffer_refl|]. split.
  - split; simpl; [by eapply same_bytes_tail|done|done].
  - split; [done|]. split; [done|]. apply (inv_world _ _ _ _ _ _ HI); simpl; try done. by destruct HI.
Qed.

(** The readable bytes are copied to the front of the larger block. *)
Lemma grow_copy this w others contents pending v c1 m1 target :
  buffer_inv this w others contents pending -> bb_capacity this <> 0 ->
  held c1 m1 (v :: bb_block this :: others) ->
  same_bytes (bb_block this :: others) (w_memory w) m1 ->
  bb_capacity this < target -> target <= span_size v ->
  exists BV m2, Z.of_nat (length BV) = span_size v /\ span_size v <= size_max /\
    (if BoundedBuffer_size this =? 0 then Ret m1 else
       copy_bytes (BoundedBuffer_size this) m1 (span_data (subspan v 0 target))
         (span_data (subspan (bb_storage this) (bb_read_offset this) (BoundedBuffer_size this)))) = Ret m2 /\
    held c1 m2 (v :: bb_block this :: others) /\ same_bytes (bb_block this :: others) m1 m2 /\
    span_bytes m2 v = Some (list_inserts 0 contents BV).
Proof.
  intros HI Hc Hheld Hsame Ht Hfit. pose proof HI as [Hh _ Ho Hsrc Hs].
  pose proof (size_exact _ _ _ _ _ HI) as (Hsz & _ & _).
  pose proof (queue_lengths _ _ _ _ _ HI) as (Hlc & Hlp). rewrite decide_False in Hs by done.
  destruct Hs as [(B & HB & Hcont & Hpend) Hst Hf Hinit _]. rewrite Hsz.
  set (n := bb_write_offset this - bb_read_offset this) in *.
  assert (Hn : n = bb_write_offset this - bb_read_offset this) by done.
  destruct (held_located _ _ _ _ Hheld) as (p & l & Hl).
  assert (Hheld' : held c1 m1 (bb_block this :: v :: others))
    by (eapply held_perm; [|exact Hheld]; solve_Permutation).
  destruct (held_located _ _ _ _ Hheld') as (q & k & Hq).
  assert (HB1 : span_bytes m1 (bb_block this) = Some B)
    by (rewrite Hsame; [done|apply elem_of_cons; by left]).
  assert (Hdis : disjoint_spans v (bb_block this)).
  { pose proof (held_disjoint _ _ _ _ Hheld) as Hd. by inversion Hd. }
  destruct (Z.leb_spec (span_size v) size_max) as [Hvm|]; [|destruct Hl; lia].
  assert (exists BV, span_bytes m1 v = Some BV /\ Z.of_nat (length BV) = span_size v) as (BV & HBV & HlBV).
  { eexists. split; [by apply located_bytes|]. eapply span_bytes_length; [lia|by apply located_bytes]. }
  exists BV. destruct (Z.eqb_spec n 0) as [En|En].
  - exists m1. split; [done|]. split; [done|]. split; [done|]. split; [done|]. split; [by intros ? _|].
    assert (contents = []) as -> by (apply length_zero_iff_nil; lia). done.
  - rewrite Hst. cbn [subspan span_data]. rewrite (loc_data _ _ _ _ Hl), (loc_data _ _ _ _ Hq).
    cbn [fmap option_fmap option_map].
    rewrite (copy_to_start m1 v p l (bb_block this) q k B) by (done || lia || auto).
    fold n in Hcont. rewrite <- Hcont. eexists. split; [done|]. split; [done|]. split; [done|].
    split; [|split].
    + apply held_write; try done; lia.
    + eapply write_keeps_others; try done; lia.
    + rewrite (write_at_span_bytes _ _ _ _ BV 0); try done; lia.
Qed.

(** The successful branch: the contents move to the new block, the old one is released. *)
Lemma grow_moved this w others contents pending h' v c1 m1 target required :
  buffer_inv this w others contents pending -> bb_capacity this <> 0 ->
  heap_set (w_heap w) h' (bb_reservation this) (charge_of (default 0%nat (bb_budget this)) target) ->
  held c1 m1 (v :: bb_block this :: others) ->
  same_bytes (bb_block this :: others) (w_memory w) m1 ->
  bb_capacity this < target <= bb_maximum_capacity this -> target <= span_size v -> required <= target ->
  exists m2 c3 m3,
    (if BoundedBuffer_size this =? 0 then Ret m1 else
       copy_bytes (BoundedBuffer_size this) m1 (span_data (subspan v 0 target))
         (span_data (subspan (bb_storage this) (bb_read_offset this) (BoundedBuffer_size this)))) = Ret m2 /\
    call_release (bb_source this) (c1, m2) (bb_block this) = Ret (c3, m3) /\
    grow_result this w others contents pending required (Ok tt)
      (set_storage this v (subspan v 0 target) target 0 (BoundedBuffer_size this)) (MkWorld h' c3 m3).
Proof.
  intros HI Hc Hset Hheld Hsame Ht Hfit Hreq.
  pose proof HI as [Hh (a & b & Ha & Hb & Hr) Ho Hsrc Hs].
  pose proof (size_exact _ _ _ _ _ HI) as (Hsz & _ & _).
  pose proof (queue_lengths _ _ _ _ _ HI) as (Hlc & Hlp). rewrite decide_False in Hs by done.
  destruct Hs as [_ _ _ Hinit _].
  destruct (grow_copy this w others contents pending v c1 m1 target HI Hc Hheld Hsame)
    as (BV & m2 & HlBV & Hvm & -> & Hheld2 & Hsame2 & HBV2); [lia|done|].
  rewrite Hsz. set (n := bb_write_offset this - bb_read_offset this) in *.
  assert (Hn : n = bb_write_offset this - bb_read_offset this) by done.
  rewrite Hsrc. unfold call_release. simpl bs_release. cbv iota.
  destruct (release (fst (c1, m2)) (snd (c1, m2)) (bb_block this)) as [c3 m3] eqn:Erel.
  assert (Hheld3 : held c1 m2 (bb_block this :: v :: others))
    by (eapply held_perm; [|exact Hheld2]; solve_Permutation).
  destruct (release_ok _ _ _ _ _ _ Hheld3 Erel) as [Hheld4 Hsame4].
  exists m2, c3, m3. split; [done|]. split; [by rewrite Erel|]. split; [by split|]. split.
  { eapply frame_kept_heap_set; [done|]. intros x Hx.
    rewrite (Hsame4 x) by (apply elem_of_cons; by right).
    rewrite (Hsame2 x) by (apply elem_of_cons; by right). apply Hsame. apply elem_of_cons. by right. }
  simpl. split; [done|]. split; [lia|].
  exists (slice (list_inserts 0 contents BV) n (target - n)). split; simpl; try done; try lia.
  - apply Hset.
  - destruct (hs_kept _ _ _ _ Hset a b Hb) as (b' & Hb' & _). exists a, b'. split; [done|].
    split; [done|]. rewrite (hs_res _ _ _ _ Hset), lookup_insert_eq. by rewrite Ha.
  - rewrite decide_False by lia. split; simpl; try done; try lia.
    exists (list_inserts 0 contents BV).
    split; [rewrite (Hsame4 v) by (apply elem_of_cons; by left); done|]. split; [|done].
    rewrite Z.sub_0_r, <- Hlc. symmetry. change 0%nat with (Z.to_nat 0). apply slice_inserts_same; lia.
Qed.

Lemma grow_replace_run this w others contents pending worker target required :
  buffer_inv this w others contents pending -> bb_capacity this <> 0 ->
  bb_capacity this < target <= bb_maximum_capacity this -> required <= target ->
  exists r this' w', grow_replace this w worker target = Ret (r, (this', w')) /\
    grow_result this w others contents pending required r this' w'.
Proof.
  intros HI Hc Ht Hreq. pose proof HI as [Hh (a & b & Ha & Hb & Hr) Ho Hsrc Hs].
  pose proof (inv_held _ _ _ _ _ HI) as Hheld.
  assert (Hhb : held_blocks this others = bb_block this :: others)
    by (unfold held_blocks; by rewrite decide_False).
  unfold grow_replace. rewrite (u64_small (target - bb_capacity this)) by (unfold size_max in *; lia).
  destruct (grow_member_run (w_heap w) (bb_reservation this) a b worker (bb_capacity this)
    (target - bb_capacity this) Hh Hb ltac:(lia) ltac:(unfold is_size; lia) ltac:(lia) Hr)
    as [(e & ->)|(h' & -> & Hset & Hshrink)].
  { cbn [mbind outcome_bind]. exists (Err e), this, w. split; [by destruct w|].
    split; [apply same_buffer_refl|]. split; [apply frame_kept_refl|]. done. }
  cbn [mbind outcome_bind]. replace (bb_capacity this + (target - bb_capacity this)) with target in Hset by lia.
  unfold call_acquire. rewrite Hsrc. simpl bs_acquire. cbv iota.
  destruct (acquire (fst (w_context w, w_memory w)) (snd (w_context w, w_memory w)) target)
    as [[v|e] [c1 m1]] eqn:Eacq; simpl in Eacq; cbn [mbind outcome_bind].
  2: { destruct (acquire_error _ _ _ _ _ _ _ Hheld Eacq) as [Hheld1 Hsame1].
    rewrite Hshrink. cbn [mbind outcome_bind]. eexists _, _, _. split; [done|].
    by apply grow_rollback. }
  destruct (acquire_ok _ _ _ _ _ _ _ Hheld Eacq) as [Hheld1 Hsame1].
  destruct (Z.ltb_spec (span_size v) target) as [Hsmall|Hfit].
  { unfold call_release. simpl. destruct (release c1 m1 v) as [c2 m2] eqn:Erel. simpl.
    destruct (release_ok _ _ _ _ _ _ Hheld1 Erel) as [Hheld2 Hsame2].
    rewrite Hshrink. cbn [mbind outcome_bind]. eexists _, _, _. split; [done|].
    apply grow_rollback; try done. intros x Hx. by rewrite Hsame2, Hsame1. }
  destruct (held_located _ _ _ _ Hheld1) as (p & l & Hl).
  rewrite (slice_prefix v m1 p l) by (done || lia).
  rewrite Hhb in Hheld1, Hsame1.
  destruct (grow_moved this w others contents pending h' v c1 m1 target required HI Hc)
    as (m2 & c3 & m3 & E1 & E2 & Hres); try done; [by rewrite Ha|].
  cbv zeta. cbn [fst snd]. rewrite E1. cbn [mbind outcome_bind]. rewrite <- Hsrc, E2. cbn [mbind outcome_bind fst snd].
  eexists _, _, _. split; [done|]. done.
Qed.

Lemma buffer_grow_run this w others contents pending worker required :
  buffer_inv this w others contents pending ->
  bb_capacity this < required <= bb_maximum_capacity this ->
  exists r this' w', BoundedBuffer_grow this w worker required = Ret (r, (this', w')) /\
    grow_result this w others contents pending required r this' w'.
Proof.
  intros HI Hreq. pose proof HI as [Hh (a & b & Ha & Hb & Hr) Ho Hsrc Hs].
  unfold BoundedBuffer_grow, BoundedBuffer_validate_source. rewrite Ha, Hsrc. simpl orb.
  destruct (_ || _) eqn:Ev.
  { eexists _, _, _. split; [done|]. split; [apply same_buffer_refl|]. split; [apply frame_kept_refl|]. done. }
  rewrite orb_false_iff, Z.eqb_neq, Z.ltb_ge in Ev.
  unfold BoundedBuffer_next_capacity.
  destruct (doubling_enough (if bb_capacity this =? 0 then bb_initial_capacity this else bb_capacity this)
    required (bb_maximum_capacity this)) as (t & -> & Ht & Htr & _).
  { destruct (Z.eqb_spec (bb_capacity this) 0); lia. }
  { lia. }
  cbn [mbind outcome_bind]. rewrite (proj2 (Z.ltb_ge _ _)) by lia.
  unfold the_reservation. rewrite Hr. cbn [mbind outcome_bind].
  unfold MemoryReservation_is_active, charge_of. destruct (Z.eqb_spec (bb_capacity this) 0) as [E|E]; simpl.
  - apply grow_first_run; try done; lia.
  - apply grow_replace_run; try done; lia.
Qed.
(** ** Public operations *)
Lemma require_worker_ok this worker :
  value_ worker = value_ (bb_worker this) -> BoundedBuffer_require_worker this worker = Ok tt.
Proof. intros E. unfold BoundedBuffer_require_worker. by rewrite E, Z.eqb_refl. Qed.

(** Views of the two ends of the queue. *)
Lemma views_run this w others contents pending worker :
  buffer_inv this w others contents pending -> value_ worker = value_ (bb_worker this) ->
  (exists v, BoundedBuffer_readable this worker = Ok v /\ span_bytes (w_memory w) v = Some contents) /\
  (exists v, BoundedBuffer_writable this worker = Ok v /\ span_bytes (w_memory w) v = Some pending /\
     v = subspan (bb_storage this) (bb_write_offset this) (bb_capacity this - bb_write_offset this)).
Proof.
  intros HI Hw. pose proof HI as [_ _ Ho _ Hs]. pose proof (size_exact _ _ _ _ _ HI) as (Hsz & _ & Hcw).
  unfold BoundedBuffer_readable, BoundedBuffer_writable. rewrite require_worker_ok, Hsz, Hcw by done.
  cbn [mbind Result_bind]. unfold ByteView_from, MutableByteView_from.
  destruct (decide (bb_capacity this = 0)) as [Hc|Hc].
  - destruct Hs as [_ Hst [-> ->] _].
    replace (bb_write_offset this - bb_read_offset this) with 0 by lia.
    replace (bb_capacity this - bb_write_offset this) with 0 by lia.
    unfold span_empty. simpl. rewrite !andb_false_r. split; eexists; (split; [done|]); done.
  - destruct (storage_slice this w others contents pending (bb_read_offset this)
      (bb_write_offset this - bb_read_offset this) Hs) as (p & B & HB & Hd & Hp & Hv); [lia..|].
    destruct (storage_slice this w others contents pending (bb_write_offset this)
      (bb_capacity this - bb_write_offset this) Hs) as (p' & B' & HB' & Hd' & Hp' & Hv'); [lia..|].
    destruct Hs as [(B0 & HB0 & -> & ->) _ _ _ _].
    assert (B = B0) as -> by congruence. assert (B' = B0) as -> by congruence.
    rewrite Hd, Hd'. rewrite !bool_decide_false by done. simpl andb. cbv iota.
    split; eexists; (split; [done|]); done.
Qed.

(** A result without its value. *)
Definition void_result {A} (r : Result A) : Result unit :=
  match r with Ok _ => Ok tt | Err e => Err e end.

Inductive BufferOp :=
  | BReserve (minimum_writable : Z)
  | BStore (offset : Z) (bytes : list Z)
  | BCommit (bytes : Z)
  | BConsume (bytes : Z)
  | BCompact
  | BRelease.

(** [BStore] is the owner writing through the view [writable] returns. *)
Definition exec_buffer this w (worker : WorkerId) (op : BufferOp) :
    outcome (Result unit * (BoundedBuffer C * World C)) :=
  match op with
  | BReserve n => '(r, s) ← BoundedBuffer_reserve this w worker n; Ret (void_result r, s)
  | BStore offset bytes =>
      match BoundedBuffer_writable this worker with
      | Err e => Ret (Err e, (this, w))
      | Ok v =>
          p ← deref (span_data v);
          m ← store_bytes (w_memory w) (ptr_add p offset) bytes;
          Ret (Ok tt, (this, set_memory w m))
      end
  | BCommit n => let '(r, this') := BoundedBuffer_commit this worker n in Ret (r, (this', w))
  | BConsume n => let '(r, this') := BoundedBuffer_consume this worker n in Ret (r, (this', w))
  | BCompact => BoundedBuffer_compact this w worker
  | BRelease => BoundedBuffer_release this w worker
  end.

Definition buffer_legal (pending : list Z) (op : BufferOp) : Prop :=
  match op with
  | BReserve n | BCommit n | BConsume n => is_size n
  | BStore offset bytes =>
      0 <= offset /\ 0 < Z.of_nat (length bytes) /\
      offset + Z.of_nat (length bytes) <= Z.of_nat (length pending)
  | BCompact | BRelease => True
  end.

(** The queue's own account of an operation. *)
Definition queue_step (op : BufferOp) (maximum : Z) (contents pending : list Z) (r : Result unit)
    (contents' pending' : list Z) : Prop :=
  match op with
  | BReserve n =>
      contents' = contents /\
      (r = Ok tt -> n <= Z.of_nat (length pending') /\ Z.of_nat (length contents) + n <= maximum \/ n = 0) /\
      (maximum < Z.of_nat (length contents) + n -> n <> 0 -> r = Err buffer_exhausted_error) /\
      (n <= Z.of_nat (length pending) -> r = Ok tt /\ pending' = pending)
  | BStore offset bytes =>
      r = Ok tt /\ contents' = contents /\ pending' = list_inserts (Z.to_nat offset) bytes pending
  | BCommit n =>
      if n <=? Z.of_nat (length pending)
      then r = Ok tt /\ contents' = contents ++ take (Z.to_nat n) pending /\
           pending' = drop (Z.to_nat n) pending
      else r = Err buffer_commit_error /\ contents' = contents /\ pending' = pending
  | BConsume n =>
      if n <=? Z.of_nat (length contents)
      then r = Ok tt /\ contents' = drop (Z.to_nat n) contents
      else r = Err buffer_consume_error /\ contents' = contents /\ pending' = pending
  | BCompact => r = Ok tt /\ contents' = contents
  | BRelease => r = Ok tt /\ contents' = [] /\ pending' = []
  end.

Record op_result this w others (op : BufferOp) contents pending (r : Result unit) this' w' : Prop := {
  or_queue : exists contents' pending', buffer_inv this' w' others contents' pending' /\
    queue_step op (bb_maximum_capacity this) contents pending r contents' pending';
  or_same : same_buffer this this';
  or_frame : frame_kept others this w w';
  or_error : has_value r = false -> this' = this /\ budgets (w_heap w') = budgets (w_heap w) }.

(** A view of a region of the storage is never null when the region is not empty. *)
Lemma region_ok this w others contents pending n :
  buffer_inv this w others contents pending -> 0 < n <= bb_capacity this - bb_write_offset this ->
  exists v, MutableByteView_from (subspan (bb_storage this) (bb_write_offset this) n) = Ok v.
Proof.
  intros [_ _ Ho _ Hs] Hn. rewrite decide_False in Hs by lia.
  destruct (storage_slice this w others contents pending (bb_write_offset this) n Hs)
    as (p & B & _ & Hd & _ & _); [lia..|].
  unfold MutableByteView_from. rewrite Hd, bool_decide_false by done. simpl. eauto.
Qed.

Lemma reserve_op this w others contents pending worker n :
  buffer_inv this w others contents pending -> value_ worker = value_ (bb_worker this) -> is_size n ->
  exists r this' w', exec_buffer this w worker (BReserve n) = Ret (r, (this', w')) /\
    op_result this w others (BReserve n) contents pending r this' w'.
Proof.
  intros HI Hw Hn. unfold is_size in Hn. pose proof HI as [_ _ Ho _ _].
  pose proof (size_exact _ _ _ _ _ HI) as (Hsz & Hmx & Hcw).
  pose proof (queue_lengths _ _ _ _ _ HI) as (Hlc & Hlp).
  unfold exec_buffer, BoundedBuffer_reserve. rewrite require_worker_ok, Hmx, Hcw, Hsz by done.
  assert (Hrefl : forall r, queue_step (BReserve n) (bb_maximum_capacity this) contents pending r contents pending ->
    op_result this w others (BReserve n) contents pending r this w).
  { intros r Hq. split; [eauto|apply same_buffer_refl|apply frame_kept_refl|done]. }
  destruct (Z.eqb_spec n 0) as [->|Hn0].
  { cbn [mbind outcome_bind]. eexists _, _, _. split; [done|]. apply Hrefl. simpl.
    split; [done|]. split; [by right|]. done. }
  destruct (Z.ltb_spec (bb_maximum_capacity this - (bb_write_offset this - bb_read_offset this)) n) as [Hbig|Hok].
  { cbn [mbind outcome_bind]. eexists _, _, _. split; [done|]. apply Hrefl. simpl.
    split; [done|]. split; [done|]. split; [done|]. lia. }
  destruct (Z.ltb_spec (bb_capacity this - bb_write_offset this) n) as [Hgrow|Hfits].
  2: { cbn [mbind outcome_bind]. destruct (region_ok _ _ _ _ _ n HI) as (v & ->); [lia|].
    cbn [mbind outcome_bind]. eexists _, _, _. split; [done|]. apply Hrefl. simpl.
    split; [done|]. split; [intros _; left; lia|]. split; [lia|done]. }
  rewrite checked_add_size_ok by (unfold size_max in *; lia).
  destruct (Z.leb_spec (bb_write_offset this - bb_read_offset this + n) (bb_capacity this)) as [Hcmp|Hnew].
  - destruct (compact_run this w others contents pending HI)
      as (this' & w' & pending' & -> & HI' & Hsame & Hfr & Hheap & Hcap & Hwr).
    cbn [mbind outcome_bind]. pose proof (queue_lengths _ _ _ _ _ HI') as (_ & Hlp').
    destruct (region_ok _ _ _ _ _ n HI') as (v & ->); [lia|].
    cbn [mbind outcome_bind]. eexists _, _, _. split; [done|]. split; [|done|done|done].
    exists contents, pending'. split; [done|]. simpl. split; [done|]. split; [intros _; left; lia|].
    split; [lia|]. lia.
  - destruct (buffer_grow_run this w others contents pending worker
      (bb_write_offset this - bb_read_offset this + n) HI) as (r & this' & w' & -> & Hs' & Hf' & Hr'); [lia|].
    cbn [mbind outcome_bind]. destruct r as [[]|e].
    + destruct Hr' as (Hcap & Hwr & pending' & HI').
      pose proof (queue_lengths _ _ _ _ _ HI') as (_ & Hlp').
      destruct (region_ok _ _ _ _ _ n HI') as (v & ->); [lia|].
      cbn [mbind outcome_bind]. eexists _, _, _. split; [done|]. split; [|done|done|done].
      exists contents, pending'. split; [done|]. simpl. split; [done|]. split; [intros _; left; lia|].
      split; [lia|]. lia.
    + destruct Hr' as (-> & Hbud & HI'). eexists _, _, _. split; [done|]. split; [|done|done|done].
      exists contents, pending. split; [done|]. simpl. split; [done|]. split; [done|]. split; [lia|]. lia.
Qed.
Lemma store_op this w others contents pending worker offset bytes :
  buffer_inv this w others contents pending -> value_ worker = value_ (bb_worker this) ->
  buffer_legal pending (BStore offset bytes) ->
  exists r this' w', exec_buffer this w worker (BStore offset bytes) = Ret (r, (this', w')) /\
    op_result this w others (BStore offset bytes) contents pending r this' w'.
Proof.
  intros HI Hw (Ho & Hpos & Hfit). pose proof HI as [Hh Hb Hoff Hsrc Hs].
  pose proof (queue_lengths _ _ _ _ _ HI) as (_ & Hlp).
  destruct (views_run _ _ _ _ _ worker HI Hw) as [_ (v & Hv & _ & ->)].
  unfold exec_buffer. rewrite Hv. rewrite decide_False in Hs by lia.
  destruct Hs as [(B & HB & Hcont & Hpend) Hst Hf Hinit Hheld].
  destruct (held_located _ _ _ _ Hheld) as (p & l & Hl).
  assert (HlB : Z.of_nat (length B) = span_size (bb_block this))
    by (eapply span_bytes_length; [lia|done]).
  rewrite Hst. cbn [subspan span_data]. rewrite (loc_data _ _ _ _ Hl).
  cbn [fmap option_fmap option_map deref mbind outcome_bind].
  rewrite (store_bytes_run (w_memory w) _ bytes l); simpl; [|by destruct Hl|destruct Hl; lia|destruct Hl; lia].
  replace (ptr_offset p + 0 + bb_write_offset this + offset)
    with (ptr_offset p + (bb_write_offset this + offset)) by lia.
  fold (write_at (w_memory w) p l (ptr_offset p + (bb_write_offset this + offset)) bytes).
  set (m' := write_at _ _ _ _ _).
  eexists (Ok tt), this, _. split; [done|]. split; [|apply same_buffer_refl| |done].
  - exists contents, (list_inserts (Z.to_nat offset) bytes pending). split; [|done].
    split; simpl; try done. rewrite decide_False by lia. split; simpl; try done.
    + exists (list_inserts (Z.to_nat (bb_write_offset this + offset)) bytes B).
      split; [apply (write_at_span_bytes _ _ _ _ B); try done; lia|]. split.
      * rewrite slice_inserts_other by lia. done.
      * rewrite Hpend. symmetry. apply slice_inserts_window; lia.
    + apply held_write; try done; lia.
  - split; [|done|done]. eapply write_keeps_others; try done; lia.
Qed.

(** Operations that move the offsets inside a held block. *)
Lemma offsets_op this w others contents pending read write :
  buffer_inv this w others contents pending ->
  0 <= read <= write -> write <= bb_capacity this ->
  exists contents' pending', buffer_inv (set_offsets this read write) w others contents' pending' /\
    forall B, span_bytes (w_memory w) (bb_block this) = Some B -> bb_capacity this <> 0 ->
      contents' = slice B read (write - read) /\ pending' = slice B write (bb_capacity this - write).
Proof.
  intros [Hh Hb Ho Hsrc Hs] Hr Hwr. destruct (decide (bb_capacity this = 0)) as [Hc|Hc].
  - exists [], []. destruct Hs as [Hblk Hst _ Hheld]. split; [|done].
    split; simpl; try done; [lia|]. by rewrite decide_True.
  - destruct Hs as [(B & HB & Hcont & Hpend) Hst Hf Hinit Hheld].
    exists (slice B read (write - read)), (slice B write (bb_capacity this - write)). split.
    + split; simpl; try done; [lia|]. rewrite decide_False by done. split; simpl; try done. eauto.
    + intros B' HB' _. by assert (B' = B) as -> by congruence.
Qed.

Lemma commit_op this w others contents pending worker n :
  buffer_inv this w others contents pending -> value_ worker = value_ (bb_worker this) -> is_size n ->
  exists r this' w', exec_buffer this w worker (BCommit n) = Ret (r, (this', w')) /\
    op_result this w others (BCommit n) contents pending r this' w'.
Proof.
  intros HI Hw Hn. unfold is_size in Hn. pose proof HI as [_ _ Ho _ Hs].
  pose proof (size_exact _ _ _ _ _ HI) as (Hsz & _ & Hcw).
  pose proof (queue_lengths _ _ _ _ _ HI) as (Hlc & Hlp).
  unfold exec_buffer, BoundedBuffer_commit. rewrite require_worker_ok, Hcw by done.
  destruct (Z.ltb_spec (bb_capacity this - bb_write_offset this) n) as [Hbig|Hok].
  { eexists _, _, _. split; [done|]. split; [|apply same_buffer_refl|apply frame_kept_refl|done].
    exists contents, pending. split; [done|]. simpl. by rewrite (proj2 (Z.leb_gt _ _)) by lia. }
  rewrite checked_add_size_ok by (unfold size_max in *; lia).
  destruct (offsets_op this w others contents pending (bb_read_offset this) (bb_write_offset this + n) HI)
    as (contents' & pending' & HI' & Hcp); [lia|lia|].
  eexists _, _, _. split; [done|]. split; [|by split|apply frame_kept_refl|done].
  exists contents', pending'. split; [done|]. simpl. rewrite (proj2 (Z.leb_le _ _)) by lia.
  split; [done|]. destruct (decide (bb_capacity this = 0)) as [Hc|Hc].
  - pose proof (queue_lengths _ _ _ _ _ HI') as (Hlc' & Hlp'). simpl in Hlc', Hlp'.
    destruct Hs as [_ _ [-> ->] _]. simpl. rewrite take_nil, drop_nil.
    split; apply length_zero_iff_nil; lia.
  - destruct Hs as [(B & HB & -> & ->) _ Hf _ _]. destruct (Hcp B HB Hc) as [-> ->].
    assert (HlB : Z.of_nat (length B) = span_size (bb_block this))
      by (eapply span_bytes_length; [lia|done]).
    split.
    + assert (take (Z.to_nat n) (slice B (bb_write_offset this) (bb_capacity this - bb_write_offset this)) =
              slice B (bb_write_offset this) n) as ->.
      { unfold slice. rewrite take_take. f_equal. lia. }
      assert (slice B (bb_write_offset this) n =
        slice B (bb_read_offset this + (bb_write_offset this - bb_read_offset this)) n) as ->
        by (f_equal; lia).
      rewrite slice_app by lia. f_equal. lia.
    + unfold slice. rewrite skipn_firstn_comm, drop_drop. f_equal; [lia|]. f_equal. lia.
Qed.

Lemma consume_op this w others contents pending worker n :
  buffer_inv this w others contents pending -> value_ worker = value_ (bb_worker this) -> is_size n ->
  exists r this' w', exec_buffer this w worker (BConsume n) = Ret (r, (this', w')) /\
    op_result this w others (BConsume n) contents pending r this' w'.
Proof.
  intros HI Hw Hn. unfold is_size in Hn. pose proof HI as [_ _ Ho _ Hs].
  pose proof (size_exact _ _ _ _ _ HI) as (Hsz & _ & _).
  pose proof (queue_lengths _ _ _ _ _ HI) as (Hlc & Hlp).
  unfold exec_buffer, BoundedBuffer_consume. rewrite require_worker_ok, Hsz by done.
  destruct (Z.ltb_spec (bb_write_offset this - bb_read_offset this) n) as [Hbig|Hok].
  { eexists _, _, _. split; [done|]. split; [|apply same_buffer_refl|apply frame_kept_refl|done].
    exists contents, pending. split; [done|]. simpl. by rewrite (proj2 (Z.leb_gt _ _)) by lia. }
  rewrite checked_add_size_ok by (unfold size_max in *; lia).
  set (this' := if bb_read_offset this + n =? bb_write_offset this then set_offsets this 0 0
                else set_offsets this (bb_read_offset this + n) (bb_write_offset this)).
  assert (exists contents' pending', buffer_inv this' w others contents' pending' /\
    contents' = drop (Z.to_nat n) contents) as (contents' & pending' & HI' & Hc').
  { unfold this'. destruct (Z.eqb_spec (bb_read_offset this + n) (bb_write_offset this)) as [E|E].
    - destruct (offsets_op this w others contents pending 0 0 HI) as (c' & p' & HI' & _); [lia|lia|].
      exists c', p'. split; [done|]. pose proof (queue_lengths _ _ _ _ _ HI') as (Hlc' & _).
      simpl in Hlc'. rewrite drop_ge by lia. apply length_zero_iff_nil. lia.
    - destruct (offsets_op this w others contents pending (bb_read_offset this + n) (bb_write_offset this) HI)
        as (c' & p' & HI' & Hcp); [lia|lia|]. exists c', p'. split; [done|].
      assert (Hc : bb_capacity this <> 0) by lia. rewrite decide_False in Hs by done.
      destruct Hs as [(B & HB & -> & ->) _ _ _ _]. destruct (Hcp B HB Hc) as [-> _].
      unfold slice. rewrite skipn_firstn_comm, drop_drop. f_equal; [lia|]. f_equal. lia. }
  exists (Ok tt), this', w. split; [unfold this'; by destruct (_ =? _)|].
  split; [|unfold this'; by destruct (_ =? _); split|apply frame_kept_refl|done].
  exists contents', pending'. split; [done|]. simpl. by rewrite (proj2 (Z.leb_le _ _)) by lia.
Qed.

Lemma release_unchecked_buffer this w others contents pending :
  buffer_inv this w others contents pending ->
  exists this' w', BoundedBuffer_release_unchecked this w = Ret (this', w') /\
    buffer_inv this' w' others [] [] /\ same_buffer this this' /\ frame_kept others this w w' /\
    bb_capacity this' = 0.
Proof.
  intros HI. pose proof HI as [Hh (a & b & Ha & Hb & Hr) Ho Hsrc Hs].
  unfold BoundedBuffer_release_unchecked.
  destruct (clear_member_run _ _ _ Hh Hr) as (h' & Hclear & Hset).
  assert (exists c m, (if bool_decide (span_data (bb_block this) = None) then Ret (w_context w, w_memory w)
       else call_release (bb_source this) (w_context w, w_memory w) (bb_block this)) = Ret (c, m) /\
     held c m others /\ same_bytes others (w_memory w) m) as (c & m & -> & Hheld & Hsame).
  { destruct (decide (bb_capacity this = 0)) as [Hc|Hc].
    - destruct Hs as [-> _ _ Hheld]. simpl. eexists _, _. split; [done|]. split; [done|]. by intros ? _.
    - destruct Hs as [_ _ _ _ Hheld]. destruct (held_located _ _ _ _ Hheld) as (p & l & Hl).
      rewrite bool_decide_false by (rewrite (loc_data _ _ _ _ Hl); done).
      unfold call_release. rewrite Hsrc. simpl.
      destruct (release (w_context w) (w_memory w) (bb_block this)) as [c m] eqn:E.
      destruct (release_ok _ _ _ _ _ _ Hheld E) as [Hh' Hs']. eauto. }
  cbn [mbind outcome_bind]. rewrite Hclear. cbn [mbind outcome_bind].
  eexists _, _. split; [done|]. split; [|split; [by split|split; [by eapply frame_kept_heap_set|done]]].
  split; simpl; try done; try lia.
  - apply Hset.
  - destruct (hs_kept _ _ _ _ Hset a b Hb) as (b' & Hb' & _). exists a, b'. split; [done|].
    split; [done|]. by rewrite (hs_res _ _ _ _ Hset), lookup_insert_eq.
Qed.

(** ** Properties *)

(** C2: the buffer refines a byte queue.  From any state that represents a queue, every
    operation returns, leaves a state that represents the queue the abstract operation
    gives (commit appends the pending bytes, consume drops from the front, reserve and
    compact keep the contents even when the block moves), keeps the budget charged exactly
    the capacity, and disturbs no other block and no other reservation; a refused operation
    leaves the buffer and every budget as they were. *)
Theorem buffer_refines_queue this w others contents pending (worker : WorkerId) (op : BufferOp) :
  buffer_inv this w others contents pending -> value_ worker = value_ (bb_worker this) ->
  buffer_legal pending op ->
  exists r this' w', exec_buffer this w worker op = Ret (r, (this', w')) /\
    op_result this w others op contents pending r this' w'.
Proof.
  intros HI Hw Hlegal. destruct op as [n|offset bytes|n|n| |].
  - by apply reserve_op.
  - by apply store_op.
  - by apply commit_op.
  - by apply consume_op.
  - destruct (compact_run this w others contents pending HI)
      as (this' & w' & pending' & E & HI' & Hs & Hf & Hheap & _ & _).
    unfold exec_buffer, BoundedBuffer_compact. rewrite require_worker_ok, E by done.
    cbn [mbind outcome_bind]. eexists _, _, _. split; [done|]. split; try done.
    exists contents, pending'. done.
  - destruct (release_unchecked_buffer this w others contents pending HI)
      as (this' & w' & E & HI' & Hs & Hf & _).
    unfold exec_buffer, BoundedBuffer_release. rewrite require_worker_ok, E by done.
    cbn [mbind outcome_bind]. eexists _, _, _. split; [done|]. split; try done.
    exists [], []. done.
Qed.

(** In every state that represents a queue, [readable] shows exactly the committed bytes
    and [writable] exactly the pending ones; and destroying the buffer returns its block and
    its whole charge: the source holds only the other blocks and the reservation is gone. *)
Theorem buffer_views_and_destruction this w others contents pending (worker : WorkerId) :
  buffer_inv this w others contents pending -> value_ worker = value_ (bb_worker this) ->
  (exists v, BoundedBuffer_readable this worker = Ok v /\ span_bytes (w_memory w) v = Some contents) /\
  (exists v, BoundedBuffer_writable this worker = Ok v /\ span_bytes (w_memory w) v = Some pending) /\
  exists w', BoundedBuffer_destroy this w = Ret w' /\ held (w_context w') (w_memory w') others /\
    same_bytes others (w_memory w) (w_memory w') /\ Inv (w_heap w') /\
    reservations (w_heap w') = delete (bb_reservation this) (reservations (w_heap w)).
Proof.
  intros HI Hw. destruct (views_run _ _ _ _ _ worker HI Hw) as [Hr (v & Hv & Hvb & _)].
  split; [done|]. split; [eauto|].
  destruct (release_unchecked_buffer this w others contents pending HI)
    as (this' & w' & E & HI' & Hs & Hf & Hcap). unfold BoundedBuffer_destroy. rewrite E.
  cbn [mbind outcome_bind]. pose proof HI' as [Hh' (a & b & _ & _ & Hres) _ _ Hst].
  rewrite Hcap in Hres. change (charge_of a 0) with inactive_reservation in Hres.
  destruct (destroy_run _ _ _ Hh' Hres) as [-> HI2]. cbn [mbind outcome_bind].
  eexists. split; [done|]. simpl. rewrite decide_True in Hst by done.
  split; [by destruct Hst|]. split; [by destruct Hf|]. split; [done|].
  unfold after_destroy, after_release. simpl. apply map_eq. intros i.
  destruct Hs as [_ _ Hrid _ _]. rewrite Hrid. destruct (decide (i = bb_reservation this)) as [->|Hne].
  - by rewrite !lookup_delete_eq.
  - rewrite !lookup_delete_ne by done. by apply Hf.
Qed.
(** A new buffer represents the empty queue. *)
Lemma buffer_inv_construct worker a b rid initial maximum h c m others :
  Inv h -> budgets h !! a = Some b -> reservations h !! rid = Some inactive_reservation ->
  is_size initial -> is_size maximum -> held c m others ->
  buffer_inv (BoundedBuffer_construct worker a lawful_source rid initial maximum) (MkWorld h c m) others [] [].
Proof.
  unfold is_size. intros HI Hb Hr Hi Hm Hh. split; simpl; try done; try lia.
  exists a, b. done.
Qed.
End buffer_spec.

(** ** A buffer of at most 16 bytes over the budget tree of [demo_tree] *)
Definition demo_heap : Heap := (MemoryReservation_construct demo_tree).2.
Definition demo_buffer : BoundedBuffer nat :=
  BoundedBuffer_construct demo_worker 1 (lawful_source bump_acquire bump_release) 2 4 16.
Definition demo_world : World nat := MkWorld demo_heap 0%nat ∅.

Lemma demo_buffer_inv : buffer_inv bump_acquire bump_release bump_held demo_buffer demo_world [] [] [].
Proof.
  apply buffer_inv_construct with (b := MkMemoryBudget demo_worker 60 0 0 0 (Some 0%nat)).
  - apply Inv_construct_reservation, reachable_Inv, demo_tree_reachable.
  - reflexivity.
  - reflexivity.
  - unfold is_size, size_max, u64_max. lia.
  - unfold is_size, size_max, u64_max. lia.
  - split; [intros b Hb; by apply elem_of_nil in Hb|]. intros [|i] j a b pa pb Hi; done.
Qed.

(** Five bytes reserved, stored, committed, and two consumed: three are left. *)
Example demo_buffer_run :
  match exec_buffer demo_buffer demo_world demo_worker (BReserve 5) with
  | Ret (_, (b1, w1)) =>
    match exec_buffer b1 w1 demo_worker (BStore 0 [1; 2; 3; 4; 5]) with
    | Ret (_, (b2, w2)) =>
      match exec_buffer b2 w2 demo_worker (BCommit 5) with
      | Ret (_, (b3, w3)) =>
        match exec_buffer b3 w3 demo_worker (BConsume 2) with
        | Ret (Ok _, (b4, w4)) =>
            match BoundedBuffer_readable b4 demo_worker with
            | Ok v => span_bytes (w_memory w4) v
            | Err _ => None
            end
        | _ => None
        end
      | _ => None
      end
    | _ => None
    end
  | _ => None
  end = Some [3; 4; 5].
Proof. vm_compute. reflexivity. Qed.

Lemma buffer_refines_queue_witness :
  exists r this' w', exec_buffer demo_buffer demo_world demo_worker (BReserve 5) = Ret (r, (this', w')) /\
    op_result bump_acquire bump_release bump_held demo_buffer demo_world [] (BReserve 5) [] [] r this' w'.
Proof.
  apply (buffer_refines_queue bump_acquire bump_release bump_held demo_buffer demo_world [] [] []
    demo_worker (BReserve 5) demo_buffer_inv eq_refl).
  simpl. unfold is_size, size_max, u64_max. lia.
Defined.

Lemma buffer_views_and_destruction_witness :
  exists v, BoundedBuffer_readable demo_buffer demo_worker = Ok v /\ span_bytes ∅ v = Some [].
Proof.
  exact (proj1 (buffer_views_and_destruction bump_acquire bump_release bump_held demo_buffer demo_world
    [] [] [] demo_worker demo_buffer_inv eq_refl)).
Defined.
