(* ===== verification/IoSlices.v ===== *)
(** * I/O slices

    Models [IoSlice] and [IoSliceList] of [src/core/contract/laghu/core/bounded_buffer.hpp]
    and their use in [src/os/io_slices.cpp] and [src/os/io_operations.cpp].  A slice list
    borrows an array of slices of which the first [count_] are in use; consuming bytes drops
    whole slices, trims the next one and moves the rest to the front of the array. *)
From S2P Require Import Prelude Contract CheckedArithmetic Views BinaryEnvelope BufferSpec.
From Stdlib Require Import ZArith Lia String.
From stdpp Require Import base numbers list gmap option.

Set Default Goal Selector "!".
#[local] Open Scope Z_scope.

Record IoSlice := MkIoSlice { io_bytes : ByteView }.

Definition IoSlice_size (s : IoSlice) : Z := span_size (io_bytes s).

Definition IoSlice_consume (this : IoSlice) (bytes : Z) : Result unit * IoSlice :=
  if span_size (io_bytes this) <? bytes then
    (Err (core_error invalid_range "I/O slice consume exceeds readable region"), this)
  else
    match ByteView_slice (io_bytes this) bytes (u64 (span_size (io_bytes this) - bytes)) with
    | Err e => (Err e, this)
    | Ok remaining => (Ok tt, MkIoSlice remaining)
    end.

Record IoSliceList := MkIoSliceList {
  sl_storage : list IoSlice; sl_count : Z; sl_bytes : Z }.

Definition IoSliceList_construct (storage : list IoSlice) : IoSliceList := MkIoSliceList storage 0 0.
Definition IoSliceList_capacity (l : IoSliceList) : Z := Z.of_nat (length (sl_storage l)).
Definition IoSliceList_slices (l : IoSliceList) : list IoSlice :=
  take (Z.to_nat (sl_count l)) (sl_storage l).

Definition IoSliceList_append (this : IoSliceList) (bytes : ByteView) :
    outcome (Result unit * IoSliceList) :=
  if span_empty bytes then Ret (Ok tt, this) else
  if sl_count this =? IoSliceList_capacity this then
    Ret (Err (core_error exhaustion "I/O slice list capacity is exhausted"), this)
  else
  TRY total ⇐ checked_add size_t (sl_bytes this) (span_size bytes) AT this IN
  (storage ← set_slot (sl_storage this) (sl_count this) (MkIoSlice bytes);
   Ret (Ok tt, MkIoSliceList storage (u64 (sl_count this + 1)) total)).

(** [while (removed < count_ && remaining >= storage_[removed].size())] *)
Fixpoint removed_loop (fuel : nat) (storage : list IoSlice) (count remaining removed : Z) :
    outcome (Z * Z) :=
  if removed <? count then
    s ← slot storage removed;
    if IoSlice_size s <=? remaining then
      match fuel with
      | O => Stop OutOfFuel
      | S fuel' => removed_loop fuel' storage count (u64 (remaining - IoSlice_size s)) (u64 (removed + 1))
      end
    else Ret (remaining, removed)
  else Ret (remaining, removed).

(** [for (index = removed; index < count_; ++index) storage_[index - removed] = storage_[index]] *)
Fixpoint shift_loop (n : nat) (storage : list IoSlice) (index removed : Z) : outcome (list IoSlice) :=
  match n with
  | O => Ret storage
  | S n' =>
      s ← slot storage index;
      storage' ← set_slot storage (u64 (index - removed)) s;
      shift_loop n' storage' (u64 (index + 1)) removed
  end.

Definition IoSliceList_consume (this : IoSliceList) (bytes : Z) : outcome (Result unit * IoSliceList) :=
  if sl_bytes this <? bytes then
    Ret (Err (core_error invalid_range "I/O slice list consume exceeds readable regions"), this)
  else
  '(remaining, removed) ← removed_loop (Z.to_nat (sl_count this)) (sl_storage this) (sl_count this) bytes 0;
  storage ← (if negb (remaining =? 0) then
               s ← slot (sl_storage this) removed;
               match IoSlice_consume s remaining with
               | (Err _, _) => Stop Terminated
               | (Ok _, s') => set_slot (sl_storage this) removed s'
               end
             else Ret (sl_storage this));
  '(storage, count) ← (if negb (removed =? 0) then
      storage' ← shift_loop (Z.to_nat (sl_count this - removed)) storage removed removed;
      Ret (storage', u64 (sl_count this - removed))
    else Ret (storage, sl_count this));
  Ret (Ok tt, MkIoSliceList storage count (u64 (sl_bytes this - bytes))).

(** ** [os::internal] *)
Record iovec := MkIovec { iov_base : option pointer; iov_len : Z }.

(** The loop over [slices.slices()]; the result counts the vectors written. *)
Fixpoint translate_loop (slices : list IoSlice) (output : list iovec) (index : Z) : outcome (Z * list iovec) :=
  match slices with
  | [] => Ret (index, output)
  | s :: rest =>
      output' ← set_slot output index (MkIovec (span_data (io_bytes s)) (IoSlice_size s));
      translate_loop rest output' (u64 (index + 1))
  end.

Definition translate_iovecs (slices : IoSliceList) (output : list iovec) : outcome (Result Z * list iovec) :=
  if Z.of_nat (length output) <? sl_count slices then
    Ret (Err (core_error exhaustion "POSIX I/O vector storage is exhausted"), output)
  else
    '(index, output) ← translate_loop (IoSliceList_slices slices) output 0;
    Ret (Ok index, output).

Definition consume_written (slices : IoSliceList) (bytes : Z) : outcome (Result unit * IoSliceList) :=
  IoSliceList_consume slices bytes.

(** A system call answers a count or, when negative, an [errno]; it acts on the caller's
    context and on memory. *)
Record IoOperations (C : Type) := MkIoOperations {
  io_read : option (C -> Memory -> Z -> option pointer -> Z -> Z * Z * (C * Memory));
  io_write : option (C -> Memory -> Z -> option pointer -> Z -> Z * Z * (C * Memory)) }.
Arguments MkIoOperations {C}.
Arguments io_read {C}.
Arguments io_write {C}.

Definition transfer_result (result errno : Z) (diagnostic : string) : Result Z :=
  if result <? 0 then Err (from_errno errno diagnostic) else Ok (cast size_t result).

Definition read_once {C : Type} (c : C) (m : Memory) (descriptor : Z) (output : MutableByteView)
    (operations : IoOperations C) : Result Z * (C * Memory) :=
  match io_read operations with
  | None => (Err (core_error invalid_input "read operation is invalid"), (c, m))
  | Some read =>
      if descriptor <? 0 then (Err (core_error invalid_input "read operation is invalid"), (c, m)) else
      let '(result, errno, s) := read c m descriptor (span_data output) (span_size output) in
      (transfer_result result errno "read operation failed", s)
  end.

Definition write_once {C : Type} (c : C) (m : Memory) (descriptor : Z) (input : ByteView)
    (operations : IoOperations C) : Result Z * (C * Memory) :=
  match io_write operations with
  | None => (Err (core_error invalid_input "write operation is invalid"), (c, m))
  | Some write =>
      if descriptor <? 0 then (Err (core_error invalid_input "write operation is invalid"), (c, m)) else
      let '(result, errno, s) := write c m descriptor (span_data input) (span_size input) in
      (transfer_result result errno "write operation failed", s)
  end.

(** ** The invariant and the bytes a list stands for *)
Fixpoint total_size (l : list IoSlice) : Z :=
  match l with [] => 0 | s :: rest => IoSlice_size s + total_size rest end.

Record slices_inv (l : IoSliceList) : Prop := {
  si_count : 0 <= sl_count l <= Z.of_nat (length (sl_storage l));
  si_capacity : Z.of_nat (length (sl_storage l)) <= size_max;
  si_nonempty : Forall (fun s => 0 < IoSlice_size s) (IoSliceList_slices l);
  si_bytes : sl_bytes l = total_size (IoSliceList_slices l) /\ sl_bytes l <= size_max }.

Fixpoint slices_bytes (m : Memory) (l : list IoSlice) : option (list Z) :=
  match l with
  | [] => Some []
  | s :: rest => b ← span_bytes m (io_bytes s); r ← slices_bytes m rest; Some (b ++ r)
  end.

(** Dropping [n] bytes from the front of a list of slices. *)
Fixpoint drop_bytes (n : Z) (l : list IoSlice) : list IoSlice :=
  match l with
  | [] => []
  | s :: rest =>
      if n =? 0 then l
      else if IoSlice_size s <=? n then drop_bytes (n - IoSlice_size s) rest
      else MkIoSlice (subspan (io_bytes s) n (IoSlice_size s - n)) :: rest
  end.

Lemma total_size_nonneg l : Forall (fun s => 0 < IoSlice_size s) l -> 0 <= total_size l.
Proof. induction 1; simpl; lia. Qed.

Lemma drop_bytes_0 l : drop_bytes 0 l = l.
Proof. by destruct l. Qed.

Lemma drop_bytes_total n l :
  Forall (fun s => 0 < IoSlice_size s) l -> 0 <= n <= total_size l ->
  total_size (drop_bytes n l) = total_size l - n /\
  Forall (fun s => 0 < IoSlice_size s) (drop_bytes n l).
Proof.
  intros Hl. revert n. induction Hl as [|s l Hs Hl IH]; intros n Hn; simpl in *; [split; [lia|constructor]|].
  destruct (Z.eqb_spec n 0) as [->|]; [simpl; split; [lia|by constructor]|].
  destruct (Z.leb_spec (IoSlice_size s) n).
  - destruct (IH (n - IoSlice_size s)) as [H1 H2]; [lia|]. split; [lia|done].
  - simpl. unfold IoSlice_size at 1. simpl. split; [lia|]. constructor; [|done].
    unfold IoSlice_size. simpl. unfold IoSlice_size in *. lia.
Qed.

(** The bytes after a drop. *)
Lemma drop_bytes_bytes m n l all :
  Forall (fun s => 0 < IoSlice_size s <= size_max) l -> 0 <= n <= total_size l ->
  slices_bytes m l = Some all -> slices_bytes m (drop_bytes n l) = Some (drop (Z.to_nat n) all).
Proof.
  intros Hl. revert n all. induction Hl as [|s l Hs Hl IH]; intros n all Hn Hall; simpl in *.
  { injection Hall as <-. by rewrite drop_nil. }
  destruct (span_bytes m (io_bytes s)) as [b|] eqn:Hb; simpl in Hall; [|done].
  destruct (slices_bytes m l) as [r|] eqn:Hr; simpl in Hall; [|done]. injection Hall as <-.
  assert (Hlen : Z.of_nat (length b) = IoSlice_size s) by (eapply span_bytes_length; [unfold IoSlice_size in Hs; lia|done]).
  destruct (Z.eqb_spec n 0) as [->|]; [simpl; by rewrite Hb, Hr|].
  destruct (Z.leb_spec (IoSlice_size s) n).
  - rewrite (IH _ r) by (done || lia). f_equal. rewrite drop_app_ge by lia. f_equal. lia.
  - simpl.
    destruct (slice_ok m (io_bytes s) n (IoSlice_size s - n) b) as [_ ->]; try done;
      unfold IoSlice_size in *; try lia.
    simpl. rewrite Hr. simpl. f_equal. rewrite drop_app_le by lia. f_equal.
    apply take_ge. rewrite length_drop. lia.
Qed.

(** ** The loops *)
(** The removal loop stops at the first slice that is not consumed whole. *)
Lemma removed_loop_run fuel storage count remaining removed :
  0 <= removed <= count -> count <= Z.of_nat (length storage) <= size_max ->
  count - removed <= Z.of_nat fuel ->
  Forall (fun s => 0 < IoSlice_size s) (drop (Z.to_nat removed) (take (Z.to_nat count) storage)) ->
  0 <= remaining <= total_size (drop (Z.to_nat removed) (take (Z.to_nat count) storage)) ->
  remaining <= size_max ->
  exists remaining' removed',
    removed_loop fuel storage count remaining removed = Ret (remaining', removed') /\
    removed <= removed' <= count /\ 0 <= remaining' <= remaining /\
    drop_bytes remaining (drop (Z.to_nat removed) (take (Z.to_nat count) storage)) =
      drop_bytes remaining' (drop (Z.to_nat removed') (take (Z.to_nat count) storage)) /\
    (remaining' <> 0 -> exists s, storage !! Z.to_nat removed' = Some s /\ removed' < count /\
                          remaining' < IoSlice_size s).
Proof.
  revert remaining removed. induction fuel as [|fuel IH]; intros remaining removed Hr Hc Hf Hpos Hrem Hmax;
    simpl.
  { assert (removed = count) as -> by lia. rewrite Z.ltb_irrefl. exists remaining, count.
    rewrite drop_ge in Hrem by (rewrite length_take; lia). simpl in Hrem.
    split; [done|]. split; [lia|]. split; [lia|]. split; [done|]. lia. }
  destruct (Z.ltb_spec removed count) as [Hlt|Hge].
  2: { exists remaining, removed. assert (removed = count) as -> by lia.
    rewrite drop_ge in Hrem by (rewrite length_take; lia). simpl in Hrem.
    split; [done|]. split; [lia|]. split; [lia|]. split; [done|]. lia. }
  destruct (lookup_lt_is_Some_2 storage (Z.to_nat removed)) as [s Hs]; [lia|].
  rewrite (slot_ok storage removed s Hs). cbn [mbind outcome_bind].
  assert (Hd : drop (Z.to_nat removed) (take (Z.to_nat count) storage) =
               s :: drop (Z.to_nat (removed + 1)) (take (Z.to_nat count) storage)).
  { replace (Z.to_nat (removed + 1)) with (S (Z.to_nat removed)) by lia. apply drop_S.
    rewrite lookup_take_lt by lia. done. }
  rewrite Hd in *. apply Forall_cons_1 in Hpos as [Hspos Hpos]. simpl in Hrem.
  destruct (Z.leb_spec (IoSlice_size s) remaining) as [Hle|Hgt].
  - rewrite (u64_small (remaining - IoSlice_size s)), (u64_small (removed + 1))
      by (unfold size_max in *; lia).
    destruct (IH (remaining - IoSlice_size s) (removed + 1)) as (rem' & rm' & -> & H1 & H2 & H3 & H4);
      try done; try lia.
    exists rem', rm'. split; [done|]. split; [lia|]. split; [lia|]. split; [|done].
    rewrite <- H3. simpl. destruct (Z.eqb_spec remaining 0); [lia|].
    by rewrite (proj2 (Z.leb_le _ _)) by lia.
  - exists remaining, removed. split; [done|]. split; [lia|]. split; [lia|]. rewrite Hd.
    split; [done|]. intros _. exists s. done.
Qed.

(** The shift moves the remaining slices to the front. *)
Lemma shift_loop_run n storage index removed :
  0 < removed <= index -> index + Z.of_nat n <= Z.of_nat (length storage) <= size_max ->
  shift_loop n storage index removed =
    Ret (list_inserts (Z.to_nat (index - removed)) (take n (drop (Z.to_nat index) storage)) storage).
Proof.
  revert storage index. induction n as [|n IH]; intros storage index Hr Hl; [done|]. simpl shift_loop.
  destruct (lookup_lt_is_Some_2 storage (Z.to_nat index)) as [s Hs]; [lia|].
  rewrite (slot_ok storage index s Hs). cbn [mbind outcome_bind].
  rewrite (u64_small (index - removed)) by (unfold size_max in *; lia).
  rewrite set_slot_ok by lia. cbn [mbind outcome_bind].
  rewrite (u64_small (index + 1)) by (unfold size_max in *; lia).
  rewrite IH by (rewrite ?length_insert; lia). f_equal.
  replace (Z.to_nat (index + 1 - removed)) with (S (Z.to_nat (index - removed))) by lia.
  replace (Z.to_nat (index + 1)) with (S (Z.to_nat index)) by lia.
  rewrite drop_insert_lt by lia. rewrite list_inserts_step by lia.
  by rewrite (drop_S storage s (Z.to_nat index) Hs).
Qed.

Lemma take_inserts_front {A} (k l : list A) : (length k <= length l)%nat -> take (length k) (list_inserts 0 k l) = k.
Proof.
  intros Hl. apply list_eq. intros i. destruct (decide (i < length k)%nat).
  - rewrite lookup_take_lt by done. rewrite list_lookup_inserts by lia. f_equal. lia.
  - rewrite lookup_take_ge by lia. by rewrite lookup_ge_None_2 by lia.
Qed.

Lemma IoSlice_consume_ok s n :
  0 <= n <= IoSlice_size s -> IoSlice_size s <= size_max ->
  IoSlice_consume s n = (Ok tt, MkIoSlice (subspan (io_bytes s) n (IoSlice_size s - n))).
Proof.
  intros Hn Hs. unfold IoSlice_consume, IoSlice_size in *. rewrite (proj2 (Z.ltb_ge _ _)) by lia.
  rewrite u64_small by (unfold size_max in *; lia). unfold ByteView_slice.
  by rewrite checked_range_size_ok by (unfold size_max in *; lia).
Qed.

Lemma total_size_member l s : Forall (fun s => 0 < IoSlice_size s) l -> s ∈ l -> IoSlice_size s <= total_size l.
Proof.
  induction 1 as [|x l Hx Hl IH]; intros Hs; [by apply elem_of_nil in Hs|]. simpl.
  pose proof (total_size_nonneg l Hl). apply elem_of_cons in Hs as [->|Hs]; [lia|]. specialize (IH Hs). lia.
Qed.

(** Trimming the first kept slice in place, then shifting, drops the consumed bytes. *)
Lemma trim_front storage count removed remaining s :
  0 <= removed < count -> count <= Z.of_nat (length storage) ->
  storage !! Z.to_nat removed = Some s -> remaining <> 0 -> remaining < IoSlice_size s ->
  drop (Z.to_nat removed) (take (Z.to_nat count)
    (<[Z.to_nat removed := MkIoSlice (subspan (io_bytes s) remaining (IoSlice_size s - remaining))]> storage)) =
  drop_bytes remaining (drop (Z.to_nat removed) (take (Z.to_nat count) storage)).
Proof.
  intros Hr Hc Hs Hne Hlt.
  rewrite (drop_S (take (Z.to_nat count) storage) s (Z.to_nat removed)) by (rewrite lookup_take_lt by lia; done).
  simpl. rewrite (proj2 (Z.eqb_neq _ _)), (proj2 (Z.leb_gt _ _)) by done.
  erewrite drop_S; [|rewrite lookup_take_lt by lia; apply list_lookup_insert_eq; lia].
  f_equal.
  apply list_eq. intros i. rewrite !lookup_drop.
  destruct (decide (S (Z.to_nat removed) + i < Z.to_nat count)%nat).
  - rewrite !lookup_take_lt by done. by rewrite list_lookup_insert_ne by lia.
  - by rewrite !lookup_take_ge by lia.
Qed.

(** The part of [consume] that trims the first slice that is not consumed whole. *)
Lemma trim_run storage count bytes remaining removed :
  0 <= count <= Z.of_nat (length storage) ->
  Forall (fun s => 0 < IoSlice_size s) (take (Z.to_nat count) storage) ->
  0 <= remaining -> 0 <= removed -> total_size (take (Z.to_nat count) storage) <= size_max ->
  drop_bytes bytes (take (Z.to_nat count) storage) =
    drop_bytes remaining (drop (Z.to_nat removed) (take (Z.to_nat count) storage)) ->
  (remaining <> 0 -> exists s, storage !! Z.to_nat removed = Some s /\ removed < count /\
                       remaining < IoSlice_size s) ->
  exists storage1, (if negb (remaining =? 0) then
      s ← slot storage removed;
      match IoSlice_consume s remaining with
      | (Err _, _) => Stop Terminated
      | (Ok _, s') => set_slot storage removed s'
      end else Ret storage) = Ret storage1 /\ length storage1 = length storage /\
      drop (Z.to_nat removed) (take (Z.to_nat count) storage1) =
        drop_bytes bytes (take (Z.to_nat count) storage).
Proof.
  intros Hc Hpos Hrem Hrm Hmax Hdrop Hstop.
  destruct (Z.eqb_spec remaining 0) as [->|Hne]; cbn [negb].
  - exists storage. split; [done|]. split; [done|]. by rewrite Hdrop, drop_bytes_0.
  - destruct (Hstop Hne) as (s & Hs & Hlt & Hsz).
    assert (Hin : s ∈ take (Z.to_nat count) storage).
    { apply list_elem_of_lookup. exists (Z.to_nat removed). rewrite lookup_take_lt by lia. done. }
    pose proof (total_size_member _ _ Hpos Hin).
    rewrite (slot_ok storage removed s Hs). cbn [mbind outcome_bind].
    rewrite IoSlice_consume_ok by lia. rewrite set_slot_ok by lia. eexists. split; [done|].
    rewrite length_insert. split; [done|]. rewrite trim_front by (done || lia). done.
Qed.

(** The part of [consume] that moves the slices still in use to the front. *)
Lemma shift_run storage1 count removed kept :
  0 <= removed <= count -> count <= Z.of_nat (length storage1) <= size_max ->
  drop (Z.to_nat removed) (take (Z.to_nat count) storage1) = kept ->
  exists storage2 count2, (if negb (removed =? 0) then
      storage' ← shift_loop (Z.to_nat (count - removed)) storage1 removed removed;
      Ret (storage', u64 (count - removed))
    else Ret (storage1, count)) = Ret (storage2, count2) /\ length storage2 = length storage1 /\
      0 <= count2 <= count /\ take (Z.to_nat count2) storage2 = kept.
Proof.
  intros Hr [Hc Hcap] Hd1.
  destruct (Z.eqb_spec removed 0) as [->|Hne]; cbn [negb].
  - exists storage1, count. rewrite drop_0 in Hd1. split; [done|]. split; [done|]. split; [lia|done].
  - rewrite shift_loop_run by lia. cbn [mbind outcome_bind].
    rewrite u64_small by (unfold size_max in *; lia). eexists _, _. split; [done|].
    rewrite length_inserts. split; [done|]. split; [lia|]. rewrite Z.sub_diag, <- Hd1.
    assert (take (Z.to_nat (count - removed)) (drop (Z.to_nat removed) storage1) =
            drop (Z.to_nat removed) (take (Z.to_nat count) storage1)) as ->.
    { rewrite skipn_firstn_comm. f_equal. lia. }
    set (k := drop (Z.to_nat removed) (take (Z.to_nat count) storage1)).
    assert (Hk : length k = Z.to_nat (count - removed))
      by (unfold k; rewrite length_drop, length_take; lia).
    rewrite <- Hk. apply take_inserts_front. lia.
Qed.

Lemma consume_run l bytes :
  slices_inv l -> 0 <= bytes <= sl_bytes l ->
  exists l', IoSliceList_consume l bytes = Ret (Ok tt, l') /\ slices_inv l' /\
    IoSliceList_slices l' = drop_bytes bytes (IoSliceList_slices l) /\
    length (sl_storage l') = length (sl_storage l) /\ sl_bytes l' = sl_bytes l - bytes.
Proof.
  intros [Hc Hcap Hpos [Hb Hbm]] Hn. unfold IoSliceList_consume.
  rewrite (proj2 (Z.ltb_ge _ _)) by lia. unfold IoSliceList_slices in *.
  destruct (removed_loop_run (Z.to_nat (sl_count l)) (sl_storage l) (sl_count l) bytes 0)
    as (remaining & removed & -> & Hrm & Hrem & Hdrop & Hstop); try lia; try (by rewrite drop_0).
  { rewrite drop_0. lia. }
  cbn [mbind outcome_bind]. rewrite drop_0 in Hdrop.
  set (count := sl_count l) in *. set (storage := sl_storage l) in *.
  destruct (trim_run storage count bytes remaining removed)
    as (storage1 & -> & Hl1 & Hd1); try done; try lia.
  cbn [mbind outcome_bind].
  destruct (shift_run storage1 count removed _ Hrm ltac:(lia) Hd1)
    as (storage2 & count2 & -> & Hl2 & Hc2 & Hd2). rewrite Hl1 in Hl2.
  cbn [mbind outcome_bind]. rewrite u64_small by (unfold size_max in *; lia).
  destruct (drop_bytes_total bytes (take (Z.to_nat count) storage) Hpos) as [Ht Hp]; [lia|].
  eexists. split; [done|]. split; [|simpl; done].
  split; unfold IoSliceList_slices; simpl; rewrite ?Hd2, ?Hl2; try done; lia || (split; lia).
Qed.

Lemma slices_bytes_app m a b :
  slices_bytes m (a ++ b) = (x ← slices_bytes m a; y ← slices_bytes m b; Some (x ++ y)).
Proof.
  induction a as [|s a IH]; simpl; [by destruct (slices_bytes m b)|].
  destruct (span_bytes m (io_bytes s)); simpl; [|done]. rewrite IH.
  destruct (slices_bytes m a); simpl; [|done]. destruct (slices_bytes m b); simpl; [|done].
  by rewrite app_assoc.
Qed.

Lemma total_size_app a b : total_size (a ++ b) = total_size a + total_size b.
Proof. induction a; simpl; lia. Qed.

Lemma slices_bytes_length m l all :
  Forall (fun s => 0 < IoSlice_size s) l -> slices_bytes m l = Some all -> Z.of_nat (length all) = total_size l.
Proof.
  intros Hl. revert all. induction Hl as [|s l Hs Hl IH]; intros all Ha; simpl in *; [by injection Ha as <-|].
  destruct (span_bytes m (io_bytes s)) as [b|] eqn:Hb; simpl in Ha; [|done].
  destruct (slices_bytes m l) as [r|]; simpl in Ha; [|done]. injection Ha as <-.
  rewrite length_app, Nat2Z.inj_add, (IH r eq_refl).
  unfold IoSlice_size in *. rewrite (span_bytes_length _ _ _ (Z.lt_le_incl _ _ Hs) Hb). done.
Qed.

Lemma append_run l v :
  slices_inv l -> 0 <= span_size v <= size_max ->
  exists r l', IoSliceList_append l v = Ret (r, l') /\ slices_inv l' /\
    match r with
    | Err _ => l' = l /\ (sl_count l = IoSliceList_capacity l \/ size_max < sl_bytes l + span_size v)
    | Ok _ => IoSliceList_slices l' =
                IoSliceList_slices l ++ (if span_size v =? 0 then [] else [MkIoSlice v])
    end.
Proof.
  intros HI Hv. pose proof HI as [Hc Hcap Hpos [Hb Hbm]]. unfold IoSliceList_append, span_empty.
  destruct (Z.eqb_spec (span_size v) 0) as [E|E].
  { eexists _, _. split; [done|]. split; [done|]. by rewrite app_nil_r. }
  destruct (Z.eqb_spec (sl_count l) (IoSliceList_capacity l)) as [Ec|Ec].
  { eexists _, _. split; [done|]. split; [done|]. auto. }
  unfold IoSliceList_capacity in Ec.
  assert (0 <= sl_bytes l) by (rewrite Hb; by apply total_size_nonneg).
  destruct (checked_add_size_cases (sl_bytes l) (span_size v)) as [[Hfit ->]|[Hover ->]]; [lia|lia| |].
  2: { eexists _, _. split; [done|]. split; [done|]. auto. }
  rewrite set_slot_ok by lia. cbn [mbind outcome_bind].
  rewrite u64_small by (unfold size_max in *; lia).
  assert (Hsl : IoSliceList_slices (MkIoSliceList (<[Z.to_nat (sl_count l) := MkIoSlice v]> (sl_storage l))
      (sl_count l + 1) (sl_bytes l + span_size v)) = IoSliceList_slices l ++ [MkIoSlice v]).
  { unfold IoSliceList_slices. simpl.
    replace (Z.to_nat (sl_count l + 1)) with (S (Z.to_nat (sl_count l))) by lia.
    erewrite take_S_r by (apply list_lookup_insert_eq; lia). by rewrite take_insert_ge by lia. }
  eexists _, _. split; [done|]. split; [|done].
  split; rewrite ?Hsl; cbn [sl_count sl_storage sl_bytes]; rewrite ?length_insert; [lia|lia| |].
  - apply Forall_app. split; [done|]. constructor; [|constructor]. unfold IoSlice_size. simpl. lia.
  - rewrite total_size_app. simpl. unfold IoSlice_size. simpl. lia.
Qed.

Lemma translate_loop_run slices output index :
  0 <= index -> index + Z.of_nat (length slices) <= Z.of_nat (length output) <= size_max ->
  translate_loop slices output index =
    Ret (index + Z.of_nat (length slices),
         list_inserts (Z.to_nat index)
           (map (fun s => MkIovec (span_data (io_bytes s)) (IoSlice_size s)) slices) output).
Proof.
  revert output index. induction slices as [|s slices IH]; intros output index Hi Hl; simpl translate_loop.
  { simpl. by rewrite Z.add_0_r. }
  simpl in Hl. rewrite set_slot_ok by lia. cbn [mbind outcome_bind].
  rewrite u64_small by (unfold size_max in *; lia). rewrite IH by (rewrite ?length_insert; lia).
  f_equal. f_equal; [simpl length; lia|].
  replace (Z.to_nat (index + 1)) with (S (Z.to_nat index)) by lia.
  by rewrite list_inserts_step by lia.
Qed.

(** ** Properties *)

(** A slice list stands for the concatenation of its slices' bytes.  Appending a view
    appends its bytes or is refused and changes nothing; consuming [n] bytes drops exactly
    the first [n], however they are spread over slices, never faults, and leaves no empty
    slice behind; asking for more than there is changes nothing. *)
Theorem io_slices_refine_bytes (m : Memory) (l : IoSliceList) (all b : list Z) (v : ByteView) (n : Z) :
  slices_inv l -> slices_bytes m (IoSliceList_slices l) = Some all ->
  0 <= span_size v <= size_max -> span_bytes m v = Some b -> 0 <= n ->
  (exists r l', IoSliceList_append l v = Ret (r, l') /\ slices_inv l' /\
     (has_value r = true -> slices_bytes m (IoSliceList_slices l') = Some (all ++ b)) /\
     (has_value r = false -> l' = l)) /\
  (exists r l', IoSliceList_consume l n = Ret (r, l') /\ slices_inv l' /\
     (n <= Z.of_nat (length all) ->
        r = Ok tt /\ slices_bytes m (IoSliceList_slices l') = Some (drop (Z.to_nat n) all)) /\
     (Z.of_nat (length all) < n -> has_value r = false /\ l' = l)).
Proof.
  intros HI Hall Hv Hb Hn. pose proof HI as [_ _ Hpos [Hsum Hmax]].
  pose proof (slices_bytes_length _ _ _ Hpos Hall) as Hlen. split.
  - destruct (append_run l v HI Hv) as (r & l' & -> & HI' & Hr). exists r, l'.
    split; [done|]. split; [done|]. destruct r as [[]|e]; (split; [|done || (intros _; tauto)]); [|done].
    intros _. rewrite Hr, slices_bytes_app, Hall. simpl.
    destruct (Z.eqb_spec (span_size v) 0) as [E|E]; simpl.
    + assert (b = []) as -> by (apply length_zero_iff_nil; pose proof (span_bytes_length _ _ _ (proj1 Hv) Hb); lia).
      done.
    + rewrite Hb. simpl. by rewrite app_nil_r.
  - destruct (Z.leb_spec n (sl_bytes l)) as [Hle|Hgt].
    + destruct (consume_run l n HI) as (l' & -> & HI' & Hs & _); [lia|]. exists (Ok tt), l'.
      split; [done|]. split; [done|]. split; [|lia]. intros _. split; [done|]. rewrite Hs.
      apply drop_bytes_bytes; try done; [|lia]. apply Forall_forall. intros s Hin.
      pose proof (total_size_member _ s Hpos ltac:(by apply list_elem_of_In)).
      rewrite Forall_forall in Hpos. specialize (Hpos s Hin). lia.
    + unfold IoSliceList_consume. rewrite (proj2 (Z.ltb_lt _ _)) by lia.
      eexists _, _. split; [done|]. split; [done|]. split; [lia|]. done.
Qed.

(** Translation to I/O vectors needs exactly as many vectors as slices; it then writes
    each slice's address and size in order and leaves the remaining vectors alone. *)
Theorem translate_iovecs_spec (l : IoSliceList) (output : list iovec) :
  slices_inv l -> Z.of_nat (length output) <= size_max ->
  translate_iovecs l output =
    Ret (if sl_count l <=? Z.of_nat (length output)
         then (Ok (sl_count l),
               list_inserts 0 (map (fun s => MkIovec (span_data (io_bytes s)) (IoSlice_size s))
                                   (IoSliceList_slices l)) output)
         else (Err (core_error exhaustion "POSIX I/O vector storage is exhausted"), output)).
Proof.
  intros [Hc Hcap _ _] Ho. unfold translate_iovecs. rewrite Z.ltb_antisym.
  destruct (Z.leb_spec (sl_count l) (Z.of_nat (length output))); [|done]. simpl negb. cbv iota.
  assert (Hlen : Z.of_nat (length (IoSliceList_slices l)) = sl_count l)
    by (unfold IoSliceList_slices; rewrite length_take; lia).
  rewrite translate_loop_run by lia. cbn [mbind outcome_bind]. by rewrite Hlen.
Qed.

Definition demo_slices : IoSliceList :=
  MkIoSliceList [MkIoSlice (MkSpan (Some (MkPointer 0 0)) 2); MkIoSlice (MkSpan (Some (MkPointer 0 2)) 3);
                 MkIoSlice empty_span] 2 5.

Lemma demo_slices_inv : slices_inv demo_slices.
Proof.
  split; simpl; try (unfold size_max, u64_max; lia); try done.
  - repeat constructor.
Qed.

Lemma io_slices_refine_bytes_witness :
  exists r l', IoSliceList_consume demo_slices 3 = Ret (r, l') /\ r = Ok tt /\
    slices_bytes demo_memory (IoSliceList_slices l') = Some [13; 14].
Proof.
  destruct (proj2 (io_slices_refine_bytes demo_memory demo_slices [10; 11; 12; 13; 14] [] empty_span 3
    demo_slices_inv eq_refl ltac:(simpl; unfold size_max, u64_max; lia) eq_refl ltac:(lia)))
    as (r & l' & H1 & _ & H2 & _).
  exists r, l'. split; [exact H1|]. apply H2. simpl. lia.
Defined.

Lemma translate_iovecs_spec_witness :
  translate_iovecs demo_slices (replicate 2 (MkIovec None 0)) =
    Ret (Ok 2, [MkIovec (Some (MkPointer 0 0)) 2; MkIovec (Some (MkPointer 0 2)) 3]).
Proof.
  rewrite (translate_iovecs_spec demo_slices (replicate 2 (MkIovec None 0)) demo_slices_inv
    ltac:(simpl; unfold size_max, u64_max; lia)).
  reflexivity.
Defined.
