(* ===== verification/BoundedArena.v ===== *)
(** * The bounded arena

    Models [src/core/contract/laghu/core/bounded_arena.hpp]: the arena, its views, pins,
    quiescent boundaries and the polymorphic memory resource over it.  The block source is
    the caller's and acts on its own context.  An arena has an address, because views and
    boundaries remember which arena they came from. *)
From S2P Require Import Prelude Contract CheckedArithmetic Identifiers MemoryBudget BudgetClient Views.
From S2P Require Import BoundedBuffer.
From Stdlib Require Import ZArith Lia String.
From stdpp Require Import base numbers list gmap option.

Set Default Goal Selector "!".
#[local] Open Scope Z_scope.

Record ArenaView := MkArenaView {
  av_arena : option nat; av_bytes : MutableByteView; av_generation : Z }.

Record ArenaBlockSource (C : Type) := MkArenaBlockSource {
  as_acquire : option (C -> Z -> Result MutableByteView * C);
  as_reset : option (C -> Result unit * C) }.
Arguments MkArenaBlockSource {C}.
Arguments as_acquire {C}.
Arguments as_reset {C}.

Record ArenaQuiescentBoundary := MkArenaQuiescentBoundary {
  qb_arena : nat; qb_generation : Z }.

Record BoundedArena (C : Type) := MkBoundedArena {
  ba_address : nat;
  ba_worker : WorkerId;
  ba_budget : nat;
  ba_source : ArenaBlockSource C;
  ba_storage : MutableByteView;
  ba_reservation : nat;
  ba_initial_capacity : Z;
  ba_maximum_capacity : Z;
  ba_capacity : Z;
  ba_offset : Z;
  ba_live_pins : Z;
  ba_generation : Z }.
Arguments MkBoundedArena {C}.
Arguments ba_address {C}.
Arguments ba_worker {C}.
Arguments ba_budget {C}.
Arguments ba_source {C}.
Arguments ba_storage {C}.
Arguments ba_reservation {C}.
Arguments ba_initial_capacity {C}.
Arguments ba_maximum_capacity {C}.
Arguments ba_capacity {C}.
Arguments ba_offset {C}.
Arguments ba_live_pins {C}.
Arguments ba_generation {C}.

(** A pin points to the arena it keeps from being reset, if any. *)
Record ArenaPin := MkArenaPin { pin_arena : option nat }.

Definition arena_worker_error : Error :=
  core_error invalid_state "bounded arena accessed by a different worker".
Definition arena_alignment_error : Error :=
  core_error invalid_input "bounded arena alignment must be a nonzero power of two".
Definition arena_exhausted_error : Error :=
  core_error exhaustion "bounded arena maximum capacity is exhausted".
Definition arena_source_error : Error :=
  core_error invalid_input "bounded arena has an invalid block source or capacity".
Definition arena_small_block_error : Error :=
  core_error exhaustion "bounded arena block source is smaller than the maximum".
Definition arena_boundary_error : Error :=
  core_error invalid_state "bounded arena reset requires its current quiescent boundary".
Definition arena_pinned_error : Error :=
  core_error invalid_state "bounded arena reset requires all live pins to be released".
Definition arena_generation_error : Error :=
  core_error overflow "bounded arena generation is exhausted".
Definition arena_stale_error : Error :=
  core_error invalid_state "bounded arena view was invalidated by reset".

(** [is_valid_alignment]; the slab pool has the same function. *)
Definition is_valid_alignment (alignment : Z) : bool :=
  negb (alignment =? 0) && (Z.land alignment (u64 (alignment - 1)) =? 0).

Section arena.
Context {C : Type}.
Implicit Types (this : BoundedArena C) (h : Heap) (c : C).

Definition BoundedArena_construct (address : nat) (worker : WorkerId) (budget : nat)
    (source : ArenaBlockSource C) (reservation : nat) (initial_capacity maximum_capacity : Z) :
    BoundedArena C :=
  MkBoundedArena address worker budget source empty_span reservation initial_capacity
    maximum_capacity 0 0 0 1.

Definition set_arena this (storage : MutableByteView) (capacity offset live_pins generation : Z) :
    BoundedArena C :=
  MkBoundedArena (ba_address this) (ba_worker this) (ba_budget this) (ba_source this) storage
    (ba_reservation this) (ba_initial_capacity this) (ba_maximum_capacity this)
    capacity offset live_pins generation.

(** The destructor's guard. *)
Definition BoundedArena_destroy this h : outcome Heap :=
  r ← the_reservation h (ba_reservation this);
  if MemoryReservation_is_active r || negb (ba_live_pins this =? 0) then Stop Terminated
  else MemoryReservation_destroy h (ba_reservation this).

Definition BoundedArena_require_worker this (worker : WorkerId) : Result unit :=
  if negb (value_ worker =? value_ (ba_worker this)) then Err arena_worker_error else Ok tt.

(** The acquisition passed to [reserve_for_allocation]. *)
Definition arena_acquire this (x : MutableByteView * C) : outcome (Result unit * (MutableByteView * C)) :=
  match as_acquire (ba_source this) with
  | None => Stop Undefined
  | Some acquire =>
      let '(source_block, c) := acquire (snd x) (ba_maximum_capacity this) in
      match source_block with
      | Err e => Ret (Err e, (fst x, c))
      | Ok block =>
          if span_size block <? ba_maximum_capacity this
          then Ret (Err arena_small_block_error, (fst x, c))
          else Ret (Ok tt, (block, c))
      end
  end.

Definition BoundedArena_ensure_capacity this h c (worker : WorkerId) (required : Z) :
    outcome (Result unit * (BoundedArena C * Heap * C)) :=
  if match as_acquire (ba_source this) with None => true | Some _ => false end ||
     match as_reset (ba_source this) with None => true | Some _ => false end ||
     (ba_initial_capacity this =? 0) || (ba_maximum_capacity this <? ba_initial_capacity this)
  then Ret (Err arena_source_error, (this, h, c))
  else if required <=? ba_capacity this then Ret (Ok tt, (this, h, c)) else
  target ← doubling_loop doubling_fuel
    (if ba_capacity this =? 0 then ba_initial_capacity this else ba_capacity this)
    required (ba_maximum_capacity this);
  let target := if ba_maximum_capacity this <? target then ba_maximum_capacity this else target in
  r ← the_reservation h (ba_reservation this);
  if negb (MemoryReservation_is_active r) then
    '(reservation, h, x) ← MemoryBudget_reserve_for_allocation h (ba_budget this) worker target
        (arena_acquire this) (empty_span, c);
    let '(acquired, c) := x in
    match reservation with
    | Err e => Ret (Err e, (this, h, c))
    | Ok reservation =>
        h ← MemoryReservation_adopt h (ba_reservation this) reservation;
        Ret (Ok tt, (set_arena this acquired target (ba_offset this) (ba_live_pins this) (ba_generation this), h, c))
    end
  else
    '(expanded, h) ← MemoryReservation_grow h (ba_reservation this) worker (u64 (target - ba_capacity this));
    match expanded with
    | Err e => Ret (Err e, (this, h, c))
    | Ok _ =>
        Ret (Ok tt, (set_arena this (ba_storage this) target (ba_offset this) (ba_live_pins this)
                       (ba_generation this), h, c))
    end.

Definition BoundedArena_try_allocate this h c (worker : WorkerId) (bytes alignment : Z) :
    outcome (Result ArenaView * (BoundedArena C * Heap * C)) :=
  TRY _ ⇐ BoundedArena_require_worker this worker AT (this, h, c) IN
  if negb (is_valid_alignment alignment) then Ret (Err arena_alignment_error, (this, h, c)) else
  if bytes =? 0 then
    Ret (Ok (MkArenaView (Some (ba_address this)) empty_span (ba_generation this)), (this, h, c))
  else
  let remainder := ba_offset this mod alignment in
  let padding := if remainder =? 0 then 0 else u64 (alignment - remainder) in
  TRY aligned_offset ⇐ checked_add size_t (ba_offset this) padding AT (this, h, c) IN
  TRY required ⇐ checked_add size_t aligned_offset bytes AT (this, h, c) IN
  if ba_maximum_capacity this <? required then Ret (Err arena_exhausted_error, (this, h, c)) else
  ('(capacity, (this, h, c)) ← BoundedArena_ensure_capacity this h c worker required;
   TRY _ ⇐ capacity AT (this, h, c) IN
   match MutableByteView_from (subspan (ba_storage this) aligned_offset bytes) with
   | Err _ => Stop Terminated
   | Ok allocation =>
       Ret (Ok (MkArenaView (Some (ba_address this)) allocation (ba_generation this)),
            (set_arena this (ba_storage this) (ba_capacity this) required (ba_live_pins this)
               (ba_generation this), h, c))
   end).

Definition BoundedArena_quiescent_boundary this (worker : WorkerId) : Result ArenaQuiescentBoundary :=
  _ ← BoundedArena_require_worker this worker;
  Ok (MkArenaQuiescentBoundary (ba_address this) (ba_generation this)).

Definition BoundedArena_reset this h c (worker : WorkerId) (boundary : ArenaQuiescentBoundary) :
    outcome (Result unit * (BoundedArena C * Heap * C)) :=
  TRY _ ⇐ BoundedArena_require_worker this worker AT (this, h, c) IN
  if negb (bool_decide (qb_arena boundary = ba_address this)) ||
     negb (qb_generation boundary =? ba_generation this)
  then Ret (Err arena_boundary_error, (this, h, c)) else
  if negb (ba_live_pins this =? 0) then Ret (Err arena_pinned_error, (this, h, c)) else
  if ba_generation this =? u64_max then Ret (Err arena_generation_error, (this, h, c)) else
  match as_reset (ba_source this) with
  | None => Ret (Err (core_error invalid_input "bounded arena has an invalid block source"), (this, h, c))
  | Some reset =>
      let '(source_reset, c) := reset c in
      TRY _ ⇐ source_reset AT (this, h, c) IN
      ('(_, h) ← MemoryReservation_release h (ba_reservation this) worker;
       Ret (Ok tt, (set_arena this empty_span 0 0 (ba_live_pins this) (u64 (ba_generation this + 1)), h, c)))
  end.

Definition BoundedArena_view_for this (bytes : MutableByteView) (generation : Z) : Result MutableByteView :=
  if negb (generation =? ba_generation this) then Err arena_stale_error else Ok bytes.

(** [ArenaView::bytes], the arena pointer being dereferenced when it is not null. *)
Definition ArenaView_bytes (this : ArenaView) (arena : BoundedArena C) : Result MutableByteView :=
  match av_arena this with
  | None => Err (core_error invalid_state "bounded arena view is empty")
  | Some _ => BoundedArena_view_for arena (av_bytes this) (av_generation this)
  end.

(** ** Pins *)
Definition BoundedArena_pin this (worker : WorkerId) : Result ArenaPin * BoundedArena C :=
  match BoundedArena_require_worker this worker with
  | Err e => (Err e, this)
  | Ok _ =>
      if ba_live_pins this =? size_max then
        (Err (core_error exhaustion "bounded arena pin capacity is exhausted"), this)
      else
        (Ok (MkArenaPin (Some (ba_address this))),
         set_arena this (ba_storage this) (ba_capacity this) (ba_offset this)
           (u64 (ba_live_pins this + 1)) (ba_generation this))
  end.

Definition BoundedArena_release_pin this : outcome (BoundedArena C) :=
  if ba_live_pins this =? 0 then Stop Terminated
  else Ret (set_arena this (ba_storage this) (ba_capacity this) (ba_offset this)
              (u64 (ba_live_pins this - 1)) (ba_generation this)).

(** Pins are objects beside the arena they point to. *)
Definition ArenaPin_release (arena : BoundedArena C) (this : ArenaPin) : outcome (BoundedArena C * ArenaPin) :=
  arena ← (match pin_arena this with None => Ret arena | Some _ => BoundedArena_release_pin arena end);
  Ret (arena, MkArenaPin None).

(** The move constructor: the new pin and what is left of the old one. *)
Definition ArenaPin_move_construct (other : ArenaPin) : ArenaPin * ArenaPin :=
  (MkArenaPin (pin_arena other), MkArenaPin None).

(** Move assignment between two distinct pins; self-assignment does nothing. *)
Definition ArenaPin_move_assign (arena : BoundedArena C) (this other : ArenaPin) :
    outcome (BoundedArena C * ArenaPin * ArenaPin) :=
  '(arena, _) ← ArenaPin_release arena this;
  Ret (arena, MkArenaPin (pin_arena other), MkArenaPin None).

Definition ArenaPin_destroy (arena : BoundedArena C) (this : ArenaPin) : outcome (BoundedArena C) :=
  '(arena, _) ← ArenaPin_release arena this; Ret arena.

(** ** [ArenaPmrResource] *)
Definition ArenaPmrResource_do_allocate (arena : BoundedArena C) h c (worker : WorkerId)
    (bytes alignment : Z) : outcome (option pointer * (BoundedArena C * Heap * C)) :=
  '(allocation, (arena, h, c)) ←
    BoundedArena_try_allocate arena h c worker (if bytes =? 0 then 1 else bytes) alignment;
  match allocation with
  | Err _ => Stop Terminated
  | Ok view =>
      match ArenaView_bytes view arena with
      | Err _ => Stop Terminated
      | Ok bytes_view => Ret (span_data bytes_view, (arena, h, c))
      end
  end.
End arena.
