(* ===== verification/ArenaSpec.v ===== *)
(** * The arena hands out disjoint, aligned, generation-checked views

    The invariant of an arena with its heap, the behaviour of each operation on every
    branch, and the account of all views issued along any sequence of operations. *)
From S2P Require Import Prelude Contract CheckedArithmetic Identifiers MemoryBudget BudgetInvariant.
From S2P Require Import MemoryBudgetSpec BudgetClient Views BlockSource BoundedBuffer BufferSpec BoundedArena.
From Stdlib Require Import ZArith Lia String.
From stdpp Require Import base numbers list gmap option.

Set Default Goal Selector "!".
#[local] Open Scope Z_scope.

(** ** Alignments are powers of two *)
Lemma is_valid_alignment_iff a :
  0 <= a <= u64_max -> is_valid_alignment a = true <-> exists k, 0 <= k /\ a = 2 ^ k.
Proof.
  intros Ha. unfold is_valid_alignment. split.
  - rewrite andb_true_iff, negb_true_iff, Z.eqb_neq, Z.eqb_eq. intros [Hne Hl].
    rewrite u64_small in Hl by lia. exists (Z.log2 a). split; [apply Z.log2_nonneg|].
    destruct (Z.log2_spec a) as [Hlo Hhi]; [lia|].
    destruct (Z.eq_dec a (2 ^ Z.log2 a)) as [|Hd]; [done|]. exfalso.
    assert (a <> 1) by (by intros ->).
    assert (Z.testbit (Z.land a (a - 1)) (Z.log2 a) = true) as Hb.
    { rewrite Z.land_spec, Z.bit_log2 by lia. simpl.
      replace (Z.log2 a) with (Z.log2 (a - 1)); [apply Z.bit_log2; lia|].
      apply Z.log2_unique; [apply Z.log2_nonneg|lia]. }
    rewrite Hl, Z.bits_0 in Hb. done.
  - intros (k & Hk & ->). pose proof (pow2_pos k Hk).
    rewrite (proj2 (Z.eqb_neq _ _)) by lia. rewrite u64_small by lia. simpl.
    rewrite Z.sub_1_r, <- Z.ones_equiv, Z.land_ones by done.
    apply Z.eqb_eq, Z.mod_same. lia.
Qed.

(** A [MutableByteView] never pairs a null pointer with a nonzero size. *)
Definition view_ok (v : span) : Prop :=
  0 <= span_size v <= size_max /\ (span_data v = None -> span_size v = 0).

Section arena_spec.
Context {C : Type} (acquire : C -> Z -> Result MutableByteView * C) (reset : C -> Result unit * C).
Context (acquire_view : forall c n v c', acquire c n = (Ok v, c') -> view_ok v).
Implicit Types (this : BoundedArena C) (h : Heap) (c : C).

Definition arena_source : ArenaBlockSource C := MkArenaBlockSource (Some acquire) (Some reset).

Record arena_inv this h : Prop := {
  ai_heap : Inv h;
  ai_budget : exists b, budgets h !! ba_budget this = Some b /\
    reservations h !! ba_reservation this = Some (charge_of (ba_budget this) (ba_capacity this)) /\
    (ba_capacity this <> 0 -> value_ (mb_worker b) = value_ (ba_worker this));
  ai_source : ba_source this = arena_source;
  ai_offsets : 0 <= ba_offset this <= ba_capacity this /\
    ba_capacity this <= ba_maximum_capacity this <= size_max /\
    0 <= ba_initial_capacity this <= size_max;
  ai_storage : if decide (ba_capacity this = 0) then ba_storage this = empty_span
    else view_ok (ba_storage this) /\ ba_maximum_capacity this <= span_size (ba_storage this) /\
         1 <= ba_initial_capacity this <= ba_maximum_capacity this;
  ai_counts : 0 <= ba_live_pins this <= size_max /\ 1 <= ba_generation this <= u64_max }.

(** What an operation never changes. *)
Record same_arena this this' : Prop := {
  sa_address : ba_address this' = ba_address this;
  sa_worker : ba_worker this' = ba_worker this;
  sa_budget : ba_budget this' = ba_budget this;
  sa_reservation : ba_reservation this' = ba_reservation this;
  sa_maximum : ba_maximum_capacity this' = ba_maximum_capacity this }.

Lemma arena_worker_ok this worker :
  value_ worker = value_ (ba_worker this) -> BoundedArena_require_worker this worker = Ok tt.
Proof. intros E. unfold BoundedArena_require_worker. by rewrite E, Z.eqb_refl. Qed.

(** The effect of [ensure_capacity]: only storage, capacity and the charge can change, and
    the storage only when there was none. *)
Definition ensured this h c required (r : Result unit) this' h' c' : Prop :=
  (ba_capacity this <> 0 -> c' = c) /\
  match r with
  | Err _ => this' = this /\ budgets h' = budgets h /\ arena_inv this h'
  | Ok _ =>
      arena_inv this' h' /\ same_arena this this' /\ budgets_kept h h' /\
      required <= ba_capacity this' /\ ba_offset this' = ba_offset this /\
      ba_live_pins this' = ba_live_pins this /\ ba_generation this' = ba_generation this /\
      (ba_capacity this <> 0 -> ba_storage this' = ba_storage this) /\
      (ba_capacity this = 0 -> acquire c (ba_maximum_capacity this) = (Ok (ba_storage this'), c'))
  end.

Lemma ensure_first_run this h c worker target required :
  arena_inv this h -> ba_capacity this = 0 -> value_ worker = value_ (ba_worker this) ->
  1 <= ba_initial_capacity this <= ba_maximum_capacity this ->
  1 <= target <= ba_maximum_capacity this -> required <= target ->
  exists r this' h' c',
    ('(reservation, h, x) ← MemoryBudget_reserve_for_allocation h (ba_budget this) worker target
        (arena_acquire this) (empty_span, c);
     let '(acquired, c) := x in
     match reservation with
     | Err e => Ret (Err e, (this, h, c))
     | Ok reservation =>
         h ← MemoryReservation_adopt h (ba_reservation this) reservation;
         Ret (Ok tt, (set_arena this acquired target (ba_offset this) (ba_live_pins this) (ba_generation this), h, c))
     end) = Ret (r, (this', h', c')) /\ ensured this h c required r this' h' c'.
Proof.
  intros HI Hc Hw Hinit Ht Hreq. pose proof HI as [Hh (b & Hb & Hr & _) Hsrc Ho Hst Hn].
  rewrite Hc in Hr. change (charge_of (ba_budget this) 0) with inactive_reservation in Hr.
  assert (exists racq v c1, arena_acquire this (empty_span, c) = Ret (racq, (v, c1)) /\
    (racq = Ok tt -> view_ok v /\ ba_maximum_capacity this <= span_size v /\
       acquire c (ba_maximum_capacity this) = (Ok v, c1))) as (racq & v & c1 & Hacq & Hpost).
  { unfold arena_acquire. rewrite Hsrc. simpl.
    destruct (acquire c (ba_maximum_capacity this)) as [[v|e] c1] eqn:E; [|by eexists _, _, _].
    destruct (Z.ltb_spec (span_size v) (ba_maximum_capacity this)); [by eexists _, _, _|].
    eexists _, _, _. split; [done|]. intros _. split; [by eapply acquire_view|]. split; [lia|done]. }
  destruct (charge_member_run h (ba_reservation this) (ba_budget this) b worker target
    (arena_acquire this) (empty_span, c) _ racq Hh Hb ltac:(lia) Hr Hacq) as [(e & ->)|(h' & Hcase)].
  { cbn [mbind outcome_bind]. eexists _, _, _, _. split; [done|]. done. }
  destruct racq as [[]|e].
  - destruct Hcase as (Hwb & temporary & h1 & -> & Hadopt & Hset). cbn [mbind outcome_bind].
    rewrite Hadopt. cbn [mbind outcome_bind]. destruct (Hpost eq_refl) as (Hv & Hsz & Hsrc_ok).
    eexists _, _, _, _. split; [done|]. split; [done|]. split; [|repeat split; try done; apply Hset].
    destruct (hs_kept _ _ _ _ Hset _ _ Hb) as (b' & Hb' & Hw' & _).
    split; simpl; try done; try lia; [apply Hset| |].
    + exists b'. split; [done|]. rewrite (hs_res _ _ _ _ Hset), lookup_insert_eq. split; [done|].
      intros _. congruence.
    + rewrite decide_False by lia. done.
  - destruct Hcase as (-> & Hset & Hbud). cbn [mbind outcome_bind].
    eexists _, _, _, _. split; [done|]. split; [done|]. split; [done|]. split; [done|].
    split; try done; [apply Hset|]. exists b. rewrite Hbud. split; [done|]. rewrite (hs_res _ _ _ _ Hset), lookup_insert_eq, Hc. done.
Qed.

Lemma ensure_run this h c worker required :
  arena_inv this h -> value_ worker = value_ (ba_worker this) ->
  0 < required <= ba_maximum_capacity this ->
  exists r this' h' c', BoundedArena_ensure_capacity this h c worker required = Ret (r, (this', h', c')) /\
    ensured this h c required r this' h' c'.
Proof.
  intros HI Hw Hreq. pose proof HI as [Hh (b & Hb & Hr & Hbw) Hsrc Ho Hst Hn].
  unfold BoundedArena_ensure_capacity. rewrite Hsrc. simpl orb.
  destruct (_ || _) eqn:Ev; [by eexists _, _, _, _|].
  rewrite orb_false_iff, Z.eqb_neq, Z.ltb_ge in Ev.
  destruct (Z.leb_spec required (ba_capacity this)) as [Hfit|Hgrow].
  { eexists _, _, _, _. split; [done|]. split; [done|]. split; [done|]. repeat split; done || lia. }
  destruct (doubling_enough (if ba_capacity this =? 0 then ba_initial_capacity this else ba_capacity this)
    required (ba_maximum_capacity this)) as (t & -> & Ht & Htr & _).
  { destruct (Z.eqb_spec (ba_capacity this) 0); lia. }
  { lia. }
  cbn [mbind outcome_bind]. rewrite (proj2 (Z.ltb_ge _ _)) by lia.
  unfold the_reservation. rewrite Hr. cbn [mbind outcome_bind].
  unfold MemoryReservation_is_active, charge_of.
  revert Ht. destruct (Z.eqb_spec (ba_capacity this) 0) as [E|E]; intros Ht;
    simpl bool_decide; simpl negb; cbv iota.
  - apply ensure_first_run; try done; lia.
  - rewrite u64_small by (unfold size_max in *; lia).
    destruct (grow_member_run h (ba_reservation this) (ba_budget this) b worker (ba_capacity this)
      (t - ba_capacity this) Hh Hb ltac:(lia) ltac:(unfold is_size; lia) ltac:(lia) Hr)
      as [(e & ->)|(h' & -> & Hset & _)]; cbn [mbind outcome_bind].
    { eexists _, _, _, _. split; [done|]. done. }
    replace (ba_capacity this + (t - ba_capacity this)) with t in Hset by lia.
    eexists _, _, _, _. split; [done|]. split; [done|]. split; [|repeat split; try done; apply Hset].
    destruct (hs_kept _ _ _ _ Hset _ _ Hb) as (b' & Hb' & Hw' & _).
    rewrite decide_False in Hst by done.
    split; simpl; try done; try lia; [apply Hset| |].
    + exists b'. split; [done|]. rewrite (hs_res _ _ _ _ Hset), lookup_insert_eq. split; [done|].
      intros _. rewrite Hw'. by apply Hbw.
    + rewrite decide_False by lia. done.
Qed.
(** ** Allocation *)
Definition allocated this h c bytes alignment (r : Result ArenaView) this' h' c' : Prop :=
  (ba_capacity this <> 0 -> c' = c) /\
  match r with
  | Err _ => this' = this /\ budgets h' = budgets h /\ arena_inv this h'
  | Ok v =>
      arena_inv this' h' /\ same_arena this this' /\ budgets_kept h h' /\
      av_arena v = Some (ba_address this) /\ av_generation v = ba_generation this /\
      ba_live_pins this' = ba_live_pins this /\ ba_generation this' = ba_generation this /\
      (ba_capacity this <> 0 -> ba_storage this' = ba_storage this) /\
      if decide (bytes = 0) then av_bytes v = empty_span /\ this' = this
      else (ba_capacity this = 0 ->
              acquire c (ba_maximum_capacity this) = (Ok (ba_storage this'), c')) /\
           exists start, av_bytes v = subspan (ba_storage this') start bytes /\
             start mod alignment = 0 /\ ba_offset this <= start < ba_offset this + alignment /\
             ba_offset this' = start + bytes
  end.

Lemma allocate_run this h c worker bytes alignment :
  arena_inv this h -> value_ worker = value_ (ba_worker this) -> is_size bytes -> is_size alignment ->
  exists r this' h' c', BoundedArena_try_allocate this h c worker bytes alignment = Ret (r, (this', h', c')) /\
    allocated this h c bytes alignment r this' h' c'.
Proof.
  unfold is_size. intros HI Hw Hn Ha. pose proof HI as [Hh Hb Hsrc Ho Hst Hc].
  assert (Herr : forall e, allocated this h c bytes alignment (Err e) this h c) by done.
  unfold BoundedArena_try_allocate. rewrite arena_worker_ok by done.
  destruct (is_valid_alignment alignment) eqn:Hal; simpl negb; cbv iota; [|by eexists _, _, _, _].
  apply is_valid_alignment_iff in Hal as (k & Hk & Hpow); [|done].
  assert (Hpos : 0 < alignment) by (subst; by apply pow2_pos).
  destruct (Z.eqb_spec bytes 0) as [->|Hne].
  { eexists _, _, _, _. split; [done|]. unfold allocated. rewrite decide_True by done.
    split; [done|]. split; [done|]. by repeat split. }
  pose proof (Z.mod_pos_bound (ba_offset this) alignment Hpos) as Hmod.
  set (padding := if ba_offset this mod alignment =? 0 then 0 else u64 (alignment - ba_offset this mod alignment)).
  assert (Hpad : ba_offset this + padding = align_up (ba_offset this) alignment).
  { unfold padding, align_up. destruct (Z.eqb_spec (ba_offset this mod alignment) 0); [done|].
    by rewrite u64_small by (unfold size_max in *; lia). }
  destruct (align_up_spec (ba_offset this) alignment) as [Hmult Hrange]; [lia|done|].
  rewrite <- Hpad in Hmult, Hrange.
  destruct (checked_add_size_cases (ba_offset this) padding) as [[H1 ->]|[H1 ->]];
    [lia|lia| |by eexists _, _, _, _].
  destruct (checked_add_size_cases (ba_offset this + padding) bytes) as [[H2 ->]|[H2 ->]];
    [lia|lia| |by eexists _, _, _, _].
  destruct (Z.ltb_spec (ba_maximum_capacity this) (ba_offset this + padding + bytes)) as [|Hmax];
    [by eexists _, _, _, _|].
  destruct (ensure_run this h c worker (ba_offset this + padding + bytes) HI Hw) as (r & this' & h' & c' & -> & Hr);
    [lia|].
  cbn [mbind outcome_bind]. destruct r as [[]|e]; [|by eexists _, _, _, _].
  destruct Hr as (Hctx & HI' & Hsame & Hkept & Hcap & Hoff & Hpins & Hgen & Hstor & Hfirst).
  pose proof HI' as [Hh' Hb' Hsrc' Ho' Hst' Hc']. rewrite decide_False in Hst' by lia.
  destruct Hst' as ([Hv1 Hv2] & Hv3 & Hv4).
  unfold MutableByteView_from. simpl span_data.
  destruct (span_data (ba_storage this')) as [p|] eqn:Hd; [|specialize (Hv2 eq_refl); lia].
  simpl fmap. rewrite bool_decide_false by done. simpl andb. cbv iota.
  eexists _, _, _, _. split; [done|]. unfold allocated. rewrite decide_False by done. simpl.
  split; [done|]. destruct Hsame as [E1 E2 E3 E4 E5]. rewrite <- Hgen.
  split.
  - split; simpl; try done; try lia. rewrite decide_False by lia. split; [split; [done|by rewrite Hd]|done].
  - split; [by split|]. split; [done|]. split; [by rewrite E1|]. split; [done|]. split; [done|].
    split; [done|]. split; [done|]. split; [done|]. exists (ba_offset this + padding). split; [done|]. lia.
Qed.

(** ** Reset *)
(** A branch on which the reset is refused. *)
Ltac refused_reset := eexists _, _, _, _; split; [done|]; split; [done|]; split; [done|]; eauto.

Lemma reset_run this h c worker boundary :
  arena_inv this h -> value_ worker = value_ (ba_worker this) ->
  exists r this' h' c', BoundedArena_reset this h c worker boundary = Ret (r, (this', h', c')) /\
    match r with
    | Err _ => this' = this /\ h' = h /\ (c' = c \/ exists e, reset c = (Err e, c'))
    | Ok _ =>
        arena_inv this' h' /\ same_arena this this' /\ budgets_kept h h' /\
        ba_live_pins this = 0 /\ ba_live_pins this' = 0 /\
        qb_arena boundary = ba_address this /\ qb_generation boundary = ba_generation this /\
        ba_generation this' = ba_generation this + 1 /\ ba_offset this' = 0 /\ ba_capacity this' = 0 /\
        reservations h' !! ba_reservation this = Some inactive_reservation
    end.
Proof.
  intros HI Hw. pose proof HI as [Hh (b & Hb & Hr & Hbw) Hsrc Ho Hst Hc].
  unfold BoundedArena_reset. rewrite arena_worker_ok by done.
  destruct (_ || _) eqn:E1; [refused_reset|].
  rewrite orb_false_iff, !negb_false_iff, bool_decide_eq_true, Z.eqb_eq in E1.
  destruct (Z.eqb_spec (ba_live_pins this) 0) as [Hpins|]; simpl negb; cbv iota; [|refused_reset].
  destruct (Z.eqb_spec (ba_generation this) u64_max) as [|Hgen]; [refused_reset|].
  rewrite Hsrc. simpl as_reset. cbv iota. destruct (reset c) as [[[]|e] c1];
    [|refused_reset].
  destruct (reservation_release_run h (ba_reservation this) _ worker Hh Hr)
    as [(b' & _ & (a & Ha & Hb') & Hbad)|Hrel].
  { exfalso. unfold charge_of in Ha. destruct (Z.eqb_spec (ba_capacity this) 0); [done|].
    injection Ha as <-. assert (b' = b) as -> by congruence. apply Hbad. rewrite Hbw by done. done. }
  rewrite Hrel. cbn [mbind outcome_bind].
  destruct (release_unchecked_run h _ _ Hh Hr) as (_ & HI' & _).
  assert (Hr' : reservations (after_release h (ba_reservation this) (charge_of (ba_budget this) (ba_capacity this)))
            !! ba_reservation this = Some inactive_reservation).
  { unfold after_release, charge_of in *. destruct (Z.eqb_spec (ba_capacity this) 0); simpl; [done|].
    apply lookup_insert_eq. }
  assert (Hk : budgets_kept h (after_release h (ba_reservation this) (charge_of (ba_budget this) (ba_capacity this)))).
  { unfold after_release. destruct (mr_budget _) as [a|]; [|done].
    by apply (budgets_kept_update _ _ a (- mr_bytes (charge_of (ba_budget this) (ba_capacity this))) (-1)). }
  rewrite u64_small by lia.
  eexists _, _, _, _. split; [done|]. split; [|repeat split; done || apply E1 || lia].
  split; simpl; try done; try lia.
  destruct (Hk _ _ Hb) as (b' & Hb' & _). exists b'. done.
Qed.
(** ** All views issued along a run *)
Record ArenaState := MkArenaState {
  st_arena : BoundedArena C; st_heap : Heap; st_context : C;
  st_views : list ArenaView; st_pins : list ArenaPin }.

Inductive ArenaOp :=
  | AAllocate (bytes alignment : Z)
  | APin
  | AUnpin (index : nat)
  | AReset (boundary : ArenaQuiescentBoundary).

Definition exec_arena (s : ArenaState) (worker : WorkerId) (op : ArenaOp) : outcome ArenaState :=
  match op with
  | AAllocate bytes alignment =>
      '(r, (a, h, c)) ← BoundedArena_try_allocate (st_arena s) (st_heap s) (st_context s) worker bytes alignment;
      Ret (MkArenaState a h c (match r with Ok v => v :: st_views s | Err _ => st_views s end) (st_pins s))
  | APin =>
      let '(r, a) := BoundedArena_pin (st_arena s) worker in
      Ret (MkArenaState a (st_heap s) (st_context s) (st_views s)
             (match r with Ok p => p :: st_pins s | Err _ => st_pins s end))
  | AUnpin index =>
      match st_pins s !! index with
      | None => Stop Undefined
      | Some p =>
          a ← ArenaPin_destroy (st_arena s) p;
          Ret (MkArenaState a (st_heap s) (st_context s) (st_views s) (delete index (st_pins s)))
      end
  | AReset boundary =>
      '(_, (a, h, c)) ← BoundedArena_reset (st_arena s) (st_heap s) (st_context s) worker boundary;
      Ret (MkArenaState a h c (st_views s) (st_pins s))
  end.

Definition arena_legal (s : ArenaState) (op : ArenaOp) : Prop :=
  match op with
  | AAllocate bytes alignment => is_size bytes /\ is_size alignment
  | APin => True
  | AUnpin index => (index < length (st_pins s))%nat
  | AReset _ => True
  end.

(** Views of one generation, newest first, each inside the storage and behind the ones
    before it. *)
Inductive stacked (storage : MutableByteView) : Z -> list ArenaView -> Prop :=
  | stacked_nil o : 0 <= o -> stacked storage o []
  | stacked_empty o v views :
      stacked storage o views -> av_bytes v = empty_span -> stacked storage o (v :: views)
  | stacked_range o o' v start n views :
      stacked storage o views -> o <= start -> 0 < n -> start + n <= o' ->
      av_bytes v = subspan storage start n -> stacked storage o' (v :: views).

Definition current this (v : ArenaView) : Prop := av_generation v = ba_generation this.

#[local] Instance current_decision this v : Decision (current this v).
Proof. unfold current. apply _. Defined.

Record state_ok (s : ArenaState) : Prop := {
  ok_arena : arena_inv (st_arena s) (st_heap s);
  ok_pins : ba_live_pins (st_arena s) = Z.of_nat (length (st_pins s)) /\
    Forall (fun p => pin_arena p = Some (ba_address (st_arena s))) (st_pins s);
  ok_generations : Forall (fun v => av_arena v = Some (ba_address (st_arena s)) /\
    av_generation v <= ba_generation (st_arena s)) (st_views s);
  ok_stacked : stacked (ba_storage (st_arena s)) (ba_offset (st_arena s))
    (filter (current (st_arena s)) (st_views s)) }.

Lemma stacked_in_empty storage storage' views o :
  o = 0 -> stacked storage o views -> stacked storage' o views.
Proof.
  intros Ho Hs. assert (Hz : forall o views, stacked storage o views -> 0 <= o).
  { clear. induction 1; lia. }
  revert Ho. induction Hs as [o Ho|o v views Hs IH Hv|o o' v start n views Hs IH Hst Hn Hr Hv]; intros E.
  - by constructor.
  - constructor; auto.
  - specialize (Hz _ _ Hs). lia.
Qed.

Lemma filter_generation (a a' : BoundedArena C) (views : list ArenaView) :
  ba_generation a' = ba_generation a ->
  filter (current a') views = filter (current a) views.
Proof. intros E. apply list_filter_iff. intros v. unfold current. by rewrite E. Qed.

Lemma exec_allocate_ok s worker bytes alignment :
  state_ok s -> value_ worker = value_ (ba_worker (st_arena s)) -> arena_legal s (AAllocate bytes alignment) ->
  exists s', exec_arena s worker (AAllocate bytes alignment) = Ret s' /\ state_ok s' /\ same_arena (st_arena s) (st_arena s').
Proof.
  intros [HI [Hp1 Hp2] Hg Hs] Hw Hl. simpl.
  destruct Hl as [Hb Ha].
  destruct (allocate_run (st_arena s) (st_heap s) (st_context s) worker bytes alignment HI Hw Hb Ha)
    as (r & a & h & c & -> & Hr).
  cbn [mbind outcome_bind]. eexists. split; [done|]. destruct r as [v|e].
  - destruct Hr as (_ & HI' & Hsame & _ & Hav & Hvg & Hpins & Hgen & Hstor & Hcase). split; [|done].
    pose proof Hsame as [E1 _ _ _ _].
    assert (Hst : stacked (ba_storage a) (ba_offset (st_arena s)) (filter (current (st_arena s)) (st_views s))).
    { destruct (decide (ba_capacity (st_arena s) = 0)) as [Hc|Hc].
      - eapply stacked_in_empty; [|done]. destruct HI as [_ _ _ Ho _ _]. lia.
      - by rewrite Hstor. }
    split; simpl; rewrite ?E1, ?Hgen; [done|by rewrite Hpins| |].
    + constructor; [|done]. rewrite Hav, Hvg. split; [done|lia].
    + rewrite filter_cons. rewrite (filter_generation (st_arena s) a) by done.
      rewrite decide_True by (unfold current; congruence).
      destruct (decide (bytes = 0)) as [->|Hne].
      * destruct Hcase as [Hbytes ->]. by constructor.
      * destruct Hcase as (_ & start & Hbytes & _ & Hrange & Hoff). unfold is_size in *.
         eapply (stacked_range _ _ _ _ start bytes); [done|lia|lia|lia|done].
  - destruct Hr as (_ & -> & _ & HI'). split; [|by split]. by split.
Qed.

Lemma exec_pin_ok s worker :
  state_ok s -> value_ worker = value_ (ba_worker (st_arena s)) -> arena_legal s APin ->
  exists s', exec_arena s worker APin = Ret s' /\ state_ok s' /\ same_arena (st_arena s) (st_arena s').
Proof.
  intros [HI [Hp1 Hp2] Hg Hs] Hw Hl. simpl.
  unfold BoundedArena_pin. rewrite arena_worker_ok by done.
  destruct (Z.eqb_spec (ba_live_pins (st_arena s)) size_max) as [E|E].
  - eexists. split; [done|]. split; [|by split]. by split.
  - eexists. split; [done|]. split; [|by split]. pose proof HI as [H1 H2 H3 H4 H5 H6].
    rewrite u64_small by (unfold size_max in *; lia). split; simpl; try done.
    + split; simpl; try done. lia.
    + split; [lia|]. by constructor.
Qed.

Lemma exec_unpin_ok s worker index :
  state_ok s -> value_ worker = value_ (ba_worker (st_arena s)) -> arena_legal s (AUnpin index) ->
  exists s', exec_arena s worker (AUnpin index) = Ret s' /\ state_ok s' /\ same_arena (st_arena s) (st_arena s').
Proof.
  intros [HI [Hp1 Hp2] Hg Hs] Hw Hl. simpl.
  simpl in Hl. destruct (lookup_lt_is_Some_2 (st_pins s) index Hl) as [p Hpi]. rewrite Hpi.
  assert (pin_arena p = Some (ba_address (st_arena s))) as Hpa.
  { rewrite Forall_lookup in Hp2. by eapply Hp2. }
  unfold ArenaPin_destroy, ArenaPin_release. rewrite Hpa. unfold BoundedArena_release_pin.
  rewrite (proj2 (Z.eqb_neq _ _)) by lia. cbn [mbind outcome_bind].
  pose proof HI as [H1 H2 H3 H4 H5 H6]. rewrite u64_small by (unfold size_max in *; lia).
  eexists. split; [done|]. split; [|by split]. split; simpl; try done.
  - split; simpl; try done. lia.
  - split; [|by apply Forall_delete].
    rewrite length_delete by (eexists; done). lia.
Qed.

Lemma exec_reset_ok s worker boundary :
  state_ok s -> value_ worker = value_ (ba_worker (st_arena s)) -> arena_legal s (AReset boundary) ->
  exists s', exec_arena s worker (AReset boundary) = Ret s' /\ state_ok s' /\ same_arena (st_arena s) (st_arena s').
Proof.
  intros [HI [Hp1 Hp2] Hg Hs] Hw Hl. simpl.
  destruct (reset_run (st_arena s) (st_heap s) (st_context s) worker boundary HI Hw)
    as (r & a & h & c & -> & Hr). cbn [mbind outcome_bind]. eexists. split; [done|].
  destruct r as [[]|e].
  - destruct Hr as (HI' & Hsame & _ & Hpins & Hpins' & _ & _ & Hgen & Hoff & _ & _).
    pose proof Hsame as [E1 _ _ _ _]. split; [|done]. split; simpl; rewrite ?E1; try done.
    + rewrite Hpins'. split; [lia|done].
    + eapply Forall_impl; [|exact Hg]. intros v [H1 H2]. split; [done|lia].
    + rewrite Hoff.
      assert (filter (current a) (st_views s) = []) as ->; [|by constructor].
      clear -Hg Hgen. induction Hg as [|v views [_ Hv] _ IH]; [done|].
      rewrite filter_cons, decide_False; [done|]. unfold current. lia.
  - destruct Hr as (-> & -> & _). split; [|by split]. by split.
Qed.

Lemma exec_arena_ok s worker op :
  state_ok s -> value_ worker = value_ (ba_worker (st_arena s)) -> arena_legal s op ->
  exists s', exec_arena s worker op = Ret s' /\ state_ok s' /\ same_arena (st_arena s) (st_arena s').
Proof.
  destruct op.
  - apply exec_allocate_ok.
  - apply exec_pin_ok.
  - apply exec_unpin_ok.
  - apply exec_reset_ok.
Qed.
(** Ranges stacked in one storage are disjoint and inside the part handed out. *)
Lemma stacked_inside storage o views v :
  stacked storage o views -> v ∈ views ->
  av_bytes v = empty_span \/
  exists start n, av_bytes v = subspan storage start n /\ 0 <= start /\ 0 < n /\ start + n <= o.
Proof.
  assert (Hz : forall o views, stacked storage o views -> 0 <= o) by (clear; induction 1; lia).
  induction 1 as [o Ho|o w views Hs IH Hw|o o' w start n views Hs IH Hst Hn Hr Hw]; intros Hv.
  - by apply elem_of_nil in Hv.
  - apply elem_of_cons in Hv as [->|Hv]; auto.
  - specialize (Hz _ _ Hs). apply elem_of_cons in Hv as [->|Hv].
    + right. exists start, n. split; [done|]. lia.
    + destruct (IH Hv) as [?|(s' & n' & ? & ? & ? & ?)]; [by left|]. right. exists s', n'.
      split; [done|]. lia.
Qed.

Lemma stacked_disjoint storage o views i j a b :
  stacked storage o views -> views !! i = Some a -> views !! j = Some b -> i <> j ->
  disjoint_spans (av_bytes a) (av_bytes b).
Proof.
  intros Hs. revert i j. induction Hs as [o Ho|o w views Hs IH Hw|o o' w start n views Hs IH Hst Hn Hr Hw];
    intros i j Hi Hj Hne; [done|..].
  - destruct i as [|i], j as [|j]; simpl in *; try done; [..|by apply (IH i j); auto].
    + injection Hi as <-. rewrite Hw. by intros ? ? [=].
    + injection Hj as <-. rewrite Hw. by intros ? ? _ [=].
  - assert (Hin : forall k v, views !! k = Some v -> disjoint_spans (subspan storage start n) (av_bytes v)).
    { intros k v Hk. apply list_elem_of_lookup_2 in Hk.
      destruct (stacked_inside _ _ _ _ Hs Hk) as [->|(s' & n' & -> & ? & ? & ?)]; [by intros ? ? _ [=]|].
      intros pa pb Ha Hb. simpl in *. destruct (span_data storage) as [p|]; simpl in *; [|done].
      injection Ha as <-. injection Hb as <-. simpl. right. right. lia. }
    destruct i as [|i], j as [|j]; simpl in *; try done; [..|by apply (IH i j); auto].
    + injection Hi as <-. rewrite Hw. by eapply Hin.
    + injection Hj as <-. rewrite Hw. intros pa pb Ha Hb.
      destruct (Hin i a Hi pb pa Hb Ha) as [?|[?|?]]; auto.
Qed.

Lemma filter_lookup_pair (a : BoundedArena C) (views : list ArenaView) i j x y :
  views !! i = Some x -> views !! j = Some y -> i <> j -> current a x -> current a y ->
  exists i' j', filter (current a) views !! i' = Some x /\ filter (current a) views !! j' = Some y /\ i' <> j'.
Proof.
  revert i j. induction views as [|v views IH]; intros i j Hi Hj Hne Hx Hy; [done|].
  assert (Hin : forall k z, views !! k = Some z -> current a z ->
    exists k', filter (current a) views !! k' = Some z).
  { intros k z Hk Hz. apply list_elem_of_lookup. apply list_elem_of_filter.
    split; [done|]. by eapply list_elem_of_lookup_2. }
  rewrite filter_cons. destruct i as [|i], j as [|j]; simpl in *; try done.
  - injection Hi as <-. rewrite decide_True by done. destruct (Hin j y Hj Hy) as [k Hk].
    by exists 0%nat, (S k).
  - injection Hj as <-. rewrite decide_True by done. destruct (Hin i x Hi Hx) as [k Hk].
    by exists (S k), 0%nat.
  - destruct (IH i j Hi Hj ltac:(auto) Hx Hy) as (i' & j' & H1 & H2 & H3).
    destruct (decide (current a v)); [exists (S i'), (S j')|exists i', j']; auto.
Qed.

Inductive arena_reachable (worker : WorkerId) : ArenaState -> Prop :=
  | arena_start this h c :
      arena_inv this h -> value_ worker = value_ (ba_worker this) ->
      ba_capacity this = 0 -> ba_live_pins this = 0 ->
      arena_reachable worker (MkArenaState this h c [] [])
  | arena_next s op s' :
      arena_reachable worker s -> arena_legal s op -> exec_arena s worker op = Ret s' ->
      arena_reachable worker s'.

Lemma reachable_ok worker s :
  arena_reachable worker s -> state_ok s /\ value_ worker = value_ (ba_worker (st_arena s)).
Proof.
  induction 1 as [this h c HI Hw Hc Hp|s op s' Hr [IH Hw] Hl He].
  - split; [|done]. split; simpl; [done|split; [lia|constructor]|constructor|].
    constructor. destruct HI as [_ _ _ Ho _ _]. lia.
  - destruct (exec_arena_ok s worker op IH Hw Hl) as (s1 & E & Hok & Hsame).
    assert (s1 = s') as -> by congruence. split; [done|]. by rewrite (sa_worker _ _ Hsame).
Qed.

(** ** Properties *)

(** C7: along every run of allocations, pins and resets, no operation faults, and of all the
    views ever issued: those of an earlier generation are refused, the others lie inside the
    handed-out part of the current block and no two of them overlap; the pin counter is the
    number of live pins, and the budget is charged exactly the arena's capacity. *)
Theorem arena_views_safe (worker : WorkerId) (s : ArenaState) :
  arena_reachable worker s ->
  (forall op, arena_legal s op -> exists s', exec_arena s worker op = Ret s') /\
  (forall v, v ∈ st_views s -> av_generation v <> ba_generation (st_arena s) ->
     ArenaView_bytes v (st_arena s) = Err arena_stale_error) /\
  (forall v, v ∈ st_views s -> av_generation v = ba_generation (st_arena s) ->
     ArenaView_bytes v (st_arena s) = Ok (av_bytes v) /\
     (av_bytes v = empty_span \/
      exists start n, av_bytes v = subspan (ba_storage (st_arena s)) start n /\
        0 <= start /\ 0 < n /\ start + n <= ba_offset (st_arena s) <= ba_maximum_capacity (st_arena s))) /\
  (forall i j a b, st_views s !! i = Some a -> st_views s !! j = Some b -> i <> j ->
     has_value (ArenaView_bytes a (st_arena s)) = true -> has_value (ArenaView_bytes b (st_arena s)) = true ->
     disjoint_spans (av_bytes a) (av_bytes b)) /\
  ba_live_pins (st_arena s) = Z.of_nat (length (st_pins s)) /\
  reservations (st_heap s) !! ba_reservation (st_arena s) =
    Some (charge_of (ba_budget (st_arena s)) (ba_capacity (st_arena s))).
Proof.
  intros Hr. apply reachable_ok in Hr as [Hok Hw]. pose proof Hok as [HI [Hp _] Hg Hs].
  rewrite Forall_forall in Hg.
  assert (Hview : forall v, v ∈ st_views s -> ArenaView_bytes v (st_arena s) =
    if av_generation v =? ba_generation (st_arena s) then Ok (av_bytes v) else Err arena_stale_error).
  { intros v Hv%list_elem_of_In. unfold ArenaView_bytes. destruct (Hg v Hv) as [-> _].
    unfold BoundedArena_view_for. by destruct (_ =? _). }
  split; [|split; [|split; [|split; [|split]]]].
  - intros op Hl. destruct (exec_arena_ok s worker op Hok Hw Hl) as (s' & E & _). eauto.
  - intros v Hv Hne. rewrite (Hview v Hv). by rewrite (proj2 (Z.eqb_neq _ _)).
  - intros v Hv He. rewrite (Hview v Hv), (proj2 (Z.eqb_eq _ _)) by done. split; [done|].
    destruct (stacked_inside _ _ _ v Hs) as [?|(st & n & ? & ? & ? & ?)]; [|by left|].
    + apply list_elem_of_filter. done.
    + right. exists st, n. destruct HI as [_ _ _ Ho _ _]. split; [done|]. lia.
  - intros i j a b Hi Hj Hne Ha Hb.
    rewrite (Hview a) in Ha by (by eapply list_elem_of_lookup_2).
    rewrite (Hview b) in Hb by (by eapply list_elem_of_lookup_2).
    destruct (Z.eqb_spec (av_generation a) (ba_generation (st_arena s))) as [Ea|]; [|done].
    destruct (Z.eqb_spec (av_generation b) (ba_generation (st_arena s))) as [Eb|]; [|done].
    destruct (filter_lookup_pair (st_arena s) (st_views s) i j a b) as (i' & j' & H1 & H2 & H3); try done.
    by eapply stacked_disjoint.
  - done.
  - by destruct HI as [_ (b & _ & ? & _) _ _ _ _].
Qed.

(** An allocation returns on every input and, when it succeeds, starts at the first
    multiple of the alignment at or after the bytes already handed out and is exactly as
    long as asked; when it fails nothing changes, neither the arena nor any budget; the source
    is asked for a block only when the arena has none; an alignment that is not a power of
    two is refused. *)
Theorem try_allocate_spec (this : BoundedArena C) (h : Heap) (c : C) (worker : WorkerId)
    (bytes alignment : Z) :
  arena_inv this h -> value_ worker = value_ (ba_worker this) -> is_size bytes -> is_size alignment ->
  exists r this' h' c', BoundedArena_try_allocate this h c worker bytes alignment = Ret (r, (this', h', c')) /\
    allocated this h c bytes alignment r this' h' c' /\
    (has_value r = true -> exists k, 0 <= k /\ alignment = 2 ^ k).
Proof.
  intros HI Hw Hb Ha. destruct (allocate_run this h c worker bytes alignment HI Hw Hb Ha)
    as (r & this' & h' & c' & E & Hr). exists r, this', h', c'. split; [done|]. split; [done|].
  intros Hv. apply is_valid_alignment_iff; [exact Ha|].
  destruct (is_valid_alignment alignment) eqn:Hal; [done|]. exfalso.
  unfold BoundedArena_try_allocate in E. rewrite arena_worker_ok, Hal in E by done. simpl in E.
  injection E as <- _ _ _. done.
Qed.

(** A reset succeeds only for this arena's current boundary with no live pin; it then
    releases the whole charge, empties the arena and advances the generation, which is what
    invalidates every view issued before; any refusal changes nothing. *)
Theorem arena_reset_spec (this : BoundedArena C) (h : Heap) (c : C) (worker : WorkerId)
    (boundary : ArenaQuiescentBoundary) :
  arena_inv this h -> value_ worker = value_ (ba_worker this) ->
  exists r this' h' c', BoundedArena_reset this h c worker boundary = Ret (r, (this', h', c')) /\
    match r with
    | Err _ => this' = this /\ h' = h
    | Ok _ =>
        arena_inv this' h' /\ ba_live_pins this = 0 /\
        BoundedArena_quiescent_boundary this worker = Ok boundary /\
        ba_generation this' = ba_generation this + 1 /\ ba_capacity this' = 0 /\
        reservations h' !! ba_reservation this = Some inactive_reservation
    end.
Proof.
  intros HI Hw. destruct (reset_run this h c worker boundary HI Hw) as (r & this' & h' & c' & E & Hr).
  exists r, this', h', c'. split; [done|]. destruct r as [[]|e]; [|by destruct Hr as (? & ? & _)].
  destruct Hr as (HI' & _ & _ & Hp & _ & Hb1 & Hb2 & Hg & _ & Hcap & Hres).
  split; [done|]. split; [done|]. split; [|done].
  unfold BoundedArena_quiescent_boundary. rewrite arena_worker_ok by done. simpl.
  destruct boundary as [ba bg]; simpl in *. by rewrite Hb1, Hb2.
Qed.
End arena_spec.

(** ** An arena over the budget tree of [demo_tree] *)
Definition bump_arena_acquire (c : nat) (n : Z) : Result MutableByteView * nat :=
  if (0 <=? n) && (n <=? size_max) then (Ok (MkSpan (Some (MkPointer c 0)) n), S c)
  else (Err (core_error exhaustion "no block of that size"), c).
Definition bump_arena_reset (c : nat) : Result unit * nat := (Ok tt, c).

Lemma bump_arena_view c n v c' : bump_arena_acquire c n = (Ok v, c') -> view_ok v.
Proof.
  unfold bump_arena_acquire. destruct (_ && _) eqn:E; [|done]. intros [= <- <-].
  rewrite andb_true_iff, !Z.leb_le in E. split; simpl; [lia|done].
Qed.

Definition demo_arena : BoundedArena nat :=
  BoundedArena_construct 9 demo_worker 1 (arena_source bump_arena_acquire bump_arena_reset) 2 16 32.

Lemma demo_arena_inv : arena_inv bump_arena_acquire bump_arena_reset demo_arena demo_heap.
Proof.
  split; simpl; try done.
  - apply Inv_construct_reservation, reachable_Inv, demo_tree_reachable.
  - exists (MkMemoryBudget demo_worker 60 0 0 0 (Some 0%nat)). done.
Qed.

Lemma demo_size_small n : 0 <= n <= 1000 -> is_size n.
Proof. unfold is_size, size_max, u64_max. lia. Qed.

(** Three bytes, then eight bytes aligned to eight: offsets 0 and 8. *)
Definition demo_arena_state : outcome (ArenaState (C := nat)) :=
  s ← exec_arena (MkArenaState demo_arena demo_heap 0%nat [] []) demo_worker (AAllocate 3 1);
  exec_arena s demo_worker (AAllocate 8 8).

Lemma arena_views_safe_witness :
  match demo_arena_state with
  | Ret s => map av_bytes (st_views s) =
               [MkSpan (Some (MkPointer 0 8)) 8; MkSpan (Some (MkPointer 0 0)) 3] /\
             ba_live_pins (st_arena s) = Z.of_nat (length (st_pins s))
  | Stop _ => False
  end.
Proof.
  assert (match demo_arena_state with Ret s => Some (map av_bytes (st_views s)) | Stop _ => None end =
          Some [MkSpan (Some (MkPointer 0 8)) 8; MkSpan (Some (MkPointer 0 0)) 3]) as Hviews
    by (vm_compute; reflexivity).
  destruct demo_arena_state as [s|f] eqn:E; [|discriminate Hviews].
  split; [injection Hviews as Hviews; exact Hviews|].
  unfold demo_arena_state in E. inv_bind E.
  refine (proj1 (proj2 (proj2 (proj2 (proj2 (arena_views_safe bump_arena_acquire bump_arena_reset
    bump_arena_view demo_worker s _)))))).
  eapply (arena_next _ _ _ _ (AAllocate 8 8)); [|split; apply demo_size_small; lia|exact E].
  eapply (arena_next _ _ _ _ (AAllocate 3 1)); [|split; apply demo_size_small; lia|eassumption].
  apply arena_start; [exact demo_arena_inv|reflexivity..].
Defined.

Lemma try_allocate_spec_witness :
  exists r this' h' c', BoundedArena_try_allocate demo_arena demo_heap 0%nat demo_worker 3 4 =
    Ret (r, (this', h', c')) /\ allocated bump_arena_acquire bump_arena_reset demo_arena demo_heap 0%nat 3 4 r this' h' c'.
Proof.
  destruct (try_allocate_spec bump_arena_acquire bump_arena_reset bump_arena_view demo_arena demo_heap 0%nat
    demo_worker 3 4 demo_arena_inv eq_refl ltac:(apply demo_size_small; lia) ltac:(apply demo_size_small; lia))
    as (r & this' & h' & c' & H1 & H2 & _).
  exists r, this', h', c'. split; [exact H1|exact H2].
Defined.

Lemma arena_reset_spec_witness :
  exists r this' h' c', BoundedArena_reset demo_arena demo_heap 0%nat demo_worker (MkArenaQuiescentBoundary 9 1) =
    Ret (r, (this', h', c')) /\ (forall u, r = Ok u -> ba_generation this' = 2).
Proof.
  destruct (arena_reset_spec bump_arena_acquire bump_arena_reset demo_arena demo_heap 0%nat demo_worker
    (MkArenaQuiescentBoundary 9 1) demo_arena_inv eq_refl) as (r & this' & h' & c' & H1 & H2).
  exists r, this', h', c'. split; [exact H1|]. intros u ->. apply H2.
Defined.

(** Alignment is applied to the offset in the block, not to the address: over a block that
    starts at an odd address, a request aligned to eight gets an odd address. *)
Definition odd_acquire (c : nat) (n : Z) : Result MutableByteView * nat :=
  (Ok (MkSpan (Some (MkPointer c 1)) n), S c).
Definition odd_arena : BoundedArena nat :=
  BoundedArena_construct 9 demo_worker 1 (arena_source odd_acquire bump_arena_reset) 2 16 32.

Example pmr_alignment_relative_to_block :
  match ArenaPmrResource_do_allocate odd_arena demo_heap 0%nat demo_worker 8 8 with
  | Ret (p, _) => p
  | Stop _ => None
  end = Some (MkPointer 0 1).
Proof. vm_compute. reflexivity. Qed.
