(* ===== verification/SlabPool.v ===== *)
(** * The slab pool

    Models [src/core/contract/laghu/core/slab_pool.hpp]: a pool of fixed slots with a free
    list threaded through the vacant ones, and the leases that own the occupied ones.  The
    element type is a parameter, as are [sizeof] and [alignof] of its slot.  The object of a
    slot is present between [construct_at] and [destroy_at]; a [T*] is the index of its slot,
    since every element pointer of the code points into a slot of the pool. *)
From S2P Require Import Prelude Contract CheckedArithmetic Identifiers BoundedArena.
From Stdlib Require Import ZArith Lia String.
From stdpp Require Import base numbers list gmap option.

Set Default Goal Selector "!".
#[local] Open Scope Z_scope.

Record SlabPoolSlot (V : Type) := MkSlabPoolSlot {
  ss_object : option V; ss_next : Z; ss_occupied : bool }.
Arguments MkSlabPoolSlot {V}.
Arguments ss_object {V}.
Arguments ss_next {V}.
Arguments ss_occupied {V}.

(** [no_slot()] *)
Definition no_slot : Z := size_max.

Record Lease := MkLease {
  ls_pool : option nat; ls_index : Z; ls_value : option Z; ls_active : bool }.

Definition Lease_default : Lease := MkLease None no_slot None false.

(** The storage span is its address, null or not, and its slots; the debug hook acts on the
    context the caller registered it with. *)
Record SlabPool (V C : Type) := MkSlabPool {
  sp_address : nat;
  sp_worker : WorkerId;
  sp_data : option Z;
  sp_storage : list (SlabPoolSlot V);
  sp_capacity : Z;
  sp_alignment : Z;
  sp_free_head : Z;
  sp_live_leases : Z;
  sp_double_release : option (C -> C);
  sp_initialized : bool }.
Arguments MkSlabPool {V C}.
Arguments sp_address {V C}.
Arguments sp_worker {V C}.
Arguments sp_data {V C}.
Arguments sp_storage {V C}.
Arguments sp_capacity {V C}.
Arguments sp_alignment {V C}.
Arguments sp_free_head {V C}.
Arguments sp_live_leases {V C}.
Arguments sp_double_release {V C}.
Arguments sp_initialized {V C}.

Definition inactive_lease_error : Error := core_error invalid_state "slab pool lease is inactive".
Definition slab_worker_error : Error :=
  core_error invalid_state "slab pool accessed by a different worker".
Definition slab_exhausted_error : Error := core_error exhaustion "slab pool capacity is exhausted".
Definition slab_alignment_error : Error := core_error invalid_input "slab pool alignment is invalid".
Definition slab_stride_error : Error :=
  core_error invalid_input "slab pool slot stride does not satisfy selected alignment".
Definition slab_storage_error : Error :=
  core_error invalid_input "slab pool storage does not satisfy its layout".

Section slab.
Context {V C : Type} (slot_size slot_alignment : Z) (ndebug : bool).
Implicit Types (this : SlabPool V C) (lease : Lease) (c : C).

Definition SlabPool_construct (address : nat) (worker : WorkerId) (data : option Z)
    (storage : list (SlabPoolSlot V)) (capacity alignment : Z) (hook : option (C -> C)) : SlabPool V C :=
  MkSlabPool address worker data storage capacity alignment no_slot 0 hook false.

Definition set_pool this (storage : list (SlabPoolSlot V)) (free_head live_leases : Z)
    (initialized : bool) : SlabPool V C :=
  MkSlabPool (sp_address this) (sp_worker this) (sp_data this) storage (sp_capacity this)
    (sp_alignment this) free_head live_leases (sp_double_release this) initialized.

Definition SlabPool_destroy this : outcome unit :=
  if negb (sp_live_leases this =? 0) then Stop Terminated else Ret tt.

Definition required_storage_bytes (capacity : Z) : Result Z :=
  checked_multiply size_t capacity slot_size.

Definition SlabPool_available this : Z := u64 (sp_capacity this - sp_live_leases this).

Definition SlabPool_require_worker this (worker : WorkerId) : Result unit :=
  if negb (value_ worker =? value_ (sp_worker this)) then Err slab_worker_error else Ok tt.

(** The loop of [initialize] that links the slots, run for the [n] indices from [index]. *)
Fixpoint link_loop (n : nat) (storage : list (SlabPoolSlot V)) (index capacity : Z) :
    outcome (list (SlabPoolSlot V)) :=
  match n with
  | O => Ret storage
  | S n' =>
      let next := if u64 (index + 1) =? capacity then no_slot else u64 (index + 1) in
      s ← slot storage index;
      storage ← set_slot storage index (MkSlabPoolSlot (ss_object s) next false);
      link_loop n' storage (u64 (index + 1)) capacity
  end.

Definition SlabPool_initialize this : outcome (Result unit * SlabPool V C) :=
  if sp_initialized this then Ret (Ok tt, this) else
  TRY _ ⇐ required_storage_bytes (sp_capacity this) AT this IN
  if negb (is_valid_alignment (sp_alignment this)) || (sp_alignment this <? slot_alignment)
  then Ret (Err slab_alignment_error, this) else
  if (1 <? sp_capacity this) && negb (slot_size mod sp_alignment this =? 0)
  then Ret (Err slab_stride_error, this) else
  if sp_capacity this =? 0
  then Ret (Ok tt, set_pool this (sp_storage this) (sp_free_head this) (sp_live_leases this) true) else
  if (Z.of_nat (length (sp_storage this)) <? sp_capacity this) ||
     match sp_data this with
     | None => true
     | Some address => negb (address mod sp_alignment this =? 0)
     end
  then Ret (Err slab_storage_error, this) else
  storage ← link_loop (Z.to_nat (sp_capacity this)) (sp_storage this) 0 (sp_capacity this);
  Ret (Ok tt, set_pool this storage 0 (sp_live_leases this) true).

(** [try_acquire], the arguments being those of the constructed value. *)
Definition SlabPool_try_acquire this (worker : WorkerId) (value : V) :
    outcome (Result Lease * SlabPool V C) :=
  TRY _ ⇐ SlabPool_require_worker this worker AT this IN
  ('(ready, this) ← SlabPool_initialize this;
   TRY _ ⇐ ready AT this IN
   if sp_free_head this =? no_slot then Ret (Err slab_exhausted_error, this) else
   s ← slot (sp_storage this) (sp_free_head this);
   if ss_occupied s || (sp_live_leases this =? sp_capacity this) then Stop Terminated else
   let index := sp_free_head this in
   storage ← set_slot (sp_storage this) index (MkSlabPoolSlot (Some value) (ss_next s) true);
   Ret (Ok (MkLease (Some (sp_address this)) index (Some index) true),
        set_pool this storage (ss_next s) (u64 (sp_live_leases this + 1)) true)).

(** [std::destroy_at]: undefined unless the pointer designates a live object. *)
Definition destroy_at (storage : list (SlabPoolSlot V)) (value : option Z) :
    outcome (list (SlabPoolSlot V)) :=
  match value with
  | None => Stop Undefined
  | Some index =>
      s ← slot storage index;
      match ss_object s with
      | None => Stop Undefined
      | Some _ => set_slot storage index (MkSlabPoolSlot None (ss_next s) (ss_occupied s))
      end
  end.

Definition SlabPool_release_unchecked this lease : outcome (SlabPool V C * Lease) :=
  if negb (sp_initialized this) || (sp_capacity this <=? ls_index lease) || (sp_live_leases this =? 0)
  then Stop Terminated else
  s ← slot (sp_storage this) (ls_index lease);
  if negb (ss_occupied s) then Stop Terminated else
  storage ← destroy_at (sp_storage this) (ls_value lease);
  s ← slot storage (ls_index lease);
  storage ← set_slot storage (ls_index lease) (MkSlabPoolSlot (ss_object s) (sp_free_head this) false);
  Ret (set_pool this storage (ls_index lease) (u64 (sp_live_leases this - 1)) (sp_initialized this),
       MkLease (ls_pool lease) (ls_index lease) None false).

Definition SlabPool_release this lease (worker : WorkerId) :
    outcome (Result unit * (SlabPool V C * Lease)) :=
  TRY _ ⇐ SlabPool_require_worker this worker AT (this, lease) IN
  ('(this, lease) ← SlabPool_release_unchecked this lease;
   Ret (Ok tt, (this, lease))).

(** With [NDEBUG] nothing, otherwise the hook, or [std::terminate] without one. *)
Definition SlabPool_report_double_release this c : outcome C :=
  if ndebug then Ret c else
  match sp_double_release this with Some hook => Ret (hook c) | None => Stop Terminated end.

(** ** Leases *)
Definition Lease_release this lease c (worker : WorkerId) :
    outcome (Result unit * (SlabPool V C * Lease * C)) :=
  match ls_pool lease with
  | None => Ret (Err inactive_lease_error, (this, lease, c))
  | Some _ =>
      if negb (ls_active lease) then
        c ← SlabPool_report_double_release this c;
        Ret (Err inactive_lease_error, (this, lease, c))
      else
        '(r, (this, lease)) ← SlabPool_release this lease worker;
        Ret (r, (this, lease, c))
  end.

Definition Lease_release_unchecked this lease : outcome (SlabPool V C * Lease) :=
  if ls_active lease then SlabPool_release_unchecked this lease else Ret (this, lease).

(** [move_from]: the new contents and what is left of the source. *)
Definition Lease_move_from (other : Lease) : Lease * Lease := (other, Lease_default).

(** Move assignment between two distinct leases; self-assignment does nothing. *)
Definition Lease_move_assign this lease (other : Lease) : outcome (SlabPool V C * Lease * Lease) :=
  '(this, _) ← Lease_release_unchecked this lease;
  let '(lease, other) := Lease_move_from other in Ret (this, lease, other).

Definition Lease_destroy this lease : outcome (SlabPool V C) :=
  '(this, _) ← Lease_release_unchecked this lease; Ret this.

(** [operator*] *)
Definition Lease_deref this lease : outcome V :=
  match ls_value lease with
  | None => Stop Undefined
  | Some index =>
      s ← slot (sp_storage this) index;
      match ss_object s with Some v => Ret v | None => Stop Undefined end
  end.
End slab.
