(* ===== verification/SlabSpec.v ===== *)
(** * Leases own their slots exclusively

    A client holds any number of lease objects of one pool and acquires, releases, moves and
    destroys them in any order.  The invariant says that the free list threads unoccupied
    slots, that active leases have occupied slots of their own, and that the counters add up;
    the pool then refines a finite map from lease objects to the values they hold. *)
From S2P Require Import Prelude Contract CheckedArithmetic Identifiers BoundedArena SlabPool.
From Stdlib Require Import ZArith Lia String.
From stdpp Require Import base numbers list gmap option.

Set Default Goal Selector "!".
#[local] Open Scope Z_scope.

Section slab_spec.
Context {V C : Type} (slot_size slot_alignment : Z) (ndebug : bool).
Implicit Types (this : SlabPool V C) (lease : Lease) (storage : list (SlabPoolSlot V)).

(** ** The client *)
Record SlabState := MkSlabState {
  sb_pool : SlabPool V C; sb_leases : gmap nat Lease; sb_context : C; sb_next : nat }.

Inductive SlabOp :=
  | SAcquire (worker : WorkerId) (value : V)
  | SRelease (id : nat) (worker : WorkerId)
  | SMoveConstruct (id : nat)
  | SMoveAssign (id other : nat)
  | SDestroy (id : nat).

Definition the_lease (s : SlabState) (id : nat) : outcome Lease :=
  match sb_leases s !! id with Some l => Ret l | None => Stop Undefined end.

Definition exec_slab (s : SlabState) (op : SlabOp) : outcome (Result unit * SlabState) :=
  match op with
  | SAcquire worker value =>
      '(r, pool) ← SlabPool_try_acquire slot_size slot_alignment (sb_pool s) worker value;
      match r with
      | Ok lease => Ret (Ok tt, MkSlabState pool (<[sb_next s := lease]> (sb_leases s)) (sb_context s)
                                  (S (sb_next s)))
      | Err e => Ret (Err e, MkSlabState pool (sb_leases s) (sb_context s) (sb_next s))
      end
  | SRelease id worker =>
      lease ← the_lease s id;
      '(r, (pool, lease, c)) ← Lease_release ndebug (sb_pool s) lease (sb_context s) worker;
      Ret (r, MkSlabState pool (<[id := lease]> (sb_leases s)) c (sb_next s))
  | SMoveConstruct id =>
      other ← the_lease s id;
      let '(lease, other) := Lease_move_from other in
      Ret (Ok tt, MkSlabState (sb_pool s) (<[sb_next s := lease]> (<[id := other]> (sb_leases s)))
                    (sb_context s) (S (sb_next s)))
  | SMoveAssign id other_id =>
      lease ← the_lease s id;
      other ← the_lease s other_id;
      if bool_decide (id = other_id) then Ret (Ok tt, s) else
      '(pool, lease, other) ← Lease_move_assign (sb_pool s) lease other;
      Ret (Ok tt, MkSlabState pool (<[id := lease]> (<[other_id := other]> (sb_leases s)))
                    (sb_context s) (sb_next s))
  | SDestroy id =>
      lease ← the_lease s id;
      pool ← Lease_destroy (sb_pool s) lease;
      Ret (Ok tt, MkSlabState pool (delete id (sb_leases s)) (sb_context s) (sb_next s))
  end.

(** What an active lease shows through [operator*]. *)
Definition lease_value this lease : option V :=
  if ls_active lease then
    match Lease_deref this lease with Ret v => Some v | Stop _ => None end
  else None.

(** The abstract state: the values held, by lease object. *)
Definition held (s : SlabState) : gmap nat V := omap (lease_value (sb_pool s)) (sb_leases s).

(** ** The invariant *)
Fixpoint free_chain (capacity : Z) storage (head : Z) (free : list Z) : Prop :=
  match free with
  | [] => head = no_slot
  | i :: free' => head = i /\ 0 <= i < capacity /\
      exists s, storage !! Z.to_nat i = Some s /\ ss_occupied s = false /\
        free_chain capacity storage (ss_next s) free'
  end.

Definition is_active (_ : nat) lease : Z := if ls_active lease then 1 else 0.

(** A lease object: inactive, or the owner of an occupied slot that holds an object. *)
Definition lease_ok this lease : Prop :=
  if ls_active lease then
    ls_pool lease = Some (sp_address this) /\ ls_value lease = Some (ls_index lease) /\
    0 <= ls_index lease < sp_capacity this /\ sp_initialized this = true /\
    exists s v, sp_storage this !! Z.to_nat (ls_index lease) = Some s /\
      ss_occupied s = true /\ ss_object s = Some v
  else True.

Record slab_inv (s : SlabState) : Prop := {
  si_capacity : 0 <= sp_capacity (sb_pool s) <= size_max;
  si_fresh : forall id, (sb_next s <= id)%nat -> sb_leases s !! id = None;
  si_live : sp_live_leases (sb_pool s) = map_sum is_active (sb_leases s);
  si_leases : forall id l, sb_leases s !! id = Some l -> lease_ok (sb_pool s) l;
  si_distinct : forall i j li lj, sb_leases s !! i = Some li -> sb_leases s !! j = Some lj ->
    ls_active li = true -> ls_active lj = true -> ls_index li = ls_index lj -> i = j;
  si_free : if sp_initialized (sb_pool s) then
      sp_capacity (sb_pool s) <= Z.of_nat (length (sp_storage (sb_pool s))) /\
      exists free, NoDup free /\
        free_chain (sp_capacity (sb_pool s)) (sp_storage (sb_pool s)) (sp_free_head (sb_pool s)) free /\
        sp_live_leases (sb_pool s) + Z.of_nat (length free) = sp_capacity (sb_pool s)
    else sp_free_head (sb_pool s) = no_slot /\ sp_live_leases (sb_pool s) = 0 }.

(** ** The free list *)
Lemma free_chain_insert capacity storage head free j s :
  0 <= j -> j ∉ free -> free_chain capacity storage head free ->
  free_chain capacity (<[Z.to_nat j := s]> storage) head free.
Proof.
  revert head. induction free as [|i free IH]; intros head Hj Hn H; [done|].
  destruct H as (-> & Hi & t & Ht & Ho & Hc). split; [done|]. split; [done|].
  rewrite not_elem_of_cons in Hn. destruct Hn as [Hne Hn].
  exists t. rewrite list_lookup_insert_ne by lia. auto.
Qed.

Lemma free_chain_member capacity storage head free i :
  free_chain capacity storage head free -> i ∈ free ->
  0 <= i < capacity /\ exists s, storage !! Z.to_nat i = Some s /\ ss_occupied s = false.
Proof.
  revert head. induction free as [|j free IH]; intros head H Hin; [by apply elem_of_nil in Hin|].
  destruct H as (-> & Hi & t & Ht & Ho & Hc).
  apply elem_of_cons in Hin as [->|Hin]; [eauto|by apply (IH (ss_next t))].
Qed.

(** The slots from [index] on, linked by [initialize]. *)
Lemma link_loop_run n storage index capacity :
  0 <= index -> index + Z.of_nat n = capacity -> capacity <= Z.of_nat (length storage) ->
  capacity <= size_max ->
  exists storage', link_loop n storage index capacity = Ret storage' /\
    length storage' = length storage /\
    (forall i, 0 <= i < index -> storage' !! Z.to_nat i = storage !! Z.to_nat i) /\
    free_chain capacity storage' (if (n =? 0)%nat then no_slot else index) (seqZ index (Z.of_nat n)).
Proof.
  revert storage index. induction n as [|n IH]; intros storage index Hi Hn Hl Hm.
  { exists storage. split; [done|]. split; [done|]. split; [done|]. done. }
  cbn [link_loop Nat.eqb]. rewrite u64_small by (unfold size_max in *; lia).
  destruct (lookup_lt_is_Some_2 storage (Z.to_nat index)) as [s Hs]; [lia|].
  rewrite (slot_ok _ _ _ Hs). cbn [mbind outcome_bind]. rewrite set_slot_ok by lia.
  cbn [mbind outcome_bind]. set (s' := MkSlabPoolSlot _ _ _).
  destruct (IH (<[Z.to_nat index := s']> storage) (index + 1)) as (st & -> & Hlen & Hlow & Hc);
    [lia|lia|rewrite length_insert; lia|done|].
  exists st. rewrite length_insert in Hlen. split; [done|]. split; [done|].
  assert (Hat : st !! Z.to_nat index = Some s')
    by (rewrite Hlow by lia; rewrite list_lookup_insert_eq; [done|lia]).
  split.
  { intros i Hlt. rewrite Hlow by lia. by rewrite list_lookup_insert_ne by lia. }
  replace (Z.of_nat (S n)) with (Z.succ (Z.of_nat n)) by lia.
  rewrite seqZ_cons by lia. rewrite Z.pred_succ. split; [done|]. split; [lia|].
  exists s'. split; [done|]. split; [done|]. unfold s'. cbn [ss_next].
  replace (Z.succ index) with (index + 1) by lia.
  destruct n as [|n]; cbn [Nat.eqb] in Hc.
  - rewrite (proj2 (Z.eqb_eq _ _)) by lia. exact Hc.
  - rewrite (proj2 (Z.eqb_neq _ _)) by lia. exact Hc.
Qed.

(** ** Operations on the pool *)
Definition with_pool (s : SlabState) this : SlabState :=
  MkSlabState this (sb_leases s) (sb_context s) (sb_next s).

(** What no operation changes. *)
Definition same_pool this this' : Prop :=
  sp_address this' = sp_address this /\ sp_worker this' = sp_worker this /\
  sp_capacity this' = sp_capacity this /\ sp_double_release this' = sp_double_release this.

Lemma uninitialized_inactive s :
  slab_inv s -> sp_initialized (sb_pool s) = false ->
  forall id l, sb_leases s !! id = Some l -> ls_active l = false.
Proof.
  intros HI Hn id l Hl. pose proof (si_leases s HI id l Hl) as H. unfold lease_ok in H.
  destruct (ls_active l); [|done]. destruct H as (_ & _ & _ & Ht & _). congruence.
Qed.

Lemma held_ext s s' :
  sb_leases s' = sb_leases s ->
  (forall id l, sb_leases s !! id = Some l -> lease_value (sb_pool s') l = lease_value (sb_pool s) l) ->
  held s' = held s.
Proof.
  intros E H. unfold held. rewrite E. apply map_eq. intros id. rewrite !lookup_omap.
  destruct (sb_leases s !! id) as [l|] eqn:Hl; [|done]. simpl. by apply (H id).
Qed.

Lemma initialize_run s :
  slab_inv s ->
  exists r this', SlabPool_initialize slot_size slot_alignment (sb_pool s) = Ret (r, this') /\
    same_pool (sb_pool s) this' /\
    match r with
    | Ok _ => slab_inv (with_pool s this') /\ sp_initialized this' = true /\ held (with_pool s this') = held s
    | Err _ => this' = sb_pool s
    end.
Proof.
  intros HI. pose proof (si_capacity s HI) as Hcap. unfold SlabPool_initialize.
  assert (Hsame : forall st h n b, same_pool (sb_pool s) (set_pool (sb_pool s) st h n b)) by done.
  assert (Hself : same_pool (sb_pool s) (sb_pool s)) by done.
  destruct (sp_initialized (sb_pool s)) eqn:Hi.
  { exists (Ok tt), (sb_pool s). split; [done|]. split; [done|]. destruct s; done. }
  pose proof (uninitialized_inactive s HI Hi) as Hoff.
  assert (Hgo : forall storage free head, NoDup free ->
    sp_capacity (sb_pool s) <= Z.of_nat (length storage) ->
    free_chain (sp_capacity (sb_pool s)) storage head free ->
    Z.of_nat (length free) = sp_capacity (sb_pool s) ->
    let this' := set_pool (sb_pool s) storage head (sp_live_leases (sb_pool s)) true in
    slab_inv (with_pool s this') /\ sp_initialized this' = true /\ held (with_pool s this') = held s).
  { intros storage free head Hnd Hlen Hc Hf this'. pose proof (si_free s HI) as Hfree.
    rewrite Hi in Hfree. destruct Hfree as [_ Hlive]. split; [|split; [done|]].
    - split; simpl; try apply HI.
      + intros id l Hl. unfold lease_ok. by rewrite (Hoff id l Hl).
      + split; [done|]. exists free. split; [done|]. split; [done|]. lia.
    - apply held_ext; [done|]. intros id l Hl. unfold lease_value. by rewrite (Hoff id l Hl). }
  destruct (required_storage_bytes slot_size (sp_capacity (sb_pool s))) as [n|e] eqn:Hreq.
  2: { exists (Err e), (sb_pool s). done. }
  cbn [mbind outcome_bind].
  destruct (negb (is_valid_alignment _) || _).
  { exists (Err slab_alignment_error), (sb_pool s). done. }
  destruct ((1 <? _) && _).
  { exists (Err slab_stride_error), (sb_pool s). done. }
  destruct (Z.eqb_spec (sp_capacity (sb_pool s)) 0) as [H0|H0].
  { exists (Ok tt). eexists. split; [done|]. split; [done|].
    pose proof (si_free s HI) as Hfree. rewrite Hi in Hfree.
    apply (Hgo _ []); [constructor|lia|apply Hfree|simpl; lia]. }
  destruct (_ || _) eqn:Hlay.
  { exists (Err slab_storage_error), (sb_pool s). done. }
  apply orb_false_iff in Hlay as [Hlen _]. apply Z.ltb_ge in Hlen.
  destruct (link_loop_run (Z.to_nat (sp_capacity (sb_pool s))) (sp_storage (sb_pool s)) 0
    (sp_capacity (sb_pool s))) as (st & -> & Hst & _ & Hc); [lia..|].
  cbn [mbind outcome_bind]. exists (Ok tt). eexists. split; [done|]. split; [done|].
  replace (Z.to_nat (sp_capacity (sb_pool s)) =? 0)%nat with false in Hc
    by (symmetry; apply Nat.eqb_neq; lia).
  apply (Hgo _ (seqZ 0 (Z.of_nat (Z.to_nat (sp_capacity (sb_pool s)))))); [|lia|exact Hc|].
  - apply NoDup_seqZ.
  - rewrite length_seqZ. lia.
Qed.

(** Changing one slot does not change what the leases of other slots show. *)
Lemma lease_value_other this lease storage head n b j :
  lease_ok this lease -> (ls_active lease = true -> ls_index lease <> j) -> 0 <= j ->
  (forall i, i <> Z.to_nat j -> storage !! i = sp_storage this !! i) ->
  lease_value (set_pool this storage head n b) lease = lease_value this lease.
Proof.
  intros Hok Hj Hj0 Hst. unfold lease_value, lease_ok in *. destruct (ls_active lease); [|done].
  destruct Hok as (_ & Hv & Hi & _). specialize (Hj eq_refl).
  unfold Lease_deref. rewrite Hv. unfold slot. simpl. rewrite Hst by lia. done.
Qed.

Lemma lease_ok_other this lease storage head n b j :
  lease_ok this lease -> (ls_active lease = true -> ls_index lease <> j) -> 0 <= j ->
  (forall i, i <> Z.to_nat j -> storage !! i = sp_storage this !! i) ->
  (sp_initialized this = true -> b = true) ->
  lease_ok (set_pool this storage head n b) lease.
Proof.
  intros Hok Hj Hj0 Hst Hb. unfold lease_ok in *. destruct (ls_active lease); [|done].
  destruct Hok as (Hp & Hv & Hi & Hini & Hs). specialize (Hj eq_refl). simpl.
  rewrite Hst by lia. destruct b; [|by discriminate Hb]. done.
Qed.

Lemma is_active_nonneg m : 0 <= map_sum is_active m.
Proof. apply map_sum_nonneg. intros k l _. unfold is_active. destruct (ls_active l); lia. Qed.

Lemma lease_value_active s id l :
  slab_inv s -> sb_leases s !! id = Some l -> ls_active l = true ->
  exists v, lease_value (sb_pool s) l = Some v.
Proof.
  intros HI Hl Ha. pose proof (si_leases s HI id l Hl) as H. unfold lease_ok in H.
  rewrite Ha in H. destruct H as (_ & Hv & _ & _ & t & v & Ht & _ & Ho).
  exists v. unfold lease_value, Lease_deref. rewrite Ha, Hv. rewrite (slot_ok _ _ _ Ht). simpl. by rewrite Ho.
Qed.

(** The number of values held is the number of active leases. *)
Lemma held_size s : slab_inv s -> Z.of_nat (size (held s)) = sp_live_leases (sb_pool s).
Proof.
  intros HI. rewrite (si_live s HI). unfold held. pose proof (lease_value_active s) as Hv.
  pose proof (fun id l H => Hv id l HI H) as Hval. clear Hv HI.
  revert Hval. generalize (sb_leases s) as m. intros m.
  induction m as [|id l m Hm IH] using map_ind; intros Hval.
  { by rewrite map_sum_empty. }
  rewrite map_sum_insert by done.
  assert (Hrest : Z.of_nat (size (omap (lease_value (sb_pool s)) m)) = map_sum is_active m).
  { apply IH. intros k x Hk. apply (Hval k x). rewrite lookup_insert_ne; [done|congruence]. }
  unfold is_active at 1. destruct (ls_active l) eqn:Ha.
  - destruct (Hval id l (lookup_insert_eq _ _ _) Ha) as [v Hv].
    rewrite (omap_insert_Some _ m id l v Hv), map_size_insert_None; [lia|].
    by rewrite lookup_omap, Hm.
  - rewrite omap_insert_None by (unfold lease_value; by rewrite Ha).
    rewrite delete_id by (by rewrite lookup_omap, Hm). lia.
Qed.

(** ** Lease objects come, go and move *)
Lemma inactive_value this lease : ls_active lease = false -> lease_value this lease = None.
Proof. unfold lease_value. by intros ->. Qed.

Lemma add_inactive s id x n :
  slab_inv s -> sb_leases s !! id = None -> ls_active x = false -> (sb_next s <= n)%nat -> (id < n)%nat ->
  let s' := MkSlabState (sb_pool s) (<[id := x]> (sb_leases s)) (sb_context s) n in
  slab_inv s' /\ held s' = held s.
Proof.
  intros HI Hid Hx Hn Hlt s'. split.
  - split; simpl; try apply HI.
    + intros k Hk. rewrite lookup_insert_ne by lia. apply (si_fresh s HI). lia.
    + rewrite map_sum_insert by done. unfold is_active at 1. rewrite Hx. rewrite (si_live s HI). lia.
    + intros k l [[<- <-]|[_ Hl]]%lookup_insert_Some; [unfold lease_ok; by rewrite Hx|by apply (si_leases s HI k)].
    + intros i j li lj [[<- <-]|[_ Hi]]%lookup_insert_Some [[<- <-]|[_ Hj]]%lookup_insert_Some Hai Haj;
        try congruence. by apply (si_distinct s HI).
  - unfold held. simpl. rewrite omap_insert_None by by apply inactive_value.
    apply delete_id. by rewrite lookup_omap, Hid.
Qed.

Lemma rename_lease s id k l n :
  slab_inv s -> sb_leases s !! id = Some l -> sb_leases s !! k = None -> (sb_next s <= n)%nat -> (k < n)%nat ->
  let s' := MkSlabState (sb_pool s) (<[k := l]> (delete id (sb_leases s))) (sb_context s) n in
  slab_inv s' /\
  held s' = match held s !! id with Some v => <[k := v]> (delete id (held s)) | None => held s end.
Proof.
  intros HI Hid Hk Hn Hlt s'. assert (Hne : id <> k) by congruence. split.
  - split; simpl; try apply HI.
    + intros i Hi. rewrite lookup_insert_ne by lia. apply lookup_delete_None. right.
      apply (si_fresh s HI). lia.
    + rewrite map_sum_insert by (by apply lookup_delete_None; right).
      rewrite (si_live s HI), (map_sum_lookup is_active _ id l Hid). done.
    + intros i x [[<- <-]|[_ [_ Hx]%lookup_delete_Some]]%lookup_insert_Some;
        [by apply (si_leases s HI id)|by apply (si_leases s HI i)].
    + intros i j li lj [[<- <-]|[Hi [Hi2 Hi']%lookup_delete_Some]]%lookup_insert_Some
        [[<- <-]|[Hj [Hj2 Hj']%lookup_delete_Some]]%lookup_insert_Some Ha1 Ha2 He; [done| | |].
      * destruct Hj2. by apply (si_distinct s HI id j l lj).
      * destruct Hi2. symmetry. by apply (si_distinct s HI i id li l).
      * by apply (si_distinct s HI i j li lj).
  - unfold held. simpl. rewrite lookup_omap, Hid. simpl.
    destruct (lease_value (sb_pool s) l) as [v|] eqn:Hv.
    + rewrite (omap_insert_Some _ _ _ _ _ Hv). by rewrite omap_delete.
    + rewrite omap_insert_None by done. rewrite omap_delete, !delete_id; [done| |].
      * rewrite lookup_omap, Hid. done.
      * rewrite lookup_delete_ne by done. by rewrite lookup_omap, Hk.
Qed.

(** Releasing an active lease pushes its slot on the free list. *)
Lemma release_active_run s id l :
  slab_inv s -> sb_leases s !! id = Some l -> ls_active l = true ->
  exists this', SlabPool_release_unchecked (sb_pool s) l =
      Ret (this', MkLease (ls_pool l) (ls_index l) None false) /\
    same_pool (sb_pool s) this' /\
    let s' := MkSlabState this' (delete id (sb_leases s)) (sb_context s) (sb_next s) in
    slab_inv s' /\ held s' = delete id (held s).
Proof.
  intros HI Hid Ha. pose proof (si_leases s HI id l Hid) as Hok. unfold lease_ok in Hok. rewrite Ha in Hok.
  destruct Hok as (Hp & Hv & Hrange & Hini & t & v & Ht & Hocc & Hobj).
  pose proof (si_free s HI) as Hfree. rewrite Hini in Hfree.
  destruct Hfree as (Hlen & free & Hnd & Hc & Hcount). pose proof (si_capacity s HI) as Hcap.
  assert (Hlive : 1 <= sp_live_leases (sb_pool s)).
  { rewrite (si_live s HI), (map_sum_lookup is_active _ id l Hid). unfold is_active at 1. rewrite Ha.
    pose proof (is_active_nonneg (delete id (sb_leases s))). lia. }
  assert (Hnotin : ls_index l ∉ free).
  { intros Hin. destruct (free_chain_member _ _ _ _ _ Hc Hin) as (_ & t' & Ht' & Ho'). congruence. }
  set (storage' := <[Z.to_nat (ls_index l) := MkSlabPoolSlot None (sp_free_head (sb_pool s)) false]>
                     (sp_storage (sb_pool s))).
  set (this' := set_pool (sb_pool s) storage' (ls_index l) (sp_live_leases (sb_pool s) - 1) true).
  assert (Hother : forall i, i <> Z.to_nat (ls_index l) -> storage' !! i = sp_storage (sb_pool s) !! i)
    by (intros i Hi; unfold storage'; by rewrite list_lookup_insert_ne by lia).
  assert (Hdist : forall k x, delete id (sb_leases s) !! k = Some x -> ls_active x = true ->
    ls_index x <> ls_index l).
  { intros k x [Hne Hx]%lookup_delete_Some Hax He. destruct Hne. symmetry.
    by apply (si_distinct s HI k id x l). }
  exists this'. split; [|split; [done|split]].
  - unfold SlabPool_release_unchecked, destroy_at. rewrite Hini, Hv.
    rewrite (proj2 (Z.leb_gt _ _)), (proj2 (Z.eqb_neq _ _)) by lia. simpl.
    rewrite (slot_ok _ _ _ Ht). cbn [mbind outcome_bind]. rewrite Hocc. simpl. rewrite Hobj.
    rewrite set_slot_ok by lia. cbn [mbind outcome_bind].
    rewrite (slot_ok _ _ (MkSlabPoolSlot None (ss_next t) true))
      by (apply list_lookup_insert_eq; lia). cbn [mbind outcome_bind ss_object].
    rewrite set_slot_ok by (rewrite length_insert; lia). cbn [mbind outcome_bind].
    rewrite list_insert_insert_eq. by rewrite u64_small by (unfold size_max in *; lia).
  - split; simpl; try apply HI.
    + intros k Hk. apply lookup_delete_None. right. by apply (si_fresh s HI).
    + rewrite (si_live s HI), (map_sum_lookup is_active _ id l Hid). unfold is_active at 1. rewrite Ha. lia.
    + intros k x Hx. apply lease_ok_other with (j := ls_index l); [|by apply (Hdist k)|lia|done|done].
      apply lookup_delete_Some in Hx as [_ Hx]. by apply (si_leases s HI k).
    + intros i j li lj [_ Hi]%lookup_delete_Some [_ Hj]%lookup_delete_Some. by apply (si_distinct s HI).
    + unfold storage'. rewrite length_insert. split; [done|]. exists (ls_index l :: free).
      split; [by constructor|]. split; [|cbn [length]; lia]. split; [done|]. split; [done|].
      exists (MkSlabPoolSlot None (sp_free_head (sb_pool s)) false).
      split; [apply list_lookup_insert_eq; lia|]. split; [done|].
      apply free_chain_insert; [lia|done|done].
  - unfold held. simpl. rewrite <- omap_delete. apply map_eq. intros k. rewrite !lookup_omap.
    destruct (delete id (sb_leases s) !! k) as [x|] eqn:Hx; [|done]. simpl.
    apply lease_value_other with (j := ls_index l); [|by apply (Hdist k)|lia|done].
    apply lookup_delete_Some in Hx as [_ Hx]. by apply (si_leases s HI k).
Qed.

(** The end of a lease object, active or not. *)
Lemma drop_lease_run s id l :
  slab_inv s -> sb_leases s !! id = Some l ->
  exists this' l', Lease_release_unchecked (sb_pool s) l = Ret (this', l') /\
    same_pool (sb_pool s) this' /\
    let s' := MkSlabState this' (delete id (sb_leases s)) (sb_context s) (sb_next s) in
    slab_inv s' /\ held s' = delete id (held s).
Proof.
  intros HI Hid. unfold Lease_release_unchecked. destruct (ls_active l) eqn:Ha.
  { destruct (release_active_run s id l HI Hid Ha) as (this' & -> & H). eauto. }
  exists (sb_pool s), l. split; [done|]. split; [done|]. split.
  - split; simpl; try apply HI.
    + intros k Hk. apply lookup_delete_None. right. by apply (si_fresh s HI).
    + rewrite (si_live s HI), (map_sum_lookup is_active _ id l Hid). unfold is_active at 1. rewrite Ha. lia.
    + intros k x [_ Hx]%lookup_delete_Some. by apply (si_leases s HI k).
    + intros i j li lj [_ Hi]%lookup_delete_Some [_ Hj]%lookup_delete_Some. by apply (si_distinct s HI).
  - unfold held. simpl. by rewrite omap_delete.
Qed.

(** Acquiring from an initialised pool pops the free list. *)
Lemma pop_run s v :
  slab_inv s -> sp_initialized (sb_pool s) = true -> sp_free_head (sb_pool s) <> no_slot ->
  exists t, slot (sp_storage (sb_pool s)) (sp_free_head (sb_pool s)) = Ret t /\
    ss_occupied t || (sp_live_leases (sb_pool s) =? sp_capacity (sb_pool s)) = false /\
    exists storage', set_slot (sp_storage (sb_pool s)) (sp_free_head (sb_pool s))
        (MkSlabPoolSlot (Some v) (ss_next t) true) = Ret storage' /\
      let lease := MkLease (Some (sp_address (sb_pool s))) (sp_free_head (sb_pool s))
                     (Some (sp_free_head (sb_pool s))) true in
      let s' := MkSlabState (set_pool (sb_pool s) storage' (ss_next t)
                               (u64 (sp_live_leases (sb_pool s) + 1)) true)
                  (<[sb_next s := lease]> (sb_leases s)) (sb_context s) (S (sb_next s)) in
      Z.of_nat (size (held s)) < sp_capacity (sb_pool s) /\
      slab_inv s' /\ held s' = <[sb_next s := v]> (held s).
Proof.
  intros HI Hini Hhead. pose proof (si_free s HI) as Hfree. rewrite Hini in Hfree.
  destruct Hfree as (Hlen & [|i free] & Hnd & Hc & Hcount); [by destruct Hc|].
  destruct Hc as (Hi & Hrange & t & Ht & Hocc & Hc). rewrite Hi in *. clear Hi.
  apply list.NoDup_cons in Hnd as [Hnotin Hnd]. cbn [length] in Hcount.
  pose proof (si_capacity s HI) as Hcap. pose proof (is_active_nonneg (sb_leases s)) as Hge.
  rewrite <- (si_live s HI) in Hge.
  assert (Hnone : sb_leases s !! sb_next s = None) by (by apply (si_fresh s HI)).
  assert (Hdist : forall k x, sb_leases s !! k = Some x -> ls_active x = true -> ls_index x <> i).
  { intros k x Hx Hax He. pose proof (si_leases s HI k x Hx) as Hok. unfold lease_ok in Hok.
    rewrite Hax, He in Hok. destruct Hok as (_ & _ & _ & _ & t' & _ & Ht' & Hocc' & _). congruence. }
  exists t. split; [by apply slot_ok|]. rewrite Hocc, (proj2 (Z.eqb_neq _ _)) by lia. split; [done|].
  rewrite set_slot_ok by lia. eexists. split; [done|]. rewrite u64_small by (unfold size_max in *; lia).
  split; [rewrite held_size by done; lia|].
  set (storage' := <[Z.to_nat i := _]> _).
  assert (Hother : forall k, k <> Z.to_nat i -> storage' !! k = sp_storage (sb_pool s) !! k)
    by (intros k Hk; unfold storage'; by rewrite list_lookup_insert_ne by lia).
  assert (Hat : storage' !! Z.to_nat i = Some (MkSlabPoolSlot (Some v) (ss_next t) true))
    by (apply list_lookup_insert_eq; lia).
  split.
  - split; simpl; try apply HI.
    + intros k Hk. rewrite lookup_insert_ne by lia. apply (si_fresh s HI). lia.
    + rewrite map_sum_insert by done. rewrite (si_live s HI). unfold is_active at 2. simpl. lia.
    + intros k x [[<- <-]|[_ Hx]]%lookup_insert_Some.
      * unfold lease_ok. simpl. eauto 10.
      * apply lease_ok_other with (j := i); [by apply (si_leases s HI k)|by apply (Hdist k)|lia|done|done].
    + intros k j lk lj [[<- <-]|[_ Hk]]%lookup_insert_Some [[<- <-]|[_ Hj]]%lookup_insert_Some Ha1 Ha2 He;
        [done| | |by apply (si_distinct s HI k j lk lj)].
      * by destruct (Hdist j lj).
      * by destruct (Hdist k lk).
    + unfold storage'. rewrite length_insert. split; [done|]. exists free. split; [done|]. split; [|lia].
      apply free_chain_insert; [lia|done|done].
  - unfold held. simpl. rewrite (omap_insert_Some _ _ _ _ v).
    + f_equal. apply map_eq. intros k. rewrite !lookup_omap.
      destruct (sb_leases s !! k) as [x|] eqn:Hx; [|done]. simpl.
      apply lease_value_other with (j := i); [by apply (si_leases s HI k)|by apply (Hdist k)|lia|done].
    + unfold lease_value, Lease_deref. simpl. rewrite (slot_ok _ _ _ Hat). done.
Qed.

(** Why an acquisition is refused. *)
Definition acquire_refused (s : SlabState) (worker : WorkerId) (e : Error) : Prop :=
  (value_ worker <> value_ (sp_worker (sb_pool s)) /\ e = slab_worker_error) \/
  (Z.of_nat (size (held s)) = sp_capacity (sb_pool s) /\ e = slab_exhausted_error) \/
  SlabPool_initialize slot_size slot_alignment (sb_pool s) = Ret (Err e, sb_pool s).

Lemma acquire_run s worker v :
  slab_inv s ->
  exists r s', exec_slab s (SAcquire worker v) = Ret (r, s') /\ slab_inv s' /\
    same_pool (sb_pool s) (sb_pool s') /\
    match r with
    | Ok _ => value_ worker = value_ (sp_worker (sb_pool s)) /\
        Z.of_nat (size (held s)) < sp_capacity (sb_pool s) /\ held s' = <[sb_next s := v]> (held s)
    | Err e => held s' = held s /\ acquire_refused s worker e
    end.
Proof.
  intros HI. unfold exec_slab, SlabPool_try_acquire, SlabPool_require_worker, acquire_refused.
  destruct (Z.eqb_spec (value_ worker) (value_ (sp_worker (sb_pool s)))) as [Hw|Hw].
  2: { exists (Err slab_worker_error), s. simpl. destruct s. split; [done|]. split; [done|].
       split; [done|]. auto. }
  simpl. destruct (initialize_run s HI) as (r & this' & Hinit & Hsame & Hr). rewrite Hinit.
  cbn [mbind outcome_bind]. destruct r as [[]|e].
  2: { subst this'. exists (Err e), s. destruct s. split; [done|]. split; [done|]. split; [done|]. auto. }
  destruct Hr as (HI' & Hini & Hheld). pose proof Hsame as (_ & _ & Hc & _).
  destruct (Z.eqb_spec (sp_free_head this') no_slot) as [Hfull|Hfree].
  { eexists (Err slab_exhausted_error), (with_pool s this'). split; [done|]. split; [done|].
    split; [done|]. split; [done|]. right. left. split; [|done].
    pose proof (si_free _ HI') as Hfr. simpl in Hfr. rewrite Hini in Hfr.
    destruct Hfr as (_ & [|i free] & _ & Hch & Hcount); simpl in Hcount.
    - rewrite <- Hheld, held_size by done. simpl. lia.
    - destruct Hch as (Hi & Hrange & _). pose proof (si_capacity _ HI') as Hcap. simpl in Hcap.
      rewrite Hfull in Hi. unfold no_slot in Hi. lia. }
  destruct (pop_run (with_pool s this') v HI' Hini Hfree) as (t & Hslot & Hguard & st & Hst & Hlt & HI2 & Hh2).
  simpl in Hslot, Hguard, Hst, Hlt, HI2, Hh2. rewrite Hslot. cbn [mbind outcome_bind]. rewrite Hguard, Hst.
  cbn [mbind outcome_bind]. exists (Ok tt). eexists. split; [done|]. split; [exact HI2|]. split; [done|].
  split; [done|]. split; [rewrite <- Hheld; lia|]. by rewrite Hh2, Hheld.
Qed.

(** ** The refinement *)

(** A second [release] of a lease that already gave its slot back, in a debug build and
    without a hook to report it to, is the one call that terminates by design. *)
Definition reported_double_release (s : SlabState) (l : Lease) : Prop :=
  ls_pool l <> None /\ ls_active l = false /\ ndebug = false /\ sp_double_release (sb_pool s) = None.

Definition slab_legal (s : SlabState) (op : SlabOp) : Prop :=
  match op with
  | SAcquire _ _ => True
  | SRelease id _ => exists l, sb_leases s !! id = Some l /\ ~ reported_double_release s l
  | SMoveConstruct id | SDestroy id => is_Some (sb_leases s !! id)
  | SMoveAssign id other => is_Some (sb_leases s !! id) /\ is_Some (sb_leases s !! other)
  end.

(** What each operation does to the values held. *)
Definition slab_effect (s : SlabState) (op : SlabOp) (r : Result unit) (s' : SlabState) : Prop :=
  match op with
  | SAcquire worker v =>
      match r with
      | Ok _ => value_ worker = value_ (sp_worker (sb_pool s)) /\
          Z.of_nat (size (held s)) < sp_capacity (sb_pool s) /\ held s' = <[sb_next s := v]> (held s)
      | Err e => held s' = held s /\ acquire_refused s worker e
      end
  | SRelease id worker =>
      match held s !! id with
      | None => r = Err inactive_lease_error /\ held s' = held s
      | Some _ =>
          if value_ worker =? value_ (sp_worker (sb_pool s))
          then r = Ok tt /\ held s' = delete id (held s)
          else r = Err slab_worker_error /\ held s' = held s
      end
  | SMoveConstruct id =>
      r = Ok tt /\
      held s' = match held s !! id with Some v => <[sb_next s := v]> (delete id (held s)) | None => held s end
  | SMoveAssign id other =>
      r = Ok tt /\
      held s' = if decide (id = other) then held s else
        match held s !! other with
        | Some v => <[id := v]> (delete other (held s))
        | None => delete id (held s)
        end
  | SDestroy id => r = Ok tt /\ held s' = delete id (held s)
  end.

Lemma held_lookup s id l :
  sb_leases s !! id = Some l -> held s !! id = lease_value (sb_pool s) l.
Proof. intros Hl. unfold held. by rewrite lookup_omap, Hl. Qed.

Lemma insert_over_delete (m : gmap nat Lease) id x : <[id := x]> m = <[id := x]> (delete id m).
Proof. by rewrite insert_delete_eq. Qed.

Lemma moved_leases (m : gmap nat Lease) id k l x :
  id <> k -> <[k := l]> (<[id := x]> m) = <[id := x]> (<[k := l]> (delete id m)).
Proof.
  intros Hne. rewrite insert_insert_ne by done.
  by rewrite <- (insert_delete_eq (<[k := l]> m)), delete_insert_ne by done.
Qed.

Lemma lease_below s id l : slab_inv s -> sb_leases s !! id = Some l -> (id < sb_next s)%nat.
Proof.
  intros HI Hl. destruct (Nat.lt_ge_cases id (sb_next s)) as [|Hge]; [done|].
  pose proof (si_fresh s HI id Hge). congruence.
Qed.

Lemma release_lease_run s id l worker :
  slab_inv s -> sb_leases s !! id = Some l -> ~ reported_double_release s l ->
  exists r s', exec_slab s (SRelease id worker) = Ret (r, s') /\ slab_inv s' /\
    same_pool (sb_pool s) (sb_pool s') /\ slab_effect s (SRelease id worker) r s'.
Proof.
  intros HI Hl Hn. cbn [exec_slab slab_effect]. unfold the_lease, Lease_release. rewrite Hl. cbn [mbind outcome_bind].
  rewrite (held_lookup s id l Hl). destruct (ls_active l) eqn:Ha.
  - destruct (lease_value_active s id l HI Hl Ha) as [v ->].
    pose proof (si_leases s HI id l Hl) as Hok. unfold lease_ok in Hok. rewrite Ha in Hok.
    destruct Hok as (-> & _). simpl. unfold SlabPool_release, SlabPool_require_worker.
    destruct (_ =? _); simpl.
    + destruct (release_active_run s id l HI Hl Ha) as (this' & -> & Hsame & HI' & Hh).
      cbn [mbind outcome_bind]. eexists _, _. split; [done|]. rewrite insert_over_delete.
      destruct (add_inactive _ id (MkLease (ls_pool l) (ls_index l) None false) (sb_next s) HI')
        as [HI2 Hh2]; [apply lookup_delete_eq|done|done|by apply (lease_below s id l)|].
      simpl in HI2, Hh2, Hh. split; [exact HI2|]. split; [done|]. split; [done|]. by rewrite Hh2.
    + eexists _, _. split; [done|]. rewrite insert_id by done. destruct s. done.
  - rewrite inactive_value by done. destruct (ls_pool l) as [a|] eqn:Hp.
    + simpl. unfold SlabPool_report_double_release.
      assert (exists c', (if ndebug then Ret (sb_context s) else
        match sp_double_release (sb_pool s) with
        | Some hook => Ret (hook (sb_context s)) | None => Stop Terminated end) = Ret c') as [c' ->].
      { destruct ndebug eqn:Hd; [eauto|]. destruct (sp_double_release (sb_pool s)) eqn:Hh; [eauto|].
        destruct Hn. unfold reported_double_release. rewrite Hp. done. }
      cbn [mbind outcome_bind]. eexists _, _. split; [done|]. rewrite insert_id by done.
      split; [|done]. split; apply HI.
    + eexists _, _. split; [done|]. rewrite insert_id by done. destruct s. done.
Qed.

Lemma move_construct_lease_run s id l :
  slab_inv s -> sb_leases s !! id = Some l ->
  exists r s', exec_slab s (SMoveConstruct id) = Ret (r, s') /\ slab_inv s' /\
    same_pool (sb_pool s) (sb_pool s') /\ slab_effect s (SMoveConstruct id) r s'.
Proof.
  intros HI Hl. cbn [exec_slab slab_effect]. unfold the_lease. rewrite Hl. cbn [mbind outcome_bind Lease_move_from].
  pose proof (lease_below s id l HI Hl) as Hlt.
  destruct (rename_lease s id (sb_next s) l (S (sb_next s)) HI Hl) as [HI1 Hh1];
    [by apply (si_fresh s HI)|lia|lia|].
  destruct (add_inactive _ id Lease_default (S (sb_next s)) HI1) as [HI2 Hh2];
    [simpl; rewrite lookup_insert_ne by lia; apply lookup_delete_eq|done|simpl; lia|lia|].
  eexists _, _. split; [done|]. simpl in HI2, Hh2.
  rewrite moved_leases by lia.
  split; [exact HI2|]. split; [done|]. split; [done|]. by rewrite Hh2.
Qed.

Lemma move_assign_lease_run s id other l o :
  slab_inv s -> sb_leases s !! id = Some l -> sb_leases s !! other = Some o ->
  exists r s', exec_slab s (SMoveAssign id other) = Ret (r, s') /\ slab_inv s' /\
    same_pool (sb_pool s) (sb_pool s') /\ slab_effect s (SMoveAssign id other) r s'.
Proof.
  intros HI Hl Ho. cbn [exec_slab slab_effect]. unfold the_lease. rewrite Hl, Ho. cbn [mbind outcome_bind].
  destruct (decide (id = other)) as [<-|Hne].
  { rewrite bool_decide_true by done. exists (Ok tt), s. done. }
  rewrite bool_decide_false by done. unfold Lease_move_assign.
  destruct (drop_lease_run s id l HI Hl) as (this' & l' & -> & Hsame & HI1 & Hh1).
  cbn [mbind outcome_bind Lease_move_from]. simpl in HI1, Hh1.
  pose proof (lease_below s id l HI Hl) as Hlt. pose proof (lease_below s other o HI Ho) as Hlt2.
  destruct (rename_lease _ other id o (sb_next s) HI1) as [HI2 Hh2];
    [simpl; by rewrite lookup_delete_ne by done|apply lookup_delete_eq|simpl; lia|lia|].
  simpl in HI2, Hh2. rewrite Hh1 in Hh2. rewrite lookup_delete_ne in Hh2 by done.
  destruct (add_inactive _ other Lease_default (sb_next s) HI2) as [HI3 Hh3];
    [simpl; rewrite lookup_insert_ne by done; apply lookup_delete_eq|done|simpl; lia|lia|].
  simpl in HI3, Hh3. rewrite <- moved_leases in HI3, Hh3 by done.
  rewrite <- delete_insert_ne, insert_delete_eq in HI3, Hh3 by done.
  eexists _, _. split; [done|]. split; [exact HI3|]. split; [done|]. split; [done|].
  rewrite Hh3, Hh2. destruct (held s !! other) as [v|]; [|done].
  by rewrite delete_delete, insert_delete_eq.
Qed.

Lemma exec_slab_ok s op :
  slab_inv s -> slab_legal s op ->
  exists r s', exec_slab s op = Ret (r, s') /\ slab_inv s' /\
    same_pool (sb_pool s) (sb_pool s') /\ slab_effect s op r s'.
Proof.
  intros HI Hl. destruct op as [worker v|id worker|id|id other|id].
  - apply acquire_run. done.
  - destruct Hl as (l & Hl & Hn). by apply (release_lease_run s id l).
  - destruct Hl as (l & Hl). by apply (move_construct_lease_run s id l).
  - destruct Hl as [(l & Hl) (o & Ho)]. by apply (move_assign_lease_run s id other l o).
  - destruct Hl as (l & Hl). cbn [exec_slab slab_effect]. unfold the_lease, Lease_destroy. rewrite Hl.
    cbn [mbind outcome_bind].
    destruct (drop_lease_run s id l HI Hl) as (this' & l' & -> & Hsame & HI1 & Hh1).
    cbn [mbind outcome_bind]. eexists _, _. split; [done|]. split; [exact HI1|]. done.
Qed.

(** The states a client reaches from a newly constructed pool. *)
Inductive slab_reachable : SlabState -> Prop :=
  | slab_start address worker data storage capacity alignment hook c :
      0 <= capacity <= size_max ->
      slab_reachable (MkSlabState (SlabPool_construct address worker data storage capacity alignment hook)
                        ∅ c 0)
  | slab_next s op r s' :
      slab_reachable s -> slab_legal s op -> exec_slab s op = Ret (r, s') -> slab_reachable s'.

Lemma slab_reachable_inv s : slab_reachable s -> slab_inv s.
Proof.
  induction 1 as [address worker data storage capacity alignment hook c Hc|s op r s' Hr IH Hl He].
  - split; simpl; try done.
    all: intros; rewrite ?lookup_empty in *; done.
  - destruct (exec_slab_ok s op IH Hl) as (r2 & s2 & E & Hok & _). congruence.
Qed.

(** ** Properties *)

(** C6: the pool refines a finite map from lease objects to held values: in every state a
    client reaches, every legal call returns; an acquisition adds its value under a fresh
    lease or is refused for the worker, the layout or a full pool and changes nothing; a
    release removes exactly its own value, for the pool's worker only, and moves carry a
    value from lease to lease. *)
Theorem slab_refines_leases (s : SlabState) (op : SlabOp) :
  slab_reachable s -> slab_legal s op ->
  exists r s', exec_slab s op = Ret (r, s') /\ slab_effect s op r s' /\
    sp_capacity (sb_pool s') = sp_capacity (sb_pool s) /\ sp_worker (sb_pool s') = sp_worker (sb_pool s).
Proof.
  intros Hr Hl. destruct (exec_slab_ok s op (slab_reachable_inv s Hr) Hl) as (r & s' & E & _ & Hs & He).
  destruct Hs as (_ & Hw & Hc & _). eauto 10.
Qed.

(** In every reachable state the active leases have slots of their own and show the value
    held, the counters are the number of values held, the pool can be destroyed exactly when
    none is, and a second release without a hook terminates a debug build. *)
Theorem slab_exclusive_slots (s : SlabState) :
  slab_reachable s ->
  (forall i l, sb_leases s !! i = Some l -> ls_active l = true -> exists v,
     Lease_deref (sb_pool s) l = Ret v /\ held s !! i = Some v) /\
  (forall i j li lj, sb_leases s !! i = Some li -> sb_leases s !! j = Some lj -> i <> j ->
     ls_active li = true -> ls_active lj = true -> ls_value li <> ls_value lj) /\
  sp_live_leases (sb_pool s) = Z.of_nat (size (held s)) /\
  SlabPool_available (sb_pool s) = sp_capacity (sb_pool s) - Z.of_nat (size (held s)) /\
  (SlabPool_destroy (sb_pool s) = Ret tt <-> held s = ∅) /\
  (forall i l worker, sb_leases s !! i = Some l -> reported_double_release s l ->
     exec_slab s (SRelease i worker) = Stop Terminated).
Proof.
  intros HI%slab_reachable_inv. pose proof (held_size s HI) as Hsz.
  split; [|split; [|split; [|split; [|split]]]].
  - intros i l Hl Ha. destruct (lease_value_active s i l HI Hl Ha) as [v Hv]. exists v.
    rewrite (held_lookup s i l Hl). split; [|done]. unfold lease_value in Hv. rewrite Ha in Hv.
    destruct (Lease_deref _ _); congruence.
  - intros i j li lj Hi Hj Hne Hai Haj Hv. destruct Hne.
    pose proof (si_leases s HI i li Hi) as H1. pose proof (si_leases s HI j lj Hj) as H2.
    unfold lease_ok in H1, H2. rewrite Hai in H1. rewrite Haj in H2.
    destruct H1 as (_ & H1 & _). destruct H2 as (_ & H2 & _).
    apply (si_distinct s HI i j li lj); congruence.
  - lia.
  - unfold SlabPool_available. pose proof (si_capacity s HI). pose proof (si_free s HI) as Hf.
    rewrite u64_small; [lia|]. destruct (sp_initialized _); [|unfold size_max in *; lia].
    destruct Hf as (_ & free & _ & _ & Hf). unfold size_max in *. lia.
  - unfold SlabPool_destroy. rewrite <- Hsz, <- map_size_empty_iff.
    destruct (size (held s)); split; intros; simpl in *; congruence || lia.
  - intros i l worker Hl (Hp & Ha & Hd & Hh). cbn [exec_slab]. unfold the_lease, Lease_release. rewrite Hl.
    cbn [mbind outcome_bind]. destruct (ls_pool l); [|done]. rewrite Ha. simpl.
    unfold SlabPool_report_double_release. by rewrite Hd, Hh.
Qed.
End slab_spec.
Arguments MkSlabState {V C}.
Arguments SAcquire {V}.
Arguments SRelease {V}.
Arguments SMoveConstruct {V}.
Arguments SMoveAssign {V}.
Arguments SDestroy {V}.

(** ** A pool of two slots *)
Definition demo_slot : SlabPoolSlot Z := MkSlabPoolSlot None 0 false.
Definition demo_pool_state : SlabState (V := Z) (C := unit) :=
  MkSlabState (SlabPool_construct 3 (MkStrongIdentifier 1) (Some 4096) [demo_slot; demo_slot] 2 8 None) ∅ tt 0.
Definition demo_acquired : SlabState (V := Z) (C := unit) :=
  match exec_slab 24 8 false demo_pool_state (SAcquire (MkStrongIdentifier 1) 42) with
  | Ret (_, s) => s
  | Stop _ => demo_pool_state
  end.

Lemma demo_acquired_reachable : slab_reachable 24 8 false demo_acquired.
Proof.
  apply (slab_next 24 8 false demo_pool_state (SAcquire (MkStrongIdentifier 1) 42) (Ok tt));
    [apply slab_start; unfold size_max, u64_max; lia|exact I|]. vm_compute. reflexivity.
Qed.

Lemma slab_refines_leases_witness :
  exists s', exec_slab 24 8 false demo_acquired (SRelease 0 (MkStrongIdentifier 1)) = Ret (Ok tt, s') /\
    held demo_acquired !! 0%nat = Some 42 /\ held s' !! 0%nat = None.
Proof.
  assert (Hl : exists l, sb_leases demo_acquired !! 0%nat = Some l /\ ls_active l = true)
    by (eexists; vm_compute; split; reflexivity).
  assert (Hv : held demo_acquired !! 0%nat = Some 42) by (vm_compute; reflexivity).
  destruct (slab_refines_leases 24 8 false demo_acquired (SRelease 0 (MkStrongIdentifier 1))
    demo_acquired_reachable) as (r & s' & E & He & _).
  { destruct Hl as (l & Hl & Ha). exists l. split; [exact Hl|]. intros (_ & Hf & _). congruence. }
  cbn [slab_effect] in He. rewrite Hv in He. destruct He as [-> He]. exists s'.
  split; [exact E|]. split; [exact Hv|]. rewrite He. apply lookup_delete_eq.
Defined.

Lemma slab_exclusive_slots_witness :
  SlabPool_available (sb_pool demo_acquired) = 1 /\ SlabPool_destroy (sb_pool demo_acquired) <> Ret tt.
Proof.
  destruct (slab_exclusive_slots 24 8 false demo_acquired demo_acquired_reachable)
    as (_ & _ & _ & Ha & Hd & _).
  assert (Hv : held demo_acquired !! 0%nat = Some 42) by (vm_compute; reflexivity).
  split.
  - rewrite Ha. vm_compute. reflexivity.
  - intros H. apply Hd in H. rewrite H in Hv. discriminate Hv.
Defined.
