(* ===== verification/Handles.v ===== *)
(** * File and socket handles

    Models [src/core/handles.cpp] and its header: owning descriptors that are closed once.
    The two classes have the same members and function bodies and differ only as types, so
    the model indexes one handle type by its kind.  The operations table is the caller's (or
    the system's); a close call returns its result and [errno] and changes the state of the
    world [W]. *)
From S2P Require Import Prelude Contract.
From Stdlib Require Import ZArith Lia String.
From stdpp Require Import base numbers list gmap option.

Set Default Goal Selector "!".
#[local] Open Scope Z_scope.

Inductive HandleKind := file_kind | socket_kind.

Record DescriptorOperations (W : Type) := MkDescriptorOperations {
  do_close : option (W -> Z -> (Z * Z) * W) }.
Arguments MkDescriptorOperations {W}.
Arguments do_close {W}.

Record Handle (kind : HandleKind) (W : Type) := MkHandle {
  hd_descriptor : Z; hd_operations : option (DescriptorOperations W) }.
Arguments MkHandle {kind W}.
Arguments hd_descriptor {kind W}.
Arguments hd_operations {kind W}.

Definition FileHandle : Type -> Type := Handle file_kind.
Definition SocketHandle : Type -> Type := Handle socket_kind.

(** [BorrowedFileHandle] and [BorrowedSocketHandle] *)
Record BorrowedHandle (kind : HandleKind) := MkBorrowedHandle { bh_descriptor : Z }.
Arguments MkBorrowedHandle {kind}.

Definition invalid_descriptor : Z := -1.

Definition invalid_descriptor_error : Error :=
  make_error domain_core invalid_input EINVAL
    (list_ascii_of_string "descriptor adoption requires a non-negative descriptor").

Definition close_descriptor_once {W : Type} (w : W) (descriptor : Z)
    (operations : option (DescriptorOperations W)) : Result unit * W :=
  match operations ≫= do_close with
  | None => (Err (core_error invalid_state "descriptor has no close operation"), w)
  | Some close =>
      let '(result, errno, w) := close w descriptor in
      (if result =? 0 then Ok tt else Err (from_errno errno "descriptor close failed"), w)
  end.

Section handle.
Context {kind : HandleKind} {W : Type}.
Implicit Types (this other : Handle kind W) (w : W).

Definition Handle_default : Handle kind W := MkHandle invalid_descriptor None.

Definition Handle_is_valid this : bool := 0 <=? hd_descriptor this.

Definition Handle_borrow this : BorrowedHandle kind := MkBorrowedHandle (hd_descriptor this).

Definition Handle_adopt (default_operations : DescriptorOperations W) (descriptor : Z) :
    Result (Handle kind W) :=
  if descriptor <? 0 then Err invalid_descriptor_error
  else Ok (MkHandle descriptor (Some default_operations)).

Definition Handle_release this : Z * Handle kind W :=
  (hd_descriptor this, MkHandle invalid_descriptor None).

Definition Handle_close w this : Result unit * (Handle kind W * W) :=
  if negb (Handle_is_valid this) then (Ok tt, (this, w)) else
  let operations := hd_operations this in
  let '(descriptor, this) := Handle_release this in
  let '(r, w) := close_descriptor_once w descriptor operations in
  (r, (this, w)).

(** [move_from]: the handle filled and the handle emptied. *)
Definition Handle_move_from other : Handle kind W * Handle kind W :=
  let operations := hd_operations other in
  let '(descriptor, other) := Handle_release other in
  let this := MkHandle descriptor operations in
  (if negb (Handle_is_valid this) then MkHandle descriptor None else this, other).

(** Move assignment of distinct handles; self-assignment does nothing. *)
Definition Handle_move_assign w this other : Handle kind W * Handle kind W * W :=
  let '(_, (_, w)) := Handle_close w this in
  let '(this, other) := Handle_move_from other in (this, other, w).

(** [reset] with a distinct replacement. *)
Definition Handle_reset w this replacement : Result unit * (Handle kind W * Handle kind W * W) :=
  if Handle_is_valid this && Handle_is_valid replacement &&
     (hd_descriptor this =? hd_descriptor replacement)
  then let '(_, replacement) := Handle_release replacement in (Ok tt, (this, replacement, w)) else
  let '(old_close, (_, w)) := Handle_close w this in
  let '(this, replacement) := Handle_move_from replacement in
  (old_close, (this, replacement, w)).

Definition Handle_destroy w this : W := let '(_, (_, w)) := Handle_close w this in w.
End handle.

(** The socket class repeats the bodies of the file class. *)
Definition SocketHandle_adopt {W} := @Handle_adopt socket_kind W.
Definition SocketHandle_release {W} := @Handle_release socket_kind W.
Definition SocketHandle_close {W} := @Handle_close socket_kind W.
Definition SocketHandle_reset {W} := @Handle_reset socket_kind W.
Definition SocketHandle_move_from {W} := @Handle_move_from socket_kind W.
Definition SocketHandle_move_assign {W} := @Handle_move_assign socket_kind W.
Definition SocketHandle_destroy {W} := @Handle_destroy socket_kind W.

(** ** Clients of handles

    The world is the log of close calls: whatever the system answers depends on the calls it
    has received, so any environment is a function [answer] of the log. *)
Section ownership.
Context (kind : HandleKind) (answer : list Z -> Z -> Z * Z).

Definition logging_close (log : list Z) (descriptor : Z) : (Z * Z) * list Z :=
  (answer log descriptor, log ++ [descriptor]).
Definition logged_operations : DescriptorOperations (list Z) :=
  MkDescriptorOperations (Some logging_close).

(** The handle objects, the close log, and what the client adopted and took back. *)
Record HandleState := MkHandleState {
  hs_handles : gmap nat (Handle kind (list Z)); hs_next : nat; hs_log : list Z;
  hs_adopted : list Z; hs_released : list Z }.

Inductive HandleOp :=
  | HAdopt (descriptor : Z)
  | HRelease (id : nat)
  | HClose (id : nat)
  | HMoveConstruct (id : nat)
  | HMoveAssign (id other : nat)
  | HReset (id other : nat)
  | HDestroy (id : nat).

Definition the_handle (s : HandleState) (id : nat) : outcome (Handle kind (list Z)) :=
  match hs_handles s !! id with Some h => Ret h | None => Stop Undefined end.

Definition set_handles (s : HandleState) (m : gmap nat (Handle kind (list Z))) (log : list Z) : HandleState :=
  MkHandleState m (hs_next s) log (hs_adopted s) (hs_released s).

Definition exec_handle (s : HandleState) (op : HandleOp) : outcome HandleState :=
  match op with
  | HAdopt descriptor =>
      match Handle_adopt (kind := kind) logged_operations descriptor with
      | Err _ => Ret s
      | Ok h => Ret (MkHandleState (<[hs_next s := h]> (hs_handles s)) (S (hs_next s)) (hs_log s)
                       (hs_adopted s ++ [descriptor]) (hs_released s))
      end
  | HRelease id =>
      h ← the_handle s id;
      let '(descriptor, h') := Handle_release h in
      Ret (MkHandleState (<[id := h']> (hs_handles s)) (hs_next s) (hs_log s) (hs_adopted s)
             (if Handle_is_valid h then hs_released s ++ [descriptor] else hs_released s))
  | HClose id =>
      h ← the_handle s id;
      let '(_, (h, log)) := Handle_close (hs_log s) h in
      Ret (set_handles s (<[id := h]> (hs_handles s)) log)
  | HMoveConstruct id =>
      h ← the_handle s id;
      let '(h, other) := Handle_move_from h in
      Ret (MkHandleState (<[hs_next s := h]> (<[id := other]> (hs_handles s))) (S (hs_next s)) (hs_log s)
             (hs_adopted s) (hs_released s))
  | HMoveAssign id other_id =>
      h ← the_handle s id;
      other ← the_handle s other_id;
      if bool_decide (id = other_id) then Ret s else
      let '(h, other, log) := Handle_move_assign (hs_log s) h other in
      Ret (set_handles s (<[id := h]> (<[other_id := other]> (hs_handles s))) log)
  | HReset id other_id =>
      h ← the_handle s id;
      other ← the_handle s other_id;
      if bool_decide (id = other_id) then Ret s else
      let '(_, (h, other, log)) := Handle_reset (hs_log s) h other in
      Ret (set_handles s (<[id := h]> (<[other_id := other]> (hs_handles s))) log)
  | HDestroy id =>
      h ← the_handle s id;
      Ret (set_handles s (delete id (hs_handles s)) (Handle_destroy (hs_log s) h))
  end.

(** ** Accounting *)
Definition occurrences (l : list Z) (d : Z) : Z := Z.of_nat (count_occ Z.eq_dec l d).

(** [1] when the handle owns the descriptor. *)
Definition owns (d : Z) (_ : nat) (h : Handle kind (list Z)) : Z :=
  if Handle_is_valid h && (hd_descriptor h =? d) then 1 else 0.
Definition owners (s : HandleState) (d : Z) : Z := map_sum (owns d) (hs_handles s).

(** A client adopts only descriptors no live handle owns, as [open] and [socket] return. *)
Definition handle_legal (s : HandleState) (op : HandleOp) : Prop :=
  match op with
  | HAdopt d => owners s d = 0
  | HRelease id | HClose id | HMoveConstruct id | HDestroy id => is_Some (hs_handles s !! id)
  | HMoveAssign id other | HReset id other =>
      is_Some (hs_handles s !! id) /\ is_Some (hs_handles s !! other)
  end.

Inductive handle_reachable : HandleState -> Prop :=
  | handle_start : handle_reachable (MkHandleState ∅ 0 [] [] [])
  | handle_next s op s' :
      handle_reachable s -> handle_legal s op -> exec_handle s op = Ret s' -> handle_reachable s'.

Definition handle_ok (h : Handle kind (list Z)) : Prop :=
  Handle_is_valid h = true -> hd_operations h = Some logged_operations.

Record handles_inv (s : HandleState) : Prop := {
  hi_fresh : forall id, (hs_next s <= id)%nat -> hs_handles s !! id = None;
  hi_ok : forall id h, hs_handles s !! id = Some h -> handle_ok h;
  hi_unique : forall d, owners s d <= 1;
  hi_balance : forall d, occurrences (hs_adopted s) d =
    occurrences (hs_log s) d + occurrences (hs_released s) d + owners s d }.

Lemma occurrences_snoc l d d' : occurrences (l ++ [d]) d' = occurrences l d' + (if d =? d' then 1 else 0).
Proof.
  unfold occurrences. rewrite count_occ_app. simpl.
  destruct (Z.eq_dec d d') as [->|Hne]; [rewrite Z.eqb_refl|rewrite (proj2 (Z.eqb_neq _ _) Hne)]; lia.
Qed.

Lemma owns_range d id h : 0 <= owns d id h <= 1.
Proof. unfold owns. destruct (_ && _); lia. Qed.

Lemma owns_released d id : owns d id (MkHandle invalid_descriptor None) = 0.
Proof. done. Qed.

(** Closing a handle logs its descriptor once and leaves it empty. *)
Lemma close_run log h :
  handle_ok h ->
  exists r h' log', Handle_close log h = (r, (h', log')) /\ Handle_is_valid h' = false /\
    (forall d, occurrences log' d = occurrences log d + owns d 0 h) /\
    (if Handle_is_valid h
     then log' = log ++ [hd_descriptor h] /\
          r = if fst (answer log (hd_descriptor h)) =? 0 then Ok tt
              else Err (from_errno (snd (answer log (hd_descriptor h))) "descriptor close failed")
     else log' = log /\ r = Ok tt).
Proof.
  intros Hok. unfold Handle_close, owns. destruct (Handle_is_valid h) eqn:Hv; simpl.
  - rewrite (Hok Hv). unfold close_descriptor_once. simpl. unfold logging_close.
    destruct (answer log (hd_descriptor h)) as [result errno] eqn:Ha.
    eexists _, _, _. split; [reflexivity|]. split; [done|]. split; [|done].
    intros d. apply occurrences_snoc.
  - eexists _, _, _. split; [done|]. split; [done|]. split; [|done]. intros d. lia.
Qed.

Lemma move_from_facts h :
  handle_ok h -> handle_ok (fst (Handle_move_from h)) /\
    snd (Handle_move_from h) = MkHandle invalid_descriptor None /\
    (forall d id id', owns d id (fst (Handle_move_from h)) = owns d id' h).
Proof.
  intros Hok. unfold Handle_move_from, Handle_is_valid, handle_ok, owns in *.
  unfold Handle_is_valid in *. simpl.
  destruct (0 <=? hd_descriptor h) eqn:Hv; simpl; rewrite ?Hv; simpl; (split; [|split]); try done.
Qed.

(** The step lemma all operations share: handles may change as long as the owners of every
    descriptor change with the log and the released list. *)
Lemma inv_step s m n log adopted released :
  handles_inv s ->
  (forall id, (n <= id)%nat -> m !! id = None) ->
  (forall id h, m !! id = Some h -> handle_ok h) ->
  (forall d, map_sum (owns d) m <= 1) ->
  (forall d, occurrences adopted d - occurrences (hs_adopted s) d =
     occurrences log d - occurrences (hs_log s) d +
     (occurrences released d - occurrences (hs_released s) d) + (map_sum (owns d) m - owners s d)) ->
  handles_inv (MkHandleState m n log adopted released).
Proof.
  intros [_ _ _ Hb] Hf Hok Hu Hd. split; try done. intros d. unfold owners. simpl.
  specialize (Hb d). specialize (Hd d). unfold owners in *. lia.
Qed.

Lemma handle_below s id h : handles_inv s -> hs_handles s !! id = Some h -> (id < hs_next s)%nat.
Proof.
  intros HI Hh. destruct (Nat.lt_ge_cases id (hs_next s)) as [|Hge]; [done|].
  pose proof (hi_fresh s HI id Hge). congruence.
Qed.

Lemma owns_id d i j h : owns d i h = owns d j h.
Proof. done. Qed.

(** Replacing one handle. *)
Lemma replace_one s id h h' log adopted released :
  handles_inv s -> hs_handles s !! id = Some h -> handle_ok h' ->
  (forall d, owns d 0 h' <= owns d 0 h) ->
  (forall d, occurrences adopted d - occurrences (hs_adopted s) d =
     occurrences log d - occurrences (hs_log s) d +
     (occurrences released d - occurrences (hs_released s) d) + (owns d 0 h' - owns d 0 h)) ->
  handles_inv (MkHandleState (<[id := h']> (hs_handles s)) (hs_next s) log adopted released).
Proof.
  intros HI Hh Hok Hle Hd. pose proof (handle_below s id h HI Hh) as Hlt.
  assert (Hsum : forall d, map_sum (owns d) (<[id := h']> (hs_handles s)) =
    owners s d - owns d 0 h + owns d 0 h') by (intros d; by rewrite (map_sum_update _ _ _ h) by done).
  apply (inv_step s); [done| | | |].
  - intros k Hk. rewrite lookup_insert_ne by lia. by apply (hi_fresh s HI).
  - intros k x [[<- <-]|[_ Hx]]%lookup_insert_Some; [done|by apply (hi_ok s HI k)].
  - intros d. rewrite Hsum. pose proof (hi_unique s HI d). specialize (Hle d). lia.
  - intros d. rewrite Hsum, Hd. lia.
Qed.

(** Replacing two handles. *)
Lemma replace_two s id other h o h' o' log :
  handles_inv s -> id <> other -> hs_handles s !! id = Some h -> hs_handles s !! other = Some o ->
  handle_ok h' -> handle_ok o' ->
  (forall d, owns d 0 h' + owns d 0 o' <= owns d 0 h + owns d 0 o) ->
  (forall d, 0 = occurrences log d - occurrences (hs_log s) d +
     (owns d 0 h' + owns d 0 o' - owns d 0 h - owns d 0 o)) ->
  handles_inv (set_handles s (<[id := h']> (<[other := o']> (hs_handles s))) log).
Proof.
  intros HI Hne Hh Ho Hok Hok' Hle Hd. pose proof (handle_below s id h HI Hh) as Hlt.
  pose proof (handle_below s other o HI Ho) as Hlt2.
  assert (Hsum : forall d, map_sum (owns d) (<[id := h']> (<[other := o']> (hs_handles s))) =
    owners s d - owns d 0 h - owns d 0 o + owns d 0 h' + owns d 0 o').
  { intros d. rewrite (map_sum_update _ _ _ h) by by rewrite lookup_insert_ne.
    rewrite (map_sum_update _ _ _ o) by done. rewrite !(owns_id d id 0), !(owns_id d other 0).
    unfold owners. lia. }
  apply (inv_step s); [done| | | |].
  - intros k Hk. rewrite !lookup_insert_ne by lia. by apply (hi_fresh s HI).
  - intros k x [[<- <-]|[_ [[<- <-]|[_ Hx]]%lookup_insert_Some]]%lookup_insert_Some;
      [done|done|by apply (hi_ok s HI k)].
  - intros d. rewrite Hsum. pose proof (hi_unique s HI d). specialize (Hle d). lia.
  - intros d. rewrite Hsum. specialize (Hd d). lia.
Qed.

Lemma invalid_owns_nothing d h : Handle_is_valid h = false -> owns d 0 h = 0.
Proof. unfold owns. by intros ->. Qed.

Lemma two_owners s id other h o d :
  handles_inv s -> id <> other -> hs_handles s !! id = Some h -> hs_handles s !! other = Some o ->
  owns d 0 h + owns d 0 o <= 1.
Proof.
  intros HI Hne Hh Ho. pose proof (hi_unique s HI d) as Hu. unfold owners in Hu.
  rewrite (map_sum_lookup _ _ id h Hh) in Hu.
  rewrite (map_sum_lookup _ (delete id _) other o) in Hu by by rewrite lookup_delete_ne.
  assert (0 <= map_sum (owns d) (delete other (delete id (hs_handles s))))
    by (apply map_sum_nonneg; intros; apply owns_range).
  rewrite (owns_id d id 0), (owns_id d other 0) in Hu. lia.
Qed.

(** Two distinct handles: assignment, or [reset] which then never meets the alias branch. *)
Lemma assign_inv s id other h o :
  handles_inv s -> id <> other -> hs_handles s !! id = Some h -> hs_handles s !! other = Some o ->
  let '(h', o', log) := Handle_move_assign (hs_log s) h o in
  handles_inv (set_handles s (<[id := h']> (<[other := o']> (hs_handles s))) log) /\
  exists r, Handle_reset (hs_log s) h o = (r, (h', o', log)).
Proof.
  intros HI Hne Hh Ho. unfold Handle_move_assign, Handle_reset.
  destruct (close_run (hs_log s) h (hi_ok s HI id h Hh)) as (r & h' & log & -> & Hv & Hlog & _).
  destruct (move_from_facts o (hi_ok s HI other o Ho)) as (Hok & Hempty & Howns).
  destruct (Handle_move_from o) as [x y]. simpl in Hok, Hempty, Howns. subst y.
  split.
  - apply (replace_two s id other h o); try done.
    + intros d. rewrite owns_released, (Howns d 0%nat 0%nat). pose proof (owns_range d 0 h). lia.
    + intros d. rewrite owns_released, (Howns d 0%nat 0%nat), Hlog. lia.
  - destruct (Handle_is_valid h && _ && _) eqn:E; [|eauto]. exfalso.
    rewrite !andb_true_iff, Z.eqb_eq in E. destruct E as [[Hv1 Hv2] Hd].
    pose proof (two_owners s id other h o (hd_descriptor h) HI Hne Hh Ho) as H2.
    unfold owns in H2. rewrite Hv1, Hv2, <- Hd, Z.eqb_refl in H2. simpl in H2. lia.
Qed.

Lemma construct_inv s id h :
  handles_inv s -> hs_handles s !! id = Some h ->
  let '(h', o') := Handle_move_from h in
  handles_inv (MkHandleState (<[hs_next s := h']> (<[id := o']> (hs_handles s))) (S (hs_next s)) (hs_log s)
    (hs_adopted s) (hs_released s)).
Proof.
  intros HI Hh. destruct (move_from_facts h (hi_ok s HI id h Hh)) as (Hok & Hempty & Howns).
  destruct (Handle_move_from h) as [x y]. simpl in Hok, Hempty, Howns. subst y.
  pose proof (handle_below s id h HI Hh) as Hlt.
  assert (Hsum : forall d, map_sum (owns d)
      (<[hs_next s := x]> (<[id := MkHandle invalid_descriptor None]> (hs_handles s))) = owners s d).
  { intros d. rewrite map_sum_insert
      by (rewrite lookup_insert_ne by lia; by apply (hi_fresh s HI)).
    rewrite (map_sum_update _ _ _ h) by done. rewrite owns_released, (Howns d _ id). unfold owners. lia. }
  apply (inv_step s); [done| | | |].
  - intros k Hk. rewrite !lookup_insert_ne by lia. apply (hi_fresh s HI). lia.
  - intros k z [[<- <-]|[_ [[<- <-]|[_ Hx]]%lookup_insert_Some]]%lookup_insert_Some;
      [done|done|by apply (hi_ok s HI k)].
  - intros d. rewrite Hsum. apply (hi_unique s HI).
  - intros d. rewrite Hsum. lia.
Qed.

Lemma exec_adopt_ok s d :
  handles_inv s -> handle_legal s (HAdopt d) -> exists s', exec_handle s (HAdopt d) = Ret s' /\ handles_inv s'.
Proof.
  intros HI Hl. cbn [exec_handle handle_legal] in *.
  unfold Handle_adopt. destruct (Z.ltb_spec d 0) as [Hn|Hn]; [eauto|]. eexists. split; [done|].
  assert (Hsum : forall d', map_sum (owns d')
      (<[hs_next s := MkHandle d (Some logged_operations)]> (hs_handles s)) =
      (if d =? d' then 1 else 0) + owners s d').
  { intros d'. rewrite map_sum_insert by by apply (hi_fresh s HI). unfold owns at 1, Handle_is_valid.
    simpl. by rewrite (proj2 (Z.leb_le _ _)) by done. }
  apply (inv_step s); [done| | | |].
  - intros k Hk. rewrite lookup_insert_ne by lia. apply (hi_fresh s HI). lia.
  - intros k z [[<- <-]|[_ Hx]]%lookup_insert_Some; [done|by apply (hi_ok s HI k)].
  - intros d'. rewrite Hsum. pose proof (hi_unique s HI d').
    destruct (Z.eqb_spec d d') as [<-|]; lia.
  - intros d'. rewrite Hsum, occurrences_snoc. lia.
Qed.

Lemma exec_release_ok s id :
  handles_inv s -> handle_legal s (HRelease id) -> exists s', exec_handle s (HRelease id) = Ret s' /\ handles_inv s'.
Proof.
  intros HI Hl. cbn [exec_handle handle_legal] in *.
  destruct Hl as [h Hh]. unfold the_handle. rewrite Hh. simpl. eexists. split; [done|].
  apply (replace_one s id h); [done|done|done| |].
  - intros d. rewrite owns_released. apply owns_range.
  - intros d. rewrite owns_released. unfold owns. destruct (Handle_is_valid h); simpl; [|lia].
    rewrite occurrences_snoc. lia.
Qed.

Lemma exec_close_ok s id :
  handles_inv s -> handle_legal s (HClose id) -> exists s', exec_handle s (HClose id) = Ret s' /\ handles_inv s'.
Proof.
  intros HI Hl. cbn [exec_handle handle_legal] in *.
  destruct Hl as [h Hh]. unfold the_handle. rewrite Hh. simpl.
  destruct (close_run (hs_log s) h (hi_ok s HI id h Hh)) as (r & h' & log & -> & Hv & Hlog & _).
  eexists. split; [done|]. apply (replace_one s id h); [done|done|by unfold handle_ok; rewrite Hv| |].
  - intros d. rewrite (invalid_owns_nothing d h' Hv). apply owns_range.
  - intros d. rewrite (invalid_owns_nothing d h' Hv), Hlog. lia.
Qed.

Lemma exec_move_construct_ok s id :
  handles_inv s -> handle_legal s (HMoveConstruct id) -> exists s', exec_handle s (HMoveConstruct id) = Ret s' /\ handles_inv s'.
Proof.
  intros HI Hl. cbn [exec_handle handle_legal] in *.
  destruct Hl as [h Hh]. unfold the_handle. rewrite Hh. cbn [mbind outcome_bind].
  pose proof (construct_inv s id h HI Hh) as Hc. destruct (Handle_move_from h). eexists. split; [reflexivity|exact Hc].
Qed.

Lemma exec_move_assign_ok s id other :
  handles_inv s -> handle_legal s (HMoveAssign id other) -> exists s', exec_handle s (HMoveAssign id other) = Ret s' /\ handles_inv s'.
Proof.
  intros HI Hl. cbn [exec_handle handle_legal] in *.
  destruct Hl as [[h Hh] [o Ho]]. unfold the_handle. rewrite Hh, Ho. cbn [mbind outcome_bind].
  destruct (decide (id = other)) as [->|Hne]; [rewrite bool_decide_true by done; eauto|].
  rewrite bool_decide_false by done.
  pose proof (assign_inv s id other h o HI Hne Hh Ho) as Ha.
  destruct (Handle_move_assign (hs_log s) h o) as [[h' o'] log]. destruct Ha as [Ha _]. eexists. split; [reflexivity|exact Ha].
Qed.

Lemma exec_reset_handle_ok s id other :
  handles_inv s -> handle_legal s (HReset id other) -> exists s', exec_handle s (HReset id other) = Ret s' /\ handles_inv s'.
Proof.
  intros HI Hl. cbn [exec_handle handle_legal] in *.
  destruct Hl as [[h Hh] [o Ho]]. unfold the_handle. rewrite Hh, Ho. cbn [mbind outcome_bind].
  destruct (decide (id = other)) as [->|Hne]; [rewrite bool_decide_true by done; eauto|].
  rewrite bool_decide_false by done.
  pose proof (assign_inv s id other h o HI Hne Hh Ho) as Ha.
  destruct (Handle_move_assign (hs_log s) h o) as [[h' o'] log]. destruct Ha as [Ha [r ->]].
  eexists. split; [reflexivity|exact Ha].
Qed.

Lemma exec_destroy_ok s id :
  handles_inv s -> handle_legal s (HDestroy id) -> exists s', exec_handle s (HDestroy id) = Ret s' /\ handles_inv s'.
Proof.
  intros HI Hl. cbn [exec_handle handle_legal] in *.
  destruct Hl as [h Hh]. unfold the_handle, Handle_destroy. rewrite Hh. simpl.
  destruct (close_run (hs_log s) h (hi_ok s HI id h Hh)) as (r & h' & log & -> & Hv & Hlog & _).
  eexists. split; [done|].
  assert (Hsum : forall d, map_sum (owns d) (delete id (hs_handles s)) = owners s d - owns d 0 h)
    by (intros d; unfold owners; rewrite (map_sum_lookup _ _ id h Hh), (owns_id d id 0); lia).
  apply (inv_step s); [done| | | |].
  - intros k Hk. apply lookup_delete_None. right. by apply (hi_fresh s HI).
  - intros k z [_ Hx]%lookup_delete_Some. by apply (hi_ok s HI k).
  - intros d. rewrite Hsum. pose proof (hi_unique s HI d). pose proof (owns_range d 0 h). lia.
  - intros d. rewrite Hsum, Hlog. lia.
Qed.

Lemma exec_handle_ok s op :
  handles_inv s -> handle_legal s op -> exists s', exec_handle s op = Ret s' /\ handles_inv s'.
Proof.
  destruct op.
  - apply exec_adopt_ok.
  - apply exec_release_ok.
  - apply exec_close_ok.
  - apply exec_move_construct_ok.
  - apply exec_move_assign_ok.
  - apply exec_reset_handle_ok.
  - apply exec_destroy_ok.
Qed.

Lemma handle_reachable_inv s : handle_reachable s -> handles_inv s.
Proof.
  induction 1 as [|s op s' Hr IH Hl He].
  - split; simpl; intros; rewrite ?lookup_empty in *; try done.
  - destruct (exec_handle_ok s op IH Hl) as (s2 & E & Hok). congruence.
Qed.
End ownership.

(** ** Property *)

(** C8: whatever the system answers to close calls, along every run of adoptions, releases,
    closes, moves, resets and destructions every operation returns and every adoption of a
    descriptor is accounted for once: it is still owned by one handle, was released to the
    caller, or was passed to close, and in particular no adopted descriptor is closed twice
    or leaked once all handles are destroyed; a close reports the system's failure and is
    not retried. *)
Theorem handles_close_exactly_once (kind : HandleKind) (answer : list Z -> Z -> Z * Z)
    (s : HandleState kind) :
  handle_reachable kind answer s ->
  (forall op, handle_legal kind s op -> exists s', exec_handle kind answer s op = Ret s') /\
  (forall d, occurrences (hs_adopted kind s) d =
     occurrences (hs_log kind s) d + occurrences (hs_released kind s) d + owners kind s d) /\
  (forall d, 0 <= owners kind s d <= 1) /\
  (hs_handles kind s = ∅ -> forall d, occurrences (hs_log kind s) d =
     occurrences (hs_adopted kind s) d - occurrences (hs_released kind s) d) /\
  (forall id h, hs_handles kind s !! id = Some h ->
     let d := hd_descriptor h in
     let '(r, (h', log)) := Handle_close (hs_log kind s) h in
     Handle_is_valid h' = false /\
     if Handle_is_valid h
     then log = hs_log kind s ++ [d] /\
       r = if fst (answer (hs_log kind s) d) =? 0 then Ok tt
           else Err (from_errno (snd (answer (hs_log kind s) d)) "descriptor close failed")
     else log = hs_log kind s /\ r = Ok tt).
Proof.
  intros HI%handle_reachable_inv. split; [|split; [|split; [|split]]].
  - intros op Hl. destruct (exec_handle_ok kind answer s op HI Hl) as (s' & E & _). eauto.
  - apply HI.
  - intros d. split; [|apply (hi_unique _ _ s HI)]. apply map_sum_nonneg. intros. apply owns_range.
  - intros He d. pose proof (hi_balance _ _ s HI d) as Hb. unfold owners in Hb. rewrite He in Hb.
    rewrite map_sum_empty in Hb. lia.
  - intros id h Hh d.
    destruct (close_run kind answer (hs_log kind s) h (hi_ok _ _ s HI id h Hh))
      as (r & h' & log & -> & Hv & _ & Hr).
    split; [done|]. done.
Qed.

(** One descriptor, adopted and then lost to a failing close. *)
Definition failing_answer (_ : list Z) (_ : Z) : Z * Z := (-1, 5).
Definition adopted_state : HandleState file_kind :=
  match exec_handle file_kind failing_answer (MkHandleState file_kind ∅ 0 [] [] []) (HAdopt 7) with
  | Ret s => s
  | Stop _ => MkHandleState file_kind ∅ 0 [] [] []
  end.

Lemma handles_close_exactly_once_witness :
  exists s', exec_handle file_kind failing_answer adopted_state (HDestroy 0) = Ret s' /\
    occurrences (hs_adopted file_kind adopted_state) 7 = 1 /\ owners file_kind adopted_state 7 = 1.
Proof.
  destruct (handles_close_exactly_once file_kind failing_answer adopted_state) as (Hop & Hbal & _).
  { apply (handle_next _ _ (MkHandleState file_kind ∅ 0 [] [] []) (HAdopt 7));
      [apply handle_start|vm_compute; reflexivity..]. }
  destruct (Hop (HDestroy 0)) as [s' E]; [eexists; vm_compute; reflexivity|].
  exists s'. split; [exact E|]. specialize (Hbal 7).
  assert (owners file_kind adopted_state 7 = 1) as Ho by (vm_compute; reflexivity).
  split; [rewrite Hbal, Ho; vm_compute; reflexivity|exact Ho].
Defined.
