(* ===== verification/MappedRegions.v ===== *)
(** * Mapped regions

    Models [src/core/mapped_regions.cpp] with its headers: validation of mapping requests,
    regions that own a mapping and its descriptor, views of them, page-rounded flushes,
    protection changes and the release protocol.  The operations table stands for the POSIX
    calls; each call returns its result and [errno] and changes the state of the world [W].
    [address_of] is the numeric value of a pointer. *)
From S2P Require Import Prelude Contract CheckedArithmetic Views Handles.
From Stdlib Require Import ZArith Lia String Ascii.
From stdpp Require Import base numbers list gmap option.

Set Default Goal Selector "!".
#[local] Open Scope Z_scope.

(** The enumerations have a byte as underlying type, so other values can reach the checks. *)
Inductive MappingAccess := read_only | read_write | access_value (raw : Z).
Inductive MappingFlush := synchronous | asynchronous | flush_value (raw : Z).

#[export] Instance MappingAccess_eq_dec : EqDecision MappingAccess.
Proof. solve_decision. Defined.
#[export] Instance MappingFlush_eq_dec : EqDecision MappingFlush.
Proof. solve_decision. Defined.

Record MappingOperations (W : Type) := MkMappingOperations {
  mo_map : option (W -> Z -> Z -> Z -> MappingAccess -> (option pointer * Z) * W);
  mo_unmap : option (W -> option pointer -> Z -> (Z * Z) * W);
  mo_flush : option (W -> Z -> Z -> MappingFlush -> (Z * Z) * W);
  mo_protect : option (W -> option pointer -> Z -> MappingAccess -> (Z * Z) * W);
  mo_page_size : option (W -> (Z * Z) * W);
  mo_file_size : option (W -> Z -> (Z * Z * Z) * W);
  mo_open_shared_memory : option (W -> list ascii -> MappingAccess -> (Z * Z) * W);
  mo_failed_mapping : option pointer }.
Arguments MkMappingOperations {W}.
Arguments mo_map {W}.
Arguments mo_unmap {W}.
Arguments mo_flush {W}.
Arguments mo_protect {W}.
Arguments mo_page_size {W}.
Arguments mo_file_size {W}.
Arguments mo_open_shared_memory {W}.
Arguments mo_failed_mapping {W}.

Record MappedRegionView := MkMappedRegionView {
  mv_address : option pointer; mv_size : Z; mv_writable : bool }.

Record MappedRegion (W : Type) := MkMappedRegion {
  mg_address : option pointer;
  mg_size : Z;
  mg_access : MappingAccess;
  mg_file : FileHandle W;
  mg_operations : option (MappingOperations W) }.
Arguments MkMappedRegion {W}.
Arguments mg_address {W}.
Arguments mg_size {W}.
Arguments mg_access {W}.
Arguments mg_file {W}.
Arguments mg_operations {W}.

(** A call through a function pointer. *)
Definition callee {A : Type} (f : option A) : outcome A :=
  match f with Some f => Ret f | None => Stop Undefined end.

Definition is_null {A : Type} (p : option A) : bool := match p with None => true | Some _ => false end.

Definition mapping_error (code : ErrorCode) (diagnostic : string) : Error := core_error code diagnostic.

Definition is_valid_access (access : MappingAccess) : bool :=
  bool_decide (access = read_only) || bool_decide (access = read_write).
Definition is_valid_flush (mode : MappingFlush) : bool :=
  bool_decide (mode = synchronous) || bool_decide (mode = asynchronous).

Definition mapping_closed_error : Error := mapping_error invalid_state "mapping is closed".
Definition mapped_view_error : Error := mapping_error invalid_state "mapped view is invalid".

(** [std::numeric_limits<off_t>::max()] *)
Definition off_t_max : Z := int_max int64_t.

(** ** Views of a region *)
Definition MappedRegionView_is_valid (this : MappedRegionView) : bool := negb (is_null (mv_address this)).

Definition MappedRegionView_readable (this : MappedRegionView) : Result ByteView :=
  if negb (MappedRegionView_is_valid this) then Err mapped_view_error else
  ByteView_from (MkSpan (mv_address this) (mv_size this)).

Definition MappedRegionView_writable (this : MappedRegionView) : Result MutableByteView :=
  if negb (MappedRegionView_is_valid this) then Err mapped_view_error else
  if negb (mv_writable this) then Err (mapping_error invalid_state "mapped view is read only") else
  MutableByteView_from (MkSpan (mv_address this) (mv_size this)).

Definition MappedRegionView_slice (this : MappedRegionView) (offset length : Z) : Result MappedRegionView :=
  if negb (MappedRegionView_is_valid this) then Err mapped_view_error else
  _ ← checked_range size_t offset length (mv_size this);
  Ok (MkMappedRegionView ((fun p => ptr_add p offset) <$> mv_address this) length (mv_writable this)).

Section mapped.
Context {W : Type} (address_of : pointer -> Z).
Implicit Types (this other : MappedRegion W) (file : FileHandle W) (w : W)
  (operations : MappingOperations W).

Definition MappedRegion_default : MappedRegion W :=
  MkMappedRegion None 0 read_only (Handle_default (kind := file_kind)) None.

Definition validate_mapping_request w file (size : Z) (access : MappingAccess) (offset : Z)
    operations : outcome (Result unit * W) :=
  if negb (Handle_is_valid file)
  then Ret (Err (mapping_error invalid_input "mapping requires an owned file descriptor"), w) else
  if size =? 0 then Ret (Err (mapping_error invalid_range "mapping size must be nonzero"), w) else
  if negb (is_valid_access access)
  then Ret (Err (mapping_error invalid_input "mapping access is invalid"), w) else
  if is_null (mo_map operations) || is_null (mo_unmap operations) || is_null (mo_flush operations) ||
     is_null (mo_protect operations) || is_null (mo_page_size operations) ||
     is_null (mo_file_size operations) || is_null (mo_failed_mapping operations)
  then Ret (Err (mapping_error invalid_state "mapping operations are incomplete"), w) else
  page_size_function ← callee (mo_page_size operations);
  let '(page_size, errno, w) := page_size_function w in
  if page_size <=? 0 then Ret (Err (from_errno errno "mapping page size query failed"), w) else
  TRY page_size_u64 ⇐ checked_narrow uint64_t page_size AT w IN
  if negb (offset mod page_size_u64 =? 0)
  then Ret (Err (mapping_error invalid_range "mapping offset must be page aligned"), w) else
  if cast uint64_t off_t_max <? offset
  then Ret (Err (mapping_error overflow "mapping offset exceeds POSIX offset range"), w) else
  file_size ← callee (mo_file_size operations);
  let '(result, source_size, errno, w) := file_size w (hd_descriptor file) in
  if negb (result =? 0) then Ret (Err (from_errno errno "mapping source size query failed"), w) else
  TRY size_u64 ⇐ checked_narrow uint64_t size AT w IN
  TRY expected_size ⇐ checked_add uint64_t offset size_u64 AT w IN
  if negb (source_size =? expected_size)
  then Ret (Err (mapping_error invalid_range "mapping source does not have the required fixed size"), w)
  else Ret (Ok tt, w).

(** [value % page == 0 ? value : checked_add(value, page - value % page)] *)
Definition round_up (value page : Z) : Result Z :=
  if value mod page =? 0 then Ok value
  else checked_add size_t value (u64 (page - value mod page)).

Definition page_rounded_range w (mapping_address : option pointer) (mapping_size : Z)
    (operations : option (MappingOperations W)) (offset length : Z) : outcome (Result (Z * Z) * W) :=
  match mapping_address, operations with
  | Some mapping_address, Some operations =>
      if length =? 0
      then Ret (Err (mapping_error invalid_range "mapping operation range must be nonzero"), w) else
      TRY _ ⇐ checked_range size_t offset length mapping_size AT w IN
      (page_size_function ← callee (mo_page_size operations);
       let '(page_size, errno, w) := page_size_function w in
       if page_size <=? 0 then Ret (Err (from_errno errno "mapping page size query failed"), w) else
       TRY page ⇐ checked_narrow size_t page_size AT w IN
       let start := u64 (offset - offset mod page) in
       TRY the_end ⇐ checked_add size_t offset length AT w IN
       TRY rounded_end ⇐ round_up the_end page AT w IN
       TRY rounded_mapping_size ⇐ round_up mapping_size page AT w IN
       if rounded_mapping_size <? rounded_end
       then Ret (Err (mapping_error invalid_range "mapping operation exceeds mapped pages"), w) else
       TRY address ⇐ checked_add size_t (address_of mapping_address) start AT w IN
       Ret (Ok (address, u64 (rounded_end - start)), w))
  | _, _ => Ret (Err mapping_closed_error, w)
  end.

(** ** Regions *)
Definition MappedRegion_is_mapped this : bool := negb (is_null (mg_address this)).

(** The constructor takes the descriptor out of [file]. *)
Definition MappedRegion_construct (address : option pointer) (size : Z) (access : MappingAccess) file
    operations : MappedRegion W * FileHandle W :=
  let '(owned, file) := Handle_move_from file in
  (MkMappedRegion address size access owned (Some operations), file).

Definition MappedRegion_map_with_operations w file (size : Z) (access : MappingAccess) (offset : Z)
    operations : outcome (Result (MappedRegion W) * (FileHandle W * W)) :=
  '(validation, w) ← validate_mapping_request w file size access offset operations;
  TRY _ ⇐ validation AT (file, w) IN
  (map ← callee (mo_map operations);
   let '(address, errno, w) := map w (hd_descriptor file) size offset access in
   if is_null address || bool_decide (address = mo_failed_mapping operations)
   then Ret (Err (from_errno errno "mapping creation failed"), (file, w)) else
   let '(region, file) := MappedRegion_construct address size access file operations in
   Ret (Ok region, (file, w))).

(** [map_shared_memory_name]: the scan of the name, from [index]. *)
Fixpoint slash_loop (n : nat) (name : list ascii) (index : Z) : outcome bool :=
  match n with
  | O => Ret false
  | S n' =>
      c ← slot name index;
      if bool_decide (c = "/"%char) then Ret true else slash_loop n' name (u64 (index + 1))
  end.

Definition MappedRegion_map_shared_memory_name w (system_close : W -> Z -> (Z * Z) * W)
    (default_descriptor_operations : DescriptorOperations W) operations
    (name : option (list ascii)) (name_length size : Z) (access : MappingAccess) :
    outcome (Result (MappedRegion W) * W) :=
  let refused := mapping_error invalid_input "shared memory name must begin with one slash" in
  match name with
  | None => Ret (Err refused, w)
  | Some name =>
      if name_length <? 2 then Ret (Err refused, w) else
      first ← slot name 0;
      if negb (bool_decide (first = "/"%char)) then Ret (Err refused, w) else
      another ← slash_loop (Z.to_nat (name_length - 1)) name 1;
      if (another : bool)
      then Ret (Err (mapping_error invalid_input "shared memory name cannot contain another slash"), w) else
      if negb (is_valid_access access)
      then Ret (Err (mapping_error invalid_input "mapping access is invalid"), w) else
      open_shared_memory ← callee (mo_open_shared_memory operations);
      let '(descriptor, errno, w) := open_shared_memory w name access in
      if descriptor <? 0 then Ret (Err (from_errno errno "shared memory open failed"), w) else
      match Handle_adopt default_descriptor_operations descriptor with
      | Err e => let '(_, w) := system_close w descriptor in Ret (Err e, w)
      | Ok file =>
          '(region, (file, w)) ← MappedRegion_map_with_operations w file size access 0 operations;
          Ret (region, Handle_destroy w file)
      end
  end.

Definition MappedRegion_view this : Result MappedRegionView :=
  if negb (MappedRegion_is_mapped this) then Err mapping_closed_error else
  Ok (MkMappedRegionView (mg_address this) (mg_size this) (bool_decide (mg_access this = read_write))).

Definition MappedRegion_flush w this (offset length : Z) (mode : MappingFlush) : outcome (Result unit * W) :=
  if negb (is_valid_flush mode)
  then Ret (Err (mapping_error invalid_input "mapping flush mode is invalid"), w) else
  match mg_operations this with
  | Some operations =>
      if is_null (mo_flush operations) || is_null (mo_page_size operations)
      then Ret (Err (mapping_error invalid_state "mapping has no flush operation"), w) else
      '(range, w) ← page_rounded_range w (mg_address this) (mg_size this) (Some operations) offset length;
      TRY range ⇐ range AT w IN
      (flush ← callee (mo_flush operations);
       let '(result, errno, w) := flush w (fst range) (snd range) mode in
       if negb (result =? 0) then Ret (Err (from_errno errno "mapping flush failed"), w)
       else Ret (Ok tt, w))
  | None => Ret (Err (mapping_error invalid_state "mapping has no flush operation"), w)
  end.

Definition MappedRegion_protect w this (access : MappingAccess) :
    outcome (Result unit * (MappedRegion W * W)) :=
  if negb (MappedRegion_is_mapped this) then Ret (Err mapping_closed_error, (this, w)) else
  if negb (is_valid_access access)
  then Ret (Err (mapping_error invalid_input "mapping access is invalid"), (this, w)) else
  match mg_operations this ≫= mo_protect with
  | None => Ret (Err (mapping_error invalid_state "mapping has no protection operation"), (this, w))
  | Some protect =>
      let '(result, errno, w) := protect w (mg_address this) (mg_size this) access in
      if negb (result =? 0)
      then Ret (Err (from_errno errno "mapping protection change failed"), (this, w))
      else Ret (Ok tt, (MkMappedRegion (mg_address this) (mg_size this) access (mg_file this)
                          (mg_operations this), w))
  end.

Definition MappedRegion_release w this : Result (FileHandle W) * (MappedRegion W * W) :=
  if negb (MappedRegion_is_mapped this) then (Err mapping_closed_error, (this, w)) else
  match mg_operations this ≫= mo_unmap with
  | None => (Err (mapping_error invalid_state "mapping has no unmap operation"), (this, w))
  | Some unmap =>
      let '(result, errno, w) := unmap w (mg_address this) (mg_size this) in
      if negb (result =? 0) then (Err (from_errno errno "mapping release failed"), (this, w)) else
      let '(released, file) := Handle_move_from (mg_file this) in
      (Ok released, (MkMappedRegion None 0 read_only file None, w))
  end.

(** The released handle is a local of [close] and is destroyed when it returns. *)
Definition MappedRegion_close w this : Result unit * (MappedRegion W * W) :=
  if negb (MappedRegion_is_mapped this) then
    let '(r, (file, w)) := Handle_close w (mg_file this) in
    (r, (MkMappedRegion (mg_address this) (mg_size this) (mg_access this) file (mg_operations this), w))
  else
  let '(file, (this, w)) := MappedRegion_release w this in
  match file with
  | Err e => (Err e, (this, w))
  | Ok file =>
      let '(r, (file, w)) := Handle_close w file in
      (r, (this, Handle_destroy w file))
  end.

(** [move_from]: the region filled, whose old descriptor is closed by the assignment of
    [file_], and the region emptied. *)
Definition MappedRegion_move_from w this other : MappedRegion W * MappedRegion W * W :=
  let '(file, other_file, w) := Handle_move_assign w (mg_file this) (mg_file other) in
  (MkMappedRegion (mg_address other) (mg_size other) (mg_access other) file (mg_operations other),
   MkMappedRegion None 0 read_only other_file None, w).

Definition MappedRegion_move_construct w other : MappedRegion W * MappedRegion W * W :=
  MappedRegion_move_from w MappedRegion_default other.

(** Move assignment of distinct regions; self-assignment does nothing. *)
Definition MappedRegion_move_assign w this other : MappedRegion W * MappedRegion W * W :=
  let '(closed, (this, w)) := MappedRegion_close w this in
  if negb (has_value closed) then (this, other, w) else MappedRegion_move_from w this other.

(** The destructor's body, then that of the member [file_]. *)
Definition MappedRegion_destroy w this : W :=
  let '(_, (this, w)) := MappedRegion_close w this in Handle_destroy w (mg_file this).
End mapped.
