(* ===== verification/MappedSpec.v ===== *)
(** * Mapped regions own their mapping and descriptor

    When a request is granted, which pages a flush touches, and the order and number of the
    unmap and close calls of every operation, under any answers of the system. *)
From S2P Require Import Prelude Contract CheckedArithmetic Views Handles MappedRegions.
From Stdlib Require Import ZArith Lia String Ascii.
From stdpp Require Import base numbers list gmap option.

Set Default Goal Selector "!".
#[local] Open Scope Z_scope.

(** Two answers of one call are the same. *)
Ltac same_answer Hanswer Hknown := simplify_eq; rewrite Hknown in Hanswer; simplify_eq.

(** A branch on which a request is refused: no reading of the answers makes it valid. *)
Ltac refused :=
  eexists _, _; split; [done|]; split; [done|]; intros;
  repeat match goal with
    | H : _ /\ _ |- _ => destruct H
    | H : exists _, _ |- _ => destruct H
    end;
  simplify_eq;
  repeat match goal with
    | Hknown : ?f = _, H : ?f = _ |- _ => rewrite Hknown in H; simplify_eq
    end;
  lia || done.

Section requests.
Context {W : Type} (address_of : pointer -> Z).
Implicit Types (file : FileHandle W) (w : W) (operations : MappingOperations W).

(** The table has every operation a mapping needs. *)
Definition operations_complete operations : bool :=
  negb (is_null (mo_map operations) || is_null (mo_unmap operations) || is_null (mo_flush operations) ||
        is_null (mo_protect operations) || is_null (mo_page_size operations) ||
        is_null (mo_file_size operations) || is_null (mo_failed_mapping operations)).

(** The answers of the system under which a request is valid: a positive page size that
    divides the offset and a source of exactly [offset + size] bytes. *)
Definition request_valid w file (size : Z) (access : MappingAccess) (offset : Z) operations (w2 : W) :
    Prop :=
  Handle_is_valid file = true /\ 0 < size /\ is_valid_access access = true /\
  operations_complete operations = true /\
  exists page_size file_size page e1 w1 e2,
    mo_page_size operations = Some page_size /\ page_size w = (page, e1, w1) /\ 0 < page /\
    offset mod page = 0 /\ offset <= off_t_max /\ offset + size <= u64_max /\
    mo_file_size operations = Some file_size /\
    file_size w1 (hd_descriptor file) = (0, offset + size, e2, w2).

(** It is granted when the system then returns a mapping. *)
Definition mapping_granted w file (size : Z) (access : MappingAccess) (offset : Z) operations
    (p : pointer) (w' : W) : Prop :=
  exists w2 map errno, request_valid w file size access offset operations w2 /\
    mo_map operations = Some map /\ map w2 (hd_descriptor file) size offset access = (Some p, errno, w') /\
    Some p <> mo_failed_mapping operations.

Lemma checked_narrow_u64 z : 0 <= z <= u64_max -> checked_narrow uint64_t z = Ok z.
Proof.
  intros Hz. rewrite checked_narrow_exact by done. unfold exact_or_overflow.
  by rewrite (proj2 (in_range_iff uint64_t z)).
Qed.

Lemma off_t_cast : cast uint64_t off_t_max = off_t_max.
Proof. reflexivity. Qed.

(** [validate_mapping_request] never faults, and its success is the first part of a grant. *)
Lemma validate_run w file size access offset operations :
  0 <= size <= size_max -> 0 <= offset <= u64_max ->
  (forall f v x e v', mo_page_size operations = Some f -> f v = (x, e, v') -> x <= int_max int64_t) ->
  exists r w2, validate_mapping_request w file size access offset operations = Ret (r, w2) /\
    (r = Ok tt -> request_valid w file size access offset operations w2) /\
    (forall w3, request_valid w file size access offset operations w3 -> r = Ok tt /\ w3 = w2).
Proof.
  intros Hsize Hoff Hlong. unfold validate_mapping_request, request_valid, operations_complete.
  destruct (Handle_is_valid file) eqn:Hv; simpl; [|refused].
  destruct (Z.eqb_spec size 0) as [H0|H0]; [refused|].
  destruct (is_valid_access access) eqn:Ha; simpl; [|refused].
  destruct (_ || _ || _ || _ || _ || _ || _) eqn:Hc; simpl; [refused|].
  rewrite !orb_false_iff in Hc. destruct Hc as ((((((_ & _) & _) & _) & Hp) & Hf) & _).
  destruct (mo_page_size operations) as [page_size|] eqn:Eps; [|done].
  destruct (mo_file_size operations) as [file_size|] eqn:Efs; [|done]. simpl.
  destruct (page_size w) as [[page e1] w1] eqn:Epage.
  destruct (Z.leb_spec page 0) as [Hle|Hpos]; [refused|].
  pose proof (Hlong _ _ _ _ _ eq_refl Epage) as Hmax.
  assert (int_max int64_t <= u64_max) as Hi64 by (vm_compute; discriminate).
  rewrite checked_narrow_u64 by lia.
  destruct (Z.eqb_spec (offset mod page) 0) as [Hm|Hm]; simpl; [|refused].
  rewrite off_t_cast. destruct (Z.ltb_spec off_t_max offset) as [Hbig|Hfit]; [refused|].
  destruct (file_size w1 (hd_descriptor file)) as [[[result source] e2] w2] eqn:Efile.
  destruct (Z.eqb_spec result 0) as [Hr|Hr]; simpl; [|refused].
  rewrite checked_narrow_u64 by (unfold size_max in *; lia).
  destruct (checked_add_size_cases offset size) as [[Hs Hadd]|[Hs Hadd]];
    [unfold size_max in *; lia|unfold size_max in *; lia| |];
    change (checked_add uint64_t offset size) with (checked_add size_t offset size); rewrite Hadd;
    [|unfold size_max in *; refused].
  destruct (Z.eqb_spec source (offset + size)) as [Hsrc|Hsrc]; simpl; [|refused].
  eexists _, _. split; [done|]. split.
  - intros _. split; [done|]. split; [lia|]. split; [done|]. split; [done|]. subst.
    exists page_size, file_size, page, e1, w1, e2. auto 10.
  - intros w3 (_ & _ & _ & _ & ? & ? & ? & ? & ? & ? & H1 & H2 & _ & _ & _ & _ & H3 & H4).
    same_answer H2 Epage. same_answer H4 Efile. done.
Qed.
End requests.

(** ** Page rounding *)
Section rounding.
Context {W : Type} (address_of : pointer -> Z).
Implicit Types (w : W) (operations : MappingOperations W).

Lemma round_up_run value page :
  0 <= value <= size_max -> 0 < page <= size_max -> align_up value page <= size_max ->
  round_up value page = Ok (align_up value page).
Proof.
  intros Hv Hp Hle. unfold round_up, align_up in *. pose proof (Z.mod_pos_bound value page).
  destruct (Z.eqb_spec (value mod page) 0) as [E|E]; [f_equal; lia|].
  rewrite u64_small by (unfold size_max in *; lia). rewrite checked_add_size_ok by lia. done.
Qed.

(** The whole pages that cover [offset .. offset + length). *)
Definition page_start (offset page : Z) : Z := offset - offset mod page.

Lemma page_start_facts offset page :
  0 <= offset -> 0 < page -> page_start offset page mod page = 0 /\ 0 <= page_start offset page <= offset /\
    offset < page_start offset page + page.
Proof.
  intros Ho Hp. unfold page_start. pose proof (Z.mod_pos_bound offset page Hp).
  pose proof (Z.mod_le offset page Ho Hp). split; [|lia].
  rewrite Zminus_mod, Z.mod_mod, Z.sub_diag by lia. apply Z.mod_0_l. lia.
Qed.

Lemma page_rounded_run w p size operations f page e w1 offset length :
  mo_page_size operations = Some f -> f w = (page, e, w1) -> 0 < page <= int_max int64_t ->
  0 <= size <= size_max -> 0 <= offset <= size_max -> 0 <= length <= size_max ->
  0 <= address_of p -> address_of p + align_up size page <= size_max ->
  page_rounded_range address_of w (Some p) size (Some operations) offset length =
    if length =? 0 then Ret (Err (mapping_error invalid_range "mapping operation range must be nonzero"), w)
    else match checked_range size_t offset length size with
    | Err e => Ret (Err e, w)
    | Ok _ => Ret (Ok (address_of p + page_start offset page,
                       align_up (offset + length) page - page_start offset page), w1)
    end.
Proof.
  intros Hf Ew Hpage Hsize Hoff Hlen Hp Hfit. unfold page_rounded_range.
  destruct (length =? 0) eqn:Hl0; [done|]. apply Z.eqb_neq in Hl0.
  destruct (checked_range size_t offset length size) as [[]|e'] eqn:Hr; [|done].
  apply checked_range_size_inv in Hr; [|lia..].
  rewrite Hf. cbn [callee mbind outcome_bind]. rewrite Ew. rewrite (proj2 (Z.leb_gt _ _)) by lia.
  assert (int_max int64_t <= u64_max) as Hi64 by (vm_compute; discriminate).
  change (checked_narrow size_t page) with (checked_narrow uint64_t page).
  rewrite checked_narrow_u64 by lia.
  destruct (page_start_facts offset page) as (_ & Hst & _); [lia..|].
  destruct (align_up_spec size page) as [_ Hsz]; [lia..|].
  destruct (align_up_spec (offset + length) page) as [_ Hel]; [lia..|].
  pose proof (align_up_mono (offset + length) size page ltac:(lia) ltac:(lia)) as Hmono.
  fold (page_start offset page). rewrite (u64_small (page_start offset page)) by (unfold size_max in *; lia).
  rewrite checked_add_size_ok by lia.
  rewrite (round_up_run (offset + length) page) by (unfold size_max in *; lia).
  rewrite (round_up_run size page) by (unfold size_max in *; lia).
  rewrite (proj2 (Z.ltb_ge _ _)) by lia. rewrite checked_add_size_ok by lia.
  rewrite u64_small by (unfold size_max in *; lia). done.
Qed.
End rounding.

(** ** Ownership

    The world is the log of calls, as for handles: the system's answers are any function of
    the calls made so far. *)
Inductive MappingCall :=
  | CallUnmap (address : option pointer) (size : Z)
  | CallClose (descriptor : Z)
  | CallProtect (address : option pointer) (size : Z) (access : MappingAccess).

Section region_ownership.
Context (answer : list MappingCall -> MappingCall -> Z * Z).

Definition call (c : MappingCall) (log : list MappingCall) : (Z * Z) * list MappingCall :=
  (answer log c, log ++ [c]).

Definition logged_descriptors : DescriptorOperations (list MappingCall) :=
  MkDescriptorOperations (Some (fun log d => call (CallClose d) log)).

(** A region as [map_with_operations] leaves it and as the operations keep it. *)
Record region_ok (r : MappedRegion (list MappingCall)) : Prop := {
  ro_file : Handle_is_valid (mg_file r) = true -> hd_operations (mg_file r) = Some logged_descriptors;
  ro_operations : MappedRegion_is_mapped r = true -> exists ops, mg_operations r = Some ops /\
    mo_unmap ops = Some (fun log a n => call (CallUnmap a n) log) /\
    mo_protect ops = Some (fun log a n access => call (CallProtect a n access) log) }.

Definition answered (log : list MappingCall) (c : MappingCall) : bool := fst (answer log c) =? 0.

(** The close call of a descriptor, if there is one. *)
Definition close_calls (h : FileHandle (list MappingCall)) : list MappingCall :=
  if Handle_is_valid h then [CallClose (hd_descriptor h)] else [].

Lemma logged_close log (h : FileHandle (list MappingCall)) :
  (Handle_is_valid h = true -> hd_operations h = Some logged_descriptors) ->
  exists r h', Handle_close log h = (r, (h', log ++ close_calls h)) /\ Handle_is_valid h' = false /\
    has_value r = (if Handle_is_valid h then answered log (CallClose (hd_descriptor h)) else true) /\
    h' = (if Handle_is_valid h then Handle_default else h).
Proof.
  intros Hok. unfold Handle_close, close_calls. destruct (Handle_is_valid h) eqn:Hv; cbn [negb].
  - rewrite (Hok eq_refl). cbn [Handle_release]. unfold close_descriptor_once. cbn.
    unfold answered. destruct (answer log (CallClose (hd_descriptor h))) as [result errno]. cbn [fst].
    eexists _, _. split; [done|]. split; [done|]. split; [|done]. by destruct (result =? 0).
  - eexists _, _. rewrite app_nil_r. done.
Qed.

Lemma destroy_invalid log (h : FileHandle (list MappingCall)) :
  Handle_is_valid h = false -> Handle_destroy log h = log.
Proof. intros Hv. unfold Handle_destroy, Handle_close. by rewrite Hv. Qed.

Lemma region_release log r :
  region_ok r -> MappedRegion_is_mapped r = true ->
  let c := CallUnmap (mg_address r) (mg_size r) in
  if answered log c
  then MappedRegion_release log r =
    (Ok (fst (Handle_move_from (mg_file r))), (MappedRegion_default, log ++ [c]))
  else MappedRegion_release log r =
    (Err (from_errno (snd (answer log c)) "mapping release failed"), (r, log ++ [c])).
Proof.
  intros [Hf Ho] Hm c. unfold MappedRegion_release. rewrite Hm. cbn [negb].
  destruct (Ho Hm) as (ops & -> & Hu & _). cbn. rewrite Hu. unfold call, answered. fold c.
  destruct (answer log c) as [result errno]. cbn [fst snd]. destruct (result =? 0); [|done].
  reflexivity.
Qed.

(** The calls and the result of [close]. *)
Lemma region_close log r :
  region_ok r ->
  exists res r', MappedRegion_close log r =
    (res, (r', log ++ (if MappedRegion_is_mapped r then
       CallUnmap (mg_address r) (mg_size r) ::
       (if answered log (CallUnmap (mg_address r) (mg_size r)) then close_calls (mg_file r) else [])
     else close_calls (mg_file r)))) /\
    (if MappedRegion_is_mapped r && negb (answered log (CallUnmap (mg_address r) (mg_size r)))
     then r' = r /\ has_value res = false
     else MappedRegion_is_mapped r' = false /\ Handle_is_valid (mg_file r') = false).
Proof.
  intros Hok. pose proof Hok as [Hf _]. unfold MappedRegion_close.
  destruct (MappedRegion_is_mapped r) eqn:Hm; cbn [negb andb].
  - pose proof (region_release log r Hok Hm) as Hrel. cbn zeta in Hrel.
    destruct (answered log (CallUnmap _ _)) eqn:Ha; rewrite Hrel; cbn [negb].
    + assert (Hmoved : fst (Handle_move_from (mg_file r)) = mg_file r \/
        Handle_is_valid (mg_file r) = false /\
        Handle_is_valid (fst (Handle_move_from (mg_file r))) = false).
      { unfold Handle_move_from, Handle_is_valid. destruct (mg_file r) as [d ops]. simpl.
        destruct (0 <=? d) eqn:E; simpl; [auto|]. rewrite E. auto. }
      destruct Hmoved as [->|[Hv1 Hv2]].
      * destruct (logged_close (log ++ [CallUnmap (mg_address r) (mg_size r)]) (mg_file r) Hf)
          as (res & h' & -> & Hv & _). rewrite destroy_invalid by done.
        rewrite <- app_assoc. eexists _, _. done.
      * destruct (logged_close (log ++ [CallUnmap (mg_address r) (mg_size r)])
          (fst (Handle_move_from (mg_file r)))) as (res & h' & -> & Hv & _); [congruence|].
        rewrite destroy_invalid by done. unfold close_calls. rewrite Hv1, Hv2, app_nil_r.
        eexists _, _. done.
    + eexists _, _. done.
  - destruct (logged_close log (mg_file r) Hf) as (res & h' & -> & Hv & _).
    eexists _, _. split; [done|]. simpl. unfold MappedRegion_is_mapped in *. done.
Qed.

(** What [close] calls, in order. *)
Definition release_calls (log : list MappingCall) (r : MappedRegion (list MappingCall)) : list MappingCall :=
  if MappedRegion_is_mapped r then
    CallUnmap (mg_address r) (mg_size r) ::
    (if answered log (CallUnmap (mg_address r) (mg_size r)) then close_calls (mg_file r) else [])
  else close_calls (mg_file r).

(** A region of [other]'s mapping and descriptor. *)
Definition same_resources (r other : MappedRegion (list MappingCall)) : Prop :=
  mg_address r = mg_address other /\ mg_size r = mg_size other /\ mg_access r = mg_access other /\
  mg_operations r = mg_operations other /\ Handle_is_valid (mg_file r) = Handle_is_valid (mg_file other) /\
  (Handle_is_valid (mg_file other) = true -> mg_file r = mg_file other).

Lemma region_move_from log (r other : MappedRegion (list MappingCall)) :
  Handle_is_valid (mg_file r) = false ->
  exists r' other', MappedRegion_move_from log r other = (r', other', log) /\ same_resources r' other /\
    other' = MappedRegion_default.
Proof.
  intros Hv. unfold MappedRegion_move_from, Handle_move_assign, Handle_close. rewrite Hv. cbn [negb].
  unfold Handle_move_from. cbn [Handle_release]. eexists _, _. split; [done|]. split; [|done].
  unfold same_resources. simpl. unfold Handle_is_valid. simpl.
  destruct (mg_file other) as [d ops]. simpl. destruct (0 <=? d) eqn:E; simpl; rewrite ?E; repeat split; done.
Qed.
End region_ownership.

(** ** Properties *)

(** A mapping is created exactly when the descriptor, size, access and table are valid,
    the offset is a multiple of the page size, within [off_t], and the source has exactly
    [offset + size] bytes, all without overflow, and the system returns a mapping; the region
    then owns the descriptor and the caller's handle is empty, and after any failure the
    descriptor is still the caller's. *)
Theorem map_with_operations_exact {W : Type} (w : W) (file : FileHandle W) (size offset : Z)
    (access : MappingAccess) (operations : MappingOperations W) :
  0 <= size <= size_max -> 0 <= offset <= u64_max ->
  (forall f v x e v', mo_page_size operations = Some f -> f v = (x, e, v') -> x <= int_max int64_t) ->
  exists r file' w', MappedRegion_map_with_operations w file size access offset operations =
      Ret (r, (file', w')) /\
    match r with
    | Ok region => exists p, mapping_granted w file size access offset operations p w' /\
        region = MkMappedRegion (Some p) size access file (Some operations) /\
        file' = Handle_default
    | Err _ => file' = file /\ forall p w'', ~ mapping_granted w file size access offset operations p w''
    end.
Proof.
  intros Hsize Hoff Hlong. unfold MappedRegion_map_with_operations.
  destruct (validate_run w file size access offset operations Hsize Hoff Hlong) as (r & w2 & -> & Hr).
  cbn [mbind outcome_bind]. destruct r as [[]|e].
  2: { eexists _, _, _. split; [done|]. split; [done|].
       intros p w'' (w3 & m & errno & Hv & _). destruct Hr as [_ Hr]. by destruct (Hr w3 Hv). }
  destruct Hr as [Hr1 Hr2]. specialize (Hr1 eq_refl). pose proof Hr1 as (Hv & Hs & Ha & Hc & _).
  unfold operations_complete in Hc. rewrite negb_true_iff, !orb_false_iff in Hc.
  destruct (mo_map operations) as [map|] eqn:Emap; [|by simpl in Hc; destruct Hc as ((((((? & _) & _) & _) & _) & _) & _)].
  cbn [callee mbind outcome_bind].
  destruct (map w2 (hd_descriptor file) size offset access) as [[address errno] w'] eqn:E.
  assert (Hno : is_null address || bool_decide (address = mo_failed_mapping operations) = true ->
    forall p w'', ~ mapping_granted w file size access offset operations p w'').
  { intros Hbad p w'' (w3 & m & errno' & Hv3 & Hm & Hans & Hne). destruct (Hr2 w3 Hv3) as [_ ->].
    rewrite Emap in Hm. injection Hm as <-. rewrite E in Hans. injection Hans as -> -> ->.
    simpl in Hbad. by rewrite bool_decide_eq_true in Hbad. }
  destruct (is_null address || _) eqn:Hbad.
  { eexists _, _, _. split; [done|]. split; [done|]. by apply Hno. }
  destruct address as [p|]; [|done]. simpl in Hbad. apply bool_decide_eq_false in Hbad.
  unfold MappedRegion_construct, Handle_move_from. simpl.
  assert (Hfile : MkHandle (hd_descriptor file) (hd_operations file) = file) by by destruct file.
  rewrite Hfile, Hv. simpl. eexists _, _, _. split; [done|]. exists p. split; [|done].
  exists w2, map, errno. done.
Qed.

(** Flushing a nonempty range inside a mapping that does not wrap around the address space
    asks the system for whole pages: the smallest page-aligned range that covers the bytes,
    never beyond the mapped pages; an empty or outside range is refused without a call. *)
Theorem flush_whole_pages {W : Type} (address_of : pointer -> Z) (w w1 : W) (this : MappedRegion W) p
    operations (page_size : W -> Z * Z * W) flush page e (offset length : Z) (mode : MappingFlush) :
  mg_address this = Some p -> mg_operations this = Some operations ->
  mo_page_size operations = Some page_size -> mo_flush operations = Some flush ->
  page_size w = (page, e, w1) -> 0 < page <= int_max int64_t ->
  0 <= mg_size this <= size_max -> 0 <= offset <= size_max -> 0 <= length <= size_max ->
  0 <= address_of p -> address_of p + align_up (mg_size this) page <= size_max ->
  is_valid_flush mode = true ->
  if (0 <? length) && (offset + length <=? mg_size this) then
    exists start n, start = page_start offset page /\ start mod page = 0 /\ n mod page = 0 /\ 0 <= start <= offset /\
      offset < start + page /\ offset + length <= start + n < offset + length + page /\
      start + n <= align_up (mg_size this) page /\
      let '(result, errno, w2) := flush w1 (address_of p + start) n mode in
      MappedRegion_flush address_of w this offset length mode =
        Ret (if result =? 0 then Ok tt else Err (from_errno errno "mapping flush failed"), w2)
  else exists error, MappedRegion_flush address_of w this offset length mode = Ret (Err error, w).
Proof.
  intros Ha Ho Hps Hfl Hw Hpage Hsize Hoff Hlen Hp Hfit Hmode. unfold MappedRegion_flush.
  rewrite Hmode, Ho, Hps, Hfl, Ha. cbn [negb is_null orb].
  rewrite (page_rounded_run address_of w p (mg_size this) operations page_size page e w1) by done.
  destruct (Z.ltb_spec 0 length) as [Hpos|Hz]; cbn [andb].
  2: { replace length with 0 by lia. cbn. eauto. }
  rewrite (proj2 (Z.eqb_neq length 0)) by lia.
  destruct (Z.leb_spec (offset + length) (mg_size this)) as [Hin|Hout].
  - rewrite checked_range_size_ok by lia. cbn [mbind outcome_bind callee fst snd].
    destruct (page_start_facts offset page) as (Hs1 & Hs2 & Hs3); [lia..|].
    destruct (align_up_spec (offset + length) page) as [He1 He2]; [lia..|].
    pose proof (align_up_mono (offset + length) (mg_size this) page ltac:(lia) ltac:(lia)) as Hmono.
    exists (page_start offset page), (align_up (offset + length) page - page_start offset page).
    split; [done|]. split; [done|]. split; [rewrite Zminus_mod, Hs1, He1; by rewrite Z.mod_0_l by lia|].
    split; [done|]. split; [done|]. split; [lia|]. split; [lia|].
    destruct (flush w1 _ _ mode) as [[result errno] w2]. by destruct (result =? 0).
  - destruct (checked_range size_t offset length (mg_size this)) as [[]|err] eqn:Hr.
    + apply checked_range_size_inv in Hr; lia.
    + eauto.
Qed.

(** C9: whatever the system answers, release and close unmap once and only then close the
    descriptor once; a failing unmap keeps the region whole; destruction makes exactly one
    attempt to unmap and one close in every case; a move transfers mapping and descriptor
    without any call on them, and a move onto a region that cannot be closed leaves the source
    untouched. *)
Theorem mapped_region_ownership (answer : list MappingCall -> MappingCall -> Z * Z) (log : list MappingCall)
    (r other : MappedRegion (list MappingCall)) :
  region_ok answer r -> region_ok answer other ->
  (if MappedRegion_is_mapped r then
     let c := CallUnmap (mg_address r) (mg_size r) in
     if answered answer log c
     then MappedRegion_release log r =
       (Ok (fst (Handle_move_from (mg_file r))), (MappedRegion_default, log ++ [c]))
     else MappedRegion_release log r =
       (Err (from_errno (snd (answer log c)) "mapping release failed"), (r, log ++ [c]))
   else MappedRegion_release log r = (Err mapping_closed_error, (r, log))) /\
  (exists res r', MappedRegion_close log r = (res, (r', log ++ release_calls answer log r)) /\
     (if MappedRegion_is_mapped r && negb (answered answer log (CallUnmap (mg_address r) (mg_size r)))
      then r' = r /\ has_value res = false
      else MappedRegion_is_mapped r' = false /\ Handle_is_valid (mg_file r') = false)) /\
  MappedRegion_destroy log r =
    log ++ (if MappedRegion_is_mapped r then [CallUnmap (mg_address r) (mg_size r)] else []) ++
    close_calls (mg_file r) /\
  (exists r', MappedRegion_move_construct log other = (r', MappedRegion_default, log) /\
     same_resources r' other) /\
  (exists r' other', MappedRegion_move_assign log r other = (r', other', log ++ release_calls answer log r) /\
     if has_value (fst (MappedRegion_close log r))
     then same_resources r' other /\ other' = MappedRegion_default
     else other' = other).
Proof.
  intros Hr Ho. destruct (region_close answer log r Hr) as (res & r1 & Hc & Hc').
  fold (release_calls answer log r) in Hc.
  split; [|split; [|split; [|split]]].
  - destruct (MappedRegion_is_mapped r) eqn:Hm.
    + by apply region_release.
    + unfold MappedRegion_release. by rewrite Hm.
  - eauto.
  - unfold MappedRegion_destroy. rewrite Hc. unfold release_calls in *.
    destruct (MappedRegion_is_mapped r) eqn:Hm; cbn [andb] in Hc'.
    + destruct (answered answer log _) eqn:Ha; cbn [negb] in Hc'.
      * destruct Hc' as [_ Hv]. by rewrite destroy_invalid.
      * destruct Hc' as [-> _]. unfold Handle_destroy.
        destruct (logged_close answer (log ++ [CallUnmap (mg_address r) (mg_size r)]) (mg_file r))
          as (res' & h' & -> & _); [apply Hr|]. by rewrite <- app_assoc.
    + destruct Hc' as [_ Hv]. by rewrite destroy_invalid.
  - destruct (region_move_from log MappedRegion_default other eq_refl) as (r' & o' & E & Hs & ->).
    exists r'. done.
  - unfold MappedRegion_move_assign. rewrite Hc. cbn [fst].
    destruct (has_value res) eqn:Hv; cbn [negb]; [|eauto].
    destruct (MappedRegion_is_mapped r && _) eqn:Hb; [destruct Hc' as [_ Hf]; congruence|].
    destruct Hc' as [_ Hinv].
    destruct (region_move_from (log ++ release_calls answer log r) r1 other Hinv) as (r' & o' & E & Hs & ->).
    rewrite E. eauto 10.
Qed.

(** ** A system with pages of 4096 bytes and one file of two pages *)
Definition demo_operations : MappingOperations nat :=
  MkMappingOperations (Some (fun w _ _ _ _ => (Some (MkPointer 1 0), 0, S w)))
    (Some (fun w _ _ => (0, 0, S w))) (Some (fun w _ _ _ => (0, 0, S w)))
    (Some (fun w _ _ _ => (0, 0, S w))) (Some (fun w => (4096, 0, S w)))
    (Some (fun w _ => (0, 8192, 0, S w))) None (Some (MkPointer 0 (-1))).
Definition demo_file : FileHandle nat := MkHandle 5 (Some (MkDescriptorOperations None)).
Definition demo_region : MappedRegion nat :=
  MkMappedRegion (Some (MkPointer 1 0)) 8192 read_write demo_file (Some demo_operations).

Lemma map_with_operations_exact_witness :
  MappedRegion_map_with_operations 0%nat demo_file 8192 read_write 0 demo_operations =
    Ret (Ok demo_region, (Handle_default, 3%nat)) /\
  mapping_granted 0%nat demo_file 8192 read_write 0 demo_operations (MkPointer 1 0) 3%nat.
Proof.
  destruct (map_with_operations_exact 0%nat demo_file 8192 0 read_write demo_operations)
    as (r & file' & w' & E & H).
  - unfold size_max, u64_max. lia.
  - unfold u64_max. lia.
  - intros f v x e v' [= <-] [= <- <- <-]. vm_compute. discriminate.
  - assert (Hrun : MappedRegion_map_with_operations 0%nat demo_file 8192 read_write 0 demo_operations =
      Ret (Ok demo_region, (Handle_default, 3%nat))) by reflexivity.
    rewrite Hrun in E. injection E as <- <- <-. destruct H as (p & Hg & Hreg & _).
    injection Hreg as <-. split; [exact Hrun|exact Hg].
Defined.

Lemma flush_whole_pages_witness :
  MappedRegion_flush (fun p => 65536 + ptr_offset p) 0%nat demo_region 4100 10 synchronous =
    Ret (Ok tt, 2%nat) /\
  exists start n, 0 <= start <= 4100 /\ 4100 + 10 <= start + n /\ start mod 4096 = 0 /\ n mod 4096 = 0.
Proof.
  pose proof (flush_whole_pages (fun p => 65536 + ptr_offset p) 0%nat 1%nat demo_region (MkPointer 1 0)
    demo_operations (fun w => (4096, 0, S w)) (fun w _ _ _ => (0, 0, S w)) 4096 0 4100 10 synchronous
    eq_refl eq_refl eq_refl eq_refl eq_refl ltac:(split; [lia|vm_compute; discriminate])
    ltac:(unfold size_max, u64_max; simpl; lia) ltac:(unfold size_max, u64_max; lia)
    ltac:(unfold size_max, u64_max; lia) ltac:(simpl; lia) ltac:(vm_compute; discriminate) eq_refl) as H.
  destruct H as (start & n & _ & H1 & H2 & H3 & _ & H5 & _ & H7). split; [exact H7|].
  exists start, n. split; [exact H3|]. split; [lia|]. split; [exact H1|exact H2].
Defined.

Definition refusing_answer (_ : list MappingCall) (_ : MappingCall) : Z * Z := (-1, 5).
Definition logged_region : MappedRegion (list MappingCall) :=
  MkMappedRegion (Some (MkPointer 1 0)) 8192 read_write
    (MkHandle 5 (Some (logged_descriptors refusing_answer)))
    (Some (MkMappingOperations None (Some (fun log a n => call refusing_answer (CallUnmap a n) log)) None
       (Some (fun log a n access => call refusing_answer (CallProtect a n access) log)) None None None None)).

Lemma mapped_region_ownership_witness :
  MappedRegion_destroy [] logged_region = [CallUnmap (Some (MkPointer 1 0)) 8192; CallClose 5].
Proof.
  assert (Hok : region_ok refusing_answer logged_region).
  { split; [reflexivity|]. intros _. eexists. split; [reflexivity|]. split; reflexivity. }
  destruct (mapped_region_ownership refusing_answer [] logged_region logged_region Hok Hok)
    as (_ & _ & H & _). rewrite H. reflexivity.
Defined.
