(* ===== verification/Digest.v ===== *)
(** * Public digests and secret fingerprints

    Models [src/core/digest.cpp], [src/core/fingerprints.cpp] and the provider table of
    [crypto.hpp]: what the core does with the hash functions it is given.  The functions of the
    provider are parameters; they read the memory their views point into. *)
From S2P Require Import Prelude Contract Views.
From Stdlib Require Import ZArith Lia String Ascii.
From stdpp Require Import base numbers list gmap option.

Set Default Goal Selector "!".
#[local] Open Scope Z_scope.

(** [FixedCryptoBytes<Size, Tag>]: an array of bytes; the tags only distinguish C++ types. *)
Record FixedCryptoBytes := MkFixedCryptoBytes { fc_bytes : list Z }.

Definition Sha256Digest : Type := FixedCryptoBytes.
Definition Sha256Digest_size : nat := 32.
Definition lowercase_hex_size : nat := Sha256Digest_size * 2.

Definition FixedCryptoBytes_from_array (bytes : list Z) : FixedCryptoBytes := MkFixedCryptoBytes bytes.

Record CryptoProvider := MkCryptoProvider {
  cp_sha256 : option (Memory -> ByteView -> Result Sha256Digest);
  cp_hmac_sha256 : option (Memory -> ByteView -> ByteView -> Result Sha256Digest);
  cp_ed25519_sign : option (Memory -> ByteView -> ByteView -> Result FixedCryptoBytes);
  cp_ed25519_verify : option (Memory -> FixedCryptoBytes -> ByteView -> FixedCryptoBytes -> Result bool);
  cp_spki_sha256 : option (Memory -> ByteView -> Result Sha256Digest);
  cp_constant_time_equal : option (Sha256Digest -> Sha256Digest -> bool);
  cp_fill_entropy : option (Memory -> MutableByteView -> Result unit * Memory) }.

Definition given {A : Type} (f : option A) : bool := match f with Some _ => true | None => false end.

Definition CryptoProvider_valid (p : CryptoProvider) : bool :=
  given (cp_sha256 p) && given (cp_hmac_sha256 p) && given (cp_ed25519_sign p) &&
  given (cp_ed25519_verify p) && given (cp_spki_sha256 p) && given (cp_constant_time_equal p) &&
  given (cp_fill_entropy p).

(** ** [PublicDigest] *)
Record PublicDigest := MkPublicDigest { pd_value : Sha256Digest; pd_lowercase_hex : list ascii }.

Definition hex_digits : list ascii := list_ascii_of_string "0123456789abcdef".

Definition lowercase_hex_digit (value : Z) : outcome ascii := slot hex_digits value.

(** The loop of [to_lowercase_hex] over the bytes from [index] on. *)
Fixpoint hex_loop (bytes : list Z) (index : Z) (output : list ascii) : outcome (list ascii) :=
  match bytes with
  | [] => Ret output
  | byte :: bytes' =>
      high ← lowercase_hex_digit (Z.shiftr byte 4);
      output ← set_slot output (index * 2) high;
      low ← lowercase_hex_digit (Z.land byte 15);
      output ← set_slot output (index * 2 + 1) low;
      hex_loop bytes' (index + 1) output
  end.

Definition to_lowercase_hex (value : Sha256Digest) : outcome (list ascii) :=
  hex_loop (fc_bytes value) 0 (replicate lowercase_hex_size Ascii.zero).

Definition unavailable_provider_error (diagnostic : string) : Error :=
  make_error domain_crypto unavailable_capability 0 (list_ascii_of_string diagnostic).

Definition PublicDigest_from_canonical_sanitized_bytes (provider : CryptoProvider) (mem : Memory)
    (canonical_sanitized_bytes : ByteView) : outcome (Result PublicDigest) :=
  match cp_sha256 provider with
  | None => Ret (Err (unavailable_provider_error "SHA-256 provider is unavailable"))
  | Some sha256 =>
      match sha256 mem canonical_sanitized_bytes with
      | Err e => Ret (Err e)
      | Ok value => hex ← to_lowercase_hex value; Ret (Ok (MkPublicDigest value hex))
      end
  end.

(** ** [SecretFingerprint] *)
Record FingerprintKeyId := MkFingerprintKeyId { fk_value : Z }.

Definition FingerprintKeyId_from_uint64 (value : Z) : Result FingerprintKeyId :=
  if value =? 0 then Err (core_error invalid_input "fingerprint key identifier must be nonzero")
  else Ok (MkFingerprintKeyId value).

Record SecretFingerprint := MkSecretFingerprint { sf_key_id : FingerprintKeyId; sf_value : Sha256Digest }.

Definition SecretFingerprint_from_canonical_sanitized_bytes (provider : CryptoProvider) (mem : Memory)
    (key_id : FingerprintKeyId) (borrowed_key canonical_sanitized_bytes : ByteView) : Result SecretFingerprint :=
  if span_empty borrowed_key
  then Err (make_error domain_crypto invalid_input 0 (list_ascii_of_string "fingerprint key must not be empty"))
  else match cp_hmac_sha256 provider with
  | None => Err (unavailable_provider_error "HMAC-SHA-256 provider is unavailable")
  | Some hmac_sha256 =>
      value ← hmac_sha256 mem borrowed_key canonical_sanitized_bytes;
      Ok (MkSecretFingerprint key_id value)
  end.

Definition constant_time_equal (provider : CryptoProvider) (left right : SecretFingerprint) : bool :=
  match cp_constant_time_equal provider with
  | None => false
  | Some equal =>
      let values_equal := equal (sf_value left) (sf_value right) in
      let key_ids_equal := fk_value (sf_key_id left) =? fk_value (sf_key_id right) in
      values_equal && key_ids_equal
  end.

(** ** Reading hexadecimal text *)
Definition hex_value (c : ascii) : option Z := Z.of_nat <$> (fst <$> list_find (eq c) hex_digits).

Fixpoint hex_decode (text : list ascii) : option (list Z) :=
  match text with
  | [] => Some []
  | high :: low :: rest =>
      h ← hex_value high; l ← hex_value low; bytes ← hex_decode rest; Some (h * 16 + l :: bytes)
  | [_] => None
  end.

(** The two digits of a byte. *)
Definition hex_pair (byte : Z) : list ascii :=
  [nth (Z.to_nat (byte / 16)) hex_digits Ascii.zero; nth (Z.to_nat (byte mod 16)) hex_digits Ascii.zero].

Lemma nibble_digit n :
  0 <= n < 16 -> lowercase_hex_digit n = Ret (nth (Z.to_nat n) hex_digits Ascii.zero) /\
    hex_value (nth (Z.to_nat n) hex_digits Ascii.zero) = Some n.
Proof.
  intros Hn. assert (Forall (fun n => lowercase_hex_digit n = Ret (nth (Z.to_nat n) hex_digits Ascii.zero) /\
    hex_value (nth (Z.to_nat n) hex_digits Ascii.zero) = Some n) (seqZ 0 16)) as H.
  { vm_compute. repeat constructor. }
  rewrite Forall_forall in H. apply H, list_elem_of_In, elem_of_seqZ. lia.
Qed.

Lemma byte_nibbles byte :
  is_byte byte -> Z.shiftr byte 4 = byte / 16 /\ Z.land byte 15 = byte mod 16 /\
    0 <= byte / 16 < 16 /\ 0 <= byte mod 16 < 16.
Proof.
  unfold is_byte. intros Hb. split; [by rewrite Z.shiftr_div_pow2|].
  split; [change 15 with (Z.ones 4); by rewrite Z.land_ones|]. split.
  - split; [apply Z.div_pos; lia|]. apply Z.div_lt_upper_bound; lia.
  - apply Z.mod_pos_bound. lia.
Qed.

Lemma hex_loop_run bytes index before rest :
  Forall is_byte bytes -> Z.of_nat (length before) = index * 2 -> length rest = (2 * length bytes)%nat ->
  hex_loop bytes index (before ++ rest) = Ret (before ++ concat (map hex_pair bytes)).
Proof.
  intros Hb. revert index before rest. induction Hb as [|byte bytes Hbyte Hbytes IH]; intros index before rest Hi Hl.
  { destruct rest; [|simpl in Hl; lia]. done. }
  destruct (byte_nibbles byte Hbyte) as (Hs & Hm & Hh & Hlo).
  cbn [hex_loop]. rewrite Hs, Hm. rewrite (proj1 (nibble_digit _ Hh)). cbn [mbind outcome_bind].
  destruct rest as [|x [|y rest]]; [simpl in Hl; lia..|].
  rewrite set_slot_ok by (rewrite length_app; simpl; lia). cbn [mbind outcome_bind].
  rewrite (proj1 (nibble_digit _ Hlo)). cbn [mbind outcome_bind].
  rewrite set_slot_ok by (rewrite length_insert, length_app; simpl; lia). cbn [mbind outcome_bind].
  rewrite !insert_app_r_alt by lia.
  replace (Z.to_nat (index * 2) - length before)%nat with 0%nat by lia.
  replace (Z.to_nat (index * 2 + 1) - length before)%nat with 1%nat by lia.
  cbn [insert list_insert].
  set (high := nth (Z.to_nat (byte / 16)) _ _). set (low := nth (Z.to_nat (byte mod 16)) _ _).
  specialize (IH (index + 1) (before ++ [high; low]) rest).
  rewrite <- !app_assoc in IH. cbn [app] in IH. rewrite IH; [done| |].
  - rewrite length_app. cbn [length]. lia.
  - cbn [length] in Hl. lia.
Qed.

Lemma hex_decode_pairs bytes :
  Forall is_byte bytes -> hex_decode (concat (map hex_pair bytes)) = Some bytes.
Proof.
  induction 1 as [|byte bytes Hb _ IH]; [done|].
  destruct (byte_nibbles byte Hb) as (_ & _ & Hh & Hl).
  cbn [map concat hex_pair app hex_decode]. rewrite (proj2 (nibble_digit _ Hh)), (proj2 (nibble_digit _ Hl)).
  cbn [mbind option_bind]. rewrite IH. cbn [mbind option_bind]. do 2 f_equal.
  pose proof (Z.div_mod byte 16). lia.
Qed.

Lemma concat_pairs_length bytes : length (concat (map hex_pair bytes)) = (2 * length bytes)%nat.
Proof. induction bytes as [|b bytes IH]; [done|]. cbn [map concat]. rewrite length_app, IH. simpl. lia. Qed.

(** ** Properties *)

(** a public digest is the provider's hash with its 64-character lowercase hexadecimal
    text, which determines it: reading the text back gives the hash; a missing provider or its
    error is returned, and no index of the conversion is out of range. *)
Theorem public_digest_spec (provider : CryptoProvider) (mem : Memory) (bytes : ByteView)
    (sha256 : Memory -> ByteView -> Result Sha256Digest) :
  (forall m v d, sha256 m v = Ok d -> length (fc_bytes d) = Sha256Digest_size /\ Forall is_byte (fc_bytes d)) ->
  (cp_sha256 provider = None ->
   PublicDigest_from_canonical_sanitized_bytes provider mem bytes =
     Ret (Err (unavailable_provider_error "SHA-256 provider is unavailable"))) /\
  (cp_sha256 provider = Some sha256 ->
   match sha256 mem bytes with
   | Err e => PublicDigest_from_canonical_sanitized_bytes provider mem bytes = Ret (Err e)
   | Ok value => exists hex,
       PublicDigest_from_canonical_sanitized_bytes provider mem bytes = Ret (Ok (MkPublicDigest value hex)) /\
       length hex = lowercase_hex_size /\ hex_decode hex = Some (fc_bytes value) /\
       Forall (fun c => c ∈ hex_digits) hex
   end).
Proof.
  intros Hsha. unfold PublicDigest_from_canonical_sanitized_bytes. split; intros ->; [done|].
  destruct (sha256 mem bytes) as [value|e] eqn:E; [|done].
  destruct (Hsha _ _ _ E) as [Hlen Hbytes]. unfold to_lowercase_hex.
  pose proof (hex_loop_run (fc_bytes value) 0 [] (replicate lowercase_hex_size Ascii.zero) Hbytes) as Hrun.
  cbn [app] in Hrun. rewrite Hrun; [|done|by rewrite length_replicate, Hlen].
  cbn [mbind outcome_bind]. eexists. split; [done|].
  split; [rewrite concat_pairs_length, Hlen; done|]. split; [by apply hex_decode_pairs|].
  apply Forall_concat. rewrite Forall_map. eapply Forall_impl; [|exact Hbytes]. intros b Hb.
  destruct (byte_nibbles b Hb) as (_ & _ & Hh & Hl).
  assert (Hdigit : forall n, 0 <= n < 16 -> nth (Z.to_nat n) hex_digits Ascii.zero ∈ hex_digits).
  { intros n Hn. apply list_elem_of_In, nth_In. change (length hex_digits) with 16%nat. lia. }
  unfold hex_pair. apply Forall_cons_2; [by apply Hdigit|]. apply Forall_cons_2; [by apply Hdigit|].
  apply Forall_nil_2.
Qed.

(** A provider that hashes everything to the bytes 0 to 31. *)
Definition demo_digest : Sha256Digest := MkFixedCryptoBytes (seqZ 0 32).
Definition demo_provider : CryptoProvider :=
  MkCryptoProvider (Some (fun _ _ => Ok demo_digest)) None None None None None None.

Lemma public_digest_spec_witness :
  exists hex, PublicDigest_from_canonical_sanitized_bytes demo_provider ∅ empty_span =
      Ret (Ok (MkPublicDigest demo_digest hex)) /\
    take 6 hex = list_ascii_of_string "000102" /\ hex_decode hex = Some (fc_bytes demo_digest).
Proof.
  destruct (public_digest_spec demo_provider ∅ empty_span (fun _ _ => Ok demo_digest)) as [_ H].
  - intros m v d [= <-]. split; [reflexivity|].
    apply Forall_forall. intros x Hx. apply list_elem_of_In, elem_of_seqZ in Hx. unfold is_byte. lia.
  - destruct (H eq_refl) as (hex & E & _ & Hd & _). exists hex. split; [exact E|]. split; [|exact Hd].
    assert (match PublicDigest_from_canonical_sanitized_bytes demo_provider ∅ empty_span with
            | Ret (Ok d) => Some (take 6 (pd_lowercase_hex d)) | _ => None end =
            Some (list_ascii_of_string "000102")) as Ht by (vm_compute; reflexivity).
    rewrite E in Ht. injection Ht as Ht. exact Ht.
Defined.

(** Fingerprints compare equal exactly when key identifier and value agree, given a provider
    whose comparison decides equality of values; without one they never do. *)
Theorem fingerprint_equality (provider : CryptoProvider) (left right : SecretFingerprint) :
  (cp_constant_time_equal provider = None -> constant_time_equal provider left right = false) /\
  (forall equal, cp_constant_time_equal provider = Some equal ->
     (forall a b, equal a b = true <-> a = b) ->
     constant_time_equal provider left right = true <-> left = right).
Proof.
  unfold constant_time_equal. split; [by intros ->|]. intros equal -> Heq.
  destruct left as [[kl] vl], right as [[kr] vr]. simpl. rewrite andb_true_iff, Heq, Z.eqb_eq.
  split; [intros [-> ->]; done|intros [= -> ->]; done].
Qed.
