(* ===== verification/DependencyLifecycle.v ===== *)
(** * The dependency lifecycle registry

    Models [src/adapters/dependency_lifecycle.cpp] and its header: the master registers hook
    tables, runs their preflights, checks the fork boundary, and each forked worker initialises
    and cleans up.  The process identifier a call sees ([current_process()]) is an argument; a
    hook acts on the state of the world [W], which includes the contexts it borrows. *)
From S2P Require Import Prelude Contract.
From Stdlib Require Import ZArith Lia String.
From stdpp Require Import base numbers list gmap option.

Set Default Goal Selector "!".
#[local] Open Scope Z_scope.

Definition dependency_lifecycle_capacity : nat := 14.

Record DependencyLiveState := MkDependencyLiveState {
  live_sessions : Z; live_contexts : Z; live_threads : Z; live_callbacks : Z }.

Definition DependencyLiveState_is_quiescent (s : DependencyLiveState) : bool :=
  (live_sessions s =? 0) && (live_contexts s =? 0) && (live_threads s =? 0) && (live_callbacks s =? 0).

Definition DependencyLifecycleAction (W : Type) : Type := W -> Result unit * W.

Record DependencyLifecycleHooks (W : Type) := MkDependencyLifecycleHooks {
  lh_dependency : DependencyId;
  lh_preflight : option (DependencyLifecycleAction W);
  lh_worker_initialize : option (DependencyLifecycleAction W);
  lh_worker_cleanup : option (DependencyLifecycleAction W);
  lh_master_cleanup : option (DependencyLifecycleAction W);
  lh_live_state : option (W -> DependencyLiveState * W) }.
Arguments MkDependencyLifecycleHooks {W}.
Arguments lh_dependency {W}.
Arguments lh_preflight {W}.
Arguments lh_worker_initialize {W}.
Arguments lh_worker_cleanup {W}.
Arguments lh_master_cleanup {W}.
Arguments lh_live_state {W}.

Definition is_missing {A : Type} (f : option A) : bool := match f with None => true | Some _ => false end.

Definition DependencyLifecycleHooks_valid {W : Type} (h : DependencyLifecycleHooks W) : bool :=
  negb (bool_decide (lh_dependency h = id_none)) && is_known_dependency_id (lh_dependency h) &&
  negb (is_missing (lh_preflight h)) && negb (is_missing (lh_worker_initialize h)) &&
  negb (is_missing (lh_worker_cleanup h)) && negb (is_missing (lh_master_cleanup h)) &&
  negb (is_missing (lh_live_state h)).

Record DependencyForkEpoch := MkDependencyForkEpoch { fe_master_process : Z; fe_value : Z }.

Definition DependencyForkEpoch_valid (e : DependencyForkEpoch) : bool :=
  negb (fe_master_process e =? 0) && negb (fe_value e =? 0).

Inductive DependencyLifecyclePhase :=
  | collecting
  | preflighted
  | preflight_failed
  | preflight_rollback_failed
  | fork_ready
  | worker_ready
  | worker_rolled_back
  | worker_rollback_failed
  | worker_cleaned
  | worker_cleanup_failed
  | master_cleaned
  | master_cleanup_failed.

#[export] Instance DependencyLifecyclePhase_eq_dec : EqDecision DependencyLifecyclePhase.
Proof. solve_decision. Defined.

Record DependencyLifecycleRegistry (W : Type) := MkDependencyLifecycleRegistry {
  lr_hooks : list (DependencyLifecycleHooks W);
  lr_phase : DependencyLifecyclePhase;
  lr_terminal_failure : Error;
  lr_master_process : Z;
  lr_worker_process : Z;
  lr_fork_epoch : Z;
  lr_count : Z;
  lr_preflighted_count : Z;
  lr_worker_initialized_count : Z;
  lr_has_terminal_failure : bool }.
Arguments MkDependencyLifecycleRegistry {W}.
Arguments lr_hooks {W}.
Arguments lr_phase {W}.
Arguments lr_terminal_failure {W}.
Arguments lr_master_process {W}.
Arguments lr_worker_process {W}.
Arguments lr_fork_epoch {W}.
Arguments lr_count {W}.
Arguments lr_preflighted_count {W}.
Arguments lr_worker_initialized_count {W}.
Arguments lr_has_terminal_failure {W}.

Definition lifecycle_error (code : ErrorCode) (diagnostic : string) : Error := core_error code diagnostic.
Definition transition_error (diagnostic : string) : Error := lifecycle_error invalid_state diagnostic.
Definition no_failure : Error := make_error domain_core invalid_state 0 [].

Definition is_tls_provider (d : DependencyId) : bool :=
  bool_decide (d = id_openssl) || bool_decide (d = id_libressl).

Section registry.
Context {W : Type}.
Implicit Types (this : DependencyLifecycleRegistry W) (w : W) (hooks : list (DependencyLifecycleHooks W)).

Definition empty_hooks : DependencyLifecycleHooks W := MkDependencyLifecycleHooks id_none None None None None None.

Definition DependencyLifecycleRegistry_construct (process : Z) : DependencyLifecycleRegistry W :=
  MkDependencyLifecycleRegistry (replicate dependency_lifecycle_capacity empty_hooks) collecting no_failure
    process 0 0 0 0 0 false.

(** The setters of the fields the operations assign. *)
Definition set_phase this (phase : DependencyLifecyclePhase) : DependencyLifecycleRegistry W :=
  MkDependencyLifecycleRegistry (lr_hooks this) phase (lr_terminal_failure this) (lr_master_process this)
    (lr_worker_process this) (lr_fork_epoch this) (lr_count this) (lr_preflighted_count this)
    (lr_worker_initialized_count this) (lr_has_terminal_failure this).
Definition set_counts this (preflighted_count worker_initialized_count : Z) : DependencyLifecycleRegistry W :=
  MkDependencyLifecycleRegistry (lr_hooks this) (lr_phase this) (lr_terminal_failure this)
    (lr_master_process this) (lr_worker_process this) (lr_fork_epoch this) (lr_count this)
    preflighted_count worker_initialized_count (lr_has_terminal_failure this).
Definition set_hooks this hooks (count : Z) : DependencyLifecycleRegistry W :=
  MkDependencyLifecycleRegistry hooks (lr_phase this) (lr_terminal_failure this) (lr_master_process this)
    (lr_worker_process this) (lr_fork_epoch this) count (lr_preflighted_count this)
    (lr_worker_initialized_count this) (lr_has_terminal_failure this).
Definition set_epoch this (epoch : Z) : DependencyLifecycleRegistry W :=
  MkDependencyLifecycleRegistry (lr_hooks this) (lr_phase this) (lr_terminal_failure this)
    (lr_master_process this) (lr_worker_process this) epoch (lr_count this) (lr_preflighted_count this)
    (lr_worker_initialized_count this) (lr_has_terminal_failure this).
Definition set_worker this (process : Z) : DependencyLifecycleRegistry W :=
  MkDependencyLifecycleRegistry (lr_hooks this) (lr_phase this) (lr_terminal_failure this)
    (lr_master_process this) process (lr_fork_epoch this) (lr_count this) (lr_preflighted_count this)
    (lr_worker_initialized_count this) (lr_has_terminal_failure this).

Definition is_master_process this (process : Z) : bool :=
  negb (lr_master_process this =? 0) && (process =? lr_master_process this).

(** [persistent_failure], and [persistent_fork_failure] which has the same body. *)
Definition persistent_failure {A : Type} this : Result A :=
  if negb (lr_has_terminal_failure this)
  then Err (transition_error "dependency lifecycle failure state is missing detail")
  else Err (lr_terminal_failure this).

Definition set_terminal_failure this (phase : DependencyLifecyclePhase) (failure : Error) :
    DependencyLifecycleRegistry W :=
  MkDependencyLifecycleRegistry (lr_hooks this) phase failure (lr_master_process this)
    (lr_worker_process this) (lr_fork_epoch this) (lr_count this) (lr_preflighted_count this)
    (lr_worker_initialized_count this) true.

(** A call through a hook. *)
Definition call_hook (f : option (DependencyLifecycleAction W)) w : outcome (Result unit * W) :=
  match f with Some f => Ret (f w) | None => Stop Undefined end.

(** The registration scan over the first [n] tables from [index]. *)
Fixpoint conflict_loop (n : nat) hooks (index : Z) (d : DependencyId) : outcome (Result unit) :=
  match n with
  | O => Ret (Ok tt)
  | S n' =>
      h ← slot hooks index;
      if bool_decide (lh_dependency h = d)
      then Ret (Err (transition_error "dependency lifecycle registration is duplicate"))
      else if is_tls_provider (lh_dependency h) && is_tls_provider d
      then Ret (Err (transition_error "dependency lifecycle TLS providers conflict"))
      else conflict_loop n' hooks (index + 1) d
  end.

Definition DependencyLifecycleRegistry_register_dependency this (process : Z)
    (h : DependencyLifecycleHooks W) : outcome (Result unit * DependencyLifecycleRegistry W) :=
  if negb (is_master_process this process)
  then Ret (Err (transition_error "dependency lifecycle registration requires master owner"), this) else
  if negb (bool_decide (lr_phase this = collecting))
  then Ret (Err (transition_error "dependency lifecycle registration transition is invalid"), this) else
  if negb (DependencyLifecycleHooks_valid h)
  then Ret (Err (lifecycle_error invalid_input "dependency lifecycle hooks are invalid"), this) else
  conflict ← conflict_loop (Z.to_nat (lr_count this)) (lr_hooks this) 0 (lh_dependency h);
  TRY _ ⇐ conflict AT this IN
  if lr_count this =? Z.of_nat (length (lr_hooks this))
  then Ret (Err (lifecycle_error exhaustion "dependency lifecycle registry capacity exhausted"), this) else
  (hooks ← set_slot (lr_hooks this) (lr_count this) h;
   Ret (Ok tt, set_hooks this hooks (u64 (lr_count this + 1)))).

(** [while (count != 0) { --count; ... }]: the cleanup hooks of the tables below [count], in
    reverse, keeping the first failure.  [select] is the hook the loop calls. *)
Fixpoint cleanup_loop (select : DependencyLifecycleHooks W -> option (DependencyLifecycleAction W))
    (count : nat) hooks w (first_failure : Error) (failed : bool) : outcome (Error * bool * W) :=
  match count with
  | O => Ret (first_failure, failed, w)
  | S count' =>
      h ← slot hooks (Z.of_nat count');
      '(cleanup, w) ← call_hook (select h) w;
      match cleanup with
      | Err e =>
          if negb failed then cleanup_loop select count' hooks w e true
          else cleanup_loop select count' hooks w first_failure failed
      | Ok _ => cleanup_loop select count' hooks w first_failure failed
      end
  end.

(** The forward loop of [preflight] and [worker_initialize]: how many of the [n] tables from
    [index] succeeded, and the failure that stopped it. *)
Fixpoint forward_loop (select : DependencyLifecycleHooks W -> option (DependencyLifecycleAction W))
    (n : nat) hooks (index : Z) w (done_count : Z) : outcome (option Error * Z * W) :=
  match n with
  | O => Ret (None, done_count, w)
  | S n' =>
      h ← slot hooks index;
      '(result, w) ← call_hook (select h) w;
      match result with
      | Err e => Ret (Some e, done_count, w)
      | Ok _ => forward_loop select n' hooks (index + 1) w (u64 (done_count + 1))
      end
  end.

Definition DependencyLifecycleRegistry_preflight this (process : Z) w :
    outcome (Result unit * (DependencyLifecycleRegistry W * W)) :=
  if negb (is_master_process this process)
  then Ret (Err (transition_error "dependency lifecycle preflight requires master owner"), (this, w)) else
  if bool_decide (lr_phase this = preflighted) || bool_decide (lr_phase this = fork_ready)
  then Ret (Ok tt, (this, w)) else
  if bool_decide (lr_phase this = preflight_rollback_failed)
  then Ret (persistent_failure this, (this, w)) else
  if negb (bool_decide (lr_phase this = collecting))
  then Ret (Err (transition_error "dependency lifecycle preflight transition is invalid"), (this, w)) else
  '(failure, done_count, w) ← forward_loop lh_preflight (Z.to_nat (lr_count this)) (lr_hooks this) 0 w
      (lr_preflighted_count this);
  match failure with
  | Some e =>
      '(first_cleanup_failure, cleanup_failed, w) ←
        cleanup_loop lh_master_cleanup (Z.to_nat done_count) (lr_hooks this) w no_failure false;
      let this := set_counts this 0 (lr_worker_initialized_count this) in
      if (cleanup_failed : bool)
      then Ret (Err first_cleanup_failure,
                (set_terminal_failure this preflight_rollback_failed first_cleanup_failure, w))
      else Ret (Err e, (set_phase this preflight_failed, w))
  | None =>
      Ret (Ok tt, (set_phase (set_counts this done_count (lr_worker_initialized_count this)) preflighted, w))
  end.

(** The quiescence scan of [prepare_fork]. *)
Fixpoint quiescent_loop (n : nat) hooks (index : Z) w : outcome (bool * W) :=
  match n with
  | O => Ret (true, w)
  | S n' =>
      h ← slot hooks index;
      match lh_live_state h with
      | None => Stop Undefined
      | Some live_state =>
          let '(state, w) := live_state w in
          if negb (DependencyLiveState_is_quiescent state) then Ret (false, w)
          else quiescent_loop n' hooks (index + 1) w
      end
  end.

Definition DependencyLifecycleRegistry_prepare_fork this (process : Z) w (master_thread_count : Z) :
    outcome (Result DependencyForkEpoch * (DependencyLifecycleRegistry W * W)) :=
  if negb (is_master_process this process)
  then Ret (Err (transition_error "dependency lifecycle fork requires master owner"), (this, w)) else
  if bool_decide (lr_phase this = preflight_rollback_failed) ||
     bool_decide (lr_phase this = master_cleanup_failed)
  then Ret (persistent_failure this, (this, w)) else
  if negb (bool_decide (lr_phase this = preflighted)) && negb (bool_decide (lr_phase this = fork_ready))
  then Ret (Err (transition_error "dependency lifecycle fork transition is invalid"), (this, w)) else
  if negb (master_thread_count =? 1)
  then Ret (Err (transition_error "dependency lifecycle fork requires one master thread"), (this, w)) else
  '(quiescent, w) ← quiescent_loop (Z.to_nat (lr_count this)) (lr_hooks this) 0 w;
  if negb quiescent
  then Ret (Err (transition_error "dependency lifecycle fork requires quiescent state"), (this, w)) else
  if bool_decide (lr_phase this = fork_ready)
  then Ret (Ok (MkDependencyForkEpoch (lr_master_process this) (lr_fork_epoch this)), (this, w)) else
  if lr_fork_epoch this =? u64_max
  then Ret (Err (lifecycle_error overflow "dependency lifecycle fork epoch is exhausted"), (this, w)) else
  let this := set_phase (set_epoch this (u64 (lr_fork_epoch this + 1))) fork_ready in
  Ret (Ok (MkDependencyForkEpoch (lr_master_process this) (lr_fork_epoch this)), (this, w)).

Definition DependencyLifecycleRegistry_worker_initialize this (process : Z) w (epoch : DependencyForkEpoch) :
    outcome (Result unit * (DependencyLifecycleRegistry W * W)) :=
  if negb (DependencyForkEpoch_valid epoch) || negb (fe_master_process epoch =? lr_master_process this) ||
     negb (fe_value epoch =? lr_fork_epoch this)
  then Ret (Err (transition_error "dependency lifecycle worker epoch is invalid"), (this, w)) else
  if (process =? 0) || (process =? lr_master_process this)
  then Ret (Err (transition_error "dependency lifecycle worker initialization requires forked child"),
            (this, w)) else
  if bool_decide (lr_phase this = worker_rollback_failed) ||
     bool_decide (lr_phase this = worker_cleanup_failed)
  then Ret (persistent_failure this, (this, w)) else
  if bool_decide (lr_phase this = worker_ready) && (lr_worker_process this =? process)
  then Ret (Ok tt, (this, w)) else
  if negb (bool_decide (lr_phase this = fork_ready))
  then Ret (Err (transition_error "dependency lifecycle worker initialization transition is invalid"),
            (this, w)) else
  let this := set_worker this process in
  '(failure, done_count, w) ← forward_loop lh_worker_initialize (Z.to_nat (lr_count this)) (lr_hooks this) 0 w
      (lr_worker_initialized_count this);
  match failure with
  | Some e =>
      '(first_cleanup_failure, cleanup_failed, w) ←
        cleanup_loop lh_worker_cleanup (Z.to_nat done_count) (lr_hooks this) w no_failure false;
      let this := set_counts this (lr_preflighted_count this) 0 in
      if (cleanup_failed : bool)
      then Ret (Err first_cleanup_failure,
                (set_terminal_failure this worker_rollback_failed first_cleanup_failure, w))
      else Ret (Err e, (set_phase this worker_rolled_back, w))
  | None =>
      Ret (Ok tt, (set_phase (set_counts this (lr_preflighted_count this) done_count) worker_ready, w))
  end.

Definition DependencyLifecycleRegistry_worker_cleanup this (process : Z) w :
    outcome (Result unit * (DependencyLifecycleRegistry W * W)) :=
  if (process =? 0) || (process =? lr_master_process this) || negb (process =? lr_worker_process this)
  then Ret (Err (transition_error "dependency lifecycle worker cleanup requires worker owner"), (this, w)) else
  if bool_decide (lr_phase this = worker_rollback_failed) ||
     bool_decide (lr_phase this = worker_cleanup_failed)
  then Ret (persistent_failure this, (this, w)) else
  if bool_decide (lr_phase this = worker_rolled_back) || bool_decide (lr_phase this = worker_cleaned)
  then Ret (Ok tt, (this, w)) else
  if negb (bool_decide (lr_phase this = worker_ready))
  then Ret (Err (transition_error "dependency lifecycle worker cleanup transition is invalid"), (this, w)) else
  '(first_error, failed, w) ← cleanup_loop lh_worker_cleanup (Z.to_nat (lr_worker_initialized_count this))
      (lr_hooks this) w no_failure false;
  let this := set_counts this (lr_preflighted_count this) 0 in
  if (failed : bool) then
    let this := set_terminal_failure this worker_cleanup_failed first_error in
    Ret (persistent_failure this, (this, w))
  else Ret (Ok tt, (set_phase this worker_cleaned, w)).

Definition DependencyLifecycleRegistry_master_cleanup this (process : Z) w :
    outcome (Result unit * (DependencyLifecycleRegistry W * W)) :=
  if negb (is_master_process this process)
  then Ret (Err (transition_error "dependency lifecycle master cleanup requires master owner"), (this, w)) else
  if bool_decide (lr_phase this = preflight_rollback_failed) ||
     bool_decide (lr_phase this = master_cleanup_failed)
  then Ret (persistent_failure this, (this, w)) else
  if bool_decide (lr_phase this = master_cleaned) || bool_decide (lr_phase this = preflight_failed)
  then Ret (Ok tt, (this, w)) else
  if negb (bool_decide (lr_phase this = preflighted)) && negb (bool_decide (lr_phase this = fork_ready))
  then Ret (Err (transition_error "dependency lifecycle master cleanup transition is invalid"), (this, w)) else
  '(first_error, failed, w) ← cleanup_loop lh_master_cleanup (Z.to_nat (lr_preflighted_count this))
      (lr_hooks this) w no_failure false;
  let this := set_counts this 0 (lr_worker_initialized_count this) in
  if (failed : bool) then
    let this := set_terminal_failure this master_cleanup_failed first_error in
    Ret (persistent_failure this, (this, w))
  else Ret (Ok tt, (set_phase this master_cleaned, w)).
End registry.
