(* ===== verification/LifecycleSpec.v ===== *)
(** * Hooks run once, in order, in the process they belong to

    A master registers tables, runs the lifecycle operations in any order and forks workers at
    any time; each worker runs any operations too.  The world is the log of hook calls of one
    process, and the hooks answer any way that depends on the calls made so far.  The log of a
    process is then determined by its phase: preflights in registration order up to the first
    failure, cleanups in reverse of what succeeded, each once, and never the hooks of the
    other kind of process. *)
From S2P Require Import Prelude Contract DependencyLifecycle.
From Stdlib Require Import ZArith Lia String.
From stdpp Require Import base numbers list gmap option.

Set Default Goal Selector "!".
#[local] Open Scope Z_scope.

Inductive HookCall :=
  | CallPreflight (d : DependencyId)
  | CallWorkerInitialize (d : DependencyId)
  | CallWorkerCleanup (d : DependencyId)
  | CallMasterCleanup (d : DependencyId).

Section lifecycle.
Context (answer : list HookCall -> HookCall -> Result unit)
        (live : list HookCall -> DependencyId -> DependencyLiveState).
Implicit Types (log : list HookCall) (deps : list DependencyId).

Definition logged_hook (c : HookCall) : DependencyLifecycleAction (list HookCall) :=
  fun log => (answer log c, log ++ [c]).

Definition logged_hooks (d : DependencyId) : DependencyLifecycleHooks (list HookCall) :=
  MkDependencyLifecycleHooks d (Some (logged_hook (CallPreflight d)))
    (Some (logged_hook (CallWorkerInitialize d))) (Some (logged_hook (CallWorkerCleanup d)))
    (Some (logged_hook (CallMasterCleanup d))) (Some (fun log => (live log d, log))).

(** The first call that fails when [ds] are called in order: its position and error. *)
Fixpoint first_failure (event : DependencyId -> HookCall) deps log : option (nat * Error) :=
  match deps with
  | [] => None
  | d :: deps' =>
      match answer log (event d) with
      | Err e => Some (0%nat, e)
      | Ok _ => (fun p => (S (fst p), snd p)) <$> first_failure event deps' (log ++ [event d])
      end
  end.

(** The tables of a registry whose registered dependencies are [deps]. *)
Definition tables deps : list (DependencyLifecycleHooks (list HookCall)) :=
  map logged_hooks deps ++ replicate (dependency_lifecycle_capacity - length deps) empty_hooks.

Lemma tables_lookup deps (i : nat) d :
  deps !! i = Some d -> slot (tables deps) (Z.of_nat i) = Ret (logged_hooks d).
Proof.
  intros Hi. apply slot_ok. rewrite Nat2Z.id. unfold tables.
  rewrite lookup_app_l by (rewrite length_map; by eapply lookup_lt_Some).
  change (map logged_hooks deps) with (logged_hooks <$> deps). by rewrite list_lookup_fmap, Hi.
Qed.

Lemma tables_length deps : (length deps <= dependency_lifecycle_capacity)%nat ->
  length (tables deps) = dependency_lifecycle_capacity.
Proof. intros H. unfold tables. rewrite length_app, length_map, length_replicate. lia. Qed.

(** ** The loops over logged hooks *)
Section loops.
Context (select : DependencyLifecycleHooks (list HookCall) -> option (DependencyLifecycleAction (list HookCall)))
        (event : DependencyId -> HookCall)
        (Hselect : forall d, select (logged_hooks d) = Some (logged_hook (event d))).

Lemma forward_run pre suf log done_count :
  0 <= done_count -> done_count + Z.of_nat (length suf) <= u64_max ->
  forward_loop select (length suf) (tables (pre ++ suf)) (Z.of_nat (length pre)) log done_count =
    Ret (match first_failure event suf log with
         | None => (None, done_count + Z.of_nat (length suf), log ++ map event suf)
         | Some (k, e) => (Some e, done_count + Z.of_nat k, log ++ map event (take (S k) suf))
         end).
Proof using Hselect.
  revert pre log done_count. induction suf as [|d suf IH]; intros pre log n Hn Hmax.
  { simpl. by rewrite Z.add_0_r, app_nil_r. }
  cbn [length forward_loop first_failure].
  rewrite (tables_lookup (pre ++ d :: suf) (length pre) d) by (by apply list_lookup_middle).
  cbn [mbind outcome_bind]. rewrite Hselect. unfold call_hook, logged_hook at 1. cbn [mbind outcome_bind].
  cbn [length] in Hmax. destruct (answer log (event d)) as [[]|e].
  - rewrite u64_small by (unfold u64_max in *; lia).
    replace (Z.of_nat (length pre) + 1) with (Z.of_nat (length (pre ++ [d])))
      by (rewrite length_app; simpl; lia).
    replace (pre ++ d :: suf) with ((pre ++ [d]) ++ suf) by (by rewrite <- app_assoc).
    rewrite IH by lia. f_equal. destruct (first_failure event suf (log ++ [event d])) as [[k e]|].
    + simpl. rewrite <- app_assoc. simpl. f_equal. f_equal. lia.
    + simpl. rewrite <- app_assoc. simpl. f_equal. f_equal. lia.
  - simpl. by rewrite Z.add_0_r.
Qed.

(** Once a failure is recorded it stays, and every hook still runs. *)
Lemma cleanup_failed_run ds rest log e :
  cleanup_loop select (length ds) (tables (ds ++ rest)) log e true = Ret (e, true, log ++ map event (rev ds)).
Proof using Hselect.
  revert rest log. induction ds as [|d ds IH] using rev_ind; intros rest log.
  { simpl. by rewrite app_nil_r. }
  rewrite length_app. simpl length. rewrite Nat.add_1_r. cbn [cleanup_loop].
  rewrite (tables_lookup ((ds ++ [d]) ++ rest) (length ds) d)
    by (rewrite <- app_assoc; by apply list_lookup_middle).
  cbn [mbind outcome_bind]. rewrite Hselect. unfold call_hook, logged_hook at 1. cbn [mbind outcome_bind].
  rewrite <- app_assoc. rewrite rev_app_distr. simpl.
  destruct (answer log (event d)); rewrite IH; by rewrite <- app_assoc.
Qed.

Lemma cleanup_run ds rest log :
  cleanup_loop select (length ds) (tables (ds ++ rest)) log no_failure false =
    Ret (match first_failure event (rev ds) log with
         | None => (no_failure, false)
         | Some (_, e) => (e, true)
         end, log ++ map event (rev ds)).
Proof using Hselect.
  revert rest log. induction ds as [|d ds IH] using rev_ind; intros rest log.
  { simpl. by rewrite app_nil_r. }
  rewrite length_app. simpl length. rewrite Nat.add_1_r. cbn [cleanup_loop].
  rewrite (tables_lookup ((ds ++ [d]) ++ rest) (length ds) d)
    by (rewrite <- app_assoc; by apply list_lookup_middle).
  cbn [mbind outcome_bind]. rewrite Hselect. unfold call_hook, logged_hook at 1. cbn [mbind outcome_bind].
  rewrite <- app_assoc. rewrite rev_app_distr. cbn [rev app first_failure map].
  destruct (answer log (event d)) as [[]|e].
  - rewrite IH. rewrite <- app_assoc. cbn [app].
    by destruct (first_failure event (rev ds) (log ++ [event d])) as [[k e]|].
  - cbn [negb]. rewrite cleanup_failed_run. by rewrite <- app_assoc.
Qed.
End loops.

(** ** Registration *)
Lemma conflict_run pre suf d :
  exists r, conflict_loop (length suf) (tables (pre ++ suf)) (Z.of_nat (length pre)) d = Ret r /\
    (r = Ok tt -> forall x, x ∈ suf -> x <> d /\ is_tls_provider x && is_tls_provider d = false).
Proof.
  revert pre. induction suf as [|x suf IH]; intros pre.
  { eexists. split; [done|]. intros _ x Hx. by apply elem_of_nil in Hx. }
  cbn [length conflict_loop].
  rewrite (tables_lookup (pre ++ x :: suf) (length pre) x) by (by apply list_lookup_middle).
  cbn [mbind outcome_bind logged_hooks lh_dependency].
  destruct (bool_decide (x = d)) eqn:E1; [eexists; split; [done|discriminate]|].
  destruct (is_tls_provider x && is_tls_provider d) eqn:E2; [eexists; split; [done|discriminate]|].
  replace (Z.of_nat (length pre) + 1) with (Z.of_nat (length (pre ++ [x]))) by (rewrite length_app; simpl; lia).
  replace (pre ++ x :: suf) with ((pre ++ [x]) ++ suf) by (by rewrite <- app_assoc).
  destruct (IH (pre ++ [x])) as (r & -> & Hr). exists r. split; [done|].
  intros -> y [->|Hy]%elem_of_cons; [|by apply Hr]. by apply bool_decide_eq_false in E1.
Qed.

Lemma tables_snoc deps d :
  (length deps < dependency_lifecycle_capacity)%nat ->
  set_slot (tables deps) (Z.of_nat (length deps)) (logged_hooks d) = Ret (tables (deps ++ [d])).
Proof.
  intros Hlt. rewrite set_slot_ok by (rewrite tables_length; lia). f_equal. rewrite Nat2Z.id. unfold tables.
  rewrite length_app, map_app. simpl length.
  replace (dependency_lifecycle_capacity - length deps)%nat
    with (S (dependency_lifecycle_capacity - (length deps + 1)))%nat by lia.
  rewrite <- (length_map logged_hooks deps) at 1. cbn [replicate]. rewrite insert_app_r_alt by lia.
  rewrite Nat.sub_diag. simpl. by rewrite <- app_assoc.
Qed.

(** ** The processes *)
Definition LifecycleState : Type := DependencyLifecycleRegistry (list HookCall) * list HookCall.

Inductive LifecycleOp :=
  | LRegister (d : DependencyId)
  | LPreflight
  | LPrepareFork (threads : Z)
  | LWorkerInitialize (epoch : DependencyForkEpoch)
  | LWorkerCleanup
  | LMasterCleanup.

Definition exec_lifecycle (pid : Z) (s : LifecycleState) (op : LifecycleOp) :
    outcome (Result unit * LifecycleState) :=
  let this := fst s in let log := snd s in
  match op with
  | LRegister d =>
      '(r, this) ← DependencyLifecycleRegistry_register_dependency this pid (logged_hooks d);
      Ret (r, (this, log))
  | LPreflight => DependencyLifecycleRegistry_preflight this pid log
  | LPrepareFork n =>
      '(r, s) ← DependencyLifecycleRegistry_prepare_fork this pid log n;
      Ret (match r with Ok _ => Ok tt | Err e => Err e end, s)
  | LWorkerInitialize epoch => DependencyLifecycleRegistry_worker_initialize this pid log epoch
  | LWorkerCleanup => DependencyLifecycleRegistry_worker_cleanup this pid log
  | LMasterCleanup => DependencyLifecycleRegistry_master_cleanup this pid log
  end.

(** A process of the tree: the master, or a worker with a copy of the registry and a log of
    its own. *)
Inductive lifecycle_reachable (master : Z) : Z -> LifecycleState -> Prop :=
  | lc_start : master <> 0 ->
      lifecycle_reachable master master (DependencyLifecycleRegistry_construct master, [])
  | lc_step pid s op r s' :
      lifecycle_reachable master pid s -> exec_lifecycle pid s op = Ret (r, s') ->
      lifecycle_reachable master pid s'
  | lc_fork child s :
      lifecycle_reachable master master s -> child <> 0 -> child <> master ->
      lifecycle_reachable master child (fst s, []).

(** ** The log a phase stands for *)
Implicit Types (this : DependencyLifecycleRegistry (list HookCall)).

(** The phase after cleaning up, and the error it keeps. *)
Definition verdict this (failure : option (nat * Error)) (clean failed : DependencyLifecyclePhase) : Prop :=
  match failure with
  | None => lr_phase this = clean
  | Some (_, e) => lr_phase this = failed /\ lr_terminal_failure this = e /\ lr_has_terminal_failure this = true
  end.

(** [start] hooks in order; then, after a failure or at the end, [stop] hooks in reverse of
    the [start] hooks that succeeded. *)
Definition paired (start stop : DependencyId -> HookCall) deps log this (count : Z)
    (ready : DependencyLifecyclePhase -> bool)
    (rolled_back rollback_failed cleaned cleanup_failed : DependencyLifecyclePhase) : Prop :=
  match first_failure start deps [] with
  | None =>
      (ready (lr_phase this) = true /\ log = map start deps /\ count = Z.of_nat (length deps)) \/
      (log = map start deps ++ map stop (rev deps) /\ count = 0 /\
       verdict this (first_failure stop (rev deps) (map start deps)) cleaned cleanup_failed)
  | Some (k, _) =>
      let before := map start (take (S k) deps) in
      log = before ++ map stop (rev (take k deps)) /\ count = 0 /\
      verdict this (first_failure stop (rev (take k deps)) before) rolled_back rollback_failed
  end.

Definition master_ready (p : DependencyLifecyclePhase) : bool :=
  match p with preflighted | fork_ready => true | _ => false end.
Definition worker_running (p : DependencyLifecyclePhase) : bool :=
  match p with worker_ready => true | _ => false end.
Definition is_worker_phase (p : DependencyLifecyclePhase) : bool :=
  match p with
  | worker_ready | worker_rolled_back | worker_rollback_failed | worker_cleaned | worker_cleanup_failed => true
  | _ => false
  end.

Definition master_log deps log this : Prop :=
  (lr_phase this = collecting /\ log = [] /\ lr_preflighted_count this = 0) \/
  paired CallPreflight CallMasterCleanup deps log this (lr_preflighted_count this) master_ready
    preflight_failed preflight_rollback_failed master_cleaned master_cleanup_failed.

Definition worker_log (pid : Z) deps log this : Prop :=
  (is_worker_phase (lr_phase this) = false /\ log = [] /\ lr_worker_initialized_count this = 0) \/
  (lr_worker_process this = pid /\
   paired CallWorkerInitialize CallWorkerCleanup deps log this (lr_worker_initialized_count this)
     worker_running worker_rolled_back worker_rollback_failed worker_cleaned worker_cleanup_failed).

(** What is registered: distinct known dependencies, one TLS provider at most. *)
Record registered (master : Z) deps this : Prop := {
  rg_hooks : lr_hooks this = tables deps;
  rg_count : lr_count this = Z.of_nat (length deps);
  rg_capacity : (length deps <= dependency_lifecycle_capacity)%nat;
  rg_master : lr_master_process this = master;
  rg_known : forall d, d ∈ deps -> d <> id_none /\ is_known_dependency_id d = true;
  rg_distinct : NoDup deps;
  rg_tls : forall d d', d ∈ deps -> d' ∈ deps -> is_tls_provider d = true -> is_tls_provider d' = true -> d = d' }.

Record process_ok (master pid : Z) deps (s : LifecycleState) : Prop := {
  po_master : master <> 0;
  po_pid : pid <> 0;
  po_registered : registered master deps (fst s);
  po_log : if pid =? master
    then lr_worker_process (fst s) = 0 /\ lr_worker_initialized_count (fst s) = 0 /\
         is_worker_phase (lr_phase (fst s)) = false /\ master_log deps (snd s) (fst s)
    else worker_log pid deps (snd s) (fst s) }.

Lemma first_failure_lt event ds log k e : first_failure event ds log = Some (k, e) -> (k < length ds)%nat.
Proof.
  revert log k. induction ds as [|d ds IH]; intros log k H; [done|]. simpl in *.
  destruct (answer log (event d)); [|injection H as <- <-; lia].
  destruct (first_failure event ds _) as [[j e']|] eqn:E; [|done]. simpl in H. injection H as <- ->.
  apply IH in E. lia.
Qed.

Lemma registered_same master deps this this' :
  registered master deps this -> lr_hooks this' = lr_hooks this -> lr_count this' = lr_count this ->
  lr_master_process this' = lr_master_process this -> registered master deps this'.
Proof. intros [] E1 E2 E3. split; congruence || done. Qed.

Lemma is_master_iff master deps this pid :
  master <> 0 -> registered master deps this -> is_master_process this pid = (pid =? master).
Proof.
  intros Hm Hr. unfold is_master_process. rewrite (rg_master _ _ _ Hr).
  by rewrite (proj2 (Z.eqb_neq master 0)).
Qed.

(** The forward loop from the start, and the rollback of what it started. *)
Lemma start_hooks deps start select log :
  (forall d, select (logged_hooks d) = Some (logged_hook (start d))) ->
  (length deps <= dependency_lifecycle_capacity)%nat ->
  forward_loop select (length deps) (tables deps) 0 log 0 =
    Ret (match first_failure start deps log with
         | None => (None, Z.of_nat (length deps), log ++ map start deps)
         | Some (k, e) => (Some e, Z.of_nat k, log ++ map start (take (S k) deps))
         end).
Proof.
  intros Hsel Hcap. pose proof (forward_run select start Hsel [] deps log 0 ltac:(lia)) as H.
  simpl in H. apply H. unfold dependency_lifecycle_capacity, u64_max in *. lia.
Qed.

Lemma stop_hooks deps stop select log k :
  (forall d, select (logged_hooks d) = Some (logged_hook (stop d))) -> (k <= length deps)%nat ->
  cleanup_loop select k (tables deps) log no_failure false =
    Ret (match first_failure stop (rev (take k deps)) log with
         | None => (no_failure, false)
         | Some (_, e) => (e, true)
         end, log ++ map stop (rev (take k deps))).
Proof.
  intros Hsel Hk. pose proof (cleanup_run select stop Hsel (take k deps) (drop k deps) log) as H.
  rewrite take_drop, length_take in H. by rewrite Nat.min_l in H by lia.
Qed.

Lemma paired_phase start stop deps log this count ready rb rf c cf :
  paired start stop deps log this count ready rb rf c cf ->
  ready (lr_phase this) = true \/ lr_phase this = rb \/ lr_phase this = rf \/ lr_phase this = c \/
  lr_phase this = cf.
Proof.
  unfold paired, verdict. intros Hp. destruct (first_failure start deps []) as [[k e]|].
  - destruct Hp as (_ & _ & Hv). destruct (first_failure stop _ _) as [[j e']|]; [destruct Hv as [Hv _]|]; auto.
  - destruct Hp as [(Hr & _)|(_ & _ & Hv)]; [auto|].
    destruct (first_failure stop _ _) as [[j e']|]; [destruct Hv as [Hv _]|]; auto.
Qed.

Ltac unchanged Hok := eexists _, _, _; split; [reflexivity|exact Hok].
Ltac refuse Hok := match goal with |- context [if ?b then _ else _] => destruct b eqn:? end;
  [by unchanged Hok|].

Lemma preflight_ok master pid deps this log :
  process_ok master pid deps (this, log) ->
  exists r s' deps', exec_lifecycle pid (this, log) LPreflight = Ret (r, s') /\ process_ok master pid deps' s'.
Proof.
  intros Hok. pose proof Hok as [Hm Hp Hr Hlog]. simpl in Hr, Hlog. cbn [exec_lifecycle fst snd].
  unfold DependencyLifecycleRegistry_preflight. rewrite (is_master_iff master deps) by done.
  destruct (pid =? master) eqn:Hpid; cbn [negb]; [|by unchanged Hok].
  do 3 refuse Hok. case_bool_decide as Hph; [|done].
  destruct Hlog as (Hw & Hwi & _ & [(_ & -> & Hpc)|Hpaired]).
  2: { exfalso. apply paired_phase in Hpaired. rewrite Hph in Hpaired.
       by destruct Hpaired as [?|[?|[?|[?|?]]]]. }
  rewrite (rg_count _ _ _ Hr), Nat2Z.id, (rg_hooks _ _ _ Hr), Hpc.
  rewrite (start_hooks deps CallPreflight) by (done || apply Hr). cbn [mbind outcome_bind].
  destruct (first_failure CallPreflight deps []) as [[k e]|] eqn:Hf.
  - rewrite Nat2Z.id, (stop_hooks deps CallMasterCleanup)
      by (done || apply first_failure_lt in Hf; lia). cbn [mbind outcome_bind app].
    destruct (first_failure CallMasterCleanup (rev (take k deps)) _) as [[j e']|] eqn:Hc;
      eexists _, _, deps; (split; [reflexivity|]); split; try done; simpl; rewrite ?Hpid;
      try (by apply (registered_same _ _ this)); (split; [done|split; [done|split; [done|]]]);
      right; unfold paired, verdict; rewrite Hf; (split; [done|split; [done|]]); by rewrite Hc.
  - eexists _, _, deps. split; [reflexivity|]. split; try done; simpl; rewrite ?Hpid.
    + by apply (registered_same _ _ this).
    + split; [done|]. split; [done|]. split; [done|]. right. unfold paired. rewrite Hf. left. done.
Qed.

(** A ready phase is reached only by starting every hook. *)
Lemma paired_ready start stop deps log this count ready rb rf c cf :
  paired start stop deps log this count ready rb rf c cf -> ready (lr_phase this) = true ->
  ready rb = false -> ready rf = false -> ready c = false -> ready cf = false ->
  first_failure start deps [] = None /\ log = map start deps /\ count = Z.of_nat (length deps).
Proof.
  unfold paired, verdict. intros Hp Hr H1 H2 H3 H4.
  destruct (first_failure start deps []) as [[k e]|].
  - destruct Hp as (_ & _ & Hv). destruct (first_failure stop _ _) as [[j e']|]; [destruct Hv as [Hv _]|];
      rewrite Hv in Hr; congruence.
  - destruct Hp as [(_ & H)|(_ & _ & Hv)]; [done|]. exfalso.
    destruct (first_failure stop _ _) as [[j e']|]; [destruct Hv as [Hv _]|]; rewrite Hv in Hr; congruence.
Qed.

(** The end of a run: every hook stopped in reverse. *)
Lemma paired_stop start stop deps this ready rb rf c cf this' :
  first_failure start deps [] = None ->
  verdict this' (first_failure stop (rev deps) (map start deps)) c cf ->
  paired start stop deps (map start deps ++ map stop (rev deps)) this' 0 ready rb rf c cf.
Proof. intros Hf Hv. unfold paired. rewrite Hf. right. done. Qed.

Lemma master_cleanup_ok master pid deps this log :
  process_ok master pid deps (this, log) ->
  exists r s' deps', exec_lifecycle pid (this, log) LMasterCleanup = Ret (r, s') /\ process_ok master pid deps' s'.
Proof.
  intros Hok. pose proof Hok as [Hm Hp Hr Hlog]. simpl in Hr, Hlog. cbn [exec_lifecycle fst snd].
  unfold DependencyLifecycleRegistry_master_cleanup. rewrite (is_master_iff master deps) by done.
  destruct (pid =? master) eqn:Hpid; cbn [negb]; [|by unchanged Hok].
  do 2 refuse Hok. destruct (negb _ && negb _) eqn:Hph; [by unchanged Hok|].
  assert (Hready : master_ready (lr_phase this) = true).
  { apply andb_false_iff in Hph as [Hph|Hph]; apply negb_false_iff, bool_decide_eq_true in Hph; by rewrite Hph. }
  destruct Hlog as (Hw & Hwi & _ & [(Hc & _)|Hpaired]); [by rewrite Hc in Hready|].
  apply paired_ready in Hpaired as (Hf & -> & Hpc); [|done..].
  rewrite Hpc, Nat2Z.id, (rg_hooks _ _ _ Hr).
  rewrite (stop_hooks deps CallMasterCleanup) by (done || lia). cbn [mbind outcome_bind].
  rewrite take_ge by lia.
  destruct (first_failure CallMasterCleanup (rev deps) _) as [[j e']|] eqn:Hc;
    eexists _, _, deps; (split; [reflexivity|]); split; try done; simpl; rewrite ?Hpid;
    try (by apply (registered_same _ _ this)); (split; [done|split; [done|split; [done|]]]);
    right; apply (paired_stop _ _ _ this); try done; unfold verdict; by rewrite Hc.
Qed.

Lemma worker_process_facts master pid deps this log :
  process_ok master pid deps (this, log) -> (pid =? 0) || (pid =? lr_master_process this) = (pid =? master).
Proof.
  intros [Hm Hp Hr _]. simpl in Hr. rewrite (rg_master _ _ _ Hr).
  by rewrite (proj2 (Z.eqb_neq pid 0)) by done.
Qed.

Lemma worker_cleanup_ok master pid deps this log :
  process_ok master pid deps (this, log) ->
  exists r s' deps', exec_lifecycle pid (this, log) LWorkerCleanup = Ret (r, s') /\ process_ok master pid deps' s'.
Proof.
  intros Hok. pose proof Hok as [Hm Hp Hr Hlog]. simpl in Hr, Hlog. cbn [exec_lifecycle fst snd].
  unfold DependencyLifecycleRegistry_worker_cleanup. rewrite (worker_process_facts master pid deps this log Hok).
  destruct (pid =? master) eqn:Hpid; cbn [orb]; [by unchanged Hok|].
  do 3 refuse Hok.
  destruct (bool_decide (lr_phase this = worker_ready)) eqn:Hph; cbn [negb]; [|by unchanged Hok].
  apply bool_decide_eq_true in Hph.
  destruct Hlog as [(Hn & _)|(Hw & Hpaired)]; [by rewrite Hph in Hn|].
  apply paired_ready in Hpaired as (Hf & -> & Hpc); [|by rewrite ?Hph..].
  rewrite Hpc, Nat2Z.id, (rg_hooks _ _ _ Hr).
  rewrite (stop_hooks deps CallWorkerCleanup) by (done || lia). cbn [mbind outcome_bind].
  rewrite take_ge by lia.
  destruct (first_failure CallWorkerCleanup (rev deps) _) as [[j e']|] eqn:Hc;
    eexists _, _, deps; (split; [reflexivity|]); split; try done; simpl; rewrite ?Hpid;
    try (by apply (registered_same _ _ this));
    right; (split; [done|]); apply (paired_stop _ _ _ this); try done; unfold verdict; by rewrite Hc.
Qed.

Lemma worker_initialize_ok master pid deps this log epoch :
  process_ok master pid deps (this, log) ->
  exists r s' deps', exec_lifecycle pid (this, log) (LWorkerInitialize epoch) = Ret (r, s') /\
    process_ok master pid deps' s'.
Proof.
  intros Hok. pose proof Hok as [Hm Hp Hr Hlog]. simpl in Hr, Hlog. cbn [exec_lifecycle fst snd].
  unfold DependencyLifecycleRegistry_worker_initialize. refuse Hok.
  rewrite (worker_process_facts master pid deps this log Hok).
  destruct (pid =? master) eqn:Hpid; [by unchanged Hok|].
  do 2 refuse Hok.
  destruct (bool_decide (lr_phase this = fork_ready)) eqn:Hph; cbn [negb]; [|by unchanged Hok].
  apply bool_decide_eq_true in Hph.
  destruct Hlog as [(_ & -> & Hwi)|(_ & Hpaired)].
  2: { exfalso. apply paired_phase in Hpaired. rewrite Hph in Hpaired.
       by destruct Hpaired as [?|[?|[?|[?|?]]]]. }
  cbn [set_worker lr_count lr_hooks lr_worker_initialized_count].
  rewrite (rg_count _ _ _ Hr), Nat2Z.id, (rg_hooks _ _ _ Hr), Hwi.
  rewrite (start_hooks deps CallWorkerInitialize) by (done || apply Hr). cbn [mbind outcome_bind].
  destruct (first_failure CallWorkerInitialize deps []) as [[k e]|] eqn:Hf.
  - rewrite Nat2Z.id, (stop_hooks deps CallWorkerCleanup)
      by (done || apply first_failure_lt in Hf; lia). cbn [mbind outcome_bind app].
    destruct (first_failure CallWorkerCleanup (rev (take k deps)) _) as [[j e']|] eqn:Hc;
      eexists _, _, deps; (split; [reflexivity|]); split; try done; simpl; rewrite ?Hpid;
      try (by apply (registered_same _ _ this));
      right; (split; [done|]); unfold paired, verdict; rewrite Hf; (split; [done|split; [done|]]); by rewrite Hc.
  - eexists _, _, deps. split; [reflexivity|]. split; try done; simpl; rewrite ?Hpid.
    + by apply (registered_same _ _ this).
    + right. split; [done|]. unfold paired. rewrite Hf. left. done.
Qed.

Lemma quiescent_run pre suf log :
  exists b, quiescent_loop (length suf) (tables (pre ++ suf)) (Z.of_nat (length pre)) log = Ret (b, log) /\
    (b = true <-> forall d, d ∈ suf -> DependencyLiveState_is_quiescent (live log d) = true).
Proof.
  revert pre. induction suf as [|x suf IH]; intros pre.
  { exists true. split; [done|]. split; [|done]. intros _ d Hd. by apply elem_of_nil in Hd. }
  cbn [length quiescent_loop].
  rewrite (tables_lookup (pre ++ x :: suf) (length pre) x) by (by apply list_lookup_middle).
  cbn [mbind outcome_bind logged_hooks lh_live_state].
  destruct (DependencyLiveState_is_quiescent (live log x)) eqn:Hq; cbn [negb].
  - replace (Z.of_nat (length pre) + 1) with (Z.of_nat (length (pre ++ [x]))) by (rewrite length_app; simpl; lia).
    replace (pre ++ x :: suf) with ((pre ++ [x]) ++ suf) by (by rewrite <- app_assoc).
    destruct (IH (pre ++ [x])) as (b & -> & Hb). exists b. split; [done|]. rewrite Hb. split.
    + intros H d [->|Hd]%elem_of_cons; auto.
    + intros H d Hd. apply H, elem_of_cons. auto.
  - exists false. split; [done|]. split; [done|]. intros H. specialize (H x (list_elem_of_here _ _)). congruence.
Qed.

Lemma prepare_fork_ok master pid deps this log n :
  process_ok master pid deps (this, log) ->
  exists r s' deps', exec_lifecycle pid (this, log) (LPrepareFork n) = Ret (r, s') /\
    process_ok master pid deps' s'.
Proof.
  intros Hok. pose proof Hok as [Hm Hp Hr Hlog]. simpl in Hr, Hlog. cbn [exec_lifecycle fst snd].
  unfold DependencyLifecycleRegistry_prepare_fork. rewrite (is_master_iff master deps) by done.
  destruct (pid =? master) eqn:Hpid; cbn [negb]; [|by unchanged Hok].
  refuse Hok. destruct (negb _ && negb _) eqn:Hph; [by unchanged Hok|].
  assert (Hready : master_ready (lr_phase this) = true).
  { apply andb_false_iff in Hph as [Hph|Hph]; apply negb_false_iff, bool_decide_eq_true in Hph; by rewrite Hph. }
  clear Hph. refuse Hok.
  rewrite (rg_count _ _ _ Hr), Nat2Z.id, (rg_hooks _ _ _ Hr).
  destruct (quiescent_run [] deps log) as (b & Hq & _). simpl in Hq. change (Z.of_nat 0) with 0 in Hq. rewrite Hq. cbn [mbind outcome_bind].
  do 3 refuse Hok. eexists _, _, deps. split; [reflexivity|].
  destruct Hlog as (Hw & Hwi & _ & [(Hc & _)|Hpaired]); [by rewrite Hc in Hready|].
  apply paired_ready in Hpaired as (Hf & -> & Hpc); [|done..].
  split; try done; simpl; rewrite ?Hpid.
  - by apply (registered_same _ _ this).
  - split; [done|]. split; [done|]. split; [done|]. right. unfold paired. rewrite Hf. left. done.
Qed.

Lemma register_ok master pid deps this log d :
  process_ok master pid deps (this, log) ->
  exists r s' deps', exec_lifecycle pid (this, log) (LRegister d) = Ret (r, s') /\ process_ok master pid deps' s'.
Proof.
  intros Hok. pose proof Hok as [Hm Hp Hr Hlog]. simpl in Hr, Hlog. cbn [exec_lifecycle fst snd].
  unfold DependencyLifecycleRegistry_register_dependency. rewrite (is_master_iff master deps) by done.
  destruct (pid =? master) eqn:Hpid; cbn [negb]; [|by unchanged Hok].
  destruct (bool_decide (lr_phase this = collecting)) eqn:Hph; cbn [negb]; [|by unchanged Hok].
  apply bool_decide_eq_true in Hph.
  destruct (DependencyLifecycleHooks_valid (logged_hooks d)) eqn:Hv; cbn [negb]; [|by unchanged Hok].
  unfold DependencyLifecycleHooks_valid in Hv. simpl in Hv. rewrite !andb_true_r, andb_true_iff, negb_true_iff in Hv.
  destruct Hv as [Hnone%bool_decide_eq_false Hknown].
  rewrite (rg_count _ _ _ Hr), Nat2Z.id, (rg_hooks _ _ _ Hr).
  destruct (conflict_run [] deps d) as (r & Hc & Hfree). simpl in Hc. change (Z.of_nat 0) with 0 in Hc.
  change (lh_dependency (logged_hooks d)) with d. rewrite Hc. cbn [mbind outcome_bind].
  destruct r as [[]|e]; [|by unchanged Hok]. specialize (Hfree eq_refl).
  pose proof (rg_capacity _ _ _ Hr) as Hcap. rewrite tables_length by done.
  destruct (Z.eqb_spec (Z.of_nat (length deps)) (Z.of_nat dependency_lifecycle_capacity)) as [|Hroom];
    [by unchanged Hok|].
  rewrite tables_snoc by lia. cbn [mbind outcome_bind].
  rewrite u64_small by (unfold dependency_lifecycle_capacity, u64_max in *; lia).
  eexists _, _, (deps ++ [d]). split; [reflexivity|]. split; try done; simpl; rewrite ?Hpid.
  - split; simpl; try done.
    + rewrite length_app. simpl. lia.
    + rewrite length_app. simpl. lia.
    + apply Hr.
    + intros x [Hx| ->%list_elem_of_singleton]%elem_of_app; [by apply (rg_known _ _ _ Hr)|done].
    + apply list.NoDup_app. split; [apply Hr|]. split; [|apply NoDup_singleton].
      intros x Hx ->%list_elem_of_singleton. by destruct (Hfree d Hx).
    + intros x y [Hx| ->%list_elem_of_singleton]%elem_of_app [Hy| ->%list_elem_of_singleton]%elem_of_app Tx Ty;
        [by apply (rg_tls _ _ _ Hr)| | |done].
      * destruct (Hfree x Hx) as [_ Hno]. by rewrite Tx, Ty in Hno.
      * destruct (Hfree y Hy) as [_ Hno]. by rewrite Tx, Ty in Hno.
  - destruct Hlog as (Hw & Hwi & Hn & [(_ & -> & Hpc)|Hpaired]).
    + split; [done|]. split; [done|]. split; [done|]. left. done.
    + exfalso. apply paired_phase in Hpaired. rewrite Hph in Hpaired.
      by destruct Hpaired as [?|[?|[?|[?|?]]]].
Qed.

Lemma exec_lifecycle_ok master pid deps s op :
  process_ok master pid deps s ->
  exists r s' deps', exec_lifecycle pid s op = Ret (r, s') /\ process_ok master pid deps' s'.
Proof.
  destruct s as [this log]. intros Hok. destruct op.
  - by apply (register_ok master pid deps).
  - by apply (preflight_ok master pid deps).
  - by apply (prepare_fork_ok master pid deps).
  - by apply (worker_initialize_ok master pid deps).
  - by apply (worker_cleanup_ok master pid deps).
  - by apply (master_cleanup_ok master pid deps).
Qed.

Lemma reachable_process master pid s :
  lifecycle_reachable master pid s -> exists deps, process_ok master pid deps s.
Proof.
  induction 1 as [Hm|pid s op r s' _ (deps & IH) He|child s _ (deps & IH) H0 Hne].
  - exists []. split; [done|done| |].
    + split; try done; simpl; [unfold dependency_lifecycle_capacity; lia|..];
        intros; by match goal with H : _ ∈ [] |- _ => apply elem_of_nil in H end || constructor.
    + rewrite Z.eqb_refl. split; [done|]. split; [done|]. split; [done|]. left. done.
  - destruct (exec_lifecycle_ok master pid deps s op IH) as (r' & s2 & deps' & E & Hok).
    exists deps'. congruence.
  - exists deps. destruct IH as [Hm Hp Hr Hlog]. rewrite Z.eqb_refl in Hlog.
    destruct Hlog as (Hw & Hwi & Hn & _). split; [done|done|done|].
    rewrite (proj2 (Z.eqb_neq child master)) by done. left. done.
Qed.
End lifecycle.

(** ** Property *)

(** C5: whatever the hooks answer, in the master and in every forked worker no operation
    faults, the registered dependencies are distinct, known and have one TLS provider at most,
    and the hook calls of the process are the ones its phase stands for: start hooks in
    registration order up to the first failure, stop hooks in reverse of the start hooks that
    succeeded, once each; cleanup continues past failures and the first one is kept; workers
    call no master hook and the master no worker hook. *)
Theorem lifecycle_hooks_paired (answer : list HookCall -> HookCall -> Result unit)
    (live : list HookCall -> DependencyId -> DependencyLiveState) (master pid : Z) (s : LifecycleState) :
  lifecycle_reachable answer live master pid s ->
  (forall op, exists r s', exec_lifecycle answer live pid s op = Ret (r, s')) /\
  exists deps, registered answer live master deps (fst s) /\
    (if pid =? master
     then lr_worker_process (fst s) = 0 /\ is_worker_phase (lr_phase (fst s)) = false /\
          master_log answer deps (snd s) (fst s)
     else worker_log answer pid deps (snd s) (fst s)).
Proof.
  intros (deps & Hok)%reachable_process. split.
  - intros op. destruct (exec_lifecycle_ok answer live master pid deps s op Hok) as (r & s' & _ & E & _). eauto.
  - exists deps. destruct Hok as [_ _ Hr Hlog]. split; [done|]. destruct (pid =? master); [|done].
    destruct Hlog as (H1 & _ & H2 & H3). done.
Qed.

(** Two dependencies, the second of which fails its preflight: the first is cleaned up. *)
Definition second_fails (_ : list HookCall) (c : HookCall) : Result unit :=
  match c with CallPreflight id_zstd => Err (core_error io "zstd") | _ => Ok tt end.
Definition idle (_ : list HookCall) (_ : DependencyId) : DependencyLiveState := MkDependencyLiveState 0 0 0 0.
Definition lifecycle_run (s : outcome (Result unit * LifecycleState)) (op : LifecycleOp) :
    outcome (Result unit * LifecycleState) :=
  '(_, s) ← s; exec_lifecycle second_fails idle 41 s op.
Definition failed_preflight : outcome (Result unit * LifecycleState) :=
  foldl lifecycle_run (Ret (Ok tt, (DependencyLifecycleRegistry_construct 41, [])))
    [LRegister id_brotli; LRegister id_zstd; LPreflight].

Lemma lifecycle_run_reachable s op r s' :
  (forall r0 s0, s = Ret (r0, s0) -> lifecycle_reachable second_fails idle 41 41 s0) ->
  lifecycle_run s op = Ret (r, s') -> lifecycle_reachable second_fails idle 41 41 s'.
Proof.
  intros Hs H. unfold lifecycle_run in H. inv_bind H. destruct a as [r0 s0].
  eapply lc_step; [by eapply Hs|exact H].
Qed.

Lemma lifecycle_hooks_paired_witness :
  exists r s, failed_preflight = Ret (r, s) /\
    snd s = [CallPreflight id_brotli; CallPreflight id_zstd; CallMasterCleanup id_brotli] /\
    exists deps, registered second_fails idle 41 deps (fst s).
Proof.
  assert (Hlog : match failed_preflight with Ret (_, s) => Some (snd s) | Stop _ => None end =
    Some [CallPreflight id_brotli; CallPreflight id_zstd; CallMasterCleanup id_brotli])
    by (vm_compute; reflexivity).
  destruct failed_preflight as [[r s]|] eqn:E; [|discriminate Hlog]. injection Hlog as Hlog.
  exists r, s. split; [reflexivity|]. split; [exact Hlog|].
  destruct (lifecycle_hooks_paired second_fails idle 41 41 s) as (_ & deps & H & _); [|exists deps; exact H].
  unfold failed_preflight in E. cbn [foldl] in E.
  do 3 (eapply lifecycle_run_reachable; [|eassumption]; clear; intros r s E).
  injection E as <- <-. apply lc_start. discriminate.
Defined.
