(* ===== verification/Dependencies.v ===== *)
(** * Dependency errors and their log records

    Models [src/adapters/dependency.cpp] and its headers: the normalisation of what a native
    library reports into an [Error] whose text is built from enumerations only, the bounded
    log record, and the callback native libraries call.  The log sink is the caller's and acts
    on its own context. *)
From S2P Require Import Prelude Contract.
From Stdlib Require Import ZArith Lia String Ascii.
From stdpp Require Import base numbers list gmap option.

Set Default Goal Selector "!".
#[local] Open Scope Z_scope.

Inductive DependencyLogLevel := warning | error.

Definition component_capacity : nat := 24.
Definition message_capacity : nat := 96.

Record DependencyLogRecord := MkDependencyLogRecord {
  rec_level : DependencyLogLevel;
  rec_dependency : DependencyId;
  rec_operation : DependencyOperation;
  rec_status : DependencyStatus;
  rec_native_code : Z;
  rec_component_bytes : list ascii;
  rec_message_bytes : list ascii;
  rec_component_size : Z;
  rec_message_size : Z }.

Definition DependencyLogRecord_component (r : DependencyLogRecord) : list ascii :=
  take (Z.to_nat (rec_component_size r)) (rec_component_bytes r).
Definition DependencyLogRecord_message (r : DependencyLogRecord) : list ascii :=
  take (Z.to_nat (rec_message_size r)) (rec_message_bytes r).

Record DependencyLogSink (C : Type) := MkDependencyLogSink {
  sink_write : option (C -> DependencyLogRecord -> C) }.
Arguments MkDependencyLogSink {C}.
Arguments sink_write {C}.

Definition normalize_dependency_id (value : DependencyId) : DependencyId :=
  match value with
  | id_none | id_openssl | id_libressl | id_yyjson | id_nghttp2 | id_ngtcp2 | id_nghttp3
  | id_c_ares | id_pcre2_8bit | id_zlib_ng | id_brotli | id_zstd | id_libmaxminddb
  | id_libidn2 | id_libxcrypt | id_protobuf_c => value
  | id_unlisted _ => id_none
  end.

Definition normalize_dependency_operation (value : DependencyOperation) : DependencyOperation :=
  match value with
  | op_none | op_sha256 | op_hmac_sha256 | op_ed25519_private_key | op_ed25519_sign
  | op_ed25519_verify | op_spki_decode | op_idna_lookup | op_password_verify | op_json_parse
  | op_http2_session | op_http2_receive | op_http2_send | op_http2_submit | op_quic_session
  | op_quic_receive | op_quic_send | op_quic_stream | op_quic_expiry | op_http3_session
  | op_http3_receive | op_http3_send | op_http3_submit | op_dns_session | op_dns_query
  | op_regex_compile | op_regex_match | op_codec_initialize | op_codec_process | op_geoip_open
  | op_geoip_lookup => value
  | op_unlisted _ => op_none
  end.

Definition normalize_dependency_status (value : DependencyStatus) : DependencyStatus :=
  match value with
  | status_invalid_input | status_invalid_range | status_unavailable | status_exhaustion
  | status_unsupported_version | status_corrupt_data | status_checksum | status_crypto
  | status_io | status_unknown => value
  | status_unlisted _ => status_unknown
  end.

Definition dependency_name (value : DependencyId) : string :=
  match value with
  | id_none => "none"
  | id_openssl => "openssl"
  | id_libressl => "libressl"
  | id_yyjson => "yyjson"
  | id_nghttp2 => "nghttp2"
  | id_ngtcp2 => "ngtcp2"
  | id_nghttp3 => "nghttp3"
  | id_c_ares => "c_ares"
  | id_pcre2_8bit => "pcre2_8bit"
  | id_zlib_ng => "zlib_ng"
  | id_brotli => "brotli"
  | id_zstd => "zstd"
  | id_libmaxminddb => "libmaxminddb"
  | id_libidn2 => "libidn2"
  | id_libxcrypt => "libxcrypt"
  | id_protobuf_c => "protobuf_c"
  | id_unlisted _ => "none"
  end.

Definition operation_name (value : DependencyOperation) : string :=
  match value with
  | op_none => "none"
  | op_sha256 => "sha256"
  | op_hmac_sha256 => "hmac_sha256"
  | op_ed25519_private_key => "ed25519_private_key"
  | op_ed25519_sign => "ed25519_sign"
  | op_ed25519_verify => "ed25519_verify"
  | op_spki_decode => "spki_decode"
  | op_idna_lookup => "idna_lookup"
  | op_password_verify => "password_verify"
  | op_json_parse => "json_parse"
  | op_http2_session => "http2_session"
  | op_http2_receive => "http2_receive"
  | op_http2_send => "http2_send"
  | op_http2_submit => "http2_submit"
  | op_quic_session => "quic_session"
  | op_quic_receive => "quic_receive"
  | op_quic_send => "quic_send"
  | op_quic_stream => "quic_stream"
  | op_quic_expiry => "quic_expiry"
  | op_http3_session => "http3_session"
  | op_http3_receive => "http3_receive"
  | op_http3_send => "http3_send"
  | op_http3_submit => "http3_submit"
  | op_dns_session => "dns_session"
  | op_dns_query => "dns_query"
  | op_regex_compile => "regex_compile"
  | op_regex_match => "regex_match"
  | op_codec_initialize => "codec_initialize"
  | op_codec_process => "codec_process"
  | op_geoip_open => "geoip_open"
  | op_geoip_lookup => "geoip_lookup"
  | op_unlisted _ => "none"
  end.

Definition status_name (value : DependencyStatus) : string :=
  match value with
  | status_invalid_input => "invalid_input"
  | status_invalid_range => "invalid_range"
  | status_unavailable => "unavailable"
  | status_exhaustion => "exhaustion"
  | status_unsupported_version => "unsupported_version"
  | status_corrupt_data => "corrupt_data"
  | status_checksum => "checksum"
  | status_crypto => "crypto"
  | status_io => "io"
  | status_unknown => "unknown"
  | status_unlisted _ => "unknown"
  end.

(** An array of [Capacity] characters and the number in use. *)
Definition append_text (Capacity : nat) (output : list ascii) (size : Z) (value : list ascii) :
    list ascii * Z :=
  let remaining := u64 (Z.of_nat Capacity - size) in
  let copied := if Z.of_nat (length value) <? remaining then Z.of_nat (length value) else remaining in
  (list_inserts (Z.to_nat size) (take (Z.to_nat copied) value) output, u64 (size + copied)).

Definition append_string (Capacity : nat) (x : list ascii * Z) (value : string) : list ascii * Z :=
  append_text Capacity (fst x) (snd x) (list_ascii_of_string value).

Definition zeroed (Capacity : nat) : list ascii := replicate Capacity Ascii.zero.

Definition set_text (Capacity : nat) (output : list ascii) (value : list ascii) : list ascii * Z :=
  let '(output, copied) := append_text Capacity output 0 value in
  (output, cast uint8_t copied).

Definition log_level_for (e : Error) : DependencyLogLevel :=
  if bool_decide (retryability_ e = may_retry) && bool_decide (security_relevance_ e = ordinary)
  then warning else error.

Definition normalize_dependency_error (d : DependencyId) (operation : DependencyOperation)
    (status : DependencyStatus) (native_code : Z) : Error :=
  let normalized_dependency := normalize_dependency_id d in
  let normalized_operation := normalize_dependency_operation operation in
  let normalized_status := normalize_dependency_status status in
  let cap := diagnostic_context_capacity in
  let x := append_string cap (zeroed cap, 0) "dependency=" in
  let x := append_string cap x (dependency_name normalized_dependency) in
  let x := append_string cap x " operation=" in
  let x := append_string cap x (operation_name normalized_operation) in
  let x := append_string cap x " status=" in
  let '(diagnostic, diagnostic_size) := append_string cap x (status_name normalized_status) in
  from_dependency normalized_dependency normalized_operation normalized_status native_code
    (take (Z.to_nat diagnostic_size) diagnostic).

(** The record [log_dependency_error] passes to the sink. *)
Definition log_record (e : Error) : DependencyLogRecord :=
  let d := normalize_dependency_id (dependency_id_ e) in
  let operation := normalize_dependency_operation (dependency_operation_ e) in
  let status := normalize_dependency_status (dependency_status_ e) in
  let '(component_bytes, component_size) :=
    set_text component_capacity (zeroed component_capacity) (list_ascii_of_string (dependency_name d)) in
  let x := append_string message_capacity (zeroed message_capacity, 0) "operation=" in
  let x := append_string message_capacity x (operation_name operation) in
  let x := append_string message_capacity x " status=" in
  let '(message, message_size) := append_string message_capacity x (status_name status) in
  let '(message_bytes, message_bytes_size) :=
    set_text message_capacity (zeroed message_capacity) (take (Z.to_nat message_size) message) in
  MkDependencyLogRecord (log_level_for e) d operation status (native_code_ e)
    component_bytes message_bytes component_size message_bytes_size.

Definition log_dependency_error {C : Type} (sink : DependencyLogSink C) (c : C) (e : Error) : C :=
  match sink_write sink with
  | None => c
  | Some write =>
      if negb (bool_decide (domain_ e = domain_dependency)) then c else write c (log_record e)
  end.

Record DependencyCallbackState (C : Type) := MkDependencyCallbackState {
  cb_log_sink : DependencyLogSink C;
  cb_dependency : DependencyId;
  cb_operation : DependencyOperation;
  cb_status : DependencyStatus;
  cb_error : Error;
  cb_failed : bool }.
Arguments MkDependencyCallbackState {C}.
Arguments cb_log_sink {C}.
Arguments cb_dependency {C}.
Arguments cb_operation {C}.
Arguments cb_status {C}.
Arguments cb_error {C}.
Arguments cb_failed {C}.

Definition dependency_failure_callback {C : Type} (state : option (DependencyCallbackState C)) (c : C)
    (native_code : Z) : option (DependencyCallbackState C) * C :=
  match state with
  | None => (None, c)
  | Some s =>
      let e := normalize_dependency_error (cb_dependency s) (cb_operation s) (cb_status s) native_code in
      (Some (MkDependencyCallbackState (cb_log_sink s) (cb_dependency s) (cb_operation s) (cb_status s) e true),
       log_dependency_error (cb_log_sink s) c e)
  end.

(** ** Text buffers *)

(** An array holding [text] and zeros after it. *)
Definition holds (Capacity : nat) (x : list ascii * Z) (text : list ascii) : Prop :=
  (length text <= Capacity)%nat /\ x = (text ++ replicate (Capacity - length text) Ascii.zero, Z.of_nat (length text)).

Lemma zeroed_holds Capacity : holds Capacity (zeroed Capacity, 0) [].
Proof. split; [simpl; lia|]. simpl. by rewrite Nat.sub_0_r. Qed.

Lemma append_holds Capacity x text value :
  Z.of_nat Capacity <= 255 -> holds Capacity x text -> (length text + length value <= Capacity)%nat ->
  holds Capacity (append_text Capacity (fst x) (snd x) value) (text ++ value).
Proof.
  intros Hc [Hl ->] Hfit. unfold append_text. cbn [fst snd].
  rewrite u64_small by (unfold u64_max; lia).
  assert ((if Z.of_nat (length value) <? Z.of_nat Capacity - Z.of_nat (length text)
           then Z.of_nat (length value) else Z.of_nat Capacity - Z.of_nat (length text)) =
          Z.of_nat (length value)) as ->
    by (destruct (Z.ltb_spec (Z.of_nat (length value)) (Z.of_nat Capacity - Z.of_nat (length text))); lia).
  rewrite u64_small by (unfold u64_max; lia). rewrite !Nat2Z.id, take_ge by lia.
  split; [rewrite length_app; lia|]. f_equal; [|rewrite length_app; lia].
  rewrite length_app. replace (length text) with (length text + 0)%nat at 1 by lia.
  rewrite list_inserts_app_r. rewrite list_inserts_replicate by lia. rewrite <- app_assoc.
  do 3 f_equal. lia.
Qed.

Lemma append_string_holds Capacity x text value :
  Z.of_nat Capacity <= 255 -> holds Capacity x text ->
  (length text + length (list_ascii_of_string value) <= Capacity)%nat ->
  holds Capacity (append_string Capacity x value) (text ++ list_ascii_of_string value).
Proof. apply append_holds. Qed.

Lemma set_text_holds Capacity value :
  Z.of_nat Capacity <= 255 -> (length value <= Capacity)%nat ->
  holds Capacity (set_text Capacity (zeroed Capacity) value) value.
Proof.
  intros Hc Hl. unfold set_text.
  pose proof (append_holds Capacity (zeroed Capacity, 0) [] value Hc (zeroed_holds Capacity) Hl) as [Hle Heq].
  cbn [fst snd app] in Heq. rewrite Heq. split; [done|]. f_equal.
  apply cast_in_range; [unfold int_type_ok; simpl; lia|]. cbn. lia.
Qed.

Lemma holds_text Capacity x text :
  holds Capacity x text -> take (Z.to_nat (snd x)) (fst x) = text.
Proof. intros [_ ->]. cbn [fst snd]. rewrite Nat2Z.id. apply take_app_length. Qed.

(** The names are short enough for the records they go into. *)
Lemma dependency_name_length d : (length (list_ascii_of_string (dependency_name d)) <= 12)%nat.
Proof. destruct d; simpl; lia. Qed.
Lemma operation_name_length o : (length (list_ascii_of_string (operation_name o)) <= 19)%nat.
Proof. destruct o; simpl; lia. Qed.
Lemma status_name_length s : (length (list_ascii_of_string (status_name s)) <= 19)%nat.
Proof. destruct s; simpl; lia. Qed.

Lemma normalized_names d o s :
  dependency_name (normalize_dependency_id d) = dependency_name d /\
  operation_name (normalize_dependency_operation o) = operation_name o /\
  status_name (normalize_dependency_status s) = status_name s.
Proof. split; [by destruct d|]. split; [by destruct o|by destruct s]. Qed.

(** The texts of the diagnostic and of the log message. *)
Definition outcome_text (o : DependencyOperation) (s : DependencyStatus) : list ascii :=
  list_ascii_of_string "operation=" ++ list_ascii_of_string (operation_name o) ++
  list_ascii_of_string " status=" ++ list_ascii_of_string (status_name s).
Definition diagnostic_text (d : DependencyId) (o : DependencyOperation) (s : DependencyStatus) : list ascii :=
  list_ascii_of_string "dependency=" ++ list_ascii_of_string (dependency_name d) ++
  list_ascii_of_string " " ++ outcome_text o s.

(** Append one more piece of text to the buffer [H] speaks of. *)
Ltac append_piece H piece :=
  apply (append_string_holds _ _ _ piece) in H;
  [|unfold diagnostic_context_capacity, message_capacity; lia
   |rewrite ?length_app; unfold diagnostic_context_capacity, message_capacity; simpl; lia].

Lemma normalize_dependency_error_eq d o s native :
  normalize_dependency_error d o s native =
    from_dependency (normalize_dependency_id d) (normalize_dependency_operation o)
      (normalize_dependency_status s) native (diagnostic_text d o s).
Proof.
  unfold normalize_dependency_error. destruct (normalized_names d o s) as (-> & -> & ->).
  pose proof (dependency_name_length d). pose proof (operation_name_length o).
  pose proof (status_name_length s). pose proof (zeroed_holds diagnostic_context_capacity) as H2.
  append_piece H2 "dependency="%string. append_piece H2 (dependency_name d).
  append_piece H2 " operation="%string. append_piece H2 (operation_name o).
  append_piece H2 " status="%string. append_piece H2 (status_name s).
  apply holds_text in H2. destruct (append_string _ _ (status_name s)) as [text size].
  cbn [fst snd] in H2. rewrite H2. f_equal. unfold diagnostic_text, outcome_text. by rewrite <- !app_assoc.
Qed.

Lemma log_record_text e :
  DependencyLogRecord_component (log_record e) = list_ascii_of_string (dependency_name (dependency_id_ e)) /\
  DependencyLogRecord_message (log_record e) = outcome_text (dependency_operation_ e) (dependency_status_ e).
Proof.
  unfold log_record.
  destruct (normalized_names (dependency_id_ e) (dependency_operation_ e) (dependency_status_ e)) as (-> & -> & ->).
  pose proof (dependency_name_length (dependency_id_ e)).
  pose proof (operation_name_length (dependency_operation_ e)).
  pose proof (status_name_length (dependency_status_ e)).
  pose proof (set_text_holds component_capacity (list_ascii_of_string (dependency_name (dependency_id_ e)))) as Hc.
  destruct (set_text component_capacity _ _) as [component component_size].
  apply holds_text in Hc; [|unfold component_capacity; lia..].
  pose proof (zeroed_holds message_capacity) as Hm.
  append_piece Hm "operation="%string. append_piece Hm (operation_name (dependency_operation_ e)).
  append_piece Hm " status="%string. append_piece Hm (status_name (dependency_status_ e)).
  apply holds_text in Hm. destruct (append_string message_capacity _ (status_name _)) as [message size].
  cbn [fst snd] in Hm. rewrite Hm.
  match goal with |- context [set_text message_capacity _ ?v] =>
    pose proof (set_text_holds message_capacity v) as Ht end.
  destruct (set_text message_capacity _ _) as [bytes bytes_size].
  apply holds_text in Ht; [|unfold message_capacity; lia
    |rewrite !length_app; unfold message_capacity; simpl; lia].
  split; [exact Hc|]. unfold DependencyLogRecord_message. cbn [rec_message_size rec_message_bytes fst snd] in *.
  rewrite Ht. unfold outcome_text. by rewrite <- !app_assoc.
Qed.

(** ** Property *)

(** A dependency failure becomes an error that names a known dependency, operation and
    status, keeps the native code, and whose diagnostic is exactly the text built from those
    names, never truncated; the log record shows the same names in full, is written once and
    only for dependency errors with a sink, and the native callback stores exactly this error. *)
Theorem dependency_failure_reported {C : Type} (s : DependencyCallbackState C) (c : C) (native : Z) :
  let e := normalize_dependency_error (cb_dependency s) (cb_operation s) (cb_status s) native in
  diagnostic_context e = diagnostic_text (cb_dependency s) (cb_operation s) (cb_status s) /\
  diagnostic_truncated_ e = false /\ domain_ e = domain_dependency /\ native_code_ e = native /\
  is_known_dependency_id (dependency_id_ e) = true /\
  code_ e = normalize_dependency (cb_status s) /\
  DependencyLogRecord_component (log_record e) = list_ascii_of_string (dependency_name (cb_dependency s)) /\
  DependencyLogRecord_message (log_record e) = outcome_text (cb_operation s) (cb_status s) /\
  dependency_failure_callback (Some s) c native =
    (Some (MkDependencyCallbackState (cb_log_sink s) (cb_dependency s) (cb_operation s) (cb_status s) e true),
     match sink_write (cb_log_sink s) with Some write => write c (log_record e) | None => c end) /\
  dependency_failure_callback None c native = (None, c) /\
  (forall other, domain_ other <> domain_dependency -> log_dependency_error (cb_log_sink s) c other = c).
Proof.
  cbv zeta. rewrite normalize_dependency_error_eq.
  set (d := cb_dependency s). set (o := cb_operation s). set (st := cb_status s).
  pose proof (dependency_name_length d). pose proof (operation_name_length o). pose proof (status_name_length st).
  assert (Hlen : (length (diagnostic_text d o st) <= diagnostic_context_capacity)%nat).
  { unfold diagnostic_text, outcome_text. rewrite !length_app. unfold diagnostic_context_capacity. simpl. lia. }
  pose proof (set_diagnostic_context_eq (diagnostic_text d o st)) as Hctx.
  destruct (normalized_names d o st) as (Hd & Ho & Hs).
  set (e := from_dependency _ _ _ _ _).
  destruct (log_record_text e) as [Hcomp Hmsg].
  assert (He : diagnostic_context e = diagnostic_text d o st /\ diagnostic_truncated_ e = false).
  { unfold e, from_dependency, make_error, diagnostic_context. rewrite Hctx.
    cbn [diagnostic_context_ diagnostic_context_length_ diagnostic_truncated_].
    rewrite Nat2Z.id, Nat.min_l by exact Hlen. rewrite (take_ge (diagnostic_text d o st)) by exact Hlen.
    rewrite take_app_length. split; [done|]. by apply Nat.ltb_ge. }
  destruct He as [He1 He2]. split; [done|]. split; [done|].
  assert (Hfields : domain_ e = domain_dependency /\ native_code_ e = native /\
    dependency_id_ e = normalize_dependency_id d /\ dependency_operation_ e = normalize_dependency_operation o /\
    dependency_status_ e = normalize_dependency_status st /\
    code_ e = normalize_dependency (normalize_dependency_status st)).
  { unfold e, from_dependency, make_error. rewrite Hctx. done. }
  destruct Hfields as (F1 & F2 & F3 & F4 & F5 & F6).
  split; [done|]. split; [done|]. split; [rewrite F3; by destruct d|].
  split; [rewrite F6; by destruct st|]. split; [by rewrite Hcomp, F3, Hd|].
  split; [rewrite Hmsg, F4, F5; unfold outcome_text; by rewrite Ho, Hs|].
  split; [|split; [done|]].
  - unfold dependency_failure_callback, log_dependency_error. rewrite normalize_dependency_error_eq.
    fold d o st. fold e. rewrite F1. by destruct (sink_write (cb_log_sink s)).
  - intros other Hne. unfold log_dependency_error. destruct (sink_write (cb_log_sink s)); [|done].
    by rewrite bool_decide_false.
Qed.
