(* ===== verification/NativeMemory.v ===== *)
(** * The memory pool of native libraries

    Models [src/adapters/contract/laghu/adapters/native_memory.hpp] and
    [src/adapters/private/laghu/adapters/internal/arena_memory.hpp]: the allocation functions
    that native libraries are given, over a bounded arena and a free list of the blocks they
    gave back.  The header in front of each block is an object of its own, found by its
    address; the bytes behind it are those of the arena's storage, in the [Memory] the block
    source acts on.  Reading a header where there is none is undefined. *)
From S2P Require Import Prelude Contract CheckedArithmetic Identifiers MemoryBudget BudgetInvariant.
From S2P Require Import Views BinaryEnvelope BlockSource BoundedArena.
From Stdlib Require Import ZArith Lia.
From stdpp Require Import base numbers list gmap option.

Set Default Goal Selector "!".
#[local] Open Scope Z_scope.

#[export] Instance pointer_countable : Countable pointer.
Proof.
  refine (inj_countable' (fun p => (ptr_block p, ptr_offset p)) (fun x => MkPointer x.1 x.2) _).
  by intros [].
Defined.

Record ArenaAllocation := MkArenaAllocation {
  aa_capacity : Z; aa_used : Z; aa_next : option pointer }.

(** Three words, aligned to [alignof(std::max_align_t)]. *)
Definition sizeof_ArenaAllocation : Z := 32.
Definition alignof_max_align_t : Z := 16.

Abbreviation Headers := (gmap pointer ArenaAllocation).

Record NativeMemoryPool := MkNativeMemoryPool {
  np_worker : WorkerId; np_generation : Z; np_free_list : option pointer }.

(** What the functions act on: the pool, the arena it refers to, the budgets, the context of
    the block source with the memory, and the headers. *)
Record PoolState (C : Type) := MkPoolState {
  ps_pool : NativeMemoryPool;
  ps_arena : BoundedArena (C * Memory);
  ps_heap : Heap;
  ps_context : C * Memory;
  ps_headers : Headers }.
Arguments MkPoolState {C}.
Arguments ps_pool {C}.
Arguments ps_arena {C}.
Arguments ps_heap {C}.
Arguments ps_context {C}.
Arguments ps_headers {C}.

Section pool.
Context {C : Type}.
Implicit Types (s : PoolState C).

Definition ps_memory s : Memory := snd (ps_context s).
Definition set_pool_list s (free_list : option pointer) (headers : Headers) : PoolState C :=
  MkPoolState (MkNativeMemoryPool (np_worker (ps_pool s)) (np_generation (ps_pool s)) free_list)
    (ps_arena s) (ps_heap s) (ps_context s) headers.
Definition set_headers s (headers : Headers) : PoolState C :=
  MkPoolState (ps_pool s) (ps_arena s) (ps_heap s) (ps_context s) headers.
Definition set_memory s (m : Memory) : PoolState C :=
  MkPoolState (ps_pool s) (ps_arena s) (ps_heap s) (fst (ps_context s), m) (ps_headers s).

Definition NativeMemoryPool_construct (worker : WorkerId) (arena : BoundedArena (C * Memory)) :
    NativeMemoryPool :=
  MkNativeMemoryPool worker (ba_generation arena) None.

Definition synchronize s : PoolState C :=
  if negb (np_generation (ps_pool s) =? ba_generation (ps_arena s)) then
    MkPoolState (MkNativeMemoryPool (np_worker (ps_pool s)) (ba_generation (ps_arena s)) None)
      (ps_arena s) (ps_heap s) (ps_context s) (ps_headers s)
  else s.

Definition header (headers : Headers) (a : pointer) : outcome ArenaAllocation :=
  match headers !! a with Some x => Ret x | None => Stop Undefined end.

(** [pointer + 1] and [pointer - 1] on [ArenaAllocation*]. *)
Definition payload_of (a : pointer) : pointer := ptr_add a sizeof_ArenaAllocation.
Definition header_of (p : pointer) : pointer := ptr_add p (- sizeof_ArenaAllocation).

(** The search of [arena_malloc]: the last block passed over and the first that is large
    enough. *)
Fixpoint first_fit (fuel : nat) (headers : Headers) (size : Z) (previous allocation : option pointer) :
    outcome (option pointer * option pointer) :=
  match allocation with
  | None => Ret (previous, None)
  | Some a =>
      x ← header headers a;
      if aa_capacity x <? size then
        match fuel with
        | O => Stop OutOfFuel
        | S fuel' => first_fit fuel' headers size (Some a) (aa_next x)
        end
      else Ret (previous, Some a)
  end.

(** Taking a block out of the free list. *)
Definition unlink s (size : Z) (previous : option pointer) (a : pointer) : outcome (PoolState C) :=
  x ← header (ps_headers s) a;
  s ← (match previous with
       | None => Ret (set_pool_list s (aa_next x) (ps_headers s))
       | Some b =>
           y ← header (ps_headers s) b;
           Ret (set_headers s (<[b := MkArenaAllocation (aa_capacity y) (aa_used y) (aa_next x)]> (ps_headers s)))
       end);
  Ret (set_headers s (<[a := MkArenaAllocation (aa_capacity x) size None]> (ps_headers s))).

(** A new block from the arena, with its header in front. *)
Definition allocate_block s (size : Z) : outcome (option pointer * PoolState C) :=
  if u64 (size_max - sizeof_ArenaAllocation) <? size then Ret (None, s) else
  '(arena_allocation, (arena, h, c)) ←
    BoundedArena_try_allocate (ps_arena s) (ps_heap s) (ps_context s) (np_worker (ps_pool s))
      (u64 (sizeof_ArenaAllocation + size)) alignof_max_align_t;
  let s := MkPoolState (ps_pool s) arena h c (ps_headers s) in
  match arena_allocation with
  | Err _ => Ret (None, s)
  | Ok view =>
      match ArenaView_bytes view arena with
      | Err _ => Ret (None, s)
      | Ok bytes =>
          match span_data bytes with
          | None => Stop Undefined
          | Some a =>
              Ret (Some (payload_of a),
                   set_headers s (<[a := MkArenaAllocation size size None]> (ps_headers s)))
          end
      end
  end.

Definition arena_malloc s (requested : Z) : outcome (option pointer * PoolState C) :=
  let s := synchronize s in
  let size := if requested =? 0 then 1 else requested in
  '(previous, allocation) ←
    first_fit (base.size (ps_headers s)) (ps_headers s) size None (np_free_list (ps_pool s));
  match allocation with
  | Some a => s ← unlink s size previous a; Ret (Some (payload_of a), s)
  | None => allocate_block s size
  end.

Definition arena_free s (address : option pointer) : outcome (PoolState C) :=
  match address with
  | None => Ret s
  | Some p =>
      let s := synchronize s in
      let allocation := header_of p in
      x ← header (ps_headers s) allocation;
      Ret (set_pool_list s (Some allocation)
             (<[allocation := MkArenaAllocation (aa_capacity x) (aa_used x) (np_free_list (ps_pool s))]>
                (ps_headers s)))
  end.

Definition arena_calloc s (count size : Z) : outcome (option pointer * PoolState C) :=
  if negb (count =? 0) && (size_max / count <? size) then Ret (None, s) else
  let total := u64 (count * size) in
  '(result, s) ← arena_malloc s total;
  match result with
  | None => Ret (None, s)
  | Some p =>
      m ← store_bytes (ps_memory s) p (replicate (Z.to_nat total) 0);
      Ret (Some p, set_memory s m)
  end.

(** [std::memcpy] of distinct blocks. *)
Definition memcpy (m : Memory) (to from : pointer) (n : Z) : outcome Memory :=
  match span_bytes m (MkSpan (Some from) n) with
  | None => Stop Undefined
  | Some bytes => store_bytes m to bytes
  end.

Definition arena_realloc s (address : option pointer) (size : Z) : outcome (option pointer * PoolState C) :=
  match address with
  | None => arena_malloc s size
  | Some p =>
      if size =? 0 then s ← arena_free s (Some p); Ret (None, s) else
      let old := header_of p in
      x ← header (ps_headers s) old;
      if size <=? aa_capacity x then
        Ret (Some p, set_headers s (<[old := MkArenaAllocation (aa_capacity x) size (aa_next x)]> (ps_headers s)))
      else
      '(result, s) ← arena_malloc s size;
      match result with
      | None => Ret (None, s)
      | Some q =>
          x ← header (ps_headers s) old;
          m ← memcpy (ps_memory s) q p (if aa_used x <? size then aa_used x else size);
          s ← arena_free (set_memory s m) (Some p);
          Ret (Some q, s)
      end
  end.
End pool.
