(* ===== verification/NativeSpec.v ===== *)
(** * The native memory pool is a heap of disjoint blocks

    The abstract state is a finite map from the addresses handed out to the bytes behind
    them.  [pool_inv] relates it to the pool: the headers of the live and of the freed blocks
    lie side by side in the arena's storage, the free list threads the freed ones, and the
    bytes in memory are those of the map.  Every allocation function is shown to step from
    map to map, across resets of the arena. *)
From S2P Require Import Prelude Contract CheckedArithmetic Identifiers MemoryBudget BudgetInvariant.
From S2P Require Import MemoryBudgetSpec BudgetClient Views BinaryEnvelope BlockSource.
From S2P Require Import BoundedBuffer BufferSpec IoSlices BoundedArena ArenaSpec NativeMemory.
From Stdlib Require Import ZArith Lia.
From stdpp Require Import base numbers list gmap option.

Set Default Goal Selector "!".
#[local] Open Scope Z_scope.

(** ** Addresses *)
Lemma payload_header p : payload_of (header_of p) = p.
Proof. destruct p. unfold payload_of, header_of, ptr_add. simpl. f_equal. lia. Qed.

Lemma header_payload a : header_of (payload_of a) = a.
Proof. destruct a. unfold payload_of, header_of, ptr_add. simpl. f_equal. lia. Qed.

#[export] Instance payload_of_inj : Inj (=) (=) payload_of.
Proof. intros a b E. by rewrite <- (header_payload a), E, header_payload. Qed.

(** ** The free list *)
Fixpoint free_list_chain (headers : Headers) (current : option pointer) (free : list pointer) : Prop :=
  match free with
  | [] => current = None
  | a :: rest => current = Some a /\ exists next, aa_next <$> headers !! a = Some next /\
                   free_list_chain headers next rest
  end.

Lemma free_list_chain_agree headers headers' current free :
  (forall a, a ∈ free -> aa_next <$> headers' !! a = aa_next <$> headers !! a) ->
  free_list_chain headers current free -> free_list_chain headers' current free.
Proof.
  revert current. induction free as [|a free IH]; intros current Ha; simpl; [done|].
  intros (-> & next & Hn & Hc). split; [done|]. exists next.
  rewrite Ha by (apply elem_of_cons; auto). split; [done|]. apply IH; [|done].
  intros b Hb. apply Ha, elem_of_cons. auto.
Qed.

(** Taking [a] out of the chain: its predecessor, or the head, takes over its link. *)
Lemma free_list_chain_unlink headers current l1 a x l2 :
  free_list_chain headers current (l1 ++ a :: l2) -> NoDup (l1 ++ a :: l2) ->
  headers !! a = Some x ->
  match list.last l1 with
  | None => current = Some a /\ free_list_chain headers (aa_next x) l2
  | Some b => exists y, headers !! b = Some y /\
      free_list_chain (<[b := MkArenaAllocation (aa_capacity y) (aa_used y) (aa_next x)]> headers)
        current (l1 ++ l2)
  end.
Proof.
  revert current. induction l1 as [|c l1 IH]; intros current Hc Hnd Hx; simpl in *.
  { destruct Hc as (-> & next & Hn & Hc). rewrite Hx in Hn. simpl in Hn. by injection Hn as <-. }
  destruct Hc as (-> & next & Hn & Hc). apply list.NoDup_cons in Hnd as [Hnin Hnd].
  specialize (IH next Hc Hnd Hx). destruct (headers !! c) as [z|] eqn:Hz; [|done].
  simpl in Hn. injection Hn as Hn.
  destruct l1 as [|d l1].
  - simpl in IH. destruct IH as [-> IH]. exists z. split; [done|]. split; [done|]. exists (aa_next x).
    rewrite lookup_insert_eq. split; [done|]. eapply free_list_chain_agree; [|exact IH].
    intros b Hb. rewrite lookup_insert_ne; [done|]. intros ->. apply Hnin, elem_of_cons. auto.
  - destruct (list.last (d :: l1)) as [b|] eqn:Hl; [|by apply list.last_None in Hl].
    change (list.last (c :: d :: l1)) with (list.last (d :: l1)). rewrite Hl.
    destruct IH as (y & Hy & IH). exists y. split; [done|]. split; [done|].
    assert (c <> b) as Hcb.
    { intros ->. apply Hnin. apply elem_of_app. left. apply (list.last_Some_elem_of (d :: l1)). exact Hl. }
    exists next. rewrite lookup_insert_ne by done. rewrite Hz. simpl.
    by rewrite Hn.
Qed.

(** The search finds the first block that is large enough. *)
Definition too_small (headers : Headers) (size : Z) (a : pointer) : Prop :=
  exists x, headers !! a = Some x /\ aa_capacity x < size.

Lemma first_fit_run headers size previous current free fuel :
  free_list_chain headers current free -> (length free <= fuel)%nat ->
  exists r, first_fit fuel headers size previous current = Ret r /\
    ((exists l1 a x l2, free = l1 ++ a :: l2 /\ Forall (too_small headers size) l1 /\
        headers !! a = Some x /\ size <= aa_capacity x /\
        r = (match list.last l1 with Some b => Some b | None => previous end, Some a)) \/
     (snd r = None /\ Forall (too_small headers size) free)).
Proof.
  revert previous current fuel. induction free as [|a free IH]; intros previous current fuel Hc Hf; simpl in Hc.
  { subst. destruct fuel; eexists; (split; [done|]); by right. }
  destruct Hc as (-> & next & Hn & Hc). destruct (headers !! a) as [x|] eqn:Hx; [|done].
  injection Hn as <-. simpl in Hf. destruct fuel as [|fuel]; [lia|]. simpl.
  unfold header. rewrite Hx. cbn [mbind outcome_bind].
  destruct (Z.ltb_spec (aa_capacity x) size) as [Hlt|Hge].
  - assert (Hs : too_small headers size a) by (exists x; done).
    destruct (IH (Some a) (aa_next x) fuel Hc ltac:(lia)) as (r & -> & Hr). exists r. split; [done|].
    destruct Hr as [(l1 & b & y & l2 & -> & Hl1 & Hy & Hsize & ->)|[Hnone Hall]].
    + left. exists (a :: l1), b, y, l2. split; [done|]. split; [by constructor|]. split; [done|].
      split; [done|]. f_equal. destruct l1 as [|d l1]; [done|].
      change (list.last (a :: d :: l1)) with (list.last (d :: l1)).
      destruct (list.last (d :: l1)) eqn:Hl; [done|by apply list.last_None in Hl].
    + right. split; [done|]. by constructor.
  - eexists. split; [done|]. left. exists [], a, x, free. done.
Qed.

(** ** Blocks side by side in the storage *)
Record layout (storage : span) (offset : Z) (capacities : gmap pointer Z) : Prop := {
  lay_place : forall a k, capacities !! a = Some k -> 1 <= k /\
    exists base start, span_data storage = Some base /\ a = ptr_add base start /\ 0 <= start /\
      start mod alignof_max_align_t = 0 /\ start + sizeof_ArenaAllocation + k <= offset;
  lay_apart : forall a b k l, capacities !! a = Some k -> capacities !! b = Some l -> a <> b ->
    ptr_offset a + sizeof_ArenaAllocation + k <= ptr_offset b \/
    ptr_offset b + sizeof_ArenaAllocation + l <= ptr_offset a }.

Lemma layout_empty storage offset : layout storage offset ∅.
Proof. split; intros *; by rewrite lookup_empty. Qed.

(** A block behind all the others. *)
Lemma layout_insert storage offset offset' capacities base start k :
  layout storage offset capacities -> span_data storage = Some base ->
  0 <= offset <= start -> start mod alignof_max_align_t = 0 -> 1 <= k ->
  start + sizeof_ArenaAllocation + k <= offset' ->
  capacities !! ptr_add base start = None /\
  layout storage offset' (<[ptr_add base start := k]> capacities).
Proof.
  unfold sizeof_ArenaAllocation. intros [Hp Ha] Hbase Hstart Hmod Hk Hfit.
  assert (Hbehind : forall b l, capacities !! b = Some l -> ptr_offset b + 32 + l <= ptr_offset (ptr_add base start)).
  { intros b l Hb. destruct (Hp b l Hb) as (Hl & base' & s & Hbase' & -> & Hs & _ & Hend).
    assert (base' = base) as -> by congruence. simpl. unfold sizeof_ArenaAllocation in *. lia. }
  split.
  { destruct (capacities !! ptr_add base start) as [l|] eqn:E; [|done]. specialize (Hbehind _ _ E).
    destruct (Hp _ _ E). lia. }
  split.
  - intros a l. destruct (decide (ptr_add base start = a)) as [<-|Hne].
    + rewrite lookup_insert_eq. intros [= <-]. split; [done|]. exists base, start.
      split_and!; try done; lia.
    + rewrite lookup_insert_ne by done. intros Hl. destruct (Hp a l Hl) as (H1 & base' & s & H2 & H3 & H4 & H5 & H6).
      split; [done|]. exists base', s. split_and!; try done. unfold sizeof_ArenaAllocation in *. lia.
  - intros a b l l' Hl Hl' Hab. unfold sizeof_ArenaAllocation.
    destruct (decide (ptr_add base start = a)) as [<-|Hna].
    { rewrite lookup_insert_ne in Hl' by done. right. by apply Hbehind. }
    rewrite lookup_insert_ne in Hl by done.
    destruct (decide (ptr_add base start = b)) as [<-|Hnb]; [left; by apply Hbehind|].
    rewrite lookup_insert_ne in Hl' by done. by apply Ha.
Qed.

(** ** The invariant *)
(** What the pool relies on of the block source below its arena: a block it hands out is in
    memory, and a reset it refuses changes none. *)
Class PoolSource {C : Type} (acquire : C * Memory -> Z -> Result MutableByteView * (C * Memory))
    (reset : C * Memory -> Result unit * (C * Memory)) : Prop := {
  acquire_located c n v c' : acquire c n = (Ok v, c') -> exists p l, located (snd c') v p l;
  reset_refused c e c' : reset c = (Err e, c') -> snd c' = snd c }.

Section native_spec.
Context {C : Type} {acquire : C * Memory -> Z -> Result MutableByteView * (C * Memory)}.
Context {reset : C * Memory -> Result unit * (C * Memory)} `{!PoolSource acquire reset}.
Implicit Types (s : PoolState C) (live : gmap pointer (list Z)) (free : list pointer).

Lemma acquire_view c n v c' : acquire c n = (Ok v, c') -> view_ok v.
Proof.
  intros E. destruct (acquire_located _ _ _ _ E) as (p & l & [Hd _ _ Hs _]).
  split; [done|]. by rewrite Hd.
Qed.

Definition capacities s : gmap pointer Z := aa_capacity <$> ps_headers s.

Record pool_inv s live free : Prop := {
  pi_arena : arena_inv acquire reset (ps_arena s) (ps_heap s);
  pi_worker : value_ (np_worker (ps_pool s)) = value_ (ba_worker (ps_arena s));
  pi_generation : np_generation (ps_pool s) <= ba_generation (ps_arena s);
  pi_layout : layout (ba_storage (ps_arena s)) (ba_offset (ps_arena s)) (capacities s);
  pi_memory : ba_capacity (ps_arena s) <> 0 ->
    exists base l, located (ps_memory s) (ba_storage (ps_arena s)) base l;
  pi_chain : free_list_chain (ps_headers s) (np_free_list (ps_pool (synchronize s))) free;
  pi_nodup : NoDup free;
  pi_split : forall a, is_Some (ps_headers s !! a) <-> a ∈ free \/ is_Some (live !! payload_of a);
  pi_disjoint : forall a, a ∈ free -> live !! payload_of a = None;
  pi_contents : forall a bytes, live !! payload_of a = Some bytes ->
    exists x, ps_headers s !! a = Some x /\ 1 <= aa_used x <= aa_capacity x /\
      span_bytes (ps_memory s) (MkSpan (Some (payload_of a)) (aa_used x)) = Some bytes }.

Lemma synchronize_id s :
  np_generation (ps_pool s) = ba_generation (ps_arena s) -> synchronize s = s.
Proof. intros E. unfold synchronize. by rewrite E, Z.eqb_refl. Qed.

Lemma synchronize_fields s :
  ps_arena (synchronize s) = ps_arena s /\ ps_heap (synchronize s) = ps_heap s /\
  ps_context (synchronize s) = ps_context s /\ ps_headers (synchronize s) = ps_headers s /\
  np_worker (ps_pool (synchronize s)) = np_worker (ps_pool s) /\
  np_generation (ps_pool (synchronize s)) = ba_generation (ps_arena s).
Proof.
  unfold synchronize. destruct (Z.eqb_spec (np_generation (ps_pool s)) (ba_generation (ps_arena s))); done.
Qed.

(** What a pool is after [synchronize]: the free list is that of the current generation. *)
Definition synchronized s : Prop := np_generation (ps_pool s) = ba_generation (ps_arena s).

Lemma synchronize_inv s live free :
  pool_inv s live free -> pool_inv (synchronize s) live free /\ synchronized (synchronize s).
Proof.
  intros [H1 H2 H3 H4 H5 H6 H7 H8 H9 H10].
  destruct (synchronize_fields s) as (E1 & E2 & E3 & E4 & E5 & E6).
  assert (Hs : synchronized (synchronize s)) by (unfold synchronized; congruence).
  split; [|done]. split; unfold ps_memory, capacities in *;
    rewrite ?(synchronize_id (synchronize s) Hs), ?E1, ?E2, ?E3, ?E4, ?E5, ?E6; done.
Qed.

Lemma capacities_lookup s a k :
  capacities s !! a = Some k <-> exists x, ps_headers s !! a = Some x /\ aa_capacity x = k.
Proof.
  unfold capacities. rewrite lookup_fmap. destruct (ps_headers s !! a) as [x|]; simpl.
  - split; [intros [= <-]; eauto|]. intros (y & [= <-] & <-). done.
  - split; [done|]. by intros (y & ? & _).
Qed.

Lemma capacities_is_Some s a : is_Some (capacities s !! a) <-> is_Some (ps_headers s !! a).
Proof. unfold capacities. by rewrite lookup_fmap, fmap_is_Some. Qed.

(** Changing links and used sizes of headers. *)
Lemma capacities_insert s a x y :
  ps_headers s !! a = Some x -> aa_capacity y = aa_capacity x ->
  aa_capacity <$> <[a := y]> (ps_headers s) = capacities s.
Proof.
  intros Hx Hy. rewrite fmap_insert, Hy. apply insert_id. apply capacities_lookup. eauto.
Qed.

(** The bytes behind a header. *)
Lemma storage_block_located m storage base l start n :
  located m storage base l -> 0 <= start -> 0 <= n -> start + sizeof_ArenaAllocation + n <= span_size storage ->
  located m (MkSpan (Some (payload_of (ptr_add base start))) n) (payload_of (ptr_add base start)) l.
Proof.
  unfold sizeof_ArenaAllocation. intros Hloc Hs Hn Hfit.
  pose proof (located_subspan _ _ _ _ (start + 32) n Hloc ltac:(lia) ltac:(lia) ltac:(lia)) as H.
  unfold subspan in H. rewrite (loc_data _ _ _ _ Hloc) in H. simpl in H.
  unfold payload_of, sizeof_ArenaAllocation.
  replace (ptr_add (ptr_add base start) 32) with (ptr_add base (start + 32)); [done|].
  unfold ptr_add. simpl. f_equal. lia.
Qed.

Lemma block_located s live free a k n :
  pool_inv s live free -> capacities s !! a = Some k -> 0 <= n <= k ->
  exists l, located (ps_memory s) (MkSpan (Some (payload_of a)) n) (payload_of a) l.
Proof.
  intros HI Ha Hn. destruct (lay_place _ _ _ (pi_layout _ _ _ HI) a k Ha)
    as (Hk & base & start & Hbase & -> & Hstart & _ & Hend).
  destruct (pi_arena _ _ _ HI) as [_ _ _ Ho Hst _]. unfold sizeof_ArenaAllocation in Hend.
  rewrite decide_False in Hst by lia. destruct Hst as (_ & Hmax & _).
  destruct (pi_memory _ _ _ HI) as (base' & l & Hloc); [lia|].
  assert (base' = base) as -> by (destruct Hloc; congruence). exists l.
  apply (storage_block_located _ _ _ _ start n Hloc); unfold sizeof_ArenaAllocation; lia.
Qed.

Lemma block_bytes s live free a k n :
  pool_inv s live free -> capacities s !! a = Some k -> 0 <= n <= k ->
  exists bytes, span_bytes (ps_memory s) (MkSpan (Some (payload_of a)) n) = Some bytes /\
    Z.of_nat (length bytes) = n.
Proof.
  intros HI Ha Hn. destruct (block_located _ _ _ _ _ _ HI Ha Hn) as [l Hl].
  pose proof (located_bytes _ _ _ _ Hl) as Hb. eexists. split; [exact Hb|].
  eapply (span_bytes_length _ (MkSpan (Some (payload_of a)) n)); [simpl; lia|exact Hb].
Qed.

Lemma live_header s live free p bytes :
  pool_inv s live free -> live !! p = Some bytes ->
  exists x, ps_headers s !! header_of p = Some x /\ 1 <= aa_used x <= aa_capacity x /\
    aa_used x = Z.of_nat (length bytes) /\
    span_bytes (ps_memory s) (MkSpan (Some p) (aa_used x)) = Some bytes.
Proof.
  intros HI Hp. rewrite <- (payload_header p) in Hp.
  destruct (pi_contents _ _ _ HI _ _ Hp) as (x & Hx & Hu & Hb). rewrite payload_header in Hb.
  exists x. split; [done|]. split; [done|]. split; [|done]. symmetry.
  eapply (span_bytes_length _ (MkSpan (Some p) (aa_used x))); [simpl; lia|exact Hb].
Qed.

(** A step that changes headers and the free list only. *)
Lemma pool_inv_headers_any s s' live live' free free' :
  pool_inv s live free -> np_generation (ps_pool s') <= ba_generation (ps_arena s) ->
  ps_arena s' = ps_arena s -> ps_heap s' = ps_heap s ->
  ps_context s' = ps_context s -> np_worker (ps_pool s') = np_worker (ps_pool s) ->
  capacities s' = capacities s ->
  free_list_chain (ps_headers s') (np_free_list (ps_pool (synchronize s'))) free' -> NoDup free' ->
  (forall a, a ∈ free' \/ is_Some (live' !! payload_of a) <-> a ∈ free \/ is_Some (live !! payload_of a)) ->
  (forall a, a ∈ free' -> live' !! payload_of a = None) ->
  (forall a bytes, live' !! payload_of a = Some bytes ->
    exists x, ps_headers s' !! a = Some x /\ 1 <= aa_used x <= aa_capacity x /\
      span_bytes (ps_memory s) (MkSpan (Some (payload_of a)) (aa_used x)) = Some bytes) ->
  pool_inv s' live' free'.
Proof.
  intros [H1 H2 H3 H4 H5 H6 H7 H8 H9 H10] Hgen E1 E2 E3 E4 Hcap Hchain Hnd Hsplit Hdisj Hcont.
  split; unfold ps_memory in *; rewrite ?E1, ?E2, ?E3, ?E4, ?Hcap; try done.
  intros a. rewrite Hsplit, <- H8, <- capacities_is_Some, Hcap, capacities_is_Some. done.
Qed.

Lemma pool_inv_headers s s' live live' free free' :
  pool_inv s live free -> synchronized s' -> ps_arena s' = ps_arena s -> ps_heap s' = ps_heap s ->
  ps_context s' = ps_context s -> np_worker (ps_pool s') = np_worker (ps_pool s) ->
  capacities s' = capacities s ->
  free_list_chain (ps_headers s') (np_free_list (ps_pool s')) free' -> NoDup free' ->
  (forall a, a ∈ free' \/ is_Some (live' !! payload_of a) <-> a ∈ free \/ is_Some (live !! payload_of a)) ->
  (forall a, a ∈ free' -> live' !! payload_of a = None) ->
  (forall a bytes, live' !! payload_of a = Some bytes ->
    exists x, ps_headers s' !! a = Some x /\ 1 <= aa_used x <= aa_capacity x /\
      span_bytes (ps_memory s) (MkSpan (Some (payload_of a)) (aa_used x)) = Some bytes) ->
  pool_inv s' live' free'.
Proof.
  intros HI Hsync E1. intros. eapply pool_inv_headers_any; try done.
  - unfold synchronized in Hsync. rewrite Hsync, E1. lia.
  - by rewrite synchronize_id.
Qed.

(** ** The steps *)
Lemma set_headers_list s headers : set_headers s headers = set_pool_list s (np_free_list (ps_pool s)) headers.
Proof. by destruct s as [[]]. Qed.

(** The state once the links around [a] have been changed and its header reused. *)
Lemma reuse_inv s live l1 a x l2 size bytes head headers1 :
  pool_inv s live (l1 ++ a :: l2) -> synchronized s -> 1 <= size <= aa_capacity x ->
  span_bytes (ps_memory s) (MkSpan (Some (payload_of a)) size) = Some bytes ->
  capacities s !! a = Some (aa_capacity x) ->
  aa_capacity <$> headers1 = capacities s ->
  (forall b, b <> a -> b ∉ l1 -> headers1 !! b = ps_headers s !! b) ->
  free_list_chain headers1 head (l1 ++ l2) ->
  pool_inv (set_pool_list s head (<[a := MkArenaAllocation (aa_capacity x) size None]> headers1))
    (<[payload_of a := bytes]> live) (l1 ++ l2).
Proof.
  intros HI Hsync Hsize Hbytes Hcap Hcap1 Hsame Hchain. pose proof (pi_nodup _ _ _ HI) as Hnd.
  apply list.NoDup_app in Hnd as (Hnd1 & Hnd12 & Hnd2). apply list.NoDup_cons in Hnd2 as [Hnin2 Hnd2].
  assert (Hnin : a ∉ l1 ++ l2).
  { intros [H|H]%elem_of_app; [|done]. apply (Hnd12 a H), elem_of_cons. auto. }
  assert (Hother : forall b, b <> a -> <[payload_of a := bytes]> live !! payload_of b = live !! payload_of b)
    by (intros b Hb; apply lookup_insert_ne; intros E; by apply (inj payload_of) in E).
  assert (Hfree : forall b, b ∈ l1 ++ a :: l2 <-> b = a \/ b ∈ l1 ++ l2)
    by (intros b; rewrite !elem_of_app, elem_of_cons; tauto).
  apply (pool_inv_headers s _ live _ (l1 ++ a :: l2)); simpl; try done.
  - unfold capacities. simpl. rewrite fmap_insert, Hcap1. simpl. by apply insert_id.
  - eapply free_list_chain_agree; [|exact Hchain]. intros b Hb. rewrite lookup_insert_ne; [done|]. by intros <-.
  - apply list.NoDup_app. split; [done|]. split; [|done].
    intros b Hb1 Hb2. apply (Hnd12 b Hb1), elem_of_cons. auto.
  - intros b. rewrite Hfree. destruct (decide (b = a)) as [->|Hne]; [|rewrite Hother by done; tauto].
    rewrite lookup_insert_eq. split; eauto.
  - intros b Hb. rewrite Hother by (by intros ->). apply (pi_disjoint _ _ _ HI), Hfree. auto.
  - intros b bs. destruct (decide (b = a)) as [->|Hne].
    + rewrite lookup_insert_eq. intros [= <-]. eexists. rewrite lookup_insert_eq. split; [done|]. done.
    + rewrite Hother by done. intros Hb.
      destruct (pi_contents _ _ _ HI _ _ Hb) as (y & Hy & Hu & Hbs). exists y.
      rewrite lookup_insert_ne by done. rewrite Hsame; [done..|]. intros Hbl.
      rewrite (pi_disjoint _ _ _ HI b) in Hb; [done|]. apply Hfree. right. apply elem_of_app. auto.
Qed.

Lemma unlink_run s live l1 a x l2 size :
  pool_inv s live (l1 ++ a :: l2) -> synchronized s -> ps_headers s !! a = Some x ->
  1 <= size <= aa_capacity x ->
  exists s' bytes, unlink s size (list.last l1) a = Ret s' /\ Z.of_nat (length bytes) = size /\
    live !! payload_of a = None /\ pool_inv s' (<[payload_of a := bytes]> live) (l1 ++ l2) /\
    ps_arena s' = ps_arena s /\ ps_heap s' = ps_heap s /\ ps_context s' = ps_context s /\
    capacities s' = capacities s.
Proof.
  intros HI Hsync Hx Hsize. pose proof (pi_chain _ _ _ HI) as Hc. rewrite synchronize_id in Hc by done.
  pose proof (free_list_chain_unlink _ _ _ _ _ _ Hc (pi_nodup _ _ _ HI) Hx) as Hun.
  assert (Hnone : live !! payload_of a = None).
  { apply (pi_disjoint _ _ _ HI), elem_of_app. right. apply elem_of_cons. auto. }
  assert (Hcap : capacities s !! a = Some (aa_capacity x)) by (apply capacities_lookup; eauto).
  destruct (block_bytes _ _ _ _ _ size HI Hcap) as (bytes & Hbytes & Hlen); [lia|].
  unfold unlink, header. rewrite Hx. cbn [mbind outcome_bind].
  destruct (list.last l1) as [b|] eqn:Hlast.
  - destruct Hun as (y & Hy & Hch). rewrite Hy. cbn [mbind outcome_bind].
    apply list.last_Some_elem_of in Hlast.
    assert (Hy1 : aa_capacity <$> <[b := MkArenaAllocation (aa_capacity y) (aa_used y) (aa_next x)]> (ps_headers s) = capacities s)
      by (by apply (capacities_insert s b y)).
    eexists _, bytes. split; [done|]. split; [done|]. split; [done|].
    split; [|split_and!; [done..|]; unfold capacities in *; simpl; rewrite fmap_insert, Hy1; by apply insert_id].
    rewrite (set_headers_list s). cbn [set_headers set_pool_list ps_headers ps_pool ps_arena ps_heap ps_context].
    apply (reuse_inv _ _ _ _ _ _ _ _ (np_free_list (ps_pool s)) _ HI); try done.
    + intros d Hda Hd. rewrite lookup_insert_ne; [done|]. by intros ->.
  - apply list.last_None in Hlast as ->. destruct Hun as [Hhead Hch].
    eexists _, bytes. split; [done|]. split; [done|]. split; [done|].
    split; [|split_and!; [done..|]; by apply (capacities_insert s a x)].
    apply (reuse_inv _ _ _ _ _ _ _ _ (aa_next x) (ps_headers s) HI); done.
Qed.

(** The result of an allocation of [size] bytes that left [free] on the list. *)
Definition malloc_result s' live size (r : option pointer) free : Prop :=
  match r with
  | None => pool_inv s' live free
  | Some p => live !! p = None /\ exists bytes, Z.of_nat (length bytes) = size /\
                pool_inv s' (<[p := bytes]> live) free
  end.

(** Without storage there are no blocks. *)
Lemma no_storage_no_headers s live free :
  pool_inv s live free -> ba_capacity (ps_arena s) = 0 -> ps_headers s = ∅ /\ live = ∅ /\ free = [].
Proof.
  intros HI Hc. destruct (pi_arena _ _ _ HI) as [_ _ _ Ho _ _].
  assert (He : forall a, ps_headers s !! a = None).
  { intros a. destruct (ps_headers s !! a) as [x|] eqn:Hx; [|done].
    destruct (lay_place _ _ _ (pi_layout _ _ _ HI) a (aa_capacity x)) as (H1 & base & st & _ & _ & H2 & _ & H3).
    { apply capacities_lookup. eauto. }
    unfold sizeof_ArenaAllocation in H3. lia. }
  assert (Hnone : forall a, ~ (a ∈ free \/ is_Some (live !! payload_of a))).
  { intros a H%(pi_split _ _ _ HI). rewrite He in H. by destruct H. }
  split; [by apply map_empty|]. split.
  - apply map_empty. intros p. rewrite <- (payload_header p). apply eq_None_not_Some. intros H.
    apply (Hnone (header_of p)). auto.
  - destruct free as [|a free]; [done|]. destruct (Hnone a). left. apply elem_of_cons. auto.
Qed.

(** A refused arena allocation. *)
Lemma fresh_refused s live free h c :
  pool_inv s live free -> synchronized s -> arena_inv acquire reset (ps_arena s) h ->
  (ba_capacity (ps_arena s) <> 0 -> c = ps_context s) ->
  pool_inv (MkPoolState (ps_pool s) (ps_arena s) h c (ps_headers s)) live free.
Proof.
  intros HI Hsync Harena Hc. destruct (Z.eq_dec (ba_capacity (ps_arena s)) 0) as [E|E].
  - destruct (no_storage_no_headers _ _ _ HI E) as (H1 & -> & ->).
    pose proof (pi_chain _ _ _ HI) as Hchain. rewrite synchronize_id in Hchain by done.
    destruct HI as [? ? ? Hlay ? ? ? Hsplit ? ?].
    split; cbn [ps_arena ps_heap ps_pool ps_headers]; try done. by rewrite synchronize_id.
  - rewrite (Hc E). pose proof (pi_chain _ _ _ HI) as Hchain. rewrite synchronize_id in Hchain by done.
    destruct HI as [? ? ? ? ? ? ? ? ? ?].
    split; unfold ps_memory in *; cbn [ps_arena ps_heap ps_pool ps_headers ps_context]; try done.
    by rewrite synchronize_id.
Qed.

(** Where the arena puts a new block there was none, and the layout extends. *)
Lemma fresh_address s live free (arena : BoundedArena (C * Memory)) base start size :
  pool_inv s live free -> span_data (ba_storage arena) = Some base ->
  (ba_capacity (ps_arena s) <> 0 -> ba_storage arena = ba_storage (ps_arena s)) ->
  ba_offset (ps_arena s) <= start -> start mod alignof_max_align_t = 0 -> 1 <= size ->
  ba_offset arena = start + (sizeof_ArenaAllocation + size) ->
  (ptr_add base start ∉ free) /\ live !! payload_of (ptr_add base start) = None /\
  layout (ba_storage arena) (ba_offset arena) (<[ptr_add base start := size]> (capacities s)).
Proof.
  intros HI Hbase Hold Hstart Hmod Hsize Hoff. set (a := ptr_add base start).
  assert (Hlay : layout (ba_storage arena) (ba_offset (ps_arena s)) (capacities s)).
  { destruct (Z.eq_dec (ba_capacity (ps_arena s)) 0) as [E|E].
    - destruct (no_storage_no_headers _ _ _ HI E) as (H1 & _ & _). unfold capacities. rewrite H1, fmap_empty.
      apply layout_empty.
    - rewrite (Hold E). apply (pi_layout _ _ _ HI). }
  destruct (pi_arena _ _ _ HI) as [_ _ _ Ho _ _].
  destruct (layout_insert _ _ (ba_offset arena) _ base start size Hlay Hbase) as [Hfresh Hlay'];
    [lia|done|done|lia|]. fold a in Hfresh, Hlay'.
  assert (Hnin : ~ (a ∈ free \/ is_Some (live !! payload_of a))).
  { intros [x Hx]%(pi_split _ _ _ HI)%capacities_is_Some. congruence. }
  split; [tauto|]. split; [apply eq_None_not_Some; tauto|done].
Qed.

(** A block from the arena. *)
Lemma fresh_inv s live free arena h c base l start size :
  pool_inv s live free -> synchronized s -> arena_inv acquire reset arena h ->
  value_ (ba_worker arena) = value_ (ba_worker (ps_arena s)) ->
  ba_generation arena = ba_generation (ps_arena s) ->
  (ba_capacity (ps_arena s) <> 0 -> c = ps_context s /\ ba_storage arena = ba_storage (ps_arena s)) ->
  located (snd c) (ba_storage arena) base l ->
  ba_offset (ps_arena s) <= start -> start mod alignof_max_align_t = 0 -> 1 <= size ->
  ba_offset arena = start + (sizeof_ArenaAllocation + size) ->
  malloc_result (MkPoolState (ps_pool s) arena h c
      (<[ptr_add base start := MkArenaAllocation size size None]> (ps_headers s)))
    live size (Some (payload_of (ptr_add base start))) free.
Proof.
  intros HI Hsync Harena Hw Hgen Hold Hloc Hstart Hmod Hsize Hoff.
  destruct (fresh_address s live free arena base start size HI (loc_data _ _ _ _ Hloc))
    as (Hnin & Hlive & Hlay); try done; [apply Hold|].
  pose proof Harena as [_ _ _ Ho Hst _]. destruct (pi_arena _ _ _ HI) as [_ _ _ Ho1 _ _].
  unfold sizeof_ArenaAllocation in Hoff. rewrite decide_False in Hst by lia. destruct Hst as (_ & Hmax & _).
  pose proof (located_bytes _ _ _ _ (storage_block_located _ _ _ _ start size Hloc ltac:(lia) ltac:(lia)
    ltac:(unfold sizeof_ArenaAllocation; lia))) as Hbytes.
  set (a := ptr_add base start) in *. set (bytes := take _ _) in Hbytes.
  split; [done|]. exists bytes.
  split; [apply (span_bytes_length _ _ _ (ltac:(simpl; lia) : 0 <= span_size (MkSpan (Some (payload_of a)) size)) Hbytes)|].
  assert (Hother : forall b, b <> a -> <[payload_of a := bytes]> live !! payload_of b = live !! payload_of b)
    by (intros b Hb; apply lookup_insert_ne; intros E; by apply (inj payload_of) in E).
  pose proof (pi_chain _ _ _ HI) as Hchain. rewrite synchronize_id in Hchain by done.
  split; cbn [ps_arena ps_heap ps_pool ps_headers]; try done.
  - rewrite Hw. apply HI.
  - rewrite Hgen. apply HI.
  - unfold capacities. cbn [ps_headers]. by rewrite fmap_insert.
  - eauto.
  - rewrite synchronize_id by (unfold synchronized in *; simpl; congruence).
    eapply free_list_chain_agree; [|exact Hchain]. intros b Hb. simpl. rewrite lookup_insert_ne; [done|].
    by intros <-.
  - apply HI.
  - intros b. destruct (decide (b = a)) as [->|Hne].
    + rewrite !lookup_insert_eq. split; eauto.
    + rewrite Hother, lookup_insert_ne by done. apply (pi_split _ _ _ HI).
  - intros b Hb. rewrite Hother by (by intros ->). by apply (pi_disjoint _ _ _ HI).
  - intros b bs. destruct (decide (b = a)) as [->|Hne].
    + rewrite !lookup_insert_eq. intros [= <-]. eexists. split; [done|]. simpl. split; [lia|done].
    + rewrite Hother, lookup_insert_ne by done. intros Hb.
      destruct (Z.eq_dec (ba_capacity (ps_arena s)) 0) as [E|E].
      { destruct (no_storage_no_headers _ _ _ HI E) as (_ & -> & _). done. }
      destruct (Hold E) as [-> _]. by apply (pi_contents _ _ _ HI).
Qed.

(** The arena has no room for a block of [size] bytes and its header. *)
Definition arena_refuses s (size : Z) : Prop :=
  size_max < sizeof_ArenaAllocation + size \/
  exists e rest, BoundedArena_try_allocate (ps_arena s) (ps_heap s) (ps_context s) (np_worker (ps_pool s))
    (sizeof_ArenaAllocation + size) alignof_max_align_t = Ret (Err e, rest).

(** The capacities once a request for [size] bytes from the arena returned [r]. *)
Definition fresh_capacities s s' (size : Z) (r : option pointer) : Prop :=
  match r with
  | None => arena_refuses s size /\ capacities s' = capacities s
  | Some p => exists a, p = payload_of a /\ capacities s' = <[a := size]> (capacities s)
  end.

Lemma allocate_block_run s live free size :
  pool_inv s live free -> synchronized s -> 1 <= size <= size_max ->
  exists r s', allocate_block s size = Ret (r, s') /\ malloc_result s' live size r free /\ fresh_capacities s s' size r.
Proof.
  intros HI Hsync Hsize. unfold allocate_block, sizeof_ArenaAllocation.
  rewrite (u64_small (size_max - 32)) by (unfold size_max, u64_max; lia).
  destruct (Z.ltb_spec (size_max - 32) size) as [|Hfit].
  { eexists _, _. split; [done|]. split; [done|]. split; [left; unfold sizeof_ArenaAllocation; lia|done]. }
  rewrite u64_small by (unfold size_max in *; lia).
  destruct (allocate_run acquire reset acquire_view (ps_arena s) (ps_heap s) (ps_context s)
    (np_worker (ps_pool s)) (32 + size) alignof_max_align_t (pi_arena _ _ _ HI) (pi_worker _ _ _ HI))
    as (r & arena & h & c & Erun & Hctx & Hr); [unfold is_size; lia|by unfold is_size|].
  rewrite Erun. cbn [mbind outcome_bind]. destruct r as [view|e].
  2: { destruct Hr as (-> & _ & Harena). eexists _, _. split; [done|]. split; [by apply fresh_refused|].
       split; [right; by eexists _, _|done]. }
  destruct Hr as (Harena & Hsame & _ & Hview & Hvgen & _ & Hgen & Hstor & Hcase).
  rewrite decide_False in Hcase by lia. destruct Hcase as (Hfirst & start & Hbytes & Hmod & Hrange & Hoff).
  assert (exists base l, located (snd c) (ba_storage arena) base l) as (base & l & Hloc).
  { destruct (Z.eq_dec (ba_capacity (ps_arena s)) 0) as [E|E].
    - eapply acquire_located. by apply Hfirst.
    - rewrite (Hctx E), (Hstor E). by apply (pi_memory _ _ _ HI). }
  unfold ArenaView_bytes, BoundedArena_view_for.
  rewrite Hview, Hvgen, Hgen, Z.eqb_refl. cbn [negb]. rewrite Hbytes. cbn [subspan span_data].
  rewrite (loc_data _ _ _ _ Hloc). simpl. eexists _, _. split; [done|].
  split; [|eexists; split; [done|]; unfold capacities; simpl; by rewrite fmap_insert].
  eapply (fresh_inv s live free arena h c base l start size HI Hsync Harena); try done; try lia.
  - by rewrite (sa_worker _ _ Hsame).
  - intros E. auto.
Qed.

(** [arena_malloc] takes the first block of the free list that is large enough, leaving the
    arena and the memory alone, and asks the arena only when there is none. *)
Lemma malloc_run s live free requested :
  pool_inv s live free -> is_size requested ->
  let size := Z.max 1 requested in
  exists r s', arena_malloc s requested = Ret (r, s') /\
    ((exists l1 a x l2, free = l1 ++ a :: l2 /\ Forall (too_small (ps_headers s) size) l1 /\
        ps_headers s !! a = Some x /\ size <= aa_capacity x /\ r = Some (payload_of a) /\
        ps_arena s' = ps_arena s /\ ps_heap s' = ps_heap s /\ ps_context s' = ps_context s /\
        capacities s' = capacities s /\ malloc_result s' live size r (l1 ++ l2)) \/
     (Forall (too_small (ps_headers s) size) free /\ malloc_result s' live size r free /\ fresh_capacities s s' size r)).
Proof.
  intros HI Hreq size. unfold is_size in Hreq. destruct (synchronize_inv _ _ _ HI) as [HI' Hsync].
  destruct (synchronize_fields s) as (E1 & E2 & E3 & E4 & E5 & _).
  unfold arena_malloc. set (s1 := synchronize s) in *.
  replace (if requested =? 0 then 1 else requested) with size
    by (unfold size; destruct (Z.eqb_spec requested 0); lia).
  pose proof (pi_chain _ _ _ HI') as Hc. rewrite synchronize_id in Hc by done.
  assert (Hfuel : (length free <= base.size (ps_headers s1))%nat).
  { rewrite <- size_dom. rewrite <- (size_list_to_set (C := gset pointer) free) by apply (pi_nodup _ _ _ HI').
    apply subseteq_size. intros a Ha%elem_of_list_to_set. apply elem_of_dom, (pi_split _ _ _ HI'). auto. }
  destruct (first_fit_run _ size None _ _ _ Hc Hfuel) as ([previous allocation] & -> & Hfit).
  cbn [mbind outcome_bind].
  destruct Hfit as [(l1 & a & x & l2 & -> & Hl1 & Hx & Hsize & [= -> ->])|[Hnone Hall]].
  - destruct (unlink_run s1 live l1 a x l2 size HI' Hsync Hx) as (s' & bytes & Hrun & Hlen & Hlive & HI2 & F1 & F2 & F3 & F4);
      [lia|].
    replace (match list.last l1 with Some b => Some b | None => None end) with (list.last l1)
      by (by destruct (list.last l1)).
    rewrite Hrun. cbn [mbind outcome_bind]. eexists _, _. split; [done|]. left.
    exists l1, a, x, l2. rewrite <- E4. split_and!; try done; try congruence.
    + unfold capacities in *. congruence.
    + split; [done|]. by exists bytes.
  - simpl in Hnone. subst allocation.
    destruct (allocate_block_run s1 live free size HI' Hsync) as (r & s' & -> & Hr & Hcaps); [unfold size, size_max, u64_max in *; lia|].
    eexists _, _. split; [done|]. right. rewrite <- E4. split; [done|]. split; [done|].
    revert Hcaps. unfold fresh_capacities, arena_refuses, capacities. by rewrite E1, E2, E3, E4, E5.
Qed.

(** The part of [malloc_run] that the other functions need. *)
Lemma malloc_ok s live free requested :
  pool_inv s live free -> is_size requested ->
  exists r s' free', arena_malloc s requested = Ret (r, s') /\
    malloc_result s' live (Z.max 1 requested) r free'.
Proof.
  intros HI Hreq. destruct (malloc_run s live free requested HI Hreq) as (r & s' & Hrun & Hcase).
  destruct Hcase as [(l1 & a & x & l2 & _ & _ & _ & _ & _ & _ & _ & _ & _ & H)|(_ & H & _)]; eauto.
Qed.

Lemma free_run s live free p bytes :
  pool_inv s live free -> live !! p = Some bytes ->
  exists s', arena_free s (Some p) = Ret s' /\ pool_inv s' (delete p live) (header_of p :: free).
Proof.
  intros HI Hp. destruct (synchronize_inv _ _ _ HI) as [HI' Hsync].
  unfold arena_free. set (s1 := synchronize s) in *.
  destruct (live_header _ _ _ _ _ HI' Hp) as (x & Hx & _). unfold header. rewrite Hx. cbn [mbind outcome_bind].
  eexists. split; [done|]. pose proof (pi_chain _ _ _ HI') as Hc. rewrite synchronize_id in Hc by done.
  set (a := header_of p) in *. assert (Hpa : p = payload_of a) by (unfold a; by rewrite payload_header).
  assert (Hnin : a ∉ free).
  { intros Ha. apply (pi_disjoint _ _ _ HI') in Ha. rewrite <- Hpa in Ha. congruence. }
  assert (Hother : forall b, b <> a -> delete p live !! payload_of b = live !! payload_of b).
  { intros b Hb. rewrite lookup_delete_ne; [done|]. rewrite Hpa. intros E. by apply (inj payload_of) in E. }
  assert (Hgone : delete p live !! payload_of a = None) by (rewrite <- Hpa; apply lookup_delete_eq).
  apply (pool_inv_headers s1 _ live _ free); try done.
  - by apply (capacities_insert s1 a x).
  - split; [done|]. exists (np_free_list (ps_pool s1)). simpl. rewrite lookup_insert_eq. split; [done|].
    eapply free_list_chain_agree; [|exact Hc]. intros b Hb. rewrite lookup_insert_ne; [done|]. by intros <-.
  - by apply list.NoDup_cons; split; [|apply (pi_nodup _ _ _ HI')].
  - intros b. rewrite elem_of_cons. destruct (decide (b = a)) as [->|Hne].
    + rewrite <- Hpa, Hp. split; eauto.
    + rewrite Hother by done. tauto.
  - intros b [->|Hb]%elem_of_cons; [done|]. rewrite Hother by (by intros ->). by apply (pi_disjoint _ _ _ HI').
  - intros b bs. destruct (decide (b = a)) as [->|Hne]; [by rewrite Hgone|].
    rewrite Hother by done. intros Hb. simpl. rewrite lookup_insert_ne by done. by apply (pi_contents _ _ _ HI').
Qed.

(** Two payloads do not overlap. *)
Lemma payloads_disjoint s live free a b x y :
  pool_inv s live free -> ps_headers s !! a = Some x -> ps_headers s !! b = Some y -> a <> b ->
  disjoint_spans (MkSpan (Some (payload_of a)) (aa_capacity x)) (MkSpan (Some (payload_of b)) (aa_capacity y)).
Proof.
  intros HI Hx Hy Hne pa pb [= <-] [= <-]. simpl. right.
  destruct (lay_apart _ _ _ (pi_layout _ _ _ HI) a b (aa_capacity x) (aa_capacity y)) as [H|H];
    [apply capacities_lookup; eauto|apply capacities_lookup; eauto|done|..];
    unfold sizeof_ArenaAllocation in *; destruct (lay_place _ _ _ (pi_layout _ _ _ HI) a (aa_capacity x)) as [Ha _];
    [apply capacities_lookup; eauto|lia|apply capacities_lookup; eauto|].
  destruct (lay_place _ _ _ (pi_layout _ _ _ HI) b (aa_capacity y)) as [Hb _]; [apply capacities_lookup; eauto|lia].
Qed.

(** A write anywhere leaves every located span located. *)
Lemma located_write m v p l w q k offset bytes :
  located m v p l -> located m w q k -> exists k', located (write_at m p l offset bytes) w q k'.
Proof.
  intros [H1 H2 H3 H4 H5] [G1 G2 G3 G4 G5]. unfold write_at.
  destruct (decide (ptr_block p = ptr_block q)) as [e|Hne].
  - exists (list_inserts (Z.to_nat offset) bytes l). rewrite e.
    split; try done; [apply lookup_insert_eq|]. rewrite e in H2. rewrite length_inserts. congruence.
  - exists k. split; try done. by rewrite lookup_insert_ne.
Qed.

(** A write behind a live address. *)
Lemma write_run s live free p old offset bytes :
  pool_inv s live free -> live !! p = Some old -> 0 <= offset ->
  offset + Z.of_nat (length bytes) <= Z.of_nat (length old) ->
  exists m, store_bytes (ps_memory s) (ptr_add p offset) bytes = Ret m /\
    pool_inv (set_memory s m) (<[p := list_inserts (Z.to_nat offset) bytes old]> live) free.
Proof.
  intros HI Hp Ho Hfit. destruct (live_header _ _ _ _ _ HI Hp) as (x & Hx & Hused & Hlen & Hbytes).
  set (a := header_of p) in *. assert (Hpa : p = payload_of a) by (unfold a; by rewrite payload_header).
  destruct (block_located s live free a (aa_capacity x) (aa_used x) HI) as [l Hloc];
    [apply capacities_lookup; eauto|lia|]. rewrite <- Hpa in Hloc.
  pose proof Hloc as [_ L2 L3 _ L5]. simpl in L5.
  rewrite (store_bytes_run _ _ _ l); [|done|simpl; lia|simpl; lia]. simpl.
  fold (write_at (ps_memory s) p l (ptr_offset p + offset) bytes). eexists. split; [done|].
  assert (Hother : forall b bs, b <> a -> <[p := bs]> live !! payload_of b = live !! payload_of b)
    by (intros b bs Hb; apply lookup_insert_ne; rewrite Hpa; intros E; by apply (inj payload_of) in E).
  pose proof HI as [H1 H2 H3 H4 H5 H6 H7 H8 H9 H10].
  split; try done; unfold ps_memory; cbn [set_memory ps_arena ps_context snd ps_headers].
  - intros Hc. destruct (H5 Hc) as (base & k & Hk). exists base.
    apply (located_write _ _ _ _ _ _ _ _ _ Hloc Hk).
  - revert H6. unfold synchronize. simpl. by destruct (negb _).
  - intros b. rewrite H8. destruct (decide (b = a)) as [->|Hne]; [|by rewrite Hother].
    rewrite <- Hpa, lookup_insert_eq, Hp. split; eauto.
  - intros b Hb. destruct (decide (b = a)) as [->|Hne]; [|rewrite Hother by done; auto].
    specialize (H9 _ Hb). rewrite <- Hpa in H9. congruence.
  - intros b bs. destruct (decide (b = a)) as [->|Hne].
    + rewrite <- Hpa, lookup_insert_eq. intros [= <-]. exists x. split; [done|]. split; [done|].
      apply (write_at_span_bytes _ _ _ _ _ _ _ Hloc Hbytes); simpl; lia.
    + rewrite Hother by done. intros Hb. destruct (H10 _ _ Hb) as (y & Hy & Hu & Hbs). exists y.
      split; [done|]. split; [done|]. rewrite <- Hbs.
      apply (write_at_disjoint _ (MkSpan (Some p) (aa_used x))); simpl; try done; try lia.
      pose proof (payloads_disjoint s live free a b x y HI Hx Hy ltac:(done)) as Hd.
      rewrite Hpa. intros pa pb Ea Eb. destruct (Hd pa pb Ea Eb) as [?|[?|?]]; simpl in *; [by left|..]; right; lia.
Qed.

(** Resizing in place. *)
Lemma resize_run s live free p old x size :
  pool_inv s live free -> live !! p = Some old -> ps_headers s !! header_of p = Some x ->
  1 <= size <= aa_capacity x ->
  exists bytes, Z.of_nat (length bytes) = size /\
    take (Nat.min (length old) (length bytes)) bytes = take (Nat.min (length old) (length bytes)) old /\
    pool_inv (set_headers s (<[header_of p := MkArenaAllocation (aa_capacity x) size (aa_next x)]> (ps_headers s)))
      (<[p := bytes]> live) free.
Proof.
  intros HI Hp Hx Hsize. destruct (live_header _ _ _ _ _ HI Hp) as (x' & Hx' & Hused & Hlen & Hbytes).
  assert (x' = x) as -> by congruence. set (a := header_of p) in *.
  assert (Hpa : p = payload_of a) by (unfold a; by rewrite payload_header).
  assert (Hcap : capacities s !! a = Some (aa_capacity x)) by (apply capacities_lookup; eauto).
  destruct (block_located _ _ _ _ _ (aa_capacity x) HI Hcap) as [l Hl]; [lia|].
  assert (Hread : forall n, 0 <= n <= aa_capacity x -> span_bytes (ps_memory s) (MkSpan (Some p) n) =
    Some (take (Z.to_nat n) (drop (Z.to_nat (ptr_offset p)) l))).
  { intros n Hn. rewrite <- Hpa in Hl. destruct Hl as [_ L2 L3 L4 L5]. simpl in L4, L5.
    apply (located_bytes _ (MkSpan (Some p) n)). split; simpl; try done; lia. }
  rewrite Hread in Hbytes by lia. injection Hbytes as Hold. pose proof (Hread size ltac:(lia)) as Hnew.
  set (bytes := take (Z.to_nat size) _) in Hnew. exists bytes.
  assert (Hlen' : Z.of_nat (length bytes) = size)
    by (eapply (span_bytes_length _ (MkSpan (Some p) size)); [simpl; lia|exact Hnew]).
  split; [done|]. split.
  { assert (Hpre : forall n, (n <= length old)%nat -> (n <= length bytes)%nat -> take n bytes = take n old)
      by (intros n H1 H2; rewrite <- Hold; unfold bytes; rewrite !take_take; f_equal; lia).
    apply Hpre; lia. }
  assert (Hother : forall b, b <> a -> <[p := bytes]> live !! payload_of b = live !! payload_of b)
    by (intros b Hb; apply lookup_insert_ne; rewrite Hpa; intros E; by apply (inj payload_of) in E).
  assert (Hself : forall b, b = a \/ <[p := bytes]> live !! payload_of b = live !! payload_of b)
    by (intros b; destruct (decide (b = a)); auto).
  pose proof HI as [H1 H2 H3 H4 H5 H6 H7 H8 H9 H10].
  apply (pool_inv_headers_any s _ live _ free); try done.
  - by apply (capacities_insert s a x).
  - replace (np_free_list (ps_pool (synchronize (set_headers s _)))) with (np_free_list (ps_pool (synchronize s)))
      by (unfold synchronize; simpl; by destruct (negb _)).
    eapply free_list_chain_agree; [|exact H6]. intros b Hb. simpl. destruct (decide (b = a)) as [->|];
      [rewrite lookup_insert_eq, Hx; done|by rewrite lookup_insert_ne].
  - intros b. destruct (Hself b) as [->| ->]; [|done]. rewrite <- Hpa, lookup_insert_eq, Hp. split; eauto.
  - intros b Hb. destruct (Hself b) as [->| ->]; [|auto]. specialize (H9 _ Hb). rewrite <- Hpa in H9. congruence.
  - intros b bs. simpl. destruct (decide (b = a)) as [->|Hne].
    + rewrite <- Hpa, !lookup_insert_eq. intros [= <-]. eexists. split; [done|]. simpl. split; [lia|done].
    + rewrite Hother, lookup_insert_ne by done. apply H10.
Qed.

(** ** What a native library may do, and what it sees *)
Inductive PoolOp :=
  | PMalloc (size : Z)
  | PCalloc (count size : Z)
  | PRealloc (address : option pointer) (size : Z)
  | PFree (address : option pointer)
  | PWrite (address : pointer) (offset : Z) (bytes : list Z)
  | PReset (boundary : ArenaQuiescentBoundary).

(** The objects in the storage are gone when the arena has been reset. *)
Definition exec_pool s (op : PoolOp) : outcome (option pointer * PoolState C) :=
  match op with
  | PMalloc size => arena_malloc s size
  | PCalloc count size => arena_calloc s count size
  | PRealloc address size => arena_realloc s address size
  | PFree address => s ← arena_free s address; Ret (None, s)
  | PWrite address offset bytes =>
      m ← store_bytes (ps_memory s) (ptr_add address offset) bytes; Ret (None, set_memory s m)
  | PReset boundary =>
      '(r, (arena, h, c)) ← BoundedArena_reset (ps_arena s) (ps_heap s) (ps_context s) (ba_worker (ps_arena s)) boundary;
      Ret (None, MkPoolState (ps_pool s) arena h c (if has_value r then ∅ else ps_headers s))
  end.

Definition pool_legal live (op : PoolOp) : Prop :=
  match op with
  | PMalloc size => is_size size
  | PCalloc count size => is_size count /\ is_size size
  | PRealloc address size => is_size size /\ forall p, address = Some p -> is_Some (live !! p)
  | PFree address => forall p, address = Some p -> is_Some (live !! p)
  | PWrite address offset bytes => exists old, live !! address = Some old /\ 0 <= offset /\
      offset + Z.of_nat (length bytes) <= Z.of_nat (length old)
  | PReset _ => True
  end.

(** The steps that may leave the heap as it is: those that ask for memory, resets, and freeing
    the null pointer. *)
Definition may_refuse (op : PoolOp) : Prop :=
  match op with
  | PMalloc _ | PCalloc _ _ | PRealloc None _ | PReset _ | PFree None => True
  | PRealloc (Some _) size => size <> 0
  | PFree (Some _) | PWrite _ _ _ => False
  end.

(** The abstract heap.  New bytes are arbitrary unless the code writes them. *)
Inductive heap_step live : PoolOp -> option pointer -> gmap pointer (list Z) -> Prop :=
  | HRefused op : may_refuse op -> heap_step live op None live
  | HMalloc size p bytes :
      live !! p = None -> Z.of_nat (length bytes) = Z.max 1 size ->
      heap_step live (PMalloc size) (Some p) (<[p := bytes]> live)
  | HCalloc count size p bytes :
      live !! p = None -> count * size <= size_max -> Z.of_nat (length bytes) = Z.max 1 (count * size) ->
      take (Z.to_nat (count * size)) bytes = replicate (Z.to_nat (count * size)) 0 ->
      heap_step live (PCalloc count size) (Some p) (<[p := bytes]> live)
  | HReallocNull size p bytes :
      live !! p = None -> Z.of_nat (length bytes) = Z.max 1 size ->
      heap_step live (PRealloc None size) (Some p) (<[p := bytes]> live)
  | HReallocZero p : heap_step live (PRealloc (Some p) 0) None (delete p live)
  | HRealloc p old size q bytes :
      live !! p = Some old -> 1 <= size -> (q = p \/ live !! q = None) -> Z.of_nat (length bytes) = size ->
      take (Nat.min (length old) (length bytes)) bytes = take (Nat.min (length old) (length bytes)) old ->
      heap_step live (PRealloc (Some p) size) (Some q) (<[q := bytes]> (delete p live))
  | HFree p : heap_step live (PFree (Some p)) None (delete p live)
  | HWrite p old offset bytes :
      live !! p = Some old ->
      heap_step live (PWrite p offset bytes) None (<[p := list_inserts (Z.to_nat offset) bytes old]> live)
  | HReset boundary : heap_step live (PReset boundary) None ∅.

(** ** The heap with its free blocks

    A block is named by the address of its header.  The heap has the bytes behind each live
    address, the capacity of every block carved from the arena since its last reset, and the
    blocks given back, the last one first. *)
Record NativeHeap := MkNativeHeap {
  nh_live : gmap pointer (list Z); nh_free : list pointer; nh_capacity : gmap pointer Z }.
Implicit Types (g : NativeHeap).

Definition no_blocks : NativeHeap := MkNativeHeap ∅ [] ∅.
Definition smaller g (size : Z) (a : pointer) : Prop := exists k, nh_capacity g !! a = Some k /\ k < size.
Definition fill g (p : pointer) (offset : Z) (bytes : list Z) : NativeHeap :=
  MkNativeHeap (alter (list_inserts (Z.to_nat offset) bytes) p (nh_live g)) (nh_free g) (nh_capacity g).
Definition release g (p : pointer) : NativeHeap :=
  MkNativeHeap (delete p (nh_live g)) (header_of p :: nh_free g) (nh_capacity g).

(** A request for [size] bytes takes the first free block that is large enough, and is served
    by a new block only when there is none; it fails only when, besides, the arena [refuses]
    the new block.  The bytes found in a block are arbitrary. *)
Inductive takes_block (refuses : Z -> Prop) g (size : Z) : option pointer -> NativeHeap -> Prop :=
  | TakeFree l1 a k l2 bytes :
      nh_free g = l1 ++ a :: l2 -> Forall (smaller g size) l1 -> nh_capacity g !! a = Some k -> size <= k ->
      nh_live g !! payload_of a = None -> Z.of_nat (length bytes) = size ->
      takes_block refuses g size (Some (payload_of a))
        (MkNativeHeap (<[payload_of a := bytes]> (nh_live g)) (l1 ++ l2) (nh_capacity g))
  | TakeNew a bytes :
      Forall (smaller g size) (nh_free g) -> nh_capacity g !! a = None -> nh_live g !! payload_of a = None ->
      Z.of_nat (length bytes) = size ->
      takes_block refuses g size (Some (payload_of a))
        (MkNativeHeap (<[payload_of a := bytes]> (nh_live g)) (nh_free g) (<[a := size]> (nh_capacity g)))
  | TakeNone : Forall (smaller g size) (nh_free g) -> refuses size -> takes_block refuses g size None g.

Inductive native_step (refuses : Z -> Prop) (resets : ArenaQuiescentBoundary -> bool -> Prop) g :
    PoolOp -> option pointer -> NativeHeap -> Prop :=
  | NMalloc size r g' : takes_block refuses g (Z.max 1 size) r g' -> native_step refuses resets g (PMalloc size) r g'
  | NCallocOverflow count size : size_max < count * size -> native_step refuses resets g (PCalloc count size) None g
  | NCalloc count size r g' :
      count * size <= size_max -> takes_block refuses g (Z.max 1 (count * size)) r g' ->
      native_step refuses resets g (PCalloc count size) r
        (match r with Some p => fill g' p 0 (replicate (Z.to_nat (count * size)) 0) | None => g' end)
  | NReallocNull size r g' :
      takes_block refuses g (Z.max 1 size) r g' -> native_step refuses resets g (PRealloc None size) r g'
  | NReallocZero p : native_step refuses resets g (PRealloc (Some p) 0) None (release g p)
  | NReallocInPlace p old k size bytes :
      nh_live g !! p = Some old -> nh_capacity g !! header_of p = Some k -> 1 <= size <= k ->
      Z.of_nat (length bytes) = size ->
      take (Nat.min (length old) (length bytes)) bytes = take (Nat.min (length old) (length bytes)) old ->
      native_step refuses resets g (PRealloc (Some p) size) (Some p)
        (MkNativeHeap (<[p := bytes]> (nh_live g)) (nh_free g) (nh_capacity g))
  | NReallocMove p old k size r g' :
      nh_live g !! p = Some old -> nh_capacity g !! header_of p = Some k -> k < size -> takes_block refuses g size r g' ->
      Z.of_nat (length old) <= k ->
      native_step refuses resets g (PRealloc (Some p) size) r
        (match r with Some q => release (fill g' q 0 old) p | None => g' end)
  | NFreeNull : native_step refuses resets g (PFree None) None g
  | NFree p : native_step refuses resets g (PFree (Some p)) None (release g p)
  | NWrite p offset bytes : native_step refuses resets g (PWrite p offset bytes) None (fill g p offset bytes)
  | NReset boundary done : resets boundary done ->
      native_step refuses resets g (PReset boundary) None (if done then no_blocks else g).

(** What the heap forgets of its blocks: [heap_step] on the live addresses. *)
Lemma takes_live refuses g size r g' : takes_block refuses g size r g' ->
  match r with
  | None => g' = g
  | Some p => nh_live g !! p = None /\ exists bytes, Z.of_nat (length bytes) = size /\ nh_live g' = <[p := bytes]> (nh_live g)
  end.
Proof. intros []; simpl; eauto. Qed.

Lemma alter_insert_eq' (f : list Z -> list Z) p bytes live : alter f p (<[p := bytes]> live) = <[p := f bytes]> live.
Proof.
  apply map_eq. intros q. destruct (decide (q = p)) as [->|Hq].
  - by rewrite lookup_alter_eq, !lookup_insert_eq.
  - by rewrite lookup_alter_ne, !lookup_insert_ne.
Qed.

Lemma alter_known (f : list Z -> list Z) p bytes live : live !! p = Some bytes -> alter f p live = <[p := f bytes]> live.
Proof. intros H. rewrite <- (insert_id live p bytes H) at 1. by rewrite alter_insert_eq'. Qed.

Lemma native_heap_step refuses resets g op r g' :
  pool_legal (nh_live g) op -> native_step refuses resets g op r g' -> heap_step (nh_live g) op r (nh_live g').
Proof.
  intros Hl Hs. destruct Hs; simpl in Hl.
  - pose proof (takes_live _ _ _ _ _ ltac:(eassumption)) as Ht. destruct r as [p|]; [destruct Ht as (Hn & bytes & Hb & ->)|subst]; by constructor.
  - by constructor.
  - pose proof (takes_live _ _ _ _ _ ltac:(eassumption)) as Ht. destruct r as [p|]; [destruct Ht as (Hn & bytes & Hb & E)|subst; by constructor].
    simpl. rewrite E, alter_insert_eq'. constructor; try done; [by rewrite length_inserts|].
    pose proof (take_inserts_front (replicate (Z.to_nat (count * size)) 0) bytes) as Hf. rewrite length_replicate in Hf. apply Hf. lia.
  - pose proof (takes_live _ _ _ _ _ ltac:(eassumption)) as Ht. destruct r as [p|]; [destruct Ht as (Hn & bytes & Hb & ->)|subst]; by constructor.
  - constructor.
  - simpl. rewrite <- insert_delete_eq. eapply HRealloc; eauto; lia.
  - pose proof (takes_live _ _ _ _ _ ltac:(eassumption)) as Ht. destruct r as [q|]; [destruct Ht as (Hn & bytes & Hb & E)|subst; constructor; simpl; lia].
    simpl. rewrite E, alter_insert_eq'. assert (q <> p) by congruence. rewrite delete_insert_ne by done.
    apply (HRealloc _ p old); try done; [lia|auto|by rewrite length_inserts|].
    rewrite length_inserts, Nat.min_l by lia. rewrite take_inserts_front by lia. by rewrite take_ge.
  - by constructor.
  - constructor.
  - destruct Hl as (old & Hold & _). simpl. rewrite (alter_known _ _ old) by done. by constructor.
  - destruct done; by constructor.
Qed.

(** ** The pool implements it *)
Definition models s g : Prop := pool_inv s (nh_live g) (nh_free g) /\ nh_capacity g = capacities s.

(** What the arena answers when it is asked to reset. *)
Definition arena_resets s (boundary : ArenaQuiescentBoundary) (done : bool) : Prop :=
  exists r rest, BoundedArena_reset (ps_arena s) (ps_heap s) (ps_context s) (ba_worker (ps_arena s)) boundary = Ret (r, rest) /\
    done = has_value r.

Lemma smaller_too_small s g size l : nh_capacity g = capacities s -> Forall (too_small (ps_headers s) size) l -> Forall (smaller g size) l.
Proof.
  intros E. apply Forall_impl. intros a (x & Hx & Hlt). exists (aa_capacity x). rewrite E, capacities_lookup. eauto.
Qed.

Lemma malloc_takes s g requested : models s g -> is_size requested ->
  exists r s' g', arena_malloc s requested = Ret (r, s') /\ takes_block (arena_refuses s) g (Z.max 1 requested) r g' /\ models s' g'.
Proof.
  intros [HI Hcap] Hreq. destruct (malloc_run s _ _ requested HI Hreq) as (r & s' & Hrun & Hcase).
  destruct Hcase as [(l1 & a & x & l2 & Hfree & Hl1 & Hx & Hsize & -> & _ & _ & _ & Hcaps & Hn & bytes & Hlen & HI')|(Hall & Hres & Hcaps)].
  - eexists _, s', _. split; [done|]. split.
    + apply (TakeFree _ _ _ l1 a (aa_capacity x) l2 bytes); try done; [by eapply smaller_too_small|].
      rewrite Hcap. apply capacities_lookup. eauto.
    + split; [done|]. simpl. congruence.
  - pose proof (smaller_too_small _ _ _ _ Hcap Hall) as Hsmall. destruct r as [p|].
    + destruct Hres as (Hn & bytes & Hlen & HI'), Hcaps as (a & -> & Hcaps). eexists _, s', _. split; [done|]. split.
      * apply (TakeNew _ _ _ a bytes); try done. rewrite Hcap. apply eq_None_not_Some. intros Ha%capacities_is_Some%(pi_split _ _ _ HI).
        destruct Ha as [Ha|[? Ha]]; [|congruence]. apply (pi_disjoint _ _ _ HI') in Ha. by rewrite lookup_insert_eq in Ha.
      * split; [done|]. simpl. congruence.
    + destruct Hcaps as [Hrefuse Hcaps]. eexists _, s', g. split; [done|]. split; [by constructor|]. split; [done|congruence].
Qed.

Lemma fill_run s g p old offset bytes : models s g -> nh_live g !! p = Some old -> 0 <= offset ->
  offset + Z.of_nat (length bytes) <= Z.of_nat (length old) ->
  exists m, store_bytes (ps_memory s) (ptr_add p offset) bytes = Ret m /\ models (set_memory s m) (fill g p offset bytes).
Proof.
  intros [HI Hcap] Hp Ho Hfit. destruct (write_run s _ _ p old offset bytes HI Hp Ho Hfit) as (m & -> & HI').
  exists m. split; [done|]. split; [|done]. simpl. by rewrite (alter_known _ _ old).
Qed.

Lemma fill_front_run s g p old bytes : models s g -> nh_live g !! p = Some old -> (length bytes <= length old)%nat ->
  exists m, store_bytes (ps_memory s) p bytes = Ret m /\ models (set_memory s m) (fill g p 0 bytes).
Proof.
  intros Hm Hp Hfit. destruct (fill_run s g p old 0 bytes Hm Hp) as (m & E & H); [lia|lia|].
  exists m. split; [|done]. rewrite <- E. destruct p. unfold ptr_add. simpl. do 2 f_equal. lia.
Qed.

Lemma heap_release_run s g p old : models s g -> nh_live g !! p = Some old ->
  exists s', arena_free s (Some p) = Ret s' /\ models s' (release g p).
Proof.
  intros [HI Hcap] Hp. destruct (free_run s _ _ p old HI Hp) as (s' & E & HI'). exists s'. split; [done|]. split; [done|].
  simpl. rewrite Hcap. revert E. unfold arena_free, header. destruct (synchronize_fields s) as (_ & _ & _ & -> & _).
  destruct (ps_headers s !! header_of p) as [x|] eqn:Hx; [|done]. intros [= <-]. symmetry. by apply (capacities_insert s _ x).
Qed.

Lemma calloc_takes s g count size : models s g -> is_size count -> is_size size ->
  exists r s' g', arena_calloc s count size = Ret (r, s') /\
    native_step (arena_refuses s) (arena_resets s) g (PCalloc count size) r g' /\ models s' g'.
Proof.
  unfold is_size. intros Hm Hc Hs. unfold arena_calloc.
  destruct (negb (count =? 0) && (size_max / count <? size)) eqn:E.
  { rewrite andb_true_iff, negb_true_iff, Z.eqb_neq, Z.ltb_lt in E. destruct E as [Hne E].
    eexists _, _, g. split; [done|]. split; [|done]. constructor.
    pose proof (Z.mul_succ_div_gt size_max count ltac:(lia)). nia. }
  assert (Htot : 0 <= count * size <= size_max).
  { rewrite andb_false_iff, negb_false_iff, Z.eqb_eq, Z.ltb_ge in E. destruct E as [->|E]; [lia|].
    destruct (Z.eq_dec count 0) as [->|]; [lia|]. pose proof (Z.mul_div_le size_max count ltac:(lia)). nia. }
  rewrite u64_small by (unfold size_max in *; lia).
  destruct (malloc_takes s g (count * size) Hm Htot) as (r & s1 & g1 & -> & Ht & Hm1).
  cbn [mbind outcome_bind]. pose proof (takes_live _ _ _ _ _ Ht) as Hl. destruct r as [p|].
  - destruct Hl as (_ & bytes & Hlen & Hlive).
    destruct (fill_front_run s1 g1 p bytes (replicate (Z.to_nat (count * size)) 0) Hm1) as (m & -> & Hm2);
      [rewrite Hlive; apply lookup_insert_eq|rewrite length_replicate; lia|].
    cbn [mbind outcome_bind]. eexists _, _, _. split; [done|]. split; [|done]. apply (NCalloc _ _ _ _ _ (Some p) g1); [lia|done].
  - eexists _, _, _. split; [done|]. split; [|done]. apply (NCalloc _ _ _ _ _ None g1); [lia|done].
Qed.

Lemma realloc_takes s g p old size : models s g -> nh_live g !! p = Some old -> 1 <= size <= size_max ->
  exists r s' g', arena_realloc s (Some p) size = Ret (r, s') /\
    native_step (arena_refuses s) (arena_resets s) g (PRealloc (Some p) size) r g' /\ models s' g'.
Proof.
  intros Hm Hp Hsize. pose proof Hm as [HI Hcap]. destruct (live_header _ _ _ _ _ HI Hp) as (x & Hx & Hused & Hlen & _).
  assert (Hk : nh_capacity g !! header_of p = Some (aa_capacity x)) by (rewrite Hcap; apply capacities_lookup; eauto).
  unfold arena_realloc. rewrite (proj2 (Z.eqb_neq _ _)) by lia. unfold header. rewrite Hx.
  cbn [mbind outcome_bind]. destruct (Z.leb_spec size (aa_capacity x)) as [Hfit|Hbig].
  { destruct (resize_run s _ _ p old x size HI Hp Hx) as (bytes & H1 & H2 & H3); [lia|].
    eexists _, _, _. split; [done|]. split; [apply (NReallocInPlace _ _ _ _ old (aa_capacity x) _ bytes); done || lia|]. split; [done|].
    simpl. rewrite Hcap. symmetry. by apply (capacities_insert s _ x). }
  destruct (malloc_takes s g size Hm ltac:(unfold is_size; lia)) as (r & s1 & g1 & -> & Ht & Hm1).
  rewrite Z.max_r in Ht by lia. cbn [mbind outcome_bind]. pose proof (takes_live _ _ _ _ _ Ht) as Hl.
  pose proof (NReallocMove _ (arena_resets s) _ _ _ _ _ _ _ Hp Hk Hbig Ht ltac:(lia)) as Hstep.
  destruct r as [q|]; [|by eexists _, _, _]. destruct Hl as (Hq & fresh & Hfresh & Hlive).
  assert (Hne : q <> p) by (intros ->; congruence).
  assert (Hp1 : nh_live g1 !! p = Some old) by (by rewrite Hlive, lookup_insert_ne).
  destruct (live_header _ _ _ _ _ (proj1 Hm1) Hp1) as (y & Hy & _ & Hylen & Hybytes).
  rewrite Hy. cbn [mbind outcome_bind]. rewrite (proj2 (Z.ltb_lt _ _)) by lia. unfold memcpy. rewrite Hybytes.
  destruct (fill_front_run s1 g1 q fresh old Hm1) as (m & -> & Hm2); [rewrite Hlive; apply lookup_insert_eq|lia|].
  cbn [mbind outcome_bind]. destruct (heap_release_run (set_memory s1 m) _ p old Hm2) as (s2 & -> & Hm3); [by simpl; rewrite lookup_alter_ne|].
  cbn [mbind outcome_bind]. by eexists _, _, _.
Qed.

Lemma reset_native_run s g boundary : models s g ->
  exists s' g', exec_pool s (PReset boundary) = Ret (None, s') /\
    native_step (arena_refuses s) (arena_resets s) g (PReset boundary) None g' /\ models s' g'.
Proof.
  intros [HI Hcap]. simpl. destruct (reset_run acquire reset (ps_arena s) (ps_heap s) (ps_context s)
    (ba_worker (ps_arena s)) boundary (pi_arena _ _ _ HI) eq_refl) as (r & arena & h & c & Erun & Hr).
  assert (Hans : arena_resets s boundary (has_value r)) by (by eexists _, _).
  rewrite Erun. cbn [mbind outcome_bind]. eexists _, _. split; [done|]. split; [by apply NReset|].
  destruct r as [[]|e]; simpl.
  - destruct Hr as (Harena & Hsame & _ & _ & _ & _ & _ & Hgen & Hoff & Hcap0 & _). split; [|done].
    pose proof (pi_generation _ _ _ HI). pose proof (pi_worker _ _ _ HI).
    split; cbn [ps_arena ps_heap ps_pool ps_headers no_blocks nh_live nh_free]; try done.
    + by rewrite (sa_worker _ _ Hsame).
    + lia.
    + unfold synchronize. cbn [ps_arena ps_pool]. by rewrite (proj2 (Z.eqb_neq _ _)) by lia.
    + constructor.
    + intros a. rewrite lookup_empty, elem_of_nil, lookup_empty. split; [by intros [? ?]|]. by intros [?|[? ?]].
  - destruct Hr as (-> & -> & Hc). split; [|done].
    assert (Hm : snd c = ps_memory s).
    { destruct Hc as [->|[e' He]]; [done|]. by eapply reset_refused. }
    destruct HI as [H1 H2 H3 H4 H5 H6 H7 H8 H9 H10].
    split; unfold ps_memory in *; cbn [ps_arena ps_heap ps_pool ps_headers ps_context]; try rewrite Hm; try done.
    revert H6. unfold synchronize. simpl. by destruct (negb _).
Qed.

Lemma exec_native_ok s g op : models s g -> pool_legal (nh_live g) op ->
  exists r s' g', exec_pool s op = Ret (r, s') /\ native_step (arena_refuses s) (arena_resets s) g op r g' /\ models s' g'.
Proof.
  intros Hm Hl. destruct op as [size|count size|[p|] size|[p|]|p offset bytes|boundary]; simpl in Hl; cbn [exec_pool].
  - destruct (malloc_takes s g size Hm Hl) as (r & s' & g' & -> & Ht & Hm'). eexists _, _, _. split; [done|]. split; [by constructor|done].
  - destruct Hl. by apply calloc_takes.
  - destruct Hl as [Hs Hp]. destruct (Hp p eq_refl) as [old Hold]. destruct (Z.eq_dec size 0) as [->|Hne].
    + unfold arena_realloc. rewrite Z.eqb_refl. destruct (heap_release_run s g p old Hm Hold) as (s' & -> & Hm').
      cbn [mbind outcome_bind]. eexists _, _, _. split; [done|]. split; [constructor|done].
    + unfold is_size in Hs. apply (realloc_takes s g p old); done || lia.
  - destruct Hl as [Hs _]. destruct (malloc_takes s g size Hm Hs) as (r & s' & g' & E & Ht & Hm'). eexists _, _, _. split; [exact E|]. split; [by constructor|done].
  - destruct (Hl p eq_refl) as [old Hold]. destruct (heap_release_run s g p old Hm Hold) as (s' & -> & Hm').
    cbn [mbind outcome_bind]. eexists _, _, _. split; [done|]. split; [constructor|done].
  - eexists _, _, _. split; [done|]. split; [by constructor|done].
  - destruct Hl as (old & Hold & Ho & Hfit). destruct (fill_run s g p old offset bytes Hm Hold Ho Hfit) as (m & -> & Hm').
    cbn [mbind outcome_bind]. eexists _, _, _. split; [done|]. split; [by constructor|done].
  - destruct (reset_native_run s g boundary Hm) as (s' & g' & H). by exists None, s', g'.
Qed.

(** The same with the free blocks left out. *)
Lemma exec_pool_ok s live free op :
  pool_inv s live free -> pool_legal live op ->
  exists r s' live' free', exec_pool s op = Ret (r, s') /\ heap_step live op r live' /\ pool_inv s' live' free'.
Proof.
  intros HI Hl. destruct (exec_native_ok s (MkNativeHeap live free (capacities s)) op) as (r & s' & g' & E & Hstep & Hm); [by split|done|].
  exists r, s', (nh_live g'), (nh_free g'). split; [done|]. split; [|apply Hm]. eapply (native_heap_step _ _ (MkNativeHeap live free (capacities s))); done.
Qed.

Lemma reset_op_run s live free boundary :
  pool_inv s live free ->
  exists s' live' free', exec_pool s (PReset boundary) = Ret (None, s') /\
    heap_step live (PReset boundary) None live' /\ pool_inv s' live' free'.
Proof.
  intros HI. destruct (reset_native_run s (MkNativeHeap live free (capacities s)) boundary ltac:(by split)) as (s' & g' & E & Hstep & Hm).
  exists s', (nh_live g'), (nh_free g'). split; [done|]. split; [|apply Hm].
  by apply (native_heap_step _ _ (MkNativeHeap live free (capacities s)) (PReset boundary) None g') in Hstep.
Qed.

(** [s] implements the heap [live]. *)
Definition implements s live : Prop := exists free, pool_inv s live free.

(** A pool just constructed over an arena without storage. *)
Lemma pool_construct_inv arena h c worker :
  arena_inv acquire reset arena h -> ba_capacity arena = 0 -> value_ worker = value_ (ba_worker arena) ->
  pool_inv (MkPoolState (NativeMemoryPool_construct worker arena) arena h c ∅) ∅ [].
Proof.
  intros Ha Hc Hw. split; cbn [ps_arena ps_heap ps_pool ps_headers NativeMemoryPool_construct np_worker np_generation];
    try done.
  - rewrite synchronize_id by done. done.
  - constructor.
  - intros a. rewrite lookup_empty, elem_of_nil, lookup_empty. split; [by intros [? ?]|]. by intros [?|[? ?]].
Qed.

(** C10: the pool implements a heap with a free list: a fresh pool models the heap without
    blocks; from any state that models a heap every legal call returns, steps the heap as
    [native_step] says, and models the new heap.  A request for memory is served by the first
    free block that is large enough, the blocks being tried from the last one given back; only
    when there is none is a new block taken, and only when the arena refuses that, or the
    product of [calloc] overflows, does the request fail, with the heap unchanged.  [realloc]
    stays in place as long as the block has the capacity and otherwise takes a block the same
    way, copies the bytes and gives the old block back.  A reset of the arena, when it
    succeeds, ends every block, and changes nothing otherwise.  The bytes in memory at each
    live address are the heap's, and the blocks of two live addresses, their headers included,
    do not overlap. *)
Theorem native_pool_refines_heap :
  (forall arena h c worker, arena_inv acquire reset arena h -> ba_capacity arena = 0 ->
     value_ worker = value_ (ba_worker arena) ->
     models (MkPoolState (NativeMemoryPool_construct worker arena) arena h c ∅) no_blocks) /\
  (forall s g op, models s g -> pool_legal (nh_live g) op ->
     exists r s' g', exec_pool s op = Ret (r, s') /\
       native_step (arena_refuses s) (arena_resets s) g op r g' /\ models s' g') /\
  (forall s g p bytes, models s g -> nh_live g !! p = Some bytes ->
     span_bytes (ps_memory s) (MkSpan (Some p) (Z.of_nat (length bytes))) = Some bytes) /\
  (forall s g p q bp bq, models s g -> nh_live g !! p = Some bp -> nh_live g !! q = Some bq -> p <> q ->
     disjoint_spans (MkSpan (Some (header_of p)) (sizeof_ArenaAllocation + Z.of_nat (length bp)))
       (MkSpan (Some (header_of q)) (sizeof_ArenaAllocation + Z.of_nat (length bq)))).
Proof.
  split; [|split; [exact exec_native_ok|split]].
  - intros arena h c worker Ha Hc Hw. split; [by apply pool_construct_inv|]. symmetry. apply fmap_empty.
  - intros s g p bytes [HI _] Hp. destruct (live_header _ _ _ _ _ HI Hp) as (x & _ & _ & Hlen & Hb).
    by rewrite <- Hlen.
  - intros s g p q bp bq [HI _] Hp Hq Hne pa pb [= <-] [= <-].
    destruct (live_header _ _ _ _ _ HI Hp) as (x & Hx & Hux & Hlx & _).
    destruct (live_header _ _ _ _ _ HI Hq) as (y & Hy & Huy & Hly & _).
    destruct (lay_apart _ _ _ (pi_layout _ _ _ HI) (header_of p) (header_of q) (aa_capacity x) (aa_capacity y)) as [H|H];
      [apply capacities_lookup; eauto|apply capacities_lookup; eauto| |..];
      [|unfold sizeof_ArenaAllocation in *; cbn [span_size]; right; lia..].
    intros E. apply Hne. by rewrite <- (payload_header p), E, payload_header.
Qed.

End native_spec.

(** ** A pool over a block source that allocates fresh blocks *)
Definition pool_acquire (c : nat * Memory) (n : Z) : Result MutableByteView * (nat * Memory) :=
  bump_acquire (fst c) (snd c) n.
Definition pool_reset (c : nat * Memory) : Result unit * (nat * Memory) := (Ok tt, c).

#[export] Instance pool_source : PoolSource pool_acquire pool_reset.
Proof.
  split; [|done]. intros [c m] n v c'. unfold pool_acquire, bump_acquire. simpl.
  destruct (_ && _) eqn:E; [|done]. rewrite andb_true_iff, !Z.leb_le in E. intros [= <- <-].
  exists (MkPointer c 0), (replicate (Z.to_nat n) 0).
  split; simpl; [done|apply lookup_insert_eq|lia|lia|rewrite length_replicate; lia].
Qed.

Definition pool_arena : BoundedArena (nat * Memory) :=
  BoundedArena_construct 9 demo_worker 1 (arena_source pool_acquire pool_reset) 2 48 56.
Definition pool_start : PoolState nat :=
  MkPoolState (NativeMemoryPool_construct demo_worker pool_arena) pool_arena demo_heap (0%nat, ∅) ∅.

Lemma pool_arena_inv : arena_inv pool_acquire pool_reset pool_arena demo_heap.
Proof.
  split; simpl; try done.
  - apply Inv_construct_reservation, reachable_Inv, demo_tree_reachable.
  - exists (MkMemoryBudget demo_worker 60 0 0 0 (Some 0%nat)). done.
Qed.

Lemma pool_start_implements : implements (acquire := pool_acquire) (reset := pool_reset) pool_start ∅.
Proof.
  exists []. apply (pool_construct_inv (acquire := pool_acquire) (reset := pool_reset)); [apply pool_arena_inv|done..].
Qed.

(** Eight bytes from the arena; no room for eight more; once freed, the block serves four. *)
Example pool_reuses_blocks :
  ('(p, s) ← arena_malloc pool_start 8;
   '(q, s) ← arena_malloc s 8;
   s ← arena_free s p;
   '(r, s) ← arena_malloc s 4;
   Ret (p, q, r)) = Ret (Some (MkPointer 0 32), None, Some (MkPointer 0 32)).
Proof. vm_compute. reflexivity. Qed.

(** A block of eight bytes given back serves a request for four. *)
Definition pool_freed : outcome (PoolState nat) :=
  '(p, s) ← arena_malloc pool_start 8; arena_free s p.
Definition freed_heap : NativeHeap := MkNativeHeap ∅ [MkPointer 0 0] {[MkPointer 0 0 := 8]}.

Lemma pool_freed_models : exists s, pool_freed = Ret s /\ models (acquire := pool_acquire) (reset := pool_reset) s freed_heap.
Proof.
  assert (Hview : ('(r, s) ← arena_malloc pool_start 8; Ret (r, np_free_list (ps_pool (synchronize s)), capacities s)) =
    Ret (Some (MkPointer 0 32), None, {[MkPointer 0 0 := 8]})) by (vm_compute; reflexivity).
  unfold pool_freed. destruct (arena_malloc pool_start 8) as [[r s]|] eqn:E; [|done].
  cbn [mbind outcome_bind] in Hview. injection Hview as -> Hlist Hcap.
  destruct pool_start_implements as [free HI]. destruct free as [|a free].
  2:{ destruct (pi_split _ _ _ HI a) as [_ H]. destruct H as [? H]; [left; apply elem_of_cons; auto|done]. }
  destruct (malloc_ok (acquire := pool_acquire) (reset := pool_reset) pool_start ∅ [] 8 HI ltac:(by unfold is_size, size_max, u64_max))
    as (r1 & s1 & free1 & E1 & Hr). rewrite E in E1. injection E1 as <- <-.
  destruct Hr as (_ & bytes & Hb & HI1).
  pose proof (pi_chain _ _ _ HI1) as Hch. rewrite Hlist in Hch.
  destruct free1 as [|b free1]; [|by destruct Hch].
  destruct (heap_release_run (acquire := pool_acquire) (reset := pool_reset) s
    (MkNativeHeap (<[MkPointer 0 32 := bytes]> ∅) [] (capacities s)) (MkPointer 0 32) bytes) as (s2 & E2 & Hm);
    [by split|apply lookup_insert_eq|].
  cbn [mbind outcome_bind]. exists s2. split; [exact E2|]. revert Hm. unfold release. simpl.
  rewrite delete_insert_id by done. rewrite Hcap. done.
Qed.

Lemma native_pool_refines_heap_witness :
  exists s r s' g', pool_freed = Ret s /\ exec_pool s (PMalloc 4) = Ret (r, s') /\
    native_step (arena_refuses s) (arena_resets s) freed_heap (PMalloc 4) r g' /\
    models (acquire := pool_acquire) (reset := pool_reset) s' g'.
Proof.
  destruct pool_freed_models as (s & E & Hm).
  destruct (proj1 (proj2 (native_pool_refines_heap (acquire := pool_acquire) (reset := pool_reset))) s freed_heap (PMalloc 4) Hm)
    as (r & s' & g' & H).
  - apply demo_size_small. lia.
  - exists s, r, s', g'. split; [exact E|exact H].
Defined.
