(* ===== verification/Json.v ===== *)
(** * The JSON documents of the benchmark evaluator

    Models the class [JsonDocument] of [bench/evaluator.cpp]: a document is read into a fixed
    array and parsed into three fixed tables (nodes, object members, array elements) that refer
    to each other by index.  A [std::string_view] into the array is modelled by its characters,
    a [const JsonNode*] by the index of the node.  A table is modelled by its entries in use.
    Indices stay below the table sizes (at most 262144), so cursors and counts are [nat].
    Every parsing function that returns [false] makes [load] fail, after which nothing reads
    the document; failure is [None].  The mutual recursion has fuel. *)
From S2P Require Import Prelude.
From Stdlib Require Import ZArith Lia Ascii String.
From stdpp Require Import base numbers list option.

Set Default Goal Selector "!".
#[local] Open Scope Z_scope.

(** ** Limits *)
Definition maximum_document_bytes : nat := N.to_nat 262144.
Definition maximum_json_nodes : nat := N.to_nat 8192.
Definition maximum_json_members : nat := N.to_nat 1024.
Definition maximum_json_elements : nat := N.to_nat 8192.
Definition maximum_depth : nat := 64.

(** ** Data *)
Abbreviation text := (list ascii).

Inductive JsonType := null_value | boolean | number | string_value | array | object.

#[export] Instance JsonType_eq_dec : EqDecision JsonType.
Proof. solve_decision. Defined.

Record JsonNode := MkJsonNode {
  jn_type : JsonType; jn_string : text; jn_raw : text; jn_number : Z; jn_boolean : bool }.
Record JsonMember := MkJsonMember { jm_parent : nat; jm_key : text; jm_value : nat }.
Record JsonElement := MkJsonElement { je_parent : nat; je_value : nat }.

Record JsonDocument := MkJsonDocument {
  jd_storage : text;
  jd_cursor : nat;
  jd_root : nat;
  jd_nodes : list JsonNode;
  jd_members : list JsonMember;
  jd_elements : list JsonElement }.

Definition jd_size (d : JsonDocument) : nat := length (jd_storage d).
Definition jd_node_count (d : JsonDocument) : nat := length (jd_nodes d).

(** ** Characters *)
Definition code (c : ascii) : Z := Z.of_N (N_of_ascii c).
Definition is_char (c : ascii) (k : ascii) : bool := Ascii.eqb c k.

Definition word (s : string) : text := list_ascii_of_string s.

Definition quote : ascii := ascii_of_nat 34.
Definition backslash : ascii := ascii_of_nat 92.
Definition newline : ascii := ascii_of_nat 10.
Definition carriage_return : ascii := ascii_of_nat 13.
Definition tab : ascii := ascii_of_nat 9.

Definition is_space (c : ascii) : bool :=
  is_char c " " || is_char c newline || is_char c carriage_return || is_char c tab.
Definition is_digit (c : ascii) : bool := (48 <=? code c) && (code c <=? 57).
Definition is_hex (c : ascii) : bool :=
  is_digit c || ((97 <=? code c) && (code c <=? 102)) || ((65 <=? code c) && (code c <=? 70)).

Definition digit_value (c : ascii) : Z := code c - 48.
Definition decimal (ds : text) : Z := foldl (fun v c => v * 10 + digit_value c) 0 ds.

(** [std::from_chars] on a range of digits, which it consumes whole. *)
Definition from_chars (ds : text) : option Z :=
  if decimal ds <=? u64_max then Some (decimal ds) else None.

(** ** The cursor *)
Definition at_cursor (d : JsonDocument) : option ascii := jd_storage d !! jd_cursor d.
Definition set_cursor (d : JsonDocument) (cursor : nat) : JsonDocument :=
  MkJsonDocument (jd_storage d) cursor (jd_root d) (jd_nodes d) (jd_members d) (jd_elements d).
Definition advance (d : JsonDocument) (n : nat) : JsonDocument := set_cursor d (jd_cursor d + n).
Definition view_of (d : JsonDocument) (start finish : nat) : text :=
  take (finish - start) (drop start (jd_storage d)).

Fixpoint span_while (p : ascii -> bool) (t : text) : nat :=
  match t with c :: rest => if p c then S (span_while p rest) else 0%nat | [] => 0%nat end.

(** [while (cursor_ < size_ && is_space(storage_[cursor_])) ++cursor_;] *)
Definition skip_space (d : JsonDocument) : JsonDocument :=
  advance d (span_while is_space (drop (jd_cursor d) (jd_storage d))).

Definition is_escape (c : ascii) : bool :=
  is_char c quote || is_char c backslash || is_char c "/" || is_char c "b" || is_char c "f" ||
  is_char c "n" || is_char c "r" || is_char c "t".

(** The loop of [parse_string] over the characters from the cursor on: how many come before
    the closing quote. *)
Fixpoint string_loop (t : text) : option nat :=
  match t with
  | [] => None
  | c :: rest =>
      if is_char c quote then Some 0%nat
      else if code c <? 32 then None
      else if is_char c backslash then
        match rest with
        | [] => None
        | e :: rest =>
            if is_char e "u" then
              match rest with
              | a :: b :: x :: y :: rest =>
                  if is_hex a && is_hex b && is_hex x && is_hex y
                  then n ← string_loop rest; Some (6 + n)%nat else None
              | _ => None
              end
            else if is_escape e then n ← string_loop rest; Some (2 + n)%nat
            else None
        end
      else n ← string_loop rest; Some (S n)
  end.

Definition parse_string (d : JsonDocument) : option (text * JsonDocument) :=
  match at_cursor d with
  | Some c =>
      if negb (is_char c quote) then None else
      let start := S (jd_cursor d) in
      n ← string_loop (drop start (jd_storage d));
      Some (view_of d start (start + n), set_cursor d (start + n + 1))
  | None => None
  end.

Definition parse_number (d : JsonDocument) : option (Z * JsonDocument) :=
  let start := jd_cursor d in
  match at_cursor d with
  | Some c =>
      if negb (is_digit c) then None else
      d ← (if is_char c "0" then
             let d := advance d 1 in
             match at_cursor d with
             | Some c => if is_digit c then None else Some d
             | None => Some d
             end
           else Some (advance d (span_while is_digit (drop start (jd_storage d)))));
      output ← from_chars (view_of d start (jd_cursor d));
      Some (output, d)
  | None => None
  end.

(** ** The tables *)
Definition append_node (d : JsonDocument) (type : JsonType) : option (nat * JsonDocument) :=
  if bool_decide (jd_node_count d = maximum_json_nodes) then None
  else Some (jd_node_count d,
             MkJsonDocument (jd_storage d) (jd_cursor d) (jd_root d)
               (jd_nodes d ++ [MkJsonNode type [] [] 0 false]) (jd_members d) (jd_elements d)).

Definition update_node (d : JsonDocument) (index : nat) (f : JsonNode -> JsonNode) : JsonDocument :=
  MkJsonDocument (jd_storage d) (jd_cursor d) (jd_root d) (alter f index (jd_nodes d))
    (jd_members d) (jd_elements d).

Definition set_string (s : text) (n : JsonNode) : JsonNode :=
  MkJsonNode (jn_type n) s (jn_raw n) (jn_number n) (jn_boolean n).
Definition set_raw (s : text) (n : JsonNode) : JsonNode :=
  MkJsonNode (jn_type n) (jn_string n) s (jn_number n) (jn_boolean n).
Definition set_number (v : Z) (n : JsonNode) : JsonNode :=
  MkJsonNode (jn_type n) (jn_string n) (jn_raw n) v (jn_boolean n).
Definition set_boolean (b : bool) (n : JsonNode) : JsonNode :=
  MkJsonNode (jn_type n) (jn_string n) (jn_raw n) (jn_number n) b.

Definition append_member (d : JsonDocument) (m : JsonMember) : option JsonDocument :=
  if bool_decide (length (jd_members d) = maximum_json_members) then None
  else Some (MkJsonDocument (jd_storage d) (jd_cursor d) (jd_root d) (jd_nodes d)
               (jd_members d ++ [m]) (jd_elements d)).

Definition append_element (d : JsonDocument) (e : JsonElement) : option JsonDocument :=
  if bool_decide (length (jd_elements d) = maximum_json_elements) then None
  else Some (MkJsonDocument (jd_storage d) (jd_cursor d) (jd_root d) (jd_nodes d)
               (jd_members d) (jd_elements d ++ [e])).

Definition is_key (parent : nat) (key : text) (m : JsonMember) : bool :=
  bool_decide (jm_parent m = parent) && bool_decide (jm_key m = key).

Definition looking_at (d : JsonDocument) (c : ascii) : bool :=
  match at_cursor d with Some x => is_char x c | None => false end.
Definition looking_at_word (d : JsonDocument) (w : text) : bool :=
  bool_decide (take (length w) (drop (jd_cursor d) (jd_storage d)) = w).

(** ** The grammar functions

    A result of [None] is a [false] of the code; the [outcome] is about fuel only. *)
Abbreviation parsed A := (outcome (option (A * JsonDocument))).

(** Continue with the value of a step that succeeded. *)
Definition andthen {A B} (r : option A) (k : A -> outcome (option B)) : outcome (option B) :=
  match r with Some a => k a | None => Ret None end.
Notation "'LET' p ⇐ r 'IN' k" := (andthen r (fun p => k))
  (at level 100, p strict pattern, r at level 90, k at level 100) : laghu_scope.
Notation "'CALL' p ⇐ r 'IN' k" := (x ← r; andthen x (fun p => k))
  (at level 100, p strict pattern, r at level 90, k at level 100) : laghu_scope.

(** [parse_object] and [parse_array] up to their loops. *)
Definition parse_object_with (loop : JsonDocument -> outcome (option JsonDocument)) (d : JsonDocument) :
    outcome (option JsonDocument) :=
  let d := skip_space (advance d 1) in
  if looking_at d "}" then Ret (Some (advance d 1)) else loop d.
Definition parse_array_with (loop : JsonDocument -> outcome (option JsonDocument)) (d : JsonDocument) :
    outcome (option JsonDocument) :=
  let d := skip_space (advance d 1) in
  if looking_at d "]" then Ret (Some (advance d 1)) else loop d.

(** What follows an entry: the closing character, or a comma and the next round. *)
Definition parse_separator (close : ascii) (loop : JsonDocument -> outcome (option JsonDocument))
    (d : JsonDocument) : outcome (option JsonDocument) :=
  let d := skip_space d in
  if looking_at d close then Ret (Some (advance d 1))
  else if negb (looking_at d ",") then Ret None
  else loop (skip_space (advance d 1)).

(** The value a parsed node gets once its text has been read. *)
Definition finish_value (start : nat) (x : nat * JsonDocument) : nat * JsonDocument :=
  let '(output, d) := x in
  (output, update_node d output (set_raw (view_of d start (jd_cursor d)))).

Definition parse_literal (d : JsonDocument) (type : JsonType) (b : bool) (length : nat) :
    option (nat * JsonDocument) :=
  '(output, d) ← append_node d type;
  Some (output, advance (update_node d output (set_boolean b)) length).

Fixpoint parse_value (fuel : nat) (depth : nat) (d : JsonDocument) {struct fuel} : parsed nat :=
  match fuel with
  | O => Stop OutOfFuel
  | S fuel =>
      if bool_decide (maximum_depth < depth)%nat then Ret None else
      let d := skip_space d in
      let start := jd_cursor d in
      match at_cursor d with
      | None => Ret None
      | Some c =>
          CALL x ⇐
            (if is_char c quote then
               LET (output, d) ⇐ append_node d string_value IN
               LET (s, d) ⇐ parse_string d IN
               Ret (Some (output, update_node d output (set_string s)))
             else if is_char c "{" then
               LET (output, d) ⇐ append_node d object IN
               CALL d ⇐ parse_object_with (parse_members fuel output depth) d IN
               Ret (Some (output, d))
             else if is_char c "[" then
               LET (output, d) ⇐ append_node d array IN
               CALL d ⇐ parse_array_with (parse_elements fuel output depth) d IN
               Ret (Some (output, d))
             else if is_char c "t" && looking_at_word d (word "true")
               then Ret (parse_literal d boolean true 4)
             else if is_char c "f" && looking_at_word d (word "false")
               then Ret (parse_literal d boolean false 5)
             else if is_char c "n" && looking_at_word d (word "null")
               then Ret (parse_literal d null_value false 4)
             else
               LET (output, d) ⇐ append_node d number IN
               LET (v, d) ⇐ parse_number d IN
               Ret (Some (output, update_node d output (set_number v))))
          IN Ret (Some (finish_value start x))
      end
  end
with parse_members (fuel : nat) (parent depth : nat) (d : JsonDocument) {struct fuel} :
    outcome (option JsonDocument) :=
  match fuel with
  | O => Stop OutOfFuel
  | S fuel =>
      if bool_decide (jd_size d <= jd_cursor d)%nat then Ret None else
      LET (key, d) ⇐ parse_string d IN
      if existsb (is_key parent key) (jd_members d) then Ret None else
      let d := skip_space d in
      if negb (looking_at d ":") then Ret None else
      let d := skip_space (advance d 1) in
      CALL (value, d) ⇐ parse_value fuel (S depth) d IN
      LET d ⇐ append_member d (MkJsonMember parent key value) IN
      parse_separator "}" (parse_members fuel parent depth) d
  end
with parse_elements (fuel : nat) (parent depth : nat) (d : JsonDocument) {struct fuel} :
    outcome (option JsonDocument) :=
  match fuel with
  | O => Stop OutOfFuel
  | S fuel =>
      if bool_decide (jd_size d <= jd_cursor d)%nat then Ret None else
      CALL (value, d) ⇐ parse_value fuel (S depth) d IN
      LET d ⇐ append_element d (MkJsonElement parent value) IN
      parse_separator "]" (parse_elements fuel parent depth) d
  end.

(** Each call of one of the three functions from another, two calls down, has read at least
    one character. *)
Definition parse_fuel (t : text) : nat := 2 * length t + 2.

(** [load], once the file has been read. *)
Definition load_text (t : text) : outcome (option JsonDocument) :=
  if bool_decide (t = []) then Ret None else
  let d := MkJsonDocument t 0 0 [] [] [] in
  CALL (root, d) ⇐ parse_value (parse_fuel t) 0 d IN
  let d := skip_space (MkJsonDocument (jd_storage d) (jd_cursor d) root (jd_nodes d) (jd_members d) (jd_elements d)) in
  Ret (if bool_decide (jd_cursor d = jd_size d) then Some d else None).

(** ** Access *)
Definition node (d : JsonDocument) (index : nat) : option nat :=
  if bool_decide (index < jd_node_count d)%nat then Some index else None.
Definition root (d : JsonDocument) : option nat := node d (jd_root d).

(** [pointer != nullptr && pointer->type == type] *)
Definition has_type (d : JsonDocument) (p : option nat) (type : JsonType) : bool :=
  match p with
  | Some i => match jd_nodes d !! i with Some n => bool_decide (jn_type n = type) | None => false end
  | None => false
  end.

Definition field (d : JsonDocument) (p : option nat) (key : text) : option nat :=
  if negb (has_type d p object) then None else
  match p with
  | None => None
  | Some index =>
      match find (is_key index key) (jd_members d) with
      | Some m => node d (jm_value m)
      | None => None
      end
  end.

Definition is_child (index : nat) (e : JsonElement) : bool := bool_decide (je_parent e = index).

(** The [ordinal]-th element of an array, counting the entries with its index as parent. *)
Fixpoint nth_child (index ordinal : nat) (l : list JsonElement) : option JsonElement :=
  match l with
  | [] => None
  | e :: rest =>
      if is_child index e then
        match ordinal with O => Some e | S ordinal => nth_child index ordinal rest end
      else nth_child index ordinal rest
  end.

Definition element (d : JsonDocument) (p : option nat) (ordinal : nat) : option nat :=
  if negb (has_type d p array) then None else
  match p with
  | None => None
  | Some index =>
      match nth_child index ordinal (jd_elements d) with
      | Some e => node d (je_value e)
      | None => None
      end
  end.

Definition element_count (d : JsonDocument) (p : option nat) : nat :=
  if negb (has_type d p array) then 0%nat else
  match p with
  | None => 0%nat
  | Some index => length (List.filter (is_child index) (jd_elements d))
  end.

(** What the node at [p] holds; the code reads it after testing [p] and the type. *)
Definition node_at (d : JsonDocument) (p : option nat) : option JsonNode :=
  match p with Some i => jd_nodes d !! i | None => None end.
