(* ===== verification/JsonSpec.v ===== *)
(** * The JSON parser accepts exactly the grammar

    The reference definition is a grammar of JSON texts ([json_text]) for trees of values.  A
    document represents a tree ([rep]) when its tables do, each node's raw text being a text of
    its value.  The parser is shown to return on every input (the fuel is enough), to accept
    only texts of the grammar and to represent the tree read, and to accept every text of the
    grammar within the limits of its tables. *)
From S2P Require Import Prelude Json.
From Stdlib Require Import ZArith Lia Ascii String.
From stdpp Require Import base numbers list option.

Set Default Goal Selector "!".
#[local] Open Scope Z_scope.

(** ** The grammar *)
#[local] Unset Elimination Schemes.
Inductive json :=
  | JNull
  | JBool (b : bool)
  | JNumber (n : Z)
  | JString (s : text)
  | JArray (vs : list json)
  | JObject (kvs : list (text * json)).
#[local] Set Elimination Schemes.

Definition spaces (w : text) : Prop := Forall (fun c => is_space c = true) w.

(** The characters between the quotes of a string, escapes unread. *)
Inductive string_body : text -> Prop :=
  | sb_nil : string_body []
  | sb_plain c s : 32 <= code c -> c <> quote -> c <> backslash -> string_body s -> string_body (c :: s)
  | sb_escape e s : is_escape e = true -> string_body s -> string_body (backslash :: e :: s)
  | sb_unicode a b x y s :
      is_hex a = true -> is_hex b = true -> is_hex x = true -> is_hex y = true ->
      string_body s -> string_body (backslash :: ("u" : ascii)%char :: a :: b :: x :: y :: s).

Definition string_text (s : text) : text := quote :: s ++ [quote].

(** Unsigned decimal integers that fit 64 bits, without leading zeros. *)
Definition number_text (ds : text) : Prop :=
  Forall (fun c => is_digit c = true) ds /\ decimal ds <= u64_max /\
  exists c rest, ds = c :: rest /\ (c = "0"%char -> rest = []).

Inductive json_text : nat -> json -> text -> Prop :=
  | jt_null d : (d <= maximum_depth)%nat -> json_text d JNull (word "null")
  | jt_true d : (d <= maximum_depth)%nat -> json_text d (JBool true) (word "true")
  | jt_false d : (d <= maximum_depth)%nat -> json_text d (JBool false) (word "false")
  | jt_number d ds : (d <= maximum_depth)%nat -> number_text ds -> json_text d (JNumber (decimal ds)) ds
  | jt_string d s : (d <= maximum_depth)%nat -> string_body s -> json_text d (JString s) (string_text s)
  | jt_array_empty d w : (d <= maximum_depth)%nat -> spaces w ->
      json_text d (JArray []) ("["%char :: w ++ ["]"%char])
  | jt_array d w vs t : (d <= maximum_depth)%nat -> spaces w -> elements_text (S d) vs t ->
      json_text d (JArray vs) ("["%char :: w ++ t ++ ["]"%char])
  | jt_object_empty d w : (d <= maximum_depth)%nat -> spaces w ->
      json_text d (JObject []) ("{"%char :: w ++ ["}"%char])
  | jt_object d w kvs t : (d <= maximum_depth)%nat -> spaces w -> members_text (S d) kvs t ->
      json_text d (JObject kvs) ("{"%char :: w ++ t ++ ["}"%char])
with elements_text : nat -> list json -> text -> Prop :=
  | et_one d v t w : json_text d v t -> spaces w -> elements_text d [v] (t ++ w)
  | et_cons d v t w1 w2 vs ts : json_text d v t -> spaces w1 -> spaces w2 -> elements_text d vs ts ->
      elements_text d (v :: vs) (t ++ w1 ++ ","%char :: w2 ++ ts)
with members_text : nat -> list (text * json) -> text -> Prop :=
  | mt_one d k v w1 w2 t w3 : string_body k -> spaces w1 -> spaces w2 -> json_text d v t -> spaces w3 ->
      members_text d [(k, v)] (string_text k ++ w1 ++ ":"%char :: w2 ++ t ++ w3)
  | mt_cons d k v w1 w2 t w3 w4 kvs ts :
      string_body k -> spaces w1 -> spaces w2 -> json_text d v t -> spaces w3 -> spaces w4 ->
      k ∉ map fst kvs -> members_text d kvs ts ->
      members_text d ((k, v) :: kvs) (string_text k ++ w1 ++ ":"%char :: w2 ++ t ++ w3 ++ ","%char :: w4 ++ ts).

Scheme json_text_mut := Minimality for json_text Sort Prop
  with elements_text_mut := Minimality for elements_text Sort Prop
  with members_text_mut := Minimality for members_text Sort Prop.
Combined Scheme json_text_mutind from json_text_mut, elements_text_mut, members_text_mut.

(** ** Characters and runs of characters *)
Lemma is_char_true c k : is_char c k = true -> c = k.
Proof. apply Ascii.eqb_eq. Qed.
Lemma is_char_false c k : is_char c k = false -> c <> k.
Proof. apply Ascii.eqb_neq. Qed.
Lemma is_char_refl c : is_char c c = true.
Proof. apply Ascii.eqb_refl. Qed.

Lemma span_while_spec p t :
  exists rest, t = take (span_while p t) t ++ rest /\ Forall (fun c => p c = true) (take (span_while p t) t) /\
    (span_while p t <= length t)%nat /\ (forall c r, rest = c :: r -> p c = false).
Proof.
  induction t as [|c t IH]; simpl; [by exists []|].
  destruct (p c) eqn:E; simpl.
  - destruct IH as (rest & H1 & H2 & H3 & H4). exists rest. split; [by rewrite H1 at 1|]. split; [by constructor|].
    split; [lia|done].
  - exists (c :: t). split; [done|]. split; [constructor|]. split; [lia|]. by intros ? ? [= <- _].
Qed.

Lemma span_while_app p w rest :
  Forall (fun c => p c = true) w -> (forall c r, rest = c :: r -> p c = false) ->
  span_while p (w ++ rest) = length w.
Proof.
  intros Hw Hr. induction Hw as [|c w Hc Hw IH]; simpl.
  - destruct rest as [|c r]; [done|]. simpl. by rewrite (Hr c r eq_refl).
  - by rewrite Hc, IH.
Qed.

(** The string loop stops at the first quote that ends a body. *)
Lemma string_loop_sound t n :
  string_loop t = Some n -> exists s rest, t = s ++ quote :: rest /\ length s = n /\ string_body s.
Proof.
  remember (length t) as k eqn:Hk. revert t n Hk.
  induction k as [k IH] using lt_wf_ind. intros [|c t] n Hk; simpl; [done|].
  assert (Hrec : forall t' m, string_loop t' = Some m -> (length t' < k)%nat ->
    exists s rest, t' = s ++ quote :: rest /\ length s = m /\ string_body s).
  { intros t' m Ht' Hlt. by apply (IH (length t') Hlt t' m eq_refl). }
  simpl in Hk. destruct (is_char c quote) eqn:E1.
  { intros [= <-]. apply is_char_true in E1 as ->. exists [], t. split; [done|]. split; [done|constructor]. }
  destruct (Z.ltb_spec (code c) 32) as [|Hc]; [done|].
  destruct (is_char c backslash) eqn:E2.
  - apply is_char_true in E2 as ->. destruct t as [|e t]; [done|]. simpl in Hk.
    destruct (is_char e "u") eqn:E3.
    + apply is_char_true in E3 as ->. destruct t as [|a [|b [|x [|y t]]]]; try done. simpl in Hk.
      destruct (is_hex a && is_hex b && is_hex x && is_hex y) eqn:E4; [|done].
      rewrite !andb_true_iff in E4. destruct E4 as [[[? ?] ?] ?].
      destruct (string_loop t) as [m|] eqn:Em; [|done]. intros [= <-].
      destruct (Hrec t m Em) as (s & rest & -> & <- & Hs); [lia|].
      exists (backslash :: "u"%char :: a :: b :: x :: y :: s), rest. split; [done|]. split; [done|]. by constructor.
    + destruct (is_escape e) eqn:E4; [|done]. destruct (string_loop t) as [m|] eqn:Em; [|done]. intros [= <-].
      destruct (Hrec t m Em) as (s & rest & -> & <- & Hs); [lia|].
      exists (backslash :: e :: s), rest. split; [done|]. split; [done|]. by constructor.
  - destruct (string_loop t) as [m|] eqn:Em; [|done]. intros [= <-].
    destruct (Hrec t m Em) as (s & rest & -> & <- & Hs); [lia|].
    exists (c :: s), rest. split; [done|]. split; [done|].
    apply is_char_false in E1, E2. by constructor.
Qed.

Lemma string_loop_complete s rest : string_body s -> string_loop (s ++ quote :: rest) = Some (length s).
Proof.
  induction 1 as [|c s Hc Hq Hb Hs IH|e s He Hs IH|a b x y s Ha Hb Hx Hy Hs IH]; simpl.
  - done.
  - destruct (is_char c quote) eqn:E1; [by apply is_char_true in E1|].
    rewrite (proj2 (Z.ltb_ge _ _)) by lia.
    destruct (is_char c backslash) eqn:E2; [by apply is_char_true in E2|]. by rewrite IH.
  - destruct (is_char e "u") eqn:E; [apply is_char_true in E as ->; done|]. rewrite He, IH. done.
  - rewrite Ha, Hb, Hx, Hy. simpl. by rewrite IH.
Qed.

(** ** Reading *)
Definition rest (d : JsonDocument) : text := drop (jd_cursor d) (jd_storage d).

(** From [d] to [d'] exactly the characters [t] have been read. *)
Definition reads (d d' : JsonDocument) (t : text) : Prop :=
  jd_storage d' = jd_storage d /\ jd_cursor d' = (jd_cursor d + length t)%nat /\ rest d = t ++ rest d'.

Lemma reads_intro d d' t r :
  jd_storage d' = jd_storage d -> jd_cursor d' = (jd_cursor d + length t)%nat -> rest d = t ++ r -> reads d d' t.
Proof.
  intros H1 H2 H3. split; [done|]. split; [done|]. rewrite H3. f_equal.
  unfold rest. rewrite H1, H2, <- drop_drop. fold (rest d). rewrite H3. by rewrite drop_app_length.
Qed.

Lemma reads_nil d d' : jd_storage d' = jd_storage d -> jd_cursor d' = jd_cursor d -> reads d d' [].
Proof. intros H1 H2. apply (reads_intro _ _ _ (rest d)); [done|simpl; lia|done]. Qed.

Lemma reads_trans d1 d2 d3 t1 t2 : reads d1 d2 t1 -> reads d2 d3 t2 -> reads d1 d3 (t1 ++ t2).
Proof.
  intros (A1 & A2 & A3) (B1 & B2 & B3). split; [congruence|]. rewrite length_app. split; [lia|].
  rewrite A3, B3. by rewrite app_assoc.
Qed.

Lemma reads_rest d d' t : reads d d' t -> rest d = t ++ rest d'.
Proof. by intros (_ & _ & ?). Qed.

Lemma reads_length d d' t : reads d d' t -> length (rest d) = (length t + length (rest d'))%nat.
Proof. intros H. by rewrite (reads_rest _ _ _ H), length_app. Qed.

Lemma at_cursor_rest d : at_cursor d = head (rest d).
Proof. unfold at_cursor, rest. by rewrite <- (Nat.add_0_r (jd_cursor d)) at 1; rewrite <- lookup_drop; destruct (drop _ _). Qed.

Lemma looking_at_rest d c : looking_at d c = true <-> exists r, rest d = c :: r.
Proof.
  unfold looking_at. rewrite at_cursor_rest. destruct (rest d) as [|x r]; simpl.
  - split; [done|]. by intros [? ?].
  - split; [intros ->%is_char_true; eauto|]. intros [? [= -> ->]]. apply is_char_refl.
Qed.

Lemma advance_reads d t r : rest d = t ++ r -> reads d (advance d (length t)) t.
Proof. intros H. by eapply reads_intro. Qed.

Lemma advance_one d c r : rest d = c :: r -> reads d (advance d 1) [c].
Proof. intros H. by apply (advance_reads d [c] r). Qed.

Lemma skip_space_reads d :
  exists w, reads d (skip_space d) w /\ spaces w /\ (forall c r, rest (skip_space d) = c :: r -> is_space c = false).
Proof.
  unfold skip_space. fold (rest d). destruct (span_while_spec is_space (rest d)) as (r & H1 & H2 & H3 & H4).
  exists (take (span_while is_space (rest d)) (rest d)).
  assert (Hr : reads d (advance d (span_while is_space (rest d))) (take (span_while is_space (rest d)) (rest d))).
  { apply (reads_intro _ _ _ r); [done| |done]. simpl. rewrite length_take. lia. }
  split; [done|]. split; [done|]. intros c k Hk. apply (H4 c k).
  pose proof (reads_rest _ _ _ Hr) as E. rewrite H1 in E at 1. apply app_inv_head in E. congruence.
Qed.

Lemma skip_space_exact d w r :
  rest d = w ++ r -> spaces w -> (forall c k, r = c :: k -> is_space c = false) ->
  reads d (skip_space d) w /\ rest (skip_space d) = r.
Proof.
  intros Hd Hw Hr. unfold skip_space. fold (rest d). rewrite Hd, span_while_app by done.
  pose proof (advance_reads d w r Hd) as H. split; [done|].
  apply reads_rest in H. rewrite Hd in H. by apply app_inv_head in H.
Qed.

Lemma view_of_reads d d' t : reads d d' t -> view_of d' (jd_cursor d) (jd_cursor d') = t.
Proof.
  intros (H1 & H2 & H3). unfold view_of. rewrite H1. fold (rest d). rewrite H3, H2.
  replace (jd_cursor d + length t - jd_cursor d)%nat with (length t) by lia. apply take_app_length.
Qed.

(** Only the cursor has changed. *)
Definition same_tables (d d' : JsonDocument) : Prop :=
  jd_root d' = jd_root d /\ jd_nodes d' = jd_nodes d /\ jd_members d' = jd_members d /\
  jd_elements d' = jd_elements d.

Lemma parse_string_sound d s d' :
  parse_string d = Some (s, d') -> reads d d' (string_text s) /\ string_body s /\ same_tables d d'.
Proof.
  unfold parse_string. rewrite at_cursor_rest. destruct (rest d) as [|c r] eqn:Hr; simpl; [done|].
  destruct (is_char c quote) eqn:E; simpl; [|done]. apply is_char_true in E as ->.
  assert (Hd : drop (S (jd_cursor d)) (jd_storage d) = r).
  { replace (S (jd_cursor d)) with (jd_cursor d + 1)%nat by lia.
    rewrite <- drop_drop. fold (rest d). by rewrite Hr. }
  rewrite Hd. destruct (string_loop r) as [n|] eqn:En; simpl; [|done]. intros [= <- <-].
  apply string_loop_sound in En as (s & k & -> & <- & Hs).
  assert (Hsub : view_of d (S (jd_cursor d)) (S (jd_cursor d + length s)) = s).
  { unfold view_of. rewrite Hd. replace (S (jd_cursor d + length s) - S (jd_cursor d))%nat with (length s) by lia.
    apply take_app_length. }
  rewrite Hsub. split; [|by split]. apply (reads_intro _ _ _ k); simpl; [done| |].
  - rewrite length_app. simpl. lia.
  - rewrite Hr. unfold string_text. simpl. by rewrite <- app_assoc.
Qed.

Lemma parse_string_complete d s r :
  rest d = string_text s ++ r -> string_body s ->
  exists d', parse_string d = Some (s, d') /\ reads d d' (string_text s) /\ same_tables d d'.
Proof.
  intros Hr Hs. assert (exists d', parse_string d = Some (s, d')) as [d' Hd'].
  { unfold parse_string. rewrite at_cursor_rest, Hr. simpl.
    assert (Hd : drop (S (jd_cursor d)) (jd_storage d) = s ++ quote :: r).
    { replace (S (jd_cursor d)) with (jd_cursor d + 1)%nat by lia.
      rewrite <- drop_drop. fold (rest d). rewrite Hr. unfold string_text. simpl. by rewrite <- app_assoc. }
    rewrite Hd, string_loop_complete by done. simpl. eexists. do 3 f_equal.
    unfold view_of. rewrite Hd. replace (S (jd_cursor d + length s) - S (jd_cursor d))%nat with (length s) by lia.
    apply take_app_length. }
  exists d'. split; [done|]. destruct (parse_string_sound _ _ _ Hd') as (H1 & _ & H2). done.
Qed.

(** ** Numbers *)
Lemma parse_number_sound d v d' :
  parse_number d = Some (v, d') ->
  exists ds, reads d d' ds /\ number_text ds /\ v = decimal ds /\ same_tables d d' /\
    (forall c r, rest d' = c :: r -> is_digit c = false).
Proof.
  unfold parse_number. rewrite at_cursor_rest. destruct (rest d) as [|c r] eqn:Hr; [done|].
  cbn [head]. destruct (is_digit c) eqn:Hc; cbn [negb]; [|done].
  assert (forall d1 ds, reads d d1 ds -> same_tables d d1 -> Forall (fun c => is_digit c = true) ds ->
    (exists c rest, ds = c :: rest /\ (c = "0"%char -> rest = [])) ->
    (forall c r, rest d1 = c :: r -> is_digit c = false) ->
    (output ← from_chars (view_of d1 (jd_cursor d) (jd_cursor d1)); Some (output, d1)) = Some (v, d') ->
    exists ds, reads d d' ds /\ number_text ds /\ v = decimal ds /\ same_tables d d' /\
      (forall c r, rest d' = c :: r -> is_digit c = false)) as Hend.
  { intros d1 ds Hreads Hsame Hds Hlead Hstop. rewrite (view_of_reads _ _ _ Hreads). unfold from_chars.
    destruct (Z.leb_spec (decimal ds) u64_max); simpl; [|done]. intros [= <- <-].
    exists ds. split; [done|]. split; [by split|]. done. }
  destruct (is_char c "0") eqn:E0.
  - pose proof (advance_one d c r Hr) as H1. pose proof (reads_rest _ _ _ H1) as H2.
    rewrite Hr in H2. injection H2 as H2. rewrite at_cursor_rest, <- H2.
    apply is_char_true in E0 as ->.
    assert (Hz : same_tables d (advance d 1)) by done.
    assert (Hlead : exists c rest, ["0"%char] = c :: rest /\ (c = "0"%char -> rest = [])) by (by exists "0"%char, []).
    assert (Hdigits : Forall (fun c => is_digit c = true) ["0"%char]) by (by repeat constructor).
    destruct r as [|c' r]; cbn [head].
    + apply (Hend _ _ H1 Hz Hdigits Hlead). rewrite <- H2. done.
    + destruct (is_digit c') eqn:Ec'; [done|]. apply (Hend _ _ H1 Hz Hdigits Hlead).
      rewrite <- H2. by intros ? ? [= <- _].
  - unfold mbind, option_bind at 1. fold (rest d). rewrite Hr.
    destruct (span_while_spec is_digit (c :: r)) as (k & K1 & K2 & K3 & K4).
    set (n := span_while is_digit (c :: r)) in *.
    assert (Hreads : reads d (advance d n) (take n (c :: r))).
    { apply (reads_intro _ _ _ k); [done| |by rewrite Hr]. simpl. rewrite length_take. simpl in *. lia. }
    apply (Hend _ (take n (c :: r)) Hreads); try done.
    + destruct n as [|m] eqn:En; [unfold n in En; simpl in En; by rewrite Hc in En|].
      simpl. exists c, (take m r). split; [done|]. intros ->. by rewrite is_char_refl in E0.
    + intros c' r' Hk. apply (K4 c' r'). apply reads_rest in Hreads. rewrite Hr, K1 in Hreads at 1.
      apply app_inv_head in Hreads. congruence.
Qed.

Lemma parse_number_complete d ds r :
  rest d = ds ++ r -> number_text ds -> (forall c k, r = c :: k -> is_digit c = false) ->
  exists d', parse_number d = Some (decimal ds, d') /\ reads d d' ds /\ same_tables d d'.
Proof.
  intros Hr (Hds & Hmax & c & k & -> & Hlead) Hstop. unfold parse_number. rewrite at_cursor_rest, Hr.
  cbn [head app]. pose proof (Forall_inv Hds) as Hc. rewrite Hc. cbn [negb].
  assert (forall d1, reads d d1 (c :: k) -> same_tables d d1 ->
    exists d', (output ← from_chars (view_of d1 (jd_cursor d) (jd_cursor d1)); Some (output, d1)) =
      Some (decimal (c :: k), d') /\ reads d d' (c :: k) /\ same_tables d d') as Hend.
  { intros d1 Hreads Hsame. rewrite (view_of_reads _ _ _ Hreads). unfold from_chars.
    rewrite (proj2 (Z.leb_le _ _)) by lia. simpl. eauto. }
  destruct (is_char c "0") eqn:E0.
  - apply is_char_true in E0 as ->. rewrite (Hlead eq_refl) in *.
    pose proof (advance_one d _ _ Hr) as H1. pose proof (reads_rest _ _ _ H1) as H2.
    rewrite Hr in H2. injection H2 as H2. rewrite at_cursor_rest, <- H2.
    destruct r as [|c' r]; cbn [head app]; [by apply Hend|]. rewrite (Hstop c' r eq_refl). by apply Hend.
  - unfold mbind, option_bind at 1. fold (rest d). rewrite Hr.
    pose proof (span_while_app is_digit (c :: k) r Hds Hstop) as Hn. rewrite Hn.
    apply Hend; [|by repeat split]. by apply (advance_reads d (c :: k) r).
Qed.

(** ** Tables *)
Definition elements_of (d : JsonDocument) (i : nat) : list nat :=
  map je_value (List.filter (is_child i) (jd_elements d)).
Definition is_member (i : nat) (m : JsonMember) : bool := bool_decide (jm_parent m = i).
Definition members_of (d : JsonDocument) (i : nat) : list (text * nat) :=
  map (fun m => (jm_key m, jm_value m)) (List.filter (is_member i) (jd_members d)).

(** The node at [i] has this type, and its raw text is a text of [v]. *)
Definition node_is (d : JsonDocument) (lo hi i : nat) (v : json) (n : JsonNode) (type : JsonType) : Prop :=
  (lo <= i < hi)%nat /\ jd_nodes d !! i = Some n /\ jn_type n = type /\ exists depth, json_text depth v (jn_raw n).

(** The tables of [d] represent a value at node [i], with nodes from [lo] to [hi] only. *)
Inductive rep (d : JsonDocument) (lo hi : nat) : nat -> json -> Prop :=
  | rep_null i n : node_is d lo hi i JNull n null_value -> rep d lo hi i JNull
  | rep_bool i n : node_is d lo hi i (JBool (jn_boolean n)) n boolean -> rep d lo hi i (JBool (jn_boolean n))
  | rep_number i n : node_is d lo hi i (JNumber (jn_number n)) n number -> rep d lo hi i (JNumber (jn_number n))
  | rep_string i n : node_is d lo hi i (JString (jn_string n)) n string_value -> rep d lo hi i (JString (jn_string n))
  | rep_array i n vs : node_is d lo hi i (JArray vs) n array -> reps d lo hi (elements_of d i) vs ->
      rep d lo hi i (JArray vs)
  | rep_object i n kvs : node_is d lo hi i (JObject kvs) n object -> repm d lo hi (members_of d i) kvs ->
      rep d lo hi i (JObject kvs)
with reps (d : JsonDocument) (lo hi : nat) : list nat -> list json -> Prop :=
  | reps_nil : reps d lo hi [] []
  | reps_cons i v js vs : rep d lo hi i v -> reps d lo hi js vs -> reps d lo hi (i :: js) (v :: vs)
with repm (d : JsonDocument) (lo hi : nat) : list (text * nat) -> list (text * json) -> Prop :=
  | repm_nil : repm d lo hi [] []
  | repm_cons k i v js vs : rep d lo hi i v -> repm d lo hi js vs -> repm d lo hi ((k, i) :: js) ((k, v) :: vs).

Scheme rep_mut := Minimality for rep Sort Prop
  with reps_mut := Minimality for reps Sort Prop
  with repm_mut := Minimality for repm Sort Prop.
Combined Scheme rep_mutind from rep_mut, reps_mut, repm_mut.

(** The parts of the tables that matter for nodes from [lo] to [hi] are the same. *)
Definition agrees (d d' : JsonDocument) (lo hi : nat) : Prop :=
  forall i, (lo <= i < hi)%nat ->
    jd_nodes d' !! i = jd_nodes d !! i /\ elements_of d' i = elements_of d i /\ members_of d' i = members_of d i.

Lemma rep_agrees d d' lo hi lo' hi' :
  agrees d d' lo hi -> (lo' <= lo)%nat -> (hi <= hi')%nat ->
  (forall i v, rep d lo hi i v -> rep d' lo' hi' i v) /\
  (forall js vs, reps d lo hi js vs -> reps d' lo' hi' js vs) /\
  (forall js vs, repm d lo hi js vs -> repm d' lo' hi' js vs).
Proof.
  intros Ha Hlo Hhi.
  assert (Hn : forall i v n type, node_is d lo hi i v n type ->
    node_is d' lo' hi' i v n type /\ elements_of d' i = elements_of d i /\ members_of d' i = members_of d i).
  { intros i v n type (H1 & H2 & H3 & H4). destruct (Ha i H1) as (E1 & E2 & E3).
    split; [|done]. split; [lia|]. by rewrite E1. }
  apply (rep_mutind d lo hi); intros; try (by constructor).
  - econstructor. by eapply Hn.
  - econstructor. by eapply Hn.
  - econstructor. by eapply Hn.
  - econstructor. by eapply Hn.
  - destruct (Hn _ _ _ _ H) as (H2 & H3 & _). econstructor; [done|]. by rewrite H3.
  - destruct (Hn _ _ _ _ H) as (H2 & _ & H3). econstructor; [done|]. by rewrite H3.
Qed.

(** ** Growth of the tables *)
Abbreviation count d := (jd_node_count d).

(** Parents of new entries are new nodes, or the container being filled. *)
Definition new_parent (container : option nat) (d d' : JsonDocument) (parent : nat) : Prop :=
  (count d <= parent < count d')%nat \/ container = Some parent.

Record grows (container : option nat) (d d' : JsonDocument) : Prop := {
  gr_nodes : forall i, (i < count d)%nat -> jd_nodes d' !! i = jd_nodes d !! i;
  gr_count : (count d <= count d')%nat;
  gr_elements : exists es, jd_elements d' = jd_elements d ++ es /\
    Forall (fun e => new_parent container d d' (je_parent e)) es;
  gr_members : exists ms, jd_members d' = jd_members d ++ ms /\
    Forall (fun m => new_parent container d d' (jm_parent m)) ms }.

Lemma grows_same container d d' : same_tables d d' -> grows container d d'.
Proof.
  intros (_ & H1 & H2 & H3). split; unfold jd_node_count; rewrite ?H1; try done.
  - exists []. by rewrite H3, app_nil_r.
  - exists []. by rewrite H2, app_nil_r.
Qed.

Lemma grows_trans container d1 d2 d3 : grows container d1 d2 -> grows container d2 d3 -> grows container d1 d3.
Proof.
  intros [A1 A2 (es & A3 & A4) (ms & A5 & A6)] [B1 B2 (es' & B3 & B4) (ms' & B5 & B6)].
  assert (H12 : forall q, new_parent container d1 d2 q -> new_parent container d1 d3 q)
    by (unfold new_parent; intros q [?|?]; [left; lia|by right]).
  assert (H23 : forall q, new_parent container d2 d3 q -> new_parent container d1 d3 q)
    by (unfold new_parent; intros q [?|?]; [left; lia|by right]).
  split.
  - intros i Hi. rewrite B1 by lia. by apply A1.
  - lia.
  - exists (es ++ es'). rewrite B3, A3, app_assoc. split; [done|]. apply Forall_app.
    split; eapply Forall_impl; try done; simpl; auto.
  - exists (ms ++ ms'). rewrite B5, A5, app_assoc. split; [done|]. apply Forall_app.
    split; eapply Forall_impl; try done; simpl; auto.
Qed.

(** Filling a container that was itself appended. *)
Lemma grows_close container c d d' :
  grows (Some c) d d' -> (forall q, q = c -> new_parent container d d' q) -> grows container d d'.
Proof.
  intros [A1 A2 (es & A3 & A4) (ms & A5 & A6)] Hc.
  assert (H : forall q, new_parent (Some c) d d' q -> new_parent container d d' q)
    by (intros q [?|[= ->]]; [by left|by apply Hc]).
  split; [done|done| |]; [exists es|exists ms]; (split; [done|]); eapply Forall_impl; try done; simpl; auto.
Qed.

Lemma grows_weaken container d d' : grows None d d' -> grows container d d'.
Proof.
  intros [A1 A2 (es & A3 & A4) (ms & A5 & A6)].
  assert (H : forall q, new_parent None d d' q -> new_parent container d d' q) by (intros q [?|?]; [by left|done]).
  split; [done|done| |]; [exists es|exists ms]; (split; [done|]); eapply Forall_impl; try done; simpl; auto.
Qed.

Lemma filter_none {A} (p : A -> bool) (l : list A) : Forall (fun x => p x = false) l -> List.filter p l = [].
Proof. induction 1 as [|x l Hx _ IH]; simpl; [done|]. by rewrite Hx. Qed.

Lemma grows_agrees container d d' lo hi :
  grows container d d' -> (hi <= count d)%nat -> (forall q, container = Some q -> ~ (lo <= q < hi)%nat) ->
  agrees d d' lo hi.
Proof.
  intros [A1 A2 (es & A3 & A4) (ms & A5 & A6)] Hhi Hc i Hi. split; [apply A1; lia|].
  assert (Hne : forall q, new_parent container d d' q -> q <> i).
  { intros q [H|H] ->; [lia|]. by apply (Hc i H). }
  unfold elements_of, members_of. rewrite A3, A5, !List.filter_app.
  rewrite (filter_none (is_child i) es), (filter_none (is_member i) ms); [by rewrite !app_nil_r| |].
  - eapply Forall_impl; [|exact A6]. intros m Hm. apply bool_decide_eq_false. by apply Hne.
  - eapply Forall_impl; [|exact A4]. intros e He. apply bool_decide_eq_false. by apply Hne.
Qed.

(** Entries refer to existing nodes as their parents. *)
Definition wf (d : JsonDocument) : Prop :=
  Forall (fun e => (je_parent e < count d)%nat) (jd_elements d) /\
  Forall (fun m => (jm_parent m < count d)%nat) (jd_members d).

Lemma grows_wf container d d' :
  wf d -> grows container d d' -> (forall q, container = Some q -> (q < count d)%nat) -> wf d'.
Proof.
  intros [W1 W2] [A1 A2 (es & A3 & A4) (ms & A5 & A6)] Hc.
  assert (Hq : forall q, new_parent container d d' q -> (q < count d')%nat).
  { intros q [?|H]; [lia|]. specialize (Hc q H). lia. }
  split; [rewrite A3|rewrite A5]; apply Forall_app; split;
    eapply Forall_impl; try done; simpl; intros; (lia || by apply Hq).
Qed.

Lemma wf_no_elements d i : wf d -> (count d <= i)%nat -> elements_of d i = [] /\ members_of d i = [].
Proof.
  intros [W1 W2] Hi. unfold elements_of, members_of.
  rewrite (filter_none (is_child i)), (filter_none (is_member i)); [done| |].
  - eapply Forall_impl; [|exact W2]. intros m Hm. apply bool_decide_eq_false. simpl in Hm. lia.
  - eapply Forall_impl; [|exact W1]. intros e He. apply bool_decide_eq_false. simpl in He. lia.
Qed.

(** ** One entry at a time *)
Lemma append_node_spec d type i d' :
  append_node d type = Some (i, d') ->
  i = count d /\ reads d d' [] /\ count d' = S (count d) /\ grows None d d' /\
  jd_nodes d' !! i = Some (MkJsonNode type [] [] 0 false) /\
  jd_members d' = jd_members d /\ jd_elements d' = jd_elements d.
Proof.
  unfold append_node. destruct (bool_decide _); [done|]. intros [= <- <-].
  split; [done|]. split; [by apply reads_nil|].
  assert (Hc : count (MkJsonDocument (jd_storage d) (jd_cursor d) (jd_root d)
    (jd_nodes d ++ [MkJsonNode type [] [] 0 false]) (jd_members d) (jd_elements d)) = S (count d))
    by (unfold jd_node_count; simpl; rewrite length_app; simpl; lia).
  split; [done|]. split; [|split; [|done]].
  - split; [|lia|exists []; by rewrite app_nil_r|exists []; by rewrite app_nil_r].
    intros i Hi. simpl. by rewrite lookup_app_l.
  - simpl. unfold jd_node_count. by rewrite lookup_app_r, Nat.sub_diag by lia.
Qed.

Lemma update_node_spec d i f :
  reads d (update_node d i f) [] /\ count (update_node d i f) = count d /\
  jd_nodes (update_node d i f) !! i = f <$> jd_nodes d !! i /\
  (forall j, j <> i -> jd_nodes (update_node d i f) !! j = jd_nodes d !! j) /\
  jd_members (update_node d i f) = jd_members d /\ jd_elements (update_node d i f) = jd_elements d.
Proof.
  split; [by apply reads_nil|]. unfold jd_node_count. simpl. rewrite length_alter.
  split; [done|]. split; [by rewrite list_lookup_alter_eq|]. split; [|done].
  intros j Hj. by rewrite list_lookup_alter_ne.
Qed.

Lemma update_node_grows d i f d0 :
  grows None d0 d -> (count d0 <= i)%nat -> grows None d0 (update_node d i f).
Proof.
  intros [A1 A2 A3 A4] Hi. destruct (update_node_spec d i f) as (_ & Hc & _ & Ho & Hm & He).
  split; unfold new_parent in *; rewrite ?Hc, ?Hm, ?He; try done.
  intros j Hj. rewrite Ho by lia. by apply A1.
Qed.

(** ** How many entries *)
Definition sum_of {A} (f : A -> nat) (l : list A) : nat := list_sum (map f l).

Lemma sum_of_cons {A} (f : A -> nat) x l : sum_of f (x :: l) = (f x + sum_of f l)%nat.
Proof. done. Qed.
Lemma sum_of_one {A} (f : A -> nat) x : sum_of f [x] = f x.
Proof. unfold sum_of. simpl. lia. Qed.

Fixpoint nodes_in (v : json) : nat :=
  match v with
  | JArray vs => S (sum_of nodes_in vs)
  | JObject kvs => S (sum_of (fun kv => nodes_in (snd kv)) kvs)
  | _ => 1
  end.
Fixpoint members_in (v : json) : nat :=
  match v with
  | JArray vs => sum_of members_in vs
  | JObject kvs => sum_of (fun kv => S (members_in (snd kv))) kvs
  | _ => 0
  end.
Fixpoint elements_in (v : json) : nat :=
  match v with
  | JArray vs => sum_of (fun v => S (elements_in v)) vs
  | JObject kvs => sum_of (fun kv => elements_in (snd kv)) kvs
  | _ => 0
  end.

(** There is room in the tables of [d] for so many more entries. *)
Definition room (d : JsonDocument) (n m e : nat) : Prop :=
  (count d + n <= maximum_json_nodes)%nat /\ (length (jd_members d) + m <= maximum_json_members)%nat /\
  (length (jd_elements d) + e <= maximum_json_elements)%nat.

(** So many entries have been added. *)
Definition added (d d' : JsonDocument) (n m e : nat) : Prop :=
  count d' = (count d + n)%nat /\ length (jd_members d') = (length (jd_members d) + m)%nat /\
  length (jd_elements d') = (length (jd_elements d) + e)%nat.

Lemma added_same d d' : same_tables d d' -> added d d' 0 0 0.
Proof. intros (_ & H1 & H2 & H3). unfold added, jd_node_count. rewrite H1, H2, H3. lia. Qed.

Lemma added_trans d1 d2 d3 n m e n' m' e' :
  added d1 d2 n m e -> added d2 d3 n' m' e' -> added d1 d3 (n + n') (m + m') (e + e').
Proof. unfold added. lia. Qed.

Lemma added_room d d' n m e n' m' e' :
  added d d' n m e -> room d (n + n') (m + m') (e + e') -> room d' n' m' e'.
Proof. unfold added, room. lia. Qed.

Lemma append_node_room d type :
  (count d < maximum_json_nodes)%nat -> exists d', append_node d type = Some (count d, d') /\ added d d' 1 0 0.
Proof.
  intros H. unfold append_node. rewrite bool_decide_false by lia. eexists. split; [done|].
  unfold added, jd_node_count. simpl. rewrite length_app. simpl. lia.
Qed.

Lemma append_member_room d m :
  (length (jd_members d) < maximum_json_members)%nat -> exists d', append_member d m = Some d' /\ added d d' 0 1 0.
Proof.
  intros H. unfold append_member. rewrite bool_decide_false by lia. eexists. split; [done|].
  unfold added, jd_node_count. simpl. rewrite length_app. simpl. lia.
Qed.

Lemma append_element_room d e :
  (length (jd_elements d) < maximum_json_elements)%nat -> exists d', append_element d e = Some d' /\ added d d' 0 0 1.
Proof.
  intros H. unfold append_element. rewrite bool_decide_false by lia. eexists. split; [done|].
  unfold added, jd_node_count. simpl. rewrite length_app. simpl. lia.
Qed.

Lemma update_node_added d i f : added d (update_node d i f) 0 0 0.
Proof. unfold added, jd_node_count. simpl. rewrite length_alter. lia. Qed.

(** So many entries have been added, and the tables hold no more than they can. *)
Definition grown (d d' : JsonDocument) (n m e : nat) : Prop := added d d' n m e /\ (room d 0 0 0 -> room d' 0 0 0).

Lemma grown_same d d' : same_tables d d' -> grown d d' 0 0 0.
Proof. intros H. pose proof (added_same _ _ H). split; [done|]. unfold added, room in *. lia. Qed.

Lemma grown_trans d1 d2 d3 n m e n' m' e' : grown d1 d2 n m e -> grown d2 d3 n' m' e' -> grown d1 d3 (n + n') (m + m') (e + e').
Proof. intros [A1 R1] [A2 R2]. split; [by eapply added_trans|auto]. Qed.

Lemma append_node_grown d type i d' : append_node d type = Some (i, d') -> grown d d' 1 0 0.
Proof.
  unfold append_node. case_bool_decide; [done|]. intros [= _ <-]. unfold grown, added, room, jd_node_count in *. simpl. rewrite length_app. simpl. lia.
Qed.

Lemma append_member_grown d x d' : append_member d x = Some d' -> grown d d' 0 1 0.
Proof.
  unfold append_member. case_bool_decide; [done|]. intros [= <-]. unfold grown, added, room, jd_node_count in *. simpl. rewrite length_app. simpl. lia.
Qed.

Lemma append_element_grown d x d' : append_element d x = Some d' -> grown d d' 0 0 1.
Proof.
  unfold append_element. case_bool_decide; [done|]. intros [= <-]. unfold grown, added, room, jd_node_count in *. simpl. rewrite length_app. simpl. lia.
Qed.

Lemma update_node_grown d i f d' n m e : grown d d' n m e -> grown d (update_node d' i f) n m e.
Proof. unfold grown, added, room, jd_node_count. simpl. rewrite length_alter. lia. Qed.

Definition value_grown (v : json) (d d' : JsonDocument) : Prop := grown d d' (nodes_in v) (members_in v) (elements_in v).
Definition elements_grown (vs : list json) (d d' : JsonDocument) : Prop :=
  grown d d' (sum_of nodes_in vs) (sum_of members_in vs) (sum_of (fun v => S (elements_in v)) vs).
Definition members_grown (kvs : list (text * json)) (d d' : JsonDocument) : Prop :=
  grown d d' (sum_of (fun kv => nodes_in (snd kv)) kvs) (sum_of (fun kv => S (members_in (snd kv))) kvs)
    (sum_of (fun kv => elements_in (snd kv)) kvs).

(** [grown] up to the arithmetic of its counts. *)
Ltac grown_by H := let A := fresh in let R := fresh in destruct H as [A R]; split; [|exact R]; revert A; unfold added;
  rewrite ?sum_of_one, ?sum_of_cons; cbn [snd nodes_in members_in elements_in]; lia.

(** ** What has been read

    The spaces [w] and the text [t] of a value [v]; of elements and members likewise, with the
    closing character. *)
Definition value_as (depth : nat) (w t : text) (v : json) (d : JsonDocument) (i : nat) (d' : JsonDocument) : Prop :=
  reads d d' (w ++ t) /\ spaces w /\ json_text depth v t /\
  i = count d /\ grows None d d' /\ rep d' (count d) (count d') i v.

Definition elements_as (parent depth : nat) (w t : text) (vs : list json) (d d' : JsonDocument) : Prop :=
  exists js, reads d d' (w ++ t ++ ["]"%char]) /\ spaces w /\ elements_text (S depth) vs t /\
    grows (Some parent) d d' /\ elements_of d' parent = elements_of d parent ++ js /\
    reps d' (count d) (count d') js vs.

Definition members_as (parent depth : nat) (t : text) (kvs : list (text * json)) (d d' : JsonDocument) : Prop :=
  exists js, reads d d' (t ++ ["}"%char]) /\ members_text (S depth) kvs t /\
    grows (Some parent) d d' /\ members_of d' parent = members_of d parent ++ js /\
    repm d' (count d) (count d') js kvs /\
    Forall (fun k => k ∉ map fst (members_of d parent)) (map fst kvs).

Definition value_read (depth : nat) (d : JsonDocument) (i : nat) (d' : JsonDocument) : Prop :=
  exists w t v, value_as depth w t v d i d' /\ value_grown v d d'.
Definition elements_read (parent depth : nat) (d d' : JsonDocument) : Prop :=
  exists w t vs, elements_as parent depth w t vs d d' /\ elements_grown vs d d'.
Definition members_read (parent depth : nat) (d d' : JsonDocument) : Prop :=
  exists t kvs, members_as parent depth t kvs d d' /\ members_grown kvs d d'.

Lemma separator_sound close loop d d' :
  parse_separator close loop d = Ret (Some d') ->
  exists w, spaces w /\
    ((reads d d' (w ++ [close]) /\ same_tables d d') \/
     (exists w2 d1, spaces w2 /\ reads d d1 (w ++ ","%char :: w2) /\ same_tables d d1 /\ loop d1 = Ret (Some d'))).
Proof.
  unfold parse_separator. destruct (skip_space_reads d) as (w & Hw & Hsp & _).
  set (d1 := skip_space d) in *. assert (Hs1 : same_tables d d1) by done.
  destruct (looking_at d1 close) eqn:E1.
  { intros [= <-]. apply looking_at_rest in E1 as [r Hr]. exists w. split; [done|]. left.
    split; [|done]. eapply reads_trans; [done|]. by eapply advance_one. }
  destruct (looking_at d1 ",") eqn:E2; simpl; [|done]. intros Hl.
  apply looking_at_rest in E2 as [r Hr]. pose proof (advance_one _ _ _ Hr) as Hc.
  destruct (skip_space_reads (advance d1 1)) as (w2 & Hw2 & Hsp2 & _).
  exists w. split; [done|]. right. exists w2, (skip_space (advance d1 1)). split; [done|]. split; [|done].
  change (","%char :: w2) with ([","%char] ++ w2).
  eapply reads_trans; [done|]. by eapply reads_trans.
Qed.

(** Completing a node whose text [t] has been read from [ds] to [d1]. *)
Lemma finish_sound depth d w ds i d1 t v :
  reads d ds w -> spaces w -> reads ds d1 t -> i = count d -> grows None d d1 -> (i < count d1)%nat ->
  json_text depth v t ->
  (forall n d2, jd_nodes d1 !! i = Some n -> jd_nodes d2 !! i = Some (set_raw t n) -> count d2 = count d1 ->
     agrees d1 d2 (S i) (count d1) -> elements_of d2 i = elements_of d1 i -> members_of d2 i = members_of d1 i ->
     rep d2 i (count d2) i v) ->
  value_as depth w t v d i (update_node d1 i (set_raw (view_of d1 (jd_cursor ds) (jd_cursor d1)))).
Proof.
  intros H1 H2 H3 Hi H4 H5 H6 Hrep. rewrite (view_of_reads _ _ _ H3).
  destruct (update_node_spec d1 i (set_raw t)) as (U1 & U2 & U3 & U4 & U5 & U6).
  split_and!; try done.
  - rewrite <- (app_nil_r (w ++ t)). eapply reads_trans; [|done]. by eapply reads_trans.
  - apply update_node_grows; [done|lia].
  - rewrite <- Hi. destruct (lookup_lt_is_Some_2 (jd_nodes d1) i H5) as [n Hn].
    apply (Hrep n); try done.
    + by rewrite U3, Hn.
    + intros j Hj. rewrite U4 by lia. split; [done|]. unfold elements_of, members_of. by rewrite U5, U6.
Qed.

(** A node appended at the cursor. *)
Lemma append_scalar_sound depth d w ds type i d1 d2 t f v :
  reads d ds w -> spaces w -> same_tables d ds -> append_node ds type = Some (i, d1) ->
  reads d1 d2 t -> same_tables d1 d2 -> json_text depth v t ->
  (forall d' lo hi, (lo <= i < hi)%nat -> jd_nodes d' !! i = Some (set_raw t (f (MkJsonNode type [] [] 0 false))) ->
     rep d' lo hi i v) ->
  value_as depth w t v d i (update_node (update_node d2 i f) i
    (set_raw (view_of (update_node d2 i f) (jd_cursor ds) (jd_cursor (update_node d2 i f))))).
Proof.
  intros H1 H2 Hsame Happ H3 Hsame2 H4 Hrep. destruct (append_node_spec _ _ _ _ Happ) as (Hi & A1 & A2 & A3 & A4 & A5 & A6).
  destruct Hsame as (S0 & S1 & S2 & S3). destruct Hsame2 as (T0 & T1 & T2 & T3).
  destruct (update_node_spec d2 i f) as (U1 & U2 & U3 & U4 & U5 & U6).
  assert (Hc : count ds = count d) by (unfold jd_node_count; by rewrite S1).
  assert (Hc2 : count d2 = count d1) by (unfold jd_node_count; by rewrite T1).
  assert (Hg : grows None d d2).
  { apply (grows_trans _ _ ds); [by apply grows_same|]. apply (grows_trans _ _ d1); [done|by apply grows_same]. }
  apply (finish_sound depth d w ds i _ t v); try done; [|congruence| |lia|].
  - rewrite <- (app_nil_r t), <- (app_nil_l (t ++ [])). eapply reads_trans; [done|]. by eapply reads_trans.
  - apply update_node_grows; [done|lia].
  - intros n d' Hn Hd' Hcount _ _ _. rewrite U3, T1, A4 in Hn. injection Hn as <-. apply Hrep; [lia|done].
Qed.

Lemma andthen_Some {A B} (r : option A) (k : A -> outcome (option B)) b :
  andthen r k = Ret (Some b) -> exists a, r = Some a /\ k a = Ret (Some b).
Proof. destruct r as [a|]; simpl; [eauto|done]. Qed.

Lemma call_Some {A B} (r : outcome (option A)) (k : A -> outcome (option B)) b :
  (x ← r; andthen x k) = Ret (Some b) -> exists a, r = Ret (Some a) /\ k a = Ret (Some b).
Proof. destruct r as [[a|]|f]; simpl; [eauto|done|done]. Qed.

(** The three statements proved together. *)
Definition sound_at (fuel : nat) : Prop :=
  (forall depth d i d', wf d -> parse_value fuel depth d = Ret (Some (i, d')) -> value_read depth d i d') /\
  (forall parent depth d d', wf d -> (parent < count d)%nat ->
     parse_members fuel parent depth d = Ret (Some d') -> members_read parent depth d d') /\
  (forall parent depth d d', wf d -> (parent < count d)%nat ->
     parse_elements fuel parent depth d = Ret (Some d') -> elements_read parent depth d d').

(** A value read, and an entry for it added to its container. *)
Definition entry_added (parent : nat) (d d' : JsonDocument) : Prop :=
  reads d d' [] /\ count d' = count d /\ grows (Some parent) d d'.

Lemma value_then_entry depth parent w t v d i d1 d2 :
  wf d -> (parent < count d)%nat -> value_as depth w t v d i d1 -> entry_added parent d1 d2 ->
  elements_of d1 parent = elements_of d parent /\ members_of d1 parent = members_of d parent /\
  reads d d2 (w ++ t) /\ grows (Some parent) d d2 /\ wf d2 /\ rep d2 (count d) (count d2) i v.
Proof.
  intros Hwf Hp (R1 & W1 & T1 & -> & G1 & P1) (R2 & C2 & G2).
  pose proof (grows_trans _ _ _ _ (grows_weaken (Some parent) _ _ G1) G2) as G.
  destruct (grows_agrees None d d1 0 (count d) G1 ltac:(lia) ltac:(done) parent) as (_ & E1 & E2); [lia|].
  split; [done|]. split; [done|]. split_and!; try done.
  - rewrite <- (app_nil_r (w ++ t)). by eapply reads_trans.
  - apply (grows_wf (Some parent) d d2 Hwf G). by intros q [= <-].
  - apply (rep_agrees d1 d2 (count d) (count d1)); [|lia|lia|done].
    apply (grows_agrees (Some parent)); [done|lia|]. intros q [= <-]. lia.
Qed.

(** What was represented stays so when only the cursor moves, and when the container grows. *)
Lemma rep_kept parent d2 d3 d' lo i v :
  rep d2 lo (count d2) i v -> same_tables d2 d3 -> grows (Some parent) d3 d' -> (parent < lo)%nat ->
  rep d' lo (count d') i v.
Proof.
  intros Hrep (S0 & S1 & S2 & S3) G Hp. assert (count d3 = count d2) by (unfold jd_node_count; by rewrite S1).
  pose proof (gr_count _ _ _ G). apply (rep_agrees d2 d' lo (count d2)); [|lia|lia|done].
  apply (grows_agrees (Some parent)); [|lia|intros q [= <-]; lia].
  eapply grows_trans; [|done]. by apply grows_same.
Qed.

Lemma same_tables_wf d d' : same_tables d d' -> wf d -> wf d' /\ count d' = count d.
Proof. intros (_ & H1 & H2 & H3) Hwf. unfold wf, jd_node_count in *. by rewrite H1, H2, H3. Qed.

Lemma same_tables_of d d' i :
  same_tables d d' -> elements_of d' i = elements_of d i /\ members_of d' i = members_of d i.
Proof. intros (_ & H1 & H2 & H3). unfold elements_of, members_of. by rewrite H2, H3. Qed.

Lemma append_element_spec d parent i d' :
  append_element d (MkJsonElement parent i) = Some d' ->
  entry_added parent d d' /\ elements_of d' parent = elements_of d parent ++ [i].
Proof.
  unfold append_element. destruct (bool_decide _); [done|]. intros [= <-].
  split; [split; [by apply reads_nil|split; [done|]]|].
  - split; [done|done| |exists []; by rewrite app_nil_r]. exists [MkJsonElement parent i].
    split; [done|]. constructor; [by right|constructor].
  - unfold elements_of. simpl. rewrite List.filter_app, map_app. f_equal. simpl.
    unfold is_child. simpl. by rewrite bool_decide_true.
Qed.

Lemma append_member_spec d parent k i d' :
  append_member d (MkJsonMember parent k i) = Some d' ->
  entry_added parent d d' /\ members_of d' parent = members_of d parent ++ [(k, i)].
Proof.
  unfold append_member. destruct (bool_decide _); [done|]. intros [= <-].
  split; [split; [by apply reads_nil|split; [done|]]|].
  - split; [done|done|exists []; by rewrite app_nil_r|]. exists [MkJsonMember parent k i].
    split; [done|]. constructor; [by right|constructor].
  - unfold members_of. simpl. rewrite List.filter_app, map_app. f_equal. simpl.
    unfold is_member. simpl. by rewrite bool_decide_true.
Qed.

Lemma same_tables_refl d : same_tables d d.
Proof. done. Qed.

(** Elements: a value, then the end or the next round. *)
Lemma elements_last parent depth w t v w1 d i d1 d2 d' :
  wf d -> (parent < count d)%nat -> value_as (S depth) w t v d i d1 ->
  append_element d1 (MkJsonElement parent i) = Some d2 -> spaces w1 ->
  reads d2 d' (w1 ++ ["]"%char]) -> same_tables d2 d' ->
  elements_as parent depth w (t ++ w1) [v] d d'.
Proof.
  intros Hwf Hp Hv Happ Hw1 R3 S3. destruct (append_element_spec _ _ _ _ Happ) as [Hadd E2].
  destruct (value_then_entry _ _ _ _ _ _ _ _ _ Hwf Hp Hv Hadd) as (E1 & _ & R1 & G1 & Hwf2 & P1).
  destruct Hv as (_ & W1 & T1 & -> & _). rewrite E1 in E2. destruct (same_tables_of _ _ parent S3) as [E3 _].
  exists [count d]. split_and!; try done.
  - rewrite <- (app_assoc t), (app_assoc w). by eapply reads_trans.
  - by constructor.
  - eapply grows_trans; [done|]. by apply grows_same.
  - by rewrite E3.
  - constructor; [|constructor]. apply (rep_kept parent d2 d' d' _ _ _ P1 S3); [|done].
    apply grows_same, same_tables_refl.
Qed.

Lemma elements_more parent depth w t v w1 w2 w4 t4 vs d i d1 d2 d3 d' :
  wf d -> (parent < count d)%nat -> value_as (S depth) w t v d i d1 ->
  append_element d1 (MkJsonElement parent i) = Some d2 -> spaces w1 -> spaces w2 ->
  reads d2 d3 (w1 ++ ","%char :: w2) -> same_tables d2 d3 -> elements_as parent depth w4 t4 vs d3 d' ->
  elements_as parent depth w (t ++ w1 ++ ","%char :: (w2 ++ w4) ++ t4) (v :: vs) d d'.
Proof.
  intros Hwf Hp Hv Happ Hw1 Hw2 R3 S3 (js & R4 & W4 & T4 & G4 & E4 & P4).
  destruct (append_element_spec _ _ _ _ Happ) as [Hadd E2].
  destruct (value_then_entry _ _ _ _ _ _ _ _ _ Hwf Hp Hv Hadd) as (E1 & _ & R1 & G1 & Hwf2 & P1).
  destruct Hv as (_ & W1 & T1 & -> & _). rewrite E1 in E2. destruct (same_tables_of _ _ parent S3) as [E3 _].
  destruct (same_tables_wf _ _ S3 Hwf2) as [Hwf3 Hc3].
  pose proof (gr_count _ _ _ G1) as C1. pose proof (gr_count _ _ _ G4) as C4.
  exists (count d :: js). split_and!; try done.
  - replace (w ++ (t ++ w1 ++ ","%char :: (w2 ++ w4) ++ t4) ++ ["]"%char])
      with ((w ++ t) ++ (w1 ++ ","%char :: w2) ++ (w4 ++ t4 ++ ["]"%char])) by (simplify_list_eq; done).
    eapply reads_trans; [done|]. by eapply reads_trans.
  - constructor; try done. by apply Forall_app.
  - eapply grows_trans; [done|]. eapply grows_trans; [|done]. by apply grows_same.
  - rewrite E4, E3, E2, <- app_assoc. done.
  - constructor; [by apply (rep_kept parent d2 d3 d')|].
    apply (rep_agrees d' d' (count d3) (count d')); [|lia|lia|done]. by intros ? ?.
Qed.

Lemma elements_step fuel parent depth d d' :
  sound_at fuel -> wf d -> (parent < count d)%nat ->
  parse_elements (S fuel) parent depth d = Ret (Some d') -> elements_read parent depth d d'.
Proof.
  intros (Hv & _ & He) Hwf Hp. cbn [parse_elements]. destruct (bool_decide _); [done|].
  intros ((i & d1) & Hval & Hrun)%call_Some. apply andthen_Some in Hrun as (d2 & Happ & Hsep).
  destruct (Hv _ _ _ _ Hwf Hval) as (w & t & v & Hval_as & Hvg).
  pose proof (grown_trans _ _ _ _ _ _ _ _ _ Hvg (append_element_grown _ _ _ Happ)) as Hg.
  destruct (append_element_spec _ _ _ _ Happ) as [Hadd _].
  destruct (value_then_entry _ _ _ _ _ _ _ _ _ Hwf Hp Hval_as Hadd) as (_ & _ & _ & G1 & Hwf2 & _).
  apply separator_sound in Hsep as (w1 & Hw1 & [(R3 & S3)|(w2 & d3 & Hw2 & R3 & S3 & Hloop)]).
  - exists w, (t ++ w1), [v]. split; [by eapply elements_last|]. grown_by (grown_trans _ _ _ _ _ _ _ _ _ Hg (grown_same _ _ S3)).
  - destruct (same_tables_wf _ _ S3 Hwf2) as [Hwf3 Hc3]. pose proof (gr_count _ _ _ G1) as C1.
    destruct (He parent depth d3 d' Hwf3 ltac:(lia) Hloop) as (w4 & t4 & vs & Hrest & Hmore).
    eexists w, _, (v :: vs). split; [eapply (elements_more parent depth w t v w1 w2 w4 t4 vs); eassumption|].
    grown_by (grown_trans _ _ _ _ _ _ _ _ _ Hg (grown_trans _ _ _ _ _ _ _ _ _ (grown_same _ _ S3) Hmore)).
Qed.

Lemma new_key d parent k :
  existsb (is_key parent k) (jd_members d) = false -> k ∉ map fst (members_of d parent).
Proof.
  intros H Hin. unfold members_of in Hin. rewrite map_map in Hin.
  apply list_elem_of_In, in_map_iff in Hin as (m & Hk & Hm). apply filter_In in Hm as [Hm Hpar].
  assert (existsb (is_key parent k) (jd_members d) = true); [|congruence].
  apply existsb_exists. exists m. split; [done|]. unfold is_key, is_member in *. simpl in Hk.
  by rewrite Hpar, bool_decide_true.
Qed.

(** Members likewise, behind a key that is new to the object.  [dv] is the document in front of
    the value. *)
Definition key_read (parent : nat) (k w1 w2 : text) (d dv : JsonDocument) : Prop :=
  string_body k /\ spaces w1 /\ spaces w2 /\ (k ∉ map fst (members_of d parent)) /\
  same_tables d dv /\ reads d dv (string_text k ++ w1 ++ ":"%char :: w2).

Lemma member_prefix depth parent k w1 w2 w t v d dv i d1 d2 :
  wf d -> (parent < count d)%nat -> key_read parent k w1 w2 d dv -> value_as depth w t v dv i d1 ->
  append_member d1 (MkJsonMember parent k i) = Some d2 ->
  i = count d /\ reads d d2 (string_text k ++ w1 ++ ":"%char :: (w2 ++ w) ++ t) /\ grows (Some parent) d d2 /\ wf d2 /\
  members_of d2 parent = members_of d parent ++ [(k, count d)] /\ rep d2 (count d) (count d2) i v.
Proof.
  intros Hwf Hp (Hk & Hw1 & Hw2 & Hnew & Sv & Rv) Hv Happ. destruct (same_tables_wf _ _ Sv Hwf) as [Hwfv Hcv].
  destruct (same_tables_of _ _ parent Sv) as [_ Ev]. destruct (append_member_spec _ _ _ _ _ Happ) as [Hadd E2].
  destruct (value_then_entry _ parent _ _ _ _ _ _ _ Hwfv ltac:(lia) Hv Hadd) as (_ & E1 & R1 & G1 & Hwf2 & P1).
  destruct Hv as (_ & _ & _ & -> & _). rewrite E1, Ev, Hcv in E2. rewrite Hcv in P1.
  split; [done|]. split_and!; try done; [|eapply grows_trans; [by apply grows_same|done]|by rewrite Hcv].
  replace (string_text k ++ w1 ++ ":"%char :: (w2 ++ w) ++ t)
    with ((string_text k ++ w1 ++ ":"%char :: w2) ++ w ++ t) by (simplify_list_eq; done).
  by eapply reads_trans.
Qed.

Lemma members_last parent depth k w1 w2 w t v w3 d dv i d1 d2 d' :
  wf d -> (parent < count d)%nat -> key_read parent k w1 w2 d dv -> value_as (S depth) w t v dv i d1 ->
  append_member d1 (MkJsonMember parent k i) = Some d2 -> spaces w3 ->
  reads d2 d' (w3 ++ ["}"%char]) -> same_tables d2 d' ->
  members_as parent depth (string_text k ++ w1 ++ ":"%char :: (w2 ++ w) ++ t ++ w3) [(k, v)] d d'.
Proof.
  intros Hwf Hp Hk Hv Happ Hw3 R3 S3.
  destruct (member_prefix _ _ _ _ _ _ _ _ _ _ _ _ _ Hwf Hp Hk Hv Happ) as (-> & R & G & Hwf2 & E2 & P1).
  destruct Hk as (Hk & Hw1 & Hw2 & Hnew & Sv & Rv). destruct Hv as (_ & W1 & T1 & _).
  destruct (same_tables_of _ _ parent S3) as [_ E3]. exists [(k, count d)]. split_and!; try done.
  - replace ((string_text k ++ w1 ++ ":"%char :: (w2 ++ w) ++ t ++ w3) ++ ["}"%char])
      with ((string_text k ++ w1 ++ ":"%char :: (w2 ++ w) ++ t) ++ w3 ++ ["}"%char]) by (simplify_list_eq; done).
    by eapply reads_trans.
  - constructor; try done. by apply Forall_app.
  - eapply grows_trans; [done|]. by apply grows_same.
  - by rewrite E3.
  - constructor; [|constructor]. apply (rep_kept parent d2 d' d' _ _ _ P1 S3); [|done].
    apply grows_same, same_tables_refl.
  - by repeat constructor.
Qed.

Lemma members_more parent depth k w1 w2 w t v w3 w4 t4 kvs d dv i d1 d2 d3 d' :
  wf d -> (parent < count d)%nat -> key_read parent k w1 w2 d dv -> value_as (S depth) w t v dv i d1 ->
  append_member d1 (MkJsonMember parent k i) = Some d2 -> spaces w3 -> spaces w4 ->
  reads d2 d3 (w3 ++ ","%char :: w4) -> same_tables d2 d3 -> members_as parent depth t4 kvs d3 d' ->
  members_as parent depth (string_text k ++ w1 ++ ":"%char :: (w2 ++ w) ++ t ++ w3 ++ ","%char :: w4 ++ t4)
    ((k, v) :: kvs) d d'.
Proof.
  intros Hwf Hp Hk Hv Happ Hw3 Hw4 R3 S3 (js & R4 & T4 & G4 & E4 & P4 & K4).
  destruct (member_prefix _ _ _ _ _ _ _ _ _ _ _ _ _ Hwf Hp Hk Hv Happ) as (-> & R & G & Hwf2 & E2 & P1).
  destruct Hk as (Hk & Hw1 & Hw2 & Hnew & Sv & Rv). destruct Hv as (_ & W1 & T1 & _).
  destruct (same_tables_of _ _ parent S3) as [_ E3]. destruct (same_tables_wf _ _ S3 Hwf2) as [Hwf3 Hc3].
  pose proof (gr_count _ _ _ G) as C1. pose proof (gr_count _ _ _ G4) as C4. rewrite E3, E2, map_app in K4.
  exists ((k, count d) :: js). split_and!; try done.
  - replace ((string_text k ++ w1 ++ ":"%char :: (w2 ++ w) ++ t ++ w3 ++ ","%char :: w4 ++ t4) ++ ["}"%char])
      with ((string_text k ++ w1 ++ ":"%char :: (w2 ++ w) ++ t) ++ (w3 ++ ","%char :: w4) ++ (t4 ++ ["}"%char]))
      by (simplify_list_eq; done).
    eapply reads_trans; [done|]. by eapply reads_trans.
  - constructor; try done; [by apply Forall_app|]. intros Hin. rewrite Forall_forall in K4.
    apply (K4 k); [by apply list_elem_of_In|]. apply elem_of_app. right. by apply elem_of_cons; left.
  - eapply grows_trans; [done|]. eapply grows_trans; [|done]. by apply grows_same.
  - rewrite E4, E3, E2, <- app_assoc. done.
  - constructor; [by apply (rep_kept parent d2 d3 d')|].
    apply (rep_agrees d' d' (count d3) (count d')); [|lia|lia|done]. by intros ? ?.
  - constructor; [done|]. eapply Forall_impl; [|exact K4]. intros q Hq Hin. apply Hq, elem_of_app. by left.
Qed.

Lemma members_step fuel parent depth d d' :
  sound_at fuel -> wf d -> (parent < count d)%nat ->
  parse_members (S fuel) parent depth d = Ret (Some d') -> members_read parent depth d d'.
Proof.
  intros (Hv & Hm & _) Hwf Hp. cbn [parse_members]. destruct (bool_decide _); [done|].
  intros ((k & d0) & Hstr & Hrun)%andthen_Some. destruct (parse_string_sound _ _ _ Hstr) as (R0 & Hk & S0).
  destruct (existsb _ _) eqn:Hdup; [done|].
  destruct (looking_at _ ":") eqn:Hcolon; cbn [negb] in Hrun; [|done].
  destruct (skip_space_reads d0) as (w1 & Rw1 & Hw1 & _). apply looking_at_rest in Hcolon as [r Hr].
  pose proof (advance_one _ _ _ Hr) as Rc.
  destruct (skip_space_reads (advance (skip_space d0) 1)) as (w2 & Rw2 & Hw2 & _).
  set (dv := skip_space (advance (skip_space d0) 1)) in *.
  assert (Hkey : key_read parent k w1 w2 d dv).
  { split; [done|]. split; [done|]. split; [done|].
    split; [|split; [destruct S0 as (? & ? & ? & ?); by repeat split|]].
    - rewrite <- (proj2 (same_tables_of _ _ parent S0)). by apply new_key.
    - change (":"%char :: w2) with ([":"%char] ++ w2). do 3 (eapply reads_trans; [done|]). done. }
  destruct (same_tables_wf d dv ltac:(apply Hkey) Hwf) as [Hwfv Hcv].
  apply call_Some in Hrun as ((i & d1) & Hval & Hrun). apply andthen_Some in Hrun as (d2 & Happ & Hsep).
  destruct (Hv _ _ _ _ Hwfv Hval) as (w & t & v & Hval_as & Hvg).
  assert (Hg : grown d d2 (nodes_in v) (S (members_in v)) (elements_in v)).
  { pose proof (grown_same d dv ltac:(apply Hkey)) as H1. grown_by (grown_trans _ _ _ _ _ _ _ _ _ (grown_trans _ _ _ _ _ _ _ _ _ H1 Hvg) (append_member_grown _ _ _ Happ)). }
  destruct (member_prefix _ _ _ _ _ _ _ _ _ _ _ _ _ Hwf Hp Hkey Hval_as Happ) as (_ & _ & G & Hwf2 & _).
  apply separator_sound in Hsep as (w3 & Hw3 & [(R3 & S3)|(w4 & d3 & Hw4 & R3 & S3 & Hloop)]).
  - eexists _, [(k, v)]. split; [eapply (members_last parent depth k w1 w2 w t v w3); eassumption|].
    grown_by (grown_trans _ _ _ _ _ _ _ _ _ Hg (grown_same _ _ S3)).
  - destruct (same_tables_wf _ _ S3 Hwf2) as [Hwf3 Hc3]. pose proof (gr_count _ _ _ G) as C1.
    destruct (Hm parent depth d3 d' Hwf3 ltac:(lia) Hloop) as (t4 & kvs & Hrest & Hmore).
    eexists _, ((k, v) :: kvs). split; [eapply (members_more parent depth k w1 w2 w t v w3 w4 t4 kvs); eassumption|].
    grown_by (grown_trans _ _ _ _ _ _ _ _ _ Hg (grown_trans _ _ _ _ _ _ _ _ _ (grown_same _ _ S3) Hmore)).
Qed.

(** Opening a container: its node is appended, the opening character and spaces are read. *)
Lemma container_open type (c : ascii) d i d1 :
  wf d -> append_node d type = Some (i, d1) -> (exists r, rest d = c :: r) ->
  exists w, let ds := skip_space (advance d1 1) in
    spaces w /\ reads d ds (c :: w) /\ i = count d /\ count ds = S i /\ wf ds /\ grows (Some i) d ds /\
    elements_of ds i = [] /\ members_of ds i = [] /\ jd_nodes ds !! i = Some (MkJsonNode type [] [] 0 false).
Proof.
  intros Hwf Happ [r Hr]. destruct (append_node_spec _ _ _ _ Happ) as (Hi & A1 & A2 & A3 & A4 & A5 & A6).
  destruct (skip_space_reads (advance d1 1)) as (w & Rw & Hw & _). exists w.
  assert (Hwf1 : wf d1) by (apply (grows_wf None d d1 Hwf A3); done).
  destruct (wf_no_elements d i Hwf) as [N1 N2]; [lia|].
  cbv zeta. split_and!; try done.
  - change (c :: w) with ([] ++ [c] ++ w). eapply reads_trans; [done|]. eapply reads_trans; [|done]. eapply advance_one.
    apply reads_rest in A1. rewrite Hr in A1. simpl in A1. by rewrite <- A1.
  - change (count d1 = S i). lia.
  - apply (grows_trans _ _ d1); [by apply grows_weaken|by apply grows_same].
  - change (elements_of d1 i = []). unfold elements_of. by rewrite A6.
  - change (members_of d1 i = []). unfold members_of. by rewrite A5.
Qed.

(** What has been read of a container when its closing character has been. *)
Definition container_read (type : JsonType) (depth : nat) (d : JsonDocument) (i : nat) (d2 : JsonDocument)
    (t : text) (v : json) : Prop :=
  reads d d2 t /\ json_text depth v t /\ grows None d d2 /\ (i < count d2)%nat /\
  jd_nodes d2 !! i = Some (MkJsonNode type [] [] 0 false).

Lemma container_close type depth d ds i d2 t v :
  i = count d -> count ds = S i -> grows (Some i) d ds -> grows (Some i) ds d2 ->
  jd_nodes ds !! i = Some (MkJsonNode type [] [] 0 false) -> reads d d2 t -> json_text depth v t ->
  container_read type depth d i d2 t v.
Proof.
  intros Hi Hc G1 G2 Hn R T. pose proof (gr_count _ _ _ G2).
  split; [done|]. split; [done|]. split; [|split; [lia|]].
  - apply (grows_close None i); [by eapply grows_trans|]. intros q ->. left. lia.
  - rewrite (gr_nodes _ _ _ G2) by lia. done.
Qed.

(** The two ways a container ends. *)
Lemma container_empty type depth d i d1 (c close : ascii) r v w :
  wf d -> append_node d type = Some (i, d1) -> rest d = c :: r ->
  let ds := skip_space (advance d1 1) in
  reads d ds (c :: w) -> (exists r, rest ds = close :: r) -> json_text depth v (c :: w ++ [close]) ->
  container_read type depth d i (advance ds 1) (c :: w ++ [close]) v /\
  elements_of (advance ds 1) i = [] /\ members_of (advance ds 1) i = [].
Proof.
  intros Hwf Happ Hr ds R1 [r' Hr'] T.
  destruct (container_open _ _ _ _ _ Hwf Happ (ex_intro _ r Hr)) as (w' & _ & _ & Hi & Hc & _ & G1 & N1 & N2 & Hn).
  fold ds in Hc, G1, N1, N2, Hn. split; [|done].
  apply (container_close type depth d ds i _ _ v Hi Hc G1); try done; [by apply grows_same|].
  change (c :: w ++ [close]) with ((c :: w) ++ [close]). eapply reads_trans; [done|]. by eapply advance_one.
Qed.

Lemma object_filled depth d i d1 d2 w t kvs r :
  wf d -> append_node d object = Some (i, d1) -> rest d = "{"%char :: r -> (depth <= maximum_depth)%nat -> spaces w ->
  reads d (skip_space (advance d1 1)) ("{"%char :: w) ->
  members_as i depth t kvs (skip_space (advance d1 1)) d2 ->
  container_read object depth d i d2 ("{"%char :: w ++ t ++ ["}"%char]) (JObject kvs) /\
  repm d2 (S i) (count d2) (members_of d2 i) kvs.
Proof.
  intros Hwf Happ Hr Hdepth Hw R1 (js & R2 & T2 & G2 & E2 & P2 & _).
  destruct (container_open _ _ _ _ _ Hwf Happ (ex_intro _ r Hr)) as (w' & _ & _ & Hi & Hc & _ & G1 & _ & N & Hn).
  rewrite N in E2. simpl in E2. split; [|rewrite E2, <- Hc; done].
  apply (container_close object depth d _ i d2 _ _ Hi Hc G1 G2 Hn); [|by constructor].
  change ("{"%char :: w ++ t ++ ["}"%char]) with (("{"%char :: w) ++ t ++ ["}"%char]). by eapply reads_trans.
Qed.

Lemma array_filled depth d i d1 d2 w w2 t vs r :
  wf d -> append_node d array = Some (i, d1) -> rest d = "["%char :: r -> (depth <= maximum_depth)%nat -> spaces w ->
  reads d (skip_space (advance d1 1)) ("["%char :: w) ->
  elements_as i depth w2 t vs (skip_space (advance d1 1)) d2 ->
  container_read array depth d i d2 ("["%char :: (w ++ w2) ++ t ++ ["]"%char]) (JArray vs) /\
  reps d2 (S i) (count d2) (elements_of d2 i) vs.
Proof.
  intros Hwf Happ Hr Hdepth Hw R1 (js & R2 & W2 & T2 & G2 & E2 & P2).
  destruct (container_open _ _ _ _ _ Hwf Happ (ex_intro _ r Hr)) as (w' & _ & _ & Hi & Hc & _ & G1 & N & _ & Hn).
  rewrite N in E2. simpl in E2. split; [|rewrite E2, <- Hc; done].
  apply (container_close array depth d _ i d2 _ _ Hi Hc G1 G2 Hn).
  - replace ("["%char :: (w ++ w2) ++ t ++ ["]"%char]) with (("["%char :: w) ++ w2 ++ t ++ ["]"%char])
      by (simplify_list_eq; done). by eapply reads_trans.
  - constructor; try done. by apply Forall_app.
Qed.

Lemma object_sound fuel depth d i d1 d2 r :
  sound_at fuel -> wf d -> append_node d object = Some (i, d1) -> rest d = "{"%char :: r ->
  (depth <= maximum_depth)%nat -> parse_object_with (parse_members fuel i depth) d1 = Ret (Some d2) ->
  exists t kvs, container_read object depth d i d2 t (JObject kvs) /\ repm d2 (S i) (count d2) (members_of d2 i) kvs /\
    value_grown (JObject kvs) d d2.
Proof.
  intros (_ & Hm & _) Hwf Happ Hr Hdepth Hrun. pose proof (append_node_grown _ _ _ _ Happ) as Hg. unfold parse_object_with in Hrun.
  destruct (container_open _ _ _ _ _ Hwf Happ (ex_intro _ r Hr)) as (w & Hw & R1 & Hi & Hc & Hwf1 & _).
  destruct (looking_at _ "}") eqn:Eb.
  - injection Hrun as <-. apply looking_at_rest in Eb. eexists _, [].
    destruct (container_empty object depth d i d1 "{" "}" r (JObject []) w Hwf Happ Hr R1 Eb) as (H1 & _ & ->);
      [by constructor|]. split; [done|]. split; [constructor|done].
  - destruct (Hm i depth _ d2 Hwf1 ltac:(lia) Hrun) as (t & kvs & Hread & Hmore). eexists _, kvs. apply and_assoc. split; [by eapply object_filled|].
    grown_by (grown_trans _ _ _ _ _ _ _ _ _ Hg (grown_trans _ _ _ _ _ _ _ _ _ (grown_same d1 (skip_space (advance d1 1)) ltac:(done)) Hmore)).
Qed.

Lemma array_sound fuel depth d i d1 d2 r :
  sound_at fuel -> wf d -> append_node d array = Some (i, d1) -> rest d = "["%char :: r ->
  (depth <= maximum_depth)%nat -> parse_array_with (parse_elements fuel i depth) d1 = Ret (Some d2) ->
  exists t vs, container_read array depth d i d2 t (JArray vs) /\ reps d2 (S i) (count d2) (elements_of d2 i) vs /\
    value_grown (JArray vs) d d2.
Proof.
  intros (_ & _ & He) Hwf Happ Hr Hdepth Hrun. pose proof (append_node_grown _ _ _ _ Happ) as Hg. unfold parse_array_with in Hrun.
  destruct (container_open _ _ _ _ _ Hwf Happ (ex_intro _ r Hr)) as (w & Hw & R1 & Hi & Hc & Hwf1 & _).
  destruct (looking_at _ "]") eqn:Eb.
  - injection Hrun as <-. apply looking_at_rest in Eb. eexists _, [].
    destruct (container_empty array depth d i d1 "[" "]" r (JArray []) w Hwf Happ Hr R1 Eb) as (H1 & -> & _);
      [by constructor|]. split; [done|]. split; [constructor|done].
  - destruct (He i depth _ d2 Hwf1 ltac:(lia) Hrun) as (w2 & t & vs & Hread & Hmore). eexists _, vs. apply and_assoc. split; [by eapply array_filled|].
    grown_by (grown_trans _ _ _ _ _ _ _ _ _ Hg (grown_trans _ _ _ _ _ _ _ _ _ (grown_same d1 (skip_space (advance d1 1)) ltac:(done)) Hmore)).
Qed.

Lemma word_read d w : looking_at_word d w = true -> reads d (advance d (length w)) w.
Proof.
  unfold looking_at_word. fold (rest d). rewrite bool_decide_eq_true. intros H.
  apply (advance_reads d w (drop (length w) (rest d))). rewrite <- H at 1. by rewrite take_drop.
Qed.

Lemma literal_sound depth d w ds type b s v i d1 :
  reads d ds w -> spaces w -> same_tables d ds -> looking_at_word ds (word s) = true ->
  parse_literal ds type b (length (word s)) = Some (i, d1) -> json_text depth v (word s) ->
  (forall d' lo hi, (lo <= i < hi)%nat ->
     jd_nodes d' !! i = Some (set_raw (word s) (set_boolean b (MkJsonNode type [] [] 0 false))) -> rep d' lo hi i v) ->
  value_as depth w (word s) v d i (snd (finish_value (jd_cursor ds) (i, d1))).
Proof.
  intros R W S Hword Hlit T Hrep. unfold parse_literal in Hlit.
  destruct (append_node ds type) as [[j da]|] eqn:Happ; [|done]. cbn [mbind option_bind] in Hlit.
  injection Hlit as -> <-. simpl. change (advance (update_node da i (set_boolean b)) (length (word s)))
    with (update_node (advance da (length (word s))) i (set_boolean b)).
  destruct (append_node_spec _ _ _ _ Happ) as (_ & A1 & _).
  apply (append_scalar_sound depth d w ds type i da (advance da (length (word s))) (word s) (set_boolean b) v); try done.
  pose proof (word_read _ _ Hword) as Hr. apply reads_rest in A1. simpl in A1. apply reads_rest in Hr.
  rewrite A1 in Hr. by eapply advance_reads.
Qed.

(** The value of a container that has been read. *)
Lemma container_value depth d w ds type i da db t v :
  reads d ds w -> spaces w -> same_tables d ds -> append_node ds type = Some (i, da) ->
  container_read type depth ds i db t v ->
  (forall d2 n, node_is d2 i (count d2) i v n type -> agrees db d2 (S i) (count db) -> count d2 = count db ->
     elements_of d2 i = elements_of db i -> members_of d2 i = members_of db i -> rep d2 i (count d2) i v) ->
  value_as depth w t v d i (update_node db i (set_raw (view_of db (jd_cursor ds) (jd_cursor db)))).
Proof.
  intros R W Ht Happ (Rt & T & G & Hlt & Hn) Hrep. destruct (append_node_spec _ _ _ _ Happ) as (Hi & _).
  destruct Ht as (S0 & S1 & S2 & S3). assert (Hc : count ds = count d) by (unfold jd_node_count; by rewrite S1).
  apply (finish_sound depth d w ds i db t v); try done; [congruence| |].
  - apply (grows_trans _ _ ds); [by apply grows_same|done].
  - intros n d2 Hn2 Hd2 Hc2 Ha Ee Em. rewrite Hn in Hn2. injection Hn2 as <-.
    apply (Hrep d2 (set_raw t (MkJsonNode type [] [] 0 false))); try done.
    split; [lia|]. split; [done|]. split; [done|]. by exists depth.
Qed.

Lemma object_value depth d w ds i da db t kvs :
  reads d ds w -> spaces w -> same_tables d ds -> append_node ds object = Some (i, da) ->
  container_read object depth ds i db t (JObject kvs) -> repm db (S i) (count db) (members_of db i) kvs ->
  value_as depth w t (JObject kvs) d i (snd (finish_value (jd_cursor ds) (i, db))).
Proof.
  intros R W Ht Happ Hread P. apply (container_value depth d w ds object i da db t (JObject kvs)); try done.
  intros d2 n Hn Ha Hc _ Em. apply (rep_object _ _ _ _ n); [done|]. rewrite Em.
  apply (rep_agrees db d2 (S i) (count db)); done || lia.
Qed.

Lemma array_value depth d w ds i da db t vs :
  reads d ds w -> spaces w -> same_tables d ds -> append_node ds array = Some (i, da) ->
  container_read array depth ds i db t (JArray vs) -> reps db (S i) (count db) (elements_of db i) vs ->
  value_as depth w t (JArray vs) d i (snd (finish_value (jd_cursor ds) (i, db))).
Proof.
  intros R W Ht Happ Hread P. apply (container_value depth d w ds array i da db t (JArray vs)); try done.
  intros d2 n Hn Ha Hc Ee _. apply (rep_array _ _ _ _ n); [done|]. rewrite Ee.
  apply (rep_agrees db d2 (S i) (count db)); done || lia.
Qed.

(** A scalar's node, once complete, represents it. *)
Lemma node_is_intro d lo hi i v n type depth :
  (lo <= i < hi)%nat -> jd_nodes d !! i = Some n -> jn_type n = type -> json_text depth v (jn_raw n) ->
  node_is d lo hi i v n type.
Proof. intros H1 H2 H3 H4. split; [done|]. split; [done|]. split; [done|]. by exists depth. Qed.

Lemma string_value_as depth d w ds i da s db :
  reads d ds w -> spaces w -> same_tables d ds -> (depth <= maximum_depth)%nat ->
  append_node ds string_value = Some (i, da) -> reads da db (string_text s) -> string_body s -> same_tables da db ->
  value_as depth w (string_text s) (JString s) d i
    (snd (finish_value (jd_cursor ds) (i, update_node db i (set_string s)))).
Proof.
  intros R W Ht Hdepth Happ R1 Hb S1. assert (T := jt_string _ _ Hdepth Hb).
  apply (append_scalar_sound depth d w ds string_value i da db (string_text s) (set_string s) (JString s)); try done.
  intros d2 lo hi Hrange Hn. eapply (rep_string _ _ _ _ (set_raw _ (set_string s _))), node_is_intro; done.
Qed.

Lemma number_value_as depth d w ds i da digits db :
  reads d ds w -> spaces w -> same_tables d ds -> (depth <= maximum_depth)%nat ->
  append_node ds number = Some (i, da) -> reads da db digits -> number_text digits -> same_tables da db ->
  value_as depth w digits (JNumber (decimal digits)) d i
    (snd (finish_value (jd_cursor ds) (i, update_node db i (set_number (decimal digits))))).
Proof.
  intros R W Ht Hdepth Happ R1 Hb S1. assert (T := jt_number _ _ Hdepth Hb).
  apply (append_scalar_sound depth d w ds number i da db digits (set_number (decimal digits)) (JNumber (decimal digits)));
    try done.
  intros d2 lo hi Hrange Hn. eapply (rep_number _ _ _ _ (set_raw _ (set_number (decimal digits) _))), node_is_intro; done.
Qed.

(** The words, with the node type and the value they stand for. *)
Inductive literal : string -> JsonType -> bool -> json -> Prop :=
  | lit_true : literal "true" boolean true (JBool true)
  | lit_false : literal "false" boolean false (JBool false)
  | lit_null : literal "null" null_value false JNull.

Lemma literal_value_as depth d w ds s type b v i d1 :
  literal s type b v -> reads d ds w -> spaces w -> same_tables d ds -> (depth <= maximum_depth)%nat ->
  looking_at_word ds (word s) = true -> parse_literal ds type b (length (word s)) = Some (i, d1) ->
  value_as depth w (word s) v d i (snd (finish_value (jd_cursor ds) (i, d1))).
Proof.
  intros Hlit R W Ht Hdepth Hword Hrun.
  assert (T : json_text depth v (word s)) by (destruct Hlit; by constructor).
  eapply literal_sound; try done. intros d2 lo hi Hrange Hn. destruct Hlit.
  - eapply (rep_bool _ _ _ _ (set_raw _ (set_boolean true _))), node_is_intro; done.
  - eapply (rep_bool _ _ _ _ (set_raw _ (set_boolean false _))), node_is_intro; done.
  - eapply (rep_null _ _ _ _ (set_raw _ (set_boolean false _))), node_is_intro; done.
Qed.

Lemma value_step fuel depth d i d' :
  sound_at fuel -> wf d -> parse_value (S fuel) depth d = Ret (Some (i, d')) -> value_read depth d i d'.
Proof.
  intros Hs Hwf. cbn [parse_value]. destruct (bool_decide _) eqn:Ed; [done|].
  apply bool_decide_eq_false in Ed. assert (Hdepth : (depth <= maximum_depth)%nat) by lia.
  destruct (skip_space_reads d) as (w & Rw & Hw & _).
  assert (Ss : same_tables d (skip_space d)) by done. set (ds := skip_space d) in *.
  assert (Hwfs : wf ds) by done. rewrite at_cursor_rest. destruct (rest ds) as [|c r] eqn:Hr; [done|]. cbn [head].
  intros ((j & d1) & Hrun & Hfin)%call_Some. simpl in Hfin. injection Hfin as -> <-.
  change (update_node d1 i _) with (snd (finish_value (jd_cursor ds) (i, d1))). exists w.
  assert (Hfin : forall v, value_grown v ds d1 -> value_grown v d (snd (finish_value (jd_cursor ds) (i, d1))))
    by (intros v Hg; apply update_node_grown; exact Hg).
  destruct (is_char c quote) eqn:Eq.
  { apply andthen_Some in Hrun as ((j & da) & Happ & Hrun). apply andthen_Some in Hrun as ((s & db) & Hstr & [= -> <-]).
    destruct (parse_string_sound _ _ _ Hstr) as (R1 & Hb & S1). eexists _, _. split; [by eapply string_value_as|]. apply Hfin, update_node_grown.
    exact (grown_trans _ _ _ _ _ _ _ _ _ (append_node_grown _ _ _ _ Happ) (grown_same _ _ S1)). }
  destruct (is_char c "{") eqn:Eo.
  { apply is_char_true in Eo as ->. apply andthen_Some in Hrun as ((j & da) & Happ & Hrun).
    apply call_Some in Hrun as (db & Hobj & [= -> ->]).
    destruct (object_sound fuel depth ds i da d1 r Hs Hwfs Happ Hr Hdepth Hobj) as (t & kvs & Hread & P & Hg).
    exists t, (JObject kvs). split; [by eapply object_value|by apply Hfin]. }
  destruct (is_char c "[") eqn:Ea.
  { apply is_char_true in Ea as ->. apply andthen_Some in Hrun as ((j & da) & Happ & Hrun).
    apply call_Some in Hrun as (db & Harr & [= -> ->]).
    destruct (array_sound fuel depth ds i da d1 r Hs Hwfs Happ Hr Hdepth Harr) as (t & vs & Hread & P & Hg).
    exists t, (JArray vs). split; [by eapply array_value|by apply Hfin]. }
  assert (Hlit : forall s type b v, literal s type b v -> looking_at_word ds (word s) = true ->
    Ret (parse_literal ds type b (length (word s))) = Ret (Some (i, d1)) ->
    exists t v, value_as depth w t v d i (snd (finish_value (jd_cursor ds) (i, d1))) /\ value_grown v d (snd (finish_value (jd_cursor ds) (i, d1)))).
  { intros s type b v Hl Hword [= Hrun1]. eexists _, v. split; [by eapply literal_value_as|]. apply Hfin.
    revert Hrun1. unfold parse_literal. destruct (append_node ds type) as [[j da]|] eqn:Happ; [|done]. intros [= _ <-].
    pose proof (update_node_grown _ j (set_boolean b) _ _ _ _ (append_node_grown _ _ _ _ Happ)) as Hg. destruct Hl; exact Hg. }
  destruct (is_char c "t" && _) eqn:Et; [apply andb_true_iff in Et as [_ Et]; by eapply (Hlit _ _ _ _ lit_true)|].
  destruct (is_char c "f" && _) eqn:Ef; [apply andb_true_iff in Ef as [_ Ef]; by eapply (Hlit _ _ _ _ lit_false)|].
  destruct (is_char c "n" && _) eqn:En; [apply andb_true_iff in En as [_ En]; by eapply (Hlit _ _ _ _ lit_null)|].
  apply andthen_Some in Hrun as ((j & da) & Happ & Hrun). apply andthen_Some in Hrun as ((v & db) & Hnum & [= -> <-]).
  destruct (parse_number_sound _ _ _ Hnum) as (digits & R1 & Hb & -> & S1 & _). eexists _, _.
  split; [by eapply number_value_as|]. apply Hfin, update_node_grown.
  exact (grown_trans _ _ _ _ _ _ _ _ _ (append_node_grown _ _ _ _ Happ) (grown_same _ _ S1)).
Qed.

Lemma parse_sound fuel : sound_at fuel.
Proof.
  induction fuel as [|fuel IH]; [by split; [|split]|].
  split; [|split]; intros.
  - by eapply value_step.
  - by eapply members_step.
  - by eapply elements_step.
Qed.

(** ** Termination *)
Lemma json_text_nonempty depth v t : json_text depth v t -> (1 <= length t)%nat.
Proof.
  destruct 1; simpl; try lia.
  match goal with H : number_text _ |- _ => destruct H as (_ & _ & c & r & -> & _) end. simpl. lia.
Qed.

Definition returns {A} (m : outcome A) : Prop := exists r, m = Ret r.

Lemma andthen_returns {A B} (r : option A) (k : A -> outcome (option B)) :
  (forall a, r = Some a -> returns (k a)) -> returns (andthen r k).
Proof. destruct r as [a|]; simpl; [eauto|by exists None]. Qed.

Lemma call_returns {A B} (r : outcome (option A)) (k : A -> outcome (option B)) :
  returns r -> (forall a, r = Ret (Some a) -> returns (k a)) -> returns (x ← r; andthen x k).
Proof. intros [[a|] ->] Hk; simpl; [by apply Hk|by exists None]. Qed.

Lemma skip_space_length d : (length (rest (skip_space d)) <= length (rest d))%nat.
Proof. destruct (skip_space_reads d) as (w & R & _). rewrite (reads_length _ _ _ R). lia. Qed.

Lemma advance_length d c : looking_at d c = true -> (S (length (rest (advance d 1))) = length (rest d))%nat.
Proof. intros [r Hr]%looking_at_rest. pose proof (reads_length _ _ _ (advance_one _ _ _ Hr)). simpl in *. lia. Qed.

Lemma separator_returns close loop d :
  (forall d1, same_tables d d1 -> (length (rest d1) < length (rest d))%nat -> returns (loop d1)) ->
  returns (parse_separator close loop d).
Proof.
  intros Hloop. unfold parse_separator. destruct (looking_at (skip_space d) close); [by eexists|].
  destruct (looking_at (skip_space d) ",") eqn:E; simpl; [|by eexists]. apply Hloop; [done|].
  pose proof (skip_space_length d). pose proof (advance_length _ _ E).
  pose proof (skip_space_length (advance (skip_space d) 1)). lia.
Qed.

Definition returns_at (fuel : nat) : Prop :=
  (forall depth d, wf d -> (2 * length (rest d) + 1 <= fuel)%nat -> returns (parse_value fuel depth d)) /\
  (forall parent depth d, wf d -> (parent < count d)%nat -> (2 * length (rest d) + 1 <= fuel)%nat ->
     returns (parse_members fuel parent depth d)) /\
  (forall parent depth d, wf d -> (parent < count d)%nat -> (2 * length (rest d) + 2 <= fuel)%nat ->
     returns (parse_elements fuel parent depth d)).

(** What the loops need to know of a value that has been read. *)
Lemma value_shrinks fuel depth parent d i d1 :
  wf d -> (parent < count d)%nat -> parse_value fuel depth d = Ret (Some (i, d1)) ->
  (length (rest d1) < length (rest d))%nat /\ wf d1 /\ (parent < count d1)%nat.
Proof.
  intros Hwf Hp Hv. destruct (proj1 (parse_sound fuel) _ _ _ _ Hwf Hv) as (w & t & v & (R & _ & T & _ & G & _) & _).
  pose proof (reads_length _ _ _ R) as Hl. rewrite length_app in Hl. apply json_text_nonempty in T.
  pose proof (gr_count _ _ _ G). split; [lia|]. split; [|lia]. by apply (grows_wf None d d1 Hwf G).
Qed.

Lemma entry_added_wf parent d d' :
  wf d -> (parent < count d)%nat -> entry_added parent d d' -> wf d' /\ count d' = count d /\ rest d' = rest d.
Proof.
  intros Hwf Hp (R & C & G). split; [|split; [done|]].
  - apply (grows_wf (Some parent) d d' Hwf G). by intros q [= <-].
  - symmetry. apply (reads_rest _ _ _ R).
Qed.

Lemma elements_returns fuel parent depth d :
  returns_at fuel -> wf d -> (parent < count d)%nat -> (2 * length (rest d) + 2 <= S fuel)%nat ->
  returns (parse_elements (S fuel) parent depth d).
Proof.
  intros (Hv & _ & He) Hwf Hp Hf. cbn [parse_elements]. destruct (bool_decide _); [by eexists|].
  apply call_returns; [apply Hv; [done|lia]|]. intros (i & d1) Hval.
  destruct (value_shrinks _ _ _ _ _ _ Hwf Hp Hval) as (Hlen & Hwf1 & Hp1).
  apply andthen_returns. intros d2 Happ. destruct (append_element_spec _ _ _ _ Happ) as [Hadd _].
  destruct (entry_added_wf _ _ _ Hwf1 Hp1 Hadd) as (Hwf2 & Hc2 & Hr2).
  apply separator_returns. intros d3 S3 Hlt. destruct (same_tables_wf _ _ S3 Hwf2) as [Hwf3 Hc3].
  rewrite Hr2 in Hlt. apply He; [done|lia|lia].
Qed.

Lemma members_returns fuel parent depth d :
  returns_at fuel -> wf d -> (parent < count d)%nat -> (2 * length (rest d) + 1 <= S fuel)%nat ->
  returns (parse_members (S fuel) parent depth d).
Proof.
  intros (Hv & Hm & _) Hwf Hp Hf. cbn [parse_members]. destruct (bool_decide _); [by eexists|].
  apply andthen_returns. intros (k & d0) Hstr. destruct (parse_string_sound _ _ _ Hstr) as (R0 & _ & S0).
  destruct (existsb _ _); [by eexists|]. destruct (looking_at _ ":") eqn:Hcolon; cbn [negb]; [|by eexists].
  pose proof (reads_length _ _ _ R0) as L0. unfold string_text in L0. cbn [length] in L0.
  pose proof (skip_space_length d0) as L1. pose proof (advance_length _ _ Hcolon) as L2.
  pose proof (skip_space_length (advance (skip_space d0) 1)) as L3.
  set (dv := skip_space (advance (skip_space d0) 1)) in *.
  assert (Sv : same_tables d dv) by (destruct S0 as (? & ? & ? & ?); by repeat split).
  destruct (same_tables_wf _ _ Sv Hwf) as [Hwfv Hcv].
  apply call_returns; [apply Hv; [done|lia]|]. intros (i & d1) Hval.
  destruct (value_shrinks _ _ parent _ _ _ Hwfv ltac:(lia) Hval) as (Hlen & Hwf1 & Hp1).
  apply andthen_returns. intros d2 Happ. destruct (append_member_spec _ _ _ _ _ Happ) as [Hadd _].
  destruct (entry_added_wf _ _ _ Hwf1 Hp1 Hadd) as (Hwf2 & Hc2 & Hr2).
  apply separator_returns. intros d3 S3 Hlt. destruct (same_tables_wf _ _ S3 Hwf2) as [Hwf3 Hc3].
  rewrite Hr2 in Hlt. apply Hm; [done|lia|lia].
Qed.

(** A container's node has been appended: one character fewer is left. *)
Lemma container_length type (c : ascii) d i d1 :
  wf d -> append_node d type = Some (i, d1) -> (exists r, rest d = c :: r) ->
  let ds := skip_space (advance d1 1) in wf ds /\ (i < count ds)%nat /\ (length (rest ds) < length (rest d))%nat.
Proof.
  intros Hwf Happ Hr. destruct (container_open _ _ _ _ _ Hwf Happ Hr) as (w & _ & R & Hi & Hc & Hwf1 & _).
  cbv zeta in *. split; [done|]. split; [lia|]. rewrite (reads_length _ _ _ R). simpl. lia.
Qed.

Lemma value_returns fuel depth d :
  returns_at fuel -> wf d -> (2 * length (rest d) + 1 <= S fuel)%nat -> returns (parse_value (S fuel) depth d).
Proof.
  intros (_ & Hm & He) Hwf Hf. cbn [parse_value]. destruct (bool_decide _); [by eexists|].
  pose proof (skip_space_length d) as L0. set (ds := skip_space d) in *. assert (Hwfs : wf ds) by done.
  rewrite at_cursor_rest. destruct (rest ds) as [|c r] eqn:Hr; [by eexists|]. cbn [head].
  rewrite <- Hr in L0. apply call_returns; [|intros [? ?]; by eexists].
  destruct (is_char c quote).
  { apply andthen_returns. intros [? ?] _. apply andthen_returns. intros [? ?] _. by eexists. }
  destruct (is_char c "{") eqn:Eo.
  { apply is_char_true in Eo as ->. apply andthen_returns. intros [j da] Happ.
    destruct (container_length _ _ _ _ _ Hwfs Happ ltac:(eauto)) as (Hwf1 & Hj & Hlen).
    apply call_returns; [|intros ?; by eexists]. unfold parse_object_with.
    destruct (looking_at _ "}"); [by eexists|]. apply Hm; [done|done|lia]. }
  destruct (is_char c "[") eqn:Ea.
  { apply is_char_true in Ea as ->. apply andthen_returns. intros [j da] Happ.
    destruct (container_length _ _ _ _ _ Hwfs Happ ltac:(eauto)) as (Hwf1 & Hj & Hlen).
    apply call_returns; [|intros ?; by eexists]. unfold parse_array_with.
    destruct (looking_at _ "]"); [by eexists|]. apply He; [done|done|lia]. }
  repeat (destruct (_ && _); [by eexists|]).
  apply andthen_returns. intros [? ?] _. apply andthen_returns. intros [? ?] _. by eexists.
Qed.

Lemma parse_returns fuel : returns_at fuel.
Proof.
  induction fuel as [|fuel IH]; [by split; [|split]; intros; lia|].
  split; [|split]; intros.
  - by apply value_returns.
  - by apply members_returns.
  - by apply elements_returns.
Qed.

(** ** Completeness *)
(** What may follow a value: anything but a digit. *)
Definition no_digit (r : text) : Prop := forall c k, r = c :: k -> is_digit c = false.

Lemma no_digit_spaces w c r : spaces w -> is_digit c = false -> no_digit (w ++ c :: r).
Proof.
  intros Hw Hc x k. destruct Hw as [|y w Hy]; simpl; [by intros [= <- _]|]. intros [= <- _].
  unfold is_space in Hy. rewrite !orb_true_iff in Hy.
  destruct Hy as [[[H|H]|H]|H]; apply is_char_true in H as ->; done.
Qed.

Lemma no_digit_blank w : spaces w -> no_digit w.
Proof.
  intros Hw. destruct Hw as [|y w Hy]; [by intros ? ?|].
  apply (no_digit_spaces [] y w); [constructor|]. unfold is_space in Hy. rewrite !orb_true_iff in Hy.
  destruct Hy as [[[H|H]|H]|H]; apply is_char_true in H as ->; done.
Qed.

(** The first character of a value's text is not a space. *)
Lemma json_text_head depth v t : json_text depth v t -> exists c r, t = c :: r /\ is_space c = false.
Proof.
  destruct 1; try (by eexists _, _).
  match goal with H : number_text _ |- _ => destruct H as (Hd & _ & c & r & -> & _) end.
  exists c, r. split; [done|]. apply Forall_inv in Hd. destruct (is_space c) eqn:E; [|done].
  pose proof (no_digit_blank [c] ltac:(by repeat constructor) c [] eq_refl). congruence.
Qed.

Lemma digit_not_char c k : is_digit c = true -> is_digit k = false -> is_char c k = false.
Proof. intros Hc Hk. destruct (is_char c k) eqn:E; [|done]. apply is_char_true in E as ->. congruence. Qed.

Lemma not_at_end d : rest d <> [] -> bool_decide (jd_size d <= jd_cursor d)%nat = false.
Proof. intros H. apply bool_decide_eq_false. intros Hle. apply H. unfold rest. by apply drop_ge. Qed.

Lemma looking_at_true d c r : rest d = c :: r -> looking_at d c = true.
Proof. intros H. apply looking_at_rest. eauto. Qed.

Lemma looking_at_other d c k r : rest d = c :: r -> c <> k -> looking_at d k = false.
Proof.
  intros H Hne. destruct (looking_at d k) eqn:E; [|done]. apply looking_at_rest in E as [r' E]. congruence.
Qed.

(** The separator on both continuations. *)
Lemma separator_close close loop d w r :
  rest d = w ++ close :: r -> spaces w -> is_space close = false ->
  exists d', parse_separator close loop d = Ret (Some d') /\ reads d d' (w ++ [close]) /\ same_tables d d'.
Proof.
  intros Hr Hw Hc. destruct (skip_space_exact d w (close :: r) Hr Hw) as [R1 E1]; [by intros ? ? [= <- _]|].
  unfold parse_separator. rewrite (looking_at_true _ _ _ E1). eexists. split; [done|]. split; [|done].
  eapply reads_trans; [done|]. by eapply advance_one.
Qed.

Lemma separator_comma close loop d w w2 r :
  rest d = w ++ ","%char :: w2 ++ r -> spaces w -> spaces w2 -> close <> ","%char ->
  (forall c k, r = c :: k -> is_space c = false) ->
  exists d1, parse_separator close loop d = loop d1 /\ reads d d1 (w ++ ","%char :: w2) /\ same_tables d d1.
Proof.
  intros Hr Hw Hw2 Hc Hfirst. destruct (skip_space_exact d w _ Hr Hw) as [R1 E1]; [by intros ? ? [= <- _]|].
  unfold parse_separator. rewrite (looking_at_other _ _ close _ E1) by done. rewrite (looking_at_true _ _ _ E1). simpl.
  pose proof (advance_one _ _ _ E1) as R2. pose proof (reads_rest _ _ _ R2) as E2. rewrite E1 in E2.
  injection E2 as E2. symmetry in E2.
  destruct (skip_space_exact _ w2 r E2 Hw2 Hfirst) as [R3 E3]. eexists. split; [done|]. split; [|done].
  change (","%char :: w2) with ([","%char] ++ w2). eapply reads_trans; [done|]. by eapply reads_trans.
Qed.

Definition complete_value (depth : nat) (v : json) (t : text) : Prop :=
  forall fuel d w r, rest d = w ++ t ++ r -> spaces w -> no_digit r -> wf d ->
    room d (nodes_in v) (members_in v) (elements_in v) -> (2 * length (rest d) + 1 <= fuel)%nat ->
    exists i d', parse_value fuel depth d = Ret (Some (i, d')) /\ value_as depth w t v d i d' /\
      added d d' (nodes_in v) (members_in v) (elements_in v).

Definition complete_elements (inner : nat) (vs : list json) (t : text) : Prop :=
  forall depth fuel parent d w r, inner = S depth -> rest d = w ++ t ++ "]"%char :: r -> spaces w -> wf d ->
    (parent < count d)%nat ->
    room d (sum_of nodes_in vs) (sum_of members_in vs) (sum_of (fun v => S (elements_in v)) vs) ->
    (2 * length (rest d) + 2 <= fuel)%nat ->
    exists d', parse_elements fuel parent depth d = Ret (Some d') /\ elements_as parent depth w t vs d d' /\
      added d d' (sum_of nodes_in vs) (sum_of members_in vs) (sum_of (fun v => S (elements_in v)) vs).

Definition complete_members (inner : nat) (kvs : list (text * json)) (t : text) : Prop :=
  forall depth fuel parent d r, inner = S depth -> rest d = t ++ "}"%char :: r -> wf d ->
    (parent < count d)%nat -> Forall (fun k => k ∉ map fst (members_of d parent)) (map fst kvs) ->
    room d (sum_of (fun kv => nodes_in (snd kv)) kvs) (sum_of (fun kv => S (members_in (snd kv))) kvs)
      (sum_of (fun kv => elements_in (snd kv)) kvs) ->
    (2 * length (rest d) + 1 <= fuel)%nat ->
    exists d', parse_members fuel parent depth d = Ret (Some d') /\ members_as parent depth t kvs d d' /\
      added d d' (sum_of (fun kv => nodes_in (snd kv)) kvs) (sum_of (fun kv => S (members_in (snd kv))) kvs)
        (sum_of (fun kv => elements_in (snd kv)) kvs).

(** The start of [parse_value] on a text of the grammar. *)
Lemma value_start d w c t r :
  rest d = w ++ (c :: t) ++ r -> spaces w -> is_space c = false ->
  reads d (skip_space d) w /\ rest (skip_space d) = c :: t ++ r /\ at_cursor (skip_space d) = Some c.
Proof.
  intros Hr Hw Hc. destruct (skip_space_exact d w ((c :: t) ++ r) Hr Hw) as [R E]; [by intros ? ? [= <- _]|].
  split; [done|]. split; [done|]. by rewrite at_cursor_rest, E.
Qed.

Lemma shallow depth : (depth <= maximum_depth)%nat -> bool_decide (maximum_depth < depth)%nat = false.
Proof. intros H. apply bool_decide_eq_false. lia. Qed.

(** A literal leads to its branch. *)
Lemma complete_literal depth s type b v :
  literal s type b v -> (depth <= maximum_depth)%nat -> complete_value depth v (word s).
Proof.
  intros Hlit Hdepth fuel d w r Hr Hw _ Hwf Hroom Hfuel. destruct fuel as [|fuel]; [lia|].
  assert (exists c k, word s = c :: k /\ is_space c = false) as (c & k & Hs & Hc) by (destruct Hlit; by eexists _, _).
  pose proof Hr as Hr'. rewrite Hs in Hr'. destruct (value_start _ _ _ _ _ Hr' Hw Hc) as (R & E & Hat).
  assert (Hword : looking_at_word (skip_space d) (word s) = true).
  { unfold looking_at_word. fold (rest (skip_space d)). rewrite E, Hs. apply bool_decide_eq_true.
    change (c :: k ++ r) with ((c :: k) ++ r). apply take_app_length. }
  destruct Hroom as (Hn & _). assert (1 <= nodes_in v)%nat by (destruct Hlit; simpl; lia).
  destruct (append_node_room (skip_space d) type) as (da & Happ & Hadd); [change (count d < maximum_json_nodes)%nat; lia|].
  assert (Hrun : parse_literal (skip_space d) type b (length (word s)) =
    Some (count d, advance (update_node da (count d) (set_boolean b)) (length (word s))))
    by (unfold parse_literal; by rewrite Happ).
  eexists (count d), _. split; [|split].
  - cbn [parse_value]. rewrite shallow, Hat by done.
    destruct Hlit; injection Hs as <- <-; cbn -[parse_literal looking_at_word word skip_space]; rewrite Hword; cbn [andb];
      [change 4%nat with (length (word "true"))|change 5%nat with (length (word "false"))|
       change 4%nat with (length (word "null"))]; rewrite Hrun; reflexivity.
  - by apply (literal_value_as depth d w (skip_space d) s type b v).
  - unfold added in *. simpl. unfold jd_node_count in *. simpl in *. rewrite !length_alter.
    destruct Hlit; simpl; lia.
Qed.

Lemma complete_string depth s :
  string_body s -> (depth <= maximum_depth)%nat -> complete_value depth (JString s) (string_text s).
Proof.
  intros Hs Hdepth fuel d w r Hr Hw _ Hwf Hroom Hfuel. destruct fuel as [|fuel]; [lia|].
  destruct (value_start d w quote (s ++ [quote]) r Hr Hw eq_refl) as (R & E & Hat).
  destruct Hroom as (Hn & _). cbn [nodes_in] in Hn.
  destruct (append_node_room (skip_space d) string_value) as (da & Happ & Hadd);
    [change (count d < maximum_json_nodes)%nat; lia|].
  destruct (append_node_spec _ _ _ _ Happ) as (_ & A1 & _). apply reads_rest in A1. simpl in A1.
  destruct (parse_string_complete da s r) as (db & Hstr & R2 & S2); [by rewrite <- A1, E|done|].
  eexists (count d), _. split; [|split].
  - cbn [parse_value]. rewrite shallow, Hat by done. rewrite is_char_refl. rewrite Happ. cbn [andthen].
    rewrite Hstr. reflexivity.
  - by eapply (string_value_as depth d w (skip_space d) (count d) da s db).
  - pose proof (added_same _ _ S2). unfold added in *. simpl. unfold jd_node_count in *. simpl in *.
    rewrite !length_alter. lia.
Qed.

Lemma complete_number depth ds :
  number_text ds -> (depth <= maximum_depth)%nat -> complete_value depth (JNumber (decimal ds)) ds.
Proof.
  intros Hds Hdepth fuel d w r Hr Hw Hdig Hwf Hroom Hfuel. destruct fuel as [|fuel]; [lia|].
  destruct (json_text_head depth _ _ (jt_number _ _ Hdepth Hds)) as (c & k & Hck & Hc).
  pose proof Hr as Hr'. rewrite Hck in Hr'. destruct (value_start _ _ _ _ _ Hr' Hw Hc) as (R & E & Hat).
  assert (Hcd : is_digit c = true) by (destruct Hds as (H & _); rewrite Hck in H; by apply Forall_inv in H).
  destruct Hroom as (Hn & _). cbn [nodes_in] in Hn.
  destruct (append_node_room (skip_space d) number) as (da & Happ & Hadd);
    [change (count d < maximum_json_nodes)%nat; lia|].
  destruct (append_node_spec _ _ _ _ Happ) as (_ & A1 & _). apply reads_rest in A1. simpl in A1.
  destruct (parse_number_complete da ds r) as (db & Hnum & R2 & S2); [by rewrite <- A1, E, Hck|done|done|].
  eexists (count d), _. split; [|split].
  - cbn [parse_value]. rewrite shallow, Hat by done. rewrite !(digit_not_char c) by done. cbn [andb].
    rewrite Happ. cbn [andthen]. rewrite Hnum. reflexivity.
  - by eapply (number_value_as depth d w (skip_space d) (count d) da ds db).
  - pose proof (added_same _ _ S2). unfold added in *. simpl. unfold jd_node_count in *. simpl in *.
    rewrite !length_alter. lia.
Qed.

(** The start of a container: a node is appended and the cursor stands behind the spaces that
    follow the opening character. *)
Lemma container_start type (c : ascii) d w wi t :
  rest d = w ++ c :: wi ++ t -> spaces w -> is_space c = false -> spaces wi ->
  (forall x k, t = x :: k -> is_space x = false) -> (count d < maximum_json_nodes)%nat -> wf d ->
  exists da, append_node (skip_space d) type = Some (count d, da) /\ at_cursor (skip_space d) = Some c /\
    reads d (skip_space d) w /\ reads (skip_space d) (skip_space (advance da 1)) (c :: wi) /\
    rest (skip_space (advance da 1)) = t /\ added d (skip_space (advance da 1)) 1 0 0 /\
    rest (skip_space d) = c :: wi ++ t.
Proof.
  intros Hr Hw Hc Hwi Ht Hcount Hwf. destruct (skip_space_exact d w _ Hr Hw) as [R E]; [by intros ? ? [= <- _]|].
  destruct (append_node_room (skip_space d) type) as (da & Happ & Hadd); [done|]. exists da.
  split; [done|]. split; [by rewrite at_cursor_rest, E|]. split; [done|].
  destruct (append_node_spec _ _ _ _ Happ) as (_ & A1 & _). pose proof (reads_rest _ _ _ A1) as A2. simpl in A2.
  rewrite E in A2. pose proof (advance_one _ _ _ (eq_sym A2)) as R2. pose proof (reads_rest _ _ _ R2) as E2.
  rewrite <- A2 in E2. injection E2 as E2. destruct (skip_space_exact _ wi t (eq_sym E2) Hwi Ht) as [R3 E3].
  split; [|done]. change (c :: wi) with ([] ++ [c] ++ wi). eapply reads_trans; [done|]. by eapply reads_trans.
Qed.

Lemma finish_added d start i d2 n m e :
  added d d2 n m e -> added d (snd (finish_value start (i, d2))) n m e.
Proof. unfold added, jd_node_count. simpl. by rewrite length_alter. Qed.

Lemma complete_array_empty depth wi :
  spaces wi -> (depth <= maximum_depth)%nat -> complete_value depth (JArray []) ("["%char :: wi ++ ["]"%char]).
Proof.
  intros Hwi Hdepth fuel d w r Hr Hw _ Hwf (Hn & _) Hfuel. destruct fuel as [|fuel]; [lia|].
  assert (Hr' : rest d = w ++ "["%char :: wi ++ "]"%char :: r) by (rewrite Hr; simplify_list_eq; done).
  destruct (container_start array "[" d w wi _ Hr' Hw eq_refl Hwi) as (da & Happ & Hat & R & R2 & E2 & Hadd & E);
    [by intros ? ? [= <- _]|cbn [nodes_in] in Hn; lia|done|].
  destruct (container_empty array depth (skip_space d) (count d) da "[" "]" (wi ++ "]"%char :: r) (JArray []) wi) as (Hread & N & _);
    try done; [by eexists|by constructor|].
  eexists (count d), _. split; [|split].
  - cbn [parse_value]. rewrite shallow, Hat by done. change (is_char "[" quote) with false.
    change (is_char "[" "{") with false. change (is_char "[" "[") with true. cbv iota. rewrite Happ. cbn [andthen].
    unfold parse_array_with. rewrite (looking_at_true _ _ _ E2). reflexivity.
  - eapply (array_value depth d w (skip_space d) (count d) da); try done. rewrite N. constructor.
  - apply finish_added. exact Hadd.
Qed.

Lemma complete_object_empty depth wi :
  spaces wi -> (depth <= maximum_depth)%nat -> complete_value depth (JObject []) ("{"%char :: wi ++ ["}"%char]).
Proof.
  intros Hwi Hdepth fuel d w r Hr Hw _ Hwf (Hn & _) Hfuel. destruct fuel as [|fuel]; [lia|].
  assert (Hr' : rest d = w ++ "{"%char :: wi ++ "}"%char :: r) by (rewrite Hr; simplify_list_eq; done).
  destruct (container_start object "{" d w wi _ Hr' Hw eq_refl Hwi) as (da & Happ & Hat & R & R2 & E2 & Hadd & E);
    [by intros ? ? [= <- _]|cbn [nodes_in] in Hn; lia|done|].
  destruct (container_empty object depth (skip_space d) (count d) da "{" "}" (wi ++ "}"%char :: r) (JObject []) wi) as (Hread & _ & N);
    try done; [by eexists|by constructor|].
  eexists (count d), _. split; [|split].
  - cbn [parse_value]. rewrite shallow, Hat by done. change (is_char "{" quote) with false.
    change (is_char "{" "{") with true. cbv iota. rewrite Happ. cbn [andthen].
    unfold parse_object_with. rewrite (looking_at_true _ _ _ E2). reflexivity.
  - eapply (object_value depth d w (skip_space d) (count d) da); try done. rewrite N. constructor.
  - apply finish_added. exact Hadd.
Qed.

Lemma elements_text_head inner vs t : elements_text inner vs t -> exists c r, t = c :: r /\ is_space c = false /\ c <> "]"%char.
Proof.
  assert (Hv : forall d v t, json_text d v t -> forall r, exists c k, t ++ r = c :: k /\ is_space c = false /\ c <> "]"%char).
  { intros d v t' H r. destruct (json_text_head _ _ _ H) as (c & k & -> & Hc). exists c, (k ++ r).
    split; [done|]. split; [done|]. intros ->. inversion H; subst; try discriminate.
    match goal with H : number_text _ |- _ => destruct H as (Hd & _) end. by apply Forall_inv in Hd. }
  destruct 1 as [d v t w H _|d v t w1 w2 vs ts H _ _ _]; by apply (Hv _ _ _ H).
Qed.

Lemma members_text_head inner kvs t : members_text inner kvs t -> exists r, t = quote :: r.
Proof. destruct 1; by eexists. Qed.

Lemma complete_array depth wi vs t :
  spaces wi -> (depth <= maximum_depth)%nat -> elements_text (S depth) vs t -> complete_elements (S depth) vs t ->
  complete_value depth (JArray vs) ("["%char :: wi ++ t ++ ["]"%char]).
Proof.
  intros Hwi Hdepth Htext Hel fuel d w r Hr Hw _ Hwf Hroom Hfuel. destruct fuel as [|fuel]; [lia|].
  destruct (elements_text_head _ _ _ Htext) as (c & k & Hck & Hc & Hnb).
  assert (Hr' : rest d = w ++ "["%char :: wi ++ t ++ "]"%char :: r) by (rewrite Hr; simplify_list_eq; done).
  destruct (container_start array "[" d w wi _ Hr' Hw eq_refl Hwi) as (da & Happ & Hat & R & R2 & E2 & Hadd & E);
    [rewrite Hck; by intros ? ? [= <- _]|destruct Hroom as (Hn & _); cbn [nodes_in] in Hn; lia|done|].
  destruct (container_open _ _ _ _ _ (Hwf : wf (skip_space d)) Happ (ex_intro _ _ E)) as (w' & _ & _ & _ & Hcs & Hwfs & _).
  destruct (Hel depth fuel (count d) (skip_space (advance da 1)) [] r eq_refl) as (d2 & Hrun & Has & Hadd2).
  - by rewrite E2.
  - constructor.
  - done.
  - lia.
  - by apply (added_room d _ 1 0 0).
  - pose proof (reads_length _ _ _ R). pose proof (reads_length _ _ _ R2). simpl in *. lia.
  - destruct (array_filled depth (skip_space d) (count d) da d2 wi [] t vs _ Hwf Happ E Hdepth Hwi R2 Has) as [Hread P].
    rewrite app_nil_r in Hread. eexists (count d), _. split; [|split].
    + cbn [parse_value]. rewrite shallow, Hat by done. change (is_char "[" quote) with false.
      change (is_char "[" "{") with false. change (is_char "[" "[") with true. cbv iota. rewrite Happ. cbn [andthen].
      unfold parse_array_with. rewrite (looking_at_other _ c "]" (k ++ "]"%char :: r)) by (rewrite ?E2, ?Hck; done).
      rewrite Hrun. reflexivity.
    + by eapply (array_value depth d w (skip_space d) (count d) da).
    + apply finish_added. exact (added_trans _ _ _ _ _ _ _ _ _ Hadd Hadd2).
Qed.

Lemma complete_object depth wi kvs t :
  spaces wi -> (depth <= maximum_depth)%nat -> members_text (S depth) kvs t -> complete_members (S depth) kvs t ->
  complete_value depth (JObject kvs) ("{"%char :: wi ++ t ++ ["}"%char]).
Proof.
  intros Hwi Hdepth Htext Hmem fuel d w r Hr Hw _ Hwf Hroom Hfuel. destruct fuel as [|fuel]; [lia|].
  destruct (members_text_head _ _ _ Htext) as (k & Hk).
  assert (Hr' : rest d = w ++ "{"%char :: wi ++ t ++ "}"%char :: r) by (rewrite Hr; simplify_list_eq; done).
  destruct (container_start object "{" d w wi _ Hr' Hw eq_refl Hwi) as (da & Happ & Hat & R & R2 & E2 & Hadd & E);
    [rewrite Hk; by intros ? ? [= <- _]|destruct Hroom as (Hn & _); cbn [nodes_in] in Hn; lia|done|].
  destruct (container_open _ _ _ _ _ (Hwf : wf (skip_space d)) Happ (ex_intro _ _ E)) as (w' & _ & _ & _ & Hcs & Hwfs & _ & _ & N & _).
  destruct (Hmem depth fuel (count d) (skip_space (advance da 1)) r eq_refl) as (d2 & Hrun & Has & Hadd2).
  - by rewrite E2.
  - done.
  - lia.
  - rewrite N. apply Forall_forall. by intros q _ ?%elem_of_nil.
  - by apply (added_room d _ 1 0 0).
  - pose proof (reads_length _ _ _ R). pose proof (reads_length _ _ _ R2). simpl in *. lia.
  - destruct (object_filled depth (skip_space d) (count d) da d2 wi t kvs _ Hwf Happ E Hdepth Hwi R2 Has) as [Hread P].
    eexists (count d), _. split; [|split].
    + cbn [parse_value]. rewrite shallow, Hat by done. change (is_char "{" quote) with false.
      change (is_char "{" "{") with true. cbv iota. rewrite Happ. cbn [andthen].
      unfold parse_object_with. rewrite (looking_at_other _ quote "}" (k ++ "}"%char :: r)) by (rewrite ?E2, ?Hk; done).
      rewrite Hrun. reflexivity.
    + by eapply (object_value depth d w (skip_space d) (count d) da).
    + apply finish_added. exact (added_trans _ _ _ _ _ _ _ _ _ Hadd Hadd2).
Qed.

(** A value and its entry in a container. *)
Lemma complete_element parent depth fuel d w t v r :
  complete_value (S depth) v t -> json_text (S depth) v t -> rest d = w ++ t ++ r -> spaces w -> no_digit r -> wf d ->
  (parent < count d)%nat -> room d (nodes_in v) (members_in v) (S (elements_in v)) ->
  (2 * length (rest d) + 1 <= fuel)%nat ->
  exists i d1 d2, parse_value fuel (S depth) d = Ret (Some (i, d1)) /\ value_as (S depth) w t v d i d1 /\
    append_element d1 (MkJsonElement parent i) = Some d2 /\ rest d2 = r /\ wf d2 /\ (parent < count d2)%nat /\
    added d d2 (nodes_in v) (members_in v) (S (elements_in v)) /\ (length (rest d2) < length (rest d))%nat.
Proof.
  intros Hv T Hr Hw Hdig Hwf Hp Hroom Hfuel.
  destruct (Hv fuel d w r Hr Hw Hdig Hwf) as (i & d1 & Hrun & Has & Hadd); [unfold room in *; lia|done|].
  destruct (append_element_room d1 (MkJsonElement parent i)) as (d2 & Happ & Hadd2); [unfold room, added in *; lia|].
  destruct (value_shrinks _ _ _ _ _ _ Hwf Hp Hrun) as (Hlen & Hwf1 & Hp1).
  destruct (append_element_spec _ _ _ _ Happ) as [Hent _].
  destruct (entry_added_wf _ _ _ Hwf1 Hp1 Hent) as (Hwf2 & Hc2 & Hr2).
  assert (Hr1 : rest d1 = r).
  { destruct Has as (R & _). apply reads_rest in R. rewrite Hr, app_assoc in R. by apply app_inv_head in R. }
  exists i, d1, d2. split; [done|]. split; [done|]. split; [done|]. split; [congruence|].
  split; [done|]. split; [lia|]. split; [|rewrite Hr2; lia].
  pose proof (added_trans _ _ _ _ _ _ _ _ _ Hadd Hadd2). unfold added in *. lia.
Qed.

Lemma complete_elements_one inner v t w1 :
  json_text inner v t -> complete_value inner v t -> spaces w1 -> complete_elements inner [v] (t ++ w1).
Proof.
  intros T Hv Hw1 depth fuel parent d w r -> Hr Hw Hwf Hp Hroom Hfuel. destruct fuel as [|fuel]; [lia|].
  rewrite <- app_assoc in Hr. rewrite !sum_of_one in *.
  destruct (complete_element parent depth fuel d w t v _ Hv T Hr Hw) as
    (i & d1 & d2 & Hrun & Has & Happ & Hr2 & Hwf2 & Hp2 & Hadd & Hlen);
    [by apply no_digit_spaces|done|done|done|lia|].
  destruct (separator_close "]" (parse_elements fuel parent depth) d2 w1 r Hr2 Hw1 eq_refl) as (d' & Hsep & R3 & S3).
  exists d'. split; [|split].
  - cbn [parse_elements]. rewrite not_at_end.
    + rewrite Hrun. cbn [mbind outcome_bind andthen]. rewrite Happ. done.
    + rewrite Hr. destruct (json_text_head _ _ _ T) as (c & k & -> & _). by destruct w.
  - by eapply elements_last.
  - pose proof (added_trans _ _ _ _ _ _ _ _ _ Hadd (added_same _ _ S3)). by rewrite !Nat.add_0_r in *.
Qed.

Lemma complete_elements_cons inner v t w1 w2 vs ts :
  json_text inner v t -> complete_value inner v t -> spaces w1 -> spaces w2 -> elements_text inner vs ts ->
  complete_elements inner vs ts -> complete_elements inner (v :: vs) (t ++ w1 ++ ","%char :: w2 ++ ts).
Proof.
  intros T Hv Hw1 Hw2 Ttail Htail depth fuel parent d w r -> Hr Hw Hwf Hp Hroom Hfuel. destruct fuel as [|fuel]; [lia|].
  assert (Hr' : rest d = w ++ t ++ w1 ++ ","%char :: w2 ++ ts ++ "]"%char :: r) by (rewrite Hr; simplify_list_eq; done).
  rewrite !sum_of_cons in *.
  destruct (complete_element parent depth fuel d w t v _ Hv T Hr' Hw) as
    (i & d1 & d2 & Hrun & Has & Happ & Hr2 & Hwf2 & Hp2 & Hadd & Hlen);
    [by apply no_digit_spaces|done|done|unfold room in *; lia|lia|].
  destruct (elements_text_head _ _ _ Ttail) as (c & k & Hck & Hc & _).
  destruct (separator_comma "]" (parse_elements fuel parent depth) d2 w1 w2 (ts ++ "]"%char :: r) Hr2 Hw1 Hw2)
    as (d3 & Hsep & R3 & S3); [done|rewrite Hck; by intros ? ? [= <- _]|].
  destruct (same_tables_wf _ _ S3 Hwf2) as [Hwf3 Hc3].
  destruct (Htail depth fuel parent d3 [] r eq_refl) as (d' & Hloop & Has3 & Hadd3).
  - apply reads_rest in R3. rewrite Hr2 in R3.
    rewrite <- (app_assoc w1) in R3. apply app_inv_head in R3. simpl in R3. injection R3 as R3.
    apply app_inv_head in R3. done.
  - constructor.
  - done.
  - lia.
  - apply (added_room d2 d3 0 0 0 _ _ _ (added_same _ _ S3)). eapply added_room; [exact Hadd|].
    unfold room in *. lia.
  - pose proof (reads_length _ _ _ R3). rewrite length_app in *. simpl in *. lia.
  - exists d'. split; [|split].
    + cbn [parse_elements]. rewrite not_at_end.
      * rewrite Hrun. cbn [mbind outcome_bind andthen]. rewrite Happ. cbn [andthen]. by rewrite Hsep.
      * rewrite Hr. destruct (json_text_head _ _ _ T) as (c' & k' & -> & _). by destruct w.
    + pose proof (elements_more parent depth w t v w1 w2 [] ts vs d i d1 d2 d3 d' Hwf Hp Has Happ Hw1 Hw2 R3 S3 Has3) as H.
      by rewrite app_nil_r in H.
    + pose proof (added_trans _ _ _ _ _ _ _ _ _ Hadd (added_trans _ _ _ _ _ _ _ _ _ (added_same _ _ S3) Hadd3)).
      unfold added in *. lia.
Qed.

(** A key, its value and their entry in an object. *)
Lemma key_start parent k w1 w2 d t :
  rest d = string_text k ++ w1 ++ ":"%char :: w2 ++ t -> string_body k -> spaces w1 -> spaces w2 ->
  (k ∉ map fst (members_of d parent)) -> (forall c r, t = c :: r -> is_space c = false) ->
  exists d0, parse_string d = Some (k, d0) /\ existsb (is_key parent k) (jd_members d0) = false /\
    looking_at (skip_space d0) ":" = true /\
    key_read parent k w1 w2 d (skip_space (advance (skip_space d0) 1)) /\
    rest (skip_space (advance (skip_space d0) 1)) = t.
Proof.
  intros Hr Hk Hw1 Hw2 Hnew Ht. destruct (parse_string_complete d k _ Hr Hk) as (d0 & Hstr & R0 & S0).
  assert (E0 : rest d0 = w1 ++ ":"%char :: w2 ++ t) by (apply reads_rest in R0; rewrite Hr in R0; by apply app_inv_head in R0).
  destruct (skip_space_exact d0 w1 _ E0 Hw1) as [R1 E1]; [by intros ? ? [= <- _]|].
  pose proof (advance_one _ _ _ E1) as R2. pose proof (reads_rest _ _ _ R2) as E2. rewrite E1 in E2. injection E2 as E2.
  destruct (skip_space_exact _ w2 t (eq_sym E2) Hw2 Ht) as [R3 E3].
  exists d0. split; [done|]. split; [|split; [by eapply looking_at_true|split; [|done]]].
  - destruct (existsb _ _) eqn:E; [|done]. exfalso. apply Hnew. apply existsb_exists in E as (m & Hm & Hkey).
    destruct S0 as (_ & _ & S02 & _). rewrite S02 in Hm.
    unfold is_key in Hkey. apply andb_true_iff in Hkey as [H1 H2]. apply bool_decide_eq_true in H2.
    unfold members_of. rewrite map_map. apply list_elem_of_In, in_map_iff. exists m. split; [done|].
    apply filter_In. done.
  - split; [done|]. split; [done|]. split; [done|]. split; [done|]. split.
    + destruct S0 as (? & ? & ? & ?). by repeat split.
    + change (":"%char :: w2) with ([":"%char] ++ w2). do 3 (eapply reads_trans; [done|]). done.
Qed.

Lemma complete_member parent depth fuel d k w1 w2 t v r :
  complete_value (S depth) v t -> json_text (S depth) v t -> rest d = string_text k ++ w1 ++ ":"%char :: w2 ++ t ++ r ->
  string_body k -> spaces w1 -> spaces w2 -> (k ∉ map fst (members_of d parent)) -> no_digit r -> wf d ->
  (parent < count d)%nat -> room d (nodes_in v) (S (members_in v)) (elements_in v) ->
  (2 * length (rest d) + 1 <= S fuel)%nat ->
  exists dv i d1 d2, key_read parent k w1 w2 d dv /\ value_as (S depth) [] t v dv i d1 /\
    append_member d1 (MkJsonMember parent k i) = Some d2 /\ rest d2 = r /\ wf d2 /\ (parent < count d2)%nat /\
    added d d2 (nodes_in v) (S (members_in v)) (elements_in v) /\ (length (rest d2) < length (rest d))%nat /\
    parse_members (S fuel) parent depth d = parse_separator "}" (parse_members fuel parent depth) d2.
Proof.
  intros Hv T Hr Hk Hw1 Hw2 Hnew Hdig Hwf Hp Hroom Hfuel.
  assert (Hhead : forall c q, t ++ r = c :: q -> is_space c = false).
  { destruct (json_text_head _ _ _ T) as (c & q & -> & Hc). by intros ? ? [= <- _]. }
  destruct (key_start parent k w1 w2 d _ Hr Hk Hw1 Hw2 Hnew Hhead) as (d0 & Hstr & Hdup & Hcolon & Hkey & Ev).
  set (dv := skip_space (advance (skip_space d0) 1)) in *.
  pose proof Hkey as (_ & _ & _ & _ & Sv & Rv). destruct (same_tables_wf _ _ Sv Hwf) as [Hwfv Hcv].
  pose proof (reads_length _ _ _ Rv) as Lv. unfold string_text in Lv. cbn [length app] in Lv.
  destruct (Hv fuel dv [] r) as (i & d1 & Hrun & Has & Hadd);
    [done|constructor|done|done|apply (added_room d dv 0 0 0 _ _ _ (added_same _ _ Sv)); unfold room in *; lia|lia|].
  pose proof (added_trans _ _ _ _ _ _ _ _ _ (added_same _ _ Sv) Hadd) as Hadd1.
  destruct (append_member_room d1 (MkJsonMember parent k i)) as (d2 & Happ & Hadd2); [unfold room, added in *; lia|].
  destruct (value_shrinks _ _ parent _ _ _ Hwfv ltac:(lia) Hrun) as (Hlen & Hwf1 & Hp1).
  destruct (append_member_spec _ _ _ _ _ Happ) as [Hent _].
  destruct (entry_added_wf _ _ _ Hwf1 Hp1 Hent) as (Hwf2 & Hc2 & Hr2).
  assert (Hr1 : rest d1 = r) by (destruct Has as (R & _); apply reads_rest in R; rewrite Ev in R; by apply app_inv_head in R).
  exists dv, i, d1, d2. split; [done|]. split; [done|]. split; [done|]. split; [congruence|]. split; [done|].
  split; [lia|]. split; [unfold added in *; lia|]. split; [rewrite Hr2; lia|].
  cbn [parse_members]. rewrite not_at_end by (by rewrite Hr). rewrite Hstr. cbn [andthen]. rewrite Hdup.
  rewrite Hcolon. cbn [negb]. fold dv. rewrite Hrun. cbn [mbind outcome_bind andthen]. by rewrite Happ.
Qed.

Lemma complete_members_one inner k v w1 w2 t w3 :
  string_body k -> spaces w1 -> spaces w2 -> json_text inner v t -> complete_value inner v t -> spaces w3 ->
  complete_members inner [(k, v)] (string_text k ++ w1 ++ ":"%char :: w2 ++ t ++ w3).
Proof.
  intros Hk Hw1 Hw2 T Hv Hw3 depth fuel parent d r -> Hr Hwf Hp Hnew Hroom Hfuel. destruct fuel as [|fuel]; [lia|].
  rewrite !sum_of_one in *. cbn [snd map fst] in *. apply Forall_inv in Hnew.
  assert (Hr' : rest d = string_text k ++ w1 ++ ":"%char :: w2 ++ t ++ w3 ++ "}"%char :: r)
    by (rewrite Hr; simplify_list_eq; done).
  destruct (complete_member parent depth fuel d k w1 w2 t v _ Hv T Hr' Hk Hw1 Hw2 Hnew) as
    (dv & i & d1 & d2 & Hkey & Has & Happ & Hr2 & Hwf2 & Hp2 & Hadd & Hlen & Hrun);
    [by apply no_digit_spaces|done|done|done|done|].
  destruct (separator_close "}" (parse_members fuel parent depth) d2 w3 r Hr2 Hw3 eq_refl) as (d' & Hsep & R3 & S3).
  exists d'. split; [by rewrite Hrun|]. split.
  - pose proof (members_last parent depth k w1 w2 [] t v w3 d dv i d1 d2 d' Hwf Hp Hkey Has Happ Hw3 R3 S3) as H.
    by rewrite app_nil_r in H.
  - pose proof (added_trans _ _ _ _ _ _ _ _ _ Hadd (added_same _ _ S3)). by rewrite !Nat.add_0_r in *.
Qed.

Lemma complete_members_cons inner k v w1 w2 t w3 w4 kvs ts :
  string_body k -> spaces w1 -> spaces w2 -> json_text inner v t -> complete_value inner v t -> spaces w3 -> spaces w4 ->
  (k ∉ map fst kvs) -> members_text inner kvs ts -> complete_members inner kvs ts ->
  complete_members inner ((k, v) :: kvs) (string_text k ++ w1 ++ ":"%char :: w2 ++ t ++ w3 ++ ","%char :: w4 ++ ts).
Proof.
  intros Hk Hw1 Hw2 T Hv Hw3 Hw4 Hfresh Ttail Htail depth fuel parent d r -> Hr Hwf Hp Hnew Hroom Hfuel.
  destruct fuel as [|fuel]; [lia|]. rewrite !sum_of_cons in *. cbn [snd map fst] in *.
  apply Forall_cons_iff in Hnew as [Hnew1 Hnew2].
  assert (Hr' : rest d = string_text k ++ w1 ++ ":"%char :: w2 ++ t ++ w3 ++ ","%char :: w4 ++ ts ++ "}"%char :: r)
    by (rewrite Hr; simplify_list_eq; done).
  destruct (complete_member parent depth fuel d k w1 w2 t v _ Hv T Hr' Hk Hw1 Hw2 Hnew1) as
    (dv & i & d1 & d2 & Hkey & Has & Happ & Hr2 & Hwf2 & Hp2 & Hadd & Hlen & Hrun);
    [by apply no_digit_spaces|done|done|unfold room in *; lia|done|].
  destruct (members_text_head _ _ _ Ttail) as (q & Hq).
  destruct (separator_comma "}" (parse_members fuel parent depth) d2 w3 w4 (ts ++ "}"%char :: r) Hr2 Hw3 Hw4)
    as (d3 & Hsep & R3 & S3); [done|rewrite Hq; by intros ? ? [= <- _]|].
  destruct (same_tables_wf _ _ S3 Hwf2) as [Hwf3 Hc3]. destruct (same_tables_of _ _ parent S3) as [_ E3].
  destruct (member_prefix _ _ _ _ _ _ _ _ _ _ _ _ _ Hwf Hp Hkey Has Happ) as (_ & _ & _ & _ & E2 & _).
  destruct (Htail depth fuel parent d3 r eq_refl) as (d' & Hloop & Has3 & Hadd3).
  - apply reads_rest in R3. rewrite Hr2 in R3.
    rewrite <- (app_assoc w3) in R3. apply app_inv_head in R3. simpl in R3. injection R3 as R3.
    apply app_inv_head in R3. done.
  - done.
  - lia.
  - rewrite E3, E2, map_app. rewrite Forall_forall in Hnew2 |- *. intros x Hx [H|H]%elem_of_app; [by apply (Hnew2 x)|].
    simpl in H. apply list_elem_of_singleton in H as ->. apply Hfresh. by apply list_elem_of_In.
  - apply (added_room d2 d3 0 0 0 _ _ _ (added_same _ _ S3)). eapply added_room; [exact Hadd|].
    unfold room in *. lia.
  - pose proof (reads_length _ _ _ R3). rewrite length_app in *. simpl in *. lia.
  - exists d'. split; [by rewrite Hrun, Hsep|]. split.
    + pose proof (members_more parent depth k w1 w2 [] t v w3 w4 ts kvs d dv i d1 d2 d3 d' Hwf Hp Hkey Has Happ
        Hw3 Hw4 R3 S3 Has3) as H. by rewrite app_nil_r in H.
    + pose proof (added_trans _ _ _ _ _ _ _ _ _ Hadd (added_trans _ _ _ _ _ _ _ _ _ (added_same _ _ S3) Hadd3)).
      unfold added in *. lia.
Qed.

Lemma parse_complete :
  (forall depth v t, json_text depth v t -> complete_value depth v t) /\
  (forall inner vs t, elements_text inner vs t -> complete_elements inner vs t) /\
  (forall inner kvs t, members_text inner kvs t -> complete_members inner kvs t).
Proof.
  apply json_text_mutind; intros.
  - by apply (complete_literal _ _ _ _ _ lit_null).
  - by apply (complete_literal _ _ _ _ _ lit_true).
  - by apply (complete_literal _ _ _ _ _ lit_false).
  - by apply complete_number.
  - by apply complete_string.
  - by apply complete_array_empty.
  - by apply complete_array.
  - by apply complete_object_empty.
  - by apply complete_object.
  - by apply complete_elements_one.
  - by apply complete_elements_cons.
  - by apply complete_members_one.
  - by apply complete_members_cons.
Qed.

(** ** Access *)
(** The first member of that key in a list of members. *)
Fixpoint assoc {A} (key : text) (kvs : list (text * A)) : option A :=
  match kvs with
  | [] => None
  | (k, v) :: rest => if bool_decide (k = key) then Some v else assoc key rest
  end.

Lemma find_member d i key :
  find (is_key i key) (jd_members d) =
  find (fun m => bool_decide (jm_key m = key)) (List.filter (is_member i) (jd_members d)).
Proof.
  induction (jd_members d) as [|m ms IH]; [done|]. simpl. unfold is_key at 1, is_member at 1.
  destruct (bool_decide (jm_parent m = i)); simpl; [|done]. by destruct (bool_decide _).
Qed.

Lemma nth_child_filter i n l : nth_child i n l = List.filter (is_child i) l !! n.
Proof.
  revert n. induction l as [|e l IH]; intros n; simpl; [done|]. destruct (is_child i e); [|apply IH].
  destruct n; [done|apply IH].
Qed.

Lemma rep_bound d lo hi i v : rep d lo hi i v -> (lo <= i < hi)%nat.
Proof. by destruct 1 as [? ? H|? ? H|? ? H|? ? H|? ? ? H|? ? ? H]; destruct H. Qed.

Lemma reps_lookup d lo hi js vs : reps d lo hi js vs ->
  length js = length vs /\ forall n v, vs !! n = Some v -> exists j, js !! n = Some j /\ rep d lo hi j v.
Proof.
  induction 1 as [|i v js vs Hr Hrs [IH1 IH2]]; simpl; [by split|]. split; [lia|].
  intros [|n] w; simpl; [intros [= <-]; eauto|apply IH2].
Qed.

Lemma repm_assoc d lo hi js kvs key : repm d lo hi js kvs ->
  match assoc key kvs with
  | Some v => exists j, assoc key js = Some j /\ rep d lo hi j v
  | None => assoc key js = None
  end.
Proof. induction 1 as [|k i v js kvs Hr Hrs IH]; simpl; [done|]. destruct (bool_decide (k = key)); [eauto|done]. Qed.

Lemma assoc_find (ms : list JsonMember) key :
  assoc key (map (fun m => (jm_key m, jm_value m)) ms) = jm_value <$> find (fun m => bool_decide (jm_key m = key)) ms.
Proof. induction ms as [|m ms IH]; [done|]. simpl. by destruct (bool_decide _). Qed.

(** The document represents the value [v] at its root. *)
Definition represents (d : JsonDocument) (v : json) : Prop := rep d 0 (count d) (jd_root d) v.

(** The values, the members of objects and the elements of arrays in [v] all have their entries. *)
Definition fits_tables (v : json) : Prop :=
  (nodes_in v <= maximum_json_nodes)%nat /\ (members_in v <= maximum_json_members)%nat /\ (elements_in v <= maximum_json_elements)%nat.

Lemma load_exact (t : text) :
  (exists r, load_text t = Ret r) /\
  (forall d, load_text t = Ret (Some d) -> exists w t' w' v, t = w ++ t' ++ w' /\ spaces w /\ spaces w' /\
     json_text 0 v t' /\ fits_tables v /\ represents d v) /\
  (forall w t' w' v, t = w ++ t' ++ w' -> spaces w -> spaces w' -> json_text 0 v t' -> fits_tables v ->
     exists d, load_text t = Ret (Some d) /\ represents d v).
Proof.
  set (d0 := MkJsonDocument t 0 0 [] [] []). assert (Hwf0 : wf d0) by done.
  assert (Hfuel : (2 * length (rest d0) + 1 <= parse_fuel t)%nat) by (unfold parse_fuel, rest; simpl; rewrite drop_0; lia).
  unfold load_text. split; [|split].
  - destruct (bool_decide _); [by eexists|]. apply call_returns; [by apply parse_returns|]. intros [r d] _. by eexists.
  - intros d. destruct (bool_decide _); [done|]. intros ((r & d1) & Hrun & Hend)%call_Some.
    destruct (proj1 (parse_sound _) _ _ _ _ Hwf0 Hrun) as (w & t' & v & (R & W & T & -> & G & P) & Hgrown & Hroom).
    set (dr := MkJsonDocument (jd_storage d1) (jd_cursor d1) (count d0) (jd_nodes d1) (jd_members d1) (jd_elements d1)) in *.
    destruct (skip_space_reads dr) as (w' & R' & W' & _). destruct (bool_decide _) eqn:E; [|done]. injection Hend as <-.
    apply bool_decide_eq_true in E. exists w, t', w', v. split_and!; try done.
    + apply reads_rest in R, R'. unfold rest at 1 in R. simpl in R. rewrite drop_0 in R. rewrite R.
      change (rest d1) with (rest dr). rewrite R', <- app_assoc. do 2 f_equal.
      unfold rest. rewrite E. unfold jd_size. by rewrite drop_all, app_nil_r.
    + specialize (Hroom ltac:(unfold room, d0, jd_node_count, maximum_json_nodes, maximum_json_members, maximum_json_elements; simpl; lia)).
      unfold added, room, d0, jd_node_count, fits_tables in *. simpl in *. lia.
    + by apply (rep_agrees d1 (skip_space dr) 0 (count d1)).
  - intros w t' w' v -> W W' T (Hn & Hm & He).
    rewrite bool_decide_false by (destruct (json_text_head _ _ _ T) as (c & k & -> & _); by destruct w).
    destruct (proj1 parse_complete 0%nat v t' T (parse_fuel (w ++ t' ++ w')) d0 w w') as (i & d1 & Hrun & Has & _); try done.
    { by apply no_digit_blank. }
    fold d0. rewrite Hrun. cbn [mbind outcome_bind andthen]. destruct Has as (R & _ & _ & -> & G & P).
    set (dr := MkJsonDocument (jd_storage d1) (jd_cursor d1) (count d0) (jd_nodes d1) (jd_members d1) (jd_elements d1)).
    assert (Er : rest dr = w' ++ []).
    { apply reads_rest in R. unfold rest at 1 in R. simpl in R. rewrite drop_0, app_assoc in R.
      apply app_inv_head in R. by rewrite app_nil_r. }
    destruct (skip_space_exact dr w' [] Er W') as [R' _]; [done|].
    assert (Hend : jd_cursor (skip_space dr) = jd_size (skip_space dr)).
    { destruct R as (R1 & R2 & _). destruct R' as (R1' & R2' & _). unfold jd_size. rewrite R1', R2'. simpl.
      rewrite R1, R2. simpl. rewrite !length_app. lia. }
    rewrite bool_decide_true by done. eexists. split; [done|]. by apply (rep_agrees d1 (skip_space dr) 0 (count d1)).
Qed.

(** C36: the parser terminates on every text, and accepts exactly the texts that belong to the
    grammar (spaces, a value nested at most 64 deep, spaces, with distinct keys in every object
    and 64-bit numbers) and whose value fits the tables: no more values, members and elements
    than these have entries.  The tables then represent exactly that value. *)
Theorem json_load_exact (t : text) :
  (exists r, load_text t = Ret r) /\
  (forall d, load_text t = Ret (Some d) -> exists w t' w' v, t = w ++ t' ++ w' /\ spaces w /\ spaces w' /\
     json_text 0 v t' /\ fits_tables v /\ represents d v) /\
  (forall w t' w' v, t = w ++ t' ++ w' -> spaces w -> spaces w' -> json_text 0 v t' -> fits_tables v ->
     exists d, load_text t = Ret (Some d) /\ represents d v).
Proof. apply load_exact. Qed.

Lemma access_spec (d : JsonDocument) (lo hi i : nat) (v : json) :
  rep d lo hi i v -> (hi <= jd_node_count d)%nat ->
  (forall key, match v with
     | JObject kvs => match assoc key kvs with
         | Some w => exists j, field d (Some i) key = Some j /\ rep d lo hi j w
         | None => field d (Some i) key = None
         end
     | _ => field d (Some i) key = None
     end) /\
  (forall n, match v with
     | JArray vs => match vs !! n with
         | Some w => exists j, element d (Some i) n = Some j /\ rep d lo hi j w
         | None => element d (Some i) n = None
         end
     | _ => element d (Some i) n = None
     end) /\
  element_count d (Some i) = match v with JArray vs => length vs | _ => 0%nat end.
Proof.
  intros Hrep Hhi.
  assert (Hbound : forall j w, rep d lo hi j w -> node d j = Some j).
  { intros j w Hj. apply rep_bound in Hj. unfold node. rewrite bool_decide_true; [done|]. lia. }
  unfold field, element, element_count, has_type.
  destruct Hrep as [i n (_ & -> & -> & _)|i n (_ & -> & -> & _)|i n (_ & -> & -> & _)|i n (_ & -> & -> & _)
                   |i n vs (_ & -> & -> & _) Hrs|i n kvs (_ & -> & -> & _) Hrs]; try done; simpl negb; cbv iota.
  - split; [done|]. destruct (reps_lookup _ _ _ _ _ Hrs) as [Hlen Hnth]. unfold elements_of in Hlen, Hnth. split.
    + intros k. rewrite nth_child_filter. destruct (vs !! k) as [w|] eqn:Hk.
      * destruct (Hnth k w Hk) as (j & Hj & Hrep). rewrite list_lookup_fmap in Hj.
        destruct (List.filter _ _ !! k) as [e|]; [|done]. simpl in Hj. injection Hj as <-. by rewrite (Hbound _ _ Hrep); eauto.
      * apply lookup_ge_None in Hk. rewrite length_map in Hlen. by rewrite lookup_ge_None_2 by lia.
    + by rewrite length_map in Hlen.
  - split; [|done]. intros key. rewrite find_member. pose proof (repm_assoc _ _ _ _ _ key Hrs) as Ha.
    unfold members_of in Ha. rewrite assoc_find in Ha. destruct (assoc key kvs) as [w|].
    + destruct Ha as (j & Hj & Hrep). destruct (find _ _) as [m|]; [|done]. simpl in Hj. injection Hj as <-.
      by rewrite (Hbound _ _ Hrep); eauto.
    + by destruct (find _ _).
Qed.

(** The access functions compute on the tables what the tree prescribes: a field is the
    member of that key, an element the one at that position, and nothing else is found. *)
Theorem json_access_spec (d : JsonDocument) (lo hi i : nat) (v : json) :
  rep d lo hi i v -> (hi <= jd_node_count d)%nat ->
  (forall key, match v with
     | JObject kvs => match assoc key kvs with
         | Some w => exists j, field d (Some i) key = Some j /\ rep d lo hi j w
         | None => field d (Some i) key = None
         end
     | _ => field d (Some i) key = None
     end) /\
  (forall n, match v with
     | JArray vs => match vs !! n with
         | Some w => exists j, element d (Some i) n = Some j /\ rep d lo hi j w
         | None => element d (Some i) n = None
         end
     | _ => element d (Some i) n = None
     end) /\
  element_count d (Some i) = match v with JArray vs => length vs | _ => 0%nat end.
Proof. apply access_spec. Qed.

(** ** Examples *)
Definition sample_text : text := word " { ~a~ : [7, true], ~b~ : {} } ".
Definition quoted (t : text) : text := map (fun c => if is_char c "~" then quote else c) t.

Example sample_loads :
  match load_text (quoted sample_text) with
  | Ret (Some d) =>
      let a := field d (root d) (word "a") in
      (element_count d a, jn_number <$> node_at d (element d a 0), jn_raw <$> node_at d a)
  | _ => (0%nat, None, None)
  end = (2%nat, Some 7, Some (word "[7, true]")).
Proof. vm_compute. reflexivity. Qed.

Example duplicate_key_refused : load_text (quoted (word "{~a~:1,~a~:2}")) = Ret None.
Proof. vm_compute. reflexivity. Qed.

(** The tables of [[7]]. *)
Definition array_document : JsonDocument :=
  MkJsonDocument (word "[7]") 3 0
    [MkJsonNode array [] (word "[7]") 0 false; MkJsonNode number [] (word "7") 7 false] [] [MkJsonElement 0 1].

Lemma seven_text depth : (depth <= maximum_depth)%nat -> json_text depth (JNumber 7) (word "7").
Proof.
  intros H. apply (jt_number depth (word "7")); [done|]. split; [by repeat constructor|]. split; [done|].
  by exists "7"%char, [].
Qed.

Lemma array_document_rep : rep array_document 0 2 0 (JArray [JNumber 7]).
Proof.
  eapply rep_array.
  - eapply (node_is_intro _ _ _ _ _ _ _ 0%nat); [lia|done|done|].
    apply (jt_array 0 [] [JNumber 7] (word "7")); [unfold maximum_depth; lia|constructor|].
    apply (et_one 1 (JNumber 7) (word "7") []); [apply seven_text; unfold maximum_depth; lia|constructor].
  - apply (reps_cons _ _ _ 1%nat); [|constructor].
    eapply (rep_number _ _ _ 1%nat (MkJsonNode number [] (word "7") 7 false)), (node_is_intro _ _ _ _ _ _ _ 1%nat);
      [lia|done|done|]. apply seven_text. unfold maximum_depth. lia.
Qed.

Lemma json_access_spec_witness :
  element_count array_document (Some 0%nat) = 1%nat /\
  exists j, element array_document (Some 0%nat) 0 = Some j /\ rep array_document 0 2 j (JNumber 7).
Proof.
  pose proof (json_access_spec array_document 0 2 0 (JArray [JNumber 7]) array_document_rep
    ltac:(unfold array_document, jd_node_count; simpl; lia)) as (_ & H1 & H2).
  split; [exact H2|exact (H1 0%nat)].
Defined.
