(* ===== verification/Regression.v ===== *)
(** * Resampling and regression of benchmark samples

    Models the metrics and statistics of [bench/evaluator.cpp]: [metric_id], the generator [next_random], [sample_mean],
    [sample_max], [regression_ppm] and [bootstrap_interval].  A [MetricSeries] is modelled by
    its samples in use ([values] up to [count]), whether it is available, and the reason when it
    is not.  Unsigned arithmetic is modulo 2^64 as in the code; what the theorems show includes
    that it never wraps where it must not. *)
From S2P Require Import Prelude CheckedArithmetic Json.
From Stdlib Require Import ZArith Lia Ascii String.
From stdpp Require Import base numbers list option sorting sets.

Set Default Goal Selector "!".
#[local] Open Scope Z_scope.

Definition minimum_samples : nat := 10.
Definition maximum_samples : nat := N.to_nat 1000.
Definition bootstrap_resamples : nat := N.to_nat 10000.
Definition fixed_seed : Z := 7809636927180585010.

Record MetricSeries := MkMetricSeries { ms_values : list Z; ms_available : bool; ms_reason : text }.

Inductive MetricId := latency | throughput | cpu_time | peak_rss | allocation | laghu_syscall | count_metric | invalid_metric.

#[export] Instance MetricId_eq_dec : EqDecision MetricId.
Proof. solve_decision. Defined.

Definition metric_id (name : text) : MetricId :=
  if bool_decide (name = word "latency_ns_per_interval") then latency
  else if bool_decide (name = word "throughput_operations_per_second") then throughput
  else if bool_decide (name = word "cpu_time_ns") then cpu_time
  else if bool_decide (name = word "peak_rss_bytes") then peak_rss
  else if bool_decide (name = word "allocation_count") then allocation
  else if bool_decide (name = word "laghu_syscall_count") then laghu_syscall
  else invalid_metric.

(** ** The generator *)
Definition next_random (state : Z) : Z * Z :=
  let state := Z.lxor state (Z.shiftr state 12) in
  let state := Z.lxor state (u64 (Z.shiftl state 25)) in
  let state := Z.lxor state (Z.shiftr state 27) in
  (u64 (state * 2685821657736338717), state).

(** [samples[next_random(state) % count]] *)
Definition draw (samples : list Z) (state : Z) : outcome (Z * Z) :=
  let '(r, state) := next_random state in
  v ← slot samples (r mod Z.of_nat (length samples));
  Ret (v, state).

Fixpoint mean_loop (n : nat) (samples : list Z) (state total : Z) : outcome (option Z * Z) :=
  match n with
  | O => Ret (Some total, state)
  | S n =>
      '(value, state) ← draw samples state;
      if u64_max - total <? value then Ret (None, state) else mean_loop n samples state (u64 (total + value))
  end.

Definition count_ok (samples : list Z) : bool :=
  negb (bool_decide (length samples = 0%nat)) && bool_decide (length samples <= maximum_samples)%nat.

Definition sample_mean (samples : list Z) (state : Z) : outcome (option Z * Z) :=
  if negb (count_ok samples) then Ret (None, state) else
  '(total, state) ← mean_loop (length samples) samples state 0;
  Ret (option_map (fun total => total / Z.of_nat (length samples)) total, state).

Fixpoint max_loop (n : nat) (samples : list Z) (state output : Z) : outcome (Z * Z) :=
  match n with
  | O => Ret (output, state)
  | S n =>
      '(value, state) ← draw samples state;
      max_loop n samples state (if output <? value then value else output)
  end.

Definition sample_max (samples : list Z) (state : Z) : outcome (option Z * Z) :=
  if negb (count_ok samples) then Ret (None, state) else
  '(output, state) ← max_loop (length samples) samples state 0;
  Ret (Some output, state).

(** ** Relative change in parts per million *)
Definition int64_max : Z := 9223372036854775807.
Definition int64_min : Z := -9223372036854775808.
Definition unbounded_regression_ppm : Z := int64_max.
Definition unbounded_improvement_ppm : Z := int64_min.

(** [1U << 19U], shifted right until it is zero. *)
Definition ppm_bits : list Z :=
  [524288; 262144; 131072; 65536; 32768; 16384; 8192; 4096; 2048; 1024; 512; 256; 128; 64; 32; 16; 8; 4; 2; 1].

(** The long multiplication of [fraction_source] by 1000000, bit by bit, divided by
    [baseline] on the way. *)
Fixpoint ppm_loop (bits : list Z) (baseline fraction_source remainder fractional : Z) : option Z :=
  match bits with
  | [] => Some fractional
  | bit :: bits =>
      let '(remainder, carry) :=
        if u64 (baseline - remainder) <=? remainder
        then (u64 (remainder - u64 (baseline - remainder)), 1) else (u64 (remainder + remainder), 0) in
      let '(remainder, carry) :=
        if negb (Z.land bit 1000000 =? 0) then
          if u64 (baseline - fraction_source) <=? remainder
          then (u64 (remainder - u64 (baseline - fraction_source)), carry + 1)
          else (u64 (remainder + fraction_source), carry)
        else (remainder, carry) in
      if (u64_max - carry) / 2 <? fractional then None
      else ppm_loop bits baseline fraction_source remainder (u64 (fractional * 2 + carry))
  end.

(** [None] is [arithmetic_overflow]. *)
Definition regression_ppm (baseline candidate : Z) (higher_is_better : bool) : option Z :=
  if baseline =? 0 then
    if candidate =? 0 then Some 0
    else Some (if higher_is_better then unbounded_improvement_ppm else unbounded_regression_ppm)
  else
  let candidate_is_regression := if higher_is_better then candidate <? baseline else baseline <? candidate in
  let difference := if baseline <=? candidate then u64 (candidate - baseline) else u64 (baseline - candidate) in
  let whole := difference / baseline in
  fractional ← ppm_loop ppm_bits baseline (difference mod baseline) 0 0;
  if u64 (int64_max - fractional) / 1000000 <? whole then None else
  let magnitude := u64 (whole * 1000000 + fractional) in
  Some (if candidate_is_regression then magnitude else - magnitude).

(** ** The bootstrap *)
Inductive BootstrapResult :=
  | bootstrap_success (lower upper : Z)
  | invalid_samples
  | zero_baseline_undefined
  | arithmetic_overflow.

Definition uses_maximum (metric : MetricId) : bool := bool_decide (metric = peak_rss).
Definition has_nonzero_sample (series : MetricSeries) : bool :=
  existsb (fun v => negb (v =? 0)) (ms_values series).

Definition resample (metric : MetricId) (samples : list Z) (state : Z) : outcome (option Z * Z) :=
  if uses_maximum metric then sample_max samples state else sample_mean samples state.

(** The loop of [bootstrap_interval]; the first failure ends it. *)
Fixpoint bootstrap_loop (n : nat) (baseline candidate : list Z) (metric : MetricId) (higher_is_better : bool)
    (state : Z) : outcome (BootstrapResult + list Z) :=
  match n with
  | O => Ret (inr [])
  | S n =>
      '(baseline_mean, state) ← resample metric baseline state;
      '(candidate_mean, state) ← resample metric candidate state;
      match baseline_mean, candidate_mean with
      | Some b, Some c =>
          match regression_ppm b c higher_is_better with
          | None => Ret (inl arithmetic_overflow)
          | Some r =>
              rest ← bootstrap_loop n baseline candidate metric higher_is_better state;
              Ret (match rest with inl e => inl e | inr l => inr (r :: l) end)
          end
      | _, _ => Ret (inl invalid_samples)
      end
  end.

Definition lower_index : nat := Z.to_nat ((Z.of_nat bootstrap_resamples * 25 + 999) / 1000 - 1).
Definition upper_index : nat := Z.to_nat ((Z.of_nat bootstrap_resamples * 975 + 999) / 1000 - 1).

(** [std::sort] *)
Definition sort_values (l : list Z) : list Z := merge_sort Z.le l.

Definition bootstrap_interval (baseline candidate : MetricSeries) (metric : MetricId) (higher_is_better : bool) :
    outcome BootstrapResult :=
  if negb (ms_available baseline) || negb (ms_available candidate) then Ret invalid_samples else
  if negb (has_nonzero_sample baseline) && has_nonzero_sample candidate then Ret zero_baseline_undefined else
  samples ← bootstrap_loop bootstrap_resamples (ms_values baseline) (ms_values candidate) metric higher_is_better fixed_seed;
  match samples with
  | inl e => Ret e
  | inr samples =>
      let samples := sort_values samples in
      lower ← slot samples (Z.of_nat lower_index);
      upper ← slot samples (Z.of_nat upper_index);
      Ret (bootstrap_success lower upper)
  end.

(** * What the resampling of benchmark samples computes

    [regression_ppm] equals the relative change in parts per million over unbounded integers;
    [bootstrap_interval] equals a stateless reference in which the draw number [k] of the run is
    a function of [k] alone, and its bounds are the 250th and the 9750th smallest of the ten
    thousand resampled changes. *)

(** ** Relative change *)
Definition ppm_magnitude (baseline candidate : Z) : Z := Z.abs (candidate - baseline) * 1000000 / baseline.

Definition worse (higher_is_better : bool) (baseline candidate : Z) : bool :=
  if higher_is_better then candidate <? baseline else baseline <? candidate.

Definition ppm_of (baseline candidate : Z) (higher_is_better : bool) : option Z :=
  if baseline =? 0 then
    Some (if candidate =? 0 then 0 else if higher_is_better then int64_min else int64_max)
  else
  let m := ppm_magnitude baseline candidate in
  if m <=? int64_max then Some (if worse higher_is_better baseline candidate then m else - m) else None.

(** The multiplier a prefix of the bits stands for. *)
Definition prefix_value (k : Z) (bits : list Z) : Z :=
  foldl (fun k bit => 2 * k + (if Z.land bit 1000000 =? 0 then 0 else 1)) k bits.

(** One round of the long multiplication keeps [k * fs = f * b + r] with [0 <= r < b]. *)
Definition ppm_invariant (b fs k r f : Z) : Prop :=
  k * fs = f * b + r /\ 0 <= r < b /\ 0 <= f <= k.

Lemma quotient_bound b fs k r f :
  0 <= fs < b -> 0 <= k -> 0 <= r < b -> k * fs = f * b + r -> 0 <= f <= k.
Proof. intros. nia. Qed.

Lemma ppm_double b r :
  0 < b <= u64_max -> 0 <= r < b ->
  exists r' carry, (if u64 (b - r) <=? r then (u64 (r - u64 (b - r)), 1) else (u64 (r + r), 0)) = (r', carry) /\
    2 * r = carry * b + r' /\ 0 <= r' < b /\ 0 <= carry <= 1.
Proof.
  intros. rewrite (u64_small (b - r)) by lia. destruct (Z.leb_spec (b - r) r).
  - eexists _, _. split; [reflexivity|]. rewrite u64_small by lia. lia.
  - eexists _, _. split; [reflexivity|]. rewrite u64_small by lia. lia.
Qed.

Lemma ppm_add b fs r c (set : bool) :
  0 < b <= u64_max -> 0 <= r < b -> 0 <= fs < b -> 0 <= c <= 1 ->
  exists r' c', (if negb set then (r, c) else
                 if u64 (b - fs) <=? r then (u64 (r - u64 (b - fs)), c + 1) else (u64 (r + fs), c)) = (r', c') /\
    r + (if set then fs else 0) = (c' - c) * b + r' /\ 0 <= r' < b /\ 0 <= c' <= 2.
Proof.
  intros. destruct set; simpl; [|eexists _, _; split; [reflexivity|lia]].
  rewrite (u64_small (b - fs)) by lia. destruct (Z.leb_spec (b - fs) r).
  - eexists _, _. split; [reflexivity|]. rewrite u64_small by lia. lia.
  - eexists _, _. split; [reflexivity|]. rewrite u64_small by lia. lia.
Qed.

Lemma ppm_loop_spec b fs bits : 0 < b <= u64_max -> 0 <= fs < b -> forall k r f,
  ppm_invariant b fs k r f -> (k + 1) * 2 ^ Z.of_nat (length bits) <= 2 ^ 62 ->
  exists r' f', ppm_loop bits b fs r f = Some f' /\ ppm_invariant b fs (prefix_value k bits) r' f'.
Proof.
  intros Hb Hfs. induction bits as [|bit bits IH]; intros k r f Hinv Hk; [by eauto|].
  destruct Hinv as (Hk1 & Hr & Hf).
  assert (Hp : 1 <= 2 ^ Z.of_nat (length bits)) by (apply (Z.pow_le_mono_r 2 0); lia).
  cbn [length] in Hk. rewrite Nat2Z.inj_succ, Z.pow_succ_r in Hk by lia.
  destruct (ppm_double b r Hb Hr) as (r1 & c1 & E1 & H1 & Hr1 & Hc1).
  destruct (ppm_add b fs r1 c1 (negb (Z.land bit 1000000 =? 0)) Hb Hr1 Hfs Hc1) as (r2 & c2 & E2 & H2 & Hr2 & Hc2).
  cbn [ppm_loop]. rewrite E1.
  replace (if negb (Z.land bit 1000000 =? 0) then _ else (r1, c1)) with (r2, c2)
    by (rewrite <- E2; by destruct (Z.land bit 1000000 =? 0)).
  assert (Hf62 : f < 2 ^ 61) by nia.
  assert (Hm : 2 ^ 61 <= (u64_max - c2) / 2) by (apply Z.div_le_lower_bound; unfold u64_max; lia).
  rewrite (proj2 (Z.ltb_ge _ _)) by lia. rewrite u64_small by (unfold u64_max; lia).
  set (d := if Z.land bit 1000000 =? 0 then 0 else 1).
  assert (Hd : 0 <= d <= 1) by (subst d; destruct (Z.land bit 1000000 =? 0); lia).
  assert (H3 : (2 * k + d) * fs = (f * 2 + c2) * b + r2).
  { assert (d * fs = if negb (Z.land bit 1000000 =? 0) then fs else 0) by (subst d; destruct (Z.land bit 1000000 =? 0); simpl; lia). nia. }
  apply (IH (2 * k + d) r2 (f * 2 + c2)); [|nia].
  split; [done|]. split; [done|]. apply (quotient_bound b fs _ r2); lia.
Qed.

Lemma fractional_exact b fs : 0 < b <= u64_max -> 0 <= fs < b ->
  ppm_loop ppm_bits b fs 0 0 = Some (fs * 1000000 / b) /\ 0 <= fs * 1000000 / b <= 1000000.
Proof.
  intros Hb Hfs. destruct (ppm_loop_spec b fs ppm_bits Hb Hfs 0 0 0) as (r & f & E & Hk & Hr & Hf).
  - split; lia.
  - vm_compute. discriminate.
  - change (prefix_value 0 ppm_bits) with 1000000 in *. rewrite E.
    assert (fs * 1000000 / b = f) as -> by (symmetry; apply (Z.div_unique_pos _ _ _ r); lia). done.
Qed.

Lemma ppm_split d b : 0 < b -> 0 <= d -> d * 1000000 / b = d / b * 1000000 + d mod b * 1000000 / b.
Proof.
  intros. rewrite (Z.div_mod d b) at 1 by lia.
  replace ((b * (d / b) + d mod b) * 1000000) with (d mod b * 1000000 + d / b * 1000000 * b) by ring.
  rewrite Z.div_add by lia. lia.
Qed.

Lemma regression_ppm_of (baseline candidate : Z) (higher_is_better : bool) :
  0 <= baseline <= u64_max -> 0 <= candidate <= u64_max ->
  regression_ppm baseline candidate higher_is_better = ppm_of baseline candidate higher_is_better.
Proof.
  intros Hb Hc. unfold regression_ppm, ppm_of. destruct (Z.eqb_spec baseline 0) as [->|Hb0].
  { by destruct (candidate =? 0). }
  set (d := if baseline <=? candidate then u64 (candidate - baseline) else u64 (baseline - candidate)).
  assert (Hd : d = Z.abs (candidate - baseline)).
  { subst d. destruct (Z.leb_spec baseline candidate); rewrite u64_small by lia; lia. }
  assert (Hm : ppm_magnitude baseline candidate = d * 1000000 / baseline) by (by rewrite Hd).
  clearbody d. rewrite Hm, ppm_split by lia.
  destruct (fractional_exact baseline (d mod baseline)) as [-> Hf]; [lia|by apply Z.mod_pos_bound; lia|].
  cbn [mbind option_bind]. set (f := d mod baseline * 1000000 / baseline) in *. clearbody f.
  assert (0 <= d / baseline) by (apply Z.div_pos; lia). set (w := d / baseline) in *. clearbody w.
  rewrite (u64_small (int64_max - f)) by (unfold int64_max, u64_max; lia).
  pose proof (Z.div_mod (int64_max - f) 1000000 ltac:(lia)).
  pose proof (Z.mod_pos_bound (int64_max - f) 1000000 ltac:(lia)).
  destruct (Z.ltb_spec ((int64_max - f) / 1000000) w) as [Ho|Ho].
  - by rewrite (proj2 (Z.leb_gt _ _)) by lia.
  - rewrite (proj2 (Z.leb_le _ _)) by lia. by rewrite u64_small by (unfold int64_max, u64_max in *; lia).
Qed.

(** [regression_ppm] on two 64-bit values is exactly the relative change in parts per
    million, rounded towards zero: for a baseline that is not zero it returns
    [|candidate - baseline| * 1000000 / baseline] computed over unbounded integers, positive when
    the candidate is worse and negative or zero otherwise, and reports an overflow exactly when
    that value exceeds the largest 64-bit signed integer; no intermediate step of its
    bit-by-bit division wraps around or overflows.  A zero baseline gives 0 for a zero candidate
    and the extreme value of the right sign otherwise. *)
Theorem regression_ppm_exact (baseline candidate : Z) (higher_is_better : bool) :
  0 <= baseline <= u64_max -> 0 <= candidate <= u64_max ->
  regression_ppm baseline candidate higher_is_better = ppm_of baseline candidate higher_is_better.
Proof. apply regression_ppm_of. Qed.

Lemma regression_ppm_exact_witness :
  regression_ppm 3 10 false = ppm_of 3 10 false /\ ppm_of 3 10 false = Some 2333333.
Proof. split; [apply (regression_ppm_exact 3 10 false); unfold u64_max; lia|reflexivity]. Defined.

Example regression_ppm_cases :
  regression_ppm 1 u64_max true = None /\ regression_ppm 4 3 true = Some 250000 /\
  regression_ppm 4 3 false = Some (-250000) /\ regression_ppm 0 3 true = Some int64_min.
Proof. by vm_compute. Qed.

(** ** The stateless reference of the bootstrap *)

(** The state of the generator before draw number [k], and what the draw picks. *)
Definition state_at (k : nat) : Z := Nat.iter k (fun state => snd (next_random state)) fixed_seed.
Definition pick (samples : list Z) (k : nat) : Z :=
  nth (Z.to_nat (fst (next_random (state_at k)) mod Z.of_nat (length samples))) samples 0.

Definition total (l : list Z) : Z := foldr Z.add 0 l.
Definition largest (l : list Z) : Z := foldr Z.max 0 l.

(** The statistic of the resample whose draws start at number [k]. *)
Definition statistic (metric : MetricId) (samples : list Z) (k : nat) : option Z :=
  let drawn := pick samples <$> seq k (length samples) in
  if uses_maximum metric then Some (largest drawn)
  else if total drawn <=? u64_max then Some (total drawn / Z.of_nat (length samples)) else None.

(** The change of resample number [i]: the draws of the baseline come before the candidate's. *)
Definition change (baseline candidate : list Z) (metric : MetricId) (higher_is_better : bool) (i : nat) :
    BootstrapResult + Z :=
  let k := (i * (length baseline + length candidate))%nat in
  match statistic metric baseline k, statistic metric candidate (k + length baseline) with
  | Some b, Some c => from_option inr (inl arithmetic_overflow) (ppm_of b c higher_is_better)
  | _, _ => inl invalid_samples
  end.

(** [x] is the [k]-th smallest of [l]. *)
Definition order_statistic (k : nat) (l : list Z) (x : Z) : Prop :=
  x ∈ l /\ (length (filter (fun y => y < x)%Z l) < k <= length (filter (fun y => y <= x)%Z l))%nat.

Definition samples_wf (samples : list Z) : Prop :=
  (0 < length samples <= maximum_samples)%nat /\ Forall (fun v => 0 <= v <= u64_max) samples.

Definition series_wf (series : MetricSeries) : Prop := ms_available series = true -> samples_wf (ms_values series).

(** What a result of the bootstrap says about its inputs. *)
Definition interval_spec (baseline candidate : MetricSeries) (metric : MetricId) (higher_is_better : bool)
    (result : BootstrapResult) : Prop :=
  let change := change (ms_values baseline) (ms_values candidate) metric higher_is_better in
  let undefined := has_nonzero_sample baseline = false /\ has_nonzero_sample candidate = true in
  let available := ms_available baseline = true /\ ms_available candidate = true in
  let fails e := exists i, (i < bootstrap_resamples)%nat /\ change i = inl e /\
                   forall j, (j < i)%nat -> exists v, change j = inr v in
  match result with
  | bootstrap_success lower upper =>
      available /\ ~ undefined /\ lower <= upper /\
      exists l, inr <$> l = (change <$> seq 0 bootstrap_resamples) /\
        order_statistic (N.to_nat 250) l lower /\ order_statistic (N.to_nat 9750) l upper
  | invalid_samples => ~ available \/ available /\ ~ undefined /\ fails invalid_samples
  | zero_baseline_undefined => available /\ undefined
  | arithmetic_overflow => available /\ ~ undefined /\ fails arithmetic_overflow
  end.

(** ** Draws *)
Lemma draw_total samples st : samples <> [] -> exists p, draw samples st = Ret p.
Proof.
  intros Hne. unfold draw. destruct (next_random st) as [r st'].
  assert (0 < Z.of_nat (length samples)) by (destruct samples; simpl; [done|lia]).
  pose proof (Z.mod_pos_bound r (Z.of_nat (length samples)) ltac:(lia)).
  destruct (lookup_lt_is_Some_2 samples (Z.to_nat (r mod Z.of_nat (length samples)))) as [v Hv]; [lia|].
  rewrite (slot_ok _ _ _ Hv). by eexists.
Qed.

Lemma pick_lookup samples k : samples <> [] ->
  samples !! Z.to_nat (fst (next_random (state_at k)) mod Z.of_nat (length samples)) = Some (pick samples k).
Proof.
  intros Hne. destruct samples as [|x l]; [done|].
  set (n := Z.of_nat (length (x :: l))). assert (0 < n) by (subst n; simpl; lia).
  pose proof (Z.mod_pos_bound (fst (next_random (state_at k))) n ltac:(lia)).
  unfold pick. fold n. destruct (lookup_lt_is_Some_2 (x :: l) (Z.to_nat (fst (next_random (state_at k)) mod n))) as [y Hy].
  { subst n. lia. }
  rewrite Hy. f_equal. symmetry. by apply nth_lookup_Some.
Qed.

Lemma draw_spec samples k : samples <> [] -> draw samples (state_at k) = Ret (pick samples k, state_at (S k)).
Proof.
  intros Hne. pose proof (pick_lookup samples k Hne) as Hp. unfold draw.
  change (state_at (S k)) with (snd (next_random (state_at k))).
  destruct (next_random (state_at k)) as [r st]. simpl in *. by rewrite (slot_ok _ _ _ Hp).
Qed.

Lemma samples_wf_nonempty samples : samples_wf samples -> samples <> [].
Proof. intros [H _] ->. simpl in H. lia. Qed.
#[export] Hint Resolve samples_wf_nonempty : core.

Lemma pick_range samples k : samples_wf samples -> 0 <= pick samples k <= u64_max.
Proof.
  intros Hwf. pose proof (pick_lookup samples k (samples_wf_nonempty _ Hwf)) as Hp.
  destruct Hwf as [_ Hall]. by eapply (Forall_lookup_1 (fun v => 0 <= v <= u64_max)).
Qed.

Lemma total_cons x l : total (x :: l) = x + total l.
Proof. done. Qed.
Lemma largest_cons x l : largest (x :: l) = Z.max x (largest l).
Proof. done. Qed.

Lemma largest_nonneg l : 0 <= largest l.
Proof. induction l as [|x l IH]; [done|]. rewrite largest_cons. lia. Qed.

Lemma total_nonneg samples k n : samples_wf samples -> 0 <= total (pick samples <$> seq k n).
Proof.
  intros Hwf. revert k. induction n as [|n IH]; intros k; [done|]. cbn [seq]. rewrite fmap_cons, total_cons.
  pose proof (pick_range samples k Hwf). specialize (IH (S k)). lia.
Qed.

Lemma mean_loop_spec samples n : samples_wf samples -> forall k acc, 0 <= acc <= u64_max ->
  let sum := acc + total (pick samples <$> seq k n) in
  exists st, mean_loop n samples (state_at k) acc = Ret (if sum <=? u64_max then Some sum else None, st) /\
    (sum <= u64_max -> st = state_at (k + n)).
Proof.
  intros Hwf. induction n as [|n IH]; intros k acc Hacc sum; subst sum; cbn [mean_loop seq].
  { eexists. cbn. rewrite Z.add_0_r, Nat.add_0_r, (proj2 (Z.leb_le _ _)) by lia. done. }
  rewrite fmap_cons, total_cons.
  rewrite draw_spec by auto. rewrite outcome_bind_Ret.
  pose proof (pick_range samples k Hwf). pose proof (total_nonneg samples (S k) n Hwf).
  destruct (Z.ltb_spec (u64_max - acc) (pick samples k)).
  - eexists. rewrite (proj2 (Z.leb_gt _ _)) by lia. split; [done|lia].
  - rewrite u64_small by lia. destruct (IH (S k) (acc + pick samples k)) as (st & E & Hst); [lia|].
    exists st. rewrite E, Z.add_assoc. split; [done|]. intros. rewrite Hst by done. f_equal. lia.
Qed.

Lemma max_loop_spec samples n : samples_wf samples -> forall k acc, 0 <= acc ->
  max_loop n samples (state_at k) acc = Ret (Z.max acc (largest (pick samples <$> seq k n)), state_at (k + n)).
Proof.
  intros Hwf. induction n as [|n IH]; intros k acc Hacc; cbn [max_loop seq].
  { cbn. by rewrite Nat.add_0_r, Z.max_l by lia. }
  rewrite fmap_cons, largest_cons.
  rewrite draw_spec by auto. rewrite outcome_bind_Ret.
  pose proof (pick_range samples k Hwf).
  replace (if acc <? pick samples k then pick samples k else acc) with (Z.max acc (pick samples k))
    by (destruct (Z.ltb_spec acc (pick samples k)); lia).
  rewrite IH by lia. rewrite Nat.add_succ_comm, <- Z.max_assoc. done.
Qed.

Lemma statistic_range metric samples k v : samples_wf samples -> statistic metric samples k = Some v -> 0 <= v <= u64_max.
Proof.
  intros Hwf. unfold statistic. set (n := length samples). clearbody n.
  assert (Hl : forall m, 0 <= largest (pick samples <$> seq k m) <= u64_max).
  { intros m. revert k. induction m as [|m IH]; intros k; [by cbn|]. cbn [seq]. rewrite fmap_cons, largest_cons.
    pose proof (pick_range samples k Hwf). specialize (IH (S k)). lia. }
  case_match; [intros [= <-]; apply Hl|].
  destruct (Z.leb_spec (total (pick samples <$> seq k n)) u64_max); intros [= <-].
  pose proof (total_nonneg samples k n Hwf). destruct n as [|n]; [by cbn; unfold u64_max|].
  split; [apply Z.div_pos; lia|]. apply Z.div_le_upper_bound; nia.
Qed.

Lemma count_ok_wf samples : samples_wf samples -> count_ok samples = true.
Proof.
  intros [[H1 H2] _]. unfold count_ok.
  rewrite (bool_decide_eq_false_2 (length samples = 0%nat)), (bool_decide_eq_true_2 (_ <= _)%nat); [done|done|lia].
Qed.

Lemma resample_spec metric samples k : samples_wf samples ->
  exists st, resample metric samples (state_at k) = Ret (statistic metric samples k, st) /\
    (is_Some (statistic metric samples k) -> st = state_at (k + length samples)).
Proof.
  intros Hwf. unfold resample, statistic. destruct (uses_maximum metric).
  - unfold sample_max. rewrite count_ok_wf by done. cbn [negb]. rewrite max_loop_spec by (done || lia).
    rewrite outcome_bind_Ret. eexists. split; [|done].
    by rewrite Z.max_r by apply largest_nonneg.
  - unfold sample_mean. rewrite count_ok_wf by done. cbn [negb].
    destruct (mean_loop_spec samples (length samples) Hwf k 0 ltac:(unfold u64_max; lia)) as (st & E & Hst).
    rewrite E, outcome_bind_Ret. rewrite Z.add_0_l in *. exists st.
    destruct (Z.leb_spec (total (pick samples <$> seq k (length samples))) u64_max); (split; [done|]).
    + intros _. by apply Hst.
    + by intros [].
Qed.

(** Every run ends, also one that starts in a state no run of the reference reaches. *)
Lemma resample_total metric samples st : samples_wf samples -> exists p, resample metric samples st = Ret p.
Proof.
  intros Hwf. assert (Hd := fun st => draw_total samples st (samples_wf_nonempty _ Hwf)).
  unfold resample, sample_max, sample_mean. rewrite count_ok_wf by done. cbn [negb].
  destruct (uses_maximum metric).
  - assert (H : forall n st acc, exists p, max_loop n samples st acc = Ret p).
    { induction n as [|n IH]; intros s acc; [by eexists|]. cbn [max_loop].
      destruct (Hd s) as [[v s'] ->]. rewrite outcome_bind_Ret. apply IH. }
    destruct (H (length samples) st 0) as [[o s] ->]. by eexists.
  - assert (H : forall n st acc, exists p, mean_loop n samples st acc = Ret p).
    { induction n as [|n IH]; intros s acc; [by eexists|]. cbn [mean_loop].
      destruct (Hd s) as [[v s'] ->]. rewrite outcome_bind_Ret. case_match; [by eexists|apply IH]. }
    destruct (H (length samples) st 0) as [[o s] ->]. by eexists.
Qed.

(** The first error of a list of results, or all the values. *)
Fixpoint collect {E A} (l : list (E + A)) : E + list A :=
  match l with
  | [] => inr []
  | inl e :: _ => inl e
  | inr a :: l => match collect l with inl e => inl e | inr l => inr (a :: l) end
  end.

Lemma collect_values {E A} (l : list (E + A)) vs : collect l = inr vs -> inr <$> vs = l.
Proof.
  revert vs. induction l as [|[e|a] l IH]; intros vs; simpl; [by intros [= <-]|done|].
  destruct (collect l) as [|ws]; [done|]. intros [= <-]. by rewrite fmap_cons, (IH ws).
Qed.

Lemma collect_error {E A} (l : list (E + A)) e : collect l = inl e ->
  exists i, l !! i = Some (inl e) /\ forall j, (j < i)%nat -> exists v, l !! j = Some (inr v).
Proof.
  induction l as [|[e'|a] l IH]; simpl; [done|intros [= ->]; exists O; split; [done|lia]|].
  destruct (collect l) as [e'|ws]; [|done]. intros [= ->]. destruct IH as (i & Hi & Hj); [done|].
  exists (S i). split; [done|]. intros [|j] ?; [by exists a|]. apply Hj. lia.
Qed.

Lemma bootstrap_loop_spec baseline candidate metric higher n : samples_wf baseline -> samples_wf candidate ->
  forall i, bootstrap_loop n baseline candidate metric higher (state_at (i * (length baseline + length candidate)))
    = Ret (collect (change baseline candidate metric higher <$> seq i n)).
Proof.
  intros Hb Hc. induction n as [|n IH]; intros i; [done|]. cbn [bootstrap_loop seq]. rewrite fmap_cons. cbn [collect].
  set (k := (i * (length baseline + length candidate))%nat).
  destruct (resample_spec metric baseline k Hb) as (st & -> & Hst). rewrite outcome_bind_Ret.
  unfold change at 1. fold k. destruct (statistic metric baseline k) as [b|] eqn:Eb.
  - rewrite (Hst ltac:(by eexists)). destruct (resample_spec metric candidate (k + length baseline) Hc) as (st' & -> & Hst').
    rewrite outcome_bind_Ret. destruct (statistic metric candidate (k + length baseline)) as [c|] eqn:Ec; [|done].
    rewrite (Hst' ltac:(by eexists)), regression_ppm_of by eauto using statistic_range.
    destruct (ppm_of b c higher); [|done]. cbn [from_option].
    replace (k + length baseline + length candidate)%nat with (S i * (length baseline + length candidate))%nat by lia.
    rewrite IH. by rewrite outcome_bind_Ret.
  - destruct (resample_total metric candidate st Hc) as [[c st'] ->]. by rewrite outcome_bind_Ret.
Qed.

(** ** Order statistics of a sorted list *)
Lemma order_statistic_perm k l l' x : l ≡ₚ l' -> order_statistic k l x -> order_statistic k l' x.
Proof.
  intros Hp [Hin Hk]. split; [by rewrite <- Hp|].
  by rewrite <- !(Permutation_length (filter_Permutation _ _ _ Hp)).
Qed.

Lemma filter_none_length {A} (P : A -> Prop) `{!forall x, Decision (P x)} (l : list A) :
  Forall (fun x => ~ P x) l -> length (filter P l) = O.
Proof. induction 1; [done|]. by rewrite filter_cons_False. Qed.

Lemma filter_all_length {A} (P : A -> Prop) `{!forall x, Decision (P x)} (l : list A) :
  Forall P l -> length (filter P l) = length l.
Proof. induction 1; [done|]. rewrite filter_cons_True by done. simpl. lia. Qed.

Lemma order_statistic_sorted i l x : StronglySorted Z.le l -> l !! i = Some x -> order_statistic (S i) l x.
Proof.
  intros Hs Hi. split; [by eapply list_elem_of_lookup_2|].
  pose proof (lookup_lt_Some _ _ _ Hi) as Hlen.
  assert (Htake : length (take i l) = i) by (rewrite length_take; lia).
  rewrite <- (take_drop_middle l i x Hi) in Hs |- * at 1 2. rewrite !filter_app, !length_app.
  apply StronglySorted_app in Hs as (Hlow & _ & Hs). apply StronglySorted_cons in Hs as [Hs _].
  assert (Hlow' : Forall (fun y => y <= x) (take i l)) by (apply Forall_forall; intros; apply Hlow; set_solver).
  assert (Hhigh : Forall (fun y => ~ y < x) (x :: drop (S i) l)).
  { constructor; [lia|]. eapply Forall_impl; [exact Hs|]. simpl. lia. }
  rewrite (filter_none_length _ _ Hhigh), (filter_all_length _ _ Hlow'), Htake.
  rewrite (filter_cons_True (fun y => y <= x)) by lia. cbn [length].
  pose proof (length_filter (fun y => y < x) (take i l)). lia.
Qed.

Lemma sorted_lookup_le l i j x y : StronglySorted Z.le l -> l !! i = Some x -> l !! j = Some y -> (i <= j)%nat -> x <= y.
Proof.
  intros Hs Hi Hj Hij. destruct (decide (i = j)) as [->|]; [rewrite Hi in Hj; by injection Hj as ->|].
  rewrite <- (take_drop_middle l i x Hi) in Hs.
  apply StronglySorted_app in Hs as (_ & _ & Hs). apply StronglySorted_cons in Hs as [Hs _].
  rewrite Forall_lookup in Hs. apply (Hs (j - S i)%nat). rewrite lookup_drop. rewrite <- Hj. f_equal. lia.
Qed.

Lemma sort_bounds l : length l = bootstrap_resamples ->
  exists lower upper, slot (sort_values l) (Z.of_nat lower_index) = Ret lower /\ slot (sort_values l) (Z.of_nat upper_index) = Ret upper /\
    lower <= upper /\ order_statistic (N.to_nat 250) l lower /\ order_statistic (N.to_nat 9750) l upper.
Proof.
  intros Hlen. assert (Hp : sort_values l ≡ₚ l) by apply merge_sort_Permutation.
  assert (Hs : StronglySorted Z.le (sort_values l)) by (apply StronglySorted_merge_sort; apply _).
  rewrite <- (Permutation_length Hp) in Hlen.
  assert (Hlow : lower_index = N.to_nat 249) by (by vm_compute).
  assert (Hup : upper_index = N.to_nat 9749) by (by vm_compute).
  destruct (lookup_lt_is_Some_2 (sort_values l) lower_index) as [lower E1].
  { rewrite Hlen, Hlow. unfold bootstrap_resamples. lia. }
  destruct (lookup_lt_is_Some_2 (sort_values l) upper_index) as [upper E2].
  { rewrite Hlen, Hup. unfold bootstrap_resamples. lia. }
  exists lower, upper. unfold slot. rewrite !Nat2Z.id, E1, E2. split; [done|]. split; [done|].
  split; [eapply sorted_lookup_le; [done|exact E1|exact E2|rewrite Hlow, Hup; lia]|].
  replace (N.to_nat 250) with (S lower_index) by (rewrite Hlow; lia).
  replace (N.to_nat 9750) with (S upper_index) by (rewrite Hup; lia).
  split; apply (order_statistic_perm _ (sort_values l)); auto using order_statistic_sorted.
Qed.

Lemma seq_lookup_change {A} (f : nat -> A) n i x : (f <$> seq 0 n) !! i = Some x -> (i < n)%nat /\ f i = x.
Proof. rewrite list_lookup_fmap, fmap_Some. intros (j & Hj & ->). by apply lookup_seq in Hj as [-> ?]. Qed.

(** A failing resample stops the run; every earlier one succeeded. *)
Lemma collect_fails {A} (f : nat -> BootstrapResult + A) n e : collect (f <$> seq 0 n) = inl e ->
  exists i, (i < n)%nat /\ f i = inl e /\ forall j, (j < i)%nat -> exists v, f j = inr v.
Proof.
  intros Hc. apply collect_error in Hc as (i & Hi & Hj). exists i.
  apply seq_lookup_change in Hi as [? ?]. split; [done|]. split; [done|]. intros j Hji.
  destruct (Hj j Hji) as [v Hv]. exists v. by apply seq_lookup_change in Hv as [_ ?].
Qed.

Lemma change_error baseline candidate metric higher i e : change baseline candidate metric higher i = inl e ->
  e = invalid_samples \/ e = arithmetic_overflow.
Proof. unfold change. repeat case_match; try (intros [= <-]; auto). by destruct (ppm_of _ _ _); intros [= <-]; auto. Qed.

Lemma bootstrap_exact (baseline candidate : MetricSeries) (metric : MetricId) (higher_is_better : bool) :
  series_wf baseline -> series_wf candidate ->
  run_to (bootstrap_interval baseline candidate metric higher_is_better)
    (interval_spec baseline candidate metric higher_is_better).
Proof.
  intros Hb Hc. unfold bootstrap_interval, series_wf, interval_spec in *.
  destruct (ms_available baseline); [|eexists; split; [done|left; by intros [? ?]]].
  destruct (ms_available candidate); [|eexists; split; [done|left; by intros [? ?]]]. cbn [negb orb].
  destruct (negb (has_nonzero_sample baseline) && has_nonzero_sample candidate) eqn:Hz.
  { apply andb_prop in Hz as [?%negb_true_iff ?]. by eexists. }
  assert (Hu : ~ (has_nonzero_sample baseline = false /\ has_nonzero_sample candidate = true)).
  { intros [E1 E2]. by rewrite E1, E2 in Hz. }
  set (b := ms_values baseline) in *. set (c := ms_values candidate) in *.
  change fixed_seed with (state_at (0 * (length b + length c))).
  rewrite bootstrap_loop_spec, outcome_bind_Ret by auto.
  destruct (collect (change b c metric higher_is_better <$> seq 0 bootstrap_resamples)) as [e|l] eqn:Hcol.
  - eexists. split; [reflexivity|]. pose proof (collect_fails _ _ _ Hcol) as Hf.
    destruct Hf as (i & Hi & He & Hj). destruct (change_error _ _ _ _ _ _ He) as [->| ->]; [right|]; eauto 10.
  - apply collect_values in Hcol. destruct (sort_bounds l) as (lower & upper & -> & H2 & Hle & Hlo & Hup).
    { apply (f_equal length) in Hcol. by rewrite !length_fmap, length_seq in Hcol. }
    rewrite outcome_bind_Ret, H2, outcome_bind_Ret. eexists. split; [reflexivity|]. cbn beta iota.
    split; [done|]. split; [done|]. split; [done|]. by exists l.
Qed.

(** C37: The bootstrap ends on every pair of well-formed series, never reads outside the samples
    and reports exactly the right result: the statistic of resample [i] is the mean (the
    maximum for peak RSS) of samples chosen by the draws of the generator numbered from
    [i * (n + m)], the change is [regression_ppm] of the two, and the interval is the 250th and
    the 9750th smallest of the ten thousand changes, lower bound first; a missing series or a
    resample whose sum overflows gives [invalid_samples], an all-zero baseline against a
    candidate that is not gives [zero_baseline_undefined], and the first change that does not
    fit gives [arithmetic_overflow]. *)
Theorem bootstrap_interval_exact (baseline candidate : MetricSeries) (metric : MetricId) (higher_is_better : bool) :
  series_wf baseline -> series_wf candidate ->
  run_to (bootstrap_interval baseline candidate metric higher_is_better)
    (interval_spec baseline candidate metric higher_is_better).
Proof. apply bootstrap_exact. Qed.

Lemma bootstrap_interval_exact_witness :
  let baseline := MkMetricSeries [1; 2; 3; 4; 5; 6; 7; 8; 9; 10] true [] in
  let candidate := MkMetricSeries [2; 3; 4; 5; 6; 7; 8; 9; 10; 11] true [] in
  run_to (bootstrap_interval baseline candidate latency false) (interval_spec baseline candidate latency false).
Proof.
  apply bootstrap_interval_exact; intros _.
  - split; [vm_compute; lia|]. by repeat constructor.
  - split; [vm_compute; lia|]. by repeat constructor.
Defined.
