(* ===== verification/Manifest.v ===== *)
(** * The threshold manifest of the benchmark evaluator

    Models [parse_percent_ppm], [compare_rule_key] and the part of [parse_manifest] of
    [bench/evaluator.cpp] that follows [read_file].  The manifest is a text of lines of seven
    fields separated by tabs.  A [std::string_view] is modelled by its characters; the array of
    rules by its entries in use; the error string by an [Inductive] with its texts. *)
From S2P Require Import Prelude Json JsonSpec Regression.
From Stdlib Require Import ZArith Lia Ascii String.
From stdpp Require Import base numbers list option sorting.

Set Default Goal Selector "!".
#[local] Open Scope Z_scope.

Definition maximum_rules : nat := N.to_nat 128.
Definition percent_ppm : Z := 10000.

Record Rule := MkRule {
  r_workload : text;
  r_metric : text;
  r_higher_is_better : bool;
  r_allowed_regression_ppm : Z;
  r_noise_band_ppm : Z;
  r_reference_environment : text;
  r_hard : bool }.

Inductive ManifestError :=
  | too_many_rules | field_count | field_value | bad_metric | direction | bad_reference_environment | mode
  | ordering_or_duplicate.

Definition manifest_error (e : ManifestError) : text :=
  match e with
  | too_many_rules => word "too_many_rules"
  | field_count => word "field_count"
  | field_value => word "field_value"
  | bad_metric => word "metric"
  | direction => word "direction"
  | bad_reference_environment => word "reference_environment"
  | mode => word "mode"
  | ordering_or_duplicate => word "ordering_or_duplicate"
  end.

(** ** Percentages *)

(** The loop over the digits of the whole part: its value and the characters left. *)
Fixpoint whole_loop (t : text) (whole : Z) : option (Z * text) :=
  match t with
  | c :: rest =>
      if is_digit c then
        if (u64_max - 9) / 10 <? whole then None
        else whole_loop rest (u64 (u64 (whole * 10) + u64 (digit_value c)))
      else Some (whole, t)
  | [] => Some (whole, [])
  end.

(** The loop over at most four digits of the fraction. *)
Fixpoint fraction_loop (t : text) (fraction : Z) (fraction_digits : nat) : Z * nat * text :=
  match t with
  | c :: rest =>
      if is_digit c && bool_decide (fraction_digits < 4)%nat
      then fraction_loop rest (u64 (u64 (fraction * 10) + u64 (digit_value c))) (S fraction_digits)
      else (fraction, fraction_digits, t)
  | [] => (fraction, fraction_digits, [])
  end.

(** [while (fraction_digits < 4U)]: [n] rounds are left. *)
Fixpoint scale_loop (n : nat) (fraction : Z) : Z :=
  match n with O => fraction | S n => scale_loop n (u64 (fraction * 10)) end.

Definition parse_percent_ppm (input : text) : option Z :=
  if bool_decide (input = []) then None else
  '(whole, rest) ← whole_loop input 0;
  if bool_decide (length rest = length input) then None else
  '(fraction, fraction_digits) ←
    match rest with
    | [] => Some (0, 0%nat)
    | c :: rest =>
        if negb (is_char c ".") then None else
        let '(fraction, fraction_digits, rest) := fraction_loop rest 0 0 in
        if bool_decide (fraction_digits = 0%nat) || negb (bool_decide (rest = [])) then None
        else Some (fraction, fraction_digits)
    end;
  let fraction := scale_loop (4 - fraction_digits) fraction in
  if (u64_max - fraction) / percent_ppm <? whole then None
  else Some (u64 (u64 (whole * percent_ppm) + fraction)).

(** ** Order of the rules *)

(** [std::string_view] compares characters as [unsigned char]. *)
Fixpoint text_compare (a b : text) : comparison :=
  match a, b with
  | [], [] => Eq
  | [], _ :: _ => Lt
  | _ :: _, [] => Gt
  | x :: a, y :: b => match (code x ?= code y) with Eq => text_compare a b | o => o end
  end.
Definition text_ltb (a b : text) : bool := match text_compare a b with Lt => true | _ => false end.

Definition compare_rule_key (left right : Rule) : Z :=
  if text_ltb (r_workload left) (r_workload right) then -1
  else if text_ltb (r_workload right) (r_workload left) then 1
  else if text_ltb (r_metric left) (r_metric right) then -1
  else if text_ltb (r_metric right) (r_metric left) then 1
  else 0.

(** ** Lines *)

(** The loop that splits a line at its tabs; [None] when there is an eighth field. *)
Fixpoint field_loop (line current : text) (fields : list text) : option (list text) :=
  match line with
  | [] => if bool_decide (7 <= length fields)%nat then None else Some (fields ++ [current])
  | c :: line =>
      if is_char c tab then
        if bool_decide (7 <= length fields)%nat then None else field_loop line [] (fields ++ [current])
      else field_loop line (current ++ [c]) fields
  end.

Definition is_environment_digit (c : ascii) : bool :=
  ((48 <=? code c) && (code c <=? 57)) || ((97 <=? code c) && (code c <=? 102)).

(** The body of the loop of [parse_manifest] for a line that is not empty nor a comment. *)
Definition parse_rule (rules : list Rule) (line : text) : ManifestError + Rule :=
  if bool_decide (length rules = maximum_rules) then inl too_many_rules else
  match field_loop line [] [] with
  | Some [workload; metric; dir; allowed; noise; environment; m] =>
      if bool_decide (workload = []) || bool_decide (metric = []) then inl field_value else
      match parse_percent_ppm allowed, parse_percent_ppm noise with
      | Some allowed, Some noise =>
          if bool_decide (metric_id metric = invalid_metric) then inl bad_metric else
          match (if bool_decide (dir = word "lower") then Some false
                 else if bool_decide (dir = word "higher") then Some true else None) with
          | None => inl direction
          | Some higher_is_better =>
              if negb (bool_decide (length environment = 16%nat)) then inl bad_reference_environment else
              if negb (forallb is_environment_digit environment) then inl bad_reference_environment else
              match (if bool_decide (m = word "hard") then Some true
                     else if bool_decide (m = word "advisory") then Some false else None) with
              | None => inl mode
              | Some hard =>
                  let rule := MkRule workload metric higher_is_better allowed noise environment hard in
                  match list.last rules with
                  | Some previous =>
                      if 0 <=? compare_rule_key previous rule then inl ordering_or_duplicate else inr rule
                  | None => inr rule
                  end
              end
          end
      | _, _ => inl field_value
      end
  | _ => inl field_count
  end.

(** [if (line_end > begin && storage[line_end - 1] == '\r') --line_end;] *)
Definition strip_return (line : text) : text :=
  match list.last line with
  | Some c => if is_char c carriage_return then removelast line else line
  | None => line
  end.

Definition is_rule_line (line : text) : bool :=
  match line with [] => false | c :: _ => negb (is_char c "#") end.

(** The loop over the lines, [begin] being where the next one starts. *)
Fixpoint manifest_loop (fuel : nat) (storage : text) (begin : nat) (rules : list Rule) :
    outcome (ManifestError + list Rule) :=
  match fuel with
  | O => Stop OutOfFuel
  | S fuel =>
      if negb (bool_decide (begin < length storage)%nat) then Ret (inr rules) else
      let end_ := (begin + span_while (fun c => negb (is_char c newline)) (drop begin storage))%nat in
      let line := strip_return (take (end_ - begin) (drop begin storage)) in
      let next := if bool_decide (end_ < length storage)%nat then S end_ else length storage in
      if is_rule_line line then
        match parse_rule rules line with
        | inl e => Ret (inl e)
        | inr rule => manifest_loop fuel storage next (rules ++ [rule])
        end
      else manifest_loop fuel storage next rules
  end.

(** [parse_manifest] once the file has been read: every round moves [begin] forward. *)
Definition parse_manifest_text (storage : text) : outcome (ManifestError + list Rule) :=
  manifest_loop (S (length storage)) storage 0 [].

(** * What the threshold manifest means

    An independent description of the manifest format (percentages with at most four decimals,
    lines, fields, strictly ascending keys) and the theorems that [parse_percent_ppm] and
    [parse_manifest] accept exactly the texts it describes, with the values it gives them, and
    name the first offending line otherwise. *)

(** ** Percentages *)
Abbreviation digits ds := (Forall (fun c => is_digit c = true) ds).

(** [digits_from w ds] appends the digits [ds] to the number [w]. *)
Definition digits_from (w : Z) (ds : text) : Z := foldl (fun v c => v * 10 + digit_value c) w ds.

(** A decimal number with at most four digits after the point, in units of 1/10000. *)
Definition percent_text (s : text) (v : Z) : Prop :=
  exists whole fraction, whole <> [] /\ digits whole /\ digits fraction /\ (length fraction <= 4)%nat /\
    (s = whole /\ fraction = [] \/ s = whole ++ "."%char :: fraction /\ fraction <> []) /\
    v = decimal whole * 10000 + decimal fraction * 10 ^ (4 - Z.of_nat (length fraction)) /\ v <= u64_max.

Lemma digit_bounds c : is_digit c = true -> 0 <= digit_value c <= 9.
Proof. unfold is_digit, digit_value. intros [?%Z.leb_le ?%Z.leb_le]%andb_prop. lia. Qed.

Lemma digits_from_mono w ds : 0 <= w -> digits ds -> w <= digits_from w ds.
Proof.
  intros Hw Hd. revert w Hw. induction Hd as [|c ds Hc Hd IH]; intros w Hw; [done|]. cbn.
  pose proof (digit_bounds c Hc). specialize (IH (w * 10 + digit_value c) ltac:(lia)). unfold digits_from in IH. lia.
Qed.

Lemma digits_from_bound n w ds : 0 <= w < 10 ^ Z.of_nat n -> digits ds ->
  0 <= digits_from w ds < 10 ^ Z.of_nat (n + length ds).
Proof.
  intros Hw Hd. revert n w Hw. induction Hd as [|c ds Hc Hd IH]; intros n w Hw; [by rewrite Nat.add_0_r|]. cbn.
  pose proof (digit_bounds c Hc). rewrite <- Nat.add_succ_comm. apply IH.
  rewrite Nat2Z.inj_succ, Z.pow_succ_r by lia. lia.
Qed.

Lemma whole_loop_spec ds r : digits ds -> no_digit r -> forall w, 0 <= w <= u64_max ->
  whole_loop (ds ++ r) w = Some (digits_from w ds, r) /\ digits_from w ds <= u64_max \/
  whole_loop (ds ++ r) w = None /\ u64_max < digits_from w ds * 10000.
Proof.
  intros Hd Hr. induction Hd as [|c ds Hc Hd IH]; intros w Hw.
  - left. split; [|by apply Hw]. destruct r as [|c r]; [done|]. cbn. by rewrite (Hr c r).
  - cbn [whole_loop app]. rewrite Hc. pose proof (digit_bounds c Hc).
    change (digits_from w (c :: ds)) with (digits_from (w * 10 + digit_value c) ds).
    assert (HM : (u64_max - 9) / 10 = 1844674407370955160) by reflexivity. rewrite HM.
    destruct (Z.ltb_spec 1844674407370955160 w).
    + right. split; [done|]. pose proof (digits_from_mono (w * 10 + digit_value c) ds ltac:(lia) Hd).
      unfold u64_max. lia.
    + unfold u64_max in *. rewrite (u64_small (w * 10)), (u64_small (digit_value c)), u64_small by (unfold u64_max; lia).
      apply IH. lia.
Qed.

Lemma digits_split t : exists ds r, t = ds ++ r /\ digits ds /\ no_digit r.
Proof.
  induction t as [|c t (ds & r & -> & Hd & Hr)]; [by exists [], []|].
  destruct (is_digit c) eqn:Hc; [exists (c :: ds), r; split; [done|]; split; [by constructor|done]|].
  exists [], (c :: ds ++ r). split; [done|]. split; [done|]. by intros ? ? [= <- <-].
Qed.

Lemma small_power n : (n <= 4)%nat -> 10 ^ Z.of_nat n <= 10000.
Proof. intros. apply (Z.pow_le_mono_r 10 _ 4); lia. Qed.

Lemma fraction_step f c n : 0 <= f < 10 ^ Z.of_nat n -> (n < 4)%nat -> is_digit c = true ->
  u64 (u64 (f * 10) + u64 (digit_value c)) = f * 10 + digit_value c /\ 0 <= f * 10 + digit_value c < 10 ^ Z.of_nat (S n).
Proof.
  intros Hf Hn Hc. pose proof (digit_bounds c Hc). pose proof (small_power n ltac:(lia)).
  rewrite (u64_small (f * 10)), (u64_small (digit_value c)), u64_small by (unfold u64_max; lia).
  rewrite Nat2Z.inj_succ, Z.pow_succ_r by lia. lia.
Qed.

Lemma fraction_loop_sound t : forall f n f' n' r, 0 <= f < 10 ^ Z.of_nat n -> (n <= 4)%nat ->
  fraction_loop t f n = (f', n', r) ->
  exists ds, t = ds ++ r /\ digits ds /\ f' = digits_from f ds /\ (n' = n + length ds)%nat /\ (n' <= 4)%nat.
Proof.
  induction t as [|c t IH]; intros f n f' n' r Hf Hn; cbn [fraction_loop].
  { intros [= <- <- <-]. exists []. rewrite Nat.add_0_r. done. }
  destruct (is_digit c) eqn:Hc; cbn [andb]; [|intros [= <- <- <-]; exists []; by rewrite Nat.add_0_r].
  case_bool_decide; [|intros [= <- <- <-]; exists []; by rewrite Nat.add_0_r].
  destruct (fraction_step f c n Hf ltac:(lia) Hc) as [-> Hf']. intros E.
  destruct (IH _ _ _ _ _ Hf' ltac:(lia) E) as (ds & -> & Hd & -> & -> & Hle).
  exists (c :: ds). split; [done|]. split; [by constructor|]. split; [done|]. cbn [length] in *. lia.
Qed.

Lemma fraction_loop_complete ds : digits ds -> forall f n, 0 <= f < 10 ^ Z.of_nat n -> (n + length ds <= 4)%nat ->
  fraction_loop ds f n = (digits_from f ds, (n + length ds)%nat, []).
Proof.
  induction 1 as [|c ds Hc Hd IH]; intros f n Hf Hn; [by rewrite Nat.add_0_r|]. cbn [fraction_loop length] in *.
  rewrite Hc, bool_decide_eq_true_2 by lia. cbn [andb].
  destruct (fraction_step f c n Hf ltac:(lia) Hc) as [-> Hf']. rewrite IH by (done || lia). by rewrite Nat.add_succ_comm.
Qed.

Lemma scale_loop_spec n f : 0 <= f -> f * 10 ^ Z.of_nat n <= 10000 -> scale_loop n f = f * 10 ^ Z.of_nat n.
Proof.
  revert f. induction n as [|n IH]; intros f Hf Hle; [cbn; lia|]. cbn [scale_loop].
  rewrite Nat2Z.inj_succ, Z.pow_succ_r in * by lia. assert (1 <= 10 ^ Z.of_nat n) by (apply (Z.pow_le_mono_r 10 0); lia).
  rewrite u64_small by (unfold u64_max; nia). rewrite IH; lia.
Qed.

(** The last step: the fraction fills its four digits, the sum is checked against 2^64. *)
Definition percent_value (whole : Z) (fraction : text) : Z :=
  whole * 10000 + decimal fraction * 10 ^ (4 - Z.of_nat (length fraction)).

Lemma percent_total whole fraction : 0 <= whole <= u64_max -> digits fraction -> (length fraction <= 4)%nat ->
  (let f := scale_loop (4 - length fraction) (decimal fraction) in
   if (u64_max - f) / percent_ppm <? whole then None else Some (u64 (u64 (whole * percent_ppm) + f))) =
  if percent_value whole fraction <=? u64_max then Some (percent_value whole fraction) else None.
Proof.
  intros Hw Hd Hl. pose proof (digits_from_bound 0 0 fraction ltac:(cbn; lia) Hd) as Hb.
  change (digits_from 0 fraction) with (decimal fraction) in Hb. cbn [Nat.add] in Hb.
  assert (Hp : 10 ^ Z.of_nat (length fraction) * 10 ^ Z.of_nat (4 - length fraction) = 10000).
  { rewrite <- Z.pow_add_r by lia. by replace (Z.of_nat (length fraction) + Z.of_nat (4 - length fraction)) with 4 by lia. }
  assert (1 <= 10 ^ Z.of_nat (4 - length fraction)) by (apply (Z.pow_le_mono_r 10 0); lia).
  cbn zeta. rewrite scale_loop_spec by nia. unfold percent_value, percent_ppm.
  replace (4 - Z.of_nat (length fraction)) with (Z.of_nat (4 - length fraction)) by lia.
  set (f := decimal fraction * 10 ^ Z.of_nat (4 - length fraction)). assert (0 <= f < 10000) by (subst f; nia).
  clearbody f. pose proof (Z.div_mod (u64_max - f) 10000 ltac:(lia)). pose proof (Z.mod_pos_bound (u64_max - f) 10000 ltac:(lia)).
  destruct (Z.ltb_spec ((u64_max - f) / 10000) whole).
  - by rewrite (proj2 (Z.leb_gt _ _)) by lia.
  - rewrite (proj2 (Z.leb_le _ _)) by lia. by rewrite (u64_small (whole * 10000)), u64_small by lia.
Qed.

Lemma digits_split_unique ds r ds' r' : digits ds -> no_digit r -> digits ds' -> no_digit r' ->
  ds ++ r = ds' ++ r' -> ds = ds' /\ r = r'.
Proof.
  intros Hd Hr Hd' Hr'. revert ds' Hd'. induction Hd as [|c ds Hc Hd IH]; intros [|c' ds'] Hd'; cbn; intros E.
  - done.
  - apply Forall_cons_1 in Hd' as [Hc' _]. by rewrite (Hr _ _ E) in Hc'.
  - by rewrite (Hr' c (ds ++ r)) in Hc.
  - apply Forall_cons_1 in Hd' as [_ Hd']. injection E as -> E. destruct (IH ds' Hd' E) as [-> ->]. done.
Qed.

Lemma no_digit_point r : no_digit ("."%char :: r).
Proof. by intros ? ? [= <- <-]. Qed.
Lemma no_digit_nil : no_digit [].
Proof. by intros ? ?. Qed.
#[export] Hint Resolve no_digit_point no_digit_nil : core.

(** What follows the whole part, as [parse_percent_ppm] reads it. *)
Definition fraction_of (rest : text) : option (Z * nat) :=
  match rest with
  | [] => Some (0, 0%nat)
  | c :: rest =>
      if negb (is_char c ".") then None else
      let '(fraction, fraction_digits, rest) := fraction_loop rest 0 0 in
      if bool_decide (fraction_digits = 0%nat) || negb (bool_decide (rest = [])) then None
      else Some (fraction, fraction_digits)
  end.

Lemma fraction_of_exact rest f n : fraction_of rest = Some (f, n) <->
  exists fraction, digits fraction /\ (length fraction <= 4)%nat /\ f = decimal fraction /\ n = length fraction /\
    (rest = [] /\ fraction = [] \/ rest = "."%char :: fraction /\ fraction <> []).
Proof.
  split.
  - destruct rest as [|c rest]; cbn; [intros [= <- <-]; exists []; split; [done|]; split; [cbn; lia|]; by auto|].
    destruct (is_char c ".") eqn:Hc; [|done]. apply is_char_true in Hc as ->. cbn [negb].
    destruct (fraction_loop rest 0 0) as [[f' n'] r] eqn:E.
    apply fraction_loop_sound in E as (ds & -> & Hd & -> & -> & Hle); [|cbn; lia|lia].
    case_bool_decide as Hn; [done|]. case_bool_decide as Hr; [|done]. subst r. intros [= <- <-].
    exists ds. rewrite app_nil_r. split; [done|]. split; [done|]. split; [done|]. split; [done|].
    right. split; [done|]. by intros ->.
  - intros (ds & Hd & Hl & -> & -> & [[-> ->]|[-> Hne]]); [done|]. cbn.
    rewrite fraction_loop_complete by (done || cbn; lia).
    rewrite bool_decide_eq_false_2 by (by destruct ds). by rewrite bool_decide_eq_true_2.
Qed.

Lemma percent_text_split ds r v : digits ds -> no_digit r ->
  percent_text (ds ++ r) v <-> ds <> [] /\ exists f, digits f /\ (length f <= 4)%nat /\
    (r = [] /\ f = [] \/ r = "."%char :: f /\ f <> []) /\ v = percent_value (decimal ds) f /\ v <= u64_max.
Proof.
  intros Hd Hr. split.
  - intros (w & f & Hw & Hdw & Hdf & Hl & Hs & Hv & Hle).
    assert (ds = w /\ (r = [] /\ f = [] \/ r = "."%char :: f /\ f <> [])) as [-> ?]; [|by eauto 10].
    destruct Hs as [[Hs ->]|[Hs Hf]].
    + rewrite <- (app_nil_r w) in Hs. apply digits_split_unique in Hs as [-> ->]; auto.
    + apply digits_split_unique in Hs as [-> ->]; auto.
  - intros (Hne & f & Hf & Hl & Hs & Hv & Hle). exists ds, f. split; [done|]. split; [done|]. split; [done|]. split; [done|].
    split; [|done]. destruct Hs as [[-> ->]|[-> ?]]; [left|right]; by rewrite ?app_nil_r.
Qed.

Lemma percent_exact (s : text) (v : Z) : parse_percent_ppm s = Some v <-> percent_text s v.
Proof.
  destruct (digits_split s) as (ds & r & -> & Hd & Hr). unfold parse_percent_ppm.
  rewrite percent_text_split by done. destruct ds as [|c ds].
  { split; [|by intros [? _]]. case_bool_decide; [done|]. destruct (whole_loop_spec [] r Hd Hr 0) as [[-> _]|[-> _]].
    - unfold u64_max; lia.
    - cbn. by rewrite bool_decide_eq_true_2.
    - done. }
  rewrite (bool_decide_eq_false_2 (_ = [])) by done. set (w := c :: ds) in *.
  change (decimal w) with (digits_from 0 w).
  assert (Hw0 := digits_from_mono 0 w ltac:(lia) Hd).
  destruct (whole_loop_spec w r Hd Hr 0 ltac:(unfold u64_max; lia)) as [[-> Hw]|[-> Hw]]; cbn [mbind option_bind].
  - rewrite bool_decide_eq_false_2 by (rewrite length_app; subst w; cbn; lia). fold (fraction_of r). split.
    + destruct (fraction_of r) as [[f n]|] eqn:Ef; [|done]. apply fraction_of_exact in Ef as (fr & Hdf & Hl & -> & -> & Hs).
      cbn [mbind option_bind]. rewrite percent_total by (done || lia).
      destruct (Z.leb_spec (percent_value (digits_from 0 w) fr) u64_max); [|done]. intros [= <-]. by eauto 10.
    + intros (_ & fr & Hdf & Hl & Hs & -> & Hle). rewrite (proj2 (fraction_of_exact r (decimal fr) (length fr))) by eauto 10.
      cbn [mbind option_bind]. rewrite percent_total by (done || lia). by rewrite (proj2 (Z.leb_le _ _)).
  - split; [done|]. intros (_ & fr & Hdf & Hl & _ & -> & Hle). exfalso. unfold percent_value in Hle.
    assert (0 <= decimal fr) by (apply (digits_from_mono 0 fr); [lia|done]).
    assert (0 <= 10 ^ (4 - Z.of_nat (length fr))) by lia. nia.
Qed.

(** [parse_percent_ppm] accepts exactly the decimal numbers with at least one digit before
    the point and, when there is a point, one to four digits after it, whose value in units of
    1/10000 fits in 64 bits, and returns that value: no digit is lost to wrap-around, and the
    early overflow check inside the loop refuses nothing that would have fitted. *)
Theorem parse_percent_ppm_exact (s : text) (v : Z) : parse_percent_ppm s = Some v <-> percent_text s v.
Proof. apply percent_exact. Qed.

(** ** Order of texts and of rules *)

(** [a] comes before [b]: at the first difference, or as a proper prefix. *)
Definition text_lt (a b : text) : Prop :=
  exists p, (exists y b', a = p /\ b = p ++ y :: b') \/
            (exists x a' y b', a = p ++ x :: a' /\ b = p ++ y :: b' /\ code x < code y).

Definition key_lt (l r : Rule) : Prop :=
  text_lt (r_workload l) (r_workload r) \/
  r_workload l = r_workload r /\ text_lt (r_metric l) (r_metric r).

Lemma code_inj a b : code a = code b -> a = b.
Proof.
  unfold code. intros H%N2Z.inj. rewrite <- (ascii_N_embedding a), <- (ascii_N_embedding b). by rewrite H.
Qed.

Lemma text_lt_cons c a b : text_lt a b -> text_lt (c :: a) (c :: b).
Proof.
  intros (p & [(y & b' & -> & ->)|(x & a' & y & b' & -> & -> & H)]); exists (c :: p); [left|right]; repeat eexists; done.
Qed.

Lemma text_lt_uncons c d a b : text_lt (c :: a) (d :: b) -> code c < code d \/ c = d /\ text_lt a b.
Proof.
  intros ([|q p] & [(y & b' & E1 & E2)|(x & a' & y & b' & E1 & E2 & H)]); cbn in *.
  - done.
  - injection E1 as -> ->. injection E2 as -> ->. by left.
  - injection E1 as -> ->. injection E2 as -> ->. right. split; [done|]. exists p. left. by eauto.
  - injection E1 as -> ->. injection E2 as -> ->. right. split; [done|]. exists p. right. by eauto 10.
Qed.

Lemma text_compare_lt a b : text_compare a b = Lt <-> text_lt a b.
Proof.
  revert b. induction a as [|x a IH]; intros [|y b]; cbn; split; try done.
  - by intros ([|] & [(? & ? & ? & ?)|(? & ? & ? & ? & ? & ? & ?)]).
  - intros _. exists []. left. by eauto.
  - by intros ([|] & [(? & ? & ? & ?)|(? & ? & ? & ? & ? & ? & ?)]).
  - destruct (Z.compare_spec (code x) (code y)) as [E|E|E]; [|intros _|done].
    + apply code_inj in E as ->. intros H. apply text_lt_cons. by apply IH.
    + exists []. right. by repeat eexists.
  - intros [H|[-> H]]%text_lt_uncons; [by rewrite (proj2 (Z.compare_lt_iff _ _))|].
    rewrite Z.compare_refl. by apply IH.
Qed.

Lemma text_ltb_lt a b : text_ltb a b = true <-> text_lt a b.
Proof. rewrite <- text_compare_lt. unfold text_ltb. by destruct (text_compare a b). Qed.

Lemma text_compare_sym a b : text_compare b a = CompOpp (text_compare a b).
Proof.
  revert b. induction a as [|x a IH]; intros [|y b]; cbn; [done..|].
  rewrite (Z.compare_antisym (code x) (code y)). destruct (code x ?= code y); cbn; [apply IH|done|done].
Qed.

Lemma text_compare_eq a b : text_compare a b = Eq -> a = b.
Proof.
  revert b. induction a as [|x a IH]; intros [|y b]; cbn; [done..|].
  destruct (Z.compare_spec (code x) (code y)) as [E|E|E]; [|done|done].
  apply code_inj in E as ->. intros H. by rewrite (IH b H).
Qed.

Lemma text_lt_irrefl a : ~ text_lt a a.
Proof. rewrite <- text_compare_lt. induction a as [|x a IH]; cbn; [done|]. by rewrite Z.compare_refl. Qed.

Lemma text_lt_trans a b c : text_lt a b -> text_lt b c -> text_lt a c.
Proof.
  revert b c. induction a as [|x a IH]; intros [|y b] [|z c] H1 H2; try ((by apply text_compare_lt in H1) || (by apply text_compare_lt in H2)).
  - apply text_compare_lt. done.
  - apply text_lt_uncons in H1 as [H1|[-> H1]]; apply text_lt_uncons in H2 as [H2|[-> H2]].
    + exists []. right. do 4 eexists. split; [done|]. split; [done|]. lia.
    + exists []. right. by repeat eexists.
    + exists []. right. by repeat eexists.
    + apply text_lt_cons. by eapply IH.
Qed.

Lemma text_ltb_total a b : text_ltb a b = false -> text_ltb b a = false -> a = b.
Proof.
  unfold text_ltb. rewrite (text_compare_sym a b). destruct (text_compare a b) eqn:E; [|done|done].
  intros _ _. by apply text_compare_eq.
Qed.

#[export] Instance key_lt_trans : Transitive key_lt.
Proof.
  intros r1 r2 r3 [H1|[E1 H1]] [H2|[E2 H2]]; unfold key_lt.
  - left. by eapply text_lt_trans.
  - left. by rewrite <- E2.
  - left. by rewrite E1.
  - right. split; [congruence|]. by eapply text_lt_trans.
Qed.

Lemma compare_rule_key_lt l r : (0 <=? compare_rule_key l r) = false <-> key_lt l r.
Proof.
  unfold compare_rule_key, key_lt. rewrite <- !text_ltb_lt.
  destruct (text_ltb (r_workload l) (r_workload r)) eqn:E1; [split; auto|].
  destruct (text_ltb (r_workload r) (r_workload l)) eqn:E2.
  { split; [done|]. intros [?|[E _]]; [done|]. exfalso. rewrite E in E2. by apply text_ltb_lt, text_lt_irrefl in E2. }
  pose proof (text_ltb_total _ _ E1 E2). destruct (text_ltb (r_metric l) (r_metric r)) eqn:E3; [split; auto|].
  split; [|by intros [?|[_ ?]]]. by destruct (text_ltb (r_metric r) (r_metric l)).
Qed.

(** ** Lines and fields *)

(** The pieces of a text between the occurrences of a character. *)
Fixpoint pieces (k : ascii) (t : text) : list text :=
  match t with
  | [] => [[]]
  | c :: t =>
      if is_char c k then [] :: pieces k t
      else match pieces k t with p :: ps => (c :: p) :: ps | [] => [[c]] end
  end.

Definition rule_lines (t : text) : list text := List.filter is_rule_line (strip_return <$> pieces newline t).

(** A line that states a rule. *)
Definition rule_line (line : text) (r : Rule) : Prop :=
  exists allowed noise,
    pieces tab line = [r_workload r; r_metric r; word (if r_higher_is_better r then "higher" else "lower");
                       allowed; noise; r_reference_environment r; word (if r_hard r then "hard" else "advisory")] /\
    r_workload r <> [] /\ r_metric r <> [] /\ metric_id (r_metric r) <> invalid_metric /\
    percent_text allowed (r_allowed_regression_ppm r) /\ percent_text noise (r_noise_band_ppm r) /\
    length (r_reference_environment r) = 16%nat /\ Forall (fun c => is_environment_digit c = true) (r_reference_environment r).

(** The text states the rules, in strictly ascending order of their keys. *)
Definition manifest_of (t : text) (rules : list Rule) : Prop :=
  Forall2 rule_line (rule_lines t) rules /\ (length rules <= maximum_rules)%nat /\ StronglySorted key_lt rules.

(** Why a line cannot follow the lines of [rules]. *)
Definition line_fault (rules : list Rule) (line : text) (e : ManifestError) : Prop :=
  let fields P := exists w m d a n v h, pieces tab line = [w; m; d; a; n; v; h] /\ P w m d a n v h in
  match e with
  | too_many_rules => length rules = maximum_rules
  | field_count => length (pieces tab line) <> 7%nat
  | field_value => fields (fun w m _ a n _ _ =>
      w = [] \/ m = [] \/ (forall v, ~ percent_text a v) \/ (forall v, ~ percent_text n v))
  | bad_metric => fields (fun _ m _ _ _ _ _ => metric_id m = invalid_metric)
  | direction => fields (fun _ _ d _ _ _ _ => d <> word "lower" /\ d <> word "higher")
  | bad_reference_environment => fields (fun _ _ _ _ _ v _ =>
      ~ (length v = 16%nat /\ Forall (fun c => is_environment_digit c = true) v))
  | mode => fields (fun _ _ _ _ _ _ h => h <> word "hard" /\ h <> word "advisory")
  | ordering_or_duplicate => exists r previous, rule_line line r /\ list.last rules = Some previous /\ ~ key_lt previous r
  end.

Lemma pieces_cons k t : exists p ps, pieces k t = p :: ps.
Proof. destruct t as [|c t]; cbn; [by eauto|]. repeat case_match; by eauto. Qed.

Lemma field_loop_spec line : forall current fields, (length fields <= 7)%nat -> forall p ps, pieces tab line = p :: ps ->
  field_loop line current fields =
  if bool_decide (length fields + length (pieces tab line) <= 7)%nat then Some (fields ++ (current ++ p) :: ps) else None.
Proof.
  induction line as [|c line IH]; intros current fields Hf p ps Hp; cbn [field_loop].
  - injection Hp as <- <-. rewrite app_nil_r. cbn [pieces length]. repeat case_bool_decide; (done || lia).
  - cbn [pieces] in *. destruct (pieces_cons tab line) as (q & qs & Hq). destruct (is_char c tab).
    + injection Hp as <- <-. rewrite app_nil_r. cbn [length]. case_bool_decide.
      { by rewrite bool_decide_eq_false_2 by lia. }
      rewrite (IH [] (fields ++ [current])) with (p := q) (ps := qs) by (rewrite ?length_app; cbn; (done || lia)).
      rewrite length_app, <- app_assoc, Hq. cbn. repeat case_bool_decide; (done || lia).
    + rewrite Hq in Hp |- *. injection Hp as <- <-. rewrite (IH (current ++ [c]) fields) with (p := q) (ps := qs) by done.
      rewrite Hq, <- app_assoc. cbn. done.
Qed.

Lemma fields_spec line :
  field_loop line [] [] = if bool_decide (length (pieces tab line) <= 7)%nat then Some (pieces tab line) else None.
Proof.
  destruct (pieces_cons tab line) as (p & ps & Hp). rewrite (field_loop_spec line [] []) with (p := p) (ps := ps); [|cbn; lia|done].
  rewrite Hp. done.
Qed.

(** A text cut at its first line feed. *)
Lemma pieces_line l r : Forall (fun c => negb (is_char c newline) = true) l ->
  (r = [] -> pieces newline (l ++ r) = [l]) /\
  (forall k, r = newline :: k -> pieces newline (l ++ r) = l :: pieces newline k).
Proof.
  induction 1 as [|c l Hc Hl [IH1 IH2]]; cbn.
  - split; [by intros ->|]. by intros k ->.
  - apply negb_true_iff in Hc. rewrite Hc. split; [by intros E; rewrite IH1|]. intros k E. by rewrite (IH2 k).
Qed.

Definition follows (rules : list Rule) (r : Rule) : Prop :=
  forall previous, list.last rules = Some previous -> key_lt previous r.

Lemma forallb_Forall {A} (f : A -> bool) l : forallb f l = true <-> Forall (fun x => f x = true) l.
Proof. induction l as [|x l IH]; cbn; [done|]. by rewrite andb_true_iff, Forall_cons, IH. Qed.

Lemma percent_none s : parse_percent_ppm s = None -> forall v, ~ percent_text s v.
Proof. intros E v H%percent_exact. by rewrite E in H. Qed.

Lemma seven_fields line : length (pieces tab line) = 7%nat ->
  exists w m d a n v h, pieces tab line = [w; m; d; a; n; v; h].
Proof.
  destruct (pieces tab line) as [|w [|m [|d [|a [|n [|v [|h [|? ?]]]]]]]]; try done. intros _. by repeat eexists.
Qed.

Lemma parse_rule_complete rules line r :
  length rules <> maximum_rules -> rule_line line r -> follows rules r -> parse_rule rules line = inr r.
Proof.
  intros Hn (a & n & Hp & Hw & Hm & Hid & Ha%percent_exact & Hb%percent_exact & Hl & He) Hf.
  unfold parse_rule. rewrite bool_decide_eq_false_2 by done. rewrite fields_spec, Hp, bool_decide_eq_true_2 by (cbn; lia).
  rewrite (bool_decide_eq_false_2 (r_workload r = [])), (bool_decide_eq_false_2 (r_metric r = [])) by done.
  rewrite Ha, Hb. cbn [orb]. rewrite bool_decide_eq_false_2 by done.
  replace (if bool_decide (word (if r_higher_is_better r then _ else _) = _) then _ else _) with (Some (r_higher_is_better r))
    by (by destruct (r_higher_is_better r)).
  rewrite bool_decide_eq_true_2 by done. cbn [negb].
  rewrite (proj2 (forallb_Forall _ _) He). cbn [negb].
  replace (if bool_decide (word (if r_hard r then _ else _) = _) then _ else _) with (Some (r_hard r)) by (by destruct (r_hard r)).
  destruct r as [w m h al nb en hd]. cbn in *. destruct (list.last rules) as [previous|] eqn:El; [|done].
  by rewrite (proj2 (compare_rule_key_lt _ _) (Hf previous El)).
Qed.

(** Name the seven fields of a line. *)
#[local] Ltac seven H := hnf; do 7 eexists; split; [exact H|].

Lemma parse_rule_sound rules line :
  match parse_rule rules line with
  | inr r => length rules <> maximum_rules /\ rule_line line r /\ follows rules r
  | inl e => line_fault rules line e
  end.
Proof.
  unfold parse_rule. case_bool_decide as Hn; [done|]. rewrite fields_spec.
  destruct (decide (length (pieces tab line) = 7%nat)) as [H7|H7].
  2:{ case_bool_decide; [|done]. destruct (pieces tab line) as [|? [|? [|? [|? [|? [|? [|? [|? ?]]]]]]]] eqn:E; cbn; by rewrite ?E. }
  destruct (seven_fields line H7) as (w & m & d & a & n & v & h & Hp). rewrite Hp, bool_decide_eq_true_2 by (cbn; lia).
  case_bool_decide as Hw; [seven Hp; by auto|]. case_bool_decide as Hm; [seven Hp; by auto|]. cbn [orb].
  destruct (parse_percent_ppm a) as [al|] eqn:Ea; [|seven Hp; by eauto using percent_none].
  destruct (parse_percent_ppm n) as [nb|] eqn:En; [|seven Hp; by eauto using percent_none].
  case_bool_decide as Hid; [by seven Hp|].
  destruct (if bool_decide (d = word "lower") then _ else _) as [higher|] eqn:Ed.
  2:{ repeat case_bool_decide; try done. by seven Hp. }
  destruct (bool_decide (length v = 16%nat)) eqn:Hl; cbn [negb].
  2:{ apply bool_decide_eq_false in Hl. seven Hp. by intros [? _]. }
  apply bool_decide_eq_true in Hl.
  destruct (forallb is_environment_digit v) eqn:Ev; cbn [negb].
  2:{ seven Hp. intros [_ Hf%forallb_Forall]. by rewrite Hf in Ev. }
  destruct (if bool_decide (h = word "hard") then _ else _) as [hard|] eqn:Eh.
  2:{ clear Ed. repeat case_bool_decide; try done. by seven Hp. }
  assert (Hr : rule_line line (MkRule w m higher al nb v hard)).
  { exists a, n. cbn. split; [|by rewrite <- !percent_exact, <- forallb_Forall].
    rewrite Hp. repeat case_bool_decide; by simplify_eq. }
  destruct (list.last rules) as [previous|] eqn:El.
  - destruct (0 <=? compare_rule_key _ _) eqn:Ec.
    + exists (MkRule w m higher al nb v hard), previous. split; [done|]. split; [done|].
      rewrite <- compare_rule_key_lt. by rewrite Ec.
    + split; [done|]. split; [done|]. intros p Hp'. rewrite El in Hp'. injection Hp' as <-. by apply compare_rule_key_lt.
  - split; [done|]. split; [done|]. intros p Hp'. by rewrite El in Hp'.
Qed.

(** ** The whole text *)
Fixpoint add_rules (rules : list Rule) (lines : list text) : ManifestError + list Rule :=
  match lines with
  | [] => inr rules
  | line :: lines =>
      match parse_rule rules line with inl e => inl e | inr rule => add_rules (rules ++ [rule]) lines end
  end.

Lemma first_line (t : text) : t <> [] ->
  let n := span_while (fun c => negb (is_char c newline)) t in
  (n <= length t)%nat /\
  pieces newline t = take n t :: (if bool_decide (n < length t)%nat then pieces newline (drop (S n) t) else []).
Proof.
  intros Hne n. destruct (span_while_spec (fun c => negb (is_char c newline)) t) as (r & Ht & Hl & Hn & Hr). fold n in Ht, Hl, Hn.
  split; [done|]. destruct (pieces_line (take n t) r Hl) as [H1 H2]. rewrite <- Ht in H1, H2.
  assert (Hlen : length t = (n + length r)%nat) by (rewrite Ht at 1; rewrite length_app, length_take; lia).
  destruct r as [|c r].
  - rewrite bool_decide_eq_false_2 by (cbn in Hlen; lia). by rewrite H1.
  - rewrite bool_decide_eq_true_2 by (cbn in Hlen; lia).
    assert (c = newline) as -> by (apply is_char_true, negb_false_iff; by apply (Hr c r)).
    rewrite (H2 r eq_refl). do 2 f_equal.
    assert (Hd : drop n t = newline :: r) by (apply (app_inv_head (take n t)); by rewrite take_drop).
    replace (S n) with (n + 1)%nat by lia. by rewrite <- drop_drop, Hd.
Qed.

Lemma manifest_loop_spec fuel storage : forall begin rules, (begin <= length storage)%nat -> (length storage - begin < fuel)%nat ->
  manifest_loop fuel storage begin rules = Ret (add_rules rules (rule_lines (drop begin storage))).
Proof.
  induction fuel as [|fuel IH]; intros begin rules Hb Hf; [lia|]. cbn [manifest_loop].
  case_bool_decide as Hlt; cbn [negb]; [|by rewrite drop_ge by lia].
  set (t := drop begin storage). assert (Hlen : length t = (length storage - begin)%nat) by apply length_drop.
  destruct (first_line t) as [Hn Hp]; [intros E; rewrite E in Hlen; cbn in Hlen; lia|].
  set (n := span_while _ t) in *. replace (begin + n - begin)%nat with n by lia.
  assert (Hnext : exists next, next = (if bool_decide (begin + n < length storage)%nat then S (begin + n) else length storage) /\
    (begin < next <= length storage)%nat /\
    rule_lines t = List.filter is_rule_line [strip_return (take n t)] ++ rule_lines (drop next storage)).
  { eexists. split; [reflexivity|]. unfold rule_lines at 1. rewrite Hp, fmap_cons. case_bool_decide as Hc.
    - rewrite bool_decide_eq_true_2 by lia. split; [lia|]. subst t. rewrite drop_drop.
      replace (begin + S n)%nat with (S (begin + n)) by lia. unfold rule_lines. cbn. by case_match.
    - rewrite bool_decide_eq_false_2 by lia. split; [lia|]. rewrite (drop_ge storage) by lia. cbn. by case_match. }
  destruct Hnext as (next & <- & Hnext & ->). cbn [List.filter].
  destruct (is_rule_line (strip_return (take n t))); cbn [app add_rules]; [|apply IH; lia].
  destruct (parse_rule rules _); [done|]. apply IH; lia.
Qed.

Lemma last_snoc_follows rules r : StronglySorted key_lt rules -> follows rules r -> StronglySorted key_lt (rules ++ [r]).
Proof.
  intros Hs Hf. apply StronglySorted_app. split; [|by split; [done|repeat constructor]].
  intros a b Ha Hb. apply list_elem_of_singleton in Hb as ->.
  destruct rules as [|p rules _] using rev_ind; [by apply not_elem_of_nil in Ha|].
  specialize (Hf p (last_snoc _ _)). apply elem_of_app in Ha as [Ha|Ha].
  - apply StronglySorted_app in Hs as (Hs & _ & _). transitivity p; [|done]. apply Hs; [done|]. by apply list_elem_of_singleton.
  - by apply list_elem_of_singleton in Ha as ->.
Qed.

(** What [add_rules] returns, [done] being the lines the rules so far came from. *)
Lemma add_rules_sound lines : forall before rules,
  Forall2 rule_line before rules -> (length rules <= maximum_rules)%nat -> StronglySorted key_lt rules ->
  match add_rules rules lines with
  | inr all => Forall2 rule_line (before ++ lines) all /\ (length all <= maximum_rules)%nat /\ StronglySorted key_lt all
  | inl e => exists front line after accepted, before ++ lines = front ++ line :: after /\
      Forall2 rule_line front accepted /\ StronglySorted key_lt accepted /\ line_fault accepted line e
  end.
Proof.
  induction lines as [|line lines IH]; intros before rules Hb Hl Hs; cbn [add_rules]; [by rewrite app_nil_r|].
  pose proof (parse_rule_sound rules line) as Hr. destruct (parse_rule rules line) as [e|r].
  - by exists before, line, lines, rules.
  - destruct Hr as (Hn & Hline & Hf). change (line :: lines) with ([line] ++ lines). rewrite (app_assoc before). apply IH.
    + by apply Forall2_app; [|constructor].
    + rewrite length_app. cbn. lia.
    + by apply last_snoc_follows.
Qed.

Lemma add_rules_complete lines : forall rules more,
  Forall2 rule_line lines more -> (length (rules ++ more) <= maximum_rules)%nat -> StronglySorted key_lt (rules ++ more) ->
  add_rules rules lines = inr (rules ++ more).
Proof.
  induction lines as [|line lines IH]; intros rules more Hm Hl Hs.
  - apply Forall2_nil_inv_l in Hm as ->. by rewrite app_nil_r.
  - apply Forall2_cons_inv_l in Hm as (r & more' & Hr & Hm & ->). cbn [add_rules].
    rewrite (parse_rule_complete rules line r); [|rewrite length_app in Hl; cbn in Hl; lia|done|].
    + change (r :: more') with ([r] ++ more') in *. rewrite (app_assoc rules) in *. by apply IH.
    + intros p Hp. apply StronglySorted_app in Hs as (Hs & _ & _). apply Hs; [|by left].
      by apply last_Some_elem_of.
Qed.

(** C38: [parse_manifest] ends on every text and accepts exactly the manifests: a text is
    accepted with the rules [rules] when its lines other than comments and empty ones (a
    carriage return before the line feed is dropped) state these rules in order, there are at
    most 128 of them and their keys (workload, metric) ascend strictly, so no two are equal.
    Otherwise the error names the fault of the first line that cannot follow the accepted
    ones. *)
Theorem parse_manifest_exact (t : text) :
  exists result, parse_manifest_text t = Ret result /\
    match result with
    | inr rules => manifest_of t rules
    | inl e => (forall rules, ~ manifest_of t rules) /\
        exists front line after accepted, rule_lines t = front ++ line :: after /\
          Forall2 rule_line front accepted /\ StronglySorted key_lt accepted /\ line_fault accepted line e
    end.
Proof.
  unfold parse_manifest_text. rewrite manifest_loop_spec by lia. rewrite drop_0. eexists. split; [reflexivity|].
  pose proof (add_rules_sound (rule_lines t) [] []) as H. cbn [app] in H.
  destruct (add_rules [] (rule_lines t)) as [e|rules] eqn:E.
  - split; [|by apply H; [constructor|cbn; lia|constructor]].
    intros rules (H1 & H2 & H3). by rewrite (add_rules_complete _ [] rules H1 H2 H3) in E.
  - apply H; [constructor|cbn; lia|constructor].
Qed.
