(* ===== verification/Artifact.v ===== *)
(** * Benchmark artifacts

    Models the reading of a benchmark artifact in [bench/evaluator.cpp]: the [required_]
    functions, [load_samples], the three [load_..._metric] functions, [load_artifact] on the
    text of its file, [equal_configuration], [hash_append],
    [environment_hash] and [hex_environment].  A [const JsonNode*] is the index of the node;
    output parameters are results; the code stops at the first failing requirement, with the
    name of the group it belongs to. *)
From S2P Require Import Prelude Json JsonSpec Regression Manifest.
From Stdlib Require Import ZArith Lia Ascii String.
From stdpp Require Import base numbers list option.

Set Default Goal Selector "!".
#[local] Open Scope Z_scope.
#[local] Open Scope laghu_scope.

(** ** Fields of objects *)
Definition object_field (d : JsonDocument) (p : option nat) (key : text) : option nat := field d p key.

Definition required_object (d : JsonDocument) (p : option nat) (key : text) : option nat :=
  let output := object_field d p key in
  if has_type d output object then output else None.

Definition required_array (d : JsonDocument) (p : option nat) (key : text) : option nat :=
  let output := object_field d p key in
  if has_type d output array then output else None.

Definition required_string (d : JsonDocument) (p : option nat) (key : text) : option text :=
  let value := object_field d p key in
  if negb (has_type d value string_value) then None else
  n ← node_at d value;
  if bool_decide (jn_string n = []) then None else Some (jn_string n).

Definition required_number (d : JsonDocument) (p : option nat) (key : text) : option Z :=
  let value := object_field d p key in
  if negb (has_type d value number) then None else
  n ← node_at d value;
  Some (jn_number n).

Definition required_boolean (d : JsonDocument) (p : option nat) (key : text) : option bool :=
  let value := object_field d p key in
  if negb (has_type d value boolean) then None else
  n ← node_at d value;
  Some (jn_boolean n).

(** [node->raw] *)
Definition raw_of (d : JsonDocument) (p : nat) : text := from_option jn_raw [] (jd_nodes d !! p).

(** ** Metrics *)
Definition load_sample (d : JsonDocument) (samples : nat) (index : nat) : option Z :=
  let sample := element d (Some samples) index in
  if negb (has_type d sample number) then None else
  n ← node_at d sample;
  Some (jn_number n).

(** The count is between the limits and the number of intervals. *)
Definition count_fits (count : nat) (intervals : Z) : bool :=
  bool_decide (minimum_samples <= count)%nat && bool_decide (count <= maximum_samples)%nat &&
  (Z.of_nat count =? intervals).

Definition load_samples (d : JsonDocument) (metric : nat) (key : text) (intervals : Z) : option MetricSeries :=
  samples ← required_array d (Some metric) key;
  let count := element_count d (Some samples) in
  if negb (count_fits count intervals) then None else
  values ← mapM (load_sample d samples) (seq 0 count);
  Some (MkMetricSeries values true []).

Definition unavailable_series (reason : text) : MetricSeries := MkMetricSeries [] false reason.

Definition load_host_metric (d : JsonDocument) (metrics : nat) (key samples_key : text) (intervals : Z) : option MetricSeries :=
  metric ← required_object d (Some metrics) key;
  status ← required_string d (Some metric) (word "status");
  if bool_decide (status = word "unavailable") then
    unavailable_series <$> required_string d (Some metric) (word "reason")
  else if bool_decide (status = word "available") then
    _ ← required_number d (Some metric) (word "value");
    load_samples d metric samples_key intervals
  else None.

Definition load_counter_metric (d : JsonDocument) (metrics : nat) (key : text) (intervals : Z) : option MetricSeries :=
  metric ← required_object d (Some metrics) key;
  instrumented ← required_boolean d (Some metric) (word "instrumented");
  _ ← required_number d (Some metric) (word "value");
  status ← required_string d (Some metric) (word "status");
  if negb instrumented then
    if bool_decide (status = word "unavailable")
    then unavailable_series <$> required_string d (Some metric) (word "reason") else None
  else if bool_decide (status = word "available")
  then load_samples d metric (word "samples_count") intervals else None.

Definition load_latency_metric (d : JsonDocument) (metrics : nat) (intervals : Z) : option MetricSeries :=
  metric ← required_object d (Some metrics) (word "latency_ns_per_interval");
  _ ← required_number d (Some metric) (word "p50");
  _ ← required_number d (Some metric) (word "p95");
  _ ← required_number d (Some metric) (word "p99");
  _ ← required_number d (Some metric) (word "p99_9");
  load_samples d metric (word "samples_ns") intervals.

(** ** Artifacts *)
Record Artifact := MkArtifact {
  a_build_id : text;
  a_compiler_id : text;
  a_compiler_version : text;
  a_standard_library_id : text;
  a_standard_library_version : text;
  a_profile : text;
  a_hardening : text;
  a_sanitizer_profile : text;
  a_target_architecture : text;
  a_target_os : text;
  a_cpu_description : text;
  a_cpu_description_available : bool;
  a_dependencies : text;
  a_features : text;
  a_parameters : text;
  a_workload : text;
  a_workload_checksum : Z;
  a_metrics : list MetricSeries }.

(** The index of a metric is its position in the enumeration. *)
Definition metric_index (metric : MetricId) : nat :=
  match metric with
  | latency => 0 | throughput => 1 | cpu_time => 2 | peak_rss => 3 | allocation => 4 | laghu_syscall => 5
  | count_metric => 6 | invalid_metric => 7
  end.

(** A requirement whose failure ends the load with the error [e]. *)
Definition ensure {A B} (e : text) (m : option A) (k : A -> text + B) : text + B :=
  match m with Some a => k a | None => inl e end.
Notation "'REQUIRE' p ⇐ m 'ELSE' e 'IN' k" := (ensure (word e) m (fun p => k))
  (at level 100, p strict pattern, m at level 90, e at level 0, k at level 100) : laghu_scope.
#[local] Open Scope laghu_scope.

(** The description of the processor: [Some None] when it is unavailable, with a reason. *)
Definition load_cpu_description (d : JsonDocument) (description : nat) : option (option text) :=
  cpu_status ← required_string d (Some description) (word "status");
  if bool_decide (cpu_status = word "available") then
    Some <$> required_string d (Some description) (word "value")
  else if bool_decide (cpu_status = word "unavailable") then
    _ ← required_string d (Some description) (word "reason");
    Some None
  else None.

Definition load_intervals (d : JsonDocument) (parameters : nat) : option Z :=
  intervals ← required_number d (Some parameters) (word "intervals");
  if (intervals <? Z.of_nat minimum_samples) || (Z.of_nat maximum_samples <? intervals) then None else Some intervals.

Definition load_artifact_document (d : JsonDocument) : text + Artifact :=
  if negb (has_type d (root d) object) then inl (word "root") else
  let root := root d in
  REQUIRE schema ⇐ required_string d root (word "schema_version") ELSE "schema_version" IN
  if negb (bool_decide (schema = word "laghu-benchmark-v1")) then inl (word "schema_version") else
  REQUIRE build ⇐ required_object d root (word "build") ELSE "build" IN
  REQUIRE build_id ⇐ required_string d (Some build) (word "build_id") ELSE "build" IN
  REQUIRE compiler ⇐ required_object d (Some build) (word "compiler") ELSE "build" IN
  REQUIRE compiler_id ⇐ required_string d (Some compiler) (word "id") ELSE "build" IN
  REQUIRE compiler_version ⇐ required_string d (Some compiler) (word "version") ELSE "build" IN
  REQUIRE standard_library ⇐ required_object d (Some build) (word "standard_library") ELSE "build" IN
  REQUIRE standard_library_id ⇐ required_string d (Some standard_library) (word "id") ELSE "build" IN
  REQUIRE standard_library_version ⇐ required_string d (Some standard_library) (word "version") ELSE "build" IN
  REQUIRE profile ⇐ required_string d (Some build) (word "profile") ELSE "build" IN
  REQUIRE hardening ⇐ required_object d (Some build) (word "hardening") ELSE "build" IN
  REQUIRE sanitizer_profile ⇐ required_string d (Some build) (word "sanitizer_profile") ELSE "build" IN
  REQUIRE target ⇐ required_object d (Some build) (word "target") ELSE "build" IN
  REQUIRE target_architecture ⇐ required_string d (Some target) (word "architecture") ELSE "build" IN
  REQUIRE target_os ⇐ required_string d (Some target) (word "os") ELSE "build" IN
  REQUIRE dependencies ⇐ required_array d (Some build) (word "dependencies") ELSE "build" IN
  REQUIRE features ⇐ required_array d (Some build) (word "features") ELSE "build" IN
  REQUIRE cpu ⇐ required_object d root (word "cpu") ELSE "cpu_description" IN
  REQUIRE description ⇐ required_object d (Some cpu) (word "description") ELSE "cpu_description" IN
  REQUIRE cpu_description ⇐ load_cpu_description d description ELSE "cpu_description" IN
  REQUIRE parameters ⇐ required_object d root (word "parameters") ELSE "parameters" IN
  REQUIRE intervals ⇐ load_intervals d parameters ELSE "parameters" IN
  REQUIRE operations ⇐ required_number d (Some parameters) (word "operations_per_interval") ELSE "parameters" IN
  REQUIRE warmup ⇐ required_number d (Some parameters) (word "warmup") ELSE "parameters" IN
  REQUIRE workload ⇐ required_string d root (word "workload") ELSE "parameters" IN
  REQUIRE workload_checksum ⇐ required_number d root (word "workload_checksum") ELSE "parameters" IN
  REQUIRE metrics ⇐ required_object d root (word "metrics") ELSE "metrics" IN
  REQUIRE m_allocation ⇐ load_counter_metric d metrics (word "allocation_count") intervals ELSE "metrics" IN
  REQUIRE m_cpu_time ⇐ load_host_metric d metrics (word "cpu_time_ns") (word "samples_ns") intervals ELSE "metrics" IN
  REQUIRE m_syscall ⇐ load_counter_metric d metrics (word "laghu_syscall_count") intervals ELSE "metrics" IN
  REQUIRE m_latency ⇐ load_latency_metric d metrics intervals ELSE "metrics" IN
  REQUIRE m_peak_rss ⇐ load_host_metric d metrics (word "peak_rss_bytes") (word "samples_bytes") intervals ELSE "metrics" IN
  REQUIRE m_throughput ⇐ load_host_metric d metrics (word "throughput_operations_per_second")
    (word "samples_operations_per_second") intervals ELSE "metrics" IN
  inr (MkArtifact build_id compiler_id compiler_version standard_library_id standard_library_version profile
    (raw_of d hardening) sanitizer_profile target_architecture target_os
    (default [] cpu_description) (bool_decide (is_Some cpu_description)) (raw_of d dependencies) (raw_of d features)
    (raw_of d parameters) workload workload_checksum
    [m_latency; m_throughput; m_cpu_time; m_peak_rss; m_allocation; m_syscall]).

(** [load_artifact] once the file has been read into the document. *)
Definition load_artifact_text (t : text) : outcome (text + Artifact) :=
  document ← load_text t;
  Ret (match document with None => inl (word "document") | Some d => load_artifact_document d end).

(** ** Comparing artifacts *)
Definition differ (a b : text) : bool := negb (bool_decide (a = b)).

(** [None] is [true]; otherwise the error. *)
Definition equal_configuration (baseline candidate : Artifact) : option text :=
  if differ (a_target_architecture baseline) (a_target_architecture candidate) ||
     differ (a_target_os baseline) (a_target_os candidate) then Some (word "target")
  else if differ (a_compiler_id baseline) (a_compiler_id candidate) ||
     differ (a_compiler_version baseline) (a_compiler_version candidate) ||
     differ (a_standard_library_id baseline) (a_standard_library_id candidate) ||
     differ (a_standard_library_version baseline) (a_standard_library_version candidate) ||
     differ (a_profile baseline) (a_profile candidate) || differ (a_hardening baseline) (a_hardening candidate) ||
     differ (a_sanitizer_profile baseline) (a_sanitizer_profile candidate) ||
     differ (a_features baseline) (a_features candidate) ||
     differ (a_dependencies baseline) (a_dependencies candidate) then Some (word "build")
  else if negb (a_cpu_description_available baseline) || negb (a_cpu_description_available candidate)
  then Some (word "hardware_identity_unavailable")
  else if differ (a_cpu_description baseline) (a_cpu_description candidate) then Some (word "hardware")
  else if differ (a_workload baseline) (a_workload candidate) ||
     negb (a_workload_checksum baseline =? a_workload_checksum candidate) ||
     differ (a_parameters baseline) (a_parameters candidate) then Some (word "workload")
  else None.

(** ** The reference environment *)
Definition hash_append (value : Z) (input : text) : Z :=
  let value := foldl (fun value c => u64 (Z.lxor value (code c) * 1099511628211)) value input in
  u64 (Z.lxor value 255 * 1099511628211).

Definition environment_hash (a : Artifact) : Z :=
  foldl hash_append 1469598103934665603
    [a_target_os a; a_target_architecture a; a_cpu_description a; a_compiler_id a; a_compiler_version a;
     a_standard_library_id a; a_standard_library_version a; a_profile a; a_hardening a; a_sanitizer_profile a;
     a_features a; a_dependencies a].

Definition hex_digits : text := word "0123456789abcdef".

(** The sixteen characters; the terminating zero is never read. *)
Definition hex_environment (value : Z) : text :=
  (fun index => nth (Z.to_nat (Z.land (Z.shiftr value ((15 - Z.of_nat index) * 4)) 15)) hex_digits "0"%char) <$> seq 0 16.

(** * What the evaluator reads from an artifact

    [tree_artifact] describes the artifact a JSON value holds, without tables or indices, and
    the theorems say that [load_artifact] computes it, that the series it returns are well
    formed, that compatible artifacts have the same reference environment, and that the
    printed environment determines the hash. *)

(** ** Reading a tree *)
Definition member (v : json) (key : text) : option json :=
  match v with JObject kvs => JsonSpec.assoc key kvs | _ => None end.

Definition tree_object (v : json) (key : text) : option json :=
  match member v key with Some (JObject kvs) => Some (JObject kvs) | _ => None end.
Definition tree_array (v : json) (key : text) : option json :=
  match member v key with Some (JArray vs) => Some (JArray vs) | _ => None end.
Definition tree_string (v : json) (key : text) : option text :=
  match member v key with Some (JString (c :: s)) => Some (c :: s) | _ => None end.
Definition tree_number (v : json) (key : text) : option Z :=
  match member v key with Some (JNumber n) => Some n | _ => None end.
Definition tree_boolean (v : json) (key : text) : option bool :=
  match member v key with Some (JBool b) => Some b | _ => None end.

Definition number_of (v : json) : option Z := match v with JNumber n => Some n | _ => None end.

Definition tree_samples (metric : json) (key : text) (intervals : Z) : option MetricSeries :=
  match tree_array metric key with
  | Some (JArray vs) =>
      if count_fits (length vs) intervals
      then (fun values => MkMetricSeries values true []) <$> mapM number_of vs else None
  | _ => None
  end.

Definition tree_unavailable (metric : json) : option MetricSeries :=
  unavailable_series <$> tree_string metric (word "reason").

Definition tree_host_metric (metrics : json) (key samples_key : text) (intervals : Z) : option MetricSeries :=
  metric ← tree_object metrics key;
  status ← tree_string metric (word "status");
  if bool_decide (status = word "unavailable") then tree_unavailable metric
  else if bool_decide (status = word "available") then
    _ ← tree_number metric (word "value"); tree_samples metric samples_key intervals
  else None.

Definition tree_counter_metric (metrics : json) (key : text) (intervals : Z) : option MetricSeries :=
  metric ← tree_object metrics key;
  instrumented ← tree_boolean metric (word "instrumented");
  _ ← tree_number metric (word "value");
  status ← tree_string metric (word "status");
  match instrumented : bool with
  | false => if bool_decide (status = word "unavailable") then tree_unavailable metric else None
  | true => if bool_decide (status = word "available") then tree_samples metric (word "samples_count") intervals else None
  end.

Definition tree_latency_metric (metrics : json) (intervals : Z) : option MetricSeries :=
  metric ← tree_object metrics (word "latency_ns_per_interval");
  _ ← tree_number metric (word "p50"); _ ← tree_number metric (word "p95");
  _ ← tree_number metric (word "p99"); _ ← tree_number metric (word "p99_9");
  tree_samples metric (word "samples_ns") intervals.

Definition tree_cpu_description (description : json) : option (option text) :=
  status ← tree_string description (word "status");
  if bool_decide (status = word "available") then Some <$> tree_string description (word "value")
  else if bool_decide (status = word "unavailable") then _ ← tree_string description (word "reason"); Some None
  else None.

Definition tree_intervals (parameters : json) : option Z :=
  intervals ← tree_number parameters (word "intervals");
  if (10 <=? intervals) && (intervals <=? 1000) then Some intervals else None.

(** What an artifact says; the parts the evaluator compares by their text are trees. *)
Record Reading := MkReading {
  rd_artifact : text -> text -> text -> text -> Artifact;
  rd_hardening : json; rd_dependencies : json; rd_features : json; rd_parameters : json }.

Definition tree_artifact (v : json) : text + Reading :=
  REQUIRE _ ⇐ (match v with JObject _ => Some () | _ => None end) ELSE "root" IN
  REQUIRE schema ⇐ tree_string v (word "schema_version") ELSE "schema_version" IN
  if negb (bool_decide (schema = word "laghu-benchmark-v1")) then inl (word "schema_version") else
  REQUIRE build ⇐ tree_object v (word "build") ELSE "build" IN
  REQUIRE build_id ⇐ tree_string build (word "build_id") ELSE "build" IN
  REQUIRE compiler ⇐ tree_object build (word "compiler") ELSE "build" IN
  REQUIRE compiler_id ⇐ tree_string compiler (word "id") ELSE "build" IN
  REQUIRE compiler_version ⇐ tree_string compiler (word "version") ELSE "build" IN
  REQUIRE library ⇐ tree_object build (word "standard_library") ELSE "build" IN
  REQUIRE library_id ⇐ tree_string library (word "id") ELSE "build" IN
  REQUIRE library_version ⇐ tree_string library (word "version") ELSE "build" IN
  REQUIRE profile ⇐ tree_string build (word "profile") ELSE "build" IN
  REQUIRE hardening ⇐ tree_object build (word "hardening") ELSE "build" IN
  REQUIRE sanitizer ⇐ tree_string build (word "sanitizer_profile") ELSE "build" IN
  REQUIRE target ⇐ tree_object build (word "target") ELSE "build" IN
  REQUIRE architecture ⇐ tree_string target (word "architecture") ELSE "build" IN
  REQUIRE os ⇐ tree_string target (word "os") ELSE "build" IN
  REQUIRE dependencies ⇐ tree_array build (word "dependencies") ELSE "build" IN
  REQUIRE features ⇐ tree_array build (word "features") ELSE "build" IN
  REQUIRE cpu ⇐ tree_object v (word "cpu") ELSE "cpu_description" IN
  REQUIRE description ⇐ tree_object cpu (word "description") ELSE "cpu_description" IN
  REQUIRE processor ⇐ tree_cpu_description description ELSE "cpu_description" IN
  REQUIRE parameters ⇐ tree_object v (word "parameters") ELSE "parameters" IN
  REQUIRE intervals ⇐ tree_intervals parameters ELSE "parameters" IN
  REQUIRE _ ⇐ tree_number parameters (word "operations_per_interval") ELSE "parameters" IN
  REQUIRE _ ⇐ tree_number parameters (word "warmup") ELSE "parameters" IN
  REQUIRE workload ⇐ tree_string v (word "workload") ELSE "parameters" IN
  REQUIRE checksum ⇐ tree_number v (word "workload_checksum") ELSE "parameters" IN
  REQUIRE metrics ⇐ tree_object v (word "metrics") ELSE "metrics" IN
  REQUIRE m_allocation ⇐ tree_counter_metric metrics (word "allocation_count") intervals ELSE "metrics" IN
  REQUIRE m_cpu ⇐ tree_host_metric metrics (word "cpu_time_ns") (word "samples_ns") intervals ELSE "metrics" IN
  REQUIRE m_syscall ⇐ tree_counter_metric metrics (word "laghu_syscall_count") intervals ELSE "metrics" IN
  REQUIRE m_latency ⇐ tree_latency_metric metrics intervals ELSE "metrics" IN
  REQUIRE m_rss ⇐ tree_host_metric metrics (word "peak_rss_bytes") (word "samples_bytes") intervals ELSE "metrics" IN
  REQUIRE m_throughput ⇐ tree_host_metric metrics (word "throughput_operations_per_second")
    (word "samples_operations_per_second") intervals ELSE "metrics" IN
  inr (MkReading
    (fun hardening dependencies features parameters =>
       MkArtifact build_id compiler_id compiler_version library_id library_version profile hardening sanitizer
         architecture os (default [] processor) (match processor with Some _ => true | None => false end)
         dependencies features parameters workload checksum
         [m_latency; m_throughput; m_cpu; m_rss; m_allocation; m_syscall])
    hardening dependencies features parameters).

(** The artifact holds what was read, with a text of each of the four parts. *)
Definition text_of (v : json) (t : text) : Prop := exists depth, json_text depth v t.
Definition reads_as (a : Artifact) (r : Reading) : Prop :=
  exists h d f p, a = rd_artifact r h d f p /\ text_of (rd_hardening r) h /\ text_of (rd_dependencies r) d /\
    text_of (rd_features r) f /\ text_of (rd_parameters r) p.

(** ** Nodes against trees *)
Definition type_of (v : json) : JsonType :=
  match v with
  | JNull => null_value | JBool _ => boolean | JNumber _ => number | JString _ => string_value
  | JArray _ => array | JObject _ => object
  end.

(** What the node of a scalar holds. *)
Definition holds (v : json) (n : JsonNode) : Prop :=
  match v with
  | JBool b => jn_boolean n = b
  | JNumber k => jn_number n = k /\ 0 <= k <= u64_max
  | JString s => jn_string n = s
  | _ => True
  end.

Lemma number_text_range ds : number_text ds -> 0 <= decimal ds <= u64_max.
Proof. intros (Hd & Hmax & _). split; [|done]. apply (digits_from_mono 0 ds); [lia|done]. Qed.

Lemma rep_node d lo hi i v : rep d lo hi i v ->
  exists n, jd_nodes d !! i = Some n /\ jn_type n = type_of v /\ holds v n /\ text_of v (jn_raw n).
Proof.
  intros H. destruct H as [i n (_ & E & Ht & Hr)|i n (_ & E & Ht & Hr)|i n (_ & E & Ht & Hr)|i n (_ & E & Ht & Hr)
    |i n vs (_ & E & Ht & Hr) _|i n kvs (_ & E & Ht & Hr) _]; exists n; try done.
  split; [done|]. split; [done|]. split; [|done]. split; [done|].
  destruct Hr as [depth Hr]. inversion Hr. subst.
  by apply number_text_range.
Qed.

Section reading.
Context (d : JsonDocument) (hi : nat) (Hhi : (hi <= jd_node_count d)%nat).
Abbreviation R := (rep d 0 hi).

Lemma has_type_rep i v type : R i v -> has_type d (Some i) type = bool_decide (type_of v = type).
Proof. intros (n & E & Ht & _)%rep_node. unfold has_type. by rewrite E, Ht. Qed.

Lemma field_member i v key : R i v -> option_Forall2 R (object_field d (Some i) key) (member v key).
Proof.
  intros Hr. destruct (access_spec d 0 hi i v Hr Hhi) as [Hf _]. specialize (Hf key). unfold object_field.
  destruct v; cbn [member]; try (rewrite Hf; constructor).
  destruct (JsonSpec.assoc key kvs) as [w|]; [destruct Hf as (j & -> & Hj)|rewrite Hf]; by constructor.
Qed.

(** Split on what the field holds: nothing, or a node with the value of the tree. *)
#[local] Ltac at_field Hr key :=
  let j := fresh "j" in let w := fresh "w" in let Hj := fresh "Hj" in
  destruct (field_member _ _ key Hr) as [j w Hj|]; [|(done || constructor)]; rewrite ?(has_type_rep j w _ Hj).

Lemma required_object_tree i v key : R i v -> option_Forall2 R (required_object d (Some i) key) (tree_object v key).
Proof. intros Hr. unfold required_object, tree_object. at_field Hr key. destruct w; by constructor. Qed.

Lemma required_array_tree i v key : R i v -> option_Forall2 R (required_array d (Some i) key) (tree_array v key).
Proof. intros Hr. unfold required_array, tree_array. at_field Hr key. destruct w; by constructor. Qed.

Lemma required_string_tree i v key : R i v -> required_string d (Some i) key = tree_string v key.
Proof.
  intros Hr. unfold required_string, tree_string. at_field Hr key.
  destruct (rep_node _ _ _ _ _ Hj) as (n & E & _ & Hh & _). destruct w; try done.
  cbn. rewrite E. cbn in *. rewrite Hh. by destruct s.
Qed.

Lemma required_number_tree i v key : R i v -> required_number d (Some i) key = tree_number v key.
Proof.
  intros Hr. unfold required_number, tree_number. at_field Hr key.
  destruct (rep_node _ _ _ _ _ Hj) as (n & E & _ & Hh & _). destruct w; try done.
  cbn. rewrite E. cbn in *. by destruct Hh as [-> _].
Qed.

Lemma required_boolean_tree i v key : R i v -> required_boolean d (Some i) key = tree_boolean v key.
Proof.
  intros Hr. unfold required_boolean, tree_boolean. at_field Hr key.
  destruct (rep_node _ _ _ _ _ Hj) as (n & E & _ & Hh & _). destruct w; try done.
  cbn. rewrite E. cbn in *. by rewrite Hh.
Qed.

Lemma load_sample_tree i vs k w : R i (JArray vs) -> vs !! k = Some w ->
  load_sample d i k = number_of w /\ forall n, number_of w = Some n -> 0 <= n <= u64_max.
Proof.
  intros Hr Hk. destruct (access_spec d 0 hi i _ Hr Hhi) as (_ & He & _). specialize (He k). cbn in He. rewrite Hk in He.
  destruct He as (j & Ej & Hj). unfold load_sample. rewrite Ej, (has_type_rep j w _ Hj).
  destruct (rep_node _ _ _ _ _ Hj) as (n & E & _ & Hh & _). destruct w; cbn; try done. rewrite E. cbn in *.
  destruct Hh as [-> Hn]. split; [done|]. by intros ? [= <-].
Qed.

Lemma mapM_load_sample i vs : R i (JArray vs) ->
  mapM (load_sample d i) (seq 0 (length vs)) = mapM number_of vs /\
  forall ns, mapM number_of vs = Some ns -> length ns = length vs /\ Forall (fun n => 0 <= n <= u64_max) ns.
Proof.
  intros Hr.
  assert (H : forall k rest, (forall j w, rest !! j = Some w -> vs !! (k + j)%nat = Some w) ->
    mapM (load_sample d i) (seq k (length rest)) = mapM number_of rest /\
    forall ns, mapM number_of rest = Some ns -> length ns = length rest /\ Forall (fun n => 0 <= n <= u64_max) ns).
  { intros k rest. revert k. induction rest as [|w rest IH]; intros k Hsub; cbn; [split; [done|by intros ? [= <-]]|].
    destruct (load_sample_tree i vs k w Hr) as [-> Hn]; [rewrite <- (Nat.add_0_r k); by apply Hsub|].
    destruct (IH (S k)) as [-> Hns]; [intros j x Hj; rewrite Nat.add_succ_comm; by apply Hsub|].
    split; [done|]. intros ns. destruct (number_of w) as [n|]; [|done]. cbn.
    destruct (mapM number_of rest) as [ns'|]; [|done]. intros [= <-]. destruct (Hns ns' eq_refl) as [Hl Hf].
    split; [cbn; by rewrite Hl|]. constructor; [by apply Hn|done]. }
  by apply (H 0%nat vs).
Qed.

(** ** Series *)

(** A series as the loader produces it for that number of intervals. *)
Definition series_of (intervals : Z) (s : MetricSeries) : Prop :=
  if ms_available s
  then 10 <= intervals <= 1000 /\ Z.of_nat (length (ms_values s)) = intervals /\
       Forall (fun n => 0 <= n <= u64_max) (ms_values s)
  else ms_values s = [] /\ ms_reason s <> [].

(** Both readings fail, or return the same well-formed series. *)
Definition same_series (intervals : Z) (m m' : option MetricSeries) : Prop :=
  m = m' /\ forall s, m = Some s -> series_of intervals s.

Lemma count_fits_range n intervals : count_fits n intervals = true -> 10 <= intervals <= 1000 /\ Z.of_nat n = intervals.
Proof.
  unfold count_fits. intros [[H1%bool_decide_eq_true H2%bool_decide_eq_true]%andb_prop H3%Z.eqb_eq]%andb_prop.
  unfold minimum_samples, maximum_samples in *. lia.
Qed.

Lemma load_samples_tree i v key intervals : R i v ->
  same_series intervals (load_samples d i key intervals) (tree_samples v key intervals).
Proof.
  intros Hr. unfold load_samples, tree_samples. destruct (required_array_tree i v key Hr) as [j w Hj|]; [|done].
  cbn [mbind option_bind]. destruct (access_spec d 0 hi j w Hj Hhi) as (_ & _ & ->). destruct w; try (split; [by rewrite ?orb_true_r|done]).
  destruct (count_fits (length vs) intervals) eqn:Hc; [|done]. destruct (mapM_load_sample j vs Hj) as [-> Hns]. cbn [negb].
  destruct (mapM number_of vs) as [ns|]; [|done]. split; [done|]. intros s [= <-]. destruct (Hns ns eq_refl) as [Hl Hf].
  apply count_fits_range in Hc as [? <-]. unfold series_of. cbn. by rewrite Hl.
Qed.

Lemma unavailable_tree i v intervals : R i v ->
  same_series intervals (unavailable_series <$> required_string d (Some i) (word "reason")) (tree_unavailable v).
Proof.
  intros Hr. rewrite (required_string_tree i v) by done. split; [done|]. intros s. unfold tree_string.
  destruct (member v (word "reason")) as [[| | |[|c t]| |]|]; try done. by intros [= <-].
Qed.

(** Walk through two readings that have the same steps. *)
#[local] Ltac same_steps :=
  repeat match goal with
  | H : R ?j ?w |- context [required_string d (Some ?j) _] => rewrite (required_string_tree j w _ H)
  | H : R ?j ?w |- context [required_number d (Some ?j) _] => rewrite (required_number_tree j w _ H)
  | H : R ?j ?w |- context [required_boolean d (Some ?j) _] => rewrite (required_boolean_tree j w _ H)
  | |- same_series _ (load_samples _ _ _ _) _ => by apply load_samples_tree
  | |- same_series _ None None => done
  | |- same_series _ (mbind _ ?m) (mbind _ ?m) => destruct m; cbn [mbind option_bind]; [|done]
  | |- same_series _ (if bool_decide ?P then _ else _) _ => destruct (bool_decide P)
  | |- same_series _ (if negb ?b then _ else _) _ => destruct b; cbn [negb]
  end.

Lemma load_host_metric_tree i v key skey intervals : R i v ->
  same_series intervals (load_host_metric d i key skey intervals) (tree_host_metric v key skey intervals).
Proof.
  intros Hr. unfold load_host_metric, tree_host_metric. destruct (required_object_tree i v key Hr) as [j w Hj|]; [|done].
  cbn [mbind option_bind]. pose proof (unavailable_tree j w intervals Hj) as Hu. rewrite (required_string_tree j w _ Hj) in Hu.
  same_steps. done.
Qed.

Lemma load_counter_metric_tree i v key intervals : R i v ->
  same_series intervals (load_counter_metric d i key intervals) (tree_counter_metric v key intervals).
Proof.
  intros Hr. unfold load_counter_metric, tree_counter_metric. destruct (required_object_tree i v key Hr) as [j w Hj|]; [|done].
  cbn [mbind option_bind]. pose proof (unavailable_tree j w intervals Hj) as Hu. rewrite (required_string_tree j w _ Hj) in Hu.
  same_steps. done.
Qed.

Lemma load_latency_metric_tree i v intervals : R i v ->
  same_series intervals (load_latency_metric d i intervals) (tree_latency_metric v intervals).
Proof.
  intros Hr. unfold load_latency_metric, tree_latency_metric.
  destruct (required_object_tree i v (word "latency_ns_per_interval") Hr) as [j w Hj|]; [|done].
  cbn [mbind option_bind]. same_steps.
Qed.

(** ** The whole artifact *)
Definition artifact_wf (a : Artifact) : Prop :=
  (exists intervals, 10 <= intervals <= 1000 /\ Forall (series_of intervals) (a_metrics a)) /\
  length (a_metrics a) = 6%nat /\ (a_cpu_description_available a = true <-> a_cpu_description a <> []).

Definition same_reading (x : text + Artifact) (y : text + Reading) : Prop :=
  match x, y with
  | inl e, inl e' => e = e'
  | inr a, inr r => reads_as a r /\ artifact_wf a
  | _, _ => False
  end.

Lemma ensure_rel {A A'} (Q : A -> A' -> Prop) e m m' k k' :
  option_Forall2 Q m m' -> (forall a a', Q a a' -> same_reading (k a) (k' a')) ->
  same_reading (ensure e m k) (ensure e m' k').
Proof. intros [a a' H|] Hk; cbn; auto. Qed.

Lemma ensure_same {A} e (m m' : option A) k k' :
  m = m' -> (forall a, m = Some a -> same_reading (k a) (k' a)) -> same_reading (ensure e m k) (ensure e m' k').
Proof. intros <- Hk. destruct m; cbn; auto. Qed.

Lemma ensure_series intervals e m m' k k' :
  same_series intervals m m' -> (forall s, series_of intervals s -> same_reading (k s) (k' s)) ->
  same_reading (ensure e m k) (ensure e m' k').
Proof. intros [<- H] Hk. destruct m; cbn; auto. Qed.

Lemma load_cpu_description_tree i v : R i v -> load_cpu_description d i = tree_cpu_description v.
Proof. intros Hr. unfold load_cpu_description, tree_cpu_description. by rewrite !(required_string_tree i v _ Hr). Qed.

Lemma tree_cpu_description_some v o : tree_cpu_description v = Some o ->
  bool_decide (is_Some o) = true <-> default [] o <> [].
Proof.
  unfold tree_cpu_description. destruct (tree_string v (word "status")); [|done]. cbn [mbind option_bind].
  case_bool_decide; [|case_bool_decide; [|done]].
  - unfold tree_string. destruct (member v (word "value")) as [[| | |[|c t]| |]|]; try done. by intros [= <-].
  - destruct (tree_string v (word "reason")); [|done]. by intros [= <-].
Qed.

Lemma load_intervals_tree i v : R i v ->
  load_intervals d i = tree_intervals v /\ forall n, tree_intervals v = Some n -> 10 <= n <= 1000.
Proof.
  intros Hr. unfold load_intervals, tree_intervals. rewrite (required_number_tree i v _ Hr).
  destruct (tree_number v (word "intervals")) as [n|]; [|done]. cbn [mbind option_bind].
  change (Z.of_nat minimum_samples) with 10. change (Z.of_nat maximum_samples) with 1000.
  destruct (Z.ltb_spec n 10), (Z.leb_spec 10 n), (Z.ltb_spec 1000 n), (Z.leb_spec n 1000); cbn; try lia; try done.
  split; [done|]. intros ? [= <-]. lia.
Qed.

Lemma raw_of_text i v : R i v -> text_of v (raw_of d i).
Proof. intros (n & E & _ & _ & Ht)%rep_node. unfold raw_of. by rewrite E. Qed.

Lemma is_Some_match {A} (o : option A) : bool_decide (is_Some o) = match o with Some _ => true | None => false end.
Proof. destruct o; [by apply bool_decide_eq_true_2; eexists|]. apply bool_decide_eq_false_2. by intros []. Qed.

(** Match each requirement of the loader with the one of the reading. *)
#[local] Ltac reading :=
  repeat match goal with
  | Hr : R ?i ?v |- same_reading (ensure _ (required_string d (Some ?i) ?key) _) _ =>
      apply ensure_same; [by apply required_string_tree|]; intros ? _
  | Hr : R ?i ?v |- same_reading (ensure _ (required_number d (Some ?i) ?key) _) _ =>
      apply ensure_same; [by apply required_number_tree|]; intros ? _
  | Hr : R ?i ?v |- same_reading (ensure _ (required_object d (Some ?i) ?key) _) _ =>
      eapply ensure_rel; [by apply (required_object_tree i v)|]; intros ? ? ?
  | Hr : R ?i ?v |- same_reading (ensure _ (required_array d (Some ?i) ?key) _) _ =>
      eapply ensure_rel; [by apply (required_array_tree i v)|]; intros ? ? ?
  | Hr : R ?i ?v |- same_reading (ensure _ (load_host_metric d ?i _ _ _) _) _ =>
      eapply ensure_series; [by apply (load_host_metric_tree i v)|]; intros ? ?
  | Hr : R ?i ?v |- same_reading (ensure _ (load_counter_metric d ?i _ _) _) _ =>
      eapply ensure_series; [by apply (load_counter_metric_tree i v)|]; intros ? ?
  | Hr : R ?i ?v |- same_reading (ensure _ (load_latency_metric d ?i _) _) _ =>
      eapply ensure_series; [by apply (load_latency_metric_tree i v)|]; intros ? ?
  | |- same_reading (if ?b then inl _ else _) _ => destruct b; [done|]
  end.

Lemma load_artifact_tree v : R (jd_root d) v -> same_reading (load_artifact_document d) (tree_artifact v).
Proof.
  intros Hr. unfold load_artifact_document, tree_artifact. set (r := root d).
  assert (Hroot : r = Some (jd_root d)).
  { subst r. unfold root, node. rewrite bool_decide_eq_true_2; [done|]. apply rep_bound in Hr. lia. }
  rewrite Hroot, (has_type_rep _ _ _ Hr). clear r Hroot. destruct v; try done.
  cbn [type_of]. rewrite bool_decide_eq_true_2 by done. cbn [negb ensure]. reading.
  apply ensure_same; [by apply load_cpu_description_tree|]. intros o Ho.
  match goal with H : R ?i ?v |- _ => rewrite (load_cpu_description_tree i v H) in Ho end.
  apply tree_cpu_description_some in Ho. reading.
  match goal with H : R ?i ?v |- same_reading (ensure _ (load_intervals d ?i) _) _ =>
    destruct (load_intervals_tree i v H) as [Hi1 Hi2] end.
  apply ensure_same; [done|]. intros intervals Hi. rewrite Hi1 in Hi. apply Hi2 in Hi. clear Hi1 Hi2. reading.
  split.
  - do 4 eexists. cbn. rewrite is_Some_match. split; [done|]. auto using raw_of_text.
  - split; [|by split]. exists intervals. split; [done|]. by repeat constructor.
Qed.
End reading.

(** The text is the value [v] between white space. *)
Definition document_of (t : text) (v : json) : Prop :=
  exists w t' w', t = w ++ t' ++ w' /\ spaces w /\ spaces w' /\ json_text 0 v t'.

Lemma load_artifact_reading (t : text) :
  exists result, load_artifact_text t = Ret result /\
    ((exists v, document_of t v /\ same_reading result (tree_artifact v)) \/
     result = inl (word "document") /\ forall v, document_of t v -> ~ fits_tables v).
Proof.
  destruct (load_exact t) as ([r Hr] & Hsound & Hcomplete). unfold load_artifact_text. rewrite Hr, outcome_bind_Ret.
  eexists. split; [reflexivity|]. destruct r as [d|].
  - left. destruct (Hsound d Hr) as (w & t' & w' & v & Ht & Hw & Hw' & Hv & _ & Hrep). exists v.
    split; [by exists w, t', w'|]. by apply (load_artifact_tree d (count d)).
  - right. split; [done|]. intros v (w & t' & w' & Ht & Hw & Hw' & Hv) Hfits.
    destruct (Hcomplete w t' w' v Ht Hw Hw' Hv Hfits) as (d & Hd & _). by rewrite Hr in Hd.
Qed.

(** [load_artifact] ends on every text and reads exactly what its JSON value says: the
    result over the index tables is the one [tree_artifact] prescribes on the tree, the same
    artifact (the parts compared by their text are texts of the right subtrees) or the same
    error group; [document] is reported only when no JSON value that fits the tables has that
    text.  An artifact it returns has six series, each either available with 10 to 1000 64-bit
    samples, as many as the intervals of the run, or empty with a reason, and a description of
    the processor exactly when one is available. *)
Theorem load_artifact_exact (t : text) :
  exists result, load_artifact_text t = Ret result /\
    match result with
    | inr a => artifact_wf a /\ exists v r, document_of t v /\ tree_artifact v = inr r /\ reads_as a r
    | inl e => (exists v, document_of t v /\ tree_artifact v = inl e) \/
               e = word "document" /\ forall v, document_of t v -> ~ fits_tables v
    end.
Proof.
  destruct (load_artifact_reading t) as (result & Hrun & Hr). exists result. split; [done|].
  destruct Hr as [(v & Hv & Hs)|[-> Hn]]; [|by right]. unfold same_reading in Hs.
  destruct result as [e|a], (tree_artifact v) as [e'|r] eqn:E; try done.
  - subst e'. left. by exists v.
  - destruct Hs as [Hs Hwf]. split; [done|]. by exists v, r.
Qed.

(** ** Compatible artifacts *)
Lemma differ_false a b : differ a b = false <-> a = b.
Proof. unfold differ. rewrite negb_false_iff. apply bool_decide_eq_true. Qed.

(** The parts of an artifact that the environment is made of. *)
Definition environment_parts (a : Artifact) : list text :=
  [a_target_os a; a_target_architecture a; a_cpu_description a; a_compiler_id a; a_compiler_version a;
   a_standard_library_id a; a_standard_library_version a; a_profile a; a_hardening a; a_sanitizer_profile a;
   a_features a; a_dependencies a].

(** Two artifacts are compatible exactly when they agree on every part of the environment,
    on the workload, its checksum and its parameters, and both name their processor; build
    identifiers and measurements may differ.  Compatible artifacts have the same reference
    environment, so a rule for the baseline's environment speaks about the candidate too. *)
Theorem equal_configuration_spec (b c : Artifact) :
  (equal_configuration b c = None <->
   environment_parts b = environment_parts c /\
   a_cpu_description_available b = true /\ a_cpu_description_available c = true /\
   a_workload b = a_workload c /\ a_workload_checksum b = a_workload_checksum c /\ a_parameters b = a_parameters c) /\
  (equal_configuration b c = None ->
   hex_environment (environment_hash b) = hex_environment (environment_hash c)).
Proof.
  assert (Hiff : equal_configuration b c = None <->
   environment_parts b = environment_parts c /\
   a_cpu_description_available b = true /\ a_cpu_description_available c = true /\
   a_workload b = a_workload c /\ a_workload_checksum b = a_workload_checksum c /\ a_parameters b = a_parameters c).
  { unfold equal_configuration, environment_parts. split.
    - intros H. repeat (case_match; [done|]).
      repeat match goal with H : (_ || _)%bool = false |- _ => apply orb_false_iff in H as [? ?] end.
      rewrite ?differ_false, ?negb_false_iff, ?Z.eqb_eq in *. split; [congruence|]. done.
    - intros (Hp & -> & -> & -> & -> & ->). injection Hp as -> -> -> -> -> -> -> -> -> -> -> ->.
      unfold differ. rewrite !bool_decide_eq_true_2, Z.eqb_refl by done. done. }
  split; [done|]. intros (Hp & _)%Hiff. f_equal. injection Hp as E1 E2 E3 E4 E5 E6 E7 E8 E9 E10 E11 E12.
  unfold environment_hash. by rewrite E1, E2, E3, E4, E5, E6, E7, E8, E9, E10, E11, E12.
Qed.

(** ** The printed environment *)
Definition hex_digit_value (c : ascii) : Z := if code c <? 97 then code c - 48 else code c - 87.
Definition hex_value (t : text) : Z := foldl (fun v c => v * 16 + hex_digit_value c) 0 t.

Lemma hex_digit_spec n : 0 <= n < 16 ->
  let c := nth (Z.to_nat n) hex_digits "0"%char in is_environment_digit c = true /\ hex_digit_value c = n.
Proof.
  intros Hn. assert (n ∈ seqZ 0 16) as Hin by (apply elem_of_seqZ; lia). revert n Hn Hin.
  assert (H : Forall (fun n => is_environment_digit (nth (Z.to_nat n) hex_digits "0"%char) = true /\
      hex_digit_value (nth (Z.to_nat n) hex_digits "0"%char) = n) (seqZ 0 16)) by (by repeat constructor).
  intros n _ Hin. apply (proj1 (list.Forall_forall _ _) H n Hin).
Qed.

Lemma nibble_spec v k : 0 <= k -> Z.land (Z.shiftr v (k * 4)) 15 = (v / 16 ^ k) mod 16.
Proof.
  intros Hk. rewrite Z.shiftr_div_pow2 by lia. change 15 with (Z.ones 4). rewrite Z.land_ones by lia.
  do 2 f_equal. rewrite Z.mul_comm, Z.pow_mul_r by lia. done.
Qed.

Lemma hex_digits_fold v n : 0 <= v -> forall k, (k + n <= 16)%nat ->
  foldl (fun v c => v * 16 + hex_digit_value c) (v / 16 ^ (16 - Z.of_nat k))
    ((fun index => nth (Z.to_nat (Z.land (Z.shiftr v ((15 - Z.of_nat index) * 4)) 15)) hex_digits "0"%char) <$> seq k n)
  = v / 16 ^ (16 - Z.of_nat (k + n)).
Proof.
  intros Hv. induction n as [|n IH]; intros k Hk; [by rewrite Nat.add_0_r|]. cbn [seq]. rewrite fmap_cons. cbn [foldl].
  rewrite nibble_spec by lia. destruct (hex_digit_spec ((v / 16 ^ (15 - Z.of_nat k)) mod 16)) as [_ ->].
  { apply Z.mod_pos_bound. lia. }
  replace (v / 16 ^ (16 - Z.of_nat k) * 16 + _) with (v / 16 ^ (16 - Z.of_nat (S k))).
  { rewrite IH by lia. do 2 f_equal. lia. }
  replace (16 - Z.of_nat (S k)) with (15 - Z.of_nat k) by lia.
  replace (16 - Z.of_nat k) with (Z.succ (15 - Z.of_nat k)) by lia.
  rewrite Z.pow_succ_r, (Z.mul_comm 16 (16 ^ _)), <- Z.div_div by (try apply Z.pow_pos_nonneg; lia).
  rewrite (Z.mul_comm _ 16). apply Z.div_mod. lia.
Qed.

Lemma hash_append_range v input : 0 <= hash_append v input <= u64_max.
Proof. apply u64_range. Qed.

(** The printed reference environment is sixteen of the characters a manifest accepts in
    that field and determines the hash: reading it back as a hexadecimal number gives the
    64-bit hash of the artifact. *)
Theorem hex_environment_roundtrip (a : Artifact) :
  length (hex_environment (environment_hash a)) = 16%nat /\
  Forall (fun c => is_environment_digit c = true) (hex_environment (environment_hash a)) /\
  hex_value (hex_environment (environment_hash a)) = environment_hash a.
Proof.
  set (v := environment_hash a). assert (Hv : 0 <= v <= u64_max) by apply hash_append_range. clearbody v.
  unfold hex_environment. split; [by rewrite length_fmap, length_seq|]. split.
  - apply Forall_fmap, list.Forall_forall. intros k Hk%elem_of_seq. cbn. rewrite nibble_spec by lia.
    apply hex_digit_spec. apply Z.mod_pos_bound. lia.
  - pose proof (hex_digits_fold v 16 ltac:(lia) 0 ltac:(lia)) as H.
    replace (v / 16 ^ (16 - Z.of_nat 0)) with 0 in H by (symmetry; apply Z.div_small; unfold u64_max in *; lia).
    unfold hex_value. rewrite H. apply Z.div_1_r.
Qed.
