(* ===== verification/Evaluator.v ===== *)
(** * The benchmark evaluator

    Models the rest of [bench/evaluator.cpp]: [write_all], [read_file], [JsonWriter],
    [parse_options], [write_environment], [write_result] and [main].  The calls of the operating
    system are operations on a world [W]; a call that returns a negative value is [Interrupted]
    when [errno] is [EINTR] and [Failed] otherwise.  The loops around the calls have fuel. *)
From S2P Require Import Prelude Json Regression Manifest Artifact.
From Stdlib Require Import ZArith Lia Ascii String.
From stdpp Require Import base numbers list option.

Set Default Goal Selector "!".
#[local] Open Scope Z_scope.

(** ** System calls *)
Inductive call (A : Type) := Done (a : A) | Interrupted | Failed.
Arguments Done {A} a.
Arguments Interrupted {A}.
Arguments Failed {A}.

Record Posix (W : Type) := MkPosix {
  sys_open : text -> W -> option Z * W;
  sys_read : Z -> nat -> W -> call text * W;
  sys_write : Z -> text -> W -> call nat * W;
  sys_close : Z -> W -> W }.
Arguments sys_open {W} p.
Arguments sys_read {W} p.
Arguments sys_write {W} p.
Arguments sys_close {W} p.

Definition stdout_fileno : Z := 1.
Definition stderr_fileno : Z := 2.

Section system.
Context {W : Type} (os : Posix W).

Fixpoint write_all (fuel : nat) (descriptor : Z) (value : text) (w : W) : outcome (bool * W) :=
  match value with
  | [] => Ret (true, w)
  | _ :: _ =>
      match fuel with
      | O => Stop OutOfFuel
      | S fuel =>
          let '(written, w) := sys_write os descriptor value w in
          match written with
          | Done (S n) =>
              if bool_decide (length value < S n)%nat then Stop Undefined
              else write_all fuel descriptor (drop (S n) value) w
          | Interrupted => write_all fuel descriptor value w
          | Done O | Failed => Ret (false, w)
          end
      end
  end.

(** The loop of [read_file]: whether the reads ended without a failure, and what they gave. *)
Fixpoint read_loop (fuel : nat) (descriptor : Z) (capacity : nat) (output : text) (w : W) : outcome (bool * text * W) :=
  if bool_decide (capacity <= length output)%nat then Ret (true, output, w) else
  match fuel with
  | O => Stop OutOfFuel
  | S fuel =>
      let '(read_count, w) := sys_read os descriptor (capacity - length output) w in
      match read_count with
      | Done [] => Ret (true, output, w)
      | Done bytes =>
          if bool_decide (capacity - length output < length bytes)%nat then Stop Undefined
          else read_loop fuel descriptor capacity (output ++ bytes) w
      | Interrupted => read_loop fuel descriptor capacity output w
      | Failed => Ret (false, output, w)
      end
  end.

Definition read_file (fuel : nat) (path : text) (capacity : nat) (w : W) : outcome (option text * W) :=
  let '(descriptor, w) := sys_open os path w in
  match descriptor with
  | None => Ret (None, w)
  | Some descriptor =>
      '(complete, output, w) ← read_loop fuel descriptor capacity [] w;
      let '(complete, w) :=
        if bool_decide (length output = capacity) then
          let '(read_count, w) := sys_read os descriptor 1 w in
          (match read_count with Done [] => complete | _ => false end, w)
        else (complete, w) in
      let w := sys_close os descriptor w in
      Ret (if complete : bool then Some output else None, w)
  end.

Definition load_artifact (fuel : nat) (path : text) (w : W) : outcome ((text + Artifact) * W) :=
  '(contents, w) ← read_file fuel path maximum_document_bytes w;
  match contents with
  | None => Ret (inl (word "document"), w)
  | Some t => artifact ← load_artifact_text t; Ret (artifact, w)
  end.

Definition parse_manifest (fuel : nat) (path : text) (w : W) : outcome ((text + list Rule) * W) :=
  '(contents, w) ← read_file fuel path maximum_document_bytes w;
  match contents with
  | None => Ret (inl (word "document"), w)
  | Some t =>
      rules ← parse_manifest_text t;
      Ret (match rules with inl e => inl (manifest_error e) | inr rules => inr rules end, w)
  end.

(** ** Output *)

(** The decimal digits [std::to_chars] writes: least significant first, then reversed. *)
Fixpoint digits_rev (fuel : nat) (v : Z) : text :=
  match fuel with
  | O => []
  | S fuel =>
      ascii_of_N (Z.to_N (48 + v mod 10)) :: (if v <? 10 then [] else digits_rev fuel (v / 10))
  end.
Definition to_chars (v : Z) : text :=
  if v <? 0 then "-"%char :: rev (digits_rev 20 (- v)) else rev (digits_rev 20 v).

(** A writer is the characters of [output_] in use; [None] is [false]. *)
Definition append (value : text) (writer : text) : option text :=
  if bool_decide (maximum_document_bytes - length writer < length value)%nat then None else Some (writer ++ value).

(** [append_number] and [append_signed_number] *)
Definition append_number (value : Z) (writer : text) : option text :=
  if bool_decide (maximum_document_bytes - length writer < length (to_chars value))%nat then None
  else Some (writer ++ to_chars value).

Definition append_character (c : ascii) (writer : text) : option text :=
  if is_char c backslash then append [backslash; backslash] writer
  else if is_char c quote then append [backslash; quote] writer
  else if code c <? 32 then None else append [c] writer.

Fixpoint append_characters (value : text) (writer : text) : option text :=
  match value with
  | [] => Some writer
  | c :: value => writer ← append_character c writer; append_characters value writer
  end.

Definition append_string (value : text) (writer : text) : option text :=
  writer ← append [quote] writer;
  writer ← append_characters value writer;
  append [quote] writer.

(** A sequence of calls joined by [||]. *)
Inductive piece := Raw (s : text) | Number (v : Z) | Quoted (s : text).
Definition put (p : piece) (writer : text) : option text :=
  match p with Raw s => append s writer | Number v => append_number v writer | Quoted s => append_string s writer end.
Fixpoint put_all (ps : list piece) (writer : text) : option text :=
  match ps with [] => Some writer | p :: ps => writer ← put p writer; put_all ps writer end.

(** A string literal with [~] for the quotation mark. *)
Definition lit (s : string) : piece := Raw (map (fun c => if is_char c "~" then quote else c) (word s)).

(** What the evaluation of an applicable rule gave. *)
Record Verdict := MkVerdict { vd_lower : Z; vd_upper : Z; vd_regression : bool }.

Definition rule_status (rule : Rule) (regression : bool) : text :=
  if r_hard rule && regression then word "hard_regression"
  else if regression then word "advisory_regression" else word "pass".

Definition rule_pieces (rule : Rule) (verdict : Verdict) : list piece :=
  [lit "{~allowed_regression_ppm~:"; Number (r_allowed_regression_ppm rule);
   lit ",~mode~:"; Quoted (word (if r_hard rule then "hard" else "advisory"));
   lit ",~metric~:"; Quoted (r_metric rule);
   lit ",~noise_band_ppm~:"; Number (r_noise_band_ppm rule);
   lit ",~regression_ppm_ci95~:{~lower~:"; Number (vd_lower verdict);
   lit ",~upper~:"; Number (vd_upper verdict);
   lit "},~status~:"; Quoted (rule_status rule (vd_regression verdict));
   lit ",~threshold_ppm~:"; Number (u64 (r_allowed_regression_ppm rule + r_noise_band_ppm rule));
   lit ",~workload~:"; Quoted (r_workload rule); lit "}"].

(** The loop of [write_result]; a rule without a verdict is not applicable. *)
Fixpoint put_results (rules : list (Rule * option Verdict)) (first : bool) (writer : text) : option (bool * text) :=
  match rules with
  | [] => Some (first, writer)
  | (_, None) :: rules => put_results rules first writer
  | (rule, Some verdict) :: rules =>
      writer ← (if first then Some writer else append (word ",") writer);
      writer ← put_all (rule_pieces rule verdict) writer;
      put_results rules false writer
  end.

(** The document [write_result] builds before it writes it. *)
Definition result_document (baseline : Artifact) (results : list (Rule * option Verdict)) (any_hard_failure : bool) : option text :=
  writer ← put_all
    [lit "{~reference_environment~:"; Quoted (hex_environment (environment_hash baseline));
     lit ",~unbounded_regression_ppm_sentinels~:{~improvement~:"; Number unbounded_improvement_ppm;
     lit ",~regression~:"; Number unbounded_regression_ppm; lit "}"; lit ",~results~:["] [];
  '(first, writer) ← put_results results true writer;
  let status := if first : bool then word "no_threshold" else if any_hard_failure then word "hard_regression" else word "pass" in
  put_all [lit "],~schema_version~:~laghu-benchmark-evaluation-v1~,~status~:"; Quoted status; Raw [ "}"%char; newline ]] writer.

Definition write_environment (fuel : nat) (artifact : Artifact) (w : W) : outcome (bool * W) :=
  if negb (a_cpu_description_available artifact) then Ret (false, w) else
  '(ok, w) ← write_all fuel stdout_fileno (hex_environment (environment_hash artifact)) w;
  if negb ok then Ret (false, w) else write_all fuel stdout_fileno [newline] w.

Definition write_result (fuel : nat) (baseline : Artifact) (results : list (Rule * option Verdict))
    (any_hard_failure : bool) (w : W) : outcome (bool * W) :=
  match result_document baseline results any_hard_failure with
  | None => Ret (false, w)
  | Some document => write_all fuel stdout_fileno document w
  end.

(** ** Options *)
Record Options := MkOptions {
  o_baseline : option text; o_candidate : option text; o_manifest : option text; o_environment : option text }.

Definition is_unset (o : option text) : bool := match o with None => true | Some _ => false end.

Fixpoint options_loop (arguments : list text) (o : Options) : option Options :=
  match arguments with
  | [] => Some o
  | [_] => None
  | argument :: value :: rest =>
      let '(MkOptions b c m e) := o in
      if bool_decide (argument = word "--baseline") && is_unset b then options_loop rest (MkOptions (Some value) c m e)
      else if bool_decide (argument = word "--candidate") && is_unset c then options_loop rest (MkOptions b (Some value) m e)
      else if bool_decide (argument = word "--manifest") && is_unset m then options_loop rest (MkOptions b c (Some value) e)
      else if bool_decide (argument = word "--environment") && is_unset e then options_loop rest (MkOptions b c m (Some value))
      else None
  end.

(** The arguments after the name of the program. *)
Definition parse_options (arguments : list text) : option Options :=
  o ← options_loop arguments (MkOptions None None None None);
  if (if is_unset (o_environment o)
      then negb (is_unset (o_baseline o)) && negb (is_unset (o_candidate o)) && negb (is_unset (o_manifest o))
      else is_unset (o_baseline o) && is_unset (o_candidate o) && is_unset (o_manifest o))
  then Some o else None.

(** ** The program *)
Inductive ExitCode := exit_success | hard_regression | invalid_arguments | invalid_input | output_failure.
Definition exit_value (c : ExitCode) : Z :=
  match c with
  | exit_success => 0 | hard_regression => 1 | invalid_arguments => 64 | invalid_input => 65 | output_failure => 74
  end.

Definition usage_text : text :=
  word "usage: laghu_benchmark_evaluate --baseline <artifact> --candidate <artifact> --manifest <tsv>" ++ [newline] ++
  word "       laghu_benchmark_evaluate --environment <artifact>" ++ [newline].

(** [static_cast<void>(write_all(STDERR_FILENO, message));] for each of the messages. *)
Fixpoint report (fuel : nat) (messages : list text) (w : W) : outcome W :=
  match messages with
  | [] => Ret w
  | m :: messages => '(_, w) ← write_all fuel stderr_fileno m w; report fuel messages w
  end.

(** Report and return. *)
Definition fail_with (fuel : nat) (messages : list text) (code : ExitCode) (w : W) : outcome (ExitCode * W) :=
  w ← report fuel messages w; Ret (code, w).

Definition message (prefix : string) (error : text) : list text :=
  [word ("laghu-benchmark-evaluate: " ++ prefix); error; [newline]].

Definition bootstrap_reason (b : BootstrapResult) : text :=
  match b with
  | zero_baseline_undefined => word "zero_baseline_undefined"
  | arithmetic_overflow => word "arithmetic_overflow"
  | _ => word "invalid_samples"
  end.

(** A metric series of an artifact: reading outside the array is undefined. *)
Definition metric_of (a : Artifact) (metric : MetricId) : outcome MetricSeries :=
  slot (a_metrics a) (Z.of_nat (metric_index metric)).

(** The body of the loop over the rules: the messages of a failure, or the verdict of the rule
    when it is applicable. *)
Definition evaluate_rule (baseline candidate : Artifact) (rule : Rule) : outcome (list text + option Verdict) :=
  let reference_environment := hex_environment (environment_hash baseline) in
  if differ (r_workload rule) (a_workload baseline) then Ret (inr None) else
  let metric := metric_id (r_metric rule) in
  if differ (r_reference_environment rule) reference_environment then
    Ret (inl (message "manifest=reference_environment_mismatch; expected=" reference_environment))
  else
  baseline_metric ← metric_of baseline metric;
  candidate_metric ← metric_of candidate metric;
  if negb (ms_available baseline_metric) || negb (ms_available candidate_metric) then
    Ret (inl [word "laghu-benchmark-evaluate: metric="; r_metric rule; word "; reason=";
              word (if ms_available baseline_metric then "candidate_unavailable" else "baseline_unavailable") ++ [newline]])
  else
  bootstrap ← bootstrap_interval baseline_metric candidate_metric metric (r_higher_is_better rule);
  match bootstrap with
  | bootstrap_success lower upper =>
      if u64_max - r_noise_band_ppm rule <? r_allowed_regression_ppm rule then
        Ret (inl [word "laghu-benchmark-evaluate: manifest=threshold_overflow" ++ [newline]])
      else
      let threshold := u64 (r_allowed_regression_ppm rule + r_noise_band_ppm rule) in
      Ret (inr (Some (MkVerdict lower upper ((0 <? lower) && (threshold <? lower)))))
  | failure =>
      Ret (inl [word "laghu-benchmark-evaluate: metric="; r_metric rule; word "; reason=";
                bootstrap_reason failure ++ [newline]])
  end.

Fixpoint evaluate_rules (baseline candidate : Artifact) (rules : list Rule) :
    outcome (list text + list (Rule * option Verdict)) :=
  match rules with
  | [] => Ret (inr [])
  | rule :: rules =>
      verdict ← evaluate_rule baseline candidate rule;
      match verdict with
      | inl messages => Ret (inl messages)
      | inr verdict =>
          rest ← evaluate_rules baseline candidate rules;
          Ret (match rest with inl messages => inl messages | inr rest => inr ((rule, verdict) :: rest) end)
      end
  end.

Definition is_hard_failure (r : Rule * option Verdict) : bool :=
  match r with (rule, Some verdict) => r_hard rule && vd_regression verdict | (_, None) => false end.

Definition main_environment (fuel : nat) (path : text) (w : W) : outcome (ExitCode * W) :=
  '(artifact, w) ← load_artifact fuel path w;
  match artifact with
  | inl error => fail_with fuel (message "artifact=environment; field=" error) invalid_input w
  | inr artifact =>
      if negb (a_cpu_description_available artifact) then
        fail_with fuel [word "laghu-benchmark-evaluate: environment=hardware_identity_unavailable" ++ [newline]] invalid_input w
      else
      '(ok, w) ← write_environment fuel artifact w;
      Ret (if ok : bool then exit_success else output_failure, w)
  end.

Definition main_compare (fuel : nat) (baseline_path candidate_path manifest_path : text) (w : W) : outcome (ExitCode * W) :=
  '(baseline, w) ← load_artifact fuel baseline_path w;
  match baseline with
  | inl error => fail_with fuel (message "artifact=baseline; field=" error) invalid_input w
  | inr baseline =>
  '(candidate, w) ← load_artifact fuel candidate_path w;
  match candidate with
  | inl error => fail_with fuel (message "artifact=candidate; field=" error) invalid_input w
  | inr candidate =>
  match equal_configuration baseline candidate with
  | Some error => fail_with fuel (message "compatibility=" error) invalid_input w
  | None =>
  '(manifest, w) ← parse_manifest fuel manifest_path w;
  match manifest with
  | inl error => fail_with fuel (message "manifest=" error) invalid_input w
  | inr rules =>
  results ← evaluate_rules baseline candidate rules;
  match results with
  | inl messages => fail_with fuel messages invalid_input w
  | inr results =>
      let any_hard_failure := existsb is_hard_failure results in
      '(ok, w) ← write_result fuel baseline results any_hard_failure w;
      Ret (if negb ok then output_failure else if any_hard_failure then hard_regression else exit_success, w)
  end end end end end.

Definition main (fuel : nat) (arguments : list text) (w : W) : outcome (ExitCode * W) :=
  match parse_options arguments with
  | None => fail_with fuel [usage_text] invalid_arguments w
  | Some (MkOptions _ _ _ (Some environment)) => main_environment fuel environment w
  | Some (MkOptions (Some baseline) (Some candidate) (Some manifest) None) => main_compare fuel baseline candidate manifest w
  | Some _ => Stop Undefined
  end.
End system.
