(* ===== verification/EvaluatorIo.v ===== *)
(** * What the evaluator writes reads back

    The strings and numbers that [JsonWriter] appends are texts of the grammar the parser
    accepts, and have the values that were written. *)
From S2P Require Import Prelude Json JsonSpec Regression Manifest Artifact Evaluator.
From Stdlib Require Import ZArith Lia Ascii String.
From stdpp Require Import base numbers list option.

Set Default Goal Selector "!".
#[local] Open Scope Z_scope.

(** ** The writer *)
Definition escape_character (c : ascii) : text :=
  if is_char c backslash then [backslash; backslash] else if is_char c quote then [backslash; quote] else [c].
Definition escape (t : text) : text := flat_map escape_character t.

(** What the escapes the writer uses stand for. *)
Fixpoint unescape (t : text) : text :=
  match t with
  | [] => []
  | c :: rest =>
      if is_char c backslash then match rest with e :: rest => e :: unescape rest | [] => [] end else c :: unescape rest
  end.

Definition control (c : ascii) : bool := code c <? 32.
Definition room_for (n : nat) (writer : text) : bool := bool_decide (n <= maximum_document_bytes - length writer)%nat.

Lemma append_spec value writer : Evaluator.append value writer = if room_for (length value) writer then Some (writer ++ value) else None.
Proof. unfold Evaluator.append, room_for. repeat case_bool_decide; (done || lia). Qed.

Lemma escape_cons c t : escape (c :: t) = escape_character c ++ escape t.
Proof. done. Qed.

Lemma append_character_spec c writer :
  append_character c writer =
  if control c || negb (room_for (length (escape_character c)) writer) then None else Some (writer ++ escape_character c).
Proof.
  unfold append_character, escape_character, control. rewrite !append_spec.
  destruct (is_char c backslash) eqn:E1; [apply is_char_true in E1 as ->; cbn; by case_match|].
  destruct (is_char c quote) eqn:E2; [apply is_char_true in E2 as ->; cbn; by case_match|].
  destruct (code c <? 32); [done|]. cbn. by case_match.
Qed.

Lemma append_characters_spec value : forall writer, (length writer <= maximum_document_bytes)%nat ->
  append_characters value writer =
  if existsb control value || negb (room_for (length (escape value)) writer) then None else Some (writer ++ escape value).
Proof.
  induction value as [|c value IH]; intros writer Hw; cbn [append_characters].
  - unfold room_for. cbn. by rewrite bool_decide_eq_true_2, app_nil_r by lia.
  - rewrite append_character_spec, escape_cons. cbn [existsb]. destruct (control c); [done|]. cbn [orb].
    unfold room_for. rewrite length_app. case_bool_decide as H1; cbn [negb].
    + cbn [mbind option_bind]. rewrite IH by (rewrite length_app; lia). unfold room_for. rewrite length_app.
      destruct (existsb control value); [done|]. cbn [orb].
      repeat case_bool_decide; cbn; (lia || done || by rewrite app_assoc).
    + destruct (existsb control value); [done|]. cbn. by rewrite bool_decide_eq_false_2 by lia.
Qed.

Lemma string_text_length s : length (string_text s) = (2 + length s)%nat.
Proof. unfold string_text. cbn. rewrite length_app. cbn. lia. Qed.

Lemma append_string_exact value writer : (length writer <= maximum_document_bytes)%nat ->
  append_string value writer =
  if existsb control value || negb (room_for (length (string_text (escape value))) writer) then None
  else Some (writer ++ string_text (escape value)).
Proof.
  intros Hw. unfold append_string. rewrite append_spec, string_text_length. unfold room_for. cbn [length].
  case_bool_decide as H1.
  - cbn [mbind option_bind]. rewrite append_characters_spec by (rewrite length_app; cbn; lia).
    destruct (existsb control value); [done|]. cbn [orb]. unfold room_for. rewrite length_app. cbn [length].
    case_bool_decide as H2; cbn [negb mbind option_bind].
    + rewrite append_spec. unfold room_for. rewrite !length_app. cbn [length]. unfold string_text.
      repeat case_bool_decide; try lia; [|done]. cbn. by rewrite <- !app_assoc.
    + by rewrite bool_decide_eq_false_2 by lia.
  - destruct (existsb control value); [done|]. cbn. by rewrite bool_decide_eq_false_2 by lia.
Qed.

Lemma escape_body value : existsb control value = false -> string_body (escape value) /\ unescape (escape value) = value.
Proof.
  induction value as [|c value IH]; [split; [constructor|done]|]. cbn [existsb]. intros [Hc Hv]%orb_false_iff.
  destruct (IH Hv) as [Hb Hu]. rewrite escape_cons. unfold escape_character.
  destruct (is_char c backslash) eqn:E1; [|destruct (is_char c quote) eqn:E2].
  - apply is_char_true in E1 as ->. split; [by apply sb_escape|]. cbn. by rewrite Hu.
  - apply is_char_true in E2 as ->. split; [by apply sb_escape|]. cbn. by rewrite Hu.
  - cbn. rewrite E1, Hu. split; [|done].
    apply sb_plain; [by apply Z.ltb_ge|by apply is_char_false|by apply is_char_false|done].
Qed.

(** [JsonWriter::append_string] appends the value as a JSON string that reads back: the
    characters between the quotes are a string body of the grammar that the parser accepts, and
    undoing the escapes gives the value; it fails exactly when the value has a control character
    or the text does not fit, and then nothing is taken for written. *)
Theorem append_string_roundtrip (value writer : text) :
  (length writer <= maximum_document_bytes)%nat ->
  match append_string value writer with
  | Some writer' => exists body, writer' = writer ++ string_text body /\ string_body body /\ unescape body = value /\
      string_loop (body ++ [quote]) = Some (length body) /\ (length writer' <= maximum_document_bytes)%nat
  | None => (exists c, c ∈ value /\ code c < 32) \/
      (maximum_document_bytes < length writer + length (string_text (escape value)))%nat
  end.
Proof.
  intros Hw. rewrite append_string_exact by done. destruct (existsb control value) eqn:Hc; cbn [orb].
  - left. apply existsb_exists in Hc as (c & Hin & Hc). exists c. split; [by apply list_elem_of_In|by apply Z.ltb_lt].
  - unfold room_for. case_bool_decide as Hr; cbn [negb]; [|right; lia].
    destruct (escape_body value Hc) as [Hb Hu]. exists (escape value). split; [done|]. split; [done|]. split; [done|].
    split; [by apply string_loop_complete|]. rewrite length_app. lia.
Qed.

Lemma append_string_roundtrip_witness :
  exists body, append_string [quote; "a"%char; backslash] [] = Some (string_text body) /\ unescape body = [quote; "a"%char; backslash].
Proof.
  pose proof (append_string_roundtrip [quote; "a"%char; backslash] [] ltac:(cbn; lia)) as H.
  destruct (append_string [quote; "a"%char; backslash] []) as [w|] eqn:E; [|by vm_compute in E].
  destruct H as (body & -> & _ & Hu & _). by exists body.
Defined.

Lemma digit_char v : 0 <= v -> let c := ascii_of_N (Z.to_N (48 + v mod 10)) in
  is_digit c = true /\ digit_value c = v mod 10.
Proof.
  intros Hv c. pose proof (Z.mod_pos_bound v 10 ltac:(lia)).
  assert (Hc : code c = 48 + v mod 10) by (subst c; unfold code; rewrite N_ascii_embedding; lia).
  unfold is_digit, digit_value. rewrite Hc. split; [|lia]. by rewrite (proj2 (Z.leb_le _ _)), (proj2 (Z.leb_le _ _)) by lia.
Qed.

Lemma decimal_snoc ds c : decimal (ds ++ [c]) = decimal ds * 10 + digit_value c.
Proof. unfold decimal. by rewrite foldl_app. Qed.

Lemma digits_rev_spec fuel : forall v, 0 <= v < 10 ^ Z.of_nat fuel -> (0 < fuel)%nat ->
  let ds := rev (digits_rev fuel v) in
  digits ds /\ decimal ds = v /\ exists c rest, ds = c :: rest /\ (c = "0"%char -> rest = []).
Proof.
  induction fuel as [|fuel IH]; intros v Hv Hf; [lia|]. cbn [digits_rev].
  destruct (digit_char v ltac:(lia)) as [Hd Hval]. set (c := ascii_of_N (Z.to_N (48 + v mod 10))) in *.
  destruct (Z.ltb_spec v 10).
  - cbn. split; [by constructor|]. rewrite Hval, Z.mod_small by lia. split; [lia|]. by exists c, [].
  - rewrite Nat2Z.inj_succ, Z.pow_succ_r in Hv by lia.
    assert (Hq : 0 < v / 10 < 10 ^ Z.of_nat fuel) by (split; [apply Z.div_str_pos; lia|apply Z.div_lt_upper_bound; lia]).
    destruct fuel as [|fuel]; [cbn in Hv; lia|].
    destruct (IH (v / 10) ltac:(lia) ltac:(lia)) as (H1 & H2 & (x & rest & H3 & H4)).
    cbn [rev]. split; [apply Forall_app; by repeat constructor|].
    split; [rewrite decimal_snoc, H2, Hval; pose proof (Z.div_mod v 10); lia|].
    exists x, (rest ++ [c]). split; [by rewrite H3|]. intros E. exfalso. rewrite H3, (H4 E), E in H2. change (decimal _) with 0 in H2. lia.
Qed.

Lemma to_chars_number v : 0 <= v <= u64_max -> number_text (to_chars v) /\ decimal (to_chars v) = v.
Proof.
  intros Hx. unfold to_chars. rewrite (proj2 (Z.ltb_ge _ _)) by lia.
  destruct (digits_rev_spec 20 v) as (Hd & Hv & Hz); [unfold u64_max in *; lia|lia|].
  split; [|done]. split; [done|]. split; [lia|done].
Qed.

Lemma to_chars_from_chars v : 0 <= v <= u64_max -> number_text (to_chars v) /\ from_chars (to_chars v) = Some v.
Proof.
  intros Hx. destruct (to_chars_number v Hx) as [Hn Hv]. unfold from_chars. by rewrite Hv, (proj2 (Z.leb_le _ _)) by lia.
Qed.

(** A number the writer prints reads back: an unsigned value gives a number of the grammar
    of the parser, without leading zeros, whose value is the one printed; a negative value is a
    minus sign and the digits of its magnitude. *)
Theorem to_chars_roundtrip (v : Z) :
  - u64_max <= v <= u64_max ->
  if 0 <=? v then number_text (to_chars v) /\ from_chars (to_chars v) = Some v
  else to_chars v = "-"%char :: to_chars (- v) /\ from_chars (to_chars (- v)) = Some (- v).
Proof.
  intros Hv. destruct (Z.leb_spec 0 v); [apply to_chars_from_chars; lia|]. split; [|apply to_chars_from_chars; lia].
  unfold to_chars. rewrite (proj2 (Z.ltb_lt v 0)) by lia. by rewrite (proj2 (Z.ltb_ge (- v) 0)) by lia.
Qed.

Lemma to_chars_roundtrip_witness : to_chars (-120) = word "-120" /\ from_chars (to_chars 120) = Some 120.
Proof.
  pose proof (to_chars_roundtrip (-120) ltac:(unfold u64_max; lia)) as H. cbn [Z.leb Z.compare Z.opp] in H.
  split; [reflexivity|apply H].
Defined.

(** * Whole texts through partial and interrupted calls

    [PosixLaws] states what the evaluator relies on of [open], [read], [write] and [close]: a
    read returns the next bytes of the file, a write appends a prefix of the buffer, an
    interrupted call transfers nothing, interruptions come to an end, and writing does not
    change the files that are read.  The theorems are about [write_all] and [read_file] over
    every such system; [Simulated] is one. *)

(** What can be observed of a world: the text of each file, what is left to read of each open
    descriptor, what has been written to each descriptor, a bound on the interruptions still to
    come, and whether calls can still fail. *)
Class Observation (W : Type) := {
  content : text -> W -> option text;
  unread : Z -> W -> text;
  written : Z -> W -> text;
  patience : W -> nat;
  reliable : W -> Prop }.

Section observed.
Context {W : Type} `{!Observation W}.

(** Nothing but the output on descriptors that satisfy [touched] and what is left to read
    changes, and no interruption or failure is added. *)
Definition evolves (touched : Z -> Prop) (w w' : W) : Prop :=
  (forall path, content path w' = content path w) /\ (forall fd, ~ touched fd -> written fd w' = written fd w) /\
  (patience w' <= patience w)%nat /\ (reliable w -> reliable w').

Abbreviation stable := (evolves (fun _ => False)).

Lemma evolves_refl P w : evolves P w w.
Proof. done. Qed.

Lemma evolves_trans (P : Z -> Prop) w1 w2 w3 : evolves P w1 w2 -> evolves P w2 w3 -> evolves P w1 w3.
Proof.
  intros (A1 & B1 & C1 & D1) (A2 & B2 & C2 & D2). split; [intros p; by rewrite A2|].
  split; [intros fd H; by rewrite B2, B1|]. split; [lia|auto].
Qed.

Lemma stable_evolves P w w' : stable w w' -> evolves P w w'.
Proof. intros (A & B & C & D). split; [done|]. split; [|done]. intros fd _. apply B. by intros []. Qed.

Lemma stable_written w w' fd : stable w w' -> written fd w' = written fd w.
Proof. intros (_ & B & _). apply B. intros []. Qed.
End observed.
Abbreviation stable := (evolves (fun _ => False)).

Class PosixLaws {W} (os : Posix W) `{!Observation W} : Prop := {
  open_law path w :
    let '(fd, w') := sys_open os path w in
    stable w w' /\
    match fd with Some fd => content path w = Some (unread fd w') | None => reliable w -> content path w = None end;
  read_law fd n w : (0 < n)%nat ->
    let '(r, w') := sys_read os fd n w in
    stable w w' /\
    match r with
    | Done bytes => (length bytes <= n)%nat /\ unread fd w = bytes ++ unread fd w' /\ (bytes = [] -> unread fd w = [])
    | Interrupted => (patience w' < patience w)%nat /\ unread fd w' = unread fd w
    | Failed => ~ reliable w
    end;
  write_law fd value w : value <> [] ->
    let '(r, w') := sys_write os fd value w in
    evolves (fun x => x = fd) w w' /\
    match r with
    | Done n => (n <= length value)%nat /\ written fd w' = written fd w ++ take n value /\ (reliable w -> (0 < n)%nat)
    | Interrupted => (patience w' < patience w)%nat /\ written fd w' = written fd w
    | Failed => written fd w' = written fd w /\ ~ reliable w
    end;
  close_law fd w : stable w (sys_close os fd w) }.

Section transfers.
Context {W : Type} (os : Posix W) `{!Observation W} `{!PosixLaws os}.

(** What a run of [write_all] did: sent a prefix of the value, all of it when it succeeds. *)
Definition sends (fd : Z) (value : text) (w : W) (result : bool * W) : Prop :=
  let '(ok, w') := result in
  evolves (fun x => x = fd) w w' /\
  exists sent, written fd w' = written fd w ++ sent /\ sent `prefix_of` value /\ (ok = true <-> sent = value) /\
    (reliable w -> ok = true).

Lemma sends_more fd n value w w1 result : (0 < n <= length value)%nat -> evolves (fun x => x = fd) w w1 ->
  written fd w1 = written fd w ++ take n value -> sends fd (drop n value) w1 result -> sends fd value w result.
Proof.
  intros Hn He Hw. destruct result as [ok w']. intros (He' & sent & Hs & Hp & Hok & Hr).
  split; [by eapply evolves_trans|]. exists (take n value ++ sent). rewrite Hs, Hw, app_assoc. split; [done|].
  rewrite <- (take_drop n value) at 2. split; [by apply prefix_app|]. split.
  - rewrite <- (take_drop n value) at 2. rewrite Hok. split; [by intros ->|]. apply app_inv_head.
  - intros Hrel. by apply Hr, He.
Qed.

Lemma write_all_sends fuel fd : forall value w, (length value + patience w <= fuel)%nat ->
  run_to (write_all os fuel fd value w) (sends fd value w).
Proof.
  induction fuel as [|fuel IH]; intros [|c value] w Hf.
  - eexists. split; [done|]. split; [done|]. exists []. by rewrite app_nil_r.
  - cbn in Hf. lia.
  - eexists. split; [done|]. split; [done|]. exists []. by rewrite app_nil_r.
  - cbn [write_all]. pose proof (write_law fd (c :: value) w ltac:(done)) as Hlaw.
    destruct (sys_write os fd (c :: value) w) as [r w1]. destruct Hlaw as [He Hr]. destruct r as [[|n]| |].
    + destruct Hr as (_ & Hw & Hrel). eexists. split; [done|]. split; [done|]. exists [].
      rewrite Hw. split; [done|]. split; [apply prefix_nil|]. split; [done|]. intros H%Hrel. lia.
    + destruct Hr as (Hn & Hw & _). rewrite bool_decide_eq_false_2 by lia.
      eapply run_to_mono; [|intros result; by apply (sends_more fd (S n) (c :: value) w w1); [lia|done|done]].
      apply IH. rewrite length_drop. destruct He as (_ & _ & Hpat & _). cbn in *. lia.
    + destruct Hr as [Hpat Hw]. destruct (IH (c :: value) w1) as ([ok w2] & Hrun & He2 & sent & Hs & Hp & Hok & Hrel).
      { lia. }
      exists (ok, w2). split; [done|]. split; [by eapply evolves_trans|]. exists sent. rewrite Hs, Hw. split; [done|].
      split; [done|]. split; [done|]. intros Hr. by apply Hrel, He.
    + destruct Hr as [Hw Hrel]. eexists. split; [done|]. split; [done|]. exists []. rewrite app_nil_r.
      split; [done|]. split; [apply prefix_nil|]. split; [done|]. by intros ?%Hrel.
Qed.

(** C40: [write_all] ends on every system whose interruptions come to an end, and delivers: it
    writes the bytes of the text in order and without gaps or repetitions however the calls
    split them, returns success exactly when all of them were written, and always succeeds when
    no call fails; no other output and no file changes. *)
Theorem write_all_delivers (fuel : nat) (fd : Z) (value : text) (w : W) :
  (length value + patience w <= fuel)%nat ->
  exists ok w', write_all os fuel fd value w = Ret (ok, w') /\
    evolves (fun x => x = fd) w w' /\
    exists sent, written fd w' = written fd w ++ sent /\ sent `prefix_of` value /\ (ok = true <-> sent = value) /\
      (reliable w -> ok = true).
Proof. intros Hf. destruct (write_all_sends fuel fd value w Hf) as ([ok w'] & Hrun & Hs). by exists ok, w'. Qed.

(** What the reading loop did: appended the next bytes, to the end of the file or of the
    array, unless a read failed. *)
Definition takes (fd : Z) (capacity : nat) (output : text) (w : W) (result : bool * text * W) : Prop :=
  let '(complete, output', w') := result in
  stable w w' /\ (length output' <= capacity)%nat /\
  (complete = true -> exists got, output' = output ++ got /\ unread fd w = got ++ unread fd w') /\
  (complete = true -> (length output' < capacity)%nat -> unread fd w' = []) /\ (reliable w -> complete = true).

Lemma takes_more fd capacity output bytes w w1 result : stable w w1 -> unread fd w = bytes ++ unread fd w1 ->
  takes fd capacity (output ++ bytes) w1 result -> takes fd capacity output w result.
Proof.
  intros He Hu. destruct result as [[complete out] w']. intros (He' & Hl & Hg & Hc & Hr).
  split; [by eapply evolves_trans|]. split; [done|]. split.
  - intros (got & -> & Hg')%Hg. exists (bytes ++ got). by rewrite Hu, Hg', !app_assoc.
  - split; [done|]. intros Hrel. by apply Hr, He.
Qed.

Lemma read_loop_takes fuel fd capacity : forall output w, (length output <= capacity)%nat ->
  (capacity - length output + patience w <= fuel)%nat ->
  run_to (read_loop os fuel fd capacity output w) (takes fd capacity output w).
Proof.
  assert (Hend : forall output w, length output = capacity -> takes fd capacity output w (true, output, w)).
  { intros output w Hl. split; [done|]. split; [lia|]. split; [intros _; by exists []; rewrite app_nil_r|]. split; [lia|done]. }
  induction fuel as [|fuel IH]; intros output w Hl Hf; cbn [read_loop].
  { rewrite bool_decide_eq_true_2 by lia. eexists. split; [done|]. apply Hend. lia. }
  case_bool_decide as Hcap; [eexists; split; [done|]; apply Hend; lia|].
  pose proof (read_law fd (capacity - length output) w ltac:(lia)) as Hlaw.
  destruct (sys_read os fd (capacity - length output) w) as [r w1]. destruct Hlaw as [He Hr].
  destruct r as [[|c bytes]| |].
  - destruct Hr as (_ & Hu & Hempty). eexists. split; [done|]. split; [done|]. split; [done|].
    split; [intros _; exists []; by rewrite app_nil_r|]. split; [|done]. intros _ _. by rewrite <- (Hempty eq_refl), Hu.
  - destruct Hr as (Hn & Hu & _). rewrite bool_decide_eq_false_2 by lia.
    eapply run_to_mono; [|intros result; by apply (takes_more fd capacity output (c :: bytes) w w1)].
    destruct He as (_ & _ & Hpat & _). apply IH; rewrite length_app; cbn in *; lia.
  - destruct Hr as [Hpat Hu]. eapply run_to_mono; [apply (IH output w1); [done|lia]|]. intros result Ht.
    apply (takes_more fd capacity output [] w w1); [done|by rewrite Hu|by rewrite app_nil_r].
  - eexists. split; [done|]. split; [done|]. split; [done|]. split; [done|]. split; [done|]. by intros ?%Hr.
Qed.

(** The result of [read_file] against the file. *)
Definition reads_file (path : text) (capacity : nat) (w : W) (result : option text * W) : Prop :=
  let '(r, w') := result in
  stable w w' /\
  match r with
  | Some t => content path w = Some t /\ (length t <= capacity)%nat
  | None => reliable w -> forall t, content path w = Some t ->
      (capacity < length t)%nat \/ length t = capacity /\ (0 < patience w)%nat
  end.

Lemma read_file_reads fuel path capacity w : (capacity + patience w <= fuel)%nat ->
  run_to (read_file os fuel path capacity w) (reads_file path capacity w).
Proof.
  intros Hf. unfold read_file. pose proof (open_law path w) as Hopen. destruct (sys_open os path w) as [[fd|] w1].
  2:{ destruct Hopen as [He Hc]. eexists. split; [done|]. split; [done|]. intros Hr t. by rewrite Hc. }
  destruct Hopen as [He Hc]. assert (Hpat : (patience w1 <= patience w)%nat) by apply He.
  destruct (read_loop_takes fuel fd capacity [] w1) as ([[complete out] w2] & -> & He2 & Hl & Hg & Hend & Hrel);
    [cbn; lia|cbn; lia|].
  rewrite outcome_bind_Ret. assert (Hs : stable w w2) by (by eapply evolves_trans).
  assert (Hrel1 : reliable w -> complete = true) by (intros H; by apply Hrel, He).
  case_bool_decide as Hcap.
  - pose proof (read_law fd 1 w2 ltac:(lia)) as Hread. destruct (sys_read os fd 1 w2) as [r w3]. destruct Hread as [He3 Hr].
    eexists. split; [reflexivity|].
    split; [eapply evolves_trans; [done|]; eapply evolves_trans; [done|apply close_law]|].
    destruct complete; [|destruct r as [[|]| |]; by intros ?%Hrel1]. destruct (Hg eq_refl) as (got & -> & Hu).
    rewrite Hc, Hu. clear Hc Hu Hg. cbn [app] in *. destruct r as [[|c bytes]| |].
    + destruct Hr as (_ & _ & ->); [|done]. rewrite app_nil_r. split; [done|lia].
    + destruct Hr as (_ & -> & _). intros _ t [= <-]. left. rewrite length_app. cbn. lia.
    + destruct Hr as [Hr _]. assert (patience w2 <= patience w)%nat by apply Hs. intros _ t [= <-]. rewrite length_app. lia.
    + intros H. by apply Hs in H.
  - eexists. split; [reflexivity|]. split; [eapply evolves_trans; [done|apply close_law]|]. destruct complete.
    + destruct (Hg eq_refl) as (got & -> & Hu). rewrite Hc, Hu, Hend, app_nil_r by (done || lia). done.
    + by intros ?%Hrel1.
Qed.

(** [read_file] ends on every system whose interruptions come to an end, and reads whole
    files: what it returns is the complete text of the file, however the reads split it and
    whatever interrupted them, never a part of it and never more than the capacity; when no call
    fails it refuses only a missing file, a file that is too long, or a file of exactly the
    capacity when a call is interrupted.  It leaves every file and every output as it was. *)
Theorem read_file_whole (fuel : nat) (path : text) (capacity : nat) (w : W) :
  (capacity + patience w <= fuel)%nat ->
  exists r w', read_file os fuel path capacity w = Ret (r, w') /\ stable w w' /\
    match r with
    | Some t => content path w = Some t /\ (length t <= capacity)%nat
    | None => reliable w -> forall t, content path w = Some t ->
        (capacity < length t)%nat \/ length t = capacity /\ (0 < patience w)%nat
    end.
Proof. intros Hf. destruct (read_file_reads fuel path capacity w Hf) as ([r w'] & Hrun & Hs). by exists r, w'. Qed.
End transfers.

(** ** A system *)
Module Simulated.
Record World := MkWorld {
  files : text -> option text;
  left : Z -> text;
  sent : Z -> text;
  interruptions : nat;
  next : Z }.

Definition update {A} (f : Z -> A) (k : Z) (a : A) : Z -> A := fun x => if x =? k then a else f x.

(** Every call is interrupted while interruptions remain; a transfer moves three bytes at most. *)
Definition chunk : nat := 3.
Definition interrupt (w : World) (n : nat) : World := MkWorld (files w) (left w) (sent w) n (next w).

Definition os : Posix World := {|
  sys_open path w :=
    match files w path with
    | Some t => (Some (next w), MkWorld (files w) (update (left w) (next w) t) (sent w) (interruptions w) (next w + 1))
    | None => (None, w)
    end;
  sys_read fd n w :=
    match interruptions w with
    | S k => (Interrupted, interrupt w k)
    | O => let n := Nat.min n chunk in
           (Done (take n (left w fd)),
            MkWorld (files w) (update (left w) fd (drop n (left w fd))) (sent w) O (next w))
    end;
  sys_write fd value w :=
    match interruptions w with
    | S k => (Interrupted, interrupt w k)
    | O => let n := Nat.min (length value) chunk in
           (Done n, MkWorld (files w) (left w) (update (sent w) fd (sent w fd ++ take n value)) O (next w))
    end;
  sys_close fd w := MkWorld (files w) (update (left w) fd []) (sent w) (interruptions w) (next w) |}.

#[export] Instance observation : Observation World := {|
  content path w := files w path;
  unread fd w := left w fd;
  written fd w := sent w fd;
  patience w := interruptions w;
  reliable w := True |}.

Lemma update_eq {A} (f : Z -> A) k a : update f k a k = a.
Proof. unfold update. by rewrite Z.eqb_refl. Qed.
Lemma update_ne {A} (f : Z -> A) k a x : x <> k -> update f k a x = f x.
Proof. unfold update. intros H. by rewrite (proj2 (Z.eqb_neq _ _)). Qed.

#[export] Instance laws : PosixLaws os.
Proof.
  split.
  - intros path w. cbn. destruct (files w path) as [t|] eqn:E; [|done]. split; [done|]. cbn. by rewrite update_eq.
  - intros fd n w Hn. cbn. destruct (interruptions w) as [|k] eqn:E; cbn.
    + split; [split; [done|]; split; [done|]; cbn; lia|]. rewrite update_eq, take_drop. split; [rewrite length_take; lia|].
      split; [done|]. destruct (left w fd); [done|]. by destruct n; [lia|].
    + split; [split; [done|]; split; [done|]; cbn; lia|]. split; [lia|done].
  - intros fd value w Hv. cbn. destruct (interruptions w) as [|k] eqn:E; cbn.
    + split; [split; [done|]; split; [intros x Hx; cbn; by apply update_ne|]; cbn; lia|].
      rewrite update_eq. split; [lia|]. split; [done|]. intros _. destruct value; [done|]. cbn. lia.
    + split; [split; [done|]; split; [done|]; cbn; lia|]. split; [lia|done].
  - intros fd w. split; [done|]. split; [done|]. cbn. lia.
Qed.

(** A world with one file and two interruptions to come. *)
Definition start : World :=
  MkWorld (fun path => if bool_decide (path = word "a") then Some (word "laghu!") else None)
    (fun _ => []) (fun _ => []) 2 3.
End Simulated.
#[export] Existing Instances Simulated.observation Simulated.laws.

Lemma write_all_delivers_witness :
  exists w', write_all Simulated.os 9 stdout_fileno (word "result") Simulated.start = Ret (true, w') /\
    Simulated.sent w' stdout_fileno = word "result".
Proof.
  assert (Hf : (length (word "result") + patience Simulated.start <= 9)%nat) by (cbn; lia).
  destruct (write_all_delivers Simulated.os 9 stdout_fileno (word "result") Simulated.start Hf)
    as (ok & w' & Hrun & _ & sent & Hs & _ & Hok & Hrel).
  specialize (Hrel I). subst ok. exists w'. split; [done|]. rewrite <- (proj1 Hok eq_refl). exact Hs.
Defined.

Lemma read_file_whole_witness :
  exists r w', read_file Simulated.os 12 (word "a") 10 Simulated.start = Ret (r, w') /\ r = Some (word "laghu!").
Proof.
  assert (Hf : (10 + patience Simulated.start <= 12)%nat) by (cbn; lia).
  destruct (read_file_whole Simulated.os 12 (word "a") 10 Simulated.start Hf) as (r & w' & Hrun & _ & Hr).
  exists r, w'. split; [done|]. destruct r as [t|].
  - destruct Hr as [Hr _]. symmetry. exact Hr.
  - specialize (Hr I (word "laghu!") eq_refl). vm_compute in Hr. lia.
Defined.
