(* ===== verification/EvaluatorMain.v ===== *)
(** * What the evaluator decides

    [program] describes the evaluator without system calls: its exit code and its two outputs
    as a function of the arguments and of the texts of the files.  [main] computes it over every
    system that keeps the laws of [EvaluatorIo], and the exit code of a comparison says whether
    a hard rule is violated: whether the lower bound of the confidence interval of its metric
    exceeds the allowed regression and the noise band together. *)
From S2P Require Import Prelude Json JsonSpec Regression Manifest Artifact Evaluator EvaluatorIo.
From Stdlib Require Import ZArith Lia Ascii String.
From stdpp Require Import base numbers list option sorting.

Set Default Goal Selector "!".
#[local] Open Scope Z_scope.

(** ** The reference *)
Record Run := MkRun { run_code : ExitCode; run_out : text; run_err : text }.
Definition refuse (code : ExitCode) (messages : list text) : outcome Run := Ret (MkRun code [] (concat messages)).

Section reference.
Context (files : text -> option text).

Definition artifact_at (path : text) : outcome (text + Artifact) :=
  match files path with None => Ret (inl (word "document")) | Some t => load_artifact_text t end.

Definition manifest_at (path : text) : outcome (text + list Rule) :=
  match files path with
  | None => Ret (inl (word "document"))
  | Some t => rules ← parse_manifest_text t;
              Ret (match rules with inl e => inl (manifest_error e) | inr rules => inr rules end)
  end.

Definition program_environment (path : text) : outcome Run :=
  artifact ← artifact_at path;
  match artifact with
  | inl error => refuse invalid_input (message "artifact=environment; field=" error)
  | inr a =>
      if a_cpu_description_available a
      then Ret (MkRun exit_success (hex_environment (environment_hash a) ++ [newline]) [])
      else refuse invalid_input [word "laghu-benchmark-evaluate: environment=hardware_identity_unavailable" ++ [newline]]
  end.

(** The end of a comparison of two compatible artifacts under a manifest. *)
Definition conclude (baseline candidate : Artifact) (rules : list Rule) : outcome Run :=
  results ← evaluate_rules baseline candidate rules;
  match results with
  | inl messages => refuse invalid_input messages
  | inr results =>
      let hard := existsb is_hard_failure results in
      Ret (match result_document baseline results hard with
           | Some document => MkRun (if hard then hard_regression else exit_success) document []
           | None => MkRun output_failure [] []
           end)
  end.

Definition program_compare (baseline_path candidate_path manifest_path : text) : outcome Run :=
  baseline ← artifact_at baseline_path;
  match baseline with
  | inl error => refuse invalid_input (message "artifact=baseline; field=" error)
  | inr baseline =>
  candidate ← artifact_at candidate_path;
  match candidate with
  | inl error => refuse invalid_input (message "artifact=candidate; field=" error)
  | inr candidate =>
  match equal_configuration baseline candidate with
  | Some error => refuse invalid_input (message "compatibility=" error)
  | None =>
  manifest ← manifest_at manifest_path;
  match manifest with
  | inl error => refuse invalid_input (message "manifest=" error)
  | inr rules => conclude baseline candidate rules
  end end end end.

Definition program (arguments : list text) : outcome Run :=
  match parse_options arguments with
  | None => refuse invalid_arguments [usage_text]
  | Some (MkOptions _ _ _ (Some environment)) => program_environment environment
  | Some (MkOptions (Some baseline) (Some candidate) (Some manifest) None) => program_compare baseline candidate manifest
  | Some _ => Stop Undefined
  end.
End reference.

(** ** Rules *)

(** An artifact as the loader returns it. *)
Lemma metric_of_wf a name : artifact_wf a -> metric_id name <> invalid_metric ->
  exists s, metric_of a (metric_id name) = Ret s /\ series_wf s /\ a_metrics a !! metric_index (metric_id name) = Some s.
Proof.
  intros ((intervals & Hi & Hall) & Hlen & _) Hid.
  assert (Hindex : (metric_index (metric_id name) < 6)%nat).
  { unfold metric_id in *. repeat case_match; try (cbn; lia). done. }
  destruct (lookup_lt_is_Some_2 (a_metrics a) (metric_index (metric_id name))) as [s Hs]; [lia|].
  exists s. unfold metric_of, slot. rewrite Nat2Z.id, Hs. split; [done|]. split; [|done].
  assert (Hs' : series_of intervals s) by (by eapply (Forall_lookup_1 (series_of intervals))).
  unfold series_wf, series_of in *. intros Ha. rewrite Ha in Hs'. destruct Hs' as (_ & Hn & Hf). split; [|done].
  unfold maximum_samples. lia.
Qed.

(** What the verdict on a rule says. *)
Definition rule_verdict (b c : Artifact) (rule : Rule) (v : option Verdict) : Prop :=
  match v with
  | None => r_workload rule <> a_workload b
  | Some v =>
      r_workload rule = a_workload b /\ r_reference_environment rule = hex_environment (environment_hash b) /\
      let threshold := r_allowed_regression_ppm rule + r_noise_band_ppm rule in
      threshold <= u64_max /\ (vd_regression v = true <-> threshold < vd_lower v) /\
      exists sb sc, let metric := metric_id (r_metric rule) in
        a_metrics b !! metric_index metric = Some sb /\ a_metrics c !! metric_index metric = Some sc /\
        interval_spec sb sc metric (r_higher_is_better rule) (bootstrap_success (vd_lower v) (vd_upper v))
  end.

(** Why a rule cannot be evaluated. *)
Definition rule_refused (b c : Artifact) (rule : Rule) : Prop :=
  r_workload rule = a_workload b /\
  (r_reference_environment rule <> hex_environment (environment_hash b) \/
   u64_max < r_allowed_regression_ppm rule + r_noise_band_ppm rule \/
   exists sb sc, let metric := metric_id (r_metric rule) in
     a_metrics b !! metric_index metric = Some sb /\ a_metrics c !! metric_index metric = Some sc /\
     forall lower upper, ~ interval_spec sb sc metric (r_higher_is_better rule) (bootstrap_success lower upper)).

Definition rule_wf (rule : Rule) : Prop :=
  metric_id (r_metric rule) <> invalid_metric /\
  0 <= r_allowed_regression_ppm rule <= u64_max /\ 0 <= r_noise_band_ppm rule <= u64_max.

Lemma percent_text_range s v : percent_text s v -> 0 <= v <= u64_max.
Proof.
  intros (whole & fraction & _ & Hw & Hf & Hl & _ & -> & Hle). split; [|done].
  assert (0 <= decimal whole) by (apply (digits_from_mono 0); [lia|done]).
  assert (0 <= decimal fraction) by (apply (digits_from_mono 0); [lia|done]).
  assert (0 <= 10 ^ (4 - Z.of_nat (length fraction))) by lia. nia.
Qed.

Lemma manifest_rules_wf t rules : manifest_of t rules -> Forall rule_wf rules.
Proof.
  intros (H & _). apply Forall_lookup. intros i r Hr. destruct (Forall2_lookup_r _ _ _ _ _ H Hr) as (line & _ & Hline).
  destruct Hline as (al & nb & _ & _ & _ & Hid & Ha & Hn & _). split; [done|]. by split; eapply percent_text_range.
Qed.

(** A bootstrap that fails has no interval. *)
Lemma interval_spec_exclusive sb sc metric higher result lower upper :
  interval_spec sb sc metric higher result -> interval_spec sb sc metric higher (bootstrap_success lower upper) ->
  exists l u, result = bootstrap_success l u.
Proof.
  unfold interval_spec. intros Hr (Ha & Hu & _ & l & Hl & _). destruct result as [lo up| | |]; [by eauto|..]; exfalso.
  - destruct Hr as [Hr|(_ & _ & i & Hi & He & _)]; [done|].
    apply (f_equal (.!! i)) in Hl. rewrite !list_lookup_fmap, lookup_seq_lt in Hl by done.
    cbn in Hl. rewrite He in Hl. by destruct (l !! i).
  - by apply Hu, Hr.
  - destruct Hr as (_ & _ & i & Hi & He & _).
    apply (f_equal (.!! i)) in Hl. rewrite !list_lookup_fmap, lookup_seq_lt in Hl by done.
    cbn in Hl. rewrite He in Hl. by destruct (l !! i).
Qed.

Lemma evaluate_rule_spec b c rule : artifact_wf b -> artifact_wf c -> rule_wf rule ->
  run_to (evaluate_rule b c rule)
    (fun r => match r with inl _ => rule_refused b c rule | inr v => rule_verdict b c rule v end).
Proof.
  intros Hb Hc (Hid & Ha & Hn). unfold evaluate_rule.
  destruct (differ (r_workload rule) (a_workload b)) eqn:Ew.
  { eexists. split; [done|]. cbn. intros E%differ_false. by rewrite E in Ew. }
  apply differ_false in Ew. destruct (differ (r_reference_environment rule) _) eqn:Ee.
  { eexists. split; [done|]. split; [done|]. left. intros E%differ_false. by rewrite E in Ee. }
  apply differ_false in Ee.
  destruct (metric_of_wf b (r_metric rule) Hb Hid) as (sb & -> & Hsb & Lb).
  destruct (metric_of_wf c (r_metric rule) Hc Hid) as (sc & -> & Hsc & Lc). rewrite !outcome_bind_Ret.
  assert (Hno : (forall lower upper, ~ interval_spec sb sc (metric_id (r_metric rule)) (r_higher_is_better rule)
    (bootstrap_success lower upper)) -> rule_refused b c rule).
  { intros H. split; [done|]. right. right. by exists sb, sc. }
  destruct (negb (ms_available sb) || negb (ms_available sc)) eqn:Hav.
  { eexists. split; [done|]. apply Hno. intros lo up ((A1 & A2) & _). by rewrite A1, A2 in Hav. }
  destruct (bootstrap_exact sb sc (metric_id (r_metric rule)) (r_higher_is_better rule) Hsb Hsc) as (result & -> & Hres).
  rewrite outcome_bind_Ret. destruct result as [lo up| | |].
  2-4: eexists; split; [done|]; apply Hno; intros lo up H; by destruct (interval_spec_exclusive _ _ _ _ _ _ _ Hres H) as (? & ? & ?).
  destruct (Z.ltb_spec (u64_max - r_noise_band_ppm rule) (r_allowed_regression_ppm rule)).
  { eexists. split; [done|]. split; [done|]. right. left. lia. }
  eexists. split; [done|]. split; [done|]. split; [done|]. split; [lia|]. cbn [vd_regression vd_lower vd_upper].
  rewrite u64_small by lia. split; [rewrite andb_true_iff, !Z.ltb_lt; lia|]. by exists sb, sc.
Qed.

Lemma evaluate_rules_spec b c rules : artifact_wf b -> artifact_wf c -> Forall rule_wf rules ->
  run_to (evaluate_rules b c rules)
    (fun r => match r with
              | inl _ => Exists (rule_refused b c) rules
              | inr results => rules = fst <$> results /\ Forall (fun '(rule, v) => rule_verdict b c rule v) results
              end).
Proof.
  intros Hb Hc. induction 1 as [|rule rules Hrule Hrules IH]; [by eexists|]. cbn [evaluate_rules].
  destruct (evaluate_rule_spec b c rule Hb Hc Hrule) as (v & -> & Hv). rewrite outcome_bind_Ret.
  destruct v as [m|v]; [eexists; split; [done|]; by apply Exists_cons_hd|].
  destruct IH as (rest & -> & Hrest). rewrite outcome_bind_Ret. eexists. split; [done|]. destruct rest as [m|rest].
  - by apply Exists_cons_tl.
  - destruct Hrest as [-> Hrest]. split; [done|]. by constructor.
Qed.

(** ** Verdicts are determined *)
Lemma order_statistic_unique k l x y : order_statistic k l x -> order_statistic k l y -> x = y.
Proof.
  assert (H : forall x y, order_statistic k l x -> order_statistic k l y -> ~ x < y).
  { intros a b [_ Ha] [_ Hb] Hlt.
    assert (length (filter (fun z => z <= a)%Z l) <= length (filter (fun z => z < b)%Z l))%nat; [|lia].
    clear Ha Hb. induction l as [|z l' IH]; [done|]. rewrite !filter_cons.
    destruct (decide (z <= a)), (decide (z < b)); cbn; lia. }
  intros Hx Hy. pose proof (H x y Hx Hy). pose proof (H y x Hy Hx). lia.
Qed.

Lemma interval_unique sb sc metric higher lo up lo' up' :
  interval_spec sb sc metric higher (bootstrap_success lo up) ->
  interval_spec sb sc metric higher (bootstrap_success lo' up') -> lo = lo' /\ up = up'.
Proof.
  intros (_ & _ & _ & l & Hl & H1 & H2) (_ & _ & _ & l' & Hl' & H1' & H2').
  assert (l = l') as <-.
  { apply (inj (fmap (@inr BootstrapResult Z))). by rewrite Hl, Hl'. }
  split; by eapply order_statistic_unique.
Qed.

Lemma rule_verdict_unique b c rule v v' : rule_verdict b c rule v -> rule_verdict b c rule v' -> v = v'.
Proof.
  destruct v as [[lo up r]|], v' as [[lo' up' r']|]; cbn [rule_verdict]; [|by intros (? & _)|by intros ? (? & _)|done].
  intros (_ & _ & _ & Hr & sb & sc & Lb & Lc & Hi) (_ & _ & _ & Hr' & sb' & sc' & Lb' & Lc' & Hi').
  rewrite Lb in Lb'. rewrite Lc in Lc'. injection Lb' as <-. injection Lc' as <-.
  cbn [vd_lower vd_upper] in Hi, Hi'. destruct (interval_unique _ _ _ _ _ _ _ _ Hi Hi') as [-> ->]. do 2 f_equal. apply eq_true_iff_eq. cbn [vd_regression vd_lower vd_upper] in *. by rewrite Hr, Hr'.
Qed.

(** A hard rule whose confidence interval lies above what it allows. *)
Definition violated (b c : Artifact) (rule : Rule) : Prop :=
  r_hard rule = true /\ exists v, rule_verdict b c rule (Some v) /\
    r_allowed_regression_ppm rule + r_noise_band_ppm rule < vd_lower v.

Lemma hard_failure_violated b c rule v : rule_verdict b c rule v -> is_hard_failure (rule, v) = true <-> violated b c rule.
Proof.
  intros Hv. unfold violated. destruct v as [v|]; cbn [is_hard_failure].
  - rewrite andb_true_iff. split.
    + intros [Hh Hr]. split; [done|]. exists v. split; [done|]. by apply Hv.
    + intros (Hh & v' & Hv' & Hlt). split; [done|]. pose proof (rule_verdict_unique _ _ _ _ _ Hv Hv') as [= ->]. by apply Hv'.
  - split; [done|]. intros (_ & v' & Hv' & _). by pose proof (rule_verdict_unique _ _ _ _ _ Hv Hv').
Qed.

Lemma any_hard_failure b c results : Forall (fun '(rule, v) => rule_verdict b c rule v) results ->
  existsb is_hard_failure results = true <-> Exists (violated b c) (fst <$> results).
Proof.
  induction 1 as [|[rule v] results Hv _ IH]; cbn [existsb]; [by rewrite Exists_nil|].
  rewrite fmap_cons, Exists_cons, orb_true_iff, IH. by rewrite (hard_failure_violated b c rule v Hv).
Qed.

(** ** The decision *)
Definition compared (files : text -> option text) (arguments : list text) (b c : Artifact) (rules : list Rule) : Prop :=
  exists pb pc pm, parse_options arguments = Some (MkOptions (Some pb) (Some pc) (Some pm) None) /\
    artifact_at files pb = Ret (inr b) /\ artifact_at files pc = Ret (inr c) /\
    equal_configuration b c = None /\ manifest_at files pm = Ret (inr rules).

Definition evaluated (b c : Artifact) (rule : Rule) : Prop := exists v, rule_verdict b c rule v.

(** What the exit code says about the arguments and the files. *)
Definition decides (files : text -> option text) (arguments : list text) (r : Run) : Prop :=
  match run_code r with
  | invalid_arguments => parse_options arguments = None
  | hard_regression => exists b c rules, compared files arguments b c rules /\ Forall (evaluated b c) rules /\
      Exists (violated b c) rules
  | exit_success =>
      (exists path a, parse_options arguments = Some (MkOptions None None None (Some path)) /\
         artifact_at files path = Ret (inr a) /\ run_out r = hex_environment (environment_hash a) ++ [newline]) \/
      (exists b c rules, compared files arguments b c rules /\ Forall (evaluated b c) rules /\ ~ Exists (violated b c) rules)
  | output_failure => exists b c rules, compared files arguments b c rules /\ Forall (evaluated b c) rules
  | invalid_input => is_Some (parse_options arguments) /\ run_out r = [] /\
      forall b c rules, compared files arguments b c rules -> Exists (rule_refused b c) rules
  end.

Lemma parse_options_shapes arguments o : parse_options arguments = Some o ->
  (exists e, o = MkOptions None None None (Some e)) \/ (exists b c m, o = MkOptions (Some b) (Some c) (Some m) None).
Proof.
  unfold parse_options. destruct (options_loop arguments _) as [[b c m e]|]; [|done]. cbn.
  destruct e, b, c, m; cbn; try done; intros [= <-]; eauto.
Qed.

Lemma artifact_at_total files path : exists r, artifact_at files path = Ret r /\ forall a, r = inr a -> artifact_wf a.
Proof.
  unfold artifact_at. destruct (files path) as [t|]; [|by eexists].
  destruct (load_artifact_reading t) as (r & -> & H). exists r. split; [done|]. intros a ->.
  destruct H as [(v & _ & Hs)|[? _]]; [|done]. cbn in Hs. destruct (tree_artifact v); [done|]. apply Hs.
Qed.

Lemma manifest_at_total files path : exists r, manifest_at files path = Ret r /\ forall rules, r = inr rules -> Forall rule_wf rules.
Proof.
  unfold manifest_at. destruct (files path) as [t|]; [|by eexists].
  unfold parse_manifest_text. rewrite manifest_loop_spec by lia. rewrite drop_0, outcome_bind_Ret.
  eexists. split; [done|]. intros rules. pose proof (add_rules_sound (rule_lines t) [] []) as H. cbn [app] in H.
  destruct (add_rules [] (rule_lines t)); [done|]. intros [= ->]. eapply manifest_rules_wf. apply H; [constructor|cbn; lia|constructor].
Qed.

Lemma Forall_evaluated b c results : Forall (fun '(rule, v) => rule_verdict b c rule v) results -> Forall (evaluated b c) (fst <$> results).
Proof. induction 1 as [|[rule v] results Hv _ IH]; [constructor|]. rewrite fmap_cons. constructor; [by exists v|done]. Qed.

(** The end of a comparison, for any context in which it takes place. *)
Lemma conclude_decides files arguments b c rules :
  compared files arguments b c rules -> artifact_wf b -> artifact_wf c -> Forall rule_wf rules ->
  run_to (conclude b c rules) (decides files arguments).
Proof.
  intros Hcmp Hb Hc Hr. unfold conclude. destruct (evaluate_rules_spec b c rules Hb Hc Hr) as (res & -> & Hres).
  rewrite outcome_bind_Ret. destruct res as [messages|results].
  - eexists. split; [done|]. unfold decides. cbn [run_code run_out refuse].
    destruct Hcmp as (pb & pc & pm & Ho & Eb & Ec & Hq & Em). split; [by rewrite Ho|]. split; [done|].
    intros b' c' rules' (pb' & pc' & pm' & Ho' & Eb' & Ec' & _ & Em'). rewrite Ho in Ho'. injection Ho' as <- <- <-.
    rewrite Eb in Eb'. rewrite Ec in Ec'. rewrite Em in Em'. injection Eb' as <-. injection Ec' as <-. by injection Em' as <-.
  - destruct Hres as [-> Hv]. pose proof (any_hard_failure b c results Hv) as Hhard. pose proof (Forall_evaluated b c results Hv).
    eexists. split; [done|]. unfold decides. destruct (result_document b results (existsb is_hard_failure results)).
    + destruct (existsb is_hard_failure results); cbn [run_code].
      * exists b, c, (fst <$> results). split; [done|]. split; [done|]. by apply Hhard.
      * right. exists b, c, (fst <$> results). split; [done|]. split; [done|]. by intros ?%Hhard.
    + by exists b, c, (fst <$> results).
Qed.

(** A refusal before the rules are evaluated. *)
Lemma refuse_decides files arguments messages : is_Some (parse_options arguments) ->
  (forall b c rules, ~ compared files arguments b c rules) ->
  run_to (refuse invalid_input messages) (decides files arguments).
Proof.
  intros Ho Hn. eexists. split; [done|]. split; [done|]. split; [done|]. intros b c rules H. by apply Hn in H.
Qed.

Lemma program_total (files : text -> option text) (arguments : list text) :
  exists r, program files arguments = Ret r /\ decides files arguments r.
Proof.
  unfold program. destruct (parse_options arguments) as [o|] eqn:Ho; [|by eexists].
  destruct (parse_options_shapes _ _ Ho) as [(path & ->)|(pb & pc & pm & ->)].
  - unfold program_environment. destruct (artifact_at_total files path) as (ra & Ea & _). rewrite Ea, outcome_bind_Ret.
    assert (Hn : forall b c rules, ~ compared files arguments b c rules) by (intros b c rules (? & ? & ? & E & _); by rewrite Ho in E).
    destruct ra as [e|a]; [by apply refuse_decides; [rewrite Ho|]|].
    destruct (a_cpu_description_available a); [|by apply refuse_decides; [rewrite Ho|]].
    eexists. split; [done|]. left. by exists path, a.
  - assert (Hshape : forall b c rules, compared files arguments b c rules -> artifact_at files pb = Ret (inr b) /\
      artifact_at files pc = Ret (inr c) /\ equal_configuration b c = None /\ manifest_at files pm = Ret (inr rules)).
    { intros b c rules (? & ? & ? & E & H). rewrite Ho in E. by injection E as <- <- <-. }
    unfold program_compare. destruct (artifact_at_total files pb) as (rb & Eb & Hb). rewrite Eb, outcome_bind_Ret.
    destruct rb as [e|b].
    { apply refuse_decides; [by rewrite Ho|]. intros b c rules (E & _)%Hshape. by rewrite Eb in E. }
    destruct (artifact_at_total files pc) as (rc & Ec & Hc). rewrite Ec, outcome_bind_Ret. destruct rc as [e|c].
    { apply refuse_decides; [by rewrite Ho|]. intros b' c rules (_ & E & _)%Hshape. by rewrite Ec in E. }
    destruct (equal_configuration b c) as [e|] eqn:Eq.
    { apply refuse_decides; [by rewrite Ho|]. intros b' c' rules (E1 & E2 & E & _)%Hshape.
      rewrite Eb in E1. rewrite Ec in E2. injection E1 as <-. injection E2 as <-. by rewrite Eq in E. }
    destruct (manifest_at_total files pm) as (rm & Em & Hm). rewrite Em, outcome_bind_Ret. destruct rm as [e|rules].
    { apply refuse_decides; [by rewrite Ho|]. intros b' c' rules (_ & _ & _ & E)%Hshape. by rewrite Em in E. }
    apply conclude_decides; [by exists pb, pc, pm|by apply Hb|by apply Hc|by apply Hm].
Qed.

(** C33: the evaluator decides every input, and its exit code is right: 64 exactly for
    arguments it cannot parse; 1 only when two compatible artifacts and a manifest were read,
    every rule of it was evaluated and some hard rule for the workload is violated, the lower
    bound of the 95% interval of the change of its metric lying above the allowed regression
    plus the noise band; 0 only when no hard rule is violated (or an environment was printed);
    65 whenever an input is missing or malformed, the artifacts are not compatible or a rule
    cannot be evaluated, with nothing on the output. *)
Theorem program_decides (files : text -> option text) (arguments : list text) :
  exists r, program files arguments = Ret r /\ decides files arguments r.
Proof. apply program_total. Qed.

Lemma Ret_inj {A} (a b : A) : Ret a = Ret b -> a = b.
Proof. by intros [= ->]. Qed.

(** ** The program over a system *)
Section execution.
Context {W : Type} (os : Posix W) `{!Observation W} `{!PosixLaws os}.

(** No call fails, and no file of exactly the capacity meets an interruption. *)
Definition ready (w : W) : Prop :=
  reliable w /\ forall path t, content path w = Some t -> length t = maximum_document_bytes -> patience w = 0%nat.

Definition readable (w : W) (path : text) : option text :=
  match content path w with
  | Some t => if bool_decide (length t <= maximum_document_bytes)%nat then Some t else None
  | None => None
  end.

Lemma ready_evolves P w w' : ready w -> evolves P w w' -> ready w' /\ forall path, readable w' path = readable w path.
Proof.
  intros [Hr He] (A & _ & C & D). split.
  - split; [auto|]. intros path t. rewrite A. intros H1 H2. specialize (He path t H1 H2). lia.
  - intros path. unfold readable. by rewrite A.
Qed.

Lemma read_file_ready fuel path w : ready w -> (maximum_document_bytes + patience w <= fuel)%nat ->
  exists w', read_file os fuel path maximum_document_bytes w = Ret (readable w path, w') /\ stable w w'.
Proof.
  intros [Hr He] Hf. destruct (read_file_reads os fuel path maximum_document_bytes w Hf) as ([r w'] & -> & Hs & Hm).
  exists w'. split; [|done]. do 2 f_equal. unfold readable. destruct r as [t|].
  - destruct Hm as [-> Hl]. by rewrite bool_decide_eq_true_2.
  - specialize (Hm Hr). destruct (content path w) as [t|] eqn:Ec; [|done].
    destruct (Hm t eq_refl) as [H|[H1 H2]]; [by rewrite bool_decide_eq_false_2 by lia|].
    specialize (He path t Ec H1). lia.
Qed.

Lemma load_artifact_ready fuel path w a : ready w -> (maximum_document_bytes + patience w <= fuel)%nat ->
  artifact_at (readable w) path = Ret a -> exists w', load_artifact os fuel path w = Ret (a, w') /\ stable w w'.
Proof.
  intros Hr Hf. unfold artifact_at, load_artifact. destruct (read_file_ready fuel path w Hr Hf) as (w' & -> & Hs).
  rewrite outcome_bind_Ret. destruct (readable w path) as [t|]; [intros ->|intros [= <-]]; by eexists.
Qed.

Lemma parse_manifest_ready fuel path w m : ready w -> (maximum_document_bytes + patience w <= fuel)%nat ->
  manifest_at (readable w) path = Ret m -> exists w', parse_manifest os fuel path w = Ret (m, w') /\ stable w w'.
Proof.
  intros Hr Hf. unfold manifest_at, parse_manifest. destruct (read_file_ready fuel path w Hr Hf) as (w' & -> & Hs).
  rewrite outcome_bind_Ret. destruct (readable w path) as [t|]; [|intros [= <-]; by eexists].
  destruct (parse_manifest_text t) as [r|]; [|done]. rewrite !outcome_bind_Ret. intros [= <-]. by eexists.
Qed.

(** What a run left behind: these texts on the two outputs, and nothing else. *)
Definition leaves (w w' : W) (out err : text) : Prop :=
  evolves (fun fd => fd = stdout_fileno \/ fd = stderr_fileno) w w' /\
  written stdout_fileno w' = written stdout_fileno w ++ out /\ written stderr_fileno w' = written stderr_fileno w ++ err.

Lemma leaves_stable w1 w2 w' out err : stable w1 w2 -> leaves w2 w' out err -> leaves w1 w' out err.
Proof.
  intros Hs (He & H1 & H2). split; [eapply evolves_trans; [by apply stable_evolves|done]|].
  by rewrite H1, H2, !(stable_written w1 w2).
Qed.

Lemma write_all_ready fuel fd value w : reliable w -> (length value + patience w <= fuel)%nat ->
  exists w', write_all os fuel fd value w = Ret (true, w') /\ evolves (fun x => x = fd) w w' /\
    written fd w' = written fd w ++ value.
Proof.
  intros Hr Hf. destruct (write_all_sends os fuel fd value w Hf) as ([ok w'] & -> & He & sent & Hs & _ & Hok & Hrel).
  rewrite (Hrel Hr) in *. exists w'. split; [done|]. split; [done|]. rewrite Hs. f_equal. by apply Hok.
Qed.

Lemma evolves_weaken (P Q : Z -> Prop) w w' : (forall fd, P fd -> Q fd) -> evolves P w w' -> evolves Q w w'.
Proof. intros H (A & B & C). split; [done|]. split; [|done]. intros fd Hfd. apply B. intros HP. by apply Hfd, H. Qed.

Lemma report_ready fuel messages : forall w, reliable w -> (length (concat messages) + patience w <= fuel)%nat ->
  exists w', report os fuel messages w = Ret w' /\ leaves w w' [] (concat messages).
Proof.
  induction messages as [|m messages IH]; intros w Hr Hf; cbn [report concat].
  - exists w. split; [done|]. split; [done|]. by rewrite !app_nil_r.
  - cbn [concat] in Hf. rewrite length_app in Hf. destruct (write_all_ready fuel stderr_fileno m w Hr ltac:(lia)) as (w1 & -> & He & Hw).
    rewrite outcome_bind_Ret. destruct (IH w1) as (w' & -> & He' & H1 & H2); [by apply He| |].
    { assert (patience w1 <= patience w)%nat by apply He. lia. }
    exists w'. split; [done|]. split.
    + eapply evolves_trans; [|done]. eapply evolves_weaken; [|done]. auto.
    + rewrite H1, H2, Hw, app_assoc. split; [|done]. f_equal. by apply He.
Qed.

Definition executes (w : W) (r : Run) (m : outcome (ExitCode * W)) : Prop :=
  exists w', m = Ret (run_code r, w') /\ leaves w w' (run_out r) (run_err r).
Definition enough (fuel : nat) (w : W) (r : Run) : Prop :=
  (maximum_document_bytes + patience w + length (run_out r) + length (run_err r) <= fuel)%nat.

Lemma executes_stable w w1 r m : stable w w1 -> executes w1 r m -> executes w r m.
Proof. intros Hs (w' & Hm & Hl). exists w'. split; [done|]. by eapply leaves_stable. Qed.

Lemma enough_stable P fuel w w1 r : evolves P w w1 -> enough fuel w r -> enough fuel w1 r.
Proof. intros (_ & _ & H & _). unfold enough. lia. Qed.

Lemma refuse_executes fuel messages code w r : reliable w -> enough fuel w r -> refuse code messages = Ret r ->
  executes w r (fail_with os fuel messages code w).
Proof.
  intros Hr Hf [= <-]. unfold enough in Hf. cbn [run_out run_err length] in Hf.
  destruct (report_ready fuel messages w Hr ltac:(lia)) as (w' & E & Hl). unfold fail_with. rewrite E, outcome_bind_Ret. by exists w'.
Qed.

(** Everything a step needs after the world moved on without output. *)
Lemma step_ready fuel w w1 r : ready w -> enough fuel w r -> stable w w1 ->
  ready w1 /\ reliable w1 /\ enough fuel w1 r /\ (forall path, readable w1 path = readable w path) /\
  (maximum_document_bytes + patience w1 <= fuel)%nat.
Proof.
  intros Hr Hf Hs. destruct (ready_evolves _ w w1 Hr Hs) as [Hr1 He]. split; [done|]. split; [apply Hr1|].
  pose proof (enough_stable _ _ _ _ _ Hs Hf) as Hf1. split; [done|]. split; [done|]. unfold enough in Hf1. lia.
Qed.

Lemma write_executes fuel w value code : reliable w -> enough fuel w (MkRun code value []) ->
  exists w', write_all os fuel stdout_fileno value w = Ret (true, w') /\ leaves w w' value [].
Proof.
  intros Hr Hf. unfold enough in Hf. cbn [run_out run_err length] in Hf.
  destruct (write_all_ready fuel stdout_fileno value w Hr ltac:(lia)) as (w' & E & He & Hw). exists w'. split; [done|].
  split; [eapply evolves_weaken; [|done]; auto|]. split; [done|]. rewrite app_nil_r. by apply He.
Qed.

Lemma main_environment_executes fuel path w r : ready w -> enough fuel w r ->
  program_environment (readable w) path = Ret r -> executes w r (main_environment os fuel path w).
Proof.
  intros Hr Hf. unfold program_environment, main_environment.
  destruct (artifact_at_total (readable w) path) as (ra & Ea & _). rewrite Ea, outcome_bind_Ret.
  destruct (load_artifact_ready fuel path w ra Hr ltac:(unfold enough in Hf; lia) Ea) as (w1 & -> & Hs). rewrite outcome_bind_Ret.
  destruct (step_ready fuel w w1 r Hr Hf Hs) as (_ & Hr1 & Hf1 & _). intros E. apply (executes_stable w w1); [done|].
  destruct ra as [e|a]; [exact (refuse_executes fuel _ _ w1 r Hr1 Hf1 E)|]. unfold write_environment.
  destruct (a_cpu_description_available a); cbn [negb]; [|exact (refuse_executes fuel _ _ w1 r Hr1 Hf1 E)]. apply Ret_inj in E as <-.
  set (v := hex_environment (environment_hash a)) in *. clearbody v. unfold enough in Hf1. cbn [run_out run_err length] in Hf1.
  rewrite length_app in Hf1. cbn [length] in Hf1.
  destruct (write_all_ready fuel stdout_fileno v w1 Hr1 ltac:(lia)) as (w2 & -> & He & Hw). rewrite outcome_bind_Ret. cbn [negb].
  assert (patience w2 <= patience w1)%nat by apply He.
  destruct (write_all_ready fuel stdout_fileno [newline] w2) as (w3 & -> & He3 & Hw3); [by apply He|cbn; lia|].
  rewrite outcome_bind_Ret. exists w3. split; [done|]. split; [eapply evolves_weaken; [|by eapply evolves_trans]; auto|].
  cbn [run_out]. rewrite Hw3, Hw, <- app_assoc. split; [done|]. cbn [run_err]. rewrite app_nil_r. rewrite (proj1 (proj2 He3)) by done. by apply He.
Qed.

Lemma conclude_executes fuel b c rules w r : reliable w -> enough fuel w r -> conclude b c rules = Ret r ->
  executes w r (results ← evaluate_rules b c rules;
                match results with
                | inl messages => fail_with os fuel messages invalid_input w
                | inr results =>
                    let any_hard_failure := existsb is_hard_failure results in
                    '(ok, w) ← write_result os fuel b results any_hard_failure w;
                    Ret (if negb ok then output_failure else if any_hard_failure then hard_regression else exit_success, w)
                end).
Proof.
  intros Hr Hf. unfold conclude. destruct (evaluate_rules b c rules) as [[messages|results]|]; [| |done]; rewrite !outcome_bind_Ret.
  - exact (refuse_executes fuel _ _ w r Hr Hf).
  - unfold write_result. cbn zeta. destruct (result_document b results (existsb is_hard_failure results)) as [document|]; intros <-%Ret_inj.
    + destruct (write_executes fuel w document (if existsb is_hard_failure results then hard_regression else exit_success) Hr Hf)
        as (w' & -> & Hl). rewrite outcome_bind_Ret. cbn [negb]. by exists w'.
    + exists w. split; [done|]. split; [done|]. by rewrite !app_nil_r.
Qed.

Lemma artifact_at_readable w w1 path : (forall path, readable w1 path = readable w path) ->
  artifact_at (readable w1) path = artifact_at (readable w) path.
Proof. intros H. unfold artifact_at. by rewrite H. Qed.

Lemma manifest_at_readable w w1 path : (forall path, readable w1 path = readable w path) ->
  manifest_at (readable w1) path = manifest_at (readable w) path.
Proof. intros H. unfold manifest_at. by rewrite H. Qed.

Lemma main_compare_executes fuel pb pc pm w r : ready w -> enough fuel w r ->
  program_compare (readable w) pb pc pm = Ret r -> executes w r (main_compare os fuel pb pc pm w).
Proof.
  intros Hr Hf. unfold program_compare, main_compare.
  destruct (artifact_at_total (readable w) pb) as (rb & Eb & _). rewrite Eb, outcome_bind_Ret.
  destruct (load_artifact_ready fuel pb w rb Hr ltac:(unfold enough in Hf; lia) Eb) as (w1 & -> & Hs1). rewrite outcome_bind_Ret.
  destruct (step_ready fuel w w1 r Hr Hf Hs1) as (Hr1 & Hl1 & Hf1 & Hread1 & Hd1). intros E. apply (executes_stable w w1); [done|].
  destruct rb as [e|b]; [exact (refuse_executes fuel _ _ w1 r Hl1 Hf1 E)|].
  destruct (artifact_at_total (readable w) pc) as (rc & Ec & _). rewrite Ec, outcome_bind_Ret in E.
  rewrite <- (artifact_at_readable w w1 pc Hread1) in Ec.
  destruct (load_artifact_ready fuel pc w1 rc Hr1 Hd1 Ec) as (w2 & -> & Hs2). rewrite outcome_bind_Ret.
  destruct (step_ready fuel w1 w2 r Hr1 Hf1 Hs2) as (Hr2 & Hl2 & Hf2 & Hread2 & Hd2). apply (executes_stable w1 w2); [done|].
  destruct rc as [e|c]; [exact (refuse_executes fuel _ _ w2 r Hl2 Hf2 E)|].
  destruct (equal_configuration b c) as [e|]; [exact (refuse_executes fuel _ _ w2 r Hl2 Hf2 E)|].
  destruct (manifest_at_total (readable w) pm) as (rm & Em & _). rewrite Em, outcome_bind_Ret in E.
  rewrite <- (manifest_at_readable w w1 pm Hread1), <- (manifest_at_readable w1 w2 pm Hread2) in Em.
  destruct (parse_manifest_ready fuel pm w2 rm Hr2 Hd2 Em) as (w3 & -> & Hs3). rewrite outcome_bind_Ret.
  destruct (step_ready fuel w2 w3 r Hr2 Hf2 Hs3) as (_ & Hl3 & Hf3 & _). apply (executes_stable w2 w3); [done|].
  destruct rm as [e|rules]; [exact (refuse_executes fuel _ _ w3 r Hl3 Hf3 E)|].
  by apply conclude_executes.
Qed.

(** C34: over every system that keeps the laws of the calls, on which no call fails and on which
    no file has exactly 262144 bytes while interruptions are pending ([ready]; [read_file] does
    not repeat the interrupted read that looks for a byte behind a full buffer and refuses such
    a file), [main] ends and computes [program] of the texts of the files, however reads and
    writes are split and otherwise interrupted: the same exit code, the same text on the
    standard output and on the standard error stream after what was there, no other output and
    no file changed.  A file of more than 262144 bytes counts as one that cannot be read.  The
    fuel is bounded by the size of a document, the interruptions and the output. *)
Theorem main_refines_program (arguments : list text) (w : W) :
  ready w ->
  exists r, program (readable w) arguments = Ret r /\
    forall fuel, enough fuel w r -> exists w', main os fuel arguments w = Ret (run_code r, w') /\
      evolves (fun fd => fd = stdout_fileno \/ fd = stderr_fileno) w w' /\
      written stdout_fileno w' = written stdout_fileno w ++ run_out r /\
      written stderr_fileno w' = written stderr_fileno w ++ run_err r.
Proof.
  intros Hr. assert (Ht : exists r, program (readable w) arguments = Ret r).
  { destruct (program_total (readable w) arguments) as (r & Hrun & _). by exists r. }
  destruct Ht as [r Hrun]. exists r. split; [done|]. intros fuel Hf.
  assert (Hex : executes w r (main os fuel arguments w)); [|by destruct Hex as (w' & Hm & Hl); exists w'].
  revert Hrun. unfold program, main. destruct (parse_options arguments) as [o|] eqn:Ho.
  - destruct (parse_options_shapes _ _ Ho) as [(path & ->)|(pb & pc & pm & ->)].
    + by apply main_environment_executes.
    + by apply main_compare_executes.
  - intros E. exact (refuse_executes fuel _ _ w r (proj1 Hr) Hf E).
Qed.
End execution.

(** ** Examples *)
Definition bad_arguments : list text := [word "--environment"; word "a"].

Lemma main_refines_program_witness :
  exists fuel w', main Simulated.os fuel bad_arguments Simulated.start = Ret (invalid_input, w') /\
    Simulated.sent w' stderr_fileno = word "laghu-benchmark-evaluate: artifact=environment; field=document" ++ [newline].
Proof.
  destruct (main_refines_program Simulated.os bad_arguments Simulated.start) as (r & Hrun & Hmain).
  { split; [exact I|]. intros path t. cbn. case_bool_decide; [|done]. intros [= <-]. unfold maximum_document_bytes. cbn [length word]. lia. }
  exists (maximum_document_bytes + patience Simulated.start + length (run_out r) + length (run_err r))%nat.
  destruct (Hmain _ (le_n _)) as (w' & Hm & _ & _ & Herr). exists w'.
  assert (Hr : r = MkRun invalid_input [] (word "laghu-benchmark-evaluate: artifact=environment; field=document" ++ [newline])).
  { apply Ret_inj. rewrite <- Hrun. vm_compute. reflexivity. }
  rewrite Hr in Hm, Herr |- *. split; [exact Hm|exact Herr].
Defined.

(** An artifact with these latency samples; a tilde stands for a quotation mark. *)
Definition sample_artifact (samples : string) : text := quoted (word (
  "{~schema_version~:~laghu-benchmark-v1~,~build~:{~build_id~:~b~,~compiler~:{~id~:~c~,~version~:~1~}," ++
  "~standard_library~:{~id~:~s~,~version~:~1~},~profile~:~p~,~hardening~:{},~sanitizer_profile~:~n~," ++
  "~target~:{~architecture~:~x~,~os~:~o~},~dependencies~:[],~features~:[]},~cpu~:{~description~:" ++
  "{~status~:~available~,~value~:~cpu~}},~parameters~:{~intervals~:10,~operations_per_interval~:1,~warmup~:1}," ++
  "~workload~:~w~,~workload_checksum~:7,~metrics~:{~allocation_count~:{~instrumented~:false,~value~:0," ++
  "~status~:~unavailable~,~reason~:~r~},~cpu_time_ns~:{~status~:~unavailable~,~reason~:~r~}," ++
  "~laghu_syscall_count~:{~instrumented~:false,~value~:0,~status~:~unavailable~,~reason~:~r~}," ++
  "~latency_ns_per_interval~:{~p50~:1,~p95~:1,~p99~:1,~p99_9~:1,~samples_ns~:[" ++ samples ++ "]}," ++
  "~peak_rss_bytes~:{~status~:~unavailable~,~reason~:~r~}," ++
  "~throughput_operations_per_second~:{~status~:~unavailable~,~reason~:~r~}}}")%string).

Definition sample_environment : text :=
  match load_artifact_text (sample_artifact "9,9,9,9,9,9,9,9,9,9") with
  | Ret (inr a) => hex_environment (environment_hash a)
  | _ => []
  end.

(** One hard rule for the workload: latency may grow by 10% with a noise band of 2.5%. *)
Definition sample_manifest (workload : string) : text :=
  word "# thresholds" ++ [newline] ++ word workload ++ [tab] ++ word "latency_ns_per_interval" ++ [tab] ++ word "lower" ++ [tab] ++
  word "10" ++ [tab] ++ word "2.5" ++ [tab] ++ sample_environment ++ [tab] ++ word "hard" ++ [newline].

Definition sample_files (workload baseline candidate : string) (path : text) : option text :=
  if bool_decide (path = word "b") then Some (sample_artifact baseline)
  else if bool_decide (path = word "c") then Some (sample_artifact candidate)
  else if bool_decide (path = word "m") then Some (sample_manifest workload) else None.

Definition sample_arguments : list text :=
  [word "--baseline"; word "b"; word "--manifest"; word "m"; word "--candidate"; word "c"].

(** A rule for another workload is not applicable; an all-zero baseline has no relative change. *)
Example other_workload_passes :
  run_code <$> program (sample_files "v" "1,2,3,4,5,6,7,8,9,10" "2,3,4,5,6,7,8,9,10,11") sample_arguments = Ret exit_success.
Proof. vm_compute. reflexivity. Qed.

Example zero_baseline_is_refused :
  program (sample_files "w" "0,0,0,0,0,0,0,0,0,0" "2,3,4,5,6,7,8,9,10,11") sample_arguments =
  Ret (MkRun invalid_input []
    (word "laghu-benchmark-evaluate: metric=latency_ns_per_interval; reason=zero_baseline_undefined" ++ [newline])).
Proof. vm_compute. reflexivity. Qed.
