(* ===== verification/Metrics.v ===== *)
(** * Percentiles and counters of the benchmark runner

    Models [bench/private/laghu/benchmark/internal/metrics.hpp] and [workload.hpp]: the
    nearest-rank percentiles over a selection sort in place, and the counters a workload
    reports its events to. *)
From S2P Require Import Prelude CheckedArithmetic Json Regression.
From Stdlib Require Import ZArith Lia.
From stdpp Require Import base numbers list option sorting.

Set Default Goal Selector "!".
#[local] Open Scope Z_scope.

(** ** Percentiles *)
Record Percentiles := MkPercentiles { p50 : Z; p95 : Z; p99 : Z; p999 : Z }.

(** [numerator] is computed in [std::size_t]. *)
Definition nearest_rank_index (sample_count per_mille : Z) : Z :=
  if (sample_count =? 0) || (per_mille =? 0) || (1000 <? per_mille) then 0 else
  let numerator := u64 (sample_count * per_mille) in
  u64 (u64 (numerator + 999) / 1000 - 1).

(** The inner loop: the index of a smallest sample among [minimum] and the [n] from [right] on. *)
Fixpoint minimum_loop (n : nat) (samples : list Z) (right minimum : nat) : outcome nat :=
  match n with
  | O => Ret minimum
  | S n =>
      a ← slot samples (Z.of_nat right);
      b ← slot samples (Z.of_nat minimum);
      minimum_loop n samples (S right) (if a <? b then right else minimum)
  end.

(** The outer loop over the positions [left], [left + 1], ... *)
Fixpoint selection_loop (n : nat) (count : nat) (left : nat) (samples : list Z) : outcome (list Z) :=
  match n with
  | O => Ret samples
  | S n =>
      minimum ← minimum_loop (count - S left) samples (S left) left;
      value ← slot samples (Z.of_nat left);
      smallest ← slot samples (Z.of_nat minimum);
      samples ← set_slot samples (Z.of_nat left) smallest;
      samples ← set_slot samples (Z.of_nat minimum) value;
      selection_loop n count (S left) samples
  end.

(** [samples] is the whole array; its length is the template parameter. *)
Definition summarize_percentiles (samples : list Z) (count : nat) : outcome (option (Percentiles * list Z)) :=
  if bool_decide (count = 0%nat) || bool_decide (length samples < count)%nat then Ret None else
  samples ← selection_loop count count 0 samples;
  a ← slot samples (nearest_rank_index (Z.of_nat count) 500);
  b ← slot samples (nearest_rank_index (Z.of_nat count) 950);
  c ← slot samples (nearest_rank_index (Z.of_nat count) 990);
  d ← slot samples (nearest_rank_index (Z.of_nat count) 999);
  Ret (Some (MkPercentiles a b c d, samples)).

(** ** Counters *)
Record WorkloadCounters := MkWorkloadCounters {
  wc_allocation_count : Z; wc_laghu_syscall_count : Z;
  wc_allocation_instrumented : bool; wc_laghu_syscall_instrumented : bool }.
Definition no_counters : WorkloadCounters := MkWorkloadCounters 0 0 false false.

(** [None] is [false]; nothing changes then. *)
Definition record (total : Z) (instrumented : bool) (count : Z) : option (Z * bool) :=
  if count =? 0 then Some (total, instrumented)
  else if u64_max - total <? count then None
  else Some (u64 (total + count), true).

Definition record_allocation_events (c : WorkloadCounters) (count : Z) : bool * WorkloadCounters :=
  match record (wc_allocation_count c) (wc_allocation_instrumented c) count with
  | Some (total, instrumented) =>
      (true, MkWorkloadCounters total (wc_laghu_syscall_count c) instrumented (wc_laghu_syscall_instrumented c))
  | None => (false, c)
  end.

Definition record_laghu_syscall_events (c : WorkloadCounters) (count : Z) : bool * WorkloadCounters :=
  match record (wc_laghu_syscall_count c) (wc_laghu_syscall_instrumented c) count with
  | Some (total, instrumented) =>
      (true, MkWorkloadCounters (wc_allocation_count c) total (wc_allocation_instrumented c) instrumented)
  | None => (false, c)
  end.

(** ** Sorting in place *)

(** The prefix up to [left] is sorted and bounds the rest from below. *)
Definition sorted_prefix (left : nat) (l : list Z) : Prop :=
  forall i j x y, (i < left)%nat -> (i <= j)%nat -> l !! i = Some x -> l !! j = Some y -> x <= y.

Lemma slot_lookup (l : list Z) i x : l !! i = Some x -> slot l (Z.of_nat i) = Ret x.
Proof. intros H. apply slot_ok. by rewrite Nat2Z.id. Qed.

Lemma minimum_loop_spec n samples : forall right minimum, (right + n <= length samples)%nat -> (minimum < right)%nat ->
  exists k, minimum_loop n samples right minimum = Ret k /\ (k = minimum \/ right <= k < right + n)%nat /\
    exists x, samples !! k = Some x /\ (forall y, samples !! minimum = Some y -> x <= y) /\
      forall j y, (right <= j < right + n)%nat -> samples !! j = Some y -> x <= y.
Proof.
  induction n as [|n IH]; intros right minimum Hlen Hm; cbn [minimum_loop].
  - destruct (lookup_lt_is_Some_2 samples minimum) as [x Hx]; [lia|]. exists minimum. split; [done|]. split; [auto|].
    exists x. split; [done|]. split; [intros y Hy; rewrite Hx in Hy; by injection Hy as ->|]. intros j y ?. lia.
  - destruct (lookup_lt_is_Some_2 samples right) as [a Ha]; [lia|].
    destruct (lookup_lt_is_Some_2 samples minimum) as [b Hb]; [lia|].
    rewrite (slot_lookup _ _ _ Ha), (slot_lookup _ _ _ Hb), !outcome_bind_Ret.
    destruct (IH (S right) (if a <? b then right else minimum)) as (k & -> & Hk & x & Hx & Hmin & Hall); [lia|case_match; lia|].
    exists k. split; [done|]. split; [destruct (a <? b); lia|]. exists x. split; [done|].
    assert (Hab : x <= a /\ x <= b).
    { destruct (Z.ltb_spec a b); [pose proof (Hmin a Ha)|pose proof (Hmin b Hb)]; lia. }
    split; [intros y Hy; rewrite Hb in Hy; injection Hy as <-; lia|].
    intros j y Hj Hy. destruct (decide (j = right)) as [->|]; [rewrite Ha in Hy; injection Hy as <-; lia|].
    apply (Hall j y); [lia|done].
Qed.

(** Exchange of two elements. *)
Lemma swap_perm (l : list Z) i j x y : l !! i = Some x -> l !! j = Some y -> <[j := x]> (<[i := y]> l) ≡ₚ l.
Proof.
  intros Hi Hj. destruct (decide (i = j)) as [->|Hne].
  - rewrite Hi in Hj. injection Hj as ->. by rewrite list_insert_insert_eq, list_insert_id.
  - apply Permutation_inj. split; [by rewrite !length_insert|].
    exists (fun k => if decide (k = i) then j else if decide (k = j) then i else k). split.
    + intros a b. repeat case_decide; congruence.
    + intros k. pose proof (lookup_lt_Some _ _ _ Hi). pose proof (lookup_lt_Some _ _ _ Hj).
      destruct (decide (k = i)) as [->|]; [|destruct (decide (k = j)) as [->|]].
      * rewrite list_lookup_insert_ne, list_lookup_insert_eq by (rewrite ?length_insert; done || lia). done.
      * rewrite list_lookup_insert_eq by (rewrite length_insert; lia). done.
      * by rewrite !list_lookup_insert_ne by done.
Qed.

(** One round of the outer loop puts a smallest remaining sample at [left]. *)
Lemma selection_step (l : list Z) left k x v : (left <= k)%nat -> l !! left = Some v -> l !! k = Some x ->
  (forall j y, (left <= j)%nat -> l !! j = Some y -> x <= y) -> sorted_prefix left l ->
  sorted_prefix (S left) (<[k := v]> (<[left := x]> l)).
Proof.
  intros Hlk Hv Hx Hmin Hs.
  assert (Hlen := lookup_lt_Some _ _ _ Hv). assert (Hlen' := lookup_lt_Some _ _ _ Hx).
  assert (Hrest : forall j y, (left <= j)%nat -> <[k := v]> (<[left := x]> l) !! j = Some y -> exists j', (left <= j')%nat /\ l !! j' = Some y).
  { intros j y Hj Hy. destruct (decide (j = k)) as [->|].
    - rewrite list_lookup_insert_eq in Hy by (rewrite length_insert; done). injection Hy as <-. by exists left.
    - rewrite list_lookup_insert_ne in Hy by done. destruct (decide (j = left)) as [->|].
      + rewrite list_lookup_insert_eq in Hy by done. injection Hy as <-. by exists k.
      + rewrite list_lookup_insert_ne in Hy by done. by exists j. }
  assert (Hlow : forall j, (j < left)%nat -> <[k := v]> (<[left := x]> l) !! j = l !! j).
  { intros j Hj. by rewrite !list_lookup_insert_ne by lia. }
  intros i j a b Hi Hij Ha Hb. destruct (decide (i = left)) as [->|].
  - destruct (Hrest j b Hij Hb) as (j' & Hj' & Eb).
    assert (a = x) as ->.
    { destruct (decide (left = k)) as [->|].
      - rewrite list_lookup_insert_eq in Ha by (rewrite length_insert; done). rewrite Hx in Hv. congruence.
      - rewrite list_lookup_insert_ne, list_lookup_insert_eq in Ha by done. congruence. }
    by apply (Hmin j').
  - rewrite Hlow in Ha by lia. destruct (decide (j < left)%nat).
    + rewrite Hlow in Hb by done. apply (Hs i j); (done || lia).
    + destruct (Hrest j b) as (j' & Hj' & Eb); [lia|done|]. apply (Hs i j'); (done || lia).
Qed.

Lemma selection_loop_spec count n : forall left samples, (left + n = count)%nat -> (count <= length samples)%nat ->
  sorted_prefix left (take count samples) ->
  exists out, selection_loop n count left samples = Ret out /\ length out = length samples /\
    drop count out = drop count samples /\ take count out ≡ₚ take count samples /\ sorted_prefix count (take count out).
Proof.
  induction n as [|n IH]; intros left samples Hn Hc Hs; cbn [selection_loop].
  { exists samples. by replace count with left at 5 by lia. }
  destruct (lookup_lt_is_Some_2 samples left) as [v Hv]; [lia|].
  destruct (minimum_loop_spec (count - S left) samples (S left) left) as (k & -> & Hk & x & Hx & Hmin & Hall); [lia|lia|].
  rewrite outcome_bind_Ret, (slot_lookup _ _ _ Hv), outcome_bind_Ret, (slot_lookup _ _ _ Hx), outcome_bind_Ret.
  rewrite set_slot_ok, outcome_bind_Ret, Nat2Z.id by lia.
  rewrite set_slot_ok, outcome_bind_Ret, Nat2Z.id by (rewrite length_insert; lia).
  destruct (IH (S left) (<[k := v]> (<[left := x]> samples))) as (out & -> & Hl & Hd & Hp & Hsorted).
  - lia.
  - rewrite !length_insert. lia.
  - rewrite !take_insert_lt by lia.
    apply selection_step; try (rewrite lookup_take_lt by lia; done); [lia| |done].
    intros j y Hj Hy. apply lookup_take_Some in Hy as [Hy Hj']. destruct (decide (j = left)) as [->|]; [by apply Hmin|].
    apply (Hall j y); [lia|done].
  - exists out. rewrite !length_insert in Hl. rewrite !drop_insert_lt in Hd by lia. split; [done|]. split; [done|]. split; [done|].
    split; [|done]. rewrite Hp, !take_insert_lt by lia. apply swap_perm; by rewrite lookup_take_lt by lia.
Qed.

Lemma sorted_prefix_sorted l : sorted_prefix (length l) l -> StronglySorted Z.le l.
Proof.
  intros H. induction l as [|x l IH]; [constructor|]. constructor.
  - apply IH. intros i j a b Hi Hij Ha Hb. apply (H (S i) (S j)); cbn; (done || lia).
  - apply Forall_lookup. intros i y Hy. apply (H 0%nat (S i)); cbn; (done || lia).
Qed.

(** ** Nearest rank *)

(** The rank of a percentile: the smallest [r] with [r * 1000 >= count * per_mille]. *)
Definition rank (count per_mille : Z) : Z := (count * per_mille + 999) / 1000.

Lemma nearest_rank_index_spec count per_mille : 0 < count <= 1000000 -> 0 < per_mille <= 1000 ->
  nearest_rank_index count per_mille = rank count per_mille - 1 /\ 1 <= rank count per_mille <= count /\
  count * per_mille <= rank count per_mille * 1000 < count * per_mille + 1000.
Proof.
  intros Hc Hp. unfold nearest_rank_index, rank.
  rewrite (proj2 (Z.eqb_neq count 0)), (proj2 (Z.eqb_neq per_mille 0)), (proj2 (Z.ltb_ge 1000 per_mille)) by lia. cbn [orb].
  assert (1 <= count * per_mille <= 1000000000) by nia. set (n := count * per_mille) in *.
  pose proof (Z.div_mod (n + 999) 1000 ltac:(lia)). pose proof (Z.mod_pos_bound (n + 999) 1000 ltac:(lia)).
  rewrite (u64_small n), (u64_small (n + 999)), u64_small by (unfold u64_max; lia).
  split; [done|]. subst n. split; [nia|lia].
Qed.

Definition percentile_of (samples : list Z) (per_mille value : Z) : Prop :=
  order_statistic (Z.to_nat (rank (Z.of_nat (length samples)) per_mille)) samples value.

Lemma summarize_percentiles_spec (samples : list Z) (count : nat) :
  (length samples <= N.to_nat 1000000)%nat ->
  exists result, summarize_percentiles samples count = Ret result /\
    match result with
    | None => count = 0%nat \/ (length samples < count)%nat
    | Some (p, sorted) =>
        take count sorted ≡ₚ take count samples /\ drop count sorted = drop count samples /\
        StronglySorted Z.le (take count sorted) /\
        percentile_of (take count samples) 500 (p50 p) /\ percentile_of (take count samples) 950 (p95 p) /\
        percentile_of (take count samples) 990 (p99 p) /\ percentile_of (take count samples) 999 (p999 p)
    end.
Proof.
  intros Hlen. unfold summarize_percentiles. case_bool_decide as H0; [eexists; split; [done|]; by left|].
  case_bool_decide as H1; [eexists; split; [done|]; by right|]. cbn [orb].
  destruct (selection_loop_spec count count 0 samples) as (out & -> & Hl & Hd & Hp & Hs); [done|lia|intros ? ? ? ? ?; lia|].
  rewrite outcome_bind_Ret. assert (Hc : length (take count out) = count) by (rewrite length_take; lia).
  assert (Hsort : StronglySorted Z.le (take count out)) by (apply sorted_prefix_sorted; by rewrite Hc).
  assert (Hpct : forall q, 0 < q <= 1000 -> exists x, slot out (nearest_rank_index (Z.of_nat count) q) = Ret x /\
    percentile_of (take count samples) q x).
  { intros q Hq. destruct (nearest_rank_index_spec (Z.of_nat count) q) as (-> & Hr & _); [lia|lia|].
    destruct (lookup_lt_is_Some_2 (take count out) (Z.to_nat (rank (Z.of_nat count) q - 1))) as [x Hx]; [lia|].
    exists x. split; [apply slot_ok; by apply lookup_take_Some in Hx as [? _]|].
    unfold percentile_of. rewrite length_take, Nat.min_l by lia. apply (order_statistic_perm _ _ _ _ Hp).
    replace (Z.to_nat (rank (Z.of_nat count) q)) with (S (Z.to_nat (rank (Z.of_nat count) q - 1))) by lia.
    by apply order_statistic_sorted. }
  destruct (Hpct 500 ltac:(lia)) as (a & -> & Ha). destruct (Hpct 950 ltac:(lia)) as (b & -> & Hb).
  destruct (Hpct 990 ltac:(lia)) as (c & -> & Hcc). destruct (Hpct 999 ltac:(lia)) as (d & -> & Hdd).
  rewrite !outcome_bind_Ret. eexists. split; [done|]. done.
Qed.

(** The percentiles a runner reports are the nearest-rank percentiles of the samples in use:
    the smallest of them that at least the given share of the samples does not exceed.  The
    sort in place permutes the samples in use, leaves the rest of the array alone, and every
    index stays inside it. *)
Theorem summarize_percentiles_exact (samples : list Z) (count : nat) :
  (length samples <= N.to_nat 1000000)%nat ->
  exists result, summarize_percentiles samples count = Ret result /\
    match result with
    | None => count = 0%nat \/ (length samples < count)%nat
    | Some (p, sorted) =>
        take count sorted ≡ₚ take count samples /\ drop count sorted = drop count samples /\
        StronglySorted Z.le (take count sorted) /\
        percentile_of (take count samples) 500 (p50 p) /\ percentile_of (take count samples) 950 (p95 p) /\
        percentile_of (take count samples) 990 (p99 p) /\ percentile_of (take count samples) 999 (p999 p)
    end.
Proof. apply summarize_percentiles_spec. Qed.

Lemma summarize_percentiles_exact_witness :
  exists p, (p = MkPercentiles 3 9 9 9) /\ exists sorted, summarize_percentiles [5; 3; 9; 1; 0; 0] 4 = Ret (Some (p, sorted)) /\
    percentile_of [5; 3; 9; 1] 500 (p50 p).
Proof.
  destruct (summarize_percentiles_exact [5; 3; 9; 1; 0; 0] 4 ltac:(cbn [length]; lia)) as (r & Hrun & Hr).
  eexists. split; [reflexivity|]. destruct r as [[p sorted]|]; [|vm_compute in Hrun; discriminate Hrun].
  exists sorted. destruct Hr as (_ & _ & _ & H50 & _). vm_compute in Hrun. injection Hrun as <- <-. split; [reflexivity|exact H50].
Defined.
