(* ===== verification/Runner.v ===== *)
(** * The benchmark runner

    Models [bench/runner.cpp] as built for Linux: the options, the clocks and resource
    readings, the description of the processor, the measuring loop and the report.  Its
    [write_all], [JsonWriter::append] and [JsonWriter::append_number] are the evaluator's, line
    for line, and are used from [Evaluator].  The workload linked into the program, the
    generated identity of the build and the calls of the operating system are the fields of a
    [Host].  The sample arrays are modelled by their entries in use; an entry the code leaves at
    its initial value is 0. *)
From S2P Require Import Prelude CheckedArithmetic Json Regression Evaluator Metrics.
From Stdlib Require Import ZArith Lia Ascii String.
From stdpp Require Import base numbers list option.

Set Default Goal Selector "!".
#[local] Open Scope Z_scope.

Definition maximum_intervals : nat := N.to_nat 1000.
Definition maximum_warmup_intervals : Z := 10000.
Definition diagnostic_capacity : nat := N.to_nat 256.
Definition nanoseconds_per_second : Z := 1000000000.

Inductive RunnerExit := runner_success | runner_invalid_arguments | metric_unavailable | workload_failure | runner_output_failure.
Definition runner_exit_value (c : RunnerExit) : Z :=
  match c with
  | runner_success => 0 | runner_invalid_arguments => 64 | metric_unavailable => 69 | workload_failure => 70
  | runner_output_failure => 74
  end.

Record NumericMetric := MkNumericMetric { nm_available : bool; nm_value : Z; nm_reason : text }.
Definition available_metric (value : Z) : NumericMetric := MkNumericMetric true value [].
Definition unavailable_metric (reason : string) : NumericMetric := MkNumericMetric false 0 (word reason).

(** ** What the program is linked with and runs on *)
Record Identity := MkIdentity {
  id_schema_version : text; id_build_id : text; id_compiler_id : text; id_compiler_version : text;
  id_dependencies_json : text; id_features_json : text; id_build_profile : text; id_hardening_json : text;
  id_sanitizer_profile : text; id_standard_library_id : text; id_standard_library_version : text;
  id_target_architecture : text; id_target_os : text; id_workload_name : text; id_operations_per_interval : Z }.

Inductive clock := clock_monotonic | clock_process_cputime.

(** [None] is a call that fails. *)
Record Host (W : Type) := MkHost {
  host_posix : Posix W;
  host_clock_gettime : clock -> W -> option (Z * Z) * W;
  host_getrusage : W -> option Z * W;
  host_run_workload : Z -> WorkloadCounters -> W -> option Z * WorkloadCounters * W;
  host_identity : Identity }.
Arguments host_posix {W} h.
Arguments host_clock_gettime {W} h.
Arguments host_getrusage {W} h.
Arguments host_run_workload {W} h.
Arguments host_identity {W} h.

(** ** Options *)
Record RunnerOptions := MkRunnerOptions { ro_warmup_intervals : Z; ro_measured_intervals : Z; ro_workload : text }.

(** [std::from_chars] reads the longest run of digits; the whole text must be it. *)
Definition parse_positive (t : text) (maximum : Z) : option Z :=
  if bool_decide (t = []) then None else
  if negb (forallb is_digit t) then None else
  output ← from_chars t;
  if output <=? maximum then Some output else None.

Fixpoint runner_options_loop (workload_name : text) (arguments : list text) (workload : option text)
    (warmup intervals : option Z) : option (option text * option Z * option Z) :=
  match arguments with
  | [] => Some (workload, warmup, intervals)
  | [_] => None
  | option_ :: value :: rest =>
      if bool_decide (option_ = word "--workload") && is_unset workload && bool_decide (value = workload_name)
      then runner_options_loop workload_name rest (Some value) warmup intervals
      else match (if bool_decide (option_ = word "--warmup") && bool_decide (warmup = None)
                  then parse_positive value maximum_warmup_intervals else None) with
           | Some n => runner_options_loop workload_name rest workload (Some n) intervals
           | None =>
               match (if bool_decide (option_ = word "--intervals") && bool_decide (intervals = None)
                      then parse_positive value (Z.of_nat maximum_intervals) else None) with
               | Some n => if n =? 0 then None else runner_options_loop workload_name rest workload warmup (Some n)
               | None => None
               end
           end
  end.

Definition parse_runner_options (workload_name : text) (arguments : list text) : option RunnerOptions :=
  '(workload, warmup, intervals) ← runner_options_loop workload_name arguments None None None;
  workload ← (workload : option text); warmup ← (warmup : option Z); intervals ← (intervals : option Z);
  Some (MkRunnerOptions warmup intervals workload).

(** ** Readings *)
Definition timespec_nanoseconds (tv_sec tv_nsec : Z) : option Z :=
  if (tv_sec <? 0) || (tv_nsec <? 0) || (nanoseconds_per_second <=? tv_nsec) then None else
  if (u64_max - tv_nsec) / nanoseconds_per_second <? tv_sec then None
  else Some (u64 (u64 (tv_sec * nanoseconds_per_second) + tv_nsec)).

Section host.
Context {W : Type} (host : Host W).
Abbreviation os := (host_posix host).
Abbreviation identity := (host_identity host).

Definition monotonic_now (w : W) : option Z * W :=
  let '(value, w) := host_clock_gettime host clock_monotonic w in
  (match value with Some (s, n) => timespec_nanoseconds s n | None => None end, w).

Definition process_cpu_time (w : W) : NumericMetric * W :=
  let '(value, w) := host_clock_gettime host clock_process_cputime w in
  (match (match value with Some (s, n) => timespec_nanoseconds s n | None => None end) with
   | Some nanoseconds => available_metric nanoseconds
   | None => unavailable_metric "clock_gettime_process_cpu_time_unavailable"
   end, w).

Definition peak_rss_bytes (w : W) : NumericMetric * W :=
  let '(maxrss, w) := host_getrusage host w in
  (match maxrss with
   | Some kilobytes =>
       if kilobytes <? 0 then unavailable_metric "getrusage_peak_rss_unavailable"
       else if u64_max / 1024 <? kilobytes then unavailable_metric "peak_rss_overflow"
       else available_metric (u64 (kilobytes * 1024))
   | None => unavailable_metric "getrusage_peak_rss_unavailable"
   end, w).

(** ** The description of the processor *)

(** [source.find(label)] and [source.find(character, position)] *)
Fixpoint find_text (label source : text) : option nat :=
  if bool_decide (take (length label) source = label) then Some 0%nat else
  match source with [] => None | _ :: rest => S <$> find_text label rest end.
Definition find_char (c : ascii) (source : text) (position : nat) : option nat :=
  let n := span_while (fun x => negb (is_char x c)) (drop position source) in
  if bool_decide (position + n < length source)%nat then Some (position + n)%nat else None.

Definition is_blank (c : ascii) : bool := is_char c " " || is_char c tab.
Fixpoint trim_front (t : text) : text :=
  match t with c :: rest => if is_blank c then trim_front rest else t | [] => [] end.
Definition trim_back (t : text) : text := rev (trim_front (rev t)).

Definition copy_metric_text (t : text) : option text :=
  if bool_decide (t = []) || bool_decide (diagnostic_capacity <= length t)%nat then None else Some t.

(** One round of the loop over the labels. *)
Definition labelled_value (source label : text) : option text :=
  label_position ← find_text label source;
  separator ← find_char ":" source (label_position + length label);
  line_end ← find_char newline source separator;
  let value := take (line_end - separator - 1) (drop (S separator) source) in
  copy_metric_text (trim_back (trim_front value)).

Definition cpu_of_source (source : text) : option text :=
  match labelled_value source (word "model name") with
  | Some value => Some value
  | None => labelled_value source (word "Hardware")
  end.

(** [None] is a description that is not available. *)
Definition cpu_description (w : W) : option text * W :=
  let '(descriptor, w) := sys_open os (word "/proc/cpuinfo") w in
  match descriptor with
  | None => (None, w)
  | Some descriptor =>
      let '(read_count, w) := sys_read os descriptor (diagnostic_capacity - 1) w in
      let w := sys_close os descriptor w in
      (match read_count with Done (c :: source) => cpu_of_source (c :: source) | _ => None end, w)
  end.

(** ** The report *)
Definition json_escape_character (c : ascii) : option text :=
  if is_char c backslash then Some [backslash; backslash]
  else if is_char c quote then Some [backslash; quote]
  else if is_char c newline then Some [backslash; "n"%char]
  else if is_char c carriage_return then Some [backslash; "r"%char]
  else if is_char c tab then Some [backslash; "t"%char]
  else if code c <? 32 then None else Some [c].

Fixpoint append_json_characters (value : text) (writer : text) : option text :=
  match value with
  | [] => Some writer
  | c :: value =>
      e ← json_escape_character c;
      writer ← Evaluator.append e writer;
      append_json_characters value writer
  end.

Definition append_json_string (value : text) (writer : text) : option text :=
  writer ← Evaluator.append [quote] writer;
  writer ← append_json_characters value writer;
  Evaluator.append [quote] writer.

Fixpoint append_sample_loop (samples : list Z) (index : nat) (writer : text) : option text :=
  match samples with
  | [] => Some writer
  | v :: samples =>
      writer ← (if bool_decide (index = 0%nat) then Some writer else Evaluator.append [","%char] writer);
      writer ← append_number v writer;
      append_sample_loop samples (S index) writer
  end.

Definition append_samples (samples : list Z) (writer : text) : option text :=
  writer ← Evaluator.append ["["%char] writer;
  writer ← append_sample_loop samples 0 writer;
  Evaluator.append ["]"%char] writer.

(** A sequence of calls joined by [&&] or [||]. *)
Inductive part := Plain (s : text) | Digits (v : Z) | Text (s : text) | Samples (l : list Z).
Definition put_part (p : part) (writer : text) : option text :=
  match p with
  | Plain s => Evaluator.append s writer
  | Digits v => append_number v writer
  | Text s => append_json_string s writer
  | Samples l => append_samples l writer
  end.
Fixpoint put_parts (ps : list part) (writer : text) : option text :=
  match ps with [] => Some writer | p :: ps => writer ← put_part p writer; put_parts ps writer end.

(** A string literal with [~] for the quotation mark. *)
Definition plain (s : string) : part := Plain (map (fun c => if is_char c "~" then quote else c) (word s)).

Definition interval_metric_parts (metric : NumericMetric) (samples : list Z) (samples_key : string) : list part :=
  plain "{~status~:~" ::
  if nm_available metric then
    [plain "available~,~value~:"; Digits (nm_value metric); plain ",~"; plain samples_key; plain "~:"; Samples samples; plain "}"]
  else [plain "unavailable~,~reason~:"; Text (nm_reason metric); plain "}"].

Definition counter_metric_parts (instrumented : bool) (value : Z) (samples : list Z) (unavailable_reason : string) : list part :=
  [plain "{~instrumented~:"; plain (if instrumented then "true" else "false"); plain ",~value~:"; Digits value;
   plain ",~status~:~"] ++
  if instrumented then [plain "available~,~samples_count~:"; Samples samples; plain "}"]
  else [plain "unavailable~,~reason~:"; Text (word unavailable_reason); plain "}"].

(** What the measurement of the intervals gave. *)
Record Measurement := MkMeasurement {
  ms_durations : list Z; ms_throughput_samples : list Z; ms_cpu_samples : list Z; ms_rss_samples : list Z;
  ms_allocation_samples : list Z; ms_syscall_samples : list Z;
  ms_counters : WorkloadCounters; ms_total_duration : Z;
  ms_throughput : NumericMetric; ms_cpu_time : NumericMetric; ms_peak_rss : NumericMetric; ms_checksum : Z }.

Definition report_parts (id : Identity) (options : RunnerOptions) (p : Percentiles) (cpu : option text) (m : Measurement) : list part :=
  [plain "{~schema_version~:"; Text (id_schema_version id); plain ",~build~:{~build_id~:"; Text (id_build_id id);
   plain ",~compiler~:{~id~:"; Text (id_compiler_id id); plain ",~version~:"; Text (id_compiler_version id);
   plain "},~dependencies~:"; Plain (id_dependencies_json id); plain ",~features~:"; Plain (id_features_json id);
   plain ",~profile~:"; Text (id_build_profile id); plain ",~hardening~:"; Plain (id_hardening_json id);
   plain ",~sanitizer_profile~:"; Text (id_sanitizer_profile id);
   plain ",~standard_library~:{~id~:"; Text (id_standard_library_id id);
   plain ",~version~:"; Text (id_standard_library_version id);
   plain "},~target~:{~architecture~:"; Text (id_target_architecture id); plain ",~os~:"; Text (id_target_os id);
   plain "}},~cpu~:{~description~:{";
   plain (if is_unset cpu then "~status~:~unavailable~,~reason~:" else "~status~:~available~,~value~:");
   Text (default (word "cpu_description_unavailable") cpu);
   plain "}},~metrics~:{~allocation_count~:"] ++
  counter_metric_parts (wc_allocation_instrumented (ms_counters m)) (wc_allocation_count (ms_counters m))
    (ms_allocation_samples m) "allocation_counter_not_instrumented" ++
  [plain ",~cpu_time_ns~:"] ++ interval_metric_parts (ms_cpu_time m) (ms_cpu_samples m) "samples_ns" ++
  [plain ",~laghu_syscall_count~:"] ++
  counter_metric_parts (wc_laghu_syscall_instrumented (ms_counters m)) (wc_laghu_syscall_count (ms_counters m))
    (ms_syscall_samples m) "laghu_syscall_counter_not_instrumented" ++
  [plain ",~latency_ns_per_interval~:{~p50~:"; Digits (p50 p); plain ",~p95~:"; Digits (p95 p);
   plain ",~p99~:"; Digits (p99 p); plain ",~p99_9~:"; Digits (p999 p); plain ",~samples_ns~:";
   Samples (ms_durations m); plain "}";
   plain ",~peak_rss_bytes~:"] ++ interval_metric_parts (ms_peak_rss m) (ms_rss_samples m) "samples_bytes" ++
  [plain ",~throughput_operations_per_second~:"] ++
  interval_metric_parts (ms_throughput m) (ms_throughput_samples m) "samples_operations_per_second" ++
  [plain "},~parameters~:{~intervals~:"; Digits (ro_measured_intervals options);
   plain ",~operations_per_interval~:"; Digits (id_operations_per_interval id);
   plain ",~warmup~:"; Digits (ro_warmup_intervals options);
   plain "},~workload~:"; Text (ro_workload options); plain ",~workload_checksum~:"; Digits (ms_checksum m);
   Plain ["}"%char; newline]].

Definition write_report (fuel : nat) (options : RunnerOptions) (p : Percentiles) (cpu : option text) (m : Measurement) (w : W) :
    outcome (bool * W) :=
  match put_parts (report_parts identity options p cpu m) [] with
  | None => Ret (false, w)
  | Some document => write_all os fuel stdout_fileno document w
  end.

(** ** The program *)
Definition runner_fail (fuel : nat) (message : text) (code : RunnerExit) (w : W) : outcome (RunnerExit * W) :=
  '(_, w) ← write_all os fuel stderr_fileno (message ++ [newline]) w; Ret (code, w).

Definition runner_usage : text :=
  word "usage: laghu_benchmark --workload <configured-name> --warmup <0..10000> --intervals <1..1000>".

(** [n] warm-up intervals are left; the checksum so far, or the message of a failure. *)
Fixpoint warmup_loop (n : nat) (interval : Z) (counters : WorkloadCounters) (checksum : Z) (w : W) : option Z * W :=
  match n with
  | O => (Some checksum, w)
  | S n =>
      let '(result, counters, w) := host_run_workload host (u64 (interval + 1)) counters w in
      match result with
      | None => (None, w)
      | Some value => warmup_loop n (interval + 1) counters (Z.lxor checksum value) w
      end
  end.

(** The metrics of an interval given the state of the run before it. *)
Definition next_throughput (throughput : NumericMetric) (duration : Z) : NumericMetric * Z :=
  if duration =? 0 then (unavailable_metric "interval_zero_elapsed_time", 0)
  else if nm_available throughput then
    let operations := id_operations_per_interval identity in
    if u64_max / nanoseconds_per_second <? operations then (unavailable_metric "throughput_overflow", 0)
    else (throughput, u64 (operations * nanoseconds_per_second) / duration)
  else (throughput, 0).

Definition next_cpu_time (cpu_time cpu_begin cpu_end : NumericMetric) : NumericMetric * Z :=
  if negb (nm_available cpu_begin) || negb (nm_available cpu_end) || (nm_value cpu_end <? nm_value cpu_begin)
  then (unavailable_metric "interval_cpu_time_unavailable", 0)
  else if nm_available cpu_time then
    let cpu_delta := u64 (nm_value cpu_end - nm_value cpu_begin) in
    if u64_max - nm_value cpu_time <? cpu_delta then (unavailable_metric "cpu_time_overflow", 0)
    else (MkNumericMetric true (u64 (nm_value cpu_time + cpu_delta)) (nm_reason cpu_time), cpu_delta)
  else (cpu_time, 0).

Definition next_peak_rss (peak_rss rss : NumericMetric) : NumericMetric * Z :=
  if negb (nm_available rss) then (rss, 0)
  else if nm_available peak_rss then
    (if nm_value peak_rss <? nm_value rss then MkNumericMetric true (nm_value rss) (nm_reason peak_rss) else peak_rss, nm_value rss)
  else (peak_rss, 0).

Inductive interval_failure := clock_unavailable | measured_failure | clock_invalid | duration_overflow | counter_invalid.
Definition failure_message (f : interval_failure) : text :=
  match f with
  | clock_unavailable => word "laghu-benchmark: monotonic clock is unavailable"
  | measured_failure => word "laghu-benchmark: measured workload failed"
  | clock_invalid => word "laghu-benchmark: monotonic clock is invalid"
  | duration_overflow => word "laghu-benchmark: duration overflow"
  | counter_invalid => word "laghu-benchmark: counter is invalid"
  end.
Definition failure_code (f : interval_failure) : RunnerExit :=
  match f with measured_failure => workload_failure | _ => metric_unavailable end.

(** The body of the measuring loop. *)
Definition measure_interval (seed : Z) (m : Measurement) (w : W) : (interval_failure + Measurement) * W :=
  let '(begin, w) := monotonic_now w in
  match begin with
  | None => (inl clock_unavailable, w)
  | Some begin =>
  let '(cpu_begin, w) := process_cpu_time w in
  let allocation_begin := wc_allocation_count (ms_counters m) in
  let syscall_begin := wc_laghu_syscall_count (ms_counters m) in
  let '(result, counters, w) := host_run_workload host seed (ms_counters m) w in
  match result with
  | None => (inl measured_failure, w)
  | Some value =>
  let checksum := Z.lxor (ms_checksum m) value in
  let '(cpu_end, w) := process_cpu_time w in
  let '(end_, w) := monotonic_now w in
  match end_ with
  | None => (inl clock_invalid, w)
  | Some end_ =>
  if end_ <? begin then (inl clock_invalid, w) else
  let duration := u64 (end_ - begin) in
  if u64_max - ms_total_duration m <? duration then (inl duration_overflow, w) else
  let total_duration := u64 (ms_total_duration m + duration) in
  let '(new_throughput, throughput_sample) := next_throughput (ms_throughput m) duration in
  let '(new_cpu_time, cpu_sample) := next_cpu_time (ms_cpu_time m) cpu_begin cpu_end in
  let '(rss, w) := peak_rss_bytes w in
  let '(new_peak_rss, rss_sample) := next_peak_rss (ms_peak_rss m) rss in
  let allocation_end := wc_allocation_count counters in
  let syscall_end := wc_laghu_syscall_count counters in
  if (allocation_end <? allocation_begin) || (syscall_end <? syscall_begin) then (inl counter_invalid, w) else
  (inr (MkMeasurement (ms_durations m ++ [duration]) (ms_throughput_samples m ++ [throughput_sample])
          (ms_cpu_samples m ++ [cpu_sample]) (ms_rss_samples m ++ [rss_sample])
          (ms_allocation_samples m ++ [u64 (allocation_end - allocation_begin)])
          (ms_syscall_samples m ++ [u64 (syscall_end - syscall_begin)])
          counters total_duration new_throughput new_cpu_time new_peak_rss checksum), w)
  end end end.

Fixpoint measure_loop (n : nat) (interval warmup : Z) (m : Measurement) (w : W) : (interval_failure + Measurement) * W :=
  match n with
  | O => (inr m, w)
  | S n =>
      let '(r, w) := measure_interval (u64 (u64 (interval + warmup) + 1)) m w in
      match r with
      | inl f => (inl f, w)
      | inr m => measure_loop n (interval + 1) warmup m w
      end
  end.

Definition start_measurement (checksum : Z) : Measurement :=
  MkMeasurement [] [] [] [] [] [] no_counters 0 (available_metric 0) (available_metric 0) (available_metric 0) checksum.

(** The throughput of the whole run. *)
Definition total_throughput (options : RunnerOptions) (m : Measurement) : NumericMetric :=
  if ms_total_duration m =? 0 then unavailable_metric "zero_elapsed_time"
  else if nm_available (ms_throughput m) then
    let operations := u64 (ro_measured_intervals options * id_operations_per_interval identity) in
    if u64_max / nanoseconds_per_second <? operations then unavailable_metric "throughput_overflow"
    else MkNumericMetric true (u64 (operations * nanoseconds_per_second) / ms_total_duration m) (nm_reason (ms_throughput m))
  else ms_throughput m.

Definition set_throughput (m : Measurement) (throughput : NumericMetric) : Measurement :=
  MkMeasurement (ms_durations m) (ms_throughput_samples m) (ms_cpu_samples m) (ms_rss_samples m) (ms_allocation_samples m)
    (ms_syscall_samples m) (ms_counters m) (ms_total_duration m) throughput (ms_cpu_time m) (ms_peak_rss m) (ms_checksum m).

(** The array of all [maximum_intervals] entries behind the samples in use. *)
Definition whole_array (samples : list Z) : list Z := samples ++ replicate (maximum_intervals - length samples) 0.

Definition runner_main (fuel : nat) (arguments : list text) (w : W) : outcome (RunnerExit * W) :=
  match parse_runner_options (id_workload_name identity) arguments with
  | None => runner_fail fuel runner_usage runner_invalid_arguments w
  | Some options =>
  let '(checksum, w) := warmup_loop (Z.to_nat (ro_warmup_intervals options)) 0 no_counters 0 w in
  match checksum with
  | None => runner_fail fuel (word "laghu-benchmark: warmup workload failed") workload_failure w
  | Some checksum =>
  let '(m, w) := measure_loop (Z.to_nat (ro_measured_intervals options)) 0 (ro_warmup_intervals options)
    (start_measurement checksum) w in
  match m with
  | inl f => runner_fail fuel (failure_message f) (failure_code f) w
  | inr m =>
  percentiles ← summarize_percentiles (whole_array (ms_durations m)) (Z.to_nat (ro_measured_intervals options));
  match percentiles with
  | None => runner_fail fuel (word "laghu-benchmark: percentile calculation failed") metric_unavailable w
  | Some (percentiles, _) =>
  let m := set_throughput m (total_throughput options m) in
  let '(cpu, w) := cpu_description w in
  '(ok, w) ← write_report fuel options percentiles cpu m w;
  if negb ok then runner_fail fuel (word "laghu-benchmark: report exceeds bounded output capacity") runner_output_failure w
  else Ret (runner_success, w)
  end end end end.
End host.
