(* ===== verification/ReportText.v ===== *)
(** * The text of a benchmark report

    A report the runner writes is a JSON text: [put_parts] appends the texts of its parts, and
    the texts of compact objects and arrays built from texts of their members are texts of the
    grammar of [JsonSpec]. *)
From S2P Require Import Prelude Json JsonSpec Regression Manifest Artifact Evaluator EvaluatorIo Metrics Runner.
From Stdlib Require Import ZArith Lia Ascii String.
From stdpp Require Import base numbers list option.

Set Default Goal Selector "!".
#[local] Open Scope Z_scope.

(** ** Parts *)
Definition json_escape (t : text) : text := flat_map (fun c => default [] (json_escape_character c)) t.
Definition printable (t : text) : Prop := Forall (fun c => is_Some (json_escape_character c)) t.

Fixpoint samples_text (l : list Z) : text :=
  match l with
  | [] => []
  | [v] => to_chars v
  | v :: rest => to_chars v ++ ","%char :: samples_text rest
  end.

Definition part_text (p : part) : text :=
  match p with
  | Plain s => s
  | Digits v => to_chars v
  | Text s => string_text (json_escape s)
  | Samples l => "["%char :: samples_text l ++ ["]"%char]
  end.
Definition part_ok (p : part) : Prop := match p with Text s => printable s | _ => True end.

Lemma append_Some value writer writer' : Evaluator.append value writer = Some writer' -> writer' = writer ++ value.
Proof. rewrite append_spec. case_match; [by intros [= <-]|done]. Qed.

Lemma append_number_Some v writer writer' : append_number v writer = Some writer' -> writer' = writer ++ to_chars v.
Proof. unfold append_number. case_bool_decide; [done|]. by intros [= <-]. Qed.

Lemma append_json_characters_Some value : forall writer writer', append_json_characters value writer = Some writer' ->
  writer' = writer ++ json_escape value /\ printable value.
Proof.
  induction value as [|c value IH]; intros writer writer'; cbn [append_json_characters].
  - intros [= <-]. split; [by rewrite app_nil_r|constructor].
  - destruct (json_escape_character c) as [e|] eqn:E; [|done]. cbn [mbind option_bind].
    destruct (Evaluator.append e writer) as [w1|] eqn:Ew; [|done]. intros (-> & Hp)%IH. apply append_Some in Ew as ->.
    split; [cbn [json_escape flat_map]; rewrite E; by rewrite <- app_assoc|]. constructor; [by rewrite E|done].
Qed.

Lemma append_json_string_Some value writer writer' : append_json_string value writer = Some writer' ->
  writer' = writer ++ string_text (json_escape value) /\ printable value.
Proof.
  unfold append_json_string. destruct (Evaluator.append [quote] writer) as [w1|] eqn:E1; [|done]. cbn [mbind option_bind].
  destruct (append_json_characters value w1) as [w2|] eqn:E2; [|done]. cbn [mbind option_bind]. intros ->%append_Some.
  apply append_Some in E1 as ->. apply append_json_characters_Some in E2 as [-> Hp].
  split; [|done]. unfold string_text. by rewrite <- !app_assoc.
Qed.

Lemma append_sample_loop_Some samples : forall index writer writer', append_sample_loop samples index writer = Some writer' ->
  writer' = writer ++ (match samples, index with [], _ => [] | _, O => [] | _, S _ => [","%char] end) ++ samples_text samples.
Proof.
  induction samples as [|v samples IH]; intros index writer writer'; cbn [append_sample_loop].
  - intros [= <-]. by rewrite app_nil_r.
  - destruct (if bool_decide (index = 0%nat) then _ else _) as [w1|] eqn:E1; [|done]. cbn [mbind option_bind].
    destruct (append_number v w1) as [w2|] eqn:E2; [|done]. cbn [mbind option_bind]. intros ->%IH.
    apply append_number_Some in E2 as ->.
    assert (w1 = writer ++ match index with O => [] | S _ => [","%char] end) as ->.
    { destruct index.
      - rewrite bool_decide_eq_true_2 in E1 by done. injection E1 as <-. by rewrite app_nil_r.
      - rewrite bool_decide_eq_false_2 in E1 by done. exact (append_Some _ _ _ E1). }
    rewrite <- !app_assoc. f_equal. f_equal. destruct samples; [by rewrite !app_nil_r|done].
Qed.

(** What the two primitive calls keep, a whole report keeps. *)
Section preserves.
Context (P : text -> Prop).
Hypothesis append_P : forall v w w', P w -> Evaluator.append v w = Some w' -> P w'.
Hypothesis append_number_P : forall v w w', P w -> append_number v w = Some w' -> P w'.

Lemma append_json_characters_P value : forall w w', P w -> append_json_characters value w = Some w' -> P w'.
Proof using append_P.
  induction value as [|c value IH]; intros w w' Hw; cbn [append_json_characters]; [by intros [= <-]|].
  destruct (json_escape_character c) as [e|]; [|done]. cbn [mbind option_bind].
  destruct (Evaluator.append e w) as [w1|] eqn:E; [|done]. cbn [mbind option_bind]. exact (IH w1 w' (append_P _ _ _ Hw E)).
Qed.

Lemma append_sample_loop_P samples : forall i w w', P w -> append_sample_loop samples i w = Some w' -> P w'.
Proof using append_P append_number_P.
  induction samples as [|v samples IH]; intros i w w' Hw; cbn [append_sample_loop]; [by intros [= <-]|].
  destruct (if bool_decide (i = 0%nat) then _ else _) as [w0|] eqn:E0; [|done]. cbn [mbind option_bind].
  assert (Hw0 : P w0).
  { destruct (bool_decide (i = 0%nat)); [by injection E0 as <-|exact (append_P _ _ _ Hw E0)]. }
  destruct (append_number v w0) as [w1|] eqn:E; [|done]. cbn [mbind option_bind]. exact (IH _ w1 w' (append_number_P _ _ _ Hw0 E)).
Qed.

Lemma put_part_P p w w' : P w -> put_part p w = Some w' -> P w'.
Proof using append_P append_number_P.
  intros Hw. destruct p as [s|v|s|l]; cbn [put_part].
  - exact (append_P s w w' Hw).
  - exact (append_number_P v w w' Hw).
  - unfold append_json_string. destruct (Evaluator.append [quote] w) as [w2|] eqn:E2; [|done]. cbn [mbind option_bind].
    destruct (append_json_characters s w2) as [w3|] eqn:E3; [|done]. cbn [mbind option_bind].
    exact (append_P _ _ _ (append_json_characters_P _ _ _ (append_P _ _ _ Hw E2) E3)).
  - unfold append_samples. destruct (Evaluator.append ["["%char] w) as [w2|] eqn:E2; [|done]. cbn [mbind option_bind].
    destruct (append_sample_loop l 0 w2) as [w3|] eqn:E3; [|done]. cbn [mbind option_bind].
    exact (append_P _ _ _ (append_sample_loop_P _ _ _ _ (append_P _ _ _ Hw E2) E3)).
Qed.

Lemma put_parts_P ps : forall w w', P w -> put_parts ps w = Some w' -> P w'.
Proof using append_P append_number_P.
  induction ps as [|p ps IH]; intros w w' Hw; cbn [put_parts]; [by intros [= <-]|].
  destruct (put_part p w) as [w1|] eqn:E; [|done]. cbn [mbind option_bind]. exact (IH w1 w' (put_part_P p w w1 Hw E)).
Qed.
End preserves.

Lemma put_parts_bounded ps writer writer' : (length writer <= maximum_document_bytes)%nat ->
  put_parts ps writer = Some writer' -> (length writer' <= maximum_document_bytes)%nat.
Proof.
  apply (put_parts_P (fun w => (length w <= maximum_document_bytes)%nat)).
  - intros v w w' Hw. rewrite append_spec. unfold room_for. case_bool_decide; [|done]. intros [= <-]. rewrite length_app. lia.
  - intros v w w' Hw. unfold append_number. case_bool_decide; [done|]. intros [= <-]. rewrite length_app. lia.
Qed.

Lemma put_part_Some p writer writer' : put_part p writer = Some writer' -> writer' = writer ++ part_text p /\ part_ok p.
Proof.
  destruct p; cbn [put_part part_text part_ok].
  - by intros ->%append_Some.
  - by intros ->%append_number_Some.
  - apply append_json_string_Some.
  - unfold append_samples. destruct (Evaluator.append ["["%char] writer) as [w1|] eqn:E1; [|done]. cbn [mbind option_bind].
    destruct (append_sample_loop l 0 w1) as [w2|] eqn:E2; [|done]. cbn [mbind option_bind]. intros ->%append_Some.
    apply append_Some in E1 as ->. apply append_sample_loop_Some in E2 as ->. split; [|done].
    rewrite <- !app_assoc. by destruct l.
Qed.

Lemma put_parts_Some ps : forall writer writer', put_parts ps writer = Some writer' ->
  writer' = writer ++ concat (part_text <$> ps) /\ Forall part_ok ps.
Proof.
  induction ps as [|p ps IH]; intros writer writer'; cbn [put_parts].
  - intros [= <-]. split; [by rewrite app_nil_r|constructor].
  - destruct (put_part p writer) as [w1|] eqn:E; [|done]. cbn [mbind option_bind]. intros (-> & Hok)%IH.
    apply put_part_Some in E as [-> Hp]. split; [by rewrite <- app_assoc|by constructor].
Qed.

(** ** Texts of the grammar *)
Lemma json_escape_body s : printable s -> string_body (json_escape s).
Proof.
  induction 1 as [|c s [e E] _ IH]; [constructor|]. cbn [json_escape flat_map]. rewrite E. cbn [default].
  unfold json_escape_character in E.
  destruct (is_char c backslash) eqn:E1; [injection E as <-; by apply sb_escape|].
  destruct (is_char c quote) eqn:E2; [injection E as <-; by apply sb_escape|].
  destruct (is_char c newline); [injection E as <-; by apply sb_escape|].
  destruct (is_char c carriage_return); [injection E as <-; by apply sb_escape|].
  destruct (is_char c tab); [injection E as <-; by apply sb_escape|].
  destruct (code c <? 32) eqn:Hc; [done|]. injection E as <-.
  apply sb_plain; [by apply Z.ltb_ge|by apply is_char_false|by apply is_char_false|done].
Qed.

Lemma json_escape_nonempty s : printable s -> s <> [] -> json_escape s <> [].
Proof.
  intros [|c l [e E] _]; [done|]. intros _. cbn [json_escape flat_map]. rewrite E. cbn [default]. unfold json_escape_character in E.
  repeat (case_match; [injection E as <-; discriminate|]). case_match; [done|]. by injection E as <-.
Qed.

(** Compact objects and arrays. *)
Fixpoint members_join (l : list (text * text)) : text :=
  match l with
  | [] => []
  | [(k, t)] => string_text k ++ ":"%char :: t
  | (k, t) :: rest => string_text k ++ ":"%char :: t ++ ","%char :: members_join rest
  end.
Definition object_text (l : list (text * text)) : text := "{"%char :: members_join l ++ ["}"%char].

Lemma members_join_text d (l : list (text * (json * text))) : l <> [] -> NoDup (fst <$> l) -> Forall (fun x => string_body x.1) l ->
  Forall (fun x => json_text d x.2.1 x.2.2) l ->
  members_text d ((fun x => (x.1, x.2.1)) <$> l) (members_join ((fun x => (x.1, x.2.2)) <$> l)).
Proof.
  intros Hne. induction l as [|[k [v t]] l IH]; [done|]. rewrite !fmap_cons. intros Hnd Hb Ht.
  apply list.NoDup_cons in Hnd as [Hk Hnd]. apply Forall_cons_1 in Hb as [Hb1 Hb]. apply Forall_cons_1 in Ht as [Ht1 Ht]. cbn in *.
  destruct l as [|[k' [v' t']] l].
  - assert (Hn : spaces []) by constructor. pose proof (mt_one d k v [] [] t [] Hb1 Hn Hn Ht1 Hn) as H.
    cbn [app] in H. by rewrite app_nil_r in H.
  - rewrite fmap_cons. cbn. apply (mt_cons d k v [] [] t [] []); [done|constructor|constructor|done|constructor|constructor| |by apply IH].
    intros Hin. apply Hk. clear -Hin. rewrite fmap_cons. cbn in *. apply elem_of_cons. apply elem_of_cons in Hin as [->|Hin]; [by left|right].
    rewrite map_map in Hin. cbn in Hin. exact Hin.
Qed.

Lemma object_text_text d (l : list (text * (json * text))) : (d <= maximum_depth)%nat -> l <> [] -> NoDup (fst <$> l) ->
  Forall (fun x => string_body x.1) l -> Forall (fun x => json_text (S d) x.2.1 x.2.2) l ->
  json_text d (JObject ((fun x => (x.1, x.2.1)) <$> l)) (object_text ((fun x => (x.1, x.2.2)) <$> l)).
Proof. intros Hd Hne Hnd Hb Ht. apply (jt_object d []); [done|constructor|]. by apply members_join_text. Qed.

Lemma samples_text_text d l : (d <= maximum_depth)%nat -> Forall (fun v => 0 <= v <= u64_max) l -> l <> [] ->
  elements_text d (JNumber <$> l) (samples_text l).
Proof.
  intros Hd Hl. induction Hl as [|v l Hv Hl IH]; [done|]. intros _. rewrite fmap_cons.
  assert (Hn : json_text d (JNumber v) (to_chars v)).
  { pose proof (to_chars_number v Hv) as [Hn Hval]. rewrite <- Hval at 1. by apply jt_number. }
  destruct l as [|v' l].
  - assert (Hw : spaces []) by constructor. pose proof (et_one d (JNumber v) (to_chars v) [] Hn Hw) as H. by rewrite app_nil_r in H.
  - apply (et_cons d (JNumber v) (to_chars v) [] [] _ (samples_text (v' :: l))); [done|constructor|constructor|by apply IH].
Qed.

(** ** Values with their texts *)
Abbreviation written_json := (json * text)%type.
Definition w_number (v : Z) : written_json := (JNumber v, to_chars v).
Definition w_bool (b : bool) : written_json := (JBool b, word (if b then "true" else "false")).
Definition w_string (s : text) : written_json := (JString (json_escape s), string_text (json_escape s)).
Definition w_samples (l : list Z) : written_json := (JArray (JNumber <$> l), part_text (Samples l)).
Definition w_object (l : list (string * written_json)) : written_json :=
  (JObject ((fun x => (word x.1, x.2.1)) <$> l), object_text ((fun x => (word x.1, x.2.2)) <$> l)).

(** The text is one of the value, at that depth and at every smaller one. *)
Definition well_written (d : nat) (x : written_json) : Prop := json_text d x.1 x.2.

Definition plain_char (c : ascii) : bool := (32 <=? code c) && negb (is_char c quote) && negb (is_char c backslash).
Lemma plain_body k : forallb plain_char k = true -> string_body k.
Proof.
  induction k as [|c k IH]; cbn [forallb]; [constructor|]. intros [[[H1%Z.leb_le H2]%andb_prop H3]%andb_prop Hk]%andb_prop.
  apply sb_plain; [done|by apply is_char_false, negb_true_iff|by apply is_char_false, negb_true_iff|by apply IH].
Qed.

Lemma plain_escape k : forallb plain_char k = true -> json_escape k = k /\ printable k.
Proof.
  induction k as [|c k IH]; cbn [forallb]; [split; [done|constructor]|].
  intros [[[H1%Z.leb_le H2]%andb_prop H3]%andb_prop Hk]%andb_prop. destruct (IH Hk) as [E Hp].
  assert (Ec : json_escape_character c = Some [c]).
  { unfold json_escape_character. rewrite (proj1 (negb_true_iff _) H2), (proj1 (negb_true_iff _) H3).
    destruct (is_char c newline) eqn:En; [apply is_char_true in En as ->; by vm_compute in H1|].
    destruct (is_char c carriage_return) eqn:Ecr; [apply is_char_true in Ecr as ->; by vm_compute in H1|].
    destruct (is_char c tab) eqn:Et; [apply is_char_true in Et as ->; by vm_compute in H1|].
    by rewrite (proj2 (Z.ltb_ge _ _) H1). }
  split; [|by constructor; [rewrite Ec|]]. change (json_escape (c :: k)) with (default [] (json_escape_character c) ++ json_escape k). by rewrite Ec, E.
Qed.

Lemma well_written_number d v : (d <= maximum_depth)%nat -> 0 <= v <= u64_max -> well_written d (w_number v).
Proof.
  intros Hd Hv. destruct (to_chars_number v Hv) as [Hn E]. unfold well_written, w_number. cbn.
  rewrite <- E at 1. by apply jt_number.
Qed.
Lemma well_written_bool d b : (d <= maximum_depth)%nat -> well_written d (w_bool b).
Proof. intros Hd. destruct b; by constructor. Qed.
Lemma well_written_string d s : (d <= maximum_depth)%nat -> printable s -> well_written d (w_string s).
Proof. intros Hd Hs. apply jt_string; [done|]. by apply json_escape_body. Qed.
Lemma well_written_samples d l : (S d <= maximum_depth)%nat -> Forall (fun v => 0 <= v <= u64_max) l -> well_written d (w_samples l).
Proof.
  intros Hd Hl. unfold well_written, w_samples. cbn. destruct l as [|v l].
  - apply (jt_array_empty d []); [lia|constructor].
  - apply (jt_array d []); [lia|constructor|]. by apply samples_text_text.
Qed.
Lemma well_written_object d l : (d <= maximum_depth)%nat -> l <> [] ->
  bool_decide (NoDup ((fun x => word x.1) <$> l)) = true -> forallb (fun x => forallb plain_char (word x.1)) l = true ->
  Forall (fun x => well_written (S d) x.2) l -> well_written d (w_object l).
Proof.
  intros Hd Hne Hnd%bool_decide_eq_true Hk Hl. unfold well_written, w_object. cbn.
  pose proof (object_text_text d ((fun x => (word x.1, x.2)) <$> l) Hd) as H. rewrite <- !list_fmap_compose in H.
  apply H; clear H.
  - by destruct l.
  - exact Hnd.
  - apply Forall_fmap. rewrite forallb_Forall in Hk. eapply Forall_impl; [|exact Hk]. intros x. apply plain_body.
  - apply Forall_fmap. exact Hl.
Qed.

(** ** The report *)
Definition named (k : string) (x : written_json) : string * written_json := (k, x).

Definition w_interval_metric (metric : NumericMetric) (samples : list Z) (samples_key : string) : written_json :=
  w_object (if nm_available metric
            then [named "status" (w_string (word "available")); named "value" (w_number (nm_value metric)); (samples_key, w_samples samples)]
            else [named "status" (w_string (word "unavailable")); named "reason" (w_string (nm_reason metric))]).

Definition w_counter_metric (instrumented : bool) (value : Z) (samples : list Z) (reason : string) : written_json :=
  w_object ([named "instrumented" (w_bool instrumented); named "value" (w_number value)] ++
            if instrumented then [named "status" (w_string (word "available")); named "samples_count" (w_samples samples)]
            else [named "status" (w_string (word "unavailable")); named "reason" (w_string (word reason))]).

Definition w_report (id : Identity) (options : RunnerOptions) (p : Percentiles) (cpu : option text) (m : Measurement)
    (dependencies features hardening : json) : written_json :=
  w_object
   [named "schema_version" (w_string (id_schema_version id));
    named "build" (w_object
      [named "build_id" (w_string (id_build_id id));
       named "compiler" (w_object [named "id" (w_string (id_compiler_id id)); named "version" (w_string (id_compiler_version id))]);
       named "dependencies" ((dependencies, id_dependencies_json id)); named "features" ((features, id_features_json id));
       named "profile" (w_string (id_build_profile id)); named "hardening" ((hardening, id_hardening_json id));
       named "sanitizer_profile" (w_string (id_sanitizer_profile id));
       named "standard_library" (w_object [named "id" (w_string (id_standard_library_id id)); named "version" (w_string (id_standard_library_version id))]);
       named "target" (w_object [named "architecture" (w_string (id_target_architecture id)); named "os" (w_string (id_target_os id))])]);
    named "cpu" (w_object [named "description" (w_object
      (match cpu with
       | Some value => [named "status" (w_string (word "available")); named "value" (w_string value)]
       | None => [named "status" (w_string (word "unavailable")); named "reason" (w_string (word "cpu_description_unavailable"))]
       end))]);
    named "metrics" (w_object
      [named "allocation_count" (w_counter_metric (wc_allocation_instrumented (ms_counters m)) (wc_allocation_count (ms_counters m))
          (ms_allocation_samples m) "allocation_counter_not_instrumented");
       named "cpu_time_ns" (w_interval_metric (ms_cpu_time m) (ms_cpu_samples m) "samples_ns");
       named "laghu_syscall_count" (w_counter_metric (wc_laghu_syscall_instrumented (ms_counters m)) (wc_laghu_syscall_count (ms_counters m))
          (ms_syscall_samples m) "laghu_syscall_counter_not_instrumented");
       named "latency_ns_per_interval" (w_object
          [named "p50" (w_number (p50 p)); named "p95" (w_number (p95 p)); named "p99" (w_number (p99 p)); named "p99_9" (w_number (p999 p));
           named "samples_ns" (w_samples (ms_durations m))]);
       named "peak_rss_bytes" (w_interval_metric (ms_peak_rss m) (ms_rss_samples m) "samples_bytes");
       named "throughput_operations_per_second" (w_interval_metric (ms_throughput m) (ms_throughput_samples m) "samples_operations_per_second")]);
    named "parameters" (w_object
      [named "intervals" (w_number (ro_measured_intervals options)); named "operations_per_interval" (w_number (id_operations_per_interval id));
       named "warmup" (w_number (ro_warmup_intervals options))]);
    named "workload" (w_string (ro_workload options));
    named "workload_checksum" (w_number (ms_checksum m))].

(** The texts of consecutive parts. *)
Definition parts_text (ps : list part) : text := concat (part_text <$> ps).

Lemma parts_text_app a b : parts_text (a ++ b) = parts_text a ++ parts_text b.
Proof. unfold parts_text. by rewrite fmap_app, concat_app. Qed.
Lemma parts_text_cons p ps : parts_text (p :: ps) = part_text p ++ parts_text ps.
Proof. done. Qed.

Lemma escape_available : json_escape (word "available") = word "available".
Proof. reflexivity. Qed.
Lemma escape_unavailable : json_escape (word "unavailable") = word "unavailable".
Proof. reflexivity. Qed.

(** Both sides as one list of characters and texts. *)
#[local] Ltac same_text :=
  unfold parts_text, w_object, object_text, w_number, w_bool, w_samples, w_string, named, string_text;
  rewrite ?escape_available, ?escape_unavailable;
  cbn -[to_chars json_escape samples_text];
  repeat (rewrite <- app_assoc; cbn -[to_chars json_escape samples_text]);
  rewrite ?app_nil_r; reflexivity.

Lemma interval_metric_text metric samples key : part_text (plain key) = word key ->
  parts_text (interval_metric_parts metric samples key) = (w_interval_metric metric samples key).2.
Proof.
  intros Hk. unfold interval_metric_parts, w_interval_metric. destruct (nm_available metric).
  - rewrite !parts_text_cons, Hk. generalize (nm_value metric). intros v. same_text.
  - same_text.
Qed.

Lemma counter_metric_text instrumented value samples reason : json_escape (word reason) = word reason ->
  parts_text (counter_metric_parts instrumented value samples reason) = (w_counter_metric instrumented value samples reason).2.
Proof.
  intros Hr. unfold counter_metric_parts, w_counter_metric. destruct instrumented; [same_text|].
  rewrite !parts_text_app, !parts_text_cons. cbn [part_text]. rewrite Hr. unfold w_string. rewrite Hr. same_text.
Qed.

Lemma report_text id options p cpu m dependencies features hardening :
  parts_text (report_parts id options p cpu m) = (w_report id options p cpu m dependencies features hardening).2 ++ [newline].
Proof.
  unfold report_parts, w_report. rewrite !parts_text_app, !counter_metric_text, !interval_metric_text by reflexivity.
  generalize (w_counter_metric (wc_allocation_instrumented (ms_counters m)) (wc_allocation_count (ms_counters m))
    (ms_allocation_samples m) "allocation_counter_not_instrumented") as x1.
  generalize (w_counter_metric (wc_laghu_syscall_instrumented (ms_counters m)) (wc_laghu_syscall_count (ms_counters m))
    (ms_syscall_samples m) "laghu_syscall_counter_not_instrumented") as x2.
  generalize (w_interval_metric (ms_cpu_time m) (ms_cpu_samples m) "samples_ns") as x3.
  generalize (w_interval_metric (ms_peak_rss m) (ms_rss_samples m) "samples_bytes") as x4.
  generalize (w_interval_metric (ms_throughput m) (ms_throughput_samples m) "samples_operations_per_second") as x5.
  intros [v5 t5] [v4 t4] [v3 t3] [v2 t2] [v1 t1]. destruct m, p, id, options. destruct cpu as [cpu|].
  - same_text.
  - same_text.
Qed.
