(* ===== verification/RunnerSpec.v ===== *)
(** * Reports of the runner are artifacts of the evaluator

    The JSON value a report is a text of, what the evaluator reads from it, and the theorems on
    the measuring loop and on a whole run. *)
From S2P Require Import Prelude Json JsonSpec Regression Manifest Artifact.
From S2P Require Import Evaluator EvaluatorIo EvaluatorMain Metrics Runner ReportText.
From Stdlib Require Import ZArith Lia Ascii String.
From stdpp Require Import base numbers list option sorting.

Set Default Goal Selector "!".
#[local] Open Scope Z_scope.
#[local] Open Scope laghu_scope.

(** ** Members of written objects *)
Definition named_value (k : string) (l : list (string * written_json)) : option json :=
  match find (fun x => String.eqb x.1 k) l with Some x => Some x.2.1 | None => None end.

Lemma word_inj a b : word a = word b -> a = b.
Proof. intros H. rewrite <- (string_of_list_ascii_of_string a), <- (string_of_list_ascii_of_string b). unfold word in H. by rewrite H. Qed.

Lemma member_object k l : member (w_object l).1 (word k) = named_value k l.
Proof.
  unfold member, w_object, named_value. cbn [fst]. induction l as [|[k' [v t]] l IH]; [done|].
  rewrite fmap_cons. cbn [JsonSpec.assoc find fst snd]. destruct (String.eqb_spec k' k) as [->|Hne].
  - by rewrite bool_decide_eq_true_2.
  - rewrite bool_decide_eq_false_2 by (intros E; by apply word_inj in E). exact IH.
Qed.

(** What the build supplies: the identity strings are not empty, the three JSON constants are
    texts of two arrays and an object, and leave room in the tables of the evaluator. *)
Record identity_ok (id : Identity) (dependencies features hardening : json) : Prop := {
  io_schema : id_schema_version id = word "laghu-benchmark-v1";
  io_build_id : id_build_id id <> []; io_compiler_id : id_compiler_id id <> []; io_compiler_version : id_compiler_version id <> [];
  io_profile : id_build_profile id <> []; io_sanitizer : id_sanitizer_profile id <> [];
  io_library_id : id_standard_library_id id <> []; io_library_version : id_standard_library_version id <> [];
  io_architecture : id_target_architecture id <> []; io_os : id_target_os id <> [];
  io_workload : id_workload_name id <> [];
  io_dependencies : json_text 2 dependencies (id_dependencies_json id) /\ exists vs, dependencies = JArray vs;
  io_features : json_text 2 features (id_features_json id) /\ exists vs, features = JArray vs;
  io_hardening : json_text 2 hardening (id_hardening_json id) /\ exists kvs, hardening = JObject kvs;
  io_operations : 0 <= id_operations_per_interval id <= u64_max;
  io_nodes : (nodes_in dependencies + nodes_in features + nodes_in hardening <= N.to_nat 1000)%nat;
  io_members : (members_in dependencies + members_in features + members_in hardening <= N.to_nat 900)%nat;
  io_elements : (elements_in dependencies + elements_in features + elements_in hardening <= N.to_nat 1000)%nat }.

(** ** Measurements *)
Definition u64_value (v : Z) : Prop := 0 <= v <= u64_max.
Definition metric_ok (m : NumericMetric) : Prop := u64_value (nm_value m) /\ (nm_available m = false -> nm_reason m <> []).
Definition samples_ok (n : nat) (l : list Z) : Prop := length l = n /\ Forall u64_value l.

Record measurement_ok (n : nat) (m : Measurement) : Prop := {
  mo_durations : samples_ok n (ms_durations m); mo_throughput : samples_ok n (ms_throughput_samples m);
  mo_cpu : samples_ok n (ms_cpu_samples m); mo_rss : samples_ok n (ms_rss_samples m);
  mo_allocation : samples_ok n (ms_allocation_samples m); mo_syscall : samples_ok n (ms_syscall_samples m);
  mo_allocations : u64_value (wc_allocation_count (ms_counters m)); mo_syscalls : u64_value (wc_laghu_syscall_count (ms_counters m));
  mo_throughput_metric : metric_ok (ms_throughput m); mo_cpu_time : metric_ok (ms_cpu_time m);
  mo_peak_rss : metric_ok (ms_peak_rss m); mo_total : u64_value (ms_total_duration m); mo_checksum : u64_value (ms_checksum m) }.

(** ** What the evaluator reads *)
Definition read_series (available : bool) (samples : list Z) (reason : text) : MetricSeries :=
  if available then MkMetricSeries samples true [] else unavailable_series (json_escape reason).

Definition series_of_metric (m : NumericMetric) (samples : list Z) : MetricSeries :=
  read_series (nm_available m) samples (nm_reason m).

Definition read_report (id : Identity) (options : RunnerOptions) (cpu : option text) (m : Measurement) (parameters : text) : Artifact :=
  MkArtifact (json_escape (id_build_id id)) (json_escape (id_compiler_id id)) (json_escape (id_compiler_version id))
    (json_escape (id_standard_library_id id)) (json_escape (id_standard_library_version id)) (json_escape (id_build_profile id))
    (id_hardening_json id) (json_escape (id_sanitizer_profile id)) (json_escape (id_target_architecture id)) (json_escape (id_target_os id))
    (match cpu with Some t => json_escape t | None => [] end) (match cpu with Some _ => true | None => false end)
    (id_dependencies_json id) (id_features_json id) parameters (json_escape (ro_workload options)) (ms_checksum m)
    [MkMetricSeries (ms_durations m) true [];
     series_of_metric (ms_throughput m) (ms_throughput_samples m);
     series_of_metric (ms_cpu_time m) (ms_cpu_samples m);
     series_of_metric (ms_peak_rss m) (ms_rss_samples m);
     read_series (wc_allocation_instrumented (ms_counters m)) (ms_allocation_samples m) (word "allocation_counter_not_instrumented");
     read_series (wc_laghu_syscall_instrumented (ms_counters m)) (ms_syscall_samples m) (word "laghu_syscall_counter_not_instrumented")].

Lemma mapM_numbers l : mapM number_of (JNumber <$> l) = Some l.
Proof. induction l as [|v l IH]; [done|]. rewrite fmap_cons. cbn. by rewrite IH. Qed.

Lemma tree_samples_written l k n samples : named_value k l = Some (w_samples samples).1 -> samples_ok n samples ->
  (10 <= n <= N.to_nat 1000)%nat -> tree_samples (w_object l).1 (word k) (Z.of_nat n) = Some (MkMetricSeries samples true []).
Proof.
  intros Hk [Hlen _] Hn. unfold tree_samples, tree_array. rewrite member_object, Hk. cbn [w_samples fst].
  rewrite length_fmap, Hlen, mapM_numbers. unfold count_fits.
  rewrite !bool_decide_eq_true_2, Z.eqb_refl by (unfold minimum_samples, maximum_samples; lia). done.
Qed.

Lemma tree_string_written l k s : named_value k l = Some (w_string s).1 -> json_escape s <> [] ->
  tree_string (w_object l).1 (word k) = Some (json_escape s).
Proof. intros Hk Hs. unfold tree_string. rewrite member_object, Hk. cbn [w_string fst]. by destruct (json_escape s). Qed.

Lemma tree_number_written l k v : named_value k l = Some (w_number v).1 -> tree_number (w_object l).1 (word k) = Some v.
Proof. intros Hk. unfold tree_number. by rewrite member_object, Hk. Qed.

Lemma tree_object_written l k l' : named_value k l = Some (w_object l').1 -> tree_object (w_object l).1 (word k) = Some (w_object l').1.
Proof. intros Hk. unfold tree_object. by rewrite member_object, Hk. Qed.

(** ** Metrics of a report *)
Lemma tree_host_metric_written ms key skey metric samples n :
  named_value key ms = Some (w_interval_metric metric samples skey).1 ->
  String.eqb skey "status" = false -> String.eqb skey "value" = false ->
  metric_ok metric -> (nm_available metric = false -> printable (nm_reason metric)) ->
  samples_ok n samples -> (10 <= n <= N.to_nat 1000)%nat ->
  tree_host_metric (w_object ms).1 (word key) (word skey) (Z.of_nat n) = Some (series_of_metric metric samples).
Proof.
  intros Hk Hs Hv [_ Hreason] Hp Hsamples Hn. unfold tree_host_metric, w_interval_metric in *.
  rewrite (tree_object_written _ _ _ Hk). cbn [mbind option_bind]. unfold series_of_metric, read_series.
  destruct (nm_available metric).
  - rewrite (tree_string_written _ "status" (word "available")) by (reflexivity || discriminate). cbn [mbind option_bind].
    rewrite escape_available, bool_decide_eq_false_2, bool_decide_eq_true_2 by (reflexivity || discriminate).
    rewrite (tree_number_written _ "value" (nm_value metric)) by reflexivity. cbn [mbind option_bind].
    apply tree_samples_written; [|done|done]. unfold named_value. cbn [find named fst snd].
    rewrite (String.eqb_sym "status" skey), Hs, (String.eqb_sym "value" skey), Hv, String.eqb_refl. done.
  - rewrite (tree_string_written _ "status" (word "unavailable")) by (reflexivity || discriminate). cbn [mbind option_bind].
    rewrite escape_unavailable, bool_decide_eq_true_2 by reflexivity. unfold tree_unavailable.
    rewrite (tree_string_written _ "reason" (nm_reason metric)); [done|reflexivity|].
    by apply json_escape_nonempty; auto.
Qed.

Lemma tree_counter_metric_written ms key instrumented value samples reason n :
  named_value key ms = Some (w_counter_metric instrumented value samples reason).1 ->
  forallb plain_char (word reason) = true -> word reason <> [] ->
  samples_ok n samples -> (10 <= n <= N.to_nat 1000)%nat ->
  tree_counter_metric (w_object ms).1 (word key) (Z.of_nat n) = Some (read_series instrumented samples (word reason)).
Proof.
  intros Hk Hplain Hne Hsamples Hn. unfold tree_counter_metric, w_counter_metric in *.
  rewrite (tree_object_written _ _ _ Hk). cbn [mbind option_bind].
  destruct (plain_escape _ Hplain) as [Hesc Hp].
  assert (Hb : tree_boolean (w_object ([named "instrumented" (w_bool instrumented); named "value" (w_number value)] ++
     if instrumented then [named "status" (w_string (word "available")); named "samples_count" (w_samples samples)]
     else [named "status" (w_string (word "unavailable")); named "reason" (w_string (word reason))])).1 (word "instrumented") = Some instrumented).
  { unfold tree_boolean. by rewrite member_object. }
  rewrite Hb. clear Hb. cbn [mbind option_bind]. rewrite (tree_number_written _ "value" value) by reflexivity. cbn [mbind option_bind].
  destruct instrumented; cbn [app].
  - rewrite (tree_string_written _ "status" (word "available")) by (reflexivity || discriminate). cbn [mbind option_bind].
    rewrite escape_available, bool_decide_eq_true_2 by reflexivity. by apply tree_samples_written.
  - rewrite (tree_string_written _ "status" (word "unavailable")) by (reflexivity || discriminate). cbn [mbind option_bind].
    rewrite escape_unavailable, bool_decide_eq_true_2 by reflexivity. unfold tree_unavailable.
    rewrite (tree_string_written _ "reason" (word reason)); [done|reflexivity|]. by rewrite Hesc.
Qed.

(** The strings of a report that was written. *)
Definition strings_printable (id : Identity) (options : RunnerOptions) (cpu : option text) (m : Measurement) : Prop :=
  Forall printable [id_schema_version id; id_build_id id; id_compiler_id id; id_compiler_version id; id_build_profile id;
    id_sanitizer_profile id; id_standard_library_id id; id_standard_library_version id; id_target_architecture id;
    id_target_os id; ro_workload options; default (word "cpu_description_unavailable") cpu] /\
  (nm_available (ms_cpu_time m) = false -> printable (nm_reason (ms_cpu_time m))) /\
  (nm_available (ms_peak_rss m) = false -> printable (nm_reason (ms_peak_rss m))) /\
  (nm_available (ms_throughput m) = false -> printable (nm_reason (ms_throughput m))).

Lemma interval_parts_printable metric samples key : Forall part_ok (interval_metric_parts metric samples key) ->
  nm_available metric = false -> printable (nm_reason metric).
Proof.
  unfold interval_metric_parts. intros H E. rewrite E in H. apply Forall_cons_1 in H as [_ H]. apply Forall_cons_1 in H as [_ H].
  by apply Forall_cons_1 in H as [H _].
Qed.

Lemma report_parts_printable id options p cpu m : Forall part_ok (report_parts id options p cpu m) -> strings_printable id options cpu m.
Proof.
  unfold report_parts. rewrite !Forall_app. intros (H1 & _ & _ & Hcpu & _ & _ & _ & Hrss & _ & Hthr & H2).
  split; [|exact (conj (interval_parts_printable _ _ _ Hcpu) (conj (interval_parts_printable _ _ _ Hrss) (interval_parts_printable _ _ _ Hthr)))].
  repeat match goal with H : Forall _ (_ :: _) |- _ => apply Forall_cons_1 in H as [? H] end.
  repeat constructor; done.
Qed.

(** ** The report as a text of the grammar *)
#[local] Ltac shallow := unfold maximum_depth; lia.
#[local] Ltac each_member := repeat apply Forall_cons_2; try apply Forall_nil_2; cbn [named snd].
#[local] Ltac well_object := apply well_written_object; [shallow|discriminate|reflexivity|reflexivity|].

Lemma interval_metric_written d metric samples key n : (d <= 60)%nat -> metric_ok metric ->
  (nm_available metric = false -> printable (nm_reason metric)) -> samples_ok n samples ->
  bool_decide (NoDup [word "status"; word "value"; word key]) = true -> forallb plain_char (word key) = true ->
  well_written d (w_interval_metric metric samples key).
Proof.
  intros Hd [Hv _] Hr [_ Hs] Hnd Hk. unfold w_interval_metric. destruct (nm_available metric).
  - apply well_written_object; [shallow|discriminate|exact Hnd|unfold named; cbn [forallb fst]; by rewrite Hk|].
    each_member; [apply well_written_string; [shallow|by apply plain_escape]|apply well_written_number; [shallow|done]|].
    apply well_written_samples; [shallow|done].
  - well_object. each_member; apply well_written_string; [shallow|by apply plain_escape|shallow|by apply Hr].
Qed.

Lemma counter_metric_written d instrumented value samples reason n : (d <= 60)%nat -> u64_value value -> samples_ok n samples ->
  forallb plain_char (word reason) = true -> well_written d (w_counter_metric instrumented value samples reason).
Proof.
  intros Hd Hv [_ Hs] Hr. unfold w_counter_metric. destruct instrumented; well_object; each_member.
  all: try (apply well_written_bool; shallow).
  all: try (apply well_written_number; [shallow|done]).
  all: try (apply well_written_string; [shallow|by apply plain_escape]).
  apply well_written_samples; [shallow|done].
Qed.

Lemma report_well_written id options p cpu m dependencies features hardening n :
  identity_ok id dependencies features hardening -> measurement_ok n m -> strings_printable id options cpu m ->
  Forall u64_value [p50 p; p95 p; p99 p; p999 p; ro_measured_intervals options; ro_warmup_intervals options] ->
  well_written 0 (w_report id options p cpu m dependencies features hardening).
Proof.
  intros Hid Hm (Hs & Hcpu & Hrss & Hthr) Hnum.
  repeat match goal with H : Forall _ (_ :: _) |- _ => apply Forall_cons_1 in H as [? H] end.
  unfold w_report. well_object.
  assert (Hstr : forall d s, (d <= 60)%nat -> printable s -> well_written d (w_string s)) by (intros; apply well_written_string; [shallow|done]).
  assert (Hn : forall d v, (d <= 60)%nat -> u64_value v -> well_written d (w_number v)) by (intros; apply well_written_number; [shallow|done]).
  each_member.
  - by apply Hstr; [lia|].
  - well_object. each_member; try (apply Hstr; [lia|done]).
    + well_object. each_member; (apply Hstr; [lia|done]).
    + apply Hid.
    + apply Hid.
    + apply Hid.
    + well_object. each_member; (apply Hstr; [lia|done]).
    + well_object. each_member; (apply Hstr; [lia|done]).
  - well_object. each_member.
    destruct cpu as [cpu|]; well_object; each_member; (apply Hstr; [lia|]); (done || by apply plain_escape).
  - well_object. each_member.
    + eapply counter_metric_written; [lia|apply Hm|apply Hm|reflexivity].
    + eapply interval_metric_written; [lia|apply Hm|done|apply Hm|reflexivity|reflexivity].
    + eapply counter_metric_written; [lia|apply Hm|apply Hm|reflexivity].
    + well_object. each_member; try (apply Hn; [lia|done]).
      apply well_written_samples; [shallow|apply Hm].
    + eapply interval_metric_written; [lia|apply Hm|done|apply Hm|reflexivity|reflexivity].
    + eapply interval_metric_written; [lia|apply Hm|done|apply Hm|reflexivity|reflexivity].
  - well_object. each_member; (apply Hn; [lia|]); (done || apply Hid).
  - by apply Hstr; [lia|].
  - apply Hn; [lia|apply Hm].
Qed.

(** ** The report as the evaluator reads it *)
Definition parameters_of (id : Identity) (options : RunnerOptions) : written_json :=
  w_object [named "intervals" (w_number (ro_measured_intervals options));
            named "operations_per_interval" (w_number (id_operations_per_interval id));
            named "warmup" (w_number (ro_warmup_intervals options))].

Definition report_reading (id : Identity) (options : RunnerOptions) (cpu : option text) (m : Measurement)
    (dependencies features hardening : json) : Reading :=
  MkReading (fun h d f p =>
     MkArtifact (json_escape (id_build_id id)) (json_escape (id_compiler_id id)) (json_escape (id_compiler_version id))
       (json_escape (id_standard_library_id id)) (json_escape (id_standard_library_version id)) (json_escape (id_build_profile id))
       h (json_escape (id_sanitizer_profile id)) (json_escape (id_target_architecture id)) (json_escape (id_target_os id))
       (match cpu with Some t => json_escape t | None => [] end) (match cpu with Some _ => true | None => false end)
       d f p (json_escape (ro_workload options)) (ms_checksum m)
       (a_metrics (read_report id options cpu m [])))
    hardening dependencies features (parameters_of id options).1.

Lemma tree_cpu_written l cpu : named_value "description" l =
    Some (w_object (match cpu with
       | Some value => [named "status" (w_string (word "available")); named "value" (w_string value)]
       | None => [named "status" (w_string (word "unavailable")); named "reason" (w_string (word "cpu_description_unavailable"))]
       end)).1 -> (forall t, cpu = Some t -> json_escape t <> []) ->
  exists v, tree_object (w_object l).1 (word "description") = Some v /\ tree_cpu_description v = Some (json_escape <$> cpu).
Proof.
  intros Hk Hc. eexists. split; [exact (tree_object_written _ _ _ Hk)|]. unfold tree_cpu_description. destruct cpu as [t|].
  - rewrite (tree_string_written _ "status" (word "available")) by (reflexivity || discriminate). cbn [mbind option_bind].
    rewrite escape_available, bool_decide_eq_true_2 by reflexivity.
    rewrite (tree_string_written _ "value" t); [done|reflexivity|by apply Hc].
  - rewrite (tree_string_written _ "status" (word "unavailable")) by (reflexivity || discriminate). cbn [mbind option_bind].
    rewrite escape_unavailable, bool_decide_eq_false_2, bool_decide_eq_true_2 by (reflexivity || discriminate).
    rewrite (tree_string_written _ "reason" (word "cpu_description_unavailable")) by (reflexivity || discriminate). done.
Qed.

Lemma tree_raw_object l k kvs : named_value k l = Some (JObject kvs) -> tree_object (w_object l).1 (word k) = Some (JObject kvs).
Proof. intros Hk. unfold tree_object. by rewrite member_object, Hk. Qed.
Lemma tree_raw_array l k vs : named_value k l = Some (JArray vs) -> tree_array (w_object l).1 (word k) = Some (JArray vs).
Proof. intros Hk. unfold tree_array. by rewrite member_object, Hk. Qed.

Lemma tree_latency_written ms a b c d samples n :
  named_value "latency_ns_per_interval" ms = Some (w_object
    [named "p50" (w_number a); named "p95" (w_number b); named "p99" (w_number c); named "p99_9" (w_number d);
     named "samples_ns" (w_samples samples)]).1 ->
  samples_ok n samples -> (10 <= n <= N.to_nat 1000)%nat ->
  tree_latency_metric (w_object ms).1 (Z.of_nat n) = Some (MkMetricSeries samples true []).
Proof.
  intros Hk Hs Hn. unfold tree_latency_metric. rewrite (tree_object_written _ _ _ Hk). cbn [mbind option_bind].
  erewrite (tree_number_written _ "p50") by reflexivity. cbn [mbind option_bind].
  erewrite (tree_number_written _ "p95") by reflexivity. cbn [mbind option_bind].
  erewrite (tree_number_written _ "p99") by reflexivity. cbn [mbind option_bind].
  erewrite (tree_number_written _ "p99_9") by reflexivity. cbn [mbind option_bind]. by apply tree_samples_written.
Qed.

(** One requirement of the reading, found among the members of a written object. *)
#[local] Ltac found lem := erewrite lem; [|reflexivity|..]; cbn [ensure].

Lemma report_read id options p cpu m dependencies features hardening n :
  identity_ok id dependencies features hardening -> measurement_ok n m -> strings_printable id options cpu m ->
  ro_workload options <> [] -> (forall t, cpu = Some t -> t <> []) ->
  ro_measured_intervals options = Z.of_nat n -> (10 <= n <= N.to_nat 1000)%nat ->
  tree_artifact (w_report id options p cpu m dependencies features hardening).1 =
  inr (report_reading id options cpu m dependencies features hardening).
Proof.
  intros Hid Hm (Hs & Hcpu & Hrss & Hthr) Hw Hc Hi Hn.
  repeat match goal with H : Forall _ (_ :: _) |- _ => apply Forall_cons_1 in H as [? H] end.
  destruct (io_dependencies _ _ _ _ Hid) as [_ [vsd ->]]. destruct (io_features _ _ _ _ Hid) as [_ [vsf ->]].
  destruct (io_hardening _ _ _ _ Hid) as [_ [kvs ->]].
  unfold tree_artifact, w_report. cbn [ensure].
  change (match (w_object ?l).1 with JObject _ => Some () | _ => None end) with (Some ()). cbn [ensure].
  assert (Hne : forall t, printable t -> t <> [] -> json_escape t <> []) by (intros; by apply json_escape_nonempty).
  found tree_string_written; [|by rewrite (io_schema _ _ _ _ Hid)].
  rewrite (io_schema _ _ _ _ Hid), (bool_decide_eq_true_2 (json_escape _ = _)) by reflexivity. cbn [negb].
  found tree_object_written. found tree_string_written; [|by apply Hne; [|apply Hid]].
  found tree_object_written. found tree_string_written; [|by apply Hne; [|apply Hid]].
  found tree_string_written; [|by apply Hne; [|apply Hid]].
  found tree_object_written. found tree_string_written; [|by apply Hne; [|apply Hid]].
  found tree_string_written; [|by apply Hne; [|apply Hid]]. found tree_string_written; [|by apply Hne; [|apply Hid]].
  found tree_raw_object. found tree_string_written; [|by apply Hne; [|apply Hid]].
  found tree_object_written. found tree_string_written; [|by apply Hne; [|apply Hid]]. found tree_string_written; [|by apply Hne; [|apply Hid]].
  found tree_raw_array. found tree_raw_array. found tree_object_written.
  match goal with |- context [tree_object (w_object ?l).1 (word "description")] =>
    destruct (tree_cpu_written l cpu eq_refl) as (v & -> & Hv); [intros t ->; apply Hne; [done|by apply Hc]|] end.
  cbn [ensure]. rewrite Hv. cbn [ensure]. found tree_object_written.
  unfold tree_intervals at 1. erewrite tree_number_written by reflexivity. cbn [mbind option_bind]. rewrite Hi.
  rewrite (proj2 (Z.leb_le 10 _)), (proj2 (Z.leb_le _ 1000)) by lia. cbn [andb ensure].
  found tree_number_written. found tree_number_written. found tree_string_written; [|by apply Hne].
  found tree_number_written. found tree_object_written.
  found tree_counter_metric_written; [|reflexivity|discriminate|apply Hm|done].
  found tree_host_metric_written; [|reflexivity|reflexivity|apply Hm|done|apply Hm|done].
  found tree_counter_metric_written; [|reflexivity|discriminate|apply Hm|done].
  found tree_latency_written; [|apply Hm|done].
  found tree_host_metric_written; [|reflexivity|reflexivity|apply Hm|done|apply Hm|done].
  found tree_host_metric_written; [|reflexivity|reflexivity|apply Hm|done|apply Hm|done].
  unfold report_reading, parameters_of. rewrite Hi. do 2 f_equal. by destruct cpu.
Qed.

(** ** The report fits the tables of the evaluator *)
Lemma nodes_in_object l : nodes_in (w_object l).1 = S (sum_of (fun x => nodes_in x.2.1) l).
Proof. unfold w_object, sum_of. cbn [fst nodes_in]. unfold sum_of. by rewrite map_map. Qed.
Lemma members_in_object l : members_in (w_object l).1 = sum_of (fun x => S (members_in x.2.1)) l.
Proof. unfold w_object, sum_of. cbn [fst members_in]. unfold sum_of. by rewrite map_map. Qed.
Lemma elements_in_object l : elements_in (w_object l).1 = sum_of (fun x => elements_in x.2.1) l.
Proof. unfold w_object, sum_of. cbn [fst elements_in]. unfold sum_of. by rewrite map_map. Qed.

Lemma samples_sizes l : nodes_in (w_samples l).1 = S (length l) /\ members_in (w_samples l).1 = O /\ elements_in (w_samples l).1 = length l.
Proof.
  cbn [w_samples fst nodes_in members_in elements_in].
  induction l as [|v l (H1 & H2 & H3)]; [done|]. rewrite !fmap_cons, !sum_of_cons. cbn [nodes_in members_in elements_in length] in *. lia.
Qed.

(** At most so many nodes, members and elements. *)
Definition sizes_within (x : written_json) (n m e : nat) : Prop :=
  (nodes_in x.1 <= n)%nat /\ (members_in x.1 <= m)%nat /\ (elements_in x.1 <= e)%nat.

Lemma scalar_sizes s v b : sizes_within (w_string s) 1 0 0 /\ sizes_within (w_number v) 1 0 0 /\ sizes_within (w_bool b) 1 0 0.
Proof. unfold sizes_within. cbn. lia. Qed.

Lemma object_sizes_nil : sizes_within (w_object []) 1 0 0.
Proof. unfold sizes_within. cbn. lia. Qed.
Lemma object_sizes_cons k x l n m e n' m' e' : sizes_within x n m e -> sizes_within (w_object l) n' m' e' ->
  sizes_within (w_object (named k x :: l)) (n + n') (S m + m') (e + e').
Proof.
  unfold sizes_within. rewrite !nodes_in_object, !members_in_object, !elements_in_object, !sum_of_cons. cbn [named snd fst]. lia.
Qed.
Lemma sizes_weaken x n m e n' m' e' : sizes_within x n m e -> (n <= n')%nat -> (m <= m')%nat -> (e <= e')%nat -> sizes_within x n' m' e'.
Proof. unfold sizes_within. lia. Qed.

#[local] Ltac sizes :=
  repeat lazymatch goal with
  | |- sizes_within (w_object []) _ _ _ => exact object_sizes_nil
  | |- sizes_within (w_object (named _ _ :: _)) _ _ _ => eapply object_sizes_cons
  | |- sizes_within (w_string ?s) _ _ _ => exact (proj1 (scalar_sizes s 0 false))
  | |- sizes_within (w_number ?v) _ _ _ => exact (proj1 (proj2 (scalar_sizes [] v false)))
  | |- sizes_within (w_bool ?b) _ _ _ => exact (proj2 (proj2 (scalar_sizes [] 0 b)))
  end.

Lemma sample_array_sizes n samples : samples_ok n samples -> sizes_within (w_samples samples) (S n) 0 n.
Proof. intros [Hl _]. destruct (samples_sizes samples) as (H1 & H2 & H3). unfold sizes_within. lia. Qed.

Lemma interval_metric_sizes metric samples key n : samples_ok n samples ->
  sizes_within (w_interval_metric metric samples key) (4 + n) 3 n.
Proof.
  intros Hs. unfold w_interval_metric. change (key, w_samples samples) with (named key (w_samples samples)). destruct (nm_available metric).
  - eapply sizes_weaken; [sizes; by apply (sample_array_sizes n)|lia..].
  - eapply sizes_weaken; [sizes|lia..].
Qed.

Lemma counter_metric_sizes b value samples reason n : samples_ok n samples ->
  sizes_within (w_counter_metric b value samples reason) (5 + n) 4 n.
Proof.
  intros Hs. unfold w_counter_metric. destruct b; cbn [app].
  - eapply sizes_weaken; [sizes; by apply (sample_array_sizes n)|lia..].
  - eapply sizes_weaken; [sizes|lia..].
Qed.

Lemma report_fits id options p cpu m dependencies features hardening n :
  identity_ok id dependencies features hardening -> measurement_ok n m -> (n <= N.to_nat 1000)%nat ->
  fits_tables (w_report id options p cpu m dependencies features hardening).1.
Proof.
  intros Hid Hm Hn. set (x := w_report _ _ _ _ _ _ _ _).
  assert (H : sizes_within x (100 + 6 * n + (nodes_in dependencies + nodes_in features + nodes_in hardening))
     (100 + (members_in dependencies + members_in features + members_in hardening))
     (6 * n + (elements_in dependencies + elements_in features + elements_in hardening))).
  { subst x. unfold w_report.
    assert (Hraw : forall v t, sizes_within (v, t) (nodes_in v) (members_in v) (elements_in v)) by (intros; split; [|split]; done).
    assert (Hc1 := counter_metric_sizes (wc_allocation_instrumented (ms_counters m)) (wc_allocation_count (ms_counters m))
      (ms_allocation_samples m) "allocation_counter_not_instrumented" n (mo_allocation _ _ Hm)).
    assert (Hc2 := counter_metric_sizes (wc_laghu_syscall_instrumented (ms_counters m)) (wc_laghu_syscall_count (ms_counters m))
      (ms_syscall_samples m) "laghu_syscall_counter_not_instrumented" n (mo_syscall _ _ Hm)).
    assert (Hi1 := interval_metric_sizes (ms_cpu_time m) (ms_cpu_samples m) "samples_ns" n (mo_cpu _ _ Hm)).
    assert (Hi2 := interval_metric_sizes (ms_peak_rss m) (ms_rss_samples m) "samples_bytes" n (mo_rss _ _ Hm)).
    assert (Hi3 := interval_metric_sizes (ms_throughput m) (ms_throughput_samples m) "samples_operations_per_second" n (mo_throughput _ _ Hm)).
    revert Hc1 Hc2 Hi1 Hi2 Hi3.
    generalize (w_counter_metric (wc_allocation_instrumented (ms_counters m)) (wc_allocation_count (ms_counters m))
      (ms_allocation_samples m) "allocation_counter_not_instrumented") as x1.
    generalize (w_counter_metric (wc_laghu_syscall_instrumented (ms_counters m)) (wc_laghu_syscall_count (ms_counters m))
      (ms_syscall_samples m) "laghu_syscall_counter_not_instrumented") as x2.
    generalize (w_interval_metric (ms_cpu_time m) (ms_cpu_samples m) "samples_ns") as x3.
    generalize (w_interval_metric (ms_peak_rss m) (ms_rss_samples m) "samples_bytes") as x4.
    generalize (w_interval_metric (ms_throughput m) (ms_throughput_samples m) "samples_operations_per_second") as x5.
    intros x5 x4 x3 x2 x1 H1 H2 H3 H4 H5.
    assert (Hdur := sample_array_sizes n (ms_durations m) (mo_durations _ _ Hm)). revert Hdur. generalize (w_samples (ms_durations m)) as x6.
    intros x6 H6.
    assert (Hcpu : sizes_within (w_object (match cpu with
       | Some value => [named "status" (w_string (word "available")); named "value" (w_string value)]
       | None => [named "status" (w_string (word "unavailable")); named "reason" (w_string (word "cpu_description_unavailable"))]
       end)) 3 2 0) by (destruct cpu; (eapply sizes_weaken; [sizes|lia..])).
    revert Hcpu. generalize (w_object (match cpu with
       | Some value => [named "status" (w_string (word "available")); named "value" (w_string value)]
       | None => [named "status" (w_string (word "unavailable")); named "reason" (w_string (word "cpu_description_unavailable"))]
       end)) as x7. intros x7 H7.
    eapply sizes_weaken; [sizes; (eassumption || apply Hraw)|..].
    all: lia. }
  destruct H as (H1 & H2 & H3). pose proof (io_nodes _ _ _ _ Hid). pose proof (io_members _ _ _ _ Hid). pose proof (io_elements _ _ _ _ Hid).
  unfold fits_tables, maximum_json_nodes, maximum_json_members, maximum_json_elements. lia.
Qed.

(** ** A report is an artifact *)
Lemma report_loads id options p cpu m dependencies features hardening n document :
  identity_ok id dependencies features hardening -> measurement_ok n m ->
  Forall u64_value [p50 p; p95 p; p99 p; p999 p; ro_measured_intervals options; ro_warmup_intervals options] ->
  ro_workload options <> [] -> (forall t, cpu = Some t -> t <> []) ->
  ro_measured_intervals options = Z.of_nat n -> (10 <= n <= N.to_nat 1000)%nat ->
  put_parts (report_parts id options p cpu m) [] = Some document ->
  exists a, load_artifact_text document = Ret (inr a) /\ artifact_wf a /\
    reads_as a (report_reading id options cpu m dependencies features hardening).
Proof.
  intros Hid Hm Hnum Hw Hc Hi Hn (Hdoc & Hok)%put_parts_Some. apply report_parts_printable in Hok.
  cbn [app] in Hdoc. change (concat (part_text <$> ?l)) with (parts_text l) in Hdoc.
  rewrite (report_text _ _ _ _ _ dependencies features hardening) in Hdoc.
  pose proof (report_well_written id options p cpu m _ _ _ n Hid Hm Hok Hnum) as Htext.
  pose proof (report_fits id options p cpu m _ _ _ n Hid Hm ltac:(lia)) as Hfits.
  pose proof (report_read id options p cpu m _ _ _ n Hid Hm Hok Hw Hc Hi Hn) as Hread.
  set (x := w_report id options p cpu m dependencies features hardening) in *. clearbody x.
  destruct (load_exact document) as (_ & _ & Hcomplete).
  destruct (Hcomplete [] x.2 [newline] x.1) as (d & Hload & Hrep); [done|constructor|by repeat constructor|done..|].
  unfold load_artifact_text. rewrite Hload, outcome_bind_Ret.
  pose proof (load_artifact_tree d (count d) (le_n _) x.1 Hrep) as Hsame. rewrite Hread in Hsame.
  destruct (load_artifact_document d) as [e|a]; [done|]. destruct Hsame as [H1 H2]. by exists a.
Qed.
