(* ===== verification/RunnerMain.v ===== *)
(** * Runs of the benchmark runner

    [HostLaws] states what the runner relies on of the clocks, [getrusage] and the workload:
    they write nothing, and the workload keeps its 64-bit values in range.  Over such a host the
    measuring loop keeps its totals equal to the totals of its samples, and a whole run ends
    with exactly one document on the standard output or none.  [Bench] is such a host. *)
From S2P Require Import Prelude BinaryEnvelope Json JsonSpec Regression Manifest Artifact.
From S2P Require Import Evaluator EvaluatorIo EvaluatorMain Metrics Runner ReportText RunnerSpec.
From Stdlib Require Import ZArith Lia Ascii String.
From stdpp Require Import base numbers list option sorting.

Set Default Goal Selector "!".
#[local] Open Scope Z_scope.
#[local] Open Scope laghu_scope.

Definition counters_ok (c : WorkloadCounters) : Prop := u64_value (wc_allocation_count c) /\ u64_value (wc_laghu_syscall_count c).

Class HostLaws {W} (host : Host W) `{!Observation W} : Prop := {
  host_posix_laws :: PosixLaws (host_posix host);
  clock_law c w : stable w (host_clock_gettime host c w).2;
  rusage_law w : stable w (host_getrusage host w).2;
  workload_law seed counters w : counters_ok counters ->
    let '(value, counters', w') := host_run_workload host seed counters w in
    stable w w' /\ counters_ok counters' /\ (forall v, value = Some v -> u64_value v) }.

(** ** Readings *)
Lemma timespec_nanoseconds_exact s n v : timespec_nanoseconds s n = Some v ->
  v = s * nanoseconds_per_second + n /\ u64_value v.
Proof.
  unfold timespec_nanoseconds, nanoseconds_per_second, u64_value.
  destruct (Z.ltb_spec s 0); [done|]. destruct (Z.ltb_spec n 0); [done|]. destruct (Z.leb_spec 1000000000 n); [done|].
  cbn [orb]. destruct (Z.ltb_spec ((u64_max - n) / 1000000000) s) as [|Hs]; [done|].
  assert (s * 1000000000 <= u64_max - n).
  { pose proof (Z.mul_div_le (u64_max - n) 1000000000 ltac:(lia)). nia. }
  rewrite !u64_small by (rewrite ?u64_small by lia; lia). intros [= <-]. lia.
Qed.

Section readings.
Context {W : Type} (host : Host W) `{!Observation W} `{!HostLaws host}.

Lemma monotonic_now_ok w r w' : monotonic_now host w = (r, w') -> stable w w' /\ forall v, r = Some v -> u64_value v.
Proof.
  unfold monotonic_now. pose proof (clock_law clock_monotonic w) as Hs.
  destruct (host_clock_gettime host clock_monotonic w) as [[[s n]|] w1]; intros [= <- <-]; split; try done.
  intros v Hv. by apply timespec_nanoseconds_exact in Hv as [_ Hv].
Qed.

Lemma metric_ok_unavailable reason : word reason <> [] -> metric_ok (unavailable_metric reason).
Proof. intros H. split; [split; cbn; unfold u64_max; lia|done]. Qed.
Lemma metric_ok_available v : u64_value v -> metric_ok (available_metric v).
Proof. intros H. by split. Qed.

Lemma process_cpu_time_ok w m w' : process_cpu_time host w = (m, w') -> stable w w' /\ metric_ok m.
Proof.
  unfold process_cpu_time. pose proof (clock_law clock_process_cputime w) as Hs.
  destruct (host_clock_gettime host clock_process_cputime w) as [[[s n]|] w1]; intros [= <- <-]; (split; [done|]).
  - destruct (timespec_nanoseconds s n) as [v|] eqn:E; [|by apply metric_ok_unavailable].
    apply metric_ok_available. by apply timespec_nanoseconds_exact in E as [_ E].
  - by apply metric_ok_unavailable.
Qed.

Lemma peak_rss_bytes_ok w m w' : peak_rss_bytes host w = (m, w') -> stable w w' /\ metric_ok m.
Proof.
  unfold peak_rss_bytes. pose proof (rusage_law w) as Hs. destruct (host_getrusage host w) as [[k|] w1]; intros [= <- <-]; (split; [done|]).
  - destruct (k <? 0); [by apply metric_ok_unavailable|]. destruct (u64_max / 1024 <? k); [by apply metric_ok_unavailable|].
    apply metric_ok_available, u64_range.
  - by apply metric_ok_unavailable.
Qed.

(** ** The description of the processor *)
Lemma copy_metric_text_nonempty t v : copy_metric_text t = Some v -> v <> [].
Proof. unfold copy_metric_text. case_bool_decide; [done|]. cbn [orb]. case_bool_decide; [done|]. by intros [= <-]. Qed.

Lemma labelled_value_nonempty source label v : labelled_value source label = Some v -> v <> [].
Proof.
  unfold labelled_value. destruct (find_text label source) as [p|]; [|done]. cbn [mbind option_bind].
  destruct (find_char ":" source _) as [s|]; [|done]. cbn [mbind option_bind].
  destruct (find_char newline source s) as [e|]; [|done]. cbn [mbind option_bind]. apply copy_metric_text_nonempty.
Qed.

Lemma cpu_of_source_nonempty source v : cpu_of_source source = Some v -> v <> [].
Proof.
  unfold cpu_of_source. destruct (labelled_value source (word "model name")) eqn:E; [intros [= <-]|]; by eapply labelled_value_nonempty.
Qed.

Lemma cpu_description_ok w cpu w' : cpu_description host w = (cpu, w') -> stable w w' /\ forall t, cpu = Some t -> t <> [].
Proof.
  unfold cpu_description. pose proof (open_law (word "/proc/cpuinfo") w) as Ho.
  destruct (sys_open (host_posix host) (word "/proc/cpuinfo") w) as [[fd|] w1]; destruct Ho as [Hs _]; [|by intros [= <- <-]].
  pose proof (read_law fd (diagnostic_capacity - 1) w1 ltac:(unfold diagnostic_capacity; lia)) as Hr.
  destruct (sys_read (host_posix host) fd (diagnostic_capacity - 1) w1) as [r w2]. destruct Hr as [Hs2 _].
  intros [= <- <-]. split; [eapply evolves_trans; [done|]; eapply evolves_trans; [done|apply close_law]|].
  destruct r as [[|c source]| |]; try done. intros t. apply cpu_of_source_nonempty.
Qed.
End readings.

(** ** Totals *)
#[local] Abbreviation total := Regression.total.
Definition largest (l : list Z) : Z := foldr Z.max 0 l.

Lemma total_snoc l v : total (l ++ [v]) = total l + v.
Proof. unfold Regression.total. induction l as [|x l IH]; cbn; lia. Qed.
Lemma largest_snoc l v : 0 <= v -> largest (l ++ [v]) = Z.max (largest l) v.
Proof. intros Hv. unfold largest. induction l as [|x l IH]; cbn; [lia|]. lia. Qed.

Definition rate (operations duration : Z) : Z := operations * nanoseconds_per_second / duration.

(** What the running totals are: the totals of the samples so far.  A metric that became
    unavailable has no total. *)
Record tallies (operations : Z) (m : Measurement) : Prop := {
  ta_duration : ms_total_duration m = total (ms_durations m);
  ta_cpu : nm_available (ms_cpu_time m) = true -> nm_value (ms_cpu_time m) = total (ms_cpu_samples m);
  ta_rss : nm_available (ms_peak_rss m) = true -> nm_value (ms_peak_rss m) = largest (ms_rss_samples m);
  ta_allocation : wc_allocation_count (ms_counters m) = total (ms_allocation_samples m);
  ta_syscall : wc_laghu_syscall_count (ms_counters m) = total (ms_syscall_samples m);
  ta_rate : nm_available (ms_throughput m) = true ->
    Forall2 (fun d r => 0 < d /\ r = rate operations d) (ms_durations m) (ms_throughput_samples m) /\
    (ms_durations m <> [] -> operations * nanoseconds_per_second <= u64_max) }.

Lemma tallies_start operations checksum : tallies operations (start_measurement checksum).
Proof. split; done || (intros _; by split; [constructor|]). Qed.

Lemma samples_ok_snoc n l v : samples_ok n l -> u64_value v -> samples_ok (S n) (l ++ [v]).
Proof. intros [Hl Hf] Hv. split; [rewrite length_app; cbn; lia|]. apply Forall_app. by split; [|constructor]. Qed.

Lemma u64_value_0 : u64_value 0.
Proof. unfold u64_value, u64_max. lia. Qed.
Lemma u64_value_u64 z : u64_value (u64 z).
Proof. apply u64_range. Qed.
#[local] Hint Resolve u64_value_0 u64_value_u64 : core.

Lemma start_measurement_ok checksum : u64_value checksum -> measurement_ok 0 (start_measurement checksum).
Proof. intros Hc. assert (samples_ok 0 []) by (by split; [|constructor]). split; cbn; auto; apply metric_ok_available; auto. Qed.

(** A quotient of a product that fits. *)
Lemma product_fits operations : u64_value operations -> (u64_max / nanoseconds_per_second <? operations) = false ->
  operations * nanoseconds_per_second <= u64_max /\ u64 (operations * nanoseconds_per_second) = operations * nanoseconds_per_second.
Proof.
  unfold u64_value, nanoseconds_per_second. intros Ho H%Z.ltb_ge.
  assert (operations * 1000000000 <= u64_max). { pose proof (Z.mul_div_le u64_max 1000000000 ltac:(lia)). nia. }
  split; [done|]. apply u64_small. lia.
Qed.

Lemma quotient_u64 a d : 0 <= a <= u64_max -> 0 <= d -> u64_value (a / d).
Proof.
  intros Ha Hd. destruct (decide (d = 0)) as [->|]; [rewrite Z.div_0_r; auto|].
  split; [apply Z.div_pos; lia|]. apply Z.div_le_upper_bound; [lia|]. nia.
Qed.

Section metrics.
Context {W : Type} (host : Host W) `{!Observation W} `{!HostLaws host}.
Abbreviation operations := (id_operations_per_interval (host_identity host)).
Context (Hoperations : u64_value operations).

Lemma next_throughput_ok metric d metric' sample : metric_ok metric -> u64_value d ->
  next_throughput host metric d = (metric', sample) ->
  metric_ok metric' /\ u64_value sample /\
  (nm_available metric' = true -> nm_available metric = true /\ 0 < d /\ sample = rate operations d /\
     operations * nanoseconds_per_second <= u64_max).
Proof using Hoperations.
  intros Hm Hd. unfold next_throughput. destruct (Z.eqb_spec d 0) as [|Hne].
  { intros [= <- <-]. split; [by apply metric_ok_unavailable|]. by split. }
  destruct (nm_available metric) eqn:Ha; [|intros [= <- <-]; split; [done|]; split; [auto|congruence]].
  destruct (u64_max / nanoseconds_per_second <? _) eqn:Hover; intros [= <- <-].
  { split; [by apply metric_ok_unavailable|]. by split. }
  apply product_fits in Hover as [Hle ->]; [|done]. unfold u64_value in *. unfold rate.
  split; [done|]. split; [apply quotient_u64; unfold nanoseconds_per_second in *; lia|]. intros _. repeat split; (done || lia).
Qed.

Lemma next_cpu_time_ok metric b e metric' sample : metric_ok metric -> metric_ok b -> metric_ok e ->
  next_cpu_time metric b e = (metric', sample) ->
  metric_ok metric' /\ u64_value sample /\
  (nm_available metric' = true -> nm_available metric = true /\ nm_value metric' = nm_value metric + sample).
Proof.
  intros Hmet [Hb _] [He _]. pose proof (proj1 Hmet) as Hm. unfold next_cpu_time.
  destruct (negb (nm_available b) || negb (nm_available e) || (nm_value e <? nm_value b)) eqn:E.
  { intros [= <- <-]. split; [by apply metric_ok_unavailable|]. by split. }
  apply orb_false_iff in E as [_ E%Z.ltb_ge].
  destruct (nm_available metric) eqn:Ha; [|intros [= <- <-]; split; [exact Hmet|]; split; [auto|congruence]].
  destruct (Z.ltb_spec (u64_max - nm_value metric) (u64 (nm_value e - nm_value b))) as [|Hfit]; intros [= <- <-].
  { split; [by apply metric_ok_unavailable|]. by split. }
  split; [by split; [apply u64_value_u64|]|]. split; [auto|]. intros _. split; [done|]. cbn [nm_value].
  pose proof (u64_range (nm_value e - nm_value b)). unfold u64_value in *. apply u64_small. lia.
Qed.

Lemma next_peak_rss_ok metric rss metric' sample : metric_ok metric -> metric_ok rss ->
  next_peak_rss metric rss = (metric', sample) ->
  metric_ok metric' /\ u64_value sample /\
  (nm_available metric' = true -> nm_available metric = true /\ nm_value metric' = Z.max (nm_value metric) sample).
Proof.
  intros Hmet Hrss. pose proof (proj1 Hmet) as Hm. pose proof (proj1 Hrss) as Hs. unfold next_peak_rss. destruct (nm_available rss) eqn:Ea; cbn [negb].
  2:{ intros [= <- <-]. split; [exact Hrss|]. split; [auto|congruence]. }
  destruct (nm_available metric) eqn:Ha; [|intros [= <- <-]; split; [exact Hmet|]; split; [auto|congruence]].
  intros [= <- <-]. destruct (Z.ltb_spec (nm_value metric) (nm_value rss)); cbn.
  - split; [by split|]. split; [done|]. intros _. split; [done|]. lia.
  - split; [exact Hmet|]. split; [done|]. intros _. split; [done|]. lia.
Qed.
End metrics.

(** ** The measuring loop *)
Lemma lxor_u64 a b : u64_value a -> u64_value b -> u64_value (Z.lxor a b).
Proof.
  unfold u64_value. intros Ha Hb. pose proof (lxor_bound a b 64 ltac:(lia)) as H. rewrite u64_max_eq in *. specialize (H ltac:(lia) ltac:(lia)). lia.
Qed.

Section loop.
Context {W : Type} (host : Host W) `{!Observation W} `{!HostLaws host}.
Abbreviation operations := (id_operations_per_interval (host_identity host)).
Context (Hoperations : u64_value operations).

(** The state of the measurement after [n] intervals. *)
Definition measured (n : nat) (m : Measurement) : Prop := measurement_ok n m /\ tallies operations m.

Lemma warmup_loop_ok n : forall interval counters checksum w r w', counters_ok counters -> u64_value checksum ->
  warmup_loop host n interval counters checksum w = (r, w') -> stable w w' /\ forall c, r = Some c -> u64_value c.
Proof using HostLaws0.
  induction n as [|n IH]; intros interval counters checksum w r w' Hc Hs; cbn [warmup_loop].
  { intros [= <- <-]. split; [done|]. by intros c [= <-]. }
  pose proof (workload_law (u64 (interval + 1)) counters w Hc) as Hlaw.
  destruct (host_run_workload host (u64 (interval + 1)) counters w) as [[v counters'] w1]. destruct Hlaw as (He & Hc' & Hv).
  destruct v as [v|]; [|by intros [= <- <-]]. intros Hrun. destruct (IH _ _ _ _ _ _ Hc' (lxor_u64 _ _ Hs (Hv v eq_refl)) Hrun) as [He' Hr].
  split; [by eapply evolves_trans|done].
Qed.

Lemma measure_interval_ok seed n m w r w' : measured n m -> measure_interval host seed m w = (r, w') ->
  stable w w' /\ forall m', r = inr m' -> measured (S n) m'.
Proof using HostLaws0 Hoperations.
  intros [Hm Ht]. unfold measure_interval.
  destruct (monotonic_now host w) as [begin w1] eqn:E1. apply (monotonic_now_ok host) in E1 as [S1 B1].
  destruct begin as [begin|]; [|by intros [= <- <-]].
  destruct (process_cpu_time host w1) as [cb w2] eqn:E2. apply (process_cpu_time_ok host) in E2 as [S2 M2].
  assert (Hc : counters_ok (ms_counters m)) by (split; apply Hm). pose proof (workload_law seed (ms_counters m) w2 Hc) as Hlaw.
  destruct (host_run_workload host seed (ms_counters m) w2) as [[value counters] w3]. destruct Hlaw as (S3 & [C1 C2] & V3).
  assert (S13 : stable w w3) by (eapply evolves_trans; [done|]; by eapply evolves_trans).
  destruct value as [value|]; [|by intros [= <- <-]].
  destruct (process_cpu_time host w3) as [ce w4] eqn:E4. apply (process_cpu_time_ok host) in E4 as [S4 M4].
  destruct (monotonic_now host w4) as [end_ w5] eqn:E5. apply (monotonic_now_ok host) in E5 as [S5 B5].
  assert (S15 : stable w w5) by (eapply evolves_trans; [done|]; by eapply evolves_trans).
  destruct end_ as [end_|]; [|by intros [= <- <-]].
  destruct (Z.ltb_spec end_ begin); [by intros [= <- <-]|]. specialize (B1 _ eq_refl). specialize (B5 _ eq_refl). unfold u64_value in B1, B5.
  assert (Hd : u64 (end_ - begin) = end_ - begin) by (apply u64_small; lia).
  destruct (Z.ltb_spec (u64_max - ms_total_duration m) (u64 (end_ - begin))) as [|Hfit]; [by intros [= <- <-]|].
  pose proof (u64_value_u64 (end_ - begin)) as Hdv. generalize dependent (u64 (end_ - begin)). intros d Hd Hfit Hdv.
  assert (Htotal : u64 (ms_total_duration m + d) = ms_total_duration m + d).
  { pose proof (mo_total _ _ Hm). unfold u64_value in *. apply u64_small. lia. }
  destruct (next_throughput host (ms_throughput m) d) as [thr thr_s] eqn:E6.
  apply (next_throughput_ok host Hoperations) in E6 as (M6 & V6 & T6); [|apply Hm|done].
  destruct (next_cpu_time (ms_cpu_time m) cb ce) as [cpu cpu_s] eqn:E7.
  apply next_cpu_time_ok in E7 as (M7 & V7 & T7); [|apply Hm|done|done].
  destruct (peak_rss_bytes host w5) as [rss w6] eqn:E8. apply (peak_rss_bytes_ok host) in E8 as [S8 M8].
  destruct (next_peak_rss (ms_peak_rss m) rss) as [peak rss_s] eqn:E9.
  apply next_peak_rss_ok in E9 as (M9 & V9 & T9); [|apply Hm|done].
  assert (S16 : stable w w6) by (by eapply evolves_trans).
  destruct (Z.ltb_spec (wc_allocation_count counters) (wc_allocation_count (ms_counters m))); [by intros [= <- <-]|].
  destruct (Z.ltb_spec (wc_laghu_syscall_count counters) (wc_laghu_syscall_count (ms_counters m))); [by intros [= <- <-]|].
  cbn [orb]. intros [= <- <-]. split; [done|]. intros m' [= <-]. split.
  - split; cbn; try (apply samples_ok_snoc; [apply Hm|auto]); auto.
    apply lxor_u64; [apply Hm|by apply V3].
  - destruct Hc as [Hc1 Hc2]. unfold u64_value in C1, C2, Hc1, Hc2.
    split; cbn [ms_total_duration ms_durations ms_cpu_time ms_cpu_samples ms_peak_rss ms_rss_samples ms_counters
      ms_allocation_samples ms_syscall_samples ms_throughput ms_throughput_samples].
    + rewrite total_snoc, Htotal. by rewrite (ta_duration _ _ Ht).
    + intros H7. destruct (T7 H7) as [A ->]. rewrite total_snoc. by rewrite (ta_cpu _ _ Ht A).
    + intros H9. destruct (T9 H9) as [A ->]. rewrite largest_snoc by apply V9. by rewrite (ta_rss _ _ Ht A).
    + rewrite total_snoc, <- (ta_allocation _ _ Ht), u64_small by lia. lia.
    + rewrite total_snoc, <- (ta_syscall _ _ Ht), u64_small by lia. lia.
    + intros H6. destruct (T6 H6) as (A & Hpos & -> & Hle). destruct (ta_rate _ _ Ht A) as [HF _].
      split; [|done]. apply Forall2_app; [done|]. by constructor.
Qed.

Lemma measure_loop_ok k : forall interval warmup n m w r w', measured n m ->
  measure_loop host k interval warmup m w = (r, w') -> stable w w' /\ forall m', r = inr m' -> measured (n + k) m'.
Proof using HostLaws0 Hoperations.
  induction k as [|k IH]; intros interval warmup n m w r w' Hm; cbn [measure_loop].
  { intros [= <- <-]. split; [done|]. intros m' [= <-]. by rewrite Nat.add_0_r. }
  destruct (measure_interval host _ m w) as [r1 w1] eqn:E. apply (measure_interval_ok _ n) in E as [S1 H1]; [|done].
  destruct r1 as [f|m1]; [by intros [= <- <-]|]. intros Hrun.
  destruct (IH _ _ (S n) _ _ _ _ (H1 m1 eq_refl) Hrun) as [S2 H2]. split; [by eapply evolves_trans|].
  intros m' Hm'. replace (n + S k)%nat with (S n + k)%nat by lia. by apply H2.
Qed.

(** The throughput of the run: the rate of all its operations over its whole duration. *)
Lemma total_throughput_ok options n m : measured n m -> (0 < n <= N.to_nat 1000)%nat -> ro_measured_intervals options = Z.of_nat n ->
  metric_ok (total_throughput host options m) /\
  (nm_available (total_throughput host options m) = true ->
     nm_value (total_throughput host options m) = rate (Z.of_nat n * operations) (total (ms_durations m)) /\
     nm_available (ms_throughput m) = true).
Proof using Hoperations.
  intros [Hm Ht] Hn Ho. unfold total_throughput. destruct (Z.eqb_spec (ms_total_duration m) 0); [by split; [apply metric_ok_unavailable|]|].
  destruct (nm_available (ms_throughput m)) eqn:Ha; [|split; [apply Hm|congruence]].
  destruct (ta_rate _ _ Ht Ha) as [_ Hle].
  assert (Hops : operations * nanoseconds_per_second <= u64_max).
  { apply Hle. intros E. pose proof (proj1 (mo_durations _ _ Hm)) as Hl. rewrite E in Hl. cbn in Hl. lia. }
  rewrite Ho. assert (Hsmall : u64 (Z.of_nat n * operations) = Z.of_nat n * operations).
  { apply u64_small. unfold u64_value, nanoseconds_per_second in *. nia. }
  rewrite Hsmall. destruct (u64_max / nanoseconds_per_second <? Z.of_nat n * operations) eqn:Hover; [by split; [apply metric_ok_unavailable|]|].
  assert (Hpos : u64_value (Z.of_nat n * operations)) by (rewrite <- Hsmall; apply u64_value_u64).
  apply product_fits in Hover as [Hfit ->]; [|done]. pose proof (mo_total _ _ Hm) as Htot. unfold u64_value in Hpos, Htot.
  split.
  - split; [|done]. cbn [nm_value]. apply quotient_u64; unfold nanoseconds_per_second in *; lia.
  - intros _. split; [|done]. cbn [nm_value]. unfold rate. by rewrite (ta_duration _ _ Ht).
Qed.
End loop.

(** ** Options *)
Lemma parse_positive_range t maximum v : parse_positive t maximum = Some v -> 0 <= v <= maximum.
Proof.
  unfold parse_positive. case_bool_decide; [done|]. destruct (forallb is_digit t) eqn:Hd; [|done]. cbn [negb].
  unfold from_chars. destruct (decimal t <=? u64_max); [|done]. cbn [mbind option_bind].
  destruct (Z.leb_spec (decimal t) maximum); [|done]. intros [= <-]. split; [|done]. apply (digits_from_mono 0); [lia|]. by apply forallb_Forall.
Qed.

Definition options_found (name : text) (workload : option text) (warmup intervals : option Z) : Prop :=
  (forall t, workload = Some t -> t = name) /\ (forall v, warmup = Some v -> 0 <= v <= maximum_warmup_intervals) /\
  (forall v, intervals = Some v -> 1 <= v <= Z.of_nat maximum_intervals).

Lemma runner_options_loop_ok name n : forall arguments workload warmup intervals r, (length arguments <= n)%nat ->
  options_found name workload warmup intervals ->
  runner_options_loop name arguments workload warmup intervals = Some r -> options_found name r.1.1 r.1.2 r.2.
Proof.
  induction n as [|n IH]; intros [|o [|value rest]] workload warmup intervals r Hl Hf; cbn [runner_options_loop].
  all: try (intros [= <-]; done). all: try done. all: cbn in Hl; try lia. destruct Hf as (F1 & F2 & F3).
  destruct (bool_decide (o = word "--workload") && is_unset workload && bool_decide (value = name)) eqn:E1.
  { apply IH; [lia|]. split; [|done]. intros t [= <-]. apply andb_true_iff in E1 as [_ E1]. by apply bool_decide_eq_true in E1. }
  destruct (if bool_decide (o = word "--warmup") && _ then _ else None) as [v|] eqn:E2.
  { apply IH; [lia|]. split; [done|]. split; [|done]. intros x [= <-].
    destruct (bool_decide (o = word "--warmup") && bool_decide (warmup = None)); [|done]. by apply parse_positive_range in E2. }
  destruct (if bool_decide (o = word "--intervals") && _ then _ else None) as [v|] eqn:E3; [|done].
  destruct (Z.eqb_spec v 0); [done|]. apply IH; [lia|]. split; [done|]. split; [done|]. intros x [= <-].
  destruct (bool_decide (o = word "--intervals") && bool_decide (intervals = None)); [|done]. apply parse_positive_range in E3. lia.
Qed.

Lemma parse_runner_options_ok name arguments o : parse_runner_options name arguments = Some o ->
  ro_workload o = name /\ 0 <= ro_warmup_intervals o <= maximum_warmup_intervals /\
  1 <= ro_measured_intervals o <= Z.of_nat maximum_intervals.
Proof.
  unfold parse_runner_options. destruct (runner_options_loop name arguments None None None) as [[[wl wu] iv]|] eqn:E; [|done].
  apply (runner_options_loop_ok name (length arguments)) in E as (F1 & F2 & F3); [|done|done]. cbn in F1, F2, F3. cbn [mbind option_bind].
  destruct wl as [wl|]; [|done]. destruct wu as [wu|]; [|done]. destruct iv as [iv|]; [|done]. intros [= <-]. cbn. auto.
Qed.

(** ** The program *)
Section program.
Context {W : Type} (host : Host W) `{!Observation W} `{!HostLaws host}.
Abbreviation identity := (host_identity host).
Abbreviation operations := (id_operations_per_interval identity).

(** What a report says of a run of [n] intervals. *)
Record faithful (n : nat) (p : Percentiles) (m : Measurement) : Prop := {
  fa_measurement : measurement_ok n m;
  fa_totals : tallies operations m;
  fa_throughput : nm_available (ms_throughput m) = true ->
    nm_value (ms_throughput m) = rate (Z.of_nat n * operations) (total (ms_durations m));
  fa_p50 : percentile_of (ms_durations m) 500 (p50 p);
  fa_p95 : percentile_of (ms_durations m) 950 (p95 p);
  fa_p99 : percentile_of (ms_durations m) 990 (p99 p);
  fa_p999 : percentile_of (ms_durations m) 999 (p999 p) }.

Lemma document_room : (201 <= maximum_document_bytes)%nat.
Proof. unfold maximum_document_bytes. lia. Qed.

Lemma runner_fail_ok fuel message code w : reliable w -> (length message <= 200)%nat -> (maximum_document_bytes + patience w <= fuel)%nat ->
  exists w', runner_fail host fuel message code w = Ret (code, w') /\
    evolves (fun fd => fd = stderr_fileno) w w' /\ written stderr_fileno w' = written stderr_fileno w ++ message ++ [newline].
Proof using HostLaws0.
  intros Hr Hl Hf. destruct (write_all_ready (host_posix host) fuel stderr_fileno (message ++ [newline]) w Hr) as (w' & E & He & Hw).
  { rewrite length_app. pose proof document_room. cbn [length]. lia. }
  exists w'. unfold runner_fail. rewrite E, outcome_bind_Ret. done.
Qed.

Lemma failure_message_length f : (length (failure_message f) <= 200)%nat.
Proof. destruct f; cbn; lia. Qed.

Lemma set_throughput_ok options n m p : measured host n m -> u64_value operations -> (0 < n <= N.to_nat 1000)%nat ->
  ro_measured_intervals options = Z.of_nat n ->
  percentile_of (ms_durations m) 500 (p50 p) -> percentile_of (ms_durations m) 950 (p95 p) ->
  percentile_of (ms_durations m) 990 (p99 p) -> percentile_of (ms_durations m) 999 (p999 p) ->
  faithful n p (set_throughput m (total_throughput host options m)).
Proof.
  intros Hm Hops Hn Ho H1 H2 H3 H4. destruct (total_throughput_ok host Hops options n m Hm Hn Ho) as [Hok Hval].
  destruct Hm as [Hm Ht]. split; try done.
  - destruct Hm. by split.
  - destruct Ht. split; try done. cbn. intros H. apply ta_rate0. by apply Hval.
  - intros H. by apply Hval.
Qed.

Lemma whole_array_length l : (length l <= maximum_intervals)%nat -> length (whole_array l) = maximum_intervals.
Proof. intros H. unfold whole_array. rewrite length_app, length_replicate. lia. Qed.

Lemma percentile_u64 l q v : Forall u64_value l -> percentile_of l q v -> u64_value v.
Proof. intros Hl [Hv _]. by eapply list.Forall_forall in Hl. Qed.

Lemma faithful_numbers options n p m : faithful n p m -> 0 <= ro_warmup_intervals options <= maximum_warmup_intervals ->
  1 <= ro_measured_intervals options <= Z.of_nat maximum_intervals ->
  Forall u64_value [p50 p; p95 p; p99 p; p999 p; ro_measured_intervals options; ro_warmup_intervals options].
Proof.
  intros Hf Hw Hi. pose proof (proj2 (mo_durations _ _ (fa_measurement _ _ _ Hf))) as Hd.
  repeat apply Forall_cons_2; try apply Forall_nil_2.
  1-4: eapply percentile_u64; [exact Hd|apply Hf].
  - unfold u64_value, u64_max, maximum_intervals in *. lia.
  - unfold u64_value, u64_max, maximum_warmup_intervals in *. lia.
Qed.

(** What a run left on the standard output, and why. *)
Definition runner_outcome (arguments : list text) (dependencies features hardening : json) (w : W) (code : RunnerExit) (w' : W) : Prop :=
  (code = runner_invalid_arguments <-> parse_runner_options (id_workload_name identity) arguments = None) /\
  match code with
  | runner_success =>
      exists options n cpu p m document,
        parse_runner_options (id_workload_name identity) arguments = Some options /\
        ro_measured_intervals options = Z.of_nat n /\ faithful n p m /\
        put_parts (report_parts identity options p cpu m) [] = Some document /\
        written stdout_fileno w' = written stdout_fileno w ++ document /\
        written stderr_fileno w' = written stderr_fileno w /\
        ((10 <= n)%nat -> exists a, load_artifact_text document = Ret (inr a) /\ artifact_wf a /\
           reads_as a (report_reading identity options cpu m dependencies features hardening))
  | _ => written stdout_fileno w' = written stdout_fileno w /\
      exists message, written stderr_fileno w' = written stderr_fileno w ++ message ++ [newline]
  end.

Lemma fail_outcome fuel arguments dependencies features hardening message code w w1 : stable w w1 -> reliable w ->
  (length message <= 200)%nat -> (maximum_document_bytes + patience w <= fuel)%nat -> code <> runner_success ->
  (code = runner_invalid_arguments <-> parse_runner_options (id_workload_name identity) arguments = None) ->
  exists code' w', runner_fail host fuel message code w1 = Ret (code', w') /\
    runner_outcome arguments dependencies features hardening w code' w'.
Proof using HostLaws0.
  intros Hs Hr Hl Hf Hne Hp. assert (patience w1 <= patience w)%nat by apply Hs.
  destruct (runner_fail_ok fuel message code w1) as (w' & -> & He & Hw); [by apply Hs|done|lia|].
  exists code, w'. split; [done|]. split; [done|].
  assert (written stdout_fileno w' = written stdout_fileno w) by (rewrite (proj1 (proj2 He)) by done; by apply stable_written).
  assert (written stderr_fileno w' = written stderr_fileno w ++ message ++ [newline]) by (rewrite Hw; f_equal; by apply stable_written).
  destruct code; [done|..]; eauto.
Qed.

(** The end of a run, once the intervals are measured. *)
Lemma report_outcome fuel arguments options n m w w1 dependencies features hardening :
  identity_ok identity dependencies features hardening ->
  stable w w1 -> reliable w -> (maximum_document_bytes + patience w <= fuel)%nat ->
  parse_runner_options (id_workload_name identity) arguments = Some options ->
  ro_measured_intervals options = Z.of_nat n -> measured host n m ->
  exists code w',
    (percentiles ← summarize_percentiles (whole_array (ms_durations m)) (Z.to_nat (ro_measured_intervals options));
     match percentiles with
     | None => runner_fail host fuel (word "laghu-benchmark: percentile calculation failed") metric_unavailable w1
     | Some (percentiles, _) =>
     let m := set_throughput m (total_throughput host options m) in
     let '(cpu, w) := cpu_description host w1 in
     '(ok, w) ← write_report host fuel options percentiles cpu m w;
     if negb ok then runner_fail host fuel (word "laghu-benchmark: report exceeds bounded output capacity") runner_output_failure w
     else Ret (runner_success, w)
     end) = Ret (code, w') /\ runner_outcome arguments dependencies features hardening w code w'.
Proof using HostLaws0.
  intros Hid Hs Hr Hf Ho Hn Hm. destruct (parse_runner_options_ok _ _ _ Ho) as (Hw & Hwarm & Hint).
  assert (Hrange : (0 < n <= N.to_nat 1000)%nat) by (unfold maximum_intervals in Hint; lia).
  pose proof (mo_durations _ _ (proj1 Hm)) as [Hlen Hdur]. rewrite Hn, Nat2Z.id.
  assert (Hwhole : length (whole_array (ms_durations m)) = maximum_intervals) by (apply whole_array_length; unfold maximum_intervals; lia).
  destruct (summarize_percentiles_spec (whole_array (ms_durations m)) n) as (r & -> & Hres).
  { rewrite Hwhole. unfold maximum_intervals. lia. }
  rewrite outcome_bind_Ret. destruct r as [[p sorted]|].
  2:{ exfalso. rewrite Hwhole in Hres. unfold maximum_intervals in Hres. lia. }
  assert (Htake : take n (whole_array (ms_durations m)) = ms_durations m).
  { unfold whole_array. rewrite take_app_le, <- Hlen, firstn_all by lia. done. }
  rewrite Htake in Hres. destruct Hres as (_ & _ & _ & H1 & H2 & H3 & H4).
  pose proof (set_throughput_ok options n m p Hm (io_operations _ _ _ _ Hid) Hrange Hn H1 H2 H3 H4) as Hfaith.
  generalize dependent (set_throughput m (total_throughput host options m)). intros m' Hfaith. cbn zeta.
  destruct (cpu_description host w1) as [cpu w2] eqn:Ecpu. apply (cpu_description_ok host) in Ecpu as [Hs2 Hcpu].
  assert (Hs02 : stable w w2) by (by eapply evolves_trans). assert (patience w2 <= patience w)%nat by apply Hs02.
  unfold write_report. destruct (put_parts (report_parts identity options p cpu m') []) as [document|] eqn:Edoc.
  - assert (Hbound : (length document <= maximum_document_bytes)%nat) by (eapply put_parts_bounded; [|exact Edoc]; apply Nat.le_0_l).
    destruct (write_all_ready (host_posix host) fuel stdout_fileno document w2) as (w3 & E3 & He3 & Hw3); [by apply Hs02|lia|].
    rewrite E3, outcome_bind_Ret. cbn [negb]. exists runner_success, w3. split; [done|]. split; [rewrite Ho; split; discriminate|].
    exists options, n, cpu, p, m', document. split; [done|]. split; [done|]. split; [done|]. split; [done|].
    split; [rewrite Hw3; f_equal; by apply stable_written|].
    split; [rewrite (proj1 (proj2 He3)) by done; by apply stable_written|]. intros Hten.
    refine (report_loads identity options p cpu m' dependencies features hardening n document Hid _ _ _ Hcpu Hn _ Edoc).
    + exact (fa_measurement _ _ _ Hfaith).
    + exact (faithful_numbers options n p m' Hfaith Hwarm Hint).
    + rewrite Hw. exact (io_workload _ _ _ _ Hid).
    + lia.
  - rewrite outcome_bind_Ret. cbn [negb]. apply fail_outcome; [done|done|cbn; lia|done|discriminate|]. rewrite Ho. split; discriminate.
Qed.

(** C35: on every host that keeps the laws and on which no call fails, and with an identity of the
    build that is well formed ([identity_ok]), the runner ends and its report can be trusted.
    It exits with 64 exactly for arguments it cannot parse.  On success the standard output has
    one document more and nothing else: its totals are the totals of its samples, its
    throughput the rate of all operations over the whole duration, its percentiles the
    nearest-rank percentiles of the durations; and when at least ten intervals were measured
    (the runner takes 1 to 1000) the evaluator accepts the document and reads from it the
    samples, the checksum and the identity that were measured.  On any other exit the standard
    output is as it was and the standard error stream has one message more. *)
Theorem runner_main_reports (fuel : nat) (arguments : list text) (w : W) (dependencies features hardening : json) :
  identity_ok identity dependencies features hardening ->
  reliable w -> (maximum_document_bytes + patience w <= fuel)%nat ->
  exists code w', runner_main host fuel arguments w = Ret (code, w') /\
    runner_outcome arguments dependencies features hardening w code w'.
Proof using HostLaws0.
  intros Hid Hr Hf. unfold runner_main. destruct (parse_runner_options (id_workload_name identity) arguments) as [options|] eqn:Ho.
  2:{ apply fail_outcome; [done|done|cbn; lia|done|discriminate|done]. }
  assert (Hcode : forall code, code <> runner_invalid_arguments ->
    code = runner_invalid_arguments <-> parse_runner_options (id_workload_name identity) arguments = None).
  { intros code Hne. rewrite Ho. split; [done|discriminate]. }
  destruct (warmup_loop host (Z.to_nat (ro_warmup_intervals options)) 0 no_counters 0 w) as [checksum w1] eqn:Ew.
  apply (warmup_loop_ok host) in Ew as [Hs1 Hc]; [|by split; apply u64_value_0|apply u64_value_0].
  destruct checksum as [checksum|]; [|apply fail_outcome; [done|done|cbn; lia|done|discriminate|by apply Hcode]].
  destruct (measure_loop host (Z.to_nat (ro_measured_intervals options)) 0 (ro_warmup_intervals options)
    (start_measurement checksum) w1) as [m w2] eqn:Em.
  apply (measure_loop_ok host (io_operations _ _ _ _ Hid) _ _ _ 0) in Em as [Hs2 Hm].
  2:{ split; [apply start_measurement_ok; by apply Hc|apply tallies_start]. }
  assert (Hs : stable w w2) by (by eapply evolves_trans). destruct m as [f|m].
  - apply fail_outcome; [done|done|apply failure_message_length|done|by destruct f|apply Hcode; by destruct f].
  - pose proof (parse_runner_options_ok _ _ _ Ho) as (_ & _ & Hint).
    refine (report_outcome fuel arguments options (Z.to_nat (ro_measured_intervals options)) m w w2 _ _ _ Hid Hs Hr Hf Ho _ (Hm m eq_refl)). lia.
Qed.
End program.

(** ** A host *)
Module Bench.
Import Simulated.

(** A clock that advances by a second at each reading, and a workload that counts its calls. *)
Definition tick (w : World) : World := MkWorld (files w) (Simulated.left w) (sent w) (interruptions w) (next w + 1).

Definition identity : Identity :=
  MkIdentity (word "laghu-benchmark-v1") (word "b1") (word "gcc") (word "14") (word "[]") (word "[]") (word "release") (word "{}")
    (word "none") (word "libstdc++") (word "14") (word "x86_64") (word "linux") (word "spin") 100.

Definition host : Host World := {|
  host_posix := Simulated.os;
  host_clock_gettime c w := (Some (next w, 0), tick w);
  host_getrusage w := (Some 2048, w);
  host_run_workload seed counters w :=
    let '(ok, counters) := record_allocation_events counters 1 in (if ok : bool then Some (u64 seed) else None, counters, w);
  host_identity := identity |}.

Lemma bench_record_ok total instrumented count t b : u64_value total -> 0 <= count -> record total instrumented count = Some (t, b) -> u64_value t.
Proof.
  intros Ht Hc. unfold record. destruct (count =? 0); [by intros [= <- _]|]. destruct (u64_max - total <? count); [done|].
  intros [= <- _]. apply u64_range.
Qed.

#[export] Instance host_laws : HostLaws host.
Proof.
  split.
  - exact _.
  - done.
  - done.
  - intros seed counters w [H1 H2]. cbn. unfold record_allocation_events.
    destruct (record (wc_allocation_count counters) (wc_allocation_instrumented counters) 1) as [[t b]|] eqn:E; (split; [done|]).
    + split; [split; [exact (bench_record_ok _ _ 1 _ _ H1 ltac:(lia) E)|exact H2]|]. intros v [= <-]. apply u64_range.
    + by split.
Qed.

Lemma identity_lawful : identity_ok identity (JArray []) (JArray []) (JObject []).
Proof.
  split; try discriminate; try reflexivity; try (cbn; lia).
  - split; [|by eexists]. apply (jt_array_empty 2 []); [unfold maximum_depth; lia|constructor].
  - split; [|by eexists]. apply (jt_array_empty 2 []); [unfold maximum_depth; lia|constructor].
  - split; [|by eexists]. apply (jt_object_empty 2 []); [unfold maximum_depth; lia|constructor].
  - split; unfold u64_max; cbn; lia.
Qed.
End Bench.
#[export] Existing Instance Bench.host_laws.

Definition bench_arguments : list text :=
  [word "--workload"; word "spin"; word "--warmup"; word "1"; word "--intervals"; word "12"].

Lemma bench_succeeds : match runner_main Bench.host (maximum_document_bytes + 2) bench_arguments Simulated.start with
  | Ret (code, _) => code = runner_success
  | Stop _ => False
  end.
Proof. vm_compute. reflexivity. Qed.

Lemma runner_main_reports_witness :
  exists w', runner_main Bench.host (maximum_document_bytes + 2) bench_arguments Simulated.start = Ret (runner_success, w') /\
    exists options n cpu p m document, ro_measured_intervals options = Z.of_nat n /\ faithful Bench.host n p m /\
      written stdout_fileno w' = document /\
      ((10 <= n)%nat -> exists a, load_artifact_text document = Ret (inr a) /\ artifact_wf a /\
         reads_as a (report_reading Bench.identity options cpu m (JArray []) (JArray []) (JObject []))).
Proof.
  assert (Hr : reliable Simulated.start) by exact I.
  assert (Hf : (maximum_document_bytes + patience Simulated.start <= maximum_document_bytes + 2)%nat) by exact (le_n _).
  destruct (runner_main_reports Bench.host (maximum_document_bytes + 2) bench_arguments Simulated.start _ _ _ Bench.identity_lawful Hr Hf)
    as (code & w' & Hrun & _ & Hcode).
  pose proof bench_succeeds as Hok. rewrite Hrun in Hok. rewrite Hok in Hrun, Hcode. exists w'. split; [exact Hrun|].
  destruct Hcode as (options & n & cpu & p & m & document & _ & Hn & Hfa & _ & Hout & _ & Hread).
  exists options, n, cpu, p, m, document. split; [exact Hn|]. split; [exact Hfa|]. split; [exact Hout|exact Hread].
Defined.
