(* ===== verification/Codecs.v ===== *)
(** * Codec streams

    Models [src/adapters/contract/laghu/adapters/codecs.hpp],
    [src/adapters/private/laghu/adapters/internal/codecs.hpp], [src/adapters/codecs.cpp],
    [codec_zlib_ng.cpp], [codec_brotli.cpp] and [codec_zstd.cpp]: the accounting of a stream
    against its limits, the three adapters, and the stream object that owns a native state and
    a pin of the arena its memory comes from.

    The compression libraries are records of functions.  They act on a state [N] of their own,
    which includes the bytes of the caller's buffers, and on the pool their allocation
    callbacks draw from; [Stop] is a call the library leaves undefined.  Constants of a
    library are constructors or fields.  The states of the adapters live in storage of the
    caller and are found by its address; a cast to the wrong adapter's state is undefined. *)
From S2P Require Import Prelude Contract CheckedArithmetic Identifiers Views BoundedArena NativeMemory Dependencies.
From Stdlib Require Import ZArith Lia String.
From stdpp Require Import base numbers list gmap option.

Set Default Goal Selector "!".
#[local] Open Scope Z_scope.

(** ** Limits and accounting *)
Inductive CodecDirection := encode | decode | direction_unlisted (raw : Z).
#[export] Instance CodecDirection_eq_dec : EqDecision CodecDirection.
Proof. solve_decision. Defined.

Record CodecLimits := MkCodecLimits {
  cl_maximum_input_bytes : Z; cl_maximum_output_bytes : Z; cl_maximum_work_calls : Z }.

Record CodecProgress := MkCodecProgress {
  cp_input_consumed : Z; cp_output_produced : Z; cp_needs_input : bool; cp_needs_output : bool; cp_finished : bool }.

Record CodecAccounting := MkCodecAccounting {
  ca_limits : CodecLimits; ca_input_bytes : Z; ca_output_bytes : Z; ca_work_calls : Z;
  ca_direction : CodecDirection; ca_finished : bool; ca_cancelled : bool; ca_failed : bool }.

Definition codec_error (code : ErrorCode) (diagnostic : string) : Error := core_error code diagnostic.

Definition valid_limits (limits : CodecLimits) : bool :=
  negb (cl_maximum_input_bytes limits =? 0) && negb (cl_maximum_output_bytes limits =? 0) &&
  negb (cl_maximum_work_calls limits =? 0).

Definition valid_direction (direction : CodecDirection) : bool :=
  bool_decide (direction = encode) || bool_decide (direction = decode).

Definition codec_inactive_error : Error := codec_error invalid_state "codec stream is no longer active".
Definition codec_work_error : Error := codec_error exhaustion "codec work limit is exhausted".
Definition codec_input_error : Error := codec_error invalid_range "codec input exceeds the caller limit".
Definition codec_output_error : Error := codec_error exhaustion "codec output limit is exhausted".
Definition codec_trailing_error : Error := codec_error corrupt_data "compressed stream has trailing data".
Definition codec_truncated_error : Error := codec_error corrupt_data "compressed stream is truncated".

Definition preflight (a : CodecAccounting) (input_size : Z) : Result unit :=
  if ca_cancelled a || ca_finished a || ca_failed a then Err codec_inactive_error else
  if cl_maximum_work_calls (ca_limits a) <=? ca_work_calls a then Err codec_work_error else
  if u64 (cl_maximum_input_bytes (ca_limits a) - ca_input_bytes a) <? input_size then Err codec_input_error
  else Ok tt.

Definition record_failure (a : CodecAccounting) : CodecAccounting :=
  MkCodecAccounting (ca_limits a) (ca_input_bytes a) (ca_output_bytes a) (u32 (ca_work_calls a + 1))
    (ca_direction a) (ca_finished a) (ca_cancelled a) true.

Definition bounded_output_size (a : CodecAccounting) (offered : Z) : Z :=
  Z.min offered (u64 (cl_maximum_output_bytes (ca_limits a) - ca_output_bytes a)).

Definition output_capacity_remains (a : CodecAccounting) : bool :=
  ca_output_bytes a <? cl_maximum_output_bytes (ca_limits a).

Definition record (a : CodecAccounting) (consumed produced : Z) (finished : bool) : CodecAccounting :=
  MkCodecAccounting (ca_limits a) (u64 (ca_input_bytes a + consumed)) (u64 (ca_output_bytes a + produced))
    (u32 (ca_work_calls a + 1)) (ca_direction a) finished (ca_cancelled a) (ca_failed a).

Definition cancelled_accounting (a : CodecAccounting) : CodecAccounting :=
  MkCodecAccounting (ca_limits a) (ca_input_bytes a) (ca_output_bytes a) (ca_work_calls a)
    (ca_direction a) (ca_finished a) true (ca_failed a).

Definition start_accounting (limits : CodecLimits) (direction : CodecDirection) : CodecAccounting :=
  MkCodecAccounting limits 0 0 0 direction false false false.

(** ** The libraries *)

(** The caller's buffer, or the one byte on the adapter's stack. *)
Inductive out_target := Buffer (p : option pointer) | Probe.
Record native_buffers := MkBuffers { nb_in : option pointer; nb_in_size : Z; nb_out : out_target; nb_out_size : Z }.

Inductive zlib_code := Z_OK | Z_STREAM_END | Z_BUF_ERROR | Z_MEM_ERROR | Z_DATA_ERROR | Z_unlisted (raw : Z).
#[export] Instance zlib_code_eq_dec : EqDecision zlib_code.
Proof. solve_decision. Defined.
Inductive zlib_flush := Z_NO_FLUSH | Z_FINISH.

Inductive BrotliEncoderOperation := BROTLI_OPERATION_PROCESS | BROTLI_OPERATION_FINISH.
Inductive BrotliDecoderResult :=
  | BROTLI_DECODER_RESULT_ERROR | BROTLI_DECODER_RESULT_SUCCESS
  | BROTLI_DECODER_RESULT_NEEDS_MORE_INPUT | BROTLI_DECODER_RESULT_NEEDS_MORE_OUTPUT.
#[export] Instance BrotliDecoderResult_eq_dec : EqDecision BrotliDecoderResult.
Proof. solve_decision. Defined.
Inductive BrotliDecoderErrorCode :=
  | BROTLI_DECODER_ERROR_ALLOC_CONTEXT_MODES | BROTLI_DECODER_ERROR_ALLOC_TREE_GROUPS
  | BROTLI_DECODER_ERROR_ALLOC_CONTEXT_MAP | BROTLI_DECODER_ERROR_ALLOC_RING_BUFFER_1
  | BROTLI_DECODER_ERROR_ALLOC_RING_BUFFER_2 | BROTLI_DECODER_ERROR_ALLOC_BLOCK_TYPE_TREES
  | brotli_error_unlisted (raw : Z).

Inductive ZSTD_EndDirective := ZSTD_e_continue | ZSTD_e_end.

Section codecs.
Context {N C L : Type}.
Abbreviation Native := (N * PoolState C)%type.

(** [stream] is the address of the [zng_stream], a member of the adapter's state.  A transfer
    returns the code and what is left of the input and of the output. *)
Record ZlibNg := MkZlibNg {
  zng_deflateInit2 : Z -> Native -> outcome (zlib_code * Native);
  zng_inflateInit2 : Z -> Native -> outcome (zlib_code * Native);
  zng_deflate : Z -> zlib_flush -> native_buffers -> Native -> outcome (zlib_code * Z * Z * Native);
  zng_inflate : Z -> zlib_flush -> native_buffers -> Native -> outcome (zlib_code * Z * Z * Native);
  zng_deflateEnd : Z -> Native -> outcome Native;
  zng_inflateEnd : Z -> Native -> outcome Native;
  zlib_code_value : zlib_code -> Z }.

(** Instances are addresses. *)
Record Brotli := MkBrotli {
  BrotliEncoderCreateInstance : Native -> outcome (option Z * Native);
  BrotliEncoderSetQuality : Z -> Z -> Native -> outcome (bool * Native);
  BrotliEncoderCompressStream : Z -> BrotliEncoderOperation -> native_buffers -> Native -> outcome (bool * Z * Z * Native);
  BrotliEncoderIsFinished : Z -> Native -> outcome bool;
  BrotliEncoderHasMoreOutput : Z -> Native -> outcome bool;
  BrotliEncoderDestroyInstance : Z -> Native -> outcome Native;
  BrotliDecoderCreateInstance : Native -> outcome (option Z * Native);
  BrotliDecoderDecompressStream : Z -> native_buffers -> Native -> outcome (BrotliDecoderResult * Z * Z * Native);
  BrotliDecoderGetErrorCode : Z -> Native -> outcome BrotliDecoderErrorCode;
  BrotliDecoderDestroyInstance : Z -> Native -> outcome Native;
  brotli_code_value : BrotliDecoderErrorCode -> Z }.

(** A transfer returns the result and the positions in the input and in the output. *)
Record Zstd := MkZstd {
  ZSTD_createCCtx_advanced : Native -> outcome (option Z * Native);
  ZSTD_CCtx_setLevel : Z -> Native -> outcome (Z * Native);
  ZSTD_compressStream2 : Z -> ZSTD_EndDirective -> native_buffers -> Native -> outcome (Z * Z * Z * Native);
  ZSTD_freeCCtx : Z -> Native -> outcome Native;
  ZSTD_createDCtx_advanced : Native -> outcome (option Z * Native);
  ZSTD_DCtx_reset_session : Z -> Native -> outcome (Z * Native);
  ZSTD_decompressStream : Z -> native_buffers -> Native -> outcome (Z * Z * Z * Native);
  ZSTD_freeDCtx : Z -> Native -> outcome Native;
  ZSTD_isError : Z -> bool;
  ZSTD_getErrorCode : Z -> Z;
  ZSTD_error_memory_allocation : Z }.

(** ** Adapter states *)
Record ZlibState := MkZlibState { zs_accounting : CodecAccounting; zs_log : DependencyLogSink L; zs_initialized : bool }.
Record BrotliState := MkBrotliState {
  bs_accounting : CodecAccounting; bs_encoder : option Z; bs_decoder : option Z; bs_log : DependencyLogSink L }.
Record ZstdState := MkZstdState {
  ts_accounting : CodecAccounting; ts_encoder : option Z; ts_decoder : option Z; ts_log : DependencyLogSink L }.
Inductive CodecState := AZlib (s : ZlibState) | ABrotli (s : BrotliState) | AZstd (s : ZstdState).

Record CodecWorld := MkCodecWorld { cw_native : Native; cw_log : L; cw_states : gmap Z CodecState }.

Definition set_native (w : CodecWorld) (n : Native) : CodecWorld := MkCodecWorld n (cw_log w) (cw_states w).
Definition set_state (w : CodecWorld) (this : Z) (s : CodecState) : CodecWorld :=
  MkCodecWorld (cw_native w) (cw_log w) (<[this := s]> (cw_states w)).
Definition drop_state (w : CodecWorld) (this : Z) : CodecWorld :=
  MkCodecWorld (cw_native w) (cw_log w) (delete this (cw_states w)).
Definition set_arena_of (w : CodecWorld) (arena : BoundedArena (C * Memory)) : CodecWorld :=
  let s := snd (cw_native w) in
  set_native w (fst (cw_native w), MkPoolState (ps_pool s) arena (ps_heap s) (ps_context s) (ps_headers s)).
Definition cw_pool (w : CodecWorld) : PoolState C := snd (cw_native w).
Definition cw_arena (w : CodecWorld) : BoundedArena (C * Memory) := ps_arena (cw_pool w).

(** Logging of an error and its return. *)
Definition logged (sink : DependencyLogSink L) (w : CodecWorld) (e : Error) : CodecWorld :=
  MkCodecWorld (cw_native w) (log_dependency_error sink (cw_log w) e) (cw_states w).

(** The allocation callbacks. *)
Definition zlib_allocate (s : PoolState C) (count size : Z) : outcome (option pointer * PoolState C) := arena_calloc s count size.
Definition zlib_free (s : PoolState C) (address : option pointer) : outcome (PoolState C) := arena_free s address.
Definition brotli_allocate (s : PoolState C) (size : Z) : outcome (option pointer * PoolState C) := arena_malloc s size.
Definition brotli_free (s : PoolState C) (address : option pointer) : outcome (PoolState C) := arena_free s address.
Definition zstd_allocate (s : PoolState C) (size : Z) : outcome (option pointer * PoolState C) := arena_malloc s size.
Definition zstd_free (s : PoolState C) (address : option pointer) : outcome (PoolState C) := arena_free s address.
End codecs.
Arguments ZlibNg : clear implicits.
Arguments Brotli : clear implicits.
Arguments Zstd : clear implicits.
Arguments CodecState : clear implicits.
Arguments CodecWorld : clear implicits.

(** ** zlib-ng *)
Section zlib.
Context {N C L : Type} (lib : ZlibNg N C).
Implicit Types (w : CodecWorld N C L).

Definition zlib_error (operation : DependencyOperation) (code : zlib_code) (log : DependencyLogSink L) w : Error * CodecWorld N C L :=
  let status := if bool_decide (code = Z_MEM_ERROR) then status_exhaustion
    else if bool_decide (code = Z_DATA_ERROR) then status_corrupt_data else status_invalid_input in
  let e := normalize_dependency_error id_zlib_ng operation status (zlib_code_value lib code) in
  (e, logged log w e).

Definition zlib_process (this : Z) (input : ByteView) (output : MutableByteView) (finishing : bool) w :
    outcome (Result CodecProgress * CodecWorld N C L) :=
  match cw_states w !! this with
  | Some (AZlib state) =>
  let a := zs_accounting state in
  let update a w := set_state w this (AZlib (MkZlibState a (zs_log state) (zs_initialized state))) in
  TRY _ ⇐ preflight a (span_size input) AT w IN
  if span_empty output && output_capacity_remains a then
    Ret (Ok (MkCodecProgress 0 0 false true false), update (record a 0 0 false) w)
  else
  let output_size := bounded_output_size a (span_size output) in
  if (output_size =? 0) && bool_decide (ca_direction a = encode) then Ret (Err codec_output_error, w) else
  let offered_input := Z.min (span_size input) u32_max in
  let probing_output_limit := output_size =? 0 in
  let offered_output := if probing_output_limit then 1 else Z.min output_size u32_max in
  let buffers := MkBuffers (span_data input) offered_input
    (if probing_output_limit then Probe else Buffer (span_data output)) offered_output in
  '(result, avail_in, avail_out, n) ←
    (if bool_decide (ca_direction a = encode)
     then zng_deflate lib this (if finishing then Z_FINISH else Z_NO_FLUSH) buffers (cw_native w)
     else zng_inflate lib this Z_NO_FLUSH buffers (cw_native w));
  let w := set_native w n in
  let consumed := u64 (offered_input - avail_in) in
  let produced := u64 (offered_output - avail_out) in
  let finished := bool_decide (result = Z_STREAM_END) in
  if probing_output_limit && negb (produced =? 0) then Ret (Err codec_output_error, update (record_failure a) w) else
  if finished && negb (consumed =? span_size input) then Ret (Err codec_trailing_error, update (record_failure a) w) else
  if negb (bool_decide (result = Z_OK)) && negb (bool_decide (result = Z_BUF_ERROR)) && negb finished then
    let '(e, w) := zlib_error op_codec_process result (zs_log state) (update (record_failure a) w) in Ret (Err e, w) else
  if finishing && bool_decide (ca_direction a = decode) && negb finished && (consumed =? span_size input) && negb (avail_out =? 0)
  then Ret (Err codec_truncated_error, update (record_failure a) w) else
  let reported_produced := if probing_output_limit then 0 else produced in
  Ret (Ok (MkCodecProgress consumed reported_produced (negb finished && (consumed =? span_size input))
             (negb finished && (avail_out =? 0)) finished),
       update (record a consumed reported_produced finished) w)
  | _ => Stop Undefined
  end.

Definition zlib_destroy (this : Z) w : outcome (CodecWorld N C L) :=
  match cw_states w !! this with
  | Some (AZlib state) =>
      n ← (if zs_initialized state then
             if bool_decide (ca_direction (zs_accounting state) = encode) then zng_deflateEnd lib this (cw_native w)
             else zng_inflateEnd lib this (cw_native w)
           else Ret (cw_native w));
      Ret (drop_state (set_native w n) this)
  | _ => Stop Undefined
  end.

Definition zlib_cancel (this : Z) w : outcome (CodecWorld N C L) :=
  match cw_states w !! this with
  | Some (AZlib state) =>
      Ret (set_state w this (AZlib (MkZlibState (cancelled_accounting (zs_accounting state)) (zs_log state) (zs_initialized state))))
  | _ => Stop Undefined
  end.
End zlib.

(** ** Brotli *)
Section brotli.
Context {N C L : Type} (lib : Brotli N C).
Implicit Types (w : CodecWorld N C L).

Definition brotli_error (status : DependencyStatus) (operation : DependencyOperation) (code : Z) (log : DependencyLogSink L) w :
    Error * CodecWorld N C L :=
  let e := normalize_dependency_error id_brotli operation status code in (e, logged log w e).

Definition brotli_allocation_error (code : BrotliDecoderErrorCode) : bool :=
  match code with brotli_error_unlisted _ => false | _ => true end.

(** A member pointer that is dereferenced by the library. *)
Definition instance (p : option Z) : outcome Z := match p with Some i => Ret i | None => Stop Undefined end.

Definition brotli_process (this : Z) (input : ByteView) (output : MutableByteView) (finishing : bool) w :
    outcome (Result CodecProgress * CodecWorld N C L) :=
  match cw_states w !! this with
  | Some (ABrotli state) =>
  let a := bs_accounting state in
  let update a w := set_state w this (ABrotli (MkBrotliState a (bs_encoder state) (bs_decoder state) (bs_log state))) in
  TRY _ ⇐ preflight a (span_size input) AT w IN
  if span_empty output && output_capacity_remains a then
    Ret (Ok (MkCodecProgress 0 0 false true false), update (record a 0 0 false) w)
  else
  let output_size := bounded_output_size a (span_size output) in
  if (output_size =? 0) && bool_decide (ca_direction a = encode) then Ret (Err codec_output_error, w) else
  let buffers := MkBuffers (span_data input) (span_size input) (Buffer (span_data output)) output_size in
  let complete available_input available_output needs_input needs_output finished w :=
    let consumed := u64 (span_size input - available_input) in
    let produced := u64 (output_size - available_output) in
    Ret (Ok (MkCodecProgress consumed produced needs_input needs_output finished), update (record a consumed produced finished) w) in
  if bool_decide (ca_direction a = encode) then
    encoder ← instance (bs_encoder state);
    '(ok, available_input, available_output, n) ←
      BrotliEncoderCompressStream lib encoder (if finishing then BROTLI_OPERATION_FINISH else BROTLI_OPERATION_PROCESS) buffers (cw_native w);
    let w := set_native w n in
    if negb ok then
      let '(e, w) := brotli_error status_exhaustion op_codec_process 0 (bs_log state) (update (record_failure a) w) in Ret (Err e, w)
    else
    finished ← BrotliEncoderIsFinished lib encoder n;
    more ← (if negb finished && negb (available_output =? 0) then BrotliEncoderHasMoreOutput lib encoder n else Ret false);
    let needs_output := negb finished && ((available_output =? 0) || more) in
    let needs_input := negb finished && negb finishing && (available_input =? 0) && negb needs_output in
    complete available_input available_output needs_input needs_output finished w
  else
    decoder ← instance (bs_decoder state);
    '(result, available_input, available_output, n) ← BrotliDecoderDecompressStream lib decoder buffers (cw_native w);
    let w := set_native w n in
    if bool_decide (result = BROTLI_DECODER_RESULT_ERROR) then
      code ← BrotliDecoderGetErrorCode lib decoder n;
      let '(e, w) := brotli_error (if brotli_allocation_error code then status_exhaustion else status_corrupt_data)
        op_codec_process (brotli_code_value lib code) (bs_log state) (update (record_failure a) w) in Ret (Err e, w)
    else
    let finished := bool_decide (result = BROTLI_DECODER_RESULT_SUCCESS) in
    let needs_input := bool_decide (result = BROTLI_DECODER_RESULT_NEEDS_MORE_INPUT) in
    let needs_output := bool_decide (result = BROTLI_DECODER_RESULT_NEEDS_MORE_OUTPUT) in
    if (output_size =? 0) && needs_output then Ret (Err codec_output_error, update (record_failure a) w) else
    if finished && negb (available_input =? 0) then Ret (Err codec_trailing_error, update (record_failure a) w) else
    if finishing && needs_input then Ret (Err codec_truncated_error, update (record_failure a) w) else
    complete available_input available_output needs_input needs_output finished w
  | _ => Stop Undefined
  end.

Definition brotli_destroy (this : Z) w : outcome (CodecWorld N C L) :=
  match cw_states w !! this with
  | Some (ABrotli state) =>
      n ← (match bs_encoder state with Some i => BrotliEncoderDestroyInstance lib i (cw_native w) | None => Ret (cw_native w) end);
      n ← (match bs_decoder state with Some i => BrotliDecoderDestroyInstance lib i n | None => Ret n end);
      Ret (drop_state (set_native w n) this)
  | _ => Stop Undefined
  end.

Definition brotli_cancel (this : Z) w : outcome (CodecWorld N C L) :=
  match cw_states w !! this with
  | Some (ABrotli state) =>
      Ret (set_state w this (ABrotli (MkBrotliState (cancelled_accounting (bs_accounting state)) (bs_encoder state) (bs_decoder state) (bs_log state))))
  | _ => Stop Undefined
  end.
End brotli.

(** ** Zstandard *)
Section zstd.
Context {N C L : Type} (lib : Zstd N C).
Implicit Types (w : CodecWorld N C L).

Definition zstd_error (operation : DependencyOperation) (result : Z) (log : DependencyLogSink L) w : Error * CodecWorld N C L :=
  let code := ZSTD_getErrorCode lib result in
  let status := if code =? ZSTD_error_memory_allocation lib then status_exhaustion else status_corrupt_data in
  let e := normalize_dependency_error id_zstd operation status code in (e, logged log w e).

Definition zstd_allocation_error (operation : DependencyOperation) (log : DependencyLogSink L) w : Error * CodecWorld N C L :=
  let e := normalize_dependency_error id_zstd operation status_exhaustion (ZSTD_error_memory_allocation lib) in (e, logged log w e).

Definition zstd_process (this : Z) (input : ByteView) (output : MutableByteView) (finishing : bool) w :
    outcome (Result CodecProgress * CodecWorld N C L) :=
  match cw_states w !! this with
  | Some (AZstd state) =>
  let a := ts_accounting state in
  let update a w := set_state w this (AZstd (MkZstdState a (ts_encoder state) (ts_decoder state) (ts_log state))) in
  TRY _ ⇐ preflight a (span_size input) AT w IN
  if span_empty output && output_capacity_remains a then
    Ret (Ok (MkCodecProgress 0 0 false true false), update (record a 0 0 false) w)
  else
  let output_size := bounded_output_size a (span_size output) in
  if (output_size =? 0) && bool_decide (ca_direction a = encode) then Ret (Err codec_output_error, w) else
  let probing_output_limit := output_size =? 0 in
  let destination_size := if probing_output_limit then 1 else output_size in
  let buffers := MkBuffers (span_data input) (span_size input)
    (if probing_output_limit then Probe else Buffer (span_data output)) destination_size in
  let complete source_pos destination_pos needs_input needs_output finished w :=
    let reported_produced := if probing_output_limit then 0 else destination_pos in
    Ret (Ok (MkCodecProgress source_pos reported_produced needs_input needs_output finished),
         update (record a source_pos reported_produced finished) w) in
  if bool_decide (ca_direction a = encode) then
    encoder ← instance (ts_encoder state);
    '(result, source_pos, destination_pos, n) ←
      ZSTD_compressStream2 lib encoder (if finishing then ZSTD_e_end else ZSTD_e_continue) buffers (cw_native w);
    let w := set_native w n in
    if ZSTD_isError lib result then
      let '(e, w) := zstd_error op_codec_process result (ts_log state) (update (record_failure a) w) in Ret (Err e, w)
    else
    let finished := finishing && (result =? 0) in
    let needs_output := negb finished && (destination_pos =? destination_size) in
    let needs_input := negb finished && negb finishing && (source_pos =? span_size input) && negb needs_output in
    complete source_pos destination_pos needs_input needs_output finished w
  else
    decoder ← instance (ts_decoder state);
    '(result, source_pos, destination_pos, n) ← ZSTD_decompressStream lib decoder buffers (cw_native w);
    let w := set_native w n in
    if ZSTD_isError lib result then
      let '(e, w) := zstd_error op_codec_process result (ts_log state) (update (record_failure a) w) in Ret (Err e, w)
    else
    let finished := result =? 0 in
    let needs_output := negb finished && (destination_pos =? destination_size) in
    let needs_input := negb finished && (source_pos =? span_size input) && negb needs_output in
    if probing_output_limit && negb (destination_pos =? 0) then Ret (Err codec_output_error, update (record_failure a) w) else
    if finished && negb (source_pos =? span_size input) then Ret (Err codec_trailing_error, update (record_failure a) w) else
    if finishing && negb finished && needs_input then Ret (Err codec_truncated_error, update (record_failure a) w) else
    complete source_pos destination_pos needs_input needs_output finished w
  | _ => Stop Undefined
  end.

Definition zstd_destroy (this : Z) w : outcome (CodecWorld N C L) :=
  match cw_states w !! this with
  | Some (AZstd state) =>
      n ← (match ts_encoder state with Some i => ZSTD_freeCCtx lib i (cw_native w) | None => Ret (cw_native w) end);
      n ← (match ts_decoder state with Some i => ZSTD_freeDCtx lib i n | None => Ret n end);
      Ret (drop_state (set_native w n) this)
  | _ => Stop Undefined
  end.

Definition zstd_cancel (this : Z) w : outcome (CodecWorld N C L) :=
  match cw_states w !! this with
  | Some (AZstd state) =>
      Ret (set_state w this (AZstd (MkZstdState (cancelled_accounting (ts_accounting state)) (ts_encoder state) (ts_decoder state) (ts_log state))))
  | _ => Stop Undefined
  end.
End zstd.

(** ** Streams *)
Inductive CodecOperations := zlib_operations | brotli_operations | zstd_operations.
#[export] Instance CodecOperations_eq_dec : EqDecision CodecOperations.
Proof. solve_decision. Defined.

Record CodecStream := MkCodecStream {
  cs_state : option Z; cs_operations : option CodecOperations; cs_arena : option nat; cs_generation : Z;
  cs_pin : ArenaPin; cs_finalizing : bool }.

Definition empty_stream : CodecStream := MkCodecStream None None None 0 (MkArenaPin None) false.

Section streams.
Context {N C L : Type} (zlib : ZlibNg N C) (brotli : Brotli N C) (zstd : Zstd N C).
Implicit Types (w : CodecWorld N C L) (this : CodecStream).

(** The calls through the table of operations. *)
Definition operations_process (k : CodecOperations) : Z -> ByteView -> MutableByteView -> bool -> CodecWorld N C L ->
    outcome (Result CodecProgress * CodecWorld N C L) :=
  match k with zlib_operations => zlib_process zlib | brotli_operations => brotli_process brotli | zstd_operations => zstd_process zstd end.
Definition operations_destroy (k : CodecOperations) : Z -> CodecWorld N C L -> outcome (CodecWorld N C L) :=
  match k with zlib_operations => zlib_destroy zlib | brotli_operations => brotli_destroy brotli | zstd_operations => zstd_destroy zstd end.
Definition operations_cancel (k : CodecOperations) : Z -> CodecWorld N C L -> outcome (CodecWorld N C L) :=
  match k with zlib_operations => zlib_cancel | brotli_operations => brotli_cancel | zstd_operations => zstd_cancel end.

(** The state and the table of a stream that is active in the arena's current generation. *)
Definition active_parts this w : option (Z * CodecOperations) :=
  match cs_state this, cs_operations this, cs_arena this with
  | Some state, Some operations, Some _ =>
      if ba_generation (cw_arena w) =? cs_generation this then Some (state, operations) else None
  | _, _, _ => None
  end.

Definition codec_stream_error : Error := codec_error invalid_state "codec stream is inactive or its arena was reset".
Definition codec_finalizing_error : Error := codec_error invalid_state "codec stream finalization has already started".

Definition CodecStream_require_valid this w : Result (Z * CodecOperations) :=
  match active_parts this w with Some x => Ok x | None => Err codec_stream_error end.

Definition CodecStream_process this (input : ByteView) (output : MutableByteView) w : outcome (Result CodecProgress * CodecWorld N C L) :=
  TRY x ⇐ CodecStream_require_valid this w AT w IN
  if cs_finalizing this then Ret (Err codec_finalizing_error, w)
  else operations_process (snd x) (fst x) input output false w.

Definition CodecStream_finish this (output : MutableByteView) w : outcome (Result CodecProgress * (CodecStream * CodecWorld N C L)) :=
  TRY x ⇐ CodecStream_require_valid this w AT (this, w) IN
  (let this := MkCodecStream (cs_state this) (cs_operations this) (cs_arena this) (cs_generation this) (cs_pin this) true in
   '(r, w) ← operations_process (snd x) (fst x) empty_span output true w;
   Ret (r, (this, w))).

Definition CodecStream_cancel this w : outcome (CodecWorld N C L) :=
  match active_parts this w with
  | Some (state, operations) => operations_cancel operations state w
  | None => Ret w
  end.

Definition CodecStream_release this w : outcome (CodecStream * CodecWorld N C L) :=
  w ← (match active_parts this w with
       | Some (state, operations) => operations_destroy operations state w
       | None => Ret w
       end);
  '(arena, pin, _) ← ArenaPin_move_assign (cw_arena w) (cs_pin this) (MkArenaPin None);
  Ret (MkCodecStream None None None 0 pin false, set_arena_of w arena).

(** [this] and what is left of [other]. *)
Definition CodecStream_move_from this (other : CodecStream) w : outcome (CodecStream * CodecStream * CodecWorld N C L) :=
  '(arena, pin, other_pin) ← ArenaPin_move_assign (cw_arena w) (cs_pin this) (cs_pin other);
  Ret (MkCodecStream (cs_state other) (cs_operations other) (cs_arena other) (cs_generation other) pin (cs_finalizing other),
       MkCodecStream None None None 0 other_pin false, set_arena_of w arena).

Definition CodecStream_move_construct (other : CodecStream) w : outcome (CodecStream * CodecStream * CodecWorld N C L) :=
  CodecStream_move_from empty_stream other w.

(** Between two distinct streams; self-assignment does nothing. *)
Definition CodecStream_move_assign this (other : CodecStream) w : outcome (CodecStream * CodecStream * CodecWorld N C L) :=
  '(this, w) ← CodecStream_release this w; CodecStream_move_from this other w.

Definition CodecStream_destroy this w : outcome (CodecWorld N C L) :=
  '(_, w) ← CodecStream_release this w; Ret w.

(** ** Creation *)

(** What the three functions check and do before their library is called: the pin, and the
    storage for the state. *)
Definition release_local_pin (pin : ArenaPin) w : outcome (CodecWorld N C L) :=
  arena ← ArenaPin_destroy (cw_arena w) pin; Ret (set_arena_of w arena).

Definition codec_direction_error : Error := codec_error invalid_input "codec direction is invalid".
Definition codec_limits_error : Error := codec_error invalid_input "codec limits must be positive".
Definition codec_storage_error : Error := codec_error invalid_input "codec state storage is unavailable".

Definition codec_checks (direction : CodecDirection) (limits : CodecLimits) : Result unit :=
  if negb (valid_direction direction) then Err codec_direction_error else
  if negb (valid_limits limits) then Err codec_limits_error else Ok tt.

Definition codec_pin w : Result ArenaPin * CodecWorld N C L :=
  let s := synchronize (cw_pool w) in
  let w := set_native w (fst (cw_native w), s) in
  let '(pin, arena) := BoundedArena_pin (ps_arena s) (np_worker (ps_pool s)) in
  (pin, set_arena_of w arena).

Definition construct_state (storage : option Z) : Result Z :=
  match storage with None => Err codec_storage_error | Some address => Ok address end.

(** A creation that fails after the pin was taken. *)
Definition abandon {A} (pin : ArenaPin) (e : Error) w : outcome (Result A * CodecWorld N C L) :=
  w ← release_local_pin pin w; Ret (Err e, w).

Definition created_stream (state : Z) (operations : CodecOperations) (pin : ArenaPin) w : CodecStream :=
  MkCodecStream (Some state) (Some operations) (Some (ba_address (cw_arena w))) (ba_generation (cw_arena w)) pin false.

Definition create_zlib_ng_codec (direction : CodecDirection) (state_storage : option Z) (limits : CodecLimits)
    (log_sink : DependencyLogSink L) w : outcome (Result CodecStream * CodecWorld N C L) :=
  TRY _ ⇐ codec_checks direction limits AT w IN
  (let '(pin, w) := codec_pin w in
   TRY pin ⇐ pin AT w IN
   match construct_state state_storage with
   | Err e => abandon pin e w
   | Ok state =>
       let zlib_state initialized := AZlib (MkZlibState (start_accounting limits direction) log_sink initialized) in
       let w := set_state w state (zlib_state false) in
       '(result, n) ← (if bool_decide (direction = encode) then zng_deflateInit2 zlib state (cw_native w)
                       else zng_inflateInit2 zlib state (cw_native w));
       let w := set_native w n in
       if negb (bool_decide (result = Z_OK)) then
         let '(e, w) := zlib_error zlib op_codec_initialize result log_sink (drop_state w state) in abandon pin e w
       else
       let w := set_state w state (zlib_state true) in
       Ret (Ok (created_stream state zlib_operations pin w), w)
   end).

Definition create_brotli_codec (direction : CodecDirection) (state_storage : option Z) (limits : CodecLimits)
    (log_sink : DependencyLogSink L) w : outcome (Result CodecStream * CodecWorld N C L) :=
  TRY _ ⇐ codec_checks direction limits AT w IN
  (let '(pin, w) := codec_pin w in
   TRY pin ⇐ pin AT w IN
   match construct_state state_storage with
   | Err e => abandon pin e w
   | Ok state =>
       let brotli_state encoder decoder := ABrotli (MkBrotliState (start_accounting limits direction) encoder decoder log_sink) in
       let w := set_state w state (brotli_state None None) in
       '(encoder, decoder, n) ←
         (if bool_decide (direction = encode) then
            '(encoder, n) ← BrotliEncoderCreateInstance brotli (cw_native w);
            match encoder with
            | None => Ret (None, None, n)
            | Some i =>
                '(ok, n) ← BrotliEncoderSetQuality brotli i 4 n;
                if negb ok then n ← BrotliEncoderDestroyInstance brotli i n; Ret (None, None, n) else Ret (Some i, None, n)
            end
          else
            '(decoder, n) ← BrotliDecoderCreateInstance brotli (cw_native w); Ret (None, decoder, n));
       let w := set_state (set_native w n) state (brotli_state encoder decoder) in
       match encoder, decoder with
       | None, None =>
           let '(e, w) := brotli_error status_exhaustion op_codec_initialize 0 log_sink (drop_state w state) in abandon pin e w
       | _, _ => Ret (Ok (created_stream state brotli_operations pin w), w)
       end
   end).

Definition create_zstd_codec (direction : CodecDirection) (state_storage : option Z) (limits : CodecLimits)
    (log_sink : DependencyLogSink L) w : outcome (Result CodecStream * CodecWorld N C L) :=
  TRY _ ⇐ codec_checks direction limits AT w IN
  (let '(pin, w) := codec_pin w in
   TRY pin ⇐ pin AT w IN
   match construct_state state_storage with
   | Err e => abandon pin e w
   | Ok state =>
       let zstd_state encoder decoder := AZstd (MkZstdState (start_accounting limits direction) encoder decoder log_sink) in
       let w := set_state w state (zstd_state None None) in
       '(encoder, decoder, result, n) ←
         (if bool_decide (direction = encode) then
            '(encoder, n) ← ZSTD_createCCtx_advanced zstd (cw_native w);
            match encoder with
            | None => Ret (None, None, 0, n)
            | Some i => '(result, n) ← ZSTD_CCtx_setLevel zstd i n; Ret (Some i, None, result, n)
            end
          else
            '(decoder, n) ← ZSTD_createDCtx_advanced zstd (cw_native w);
            match decoder with
            | None => Ret (None, None, 0, n)
            | Some i => '(result, n) ← ZSTD_DCtx_reset_session zstd i n; Ret (None, Some i, result, n)
            end);
       let w := set_state (set_native w n) state (zstd_state encoder decoder) in
       if match encoder, decoder with None, None => true | _, _ => ZSTD_isError zstd result end then
         n ← (match encoder with Some i => ZSTD_freeCCtx zstd i n | None => Ret n end);
         n ← (match decoder with Some i => ZSTD_freeDCtx zstd i n | None => Ret n end);
         let w := drop_state (set_native w n) state in
         let '(e, w) := if ZSTD_isError zstd result then zstd_error zstd op_codec_initialize result log_sink w
                        else zstd_allocation_error zstd op_codec_initialize log_sink w in
         abandon pin e w
       else Ret (Ok (created_stream state zstd_operations pin w), w)
   end).
End streams.
