(* ===== verification/CodecPool.v ===== *)
(** * What a library does to the pool

    Allocation, reallocation and release through the pool leave the generation, the pins and
    the owner of its arena as they are, so a library that draws its memory from the pool cannot
    invalidate the streams built on it.  [pool_use] is a run of such calls, and pins and
    synchronisation keep what a pool implements. *)
From S2P Require Import Prelude Contract CheckedArithmetic Identifiers MemoryBudget MemoryBudgetSpec BudgetInvariant Views BlockSource BoundedArena ArenaSpec.
From S2P Require Import NativeMemory NativeSpec.
From Stdlib Require Import ZArith Lia.
From stdpp Require Import base numbers list gmap option fin_map_dom.

Set Default Goal Selector "!".
#[local] Open Scope Z_scope.

(** The parts of an arena that allocation leaves alone. *)
Definition steady {C} (a a' : BoundedArena C) : Prop :=
  ba_generation a' = ba_generation a /\ ba_live_pins a' = ba_live_pins a /\ ba_address a' = ba_address a /\
  ba_worker a' = ba_worker a.

Lemma steady_refl {C} (a : BoundedArena C) : steady a a.
Proof. done. Qed.
Lemma steady_trans {C} (a b c : BoundedArena C) : steady a b -> steady b c -> steady a c.
Proof. intros (A1 & A2 & A3 & A4) (B1 & B2 & B3 & B4). split; [congruence|]. split; [congruence|]. split; congruence. Qed.

(** A computation that returns can be taken apart at each bind. *)
#[local] Ltac undo H :=
  repeat match type of H with
  | mbind _ ?m = Ret _ => let E := fresh "E" in apply outcome_bind_Ret_inv in H as (? & E & H)
  end.

Lemma ensure_capacity_steady {C} (this : BoundedArena C) h c worker required r this' h' c' :
  BoundedArena_ensure_capacity this h c worker required = Ret (r, (this', h', c')) -> steady this this'.
Proof.
  unfold BoundedArena_ensure_capacity. destruct (_ || _); [by intros [= _ <- _ _]|].
  destruct (required <=? ba_capacity this); [by intros [= _ <- _ _]|]. intros H. undo H.
  destruct (negb (MemoryReservation_is_active _)); undo H.
  - repeat match goal with x : _ * _ |- _ => destruct x end. destruct m as [acquired c1]. destruct r0; undo H.
    + by injection H as _ <- _ _.
    + by injection H as _ <- _ _.
  - repeat match goal with x : _ * _ |- _ => destruct x end. destruct r0; by injection H as _ <- _ _.
Qed.

Lemma try_allocate_steady {C} (this : BoundedArena C) h c worker bytes alignment r this' h' c' :
  BoundedArena_try_allocate this h c worker bytes alignment = Ret (r, (this', h', c')) -> steady this this'.
Proof.
  unfold BoundedArena_try_allocate. destruct (BoundedArena_require_worker this worker); [|by intros [= _ <- _ _]].
  destruct (negb (is_valid_alignment alignment)); [by intros [= _ <- _ _]|].
  destruct (bytes =? 0); [by intros [= _ <- _ _]|].
  destruct (checked_add size_t _ _) as [o|]; [|by intros [= _ <- _ _]].
  destruct (checked_add size_t o _) as [q|]; [|by intros [= _ <- _ _]].
  destruct (ba_maximum_capacity this <? q); [by intros [= _ <- _ _]|].
  intros H. apply outcome_bind_Ret_inv in H as ([r1 [[this1 h1] c1]] & E & H). apply ensure_capacity_steady in E.
  destruct r1; [|by injection H as _ <- _ _]. destruct (MutableByteView_from _); [|done]. by injection H as _ <- _ _.
Qed.

Section pool.
Context {C : Type}.
Implicit Types (s : PoolState C).

(** The same for a pool: the worker stays the same too. *)
Definition kept s s' : Prop := steady (ps_arena s) (ps_arena s') /\ np_worker (ps_pool s') = np_worker (ps_pool s).

Lemma kept_refl s : kept s s.
Proof. done. Qed.
Lemma kept_trans s s1 s2 : kept s s1 -> kept s1 s2 -> kept s s2.
Proof. intros [A1 A2] [B1 B2]. split; [by eapply steady_trans|congruence]. Qed.

Lemma synchronize_kept s : kept s (synchronize s).
Proof. unfold synchronize. by destruct (negb _). Qed.

Lemma unlink_kept s size previous a s' : unlink s size previous a = Ret s' -> kept s s'.
Proof.
  unfold unlink. intros H. undo H. destruct previous as [b|]; [undo E0|]; injection E0 as <-; by injection H as <-.
Qed.

Lemma allocate_block_kept s size r s' : allocate_block s size = Ret (r, s') -> kept s s'.
Proof.
  unfold allocate_block. destruct (_ <? size); [by intros [= _ <-]|].
  intros H. apply outcome_bind_Ret_inv in H as ([v [[arena h] c]] & E & H). apply try_allocate_steady in E.
  destruct v as [v|]; [|by injection H as _ <-]. destruct (ArenaView_bytes v arena) as [b|]; [|by injection H as _ <-].
  destruct (span_data b); [|done]. by injection H as _ <-.
Qed.

Lemma arena_malloc_kept s size r s' : arena_malloc s size = Ret (r, s') -> kept s s'.
Proof.
  unfold arena_malloc. intros H. apply outcome_bind_Ret_inv in H as ([previous a] & _ & H).
  apply (kept_trans _ _ _ (synchronize_kept s)). destruct a as [a|]; [|by eapply allocate_block_kept].
  undo H. injection H as _ <-. by eapply unlink_kept.
Qed.

Lemma arena_free_kept s address s' : arena_free s address = Ret s' -> kept s s'.
Proof.
  unfold arena_free. destruct address as [p|]; [|by intros [= <-]]. intros H. undo H. injection H as <-.
  exact (synchronize_kept s).
Qed.

Lemma arena_calloc_kept s count size r s' : arena_calloc s count size = Ret (r, s') -> kept s s'.
Proof.
  unfold arena_calloc. destruct (_ && _); [by intros [= _ <-]|]. intros H.
  apply outcome_bind_Ret_inv in H as ([p s1] & E & H). apply arena_malloc_kept in E.
  destruct p; [undo H|]; by injection H as _ <-.
Qed.

Lemma arena_realloc_kept s address size r s' : arena_realloc s address size = Ret (r, s') -> kept s s'.
Proof.
  unfold arena_realloc. destruct address as [p|]; [|apply arena_malloc_kept].
  destruct (size =? 0). { intros H. undo H. injection H as _ <-. by eapply arena_free_kept. }
  intros H. apply outcome_bind_Ret_inv in H as (x & _ & H). destruct (size <=? aa_capacity x); [by injection H as _ <-|].
  apply outcome_bind_Ret_inv in H as ([q s1] & E & H). apply arena_malloc_kept in E. destruct q; [|by injection H as _ <-].
  undo H. injection H as _ <-. apply (kept_trans _ _ _ E). by apply arena_free_kept in E2.
Qed.
End pool.

(** ** Runs of allocation calls *)
Section use.
Context {C : Type} {acquire : C * Memory -> Z -> Result MutableByteView * (C * Memory)}.
Context {reset : C * Memory -> Result unit * (C * Memory)} `{!PoolSource acquire reset}.
Implicit Types (s : PoolState C).
Abbreviation implements := (implements (acquire := acquire) (reset := reset)).

Definition pool_valid s : Prop := exists live, implements s live.

Definition is_reset (op : PoolOp) : bool := match op with PReset _ => true | _ => false end.

(** Calls a library may make: legal ones, and no reset of the arena. *)
Inductive pool_use : PoolState C -> PoolState C -> Prop :=
  | use_nothing s : pool_use s s
  | use_call s live op r s' s'' :
      implements s live -> pool_legal live op -> is_reset op = false -> exec_pool s op = Ret (r, s') ->
      pool_use s' s'' -> pool_use s s''.

Lemma exec_pool_kept s op r s' : is_reset op = false -> exec_pool s op = Ret (r, s') -> kept s s'.
Proof.
  intros Hr. destruct op; cbn [exec_pool]; try done.
  - apply arena_malloc_kept.
  - apply arena_calloc_kept.
  - apply arena_realloc_kept.
  - intros H. apply outcome_bind_Ret_inv in H as (s1 & E & H). injection H as _ <-. by eapply arena_free_kept.
  - intros H. apply outcome_bind_Ret_inv in H as (m & E & H). by injection H as _ <-.
Qed.

Lemma pool_use_kept s s' : pool_use s s' -> kept s s'.
Proof.
  induction 1 as [|s live op r s' s'' _ _ Hr Hrun _ IH]; [done|]. eapply kept_trans; [|done]. by eapply exec_pool_kept.
Qed.

Lemma pool_use_valid s s' : pool_use s s' -> pool_valid s -> pool_valid s'.
Proof using PoolSource0.
  induction 1 as [|s live op r s' s'' Himpl Hl Hr Hrun _ IH]; [done|]. intros _. apply IH.
  destruct Himpl as [free HI]. destruct (exec_pool_ok s live free op HI Hl) as (r1 & s1 & live1 & free1 & E & _ & HI1).
  rewrite Hrun in E. injection E as _ <-. by exists live1, free1.
Qed.

Lemma pool_use_trans s s1 s2 : pool_use s s1 -> pool_use s1 s2 -> pool_use s s2.
Proof. induction 1; [done|]. intros. by econstructor; eauto. Qed.

(** ** Pins *)
Definition with_pins s (pins : Z) : PoolState C :=
  let a := ps_arena s in
  MkPoolState (ps_pool s) (set_arena a (ba_storage a) (ba_capacity a) (ba_offset a) pins (ba_generation a)) (ps_heap s) (ps_context s) (ps_headers s).

Lemma with_pins_implements s pins live : 0 <= pins <= size_max -> implements s live -> implements (with_pins s pins) live.
Proof.
  intros Hp (free & [H1 H2 H3 H4 H5 H6 H7 H8 H9 H10]). exists free.
  split; cbn [with_pins ps_arena ps_heap ps_pool ps_headers set_arena ba_storage ba_capacity ba_offset ba_worker ba_generation]; try done.
  - destruct H1 as [A1 A2 A3 A4 A5 A6]. split; cbn; try done. split; [done|apply A6].
  - revert H6. unfold synchronize. cbn. by destruct (negb _).
Qed.

Lemma with_pins_valid s pins : 0 <= pins <= size_max -> pool_valid s -> pool_valid (with_pins s pins).
Proof. intros Hp [live Hi]. exists live. by apply with_pins_implements. Qed.

Lemma synchronize_implements s live : implements s live -> implements (synchronize s) live.
Proof. intros (free & HI). exists free. by apply synchronize_inv. Qed.

Lemma synchronize_valid s : pool_valid s -> pool_valid (synchronize s).
Proof. intros (live & free & HI). exists live, free. by apply synchronize_inv. Qed.

Lemma valid_counts s : pool_valid s ->
  0 <= ba_live_pins (ps_arena s) <= size_max /\ value_ (np_worker (ps_pool s)) = value_ (ba_worker (ps_arena s)).
Proof. intros (live & free & HI). split; [apply (ai_counts _ _ _ _ (pi_arena _ _ _ HI))|apply (pi_worker _ _ _ HI)]. Qed.

(** A reset of the arena returns, keeps the pool valid, and does nothing while a pin is live. *)
Lemma pool_reset_run s boundary : pool_valid s ->
  exists s', exec_pool s (PReset boundary) = Ret (None, s') /\ pool_valid s' /\ ba_live_pins (ps_arena s') = ba_live_pins (ps_arena s) /\
    ba_address (ps_arena s') = ba_address (ps_arena s) /\
    (ba_live_pins (ps_arena s) <> 0 -> ba_generation (ps_arena s') = ba_generation (ps_arena s)).
Proof using PoolSource0.
  intros (live & free & HI). destruct (reset_op_run s live free boundary HI) as (s' & live' & free' & Hrun & _ & HI').
  exists s'. split; [done|]. split; [by exists live', free'|]. revert Hrun. cbn [exec_pool].
  intros H. apply outcome_bind_Ret_inv in H as ([r [[arena h] c]] & E & H). injection H as <-. cbn [ps_arena].
  revert E. unfold BoundedArena_reset. destruct (BoundedArena_require_worker _ _); [|by intros [= _ <- _ _]].
  destruct (_ || _); [by intros [= _ <- _ _]|]. destruct (Z.eqb_spec (ba_live_pins (ps_arena s)) 0); cbn [negb]; [|by intros [= _ <- _ _]].
  destruct (_ =? u64_max); [by intros [= _ <- _ _]|]. destruct (as_reset _) as [f|]; [|by intros [= _ <- _ _]].
  destruct (f _) as [[]c1]; [|by intros [= _ <- _ _]]. intros H. apply outcome_bind_Ret_inv in H as ([r1 h1] & _ & H).
  injection H as _ <- _ _. done.
Qed.
(** The arena has [d] pins more, and is otherwise the same to its users. *)
Record shifted (s s' : PoolState C) (d : Z) : Prop := {
  sh_generation : ba_generation (ps_arena s') = ba_generation (ps_arena s);
  sh_address : ba_address (ps_arena s') = ba_address (ps_arena s);
  sh_pins : ba_live_pins (ps_arena s') = ba_live_pins (ps_arena s) + d }.

Lemma shifted_trans s1 s2 s3 d e : shifted s1 s2 d -> shifted s2 s3 e -> shifted s1 s3 (d + e).
Proof. intros [A1 A2 A3] [B1 B2 B3]. split; [congruence|congruence|lia]. Qed.

Lemma kept_shifted s s' : kept s s' -> shifted s s' 0.
Proof. intros [(A1 & A2 & A3 & _) _]. split; [done|done|lia]. Qed.

Lemma shifted_kept s1 s2 s3 d : shifted s1 s2 d -> kept s2 s3 -> shifted s1 s3 d.
Proof. intros H1 H2. replace d with (d + 0) by lia. eapply shifted_trans; [done|by apply kept_shifted]. Qed.

Definition with_arena (s : PoolState C) (arena : BoundedArena (C * Memory)) : PoolState C :=
  MkPoolState (ps_pool s) arena (ps_heap s) (ps_context s) (ps_headers s).

Lemma with_same_arena s : with_arena s (ps_arena s) = s.
Proof. by destruct s. Qed.

Lemma implements_counts s live : implements s live ->
  0 <= ba_live_pins (ps_arena s) <= size_max /\ value_ (np_worker (ps_pool s)) = value_ (ba_worker (ps_arena s)).
Proof. intros H. apply (valid_counts). by exists live. Qed.

Lemma pin_run s live : implements s live ->
  let '(r, arena) := BoundedArena_pin (ps_arena (synchronize s)) (np_worker (ps_pool (synchronize s))) in
  let s' := with_arena (synchronize s) arena in
  implements s' live /\
  match r with
  | Ok pin => pin = MkArenaPin (Some (ba_address (ps_arena s))) /\ shifted s s' 1
  | Err _ => shifted s s' 0
  end.
Proof.
  intros Hi. pose proof (synchronize_implements s live Hi) as Hs. pose proof (synchronize_kept s) as Hk.
  set (t := synchronize s) in *. destruct (implements_counts t live Hs) as [Hpins Hworker]. unfold BoundedArena_pin.
  rewrite (arena_worker_ok _ _ Hworker). destruct (Z.eqb_spec (ba_live_pins (ps_arena t)) size_max); cbn zeta.
  - rewrite with_same_arena. split; [done|]. by apply kept_shifted.
  - rewrite u64_small by (unfold size_max in *; lia). split; [apply (with_pins_implements t (ba_live_pins (ps_arena t) + 1)); [lia|done]|].
    destruct Hk as [(A1 & A2 & A3 & _) _]. split; [by rewrite A3|]. split; cbn; [done|done|lia].
Qed.

Lemma unpin_run s live a : implements s live -> 1 <= ba_live_pins (ps_arena s) ->
  exists arena, ArenaPin_release (ps_arena s) (MkArenaPin (Some a)) = Ret (arena, MkArenaPin None) /\
    implements (with_arena s arena) live /\ shifted s (with_arena s arena) (-1).
Proof.
  intros Hi Hp. destruct (implements_counts s live Hi) as [Hpins _]. eexists.
  unfold ArenaPin_release, BoundedArena_release_pin. cbn [pin_arena]. rewrite (proj2 (Z.eqb_neq _ 0)) by lia. split; [done|].
  rewrite u64_small by (unfold size_max in *; lia). split; [|split; cbn; [done|done|lia]].
  apply (with_pins_implements s (ba_live_pins (ps_arena s) - 1)); [lia|done].
Qed.

Lemma reset_pinned s boundary : ba_live_pins (ps_arena s) <> 0 -> exec_pool s (PReset boundary) = Ret (None, s).
Proof.
  intros Hp. cbn [exec_pool]. unfold BoundedArena_reset. destruct (BoundedArena_require_worker _ _); [|by destruct s].
  destruct (_ || _); [by destruct s|]. rewrite (proj2 (Z.eqb_neq _ 0)) by done. by destruct s.
Qed.
End use.

(** ** Ownership of blocks *)
Section ownership.
Context {C : Type} {acquire : C * Memory -> Z -> Result MutableByteView * (C * Memory)}.
Context {reset : C * Memory -> Result unit * (C * Memory)} `{!PoolSource acquire reset}.
Implicit Types (s : PoolState C) (live : gmap pointer (list Z)) (own : gset pointer).
Abbreviation implements := (implements (acquire := acquire) (reset := reset)).

(** The calls a library makes: not a reset, and only on blocks it owns. *)
Definition own_op own (op : PoolOp) : Prop :=
  match op with
  | PRealloc (Some p) _ | PFree (Some p) | PWrite p _ _ => p ∈ own
  | PReset _ => False
  | _ => True
  end.

Definition own_after own (op : PoolOp) (r : option pointer) : gset pointer :=
  match op, r with
  | PMalloc _, Some p | PCalloc _ _, Some p | PRealloc None _, Some p => {[p]} ∪ own
  | PRealloc (Some p) _, Some q => {[q]} ∪ (own ∖ {[p]})
  | PRealloc (Some p) size, None => if size =? 0 then own ∖ {[p]} else own
  | PFree (Some p), _ => own ∖ {[p]}
  | _, _ => own
  end.

Inductive lib_use own s live : gset pointer -> PoolState C -> gmap pointer (list Z) -> Prop :=
  | lu_nothing : lib_use own s live own s live
  | lu_call op r s1 live1 own' s' live' :
      pool_legal live op -> own_op own op -> exec_pool s op = Ret (r, s1) -> heap_step live op r live1 ->
      implements s1 live1 -> lib_use (own_after own op r) s1 live1 own' s' live' -> lib_use own s live own' s' live'.

Lemma lib_use_trans own1 s1 live1 own2 s2 live2 own3 s3 live3 :
  lib_use own1 s1 live1 own2 s2 live2 -> lib_use own2 s2 live2 own3 s3 live3 -> lib_use own1 s1 live1 own3 s3 live3.
Proof. induction 1; [done|]. intros. econstructor; eauto. Qed.

(** The blocks of others keep their contents, and no block is lost. *)
Record framed own live own' live' : Prop := {
  fr_owned : own' ⊆ dom live';
  fr_others : forall p, p ∉ own -> p ∈ dom live -> live' !! p = live !! p /\ p ∉ own';
  fr_blocks : dom live' ∖ own' = dom live ∖ own }.

Lemma framed_refl own live : own ⊆ dom live -> framed own live own live.
Proof. by split. Qed.

Lemma framed_trans own1 live1 own2 live2 own3 live3 :
  framed own1 live1 own2 live2 -> framed own2 live2 own3 live3 -> framed own1 live1 own3 live3.
Proof.
  intros [A1 A2 A3] [B1 B2 B3]. split; [done| |congruence]. intros p Hp Hl.
  destruct (A2 p Hp Hl) as [E1 Hp2]. destruct (B2 p Hp2) as [E2 Hp3]; [|by rewrite E2, E1].
  apply elem_of_dom. rewrite E1. by apply elem_of_dom.
Qed.

Lemma framed_add own live p bytes :
  own ⊆ dom live -> live !! p = None -> framed own live ({[p]} ∪ own) (<[p := bytes]> live).
Proof.
  intros Ho Hp. apply not_elem_of_dom in Hp. split.
  - rewrite dom_insert_L. set_solver.
  - intros q Hq Hl. assert (q <> p) by set_solver. rewrite lookup_insert_ne by done. set_solver.
  - rewrite dom_insert_L. set_solver.
Qed.

Lemma framed_remove own live p :
  own ⊆ dom live -> p ∈ own -> framed own live (own ∖ {[p]}) (delete p live).
Proof.
  intros Ho Hp. split.
  - rewrite dom_delete_L. set_solver.
  - intros q Hq Hl. assert (q <> p) by set_solver. rewrite lookup_delete_ne by done. set_solver.
  - rewrite dom_delete_L. apply set_eq. intros q. rewrite !elem_of_difference, elem_of_singleton.
    destruct (decide (q = p)); set_solver.
Qed.

Lemma framed_write own live p bytes :
  own ⊆ dom live -> p ∈ own -> framed own live own (<[p := bytes]> live).
Proof.
  intros Ho Hp. assert (p ∈ dom live) by set_solver. split.
  - rewrite dom_insert_L. set_solver.
  - intros q Hq Hl. assert (q <> p) by set_solver. by rewrite lookup_insert_ne.
  - rewrite dom_insert_lookup_L; [done|]. by apply elem_of_dom.
Qed.

Lemma heap_step_framed own live op r live' :
  own ⊆ dom live -> own_op own op -> heap_step live op r live' -> framed own live (own_after own op r) live'.
Proof.
  intros Ho Hop Hs.
  destruct Hs as [op Hr|size p bytes Hp _|count size p bytes Hp _ _ _|size p bytes Hp _|p|p old size q bytes Hp H1 Hq _ _|p|p old offset bytes Hp|b];
    simpl in *; try done.
  - destruct op as [| |[p|] size|[p|]| |]; simpl in *; try (by apply framed_refl); [|done].
    destruct (Z.eqb_spec size 0); [done|by apply framed_refl].
  - by apply framed_add.
  - by apply framed_add.
  - by apply framed_add.
  - by apply framed_remove.
  - eapply framed_trans; [by apply framed_remove|]. apply framed_add.
    + rewrite dom_delete_L. set_solver.
    + destruct Hq as [->|Hq]; [apply lookup_delete_eq|]. destruct (decide (q = p)) as [->|]; [apply lookup_delete_eq|by rewrite lookup_delete_ne].
  - by apply framed_remove.
  - by apply framed_write.
Qed.

Lemma lib_use_ok own s live own' s' live' :
  lib_use own s live own' s' live' -> implements s live -> own ⊆ dom live ->
  implements s' live' /\ kept s s' /\ framed own live own' live'.
Proof.
  induction 1 as [own s live|own s live op r s1 live1 own' s' live' Hl Hop Hrun Hstep Himpl _ IH]; intros Hi Ho.
  - split; [done|]. split; [apply kept_refl|by apply framed_refl].
  - pose proof (heap_step_framed _ _ _ _ _ Ho Hop Hstep) as Hf. destruct (IH Himpl (fr_owned _ _ _ _ Hf)) as (H1 & H2 & H3).
    split; [done|]. split; [|by eapply framed_trans]. eapply kept_trans; [|done].
    eapply exec_pool_kept; [|done]. by destruct op.
Qed.
End ownership.

(** ** Handles that pin the arena

    Patterns and sessions are handles of one kind: an empty one, or one with an object of a
    library and a state in the pool, which pins the arena.  A program holds many of them. *)
Class PinnedHandle (C T : Type) := {
  handle_empty : T;
  handle_active : PoolState C -> Z -> pointer -> T;
  handle_state : T -> option pointer;
  handle_empty_state : handle_state handle_empty = None;
  handle_active_state s c p : handle_state (handle_active s c p) = Some p;
  handle_active_shifted s s' d c p : shifted s s' d -> handle_active s' c p = handle_active s c p }.

Section handles.
Context {C T : Type} {H : PinnedHandle C T}.
Implicit Types (handles : gmap nat T) (s : PoolState C) (owners : gmap pointer Z).

(** Every handle is empty or has a state of its own; every state belongs to a handle, which
    pins the arena. *)
Record handles_ok handles s owners : Prop := {
  ho_active : forall x t, handles !! x = Some t -> t = handle_empty \/ exists p c, owners !! p = Some c /\ t = handle_active s c p;
  ho_apart : forall x y t u p, handles !! x = Some t -> handles !! y = Some u -> handle_state t = Some p -> handle_state u = Some p -> x = y;
  ho_codes : forall p c, owners !! p = Some c -> exists x, handles !! x = Some (handle_active s c p);
  ho_pins : ba_live_pins (ps_arena s) = Z.of_nat (size owners) }.

Lemma handles_shifted handles s s' owners : handles_ok handles s owners -> shifted s s' 0 -> handles_ok handles s' owners.
Proof.
  intros [H1 H2 H3 H4] Hs. split; [|done| |rewrite (sh_pins _ _ _ Hs); lia].
  - intros x t Hx. destruct (H1 x t Hx) as [->|(p & c & Hp & ->)]; [by left|]. right. exists p, c. by rewrite (handle_active_shifted _ _ _ _ _ Hs).
  - intros p c Hp. rewrite (handle_active_shifted _ _ _ _ _ Hs). by apply H3.
Qed.

Lemma handles_compiled handles s s' owners x p c : handles_ok handles s owners -> handles !! x = None -> owners !! p = None -> shifted s s' 1 ->
  handles_ok (<[x := handle_active s c p]> handles) s' (<[p := c]> owners).
Proof.
  intros [H1 H2 H3 H4] Hx Hp Hs.
  assert (Hfresh : forall y t, handles !! y = Some t -> handle_state t <> Some p).
  { intros y t Hy E. destruct (H1 y t Hy) as [->|(q & d & Hq & ->)]; [by rewrite handle_empty_state in E|]. rewrite handle_active_state in E. congruence. }
  split.
  - intros y t Hy. apply lookup_insert_Some in Hy as [[<- <-]|[Hne Hy]].
    + right. exists p, c. by rewrite lookup_insert_eq, (handle_active_shifted _ _ _ _ _ Hs).
    + destruct (H1 y t Hy) as [->|(q & d & Hq & ->)]; [by left|]. right. exists q, d.
      rewrite lookup_insert_ne by congruence. by rewrite (handle_active_shifted _ _ _ _ _ Hs).
  - intros y z t u q Hy Hz Ht Hu. apply lookup_insert_Some in Hy as [[<- <-]|[N1 Hy]]; apply lookup_insert_Some in Hz as [[<- <-]|[N2 Hz]].
    + done.
    + rewrite handle_active_state in Ht. injection Ht as <-. by apply Hfresh in Hz.
    + rewrite handle_active_state in Hu. injection Hu as <-. by apply Hfresh in Hy.
    + by apply (H2 y z t u q).
  - intros q d Hq. rewrite (handle_active_shifted _ _ _ _ _ Hs). apply lookup_insert_Some in Hq as [[<- <-]|[Hne Hq]].
    + exists x. by rewrite lookup_insert_eq.
    + destruct (H3 q d Hq) as [y Hy]. exists y. by rewrite lookup_insert_ne by congruence.
  - rewrite (sh_pins _ _ _ Hs), H4, map_size_insert_None by done. lia.
Qed.

Lemma handles_released handles s s' owners x p c : handles_ok handles s owners -> handles !! x = Some (handle_active s c p) ->
  owners !! p = Some c -> shifted s s' (-1) -> handles_ok (<[x := handle_empty]> handles) s' (delete p owners).
Proof.
  intros [H1 H2 H3 H4] Hx Hp Hs.
  assert (Hold : forall y t, <[x := handle_empty]> handles !! y = Some t -> is_Some (handle_state t) -> y <> x /\ handles !! y = Some t).
  { intros y t [[<- <-]|[Hne Hy]]%lookup_insert_Some; [|done]. rewrite handle_empty_state. by intros []. }
  split.
  - intros y t Hy. apply lookup_insert_Some in Hy as [[<- <-]|[Hne Hy]]; [by left|].
    destruct (H1 y t Hy) as [->|(q & d & Hq & ->)]; [by left|]. right. exists q, d. rewrite (handle_active_shifted _ _ _ _ _ Hs).
    rewrite lookup_delete_ne; [done|]. intros <-. apply Hne. apply (H2 x y _ _ p Hx Hy); apply handle_active_state.
  - intros y z t u q Hy Hz Ht Hu. destruct (Hold y t Hy ltac:(eauto)) as [_ Hy']. destruct (Hold z u Hz ltac:(eauto)) as [_ Hz'].
    by apply (H2 y z t u q).
  - intros q d [Hne Hq]%lookup_delete_Some. rewrite (handle_active_shifted _ _ _ _ _ Hs). destruct (H3 q d Hq) as [y Hy]. exists y.
    rewrite lookup_insert_ne; [done|]. intros ->. rewrite Hx in Hy. injection Hy as E. apply (f_equal handle_state) in E.
    rewrite !handle_active_state in E. by injection E.
  - rewrite (sh_pins _ _ _ Hs), H4. rewrite map_size_delete, Hp. assert (size owners <> 0%nat); [|lia].
    intros E%map_size_empty_inv. by rewrite E in Hp.
Qed.

Lemma handles_moved handles s owners x y t : handles_ok handles s owners -> x <> y ->
  (forall u, handles !! x = Some u -> u = handle_empty) -> handles !! y = Some t ->
  handles_ok (<[x := t]> (<[y := handle_empty]> handles)) s owners.
Proof.
  intros [H1 H2 H3 H4] Hne Hx Hy.
  assert (Hold : forall z u, <[x := t]> (<[y := handle_empty]> handles) !! z = Some u ->
    u = handle_empty \/ (z = x /\ u = t) \/ (z <> x /\ z <> y /\ handles !! z = Some u)).
  { intros z u [[<- <-]|[N1 [[<- <-]|[N2 Hz]]%lookup_insert_Some]]%lookup_insert_Some; auto. }
  assert (Hnone : forall q, handle_state (handle_empty (T := T)) <> Some q) by (intros q; by rewrite handle_empty_state).
  split; [| |intros p c Hp|done].
  - intros z u Hz. destruct (Hold z u Hz) as [->|[[-> ->]|(_ & _ & Hz')]]; [by left|by apply (H1 y)|by apply (H1 z)].
  - intros z1 z2 u1 u2 q Z1 Z2 Q1 Q2. destruct (Hold z1 u1 Z1) as [->|[[-> ->]|(N1 & M1 & Z1')]]; [by apply Hnone in Q1| |].
    + destruct (Hold z2 u2 Z2) as [->|[[-> ->]|(N2 & M2 & Z2')]]; [by apply Hnone in Q2|done|]. exfalso. apply M2. by apply (H2 z2 y u2 t q).
    + destruct (Hold z2 u2 Z2) as [->|[[-> ->]|(N2 & M2 & Z2')]]; [by apply Hnone in Q2| |by apply (H2 z1 z2 u1 u2 q)]. exfalso. apply M1. by apply (H2 z1 y u1 t q).
  - destruct (H3 p c Hp) as [z Hz]. destruct (decide (z = y)) as [->|N1].
    + exists x. rewrite lookup_insert_eq. congruence.
    + exists z. rewrite !lookup_insert_ne; [done|done|]. intros <-. apply Hx in Hz. apply (f_equal handle_state) in Hz.
      by rewrite handle_active_state, handle_empty_state in Hz.
Qed.

Lemma handles_dropped handles s owners x : handles_ok handles s owners -> handles !! x = Some handle_empty -> handles_ok (delete x handles) s owners.
Proof.
  intros [H1 H2 H3 H4] Hx. split; [| | |done].
  - intros y t [_ Hy]%lookup_delete_Some. by apply (H1 y).
  - intros y z t u q [_ Hy]%lookup_delete_Some [_ Hz]%lookup_delete_Some. by apply (H2 y z).
  - intros p c Hp. destruct (H3 p c Hp) as [y Hy]. exists y. rewrite lookup_delete_ne; [done|]. intros <-. rewrite Hx in Hy. injection Hy as Hy.
    apply (f_equal handle_state) in Hy. by rewrite handle_active_state, handle_empty_state in Hy.
Qed.

(** While a handle is active the arena cannot be reset. *)
Lemma handles_pinned handles s owners boundary : handles_ok handles s owners -> owners <> ∅ -> exec_pool s (PReset boundary) = Ret (None, s).
Proof.
  intros Ho Hne. apply reset_pinned. rewrite (ho_pins _ _ _ Ho). intros E. apply Hne, map_size_empty_inv. lia.
Qed.

Lemma handles_none handles s s' : handles_ok handles s ∅ -> ba_live_pins (ps_arena s') = ba_live_pins (ps_arena s) -> handles_ok handles s' ∅.
Proof.
  intros [H1 H2 H3 H4] Hp. split; [|done|done|by rewrite Hp].
  intros x t Hx. destruct (H1 x t Hx) as [->|(p & c & Hc & _)]; [by left|done].
Qed.
End handles.

(** ** A pool of 256 bytes *)
Definition wide_tree : Heap := MkHeap {[ 0%nat := MkMemoryBudget demo_worker 1000 0 0 0 None ]} ∅ 1.
Definition wide_heap : Heap := (MemoryReservation_construct wide_tree).2.
Definition wide_arena : BoundedArena (nat * Memory) :=
  BoundedArena_construct 9 demo_worker 0 (arena_source pool_acquire pool_reset) 1 128 256.
Definition wide_pool : PoolState nat :=
  MkPoolState (NativeMemoryPool_construct demo_worker wide_arena) wide_arena wide_heap (0%nat, ∅) ∅.

Lemma wide_tree_reachable : reachable wide_tree.
Proof.
  apply (reachable_step empty_heap (OpConstructRoot demo_worker 1000)).
  - apply reachable_empty.
  - simpl. unfold is_size, size_max, u64_max. lia.
  - vm_compute. reflexivity.
Qed.

Lemma wide_arena_inv : arena_inv pool_acquire pool_reset wide_arena wide_heap.
Proof.
  split; simpl; try done.
  - apply Inv_construct_reservation, reachable_Inv, wide_tree_reachable.
  - exists (MkMemoryBudget demo_worker 1000 0 0 0 None). done.
Qed.

Lemma wide_pool_implements : implements (acquire := pool_acquire) (reset := pool_reset) wide_pool ∅.
Proof. exists []. apply (pool_construct_inv (acquire := pool_acquire) (reset := pool_reset)); [apply wide_arena_inv|done..]. Qed.
