(* ===== verification/CodecSpec.v ===== *)
(** * Codec streams stay within their limits and own their native state

    [CodecLaws] states what the adapters rely on of the compression libraries.  The theorems
    are about runs of calls on one stream and about clients that create, move, use and destroy
    any number of streams over one pool. *)
From Stdlib Require Import ZArith Lia.
From stdpp Require Import base numbers list gmap option.
From S2P Require Import Prelude Contract CheckedArithmetic Identifiers MemoryBudget Views BoundedArena ArenaSpec NativeMemory NativeSpec.
From S2P Require Import Dependencies Codecs CodecPool.

Set Default Goal Selector "!".
#[local] Open Scope Z_scope.

(** ** Accounting *)
Record accounting_ok (a : CodecAccounting) : Prop := {
  ao_input : 0 <= ca_input_bytes a <= cl_maximum_input_bytes (ca_limits a);
  ao_input_limit : cl_maximum_input_bytes (ca_limits a) <= size_max;
  ao_output : 0 <= ca_output_bytes a <= cl_maximum_output_bytes (ca_limits a);
  ao_output_limit : cl_maximum_output_bytes (ca_limits a) <= size_max;
  ao_work : 0 <= ca_work_calls a <= cl_maximum_work_calls (ca_limits a);
  ao_work_limit : cl_maximum_work_calls (ca_limits a) <= u32_max }.

Definition in_use (a : CodecAccounting) : Prop :=
  ca_cancelled a = false /\ ca_finished a = false /\ ca_failed a = false /\ ca_work_calls a < cl_maximum_work_calls (ca_limits a).

(** How a call that returned [r] changed the accounting. *)
Definition accounted (a a' : CodecAccounting) (input_size output_size : Z) (r : Result CodecProgress) : Prop :=
  match r with
  | Ok p => in_use a /\ 0 <= cp_input_consumed p <= input_size /\ 0 <= cp_output_produced p <= output_size /\
      a' = MkCodecAccounting (ca_limits a) (ca_input_bytes a + cp_input_consumed p) (ca_output_bytes a + cp_output_produced p)
             (ca_work_calls a + 1) (ca_direction a) (cp_finished p) false false
  | Err _ => a' = a \/ in_use a /\
      a' = MkCodecAccounting (ca_limits a) (ca_input_bytes a) (ca_output_bytes a) (ca_work_calls a + 1) (ca_direction a) false false true
  end.

Lemma codec_preflight_ok a n : accounting_ok a -> preflight a n = Ok tt ->
  in_use a /\ n <= cl_maximum_input_bytes (ca_limits a) - ca_input_bytes a.
Proof.
  intros [H1 H2 H3 H4 H5 H6]. unfold preflight, in_use.
  destruct (ca_cancelled a), (ca_finished a), (ca_failed a); try done. cbn [orb].
  destruct (Z.leb_spec (cl_maximum_work_calls (ca_limits a)) (ca_work_calls a)); [done|].
  rewrite u64_small by (unfold size_max in *; lia).
  destruct (Z.ltb_spec (cl_maximum_input_bytes (ca_limits a) - ca_input_bytes a) n); [done|]. intros _. split; [done|lia].
Qed.

Lemma bounded_output_size_eq a n : accounting_ok a ->
  bounded_output_size a n = Z.min n (cl_maximum_output_bytes (ca_limits a) - ca_output_bytes a).
Proof. intros [H1 H2 H3 H4 H5 H6]. unfold bounded_output_size. by rewrite u64_small by (unfold size_max in *; lia). Qed.

Lemma codec_record_ok a n m consumed produced needs_input needs_output finished : accounting_ok a -> preflight a n = Ok tt ->
  0 <= consumed <= n -> 0 <= produced <= m -> produced <= cl_maximum_output_bytes (ca_limits a) - ca_output_bytes a ->
  accounting_ok (record a consumed produced finished) /\
  accounted a (record a consumed produced finished) n m (Ok (MkCodecProgress consumed produced needs_input needs_output finished)).
Proof.
  intros Ha Hp Hc Hm Ho. destruct (codec_preflight_ok a n Ha Hp) as [Hu Hn]. pose proof Ha as [H1 H2 H3 H4 H5 H6]. pose proof Hu as (U1 & U2 & U3 & U4).
  assert (E : record a consumed produced finished = MkCodecAccounting (ca_limits a) (ca_input_bytes a + consumed)
     (ca_output_bytes a + produced) (ca_work_calls a + 1) (ca_direction a) finished false false).
  { unfold record. rewrite !u64_small, u32_small by (unfold size_max in *; lia). by rewrite U1, U3. }
  rewrite E. split; [split; cbn; lia|]. split; [done|]. done.
Qed.

Lemma record_failure_ok a n m e : accounting_ok a -> preflight a n = Ok tt ->
  accounting_ok (record_failure a) /\ accounted a (record_failure a) n m (Err e).
Proof.
  intros Ha Hp. destruct (codec_preflight_ok a n Ha Hp) as [Hu _]. pose proof Ha as [H1 H2 H3 H4 H5 H6]. pose proof Hu as (U1 & U2 & U3 & U4).
  assert (E : record_failure a = MkCodecAccounting (ca_limits a) (ca_input_bytes a) (ca_output_bytes a) (ca_work_calls a + 1)
     (ca_direction a) false false true) by (unfold record_failure; rewrite u32_small by lia; by rewrite U1, U2).
  rewrite E. split; [split; cbn; lia|]. right. done.
Qed.

(** ** What the libraries promise *)
Inductive native_kind := NDeflate | NInflate | NBrotliEncoder | NBrotliDecoder | NZstdEncoder | NZstdDecoder.
#[export] Instance native_kind_eq_dec : EqDecision native_kind.
Proof. solve_decision. Defined.
#[export] Instance native_kind_countable : Countable native_kind.
Proof.
  refine (inj_countable (fun k => match k with NDeflate => 0 | NInflate => 1 | NBrotliEncoder => 2 | NBrotliDecoder => 3 | NZstdEncoder => 4 | NZstdDecoder => 5 end)
    (fun n => if n =? 0 then Some NDeflate else if n =? 1 then Some NInflate else if n =? 2 then Some NBrotliEncoder else
              if n =? 3 then Some NBrotliDecoder else if n =? 4 then Some NZstdEncoder else Some NZstdDecoder) _).
  by intros [].
Defined.

(** A native object: its kind and its address. *)
Definition native_id : Type := native_kind * Z.

Section laws.
Context {N C L : Type} {acquire : C * Memory -> Z -> Result MutableByteView * (C * Memory)}.
Context {reset : C * Memory -> Result unit * (C * Memory)} `{!PoolSource acquire reset}.
Context {zlib : ZlibNg N C} {brotli : Brotli N C} {zstd : Zstd N C} {live : N -> gset native_id}.
Abbreviation Native := (N * PoolState C)%type.
Abbreviation pool_valid := (pool_valid (acquire := acquire) (reset := reset)).
Abbreviation pool_use := (pool_use (acquire := acquire) (reset := reset)).

(** A call returns, uses the pool, and its value and the live objects after it satisfy [P]. *)
Definition calls {A} (n : Native) (m : outcome (A * Native)) (P : A -> gset native_id -> Prop) : Prop :=
  exists a n', m = Ret (a, n') /\ pool_use n.2 n'.2 /\ P a (live (n'.1)).
Definition ends (n : Native) (m : outcome Native) (id : native_id) : Prop :=
  exists n', m = Ret n' /\ pool_use n.2 n'.2 /\ live (n'.1) = live (n.1) ∖ {[id]}.

(** A transfer leaves no more input and output than it was given. *)
Definition transfers {A} (n : Native) (b : native_buffers) (m : outcome (A * Z * Z * Native)) : Prop :=
  0 <= nb_in_size b -> 0 <= nb_out_size b ->
  calls n m (fun '(_, i, o) l => 0 <= i <= nb_in_size b /\ 0 <= o <= nb_out_size b /\ l = live n.1).
Definition creates (n : Native) (k : native_kind) (m : outcome (option Z * Native)) : Prop :=
  calls n m (fun i l => match i with
    | Some i => ~ ((k, i) ∈ live (n.1)) /\ l = {[(k, i)]} ∪ live (n.1)
    | None => l = live (n.1)
    end).
Definition initializes (n : Native) (id : native_id) (m : outcome (zlib_code * Native)) : Prop :=
  calls n m (fun r l => l = if decide (r = Z_OK) then {[id]} ∪ live n.1 else live n.1).

Class CodecLaws : Prop := {
  deflateInit_law p n : pool_valid n.2 -> (NDeflate, p) ∉ live n.1 -> initializes n (NDeflate, p) (zng_deflateInit2 zlib p n);
  inflateInit_law p n : pool_valid n.2 -> (NInflate, p) ∉ live n.1 -> initializes n (NInflate, p) (zng_inflateInit2 zlib p n);
  deflate_law p f b n : pool_valid n.2 -> (NDeflate, p) ∈ live n.1 -> transfers n b (zng_deflate zlib p f b n);
  inflate_law p f b n : pool_valid n.2 -> (NInflate, p) ∈ live n.1 -> transfers n b (zng_inflate zlib p f b n);
  deflateEnd_law p n : pool_valid n.2 -> (NDeflate, p) ∈ live n.1 -> ends n (zng_deflateEnd zlib p n) (NDeflate, p);
  inflateEnd_law p n : pool_valid n.2 -> (NInflate, p) ∈ live n.1 -> ends n (zng_inflateEnd zlib p n) (NInflate, p);
  brotli_create_encoder_law n : pool_valid n.2 -> creates n NBrotliEncoder (BrotliEncoderCreateInstance brotli n);
  brotli_quality_law i q n : pool_valid n.2 -> (NBrotliEncoder, i) ∈ live n.1 ->
    calls n (BrotliEncoderSetQuality brotli i q n) (fun _ l => l = live n.1);
  brotli_compress_law i o b n : pool_valid n.2 -> (NBrotliEncoder, i) ∈ live n.1 -> transfers n b (BrotliEncoderCompressStream brotli i o b n);
  brotli_finished_law i n : (NBrotliEncoder, i) ∈ live n.1 -> exists v, BrotliEncoderIsFinished brotli i n = Ret v;
  brotli_more_law i n : (NBrotliEncoder, i) ∈ live n.1 -> exists v, BrotliEncoderHasMoreOutput brotli i n = Ret v;
  brotli_destroy_encoder_law i n : pool_valid n.2 -> (NBrotliEncoder, i) ∈ live n.1 ->
    ends n (BrotliEncoderDestroyInstance brotli i n) (NBrotliEncoder, i);
  brotli_create_decoder_law n : pool_valid n.2 -> creates n NBrotliDecoder (BrotliDecoderCreateInstance brotli n);
  brotli_decompress_law i b n : pool_valid n.2 -> (NBrotliDecoder, i) ∈ live n.1 -> transfers n b (BrotliDecoderDecompressStream brotli i b n);
  brotli_code_law i n : (NBrotliDecoder, i) ∈ live n.1 -> exists c, BrotliDecoderGetErrorCode brotli i n = Ret c;
  brotli_destroy_decoder_law i n : pool_valid n.2 -> (NBrotliDecoder, i) ∈ live n.1 ->
    ends n (BrotliDecoderDestroyInstance brotli i n) (NBrotliDecoder, i);
  zstd_create_encoder_law n : pool_valid n.2 -> creates n NZstdEncoder (ZSTD_createCCtx_advanced zstd n);
  zstd_level_law i n : pool_valid n.2 -> (NZstdEncoder, i) ∈ live n.1 -> calls n (ZSTD_CCtx_setLevel zstd i n) (fun _ l => l = live n.1);
  zstd_compress_law i d b n : pool_valid n.2 -> (NZstdEncoder, i) ∈ live n.1 -> transfers n b (ZSTD_compressStream2 zstd i d b n);
  zstd_free_encoder_law i n : pool_valid n.2 -> (NZstdEncoder, i) ∈ live n.1 -> ends n (ZSTD_freeCCtx zstd i n) (NZstdEncoder, i);
  zstd_create_decoder_law n : pool_valid n.2 -> creates n NZstdDecoder (ZSTD_createDCtx_advanced zstd n);
  zstd_reset_law i n : pool_valid n.2 -> (NZstdDecoder, i) ∈ live n.1 -> calls n (ZSTD_DCtx_reset_session zstd i n) (fun _ l => l = live n.1);
  zstd_decompress_law i b n : pool_valid n.2 -> (NZstdDecoder, i) ∈ live n.1 -> transfers n b (ZSTD_decompressStream zstd i b n);
  zstd_free_decoder_law i n : pool_valid n.2 -> (NZstdDecoder, i) ∈ live n.1 -> ends n (ZSTD_freeDCtx zstd i n) (NZstdDecoder, i) }.
End laws.
Arguments CodecLaws {N C acquire reset} zlib brotli zstd live.

(** ** States of the adapters *)
Section states.
Context {L : Type}.
Implicit Types (st : CodecState L).

Definition state_accounting st : CodecAccounting :=
  match st with AZlib s => zs_accounting s | ABrotli s => bs_accounting s | AZstd s => ts_accounting s end.
Definition state_operations st : CodecOperations :=
  match st with AZlib _ => zlib_operations | ABrotli _ => brotli_operations | AZstd _ => zstd_operations end.

(** The native object a state owns. *)
Definition state_id (p : Z) st : option native_id :=
  match st with
  | AZlib s => if zs_initialized s then Some (if bool_decide (ca_direction (zs_accounting s) = encode) then NDeflate else NInflate, p) else None
  | ABrotli s => match bs_encoder s, bs_decoder s with
                 | Some i, None => if bool_decide (ca_direction (bs_accounting s) = encode) then Some (NBrotliEncoder, i) else None
                 | None, Some i => if bool_decide (ca_direction (bs_accounting s) = encode) then None else Some (NBrotliDecoder, i)
                 | _, _ => None
                 end
  | AZstd s => match ts_encoder s, ts_decoder s with
               | Some i, None => if bool_decide (ca_direction (ts_accounting s) = encode) then Some (NZstdEncoder, i) else None
               | None, Some i => if bool_decide (ca_direction (ts_accounting s) = encode) then None else Some (NZstdDecoder, i)
               | _, _ => None
               end
  end.

(** The same state with its accounting replaced. *)
Definition with_accounting st (a : CodecAccounting) : CodecState L :=
  match st with
  | AZlib s => AZlib (MkZlibState a (zs_log s) (zs_initialized s))
  | ABrotli s => ABrotli (MkBrotliState a (bs_encoder s) (bs_decoder s) (bs_log s))
  | AZstd s => AZstd (MkZstdState a (ts_encoder s) (ts_decoder s) (ts_log s))
  end.

Lemma with_accounting_same st : with_accounting st (state_accounting st) = st.
Proof. by destruct st as [[]|[]|[]]. Qed.
Lemma with_accounting_accounting st a : state_accounting (with_accounting st a) = a.
Proof. by destruct st. Qed.
Lemma with_accounting_operations st a : state_operations (with_accounting st a) = state_operations st.
Proof. by destruct st. Qed.
Lemma with_accounting_id p st a : ca_direction a = ca_direction (state_accounting st) -> state_id p (with_accounting st a) = state_id p st.
Proof. intros E. destruct st as [[]|[]|[]]; cbn in *; by rewrite ?E. Qed.
End states.

(** ** One call of an adapter *)
Section adapters.
Context {N C L : Type} {acquire : C * Memory -> Z -> Result MutableByteView * (C * Memory)}.
Context {reset : C * Memory -> Result unit * (C * Memory)} `{!PoolSource acquire reset}.
Context (zlib : ZlibNg N C) (brotli : Brotli N C) (zstd : Zstd N C) (live : N -> gset native_id).
Context `{!CodecLaws (acquire := acquire) (reset := reset) zlib brotli zstd live}.
Abbreviation pool_valid := (pool_valid (acquire := acquire) (reset := reset)).
Abbreviation pool_use := (pool_use (acquire := acquire) (reset := reset)).
Implicit Types (w : CodecWorld N C L) (st : CodecState L).

Definition live_objects w : gset native_id := live ((cw_native w).1).

(** A state a stream may point to: it owns one live object. *)
Record state_valid w (p : Z) st (id : native_id) : Prop := {
  sv_state : cw_states w !! p = Some st;
  sv_accounting : accounting_ok (state_accounting st);
  sv_id : state_id p st = Some id;
  sv_live : id ∈ live_objects w }.

(** The world after a call on the state at [p]: only its accounting changed. *)
Record called w (p : Z) st w' (a' : CodecAccounting) : Prop := {
  cd_states : cw_states w' = <[p := with_accounting st a']> (cw_states w);
  cd_live : live_objects w' = live_objects w;
  cd_kept : kept (cw_pool w) (cw_pool w');
  cd_valid : pool_valid (cw_pool w') }.

Definition process_result w (p : Z) st (n m : Z) (x : Result CodecProgress * CodecWorld N C L) : Prop :=
  exists a', called w p st x.2 a' /\ accounting_ok a' /\ accounted (state_accounting st) a' n m x.1.

Lemma called_nothing w p st : cw_states w !! p = Some st -> pool_valid (cw_pool w) -> called w p st w (state_accounting st).
Proof. intros Hs Hv. split; [|done|done|done]. by rewrite with_accounting_same, insert_id. Qed.

Lemma refused_result w p st id n m e : state_valid w p st id -> pool_valid (cw_pool w) -> process_result w p st n m (Err e, w).
Proof. intros [Hs Ha _ _] Hv. exists (state_accounting st). split; [by apply called_nothing|]. split; [done|]. by left. Qed.

(** The world after a native call and the update of the state. *)
Definition after_call w (n : N * PoolState C) (l : L) (p : Z) st a : CodecWorld N C L :=
  MkCodecWorld n l (<[p := with_accounting st a]> (cw_states w)).

Lemma called_after w p st (n : N * PoolState C) l a : pool_valid (cw_pool w) -> pool_use (cw_pool w) n.2 -> live (n.1) = live_objects w ->
  called w p st (after_call w n l p st a) a.
Proof using PoolSource0.
  intros Hv Hu Hl. split; [done|done|exact (pool_use_kept _ _ Hu)|exact (pool_use_valid _ _ Hu Hv)].
Qed.

Lemma failed_result w p st id n m k l e : state_valid w p st id -> pool_valid (cw_pool w) ->
  preflight (state_accounting st) n = Ok tt -> pool_use (cw_pool w) k.2 -> live (k.1) = live_objects w ->
  process_result w p st n m (Err e, after_call w k l p st (record_failure (state_accounting st))).
Proof using PoolSource0.
  intros Hs Hv Hp Hu Hl. destruct (record_failure_ok (state_accounting st) n m e (sv_accounting _ _ _ _ Hs) Hp) as [H1 H2].
  exists (record_failure (state_accounting st)). split; [by apply called_after|done].
Qed.

Lemma progress_result w p st id n m k l consumed produced needs_input needs_output finished : state_valid w p st id -> pool_valid (cw_pool w) ->
  preflight (state_accounting st) n = Ok tt -> pool_use (cw_pool w) k.2 -> live (k.1) = live_objects w ->
  0 <= consumed <= n -> 0 <= produced <= bounded_output_size (state_accounting st) m ->
  process_result w p st n m (Ok (MkCodecProgress consumed produced needs_input needs_output finished),
    after_call w k l p st (record (state_accounting st) consumed produced finished)).
Proof using PoolSource0.
  intros Hs Hv Hp Hu Hl Hc Hm. rewrite bounded_output_size_eq in Hm by apply Hs.
  destruct (codec_record_ok (state_accounting st) n m consumed produced needs_input needs_output finished) as [H1 H2];
    [apply Hs|done|done|lia|lia|].
  exists (record (state_accounting st) consumed produced finished). split; [by apply called_after|done].
Qed.

(** No output was offered but some may still be produced. *)
Lemma starved_result w p st id n m : state_valid w p st id -> pool_valid (cw_pool w) -> preflight (state_accounting st) n = Ok tt ->
  0 <= n -> 0 <= m ->
  process_result w p st n m (Ok (MkCodecProgress 0 0 false true false),
    after_call w (cw_native w) (cw_log w) p st (record (state_accounting st) 0 0 false)).
Proof using PoolSource0.
  intros Hs Hv Hp Hn Hm. apply (progress_result w p st id); [done|done|done|apply use_nothing|done|lia|].
  rewrite bounded_output_size_eq by apply Hs. pose proof (ao_output _ (sv_accounting _ _ _ _ Hs)). lia.
Qed.

#[local] Ltac refused Hs Hv := eexists; split; [reflexivity|exact (refused_result _ _ _ _ _ _ _ Hs Hv)].
#[local] Ltac failing Hs Hv Hp Hu Hl := eexists; split; [reflexivity|exact (failed_result _ _ _ _ _ _ _ _ _ Hs Hv Hp Hu Hl)].
#[local] Ltac starved Hs Hv Hp := eexists; split; [reflexivity|refine (starved_result _ _ _ _ _ _ Hs Hv Hp _ _); lia].
#[local] Ltac progresses Hs Hv Hp Hu Hl :=
  eexists; split; [reflexivity|refine (progress_result _ _ _ _ _ _ _ _ _ _ _ _ _ Hs Hv Hp Hu Hl _ _)].

Lemma zlib_process_ok p input output finishing w s id : state_valid w p (AZlib s) id -> pool_valid (cw_pool w) ->
  0 <= span_size input <= size_max -> 0 <= span_size output <= size_max ->
  run_to (zlib_process zlib p input output finishing w) (process_result w p (AZlib s) (span_size input) (span_size output)).
Proof using PoolSource0 CodecLaws0.
  intros Hs Hv Hi Ho. unfold zlib_process. rewrite (sv_state _ _ _ _ Hs). cbn [state_accounting] in *.
  destruct (preflight (zs_accounting s) (span_size input)) as [[]|e] eqn:Hp; [|refused Hs Hv].
  destruct (span_empty output && output_capacity_remains (zs_accounting s)).
  { starved Hs Hv Hp. }
  pose proof (bounded_output_size_eq (zs_accounting s) (span_size output) (sv_accounting _ _ _ _ Hs)) as Hout.
  pose proof (sv_accounting _ _ _ _ Hs) as Hacc. cbn [state_accounting] in Hacc. pose proof (ao_output _ Hacc) as Hao.
  set (size := bounded_output_size (zs_accounting s) (span_size output)) in *.
  destruct ((size =? 0) && bool_decide (ca_direction (zs_accounting s) = encode)) eqn:Hlimit; [refused Hs Hv|].
  set (offered := if size =? 0 then 1 else Z.min size u32_max).
  set (buffers := MkBuffers _ _ _ offered).
  assert (Hcall : transfers (acquire := acquire) (reset := reset) (live := live) (cw_native w) buffers
    (if bool_decide (ca_direction (zs_accounting s) = encode)
     then zng_deflate zlib p (if finishing then Z_FINISH else Z_NO_FLUSH) buffers (cw_native w)
     else zng_inflate zlib p Z_NO_FLUSH buffers (cw_native w))).
  { pose proof (sv_id _ _ _ _ Hs) as Hid. pose proof (sv_live _ _ _ _ Hs) as Hlive. unfold live_objects in Hlive. cbn [state_id] in Hid.
    destruct (zs_initialized s); [|done]. injection Hid as <-. case_bool_decide; [by eapply deflate_law|by eapply inflate_law]. }
  assert (Hoff : 0 <= offered <= u32_max /\ (size <> 0 -> offered <= size)).
  { unfold offered. destruct (Z.eqb_spec size 0); unfold u32_max; lia. }
  destruct Hcall as ([[result i] o] & k & -> & Huse & Hbi & Hbo & Hl); [cbn; unfold u32_max; lia|cbn; lia|].
  rewrite outcome_bind_Ret. cbn [nb_in_size nb_out_size buffers] in Hbi, Hbo.
  assert (Hu32 : u32_max <= u64_max) by (unfold u32_max, u64_max; lia). unfold size_max in *.
  rewrite !u64_small by lia.
  destruct ((size =? 0) && negb (offered - o =? 0)) eqn:Hprobe; [failing Hs Hv Hp Huse Hl|].
  destruct (bool_decide (result = Z_STREAM_END) && _); [failing Hs Hv Hp Huse Hl|].
  destruct (negb (bool_decide (result = Z_OK)) && _ && _); [failing Hs Hv Hp Huse Hl|].
  destruct (finishing && _ && _ && _ && _); [failing Hs Hv Hp Huse Hl|].
  progresses Hs Hv Hp Huse Hl; [lia|]. cbn [state_accounting]. fold size.
  destruct (Z.eqb_spec size 0) as [E|E]; [lia|]. specialize (proj2 Hoff E). lia.
Qed.

Lemma brotli_process_ok p input output finishing w s id : state_valid w p (ABrotli s) id -> pool_valid (cw_pool w) ->
  0 <= span_size input <= size_max -> 0 <= span_size output <= size_max ->
  run_to (brotli_process brotli p input output finishing w) (process_result w p (ABrotli s) (span_size input) (span_size output)).
Proof using PoolSource0 CodecLaws0.
  destruct s as [a enc dec log]. intros Hs Hv Hi Ho. unfold brotli_process. rewrite (sv_state _ _ _ _ Hs).
  cbn [state_accounting bs_accounting bs_encoder bs_decoder bs_log] in *.
  destruct (preflight a (span_size input)) as [[]|e] eqn:Hp; [|refused Hs Hv].
  destruct (span_empty output && output_capacity_remains a); [starved Hs Hv Hp|].
  pose proof (bounded_output_size_eq a (span_size output) (sv_accounting _ _ _ _ Hs)) as Hout.
  pose proof (ao_output _ (sv_accounting _ _ _ _ Hs)) as Hao. cbn [state_accounting bs_accounting] in Hao.
  set (size := bounded_output_size a (span_size output)) in *.
  destruct ((size =? 0) && bool_decide (ca_direction a = encode)); [refused Hs Hv|].
  set (buffers := MkBuffers _ _ _ size). unfold size_max in *.
  assert (Hsizes : 0 <= nb_in_size buffers /\ 0 <= nb_out_size buffers).
  { cbn. split; [lia|]. lia. }
  pose proof (sv_id _ _ _ _ Hs) as Hid. pose proof (sv_live _ _ _ _ Hs) as Hlive. unfold live_objects in Hlive. cbn [state_id bs_accounting bs_encoder bs_decoder] in Hid.
  destruct (bool_decide (ca_direction a = encode)) eqn:Hdir.
  - destruct enc as [j|]; [|by destruct dec]. destruct dec; [done|]. injection Hid as <-. cbn [instance].
    rewrite outcome_bind_Ret. destruct (brotli_compress_law j (if finishing then BROTLI_OPERATION_FINISH else BROTLI_OPERATION_PROCESS)
      buffers (cw_native w) Hv Hlive) as ([[ok i] o] & k & -> & Huse & Hbi & Hbo & Hl); [apply Hsizes..|].
    rewrite outcome_bind_Ret. cbn [nb_in_size nb_out_size buffers] in Hbi, Hbo. destruct ok; cbn [negb]; [|failing Hs Hv Hp Huse Hl].
    destruct (brotli_finished_law j k ltac:(by rewrite Hl)) as [finished ->]. rewrite outcome_bind_Ret.
    destruct (negb finished && negb (o =? 0)).
    + destruct (brotli_more_law j k ltac:(by rewrite Hl)) as [more ->]. rewrite outcome_bind_Ret, !u64_small by lia.
      progresses Hs Hv Hp Huse Hl; [lia|]. cbn [state_accounting bs_accounting]. fold size. lia.
    + rewrite outcome_bind_Ret, !u64_small by lia. progresses Hs Hv Hp Huse Hl; [lia|]. cbn [state_accounting bs_accounting]. fold size. lia.
  - destruct enc as [j|]; [by destruct dec|]. destruct dec as [j|]; [|done]. injection Hid as <-. cbn [instance].
    rewrite outcome_bind_Ret. destruct (brotli_decompress_law j buffers (cw_native w) Hv Hlive) as ([[result i] o] & k & -> & Huse & Hbi & Hbo & Hl); [apply Hsizes..|].
    rewrite outcome_bind_Ret. cbn [nb_in_size nb_out_size buffers] in Hbi, Hbo. destruct (bool_decide (result = BROTLI_DECODER_RESULT_ERROR)).
    { destruct (brotli_code_law j k ltac:(by rewrite Hl)) as [c ->]. rewrite outcome_bind_Ret. failing Hs Hv Hp Huse Hl. }
    destruct ((size =? 0) && _); [failing Hs Hv Hp Huse Hl|]. destruct (_ && negb (i =? 0)); [failing Hs Hv Hp Huse Hl|].
    destruct (finishing && _); [failing Hs Hv Hp Huse Hl|]. rewrite !u64_small by lia.
    progresses Hs Hv Hp Huse Hl; [lia|]. cbn [state_accounting bs_accounting]. fold size. lia.
Qed.

Lemma zstd_process_ok p input output finishing w s id : state_valid w p (AZstd s) id -> pool_valid (cw_pool w) ->
  0 <= span_size input <= size_max -> 0 <= span_size output <= size_max ->
  run_to (zstd_process zstd p input output finishing w) (process_result w p (AZstd s) (span_size input) (span_size output)).
Proof using PoolSource0 CodecLaws0.
  destruct s as [a enc dec log]. intros Hs Hv Hi Ho. unfold zstd_process. rewrite (sv_state _ _ _ _ Hs).
  cbn [state_accounting ts_accounting ts_encoder ts_decoder ts_log] in *.
  destruct (preflight a (span_size input)) as [[]|e] eqn:Hp; [|refused Hs Hv].
  destruct (span_empty output && output_capacity_remains a); [starved Hs Hv Hp|].
  pose proof (bounded_output_size_eq a (span_size output) (sv_accounting _ _ _ _ Hs)) as Hout.
  pose proof (ao_output _ (sv_accounting _ _ _ _ Hs)) as Hao. cbn [state_accounting ts_accounting] in Hao.
  set (size := bounded_output_size a (span_size output)) in *.
  destruct ((size =? 0) && bool_decide (ca_direction a = encode)) eqn:Hzero; [refused Hs Hv|].
  set (buffers := MkBuffers _ _ _ _). unfold size_max in *.
  assert (Hsizes : 0 <= nb_in_size buffers /\ 0 <= nb_out_size buffers).
  { cbn. split; [lia|]. destruct (Z.eqb_spec size 0); lia. }
  pose proof (sv_id _ _ _ _ Hs) as Hid. pose proof (sv_live _ _ _ _ Hs) as Hlive. unfold live_objects in Hlive. cbn [state_id ts_accounting ts_encoder ts_decoder] in Hid.
  destruct (bool_decide (ca_direction a = encode)) eqn:Hdir.
  - destruct enc as [j|]; [|by destruct dec]. destruct dec; [done|]. injection Hid as <-. cbn [instance].
    rewrite outcome_bind_Ret. destruct (zstd_compress_law j (if finishing then ZSTD_e_end else ZSTD_e_continue) buffers (cw_native w) Hv Hlive)
      as ([[result i] o] & k & -> & Huse & Hbi & Hbo & Hl); [apply Hsizes..|].
    rewrite outcome_bind_Ret. cbn [nb_in_size nb_out_size buffers] in Hbi, Hbo. rewrite andb_true_r in Hzero. rewrite Hzero in *.
    destruct (ZSTD_isError zstd result); [failing Hs Hv Hp Huse Hl|].
    progresses Hs Hv Hp Huse Hl; [lia|]. cbn [state_accounting ts_accounting]. fold size. lia.
  - destruct enc as [j|]; [by destruct dec|]. destruct dec as [j|]; [|done]. injection Hid as <-. cbn [instance].
    rewrite outcome_bind_Ret. destruct (zstd_decompress_law j buffers (cw_native w) Hv Hlive) as ([[result i] o] & k & -> & Huse & Hbi & Hbo & Hl); [apply Hsizes..|].
    rewrite outcome_bind_Ret. cbn [nb_in_size nb_out_size buffers] in Hbi, Hbo.
    destruct (ZSTD_isError zstd result); [failing Hs Hv Hp Huse Hl|].
    destruct ((size =? 0) && negb (o =? 0)); [failing Hs Hv Hp Huse Hl|].
    destruct ((result =? 0) && _); [failing Hs Hv Hp Huse Hl|]. destruct (finishing && _ && _); [failing Hs Hv Hp Huse Hl|].
    progresses Hs Hv Hp Huse Hl; [lia|]. cbn [state_accounting ts_accounting]. fold size. destruct (Z.eqb_spec size 0); lia.
Qed.

Lemma process_ok p input output finishing w st id : state_valid w p st id -> pool_valid (cw_pool w) ->
  0 <= span_size input <= size_max -> 0 <= span_size output <= size_max ->
  run_to (operations_process zlib brotli zstd (state_operations st) p input output finishing w)
    (process_result w p st (span_size input) (span_size output)).
Proof using PoolSource0 CodecLaws0.
  destruct st; [by apply zlib_process_ok|by apply brotli_process_ok|by apply zstd_process_ok].
Qed.

Lemma cancel_ok p w st id : state_valid w p st id -> pool_valid (cw_pool w) ->
  exists w', operations_cancel (state_operations st) p w = Ret w' /\ called w p st w' (cancelled_accounting (state_accounting st)).
Proof.
  intros Hs Hv. exists (after_call w (cw_native w) (cw_log w) p st (cancelled_accounting (state_accounting st))).
  split; [|by split].
  destruct st; cbn [state_operations operations_cancel]; unfold zlib_cancel, brotli_cancel, zstd_cancel; by rewrite (sv_state _ _ _ _ Hs).
Qed.

(** Destruction ends the native object and drops the state. *)
Definition destroyed w (p : Z) (id : native_id) w' : Prop :=
  cw_states w' = delete p (cw_states w) /\ live_objects w' = live_objects w ∖ {[id]} /\
  kept (cw_pool w) (cw_pool w') /\ pool_valid (cw_pool w').

Lemma ends_destroyed w p id m : pool_valid (cw_pool w) -> ends (acquire := acquire) (reset := reset) (live := live) (cw_native w) m id ->
  exists n, m = Ret n /\ destroyed w p id (drop_state (set_native w n) p).
Proof using PoolSource0.
  intros Hv (n & -> & Hu & Hl). exists n. split; [done|]. split; [done|]. split; [done|].
  split; [exact (pool_use_kept _ _ Hu)|exact (pool_use_valid _ _ Hu Hv)].
Qed.

Lemma destroy_ok p w st id : state_valid w p st id -> pool_valid (cw_pool w) ->
  run_to (operations_destroy zlib brotli zstd (state_operations st) p w) (destroyed w p id).
Proof using PoolSource0 CodecLaws0.
  intros Hs Hv. pose proof (sv_id _ _ _ _ Hs) as Hid. pose proof (sv_live _ _ _ _ Hs) as Hlive. unfold live_objects in Hlive.
  destruct st as [s|s|s]; cbn [state_operations operations_destroy state_id] in *; unfold zlib_destroy, brotli_destroy, zstd_destroy;
    rewrite (sv_state _ _ _ _ Hs).
  - destruct (zs_initialized s); [|done]. injection Hid as <-. case_bool_decide.
    + destruct (ends_destroyed w p _ _ Hv (deflateEnd_law p (cw_native w) Hv Hlive)) as (n & -> & Hd). rewrite outcome_bind_Ret. by eexists.
    + destruct (ends_destroyed w p _ _ Hv (inflateEnd_law p (cw_native w) Hv Hlive)) as (n & -> & Hd). rewrite outcome_bind_Ret. by eexists.
  - destruct (bs_encoder s) as [i|], (bs_decoder s) as [j|]; try done; case_bool_decide; try done; injection Hid as <-.
    + destruct (ends_destroyed w p _ _ Hv (brotli_destroy_encoder_law i (cw_native w) Hv Hlive)) as (n & -> & Hd).
      rewrite !outcome_bind_Ret. by eexists.
    + rewrite outcome_bind_Ret. destruct (ends_destroyed w p _ _ Hv (brotli_destroy_decoder_law j (cw_native w) Hv Hlive)) as (n & -> & Hd).
      rewrite outcome_bind_Ret. by eexists.
  - destruct (ts_encoder s) as [i|], (ts_decoder s) as [j|]; try done; case_bool_decide; try done; injection Hid as <-.
    + destruct (ends_destroyed w p _ _ Hv (zstd_free_encoder_law i (cw_native w) Hv Hlive)) as (n & -> & Hd).
      rewrite !outcome_bind_Ret. by eexists.
    + rewrite outcome_bind_Ret. destruct (ends_destroyed w p _ _ Hv (zstd_free_decoder_law j (cw_native w) Hv Hlive)) as (n & -> & Hd).
      rewrite outcome_bind_Ret. by eexists.
Qed.

(** ** Creation *)

(** The arena is the same, in the same generation, with [d] more pins, and the pool is valid. *)
Record pinned (s s' : PoolState C) (d : Z) : Prop := {
  pd_generation : ba_generation (ps_arena s') = ba_generation (ps_arena s);
  pd_address : ba_address (ps_arena s') = ba_address (ps_arena s);
  pd_pins : ba_live_pins (ps_arena s') = ba_live_pins (ps_arena s) + d;
  pd_valid : pool_valid s' }.

Lemma pinned_trans s s1 s2 d e : pinned s s1 d -> pinned s1 s2 e -> pinned s s2 (d + e).
Proof. intros [A1 A2 A3 A4] [B1 B2 B3 B4]. split; [congruence|congruence|lia|done]. Qed.

Lemma kept_pinned s s' : kept s s' -> pool_valid s' -> pinned s s' 0.
Proof. intros [(A1 & A2 & A3 & _) _] Hv. split; [done|done|lia|done]. Qed.

Lemma use_pinned s s' : pool_valid s -> pool_use s s' -> pinned s s' 0.
Proof using PoolSource0. intros Hv Hu. apply kept_pinned; [exact (pool_use_kept _ _ Hu)|exact (pool_use_valid _ _ Hu Hv)]. Qed.

Lemma codec_pin_ok w : pool_valid (cw_pool w) ->
  let '(r, w') := codec_pin w in
  cw_states w' = cw_states w /\ cw_log w' = cw_log w /\ (cw_native w').1 = (cw_native w).1 /\
  match r with
  | Ok pin => pin = MkArenaPin (Some (ba_address (cw_arena w))) /\ pinned (cw_pool w) (cw_pool w') 1
  | Err _ => pinned (cw_pool w) (cw_pool w') 0
  end.
Proof using PoolSource0.
  intros Hv. unfold codec_pin. pose proof (synchronize_valid (cw_pool w) Hv) as Hv'. pose proof (synchronize_kept (cw_pool w)) as Hk.
  set (s := synchronize (cw_pool w)) in *. destruct (valid_counts s Hv') as [Hpins Hworker]. unfold BoundedArena_pin.
  rewrite (arena_worker_ok _ _ Hworker). destruct (Z.eqb_spec (ba_live_pins (ps_arena s)) size_max).
  - split; [done|]. split; [done|]. split; [done|]. apply kept_pinned; cbn.
    + by destruct s.
    + by destruct s.
  - split; [done|]. split; [done|]. split; [done|]. destruct Hk as [(A1 & A2 & A3 & _) _]. split; [by rewrite A3|].
    unfold size_max in *. split; cbn; [done|done|rewrite u64_small by lia; lia|].
    rewrite u64_small by lia. apply (with_pins_valid s (ba_live_pins (ps_arena s) + 1)); [unfold size_max; lia|done].
Qed.

Lemma release_pin_ok w p : pool_valid (cw_pool w) -> 1 <= ba_live_pins (cw_arena w) ->
  exists arena, ArenaPin_destroy (cw_arena w) (MkArenaPin (Some p)) = Ret arena /\
    ArenaPin_release (cw_arena w) (MkArenaPin (Some p)) = Ret (arena, MkArenaPin None) /\
    pinned (cw_pool w) (cw_pool (set_arena_of w arena)) (-1).
Proof.
  intros Hv Hp. destruct (valid_counts _ Hv) as [Hpins _]. fold (cw_arena w) in Hpins.
  exists (set_arena (cw_arena w) (ba_storage (cw_arena w)) (ba_capacity (cw_arena w)) (ba_offset (cw_arena w))
    (u64 (ba_live_pins (cw_arena w) - 1)) (ba_generation (cw_arena w))).
  unfold ArenaPin_destroy, ArenaPin_release, BoundedArena_release_pin. cbn [pin_arena].
  rewrite (proj2 (Z.eqb_neq _ 0)) by lia. split; [done|]. split; [done|]. unfold size_max in *.
  split; cbn; [done|done|unfold cw_arena in *; rewrite u64_small by lia; lia|].
  apply (with_pins_valid (cw_pool w) _); [apply u64_range|done].
Qed.

Lemma abandon_ok {A} w p e : pool_valid (cw_pool w) -> 1 <= ba_live_pins (cw_arena w) ->
  exists w', abandon (A := A) (MkArenaPin (Some p)) e w = Ret (Err e, w') /\ cw_states w' = cw_states w /\ live_objects w' = live_objects w /\
    pinned (cw_pool w) (cw_pool w') (-1).
Proof.
  intros Hv Hp. destruct (release_pin_ok w p Hv Hp) as (arena & E & _ & Hd). exists (set_arena_of w arena).
  unfold abandon, release_local_pin. rewrite E. done.
Qed.

(** The result of a creation with operations [k]. *)
Definition creation w (k : CodecOperations) (direction : CodecDirection) (storage : option Z) (limits : CodecLimits)
    (x : Result CodecStream * CodecWorld N C L) : Prop :=
  let '(r, w') := x in
  match r with
  | Ok s => exists p st id, storage = Some p /\ codec_checks direction limits = Ok tt /\
      s = MkCodecStream (Some p) (Some k) (Some (ba_address (cw_arena w))) (ba_generation (cw_arena w))
            (MkArenaPin (Some (ba_address (cw_arena w)))) false /\
      cw_states w' = <[p := st]> (cw_states w) /\ state_operations st = k /\ state_accounting st = start_accounting limits direction /\
      state_id p st = Some id /\ (id ∉ live_objects w) /\ live_objects w' = {[id]} ∪ live_objects w /\ pinned (cw_pool w) (cw_pool w') 1
  | Err _ => cw_states w' = cw_states w /\ live_objects w' = live_objects w /\ pinned (cw_pool w) (cw_pool w') 0
  end.

(** What a creation may assume of its storage: no state is there, and no stream of zlib. *)
Definition storage_free w (storage : option Z) : Prop :=
  forall p, storage = Some p -> cw_states w !! p = None /\ ((NDeflate, p) ∉ live_objects w) /\ ((NInflate, p) ∉ live_objects w).

(** After the pin: the part of the creation that calls the library. *)
Lemma creation_prologue w k direction storage limits (m : Z -> ArenaPin -> CodecWorld N C L -> outcome (Result CodecStream * CodecWorld N C L)) :
  pool_valid (cw_pool w) -> storage_free w storage ->
  (forall p w1, storage = Some p -> codec_checks direction limits = Ok tt -> cw_states w1 = cw_states w -> live_objects w1 = live_objects w ->
     pinned (cw_pool w) (cw_pool w1) 1 -> run_to (m p (MkArenaPin (Some (ba_address (cw_arena w)))) w1) (creation w k direction storage limits)) ->
  run_to
    (TRY _ ⇐ codec_checks direction limits AT w IN
     (let '(pin, w) := codec_pin w in
      TRY pin ⇐ pin AT w IN
      match construct_state storage with Err e => abandon pin e w | Ok state => m state pin w end))
    (creation w k direction storage limits).
Proof using PoolSource0.
  intros Hv Hfree Hm. destruct (codec_checks direction limits) as [[]|e] eqn:Hchecks.
  2:{ eexists. split; [done|]. split; [done|]. split; [done|]. by apply kept_pinned. }
  pose proof (codec_pin_ok w Hv) as Hpin. destruct (codec_pin w) as [r w1]. destruct Hpin as (Hst & Hlog & Hnat & Hr).
  assert (Hlive : live_objects w1 = live_objects w) by (unfold live_objects; by rewrite Hnat).
  destruct r as [pin|e]; [|eexists; split; [done|]; done]. destruct Hr as [-> Hp]. destruct storage as [p|]; cbn [construct_state].
  - by apply Hm.
  - destruct (valid_counts _ Hv) as [Hpins _]. pose proof (pd_pins _ _ _ Hp) as Hd.
    destruct (abandon_ok (A := CodecStream) w1 (ba_address (cw_arena w)) codec_storage_error (pd_valid _ _ _ Hp)) as (w2 & -> & H1 & H2 & H3);
      [unfold cw_arena; lia|].
    eexists. split; [done|]. split; [by rewrite H1|]. split; [by rewrite H2|]. exact (pinned_trans _ _ _ _ _ Hp H3).
Qed.

(** Failure after the library was called: the state is dropped and the pin released. *)
Lemma creation_fails w w1 k direction storage limits p (n : N * PoolState C) l e : storage = Some p -> cw_states w !! p = None ->
  pool_valid (cw_pool w) -> cw_states w1 = cw_states w -> pinned (cw_pool w) (cw_pool w1) 1 -> pool_use (cw_pool w1) n.2 ->
  live (n.1) = live_objects w ->
  forall st, run_to (abandon (MkArenaPin (Some (ba_address (cw_arena w)))) e (MkCodecWorld n l (delete p (<[p := st]> (cw_states w1)))))
    (creation w k direction storage limits).
Proof using PoolSource0.
  intros -> Hfree Hv Hst Hp Hu Hl st. destruct (valid_counts _ Hv) as [Hpins _].
  pose proof (use_pinned _ _ (pd_valid _ _ _ Hp) Hu) as Hp2. pose proof (pinned_trans _ _ _ _ _ Hp Hp2) as Hp3.
  set (w2 := MkCodecWorld n l (delete p (<[p := st]> (cw_states w1)))).
  destruct (abandon_ok (A := CodecStream) w2 (ba_address (cw_arena w)) e) as (w3 & -> & H1 & H2 & H3).
  - exact (pd_valid _ _ _ Hp2).
  - pose proof (pd_pins _ _ _ Hp3) as Hd. change (cw_arena w2) with (ps_arena n.2). cbn in Hd. lia.
  - eexists. split; [done|]. split; [rewrite H1; cbn; by rewrite delete_insert_id, Hst by (by rewrite Hst)|].
    split; [by rewrite H2|]. exact (pinned_trans _ _ _ _ _ Hp3 H3).
Qed.

(** Success: the state owns the new native object. *)
Lemma creation_succeeds w w1 k direction storage limits p (n : N * PoolState C) l st id : storage = Some p ->
  codec_checks direction limits = Ok tt ->
  pool_valid (cw_pool w) -> cw_states w1 = cw_states w -> pinned (cw_pool w) (cw_pool w1) 1 -> pool_use (cw_pool w1) n.2 ->
  state_operations st = k -> state_accounting st = start_accounting limits direction -> state_id p st = Some id ->
  id ∉ live_objects w -> live (n.1) = {[id]} ∪ live_objects w ->
  forall old, run_to (Ret (Ok (created_stream p k (MkArenaPin (Some (ba_address (cw_arena w)))) (MkCodecWorld n l (<[p := st]> (<[p := old]> (cw_states w1))))),
               MkCodecWorld n l (<[p := st]> (<[p := old]> (cw_states w1)))))
    (creation w k direction storage limits).
Proof using PoolSource0.
  intros -> Hch Hv Hst Hp Hu Hk Ha Hid Hnew Hl old. pose proof (use_pinned _ _ (pd_valid _ _ _ Hp) Hu) as Hp2.
  pose proof (pinned_trans _ _ _ _ _ Hp Hp2) as Hp3. eexists. split; [done|]. exists p, st, id.
  split; [done|]. split; [done|]. split; [|by rewrite <- Hst, insert_insert_eq].
  unfold created_stream. change (cw_arena (MkCodecWorld n l _)) with (ps_arena n.2).
  by rewrite (pd_generation _ _ _ Hp3), (pd_address _ _ _ Hp3).
Qed.

Lemma new_live (id : native_id) (x : gset native_id) : id ∈ {[id]} ∪ x.
Proof. clear. set_solver. Qed.
Lemma new_live_ended (id : native_id) (x : gset native_id) : id ∉ x -> ({[id]} ∪ x) ∖ {[id]} = x.
Proof. clear. set_solver. Qed.

Lemma create_zlib_ok direction storage limits log w : pool_valid (cw_pool w) -> storage_free w storage ->
  run_to (create_zlib_ng_codec zlib direction storage limits log w) (creation w zlib_operations direction storage limits).
Proof using PoolSource0 CodecLaws0.
  intros Hv Hfree. apply creation_prologue; [done|done|]. intros p w1 Hsto Hch Hst Hlive Hp. destruct (Hfree p Hsto) as (Hnone & Hd & Hi).
  set (id := (if bool_decide (direction = encode) then NDeflate else NInflate, p) : native_id).
  assert (Hnew : id ∉ live_objects w) by (unfold id; by case_bool_decide).
  assert (Hcall : initializes (acquire := acquire) (reset := reset) (live := live) (cw_native w1) id
    (if bool_decide (direction = encode) then zng_deflateInit2 zlib p (cw_native w1) else zng_inflateInit2 zlib p (cw_native w1))).
  { pose proof (pd_valid _ _ _ Hp). unfold id, live_objects in *. case_bool_decide; [eapply deflateInit_law|eapply inflateInit_law]; (done || by rewrite Hlive). }
  destruct Hcall as (result & n & E & Hu & Hl). cbn zeta. cbn [cw_native set_state]. rewrite E, outcome_bind_Ret. fold (live_objects w1) in Hl. rewrite Hlive in Hl.
  destruct (bool_decide (result = Z_OK)) eqn:Hok; cbn [negb].
  - apply bool_decide_eq_true in Hok. rewrite decide_True in Hl by done. by eapply (creation_succeeds w w1 _ _ _ _ p n (cw_log w1) _ id).
  - apply bool_decide_eq_false in Hok. rewrite decide_False in Hl by done. by eapply (creation_fails w w1 _ _ _ _ p n).
Qed.

Lemma create_brotli_ok direction storage limits log w : pool_valid (cw_pool w) -> storage_free w storage ->
  run_to (create_brotli_codec brotli direction storage limits log w) (creation w brotli_operations direction storage limits).
Proof using PoolSource0 CodecLaws0.
  intros Hv Hfree. apply creation_prologue; [done|done|]. intros p w1 Hsto Hch Hst Hlive Hp. destruct (Hfree p Hsto) as (Hnone & _).
  pose proof (pd_valid _ _ _ Hp) as Hv1. cbn zeta. cbn [cw_native set_state]. case_bool_decide as Hdir.
  - destruct (brotli_create_encoder_law (cw_native w1) Hv1) as (enc & n & -> & Hu & Hl). rewrite outcome_bind_Ret.
    fold (live_objects w1) in Hl. rewrite Hlive in Hl. destruct enc as [i|].
    2:{ rewrite outcome_bind_Ret. cbn zeta. unfold set_state at 1. cbn [cw_states set_native set_state]. rewrite insert_insert_eq.
        by eapply (creation_fails w w1 _ _ _ _ p n). }
    destruct Hl as [Hnew Hl]. pose proof (pool_use_valid _ _ Hu Hv1) as Hv2.
    destruct (brotli_quality_law i 4 n Hv2 ltac:(rewrite Hl; apply new_live)) as (ok & n2 & -> & Hu2 & Hl2). rewrite outcome_bind_Ret.
    pose proof (pool_use_trans _ _ _ Hu Hu2) as Hu12. destruct ok; cbn [negb].
    + rewrite outcome_bind_Ret. eapply (creation_succeeds w w1 _ _ _ _ p n2 (cw_log w1) _ (NBrotliEncoder, i)); try done.
      * cbn. by rewrite bool_decide_eq_true_2.
      * by rewrite Hl2.
    + destruct (brotli_destroy_encoder_law i n2 (pool_use_valid _ _ Hu2 Hv2) ltac:(rewrite Hl2, Hl; apply new_live)) as (n3 & -> & Hu3 & Hl3).
      rewrite !outcome_bind_Ret. cbn zeta. unfold set_state at 1. cbn [cw_states set_native set_state]. rewrite insert_insert_eq.
      eapply (creation_fails w w1 _ _ _ _ p n3); try done; [exact (pool_use_trans _ _ _ Hu12 Hu3)|]. rewrite Hl3, Hl2, Hl. by apply new_live_ended.
  - destruct (brotli_create_decoder_law (cw_native w1) Hv1) as (dec & n & -> & Hu & Hl). rewrite !outcome_bind_Ret.
    fold (live_objects w1) in Hl. rewrite Hlive in Hl. destruct dec as [i|].
    + destruct Hl as [Hnew Hl]. eapply (creation_succeeds w w1 _ _ _ _ p n (cw_log w1) _ (NBrotliDecoder, i)); try done.
      cbn. by rewrite bool_decide_eq_false_2.
    + cbn zeta. unfold set_state at 1. cbn [cw_states set_native set_state]. rewrite insert_insert_eq. by eapply (creation_fails w w1 _ _ _ _ p n).
Qed.

Lemma create_zstd_ok direction storage limits log w : pool_valid (cw_pool w) -> storage_free w storage ->
  run_to (create_zstd_codec zstd direction storage limits log w) (creation w zstd_operations direction storage limits).
Proof using PoolSource0 CodecLaws0.
  intros Hv Hfree. apply creation_prologue; [done|done|]. intros p w1 Hsto Hch Hst Hlive Hp. destruct (Hfree p Hsto) as (Hnone & _).
  pose proof (pd_valid _ _ _ Hp) as Hv1. cbn zeta. cbn [cw_native set_state].
  assert (Hfail : forall n st old e l, pool_use (cw_pool w1) n.2 -> live (n.1) = live_objects w ->
    run_to (abandon (MkArenaPin (Some (ba_address (cw_arena w)))) e (MkCodecWorld n l (delete p (<[p := st]> (<[p := old]> (cw_states w1))))))
      (creation w zstd_operations direction storage limits)).
  { intros n st old e l Hu Hl. rewrite insert_insert_eq. by eapply (creation_fails w w1 _ _ _ _ p n). }
  case_bool_decide as Hdir.
  - destruct (zstd_create_encoder_law (cw_native w1) Hv1) as (enc & n & -> & Hu & Hl). rewrite outcome_bind_Ret.
    fold (live_objects w1) in Hl. rewrite Hlive in Hl. destruct enc as [i|].
    2:{ rewrite !outcome_bind_Ret. destruct (ZSTD_isError zstd 0); exact (Hfail n _ _ _ _ Hu Hl). }
    destruct Hl as [Hnew Hl]. pose proof (pool_use_valid _ _ Hu Hv1) as Hv2.
    destruct (zstd_level_law i n Hv2 ltac:(rewrite Hl; apply new_live)) as (result & n2 & -> & Hu2 & Hl2). rewrite !outcome_bind_Ret.
    pose proof (pool_use_trans _ _ _ Hu Hu2) as Hu12. destruct (ZSTD_isError zstd result) eqn:He.
    + destruct (zstd_free_encoder_law i n2 (pool_use_valid _ _ Hu2 Hv2) ltac:(rewrite Hl2, Hl; apply new_live)) as (n3 & -> & Hu3 & Hl3).
      rewrite !outcome_bind_Ret. refine (Hfail n3 _ _ _ _ (pool_use_trans _ _ _ Hu12 Hu3) _). rewrite Hl3, Hl2, Hl. by apply new_live_ended.
    + eapply (creation_succeeds w w1 _ _ _ _ p n2 (cw_log w1) _ (NZstdEncoder, i)); try done.
      * cbn. by rewrite bool_decide_eq_true_2.
      * by rewrite Hl2.
  - destruct (zstd_create_decoder_law (cw_native w1) Hv1) as (dec & n & -> & Hu & Hl). rewrite outcome_bind_Ret.
    fold (live_objects w1) in Hl. rewrite Hlive in Hl. destruct dec as [i|].
    2:{ rewrite !outcome_bind_Ret. destruct (ZSTD_isError zstd 0); exact (Hfail n _ _ _ _ Hu Hl). }
    destruct Hl as [Hnew Hl]. pose proof (pool_use_valid _ _ Hu Hv1) as Hv2.
    destruct (zstd_reset_law i n Hv2 ltac:(rewrite Hl; apply new_live)) as (result & n2 & -> & Hu2 & Hl2). rewrite !outcome_bind_Ret.
    pose proof (pool_use_trans _ _ _ Hu Hu2) as Hu12. destruct (ZSTD_isError zstd result) eqn:He.
    + destruct (zstd_free_decoder_law i n2 (pool_use_valid _ _ Hu2 Hv2) ltac:(rewrite Hl2, Hl; apply new_live)) as (n3 & -> & Hu3 & Hl3).
      rewrite ?outcome_bind_Ret. refine (Hfail n3 _ _ _ _ (pool_use_trans _ _ _ Hu12 Hu3) _). rewrite Hl3, Hl2, Hl. by apply new_live_ended.
    + eapply (creation_succeeds w w1 _ _ _ _ p n2 (cw_log w1) _ (NZstdDecoder, i)); try done.
      * cbn. by rewrite bool_decide_eq_false_2.
      * by rewrite Hl2.
Qed.
End adapters.
