(* ===== verification/CodecClient.v ===== *)
(** * Clients of codec streams

    Runs of calls on one stream, and clients that hold any number of streams over one pool. *)
From Stdlib Require Import ZArith Lia.
From stdpp Require Import base numbers list gmap option.
From S2P Require Import Prelude Contract CheckedArithmetic Identifiers MemoryBudget Views BoundedArena ArenaSpec NativeMemory NativeSpec.
From S2P Require Import Dependencies Codecs CodecPool CodecSpec.

Set Default Goal Selector "!".
#[local] Open Scope Z_scope.

Inductive codec_call := Process (input : ByteView) (output : MutableByteView) | Finish (output : MutableByteView) | Cancel.

Definition call_input (c : codec_call) : Z := match c with Process i _ => span_size i | _ => 0 end.
Definition call_output (c : codec_call) : Z := match c with Process _ o | Finish o => span_size o | Cancel => 0 end.
Definition call_legal (c : codec_call) : Prop := 0 <= call_input c <= size_max /\ 0 <= call_output c <= size_max.

Abbreviation call_result := (option (Result CodecProgress)).
Definition consumed_by (r : call_result) : Z := match r with Some (Ok p) => cp_input_consumed p | _ => 0 end.
Definition produced_by (r : call_result) : Z := match r with Some (Ok p) => cp_output_produced p | _ => 0 end.
Definition worked (r : call_result) : Z := match r with Some (Ok _) => 1 | _ => 0 end.
Definition sum_over {A} (f : A -> Z) (l : list A) : Z := foldr (fun x n => f x + n) 0 l.

(** A result within the buffers of its call. *)
Definition result_fits (c : codec_call) (r : call_result) : Prop :=
  0 <= consumed_by r <= call_input c /\ 0 <= produced_by r <= call_output c.

(** Nothing succeeds after the end of the stream, a failure of it or a cancellation, and
    nothing is processed once finalization has started. *)
Definition succeeded (r : call_result) : bool := match r with Some (Ok _) => true | _ => false end.
Definition ends_stream (c : codec_call) (r : call_result) : bool :=
  match c, r with Cancel, _ => true | _, Some (Ok p) => cp_finished p | _, _ => false end.
Fixpoint orderly (finalizing ended : bool) (l : list (codec_call * call_result)) : Prop :=
  match l with
  | [] => True
  | (c, r) :: l =>
      (succeeded r = true -> ended = false /\ (finalizing = true -> forall i o, c <> Process i o)) /\
      orderly (finalizing || match c with Finish _ => true | _ => false end) (ended || ends_stream c r) l
  end.

Section clients.
Context {N C L : Type} {acquire : C * Memory -> Z -> Result MutableByteView * (C * Memory)}.
Context {reset : C * Memory -> Result unit * (C * Memory)} `{!PoolSource acquire reset}.
Context (zlib : ZlibNg N C) (brotli : Brotli N C) (zstd : Zstd N C) (live : N -> gset native_id).
Context `{!CodecLaws (acquire := acquire) (reset := reset) zlib brotli zstd live}.
Abbreviation pool_valid := (pool_valid (acquire := acquire) (reset := reset)).
Abbreviation state_valid := (state_valid live).
Abbreviation called := (called (acquire := acquire) (reset := reset) live).
Implicit Types (w : CodecWorld N C L) (st : CodecState L) (s : CodecStream).

Definition exec_call s w (c : codec_call) : outcome (call_result * (CodecStream * CodecWorld N C L)) :=
  match c with
  | Process input output => '(r, w) ← CodecStream_process zlib brotli zstd s input output w; Ret (Some r, (s, w))
  | Finish output => '(r, x) ← CodecStream_finish zlib brotli zstd s output w; Ret (Some r, x)
  | Cancel => w ← CodecStream_cancel s w; Ret (None, (s, w))
  end.

Fixpoint run_calls s w (l : list codec_call) : outcome (list call_result * (CodecStream * CodecWorld N C L)) :=
  match l with
  | [] => Ret ([], (s, w))
  | c :: l => '(r, (s, w)) ← exec_call s w c; '(rs, x) ← run_calls s w l; Ret (r :: rs, x)
  end.

(** An active stream and the state it owns. *)
Record owns w s (p : Z) st (id : native_id) : Prop := {
  ow_pool : pool_valid (cw_pool w);
  ow_stream : s = MkCodecStream (Some p) (Some (state_operations st)) (Some (ba_address (cw_arena w))) (ba_generation (cw_arena w))
    (MkArenaPin (Some (ba_address (cw_arena w)))) (cs_finalizing s);
  ow_state : state_valid w p st id }.

Lemma owns_parts w s p st id : owns w s p st id -> active_parts s w = Some (p, state_operations st).
Proof. intros [_ E _]. rewrite E. unfold active_parts. cbn. by rewrite Z.eqb_refl. Qed.

(** A call that only changed the accounting leaves the stream active. *)
Lemma owns_called w s p st id w' a' finalizing : owns w s p st id -> called w p st w' a' -> accounting_ok a' ->
  ca_direction a' = ca_direction (state_accounting st) ->
  owns w' (MkCodecStream (cs_state s) (cs_operations s) (cs_arena s) (cs_generation s) (cs_pin s) finalizing) p (with_accounting st a') id.
Proof.
  intros [Hv E Hs] [C1 C2 [(K1 & K2 & K3 & _) _] C4] Ha Hd. split; [done| |].
  - unfold cw_arena. rewrite K1, K3, with_accounting_operations. rewrite E. done.
  - destruct Hs as [S1 S2 S3 S4]. split; [by rewrite C1, lookup_insert_eq|by rewrite with_accounting_accounting|by rewrite with_accounting_id|by rewrite C2].
Qed.

(** What one call does to an active stream whose accounting is [a]. *)
Definition call_effect (s : CodecStream) (a a' : CodecAccounting) (c : codec_call) (r : call_result) (s' : CodecStream) : Prop :=
  cs_finalizing s' = cs_finalizing s || match c with Finish _ => true | _ => false end /\
  match c, r with
  | Cancel, None => a' = cancelled_accounting a
  | Process _ _, Some r => accounted a a' (call_input c) (call_output c) r /\ (cs_finalizing s = true -> succeeded (Some r) = false)
  | Finish _, Some r => accounted a a' (call_input c) (call_output c) r
  | _, _ => False
  end.

Lemma accounted_direction a a' n m r : accounted a a' n m r -> ca_direction a' = ca_direction a.
Proof. destruct r as [p|e]; [by intros (_ & _ & _ & ->)|by intros [->|[_ ->]]]. Qed.

Lemma cancelled_ok a : accounting_ok a -> accounting_ok (cancelled_accounting a).
Proof. intros [H1 H2 H3 H4 H5 H6]. by split. Qed.

Lemma stream_eta s : MkCodecStream (cs_state s) (cs_operations s) (cs_arena s) (cs_generation s) (cs_pin s) (cs_finalizing s) = s.
Proof. by destruct s. Qed.

Lemma exec_call_ok w s p st id c : owns w s p st id -> call_legal c ->
  exists r s' w' a', exec_call s w c = Ret (r, (s', w')) /\ owns w' s' p (with_accounting st a') id /\
    call_effect s (state_accounting st) a' c r s' /\ called w p st w' a' /\ cs_pin s' = cs_pin s /\ cs_state s' = cs_state s.
Proof using PoolSource0 CodecLaws0.
  intros Ho Hc. pose proof (owns_parts _ _ _ _ _ Ho) as Hparts. pose proof (ow_pool _ _ _ _ _ Ho) as Hv. pose proof (ow_state _ _ _ _ _ Ho) as Hs.
  destruct Hc as [Hi Hout]. destruct c as [input output|output|]; cbn [exec_call call_input call_output] in *.
  - unfold CodecStream_process, CodecStream_require_valid. rewrite Hparts. cbn [fst snd]. destruct (cs_finalizing s) eqn:Hf.
    + cbn [mbind outcome_bind]. exists (Some (Err codec_finalizing_error)), s, w, (state_accounting st).
      split; [done|]. split; [by rewrite with_accounting_same|]. split; [split; [by rewrite Hf|]; split; [by left|done]|].
      split; [by apply called_nothing; [apply Hs|]|done].
    + destruct (process_ok zlib brotli zstd live p input output false w st id Hs Hv Hi Hout) as ([r w'] & -> & a' & Hcall & Ha & Hacc).
      rewrite outcome_bind_Ret. exists (Some r), s, w', a'. split; [done|]. split.
      { rewrite <- (stream_eta s) at 1. apply (owns_called _ _ _ _ _ _ _ _ Ho Hcall Ha). by eapply accounted_direction. }
      split; [|done]. split; [by rewrite Hf|]. split; [done|]. by rewrite Hf.
  - unfold CodecStream_finish, CodecStream_require_valid. rewrite Hparts. cbn [fst snd].
    destruct (process_ok zlib brotli zstd live p empty_span output true w st id Hs Hv Hi Hout) as ([r w'] & -> & a' & Hcall & Ha & Hacc).
    rewrite !outcome_bind_Ret. eexists (Some r), _, w', a'. split; [done|]. split.
    { apply (owns_called _ _ _ _ _ _ _ _ Ho Hcall Ha). by eapply accounted_direction. }
    split; [|done]. split; [by rewrite orb_true_r|]. done.
  - unfold CodecStream_cancel. rewrite Hparts. destruct (cancel_ok live p w st id Hs Hv) as (w' & -> & Hcall). rewrite outcome_bind_Ret.
    exists None, s, w', (cancelled_accounting (state_accounting st)). split; [done|]. split.
    { rewrite <- (stream_eta s) at 1. apply (owns_called _ _ _ _ _ _ _ _ Ho Hcall); [|done]. apply cancelled_ok, Hs. }
    split; [|done]. split; [by rewrite orb_false_r|done].
Qed.

(** ** Totals of a run *)
Definition closed (a : CodecAccounting) : bool := ca_cancelled a || ca_finished a || ca_failed a.

Lemma in_use_open a : in_use a -> closed a = false.
Proof. unfold closed. by intros (-> & -> & -> & _). Qed.

(** What a call adds to the totals, and when it closes the stream. *)
Record counted (a a' : CodecAccounting) (c : codec_call) (r : call_result) : Prop := {
  co_limits : ca_limits a' = ca_limits a;
  co_input : ca_input_bytes a' = ca_input_bytes a + consumed_by r;
  co_output : ca_output_bytes a' = ca_output_bytes a + produced_by r;
  co_work : ca_work_calls a + worked r <= ca_work_calls a';
  co_fits : result_fits c r;
  co_open : succeeded r = true -> closed a = false;
  co_closes : closed a || ends_stream c r = true -> closed a' = true }.

Lemma accounted_counted a a' c r : call_legal c -> c <> Cancel ->
  accounted a a' (call_input c) (call_output c) r -> counted a a' c (Some r).
Proof.
  intros [Hi Ho] Hc Hacc. destruct r as [p|e].
  - destruct Hacc as (Hu & H1 & H2 & ->). pose proof (in_use_open _ Hu) as Hopen. split; [done|done|done|cbn; lia|done|done|].
    rewrite Hopen. destruct c; [| |done]; cbn [orb ends_stream]; unfold closed; cbn; by intros ->.
  - assert (Hz : result_fits c (Some (Err e))) by (split; cbn; lia).
    assert (He : ends_stream c (Some (Err e)) = false) by (by destruct c).
    destruct Hacc as [->|[Hu ->]]; (split; [done|cbn; lia|cbn; lia|cbn; lia|done|done|]); rewrite He, orb_false_r; [done|].
    intros _. unfold closed. cbn. done.
Qed.

Lemma effect_counted s a a' c r s' : call_legal c -> call_effect s a a' c r s' -> counted a a' c r.
Proof.
  intros Hl [_ He]. destruct c as [i o|o|].
  - destruct r as [r|]; [|done]. apply accounted_counted; [done|done|apply He].
  - destruct r as [r|]; [|done]. apply accounted_counted; [done|done|apply He].
  - destruct r as [r|]; [done|]. subst a'. split; cbn; done || lia.
Qed.

(** The totals of a run of calls, from an accounting [a]. *)
Definition run_within (a : CodecAccounting) (s : CodecStream) (l : list codec_call) (rs : list call_result) : Prop :=
  Forall2 result_fits l rs /\
  ca_input_bytes a + sum_over consumed_by rs <= cl_maximum_input_bytes (ca_limits a) /\
  ca_output_bytes a + sum_over produced_by rs <= cl_maximum_output_bytes (ca_limits a) /\
  ca_work_calls a + sum_over worked rs <= cl_maximum_work_calls (ca_limits a) /\
  orderly (cs_finalizing s) (closed a) (zip l rs).

Lemma orderly_weaken finalizing ended ended' l : (ended' = true -> ended = true) -> orderly finalizing ended l -> orderly finalizing ended' l.
Proof.
  revert finalizing ended ended'. induction l as [|[c r] l IH]; intros finalizing ended ended' H; [done|]. cbn [orderly]. intros [H1 H2].
  split.
  - intros Hs. destruct (H1 Hs) as [E ?]. split; [|done]. destruct ended'; [|done]. rewrite H in E by done. done.
  - eapply IH; [|exact H2]. rewrite !orb_true_iff. intros [?|?]; auto.
Qed.

Lemma run_calls_ok l : forall w s p st id, owns w s p st id -> Forall call_legal l ->
  exists rs s' w' a', run_calls s w l = Ret (rs, (s', w')) /\ owns w' s' p (with_accounting st a') id /\
    run_within (state_accounting st) s l rs.
Proof using PoolSource0 CodecLaws0.
  induction l as [|c l IH]; intros w s p st id Ho Hl.
  - exists [], s, w, (state_accounting st). split; [done|]. split; [by rewrite with_accounting_same|].
    destruct (sv_accounting _ _ _ _ _ (ow_state _ _ _ _ _ Ho)) as [H1 H2 H3 H4 H5 H6]. repeat split; cbn; (lia || constructor).
  - apply Forall_cons_1 in Hl as [Hc Hl]. destruct (exec_call_ok w s p st id c Ho Hc) as (r & s1 & w1 & a1 & E & Ho1 & He & _).
    cbn [run_calls]. rewrite E, outcome_bind_Ret. destruct (IH w1 s1 p _ id Ho1 Hl) as (rs & s2 & w2 & a2 & -> & Ho2 & Hr).
    rewrite outcome_bind_Ret. exists (r :: rs), s2, w2, a2. split; [done|].
    split; [by destruct st|]. rewrite with_accounting_accounting in Hr.
    pose proof (effect_counted _ _ _ _ _ _ Hc He) as [D1 D2 D3 D4 D5 D6 D7]. destruct Hr as (R1 & R2 & R3 & R4 & R5).
    rewrite D1 in *. split; [by constructor|]. cbn [sum_over foldr]. fold (sum_over consumed_by rs) (sum_over produced_by rs) (sum_over worked rs).
    split; [lia|]. split; [lia|]. split; [lia|]. cbn [zip zip_with orderly]. split.
    + intros Hs. split; [by apply D6|]. intros Hf i o ->. destruct He as [_ He]. destruct r as [r|]; [|done].
      destruct He as [_ He]. by rewrite (He Hf) in Hs.
    + destruct He as [<- _]. eapply orderly_weaken; [|exact R5]. done.
Qed.

(** ** Creation and use *)
Definition create_codec (k : CodecOperations) (direction : CodecDirection) (storage : option Z) (limits : CodecLimits)
    (log : DependencyLogSink L) w : outcome (Result CodecStream * CodecWorld N C L) :=
  match k with
  | zlib_operations => create_zlib_ng_codec zlib direction storage limits log w
  | brotli_operations => create_brotli_codec brotli direction storage limits log w
  | zstd_operations => create_zstd_codec zstd direction storage limits log w
  end.

Definition limits_range (limits : CodecLimits) : Prop :=
  0 <= cl_maximum_input_bytes limits <= size_max /\ 0 <= cl_maximum_output_bytes limits <= size_max /\
  0 <= cl_maximum_work_calls limits <= u32_max.

Lemma create_codec_ok k direction storage limits log w : pool_valid (cw_pool w) -> storage_free live w storage ->
  run_to (create_codec k direction storage limits log w)
    (creation (acquire := acquire) (reset := reset) live w k direction storage limits).
Proof using PoolSource0 CodecLaws0.
  intros Hv Hf. destruct k; [by eapply create_zlib_ok|by eapply create_brotli_ok|by eapply create_zstd_ok].
Qed.

Lemma creation_owns k direction storage limits w s w' : limits_range limits ->
  creation (acquire := acquire) (reset := reset) live w k direction storage limits (Ok s, w') ->
  exists p st id, storage = Some p /\ owns w' s p st id /\ state_accounting st = start_accounting limits direction /\ cs_finalizing s = false /\
    cw_states w' = <[p := st]> (cw_states w) /\ (id ∉ live_objects live w) /\ live_objects live w' = {[id]} ∪ live_objects live w /\
    state_operations st = k /\ pinned (acquire := acquire) (reset := reset) (cw_pool w) (cw_pool w') 1.
Proof.
  intros (R1 & R2 & R3) (p & st & id & -> & Hch & -> & Hst & Hk & Ha & Hid & Hnew & Hl & Hp). exists p, st, id.
  split; [done|]. split; [|done]. destruct Hp as [P1 P2 P3 P4]. split; [done| |].
  - cbn [cs_finalizing]. unfold cw_arena. by rewrite P1, P2, Hk.
  - split; [by rewrite Hst, lookup_insert_eq| |done|rewrite Hl; apply new_live].
    rewrite Ha. split; cbn; lia.
Qed.

(** C12: a codec stream stays within the limits it was created with, whatever it is fed and
    whatever the library answers: every run of calls returns; together the calls consume at
    most the input limit, produce at most the output limit and succeed at most as often as the
    work limit allows; no call reports more than its buffers hold; and nothing succeeds after
    the stream has finished or was cancelled, nor is anything processed once finalization has
    started. *)
Theorem codec_stream_bounded (k : CodecOperations) (direction : CodecDirection) (storage : option Z) (limits : CodecLimits)
    (log : DependencyLogSink L) (w : CodecWorld N C L) (s : CodecStream) (w' : CodecWorld N C L) (l : list codec_call) :
  pool_valid (cw_pool w) -> storage_free live w storage -> limits_range limits ->
  create_codec k direction storage limits log w = Ret (Ok s, w') -> Forall call_legal l ->
  exists rs s' w'', run_calls s w' l = Ret (rs, (s', w'')) /\ Forall2 result_fits l rs /\
    sum_over consumed_by rs <= cl_maximum_input_bytes limits /\ sum_over produced_by rs <= cl_maximum_output_bytes limits /\
    sum_over worked rs <= cl_maximum_work_calls limits /\ orderly false false (zip l rs).
Proof using PoolSource0 CodecLaws0.
  intros Hv Hf Hlim E Hl. destruct (create_codec_ok k direction storage limits log w Hv Hf) as (x & E' & Hc).
  rewrite E in E'. injection E' as <-. apply creation_owns in Hc as (p & st & id & _ & Ho & Ha & Hfin & _); [|done].
  destruct (run_calls_ok l w' s p st id Ho Hl) as (rs & s' & w'' & a' & Hrun & _ & (H1 & H2 & H3 & H4 & H5)).
  rewrite Ha, Hfin in *. exists rs, s', w''. cbn in H2, H3, H4. done.
Qed.

(** ** Clients with many streams *)
Record Client := MkClient { cl_streams : gmap nat CodecStream; cl_world : CodecWorld N C L }.

Inductive client_op :=
  | KCreate (x : nat) (k : CodecOperations) (direction : CodecDirection) (storage : option Z) (limits : CodecLimits) (log : DependencyLogSink L)
  | KCall (x : nat) (c : codec_call)
  | KMove (x y : nat)
  | KAssign (x y : nat)
  | KDestroy (x : nat)
  | KReset (boundary : ArenaQuiescentBoundary).

Definition set_pool_of w (s : PoolState C) : CodecWorld N C L := set_native w (fst (cw_native w), s).

(** [KMove x y] constructs [y] from [x]; [KAssign x y] assigns [y] to [x]. *)
Definition exec_client (c : Client) (op : client_op) : outcome Client :=
  let w := cl_world c in
  match op with
  | KCreate x k direction storage limits log =>
      '(r, w) ← create_codec k direction storage limits log w;
      Ret (MkClient (match r with Ok s => <[x := s]> (cl_streams c) | Err _ => cl_streams c end) w)
  | KCall x call =>
      match cl_streams c !! x with
      | None => Stop Undefined
      | Some s => '(_, (s, w)) ← exec_call s w call; Ret (MkClient (<[x := s]> (cl_streams c)) w)
      end
  | KMove x y =>
      match cl_streams c !! x with
      | None => Stop Undefined
      | Some s => '(t, s, w) ← CodecStream_move_construct s w; Ret (MkClient (<[y := t]> (<[x := s]> (cl_streams c))) w)
      end
  | KAssign x y =>
      match cl_streams c !! x, cl_streams c !! y with
      | Some s, Some t => '(s, t, w) ← CodecStream_move_assign zlib brotli zstd s t w; Ret (MkClient (<[x := s]> (<[y := t]> (cl_streams c))) w)
      | _, _ => Stop Undefined
      end
  | KDestroy x =>
      match cl_streams c !! x with
      | None => Stop Undefined
      | Some s => w ← CodecStream_destroy zlib brotli zstd s w; Ret (MkClient (delete x (cl_streams c)) w)
      end
  | KReset boundary =>
      '(_, s) ← exec_pool (cw_pool w) (PReset boundary); Ret (MkClient (cl_streams c) (set_pool_of w s))
  end.

(** The storage of a new stream is not in use by another one. *)
Definition client_legal (c : Client) (op : client_op) : Prop :=
  match op with
  | KCreate x _ _ storage limits _ => cl_streams c !! x = None /\ limits_range limits /\
      forall p y s, storage = Some p -> cl_streams c !! y = Some s -> cs_state s <> Some p
  | KCall x call => is_Some (cl_streams c !! x) /\ call_legal call
  | KMove x y => is_Some (cl_streams c !! x) /\ cl_streams c !! y = None
  | KAssign x y => is_Some (cl_streams c !! x) /\ is_Some (cl_streams c !! y) /\ x <> y
  | KDestroy x => is_Some (cl_streams c !! x)
  | KReset _ => True
  end.

(** Every stream is empty or owns a state of its own; every state, every live native object and
    every pin belongs to a stream. *)
Record client_ok (c : Client) : Prop := {
  ck_pool : pool_valid (cw_pool (cl_world c));
  ck_streams : forall x s, cl_streams c !! x = Some s -> s = empty_stream \/ exists p st id, owns (cl_world c) s p st id;
  ck_apart : forall x y s t p, cl_streams c !! x = Some s -> cl_streams c !! y = Some t -> cs_state s = Some p -> cs_state t = Some p -> x = y;
  ck_states : forall p, is_Some (cw_states (cl_world c) !! p) -> exists x s, cl_streams c !! x = Some s /\ cs_state s = Some p;
  ck_live : forall id, id ∈ live_objects live (cl_world c) -> exists p st, cw_states (cl_world c) !! p = Some st /\ state_id p st = Some id;
  ck_ids : forall p q st st' id, cw_states (cl_world c) !! p = Some st -> cw_states (cl_world c) !! q = Some st' ->
    state_id p st = Some id -> state_id q st' = Some id -> p = q;
  ck_pins : ba_live_pins (cw_arena (cl_world c)) = Z.of_nat (size (cw_states (cl_world c))) }.

Lemma owns_state w s p st id : owns w s p st id -> cs_state s = Some p.
Proof. intros [_ -> _]. done. Qed.

(** A stream is not affected by what happens elsewhere. *)
Lemma owns_elsewhere w w' s p st id : owns w s p st id -> pool_valid (cw_pool w') ->
  ba_generation (cw_arena w') = ba_generation (cw_arena w) -> ba_address (cw_arena w') = ba_address (cw_arena w) ->
  cw_states w' !! p = cw_states w !! p -> id ∈ live_objects live w' -> owns w' s p st id.
Proof.
  intros [Hv E [S1 S2 S3 S4]] Hv' Hg Ha Hst Hl. split; [done|by rewrite Hg, Ha|]. split; [by rewrite Hst|done|done|done].
Qed.

Lemma client_owner c x s : client_ok c -> cl_streams c !! x = Some s -> s = empty_stream \/ exists p st id, owns (cl_world c) s p st id.
Proof. intros Hc. apply (ck_streams _ Hc). Qed.

(** ** Calls *)
Lemma call_client c x s p st id s' w' a' : client_ok c -> cl_streams c !! x = Some s -> owns (cl_world c) s p st id ->
  owns w' s' p (with_accounting st a') id -> called (cl_world c) p st w' a' -> ca_direction a' = ca_direction (state_accounting st) ->
  client_ok (MkClient (<[x := s']> (cl_streams c)) w').
Proof.
  intros Hc Hx Ho Ho' [D1 D2 [(K1 & K2 & K3 & K4) _] D4] Hd. pose proof (owns_state _ _ _ _ _ Ho) as Hsp. pose proof (owns_state _ _ _ _ _ Ho') as Hsp'.
  destruct Hc as [C1 C2 C3 C4 C5 C6 C7]. pose proof (sv_state _ _ _ _ _ (ow_state _ _ _ _ _ Ho)) as Hp.
  assert (Hst : forall q st1, cw_states w' !! q = Some st1 -> exists st0, cw_states (cl_world c) !! q = Some st0 /\ state_id q st1 = state_id q st0).
  { intros q st1. rewrite D1. destruct (decide (q = p)) as [->|Hne].
    - rewrite lookup_insert_eq. intros [= <-]. exists st. split; [done|]. by apply with_accounting_id.
    - rewrite lookup_insert_ne by done. eauto. }
  assert (Hstate : forall y t, <[x := s']> (cl_streams c) !! y = Some t -> exists t0, cl_streams c !! y = Some t0 /\ cs_state t = cs_state t0).
  { intros y t. destruct (decide (y = x)) as [->|Hne].
    - rewrite lookup_insert_eq. intros [= <-]. exists s. split; [done|congruence].
    - rewrite lookup_insert_ne by done. eauto. }
  split; cbn [cl_streams cl_world].
  - done.
  - intros y t Hy. destruct (decide (y = x)) as [->|Hne].
    + rewrite lookup_insert_eq in Hy. injection Hy as <-. right. eauto.
    + rewrite lookup_insert_ne in Hy by done. destruct (C2 y t Hy) as [->|(q & st1 & id1 & Hq)]; [by left|]. right. exists q, st1, id1.
      assert (q <> p) by (intros ->; apply Hne; eapply (C3 y x); eauto using owns_state).
      eapply owns_elsewhere; [exact Hq|done|done|done|by rewrite D1, lookup_insert_ne|rewrite D2; apply Hq].
  - intros y z t u q Hy Hz. destruct (Hstate _ _ Hy) as (t0 & Hy0 & ->). destruct (Hstate _ _ Hz) as (u0 & Hz0 & ->). by apply (C3 y z).
  - intros q Hq. assert (Hq0 : is_Some (cw_states (cl_world c) !! q)) by (destruct Hq as [st1 Hq]; destruct (Hst _ _ Hq) as (? & -> & _); eauto).
    destruct (C4 q Hq0) as (y & t & Hy & Ht). destruct (decide (y = x)) as [->|Hne].
    + exists x, s'. rewrite lookup_insert_eq. split; [done|]. congruence.
    + exists y, t. by rewrite lookup_insert_ne.
  - intros i Hi. rewrite D2 in Hi. destruct (C5 i Hi) as (q & st1 & Hq & Hid). destruct (decide (q = p)) as [->|Hne].
    + exists p, (with_accounting st a'). rewrite D1, lookup_insert_eq. split; [done|]. rewrite with_accounting_id by done. congruence.
    + exists q, st1. by rewrite D1, lookup_insert_ne.
  - intros q1 q2 st1 st2 i H1 H2 I1 I2. destruct (Hst _ _ H1) as (st3 & H3 & E3). destruct (Hst _ _ H2) as (st4 & H4 & E4).
    apply (C6 q1 q2 st3 st4 i); congruence.
  - unfold cw_arena. rewrite K2. fold (cw_arena (cl_world c)). rewrite C7, D1, map_size_insert_Some; [done|]. by rewrite Hp.
Qed.

(** ** Release *)
Lemma release_empty w : CodecStream_release zlib brotli zstd empty_stream w = Ret (empty_stream, w).
Proof. unfold CodecStream_release. cbn. unfold set_arena_of, set_native, cw_arena. by destruct w as [[n []] ? ?]. Qed.

Lemma release_owned w s p st id : owns w s p st id -> 1 <= ba_live_pins (cw_arena w) ->
  exists w', CodecStream_release zlib brotli zstd s w = Ret (empty_stream, w') /\ cw_states w' = delete p (cw_states w) /\
    live_objects live w' = live_objects live w ∖ {[id]} /\ pinned (acquire := acquire) (reset := reset) (cw_pool w) (cw_pool w') (-1).
Proof using PoolSource0 CodecLaws0.
  intros Ho Hp. unfold CodecStream_release. rewrite (owns_parts _ _ _ _ _ Ho).
  destruct (destroy_ok zlib brotli zstd live p w st id (ow_state _ _ _ _ _ Ho) (ow_pool _ _ _ _ _ Ho)) as (w1 & -> & D1 & D2 & D3 & D4).
  rewrite outcome_bind_Ret, (ow_stream _ _ _ _ _ Ho). cbn [cs_pin]. unfold ArenaPin_move_assign.
  destruct (release_pin_ok w1 (ba_address (cw_arena w)) D4) as (arena & _ & -> & Hd).
  { destruct D3 as [(_ & K2 & _) _]. unfold cw_arena in *. lia. }
  rewrite !outcome_bind_Ret. cbn [pin_arena]. exists (set_arena_of w1 arena). split; [done|]. split; [done|]. split; [done|].
  exact (pinned_trans _ _ _ 0 (-1) (kept_pinned _ _ D3 D4) Hd).
Qed.

Lemma release_client c x s : client_ok c -> cl_streams c !! x = Some s ->
  exists w', CodecStream_release zlib brotli zstd s (cl_world c) = Ret (empty_stream, w') /\
    client_ok (MkClient (<[x := empty_stream]> (cl_streams c)) w').
Proof using PoolSource0 CodecLaws0.
  intros Hc Hx. destruct (client_owner c x s Hc Hx) as [->|(p & st & id & Ho)].
  { exists (cl_world c). split; [apply release_empty|]. rewrite insert_id by done. by destruct c. }
  pose proof Hc as [C1 C2 C3 C4 C5 C6 C7]. pose proof (sv_state _ _ _ _ _ (ow_state _ _ _ _ _ Ho)) as Hp.
  assert (Hsize : size (cw_states (cl_world c)) = S (size (delete p (cw_states (cl_world c))))).
  { rewrite <- (insert_id (cw_states (cl_world c)) p st) at 1 by done. rewrite <- insert_delete_eq. by rewrite map_size_insert_None by apply lookup_delete_eq. }
  destruct (release_owned (cl_world c) s p st id Ho) as (w' & E & D1 & D2 & [P1 P2 P3 P4]); [lia|].
  exists w'. split; [done|]. pose proof (owns_state _ _ _ _ _ Ho) as Hsp.
  assert (Hother : forall y t, <[x := empty_stream]> (cl_streams c) !! y = Some t -> is_Some (cs_state t) -> y <> x /\ cl_streams c !! y = Some t).
  { intros y t. destruct (decide (y = x)) as [->|Hne]; [rewrite lookup_insert_eq; intros [= <-] [q Hq]; done|by rewrite lookup_insert_ne]. }
  split; cbn [cl_streams cl_world].
  - done.
  - intros y t Hy. destruct (decide (y = x)) as [->|Hne]; [rewrite lookup_insert_eq in Hy; injection Hy as <-; by left|].
    rewrite lookup_insert_ne in Hy by done. destruct (C2 y t Hy) as [->|(q & st1 & id1 & Hq)]; [by left|]. right. exists q, st1, id1.
    assert (Hqp : q <> p) by (intros ->; apply Hne; eapply (C3 y x); eauto using owns_state).
    destruct (ow_state _ _ _ _ _ Hq) as [Q1 Q2 Q3 Q4]. destruct (ow_state _ _ _ _ _ Ho) as [O1 O2 O3 O4].
    eapply owns_elsewhere; [exact Hq|done|done|done|by rewrite D1, lookup_delete_ne|rewrite D2].
    apply elem_of_difference. split; [done|]. rewrite elem_of_singleton. intros ->. by apply Hqp, (C6 q p st1 st id).
  - intros y z t u q Hy Hz Ht Hu. destruct (Hother y t Hy ltac:(eauto)) as [_ Hy']. destruct (Hother z u Hz ltac:(eauto)) as [_ Hz']. by apply (C3 y z t u q).
  - intros q Hq. rewrite D1 in Hq. destruct (decide (q = p)) as [->|Hne]; [rewrite lookup_delete_eq in Hq; by destruct Hq|].
    rewrite lookup_delete_ne in Hq by done. destruct (C4 q Hq) as (y & t & Hy & Ht). exists y, t.
    rewrite lookup_insert_ne; [done|]. intros ->. congruence.
  - intros i Hi. rewrite D2 in Hi. apply elem_of_difference in Hi as [Hi Hne]. rewrite elem_of_singleton in Hne.
    destruct (C5 i Hi) as (q & st1 & Hq & Hid). exists q, st1. rewrite D1, lookup_delete_ne; [done|]. intros ->.
    apply Hne. pose proof (sv_id _ _ _ _ _ (ow_state _ _ _ _ _ Ho)). congruence.
  - intros q1 q2 st1 st2 i. rewrite D1. intros H1 H2. apply lookup_delete_Some in H1 as [_ H1]. apply lookup_delete_Some in H2 as [_ H2]. by apply (C6 q1 q2 st1 st2 i).
  - unfold cw_arena in *. rewrite D1, P3. lia.
Qed.

(** ** Moves *)
Lemma move_from_empty w s : CodecStream_move_from empty_stream s w = Ret (s, empty_stream, w).
Proof.
  unfold CodecStream_move_from. cbn. unfold set_arena_of, set_native, cw_arena. destruct w as [[n []] ? ?], s as [? ? ? ? [] ?]. done.
Qed.

Lemma move_client c x y t : client_ok c -> x <> y -> (forall s, cl_streams c !! x = Some s -> s = empty_stream) -> cl_streams c !! y = Some t ->
  client_ok (MkClient (<[x := t]> (<[y := empty_stream]> (cl_streams c))) (cl_world c)).
Proof.
  intros [C1 C2 C3 C4 C5 C6 C7] Hne Hx Hy.
  assert (Hold : forall z u, <[x := t]> (<[y := empty_stream]> (cl_streams c)) !! z = Some u ->
    u = empty_stream \/ (z = x /\ u = t) \/ (z <> x /\ z <> y /\ cl_streams c !! z = Some u)).
  { intros z u. destruct (decide (z = x)) as [->|H1]; [rewrite lookup_insert_eq; intros [= <-]; auto|]. rewrite lookup_insert_ne by done.
    destruct (decide (z = y)) as [->|H2]; [rewrite lookup_insert_eq; intros [= <-]; auto|]. rewrite lookup_insert_ne by done. auto. }
  split; cbn [cl_streams cl_world]; try done.
  - intros z u Hz. destruct (Hold z u Hz) as [->|[[-> ->]|(_ & _ & Hz')]]; [by left|by apply (C2 y)|by apply (C2 z)].
  - intros z1 z2 u1 u2 q H1 H2 Q1 Q2. destruct (Hold z1 u1 H1) as [->|[[-> ->]|(N1 & M1 & H1')]]; [done| |].
    + destruct (Hold z2 u2 H2) as [->|[[-> ->]|(N2 & M2 & H2')]]; [done|done|]. exfalso. apply M2. eapply (C3 z2 y); eauto.
    + destruct (Hold z2 u2 H2) as [->|[[-> ->]|(N2 & M2 & H2')]]; [done| |eapply (C3 z1 z2); eauto]. exfalso. apply M1. eapply (C3 z1 y); eauto.
  - intros q Hq. destruct (C4 q Hq) as (z & u & Hz & Hu). destruct (decide (z = y)) as [->|H1].
    + exists x, t. rewrite lookup_insert_eq. split; [done|]. congruence.
    + exists z, u. assert (z <> x) by (intros ->; apply Hx in Hz; by subst u). by rewrite !lookup_insert_ne.
Qed.

Lemma drop_client c x s : client_ok c -> cl_streams c !! x = Some s -> cs_state s = None -> client_ok (MkClient (delete x (cl_streams c)) (cl_world c)).
Proof.
  intros [C1 C2 C3 C4 C5 C6 C7] Hx Hs. split; cbn [cl_streams cl_world]; try done.
  - intros y t Hy. apply lookup_delete_Some in Hy as [_ Hy]. by apply (C2 y).
  - intros y z t u q Hy Hz. apply lookup_delete_Some in Hy as [_ Hy]. apply lookup_delete_Some in Hz as [_ Hz]. by apply (C3 y z t u q).
  - intros q Hq. destruct (C4 q Hq) as (z & u & Hz & Hu). exists z, u. rewrite lookup_delete_ne; [done|]. intros <-. congruence.
Qed.

(** ** Creation *)
Lemma client_storage_free c storage : client_ok c -> (forall p y s, storage = Some p -> cl_streams c !! y = Some s -> cs_state s <> Some p) ->
  storage_free live (cl_world c) storage.
Proof.
  intros [C1 C2 C3 C4 C5 C6 C7] Hfree p Hp.
  assert (Hnone : cw_states (cl_world c) !! p = None).
  { apply eq_None_not_Some. intros Hs. destruct (C4 p Hs) as (y & s & Hy & Hst). by apply (Hfree p y s). }
  assert (Hz : forall k, k = NDeflate \/ k = NInflate -> (k, p) ∉ live_objects live (cl_world c)).
  { intros k Hk Hi. destruct (C5 _ Hi) as (q & st & Hq & Hid).
    assert (q = p) as ->; [|congruence]. destruct st as [s|s|s]; cbn in Hid.
    - destruct (zs_initialized s); [|done]. by injection Hid as _ ->.
    - destruct (bs_encoder s), (bs_decoder s); try done; case_bool_decide; try done; injection Hid as <- _; by destruct Hk.
    - destruct (ts_encoder s), (ts_decoder s); try done; case_bool_decide; try done; injection Hid as <- _; by destruct Hk. }
  split; [done|]. split; apply Hz; auto.
Qed.

Lemma create_client c x k direction storage limits log : client_ok c -> client_legal c (KCreate x k direction storage limits log) ->
  run_to (exec_client c (KCreate x k direction storage limits log)) client_ok.
Proof using PoolSource0 CodecLaws0.
  intros Hc (Hx & Hlim & Hfree). pose proof (client_storage_free c storage Hc Hfree) as Hsf. cbn [exec_client].
  destruct (create_codec_ok k direction storage limits log (cl_world c) (ck_pool _ Hc) Hsf) as ([r w'] & -> & Hr).
  rewrite outcome_bind_Ret. eexists. split; [done|]. pose proof Hc as [C1 C2 C3 C4 C5 C6 C7]. destruct r as [s|e].
  - apply creation_owns in Hr as (p & st & id & -> & Ho & _ & _ & Hst & Hnew & Hl & Hk & [P1 P2 P3 P4]); [|done].
    destruct (Hsf p eq_refl) as (Hnone & _). pose proof (owns_state _ _ _ _ _ Ho) as Hsp.
    pose proof (sv_id _ _ _ _ _ (ow_state _ _ _ _ _ Ho)) as Hid.
    split; cbn [cl_streams cl_world].
    + done.
    + intros y t Hy. destruct (decide (y = x)) as [->|Hne]; [rewrite lookup_insert_eq in Hy; injection Hy as <-; right; eauto|].
      rewrite lookup_insert_ne in Hy by done. destruct (C2 y t Hy) as [->|(q & st1 & id1 & Hq)]; [by left|]. right. exists q, st1, id1.
      eapply owns_elsewhere; [exact Hq|done|done|done| |rewrite Hl; apply elem_of_union; right; apply Hq].
      rewrite Hst, lookup_insert_ne; [done|]. intros <-. rewrite (sv_state _ _ _ _ _ (ow_state _ _ _ _ _ Hq)) in Hnone. done.
    + intros y z t u q Hy Hz Ht Hu. destruct (decide (y = x)) as [->|N1], (decide (z = x)) as [->|N2]; [done| | |].
      * rewrite lookup_insert_eq in Hy. injection Hy as <-. rewrite lookup_insert_ne in Hz by done. exfalso. apply (Hfree p z u); [done|done|congruence].
      * rewrite lookup_insert_eq in Hz. injection Hz as <-. rewrite lookup_insert_ne in Hy by done. exfalso. apply (Hfree p y t); [done|done|congruence].
      * rewrite lookup_insert_ne in Hy, Hz by done. by apply (C3 y z t u q).
    + intros q Hq. rewrite Hst in Hq. destruct (decide (q = p)) as [->|Hne]; [exists x, s; by rewrite lookup_insert_eq|].
      rewrite lookup_insert_ne in Hq by done. destruct (C4 q Hq) as (y & t & Hy & Ht). exists y, t.
      rewrite lookup_insert_ne; [done|]. intros <-. congruence.
    + intros i Hi. rewrite Hl in Hi. apply elem_of_union in Hi as [->%elem_of_singleton|Hi]; [exists p, st; by rewrite Hst, lookup_insert_eq|].
      destruct (C5 i Hi) as (q & st1 & Hq & Hi1). exists q, st1. rewrite Hst, lookup_insert_ne; [done|]. intros <-. congruence.
    + assert (Hold : forall q st1 i, cw_states (cl_world c) !! q = Some st1 -> state_id q st1 = Some i -> q <> p -> i <> id).
      { intros q st1 i Hq Hi Hne ->. destruct (C4 q ltac:(eauto)) as (y & t & Hy & Ht). destruct (C2 y t Hy) as [->|(q' & st' & id' & Hq')]; [done|].
        rewrite (owns_state _ _ _ _ _ Hq') in Ht. injection Ht as ->. destruct (ow_state _ _ _ _ _ Hq') as [O1 O2 O3 O4].
        apply Hnew. assert (id = id') as -> by congruence. done. }
      intros q1 q2 st1 st2 i. rewrite Hst. destruct (decide (q1 = p)) as [->|N1], (decide (q2 = p)) as [->|N2];
        rewrite ?lookup_insert_eq, ?(lookup_insert_ne _ _ _ _ (not_eq_sym N1)), ?(lookup_insert_ne _ _ _ _ (not_eq_sym N2)).
      * done.
      * intros [= <-] H2 I1 I2. exfalso. apply (Hold q2 st2 i); congruence.
      * intros H1 [= <-] I1 I2. exfalso. apply (Hold q1 st1 i); congruence.
      * apply (C6 q1 q2 st1 st2 i).
    + unfold cw_arena in *. rewrite P3, Hst, map_size_insert_None by done. lia.
  - destruct Hr as (R1 & R2 & [P1 P2 P3 P4]). split; cbn [cl_streams cl_world]; rewrite ?R1, ?R2; try done.
    + intros y t Hy. destruct (C2 y t Hy) as [->|(q & st1 & id1 & Hq)]; [by left|]. right. exists q, st1, id1.
      eapply owns_elsewhere; [exact Hq|done|done|done|by rewrite R1|rewrite R2; apply Hq].
    + unfold cw_arena in *. rewrite P3. lia.
Qed.

(** ** Resets *)
Lemma reset_client c boundary : client_ok c -> run_to (exec_client c (KReset boundary)) client_ok.
Proof using PoolSource0.
  intros Hc. cbn [exec_client]. pose proof Hc as [C1 C2 C3 C4 C5 C6 C7].
  destruct (pool_reset_run (cw_pool (cl_world c)) boundary C1) as (s' & -> & Hv & Hpins & Haddr & Hgen). rewrite outcome_bind_Ret.
  eexists. split; [done|]. split; cbn [cl_streams cl_world]; try done.
  - intros y t Hy. destruct (C2 y t Hy) as [->|(q & st1 & id1 & Hq)]; [by left|]. right. exists q, st1, id1.
    assert (Hnz : ba_live_pins (cw_arena (cl_world c)) <> 0).
    { rewrite C7. assert (size (cw_states (cl_world c)) <> 0%nat); [|lia]. intros E%map_size_empty_inv.
      pose proof (sv_state _ _ _ _ _ (ow_state _ _ _ _ _ Hq)) as Hs. by rewrite E, lookup_empty in Hs. }
    eapply owns_elsewhere; [exact Hq|done|exact (Hgen Hnz)|exact Haddr|done|apply Hq].
  - unfold cw_arena, cw_pool in *. cbn [cw_native set_pool_of set_native snd]. by rewrite Hpins.
Qed.

Lemma exec_client_ok c op : client_ok c -> client_legal c op -> run_to (exec_client c op) client_ok.
Proof using PoolSource0 CodecLaws0.
  intros Hc Hl. destruct op as [x k d sto lim log|x call|x y|x y|x|b]; cbn [client_legal] in Hl.
  - by apply create_client.
  - destruct Hl as [[s Hx] Hcall]. cbn [exec_client]. rewrite Hx. destruct (client_owner c x s Hc Hx) as [->|(p & st & id & Ho)].
    + assert (E : exists r, exec_call empty_stream (cl_world c) call = Ret (r, (empty_stream, cl_world c))) by (destruct call; by eexists).
      destruct E as [r ->]. rewrite outcome_bind_Ret. eexists. split; [done|]. rewrite insert_id by done. by destruct c.
    + destruct (exec_call_ok (cl_world c) s p st id call Ho Hcall) as (r & s' & w' & a' & -> & Ho' & Heff & Hcalled & _).
      rewrite outcome_bind_Ret. eexists. split; [done|]. eapply call_client; [done|exact Hx|exact Ho|exact Ho'|exact Hcalled|].
      destruct Heff as [_ He]. destruct call as [i o|o|], r as [r|]; try done; [|by eapply accounted_direction|by subst a'].
      destruct He as [He _]. by eapply accounted_direction.
  - destruct Hl as [[s Hx] Hy]. cbn [exec_client]. rewrite Hx. unfold CodecStream_move_construct. rewrite move_from_empty, outcome_bind_Ret.
    eexists. split; [done|]. apply move_client; [done|intros ->; congruence|intros s' Hs; congruence|done].
  - destruct Hl as ([s Hx] & [t Hy] & Hne). cbn [exec_client]. rewrite Hx, Hy. unfold CodecStream_move_assign.
    destruct (release_client c x s Hc Hx) as (w' & -> & Hc'). rewrite outcome_bind_Ret, move_from_empty, outcome_bind_Ret.
    eexists. split; [done|]. pose proof (move_client _ x y t Hc' Hne) as Hm. cbn [cl_streams cl_world] in Hm.
    rewrite lookup_insert_eq, lookup_insert_ne in Hm by done. specialize (Hm ltac:(by intros ? [= <-]) Hy).
    by rewrite (insert_insert_ne _ y x), insert_insert_eq in Hm by done.
  - destruct Hl as [s Hx]. cbn [exec_client]. rewrite Hx. unfold CodecStream_destroy. destruct (release_client c x s Hc Hx) as (w' & -> & Hc').
    rewrite !outcome_bind_Ret. eexists. split; [done|]. pose proof (drop_client _ x empty_stream Hc') as Hd. cbn [cl_streams cl_world] in Hd.
    rewrite lookup_insert_eq, delete_insert_eq in Hd. by apply Hd.
  - by apply reset_client.
Qed.

(** Client states that legal operations lead to. *)
Inductive client_reachable (c0 : Client) : Client -> Prop :=
  | reach_start : client_reachable c0 c0
  | reach_step c op c' : client_reachable c0 c -> client_legal c op -> exec_client c op = Ret c' -> client_reachable c0 c'.

Lemma start_client_ok w : pool_valid (cw_pool w) -> cw_states w = ∅ -> live_objects live w = ∅ -> ba_live_pins (cw_arena w) = 0 ->
  client_ok (MkClient ∅ w).
Proof.
  intros Hv Hst Hl Hp. split; cbn [cl_streams cl_world]; rewrite ?Hst, ?Hl; try done.
  - intros q [? Hq]. by rewrite lookup_empty in Hq.
Qed.

Lemma client_reachable_ok w c : pool_valid (cw_pool w) -> cw_states w = ∅ -> live_objects live w = ∅ -> ba_live_pins (cw_arena w) = 0 ->
  client_reachable (MkClient ∅ w) c -> client_ok c.
Proof using PoolSource0 CodecLaws0.
  intros Hv Hst Hl Hp. induction 1 as [|c op c' _ IH Hleg Hrun]; [by apply start_client_ok|].
  destruct (exec_client_ok c op IH Hleg) as (c2 & E & Hc2). rewrite Hrun in E. by injection E as ->.
Qed.

(** C11: codec streams are safe to create, move, use and destroy in any order, over any libraries
    that keep their contracts: no operation is undefined or ends the process; every stream is
    empty or owns a state and a native object that no other stream owns; every live native
    object belongs to a stream, so none leaks and none is ended twice or used after its end; an
    active stream is never invalidated by a reset of the arena; the pool keeps implementing a
    heap; and once no stream is active nothing native is left and the arena has no pin. *)
Theorem codec_clients_safe (w : CodecWorld N C L) (c : Client) (op : client_op) :
  pool_valid (cw_pool w) -> cw_states w = ∅ -> live_objects live w = ∅ -> ba_live_pins (cw_arena w) = 0 ->
  client_reachable (MkClient ∅ w) c -> client_legal c op ->
  exists c', exec_client c op = Ret c' /\ pool_valid (cw_pool (cl_world c')) /\
    (forall x s, cl_streams c' !! x = Some s -> s = empty_stream \/
       exists p st id, cs_state s = Some p /\ CodecStream_require_valid s (cl_world c') = Ok (p, state_operations st) /\
         cw_states (cl_world c') !! p = Some st /\ state_id p st = Some id /\ id ∈ live_objects live (cl_world c')) /\
    (forall x y s t p, cl_streams c' !! x = Some s -> cl_streams c' !! y = Some t -> cs_state s = Some p -> cs_state t = Some p -> x = y) /\
    (forall id, id ∈ live_objects live (cl_world c') -> exists x s p st, cl_streams c' !! x = Some s /\ cs_state s = Some p /\
       cw_states (cl_world c') !! p = Some st /\ state_id p st = Some id) /\
    ((forall x s, cl_streams c' !! x = Some s -> s = empty_stream) ->
       live_objects live (cl_world c') = ∅ /\ ba_live_pins (cw_arena (cl_world c')) = 0).
Proof using PoolSource0 CodecLaws0.
  intros Hv Hst Hl Hp Hreach Hleg. pose proof (client_reachable_ok w c Hv Hst Hl Hp Hreach) as Hc.
  destruct (exec_client_ok c op Hc Hleg) as (c' & E & [C1 C2 C3 C4 C5 C6 C7]). exists c'. split; [done|]. split; [done|].
  assert (Hlive : forall id, id ∈ live_objects live (cl_world c') -> exists x s p st, cl_streams c' !! x = Some s /\ cs_state s = Some p /\
    cw_states (cl_world c') !! p = Some st /\ state_id p st = Some id).
  { intros id Hi. destruct (C5 id Hi) as (p & st & Hs & Hid). destruct (C4 p ltac:(eauto)) as (x & s & Hx & Hsp). by exists x, s, p, st. }
  split; [|split; [done|split; [done|]]].
  - intros x s Hx. destruct (C2 x s Hx) as [->|(p & st & id & Ho)]; [by left|]. right. exists p, st, id.
    split; [exact (owns_state _ _ _ _ _ Ho)|]. unfold CodecStream_require_valid. rewrite (owns_parts _ _ _ _ _ Ho).
    destruct (ow_state _ _ _ _ _ Ho) as [S1 S2 S3 S4]. done.
  - intros Hempty. split.
    + apply set_eq. intros id. split; [|by intros ?%not_elem_of_empty]. intros Hi. destruct (Hlive id Hi) as (x & s & p & st & Hx & Hs & _).
      by rewrite (Hempty x s Hx) in Hs.
    + rewrite C7. assert (cw_states (cl_world c') = ∅) as ->; [|done]. apply map_eq. intros p. rewrite lookup_empty. apply eq_None_not_Some.
      intros Hs. destruct (C4 p Hs) as (x & s & Hx & Hsp). by rewrite (Hempty x s Hx) in Hsp.
Qed.
End clients.

(** ** Libraries that copy *)
Module Copying.
Abbreviation Native := (gset native_id * PoolState nat)%type.

(** The state is the set of live objects; a transfer copies as much as fits. *)
Definition holding {A : Type} (id : native_id) (n : Native) (a : A) : outcome A := if decide (id ∈ n.1) then Ret a else Stop Undefined.
Definition open_object (id : native_id) (n : Native) : Native := ({[id]} ∪ n.1, n.2).
Definition end_object (id : native_id) (n : Native) : Native := (n.1 ∖ {[id]}, n.2).
Definition moved (b : native_buffers) : Z := Z.min (nb_in_size b) (nb_out_size b).
Definition create_object (k : native_kind) (n : Native) : outcome (option Z * Native) :=
  if decide ((k, 0) ∈ n.1) then Ret (None, n) else Ret (Some 0, open_object (k, 0) n).
Definition left_of (b : native_buffers) : Z * Z := (nb_in_size b - moved b, nb_out_size b - moved b).

Definition zlib : ZlibNg (gset native_id) nat := {|
  zng_deflateInit2 p n := Ret (Z_OK, open_object (NDeflate, p) n);
  zng_inflateInit2 p n := Ret (Z_OK, open_object (NInflate, p) n);
  zng_deflate p f b n := holding (NDeflate, p) n (match f with Z_FINISH => Z_STREAM_END | Z_NO_FLUSH => Z_OK end, (left_of b).1, (left_of b).2, n);
  zng_inflate p f b n := holding (NInflate, p) n (Z_OK, (left_of b).1, (left_of b).2, n);
  zng_deflateEnd p n := holding (NDeflate, p) n (end_object (NDeflate, p) n);
  zng_inflateEnd p n := holding (NInflate, p) n (end_object (NInflate, p) n);
  zlib_code_value _ := 0 |}.

Definition brotli : Brotli (gset native_id) nat := {|
  BrotliEncoderCreateInstance := create_object NBrotliEncoder;
  BrotliEncoderSetQuality i q n := holding (NBrotliEncoder, i) n (true, n);
  BrotliEncoderCompressStream i o b n := holding (NBrotliEncoder, i) n (true, (left_of b).1, (left_of b).2, n);
  BrotliEncoderIsFinished i n := holding (NBrotliEncoder, i) n false;
  BrotliEncoderHasMoreOutput i n := holding (NBrotliEncoder, i) n false;
  BrotliEncoderDestroyInstance i n := holding (NBrotliEncoder, i) n (end_object (NBrotliEncoder, i) n);
  BrotliDecoderCreateInstance := create_object NBrotliDecoder;
  BrotliDecoderDecompressStream i b n := holding (NBrotliDecoder, i) n (BROTLI_DECODER_RESULT_NEEDS_MORE_INPUT, (left_of b).1, (left_of b).2, n);
  BrotliDecoderGetErrorCode i n := holding (NBrotliDecoder, i) n (brotli_error_unlisted 0);
  BrotliDecoderDestroyInstance i n := holding (NBrotliDecoder, i) n (end_object (NBrotliDecoder, i) n);
  brotli_code_value _ := 0 |}.

Definition zstd : Zstd (gset native_id) nat := {|
  ZSTD_createCCtx_advanced := create_object NZstdEncoder;
  ZSTD_CCtx_setLevel i n := holding (NZstdEncoder, i) n (0, n);
  ZSTD_compressStream2 i d b n := holding (NZstdEncoder, i) n (0, moved b, moved b, n);
  ZSTD_freeCCtx i n := holding (NZstdEncoder, i) n (end_object (NZstdEncoder, i) n);
  ZSTD_createDCtx_advanced := create_object NZstdDecoder;
  ZSTD_DCtx_reset_session i n := holding (NZstdDecoder, i) n (0, n);
  ZSTD_decompressStream i b n := holding (NZstdDecoder, i) n (1, moved b, moved b, n);
  ZSTD_freeDCtx i n := holding (NZstdDecoder, i) n (end_object (NZstdDecoder, i) n);
  ZSTD_isError r := r <? 0;
  ZSTD_getErrorCode r := - r;
  ZSTD_error_memory_allocation := 64 |}.

Lemma holding_ok {A : Type} id n (a : A) : id ∈ n.1 -> holding id n a = Ret a.
Proof. intros H. unfold holding. by rewrite decide_True. Qed.

#[export] Instance laws : CodecLaws (acquire := pool_acquire) (reset := pool_reset) zlib brotli zstd (fun x => x).
Proof.
  assert (Hends : forall id n, id ∈ n.1 -> ends (acquire := pool_acquire) (reset := pool_reset) (live := fun x => x) n (holding id n (end_object id n)) id).
  { intros id n Hi. rewrite holding_ok by done. exists (end_object id n). split; [done|]. split; [apply use_nothing|done]. }
  assert (Hcreates : forall k n, creates (acquire := pool_acquire) (reset := pool_reset) (live := fun x => x) n k (create_object k n)).
  { intros k n. unfold create_object, creates, calls. case_decide; eexists _, _; (split; [done|]; split; [apply use_nothing|done]). }
  assert (Hmoves : forall (A : Type) (r : A) id n b, id ∈ n.1 ->
    transfers (acquire := pool_acquire) (reset := pool_reset) (live := fun x => x) n b (holding id n (r, (left_of b).1, (left_of b).2, n)) /\
    transfers (acquire := pool_acquire) (reset := pool_reset) (live := fun x => x) n b (holding id n (r, moved b, moved b, n))).
  { intros A r id n b Hi. rewrite !holding_ok by done. split; intros H1 H2; eexists _, n; (split; [done|]; split; [apply use_nothing|]); cbn; unfold moved; (split; [lia|split; [lia|done]]). }
  assert (Hsame : forall (A : Type) (r : A) id n, id ∈ n.1 -> calls (acquire := pool_acquire) (reset := pool_reset) (live := fun x => x) n (holding id n (r, n)) (fun _ l => l = n.1)).
  { intros A r id n Hi. rewrite holding_ok by done. exists r, n. split; [done|]. split; [apply use_nothing|done]. }
  split; cbn; intros.
  1-2: (eexists _, _; split; [done|]; split; [apply use_nothing|done]).
  all: try by apply Hends.
  all: try by apply Hcreates.
  all: try by apply Hmoves.
  all: try by apply Hsame.
  all: eexists; by apply holding_ok.
Qed.

Definition world : CodecWorld (gset native_id) nat unit := MkCodecWorld (∅, pool_start) tt ∅.
Definition silent : DependencyLogSink unit := MkDependencyLogSink None.
Definition limits : CodecLimits := MkCodecLimits 100 10 5.
End Copying.
#[export] Existing Instance Copying.laws.

Definition demo_creation : outcome (Result CodecStream * CodecWorld (gset native_id) nat unit) :=
  create_codec Copying.zlib Copying.brotli Copying.zstd zlib_operations decode (Some 7) Copying.limits Copying.silent Copying.world.
Definition demo_calls : list codec_call :=
  [Process (MkSpan None 8) (MkSpan None 8); Process (MkSpan None 8) (MkSpan None 8); Cancel; Finish (MkSpan None 1)].

Lemma demo_creation_succeeds : match demo_creation with Ret (Ok _, _) => true | _ => false end = true.
Proof. vm_compute. reflexivity. Qed.

Lemma codec_stream_bounded_witness :
  exists s w', demo_creation = Ret (Ok s, w') /\
    exists rs s' w'', run_calls Copying.zlib Copying.brotli Copying.zstd s w' demo_calls = Ret (rs, (s', w'')) /\
      sum_over produced_by rs <= 10 /\ sum_over worked rs <= 5.
Proof.
  pose proof demo_creation_succeeds as Hok. destruct demo_creation as [[[s|e] w']|] eqn:E; [|discriminate Hok|discriminate Hok].
  exists s, w'. split; [reflexivity|].
  assert (Hv : pool_valid (acquire := pool_acquire) (reset := pool_reset) (cw_pool Copying.world)) by exact (ex_intro _ ∅ pool_start_implements).
  assert (Hf : storage_free (fun x => x) Copying.world (Some 7)) by (intros p _; split; [reflexivity|]; split; apply not_elem_of_empty).
  assert (Hr : limits_range Copying.limits) by (unfold limits_range, size_max, u64_max, u32_max; cbn; lia).
  assert (Hl : Forall call_legal demo_calls) by (repeat constructor; cbn; unfold size_max, u64_max; lia).
  destruct (codec_stream_bounded Copying.zlib Copying.brotli Copying.zstd (fun x => x) zlib_operations decode (Some 7) Copying.limits
    Copying.silent Copying.world s w' demo_calls Hv Hf Hr E Hl) as (rs & s' & w'' & Hrun & _ & _ & H1 & H2 & _).
  exists rs, s', w''. split; [exact Hrun|]. split; [exact H1|exact H2].
Defined.

Lemma codec_clients_safe_witness :
  exists c', exec_client Copying.zlib Copying.brotli Copying.zstd (MkClient ∅ Copying.world)
      (KCreate 0 zlib_operations encode (Some 7) Copying.limits Copying.silent) = Ret c' /\
    forall x y s t p, cl_streams c' !! x = Some s -> cl_streams c' !! y = Some t -> cs_state s = Some p -> cs_state t = Some p -> x = y.
Proof.
  assert (Hv : pool_valid (acquire := pool_acquire) (reset := pool_reset) (cw_pool Copying.world)) by exact (ex_intro _ ∅ pool_start_implements).
  assert (Hr : limits_range Copying.limits) by (unfold limits_range, size_max, u64_max, u32_max; cbn; lia).
  assert (Hleg : client_legal (MkClient ∅ Copying.world) (KCreate 0 zlib_operations encode (Some 7) Copying.limits Copying.silent)).
  { split; [reflexivity|]. split; [exact Hr|]. intros p y s _ H. cbn [cl_streams] in H. rewrite lookup_empty in H. discriminate H. }
  destruct (codec_clients_safe Copying.zlib Copying.brotli Copying.zstd (fun x => x) Copying.world
    (MkClient ∅ Copying.world) (KCreate 0 zlib_operations encode (Some 7) Copying.limits Copying.silent) Hv eq_refl eq_refl eq_refl
    (reach_start _ _ _ _) Hleg) as (c' & Hrun & _ & _ & Hapart & _).
  exists c'. split; [exact Hrun|exact Hapart].
Defined.
