(* ===== verification/StructuredData.v ===== *)
(** * Structured data

    Models [src/adapters/contract/laghu/adapters/structured_data.hpp] and
    [src/adapters/structured_data.cpp]: JSON documents parsed into a caller's arena, checked
    against the caller's limits by an explicit traversal, and read through borrowed values.

    The JSON library is a record of functions.  Its documents, values, iterators and
    allocators are handles of types of its own, and every call reads or changes its state [N];
    [Stop] is a call the library leaves undefined, such as one on a freed document.  A pointer
    to characters is the array of characters it points to.  [DocumentState] objects live in
    arena memory and are found by their address; the traversal's frames and the key scratch are
    arrays of cells that are not initialised until they are written. *)
From S2P Require Import Prelude Contract CheckedArithmetic Identifiers MemoryBudget Views BoundedArena Dependencies.
From Stdlib Require Import ZArith Lia String Ascii.
From stdpp Require Import base numbers list gmap option.

Set Default Goal Selector "!".
#[local] Open Scope Z_scope.

#[export] Instance pointer_countable : Countable pointer.
Proof.
  refine (inj_countable' (fun p => (ptr_block p, ptr_offset p)) (fun x => MkPointer (fst x) (snd x)) _).
  by intros [].
Defined.

(** ** Limits, kinds and the traversal's data *)
Record JsonDocumentLimits := MkJsonDocumentLimits {
  jl_maximum_document_bytes : Z; jl_maximum_nesting : Z; jl_maximum_object_members : Z;
  jl_maximum_string_bytes : Z; jl_maximum_aggregate_values : Z }.

Inductive JsonValueKind :=
  | kind_null | kind_boolean | kind_unsigned_integer | kind_signed_integer | kind_real | kind_text
  | kind_array | kind_object.
#[export] Instance JsonValueKind_eq_dec : EqDecision JsonValueKind.
Proof. solve_decision. Defined.

Inductive TraversalState := state_enter | state_array | state_object.

Record ObjectKey := MkObjectKey { ok_characters : list ascii; ok_size : Z }.

Record DocumentState := MkDocumentState { ds_active : bool; ds_epoch : Z }.
Definition DocumentState_default : DocumentState := MkDocumentState false 1.

(** On the LP64 platforms the code is built for. *)
Definition sizeof_ObjectKey : Z := 16.
Definition alignof_ObjectKey : Z := 8.
Definition sizeof_DocumentState : Z := 16.
Definition alignof_DocumentState : Z := 8.
Definition alignof_TraversalFrame : Z := 8.
Definition alignof_max_align_t : Z := 16.
Definition yyjson_pool_minimum_bytes : Z := 8 * 8.

Definition json_limits_error := core_error invalid_input "JSON document, nesting, string, and aggregate limits must be positive".
Definition json_nesting_overflow_error := core_error overflow "JSON nesting limit overflows traversal storage".
Definition json_member_overflow_error := core_error overflow "JSON member limit overflows duplicate-key storage".
Definition json_members_error := core_error invalid_range "JSON object exceeds the caller member limit".
Definition json_scratch_error := core_error invalid_state "JSON duplicate-key storage is unavailable".
Definition json_key_error := core_error invalid_range "JSON object key exceeds the caller string limit".
Definition json_inconsistent_error := core_error invalid_state "yyjson object member iteration is inconsistent".
Definition json_incomplete_error := core_error invalid_state "yyjson object member iteration is incomplete".
Definition json_duplicate_error := core_error invalid_input "JSON object contains duplicate members".
Definition json_aggregate_error := core_error invalid_range "JSON document exceeds the caller aggregate limit".
Definition json_native_error := core_error invalid_state "yyjson returned an invalid document".
Definition json_nesting_error := core_error invalid_range "JSON document exceeds the caller nesting limit".
Definition json_string_error := core_error invalid_range "JSON string exceeds the caller string limit".
Definition json_unsupported_error := core_error invalid_state "yyjson returned an unsupported value kind".
Definition json_kind_error := core_error invalid_state "JSON value does not have the requested kind".
Definition json_empty_error := core_error invalid_input "JSON document must not be empty".
Definition json_bytes_error := core_error invalid_range "JSON document exceeds the caller byte limit".
Definition json_usage_error := core_error invalid_state "bounded arena usage exceeds its capacity".
Definition json_pool_error := core_error exhaustion "bounded arena cannot hold a yyjson allocation pool".
Definition json_pool_init_error := core_error exhaustion "bounded arena cannot initialize a yyjson allocation pool".
Definition json_rootless_error := core_error invalid_state "yyjson document has no root value".
Definition json_document_error := core_error invalid_state "JSON document is no longer valid".
Definition json_document_reset_error := core_error invalid_state "JSON document was invalidated by an arena reset".
Definition json_value_error := core_error invalid_state "JSON value is no longer valid".
Definition json_value_reset_error := core_error invalid_state "JSON value was invalidated by an arena reset".
Definition json_text_error := core_error invalid_state "yyjson string has no character data".
Definition json_index_error := core_error invalid_range "JSON array index is outside the array".
Definition json_lookup_error := core_error invalid_range "JSON lookup key exceeds the caller string limit".
Definition json_member_error := core_error invalid_input "JSON object does not contain the requested member".

(** ** Keys *)

(** [std::memcmp] on the first [n] characters, as unsigned bytes. *)
Fixpoint memcmp (n : nat) (left right : list ascii) : outcome Z :=
  match n with
  | O => Ret 0
  | S n' =>
      match left, right with
      | a :: left', b :: right' =>
          if (N_of_ascii a <? N_of_ascii b)%N then Ret (-1)
          else if (N_of_ascii b <? N_of_ascii a)%N then Ret 1
          else memcmp n' left' right'
      | _, _ => Stop Undefined
      end
  end.

Definition key_less (left right : ObjectKey) : outcome bool :=
  let common_size := if ok_size left <? ok_size right then ok_size left else ok_size right in
  comparison ← (if common_size =? 0 then Ret 0
                else memcmp (Z.to_nat common_size) (ok_characters left) (ok_characters right));
  Ret ((comparison <? 0) || ((comparison =? 0) && (ok_size left <? ok_size right))).

Definition equal_key (left right : ObjectKey) : outcome bool :=
  if negb (ok_size left =? ok_size right) then Ret false else
  if ok_size left =? 0 then Ret true else
  comparison ← memcmp (Z.to_nat (ok_size left)) (ok_characters left) (ok_characters right);
  Ret (comparison =? 0).

(** [std::sort] with a comparator that can fail; the order of equivalent elements is
    unspecified, and equivalent keys have the same characters. *)
Fixpoint sort_insert {A} (less : A -> A -> outcome bool) (x : A) (l : list A) : outcome (list A) :=
  match l with
  | [] => Ret [x]
  | y :: l' => b ← less y x; if (b : bool) then l'' ← sort_insert less x l'; Ret (y :: l'') else Ret (x :: l)
  end.
Fixpoint std_sort {A} (less : A -> A -> outcome bool) (l : list A) : outcome (list A) :=
  match l with
  | [] => Ret []
  | x :: l' => l'' ← std_sort less l'; sort_insert less x l''
  end.

(** The first [n] cells of an array, all of which must have been written. *)
Definition read_cells {A} (n : nat) (cells : list (option A)) : outcome (list A) :=
  match mapM id (take n cells) with
  | Some l => if (length l =? n)%nat then Ret l else Stop Undefined
  | None => Stop Undefined
  end.

(** The loop that compares neighbours, from [index] on with [previous] before it. *)
Fixpoint duplicate_loop (previous : ObjectKey) (l : list ObjectKey) : outcome (Result unit) :=
  match l with
  | [] => Ret (Ok tt)
  | key :: l' =>
      equal ← equal_key previous key;
      if (equal : bool) then Ret (Err json_duplicate_error) else duplicate_loop key l'
  end.

Definition reject_duplicates (l : list ObjectKey) : outcome (Result unit) :=
  match l with [] => Ret (Ok tt) | key :: l' => duplicate_loop key l' end.

(** ** The library *)
Section structured_data.
Context {N A D V IA IO C L : Type}.
Implicit Types (n : N) (limits : JsonDocumentLimits).

(** [sizeof(TraversalFrame)] depends on the library's iterators.  Reading returns a document
    or the error code; initialising a pool returns the allocator or fails. *)
Record Yyjson := MkYyjson {
  sizeof_TraversalFrame : Z;
  YYJSON_READ_ERROR_MEMORY_ALLOCATION : Z;
  yyjson_alc_pool_init : MutableByteView -> N -> outcome (option A * N);
  yyjson_read_opts : Memory -> MutableByteView -> A -> N -> outcome ((D + Z) * N);
  yyjson_doc_free : D -> N -> outcome N;
  yyjson_doc_get_root : N -> D -> outcome (option V);
  yyjson_doc_get_val_count : N -> D -> outcome Z;
  yyjson_is_null : N -> V -> outcome bool;
  yyjson_is_bool : N -> V -> outcome bool;
  yyjson_is_uint : N -> V -> outcome bool;
  yyjson_is_sint : N -> V -> outcome bool;
  yyjson_is_real : N -> V -> outcome bool;
  yyjson_is_str : N -> V -> outcome bool;
  yyjson_is_arr : N -> V -> outcome bool;
  yyjson_is_obj : N -> V -> outcome bool;
  yyjson_get_bool : N -> V -> outcome bool;
  yyjson_get_uint : N -> V -> outcome Z;
  yyjson_get_sint : N -> V -> outcome Z;
  yyjson_get_real : N -> V -> outcome Z;
  yyjson_get_str : N -> V -> outcome (option (list ascii));
  yyjson_get_len : N -> V -> outcome Z;
  yyjson_arr_size : N -> V -> outcome Z;
  yyjson_arr_get : N -> V -> Z -> outcome (option V);
  yyjson_arr_iter_with : N -> V -> outcome IA;
  yyjson_arr_iter_next : N -> IA -> outcome (option V * IA);
  yyjson_obj_size : N -> V -> outcome Z;
  yyjson_obj_getn : N -> V -> list ascii -> Z -> outcome (option V);
  yyjson_obj_iter_with : N -> V -> outcome IO;
  yyjson_obj_iter_next : N -> IO -> outcome (option V * IO);
  yyjson_obj_iter_get_val : N -> V -> outcome (option V) }.

Context (lib : Yyjson).

(** A default-constructed iterator is [None]; using one is undefined. *)
Record TraversalFrame := MkTraversalFrame {
  tf_value : V; tf_depth : Z; tf_state : TraversalState;
  tf_array_iterator : option IA; tf_object_iterator : option IO }.

Definition yyjson_error (status : DependencyStatus) (native_code : Z) (log_sink : DependencyLogSink L) (l : L) :
    Error * L :=
  let e := normalize_dependency_error id_yyjson op_json_parse status native_code in
  (e, log_dependency_error log_sink l e).

Definition validate_limits limits : Result unit :=
  if (jl_maximum_document_bytes limits =? 0) || (jl_maximum_nesting limits =? 0) ||
     (jl_maximum_string_bytes limits =? 0) || (jl_maximum_aggregate_values limits =? 0)
  then Err json_limits_error else
  if size_max / sizeof_TraversalFrame lib <? jl_maximum_nesting limits then Err json_nesting_overflow_error else
  if size_max / sizeof_ObjectKey <? jl_maximum_object_members limits then Err json_member_overflow_error
  else Ok tt.

(** ** Validation of one object *)
Abbreviation scratch := (list (option ObjectKey)).

(** The loop over the keys; returns the scratch and the number of keys.  [key_count] reaches
    [member_count] within [member_count] rounds and the next key is then refused. *)
Fixpoint collect_keys (fuel : nat) n (iterator : IO) (key_scratch : scratch) (key_count member_count : Z)
    limits : outcome (Result Z * scratch) :=
  match fuel with
  | O => Stop OutOfFuel
  | S fuel =>
      '(key, iterator) ← yyjson_obj_iter_next lib n iterator;
      match key with
      | None => Ret (Ok key_count, key_scratch)
      | Some key =>
          characters ← yyjson_get_str lib n key;
          match characters with
          | None => Ret (Err json_key_error, key_scratch)
          | Some characters =>
              size ← yyjson_get_len lib n key;
              if jl_maximum_string_bytes limits <? size then Ret (Err json_key_error, key_scratch) else
              if key_count =? member_count then Ret (Err json_inconsistent_error, key_scratch) else
              key_scratch ← set_slot key_scratch key_count (Some (MkObjectKey characters size));
              collect_keys fuel n iterator key_scratch (u64 (key_count + 1)) member_count limits
          end
      end
  end.

Definition validate_object n (object : V) (key_scratch : option scratch) (key_capacity : Z) limits :
    outcome (Result unit * option scratch) :=
  member_count ← yyjson_obj_size lib n object;
  if jl_maximum_object_members limits <? member_count then Ret (Err json_members_error, key_scratch) else
  if (key_capacity <? member_count) ||
     (negb (member_count =? 0) && match key_scratch with None => true | Some _ => false end)
  then Ret (Err json_scratch_error, key_scratch) else
  iterator ← yyjson_obj_iter_with lib n object;
  '(keys, cells) ← collect_keys (S (S (Z.to_nat member_count))) n iterator (default [] key_scratch) 0
                     member_count limits;
  let key_scratch := match key_scratch with None => None | Some _ => Some cells end in
  match keys with
  | Err e => Ret (Err e, key_scratch)
  | Ok key_count =>
      if negb (key_count =? member_count) then Ret (Err json_incomplete_error, key_scratch) else
      unsorted ← read_cells (Z.to_nat key_count) cells;
      sorted ← std_sort key_less unsorted;
      let key_scratch :=
        match key_scratch with
        | None => None
        | Some cells => Some (map Some sorted ++ drop (Z.to_nat key_count) cells)
        end in
      valid ← reject_duplicates sorted;
      Ret (valid, key_scratch)
  end.

(** ** Validation of the document *)
Abbreviation frame_array := (list (option TraversalFrame)).

(** The top frame; reading a cell that was not written is undefined. *)
Definition read_frame (frames : frame_array) (index : Z) : outcome TraversalFrame :=
  cell ← slot frames index;
  match cell with None => Stop Undefined | Some frame => Ret frame end.

Definition set_iterator (frame : TraversalFrame) (state : TraversalState) (ia : option IA) (io : option IO) :
    TraversalFrame :=
  MkTraversalFrame (tf_value frame) (tf_depth frame) state ia io.

Definition enter_frame (child : V) (depth : Z) : TraversalFrame :=
  MkTraversalFrame child depth state_enter None None.

(** A round of the loop either returns, or goes on with the frames, their number and the
    scratch. *)
Inductive round :=
  | Done (r : Result unit) (key_scratch : option scratch)
  | Continue (frames : frame_array) (frame_count : Z) (key_scratch : option scratch).

(** [state == enter] *)
Definition enter_round n (frame : TraversalFrame) (frames : frame_array) (frame_count : Z)
    (key_scratch : option scratch) (key_capacity : Z) limits : outcome round :=
  is_str ← yyjson_is_str lib n (tf_value frame);
  long ← (if (is_str : bool) then
            size ← yyjson_get_len lib n (tf_value frame); Ret (jl_maximum_string_bytes limits <? size)
          else Ret false);
  if (long : bool) then Ret (Done (Err json_string_error) key_scratch) else
  is_arr ← yyjson_is_arr lib n (tf_value frame);
  if (is_arr : bool) then
    iterator ← yyjson_arr_iter_with lib n (tf_value frame);
    frames ← set_slot frames (frame_count - 1)
               (Some (set_iterator frame state_array (Some iterator) (tf_object_iterator frame)));
    Ret (Continue frames frame_count key_scratch)
  else
  is_obj ← yyjson_is_obj lib n (tf_value frame);
  if (is_obj : bool) then
    '(valid, key_scratch) ← validate_object n (tf_value frame) key_scratch key_capacity limits;
    match valid with
    | Err e => Ret (Done (Err e) key_scratch)
    | Ok _ =>
        iterator ← yyjson_obj_iter_with lib n (tf_value frame);
        frames ← set_slot frames (frame_count - 1)
                   (Some (set_iterator frame state_object (tf_array_iterator frame) (Some iterator)));
        Ret (Continue frames frame_count key_scratch)
    end
  else Ret (Continue frames (frame_count - 1) key_scratch).

(** The next child of a container and the frame with its iterator advanced. *)
Definition next_child n (frame : TraversalFrame) : outcome (option V * TraversalFrame) :=
  match tf_state frame with
  | state_array =>
      match tf_array_iterator frame with
      | None => Stop Undefined
      | Some iterator =>
          '(child, iterator) ← yyjson_arr_iter_next lib n iterator;
          Ret (child, set_iterator frame state_array (Some iterator) (tf_object_iterator frame))
      end
  | _ =>
      match tf_object_iterator frame with
      | None => Stop Undefined
      | Some iterator =>
          '(key, iterator) ← yyjson_obj_iter_next lib n iterator;
          child ← (match key with None => Ret None | Some key => yyjson_obj_iter_get_val lib n key end);
          Ret (child, set_iterator frame (tf_state frame) (tf_array_iterator frame) (Some iterator))
      end
  end.

Definition child_round n (frame : TraversalFrame) (frames : frame_array) (frame_count frame_capacity : Z)
    (key_scratch : option scratch) : outcome round :=
  '(child, frame) ← next_child n frame;
  frames ← set_slot frames (frame_count - 1) (Some frame);
  match child with
  | None => Ret (Continue frames (frame_count - 1) key_scratch)
  | Some child =>
      if frame_count =? frame_capacity then Ret (Done (Err json_nesting_error) key_scratch) else
      frames ← set_slot frames frame_count (Some (enter_frame child (u64 (tf_depth frame + 1))));
      Ret (Continue frames (u64 (frame_count + 1)) key_scratch)
  end.

Definition traversal_round n (frames : frame_array) (frame_count frame_capacity : Z)
    (key_scratch : option scratch) (key_capacity : Z) limits : outcome round :=
  frame ← read_frame frames (frame_count - 1);
  if jl_maximum_nesting limits <? tf_depth frame then Ret (Done (Err json_nesting_error) key_scratch) else
  match tf_state frame with
  | state_enter => enter_round n frame frames frame_count key_scratch key_capacity limits
  | _ => child_round n frame frames frame_count frame_capacity key_scratch
  end.

Fixpoint traverse (fuel : nat) n (frames : frame_array) (frame_count frame_capacity : Z)
    (key_scratch : option scratch) (key_capacity : Z) limits : outcome (Result unit * option scratch) :=
  if frame_count =? 0 then Ret (Ok tt, key_scratch) else
  match fuel with
  | O => Stop OutOfFuel
  | S fuel =>
      next ← traversal_round n frames frame_count frame_capacity key_scratch key_capacity limits;
      match next with
      | Done r key_scratch => Ret (r, key_scratch)
      | Continue frames frame_count key_scratch =>
          traverse fuel n frames frame_count frame_capacity key_scratch key_capacity limits
      end
  end.

(** A value is entered once, left once and, but for the root, pushed once: three rounds for
    each of the document's values are enough. *)
Definition validate_document n (document : D) (frames : option frame_array) (frame_capacity : Z)
    (key_scratch : option scratch) (key_capacity : Z) limits : outcome (Result unit * option scratch) :=
  val_count ← yyjson_doc_get_val_count lib n document;
  if jl_maximum_aggregate_values limits <? val_count then Ret (Err json_aggregate_error, key_scratch) else
  root ← yyjson_doc_get_root lib n document;
  match root, frames with
  | Some root, Some frames =>
      if frame_capacity =? 0 then Ret (Err json_native_error, key_scratch) else
      frames ← set_slot frames 0 (Some (enter_frame root 1));
      traverse (3 * Z.to_nat val_count) n frames 1 frame_capacity key_scratch key_capacity limits
  | _, _ => Ret (Err json_native_error, key_scratch)
  end.

(** ** Kinds *)
Definition value_kind n (value : V) : outcome (Result JsonValueKind) :=
  b ← yyjson_is_null lib n value; if (b : bool) then Ret (Ok kind_null) else
  b ← yyjson_is_bool lib n value; if (b : bool) then Ret (Ok kind_boolean) else
  b ← yyjson_is_uint lib n value; if (b : bool) then Ret (Ok kind_unsigned_integer) else
  b ← yyjson_is_sint lib n value; if (b : bool) then Ret (Ok kind_signed_integer) else
  b ← yyjson_is_real lib n value; if (b : bool) then Ret (Ok kind_real) else
  b ← yyjson_is_str lib n value; if (b : bool) then Ret (Ok kind_text) else
  b ← yyjson_is_arr lib n value; if (b : bool) then Ret (Ok kind_array) else
  b ← yyjson_is_obj lib n value; if (b : bool) then Ret (Ok kind_object) else
  Ret (Err json_unsupported_error).

Definition require_kind n (value : V) (expected : JsonValueKind) : outcome (Result unit) :=
  actual ← value_kind n value;
  match actual with
  | Err e => Ret (Err e)
  | Ok actual => if negb (bool_decide (actual = expected)) then Ret (Err json_kind_error) else Ret (Ok tt)
  end.

(** ** Documents *)
Record JsonDocument := MkJsonDocument {
  jd_native_document : option D; jd_arena : option nat; jd_document_state : option pointer;
  jd_arena_generation : Z; jd_maximum_lookup_key_bytes : Z }.

Definition JsonDocument_empty : JsonDocument := MkJsonDocument None None None 0 0.

Record JsonValue := MkJsonValue {
  jv_arena : option nat; jv_document_state : option pointer; jv_native_value : option V;
  jv_document_epoch : Z; jv_arena_generation : Z; jv_maximum_lookup_key_bytes : Z }.

(** What the adapter reads and writes: the library's state, the memory, the [DocumentState]
    objects, the arena with its heap and block source, and the log. *)
Record JsonWorld := MkJsonWorld {
  jw_native : N; jw_memory : Memory; jw_states : gmap pointer DocumentState;
  jw_arena : BoundedArena C; jw_heap : Heap; jw_context : C; jw_log : L }.

Definition with_native (w : JsonWorld) n : JsonWorld :=
  MkJsonWorld n (jw_memory w) (jw_states w) (jw_arena w) (jw_heap w) (jw_context w) (jw_log w).
Definition with_states (w : JsonWorld) (states : gmap pointer DocumentState) : JsonWorld :=
  MkJsonWorld (jw_native w) (jw_memory w) states (jw_arena w) (jw_heap w) (jw_context w) (jw_log w).
Definition with_memory (w : JsonWorld) (mem : Memory) : JsonWorld :=
  MkJsonWorld (jw_native w) mem (jw_states w) (jw_arena w) (jw_heap w) (jw_context w) (jw_log w).
Definition with_log (w : JsonWorld) (l : L) : JsonWorld :=
  MkJsonWorld (jw_native w) (jw_memory w) (jw_states w) (jw_arena w) (jw_heap w) (jw_context w) l.

(** [arena.try_allocate(...)] followed by [->bytes()] on the view. *)
Definition allocate_bytes (w : JsonWorld) (worker : WorkerId) (bytes alignment : Z) :
    outcome (Result (MutableByteView * Z) * JsonWorld) :=
  '(storage, (a, h, c)) ←
    BoundedArena_try_allocate (jw_arena w) (jw_heap w) (jw_context w) worker bytes alignment;
  let w := MkJsonWorld (jw_native w) (jw_memory w) (jw_states w) a h c (jw_log w) in
  match storage with
  | Err e => Ret (Err e, w)
  | Ok view =>
      match ArenaView_bytes view a with
      | Err e => Ret (Err e, w)
      | Ok bytes => Ret (Ok (bytes, av_generation view), w)
      end
  end.

(** [reinterpret_cast] of the bytes to an array of [count] cells. *)
Definition cells_of {T} (bytes : MutableByteView) (count : Z) : option (list (option T)) :=
  match span_data bytes with None => None | Some _ => Some (replicate (Z.to_nat count) None) end.

(** The pool takes what is left of the arena behind the padding. *)
Definition pool_size (a : BoundedArena C) : Result Z :=
  let remaining_capacity := u64 (ba_maximum_capacity a - ba_offset a) in
  let alignment_remainder := ba_offset a mod alignof_max_align_t in
  let pool_padding := if alignment_remainder =? 0 then 0 else alignof_max_align_t - alignment_remainder in
  if (remaining_capacity <? pool_padding) || (u64 (remaining_capacity - pool_padding) <? yyjson_pool_minimum_bytes)
  then Err json_pool_error else Ok (u64 (remaining_capacity - pool_padding)).

(** From the native parser on: [mutable_input] is the copy of the document. *)
Definition read_document (w : JsonWorld) (mutable_input : MutableByteView) (allocator : A)
    (document_state : pointer) (frames : option frame_array) (key_scratch : option scratch)
    (generation : Z) limits (log_sink : DependencyLogSink L) : outcome (Result JsonDocument * JsonWorld) :=
  '(read, n) ← yyjson_read_opts lib (jw_memory w) mutable_input allocator (jw_native w);
  let w := with_native w n in
  match read with
  | inr code =>
      let status := if code =? YYJSON_READ_ERROR_MEMORY_ALLOCATION lib then status_exhaustion
                    else status_invalid_input in
      let '(e, l) := yyjson_error status (cast int32_t code) log_sink (jw_log w) in
      Ret (Err e, with_log w l)
  | inl native_document =>
      '(valid_document, _) ← validate_document n native_document frames (jl_maximum_nesting limits)
          key_scratch (jl_maximum_object_members limits) limits;
      match valid_document with
      | Err e => n ← yyjson_doc_free lib native_document n; Ret (Err e, with_native w n)
      | Ok _ =>
          match jw_states w !! document_state with
          | None => Stop Undefined
          | Some state =>
              let w := with_states w (<[document_state := MkDocumentState true (ds_epoch state)]> (jw_states w)) in
              Ret (Ok (MkJsonDocument (Some native_document) (Some (ba_address (jw_arena w)))
                         (Some document_state) generation (jl_maximum_string_bytes limits)), w)
          end
      end
  end.

Definition JsonDocument_parse (w : JsonWorld) (worker : WorkerId) (document_bytes : ByteView) limits
    (log_sink : DependencyLogSink L) : outcome (Result JsonDocument * JsonWorld) :=
  TRY _ ⇐ validate_limits limits AT w IN
  if span_empty document_bytes then Ret (Err json_empty_error, w) else
  if jl_maximum_document_bytes limits <? span_size document_bytes then Ret (Err json_bytes_error, w) else
  if ba_maximum_capacity (jw_arena w) <? ba_offset (jw_arena w) then Ret (Err json_usage_error, w) else
  ('(input, w) ← allocate_bytes w worker (span_size document_bytes) 1;
   TRY (input, _) ⇐ input AT w IN
   (mem ← (match span_data input, span_data document_bytes with
           | Some output, Some source => copy_loop (Z.to_nat (span_size document_bytes)) (jw_memory w) output source
           | _, _ => Stop Undefined
           end);
    let w := with_memory w mem in
    '(state, w) ← allocate_bytes w worker sizeof_DocumentState alignof_DocumentState;
    TRY (state, _) ⇐ state AT w IN
    match span_data state with
    | None => Stop Undefined
    | Some document_state =>
      let w := with_states w (<[document_state := DocumentState_default]> (jw_states w)) in
      '(frames, w) ← allocate_bytes w worker (u64 (jl_maximum_nesting limits * sizeof_TraversalFrame lib))
                       alignof_TraversalFrame;
      TRY (frames, _) ⇐ frames AT w IN
      ('(keys, w) ← allocate_bytes w worker (u64 (jl_maximum_object_members limits * sizeof_ObjectKey))
                      alignof_ObjectKey;
       TRY (keys, _) ⇐ keys AT w IN
       TRY pool_bytes ⇐ pool_size (jw_arena w) AT w IN
       ('(pool, w) ← allocate_bytes w worker pool_bytes alignof_max_align_t;
        TRY (pool, generation) ⇐ pool AT w IN
        ('(allocator, n) ← yyjson_alc_pool_init lib pool (jw_native w);
         match allocator with
         | None => Ret (Err json_pool_init_error, with_native w n)
         | Some allocator =>
             read_document (with_native w n) input allocator document_state
               (cells_of frames (jl_maximum_nesting limits)) (cells_of keys (jl_maximum_object_members limits))
               generation limits log_sink
         end)))
    end)).

(** The arena pointers are dereferenced only when they are not null. *)
Definition JsonDocument_require_valid (this : JsonDocument) (w : JsonWorld) : outcome (Result unit) :=
  match jd_native_document this, jd_arena this, jd_document_state this with
  | Some _, Some _, Some document_state =>
      if negb (ba_generation (jw_arena w) =? jd_arena_generation this) then Ret (Err json_document_reset_error) else
      match jw_states w !! document_state with
      | None => Stop Undefined
      | Some state => if negb (ds_active state) then Ret (Err json_document_error) else Ret (Ok tt)
      end
  | _, _, _ => Ret (Err json_document_error)
  end.

Definition JsonDocument_root (this : JsonDocument) (w : JsonWorld) : outcome (Result JsonValue) :=
  valid ← JsonDocument_require_valid this w;
  match valid with
  | Err e => Ret (Err e)
  | Ok _ =>
      match jd_native_document this, jd_document_state this with
      | Some native_document, Some document_state =>
          native_root ← yyjson_doc_get_root lib (jw_native w) native_document;
          match native_root with
          | None => Ret (Err json_rootless_error)
          | Some native_root =>
              match jw_states w !! document_state with
              | None => Stop Undefined
              | Some state =>
                  Ret (Ok (MkJsonValue (jd_arena this) (Some document_state) (Some native_root) (ds_epoch state)
                             (jd_arena_generation this) (jd_maximum_lookup_key_bytes this)))
              end
          end
      | _, _ => Stop Undefined
      end
  end.

(** The document object is left empty. *)
Definition JsonDocument_release (this : JsonDocument) (w : JsonWorld) : outcome (JsonDocument * JsonWorld) :=
  let arena_is_current :=
    match jd_arena this with
    | None => false
    | Some _ => ba_generation (jw_arena w) =? jd_arena_generation this
    end in
  w ← (match jd_native_document this with
       | Some native_document =>
           if arena_is_current then
             n ← yyjson_doc_free lib native_document (jw_native w); Ret (with_native w n)
           else Ret w
       | None => Ret w
       end);
  w ← (match jd_document_state this with
       | Some document_state =>
           if arena_is_current then
             match jw_states w !! document_state with
             | None => Stop Undefined
             | Some state =>
                 Ret (with_states w (<[document_state := MkDocumentState false
                   (if negb (ds_epoch state =? u64_max) then u64 (ds_epoch state + 1) else ds_epoch state)]> (jw_states w)))
             end
           else Ret w
       | None => Ret w
       end);
  Ret (JsonDocument_empty, w).

(** What the target becomes and what is left of the source. *)
Definition JsonDocument_move_from (other : JsonDocument) : JsonDocument * JsonDocument :=
  (MkJsonDocument (jd_native_document other) (jd_arena other) (jd_document_state other)
     (jd_arena_generation other) (jd_maximum_lookup_key_bytes other), JsonDocument_empty).

Definition JsonDocument_move_construct (other : JsonDocument) : JsonDocument * JsonDocument :=
  JsonDocument_move_from other.

(** Between two distinct objects; self-assignment does nothing. *)
Definition JsonDocument_move_assign (this other : JsonDocument) (w : JsonWorld) :
    outcome (JsonDocument * JsonDocument * JsonWorld) :=
  '(_, w) ← JsonDocument_release this w;
  let '(this, other) := JsonDocument_move_from other in
  Ret (this, other, w).

Definition JsonDocument_destroy (this : JsonDocument) (w : JsonWorld) : outcome JsonWorld :=
  '(_, w) ← JsonDocument_release this w; Ret w.

(** ** Values *)
Definition JsonValue_require_valid (this : JsonValue) (w : JsonWorld) : outcome (Result V) :=
  match jv_arena this, jv_document_state this, jv_native_value this with
  | Some _, Some document_state, Some value =>
      if negb (ba_generation (jw_arena w) =? jv_arena_generation this) then Ret (Err json_value_reset_error) else
      match jw_states w !! document_state with
      | None => Stop Undefined
      | Some state =>
          if negb (ds_active state) || negb (ds_epoch state =? jv_document_epoch this)
          then Ret (Err json_value_error) else Ret (Ok value)
      end
  | _, _, _ => Ret (Err json_value_error)
  end.

Definition JsonValue_kind (this : JsonValue) (w : JsonWorld) : outcome (Result JsonValueKind) :=
  valid ← JsonValue_require_valid this w;
  match valid with Err e => Ret (Err e) | Ok value => value_kind (jw_native w) value end.

(** The opening of every accessor: the value is valid and of the expected kind. *)
Definition with_kind {T} (this : JsonValue) (w : JsonWorld) (expected : JsonValueKind)
    (read : V -> outcome (Result T)) : outcome (Result T) :=
  valid ← JsonValue_require_valid this w;
  match valid with
  | Err e => Ret (Err e)
  | Ok value =>
      kind ← require_kind (jw_native w) value expected;
      match kind with Err e => Ret (Err e) | Ok _ => read value end
  end.

Definition JsonValue_boolean (this : JsonValue) (w : JsonWorld) : outcome (Result bool) :=
  with_kind this w kind_boolean (fun value => Ok <$> yyjson_get_bool lib (jw_native w) value).

Definition JsonValue_unsigned_integer (this : JsonValue) (w : JsonWorld) : outcome (Result Z) :=
  with_kind this w kind_unsigned_integer (fun value => Ok <$> yyjson_get_uint lib (jw_native w) value).

Definition JsonValue_signed_integer (this : JsonValue) (w : JsonWorld) : outcome (Result Z) :=
  with_kind this w kind_signed_integer (fun value => Ok <$> yyjson_get_sint lib (jw_native w) value).

(** A [double] is its 64 bits. *)
Definition JsonValue_real (this : JsonValue) (w : JsonWorld) : outcome (Result Z) :=
  with_kind this w kind_real (fun value => Ok <$> yyjson_get_real lib (jw_native w) value).

Definition JsonValue_text (this : JsonValue) (w : JsonWorld) : outcome (Result TextView) :=
  with_kind this w kind_text (fun value =>
    characters ← yyjson_get_str lib (jw_native w) value;
    match characters with
    | None => Ret (Err json_text_error)
    | Some characters =>
        size ← yyjson_get_len lib (jw_native w) value;
        Ret (TextView_from (Some characters) size)
    end).

Definition JsonValue_array_size (this : JsonValue) (w : JsonWorld) : outcome (Result Z) :=
  with_kind this w kind_array (fun value => Ok <$> yyjson_arr_size lib (jw_native w) value).

Definition JsonValue_object_size (this : JsonValue) (w : JsonWorld) : outcome (Result Z) :=
  with_kind this w kind_object (fun value => Ok <$> yyjson_obj_size lib (jw_native w) value).

(** [JsonValue{*arena_, document_state_, child, ...}]: all but the native value is kept. *)
Definition child_value (this : JsonValue) (child : V) : JsonValue :=
  MkJsonValue (jv_arena this) (jv_document_state this) (Some child) (jv_document_epoch this)
    (jv_arena_generation this) (jv_maximum_lookup_key_bytes this).

Definition JsonValue_array_at (this : JsonValue) (w : JsonWorld) (index : Z) : outcome (Result JsonValue) :=
  with_kind this w kind_array (fun value =>
    child ← yyjson_arr_get lib (jw_native w) value index;
    match child with
    | None => Ret (Err json_index_error)
    | Some child => Ret (Ok (child_value this child))
    end).

Definition JsonValue_object_member (this : JsonValue) (w : JsonWorld) (key : TextView) : outcome (Result JsonValue) :=
  with_kind this w kind_object (fun value =>
    if jv_maximum_lookup_key_bytes this <? Z.of_nat (length key) then Ret (Err json_lookup_error) else
    child ← yyjson_obj_getn lib (jw_native w) value key (Z.of_nat (length key));
    match child with
    | None => Ret (Err json_member_error)
    | Some child => Ret (Ok (child_value this child))
    end).
End structured_data.
Arguments Yyjson : clear implicits.
