(* ===== verification/StructuredSpec.v ===== *)
(** * Documents are accepted exactly when they respect the limits

    The meaning of JSON documents as trees, what the adapter relies on from the JSON library
    ([YyjsonLaws]), and the equivalence of the iterative validation, with its frame stack, its
    reused key scratch and its sort, with a check by recursion on the tree. *)
From S2P Require Import Prelude Contract CheckedArithmetic Identifiers MemoryBudget Views BoundedArena Dependencies.
From S2P Require Import StructuredData.
From Stdlib Require Import ZArith Lia String Ascii Sorted.
From stdpp Require Import base numbers list gmap option sorting.

Set Default Goal Selector "!".
Set Warnings "-register-all".
#[local] Open Scope Z_scope.

(** ** Trees *)
Inductive jtree :=
  | T_null
  | T_bool (b : bool)
  | T_uint (z : Z)
  | T_sint (z : Z)
  | T_real (bits : Z)
  | T_str (s : list ascii)
  | T_arr (ts : list jtree)
  | T_obj (ms : list (list ascii * jtree)).

Section jtree_induction.
Context (P : jtree -> Prop).
Hypothesis P_null : P T_null.
Hypothesis P_bool : forall b, P (T_bool b).
Hypothesis P_uint : forall z, P (T_uint z).
Hypothesis P_sint : forall z, P (T_sint z).
Hypothesis P_real : forall z, P (T_real z).
Hypothesis P_str : forall s, P (T_str s).
Hypothesis P_arr : forall ts, Forall P ts -> P (T_arr ts).
Hypothesis P_obj : forall ms, Forall (fun m => P (snd m)) ms -> P (T_obj ms).

Fixpoint jtree_induction (t : jtree) : P t :=
  match t with
  | T_null => P_null
  | T_bool b => P_bool b
  | T_uint z => P_uint z
  | T_sint z => P_sint z
  | T_real z => P_real z
  | T_str s => P_str s
  | T_arr ts =>
      P_arr ts ((fix all ts := match ts return Forall P ts with
                 | [] => Forall_nil_2 _
                 | t :: ts => Forall_cons_2 _ _ _ (jtree_induction t) (all ts)
                 end) ts)
  | T_obj ms =>
      P_obj ms ((fix all ms := match ms return Forall (fun m => P (snd m)) ms with
                 | [] => Forall_nil_2 _
                 | m :: ms => Forall_cons_2 _ _ _ (jtree_induction (snd m)) (all ms)
                 end) ms)
  end.
End jtree_induction.

Definition tree_kind (t : jtree) : JsonValueKind :=
  match t with
  | T_null => kind_null | T_bool _ => kind_boolean | T_uint _ => kind_unsigned_integer
  | T_sint _ => kind_signed_integer | T_real _ => kind_real | T_str _ => kind_text
  | T_arr _ => kind_array | T_obj _ => kind_object
  end.

(** The values of a document, object keys included. *)
Definition sum_values {X} (f : X -> nat) : list X -> nat :=
  fix go l := match l with [] => 0%nat | x :: l => (f x + go l)%nat end.
Fixpoint tree_values (t : jtree) : nat :=
  match t with
  | T_arr ts => S (sum_values tree_values ts)
  | T_obj ms => S (sum_values (fun m => S (tree_values (snd m))) ms)
  | _ => 1%nat
  end.

(** The nesting of a value, a scalar counting one. *)
Definition max_values {X} (f : X -> nat) : list X -> nat :=
  fix go l := match l with [] => 0%nat | x :: l => Nat.max (f x) (go l) end.
Fixpoint tree_height (t : jtree) : nat :=
  match t with
  | T_arr ts => S (max_values tree_height ts)
  | T_obj ms => S (max_values (fun m => tree_height (snd m)) ms)
  | _ => 1%nat
  end.

(** ** What the library promises *)
Definition find_member (key : list ascii) (ms : list (list ascii * jtree)) : option jtree :=
  snd <$> List.find (fun m => bool_decide (fst m = key)) ms.

(** [live n d t]: in state [n] the document [d] exists and holds [t].  [denotes n v t]: the
    value [v] belongs to a document that exists and stands for [t].  [json_of] is the JSON value
    a text denotes, if it is one.  The reader accepts only JSON; when it refuses JSON it is for
    lack of memory. *)
Class YyjsonLaws {N A D V IA IO : Type} (lib : Yyjson N A D V IA IO) := {
  json_of : list Z -> option jtree;
  live : N -> D -> jtree -> Prop;
  denotes : N -> V -> jtree -> Prop;
  array_rest : N -> IA -> list jtree -> Prop;
  object_rest : N -> IO -> list (list ascii * jtree) -> Prop;
  law_frame_size : 24 <= sizeof_TraversalFrame lib <= 4096;
  law_pool_init pool n : exists r n', yyjson_alc_pool_init lib pool n = Ret (r, n');
  law_read mem input alc n bytes :
    span_bytes mem input = Some bytes ->
    exists r n', yyjson_read_opts lib mem input alc n = Ret (r, n') /\
      match r with
      | inl d => exists t, json_of bytes = Some t /\ live n' d t
      | inr code => code <> YYJSON_READ_ERROR_MEMORY_ALLOCATION lib -> json_of bytes = None
      end;
  law_free n d t : live n d t -> exists n', yyjson_doc_free lib d n = Ret n';
  law_root n d t : live n d t -> exists v, yyjson_doc_get_root lib n d = Ret (Some v) /\ denotes n v t;
  law_count n d t : live n d t -> yyjson_doc_get_val_count lib n d = Ret (Z.of_nat (tree_values t));
  law_kinds n v t : denotes n v t ->
    yyjson_is_null lib n v = Ret (bool_decide (tree_kind t = kind_null)) /\
    yyjson_is_bool lib n v = Ret (bool_decide (tree_kind t = kind_boolean)) /\
    yyjson_is_uint lib n v = Ret (bool_decide (tree_kind t = kind_unsigned_integer)) /\
    yyjson_is_sint lib n v = Ret (bool_decide (tree_kind t = kind_signed_integer)) /\
    yyjson_is_real lib n v = Ret (bool_decide (tree_kind t = kind_real)) /\
    yyjson_is_str lib n v = Ret (bool_decide (tree_kind t = kind_text)) /\
    yyjson_is_arr lib n v = Ret (bool_decide (tree_kind t = kind_array)) /\
    yyjson_is_obj lib n v = Ret (bool_decide (tree_kind t = kind_object));
  law_bool n v b : denotes n v (T_bool b) -> yyjson_get_bool lib n v = Ret b;
  law_uint n v z : denotes n v (T_uint z) -> yyjson_get_uint lib n v = Ret z;
  law_sint n v z : denotes n v (T_sint z) -> yyjson_get_sint lib n v = Ret z;
  law_real n v z : denotes n v (T_real z) -> yyjson_get_real lib n v = Ret z;
  law_str n v s : denotes n v (T_str s) ->
    yyjson_get_len lib n v = Ret (Z.of_nat (length s)) /\
    exists tail, yyjson_get_str lib n v = Ret (Some (s ++ tail));
  law_arr_size n v ts : denotes n v (T_arr ts) ->
    yyjson_arr_size lib n v = Ret (Z.of_nat (length ts));
  law_arr_get n v ts index : denotes n v (T_arr ts) -> 0 <= index ->
    exists r, yyjson_arr_get lib n v index = Ret r /\
      match ts !! Z.to_nat index, r with
      | Some t, Some w => denotes n w t | None, None => True | _, _ => False
      end;
  law_arr_iter n v ts : denotes n v (T_arr ts) ->
    exists i, yyjson_arr_iter_with lib n v = Ret i /\ array_rest n i ts;
  law_arr_next n i ts : array_rest n i ts ->
    exists r i', yyjson_arr_iter_next lib n i = Ret (r, i') /\
      match ts, r with
      | t :: ts', Some w => denotes n w t /\ array_rest n i' ts' | [], None => True | _, _ => False
      end;
  law_obj_size n v ms : denotes n v (T_obj ms) ->
    yyjson_obj_size lib n v = Ret (Z.of_nat (length ms));
  law_obj_get n v ms key : denotes n v (T_obj ms) ->
    exists r, yyjson_obj_getn lib n v key (Z.of_nat (length key)) = Ret r /\
      match find_member key ms, r with
      | Some t, Some w => denotes n w t | None, None => True | _, _ => False
      end;
  law_obj_iter n v ms : denotes n v (T_obj ms) ->
    exists i, yyjson_obj_iter_with lib n v = Ret i /\ object_rest n i ms;
  law_obj_next n i ms : object_rest n i ms ->
    exists r i', yyjson_obj_iter_next lib n i = Ret (r, i') /\
      match ms, r with
      | (k, t) :: ms', Some key =>
          denotes n key (T_str k) /\ object_rest n i' ms' /\
          exists w, yyjson_obj_iter_get_val lib n key = Ret (Some w) /\ denotes n w t
      | [], None => True
      | _, _ => False
      end }.

(** ** The check by recursion *)

(** Checks one after the other, up to the first failure. *)
Definition check_all {X} (f : X -> Result unit) : list X -> Result unit :=
  fix go l := match l with [] => Ok tt | x :: l => match f x with Ok _ => go l | Err e => Err e end end.

Definition check_keys (limits : JsonDocumentLimits) (keys : list (list ascii)) : Result unit :=
  if jl_maximum_object_members limits <? Z.of_nat (length keys) then Err json_members_error else
  if existsb (fun k => jl_maximum_string_bytes limits <? Z.of_nat (length k)) keys then Err json_key_error else
  if bool_decide (NoDup keys) then Ok tt else Err json_duplicate_error.

Fixpoint check_tree (limits : JsonDocumentLimits) (depth : Z) (t : jtree) : Result unit :=
  if jl_maximum_nesting limits <? depth then Err json_nesting_error else
  match t with
  | T_str s => if jl_maximum_string_bytes limits <? Z.of_nat (length s) then Err json_string_error else Ok tt
  | T_arr ts => check_all (check_tree limits (depth + 1)) ts
  | T_obj ms =>
      match check_keys limits (map fst ms) with
      | Err e => Err e
      | Ok _ => check_all (fun m => check_tree limits (depth + 1) (snd m)) ms
      end
  | _ => Ok tt
  end.

Definition check_document (limits : JsonDocumentLimits) (t : jtree) : Result unit :=
  if jl_maximum_aggregate_values limits <? Z.of_nat (tree_values t) then Err json_aggregate_error
  else check_tree limits 1 t.

(** What the limits mean. *)
Fixpoint tree_conforms (limits : JsonDocumentLimits) (t : jtree) : Prop :=
  match t with
  | T_str s => Z.of_nat (length s) <= jl_maximum_string_bytes limits
  | T_arr ts => foldr (fun t P => tree_conforms limits t /\ P) True ts
  | T_obj ms =>
      Z.of_nat (length ms) <= jl_maximum_object_members limits /\
      Forall (fun k => Z.of_nat (length k) <= jl_maximum_string_bytes limits) (map fst ms) /\
      NoDup (map fst ms) /\ foldr (fun m P => tree_conforms limits (snd m) /\ P) True ms
  | _ => True
  end.
Definition conforms (limits : JsonDocumentLimits) (t : jtree) : Prop :=
  Z.of_nat (tree_values t) <= jl_maximum_aggregate_values limits /\
  Z.of_nat (tree_height t) <= jl_maximum_nesting limits /\ tree_conforms limits t.

Lemma check_all_ok {X} (f : X -> Result unit) l : check_all f l = Ok tt <-> Forall (fun x => f x = Ok tt) l.
Proof.
  induction l as [|x l IH]; simpl; [split; constructor|].
  rewrite Forall_cons, <- IH. destruct (f x) as [[]|e]; [tauto|]. split; [done|]. by intros [? _].
Qed.

Lemma check_keys_ok limits keys :
  check_keys limits keys = Ok tt <->
  Z.of_nat (length keys) <= jl_maximum_object_members limits /\
  Forall (fun k => Z.of_nat (length k) <= jl_maximum_string_bytes limits) keys /\ NoDup keys.
Proof.
  unfold check_keys. destruct (Z.ltb_spec (jl_maximum_object_members limits) (Z.of_nat (length keys))) as [|Hm].
  { split; [done|]. lia. }
  assert (existsb (fun k => jl_maximum_string_bytes limits <? Z.of_nat (length k)) keys = false <->
    Forall (fun k => Z.of_nat (length k) <= jl_maximum_string_bytes limits) keys) as Hx.
  { clear. induction keys as [|k keys IH]; simpl; [split; constructor|].
    rewrite Forall_cons, <- IH, orb_false_iff, Z.ltb_ge. done. }
  destruct (existsb _ keys) eqn:E; [split; [done|]; intros (_ & H & _); by apply Hx in H|].
  destruct (bool_decide_reflect (NoDup keys)); [|split; [done|tauto]].
  split; [|done]. intros _. split; [lia|]. split; [by apply Hx|done].
Qed.

Lemma foldr_and {X} (P : X -> Prop) l : foldr (fun x Q => P x /\ Q) True l <-> Forall P l.
Proof. induction l; simpl; [split; constructor|]. rewrite Forall_cons. tauto. Qed.

Lemma max_values_le {X} (f : X -> nat) l k : (max_values f l <= k)%nat <-> Forall (fun x => f x <= k)%nat l.
Proof. induction l as [|x l IH]; simpl; [split; [constructor|lia]|]. rewrite Forall_cons, <- IH. lia. Qed.

Lemma check_children_ok {X} (f : X -> jtree) limits depth l :
  0 <= depth <= jl_maximum_nesting limits ->
  Forall (fun x => check_tree limits (depth + 1) (f x) = Ok tt <->
    depth + 1 + Z.of_nat (tree_height (f x)) - 1 <= jl_maximum_nesting limits /\ tree_conforms limits (f x)) l ->
  check_all (fun x => check_tree limits (depth + 1) (f x)) l = Ok tt <->
  depth + Z.of_nat (max_values (fun x => tree_height (f x)) l) <= jl_maximum_nesting limits /\
  foldr (fun x P => tree_conforms limits (f x) /\ P) True l.
Proof.
  intros Hd IH. rewrite check_all_ok, foldr_and.
  transitivity (Forall (fun x => tree_height (f x) <= Z.to_nat (jl_maximum_nesting limits - depth))%nat l /\
    Forall (fun x => tree_conforms limits (f x)) l); [|apply and_iff_compat_r; rewrite <- max_values_le; lia].
  rewrite <- Forall_and, !list.Forall_forall. rewrite list.Forall_forall in IH.
  split; intros Hx x Hin; specialize (Hx x Hin); specialize (IH x Hin).
  - apply IH in Hx. split; [lia|tauto].
  - apply IH. split; [lia|tauto].
Qed.

Lemma check_tree_ok limits t depth :
  1 <= depth ->
  check_tree limits depth t = Ok tt <->
  depth + Z.of_nat (tree_height t) - 1 <= jl_maximum_nesting limits /\ tree_conforms limits t.
Proof.
  revert depth. induction t as [| | | | |s|ts IH|ms IH] using jtree_induction; intros depth Hd;
    cbn [check_tree tree_height tree_conforms];
    (destruct (Z.ltb_spec (jl_maximum_nesting limits) depth); [split; [done|lia]|]); try (split; [|done]; lia).
  - destruct (Z.ltb_spec (jl_maximum_string_bytes limits) (Z.of_nat (length s))); split; done || lia.
  - rewrite (check_children_ok (fun t => t)); [|lia|].
    + apply and_iff_compat_r. cbn beta. change (max_values (fun x => tree_height x) ts) with (max_values tree_height ts). lia.
    + eapply Forall_impl; [exact IH|]. intros t Ht. apply Ht. lia.
  - transitivity (check_keys limits (map fst ms) = Ok tt /\
      check_all (fun m => check_tree limits (depth + 1) (snd m)) ms = Ok tt).
    { destruct (check_keys limits (map fst ms)) as [[]|e]; [tauto|]. split; [done|]. by intros []. }
    rewrite check_keys_ok, length_map, (check_children_ok snd); [|lia|].
    + split; intros Hx; repeat split; try apply Hx; lia.
    + eapply Forall_impl; [exact IH|]. intros t Ht. apply Ht. lia.
Qed.

Lemma check_document_ok limits t : check_document limits t = Ok tt <-> conforms limits t.
Proof.
  unfold check_document, conforms.
  destruct (Z.ltb_spec (jl_maximum_aggregate_values limits) (Z.of_nat (tree_values t))).
  { split; [done|]. lia. }
  rewrite check_tree_ok by lia. split; intros H'; repeat split; try apply H'; lia.
Qed.

(** ** The order of keys *)

(** The characters a key stands for. *)
Definition key_text (k : ObjectKey) : list ascii := take (Z.to_nat (ok_size k)) (ok_characters k).
Definition key_ok (k : ObjectKey) : Prop := 0 <= ok_size k /\ (Z.to_nat (ok_size k) <= length (ok_characters k))%nat.

(** Lexicographic order of byte strings. *)
Fixpoint text_lt (l r : list ascii) : bool :=
  match l, r with
  | _, [] => false
  | [], _ :: _ => true
  | a :: l, b :: r => (N_of_ascii a <? N_of_ascii b)%N || (bool_decide (a = b) && text_lt l r)
  end.

Lemma N_of_ascii_eq a b : N_of_ascii a = N_of_ascii b -> a = b.
Proof. intros E. rewrite <- (ascii_N_embedding a), <- (ascii_N_embedding b). by rewrite E. Qed.

Lemma json_text_lt_irrefl l : text_lt l l = false.
Proof. induction l as [|a l IH]; simpl; [done|]. rewrite N.ltb_irrefl, IH. by destruct (bool_decide _). Qed.

Lemma json_text_lt_trans a b c : text_lt a b = true -> text_lt b c = true -> text_lt a c = true.
Proof.
  revert b c. induction a as [|x a IH]; intros [|y b] [|z c]; simpl; try done.
  rewrite !orb_true_iff, !andb_true_iff, !N.ltb_lt, !bool_decide_eq_true.
  intros [H1|[-> H1]] [H2|[-> H2]]; [left; lia..|]. right. eauto.
Qed.

Lemma text_lt_total a b : text_lt a b = false -> text_lt b a = false -> a = b.
Proof.
  revert b. induction a as [|x a IH]; intros [|y b]; simpl; try done.
  rewrite !orb_false_iff, !N.ltb_ge. intros [H1 H2] [H3 H4].
  assert (x = y) as -> by (apply N_of_ascii_eq; lia).
  rewrite bool_decide_true in H2, H4 by done. simpl in *. f_equal. auto.
Qed.

(** [memcmp] on a common prefix decides the order, up to the lengths. *)
Lemma memcmp_run n l r :
  (n <= length l)%nat -> (n <= length r)%nat ->
  exists z, memcmp n l r = Ret z /\
    (z < 0 <-> text_lt (take n l) (take n r) = true) /\ (z = 0 <-> take n l = take n r).
Proof.
  revert l r. induction n as [|n IH]; intros [|a l] [|b r]; simpl; try lia; intros Hl Hr;
    try (exists 0; repeat split; done || lia).
  destruct (IH l r) as (z & E & Hn & Hz); [lia..|].
  destruct (N.ltb_spec (N_of_ascii a) (N_of_ascii b)) as [H|H].
  - exists (-1). split; [done|]. split; [by split|]. split; [done|]. intros [= -> _]. lia.
  - destruct (N.ltb_spec (N_of_ascii b) (N_of_ascii a)) as [H'|H'].
    + exists 1. split; [done|]. simpl. rewrite bool_decide_false by (intros ->; lia). split; [done|].
      split; [done|]. intros [= -> _]. lia.
    + exists z. assert (a = b) as -> by (apply N_of_ascii_eq; lia). rewrite bool_decide_true by done.
      split; [done|]. split; [done|]. rewrite Hz. split; [by intros ->|by intros [= ->]].
Qed.

Lemma text_lt_prefix n l r :
  (n = Nat.min (length l) (length r)) ->
  text_lt l r = text_lt (take n l) (take n r) || (bool_decide (take n l = take n r) && (length l <? length r)%nat).
Proof.
  revert l r. induction n as [|n IH]; intros [|a l] [|b r]; simpl; try lia; try done; intros Hn.
  rewrite (IH l r) by lia. destruct (N.ltb_spec (N_of_ascii a) (N_of_ascii b)); simpl; [done|].
  destruct (bool_decide_reflect (a = b)) as [->|Hab]; simpl.
  - f_equal. f_equal. apply bool_decide_ext. split; [by intros ->|by intros [= ->]].
  - rewrite bool_decide_false; [done|]. by intros [= ? _].
Qed.

Lemma key_text_length k : key_ok k -> Z.of_nat (length (key_text k)) = ok_size k.
Proof. intros [H1 H2]. unfold key_text. rewrite length_take. lia. Qed.

Lemma key_less_run a b : key_ok a -> key_ok b -> key_less a b = Ret (text_lt (key_text a) (key_text b)).
Proof.
  intros Ha Hb. unfold key_less.
  set (n := Nat.min (length (key_text a)) (length (key_text b))).
  pose proof (key_text_length a Ha) as La. pose proof (key_text_length b Hb) as Lb.
  assert ((if ok_size a <? ok_size b then ok_size a else ok_size b) = Z.of_nat n) as ->.
  { unfold n. destruct (Z.ltb_spec (ok_size a) (ok_size b)); lia. }
  rewrite Nat2Z.id. rewrite (text_lt_prefix n) by done.
  assert (forall k, key_ok k -> (n <= length (key_text k))%nat -> take n (key_text k) = take n (ok_characters k)) as Htake.
  { intros k Hk Hn. pose proof (key_text_length k Hk). unfold key_text. rewrite take_take. f_equal. lia. }
  rewrite !Htake by (done || unfold n; lia). destruct Ha as [Ha1 Ha2], Hb as [Hb1 Hb2].
  destruct (memcmp_run n (ok_characters a) (ok_characters b)) as (z & E & Hz1 & Hz2); [unfold n; lia..|].
  assert ((if Z.of_nat n =? 0 then Ret 0 else memcmp n (ok_characters a) (ok_characters b)) = Ret z) as ->.
  { destruct (Z.eqb_spec (Z.of_nat n) 0) as [E0|]; [|done]. replace n with 0%nat in E by lia. done. }
  cbn [mbind outcome_bind]. f_equal. f_equal.
  - apply eq_bool_prop_intro. rewrite !Is_true_true, Z.ltb_lt. done.
  - f_equal.
    + apply eq_bool_prop_intro. rewrite !Is_true_true, Z.eqb_eq, bool_decide_eq_true. done.
    + rewrite <- La, <- Lb. apply eq_bool_prop_intro. rewrite !Is_true_true, Z.ltb_lt, Nat.ltb_lt. lia.
Qed.

Lemma equal_key_run a b : key_ok a -> key_ok b -> equal_key a b = Ret (bool_decide (key_text a = key_text b)).
Proof.
  intros Ha Hb. unfold equal_key.
  pose proof (key_text_length a Ha) as La. pose proof (key_text_length b Hb) as Lb.
  destruct (Z.eqb_spec (ok_size a) (ok_size b)) as [E|E]; simpl negb; cbv iota.
  2: { rewrite bool_decide_false; [done|]. intros E'. rewrite E' in La. lia. }
  destruct Ha as [Ha1 Ha2], Hb as [Hb1 Hb2].
  destruct (Z.eqb_spec (ok_size a) 0) as [E0|E0].
  { rewrite bool_decide_true; [done|]. unfold key_text. by rewrite <- E, E0. }
  destruct (memcmp_run (Z.to_nat (ok_size a)) (ok_characters a) (ok_characters b)) as (z & -> & _ & Hz); [lia..|].
  cbn [mbind outcome_bind]. f_equal. unfold key_text. rewrite <- E.
  apply eq_bool_prop_intro. rewrite !Is_true_true, Z.eqb_eq, bool_decide_eq_true. done.
Qed.

(** ** Sorting and neighbours find every duplicate *)
Definition key_le (a b : ObjectKey) : Prop := text_lt (key_text b) (key_text a) = false.

Lemma sort_insert_run x l :
  key_ok x -> Forall key_ok l -> StronglySorted key_le l ->
  exists l', sort_insert key_less x l = Ret l' /\ StronglySorted key_le l' /\ l' ≡ₚ x :: l.
Proof.
  intros Hx Hl Hs. induction Hs as [|y l Hs IH Hy]; simpl.
  { eexists. split; [done|]. split; [repeat constructor|done]. }
  apply Forall_cons in Hl as [Hky Hl]. rewrite key_less_run by done. cbn [mbind outcome_bind].
  destruct (text_lt (key_text y) (key_text x)) eqn:E.
  - destruct (IH Hl) as (l' & -> & Hs' & Hp). cbn [mbind outcome_bind]. eexists. split; [done|]. split.
    + constructor; [done|]. rewrite Hp. constructor; [|done]. unfold key_le.
      destruct (text_lt (key_text x) (key_text y)) eqn:E'; [|done].
      pose proof (json_text_lt_trans _ _ _ E E'). by rewrite json_text_lt_irrefl in *.
    + rewrite Hp. constructor.
  - eexists. split; [done|]. split; [|done]. constructor; [by constructor|]. constructor; [done|].
    eapply Forall_impl; [exact Hy|]. unfold key_le. intros z Hz.
    destruct (text_lt (key_text z) (key_text x)) eqn:E'; [|done].
    destruct (text_lt (key_text y) (key_text z)) eqn:E2.
    + by rewrite (json_text_lt_trans _ _ _ E2 E') in E.
    + rewrite (text_lt_total _ _ E2 Hz) in E. congruence.
Qed.

Lemma std_sort_run l :
  Forall key_ok l -> exists l', std_sort key_less l = Ret l' /\ StronglySorted key_le l' /\ l' ≡ₚ l.
Proof.
  induction l as [|x l IH]; simpl; intros H.
  { eexists. split; [done|]. split; [constructor|done]. }
  apply Forall_cons in H as [Hx Hl]. destruct (IH Hl) as (l1 & -> & Hs & Hp). cbn [mbind outcome_bind].
  destruct (sort_insert_run x l1 Hx) as (l2 & E & Hs2 & Hp2); [by rewrite Hp|done|].
  exists l2. split; [done|]. split; [done|]. by rewrite Hp2, Hp.
Qed.

Lemma duplicate_loop_run x l :
  key_ok x -> Forall key_ok l -> StronglySorted key_le (x :: l) ->
  duplicate_loop x l = Ret (if bool_decide (NoDup (map key_text (x :: l))) then Ok tt else Err json_duplicate_error).
Proof.
  revert x. induction l as [|y l IH]; intros x Hx Hl Hs;
    cbn [duplicate_loop map].
  { rewrite bool_decide_true; [done|]. apply NoDup_singleton. }
  apply Forall_cons in Hl as [Hy Hl]. rewrite equal_key_run by done. cbn [mbind outcome_bind].
  apply StronglySorted_inv in Hs as [Hs Hxy].
  destruct (bool_decide_reflect (key_text x = key_text y)) as [E|E].
  { rewrite bool_decide_false; [done|]. rewrite NoDup_cons, E. intros [H _]. apply H. left. }
  rewrite IH by done. f_equal.
  enough (NoDup (map key_text (y :: l)) <-> NoDup (key_text x :: key_text y :: map key_text l)) as Hiff
    by (by rewrite (bool_decide_ext _ _ Hiff)).
  rewrite (NoDup_cons (key_text x)). split; [|by intros [_ ?]]. intros Hn. split; [|done].
  rewrite elem_of_cons. intros [?|Hin]; [done|]. apply list_elem_of_fmap in Hin as (z & Ez & Hz).
  apply Forall_cons in Hxy as [Hxy _]. apply StronglySorted_inv in Hs as [_ Hyz].
  rewrite list.Forall_forall in Hyz. specialize (Hyz z Hz). unfold key_le in *.
  rewrite <- Ez in Hyz. by apply E, text_lt_total.
Qed.

Lemma reject_duplicates_run l :
  Forall key_ok l -> StronglySorted key_le l ->
  reject_duplicates l = Ret (if bool_decide (NoDup (map key_text l)) then Ok tt else Err json_duplicate_error).
Proof.
  destruct l as [|x l]; intros Hl Hs; [done|]. apply Forall_cons in Hl as [Hx Hl]. by apply duplicate_loop_run.
Qed.

(** ** One object *)
Section validation.
Context {N A D V IA IO : Type} {lib : Yyjson N A D V IA IO} {laws : YyjsonLaws lib}.
Context (limits : JsonDocumentLimits).
Implicit Types (n : N).

Abbreviation Frame := (TraversalFrame (V:=V) (IA:=IA) (IO:=IO)).

Definition too_long (k : list ascii) : bool := jl_maximum_string_bytes limits <? Z.of_nat (length k).

(** The scratch array holds the most members an object may have. *)
Definition scratch_ok (s : option (list (option ObjectKey))) : Prop :=
  match s with
  | None => jl_maximum_object_members limits = 0
  | Some cells => Z.of_nat (length cells) = jl_maximum_object_members limits
  end.

Lemma insert_prefix {X} (cells : list (option X)) (l : list X) x :
  take (length l) cells = map Some l -> (length l < length cells)%nat ->
  take (S (length l)) (<[length l := Some x]> cells) = map Some (l ++ [x]).
Proof.
  intros Ht Hl. rewrite (take_S_r _ _ (Some x)) by (by rewrite list_lookup_insert_eq).
  rewrite take_insert_ge by lia. rewrite Ht. by rewrite map_app.
Qed.

Lemma collect_keys_run n ms :
  forall fuel iterator cells ks,
  object_rest n iterator ms -> (length ms < fuel)%nat -> take (length ks) cells = map Some ks ->
  Forall key_ok ks -> (length ks + length ms <= length cells)%nat -> Z.of_nat (length ks + length ms) <= size_max ->
  exists r cells',
    collect_keys lib fuel n iterator cells (Z.of_nat (length ks)) (Z.of_nat (length ks + length ms)) limits =
      Ret (r, cells') /\ length cells' = length cells /\
    if existsb too_long (map fst ms) then r = Err json_key_error
    else r = Ok (Z.of_nat (length ks + length ms)) /\
      exists ks', take (length ks + length ms) cells' = map Some ks' /\ Forall key_ok ks' /\
        map key_text ks' = map key_text ks ++ map fst ms.
Proof.
  induction ms as [|[k t] ms IH]; intros [|fuel] iterator cells ks Hrest Hfuel Hcells Hok Hlen Hsize;
    simpl in Hfuel; try lia; cbn [collect_keys].
  - destruct (law_obj_next n iterator [] Hrest) as ([v|] & i' & -> & Hr); [done|]. cbn [mbind outcome_bind].
    eexists _, _. split; [done|]. split; [done|]. simpl. rewrite Nat.add_0_r. split; [done|].
    exists ks. rewrite app_nil_r. done.
  - destruct (law_obj_next n iterator _ Hrest) as ([key|] & i' & -> & Hr); [|done]. cbn [mbind outcome_bind].
    destruct Hr as (Hkey & Hrest' & _). destruct (law_str n key k Hkey) as (Hl & tail & ->).
    cbn [mbind outcome_bind]. rewrite Hl. cbn [mbind outcome_bind map fst existsb]. fold (too_long k).
    destruct (too_long k) eqn:Elong; [by eexists _, _|]. simpl in Hlen, Hsize.
    rewrite (proj2 (Z.eqb_neq _ _)) by (simpl; lia). rewrite set_slot_ok by lia. rewrite Nat2Z.id.
    cbn [mbind outcome_bind]. set (entry := MkObjectKey (k ++ tail) (Z.of_nat (length k))).
    assert (key_text entry = k) as Hentry.
    { unfold key_text, entry; simpl. rewrite Nat2Z.id. apply take_app_length. }
    rewrite u64_small by (unfold size_max, u64_max in *; lia).
    destruct (IH fuel i' (<[length ks := Some entry]> cells) (ks ++ [entry])) as (r & cells' & E & Hl' & Hr); try done.
    + lia.
    + rewrite length_app. simpl. rewrite Nat.add_1_r. apply insert_prefix; [done|lia].
    + apply Forall_app. split; [done|]. constructor; [|done]. unfold entry. split; simpl; [lia|].
      rewrite length_app. lia.
    + rewrite length_app, length_insert. simpl. lia.
    + rewrite length_app. simpl. lia.
    + rewrite length_app in E, Hr. simpl length in E, Hr.
      replace (length ks + 1 + length ms)%nat with (length ks + S (length ms))%nat in * by lia.
      replace (Z.of_nat (length ks + 1)) with (Z.of_nat (length ks) + 1) in E by lia.
      exists r, cells'. split; [exact E|]. split; [by rewrite length_insert in Hl'|].
      cbn [orb]. destruct (existsb too_long (map fst ms)); [done|]. destruct Hr as (-> & ks' & H1 & H2 & H3).
      split; [done|]. exists ks'. split; [done|]. split; [done|]. rewrite H3, map_app. simpl.
      rewrite Hentry. by rewrite <- app_assoc.
Qed.

Lemma read_cells_run {X} (n : nat) (cells : list (option X)) l :
  take n cells = map Some l -> length l = n -> read_cells n cells = Ret l.
Proof.
  intros Ht Hl. unfold read_cells. rewrite Ht.
  assert (mapM id (map Some l) = Some l) as ->.
  { apply mapM_Some. clear. induction l; constructor; done. }
  by rewrite Hl, Nat.eqb_refl.
Qed.

Lemma NoDup_keys_permutation l l' :
  l ≡ₚ l' -> bool_decide (NoDup (map key_text l)) = bool_decide (NoDup (map key_text l')).
Proof. intros H. apply bool_decide_ext. f_equiv. by apply fmap_Permutation. Qed.

Lemma validate_object_run n object ms s :
  denotes n object (T_obj ms) -> scratch_ok s -> jl_maximum_object_members limits <= size_max ->
  exists s', validate_object lib n object s (jl_maximum_object_members limits) limits =
    Ret (check_keys limits (map fst ms), s') /\ scratch_ok s'.
Proof.
  intros Hd Hs Hmax. unfold validate_object, check_keys. rewrite (law_obj_size n object ms Hd), length_map.
  cbn [mbind outcome_bind].
  destruct (Z.ltb_spec (jl_maximum_object_members limits) (Z.of_nat (length ms))) as [|Hm]; [by eexists|].
  assert ((negb (Z.of_nat (length ms) =? 0) && match s with None => true | Some _ => false end) = false) as ->.
  { destruct s as [cells|]; [by rewrite andb_false_r|]. simpl in Hs.
    rewrite (proj2 (Z.eqb_eq _ _)) by lia. done. }
  simpl orb. cbv iota. destruct (law_obj_iter n object ms Hd) as (i & -> & Hrest). cbn [mbind outcome_bind].
  destruct (collect_keys_run n ms (S (S (Z.to_nat (Z.of_nat (length ms))))) i (default [] s) [])
    as (r & cells' & E & Hl' & Hr); try done; try (simpl; lia).
  { destruct s as [cells|]; simpl in *; lia. }
  simpl length in E. simpl Nat.add in E. change (Z.of_nat 0) with 0 in E. rewrite E. clear E.
  cbn [mbind outcome_bind].
  assert (scratch_ok match s with None => None | Some _ => Some cells' end) as Hs'.
  { destruct s as [cells|]; simpl in *; [lia|done]. }
  change (fun k => jl_maximum_string_bytes limits <? Z.of_nat (length k)) with too_long.
  destruct (existsb too_long (map fst ms)); [rewrite Hr; by eexists|].
  destruct Hr as (-> & ks & Ht & Hok & Htext). simpl in Ht, Htext. rewrite Z.eqb_refl. simpl negb. cbv iota.
  assert (length ks = length ms) as Hks by (by rewrite <- (length_map key_text), Htext, length_map).
  rewrite Nat2Z.id. rewrite (read_cells_run _ _ ks) by done. cbn [mbind outcome_bind].
  destruct (std_sort_run ks Hok) as (sorted & -> & Hsort & Hperm). cbn [mbind outcome_bind].
  rewrite reject_duplicates_run; [|by rewrite Hperm|done]. cbn [mbind outcome_bind].
  rewrite (NoDup_keys_permutation sorted ks Hperm), Htext. eexists. split; [done|].
  destruct s as [cells|]; [|done]. simpl in *. rewrite length_app, length_map, length_drop.
  rewrite (Permutation_length Hperm). lia.
Qed.

(** ** The traversal *)

(** The children a frame has still to visit. *)
Inductive frame_rest n : Frame -> list jtree -> Prop :=
  | rest_array v d i io ts :
      array_rest n i ts -> frame_rest n (MkTraversalFrame v d state_array (Some i) io) ts
  | rest_object v d ia i ms :
      object_rest n i ms -> frame_rest n (MkTraversalFrame v d state_object ia (Some i)) (map snd ms).

Lemma next_child_run n frame ts :
  frame_rest n frame ts ->
  tf_state frame <> state_enter /\
  exists child frame', next_child lib n frame = Ret (child, frame') /\ tf_depth frame' = tf_depth frame /\
    match ts, child with
    | t :: ts', Some w => denotes n w t /\ frame_rest n frame' ts' | [], None => True | _, _ => False
    end.
Proof.
  intros [v d i io ts' Hrest|v d ia i ms Hrest]; (split; [done|]); unfold next_child; cbn [tf_state tf_array_iterator tf_object_iterator].
  - destruct (law_arr_next n i ts' Hrest) as (r & i' & -> & Hr). cbn [mbind outcome_bind].
    eexists _, _. split; [done|]. split; [done|]. destruct ts', r; try done. split; [apply Hr|]. constructor. apply Hr.
  - destruct (law_obj_next n i ms Hrest) as (r & i' & -> & Hr). cbn [mbind outcome_bind].
    destruct ms as [|[k t] ms], r as [key|]; try done; cbn [mbind outcome_bind].
    + eexists _, _. split; [done|]. done.
    + destruct Hr as (_ & Hrest' & w & -> & Hw). cbn [mbind outcome_bind].
      eexists _, _. split; [done|]. split; [done|]. split; [done|]. by constructor.
Qed.

(** The rounds a subtree takes when it is accepted. *)
Fixpoint rounds (t : jtree) : nat :=
  match t with
  | T_arr ts => S (S (sum_values (fun t => S (rounds t)) ts))
  | T_obj ms => S (S (sum_values (fun m => S (rounds (snd m))) ms))
  | _ => 1%nat
  end.

Lemma rounds_bound t : (S (rounds t) <= 3 * tree_values t)%nat.
Proof.
  induction t as [| | | | |s|ts IH|ms IH] using jtree_induction; cbn [rounds tree_values]; try lia.
  - enough (sum_values (fun t => S (rounds t)) ts <= 3 * sum_values tree_values ts)%nat by lia.
    induction IH; simpl; lia.
  - enough (sum_values (fun m => S (rounds (snd m))) ms <= 3 * sum_values (fun m => S (tree_values (snd m))) ms)%nat by lia.
    induction IH; simpl; lia.
Qed.

Context (n : N) (nesting : nat).
Hypothesis nesting_limit : jl_maximum_nesting limits = Z.of_nat nesting.
Hypothesis limits_fit : Z.of_nat nesting < size_max /\ jl_maximum_object_members limits <= size_max.

Abbreviation walk fuel frames count s :=
  (traverse lib fuel n frames (Z.of_nat count) (Z.of_nat nesting) s (jl_maximum_object_members limits) limits).

(** From frames with [S j] in use, the top one is dealt with in [cost] rounds with result [r]:
    the walk goes on with the frames below, unchanged, or ends with the error. *)
Definition handled (cost j : nat) (frames : list (option Frame)) (s : option (list (option ObjectKey)))
    (r : Result unit) : Prop :=
  forall fuel, exists frames' s',
    length frames' = length frames /\ take j frames' = take j frames /\ scratch_ok s' /\
    walk (cost + fuel) frames (S j) s =
      match r with Ok _ => walk fuel frames' j s' | Err e => Ret (Err e, s') end.

Definition visited (t : jtree) : Prop :=
  forall v frames j s,
    denotes n v t -> frames !! j = Some (Some (enter_frame v (Z.of_nat (S j)))) -> (S j <= nesting)%nat ->
    length frames = nesting -> scratch_ok s ->
    handled (rounds t) j frames s (check_tree limits (Z.of_nat (S j)) t).

Lemma walk_step fuel frames j s frame :
  frames !! j = Some (Some frame) -> tf_depth frame = Z.of_nat (S j) -> (S j <= nesting)%nat ->
  walk (S fuel) frames (S j) s =
    (next ← match tf_state frame with
            | state_enter => enter_round lib n frame frames (Z.of_nat (S j)) s (jl_maximum_object_members limits) limits
            | _ => child_round lib n frame frames (Z.of_nat (S j)) (Z.of_nat nesting) s
            end;
     match next with
     | Done r s => Ret (r, s)
     | Continue frames count s =>
         traverse lib fuel n frames count (Z.of_nat nesting) s (jl_maximum_object_members limits) limits
     end).
Proof.
  intros Hf Hd Hj. cbn [traverse]. rewrite (proj2 (Z.eqb_neq _ _)) by lia.
  unfold traversal_round, read_frame. replace (Z.of_nat (S j) - 1) with (Z.of_nat j) by lia.
  rewrite (slot_ok _ _ (Some frame)) by (by rewrite Nat2Z.id). cbn [mbind outcome_bind].
  rewrite Hd, nesting_limit, (proj2 (Z.ltb_ge _ _)) by lia. done.
Qed.

Lemma set_top_frame (frames : list (option Frame)) j frame :
  (j < length frames)%nat ->
  set_slot frames (Z.of_nat (S j) - 1) (Some frame) = Ret (<[j := Some frame]> frames).
Proof.
  intros Hj. rewrite set_slot_ok by lia. repeat f_equal. lia.
Qed.

(** A round on a container: its next child is pushed, or the container is left. *)
Lemma child_step ts frames j s frame :
  frames !! j = Some (Some frame) -> tf_depth frame = Z.of_nat (S j) -> frame_rest n frame ts ->
  (S j <= nesting)%nat -> length frames = nesting ->
  exists frame', tf_depth frame' = Z.of_nat (S j) /\
    match ts with
    | [] => forall fuel, walk (S fuel) frames (S j) s = walk fuel (<[j := Some frame']> frames) j s
    | t :: ts' =>
        frame_rest n frame' ts' /\ exists w, denotes n w t /\ forall fuel,
          walk (S fuel) frames (S j) s =
            if decide (S j = nesting) then Ret (Err json_nesting_error, s)
            else walk fuel (<[S j := Some (enter_frame w (Z.of_nat (S (S j))))]> (<[j := Some frame']> frames)) (S (S j)) s
    end.
Proof.
  intros Hf Hd Hrest Hj Hlen.
  destruct (next_child_run n frame ts Hrest) as (Hst & child & frame' & Hchild & Hd' & Hcase).
  assert (Hround : forall fuel, walk (S fuel) frames (S j) s =
    (next ← child_round lib n frame frames (Z.of_nat (S j)) (Z.of_nat nesting) s;
     match next with
     | Done r s => Ret (r, s)
     | Continue frames count s =>
         traverse lib fuel n frames count (Z.of_nat nesting) s (jl_maximum_object_members limits) limits
     end)).
  { intros fuel. rewrite (walk_step fuel frames j s frame Hf Hd Hj). by destruct (tf_state frame). }
  unfold child_round in Hround. rewrite Hchild in Hround. cbn [mbind outcome_bind] in Hround.
  rewrite set_top_frame in Hround by lia. cbn [mbind outcome_bind] in Hround.
  exists frame'. split; [lia|]. destruct ts as [|t ts], child as [w|]; try done.
  - intros fuel. rewrite Hround. cbn [mbind outcome_bind]. by replace (Z.of_nat (S j) - 1) with (Z.of_nat j) by lia.
  - destruct Hcase as [Hw Hrest']. split; [done|]. exists w. split; [done|]. intros fuel. rewrite Hround.
    destruct (decide (S j = nesting)) as [Hfull|Hroom]; [by rewrite (proj2 (Z.eqb_eq _ _)) by lia|].
    rewrite (proj2 (Z.eqb_neq _ _)) by lia. rewrite set_slot_ok by (rewrite length_insert; lia).
    cbn [mbind outcome_bind]. rewrite Nat2Z.id, Hd', Hd, u64_small by (unfold size_max, u64_max in *; lia).
    by replace (Z.of_nat (S j) + 1) with (Z.of_nat (S (S j))) by lia.
Qed.

Lemma take_below {X} (l1 l2 : list X) j : take (S j) l1 = take (S j) l2 -> take j l1 = take j l2 /\ l1 !! j = l2 !! j.
Proof.
  intros E. split.
  - assert (take j (take (S j) l1) = take j (take (S j) l2)) as E' by (by rewrite E).
    by rewrite !take_take, Nat.min_l in E' by lia.
  - rewrite <- (lookup_take_lt l1 (S j)), E, lookup_take_lt by lia. done.
Qed.

(** The children of the top frame. *)
Lemma children_handled ts :
  Forall visited ts -> forall frames j s frame,
  frames !! j = Some (Some frame) -> tf_depth frame = Z.of_nat (S j) -> frame_rest n frame ts ->
  (S j <= nesting)%nat -> length frames = nesting -> scratch_ok s ->
  handled (S (sum_values (fun t => S (rounds t)) ts)) j frames s
    (check_all (check_tree limits (Z.of_nat (S (S j)))) ts).
Proof.
  induction 1 as [|t ts Ht _ IH]; intros frames j s frame Hf Hd Hrest Hj Hlen Hs fuel;
    destruct (child_step _ frames j s frame Hf Hd Hrest Hj Hlen) as (frame' & Hd' & Hstep);
    cbn [sum_values check_all Nat.add].
  { exists (<[j := Some frame']> frames), s. rewrite length_insert, take_insert_ge by lia. by rewrite Hstep. }
  destruct Hstep as (Hrest' & w & Hw & Hstep). rewrite Hstep. clear Hstep.
  destruct (decide (S j = nesting)) as [Hfull|Hroom].
  { exists frames, s. replace (check_tree limits (Z.of_nat (S (S j))) t) with (Err (A:=unit) json_nesting_error); [done|].
    destruct t; cbn [check_tree]; by rewrite nesting_limit, (proj2 (Z.ltb_lt _ _)) by lia. }
  set (frames1 := <[j := Some frame']> frames).
  set (frames2 := <[S j := Some (enter_frame w (Z.of_nat (S (S j))))]> frames1).
  assert (length frames1 = nesting) as Hl1 by (unfold frames1; by rewrite length_insert).
  assert (length frames2 = nesting) as Hl2 by (unfold frames2; by rewrite length_insert).
  destruct (Ht w frames2 (S j) s Hw ltac:(unfold frames2; by rewrite list_lookup_insert_eq by lia)
    ltac:(lia) Hl2 Hs (S (sum_values (fun t => S (rounds t)) ts) + fuel)%nat) as (frames3 & s3 & Hl3 & Htake & Hs3 & E).
  replace (S (rounds t + sum_values (fun t => S (rounds t)) ts + fuel))%nat
    with (rounds t + (S (sum_values (fun t => S (rounds t)) ts) + fuel))%nat by lia.
  rewrite E. destruct (check_tree limits (Z.of_nat (S (S j))) t) as [[]|e]; [|by exists frames, s3].
  unfold frames2 in Htake. rewrite take_insert_ge in Htake by lia.
  apply take_below in Htake as [Htake Hf3]. unfold frames1 in Hf3. rewrite list_lookup_insert_eq in Hf3 by lia.
  destruct (IH frames3 j s3 frame' Hf3 Hd' Hrest' Hj ltac:(lia) Hs3 fuel) as (frames4 & s4 & Hl4 & Ht4 & Hs4 & E4).
  exists frames4, s4. split; [lia|]. split; [|done]. rewrite Ht4, Htake. unfold frames1.
  by rewrite take_insert_ge by lia.
Qed.

Lemma check_all_snd {X Y} (f : Y -> Result unit) (l : list (X * Y)) :
  check_all (fun m => f (snd m)) l = check_all f (map snd l).
Proof. induction l as [|m l IH]; simpl; [done|]. by destruct (f (snd m)). Qed.

Lemma sum_values_snd {X Y} (f : Y -> nat) (l : list (X * Y)) :
  sum_values (fun m => f (snd m)) l = sum_values f (map snd l).
Proof. induction l as [|m l IH]; simpl; lia. Qed.

(** Entering a value of each kind. *)
Ltac entering Hk :=
  unfold enter_round; cbn [enter_frame tf_value]; destruct Hk as (_ & _ & _ & _ & _ & -> & -> & ->);
  cbn [mbind outcome_bind tree_kind]; rewrite ?bool_decide_true, ?bool_decide_false by done;
  cbn [mbind outcome_bind].

Lemma all_visited t : visited t.
Proof.
  induction t as [| | | | |str|ts IH|ms IH] using jtree_induction; intros v frames j s Hd Hf Hj Hlen Hs fuel;
    pose proof (law_kinds n v _ Hd) as Hk; cbn [check_tree rounds Nat.add];
    rewrite nesting_limit, (proj2 (Z.ltb_ge _ _)) by lia;
    rewrite (walk_step _ frames j s _ Hf eq_refl Hj); cbn [enter_frame tf_state];
    replace (Z.of_nat (S j) + 1) with (Z.of_nat (S (S j))) by lia;
    try (exists frames, s; split; [done|]; split; [done|]; split; [done|]; entering Hk;
         by replace (Z.of_nat (S j) - 1) with (Z.of_nat j) by lia).
  - exists frames, s. split; [done|]. split; [done|]. split; [done|]. entering Hk.
    destruct (law_str n v str Hd) as [-> _]. cbn [mbind outcome_bind].
    destruct (Z.ltb_spec (jl_maximum_string_bytes limits) (Z.of_nat (length str))); [done|].
    by replace (Z.of_nat (S j) - 1) with (Z.of_nat j) by lia.
  - entering Hk. destruct (law_arr_iter n v ts Hd) as (i & -> & Hrest). cbn [mbind outcome_bind].
    rewrite set_top_frame by lia. cbn [mbind outcome_bind].
    destruct (children_handled ts IH (<[j := Some (set_iterator (enter_frame v (Z.of_nat (S j))) state_array (Some i) None)]> frames)
      j s _ ltac:(apply list_lookup_insert_eq; lia) eq_refl (rest_array n _ _ _ _ _ Hrest) Hj
      ltac:(by rewrite length_insert) Hs fuel) as (frames' & s' & Hl & Ht & Hs' & E).
    rewrite length_insert, take_insert_ge in * by lia. exists frames', s'. done.
  - entering Hk. destruct (validate_object_run n v ms s Hd Hs ltac:(lia)) as (s1 & -> & Hs1). cbn [mbind outcome_bind].
    destruct (check_keys limits (map fst ms)) as [[]|e]; [|by exists frames, s1].
    destruct (law_obj_iter n v ms Hd) as (i & -> & Hrest). cbn [mbind outcome_bind].
    rewrite set_top_frame by lia. cbn [mbind outcome_bind].
    destruct (children_handled (map snd ms) ltac:(by apply Forall_fmap)
      (<[j := Some (set_iterator (enter_frame v (Z.of_nat (S j))) state_object None (Some i))]> frames)
      j s1 _ ltac:(apply list_lookup_insert_eq; lia) eq_refl (rest_object n _ _ _ _ _ Hrest) Hj
      ltac:(by rewrite length_insert) Hs1 fuel) as (frames' & s' & Hl & Ht & Hs' & E).
    rewrite length_insert, take_insert_ge in * by lia. exists frames', s'.
    rewrite (check_all_snd (check_tree limits (Z.of_nat (S (S j))))), (sum_values_snd (fun t => S (rounds t))). done.
Qed.

Lemma validate_document_run document t frames s :
  live n document t -> (1 <= nesting)%nat -> length frames = nesting -> scratch_ok s ->
  exists s', validate_document lib n document (Some frames) (Z.of_nat nesting) s
    (jl_maximum_object_members limits) limits = Ret (check_document limits t, s').
Proof.
  intros Hlive H1 Hlen Hs. unfold validate_document, check_document. rewrite (law_count n document t Hlive).
  cbn [mbind outcome_bind].
  destruct (Z.ltb_spec (jl_maximum_aggregate_values limits) (Z.of_nat (tree_values t))); [by eexists|].
  destruct (law_root n document t Hlive) as (v & -> & Hv). cbn [mbind outcome_bind].
  rewrite (proj2 (Z.eqb_neq _ _)) by lia. rewrite set_slot_ok by lia. cbn [mbind outcome_bind].
  rewrite Nat2Z.id. pose proof (rounds_bound t).
  destruct (all_visited t v (<[0%nat := Some (enter_frame v 1)]> frames) 0%nat s Hv
    ltac:(apply list_lookup_insert_eq; lia) H1 ltac:(by rewrite length_insert) Hs (3 * tree_values t - rounds t)%nat)
    as (frames' & s' & _ & _ & _ & E).
  replace (rounds t + (3 * tree_values t - rounds t))%nat with (3 * tree_values t)%nat in E by lia.
  change (Z.to_nat 0) with 0%nat. exists s'. change (Z.of_nat 1) with 1 in E. rewrite E.
  destruct (check_tree limits 1 t) as [[]|e]; [|done].
  by destruct (3 * tree_values t - rounds t)%nat.
Qed.
End validation.

Lemma validate_limits_ok {N A D V IA IO : Type} (lib : Yyjson N A D V IA IO) (laws : YyjsonLaws lib) limits :
  validate_limits lib limits = Ok tt ->
  (jl_maximum_document_bytes limits <> 0 /\ jl_maximum_nesting limits <> 0 /\ jl_maximum_string_bytes limits <> 0 /\
   jl_maximum_aggregate_values limits <> 0) /\
  jl_maximum_nesting limits * sizeof_TraversalFrame lib <= size_max /\
  jl_maximum_object_members limits * sizeof_ObjectKey <= size_max /\
  jl_maximum_nesting limits < size_max /\ jl_maximum_object_members limits <= size_max.
Proof.
  intros Hlim. pose proof law_frame_size as Hsz. unfold validate_limits in Hlim.
  destruct (_ || _) eqn:E in Hlim; [done|]. rewrite !orb_false_iff, !Z.eqb_neq in E.
  destruct (Z.ltb_spec (size_max / sizeof_TraversalFrame lib) (jl_maximum_nesting limits)) as [|Hn]; [done|].
  destruct (Z.ltb_spec (size_max / sizeof_ObjectKey) (jl_maximum_object_members limits)) as [|Hm]; [done|].
  unfold sizeof_ObjectKey in *.
  assert (jl_maximum_nesting limits * sizeof_TraversalFrame lib <= size_max).
  { pose proof (Z.mul_div_le size_max (sizeof_TraversalFrame lib) ltac:(lia)). nia. }
  assert (jl_maximum_object_members limits * 16 <= size_max).
  { pose proof (Z.mul_div_le size_max 16 ltac:(lia)). nia. }
  split; [tauto|]. split; [done|]. split; [done|]. unfold size_max, u64_max in *. split; [nia|lia].
Qed.

(** C14: the validation of a parsed document always ends and never reads a cell that was not
    written or a freed value; it accepts exactly the documents whose number of values, nesting,
    object sizes, string and key lengths are within the caller's limits and whose objects have
    no duplicate keys, and on the others returns the error of the first violation in document
    order. *)
Theorem validate_document_exact {N A D V IA IO : Type} (lib : Yyjson N A D V IA IO) (laws : YyjsonLaws lib)
    (limits : JsonDocumentLimits) (n : N) (document : D) (t : jtree)
    (frames : list (option TraversalFrame)) (key_scratch : option (list (option ObjectKey))) :
  live n document t -> validate_limits lib limits = Ok tt ->
  0 <= jl_maximum_nesting limits -> Z.of_nat (length frames) = jl_maximum_nesting limits ->
  scratch_ok limits key_scratch ->
  exists r s', validate_document lib n document (Some frames) (jl_maximum_nesting limits) key_scratch
      (jl_maximum_object_members limits) limits = Ret (r, s') /\
    r = check_document limits t /\ (r = Ok tt <-> conforms limits t).
Proof.
  intros Hlive Hlim H0 Hlen Hs. apply (validate_limits_ok lib laws) in Hlim.
  assert (Hfit : Z.of_nat (length frames) < size_max /\ jl_maximum_object_members limits <= size_max) by lia.
  destruct (validate_document_run limits n (length frames) ltac:(by rewrite Hlen) Hfit document t frames key_scratch Hlive
    ltac:(lia) eq_refl Hs) as (s' & E).
  rewrite Hlen in E. exists (check_document limits t), s'. split; [done|]. split; [done|]. apply check_document_ok.
Qed.
