(* ===== verification/StructuredClient.v ===== *)
(** * Documents, the values borrowed from them, and their clients

    What each accessor returns on a value that denotes a tree, what parsing does on every
    branch, and the clients of one arena: programs that parse, move, destroy and read
    documents and reset the arena in any order; a library that satisfies the laws, and the
    witnesses. *)
From S2P Require Import Prelude Contract CheckedArithmetic Identifiers MemoryBudget BudgetInvariant MemoryBudgetSpec.
From S2P Require Import BudgetClient Views BlockSource BoundedBuffer BufferSpec BoundedArena ArenaSpec Dependencies.
From S2P Require Import StructuredData StructuredSpec.
From Stdlib Require Import ZArith Lia String Ascii.
From stdpp Require Import base numbers list gmap option.

Set Default Goal Selector "!".
#[local] Open Scope Z_scope.

Section values.
Context {N A D V IA IO C L : Type} {lib : Yyjson N A D V IA IO} {laws : YyjsonLaws lib}.
Abbreviation World := (JsonWorld (N:=N) (C:=C) (L:=L)).
Abbreviation Value := (JsonValue (V:=V)).
Abbreviation Document := (JsonDocument (D:=D)).
Implicit Types (w : World) (v : Value) (t : jtree).

(** ** Reading values *)

(** The value is valid and stands for [t]. *)
Definition value_denotes w v t : Prop :=
  exists x, JsonValue_require_valid v w = Ret (Ok x) /\ denotes (jw_native w) x t.

Lemma value_kind_run n (x : V) t : denotes n x t -> value_kind lib n x = Ret (Ok (tree_kind t)).
Proof.
  intros Hd. destruct (law_kinds n x t Hd) as (E1 & E2 & E3 & E4 & E5 & E6 & E7 & E8). unfold value_kind.
  rewrite E1, E2, E3, E4, E5, E6, E7, E8. by destruct t.
Qed.

Lemma with_kind_run {T} w v t x (k : JsonValueKind) (read : V -> outcome (Result T)) :
  JsonValue_require_valid v w = Ret (Ok x) -> denotes (jw_native w) x t ->
  with_kind lib v w k read = if decide (tree_kind t = k) then read x else Ret (Err json_kind_error).
Proof.
  intros E Hd. unfold with_kind, require_kind. rewrite E. cbn [mbind outcome_bind].
  rewrite (value_kind_run _ _ t Hd). cbn [mbind outcome_bind]. by destruct (decide (tree_kind t = k)) as [->|];
    [rewrite bool_decide_true by done|rewrite bool_decide_false by done].
Qed.

Lemma child_denotes w v x child t :
  JsonValue_require_valid v w = Ret (Ok x) -> denotes (jw_native w) child t ->
  value_denotes w (child_value v child) t.
Proof.
  intros E Hd. exists child. split; [|done]. unfold JsonValue_require_valid in *. simpl.
  destruct (jv_arena v), (jv_document_state v) as [p|], (jv_native_value v); try done.
  destruct (negb _); [done|]. destruct (jw_states w !! p); [|done]. by destruct (_ || _).
Qed.

(** What [array_at] and [object_member] find. *)
Definition tree_index t (index : Z) : Result jtree :=
  match t with
  | T_arr ts => match ts !! Z.to_nat index with Some t' => Ok t' | None => Err json_index_error end
  | _ => Err json_kind_error
  end.
Definition tree_member (maximum_key : Z) t (key : TextView) : Result jtree :=
  match t with
  | T_obj ms =>
      if maximum_key <? Z.of_nat (length key) then Err json_lookup_error else
      match find_member key ms with Some t' => Ok t' | None => Err json_member_error end
  | _ => Err json_kind_error
  end.

(** The result of an accessor that borrows a child. *)
Definition same_document v v' : Prop :=
  jv_maximum_lookup_key_bytes v' = jv_maximum_lookup_key_bytes v /\ jv_arena v' = jv_arena v /\
  jv_document_state v' = jv_document_state v.
Definition borrows w v (r : Result Value) (expected : Result jtree) : Prop :=
  match r, expected with
  | Ok v', Ok t' => value_denotes w v' t' /\ same_document v v'
  | Err e, Err e' => e = e'
  | _, _ => False
  end.

Lemma array_at_run w v t index :
  value_denotes w v t -> 0 <= index ->
  exists r, JsonValue_array_at lib v w index = Ret r /\
    borrows w v r (tree_index t index).
Proof.
  intros (x & E & Hd) Hi. unfold JsonValue_array_at. rewrite (with_kind_run w v t x) by done.
  destruct (decide (tree_kind t = kind_array)) as [Hk|Hk]; [|eexists; split; [done|]; by destruct t].
  destruct t as [| | | | | |ts|]; try done. destruct (law_arr_get _ x ts index Hd Hi) as (r & -> & Hr).
  cbn [mbind outcome_bind tree_index]. destruct (ts !! Z.to_nat index), r as [child|]; try done.
  - eexists. split; [done|]. split; [|done]. by eapply child_denotes.
  - by eexists.
Qed.

Lemma object_member_run w v t key :
  value_denotes w v t ->
  exists r, JsonValue_object_member lib v w key = Ret r /\
    borrows w v r (tree_member (jv_maximum_lookup_key_bytes v) t key).
Proof.
  intros (x & E & Hd). unfold JsonValue_object_member. rewrite (with_kind_run w v t x) by done.
  destruct (decide (tree_kind t = kind_object)) as [Hk|Hk]; [|eexists; split; [done|]; by destruct t].
  destruct t as [| | | | | | |ms]; try done. cbn [tree_member]. destruct (_ <? _); [by eexists|].
  destruct (law_obj_get _ x ms key Hd) as (r & -> & Hr). cbn [mbind outcome_bind].
  destruct (find_member key ms), r as [child|]; try done.
  - eexists. split; [done|]. split; [|done]. by eapply child_denotes.
  - by eexists.
Qed.

(** What the other accessors return. *)
Definition reads_as w v t : Prop :=
  JsonValue_kind lib v w = Ret (Ok (tree_kind t)) /\
  JsonValue_boolean lib v w = Ret (match t with T_bool b => Ok b | _ => Err json_kind_error end) /\
  JsonValue_unsigned_integer lib v w = Ret (match t with T_uint z => Ok z | _ => Err json_kind_error end) /\
  JsonValue_signed_integer lib v w = Ret (match t with T_sint z => Ok z | _ => Err json_kind_error end) /\
  JsonValue_real lib v w = Ret (match t with T_real z => Ok z | _ => Err json_kind_error end) /\
  JsonValue_text lib v w = Ret (match t with T_str s => Ok s | _ => Err json_kind_error end) /\
  JsonValue_array_size lib v w =
    Ret (match t with T_arr ts => Ok (Z.of_nat (length ts)) | _ => Err json_kind_error end) /\
  JsonValue_object_size lib v w =
    Ret (match t with T_obj ms => Ok (Z.of_nat (length ms)) | _ => Err json_kind_error end).

Lemma text_of_characters (s tail : list ascii) : TextView_from (Some (s ++ tail)) (Z.of_nat (length s)) = Ok s.
Proof.
  unfold TextView_from. destruct (Z.eqb_spec (Z.of_nat (length s)) 0) as [E|E].
  - by destruct s.
  - by rewrite Nat2Z.id, take_app_length.
Qed.

Lemma reads_as_run w v t : value_denotes w v t -> reads_as w v t.
Proof.
  intros (x & E & Hd). unfold reads_as, JsonValue_boolean, JsonValue_unsigned_integer, JsonValue_signed_integer,
    JsonValue_real, JsonValue_text, JsonValue_array_size, JsonValue_object_size.
  rewrite !(with_kind_run w v t x) by done. split.
  { unfold JsonValue_kind. rewrite E. apply value_kind_run, Hd. }
  destruct t as [|b|z|z|z|s|ts|ms]; cbn [tree_kind]; rewrite ?decide_True, ?decide_False by done; repeat split.
  - by rewrite (law_bool _ _ _ Hd).
  - by rewrite (law_uint _ _ _ Hd).
  - by rewrite (law_sint _ _ _ Hd).
  - by rewrite (law_real _ _ _ Hd).
  - destruct (law_str _ _ _ Hd) as (El & tail & ->). cbn [mbind outcome_bind]. rewrite El.
    cbn [mbind outcome_bind]. by rewrite text_of_characters.
  - by rewrite (law_arr_size _ _ _ Hd).
  - by rewrite (law_obj_size _ _ _ Hd).
Qed.

(** ** Paths *)
Inductive path_step := Index (index : Z) | Member (key : TextView).

Fixpoint navigate w v (path : list path_step) : outcome (Result Value) :=
  match path with
  | [] => Ret (Ok v)
  | step :: path =>
      r ← match step with
          | Index index => JsonValue_array_at lib v w index
          | Member key => JsonValue_object_member lib v w key
          end;
      match r with Err e => Ret (Err e) | Ok v => navigate w v path end
  end.

Fixpoint tree_at (maximum_key : Z) t (path : list path_step) : Result jtree :=
  match path with
  | [] => Ok t
  | Index index :: path => t ← tree_index t index; tree_at maximum_key t path
  | Member key :: path => t ← tree_member maximum_key t key; tree_at maximum_key t path
  end.

Definition path_ok (path : list path_step) : Prop :=
  Forall (fun s => match s with Index index => 0 <= index | Member _ => True end) path.

Lemma navigate_run w path : path_ok path -> forall v t,
  value_denotes w v t ->
  exists r, navigate w v path = Ret r /\
    borrows w v r (tree_at (jv_maximum_lookup_key_bytes v) t path).
Proof.
  induction 1 as [|step path Hs _ IH]; intros v t Hv; simpl.
  { by eexists. }
  assert (exists r found, match step with
      | Index index => JsonValue_array_at lib v w index
      | Member key => JsonValue_object_member lib v w key
      end = Ret r /\ borrows w v r found /\
      tree_at (jv_maximum_lookup_key_bytes v) t (step :: path) =
        (t ← found; tree_at (jv_maximum_lookup_key_bytes v) t path)) as (r & found & -> & Hr & Heq).
  { destruct step as [index|key].
    - destruct (array_at_run w v t index Hv Hs) as (r & E & Hr). eauto.
    - destruct (object_member_run w v t key Hv) as (r & E & Hr). eauto. }
  simpl in Heq. rewrite Heq. cbn [mbind outcome_bind].
  destruct r as [v'|e], found as [t'|e']; try done.
  - destruct Hr as (Hv' & Em & E2 & E3). destruct (IH v' t' Hv') as (r & E & Hr). exists r. split; [done|].
    cbn [mbind Result_bind]. rewrite <- Em. revert Hr. unfold borrows, same_document.
    destruct r as [v''|], (tree_at _ t' path); try done. intros (? & ? & ? & ?). split; [done|]. repeat split; congruence.
  - simpl in Hr. subst. by eexists.
Qed.
End values.

(** ** Storage *)
Section parsing.
Context {N A D V IA IO C L : Type} {lib : Yyjson N A D V IA IO} {laws : YyjsonLaws lib}.
Context (acquire : C -> Z -> Result MutableByteView * C) (reset : C -> Result unit * C).
(** The blocks of the source are memory, and [shape] gives their sizes. *)
Context (shape : gmap nat nat).
Abbreviation World := (JsonWorld (N:=N) (C:=C) (L:=L)).
Abbreviation Document := (JsonDocument (D:=D)).
Implicit Types (w : World).

Definition in_shape (v : span) : Prop :=
  match span_data v with
  | None => True
  | Some p => exists len, shape !! ptr_block p = Some len /\ 0 <= ptr_offset p /\
                ptr_offset p + span_size v <= Z.of_nat len
  end.

Hypothesis acquire_view : forall c n v c', acquire c n = (Ok v, c') -> view_ok v /\ in_shape v.

Definition memory_ok (mem : Memory) : Prop :=
  forall b len, shape !! b = Some len -> exists l, mem !! b = Some l /\ length l = len.

Record world_ok w : Prop := {
  wo_arena : arena_inv acquire reset (jw_arena w) (jw_heap w);
  wo_memory : memory_ok (jw_memory w);
  wo_storage : in_shape (ba_storage (jw_arena w)) }.

(** What a step on the arena's storage keeps. *)
Record same_world w w' : Prop := {
  sw_arena : same_arena (jw_arena w) (jw_arena w');
  sw_generation : ba_generation (jw_arena w') = ba_generation (jw_arena w);
  sw_offset : ba_offset (jw_arena w) <= ba_offset (jw_arena w') }.

Lemma same_world_refl w : same_world w w.
Proof. split; [by split|done|done]. Qed.

Lemma same_world_trans w1 w2 w3 : same_world w1 w2 -> same_world w2 w3 -> same_world w1 w3.
Proof.
  intros [[A1 A2 A3 A4 A5] A6 A7] [[B1 B2 B3 B4 B5] B6 B7]. split; [split; congruence|congruence|lia].
Qed.

(** The effect of one allocation. *)
Definition allocates w bytes alignment (r : Result (MutableByteView * Z)) w' : Prop :=
  world_ok w' /\ same_world w w' /\
  jw_native w' = jw_native w /\ jw_memory w' = jw_memory w /\ jw_states w' = jw_states w /\ jw_log w' = jw_log w /\
  match r with
  | Err _ => jw_arena w' = jw_arena w
  | Ok (v, g) =>
      g = ba_generation (jw_arena w) /\
      if decide (bytes = 0) then v = empty_span /\ jw_arena w' = jw_arena w
      else span_size v = bytes /\ in_shape v /\ span_data v <> None /\
        exists start, start mod alignment = 0 /\
          ba_offset (jw_arena w) <= start < ba_offset (jw_arena w) + alignment /\
          ba_offset (jw_arena w') = start + bytes
  end.

Lemma in_shape_subspan storage start bytes :
  in_shape storage -> 0 <= start -> start + bytes <= span_size storage -> in_shape (subspan storage start bytes).
Proof.
  unfold in_shape, subspan. simpl. destruct (span_data storage) as [p|]; [|done]. simpl.
  intros (len & Hl & Hp & Hs) H1 H2. exists len. split; [done|]. lia.
Qed.

Lemma allocate_bytes_run w worker bytes alignment :
  world_ok w -> value_ worker = value_ (ba_worker (jw_arena w)) -> is_size bytes -> is_size alignment ->
  exists r w', allocate_bytes w worker bytes alignment = Ret (r, w') /\ allocates w bytes alignment r w'.
Proof.
  intros [HI Hm Hst] Hw Hb Ha. unfold allocate_bytes.
  destruct (allocate_run acquire reset (fun c n v c' H => proj1 (acquire_view c n v c' H)) _ _ (jw_context w) worker bytes alignment HI Hw Hb Ha)
    as (r & a & h & c & -> & Hctx & Hr). cbn [mbind outcome_bind].
  destruct r as [v|e].
  2: { destruct Hr as (-> & _ & HI'). eexists _, _. split; [done|]. split; [by split|]. split; [|done].
       split; [by split|done|done]. }
  destruct Hr as (HI' & Hsame & _ & Hav & Hg & _ & Hgen & Hstor & Hcase).
  unfold ArenaView_bytes, BoundedArena_view_for. rewrite Hav, Hg, Hgen, Z.eqb_refl. simpl negb. cbv iota.
  eexists _, _. split; [done|].
  assert (Hst' : in_shape (ba_storage a)).
  { destruct (decide (ba_capacity (jw_arena w) = 0)) as [E|E]; [|by rewrite Hstor].
    destruct (decide (bytes = 0)); [by destruct Hcase as [_ ->]|]. destruct Hcase as [Hacq _]. eapply acquire_view, Hacq, E. }
  assert (Hoff : ba_offset (jw_arena w) <= ba_offset a).
  { destruct (decide (bytes = 0)); [by destruct Hcase as [_ ->]|].
    destruct Hcase as (_ & start & _ & _ & Hrange & ->). unfold is_size in *. lia. }
  split; [by split|]. split; [by split|]. do 4 (split; [done|]). split; [done|].
  destruct (decide (bytes = 0)) as [->|Hne]; [done|]. destruct Hcase as (_ & start & -> & Hmod & Hrange & Hend).
  split; [done|]. pose proof HI' as [_ _ _ Ho Hsto _]. pose proof HI as [_ _ _ Ho0 _ _]. unfold is_size in *.
  rewrite decide_False in Hsto by lia. destruct Hsto as ([Hv1 Hv2] & Hv3 & _).
  split; [apply in_shape_subspan; [done|lia|lia]|]. split; [|by exists start].
  simpl. destruct (span_data (ba_storage a)); [done|]. specialize (Hv2 eq_refl). lia.
Qed.

(** The arena has been handed out to its last byte. *)
Definition full w : Prop := ba_offset (jw_arena w) = ba_maximum_capacity (jw_arena w).

Lemma full_allocates w bytes alignment r w' :
  full w -> 0 <= bytes -> allocates w bytes alignment r w' ->
  jw_arena w' = jw_arena w /\ (bytes <> 0 -> exists e, r = Err e).
Proof.
  intros Hf Hb ([HI _ _] & [[_ _ _ _ Hmax] _ _] & _ & _ & _ & _ & Hr). destruct r as [[v g]|e]; [|by eauto].
  destruct Hr as [_ Hr]. destruct (decide (bytes = 0)) as [|Hne]; [by destruct Hr|]. exfalso.
  destruct Hr as (_ & _ & _ & start & _ & Hrange & Hend). destruct HI as [_ _ _ Ho _ _]. unfold full in Hf. lia.
Qed.

(** The pool fills the arena. *)
Lemma pool_allocates w size r w' :
  world_ok w -> pool_size (jw_arena w) = Ok size ->
  allocates w size alignof_max_align_t r w' ->
  is_size size /\ size <> 0 /\ match r with Ok _ => full w' | Err _ => True end.
Proof.
  intros [HI _ _] Hp Hr. destruct HI as [_ _ _ Ho _ _]. unfold pool_size, alignof_max_align_t in *.
  pose proof (Z.mod_pos_bound (ba_offset (jw_arena w)) 16 ltac:(lia)) as Hm.
  rewrite (u64_small (ba_maximum_capacity (jw_arena w) - ba_offset (jw_arena w))) in Hp
    by (unfold size_max, u64_max in *; lia).
  set (padding := if ba_offset (jw_arena w) mod 16 =? 0 then 0 else 16 - ba_offset (jw_arena w) mod 16) in *.
  assert (0 <= padding) as Hpad by (unfold padding; destruct (_ =? 0); lia).
  assert (padding = align_up (ba_offset (jw_arena w)) 16 - ba_offset (jw_arena w)) as Hup
    by (unfold align_up, padding; lia).
  destruct (Z.ltb_spec (ba_maximum_capacity (jw_arena w) - ba_offset (jw_arena w)) padding); [done|].
  rewrite u64_small in Hp by (unfold size_max, u64_max in *; lia). simpl orb in Hp.
  destruct (Z.ltb_spec (ba_maximum_capacity (jw_arena w) - ba_offset (jw_arena w) - padding) yyjson_pool_minimum_bytes)
    as [|Hmin]; [done|]. injection Hp as <-. unfold yyjson_pool_minimum_bytes, is_size in *.
  split; [lia|]. split; [lia|]. destruct r as [[v g]|e]; [|done]. destruct Hr as (_ & [[_ _ _ _ Hmax] _ _] & _ & _ & _ & _ & _ & Hr).
  rewrite decide_False in Hr by lia. destruct Hr as (_ & _ & _ & start & Hs1 & Hs2 & Hend). unfold full.
  destruct (align_up_spec (ba_offset (jw_arena w)) 16) as [Ha1 Ha2]; [lia..|].
  assert (start = align_up (ba_offset (jw_arena w)) 16) as ->; [|lia].
  apply Z.mod_divide in Hs1 as [x ->]; [|lia]. apply Z.mod_divide in Ha1 as [y Hy]; [|lia]. rewrite Hy in *. lia.
Qed.

(** ** The copy of the input *)
Lemma list_inserts_read {X} (k : nat) (l l0 : list X) :
  (k + length l <= length l0)%nat -> take (length l) (drop k (list_inserts k l l0)) = l.
Proof.
  intros H. apply list_eq. intros i. destruct (decide (i < length l)%nat) as [Hi|Hi].
  - rewrite lookup_take_lt, lookup_drop by done. rewrite list_lookup_inserts by lia. f_equal. lia.
  - rewrite !lookup_ge_None_2; [done|lia|]. rewrite length_take. lia.
Qed.

Lemma copy_input mem (input document : span) bytes p q :
  memory_ok mem -> in_shape input -> span_data input = Some p -> span_data document = Some q ->
  span_size input = span_size document -> 0 < span_size document -> shape !! ptr_block q = None ->
  span_bytes mem document = Some bytes ->
  exists mem', copy_loop (Z.to_nat (span_size document)) mem p q = Ret mem' /\ memory_ok mem' /\
    span_bytes mem' input = Some bytes.
Proof.
  intros Hm Hin Hp Hq Hsz Hpos Hout Hb. unfold in_shape in Hin. rewrite Hp in Hin.
  destruct Hin as (len & Hlen & Hp0 & Hp1). destruct (Hm _ _ Hlen) as (lo & Hlo & Hll).
  unfold span_bytes in Hb. rewrite (proj2 (Z.eqb_neq _ _)) in Hb by lia. rewrite Hq in Hb. simpl in Hb.
  destruct (mem !! ptr_block q) as [li|] eqn:Hli; [|done]. simpl in Hb.
  destruct (_ && _) eqn:E in Hb; [|done]. injection Hb as <-.
  rewrite !andb_true_iff, !Z.leb_le, Z.ltb_lt in E.
  assert (ptr_block p <> ptr_block q) as Hne by congruence.
  rewrite (copy_loop_run _ mem p q lo li) by (done || lia).
  eexists. split; [done|]. split.
  - intros b len' Hb. destruct (Hm _ _ Hb) as (l & Hl & Hll'). destruct (decide (b = ptr_block p)) as [->|].
    + rewrite lookup_insert_eq. eexists. split; [done|]. rewrite length_inserts. congruence.
    + rewrite lookup_insert_ne by done. eauto.
  - unfold span_bytes. rewrite (proj2 (Z.eqb_neq _ _)) by lia. rewrite Hp. simpl. rewrite lookup_insert_eq. simpl.
    rewrite length_inserts, Hsz.
    rewrite (proj2 (Z.leb_le 0 (ptr_offset p))), (proj2 (Z.ltb_lt 0 (span_size document))), (proj2 (Z.leb_le _ _)) by lia.
    simpl. f_equal. set (l := take _ (drop _ li)).
    assert (length l = Z.to_nat (span_size document)) as Hl by (unfold l; rewrite length_take, length_drop; lia).
    rewrite <- Hl. apply list_inserts_read. lia.
Qed.

(** ** Reading the document *)

(** Why a document is refused, and the state it leaves the library in: limits that make no
    sense, a size out of bounds, no storage, text that is not JSON, or a document the limits do
    not admit, which is freed. *)
Inductive refusal (worker : WorkerId) (size : Z) (bytes : list Z) (limits : JsonDocumentLimits) : N -> Error -> Prop :=
  | refused_limits n e : validate_limits lib limits = Err e -> refusal worker size bytes limits n e
  | refused_empty n : size = 0 -> refusal worker size bytes limits n json_empty_error
  | refused_bytes n : jl_maximum_document_bytes limits < size -> refusal worker size bytes limits n json_bytes_error
  | refused_storage n w k alignment w' e :
      allocate_bytes w worker k alignment = Ret (Err e, w') -> refusal worker size bytes limits n e
  | refused_pool n w e : pool_size (jw_arena w) = Err e -> refusal worker size bytes limits n e
  | refused_pool_init n : refusal worker size bytes limits n json_pool_init_error
  | refused_memory n : refusal worker size bytes limits n
      (normalize_dependency_error id_yyjson op_json_parse status_exhaustion
         (cast int32_t (YYJSON_READ_ERROR_MEMORY_ALLOCATION lib)))
  | refused_syntax n code : json_of bytes = None -> refusal worker size bytes limits n
      (normalize_dependency_error id_yyjson op_json_parse status_invalid_input (cast int32_t code))
  | refused_document n0 n d t e :
      json_of bytes = Some t -> live n0 d t -> check_document limits t = Err e ->
      yyjson_doc_free lib d n0 = Ret n -> refusal worker size bytes limits n e.

(** The document object [d] has just been opened on [t]. *)
Definition opened w limits (d : Document) (nd : D) (p : pointer) t : Prop :=
  d = MkJsonDocument (Some nd) (Some (ba_address (jw_arena w))) (Some p) (ba_generation (jw_arena w))
        (jl_maximum_string_bytes limits) /\
  live (jw_native w) nd t /\ conforms limits t.

Lemma read_document_run w worker size input bytes allocator p frames keys limits sink :
  world_ok w -> span_bytes (jw_memory w) input = Some bytes -> jw_states w !! p = Some DocumentState_default ->
  validate_limits lib limits = Ok tt -> 0 <= jl_maximum_nesting limits ->
  Z.of_nat (length frames) = jl_maximum_nesting limits -> scratch_ok limits keys ->
  exists r w', read_document lib w input allocator p (Some frames) keys (ba_generation (jw_arena w)) limits sink =
      Ret (r, w') /\ world_ok w' /\ jw_arena w' = jw_arena w /\
    match r with
    | Err e => refusal worker size bytes limits (jw_native w') e /\ jw_states w' = jw_states w
    | Ok d => exists nd t, opened w' limits d nd p t /\ json_of bytes = Some t /\
                jw_states w' = <[p := MkDocumentState true 1]> (jw_states w)
    end.
Proof.
  intros Hw Hb Hp Hlim H0 Hf Hk. pose proof Hw as [W1 W2 W3]. unfold read_document.
  destruct (law_read _ input allocator (jw_native w) bytes Hb) as (r & n & -> & Hr). cbn [mbind outcome_bind].
  destruct r as [d|code].
  - destruct Hr as (t & Ht & Hlive). pose proof (validate_limits_ok lib laws limits Hlim) as Hfit.
    destruct (validate_document_run limits n (length frames) ltac:(done) ltac:(lia) d t frames keys Hlive
      ltac:(lia) eq_refl Hk) as (s' & E).
    rewrite Hf in E. rewrite E. cbn [mbind outcome_bind]. destruct (check_document limits t) as [[]|e] eqn:Hc.
    + cbn [with_native jw_states]. rewrite Hp. eexists _, _. split; [done|]. split; [by split|]. split; [done|].
      exists d, t. apply check_document_ok in Hc. done.
    + destruct (law_free n d t Hlive) as (n' & Hfree). rewrite Hfree. cbn [mbind outcome_bind].
      eexists _, _. split; [done|]. split; [by split|]. split; [done|]. split; [|done]. by eapply refused_document.
  - unfold yyjson_error. eexists _, _. split; [done|]. split; [by split|]. split; [done|]. split; [|done].
    destruct (Z.eqb_spec code (YYJSON_READ_ERROR_MEMORY_ALLOCATION lib)) as [->|Hne]; [apply refused_memory|].
    apply refused_syntax. auto.
Qed.

(** ** Parsing *)
Definition limits_sized (limits : JsonDocumentLimits) : Prop :=
  is_size (jl_maximum_document_bytes limits) /\ is_size (jl_maximum_nesting limits) /\
  is_size (jl_maximum_object_members limits) /\ is_size (jl_maximum_string_bytes limits) /\
  is_size (jl_maximum_aggregate_values limits).

(** The caller's bytes are outside the arena's blocks. *)
Definition outside (document : span) : Prop :=
  forall q, span_data document = Some q -> shape !! ptr_block q = None.

(** The states of earlier documents are kept; a refused document leaves at most a state that was
    never activated. *)
Definition states_kept (w w' : World) : Prop :=
  jw_states w' = jw_states w \/ exists p, jw_states w' = <[p := DocumentState_default]> (jw_states w).

Definition parsed w worker size bytes limits (r : Result Document) w' : Prop :=
  world_ok w' /\ same_world w w' /\
  match r with
  | Err e => refusal worker size bytes limits (jw_native w') e /\ states_kept w w'
  | Ok d => exists nd p t, opened w' limits d nd p t /\ json_of bytes = Some t /\ full w' /\
              jw_states w' = <[p := MkDocumentState true 1]> (jw_states w)
  end.

(** From the pool on: [w] is where the parse began, [w1] where it has come to. *)
Lemma parse_pool_run w w1 worker size input bytes p frames keys limits sink :
  world_ok w1 -> same_world w w1 -> value_ worker = value_ (ba_worker (jw_arena w1)) ->
  jw_states w1 = <[p := DocumentState_default]> (jw_states w) ->
  span_bytes (jw_memory w1) input = Some bytes ->
  validate_limits lib limits = Ok tt -> 0 <= jl_maximum_nesting limits ->
  Z.of_nat (length frames) = jl_maximum_nesting limits -> scratch_ok limits keys ->
  exists r w',
    (TRY pool_bytes ⇐ pool_size (jw_arena w1) AT w1 IN
       ('(pool, w) ← allocate_bytes w1 worker pool_bytes alignof_max_align_t;
        TRY (pool, generation) ⇐ pool AT w IN
        ('(allocator, n) ← yyjson_alc_pool_init lib pool (jw_native w);
         match allocator with
         | None => Ret (Err json_pool_init_error, with_native w n)
         | Some allocator =>
             read_document lib (with_native w n) input allocator p (Some frames) keys generation limits sink
         end))) = Ret (r, w') /\ parsed w worker size bytes limits r w'.
Proof.
  intros Hw1 Hs1 Hwk Hst Hb Hlim H0 Hf Hk.
  assert (Hkept : states_kept w w1) by (right; eauto).
  destruct (pool_size (jw_arena w1)) as [k|e] eqn:Hpool.
  2: { eexists _, _. split; [done|]. split; [done|]. split; [done|]. split; [|done]. by eapply refused_pool. }
  destruct (decide (is_size k)) as [Hks|Hks].
  2: { exfalso. apply Hks. apply (pool_allocates w1 k (Err json_pool_error) w1 Hw1 Hpool).
       split; [done|]. split; [apply same_world_refl|done]. }
  destruct (allocate_bytes_run w1 worker k alignof_max_align_t Hw1 Hwk Hks) as (r & w2 & E & Hr).
  { unfold is_size, alignof_max_align_t, size_max, u64_max. lia. }
  rewrite E. cbn [mbind outcome_bind].
  destruct (pool_allocates w1 k r w2 Hw1 Hpool Hr) as (_ & Hk0 & Hfull).
  destruct Hr as (Hw2 & Hs2 & En & Em & Est & El & Hr).
  pose proof (same_world_trans _ _ _ Hs1 Hs2) as Hs.
  assert (Hkept2 : states_kept w w2) by (unfold states_kept in *; by rewrite Est).
  destruct r as [[pool g]|e].
  2: { eexists _, _. split; [done|]. split; [done|]. split; [done|]. split; [|done]. by eapply refused_storage. }
  destruct Hr as [-> _]. rewrite <- (sw_generation _ _ Hs2).
  destruct (law_pool_init pool (jw_native w2)) as (a & n & ->). cbn [mbind outcome_bind].
  assert (Hw3 : world_ok (with_native w2 n)) by (by destruct Hw2; split).
  destruct a as [a|].
  2: { eexists _, _. split; [done|]. split; [done|]. split; [by destruct Hs; split|]. split; [apply refused_pool_init|done]. }
  destruct (read_document_run (with_native w2 n) worker size input bytes a p frames keys limits sink Hw3)
    as (r & w' & E' & Hw' & Ea & Hr'); try done; simpl.
  { by rewrite Em. }
  { by rewrite Est, Hst, lookup_insert_eq. }
  simpl in Ea. exists r, w'. split; [exact E'|]. split; [done|]. split.
  { destruct Hs as [[]]. split; rewrite Ea; [by split|done|done]. }
  destruct r as [d|e].
  - destruct Hr' as (nd & t & Hop & Hj & Est'). exists nd, p, t. split; [done|]. split; [done|].
    split; [unfold full in *; by rewrite Ea|]. rewrite Est'. simpl. by rewrite Est, Hst, insert_insert_eq.
  - destruct Hr' as [Href Est']. split; [done|]. unfold states_kept in *. by rewrite Est'.
Qed.

Lemma parsed_storage_error w w1 worker k alignment e w2 size bytes limits :
  same_world w w1 -> states_kept w w1 -> allocates w1 k alignment (Err e) w2 ->
  allocate_bytes w1 worker k alignment = Ret (Err e, w2) ->
  parsed w worker size bytes limits (Err e) w2.
Proof.
  intros Hs Hk (Hw2 & Hs2 & _ & _ & Est & _) E. split; [done|]. split; [by eapply same_world_trans|].
  split; [by eapply refused_storage|]. unfold states_kept in *. by rewrite Est.
Qed.

Lemma cells_of_some {T} (bytes : span) count :
  span_data bytes <> None -> cells_of (T:=T) bytes count = Some (replicate (Z.to_nat count) None).
Proof. unfold cells_of. by destruct (span_data bytes). Qed.

(** The storage of the traversal: frames, keys and the pool. *)
Lemma parse_arrays_run w w1 worker size input bytes p limits sink :
  world_ok w1 -> same_world w w1 -> value_ worker = value_ (ba_worker (jw_arena w1)) ->
  jw_states w1 = <[p := DocumentState_default]> (jw_states w) ->
  span_bytes (jw_memory w1) input = Some bytes ->
  validate_limits lib limits = Ok tt -> limits_sized limits ->
  exists r w',
    ('(frames, w) ← allocate_bytes w1 worker (u64 (jl_maximum_nesting limits * sizeof_TraversalFrame lib))
                      alignof_TraversalFrame;
     TRY (frames, _) ⇐ frames AT w IN
      ('(keys, w) ← allocate_bytes w worker (u64 (jl_maximum_object_members limits * sizeof_ObjectKey))
                      alignof_ObjectKey;
       TRY (keys, _) ⇐ keys AT w IN
       TRY pool_bytes ⇐ pool_size (jw_arena w) AT w IN
       ('(pool, w) ← allocate_bytes w worker pool_bytes alignof_max_align_t;
        TRY (pool, generation) ⇐ pool AT w IN
        ('(allocator, n) ← yyjson_alc_pool_init lib pool (jw_native w);
         match allocator with
         | None => Ret (Err json_pool_init_error, with_native w n)
         | Some allocator =>
             read_document lib (with_native w n) input allocator p
               (cells_of frames (jl_maximum_nesting limits)) (cells_of keys (jl_maximum_object_members limits))
               generation limits sink
         end)))) = Ret (r, w') /\ parsed w worker size bytes limits r w'.
Proof.
  intros Hw1 Hs1 Hwk Hst Hb Hlim (_ & Hn & Hm & _ & _).
  pose proof (validate_limits_ok lib laws limits Hlim) as (Hnz & Hfn & Hfm & _). pose proof law_frame_size as Hfs.
  assert (Hkept : states_kept w w1) by (right; eauto). unfold is_size, sizeof_ObjectKey in *.
  assert (Hal : is_size 8) by (unfold is_size, size_max, u64_max; lia).
  rewrite (u64_small (jl_maximum_nesting limits * _)) by (unfold size_max in *; nia).
  rewrite (u64_small (jl_maximum_object_members limits * _)) by (unfold size_max in *; lia).
  destruct (allocate_bytes_run w1 worker (jl_maximum_nesting limits * sizeof_TraversalFrame lib) alignof_TraversalFrame
    Hw1 Hwk ltac:(unfold is_size; nia) Hal) as (r & w2 & E & Hr).
  rewrite E. cbn [mbind outcome_bind].
  destruct r as [[frames g]|e]; [|eexists _, _; split; [done|]; by eapply parsed_storage_error]. clear E.
  destruct Hr as (Hw2 & Hs2 & En & Em & Est & El & _ & Hr). rewrite decide_False in Hr by nia.
  destruct Hr as (_ & _ & Hfd & _). rewrite (cells_of_some frames) by done.
  pose proof (same_world_trans _ _ _ Hs1 Hs2) as Hs.
  assert (Hwk2 : value_ worker = value_ (ba_worker (jw_arena w2))) by (destruct Hs2 as [[? -> ? ? ?] _ _]; done).
  assert (Hkept2 : states_kept w w2) by (unfold states_kept in *; by rewrite Est).
  destruct (allocate_bytes_run w2 worker (jl_maximum_object_members limits * 16) alignof_ObjectKey
    Hw2 Hwk2 ltac:(unfold is_size; lia) Hal) as (r & w3 & E & Hr).
  rewrite E. cbn [mbind outcome_bind].
  destruct r as [[keys g']|e]; [|eexists _, _; split; [done|]; by eapply parsed_storage_error]. clear E.
  destruct Hr as (Hw3 & Hs3 & En3 & Em3 & Est3 & El3 & _ & Hr).
  assert (Hks : scratch_ok limits (cells_of keys (jl_maximum_object_members limits))).
  { destruct (decide (jl_maximum_object_members limits * 16 = 0)) as [E0|E0].
    - destruct Hr as [-> _]. simpl. lia.
    - destruct Hr as (_ & _ & Hd & _). rewrite cells_of_some by done. simpl. rewrite length_replicate. lia. }
  apply parse_pool_run; try done; try lia.
  - by eapply same_world_trans.
  - destruct Hs3 as [[? -> ? ? ?] _ _]. done.
  - by rewrite Est3, Est.
  - by rewrite Em3, Em.
  - rewrite length_replicate. lia.
Qed.

(** The document's state and what comes after. *)
Lemma parse_state_run w w1 worker size input bytes limits sink :
  world_ok w1 -> same_world w w1 -> value_ worker = value_ (ba_worker (jw_arena w1)) ->
  jw_states w1 = jw_states w -> span_bytes (jw_memory w1) input = Some bytes ->
  validate_limits lib limits = Ok tt -> limits_sized limits ->
  exists r w',
    ('(state, w) ← allocate_bytes w1 worker sizeof_DocumentState alignof_DocumentState;
     TRY (state, _) ⇐ state AT w IN
     match span_data state with
     | None => Stop Undefined
     | Some document_state =>
       let w := with_states w (<[document_state := DocumentState_default]> (jw_states w)) in
       '(frames, w) ← allocate_bytes w worker (u64 (jl_maximum_nesting limits * sizeof_TraversalFrame lib))
                        alignof_TraversalFrame;
       TRY (frames, _) ⇐ frames AT w IN
       ('(keys, w) ← allocate_bytes w worker (u64 (jl_maximum_object_members limits * sizeof_ObjectKey))
                       alignof_ObjectKey;
        TRY (keys, _) ⇐ keys AT w IN
        TRY pool_bytes ⇐ pool_size (jw_arena w) AT w IN
        ('(pool, w) ← allocate_bytes w worker pool_bytes alignof_max_align_t;
         TRY (pool, generation) ⇐ pool AT w IN
         ('(allocator, n) ← yyjson_alc_pool_init lib pool (jw_native w);
          match allocator with
          | None => Ret (Err json_pool_init_error, with_native w n)
          | Some allocator =>
              read_document lib (with_native w n) input allocator document_state
                (cells_of frames (jl_maximum_nesting limits)) (cells_of keys (jl_maximum_object_members limits))
                generation limits sink
          end)))
     end) = Ret (r, w') /\ parsed w worker size bytes limits r w'.
Proof.
  intros Hw1 Hs1 Hwk Hst Hb Hv Hlim. assert (Hk : states_kept w w1) by (by left).
  destruct (allocate_bytes_run w1 worker sizeof_DocumentState alignof_DocumentState Hw1 Hwk
    ltac:(unfold is_size, size_max, u64_max, sizeof_DocumentState; lia)
    ltac:(unfold is_size, size_max, u64_max, alignof_DocumentState; lia)) as (r & w3 & E & Hr).
  rewrite E. cbn [mbind outcome_bind].
  destruct r as [[state g']|e]; [|eexists _, _; split; [done|]; by eapply parsed_storage_error]. clear E.
  destruct Hr as (Hw3 & Hs3 & En3 & Em3 & Est3 & El3 & _ & Hr). rewrite decide_False in Hr by done.
  destruct Hr as (_ & _ & Hsd & _). destruct (span_data state) as [sp|]; [|done].
  apply parse_arrays_run; try done.
  - by destruct Hw3; split.
  - apply (same_world_trans _ _ _ Hs1). by destruct Hs3; split.
  - destruct Hs3 as [[? E3 ? ? ?] _ _]. simpl. by rewrite E3.
  - simpl. by rewrite Est3, Hst.
  - simpl. by rewrite Em3.
Qed.

Lemma parse_run w worker document bytes limits sink :
  world_ok w -> value_ worker = value_ (ba_worker (jw_arena w)) ->
  span_bytes (jw_memory w) document = Some bytes -> outside document -> is_size (span_size document) ->
  limits_sized limits ->
  exists r w', JsonDocument_parse lib w worker document limits sink = Ret (r, w') /\
    parsed w worker (span_size document) bytes limits r w' /\
    (full w -> (exists e, r = Err e) /\ jw_arena w' = jw_arena w /\ jw_native w' = jw_native w /\ jw_states w' = jw_states w).
Proof.
  intros Hw Hwk Hb Hout Hsz Hlim. unfold JsonDocument_parse.
  assert (Hstop : forall e, refusal worker (span_size document) bytes limits (jw_native w) e ->
    exists r w', Ret (Err e : Result Document, w) = Ret (r, w') /\ parsed w worker (span_size document) bytes limits r w' /\
      (full w -> (exists e, r = Err e) /\ jw_arena w' = jw_arena w /\ jw_native w' = jw_native w /\ jw_states w' = jw_states w)).
  { intros e He. eexists _, _. split; [done|]. split; [|by eauto]. split; [done|]. split; [apply same_world_refl|].
    split; [done|by left]. }
  destruct (validate_limits lib limits) as [[]|e] eqn:Hv; [|by apply Hstop, refused_limits].
  unfold span_empty. destruct (Z.eqb_spec (span_size document) 0) as [|Hne]; [by apply Hstop, refused_empty|].
  destruct (Z.ltb_spec (jl_maximum_document_bytes limits) (span_size document)); [by apply Hstop, refused_bytes|].
  pose proof Hw as [HI _ _]. pose proof HI as [_ _ _ Ho _ _]. rewrite (proj2 (Z.ltb_ge _ _)) by lia.
  assert (forall k, 0 <= k <= 16 -> is_size k) as Hsmall by (intros; unfold is_size, size_max, u64_max; lia).
  destruct (allocate_bytes_run w worker (span_size document) 1 Hw Hwk Hsz ltac:(apply Hsmall; lia)) as (r & w1 & E & Hr).
  rewrite E. cbn [mbind outcome_bind].
  pose proof (full_allocates w (span_size document) 1 r w1) as Hfull. destruct r as [[input g]|e].
  2: { eexists _, _. split; [done|]. pose proof Hr as (_ & _ & ? & _ & ? & _ & ?).
       split; [eapply parsed_storage_error; [apply same_world_refl|by left|done..]|by eauto]. }
  assert (Hnf : ~ full w).
  { intros Hf. destruct (Hfull Hf ltac:(unfold is_size in Hsz; lia) Hr) as [_ Hx]. by destruct (Hx Hne). }
  clear E Hfull. destruct Hr as (Hw1 & Hs1 & En & Em & Est & El & _ & Hr). rewrite decide_False in Hr by done.
  destruct Hr as (Hisz & Hin & Hid & _). destruct (span_data input) as [p|] eqn:Hp; [|done].
  unfold is_size in Hsz.
  destruct (span_data document) as [q|] eqn:Hq.
  2: { exfalso. unfold span_bytes in Hb. rewrite Hq, (proj2 (Z.eqb_neq _ _)) in Hb by done. done. }
  rewrite <- Em in Hb.
  destruct (copy_input _ input document bytes p q (wo_memory _ Hw1) Hin Hp Hq Hisz ltac:(lia) (Hout q Hq) Hb)
    as (mem & -> & Hmem & Hcopy). cbn [mbind outcome_bind].
  set (w2 := with_memory w1 mem).
  assert (Hs2 : same_world w w2) by (by destruct Hs1; split).
  destruct (parse_state_run w w2 worker (span_size document) input bytes limits sink) as (r & w' & E & Hparsed); try done.
  - by destruct Hw1; split.
  - destruct Hs2 as [[? -> ? ? ?] _ _]. done.
  - exists r, w'. split; [exact E|]. split; [done|]. done.
Qed.

(** ** Clients of one arena *)
Record JsonClient := MkJsonClient {
  jc_world : World; jc_documents : gmap nat Document; jc_values : list (JsonValue (V:=V)) }.

(** Objects are numbered.  Values are copied freely, so all that were ever obtained are kept.
    A reset hands the arena's memory to others: the library's state may then be anything. *)
Inductive JsonOp :=
  | OParse (object : nat) (document : ByteView) (limits : JsonDocumentLimits) (log_sink : DependencyLogSink L)
  | OMoveConstruct (target source : nat)
  | OMoveAssign (target source : nat)
  | ODestroy (object : nat)
  | ORoot (object : nat)
  | OArrayAt (value : nat) (index : Z)
  | OObjectMember (value : nat) (key : TextView)
  | OAllocate (bytes alignment : Z)
  | OReset (boundary : ArenaQuiescentBoundary) (n : N).

Definition the_document (c : JsonClient) (object : nat) : outcome Document :=
  match jc_documents c !! object with None => Stop Undefined | Some d => Ret d end.
Definition the_value (c : JsonClient) (value : nat) : outcome (JsonValue (V:=V)) :=
  match jc_values c !! value with None => Stop Undefined | Some v => Ret v end.
Definition obtain (c : JsonClient) (r : Result (JsonValue (V:=V))) : JsonClient :=
  MkJsonClient (jc_world c) (jc_documents c)
    (match r with Ok v => v :: jc_values c | Err _ => jc_values c end).

Definition exec_json (c : JsonClient) (worker : WorkerId) (op : JsonOp) : outcome JsonClient :=
  match op with
  | OParse object document limits log_sink =>
      '(r, w) ← JsonDocument_parse lib (jc_world c) worker document limits log_sink;
      Ret (MkJsonClient w (match r with Ok d => <[object := d]> (jc_documents c) | Err _ => jc_documents c end)
             (jc_values c))
  | OMoveConstruct target source =>
      other ← the_document c source;
      let '(this, other) := JsonDocument_move_construct other in
      Ret (MkJsonClient (jc_world c) (<[target := this]> (<[source := other]> (jc_documents c))) (jc_values c))
  | OMoveAssign target source =>
      this ← the_document c target;
      other ← the_document c source;
      if decide (target = source) then Ret c else
      '(this, other, w) ← JsonDocument_move_assign lib this other (jc_world c);
      Ret (MkJsonClient w (<[target := this]> (<[source := other]> (jc_documents c))) (jc_values c))
  | ODestroy object =>
      this ← the_document c object;
      w ← JsonDocument_destroy lib this (jc_world c);
      Ret (MkJsonClient w (delete object (jc_documents c)) (jc_values c))
  | ORoot object =>
      this ← the_document c object;
      r ← JsonDocument_root lib this (jc_world c);
      Ret (obtain c r)
  | OArrayAt value index =>
      this ← the_value c value;
      r ← JsonValue_array_at lib this (jc_world c) index;
      Ret (obtain c r)
  | OObjectMember value key =>
      this ← the_value c value;
      r ← JsonValue_object_member lib this (jc_world c) key;
      Ret (obtain c r)
  | OAllocate bytes alignment =>
      '(_, w) ← allocate_bytes (jc_world c) worker bytes alignment;
      Ret (MkJsonClient w (jc_documents c) (jc_values c))
  | OReset boundary n =>
      let w := jc_world c in
      '(r, (a, h, x)) ← BoundedArena_reset (jw_arena w) (jw_heap w) (jw_context w) worker boundary;
      let w := match r with
               | Ok _ => MkJsonWorld n (jw_memory w) ∅ a h x (jw_log w)
               | Err _ => MkJsonWorld (jw_native w) (jw_memory w) (jw_states w) a h x (jw_log w)
               end in
      Ret (MkJsonClient w (jc_documents c) (jc_values c))
  end.

(** Objects are constructed where there is none and used where there is one. *)
Definition json_legal (c : JsonClient) (op : JsonOp) : Prop :=
  match op with
  | OParse object document limits _ =>
      jc_documents c !! object = None /\ is_Some (span_bytes (jw_memory (jc_world c)) document) /\
      outside document /\ is_size (span_size document) /\ limits_sized limits
  | OMoveConstruct target source => jc_documents c !! target = None /\ is_Some (jc_documents c !! source)
  | OMoveAssign target source => is_Some (jc_documents c !! target) /\ is_Some (jc_documents c !! source)
  | ODestroy object | ORoot object => is_Some (jc_documents c !! object)
  | OArrayAt value index => is_Some (jc_values c !! value) /\ 0 <= index
  | OObjectMember value _ => is_Some (jc_values c !! value)
  | OAllocate bytes alignment => is_size bytes /\ is_size alignment
  | OReset _ _ => True
  end.

(** The document object holds a document of the arena's current generation. *)
Definition holds_current w (d : Document) : Prop :=
  jd_native_document d <> None /\ jd_arena_generation d = ba_generation (jw_arena w).

Definition document_ok w (d : Document) : Prop :=
  d = JsonDocument_empty \/
  exists nd p, jd_native_document d = Some nd /\ jd_arena d = Some (ba_address (jw_arena w)) /\
    jd_document_state d = Some p /\ jd_arena_generation d <= ba_generation (jw_arena w) /\
    (jd_arena_generation d = ba_generation (jw_arena w) ->
       full w /\ (exists t, live (jw_native w) nd t) /\ exists epoch, jw_states w !! p = Some (MkDocumentState true epoch)).

Definition value_ok w (v : JsonValue (V:=V)) : Prop :=
  exists p x, jv_arena v = Some (ba_address (jw_arena w)) /\ jv_document_state v = Some p /\
    jv_native_value v = Some x /\ jv_arena_generation v <= ba_generation (jw_arena w) /\
    (jv_arena_generation v = ba_generation (jw_arena w) ->
       full w /\ exists st, jw_states w !! p = Some st /\
         (ds_active st = true -> ds_epoch st = jv_document_epoch v /\ exists t, denotes (jw_native w) x t)).

Record client_ok (c : JsonClient) : Prop := {
  co_world : world_ok (jc_world c);
  co_documents : map_Forall (fun _ d => document_ok (jc_world c) d) (jc_documents c);
  co_values : Forall (value_ok (jc_world c)) (jc_values c);
  co_unique : forall i j d d', jc_documents c !! i = Some d -> jc_documents c !! j = Some d' ->
    holds_current (jc_world c) d -> holds_current (jc_world c) d' -> i = j;
  co_active : forall p st, jw_states (jc_world c) !! p = Some st -> ds_active st = true ->
    exists i d, jc_documents c !! i = Some d /\ holds_current (jc_world c) d /\ jd_document_state d = Some p }.

(** *** Objects of earlier generations *)
Definition document_stale w (d : Document) : Prop :=
  d = JsonDocument_empty \/
  exists nd p, jd_native_document d = Some nd /\ jd_arena d = Some (ba_address (jw_arena w)) /\
    jd_document_state d = Some p /\ jd_arena_generation d < ba_generation (jw_arena w).
Definition value_stale w (v : JsonValue (V:=V)) : Prop :=
  exists p x, jv_arena v = Some (ba_address (jw_arena w)) /\ jv_document_state v = Some p /\
    jv_native_value v = Some x /\ jv_arena_generation v < ba_generation (jw_arena w).

Definition all_inactive w : Prop := forall p st, jw_states w !! p = Some st -> ds_active st = false.

Lemma stale_document_ok w d : document_stale w d -> document_ok w d /\ ~ holds_current w d.
Proof.
  intros [->|(nd & p & H1 & H2 & H3 & H4)].
  - split; [by left|]. by intros [].
  - split; [|intros [_ ?]; lia]. right. exists nd, p. repeat split; try done; lia.
Qed.

Lemma stale_value_ok w v : value_stale w v -> value_ok w v.
Proof. intros (p & x & H1 & H2 & H3 & H4). exists p, x. repeat split; try done; lia. Qed.

Lemma not_full_stale c :
  client_ok c -> ~ full (jc_world c) ->
  map_Forall (fun _ d => document_stale (jc_world c) d) (jc_documents c) /\
  Forall (value_stale (jc_world c)) (jc_values c) /\ all_inactive (jc_world c).
Proof.
  intros [Hw Hd Hv Hu Ha] Hnf.
  assert (Hds : map_Forall (fun _ d => document_stale (jc_world c) d) (jc_documents c)).
  { intros i d Hi. destruct (Hd i d Hi) as [->|(nd & p & H1 & H2 & H3 & H4 & H5)]; [by left|].
    right. exists nd, p. repeat split; try done.
    destruct (decide (jd_arena_generation d = ba_generation (jw_arena (jc_world c)))) as [E|]; [|lia].
    by destruct (H5 E). }
  split; [done|]. split.
  - eapply list.Forall_impl; [exact Hv|]. intros v (p & x & H1 & H2 & H3 & H4 & H5). exists p, x. repeat split; try done.
    destruct (decide (jv_arena_generation v = ba_generation (jw_arena (jc_world c)))) as [E|]; [|lia].
    by destruct (H5 E).
  - intros p st Hp. destruct (ds_active st) eqn:E; [|done]. destruct (Ha p st Hp E) as (i & d & Hi & Hcur & _).
    by destruct (stale_document_ok _ d (Hds i d Hi)).
Qed.

(** Stale objects stay so while the generation does not go back. *)
Lemma stale_documents w w' (docs : gmap nat Document) :
  ba_address (jw_arena w') = ba_address (jw_arena w) -> ba_generation (jw_arena w) <= ba_generation (jw_arena w') ->
  map_Forall (fun _ d => document_stale w d) docs -> map_Forall (fun _ d => document_stale w' d) docs.
Proof.
  intros Ea Hg Hd. eapply map_Forall_impl; [exact Hd|]. intros i d [->|(nd & p & H1 & H2 & H3 & H4)]; [by left|].
  right. exists nd, p. rewrite Ea. repeat split; try done; lia.
Qed.

Lemma stale_values w w' values :
  ba_address (jw_arena w') = ba_address (jw_arena w) -> ba_generation (jw_arena w) <= ba_generation (jw_arena w') ->
  Forall (value_stale w) values -> Forall (value_stale w') values.
Proof.
  intros Ea Hg Hv. eapply list.Forall_impl; [exact Hv|]. intros v (p & x & H1 & H2 & H3 & H4).
  exists p, x. rewrite Ea. repeat split; try done; lia.
Qed.

Lemma stale_client w (docs : gmap nat Document) values :
  world_ok w -> map_Forall (fun _ d => document_stale w d) docs -> Forall (value_stale w) values -> all_inactive w ->
  client_ok (MkJsonClient w docs values).
Proof.
  intros Hw Hd Hv Hi. split; simpl; try done.
  - eapply map_Forall_impl; [exact Hd|]. intros i d H. by apply stale_document_ok.
  - eapply list.Forall_impl; [exact Hv|]. apply stale_value_ok.
  - intros i j d d' Hdi _ Hc _. by destruct (stale_document_ok _ _ (Hd i d Hdi)).
  - intros p st Hp Hact. rewrite (Hi p st Hp) in Hact. done.
Qed.

(** Nothing a document or a value depends on has changed. *)
Lemma same_client c w :
  client_ok c -> world_ok w -> jw_arena w = jw_arena (jc_world c) -> jw_native w = jw_native (jc_world c) ->
  jw_states w = jw_states (jc_world c) -> client_ok (MkJsonClient w (jc_documents c) (jc_values c)).
Proof.
  intros [Hw Hd Hv Hu Ha] Hw' Ea En Es. split; simpl; try done.
  - eapply map_Forall_impl; [exact Hd|]. unfold document_ok, full. by rewrite Ea, En, Es.
  - eapply list.Forall_impl; [exact Hv|]. unfold value_ok, full. by rewrite Ea, En, Es.
  - unfold holds_current in *. by rewrite Ea.
  - unfold holds_current in *. by rewrite Ea, Es.
Qed.

Lemma full_dec w : {full w} + {~ full w}.
Proof. unfold full. apply Z.eq_dec. Qed.

(** *** Parsing *)
Lemma states_kept_inactive w w' : states_kept w w' -> all_inactive w -> all_inactive w'.
Proof.
  intros [E|[q E]] Hi p st; rewrite E; [apply Hi|]. rewrite lookup_insert_Some. intros [[_ <-]|[_ ?]]; [done|by eapply Hi].
Qed.

Lemma opened_client w (docs : gmap nat Document) values limits object d nd p t states :
  world_ok w -> map_Forall (fun _ d => document_stale w d) docs -> Forall (value_stale w) values ->
  opened w limits d nd p t -> full w -> jw_states w = <[p := MkDocumentState true 1]> states ->
  (forall q st, states !! q = Some st -> ds_active st = false) -> docs !! object = None ->
  client_ok (MkJsonClient w (<[object := d]> docs) values).
Proof.
  intros Hw Hd Hv [-> [Hlive _]] Hf Est Hi Hfree.
  assert (Hstale : forall i d0, docs !! i = Some d0 -> ~ holds_current w d0)
    by (intros i d0 Hi0; by apply stale_document_ok, (Hd i)).
  split; simpl; try done.
  - apply map_Forall_insert_2; [|eapply map_Forall_impl; [exact Hd|]; intros i d0 H; by apply stale_document_ok].
    right. exists nd, p. do 3 (split; [done|]). split; [simpl; lia|]. intros _. split; [done|].
    split; [by eexists|]. rewrite Est, lookup_insert_eq. by eexists.
  - eapply list.Forall_impl; [exact Hv|]. apply stale_value_ok.
  - intros i j d1 d2. rewrite !lookup_insert_Some.
    intros [[<- _]|[_ H1]] [[<- _]|[_ H2]] C1 C2; try done; exfalso; by eapply Hstale.
  - intros q st. rewrite Est, lookup_insert_Some. intros [[<- <-]|[_ Hq]] Hact.
    + eexists object, _. rewrite lookup_insert_eq. split; [done|]. done.
    + rewrite (Hi q st Hq) in Hact. done.
Qed.

Definition client_worker (worker : WorkerId) (c : JsonClient) : Prop :=
  value_ worker = value_ (ba_worker (jw_arena (jc_world c))).

(** What holds after every operation. *)
Definition goes_on worker (m : outcome JsonClient) : Prop :=
  run_to m (fun c => client_ok c /\ client_worker worker c).

Lemma exec_parse_ok c worker object document limits sink :
  client_ok c -> client_worker worker c -> json_legal c (OParse object document limits sink) ->
  goes_on worker (exec_json c worker (OParse object document limits sink)).
Proof.
  intros Hc Hwk (Hfree & [bytes Hb] & Hout & Hsz & Hlim). simpl. pose proof Hc as [Hw _ _ _ _].
  destruct (parse_run (jc_world c) worker document bytes limits sink Hw Hwk Hb Hout Hsz Hlim)
    as (r & w & -> & (Hw' & Hs & Hr) & Hfull). cbn [mbind outcome_bind].
  pose proof Hs as [[Ea Ewk _ _ _] Eg _].
  eexists. split; [done|]. split; [|unfold client_worker; simpl; by rewrite Ewk].
  destruct (full_dec (jc_world c)) as [Hf|Hnf].
  { destruct (Hfull Hf) as ([e ->] & E1 & E2 & E3). by apply same_client. }
  destruct (not_full_stale c Hc Hnf) as (Hd & Hv & Hi).
  apply (stale_documents _ w) in Hd; [|done|lia]. apply (stale_values _ w) in Hv; [|done|lia].
  destruct r as [d|e].
  - destruct Hr as (nd & p & t & Hop & _ & Hfl & Est). by eapply opened_client.
  - destruct Hr as [_ Hk]. apply stale_client; try done. by eapply states_kept_inactive.
Qed.

(** *** Moving and releasing *)
Lemma empty_not_current w : ~ holds_current w JsonDocument_empty.
Proof. by intros []. Qed.

(** An object that does not hold the current document can be emptied. *)
Lemma emptied_ok w docs values object d :
  client_ok (MkJsonClient w docs values) -> docs !! object = Some d -> ~ holds_current w d ->
  client_ok (MkJsonClient w (<[object := JsonDocument_empty]> docs) values).
Proof.
  intros [Hw Hd Hv Hu Ha] Ho Hn. simpl in *. split; simpl; try done.
  - apply map_Forall_insert_2; [by left|done].
  - intros i j d1 d2. rewrite !lookup_insert_Some.
    intros [[_ <-]|[_ H1]] [[_ <-]|[_ H2]] C1 C2; try (by destruct (empty_not_current w)). by eapply Hu.
  - intros p st Hp Hact. destruct (Ha p st Hp Hact) as (i & d0 & Hi & Hc & Hs). exists i, d0.
    rewrite lookup_insert_ne; [done|]. intros <-. congruence.
Qed.

Lemma moved_ok w docs values target source d :
  client_ok (MkJsonClient w docs values) -> docs !! source = Some d -> target <> source ->
  (forall d', docs !! target = Some d' -> ~ holds_current w d') ->
  client_ok (MkJsonClient w (<[target := d]> (<[source := JsonDocument_empty]> docs)) values).
Proof.
  intros [Hw Hd Hv Hu Ha] Hs Hne Ht. simpl in *. split; simpl; try done.
  - apply map_Forall_insert_2; [by apply (Hd source)|]. apply map_Forall_insert_2; [by left|done].
  - assert (Hcur : forall i d', (<[target := d]> (<[source := JsonDocument_empty]> docs)) !! i = Some d' ->
      holds_current w d' -> exists k, docs !! k = Some d' /\ i = if decide (k = source) then target else k).
    { intros i d'. rewrite !lookup_insert_Some.
      intros [[<- <-]|[Hti [[_ <-]|[Hsi Hi]]]] Hc; [|by destruct (empty_not_current w)|].
      - exists source. by rewrite decide_True.
      - exists i. by rewrite decide_False. }
    intros i j d1 d2 H1 H2 C1 C2. destruct (Hcur i d1 H1 C1) as (k1 & K1 & ->), (Hcur j d2 H2 C2) as (k2 & K2 & ->).
    by rewrite (Hu k1 k2 d1 d2 K1 K2 C1 C2).
  - intros p st Hp Hact. destruct (Ha p st Hp Hact) as (i & d0 & Hi & Hc & Hst).
    destruct (decide (i = source)) as [->|Hi2].
    + exists target, d0. rewrite lookup_insert_eq. assert (d = d0) as -> by congruence. done.
    + exists i, d0. rewrite !lookup_insert_ne; [done|congruence|]. intros <-. by destruct (Ht d0 Hi).
Qed.

Lemma dropped_ok w docs values object d :
  client_ok (MkJsonClient w docs values) -> docs !! object = Some d -> ~ holds_current w d ->
  client_ok (MkJsonClient w (delete object docs) values).
Proof.
  intros [Hw Hd Hv Hu Ha] Ho Hn. simpl in *. split; simpl; try done.
  - by apply map_Forall_delete.
  - intros i j d1 d2 [_ H1]%lookup_delete_Some [_ H2]%lookup_delete_Some. by eapply Hu.
  - intros p st Hp Hact. destruct (Ha p st Hp Hact) as (i & d0 & Hi & Hc & Hs). exists i, d0.
    rewrite lookup_delete_ne; [done|]. intros <-. congruence.
Qed.

(** Releasing the current document frees it once and closes its state. *)
Lemma closed_ok w docs values object d p epoch n epoch' :
  client_ok (MkJsonClient w docs values) -> docs !! object = Some d -> holds_current w d ->
  jd_document_state d = Some p -> jw_states w !! p = Some (MkDocumentState true epoch) ->
  client_ok (MkJsonClient (with_states (with_native w n) (<[p := MkDocumentState false epoch']> (jw_states w)))
    (<[object := JsonDocument_empty]> docs) values).
Proof.
  intros [Hw Hd Hv Hu Ha] Ho Hc Hp Hst. simpl in *.
  assert (Hinactive : forall q st, (<[p := MkDocumentState false epoch']> (jw_states w)) !! q = Some st -> ds_active st = false).
  { intros q st. rewrite lookup_insert_Some. intros [[_ <-]|[Hne Hq]]; [done|].
    destruct (ds_active st) eqn:E; [|done]. destruct (Ha q st Hq E) as (i & d' & Hi & Hc' & Hs').
    assert (i = object) as -> by (by eapply Hu). congruence. }
  split; simpl.
  - by destruct Hw; split.
  - intros i d'. rewrite lookup_insert_Some. intros [[_ <-]|[Hne Hi]]; [by left|].
    destruct (Hd i d' Hi) as [->|(nd & q & H1 & H2 & H3 & H4 & _)]; [by left|]. right. exists nd, q.
    do 4 (split; [done|]). intros E. destruct Hne. symmetry. eapply (Hu i object d' d); try done.
    split; [congruence|done].
  - eapply list.Forall_impl; [exact Hv|]. intros v (q & x & H1 & H2 & H3 & H4 & H5). exists q, x.
    do 4 (split; [done|]). intros E. destruct (H5 E) as (Hf & st & Hq & _). split; [done|].
    assert (exists st', (<[p := MkDocumentState false epoch']> (jw_states w)) !! q = Some st') as [st' Hst'].
    { destruct (decide (p = q)) as [<-|]; [rewrite lookup_insert_eq; by eexists|].
      rewrite lookup_insert_ne by done. by eexists. }
    exists st'. split; [done|]. intros Hact. rewrite (Hinactive q st' Hst') in Hact. done.
  - intros i j d1 d2. rewrite !lookup_insert_Some.
    intros [[_ <-]|[Hn1 H1]] [[_ <-]|[Hn2 H2]] C1 C2; try (by destruct (empty_not_current w)). by eapply Hu.
  - intros q st Hq Hact. rewrite (Hinactive q st Hq) in Hact. done.
Qed.

Lemma release_ok c object d :
  client_ok c -> jc_documents c !! object = Some d ->
  exists w, JsonDocument_release lib d (jc_world c) = Ret (JsonDocument_empty, w) /\
    jw_arena w = jw_arena (jc_world c) /\
    client_ok (MkJsonClient w (<[object := JsonDocument_empty]> (jc_documents c)) (jc_values c)).
Proof.
  intros Hc Ho. pose proof Hc as [_ Hd _ _ _]. destruct c as [w docs values]. simpl in *.
  unfold JsonDocument_release.
  destruct (Hd object d Ho) as [->|(nd & p & H1 & H2 & H3 & H4 & H5)].
  { simpl. exists w. split; [done|]. split; [done|]. eapply emptied_ok; [done..|apply empty_not_current]. }
  rewrite H1, H2, H3.
  destruct (Z.eqb_spec (ba_generation (jw_arena w)) (jd_arena_generation d)) as [E|E]; cbn [mbind outcome_bind].
  2: { exists w. split; [done|]. split; [done|]. eapply emptied_ok; [done..|]. intros [_ ?]. congruence. }
  destruct (H5 (eq_sym E)) as (Hf & [t Hlive] & epoch & Hst).
  destruct (law_free _ _ _ Hlive) as (n & ->). cbn [mbind outcome_bind]. simpl jw_states. rewrite Hst.
  cbn [mbind outcome_bind]. eexists. split; [done|]. split; [done|].
  eapply closed_ok; try done. split; [congruence|done].
Qed.

Lemma document_eta (d : Document) :
  MkJsonDocument (jd_native_document d) (jd_arena d) (jd_document_state d) (jd_arena_generation d)
    (jd_maximum_lookup_key_bytes d) = d.
Proof. by destruct d. Qed.

Lemma json_exec_move_construct_ok c worker target source :
  client_ok c -> client_worker worker c -> json_legal c (OMoveConstruct target source) ->
  goes_on worker (exec_json c worker (OMoveConstruct target source)).
Proof.
  intros Hc Hwk [Ht [d Hs]]. simpl. unfold the_document. rewrite Hs. cbn [mbind outcome_bind].
  rewrite document_eta. eexists. split; [done|]. split; [|done].
  destruct c as [w docs values]. apply moved_ok; try done; simpl in *; [congruence|]. intros d' Hd'. congruence.
Qed.

Lemma json_exec_move_assign_ok c worker target source :
  client_ok c -> client_worker worker c -> json_legal c (OMoveAssign target source) ->
  goes_on worker (exec_json c worker (OMoveAssign target source)).
Proof.
  intros Hc Hwk [[dt Ht] [ds Hs]]. simpl. unfold the_document. rewrite Ht, Hs. cbn [mbind outcome_bind].
  destruct (decide (target = source)) as [|Hne]; [eexists; split; [done|]; done|].
  destruct (release_ok c target dt Hc Ht) as (w & E & Ea & Hc').
  unfold JsonDocument_move_assign. rewrite E. cbn [mbind outcome_bind JsonDocument_move_from]. rewrite document_eta.
  eexists. split; [done|]. split; [|unfold client_worker in *; simpl; by rewrite Ea].
  assert (<[target := ds]> (<[source := JsonDocument_empty]> (jc_documents c)) =
    <[target := ds]> (<[source := JsonDocument_empty]> (<[target := JsonDocument_empty]> (jc_documents c)))) as ->.
  { rewrite (insert_insert_ne (jc_documents c) source target) by done. by rewrite insert_insert_eq. }
  apply moved_ok; try done.
  - by rewrite lookup_insert_ne.
  - intros d'. rewrite lookup_insert_eq. intros [= <-]. apply empty_not_current.
Qed.

Lemma json_exec_destroy_ok c worker object :
  client_ok c -> client_worker worker c -> json_legal c (ODestroy object) ->
  goes_on worker (exec_json c worker (ODestroy object)).
Proof.
  intros Hc Hwk [d Ho]. simpl. unfold the_document. rewrite Ho. cbn [mbind outcome_bind].
  destruct (release_ok c object d Hc Ho) as (w & E & Ea & Hc').
  unfold JsonDocument_destroy. rewrite E. cbn [mbind outcome_bind].
  eexists. split; [done|]. split; [|unfold client_worker in *; simpl; by rewrite Ea].
  rewrite <- (delete_insert_eq (jc_documents c) object JsonDocument_empty).
  eapply dropped_ok; [done|apply lookup_insert_eq|apply empty_not_current].
Qed.

(** *** Values *)
Lemma root_run w (d : Document) nd p t epoch :
  jd_native_document d = Some nd -> jd_arena d = Some (ba_address (jw_arena w)) -> jd_document_state d = Some p ->
  jd_arena_generation d = ba_generation (jw_arena w) -> live (jw_native w) nd t ->
  jw_states w !! p = Some (MkDocumentState true epoch) ->
  exists v, JsonDocument_root lib d w = Ret (Ok v) /\ value_denotes w v t /\
    jv_maximum_lookup_key_bytes v = jd_maximum_lookup_key_bytes d /\
    jv_arena v = jd_arena d /\ jv_document_state v = Some p /\ jv_arena_generation v = jd_arena_generation d.
Proof.
  intros H1 H2 H3 H4 Hlive Hst. unfold JsonDocument_root, JsonDocument_require_valid. rewrite H1, H2, H3, H4, Z.eqb_refl, Hst.
  cbn [negb mbind outcome_bind ds_active]. destruct (law_root _ _ _ Hlive) as (x & -> & Hx).
  cbn [mbind outcome_bind ds_epoch]. eexists. split; [done|]. split; [|done].
  exists x. split; [|done]. unfold JsonValue_require_valid. simpl. by rewrite Z.eqb_refl, Hst; simpl; rewrite Z.eqb_refl.
Qed.

Lemma denoting_value_ok w (v : JsonValue (V:=V)) t p :
  full w -> value_denotes w v t -> jv_arena v = Some (ba_address (jw_arena w)) -> jv_document_state v = Some p ->
  value_ok w v.
Proof.
  intros Hf (x & E & Hx) Ha Hp. unfold JsonValue_require_valid in E. rewrite Ha, Hp in E.
  destruct (jv_native_value v) as [x'|] eqn:Hn; [|done].
  destruct (Z.eqb_spec (ba_generation (jw_arena w)) (jv_arena_generation v)) as [Hg|]; [|done]. simpl negb in E. cbv iota in E.
  destruct (jw_states w !! p) as [st|] eqn:Hst; [|done].
  destruct (negb (ds_active st) || negb (ds_epoch st =? jv_document_epoch v)) eqn:Eb; [done|]. injection E as ->.
  rewrite orb_false_iff, !negb_false_iff, Z.eqb_eq in Eb.
  exists p, x. do 3 (split; [done|]). split; [lia|]. intros _. split; [done|]. exists st. split; [done|].
  intros _. split; [tauto|by eexists].
Qed.

(** A value is valid exactly while the generation is its own and its document is open. *)
Definition value_current w (v : JsonValue (V:=V)) : Prop :=
  jv_arena_generation v = ba_generation (jw_arena w) /\
  exists p st, jv_document_state v = Some p /\ jw_states w !! p = Some st /\ ds_active st = true.

Lemma value_cases w v :
  value_ok w v ->
  (value_current w v /\ exists t, value_denotes w v t) \/
  (~ value_current w v /\ exists e, JsonValue_require_valid v w = Ret (Err e)).
Proof.
  intros (p & x & H1 & H2 & H3 & H4 & H5). unfold value_current, value_denotes, JsonValue_require_valid. rewrite H1, H2, H3.
  destruct (Z.eqb_spec (ba_generation (jw_arena w)) (jv_arena_generation v)) as [Hg|Hg]; simpl negb; cbv iota.
  2: { right. split; [|by eexists]. intros [? _]. congruence. }
  destruct (H5 (eq_sym Hg)) as (Hf & st & Hst & Hact). rewrite Hst. destruct (ds_active st) eqn:E; simpl.
  - destruct (Hact eq_refl) as (-> & t & Hx). rewrite Z.eqb_refl. simpl. left. split; [|by exists t, x].
    split; [done|]. by exists p, st.
  - right. split; [|by eexists]. intros (_ & p' & st' & [= <-] & Hst' & Hact'). congruence.
Qed.

Lemma with_kind_invalid {T} w (v : JsonValue (V:=V)) e k (read : V -> outcome (Result T)) :
  JsonValue_require_valid v w = Ret (Err e) -> with_kind lib v w k read = Ret (Err e).
Proof. intros E. unfold with_kind. by rewrite E. Qed.

Lemma obtain_ok c worker r :
  client_ok c -> client_worker worker c -> (forall v, r = Ok v -> value_ok (jc_world c) v) ->
  client_ok (obtain c r) /\ client_worker worker (obtain c r).
Proof.
  intros Hc Hwk Hr. split; [|done]. destruct Hc as [Hw Hd Hv Hu Ha]. split; try done.
  destruct r as [v|e]; simpl; [|done]. constructor; [by apply Hr|done].
Qed.

(** A child of a value of the client is a value of the client. *)
Lemma borrowed_ok w v r found :
  value_ok w v -> value_current w v -> borrows w v r found -> forall v', r = Ok v' -> value_ok w v'.
Proof.
  intros (p & x & H1 & H2 & H3 & H4 & H5) [Hg _] Hb v' ->. destruct found as [t|]; [|done].
  destruct Hb as (Hv' & _ & Ea & Es). destruct (H5 Hg) as [Hf _].
  eapply denoting_value_ok; [done|done|by rewrite Ea|by rewrite Es].
Qed.

Lemma exec_root_ok c worker object :
  client_ok c -> client_worker worker c -> json_legal c (ORoot object) ->
  goes_on worker (exec_json c worker (ORoot object)).
Proof.
  intros Hc Hwk [d Ho]. simpl. unfold the_document. rewrite Ho. cbn [mbind outcome_bind].
  pose proof (co_documents c Hc object d Ho) as [->|(nd & p & H1 & H2 & H3 & H4 & H5)].
  { eexists. split; [done|]. by apply obtain_ok. }
  destruct (decide (jd_arena_generation d = ba_generation (jw_arena (jc_world c)))) as [Hg|Hg].
  - destruct (H5 Hg) as (Hf & [t Hlive] & epoch & Hst).
    destruct (root_run _ d nd p t epoch H1 H2 H3 Hg Hlive Hst) as (v & -> & Hv & _ & E1 & E2 & _).
    eexists. split; [done|]. apply obtain_ok; [done..|]. intros v' [= <-].
    eapply denoting_value_ok; [done..|congruence|done].
  - unfold JsonDocument_root, JsonDocument_require_valid. rewrite H1, H2, H3.
    rewrite (proj2 (Z.eqb_neq _ _)) by congruence. cbn [negb mbind outcome_bind].
    eexists. split; [done|]. by apply obtain_ok.
Qed.

Lemma exec_array_at_ok c worker value index :
  client_ok c -> client_worker worker c -> json_legal c (OArrayAt value index) ->
  goes_on worker (exec_json c worker (OArrayAt value index)).
Proof.
  intros Hc Hwk [[v Hv] Hi]. simpl. unfold the_value. rewrite Hv. cbn [mbind outcome_bind].
  assert (Hok : value_ok (jc_world c) v) by (eapply (Forall_lookup_1 _ _ value), Hv; apply Hc).
  destruct (value_cases _ v Hok) as [[Hcur [t Ht]]|[_ [e E]]].
  - destruct (array_at_run _ v t index Ht Hi) as (r & -> & Hr). eexists. split; [done|].
    apply obtain_ok; [done..|]. by eapply borrowed_ok.
  - unfold JsonValue_array_at. rewrite (with_kind_invalid _ _ e) by done. eexists. split; [done|]. by apply obtain_ok.
Qed.

Lemma exec_object_member_ok c worker value key :
  client_ok c -> client_worker worker c -> json_legal c (OObjectMember value key) ->
  goes_on worker (exec_json c worker (OObjectMember value key)).
Proof.
  intros Hc Hwk [v Hv]. simpl. unfold the_value. rewrite Hv. cbn [mbind outcome_bind].
  assert (Hok : value_ok (jc_world c) v) by (eapply (Forall_lookup_1 _ _ value), Hv; apply Hc).
  destruct (value_cases _ v Hok) as [[Hcur [t Ht]]|[_ [e E]]].
  - destruct (object_member_run _ v t key Ht) as (r & -> & Hr). eexists. split; [done|].
    apply obtain_ok; [done..|]. by eapply borrowed_ok.
  - unfold JsonValue_object_member. rewrite (with_kind_invalid _ _ e) by done. eexists. split; [done|]. by apply obtain_ok.
Qed.

(** *** The arena *)
Lemma exec_json_allocate_ok c worker bytes alignment :
  client_ok c -> client_worker worker c -> json_legal c (OAllocate bytes alignment) ->
  goes_on worker (exec_json c worker (OAllocate bytes alignment)).
Proof.
  intros Hc Hwk [Hb Ha]. simpl. pose proof Hc as [Hw _ _ _ _].
  destruct (allocate_bytes_run _ worker bytes alignment Hw Hwk Hb Ha) as (r & w & -> & Hr). cbn [mbind outcome_bind].
  pose proof Hr as (Hw' & [[Ea Ewk _ _ _] Eg _] & En & _ & Est & _).
  eexists. split; [done|]. split; [|unfold client_worker; simpl; by rewrite Ewk].
  destruct (full_dec (jc_world c)) as [Hf|Hnf].
  - apply same_client; try done. unfold is_size in Hb.
    apply (full_allocates (jc_world c) bytes alignment r w); [done|lia|done].
  - destruct (not_full_stale c Hc Hnf) as (Hd & Hv & Hi). apply stale_client; try done.
    + eapply stale_documents; [done| |done]. lia.
    + eapply stale_values; [done| |done]. lia.
    + intros p st. rewrite Est. apply Hi.
Qed.

Lemma exec_json_reset_ok c worker boundary n :
  client_ok c -> client_worker worker c ->
  goes_on worker (exec_json c worker (OReset boundary n)).
Proof.
  intros Hc Hwk. simpl. pose proof Hc as [Hw Hd Hv _ _]. pose proof Hw as [W1 W2 W3].
  destruct (reset_run acquire reset _ _ (jw_context (jc_world c)) worker boundary W1 Hwk) as (r & a & h & x & -> & Hr).
  cbn [mbind outcome_bind]. destruct r as [[]|e].
  - destruct Hr as (HI & [Ea Ewk _ _ _] & _ & _ & _ & _ & _ & Hgen & _ & Hcap & _).
    eexists. split; [done|]. split; [|unfold client_worker; simpl; by rewrite Ewk].
    apply stale_client.
    + split; simpl; [done|done|]. destruct HI as [_ _ _ _ Hst _]. rewrite decide_True in Hst by done. by rewrite Hst.
    + intros i d Hi. destruct (Hd i d Hi) as [->|(nd & p & H1 & H2 & H3 & H4 & _)]; [by left|].
      right. exists nd, p. simpl. rewrite Ea. repeat split; try done; lia.
    + eapply list.Forall_impl; [exact Hv|]. intros v (p & y & H1 & H2 & H3 & H4 & _).
      exists p, y. simpl. rewrite Ea. repeat split; try done; lia.
    + intros p st Hp. simpl in Hp. by rewrite lookup_empty in Hp.
  - destruct Hr as (-> & -> & _). eexists. split; [done|]. split; [|done]. apply same_client; try done.
Qed.

Lemma exec_json_ok c worker op :
  client_ok c -> client_worker worker c -> json_legal c op -> goes_on worker (exec_json c worker op).
Proof.
  intros Hc Hwk. destruct op.
  - by apply exec_parse_ok.
  - by apply json_exec_move_construct_ok.
  - by apply json_exec_move_assign_ok.
  - by apply json_exec_destroy_ok.
  - by apply exec_root_ok.
  - by apply exec_array_at_ok.
  - by apply exec_object_member_ok.
  - by apply exec_json_allocate_ok.
  - intros _. by apply exec_json_reset_ok.
Qed.

(** Clients start with an arena in its initial state and no objects. *)
Inductive json_reachable (worker : WorkerId) : JsonClient -> Prop :=
  | json_start w :
      world_ok w -> value_ worker = value_ (ba_worker (jw_arena w)) -> jw_states w = ∅ ->
      json_reachable worker (MkJsonClient w ∅ [])
  | json_next c op c' :
      json_reachable worker c -> json_legal c op -> exec_json c worker op = Ret c' -> json_reachable worker c'.

Lemma json_reachable_ok worker c : json_reachable worker c -> client_ok c /\ client_worker worker c.
Proof.
  induction 1 as [w Hw Hwk Hst|c op c' _ [Hc Hwk] Hl E].
  - split; [|done]. apply stale_client; try done. intros p st. by rewrite Hst, lookup_empty.
  - destruct (exec_json_ok c worker op Hc Hwk Hl) as (c'' & E' & H). congruence.
Qed.

(** C13: whatever documents a program parses into an arena, moves, overwrites, destroys and borrows
    values from, and whenever it resets the arena, every operation returns: nothing is freed
    twice and nothing is read after it was freed or its memory was given away.  A borrowed value
    is valid exactly while the arena has the generation the value was made in and the object that
    holds its document, wherever it was moved to, has not released it; then every accessor
    answers for one JSON tree, and otherwise every access is refused with an error. *)
Theorem json_clients_safe (worker : WorkerId) (c : JsonClient) :
  json_reachable worker c ->
  (forall op, json_legal c op -> exists c', exec_json c worker op = Ret c') /\
  (forall v, v ∈ jc_values c ->
     (jv_arena_generation v = ba_generation (jw_arena (jc_world c)) /\
      (exists i d, jc_documents c !! i = Some d /\ holds_current (jc_world c) d /\
         jd_document_state d = jv_document_state v) /\
      exists t, value_denotes (jc_world c) v t /\ reads_as (lib:=lib) (jc_world c) v t) \/
     (~ (jv_arena_generation v = ba_generation (jw_arena (jc_world c)) /\
         exists i d, jc_documents c !! i = Some d /\ holds_current (jc_world c) d /\
           jd_document_state d = jv_document_state v) /\
      exists e, JsonValue_require_valid v (jc_world c) = Ret (Err e))) /\
  (forall i j d d', jc_documents c !! i = Some d -> jc_documents c !! j = Some d' ->
     holds_current (jc_world c) d -> holds_current (jc_world c) d' -> i = j).
Proof.
  intros Hr. apply json_reachable_ok in Hr as [Hc Hwk]. pose proof Hc as [Hw Hd Hv Hu Ha].
  split; [|split; [|done]].
  - intros op Hl. destruct (exec_json_ok c worker op Hc Hwk Hl) as (c' & E & _). eauto.
  - intros v Hin. rewrite list.Forall_forall in Hv. specialize (Hv v Hin).
    destruct (value_cases _ v Hv) as [[[Hg (p & st & Hp & Hst & Hact)] [t Ht]]|[Hnc He]].
    + left. split; [done|]. split; [|exists t; split; [done|by apply reads_as_run]].
      destruct (Ha p st Hst Hact) as (i & d & Hi & Hcur & Hds). exists i, d. by rewrite Hp.
    + right. split; [|done]. intros [Hg (i & d & Hi & Hcur & Hds)]. apply Hnc. split; [done|].
      destruct (Hd i d Hi) as [->|(nd & p & H1 & _ & H3 & _ & H5)]; [by destruct (empty_not_current (jc_world c))|].
      destruct Hcur as [_ Hgd]. destruct (H5 Hgd) as (_ & _ & epoch & Hst). eexists p, _.
      split; [congruence|]. split; [exact Hst|done].
Qed.

(** C15: parsing ends on every input.  Either it is refused for a stated reason (limits that make
    no sense, an empty or too long text, no storage, text that is not JSON, or a document beyond
    the limits, which is then freed), or it opens a document that holds the JSON value of the
    text, within the limits: from its root, every path of indices and keys leads to exactly the
    value the tree has there, or to the error for the first step that does not exist, and every
    accessor reads that value back. *)
Theorem json_documents_read_back (w : World) (worker : WorkerId) (document : ByteView) (bytes : list Z)
    (limits : JsonDocumentLimits) (sink : DependencyLogSink L) :
  world_ok w -> value_ worker = value_ (ba_worker (jw_arena w)) ->
  span_bytes (jw_memory w) document = Some bytes -> outside document -> is_size (span_size document) ->
  limits_sized limits ->
  exists r w', JsonDocument_parse lib w worker document limits sink = Ret (r, w') /\
    match r with
    | Err e => refusal worker (span_size document) bytes limits (jw_native w') e
    | Ok d => exists root t, json_of bytes = Some t /\ conforms limits t /\
        JsonDocument_root lib d w' = Ret (Ok root) /\
        forall path, path_ok path -> exists found, navigate (lib:=lib) w' root path = Ret found /\
          match found, tree_at (jl_maximum_string_bytes limits) t path with
          | Ok v, Ok t' => reads_as (lib:=lib) w' v t'
          | Err e, Err e' => e = e'
          | _, _ => False
          end
    end.
Proof.
  intros Hw Hwk Hb Hout Hsz Hlim.
  destruct (parse_run w worker document bytes limits sink Hw Hwk Hb Hout Hsz Hlim) as (r & w' & E & (Hw' & Hs & Hr) & _).
  exists r, w'. split; [done|]. destruct r as [d|e]; [|by destruct Hr].
  destruct Hr as (nd & p & t & (-> & Hlive & Hconf) & Hj & Hf & Hst).
  destruct (root_run w' (MkJsonDocument (Some nd) (Some (ba_address (jw_arena w'))) (Some p)
      (ba_generation (jw_arena w')) (jl_maximum_string_bytes limits)) nd p t 1 eq_refl eq_refl eq_refl eq_refl Hlive ltac:(by rewrite Hst, lookup_insert_eq))
    as (root & Hroot & Hden & Hmax & _). exists root, t. do 3 (split; [done|]).
  intros path Hp. destruct (navigate_run w' path Hp root t Hden) as (found & En & Hfound).
  simpl in Hmax. rewrite Hmax in Hfound. exists found. split; [done|].
  unfold borrows in Hfound. destruct found as [v|e], (tree_at _ t path) as [t'|e']; try done.
  apply reads_as_run, Hfound.
Qed.
End parsing.

(** ** A library of trees

    It reads one text, and satisfies the laws of yyjson.  *)
(** The state is the tree of the live document, and nothing can be read without one.  A value is
    a tree and, for a key, the member it belongs to. *)
Definition tree_value : Type := jtree * option jtree.

Definition on_live {T} (n : option jtree) (x : T) : outcome T :=
  match n with None => Stop Undefined | Some _ => Ret x end.
Definition tests (k : JsonValueKind) (n : option jtree) (v : tree_value) : outcome bool :=
  on_live n (bool_decide (tree_kind (fst v) = k)).

(** [{"a":[7]}] is the only text this library reads. *)
Definition demo_text : list Z := [123; 34; 97; 34; 58; 91; 55; 93; 125].
Definition demo_key : list ascii := ["a"%char].
Definition demo_tree_value : jtree := T_obj [(demo_key, T_arr [T_uint 7])].
Definition demo_json (bytes : list Z) : option jtree :=
  if bool_decide (bytes = demo_text) then Some demo_tree_value else None.

Definition demo_lib : Yyjson (option jtree) unit jtree tree_value (list jtree) (list (list ascii * jtree)) :=
  {| sizeof_TraversalFrame := 80;
     YYJSON_READ_ERROR_MEMORY_ALLOCATION := 2;
     yyjson_alc_pool_init := fun pool n => Ret (Some tt, n);
     yyjson_read_opts := fun mem input _ n =>
       match span_bytes mem input with
       | None => Stop Undefined
       | Some bytes => match demo_json bytes with Some t => Ret (inl t, Some t) | None => Ret (inr 1, n) end
       end;
     yyjson_doc_free := fun d n => match n with None => Stop Undefined | Some _ => Ret None end;
     yyjson_doc_get_root := fun n d => on_live n (Some (d, None));
     yyjson_doc_get_val_count := fun n d => on_live n (Z.of_nat (tree_values d));
     yyjson_is_null := tests kind_null;
     yyjson_is_bool := tests kind_boolean;
     yyjson_is_uint := tests kind_unsigned_integer;
     yyjson_is_sint := tests kind_signed_integer;
     yyjson_is_real := tests kind_real;
     yyjson_is_str := tests kind_text;
     yyjson_is_arr := tests kind_array;
     yyjson_is_obj := tests kind_object;
     yyjson_get_bool := fun n v => on_live n (match fst v with T_bool b => b | _ => false end);
     yyjson_get_uint := fun n v => on_live n (match fst v with T_uint z => z | _ => 0 end);
     yyjson_get_sint := fun n v => on_live n (match fst v with T_sint z => z | _ => 0 end);
     yyjson_get_real := fun n v => on_live n (match fst v with T_real z => z | _ => 0 end);
     yyjson_get_str := fun n v => on_live n (match fst v with T_str s => Some (s ++ [Ascii.zero]) | _ => None end);
     yyjson_get_len := fun n v => on_live n (match fst v with T_str s => Z.of_nat (length s) | _ => 0 end);
     yyjson_arr_size := fun n v => on_live n (match fst v with T_arr ts => Z.of_nat (length ts) | _ => 0 end);
     yyjson_arr_get := fun n v index =>
       on_live n (match fst v with T_arr ts => (fun t => (t, None)) <$> ts !! Z.to_nat index | _ => None end);
     yyjson_arr_iter_with := fun n v => on_live n (match fst v with T_arr ts => ts | _ => [] end);
     yyjson_arr_iter_next := fun n i =>
       on_live n (match i with [] => (None, []) | t :: i' => (Some (t, None), i') end);
     yyjson_obj_size := fun n v => on_live n (match fst v with T_obj ms => Z.of_nat (length ms) | _ => 0 end);
     yyjson_obj_getn := fun n v key size =>
       on_live n (match fst v with
                  | T_obj ms => (fun t => (t, None)) <$> find_member (take (Z.to_nat size) key) ms
                  | _ => None
                  end);
     yyjson_obj_iter_with := fun n v => on_live n (match fst v with T_obj ms => ms | _ => [] end);
     yyjson_obj_iter_next := fun n i =>
       on_live n (match i with [] => (None, []) | (k, t) :: i' => (Some (T_str k, Some t), i') end);
     yyjson_obj_iter_get_val := fun n key => on_live n ((fun t => (t, None)) <$> snd key) |}.

Definition demo_denotes (n : option jtree) (v : tree_value) (t : jtree) : Prop := n <> None /\ fst v = t.

#[export] Program Instance demo_laws : YyjsonLaws demo_lib := {|
  json_of := demo_json;
  live n d t := n = Some t /\ d = t;
  denotes := demo_denotes;
  array_rest n i ts := n <> None /\ i = ts;
  object_rest n i ms := n <> None /\ i = ms |}.
Next Obligation. simpl. lia. Qed.
Next Obligation. simpl. eauto. Qed.
Next Obligation.
  intros mem input alc n bytes E. simpl. rewrite E.
  destruct (demo_json bytes) as [t|]; eexists _, _; (split; [reflexivity|]); [by exists t|done].
Qed.
Next Obligation. intros n d t [-> ->]. by eexists. Qed.
Next Obligation. intros n d t [-> ->]. by eexists. Qed.
Next Obligation. by intros n d t [-> ->]. Qed.
Next Obligation. intros [?|] v t [Hn <-]; [|done]. done. Qed.
Next Obligation. intros [?|] [v ?] b [Hn E]; simpl in *; [by subst|done]. Qed.
Next Obligation. intros [?|] [v ?] b [Hn E]; simpl in *; [by subst|done]. Qed.
Next Obligation. intros [?|] [v ?] b [Hn E]; simpl in *; [by subst|done]. Qed.
Next Obligation. intros [?|] [v ?] b [Hn E]; simpl in *; [by subst|done]. Qed.
Next Obligation. intros [?|] [v ?] s [Hn E]; simpl in *; [|done]. subst. split; [done|]. by eexists. Qed.
Next Obligation. intros [?|] [v ?] b [Hn E]; simpl in *; [by subst|done]. Qed.
Next Obligation.
  intros [?|] [v ?] ts index [Hn E] Hi; simpl in *; [|done]. subst. eexists. split; [done|].
  by destruct (ts !! Z.to_nat index).
Qed.
Next Obligation. intros [?|] [v ?] ts [Hn E]; simpl in *; [|done]. subst. by eexists. Qed.
Next Obligation. intros [?|] i ts [Hn ->]; simpl in *; [|done]. destruct ts; by eexists _, _. Qed.
Next Obligation. intros [?|] [v ?] b [Hn E]; simpl in *; [by subst|done]. Qed.
Next Obligation.
  intros [?|] [v ?] ms key [Hn E]; simpl in *; [|done]. subst. rewrite Nat2Z.id, take_ge by done.
  eexists. split; [done|]. by destruct (find_member key ms).
Qed.
Next Obligation. intros [?|] [v ?] ts [Hn E]; simpl in *; [|done]. subst. by eexists. Qed.
Next Obligation.
  intros [t0|] i ms [Hn ->]; simpl in *; [|done]. destruct ms as [|[k t] ms]; [by eexists _, _|].
  eexists _, _. split; [done|]. split; [done|]. split; [done|]. by eexists.
Qed.

(** ** An arena of 4096 bytes, and a document in memory beside it *)
Definition json_heap : Heap :=
  (MemoryReservation_construct (MkHeap {[ 0%nat := MkMemoryBudget demo_worker 10000 0 0 0 None ]} ∅ 1)).2.

Lemma json_heap_inv : Inv json_heap.
Proof.
  apply Inv_construct_reservation, reachable_Inv.
  apply (reachable_step empty_heap (OpConstructRoot demo_worker 10000)).
  - apply reachable_empty.
  - simpl. unfold is_size, size_max, u64_max. lia.
  - vm_compute. reflexivity.
Qed.

(** Block 5 is the arena's, block 6 holds the document. *)
Definition json_shape : gmap nat nat := {[ 5%nat := 4096%nat ]}.
Definition json_acquire (c : unit) (n : Z) : Result MutableByteView * unit :=
  if (0 <=? n) && (n <=? 4096) then (Ok (MkSpan (Some (MkPointer 5 0)) n), tt)
  else (Err (core_error exhaustion "no block of that size"), tt).
Definition json_reset (c : unit) : Result unit * unit := (Ok tt, tt).

Lemma json_acquire_view c n v c' : json_acquire c n = (Ok v, c') -> view_ok v /\ in_shape json_shape v.
Proof.
  unfold json_acquire. destruct (_ && _) eqn:E; [|done]. intros [= <- <-].
  rewrite andb_true_iff, !Z.leb_le in E. split.
  - split; simpl; [unfold size_max, u64_max; lia|done].
  - exists 4096%nat. split; [reflexivity|]. simpl ptr_offset. simpl span_size. lia.
Qed.

Definition json_arena : BoundedArena unit :=
  BoundedArena_construct 9 demo_worker 0 (arena_source json_acquire json_reset) 1 1024 4096.

Definition json_world : JsonWorld (N:=option jtree) (C:=unit) (L:=unit) :=
  MkJsonWorld None {[ 5%nat := replicate 4096 0; 6%nat := demo_text ]} ∅ json_arena json_heap tt tt.

Lemma json_world_ok : world_ok json_acquire json_reset json_shape json_world.
Proof.
  split.
  - split; simpl; try done; [exact json_heap_inv|]. exists (MkMemoryBudget demo_worker 10000 0 0 0 None). done.
  - intros b len. unfold json_shape. rewrite lookup_singleton_Some. intros [<- <-].
    exists (replicate 4096 0). split; [reflexivity|apply length_replicate].
  - done.
Qed.

Definition json_document : ByteView := MkSpan (Some (MkPointer 6 0)) 9.
Definition json_limits : JsonDocumentLimits := MkJsonDocumentLimits 100 3 2 8 10.
Definition no_log : DependencyLogSink unit := MkDependencyLogSink None.

Lemma json_limits_sized : limits_sized json_limits.
Proof. unfold limits_sized, is_size, size_max, u64_max. simpl. lia. Qed.
Lemma json_document_bytes : span_bytes (jw_memory json_world) json_document = Some demo_text.
Proof. vm_compute. reflexivity. Qed.
Lemma json_document_outside : outside json_shape json_document.
Proof. by intros q [= <-]. Qed.
Lemma json_document_size : is_size (span_size json_document).
Proof. unfold is_size, size_max, u64_max. simpl. lia. Qed.

Lemma validate_document_exact_witness :
  exists r s', validate_document demo_lib (Some demo_tree_value) demo_tree_value
      (Some [None; None; None]) 3 (Some [None; None]) 2 json_limits = Ret (r, s') /\
    r = Ok tt /\ (r = Ok tt <-> conforms json_limits demo_tree_value).
Proof.
  destruct (validate_document_exact demo_lib demo_laws json_limits (Some demo_tree_value) demo_tree_value demo_tree_value
    [None; None; None] (Some [None; None])) as (r & s' & H1 & H2 & H3).
  - split; reflexivity.
  - vm_compute. reflexivity.
  - simpl. lia.
  - reflexivity.
  - reflexivity.
  - exists r, s'. split; [exact H1|]. split; [rewrite H2; vm_compute; reflexivity|exact H3].
Defined.

(** The path [.a[0]] of the parsed document leads to [7]. *)
Lemma json_documents_read_back_witness :
  exists d w root v, JsonDocument_parse demo_lib json_world demo_worker json_document json_limits no_log = Ret (Ok d, w) /\
    JsonDocument_root demo_lib d w = Ret (Ok root) /\
    navigate (lib:=demo_lib) w root [Member demo_key; Index 0] = Ret (Ok v) /\
    JsonValue_unsigned_integer demo_lib v w = Ret (Ok 7).
Proof.
  destruct (json_documents_read_back json_acquire json_reset json_shape json_acquire_view json_world demo_worker
    json_document demo_text json_limits no_log json_world_ok eq_refl json_document_bytes json_document_outside
    json_document_size json_limits_sized) as (r & w & E & Hr).
  assert (match JsonDocument_parse demo_lib json_world demo_worker json_document json_limits no_log with
          | Ret (Ok _, _) => true | _ => false end = true) as Hok by (vm_compute; reflexivity).
  rewrite E in Hok. destruct r as [d|e]; [|discriminate Hok].
  destruct Hr as (root & t & Ht & _ & Hroot & Hpath).
  assert (t = demo_tree_value) as -> by (vm_compute in Ht; injection Ht as <-; reflexivity).
  destruct (Hpath [Member demo_key; Index 0]) as (found & Hf & Hv); [repeat constructor; lia|].
  destruct found as [v|e]; [|destruct Hv]. exists d, w, root, v.
  split; [exact E|]. split; [exact Hroot|]. split; [exact Hf|]. apply Hv.
Defined.

(** A client that parses the document, borrows its root and destroys the document; the root is
    then refused. *)
Definition json_run : outcome JsonClient :=
  c ← exec_json (lib:=demo_lib) (MkJsonClient json_world ∅ []) demo_worker (OParse 0 json_document json_limits no_log);
  c ← exec_json (lib:=demo_lib) c demo_worker (ORoot 0);
  exec_json (lib:=demo_lib) c demo_worker (ODestroy 0).

Lemma json_clients_safe_witness :
  match json_run with
  | Ret c => match jc_values c with
             | [v] => exists e, JsonValue_require_valid v (jc_world c) = Ret (Err e)
             | _ => False
             end
  | Stop _ => False
  end.
Proof.
  assert (match json_run with Ret c => Some (length (jc_values c), size (jc_documents c)) | Stop _ => None end =
    Some (1%nat, 0%nat)) as Hrun by (vm_compute; reflexivity).
  destruct json_run as [c|f] eqn:E; [|discriminate Hrun]. injection Hrun as Hl Hs.
  destruct (jc_values c) as [|v [|]] eqn:Ev; try discriminate Hl.
  assert (json_reachable (lib:=demo_lib) json_acquire json_reset json_shape demo_worker c) as Hreach.
  { unfold json_run in E. destruct (exec_json (MkJsonClient json_world ∅ []) _ _) as [c1|] eqn:E1; [|discriminate E].
    cbn [mbind outcome_bind] in E. destruct (exec_json c1 _ _) as [c2|] eqn:E2; [|discriminate E].
    cbn [mbind outcome_bind] in E.
    assert (is_Some (jc_documents c1 !! 0%nat) /\ is_Some (jc_documents c2 !! 0%nat)) as [H1 H2].
    { split; eexists.
      - vm_compute in E1. injection E1 as <-. reflexivity.
      - vm_compute in E1. injection E1 as <-. vm_compute in E2. injection E2 as <-. reflexivity. }
    eapply (json_next _ _ _ _ c2 (ODestroy 0)); [|exact H2|exact E].
    eapply (json_next _ _ _ _ c1 (ORoot 0)); [|exact H1|exact E2].
    eapply (json_next _ _ _ _ _ (OParse 0 json_document json_limits no_log)); [| |exact E1].
    - apply json_start; [exact json_world_ok|reflexivity|reflexivity].
    - split; [reflexivity|]. split; [eexists; exact json_document_bytes|]. split; [exact json_document_outside|].
      split; [exact json_document_size|exact json_limits_sized]. }
  destruct (json_clients_safe json_acquire json_reset json_shape json_acquire_view demo_worker c Hreach) as (_ & Hv & _).
  destruct (Hv v) as [(_ & (i & d & Hi & _) & _)|(_ & e & He)].
  - rewrite Ev. left.
  - apply map_size_empty_inv in Hs. rewrite Hs, lookup_empty in Hi. discriminate Hi.
  - exists e. exact He.
Defined.
