(* ===== verification/Dns.v ===== *)
(** * The DNS resolver

    Models [src/adapters/contract/laghu/adapters/dns.hpp] and [src/adapters/dns.cpp]: the
    lifecycle hooks of the library, the resolver with its query slots, tokens and socket table,
    and the callbacks the library makes into it.

    c-ares is a record of functions.  Its calls act on a state [N] of its own and return the
    callbacks they make, in order; the callbacks do not call the library back except to free a
    result, which is recorded, so they can be run after the call.  A callback carries the
    context it was registered with, a slot of a resolver state.  [Stop] is a call the library
    leaves undefined, such as one on a destroyed channel.  Resolver states and lifecycle objects
    are found by their addresses; [operator new] is an argument.  Every operation calls the
    completion callback of the caller last, so that what the callback does to the resolver comes
    after: the calls are recorded in order. *)
From S2P Require Import Prelude Contract CheckedArithmetic Views Dependencies DependencyLifecycle.
From Stdlib Require Import ZArith Lia String Ascii.
From stdpp Require Import base numbers list gmap option.

Set Default Goal Selector "!".
#[local] Open Scope Z_scope.

(** ** Addresses, names and limits *)
Inductive DnsAddressFamily := address_ipv4 | address_ipv6 | address_family_unlisted (raw : Z).
#[export] Instance DnsAddressFamily_eq_dec : EqDecision DnsAddressFamily.
Proof. solve_decision. Defined.
Inductive DnsQueryFamily := query_ipv4 | query_ipv6 | query_any | query_family_unlisted (raw : Z).

Record DnsAddress := MkDnsAddress { da_family : DnsAddressFamily; da_bytes : list Z; da_ttl_seconds : Z }.
Definition DnsAddress_default : DnsAddress := MkDnsAddress address_ipv4 (replicate 16 0) 0.

Record DnsNameserver := MkDnsNameserver { dn_family : DnsAddressFamily; dn_bytes : list Z; dn_port : Z }.

(** A token is its value; zero is invalid. *)
Record DnsQueryToken := MkDnsQueryToken { token_value : Z }.
Definition DnsQueryToken_valid (token : DnsQueryToken) : bool := negb (token_value token =? 0).

Record DnsQueryResult := MkDnsQueryResult {
  qr_token : DnsQueryToken; qr_addresses : list DnsAddress; qr_error : option Error }.
Definition DnsQueryResult_succeeded (r : DnsQueryResult) : bool :=
  match qr_error r with None => true | Some _ => false end.

(** The completion function is known by a number, if it is not null. *)
Record DnsQuerySink := MkDnsQuerySink { qs_context : nat; qs_complete : option nat }.

Record DnsResolverLimits := MkDnsResolverLimits {
  rl_maximum_outstanding_queries : Z; rl_maximum_result_addresses : Z;
  rl_timeout_milliseconds : Z; rl_attempts : Z }.

Record DnsDependencyLifecycle := MkDnsDependencyLifecycle {
  dl_process : Z; dl_live_resolvers : Z; dl_initialized : bool }.
Definition DnsDependencyLifecycle_default := MkDnsDependencyLifecycle 0 0 false.

Record DnsResolverConfig := MkDnsResolverConfig {
  rc_limits : DnsResolverLimits; rc_nameservers : list DnsNameserver; rc_lifecycle : option nat }.

Record DnsSocketInterest := MkDnsSocketInterest { si_descriptor : Z; si_readable : bool; si_writable : bool }.
Record DnsSocketEvent := MkDnsSocketEvent { se_descriptor : Z; se_readable : bool; se_writable : bool }.
Record DnsTimeout := MkDnsTimeout { dt_active : bool; dt_milliseconds : Z }.

Definition maximum_query_capacity : nat := 64.
Definition maximum_address_capacity : nat := 32.
Definition maximum_socket_capacity : nat := 1024.
Definition maximum_nameserver_capacity : nat := 8.
Definition nameserver_csv_capacity : nat := 512.
Definition int_limit : Z := 2147483647.

Definition dns_inactive_error := core_error invalid_state "DNS resolver is inactive".
Definition dns_hostname_error := core_error invalid_range "DNS hostname must contain 1 to 253 bytes".
Definition dns_family_error := core_error invalid_input "DNS query family is invalid".
Definition dns_outstanding_error := core_error exhaustion "DNS outstanding query limit reached".
Definition dns_token_error := core_error exhaustion "DNS query token capacity exhausted".
Definition dns_result_error := core_error exhaustion "DNS result exceeds caller address capacity".
Definition dns_socket_error := core_error exhaustion "DNS socket interest capacity exhausted".
Definition dns_token_inactive_error := core_error invalid_state "DNS query token is inactive".
Definition dns_cancel_error := core_error invalid_state "DNS dependency did not complete cancellation".
Definition dns_canceled_error := core_error cancellation "DNS query was canceled".
Definition dns_lifecycle_error := core_error invalid_state "DNS resolver requires initialized worker lifecycle".
Definition dns_config_error := core_error invalid_input "DNS resolver limits, nameservers, or callback are invalid".
Definition dns_allocation_error := core_error exhaustion "DNS resolver state allocation failed".
Definition dns_port_error := core_error invalid_input "DNS nameserver port must be nonzero".
Definition dns_server_family_error := core_error invalid_input "DNS nameserver family is invalid".
Definition dns_server_address_error := core_error invalid_input "DNS nameserver address is invalid".
Definition dns_csv_error := core_error invalid_range "DNS nameserver list exceeds bounded storage".
Definition dns_port_space_error := core_error invalid_range "DNS nameserver port does not fit bounded storage".
Definition dns_interest_error := core_error invalid_range "DNS socket interest output is too small".
Definition dns_events_error := core_error invalid_range "DNS socket event input exceeds capacity".
Definition dns_event_error := core_error invalid_input "DNS socket event is invalid".
Definition dns_unregistered_error := core_error invalid_state "DNS socket event is not registered".
Definition dns_preflight_error := core_error invalid_state "c-ares preflight requires inactive lifecycle".
Definition dns_worker_error := core_error invalid_state "c-ares worker initialization state is invalid".
Definition dns_cleanup_error := core_error invalid_state "c-ares cleanup requires quiescent worker state".
Definition dns_master_error := core_error invalid_state "c-ares master cleanup requires inactive lifecycle".

(** ** The library *)
Inductive ares_status :=
  | ARES_SUCCESS | ARES_ENODATA | ARES_EFORMERR | ARES_ESERVFAIL | ARES_ENOTFOUND | ARES_ENOTIMP
  | ARES_EBADQUERY | ARES_EBADNAME | ARES_EBADFAMILY | ARES_EBADRESP | ARES_ECONNREFUSED | ARES_ETIMEOUT
  | ARES_ENOMEM | ARES_ENOTINITIALIZED | ARES_EDESTRUCTION | ARES_ECANCELLED | ARES_ESERVICE
  | ares_unlisted (raw : Z).
#[export] Instance ares_status_eq_dec : EqDecision ares_status.
Proof. solve_decision. Defined.

Definition status_for (status : ares_status) : DependencyStatus :=
  match status with
  | ARES_ENOMEM => status_exhaustion
  | ARES_EBADNAME | ARES_EBADQUERY | ARES_EBADFAMILY | ARES_ESERVICE => status_invalid_input
  | ARES_ENOTIMP | ARES_ENOTINITIALIZED => status_unavailable
  | ARES_ETIMEOUT | ARES_ECONNREFUSED | ARES_ESERVFAIL => status_io
  | ARES_EFORMERR | ARES_EBADRESP => status_corrupt_data
  | ARES_ENODATA | ARES_ENOTFOUND => status_unavailable
  | _ => status_unknown
  end.

Inductive address_family := AF_INET | AF_INET6 | AF_UNSPEC | af_other (raw : Z).
#[export] Instance address_family_eq_dec : EqDecision address_family.
Proof. solve_decision. Defined.

(** A node of a result: the bytes of its socket address, if it has one. *)
Record ares_addrinfo_node := MkNode {
  ai_family : address_family; ai_addr : option (list Z); ai_addrlen : Z; ai_ttl : Z }.

(** The slot a callback was registered for: the address of the resolver state and the index. *)
Record slot_context := MkSlotContext { sc_state : nat; sc_index : nat }.
#[export] Instance slot_context_eq_dec : EqDecision slot_context.
Proof. solve_decision. Defined.

(** [R] identifies the native result of a completed query. *)
Inductive ares_callback (R : Type) :=
  | CbSocket (context : slot_context) (descriptor : Z) (readable writable : bool)
  | CbComplete (context : slot_context) (status : ares_status) (result : option (R * list ares_addrinfo_node)).
Arguments CbSocket {R}.
Arguments CbComplete {R}.

(** [ao_context] is what the callback for the states of sockets is registered with. *)
Record ares_options := MkAresOptions { ao_flags : Z; ao_timeout : Z; ao_tries : Z; ao_context : slot_context; ao_qcache_max_ttl : Z }.
Record ares_addrinfo_hints := MkAresHints { hi_family : address_family; hi_socktype : Z }.
Definition SOCK_STREAM : Z := 1.

Definition sizeof_sockaddr_in : Z := 16.
Definition sizeof_sockaddr_in6 : Z := 28.

Section dns.
Context {N CH R L : Type}.
Implicit Types (n : N).

(** [ARES_OPT_QUERY_CACHE] is there when the header of the library defines it. *)
Record Ares := MkAres {
  ARES_FLAG_NOSEARCH : Z; ARES_OPT_FLAGS : Z; ARES_OPT_TIMEOUTMS : Z; ARES_OPT_TRIES : Z; ARES_OPT_SOCK_STATE_CB : Z; ARES_OPT_QUERY_CACHE : option Z;
  ares_status_value : ares_status -> Z;
  ares_library_init : N -> ares_status * N;
  ares_library_cleanup : N -> N;
  ares_init_options : ares_options -> Z -> N -> (CH + ares_status) * N;
  ares_set_servers_ports_csv : CH -> list ascii -> N -> outcome (ares_status * N);
  ares_getaddrinfo : CH -> list ascii -> ares_addrinfo_hints -> slot_context -> N ->
    outcome (list (ares_callback R) * N);
  ares_cancel : CH -> N -> outcome (list (ares_callback R) * N);
  ares_process_fd : CH -> option Z -> option Z -> N -> outcome (list (ares_callback R) * N);
  ares_destroy : CH -> N -> outcome (list (ares_callback R) * N);
  ares_timeout : CH -> N -> outcome (option (Z * Z));
  inet_ntop : address_family -> list Z -> option (list ascii) }.

Context (lib : Ares).

(** ** The state of a resolver *)
Record QuerySlot := MkQuerySlot {
  q_owner : option nat; q_channel : option CH; q_token : DnsQueryToken;
  q_completed_addresses : list DnsAddress; q_completed_error : Error; q_completed_address_count : Z;
  q_active : bool; q_native_done : bool; q_canceling : bool; q_socket_capacity_failed : bool;
  q_completed_with_error : bool }.

Definition QuerySlot_default : QuerySlot :=
  MkQuerySlot None None (MkDnsQueryToken 0) (replicate maximum_address_capacity DnsAddress_default)
    (core_error invalid_state "") 0 false false false false false.

(** [query] is the index of the slot in the same state. *)
Record SocketSlot := MkSocketSlot { ks_descriptor : Z; ks_query : option nat; ks_readable : bool; ks_writable : bool }.
Definition SocketSlot_default : SocketSlot := MkSocketSlot (-1) None false false.

Record State := MkState {
  st_lifecycle : option nat; st_limits : DnsResolverLimits; st_sink : DnsQuerySink;
  st_log : DependencyLogSink L; st_queries : list QuerySlot; st_sockets : list SocketSlot;
  st_nameserver_csv : list ascii; st_next_token : Z; st_outstanding : Z; st_socket_count : Z;
  st_has_explicit_nameservers : bool; st_shutting_down : bool }.

Definition set_queries (s : State) (queries : list QuerySlot) : State :=
  MkState (st_lifecycle s) (st_limits s) (st_sink s) (st_log s) queries (st_sockets s) (st_nameserver_csv s)
    (st_next_token s) (st_outstanding s) (st_socket_count s) (st_has_explicit_nameservers s) (st_shutting_down s).
Definition set_query (s : State) (index : nat) (q : QuerySlot) : State :=
  set_queries s (<[index := q]> (st_queries s)).
Definition set_sockets (s : State) (sockets : list SocketSlot) (socket_count : Z) : State :=
  MkState (st_lifecycle s) (st_limits s) (st_sink s) (st_log s) (st_queries s) sockets (st_nameserver_csv s)
    (st_next_token s) (st_outstanding s) socket_count (st_has_explicit_nameservers s) (st_shutting_down s).
Definition set_outstanding (s : State) (outstanding : Z) : State :=
  MkState (st_lifecycle s) (st_limits s) (st_sink s) (st_log s) (st_queries s) (st_sockets s) (st_nameserver_csv s)
    (st_next_token s) outstanding (st_socket_count s) (st_has_explicit_nameservers s) (st_shutting_down s).
Definition set_next_token (s : State) (next_token : Z) : State :=
  MkState (st_lifecycle s) (st_limits s) (st_sink s) (st_log s) (st_queries s) (st_sockets s) (st_nameserver_csv s)
    next_token (st_outstanding s) (st_socket_count s) (st_has_explicit_nameservers s) (st_shutting_down s).
Definition set_shutting_down (s : State) : State :=
  MkState (st_lifecycle s) (st_limits s) (st_sink s) (st_log s) (st_queries s) (st_sockets s) (st_nameserver_csv s)
    (st_next_token s) (st_outstanding s) (st_socket_count s) (st_has_explicit_nameservers s) true.

(** Setters of a slot. *)
Definition set_channel (q : QuerySlot) (channel : option CH) : QuerySlot :=
  MkQuerySlot (q_owner q) channel (q_token q) (q_completed_addresses q) (q_completed_error q)
    (q_completed_address_count q) (q_active q) (q_native_done q) (q_canceling q) (q_socket_capacity_failed q)
    (q_completed_with_error q).
Definition set_native_done (q : QuerySlot) : QuerySlot :=
  MkQuerySlot (q_owner q) (q_channel q) (q_token q) (q_completed_addresses q) (q_completed_error q)
    (q_completed_address_count q) (q_active q) true (q_canceling q) (q_socket_capacity_failed q)
    (q_completed_with_error q).
Definition set_canceling (q : QuerySlot) (canceling : bool) : QuerySlot :=
  MkQuerySlot (q_owner q) (q_channel q) (q_token q) (q_completed_addresses q) (q_completed_error q)
    (q_completed_address_count q) (q_active q) (q_native_done q) canceling (q_socket_capacity_failed q)
    (q_completed_with_error q).
Definition set_socket_capacity_failed (q : QuerySlot) : QuerySlot :=
  MkQuerySlot (q_owner q) (q_channel q) (q_token q) (q_completed_addresses q) (q_completed_error q)
    (q_completed_address_count q) (q_active q) (q_native_done q) (q_canceling q) true (q_completed_with_error q).
Definition set_completed (q : QuerySlot) (addresses : list DnsAddress) (e : Error) (count : Z) (failed : bool) : QuerySlot :=
  MkQuerySlot (q_owner q) (q_channel q) (q_token q) addresses e count (q_active q) (q_native_done q)
    (q_canceling q) (q_socket_capacity_failed q) failed.

(** The slot as [resolve] prepares it. *)
Definition open_query (q : QuerySlot) (token : DnsQueryToken) : QuerySlot :=
  MkQuerySlot (q_owner q) (q_channel q) token (q_completed_addresses q) (q_completed_error q) 0
    true false false false false.

Definition finish_query (q : QuerySlot) : QuerySlot :=
  if negb (q_active q) then q else
  MkQuerySlot (q_owner q) None (q_token q) (q_completed_addresses q) (q_completed_error q) 0
    false false false false false.

(** ** The world *)

(** [dw_process] is what [getpid] returns. *)
Record DnsWorld := MkDnsWorld {
  dw_native : N; dw_states : gmap nat State; dw_lifecycles : gmap nat DnsDependencyLifecycle;
  dw_freed : list R; dw_completions : list (nat * DnsQuerySink * DnsQueryResult); dw_log : L;
  dw_process : Z }.
Implicit Types (w : DnsWorld).

Definition set_native w n : DnsWorld :=
  MkDnsWorld n (dw_states w) (dw_lifecycles w) (dw_freed w) (dw_completions w) (dw_log w) (dw_process w).
Definition set_state w (a : nat) (s : State) : DnsWorld :=
  MkDnsWorld (dw_native w) (<[a := s]> (dw_states w)) (dw_lifecycles w) (dw_freed w) (dw_completions w) (dw_log w) (dw_process w).
Definition set_lifecycle w (a : nat) (l : DnsDependencyLifecycle) : DnsWorld :=
  MkDnsWorld (dw_native w) (dw_states w) (<[a := l]> (dw_lifecycles w)) (dw_freed w) (dw_completions w) (dw_log w) (dw_process w).
Definition set_log w (l : L) : DnsWorld :=
  MkDnsWorld (dw_native w) (dw_states w) (dw_lifecycles w) (dw_freed w) (dw_completions w) l (dw_process w).
Definition delete_state w (a : nat) : DnsWorld :=
  MkDnsWorld (dw_native w) (delete a (dw_states w)) (dw_lifecycles w) (dw_freed w) (dw_completions w) (dw_log w) (dw_process w).
(** [ares_freeaddrinfo] *)
Definition free_result w (r : R) : DnsWorld :=
  MkDnsWorld (dw_native w) (dw_states w) (dw_lifecycles w) (r :: dw_freed w) (dw_completions w) (dw_log w) (dw_process w).
(** [sink.complete(sink.context, result)]; the state it came from is noted. *)
Definition complete w (a : nat) (sink : DnsQuerySink) (r : DnsQueryResult) : DnsWorld :=
  MkDnsWorld (dw_native w) (dw_states w) (dw_lifecycles w) (dw_freed w) ((a, sink, r) :: dw_completions w) (dw_log w) (dw_process w).

Definition current_process w : Z := if 0 <? dw_process w then dw_process w else 0.

Definition the_state w (a : nat) : outcome State :=
  match dw_states w !! a with None => Stop Undefined | Some s => Ret s end.
Definition the_query (s : State) (index : nat) : outcome QuerySlot :=
  match st_queries s !! index with None => Stop Undefined | Some q => Ret q end.

Definition native_error (operation : DependencyOperation) (status : ares_status) (sink : DependencyLogSink L) w :
    Error * DnsWorld :=
  let e := normalize_dependency_error id_c_ares operation (status_for status) (cast int32_t (ares_status_value lib status)) in
  (e, set_log w (log_dependency_error sink (dw_log w) e)).

(** The first active slot whose query the library has not finished. *)
Definition find_query (s : State) (token : DnsQueryToken) : option (nat * QuerySlot) :=
  if negb (DnsQueryToken_valid token) then None else
  list_find (fun q => q_active q = true /\ q_native_done q = false /\ token_value (q_token q) = token_value token)
    (st_queries s).

(** ** Callbacks *)
Definition socket_state w (context : slot_context) (descriptor : Z) (readable writable : bool) : outcome DnsWorld :=
  s ← the_state w (sc_state context);
  query ← the_query s (sc_index context);
  let a := sc_state context in
  match list_find (fun k => ks_descriptor k = descriptor) (take (Z.to_nat (st_socket_count s)) (st_sockets s)) with
  | Some (index, k) =>
      if negb readable && negb writable then
        match st_sockets s !! Z.to_nat (st_socket_count s - 1) with
        | None => Stop Undefined
        | Some last => Ret (set_state w a (set_sockets s (<[index := last]> (st_sockets s)) (st_socket_count s - 1)))
        end
      else
        Ret (set_state w a (set_sockets s
               (<[index := MkSocketSlot (ks_descriptor k) (ks_query k) readable writable]> (st_sockets s))
               (st_socket_count s)))
  | None =>
      if negb readable && negb writable then Ret w else
      if st_socket_count s =? Z.of_nat maximum_socket_capacity then
        Ret (set_state w a (set_query s (sc_index context) (set_socket_capacity_failed query)))
      else
        sockets ← set_slot (st_sockets s) (st_socket_count s)
                    (MkSocketSlot descriptor (Some (sc_index context)) readable writable);
        Ret (set_state w a (set_sockets s sockets (st_socket_count s + 1)))
  end.

(** The first sixteen bytes of an address array, the given ones first. *)
Definition address_bytes (bytes : list Z) : list Z := list_inserts 0 bytes (replicate 16 0).

Definition copy_address (node : ares_addrinfo_node) : option DnsAddress :=
  match ai_addr node with
  | None => None
  | Some bytes =>
      if ai_ttl node <? 0 then None else
      if bool_decide (ai_family node = AF_INET) && (sizeof_sockaddr_in <=? ai_addrlen node) then
        Some (MkDnsAddress address_ipv4 (address_bytes (take 4 (drop 4 bytes))) (u32 (ai_ttl node)))
      else if bool_decide (ai_family node = AF_INET6) && (sizeof_sockaddr_in6 <=? ai_addrlen node) then
        Some (MkDnsAddress address_ipv6 (address_bytes (take 16 (drop 8 bytes))) (u32 (ai_ttl node)))
      else None
  end.

(** The loop over the nodes, on the completed fields of the slot. *)
Fixpoint address_loop (limit : Z) (nodes : list ares_addrinfo_node) (q : QuerySlot) : outcome QuerySlot :=
  match nodes with
  | [] => Ret q
  | node :: nodes =>
      match copy_address node with
      | None => address_loop limit nodes q
      | Some address =>
          if q_completed_address_count q =? limit then
            Ret (set_completed q (q_completed_addresses q) dns_result_error 0 true)
          else
            addresses ← set_slot (q_completed_addresses q) (q_completed_address_count q) address;
            address_loop limit nodes
              (set_completed q addresses (q_completed_error q) (q_completed_address_count q + 1) (q_completed_with_error q))
      end
  end.

Definition free_native w (result : option (R * list ares_addrinfo_node)) : DnsWorld :=
  match result with None => w | Some (r, _) => free_result w r end.

Definition finish_outstanding (s : State) : State :=
  if negb (st_outstanding s =? 0) then set_outstanding s (st_outstanding s - 1) else s.

Definition address_complete w (context : slot_context) (status : ares_status)
    (native_result : option (R * list ares_addrinfo_node)) : outcome DnsWorld :=
  s ← the_state w (sc_state context);
  query ← the_query s (sc_index context);
  let a := sc_state context in let i := sc_index context in
  if st_shutting_down s then
    Ret (set_state (free_native w native_result) a (set_query s i (set_native_done query)))
  else if q_canceling query && bool_decide (status = ARES_ECANCELLED) then
    Ret (set_state (free_native w native_result) a (finish_outstanding (set_query s i (set_native_done query))))
  else
  let query := set_completed query (q_completed_addresses query) (q_completed_error query) 0 false in
  '(query, w) ←
    (if negb (bool_decide (status = ARES_SUCCESS)) then
       let '(e, w) := native_error op_dns_query status (st_log s) w in
       Ret (set_completed query (q_completed_addresses query) e 0 true, w)
     else
       query ← address_loop (rl_maximum_result_addresses (st_limits s))
                 (match native_result with None => [] | Some (_, nodes) => nodes end) query;
       if negb (q_completed_with_error query) && (q_completed_address_count query =? 0) then
         let '(e, w) := native_error op_dns_query ARES_ENODATA (st_log s) w in
         Ret (set_completed query (q_completed_addresses query) e (q_completed_address_count query) true, w)
       else Ret (query, w));
  Ret (set_state (free_native w native_result) a (finish_outstanding (set_query s i (set_native_done query)))).

Fixpoint run_callbacks (callbacks : list (ares_callback R)) w : outcome DnsWorld :=
  match callbacks with
  | [] => Ret w
  | CbSocket context descriptor readable writable :: callbacks =>
      w ← socket_state w context descriptor readable writable; run_callbacks callbacks w
  | CbComplete context status result :: callbacks =>
      w ← address_complete w context status result; run_callbacks callbacks w
  end.

(** A call of the library with the callbacks it makes. *)
Definition call (f : N -> outcome (list (ares_callback R) * N)) w : outcome DnsWorld :=
  '(callbacks, n) ← f (dw_native w); run_callbacks callbacks (set_native w n).

(** ** The list of nameservers *)
Fixpoint port_digits (fuel : nat) (v : Z) (rest : list ascii) : list ascii :=
  match fuel with
  | O => rest
  | S fuel =>
      let rest := ascii_of_N (Z.to_N (48 + v mod 10)) :: rest in
      if v <? 10 then rest else port_digits fuel (v / 10) rest
  end.
(** What [std::to_chars] writes for a port. *)
Definition port_text (port : Z) : list ascii := port_digits 5 port [].

Definition put_text (output : list ascii) (size : Z) (text : list ascii) : list ascii * Z :=
  (list_inserts (Z.to_nat size) text output, size + Z.of_nat (length text)).

Definition append_nameserver (nameserver : DnsNameserver) (output : list ascii) (size : Z) :
    Result (list ascii * Z) :=
  if dn_port nameserver =? 0 then Err dns_port_error else
  match (match dn_family nameserver with
         | address_ipv4 => Some AF_INET | address_ipv6 => Some AF_INET6 | _ => None
         end) with
  | None => Err dns_server_family_error
  | Some family =>
      match inet_ntop lib family (dn_bytes nameserver) with
      | None => Err dns_server_address_error
      | Some text =>
          let brackets := bool_decide (family = AF_INET6) in
          let required := Z.of_nat (length text) + 1 + 5 + (if brackets then 2 else 0) + (if size =? 0 then 0 else 1) in
          if u64 (Z.of_nat (length output) - size) <? required then Err dns_csv_error else
          let '(output, size) := put_text output size (if size =? 0 then [] else [","%char]) in
          let '(output, size) := put_text output size (if brackets then ["["%char] else []) in
          let '(output, size) := put_text output size text in
          let '(output, size) := put_text output size (if brackets then ["]"%char] else []) in
          let '(output, size) := put_text output size [":"%char] in
          if Z.of_nat (length output) - 1 <? size + Z.of_nat (length (port_text (dn_port nameserver)))
          then Err dns_port_space_error else
          let '(output, size) := put_text output size (port_text (dn_port nameserver)) in
          Ok (<[Z.to_nat size := Ascii.zero]> output, size)
      end
  end.

Fixpoint append_nameservers (nameservers : list DnsNameserver) (output : list ascii) (size : Z) :
    Result (list ascii * Z) :=
  match nameservers with
  | [] => Ok (output, size)
  | nameserver :: nameservers =>
      '(output, size) ← append_nameserver nameserver output size;
      append_nameservers nameservers output size
  end.

(** ** Channels *)
Definition option_mask : Z :=
  let mask := Z.lor (Z.lor (ARES_OPT_FLAGS lib) (ARES_OPT_TIMEOUTMS lib)) (Z.lor (ARES_OPT_TRIES lib) (ARES_OPT_SOCK_STATE_CB lib)) in
  match ARES_OPT_QUERY_CACHE lib with Some query_cache => Z.lor mask query_cache | None => mask end.

Definition initialize_channel w (a index : nat) : outcome (Result unit * DnsWorld) :=
  s ← the_state w a;
  query ← the_query s index;
  let options := MkAresOptions (ARES_FLAG_NOSEARCH lib) (cast int32_t (rl_timeout_milliseconds (st_limits s))) (cast int32_t (rl_attempts (st_limits s)))
    (MkSlotContext a index) 0 in
  let '(initialized, n) := ares_init_options lib options option_mask (dw_native w) in
  let w := set_native w n in
  match initialized with
  | inr status =>
      let '(e, w) := native_error op_dns_session status (st_log s) w in
      Ret (Err e, w)
  | inl channel =>
      let w := set_state w a (set_query s index (set_channel query (Some channel))) in
      if st_has_explicit_nameservers s then
        match c_string_read (st_nameserver_csv s) with
        | None => Stop Undefined
        | Some csv =>
            '(configured, n) ← ares_set_servers_ports_csv lib channel csv (dw_native w);
            let w := set_native w n in
            if negb (bool_decide (configured = ARES_SUCCESS)) then
              let '(e, w) := native_error op_dns_session configured (st_log s) w in
              w ← call (ares_destroy lib channel) w;
              s ← the_state w a;
              query ← the_query s index;
              Ret (Err e, set_state w a (set_query s index (set_channel query None)))
            else Ret (Ok tt, w)
        end
      else Ret (Ok tt, w)
  end.

Definition retire_channel w (a index : nat) : outcome DnsWorld :=
  s ← the_state w a;
  query ← the_query s index;
  w ← (match q_channel query with None => Ret w | Some channel => call (ares_destroy lib channel) w end);
  s ← the_state w a;
  query ← the_query s index;
  Ret (set_state w a (set_query s index (finish_query query))).

Definition dispatch_completion w (a index : nat) : outcome DnsWorld :=
  s ← the_state w a;
  query ← the_query s index;
  w ← retire_channel w a index;
  Ret (complete w a (st_sink s)
         (MkDnsQueryResult (q_token query)
            (take (Z.to_nat (q_completed_address_count query)) (q_completed_addresses query))
            (if q_completed_with_error query then Some (q_completed_error query) else None))).

Definition fail_socket_capacity w (a index : nat) : outcome DnsWorld :=
  s ← the_state w a;
  query ← the_query s index;
  let w := set_state w a (set_query s index (set_canceling query true)) in
  w ← (match q_channel query with None => Stop Undefined | Some channel => call (ares_cancel lib channel) w end);
  w ← retire_channel w a index;
  Ret (complete w a (st_sink s) (MkDnsQueryResult (q_token query) [] (Some dns_socket_error))).

(** What follows every call that may finish the query of a slot: [true] when the query ended. *)
Definition settle w (a index : nat) : outcome (bool * DnsWorld) :=
  s ← the_state w a;
  query ← the_query s index;
  if q_native_done query then (w ← dispatch_completion w a index; Ret (true, w))
  else if q_socket_capacity_failed query then (w ← fail_socket_capacity w a index; Ret (true, w))
  else Ret (false, w).

(** ** The library's lifecycle *)

(** The context is the lifecycle object, or null. *)
Definition DnsDependencyLifecycle_preflight (lifecycle : option DnsDependencyLifecycle) : Result unit :=
  match lifecycle with
  | None => Err dns_preflight_error
  | Some l => if dl_initialized l || negb (dl_live_resolvers l =? 0) then Err dns_preflight_error else Ok tt
  end.

Definition DnsDependencyLifecycle_worker_initialize (lifecycle : option DnsDependencyLifecycle) (process : Z) n :
    Result unit * option DnsDependencyLifecycle * N :=
  match lifecycle with
  | None => (Err dns_worker_error, lifecycle, n)
  | Some l =>
      if (process =? 0) || negb (dl_live_resolvers l =? 0) || (dl_initialized l && negb (dl_process l =? process))
      then (Err dns_worker_error, lifecycle, n)
      else if dl_initialized l then (Ok tt, lifecycle, n)
      else
        let '(status, n) := ares_library_init lib n in
        if negb (bool_decide (status = ARES_SUCCESS)) then
          (Err (normalize_dependency_error id_c_ares op_dns_session (status_for status)
                  (cast int32_t (ares_status_value lib status))), lifecycle, n)
        else (Ok tt, Some (MkDnsDependencyLifecycle process (dl_live_resolvers l) true), n)
  end.

Definition DnsDependencyLifecycle_worker_cleanup (lifecycle : option DnsDependencyLifecycle) (process : Z) n :
    Result unit * option DnsDependencyLifecycle * N :=
  match lifecycle with
  | None => (Err dns_cleanup_error, lifecycle, n)
  | Some l =>
      if (dl_initialized l && negb (dl_process l =? process)) || negb (dl_live_resolvers l =? 0)
      then (Err dns_cleanup_error, lifecycle, n)
      else (Ok tt, Some (MkDnsDependencyLifecycle 0 (dl_live_resolvers l) false),
            if dl_initialized l then ares_library_cleanup lib n else n)
  end.

Definition DnsDependencyLifecycle_master_cleanup (lifecycle : option DnsDependencyLifecycle) : Result unit :=
  match lifecycle with
  | None => Err dns_master_error
  | Some l => if dl_initialized l || negb (dl_live_resolvers l =? 0) then Err dns_master_error else Ok tt
  end.

Definition DnsDependencyLifecycle_live_state (lifecycle : option DnsDependencyLifecycle) : DependencyLiveState :=
  match lifecycle with
  | None => MkDependencyLiveState 0 0 0 0
  | Some l => MkDependencyLiveState (dl_live_resolvers l) 0 0 0
  end.

Definition store_lifecycle w (a : nat) (l : option DnsDependencyLifecycle) n : DnsWorld :=
  set_native (match l with None => w | Some l => set_lifecycle w a l end) n.

(** [hooks()] of the lifecycle object at [a]. *)
Definition DnsDependencyLifecycle_hooks (a : nat) : DependencyLifecycleHooks DnsWorld :=
  MkDependencyLifecycleHooks id_c_ares
    (Some (fun w => (DnsDependencyLifecycle_preflight (dw_lifecycles w !! a), w)))
    (Some (fun w =>
       let '(r, l, n) := DnsDependencyLifecycle_worker_initialize (dw_lifecycles w !! a) (current_process w) (dw_native w) in
       (r, store_lifecycle w a l n)))
    (Some (fun w =>
       let '(r, l, n) := DnsDependencyLifecycle_worker_cleanup (dw_lifecycles w !! a) (current_process w) (dw_native w) in
       (r, store_lifecycle w a l n)))
    (Some (fun w => (DnsDependencyLifecycle_master_cleanup (dw_lifecycles w !! a), w)))
    (Some (fun w => (DnsDependencyLifecycle_live_state (dw_lifecycles w !! a), w))).

(** ** The resolver *)
Record DnsResolver := MkDnsResolver { dr_state : option nat }.

Definition valid_resolver_config (config : DnsResolverConfig) (sink : DnsQuerySink) : bool :=
  let l := rc_limits config in
  negb ((rl_maximum_outstanding_queries l =? 0) ||
        (Z.of_nat maximum_query_capacity <? rl_maximum_outstanding_queries l) ||
        (rl_maximum_result_addresses l =? 0) ||
        (Z.of_nat maximum_address_capacity <? rl_maximum_result_addresses l) ||
        (rl_timeout_milliseconds l =? 0) || (rl_attempts l =? 0) ||
        (int_limit <? rl_timeout_milliseconds l) || (int_limit <? rl_attempts l) ||
        (maximum_nameserver_capacity <? length (rc_nameservers config))%nat ||
        match qs_complete sink with None => true | Some _ => false end).

(** [State{}] with the caller's configuration, at address [a]. *)
Definition initial_state (a : nat) (config : DnsResolverConfig) (sink : DnsQuerySink) (log_sink : DependencyLogSink L) :
    State :=
  MkState (rc_lifecycle config) (rc_limits config) sink log_sink
    (replicate maximum_query_capacity
       (MkQuerySlot (Some a) None (MkDnsQueryToken 0) (replicate maximum_address_capacity DnsAddress_default)
          (core_error invalid_state "") 0 false false false false false))
    (replicate maximum_socket_capacity SocketSlot_default) (replicate nameserver_csv_capacity Ascii.zero)
    1 0 0 false false.

Definition set_nameservers (s : State) (csv : list ascii) : State :=
  MkState (st_lifecycle s) (st_limits s) (st_sink s) (st_log s) (st_queries s) (st_sockets s) csv
    (st_next_token s) (st_outstanding s) (st_socket_count s) true (st_shutting_down s).

(** [allocated] is what [operator new] returns. *)
Definition DnsResolver_create w (config : DnsResolverConfig) (sink : DnsQuerySink) (log_sink : DependencyLogSink L)
    (allocated : option nat) : outcome (Result DnsResolver * DnsWorld) :=
  match rc_lifecycle config with
  | None => Ret (Err dns_lifecycle_error, w)
  | Some la =>
      match dw_lifecycles w !! la with
      | None => Stop Undefined
      | Some lifecycle =>
          if negb (dl_initialized lifecycle) || negb (dl_process lifecycle =? current_process w)
          then Ret (Err dns_lifecycle_error, w) else
          if negb (valid_resolver_config config sink) then Ret (Err dns_config_error, w) else
          match allocated with
          | None => Ret (Err dns_allocation_error, w)
          | Some a =>
              let s := initial_state a config sink log_sink in
              match (match rc_nameservers config with
                     | [] => Ok s
                     | _ => '(csv, _) ← append_nameservers (rc_nameservers config) (st_nameserver_csv s) 0;
                            Ok (set_nameservers s csv)
                     end) with
              | Err e => Ret (Err e, w)
              | Ok s =>
                  let lifecycle := MkDnsDependencyLifecycle (dl_process lifecycle) (u32 (dl_live_resolvers lifecycle + 1))
                                     (dl_initialized lifecycle) in
                  Ret (Ok (MkDnsResolver (Some a)), set_lifecycle (set_state w a s) la lifecycle)
              end
          end
      end
  end.

Definition family_of (family : DnsQueryFamily) : option address_family :=
  match family with
  | query_ipv4 => Some AF_INET | query_ipv6 => Some AF_INET6 | query_any => Some AF_UNSPEC
  | query_family_unlisted _ => None
  end.

Definition DnsResolver_resolve (this : DnsResolver) w (hostname : TextView) (family : DnsQueryFamily) :
    outcome (Result DnsQueryToken * DnsWorld) :=
  match dr_state this with
  | None => Ret (Err dns_inactive_error, w)
  | Some a =>
    s ← the_state w a;
    if (length hostname =? 0)%nat || (253 <? length hostname)%nat then Ret (Err dns_hostname_error, w) else
    match family_of family with
    | None => Ret (Err dns_family_error, w)
    | Some native_family =>
      TRY native_hostname ⇐ TextView_to_c_string 254 hostname AT w IN
      if st_outstanding s =? rl_maximum_outstanding_queries (st_limits s) then Ret (Err dns_outstanding_error, w) else
      match list_find (fun q => q_active q = false) (st_queries s) with
      | None => Ret (Err dns_token_error, w)
      | Some (index, slot) =>
        if st_next_token s =? 0 then Ret (Err dns_token_error, w) else
        let token := MkDnsQueryToken (st_next_token s) in
        let w := set_state w a (set_query (set_next_token s (u64 (st_next_token s + 1))) index (open_query slot token)) in
        '(initialized, w) ← initialize_channel w a index;
        s ← the_state w a;
        query ← the_query s index;
        match initialized with
        | Err e => Ret (Err e, set_state w a (set_query s index (finish_query query)))
        | Ok _ =>
            let w := set_state w a (set_outstanding s (st_outstanding s + 1)) in
            match q_channel query, c_string_read (cs_storage native_hostname) with
            | Some channel, Some name =>
                w ← call (ares_getaddrinfo lib channel name (MkAresHints native_family SOCK_STREAM) (MkSlotContext a index)) w;
                '(_, w) ← settle w a index;
                Ret (Ok token, w)
            | _, _ => Stop Undefined
            end
        end
      end
    end
  end.

Definition DnsResolver_cancel (this : DnsResolver) w (token : DnsQueryToken) : outcome (Result unit * DnsWorld) :=
  match dr_state this with
  | None => Ret (Err dns_inactive_error, w)
  | Some a =>
      s ← the_state w a;
      match find_query s token with
      | None => Ret (Err dns_token_inactive_error, w)
      | Some (index, query) =>
          if q_canceling query then Ret (Err dns_token_inactive_error, w) else
          match q_channel query with
          | None => Stop Undefined
          | Some channel =>
              w ← call (ares_cancel lib channel) (set_state w a (set_query s index (set_canceling query true)));
              s ← the_state w a;
              query ← the_query s index;
              if negb (q_native_done query) then
                Ret (Err dns_cancel_error, set_state w a (set_query s index (set_canceling query false)))
              else
                w ← retire_channel w a index;
                Ret (Ok tt, complete w a (st_sink s) (MkDnsQueryResult token [] (Some dns_canceled_error)))
          end
      end
  end.

(** The interests written to an output of [capacity] elements. *)
Definition DnsResolver_socket_interests (this : DnsResolver) w (capacity : Z) :
    outcome (Result (list DnsSocketInterest)) :=
  match dr_state this with
  | None => Ret (Err dns_inactive_error)
  | Some a =>
      s ← the_state w a;
      if capacity <? st_socket_count s then Ret (Err dns_interest_error) else
      Ret (Ok (map (fun k => MkDnsSocketInterest (ks_descriptor k) (ks_readable k) (ks_writable k))
                 (take (Z.to_nat (st_socket_count s)) (st_sockets s))))
  end.

Definition timeout_milliseconds (t : Z * Z) : Z :=
  let seconds := if fst t <? 0 then 0 else fst t in
  let microseconds := if snd t <? 0 then 0 else snd t in
  u64 (u64 (seconds * 1000) + u64 (microseconds + 999) / 1000).

Fixpoint timeout_loop n (queries : list QuerySlot) (result : DnsTimeout) : outcome DnsTimeout :=
  match queries with
  | [] => Ret result
  | query :: queries =>
      match q_active query, q_channel query with
      | true, Some channel =>
          timeout ← ares_timeout lib channel n;
          match timeout with
          | None => timeout_loop n queries result
          | Some t =>
              timeout_loop n queries
                (if negb (dt_active result) || (timeout_milliseconds t <? dt_milliseconds result)
                 then MkDnsTimeout true (timeout_milliseconds t) else result)
          end
      | _, _ => timeout_loop n queries result
      end
  end.

Definition DnsResolver_next_timeout (this : DnsResolver) w : outcome DnsTimeout :=
  match dr_state this with
  | None => Ret (MkDnsTimeout false 0)
  | Some a => s ← the_state w a; timeout_loop (dw_native w) (st_queries s) (MkDnsTimeout false 0)
  end.

(** The slots to process, each with the token it had and the descriptors to pass. *)
Abbreviation work := (nat * Z * (option Z * option Z))%type.

Fixpoint event_work (s : State) (events : list DnsSocketEvent) : outcome (Result (list work)) :=
  match events with
  | [] => Ret (Ok [])
  | event :: events =>
      if (se_descriptor event <? 0) || (negb (se_readable event) && negb (se_writable event))
      then Ret (Err dns_event_error) else
      match list_find (fun k => ks_descriptor k = se_descriptor event)
              (take (Z.to_nat (st_socket_count s)) (st_sockets s)) with
      | None => Ret (Err dns_unregistered_error)
      | Some (_, k) =>
          match ks_query k with
          | None => Ret (Err dns_unregistered_error)
          | Some index =>
              query ← the_query s index;
              if negb (q_active query) || match q_channel query with None => true | Some _ => false end
              then Ret (Err dns_unregistered_error) else
              rest ← event_work s events;
              match rest with
              | Err e => Ret (Err e)
              | Ok rest =>
                  Ret (Ok ((index, token_value (q_token query),
                            (if se_readable event then Some (se_descriptor event) else None,
                             if se_writable event then Some (se_descriptor event) else None)) :: rest))
              end
          end
      end
  end.

(** The loop that processes them, up to the first query that ends. *)
Fixpoint process_work (a : nat) (items : list work) w : outcome DnsWorld :=
  match items with
  | [] => Ret w
  | (index, token, (readable, writable)) :: items =>
      s ← the_state w a;
      query ← the_query s index;
      match q_active query, q_channel query with
      | true, Some channel =>
          if negb (token_value (q_token query) =? token) then process_work a items w else
          w ← call (ares_process_fd lib channel readable writable) w;
          '(ended, w) ← settle w a index;
          if (ended : bool) then Ret w else process_work a items w
      | _, _ => process_work a items w
      end
  end.

Definition DnsResolver_process_events (this : DnsResolver) w (events : list DnsSocketEvent) :
    outcome (Result unit * DnsWorld) :=
  match dr_state this with
  | None => Ret (Err dns_inactive_error, w)
  | Some a =>
      s ← the_state w a;
      if (maximum_socket_capacity <? length events)%nat then Ret (Err dns_events_error, w) else
      items ← event_work s events;
      TRY items ⇐ items AT w IN
      (w ← process_work a items w; Ret (Ok tt, w))
  end.

(** The slots with a channel, from index [index] on. *)
Fixpoint timeout_work (index : nat) (queries : list QuerySlot) : list work :=
  match queries with
  | [] => []
  | query :: queries =>
      match q_active query, q_channel query with
      | true, Some _ => (index, token_value (q_token query), (None, None)) :: timeout_work (S index) queries
      | _, _ => timeout_work (S index) queries
      end
  end.

Definition DnsResolver_process_timeout (this : DnsResolver) w : outcome (Result unit * DnsWorld) :=
  match dr_state this with
  | None => Ret (Err dns_inactive_error, w)
  | Some a =>
      s ← the_state w a;
      w ← process_work a (timeout_work 0 (st_queries s)) w;
      Ret (Ok tt, w)
  end.

Definition DnsResolver_outstanding_queries (this : DnsResolver) w : outcome Z :=
  match dr_state this with
  | None => Ret 0
  | Some a => s ← the_state w a; Ret (st_outstanding s)
  end.

(** The channels of the slots from [index] on are destroyed. *)
Fixpoint destroy_loop (count index : nat) (a : nat) w : outcome DnsWorld :=
  match count with
  | O => Ret w
  | S count =>
      s ← the_state w a;
      query ← the_query s index;
      w ← (match q_channel query with None => Ret w | Some channel => call (ares_destroy lib channel) w end);
      destroy_loop count (S index) a w
  end.

Definition DnsResolver_release (this : DnsResolver) w : outcome (DnsResolver * DnsWorld) :=
  match dr_state this with
  | None => Ret (this, w)
  | Some a =>
      s ← the_state w a;
      w ← destroy_loop maximum_query_capacity 0 a (set_state w a (set_shutting_down s));
      s ← the_state w a;
      let w := delete_state w a in
      match st_lifecycle s with
      | None => Ret (MkDnsResolver None, w)
      | Some la =>
          match dw_lifecycles w !! la with
          | None => Stop Undefined
          | Some lifecycle =>
              Ret (MkDnsResolver None,
                   if negb (dl_live_resolvers lifecycle =? 0) then
                     set_lifecycle w la (MkDnsDependencyLifecycle (dl_process lifecycle)
                       (dl_live_resolvers lifecycle - 1) (dl_initialized lifecycle))
                   else w)
          end
      end
  end.

(** The new resolver and what is left of the old one. *)
Definition DnsResolver_move_construct (other : DnsResolver) : DnsResolver * DnsResolver :=
  (MkDnsResolver (dr_state other), MkDnsResolver None).

(** Between two distinct resolvers; self-assignment does nothing. *)
Definition DnsResolver_move_assign (this other : DnsResolver) w : outcome (DnsResolver * DnsResolver * DnsWorld) :=
  '(_, w) ← DnsResolver_release this w;
  Ret (MkDnsResolver (dr_state other), MkDnsResolver None, w).

Definition DnsResolver_destroy (this : DnsResolver) w : outcome DnsWorld :=
  '(_, w) ← DnsResolver_release this w; Ret w.
End dns.
Arguments Ares : clear implicits.
