(* ===== verification/DnsSpec.v ===== *)
(** * Callbacks, the socket table and the query slots

    What the resolver relies on from c-ares ([AresLaws]), and what the callbacks of one call do
    to the state they are made for: the socket table keeps showing the sockets of the channels,
    the slot records the completion, and nothing else changes. *)
From S2P Require Import Prelude Contract CheckedArithmetic Views Dependencies DependencyLifecycle Dns.
From Stdlib Require Import ZArith Lia String Ascii.
From stdpp Require Import base numbers list gmap option.

Set Default Goal Selector "!".
#[local] Open Scope Z_scope.

(** ** What the library promises *)

(** A channel: the slot its callbacks are made for, whether its query is unfinished, and the
    sockets it has open with what it waits for on them. *)
Record ChannelView := MkChannelView {
  cv_context : slot_context; cv_pending : bool; cv_sockets : gmap Z (bool * bool) }.

Definition with_pending (cv : ChannelView) (pending : bool) : ChannelView :=
  MkChannelView (cv_context cv) pending (cv_sockets cv).

(** The effect of a callback on the channel; a query completes once. *)
Definition apply_callback {R} (cv : ChannelView) (cb : ares_callback R) : option ChannelView :=
  match cb with
  | CbSocket context descriptor readable writable =>
      if decide (context = cv_context cv) then
        Some (MkChannelView (cv_context cv) (cv_pending cv)
          (if readable || writable then <[descriptor := (readable, writable)]> (cv_sockets cv)
           else delete descriptor (cv_sockets cv)))
      else None
  | CbComplete context _ _ =>
      if decide (context = cv_context cv /\ cv_pending cv = true) then Some (with_pending cv false) else None
  end.
Fixpoint apply_callbacks {R} (cv : ChannelView) (cbs : list (ares_callback R)) : option ChannelView :=
  match cbs with
  | [] => Some cv
  | cb :: cbs => cv ← apply_callback cv cb; apply_callbacks cv cbs
  end.

Definition callback_sockets {R} (cbs : list (ares_callback R)) : list Z :=
  omap (fun cb => match cb with CbSocket _ d _ _ => Some d | CbComplete _ _ _ => None end) cbs.

(** [view n ch] is the channel [ch] in the library's state, if it exists.  Calls on a channel
    change only that channel, in the way their callbacks say, and report only sockets no other
    channel has open.  Cancelling completes the query of a channel; destroying the channel also
    closes its sockets. *)
Class AresLaws {N CH R : Type} (lib : Ares N CH R) `{EqDecision CH} := {
  view : N -> CH -> option ChannelView;
  acts (n : N) (ch : CH) (cv : ChannelView) (cbs : list (ares_callback R)) (n' : N) (after : option ChannelView) : Prop :=
    (exists cv', apply_callbacks cv cbs = Some cv' /\
       match after with
       | Some cv'' => cv'' = cv'
       | None => cv_pending cv' = false /\ cv_sockets cv' = ∅
       end) /\
    view n' ch = after /\ (forall c, c <> ch -> view n' c = view n c) /\
    (forall d c cv', d ∈ callback_sockets cbs -> c <> ch -> view n c = Some cv' -> cv_sockets cv' !! d = None);
  law_ares_init options mask n :
    match ares_init_options lib options mask n with
    | (inl ch, n') => view n ch = None /\ view n' ch = Some (MkChannelView (ao_context options) false ∅) /\
                      forall c, c <> ch -> view n' c = view n c
    | (inr _, n') => forall c, view n' c = view n c
    end;
  law_ares_servers n ch cv csv : view n ch = Some cv ->
    exists status n', ares_set_servers_ports_csv lib ch csv n = Ret (status, n') /\ forall c, view n' c = view n c;
  law_ares_getaddrinfo n ch cv name family : view n ch = Some cv -> cv_pending cv = false ->
    exists cbs n' cv', ares_getaddrinfo lib ch name family (cv_context cv) n = Ret (cbs, n') /\
      acts n ch (with_pending cv true) cbs n' (Some cv');
  law_ares_cancel n ch cv : view n ch = Some cv ->
    exists cbs n' cv', ares_cancel lib ch n = Ret (cbs, n') /\ acts n ch cv cbs n' (Some cv') /\ cv_pending cv' = false;
  law_ares_process n ch cv readable writable : view n ch = Some cv ->
    exists cbs n' cv', ares_process_fd lib ch readable writable n = Ret (cbs, n') /\ acts n ch cv cbs n' (Some cv');
  law_ares_destroy n ch cv : view n ch = Some cv ->
    exists cbs n', ares_destroy lib ch n = Ret (cbs, n') /\ acts n ch cv cbs n' None;
  law_ares_timeout n ch cv : view n ch = Some cv -> exists r, ares_timeout lib ch n = Ret r;
  law_ares_library n c :
    view (snd (ares_library_init lib n)) c = view n c /\ view (ares_library_cleanup lib n) c = view n c;
  law_inet_ntop family bytes text : inet_ntop lib family bytes = Some text ->
    (length text <= 45)%nat /\ Ascii.zero ∉ text }.

(** ** The socket table *)
Section table.
Context {CH L : Type}.
Abbreviation Slot := (QuerySlot (CH:=CH)).
Abbreviation Resolver := (State (CH:=CH) (L:=L)).
Implicit Types (s : Resolver) (views : nat -> option ChannelView).

Definition table (s : Resolver) : list SocketSlot := take (Z.to_nat (st_socket_count s)) (st_sockets s).

(** The slot could not record a socket of its channel. *)
Definition slot_failed (s : Resolver) (j : nat) : Prop :=
  exists q, st_queries s !! j = Some q /\ q_socket_capacity_failed q = true.

Record table_ok s views : Prop := {
  to_length : length (st_sockets s) = maximum_socket_capacity;
  to_count : 0 <= st_socket_count s <= Z.of_nat maximum_socket_capacity;
  to_unique : NoDup (map ks_descriptor (table s));
  to_sound : Forall (fun k => exists j cv, ks_query k = Some j /\ views j = Some cv /\
    cv_sockets cv !! ks_descriptor k = Some (ks_readable k, ks_writable k)) (table s);
  to_complete : forall j cv d r w, views j = Some cv -> ~ slot_failed s j -> cv_sockets cv !! d = Some (r, w) ->
    MkSocketSlot d (Some j) r w ∈ table s }.

Lemma table_length s views : table_ok s views -> length (table s) = Z.to_nat (st_socket_count s).
Proof. intros [H1 H2 _ _ _]. unfold table. rewrite length_take. lia. Qed.

Lemma lookup_table s i : (i < Z.to_nat (st_socket_count s))%nat -> table s !! i = st_sockets s !! i.
Proof. intros. unfold table. by rewrite lookup_take_lt. Qed.

Lemma NoDup_insert {X} (l : list X) i x y :
  l !! i = Some y -> NoDup l -> (forall j z, l !! j = Some z -> z = x -> j = i) -> NoDup (<[i := x]> l).
Proof.
  intros Hi Hn Hx. apply NoDup_alt. intros j k z Hj Hk.
  assert (i < length l)%nat by (by eapply lookup_lt_Some).
  destruct (decide (j = i)) as [->|Hji], (decide (k = i)) as [->|Hki]; [done|..].
  - rewrite list_lookup_insert_eq in Hj by done. injection Hj as <-.
    rewrite list_lookup_insert_ne in Hk by done. symmetry. by eapply Hx.
  - rewrite list_lookup_insert_eq in Hk by done. injection Hk as <-.
    rewrite list_lookup_insert_ne in Hj by done. by eapply Hx.
  - rewrite list_lookup_insert_ne in Hj, Hk by done. by eapply NoDup_lookup.
Qed.

(** Removing an entry by moving the last one into its place. *)
Lemma swap_remove_elem {X} (l : list X) i last x :
  (i < length l)%nat -> l !! (length l - 1)%nat = Some last -> NoDup l ->
  x ∈ take (length l - 1) (<[i := last]> l) <-> x ∈ l /\ l !! i <> Some x.
Proof.
  intros Hi Hl Hn. rewrite !list_elem_of_lookup. split.
  - intros (j & Hj). apply lookup_take_Some in Hj as [Hj Hjl].
    destruct (decide (j = i)) as [->|Hne].
    + rewrite list_lookup_insert_eq in Hj by done. injection Hj as <-. split; [eauto|].
      intros E. assert (i = length l - 1)%nat by (by eapply NoDup_lookup). lia.
    + rewrite list_lookup_insert_ne in Hj by done. split; [eauto|]. intros E. apply Hne.
      by eapply NoDup_lookup.
  - intros [(j & Hj) Hne]. destruct (decide (j = length l - 1)%nat) as [->|Hj'].
    + exists i. rewrite Hl in Hj. injection Hj as ->. apply lookup_take_Some.
      split; [by rewrite list_lookup_insert_eq|].
      assert (i <> length l - 1)%nat by (intros ->; congruence). lia.
    + exists j. apply lookup_take_Some. pose proof (lookup_lt_Some _ _ _ Hj).
      rewrite list_lookup_insert_ne; [split; [done|lia]|]. intros ->. congruence.
Qed.

Lemma swap_remove_NoDup {X} (l : list X) i last :
  (i < length l)%nat -> l !! (length l - 1)%nat = Some last -> NoDup l -> NoDup (take (length l - 1) (<[i := last]> l)).
Proof.
  intros Hi Hl Hn. apply NoDup_alt. intros j k x Hj Hk.
  apply lookup_take_Some in Hj as [Hj Hjl], Hk as [Hk Hkl].
  assert (Hat : forall m, (m < length l - 1)%nat -> <[i := last]> l !! m = Some x ->
    exists m', l !! m' = Some x /\ (m = if decide (m' = length l - 1)%nat then i else m')).
  { intros m Hm Hx. destruct (decide (m = i)) as [->|Hne].
    - rewrite list_lookup_insert_eq in Hx by done. injection Hx as <-. exists (length l - 1)%nat. by rewrite decide_True.
    - rewrite list_lookup_insert_ne in Hx by done. exists m. rewrite decide_False by lia. done. }
  destruct (Hat j Hjl Hj) as (j' & Hj' & ->), (Hat k Hkl Hk) as (k' & Hk' & ->).
  by rewrite (NoDup_lookup _ _ _ _ Hn Hj' Hk').
Qed.
End table.

(** ** One call and its callbacks *)
Section flight.
Context {N CH R L : Type} (lib : Ares N CH R).
Abbreviation Slot := (QuerySlot (CH:=CH)).
Abbreviation Resolver := (State (CH:=CH) (L:=L)).
Abbreviation World := (DnsWorld (N:=N) (CH:=CH) (R:=R) (L:=L)).
Implicit Types (s : Resolver) (w : World) (q : Slot) (views : nat -> option ChannelView).

Definition view_at views (i : nat) (cv : ChannelView) : nat -> option ChannelView :=
  fun j => if decide (j = i) then Some cv else views j.

(** What the callbacks for a slot leave alone. *)
Record same_frame s s' : Prop := {
  sf_lifecycle : st_lifecycle s' = st_lifecycle s; sf_limits : st_limits s' = st_limits s;
  sf_sink : st_sink s' = st_sink s; sf_log : st_log s' = st_log s;
  sf_csv : st_nameserver_csv s' = st_nameserver_csv s; sf_next : st_next_token s' = st_next_token s;
  sf_explicit : st_has_explicit_nameservers s' = st_has_explicit_nameservers s;
  sf_shutting : st_shutting_down s' = st_shutting_down s }.

Record same_slot q q' : Prop := {
  ss_owner : q_owner q' = q_owner q; ss_channel : q_channel q' = q_channel q; ss_token : q_token q' = q_token q;
  ss_active : q_active q' = q_active q; ss_canceling : q_canceling q' = q_canceling q;
  ss_length : length (q_completed_addresses q') = length (q_completed_addresses q) }.

(** A finished query has an error and no addresses, or between one and the most addresses the
    caller takes. *)
Definition completed_ok (limit : Z) q : Prop :=
  if q_completed_with_error q then q_completed_address_count q = 0 else 1 <= q_completed_address_count q <= limit.

(** From the state [s0] and the channel [cv0] before the call to where its callbacks have come. *)
Record flight (i : nat) s0 cv0 s cv views : Prop := {
  fl_frame : same_frame s0 s;
  fl_pending : cv_context cv = cv_context cv0 /\ (cv_pending cv = true -> cv_pending cv0 = true);
  fl_slot : exists q0 q, st_queries s0 !! i = Some q0 /\ st_queries s = <[i := q]> (st_queries s0) /\ same_slot q0 q /\
    q_native_done q = q_native_done q0 || (cv_pending cv0 && negb (cv_pending cv)) /\
    (cv_pending cv0 = true -> cv_pending cv = false -> st_shutting_down s0 = false -> q_canceling q0 = false ->
       completed_ok (rl_maximum_result_addresses (st_limits s0)) q);
  fl_outstanding : st_outstanding s =
    if cv_pending cv0 && negb (cv_pending cv) && negb (st_shutting_down s0) && negb (st_outstanding s0 =? 0)
    then st_outstanding s0 - 1 else st_outstanding s0;
  fl_table : table_ok s (view_at views i cv) }.

(** What the callbacks leave alone outside the state. *)
Record same_rest w w' (a : nat) s' : Prop := {
  sr_native : dw_native w' = dw_native w; sr_states : dw_states w' = <[a := s']> (dw_states w);
  sr_lifecycles : dw_lifecycles w' = dw_lifecycles w; sr_completions : dw_completions w' = dw_completions w;
  sr_process : dw_process w' = dw_process w }.

Lemma slot_failed_set s index q q' j :
  st_queries s !! index = Some q -> q_socket_capacity_failed q = true -> q_socket_capacity_failed q' = true ->
  slot_failed s j -> slot_failed (set_query s index q') j.
Proof.
  intros Hi Hq Hq' (q0 & Hj & Hf). unfold slot_failed, set_query. simpl. destruct (decide (j = index)) as [->|].
  - exists q'. rewrite list_lookup_insert_eq by (by eapply lookup_lt_Some). done.
  - exists q0. by rewrite list_lookup_insert_ne.
Qed.

(** *** Sockets *)
Lemma table_remove s views i cv index k last d :
  table_ok s (view_at views i cv) -> table s !! index = Some k -> ks_descriptor k = d ->
  st_sockets s !! Z.to_nat (st_socket_count s - 1) = Some last ->
  (forall j cv', j <> i -> views j = Some cv' -> cv_sockets cv' !! d = None) ->
  table_ok (set_sockets s (<[index := last]> (st_sockets s)) (st_socket_count s - 1))
    (view_at views i (MkChannelView (cv_context cv) (cv_pending cv) (delete d (cv_sockets cv)))).
Proof.
  intros Ht Hk Hd Hlast Hother. pose proof (table_length s _ Ht) as Hlen. destruct Ht as [H1 H2 Hu Hs Hc].
  assert (Hi : (index < length (table s))%nat) by (by eapply lookup_lt_Some).
  assert (Hcnt : 1 <= st_socket_count s) by lia.
  assert (Hl : table s !! (length (table s) - 1)%nat = Some last).
  { rewrite lookup_table by lia. rewrite Hlen. rewrite <- Hlast. f_equal. lia. }
  assert (Htab : table (set_sockets s (<[index := last]> (st_sockets s)) (st_socket_count s - 1)) =
    take (length (table s) - 1) (<[index := last]> (table s))).
  { unfold table. simpl. rewrite <- take_insert_lt by lia. rewrite take_take. f_equal.
    rewrite length_take, H1. lia. }
  assert (Hnd : NoDup (table s)) by (by eapply NoDup_fmap_1).
  assert (Hkeep : forall x, x ∈ table s -> ks_descriptor x <> d <-> x <> k).
  { intros x Hx. split; [congruence|]. intros Hne E. apply Hne.
    apply list_elem_of_lookup in Hx as [m Hm].
    assert (m = index) as ->; [|congruence]. eapply (NoDup_lookup _ _ _ d Hu).
    - by rewrite list_lookup_fmap, Hm, <- E.
    - by rewrite list_lookup_fmap, Hk, <- Hd. }
  split; rewrite ?Htab; simpl.
  - by rewrite length_insert.
  - lia.
  - change (NoDup (ks_descriptor <$> take (length (table s) - 1) (<[index := last]> (table s)))).
    rewrite fmap_take, list_fmap_insert.
    rewrite <- (length_fmap ks_descriptor). apply swap_remove_NoDup; rewrite ?length_fmap; [done| |done].
    by rewrite list_lookup_fmap, Hl.
  - apply list.Forall_forall. intros x Hx. apply swap_remove_elem in Hx as [Hx Hne]; [|done..].
    rewrite list.Forall_forall in Hs. destruct (Hs x Hx) as (j & cvj & Hj & Hv & Hsk).
    assert (ks_descriptor x <> d) by (apply Hkeep; [done|congruence]).
    unfold view_at in *. destruct (decide (j = i)) as [->|].
    + injection Hv as <-. eexists i, _. rewrite decide_True by done. split; [done|]. split; [done|]. simpl.
      by rewrite lookup_delete_ne.
    + exists j, cvj. rewrite decide_False by done. done.
  - intros j cvj d' r' w' Hv Hf Hsk. apply swap_remove_elem; [done..|].
    assert (d' <> d /\ MkSocketSlot d' (Some j) r' w' ∈ table s) as [Hd' Hin].
    { unfold view_at in Hv. destruct (decide (j = i)) as [->|Hji].
      - injection Hv as <-. simpl in Hsk. apply lookup_delete_Some in Hsk as [Hne Hsk]. split; [done|].
        eapply Hc; [unfold view_at; by rewrite decide_True|done|done].
      - assert (d' <> d) by (intros ->; rewrite (Hother j cvj Hji Hv) in Hsk; done). split; [done|].
        eapply Hc; [unfold view_at; rewrite decide_False by done; exact Hv|done|done]. }
    split; [done|]. rewrite Hk. intros [= ->]. done.
Qed.

Lemma view_at_eq views i cv : view_at views i cv i = Some cv.
Proof. unfold view_at. by rewrite decide_True. Qed.
Lemma view_at_ne views i cv j : j <> i -> view_at views i cv j = views j.
Proof. intros. unfold view_at. by rewrite decide_False. Qed.

(** The entries of other descriptors still show the sockets when those of [d] change. *)
Lemma sound_other views i cv cv' d (entries : list SocketSlot) :
  (forall d', d' <> d -> cv_sockets cv' !! d' = cv_sockets cv !! d') ->
  Forall (fun k => ks_descriptor k <> d) entries ->
  Forall (fun k => exists j c, ks_query k = Some j /\ view_at views i cv j = Some c /\
    cv_sockets c !! ks_descriptor k = Some (ks_readable k, ks_writable k)) entries ->
  Forall (fun k => exists j c, ks_query k = Some j /\ view_at views i cv' j = Some c /\
    cv_sockets c !! ks_descriptor k = Some (ks_readable k, ks_writable k)) entries.
Proof.
  intros Hcv Hne Hs. apply list.Forall_forall. intros k Hk. rewrite list.Forall_forall in Hne, Hs.
  destruct (Hs k Hk) as (j & c & Hj & Hv & Hsk). specialize (Hne k Hk).
  destruct (decide (j = i)) as [->|Hji].
  - rewrite view_at_eq in Hv. injection Hv as <-. exists i, cv'. rewrite view_at_eq, Hcv by done. done.
  - exists j, c. by rewrite view_at_ne in *.
Qed.

Definition sockets_set (cv : ChannelView) (sockets : gmap Z (bool * bool)) : ChannelView :=
  MkChannelView (cv_context cv) (cv_pending cv) sockets.

(** The entry of a socket of the slot that is already in the table belongs to the slot. *)
Lemma entry_owner s views i cv index k :
  table_ok s (view_at views i cv) -> table s !! index = Some k ->
  (forall j cv', j <> i -> views j = Some cv' -> cv_sockets cv' !! ks_descriptor k = None) -> ks_query k = Some i.
Proof.
  intros [_ _ _ Hs _] Hk Hother. rewrite list.Forall_forall in Hs.
  destruct (Hs k) as (j & c & Hj & Hv & Hsk); [by eapply list_elem_of_lookup_2|].
  destruct (decide (j = i)) as [->|Hji]; [done|]. rewrite view_at_ne in Hv by done.
  by rewrite (Hother j c Hji Hv) in Hsk.
Qed.

Lemma table_update s views i cv index k d (r w : bool) :
  table_ok s (view_at views i cv) -> table s !! index = Some k -> ks_descriptor k = d ->
  (forall j cv', j <> i -> views j = Some cv' -> cv_sockets cv' !! d = None) ->
  table_ok (set_sockets s (<[index := MkSocketSlot (ks_descriptor k) (ks_query k) r w]> (st_sockets s)) (st_socket_count s))
    (view_at views i (sockets_set cv (<[d := (r, w)]> (cv_sockets cv)))).
Proof.
  intros Ht Hk Hd Hother. pose proof (table_length s _ Ht) as Hlen.
  assert (Hq : ks_query k = Some i) by (eapply entry_owner; [done..|by rewrite Hd]).
  destruct Ht as [H1 H2 Hu Hs Hc].
  assert (Hi : (index < length (table s))%nat) by (by eapply lookup_lt_Some).
  assert (Htab : table (set_sockets s (<[index := MkSocketSlot (ks_descriptor k) (ks_query k) r w]> (st_sockets s)) (st_socket_count s)) =
    <[index := MkSocketSlot d (Some i) r w]> (table s)).
  { unfold table. simpl. rewrite take_insert_lt by lia. by rewrite Hd, Hq. }
  assert (Hin : forall x, x ∈ <[index := MkSocketSlot d (Some i) r w]> (table s) <->
    x = MkSocketSlot d (Some i) r w \/ x ∈ table s /\ ks_descriptor x <> d).
  { intros x. rewrite !list_elem_of_lookup. split.
    - intros (m & Hm). destruct (decide (m = index)) as [->|Hne].
      + rewrite list_lookup_insert_eq in Hm by done. injection Hm as <-. by left.
      + rewrite list_lookup_insert_ne in Hm by done. right. split; [eauto|]. intros E. apply Hne.
        eapply (NoDup_lookup _ _ _ d Hu); [by rewrite list_lookup_fmap, Hm, <- E|by rewrite list_lookup_fmap, Hk, <- Hd].
    - intros [->|[(m & Hm) Hne]]; [exists index; by rewrite list_lookup_insert_eq|].
      exists m. rewrite list_lookup_insert_ne; [done|]. intros ->. congruence. }
  split; rewrite ?Htab; simpl.
  - by rewrite length_insert.
  - done.
  - change (NoDup (ks_descriptor <$> <[index := MkSocketSlot d (Some i) r w]> (table s))).
    rewrite list_fmap_insert. simpl. rewrite list_insert_id; [done|]. by rewrite list_lookup_fmap, Hk, <- Hd.
  - apply list.Forall_forall. intros x [->|[Hx Hne]]%Hin.
    + eexists i, _. rewrite view_at_eq. split; [done|]. split; [done|]. simpl. by rewrite lookup_insert_eq.
    + revert x Hx Hne. assert (Hall : Forall (fun x => ks_descriptor x <> d -> exists j c, ks_query x = Some j /\
        view_at views i (sockets_set cv (<[d := (r, w)]> (cv_sockets cv))) j = Some c /\
        cv_sockets c !! ks_descriptor x = Some (ks_readable x, ks_writable x)) (table s)).
      { apply list.Forall_forall. intros x Hx Hne. rewrite list.Forall_forall in Hs.
        destruct (Hs x Hx) as (j & c & Hj & Hv & Hsk). destruct (decide (j = i)) as [->|Hji].
        - rewrite view_at_eq in Hv. injection Hv as <-. eexists i, _. rewrite view_at_eq. split; [done|]. split; [done|].
          simpl. by rewrite lookup_insert_ne.
        - exists j, c. by rewrite view_at_ne in *. }
      intros x Hx Hne. rewrite list.Forall_forall in Hall. by apply Hall.
  - intros j c d' r' w' Hv Hf Hsk. apply Hin. destruct (decide (j = i)) as [->|Hji].
    + rewrite view_at_eq in Hv. injection Hv as <-. simpl in Hsk. apply lookup_insert_Some in Hsk as [[<- [= <- <-]]|[Hne Hsk]]; [by left|].
      right. split; [|done]. eapply Hc; [apply view_at_eq|done|done].
    + rewrite view_at_ne in Hv by done. right. split; [eapply Hc; [by rewrite view_at_ne|done|done]|].
      simpl. intros ->. by rewrite (Hother j c Hji Hv) in Hsk.
Qed.

Lemma table_append s views i cv d (r w : bool) :
  table_ok s (view_at views i cv) -> Forall (fun k => ks_descriptor k <> d) (table s) ->
  st_socket_count s <> Z.of_nat maximum_socket_capacity ->
  (forall j cv', j <> i -> views j = Some cv' -> cv_sockets cv' !! d = None) ->
  table_ok (set_sockets s (<[Z.to_nat (st_socket_count s) := MkSocketSlot d (Some i) r w]> (st_sockets s)) (st_socket_count s + 1))
    (view_at views i (sockets_set cv (<[d := (r, w)]> (cv_sockets cv)))).
Proof.
  intros Ht Hd Hroom Hother. pose proof (table_length s _ Ht) as Hlen. destruct Ht as [H1 H2 Hu Hs Hc].
  assert (Htab : table (set_sockets s (<[Z.to_nat (st_socket_count s) := MkSocketSlot d (Some i) r w]> (st_sockets s))
      (st_socket_count s + 1)) = table s ++ [MkSocketSlot d (Some i) r w]).
  { unfold table. simpl. replace (Z.to_nat (st_socket_count s + 1)) with (S (Z.to_nat (st_socket_count s))) by lia.
    rewrite (take_S_r _ _ (MkSocketSlot d (Some i) r w)).
    - by rewrite take_insert_ge by lia.
    - apply list_lookup_insert_eq. lia. }
  split; rewrite ?Htab; simpl.
  - by rewrite length_insert.
  - lia.
  - rewrite map_app. apply list.NoDup_app. split; [done|]. split; [|apply NoDup_singleton].
    intros x Hx ->%list_elem_of_singleton. apply list_elem_of_fmap in Hx as (k & E & Hk).
    rewrite list.Forall_forall in Hd. by apply (Hd k Hk).
  - apply Forall_app. split.
    + eapply (sound_other views i cv _ d); [|done|done]. intros d' Hne. simpl. by rewrite lookup_insert_ne.
    + constructor; [|constructor]. eexists i, _. rewrite view_at_eq. split; [done|]. split; [done|]. simpl.
      by rewrite lookup_insert_eq.
  - intros j c d' r' w' Hv Hf Hsk. apply elem_of_app. destruct (decide (j = i)) as [->|Hji].
    + rewrite view_at_eq in Hv. injection Hv as <-. simpl in Hsk.
      apply lookup_insert_Some in Hsk as [[<- [= <- <-]]|[Hne Hsk]]; [right; by left|].
      left. eapply Hc; [apply view_at_eq|done|done].
    + rewrite view_at_ne in Hv by done. left. eapply Hc; [by rewrite view_at_ne|done|done].
Qed.

(** A socket that is not in the table is closed, or there is no room for it. *)
Lemma table_untouched s views i cv cv' d :
  table_ok s (view_at views i cv) -> Forall (fun k => ks_descriptor k <> d) (table s) ->
  (forall d', d' <> d -> cv_sockets cv' !! d' = cv_sockets cv !! d') ->
  cv_sockets cv' !! d = None \/ slot_failed s i -> table_ok s (view_at views i cv').
Proof.
  intros [H1 H2 Hu Hs Hc] Hd Hcv Hcase. split; try done; [by eapply sound_other|].
  intros j c d' r' w' Hv Hf Hsk. destruct (decide (j = i)) as [->|Hji].
  - rewrite view_at_eq in Hv. injection Hv as <-. destruct (decide (d' = d)) as [->|Hne].
    + destruct Hcase as [E|E]; [congruence|done].
    + rewrite Hcv in Hsk by done. eapply Hc; [apply view_at_eq|done|done].
  - rewrite view_at_ne in Hv by done. eapply Hc; [by rewrite view_at_ne|done|done].
Qed.

(** Only whether a slot failed matters to the table. *)
Lemma table_ok_queries s s' views :
  st_sockets s' = st_sockets s -> st_socket_count s' = st_socket_count s ->
  (forall j, slot_failed s j -> slot_failed s' j) -> table_ok s views -> table_ok s' views.
Proof.
  intros E1 E2 Hf [H1 H2 Hu Hs Hc]. unfold table in *. split; rewrite ?E1, ?E2; try done.
  - unfold table. by rewrite E1, E2.
  - unfold table. by rewrite E1, E2.
  - intros j c d r w Hv Hn Hsk. unfold table. rewrite E1, E2. eapply Hc; [done| |done]. intros H. apply Hn, Hf, H.
Qed.

(** *** Steps of a flight *)
Lemma set_state_rest w a s : same_rest w (set_state w a s) a s.
Proof. by split. Qed.

Lemma same_frame_refl s : same_frame s s.
Proof. by split. Qed.

Lemma same_frame_trans s1 s2 s3 : same_frame s1 s2 -> same_frame s2 s3 -> same_frame s1 s3.
Proof. intros [] []. split; congruence. Qed.

Lemma same_slot_refl q : same_slot q q.
Proof. by split. Qed.

Lemma same_slot_trans q1 q2 q3 : same_slot q1 q2 -> same_slot q2 q3 -> same_slot q1 q3.
Proof. intros [] []. split; congruence. Qed.

Lemma table_member s views d :
  match list_find (fun k => ks_descriptor k = d) (table s) with
  | Some (index, k) => table s !! index = Some k /\ ks_descriptor k = d
  | None => Forall (fun k => ks_descriptor k <> d) (table s)
  end.
Proof.
  destruct (list_find _ (table s)) as [[index k]|] eqn:E.
  - apply list_find_Some in E as (? & ? & _). done.
  - by apply list_find_None in E.
Qed.

Lemma flight_sockets i s0 cv0 s cv views sockets count sockets' :
  flight i s0 cv0 s cv views ->
  table_ok (set_sockets s sockets' count) (view_at views i (sockets_set cv sockets)) ->
  flight i s0 cv0 (set_sockets s sockets' count) (sockets_set cv sockets) views.
Proof. intros [[] H2 H3 H4 H5] Ht. split; try done. Qed.

Lemma flight_socket i s0 cv0 s cv views w a d (readable writable : bool) :
  flight i s0 cv0 s cv views -> dw_states w !! a = Some s ->
  (forall j cv', j <> i -> views j = Some cv' -> cv_sockets cv' !! d = None) ->
  exists s' w', socket_state w (MkSlotContext a i) d readable writable = Ret w' /\ same_rest w w' a s' /\
    flight i s0 cv0 s' (sockets_set cv (if readable || writable then <[d := (readable, writable)]> (cv_sockets cv)
                                        else delete d (cv_sockets cv))) views.
Proof.
  intros Hfl Hw Hother. pose proof Hfl as [Hframe Hpend (q0 & q & Hq0 & Hqs & Hsame & Hdone & Hcomp) Hout Ht].
  unfold socket_state, the_state, the_query. simpl sc_state. simpl sc_index. rewrite Hw. cbn [mbind outcome_bind].
  assert (Hi : st_queries s !! i = Some q)
    by (rewrite Hqs; apply list_lookup_insert_eq; by eapply lookup_lt_Some).
  rewrite Hi. cbn [mbind outcome_bind]. fold (table s). pose proof (table_member s views d) as Hfind.
  pose proof (table_length s _ Ht) as Hlen. pose proof Ht as [H1 H2 _ _ _].
  destruct (list_find _ (table s)) as [[index k]|].
  - destruct Hfind as [Hk Hd]. pose proof (lookup_lt_Some _ _ _ Hk).
    destruct (readable || writable) eqn:Eb.
    + rewrite <- negb_orb, Eb. simpl negb. cbv iota. eexists _, _. split; [done|]. split; [apply set_state_rest|].
      apply flight_sockets; [done|]. by apply table_update.
    + rewrite <- negb_orb, Eb. simpl negb. cbv iota.
      destruct (lookup_lt_is_Some_2 (st_sockets s) (Z.to_nat (st_socket_count s - 1))) as [last Hlast]; [lia|].
      rewrite Hlast. eexists _, _. split; [done|]. split; [apply set_state_rest|].
      apply flight_sockets; [done|]. by eapply table_remove.
  - rewrite <- negb_orb. destruct (readable || writable) eqn:Eb; simpl negb; cbv iota.
    + destruct (Z.eqb_spec (st_socket_count s) (Z.of_nat maximum_socket_capacity)) as [Hfull|Hroom].
      * eexists _, _. split; [done|]. split; [apply set_state_rest|].
        split; simpl; [by destruct Hframe; split|done| |done|].
        -- exists q0, (set_socket_capacity_failed q). split; [done|]. rewrite Hqs, list_insert_insert_eq. split; [done|].
           split; [by eapply same_slot_trans; [done|]|]. done.
        -- eapply (table_untouched _ views i cv _ d); [| exact Hfind | |right].
           ++ apply (table_ok_queries s); [done|done| |exact Ht]. intros j (q' & Hj & Hf).
              unfold slot_failed. simpl. destruct (decide (j = i)) as [->|].
              ** eexists. rewrite list_lookup_insert_eq by (by eapply lookup_lt_Some). done.
              ** exists q'. by rewrite list_lookup_insert_ne.
           ++ intros d' Hne. simpl. by rewrite lookup_insert_ne.
           ++ exists (set_socket_capacity_failed q). simpl.
              rewrite list_lookup_insert_eq by (by eapply lookup_lt_Some). done.
      * rewrite set_slot_ok by lia. cbn [mbind outcome_bind]. eexists _, _. split; [done|].
        split; [apply set_state_rest|]. apply flight_sockets; [done|]. by apply table_append.
    + exists s, w. split; [done|]. split; [by split; try done; rewrite insert_id|].
      split; [done|done|by exists q0, q|done|]. apply (table_untouched s views i cv _ d); [done|done| |left].
      * intros d' Hne. simpl. by rewrite lookup_delete_ne.
      * simpl. apply lookup_delete_eq.
Qed.

(** *** Completions *)

(** The addresses of a result: the usable nodes, unless there are too many. *)
Definition usable (nodes : list ares_addrinfo_node) : list DnsAddress := omap copy_address nodes.

Lemma usable_cons node nodes :
  usable (node :: nodes) = match copy_address node with Some x => x :: usable nodes | None => usable nodes end.
Proof. done. Qed.

Lemma address_loop_run limit nodes q :
  q_completed_with_error q = false -> 0 <= q_completed_address_count q <= limit ->
  limit <= Z.of_nat (length (q_completed_addresses q)) ->
  exists q', address_loop limit nodes q = Ret q' /\ same_slot q q' /\ q_native_done q' = q_native_done q /\
    q_socket_capacity_failed q' = q_socket_capacity_failed q /\
    if q_completed_address_count q + Z.of_nat (length (usable nodes)) <=? limit then
      q_completed_with_error q' = false /\
      q_completed_address_count q' = q_completed_address_count q + Z.of_nat (length (usable nodes)) /\
      take (Z.to_nat (q_completed_address_count q')) (q_completed_addresses q') =
        take (Z.to_nat (q_completed_address_count q)) (q_completed_addresses q) ++ usable nodes
    else q_completed_with_error q' = true /\ q_completed_address_count q' = 0 /\ q_completed_error q' = dns_result_error.
Proof.
  revert q. induction nodes as [|node nodes IH]; intros q He Hc Hl; cbn [address_loop].
  { exists q. split; [done|]. split; [apply same_slot_refl|]. split; [done|]. split; [done|]. simpl.
    rewrite (proj2 (Z.leb_le _ _)) by lia. rewrite app_nil_r. split; [done|]. split; [lia|done]. }
  rewrite usable_cons. destruct (copy_address node) as [address|]; [|by apply IH]. simpl length.
  destruct (Z.eqb_spec (q_completed_address_count q) limit) as [E|E].
  { eexists. split; [done|]. split; [by split|]. split; [done|]. split; [done|].
    by rewrite (proj2 (Z.leb_gt _ _)) by lia. }
  rewrite set_slot_ok by lia. cbn [mbind outcome_bind].
  set (q1 := set_completed q (<[Z.to_nat (q_completed_address_count q) := address]> (q_completed_addresses q))
    (q_completed_error q) (q_completed_address_count q + 1) (q_completed_with_error q)).
  destruct (IH q1) as (q' & Eq & Hsame & Hd & Hf & Hr); [done|simpl; lia|simpl; rewrite length_insert; lia|].
  exists q'. split; [done|]. split; [destruct Hsame as [X1 X2 X3 X4 X5 X6]; split; try done; by rewrite X6; simpl; rewrite length_insert|].
  split; [done|]. split; [done|]. simpl q_completed_address_count in Hr. simpl q_completed_addresses in Hr.
  replace (q_completed_address_count q + Z.of_nat (S (length (usable nodes))))
    with (q_completed_address_count q + 1 + Z.of_nat (length (usable nodes))) by lia.
  destruct (_ <=? limit); [|done]. destruct Hr as (R1 & R2 & R3). split; [done|]. split; [done|]. rewrite R3.
  replace (Z.to_nat (q_completed_address_count q + 1)) with (S (Z.to_nat (q_completed_address_count q))) by lia.
  rewrite (take_S_r _ _ address) by (apply list_lookup_insert_eq; lia).
  rewrite take_insert_ge by lia. by rewrite <- app_assoc.
Qed.

(** What a completed query reports: the addresses, or the error. *)
Definition completion_of (limit : Z) (status : ares_status) (nodes : list ares_addrinfo_node) :
    list DnsAddress + Error :=
  let native e := normalize_dependency_error id_c_ares op_dns_query (status_for e) (cast int32_t (ares_status_value lib e)) in
  if decide (status = ARES_SUCCESS) then
    match usable nodes with
    | [] => inr (native ARES_ENODATA)
    | addresses => if Z.of_nat (length addresses) <=? limit then inl addresses else inr dns_result_error
    end
  else inr (native status).

Definition reports q (r : list DnsAddress + Error) : Prop :=
  match r with
  | inl addresses => q_completed_with_error q = false /\
      take (Z.to_nat (q_completed_address_count q)) (q_completed_addresses q) = addresses /\
      q_completed_address_count q = Z.of_nat (length addresses)
  | inr e => q_completed_with_error q = true /\ q_completed_address_count q = 0 /\ q_completed_error q = e
  end.

Lemma reports_completed_ok limit status nodes q :
  reports q (completion_of limit status nodes) -> completed_ok limit q.
Proof.
  unfold completion_of, completed_ok. destruct (decide (status = ARES_SUCCESS)); [|by intros (-> & ? & _)].
  destruct (usable nodes) as [|x l]; [by intros (-> & ? & _)|].
  destruct (Z.leb_spec (Z.of_nat (length (x :: l))) limit) as [Hl|]; [|by intros (-> & ? & _)].
  intros (-> & _ & ->). simpl in *. lia.
Qed.

Lemma free_native_rest w r a s : same_rest w (set_state (free_native w r) a s) a s.
Proof. destruct r as [[]|]; by split. Qed.
Lemma free_native_log_rest w l r a s : same_rest w (set_state (free_native (set_log w l) r) a s) a s.
Proof. destruct r as [[]|]; by split. Qed.

(** The slot after the completion callback of a query that is not being cancelled. *)
Lemma address_complete_run w a i s q status result :
  dw_states w !! a = Some s -> st_queries s !! i = Some q -> st_shutting_down s = false ->
  q_canceling q && bool_decide (status = ARES_ECANCELLED) = false ->
  0 <= rl_maximum_result_addresses (st_limits s) <= Z.of_nat (length (q_completed_addresses q)) ->
  exists q' w', address_complete lib w (MkSlotContext a i) status result = Ret w' /\
    same_rest w w' a (finish_outstanding (set_query s i q')) /\ same_slot q q' /\ q_native_done q' = true /\
    q_socket_capacity_failed q' = q_socket_capacity_failed q /\
    reports q' (completion_of (rl_maximum_result_addresses (st_limits s)) status (default [] (snd <$> result))).
Proof.
  intros Hw Hq Hsh Hc Hl. unfold address_complete, the_state, the_query. simpl sc_state. simpl sc_index.
  rewrite Hw. cbn [mbind outcome_bind]. rewrite Hq. cbn [mbind outcome_bind]. rewrite Hsh, Hc. unfold completion_of.
  set (limit := rl_maximum_result_addresses (st_limits s)) in *.
  destruct (decide (status = ARES_SUCCESS)) as [->|Hne].
  - rewrite bool_decide_true by done. simpl negb. cbv iota.
    set (q1 := set_completed q (q_completed_addresses q) (q_completed_error q) 0 false).
    destruct (address_loop_run limit (match result with None => [] | Some (_, nodes) => nodes end) q1)
      as (q2 & -> & Hsame & Hd & Hf & Hr); [done|simpl; lia|simpl; lia|].
    cbn [mbind outcome_bind].
    assert (Hnodes : default [] (snd <$> result) = match result with None => [] | Some (_, nodes) => nodes end)
      by (by destruct result as [[]|]).
    rewrite Hnodes. set (nodes := match result with None => [] | Some (_, nodes) => nodes end) in *. simpl q_completed_address_count in Hr.
    assert (Hsq : same_slot q q2) by (eapply same_slot_trans; [|exact Hsame]; by split).
    destruct (usable nodes) as [|x l] eqn:Eu.
    + simpl length in Hr. rewrite (proj2 (Z.leb_le _ _)) in Hr by lia. destruct Hr as (R1 & R2 & R3).
      rewrite R1, R2. cbn [negb andb native_error Z.eqb Z.add Z.of_nat mbind outcome_bind].
      eexists _, _. split; [done|]. split; [apply free_native_log_rest|]. split; [by destruct Hsq; split|]. done.
    + destruct (Z.leb_spec (0 + Z.of_nat (length (x :: l))) limit) as [Hle|Hgt].
      * destruct Hr as (R1 & R2 & R3). rewrite (proj2 (Z.leb_le _ _)) by lia.
        rewrite R1. rewrite (proj2 (Z.eqb_neq _ _)) by (rewrite R2; simpl; lia). cbn [negb andb mbind outcome_bind].
        eexists _, _. split; [done|]. split; [apply free_native_rest|]. split; [by destruct Hsq; split|].
        split; [done|]. split; [done|]. split; [done|]. split; [exact R3|]. simpl in *. lia.
      * destruct Hr as (R1 & R2 & R3). rewrite (proj2 (Z.leb_gt _ _)) by lia. rewrite R1. cbn [negb andb mbind outcome_bind].
        eexists _, _. split; [done|]. split; [apply free_native_rest|]. split; [by destruct Hsq; split|]. done.
  - rewrite bool_decide_false by done. cbn [negb native_error mbind outcome_bind].
    eexists _, _. split; [done|]. split; [apply free_native_log_rest|]. split; [by split|]. done.
Qed.

Lemma finish_outstanding_frame s : same_frame s (finish_outstanding s).
Proof. unfold finish_outstanding. destruct (negb _); by split. Qed.

(** The slot after it has completed, in a flight. *)
Lemma flight_finish i s0 cv0 s cv views q q' (finished : Resolver) :
  flight i s0 cv0 s cv views -> st_queries s !! i = Some q -> cv_pending cv = true ->
  same_slot q q' -> q_native_done q' = true -> q_socket_capacity_failed q' = q_socket_capacity_failed q ->
  (st_shutting_down s0 = false -> q_canceling q = false -> completed_ok (rl_maximum_result_addresses (st_limits s0)) q') ->
  finished = (if st_shutting_down s then set_query s i q' else finish_outstanding (set_query s i q')) ->
  flight i s0 cv0 finished (with_pending cv false) views.
Proof.
  intros [Hframe [Hctx Hpend] (q0 & q1 & Hq0 & Hqs & Hsame & Hdone & Hcomp) Hout Ht] Hq Hp Hs' Hd Hf Hc ->.
  assert (q1 = q) as ->.
  { rewrite Hqs, list_lookup_insert_eq in Hq by (by eapply lookup_lt_Some). congruence. }
  specialize (Hpend Hp). rewrite Hp, Hpend in Hout. simpl in Hout. rewrite (sf_shutting _ _ Hframe).
  assert (Htab : table_ok (set_query s i q') (view_at views i (with_pending cv false))).
  { apply (table_ok_queries s); [done|done| |].
    - intros j (qj & Hj & Hfj). unfold slot_failed. simpl. destruct (decide (j = i)) as [->|].
      + exists q'. rewrite list_lookup_insert_eq by (by eapply lookup_lt_Some). split; [done|]. rewrite Hf. congruence.
      + exists qj. by rewrite list_lookup_insert_ne.
    - destruct Ht as [H1 H2 Hu Hs Hcc]. split; try done.
      + eapply list.Forall_impl; [exact Hs|]. intros k (j & c & Hj & Hv & Hsk). destruct (decide (j = i)) as [->|].
        * rewrite view_at_eq in Hv. injection Hv as <-. eexists i, _. by rewrite view_at_eq.
        * exists j, c. by rewrite view_at_ne in *.
      + intros j c d r wr Hv. destruct (decide (j = i)) as [->|].
        * rewrite view_at_eq in Hv. injection Hv as <-. simpl. apply (Hcc i cv), view_at_eq.
        * rewrite view_at_ne in Hv by done. apply (Hcc j c). by rewrite view_at_ne. }
  assert (Hslots : st_queries (set_query s i q') = <[i := q']> (st_queries s0)).
  { simpl. by rewrite Hqs, list_insert_insert_eq. }
  split.
  - eapply (same_frame_trans _ (set_query s i q')); [by destruct Hframe; split|].
    destruct (st_shutting_down s0); [apply same_frame_refl|apply finish_outstanding_frame].
  - done.
  - exists q0, q'. split; [done|]. split; [|split; [by eapply same_slot_trans|split]].
    + rewrite <- Hslots. destruct (st_shutting_down s0); [done|]. unfold finish_outstanding. destruct (st_outstanding (set_query s i q') =? 0); reflexivity.
    + rewrite Hd, Hpend. simpl. by rewrite orb_true_r.
    + intros _ _ Hsh Hcan. apply Hc; [done|]. by rewrite (ss_canceling _ _ Hsame).
  - rewrite Hpend. simpl. destruct (st_shutting_down s0); simpl; [done|].
    unfold finish_outstanding. simpl. rewrite Hout. destruct (st_outstanding s0 =? 0) eqn:E0; simpl; [done|]. lia.
  - destruct (st_shutting_down s0); [exact Htab|]. unfold finish_outstanding.
    destruct (st_outstanding (set_query s i q') =? 0); simpl negb; cbv iota; [exact Htab|].
    by apply (table_ok_queries (set_query s i q')).
Qed.

Lemma flight_complete i s0 cv0 s cv views w a status result :
  flight i s0 cv0 s cv views -> dw_states w !! a = Some s -> cv_pending cv = true ->
  (forall q, st_queries s0 !! i = Some q ->
     0 <= rl_maximum_result_addresses (st_limits s0) <= Z.of_nat (length (q_completed_addresses q))) ->
  exists s' w', address_complete lib w (MkSlotContext a i) status result = Ret w' /\ same_rest w w' a s' /\
    flight i s0 cv0 s' (with_pending cv false) views.
Proof.
  intros Hfl Hw Hp Hlim. pose proof Hfl as [Hframe _ (q0 & q & Hq0 & Hqs & Hsame & _ & _) _ _].
  assert (Hi : st_queries s !! i = Some q) by (rewrite Hqs; apply list_lookup_insert_eq; by eapply lookup_lt_Some).
  specialize (Hlim q0 Hq0). rewrite <- (ss_length _ _ Hsame), <- (sf_limits _ _ Hframe) in Hlim.
  destruct (st_shutting_down s) eqn:Hsh; [|destruct (q_canceling q && bool_decide (status = ARES_ECANCELLED)) eqn:Hc].
  - unfold address_complete, the_state, the_query. simpl sc_state. simpl sc_index. rewrite Hw. cbn [mbind outcome_bind].
    rewrite Hi. cbn [mbind outcome_bind]. rewrite Hsh. eexists _, _. split; [done|]. split; [apply free_native_rest|].
    apply (flight_finish i s0 cv0 s cv views q (set_native_done q)); [done|done|done|by split|done|done| |by rewrite Hsh]. intros H. rewrite (sf_shutting _ _ Hframe) in Hsh. congruence.
  - unfold address_complete, the_state, the_query. simpl sc_state. simpl sc_index. rewrite Hw. cbn [mbind outcome_bind].
    rewrite Hi. cbn [mbind outcome_bind]. rewrite Hsh, Hc. eexists _, _. split; [done|]. split; [apply free_native_rest|].
    apply andb_true_iff in Hc as [Hc _].
    apply (flight_finish i s0 cv0 s cv views q (set_native_done q)); [done|done|done|by split|done|done| |by rewrite Hsh]. intros _ H. congruence.
  - destruct (address_complete_run w a i s q status result Hw Hi Hsh Hc Hlim) as (q' & w' & E & Hrest & Hs' & Hd & Hf & Hrep).
    eexists _, w'. split; [done|]. split; [exact Hrest|]. apply (flight_finish i s0 cv0 s cv views q q'); [done..| |by rewrite Hsh].
    intros _ _. rewrite <- (sf_limits _ _ Hframe). by eapply reports_completed_ok.
Qed.

Lemma run_callbacks_run i s0 cv0 views a cbs : forall w s cv cv',
  (forall q, st_queries s0 !! i = Some q ->
     0 <= rl_maximum_result_addresses (st_limits s0) <= Z.of_nat (length (q_completed_addresses q))) ->
  flight i s0 cv0 s cv views -> dw_states w !! a = Some s -> cv_context cv0 = MkSlotContext a i ->
  (forall d j c, d ∈ callback_sockets cbs -> j <> i -> views j = Some c -> cv_sockets c !! d = None) ->
  apply_callbacks cv cbs = Some cv' ->
  exists s' w', run_callbacks lib cbs w = Ret w' /\ same_rest w w' a s' /\ flight i s0 cv0 s' cv' views.
Proof.
  induction cbs as [|cb cbs IH]; intros w s cv cv' Hlim Hfl Hw Hctx Hother Happ; cbn [run_callbacks].
  { injection Happ as <-. exists s, w. split; [done|]. split; [by split; try done; rewrite insert_id|done]. }
  cbn [apply_callbacks] in Happ. destruct (apply_callback cv cb) as [cv1|] eqn:E; [|done]. cbn [mbind option_bind] in Happ.
  pose proof Hfl as [_ [Hc0 _] _ _ _].
  assert (exists s1 w1, (match cb with
      | CbSocket context d r wr => socket_state w context d r wr
      | CbComplete context status result => address_complete lib w context status result
      end) = Ret w1 /\ same_rest w w1 a s1 /\ flight i s0 cv0 s1 cv1 views) as (s1 & w1 & Er & Hrest & Hfl1).
  { destruct cb as [context d r wr|context status result]; simpl in E.
    - destruct (decide (context = cv_context cv)) as [Ec|]; [|done]. injection E as <-.
      assert (context = MkSlotContext a i) as -> by congruence.
      apply (flight_socket i s0 cv0 s cv views w a d r wr Hfl Hw). intros j c. apply (Hother d). simpl. by left.
    - destruct (decide _) as [[Ec Hp]|]; [|done]. injection E as <-.
      assert (context = MkSlotContext a i) as -> by congruence.
      by apply (flight_complete i s0 cv0 s cv views w a status result). }
  assert (Hw1 : dw_states w1 !! a = Some s1) by (by rewrite (sr_states _ _ _ _ Hrest), lookup_insert_eq).
  assert (Hother1 : forall d j c, d ∈ callback_sockets cbs -> j <> i -> views j = Some c -> cv_sockets c !! d = None).
  { intros d j c Hd. apply (Hother d). destruct cb; simpl; [by right|done]. }
  destruct (IH w1 s1 cv1 cv' Hlim Hfl1 Hw1 Hctx Hother1 Happ) as (s2 & w2 & Er2 & Hrest2 & Hfl2).
  exists s2, w2. split; [destruct cb; by rewrite Er|]. split; [|done].
  destruct Hrest as [A1 A2 A3 A4 A5], Hrest2 as [B1 B2 B3 B4 B5]. split; try congruence.
  by rewrite B2, A2, insert_insert_eq.
Qed.
End flight.
