(* ===== verification/DnsNameservers.v ===== *)
(** * The list of nameservers as text

    The nameservers of a resolver are joined into the text c-ares reads.  Eight of them always
    fit the buffer, so only a bad nameserver is refused. *)
From S2P Require Import Prelude Contract CheckedArithmetic Views Dependencies DependencyLifecycle Dns DnsSpec.
From Stdlib Require Import ZArith Lia String Ascii.
From stdpp Require Import base numbers list gmap option.

Set Default Goal Selector "!".
#[local] Open Scope Z_scope.

(** ** Ports *)
Definition digit_value (c : ascii) : Z := Z.of_N (N_of_ascii c) - 48.
Definition decimal_value (digits : list ascii) : Z := fold_left (fun v c => 10 * v + digit_value c) digits 0.

Lemma port_digit_char (d : Z) : 0 <= d < 10 -> digit_value (ascii_of_N (Z.to_N (48 + d))) = d /\ ascii_of_N (Z.to_N (48 + d)) <> Ascii.zero.
Proof.
  intros Hd. assert (E : N_of_ascii (ascii_of_N (Z.to_N (48 + d))) = Z.to_N (48 + d)) by (apply N_ascii_embedding; lia).
  unfold digit_value. rewrite E. split; [lia|]. intros Hz. rewrite Hz in E. simpl in E. lia.
Qed.

(** The digits written in front of [rest] have the value [v], shifted by the length of [rest]. *)
Lemma port_digits_spec (fuel : nat) : forall v rest,
  (1 <= fuel)%nat -> 0 <= v < 10 ^ Z.of_nat fuel ->
  exists digits, port_digits fuel v rest = digits ++ rest /\ (1 <= length digits <= fuel)%nat /\
    (Ascii.zero ∉ digits) /\ decimal_value digits = v.
Proof.
  induction fuel as [|fuel IH]; intros v rest Hf Hv; [lia|]. cbn [port_digits].
  pose proof (Z.mod_pos_bound v 10 ltac:(lia)) as Hm. destruct (port_digit_char (v mod 10) Hm) as [Hval Hnz].
  set (c := ascii_of_N (Z.to_N (48 + v mod 10))) in *. destruct (Z.ltb_spec v 10) as [Hlt|Hge].
  - exists [c]. split; [done|]. split; [simpl; lia|]. split; [by rewrite list_elem_of_singleton; intros <-|].
    unfold decimal_value. simpl. rewrite Hval. rewrite Z.mod_small by lia. lia.
  - rewrite Nat2Z.inj_succ, Z.pow_succ_r in Hv by lia.
    destruct (decide (fuel = 0)%nat) as [->|]; [simpl in Hv; lia|].
    destruct (IH (v / 10) (c :: rest)) as (digits & -> & Hl & Hz & Hd); [lia| |].
    { split; [apply Z.div_pos; lia|]. apply Z.div_lt_upper_bound; lia. }
    exists (digits ++ [c]). split; [by rewrite <- app_assoc|]. split; [rewrite length_app; simpl; lia|].
    split; [rewrite elem_of_app, list_elem_of_singleton; intros [?|<-]; done|].
    unfold decimal_value in *. rewrite fold_left_app. simpl. rewrite Hd, Hval.
    pose proof (Z.div_mod v 10 ltac:(lia)). lia.
Qed.

Lemma port_text_spec port : 0 <= port < 65536 ->
  (1 <= length (port_text port) <= 5)%nat /\ (Ascii.zero ∉ port_text port) /\ decimal_value (port_text port) = port.
Proof.
  intros Hp. destruct (port_digits_spec 5 port []) as (digits & E & H1 & H2 & H3); [lia|simpl; lia|].
  unfold port_text. by rewrite E, app_nil_r.
Qed.

Section nameservers.
Context {N CH R : Type} `{EqDecision CH} {lib : Ares N CH R} {laws : AresLaws lib}.

(** ** What is written *)

(** The text of one nameserver, or why it is refused. *)
Definition server_text (s : DnsNameserver) : Result (list ascii) :=
  if dn_port s =? 0 then Err dns_port_error else
  match dn_family s with
  | address_ipv4 => match inet_ntop lib AF_INET (dn_bytes s) with
                    | None => Err dns_server_address_error
                    | Some text => Ok (text ++ [":"%char] ++ port_text (dn_port s))
                    end
  | address_ipv6 => match inet_ntop lib AF_INET6 (dn_bytes s) with
                    | None => Err dns_server_address_error
                    | Some text => Ok (["["%char] ++ text ++ ["]"%char] ++ [":"%char] ++ port_text (dn_port s))
                    end
  | _ => Err dns_server_family_error
  end.

(** All of them after what is there already, with commas between. *)
Fixpoint csv_after (text : list ascii) (servers : list DnsNameserver) : Result (list ascii) :=
  match servers with
  | [] => Ok text
  | s :: servers => t ← server_text s; csv_after (text ++ (if decide (text = []) then [] else [","%char]) ++ t) servers
  end.
Definition nameservers_csv : list DnsNameserver -> Result (list ascii) := csv_after [].

Definition port_ok (s : DnsNameserver) : Prop := 0 <= dn_port s < 65536.

(** ** Writing *)
Definition csv_buffer (text : list ascii) : list ascii :=
  text ++ replicate (nameserver_csv_capacity - length text) Ascii.zero.

Lemma put_text_run (m : nat) (text t : list ascii) :
  (length t <= m)%nat ->
  put_text (text ++ replicate m Ascii.zero) (Z.of_nat (length text)) t =
    ((text ++ t) ++ replicate (m - length t) Ascii.zero, Z.of_nat (length (text ++ t))).
Proof.
  intros Hm. unfold put_text. rewrite Nat2Z.id, length_app, Nat2Z.inj_add. f_equal.
  rewrite <- (Nat.add_0_r (length text)), list_inserts_app_r, list_inserts_replicate by lia. by rewrite app_assoc.
Qed.

Lemma csv_buffer_reads (t : list ascii) :
  (length t < nameserver_csv_capacity)%nat -> (Ascii.zero ∉ t) ->
  length (csv_buffer t) = nameserver_csv_capacity /\ c_string_read (csv_buffer t) = Some t.
Proof.
  intros Hl Hz. unfold csv_buffer. split; [rewrite length_app, length_replicate; lia|].
  replace (nameserver_csv_capacity - length t)%nat with (S (nameserver_csv_capacity - length t - 1)) by lia.
  simpl replicate. by apply c_string_read_app.
Qed.

(** The pieces of one nameserver, where they fit with the terminator. *)
Lemma put_server (text sep before address after port : list ascii) :
  (length text + length sep + length before + length address + length after + 1 + length port < nameserver_csv_capacity)%nat ->
  (let '(output, size) := put_text (csv_buffer text) (Z.of_nat (length text)) sep in
   let '(output, size) := put_text output size before in
   let '(output, size) := put_text output size address in
   let '(output, size) := put_text output size after in
   let '(output, size) := put_text output size [":"%char] in
   if Z.of_nat (length output) - 1 <? size + Z.of_nat (length port) then Err dns_port_space_error else
   let '(output, size) := put_text output size port in
   Ok (<[Z.to_nat size := Ascii.zero]> output, size)) =
  let t := text ++ sep ++ before ++ address ++ after ++ [":"%char] ++ port in Ok (csv_buffer t, Z.of_nat (length t)).
Proof.
  intros Hroom. unfold csv_buffer at 1.
  do 5 (rewrite put_text_run by (simpl; lia); cbv beta iota).
  destruct (Z.ltb_spec (Z.of_nat (length ((((((text ++ sep) ++ before) ++ address) ++ after) ++ [":"%char]) ++
      replicate (nameserver_csv_capacity - length text - length sep - length before - length address - length after -
        length [":"%char]) Ascii.zero)) - 1)
    (Z.of_nat (length (((((text ++ sep) ++ before) ++ address) ++ after) ++ [":"%char])) + Z.of_nat (length port))) as [Hlt|_].
  { rewrite !length_app, length_replicate in Hlt. simpl in Hlt. lia. }
  rewrite put_text_run by (simpl; lia). cbv beta iota zeta. rewrite <- !app_assoc.
  set (t := text ++ sep ++ before ++ address ++ after ++ [":"%char] ++ port).
  assert (Hl : length t = (length text + length sep + length before + length address + length after + 1 + length port)%nat)
    by (unfold t; rewrite !length_app; simpl; lia).
  assert (Ht : text ++ sep ++ before ++ address ++ after ++ [":"%char] ++ port ++ replicate (nameserver_csv_capacity - length text -
    length sep - length before - length address - length after - length [":"%char] - length port) Ascii.zero = csv_buffer t).
  { replace (nameserver_csv_capacity - length text - length sep - length before - length address - length after -
      length [":"%char] - length port)%nat with (nameserver_csv_capacity - length t)%nat by (rewrite Hl; simpl length; lia).
    unfold csv_buffer, t at 2. by rewrite <- !app_assoc. }
  rewrite Ht. do 2 f_equal. rewrite Nat2Z.id. apply list_insert_id. unfold csv_buffer.
  rewrite lookup_app_r, Nat.sub_diag by lia. apply lookup_replicate_2. lia.
Qed.

Lemma server_text_bound s t : port_ok s -> server_text s = Ok t -> (7 <= length t + 6 <= 59)%nat /\ Ascii.zero ∉ t.
Proof.
  intros Hp. unfold server_text. destruct (port_text_spec (dn_port s) Hp) as (Hl & Hz & _).
  destruct (dn_port s =? 0); [done|].
  destruct (dn_family s); [| |done]; destruct (inet_ntop lib _ _) as [text|] eqn:E; try done;
    apply law_inet_ntop in E as [Hlen Htz]; intros [= <-]; 
    (split; [simpl; rewrite ?length_app; simpl; rewrite ?length_app; simpl; lia|]); clear - Hz Htz; set_solver.
Qed.

(** One more nameserver after [text], where there is room for the longest one. *)
Lemma append_nameserver_run s (text : list ascii) :
  port_ok s -> (length text + 54 < nameserver_csv_capacity)%nat ->
  append_nameserver lib s (csv_buffer text) (Z.of_nat (length text)) =
  match server_text s with
  | Err e => Err e
  | Ok t => let t' := text ++ (if decide (text = []) then [] else [","%char]) ++ t in
            Ok (csv_buffer t', Z.of_nat (length t'))
  end.
Proof.
  intros Hp Hroom. unfold append_nameserver, server_text. destruct (port_text_spec (dn_port s) Hp) as (Hpl & _ & _).
  destruct (dn_port s =? 0); [done|].
  assert (Hsep : (if Z.of_nat (length text) =? 0 then [] else [","%char]) = if decide (text = []) then [] else [","%char]).
  { destruct text; [done|]. by destruct (Z.eqb_spec (Z.of_nat (length (a :: text))) 0); [simpl in *; lia|rewrite decide_False]. }
  rewrite Hsep. set (sep := if decide (text = []) then [] else [","%char]) in *.
  assert (Hsl : (length sep <= 1)%nat) by (unfold sep; destruct (decide _); simpl; lia).
  assert (Hfree : u64 (Z.of_nat (length (csv_buffer text)) - Z.of_nat (length text)) = 512 - Z.of_nat (length text)).
  { unfold csv_buffer. rewrite length_app, length_replicate. unfold u64, nameserver_csv_capacity in *.
    rewrite Z.mod_small; lia. }
  assert (Hcap : Z.of_nat nameserver_csv_capacity = 512) by done.
  destruct (dn_family s) as [| |raw]; [| |done]; destruct (inet_ntop lib _ _) as [address|] eqn:E; try done;
    apply law_inet_ntop in E as [Hlen _]; rewrite Hfree; cbv zeta.
  - rewrite (proj2 (Z.ltb_ge _ _)) by (simpl; destruct (_ =? 0); lia).
    rewrite (bool_decide_false (AF_INET = AF_INET6)) by done. rewrite put_server by (simpl; lia). done.
  - rewrite (proj2 (Z.ltb_ge _ _)) by (simpl; destruct (_ =? 0); lia).
    rewrite (bool_decide_true (AF_INET6 = AF_INET6)) by done. rewrite put_server by (simpl; lia). done.
Qed.

Lemma csv_after_run servers : forall text,
  Forall port_ok servers -> (length text + 54 * length servers < nameserver_csv_capacity)%nat -> (Ascii.zero ∉ text) ->
  append_nameservers lib servers (csv_buffer text) (Z.of_nat (length text)) =
    match csv_after text servers with Err e => Err e | Ok t => Ok (csv_buffer t, Z.of_nat (length t)) end /\
  match csv_after text servers with
  | Err _ => True
  | Ok t => (length t <= length text + 54 * length servers)%nat /\ (Ascii.zero ∉ t) /\ text `prefix_of` t
  end.
Proof.
  induction servers as [|s servers IH]; intros text Hp Hroom Hz; cbn [append_nameservers csv_after].
  { split; [done|]. split; [lia|]. done. }
  apply list.Forall_cons in Hp as [Hs Hp]. simpl length in Hroom.
  rewrite append_nameserver_run by (done || lia). destruct (server_text s) as [t|e] eqn:E; [|done].
  destruct (server_text_bound s t Hs E) as [Hl Ht]. cbn [mbind Result_bind].
  set (t' := text ++ (if decide (text = []) then [] else [","%char]) ++ t).
  assert (Hl' : (length t' <= length text + 54)%nat).
  { unfold t'. rewrite !length_app. destruct (decide (text = [])); simpl; lia. }
  destruct (IH t') as [-> Hrest]; [done|lia| |].
  { unfold t'. rewrite !elem_of_app. intros [?|[?|?]]; [done| |done]. destruct (decide _); set_solver. }
  split; [done|]. destruct (csv_after t' servers) as [u|]; [|done]. destruct Hrest as (H1 & H2 & H3).
  split; [simpl; lia|]. split; [done|]. etrans; [|exact H3]. by eexists.
Qed.

(** The text of up to eight nameservers is built exactly: the nameservers in order with
    commas between, each as its address in the form [inet_ntop] gives, in brackets for IPv6,
    a colon and the port in decimal; the first bad nameserver is what is refused; and the text
    always fits its buffer with its terminator, so c-ares reads it back whole. *)
Theorem nameserver_csv_exact servers :
  (length servers <= maximum_nameserver_capacity)%nat -> Forall port_ok servers ->
  append_nameservers lib servers (replicate nameserver_csv_capacity Ascii.zero) 0 =
    match nameservers_csv servers with Err e => Err e | Ok t => Ok (csv_buffer t, Z.of_nat (length t)) end /\
  match nameservers_csv servers with
  | Err _ => True
  | Ok t => (length t <= 432)%nat /\ length (csv_buffer t) = nameserver_csv_capacity /\ c_string_read (csv_buffer t) = Some t
  end /\
  Forall (fun s => decimal_value (port_text (dn_port s)) = dn_port s) servers.
Proof.
  unfold maximum_nameserver_capacity. intros Hl Hp.
  destruct (csv_after_run servers [] Hp) as [Hrun Hfit]; [unfold nameserver_csv_capacity; simpl; lia|set_solver|].
  split; [exact Hrun|]. unfold nameservers_csv. split.
  - destruct (csv_after [] servers) as [t|]; [|done]. destruct Hfit as (H1 & H2 & _). simpl in H1.
    split; [lia|]. apply csv_buffer_reads; [unfold nameserver_csv_capacity; lia|done].
  - eapply list.Forall_impl; [exact Hp|]. intros s Hs. by apply port_text_spec.
Qed.
End nameservers.
