(* ===== verification/DnsQueries.v ===== *)
(** * Queries from the call of the library to the completion

    The invariant of all resolvers over the library, what a call on one query and the settling
    that follows do to it: the query ends with one completion and its channel is destroyed, or
    the resolver is at rest again. *)
From S2P Require Import Prelude Contract CheckedArithmetic Views Dependencies DependencyLifecycle Dns DnsSpec.
From Stdlib Require Import ZArith Lia String Ascii.
From stdpp Require Import base numbers list gmap option.

Set Default Goal Selector "!".
#[local] Open Scope Z_scope.

Section resolvers.
Context {N CH R L : Type} `{EqDecision CH} {lib : Ares N CH R} {laws : AresLaws lib}.
Abbreviation Slot := (QuerySlot (CH:=CH)).
Abbreviation Resolver := (State (CH:=CH) (L:=L)).
Abbreviation World := (DnsWorld (N:=N) (CH:=CH) (R:=R) (L:=L)).
Implicit Types (n : N) (s : Resolver) (w : World) (q : Slot).

(** ** States at rest *)
Definition views_of n s (j : nat) : option ChannelView :=
  q ← st_queries s !! j; ch ← q_channel q; view n ch.

(** The slot [j] of the state at [a] between operations. *)
Record slot_rest n (a j : nat) q : Prop := {
  sl_owner : q_owner q = Some a;
  sl_length : length (q_completed_addresses q) = maximum_address_capacity;
  sl_flags : q_native_done q = false /\ q_canceling q = false /\ q_socket_capacity_failed q = false;
  sl_channel : if q_active q then
      exists ch cv, q_channel q = Some ch /\ view n ch = Some cv /\ cv_context cv = MkSlotContext a j /\ cv_pending cv = true
    else q_channel q = None }.

Definition active_tokens s : list Z :=
  map (fun q => token_value (q_token q)) (filter (fun q => q_active q = true) (st_queries s)).

(** What no operation on queries changes. *)
Record shaped s : Prop := {
  sh_queries : length (st_queries s) = maximum_query_capacity;
  sh_limits : 1 <= rl_maximum_outstanding_queries (st_limits s) <= Z.of_nat maximum_query_capacity /\
    1 <= rl_maximum_result_addresses (st_limits s) <= Z.of_nat maximum_address_capacity;
  sh_open : st_shutting_down s = false;
  sh_csv : st_has_explicit_nameservers s = true -> exists csv, c_string_read (st_nameserver_csv s) = Some csv }.

Record state_ok n (a : nat) s : Prop := {
  so_shape : shaped s;
  so_slots : forall j q, st_queries s !! j = Some q -> slot_rest n a j q;
  so_table : table_ok s (views_of n s);
  so_outstanding : st_outstanding s = Z.of_nat (length (active_tokens s)) /\
    st_outstanding s <= rl_maximum_outstanding_queries (st_limits s) }.

(** Every channel belongs to the slot its callbacks are for. *)
Definition no_orphans w : Prop :=
  forall ch cv, view (dw_native w) ch = Some cv ->
    exists s q, dw_states w !! sc_state (cv_context cv) = Some s /\
      st_queries s !! sc_index (cv_context cv) = Some q /\ q_channel q = Some ch.

Definition world_ok w : Prop :=
  map_Forall (fun a s => state_ok (dw_native w) a s) (dw_states w) /\ no_orphans w.

Lemma slot_rest_view n n' a j q :
  slot_rest n a j q -> (forall ch, q_channel q = Some ch -> view n' ch = view n ch) -> slot_rest n' a j q.
Proof.
  intros [H1 H2 H3 H4] Hv. split; try done. destruct (q_active q); [|done].
  destruct H4 as (ch & cv & Hch & Hcv & Hrest). exists ch, cv. by rewrite Hv.
Qed.

Lemma table_ok_views s views views' :
  (forall j, views' j = views j) -> table_ok s views -> table_ok s views'.
Proof.
  intros Hv [H1 H2 H3 H4 H5]. split; try done.
  - eapply list.Forall_impl; [exact H4|]. intros k (j & cv & Hj & Hcv & Hk). exists j, cv. by rewrite Hv.
  - intros j cv d r wr Hj. apply H5. by rewrite <- Hv.
Qed.

Lemma state_ok_view n n' a s :
  state_ok n a s -> (forall j q ch, st_queries s !! j = Some q -> q_channel q = Some ch -> view n' ch = view n ch) ->
  state_ok n' a s.
Proof.
  intros [H1 H2 H3 H4] Hv. split; try done.
  - intros j q Hj. eapply slot_rest_view; [by apply H2|]. intros ch. by apply (Hv j).
  - eapply table_ok_views; [|exact H3]. intros j. unfold views_of.
    destruct (st_queries s !! j) as [q|] eqn:Hj; [|done]. simpl. destruct (q_channel q) as [ch|] eqn:Hc; [|done]. simpl.
    by apply (Hv j q).
Qed.

(** The channels of different slots are different. *)
Lemma rest_context n a j q ch cv :
  slot_rest n a j q -> q_channel q = Some ch -> view n ch = Some cv -> cv_context cv = MkSlotContext a j.
Proof.
  intros [_ _ _ H] Hch Hcv. destruct (q_active q); [|congruence].
  destruct H as (ch' & cv' & Hch' & Hcv' & Hctx & _). congruence.
Qed.

(** ** A query that may have ended *)

(** The slot [i] between a call of the library and the settling of its query. *)
Record busy n (a : nat) s (i : nat) q : Prop := {
  bz_shape : shaped s;
  bz_slot : st_queries s !! i = Some q;
  bz_others : forall j q', j <> i -> st_queries s !! j = Some q' -> slot_rest n a j q';
  bz_fixed : q_owner q = Some a /\ length (q_completed_addresses q) = maximum_address_capacity /\ q_active q = true;
  bz_channel : exists ch cv, q_channel q = Some ch /\ view n ch = Some cv /\ cv_context cv = MkSlotContext a i /\
    cv_pending cv = negb (q_native_done q);
  bz_completed : q_native_done q = true -> q_canceling q = false ->
    completed_ok (rl_maximum_result_addresses (st_limits s)) q;
  bz_table : table_ok s (views_of n s);
  bz_outstanding : st_outstanding s = Z.of_nat (length (active_tokens s)) - (if q_native_done q then 1 else 0) /\
    st_outstanding s <= rl_maximum_outstanding_queries (st_limits s) }.

Lemma views_at n s i q ch cv j :
  st_queries s !! i = Some q -> q_channel q = Some ch -> view n ch = Some cv ->
  view_at (views_of n s) i cv j = views_of n s j.
Proof.
  intros Hi Hch Hcv. unfold view_at, views_of. destruct (decide (j = i)) as [->|]; [|done].
  rewrite Hi. simpl. rewrite Hch. simpl. done.
Qed.

Lemma views_after n n' s s' i q q' ch cv' j :
  st_queries s !! i = Some q -> st_queries s' = <[i := q']> (st_queries s) ->
  q_channel q = Some ch -> q_channel q' = Some ch -> view n' ch = Some cv' ->
  (forall k qk c, k <> i -> st_queries s !! k = Some qk -> q_channel qk = Some c -> view n' c = view n c) ->
  views_of n' s' j = view_at (views_of n s) i cv' j.
Proof.
  intros Hi Hs Hch Hch' Hcv Hother. unfold view_at, views_of. rewrite Hs.
  destruct (decide (j = i)) as [->|Hne].
  - rewrite list_lookup_insert_eq by (by eapply lookup_lt_Some). simpl. by rewrite Hch'.
  - rewrite list_lookup_insert_ne by done. destruct (st_queries s !! j) as [qj|] eqn:Hj; [|done]. simpl.
    destruct (q_channel qj) as [c|] eqn:Hc; [|done]. simpl. by eapply Hother.
Qed.

Lemma active_tokens_insert s s' i q q' :
  st_queries s !! i = Some q -> st_queries s' = <[i := q']> (st_queries s) ->
  q_active q' = q_active q -> q_token q' = q_token q -> active_tokens s' = active_tokens s.
Proof.
  intros Hi Hs Ha Ht. unfold active_tokens. rewrite Hs.
  rewrite (insert_take_drop _ i q') by (by eapply lookup_lt_Some).
  rewrite <- (take_drop_middle (st_queries s) i q Hi) at 3.
  rewrite !list.filter_app, !filter_cons, !map_app. f_equal. rewrite Ha.
  destruct (decide (q_active q = true)); simpl; [by rewrite Ht|done].
Qed.

Lemma active_tokens_finish s s' i q q' :
  st_queries s !! i = Some q -> st_queries s' = <[i := q']> (st_queries s) ->
  q_active q = true -> q_active q' = false -> active_tokens s ≡ₚ token_value (q_token q) :: active_tokens s'.
Proof.
  intros Hi Hs Ha Ha'. unfold active_tokens. rewrite Hs.
  rewrite (insert_take_drop _ i q') by (by eapply lookup_lt_Some).
  rewrite <- (take_drop_middle (st_queries s) i q Hi) at 1.
  rewrite !list.filter_app, !filter_cons, !map_app. rewrite decide_True by done. rewrite decide_False by congruence. simpl.
  by rewrite Permutation_middle.
Qed.

Lemma active_tokens_open s s' i q q' :
  st_queries s !! i = Some q -> st_queries s' = <[i := q']> (st_queries s) ->
  q_active q = false -> q_active q' = true -> active_tokens s' ≡ₚ token_value (q_token q') :: active_tokens s.
Proof.
  intros Hi Hs Ha Ha'.
  apply (active_tokens_finish s' s i q' q); try done.
  - rewrite Hs. apply list_lookup_insert_eq. by eapply lookup_lt_Some.
  - by rewrite Hs, list_insert_insert_eq, list_insert_id.
Qed.

(** ** Calls *)
Lemma andb_negb (b : bool) : b && negb b = false.
Proof. by destruct b. Qed.

Lemma table_same_sockets s views i cv cv' :
  views i = Some cv -> cv_sockets cv' = cv_sockets cv -> table_ok s views -> table_ok s (view_at views i cv').
Proof.
  intros Hi Hsk [H1 H2 H3 H4 H5]. split; try done.
  - eapply list.Forall_impl; [exact H4|]. intros k (j & c & Hj & Hc & Hk). destruct (decide (j = i)) as [->|].
    + exists i, cv'. rewrite view_at_eq, Hsk. split; [done|]. split; [done|]. congruence.
    + exists j, c. by rewrite view_at_ne.
  - intros j c d r wr Hj Hf Hk. destruct (decide (j = i)) as [->|].
    + rewrite view_at_eq in Hj. injection Hj as <-. rewrite Hsk in Hk. by eapply H5.
    + rewrite view_at_ne in Hj by done. by eapply H5.
Qed.

Lemma flight_start i s q cv views :
  st_queries s !! i = Some q -> table_ok s (view_at views i cv) -> flight i s cv s cv views.
Proof.
  intros Hi Ht. split; [apply same_frame_refl|done| |by rewrite andb_negb|done].
  exists q, q. split; [done|]. rewrite list_insert_id by done. split; [done|]. split; [apply same_slot_refl|].
  rewrite andb_negb, orb_false_r. split; [done|]. congruence.
Qed.

(** The channels of the other slots make their callbacks for those slots. *)
Definition foreign n (a i : nat) s : Prop :=
  forall j q ch cv, j <> i -> st_queries s !! j = Some q -> q_channel q = Some ch -> view n ch = Some cv ->
    cv_context cv = MkSlotContext a j.

Lemma rest_foreign n a i s :
  (forall j q', j <> i -> st_queries s !! j = Some q' -> slot_rest n a j q') -> foreign n a i s.
Proof. intros Hr j q ch cv Hj Hq. apply rest_context. by apply Hr. Qed.

(** What the callbacks of a call leave, given what the call does to the channel. *)
Lemma call_flight (f : N -> outcome (list (ares_callback R) * N)) w a s i q ch cv start cbs n' after :
  f (dw_native w) = Ret (cbs, n') -> acts (dw_native w) ch start cbs n' after ->
  dw_states w !! a = Some s -> st_queries s !! i = Some q -> q_channel q = Some ch ->
  view (dw_native w) ch = Some cv -> cv_context cv = MkSlotContext a i ->
  cv_context start = cv_context cv /\ cv_sockets start = cv_sockets cv ->
  foreign (dw_native w) a i s ->
  length (q_completed_addresses q) = maximum_address_capacity ->
  1 <= rl_maximum_result_addresses (st_limits s) <= Z.of_nat maximum_address_capacity ->
  table_ok s (views_of (dw_native w) s) ->
  exists s' w' cv', call lib f w = Ret w' /\ same_rest (set_native w n') w' a s' /\
    flight i s start s' cv' (views_of (dw_native w) s) /\
    match after with Some c => c = cv' | None => cv_pending cv' = false /\ cv_sockets cv' = ∅ end.
Proof.
  intros Hf [(cv' & Happ & Hafter) (_ & _ & Hforeign)] Hs Hq Hch Hcv Hctx [Hsc Hsk] Hothers Hlen Hlim Ht.
  unfold call. rewrite Hf. cbn [mbind outcome_bind].
  destruct (run_callbacks_run lib i s start (views_of (dw_native w) s) a cbs (set_native w n') s start cv')
    as (s' & w' & E & Hrest & Hfl).
  - intros q' Hq'. assert (q' = q) as -> by congruence. rewrite Hlen. lia.
  - apply (flight_start i s q); [done|]. apply (table_same_sockets s _ i cv start); [|done|done].
    unfold views_of. rewrite Hq. simpl. by rewrite Hch.
  - done.
  - congruence.
  - intros d j c Hd Hne Hj. unfold views_of in Hj. destruct (st_queries s !! j) as [qj|] eqn:Hqj; [|done].
    simpl in Hj. destruct (q_channel qj) as [chj|] eqn:Hchj; [|done]. simpl in Hj.
    apply (Hforeign d chj); [done| |done]. intros ->.
    pose proof (Hothers j qj ch c Hne Hqj Hchj Hj). congruence.
  - done.
  - exists s', w', cv'. split; [done|]. split; [done|]. split; [done|]. by destruct after.
Qed.

(** The channels of the other slots are not the one called. *)
Lemma other_channel n a i s ch cv :
  view n ch = Some cv -> cv_context cv = MkSlotContext a i ->
  (forall j q', j <> i -> st_queries s !! j = Some q' -> slot_rest n a j q') ->
  forall k qk c, k <> i -> st_queries s !! k = Some qk -> q_channel qk = Some c -> c <> ch.
Proof.
  intros Hcv Hctx Hothers k qk c Hk Hqk Hc ->.
  pose proof (rest_context _ _ _ _ _ _ (Hothers k qk Hk Hqk) Hc Hcv). congruence.
Qed.

(** A call that keeps the channel, from a state whose slot [i] has the flags of [q]. *)
Lemma call_busy (f : N -> outcome (list (ares_callback R) * N)) w a s i q ch cv start cbs n' after :
  f (dw_native w) = Ret (cbs, n') -> acts (dw_native w) ch start cbs n' (Some after) ->
  dw_states w !! a = Some s -> shaped s -> st_queries s !! i = Some q -> q_channel q = Some ch ->
  view (dw_native w) ch = Some cv -> cv_context cv = MkSlotContext a i ->
  cv_context start = cv_context cv /\ cv_sockets start = cv_sockets cv -> cv_pending start = negb (q_native_done q) ->
  (forall j q', j <> i -> st_queries s !! j = Some q' -> slot_rest (dw_native w) a j q') ->
  q_owner q = Some a -> length (q_completed_addresses q) = maximum_address_capacity -> q_active q = true ->
  q_native_done q = false -> table_ok s (views_of (dw_native w) s) ->
  st_outstanding s = Z.of_nat (length (active_tokens s)) ->
  st_outstanding s <= rl_maximum_outstanding_queries (st_limits s) ->
  exists s' q' w', call lib f w = Ret w' /\ same_rest (set_native w n') w' a s' /\
    busy (dw_native w') a s' i q' /\ same_slot q q' /\ same_frame s s' /\
    st_queries s' = <[i := q']> (st_queries s) /\
    (forall c, c <> ch -> view n' c = view (dw_native w) c) /\ view n' ch = Some after.
Proof.
  intros Hf Hacts Hs Hsh Hq Hch Hcv Hctx Hstart Hpend Hothers Hown Hlen Hact Hnd Ht Hout Hmax.
  pose proof Hsh as [Hsl [Hl1 Hl2] Hso Hsv].
  destruct (call_flight f w a s i q ch cv start cbs n' (Some after) Hf Hacts Hs Hq Hch Hcv Hctx Hstart
    (rest_foreign _ _ _ _ Hothers) Hlen Hl2 Ht)
    as (s' & w' & cv' & E & Hrest & Hfl & ->).
  destruct Hacts as (_ & Hview & Hsame & _).
  pose proof Hfl as [Hframe [Hc1 Hc2] (q0 & q' & Hq0 & Hqs & Hslot & Hd & Hcomp) Hout' Ht'].
  assert (q0 = q) as -> by congruence. exists s', q', w'.
  assert (En : dw_native w' = n') by (by rewrite (sr_native _ _ _ _ Hrest)).
  pose proof (other_channel _ _ _ _ _ _ Hcv Hctx Hothers) as Hne.
  assert (Htok : active_tokens s' = active_tokens s)
    by (eapply active_tokens_insert; [done..|apply Hslot|apply Hslot]).
  assert (Hi' : st_queries s' !! i = Some q') by (rewrite Hqs; apply list_lookup_insert_eq; by eapply lookup_lt_Some).
  rewrite Hnd in Hpend. simpl in Hpend. rewrite Hpend in Hd, Hout', Hcomp, Hc2. rewrite Hnd in Hd. simpl in Hd.
  split; [done|]. split; [done|]. split; [|done]. rewrite En. split.
  - destruct Hframe as [F1 F2 F3 F4 F5 F6 F7 F8]. split; rewrite ?F2, ?F5, ?F7, ?F8; [|done..].
    by rewrite Hqs, length_insert.
  - done.
  - intros j qj Hj Hqj. rewrite Hqs, list_lookup_insert_ne in Hqj by done.
    eapply slot_rest_view; [by apply Hothers|]. intros c Hc. apply Hsame. by eapply Hne.
  - destruct Hslot as [S1 S2 S3 S4 S5 S6]. by rewrite S1, S4, S6.
  - exists ch, cv'. rewrite (ss_channel _ _ Hslot). split; [done|]. split; [done|].
    split; [destruct Hstart; congruence|]. by rewrite Hd, negb_involutive.
  - intros Hdone Hcan. rewrite (sf_limits _ _ Hframe). apply Hcomp; [done| |done|].
    + rewrite Hd in Hdone. by destruct (cv_pending cv').
    + by rewrite <- (ss_canceling _ _ Hslot).
  - eapply table_ok_views; [|exact Ht']. intros j. eapply views_after; try done; [by rewrite (ss_channel _ _ Hslot)|].
    intros k qk c Hk Hqk Hc. apply Hsame. by eapply Hne.
  - rewrite Hout', Htok, Hd, Hso, Hout, (sf_limits _ _ Hframe). simpl. rewrite andb_true_r.
    assert (1 <= Z.of_nat (length (active_tokens s))).
    { unfold active_tokens. rewrite length_map.
      enough (q ∈ filter (fun q => q_active q = true) (st_queries s)) as Hin.
      { destruct (filter _ (st_queries s)); [by apply not_elem_of_nil in Hin|simpl; lia]. }
      apply list_elem_of_filter. split; [done|by eapply list_elem_of_lookup_2]. }
    rewrite (proj2 (Z.eqb_neq _ _)) by lia. simpl. rewrite andb_true_r. destruct (negb (cv_pending cv')); lia.
Qed.

(** ** What an operation on one slot touches *)

(** From [n] and [s] to [n'] and [s'], only the slot [i] and its channel changed. *)
Record touched n n' (a i : nat) s s' q q' : Prop := {
  tc_slot : st_queries s !! i = Some q /\ st_queries s' = <[i := q']> (st_queries s);
  tc_now : forall c cv, view n' c = Some cv ->
    view n c = Some cv /\ q_channel q <> Some c \/ q_channel q' = Some c /\ cv_context cv = MkSlotContext a i;
  tc_kept : forall c cv, view n c = Some cv -> q_channel q <> Some c -> view n' c = Some cv;
  tc_new : forall c, q_channel q' = Some c -> q_channel q = Some c \/ view n c = None }.

Lemma touched_slot n n' a i s s' q q' : touched n n' a i s s' q q' -> st_queries s' !! i = Some q'.
Proof. intros [[Hq ->] _ _ _]. apply list_lookup_insert_eq. by eapply lookup_lt_Some. Qed.

Lemma touched_trans n1 n2 n3 a i s1 s2 s3 q1 q2 q3 :
  touched n1 n2 a i s1 s2 q1 q2 -> touched n2 n3 a i s2 s3 q2 q3 -> touched n1 n3 a i s1 s3 q1 q3.
Proof.
  intros [[Hq1 Hs2] Hn1 Hk1 Ht1] [[Hq2 Hs3] Hn2 Hk2 Ht2]. split.
  - split; [done|]. by rewrite Hs3, Hs2, list_insert_insert_eq.
  - intros c cv Hc. destruct (Hn2 c cv Hc) as [[Hc2 Hne]|?]; [|by right].
    destruct (Hn1 c cv Hc2) as [?|[? _]]; [by left|done].
  - intros c cv Hc Hne. apply Hk2; [by apply Hk1|]. intros E. destruct (Ht1 c E) as [?|?]; congruence.
  - intros c Hc. destruct (decide (q_channel q1 = Some c)) as [|Hne]; [by left|right].
    destruct (Ht2 c Hc) as [E|E]; [by destruct (Ht1 c E)|].
    destruct (view n1 c) as [cv|] eqn:Hv; [|done]. pose proof (Hk1 c cv Hv Hne). congruence.
Qed.

(** The slot keeps its channel and the library does nothing. *)
Lemma touched_fields n a i s q q' s' :
  st_queries s !! i = Some q -> st_queries s' = <[i := q']> (st_queries s) -> q_channel q' = q_channel q ->
  (forall ch cv, q_channel q = Some ch -> view n ch = Some cv -> cv_context cv = MkSlotContext a i) ->
  touched n n a i s s' q q'.
Proof.
  intros Hq Hs Hch Hctx. split; [done| |done|].
  - intros c cv Hc. destruct (decide (q_channel q = Some c)) as [E|]; [right|by left].
    rewrite Hch. split; [done|]. by eapply Hctx.
  - intros c. rewrite Hch. by left.
Qed.

Lemma touched_called n n' a i s s' q q' ch :
  st_queries s !! i = Some q -> st_queries s' = <[i := q']> (st_queries s) -> q_channel q = Some ch ->
  (forall c, c <> ch -> view n' c = view n c) ->
  (q_channel q' = None \/ q_channel q' = Some ch) ->
  match view n' ch with None => True | Some cv => q_channel q' = Some ch /\ cv_context cv = MkSlotContext a i end ->
  touched n n' a i s s' q q'.
Proof.
  intros Hq Hs Hch Hsame Hch' Hat. split; [done| | |].
  - intros c cv Hc. destruct (decide (c = ch)) as [->|Hne].
    + right. by rewrite Hc in Hat.
    + left. rewrite <- Hsame by done. split; [done|congruence].
  - intros c cv Hc Hne. rewrite Hsame; [done|congruence].
  - intros c Hc. left. destruct Hch'; congruence.
Qed.

(** The world after an operation on one slot of a resolver. *)
Lemma world_touched w w' a i s s' q q' :
  world_ok w -> dw_states w !! a = Some s -> dw_states w' = <[a := s']> (dw_states w) ->
  touched (dw_native w) (dw_native w') a i s s' q q' -> state_ok (dw_native w') a s' -> world_ok w'.
Proof.
  intros [Hok Horph] Hs Hs' Ht Hok'. pose proof Ht as [[Hq Hqs] Hnow Hkept _]. split.
  - rewrite Hs'. intros a' s0 Ha'. apply lookup_insert_Some in Ha' as [[<- <-]|[Hne Ha']]; [done|].
    pose proof (Hok a' s0 Ha') as Hso. eapply state_ok_view; [exact Hso|]. intros j qj ch Hj Hch.
    destruct (so_slots _ _ _ Hso j qj Hj) as [_ _ _ Hrest]. destruct (q_active qj); [|congruence].
    destruct Hrest as (ch' & cv & Hch' & Hcv & Hctx & _). assert (ch' = ch) as -> by congruence. rewrite Hcv.
    apply Hkept; [done|]. intros E.
    pose proof (rest_context _ _ _ _ _ _ (so_slots _ _ _ (Hok a s Hs) i q Hq) E Hcv). congruence.
  - intros ch cv Hcv. destruct (Hnow ch cv Hcv) as [[Hold Hne]|[Hch Hctx]].
    + destruct (Horph ch cv Hold) as (s0 & q0 & Hs0 & Hq0 & Hch0). rewrite Hs'.
      destruct (decide (sc_state (cv_context cv) = a)) as [<-|Hna].
      * assert (s0 = s) as -> by congruence. exists s', q0. rewrite lookup_insert_eq. split; [done|].
        rewrite Hqs, list_lookup_insert_ne; [done|]. intros ->. congruence.
      * exists s0, q0. by rewrite lookup_insert_ne.
    + exists s', q'. rewrite Hctx. simpl. rewrite Hs', lookup_insert_eq. split; [done|]. split; [|done].
      by eapply touched_slot.
Qed.

(** Only the library and the state at [a] changed. *)
Definition beside w w' (a : nat) s' : Prop := same_rest (set_native w (dw_native w')) w' a s'.

Lemma beside_trans w1 w2 w3 a s2 s3 : beside w1 w2 a s2 -> beside w2 w3 a s3 -> beside w1 w3 a s3.
Proof.
  intros [_ H2 H3 H4 H5] [_ G2 G3 G4 G5]. simpl in *. split; simpl; try congruence.
  by rewrite G2, H2, insert_insert_eq.
Qed.

Lemma beside_rest w w' n a s' : same_rest (set_native w n) w' a s' -> beside w w' a s'.
Proof. intros [H1 H2 H3 H4 H5]. by split. Qed.

Lemma beside_set w a s : beside w (set_state w a s) a s.
Proof. by split. Qed.

Lemma beside_state w w' a s' : beside w w' a s' -> dw_states w' !! a = Some s'.
Proof. intros [_ -> _ _ _]. apply lookup_insert_eq. Qed.

(** ** Retiring a channel *)
Lemma table_drop s s' views views' i cv :
  table_ok s (view_at views i cv) -> cv_sockets cv = ∅ ->
  st_sockets s' = st_sockets s -> st_socket_count s' = st_socket_count s ->
  (forall j, j <> i -> slot_failed s j -> slot_failed s' j) ->
  views' i = None -> (forall j, j <> i -> views' j = views j) -> table_ok s' views'.
Proof.
  intros [H1 H2 H3 H4 H5] Hcv E1 E2 Hf Hi Hj.
  assert (Et : table s' = table s) by (unfold table; by rewrite E1, E2).
  split; rewrite ?Et, ?E1, ?E2; try done.
  - eapply list.Forall_impl; [exact H4|]. intros k (j & c & Hk & Hv & Hd). destruct (decide (j = i)) as [->|Hne].
    + rewrite view_at_eq in Hv. injection Hv as <-. by rewrite Hcv, lookup_empty in Hd.
    + rewrite view_at_ne in Hv by done. exists j, c. by rewrite Hj.
  - intros j c d r wr Hv Hn Hd. destruct (decide (j = i)) as [->|Hne]; [congruence|]. rewrite Hj in Hv by done.
    eapply H5; [by rewrite view_at_ne| |done]. intros G. by apply Hn, Hf.
Qed.

Lemma slot_failed_other s s' i q j :
  st_queries s' = <[i := q]> (st_queries s) -> j <> i -> slot_failed s j -> slot_failed s' j.
Proof. intros Hs Hne (qj & Hj & Hf). exists qj. rewrite Hs. by rewrite list_lookup_insert_ne. Qed.

Lemma finish_query_rest n a j q :
  q_active q = true -> q_owner q = Some a -> length (q_completed_addresses q) = maximum_address_capacity ->
  slot_rest n a j (finish_query q).
Proof. intros Ha Ho Hl. unfold finish_query. rewrite Ha. by split. Qed.

Lemma retire_run w a s i q :
  dw_states w !! a = Some s -> busy (dw_native w) a s i q -> q_native_done q = true ->
  exists s' q' w', retire_channel lib w a i = Ret w' /\ beside w w' a s' /\ state_ok (dw_native w') a s' /\
    touched (dw_native w) (dw_native w') a i s s' q q' /\ same_frame s s' /\
    active_tokens s ≡ₚ token_value (q_token q) :: active_tokens s'.
Proof.
  intros Hs [Hsh Hq Hothers (Hown & Hlen & Hact) (ch & cv & Hch & Hcv & Hctx & Hpend) _ Ht [Hout Hmax]] Hdone.
  rewrite Hdone in *. pose proof Hsh as [Hsl [Hl1 Hl2] Hso Hsv].
  destruct (law_ares_destroy (dw_native w) ch cv Hcv) as (cbs & n' & Hf & Hacts).
  destruct (call_flight (ares_destroy lib ch) w a s i q ch cv cv cbs n' None Hf Hacts Hs Hq Hch Hcv Hctx
    (conj eq_refl eq_refl) (rest_foreign _ _ _ _ Hothers) Hlen Hl2 Ht) as (s1 & w1 & cv1 & E & Hrest & Hfl & Hp1 & Hsk1).
  destruct Hacts as (_ & Hview & Hsame & _).
  pose proof Hfl as [Hframe [Hc1 _] (q0 & q1 & Hq0 & Hqs & Hslot & Hd & _) Hout1 Ht1].
  assert (q0 = q) as -> by congruence. rewrite Hpend in Hout1. simpl in Hout1.
  assert (Hi1 : st_queries s1 !! i = Some q1) by (rewrite Hqs; apply list_lookup_insert_eq; by eapply lookup_lt_Some).
  pose proof (beside_rest _ _ _ _ _ Hrest) as Hb1. pose proof (beside_state _ _ _ _ Hb1) as Hs1.
  exists (set_query s1 i (finish_query q1)), (finish_query q1), (set_state w1 a (set_query s1 i (finish_query q1))).
  unfold retire_channel, the_state, the_query. rewrite Hs. cbn [mbind outcome_bind]. rewrite Hq. cbn [mbind outcome_bind].
  rewrite Hch, E. cbn [mbind outcome_bind]. rewrite Hs1. cbn [mbind outcome_bind]. rewrite Hi1. cbn [mbind outcome_bind].
  destruct Hslot as [S1 S2 S3 S4 S5 S6].
  assert (En : dw_native w1 = n') by apply Hrest.
  pose proof (other_channel _ _ _ _ _ _ Hcv Hctx Hothers) as Hne.
  assert (Ha1 : q_active (finish_query q1) = false) by (unfold finish_query; by rewrite S4, Hact).
  assert (Hq1c : q_channel (finish_query q1) = None) by (unfold finish_query; by rewrite S4, Hact).
  assert (Hqs' : st_queries (set_query s1 i (finish_query q1)) = <[i := finish_query q1]> (st_queries s))
    by (simpl; by rewrite Hqs, list_insert_insert_eq).
  assert (Htok : active_tokens s ≡ₚ token_value (q_token q) :: active_tokens (set_query s1 i (finish_query q1)))
    by (by eapply active_tokens_finish).
  split; [done|]. split; [eapply beside_trans; [exact Hb1|apply beside_set]|]. simpl dw_native. rewrite En.
  split; [|split; [|split; [eapply same_frame_trans; [exact Hframe|by split]|done]]].
  - destruct Hframe as [F1 F2 F3 F4 F5 F6 F7 F8]. split.
    + split; simpl; rewrite ?F2, ?F5, ?F7, ?F8; [|done..]. by rewrite Hqs, !length_insert.
    + intros j qj Hj. rewrite Hqs' in Hj. destruct (decide (j = i)) as [->|Hji].
      * rewrite list_lookup_insert_eq in Hj by (by eapply lookup_lt_Some). injection Hj as <-.
        apply finish_query_rest; congruence.
      * rewrite list_lookup_insert_ne in Hj by done. eapply slot_rest_view; [by apply Hothers|].
        intros c Hc. apply Hsame. by eapply Hne.
    + apply (table_drop s1 _ (views_of (dw_native w) s) _ i cv1 Ht1 Hsk1); [done|done| | |].
      * intros j Hj. eapply slot_failed_other; [done|done].
      * unfold views_of. rewrite Hqs', list_lookup_insert_eq by (by eapply lookup_lt_Some). simpl. by rewrite Hq1c.
      * intros j Hj. unfold views_of. rewrite Hqs', list_lookup_insert_ne by done.
        destruct (st_queries s !! j) as [qj|] eqn:Hqj; [|done]. simpl. destruct (q_channel qj) as [c|] eqn:Hc; [|done].
        simpl. apply Hsame. by eapply Hne.
    + simpl. apply Permutation_length in Htok. simpl in Htok. rewrite Hout1, F2. lia.
  - apply (touched_called _ _ a i s _ q _ ch); [done..| |].
    + by left.
    + by rewrite Hview.
Qed.

(** ** Settling a query *)

(** A completion has an error and no addresses, or between one and [limit] addresses. *)
Definition result_ok (limit : Z) (r : DnsQueryResult) : Prop :=
  match qr_error r with
  | None => 1 <= Z.of_nat (length (qr_addresses r)) <= limit
  | Some _ => qr_addresses r = []
  end.
Definition result_token (r : DnsQueryResult) : Z := token_value (qr_token r).

(** An operation on the slot [i] of the state at [a] that made the completions [results], the
    last one first. *)
Record progress w w' (a i : nat) s s' q q' (results : list DnsQueryResult) : Prop := {
  pg_states : dw_states w' = <[a := s']> (dw_states w);
  pg_outside : dw_lifecycles w' = dw_lifecycles w /\ dw_process w' = dw_process w;
  pg_completions : dw_completions w' = map (fun r => (a, st_sink s, r)) results ++ dw_completions w;
  pg_touched : touched (dw_native w) (dw_native w') a i s s' q q';
  pg_frame : same_frame s s';
  pg_results : Forall (result_ok (rl_maximum_result_addresses (st_limits s))) results }.

Lemma progress_trans w1 w2 w3 a i s1 s2 s3 q1 q2 q3 r1 r2 :
  progress w1 w2 a i s1 s2 q1 q2 r1 -> progress w2 w3 a i s2 s3 q2 q3 r2 ->
  progress w1 w3 a i s1 s3 q1 q3 (r2 ++ r1).
Proof.
  intros [A1 [A2 A3] A4 A5 A6 A7] [B1 [B2 B3] B4 B5 B6 B7]. pose proof A6 as [_ F2 F3 _ _ _ _ _]. split.
  - by rewrite B1, A1, insert_insert_eq.
  - split; congruence.
  - rewrite B4, A4, F3, map_app. by rewrite app_assoc.
  - by eapply touched_trans.
  - by eapply same_frame_trans.
  - apply Forall_app. rewrite F2 in B7. done.
Qed.

Lemma progress_beside w w' a i s s' q q' :
  beside w w' a s' -> touched (dw_native w) (dw_native w') a i s s' q q' -> same_frame s s' ->
  progress w w' a i s s' q q' [].
Proof. intros [_ H2 H3 H4 H5] Ht Hf. split; try done. Qed.

Lemma progress_complete w a i s q r sink :
  dw_states w !! a = Some s -> st_queries s !! i = Some q -> sink = st_sink s ->
  (forall ch cv, q_channel q = Some ch -> view (dw_native w) ch = Some cv -> cv_context cv = MkSlotContext a i) ->
  result_ok (rl_maximum_result_addresses (st_limits s)) r ->
  progress w (complete w a sink r) a i s s q q [r].
Proof.
  intros Hs Hq -> Hctx Hr. split; simpl; try done.
  - by rewrite insert_id.
  - apply touched_fields; [done| |done|done]. by rewrite list_insert_id.
  - by constructor.
Qed.

Lemma busy_context n a s i q : busy n a s i q ->
  forall ch cv, q_channel q = Some ch -> view n ch = Some cv -> cv_context cv = MkSlotContext a i.
Proof. intros [_ _ _ _ (ch' & cv' & H1 & H2 & H3 & _) _ _ _] ch cv Hch Hcv. congruence. Qed.

(** The query of the slot ended with the completion [r] and its channel is gone. *)
Record closed w w' (a i : nat) s q (r : DnsQueryResult) : Prop := {
  cd_run : exists s' q', progress w w' a i s s' q q' [r] /\ state_ok (dw_native w') a s' /\
    active_tokens s ≡ₚ result_token r :: active_tokens s' }.

Lemma closed_after w1 w2 w3 a i s1 s2 q1 q2 r :
  progress w1 w2 a i s1 s2 q1 q2 [] -> active_tokens s2 = active_tokens s1 ->
  closed w2 w3 a i s2 q2 r -> closed w1 w3 a i s1 q1 r.
Proof.
  intros Hp Ht [(s' & q' & Hp' & Hok & Htok)]. split. exists s', q'.
  split; [by apply (progress_trans _ _ _ _ _ _ _ _ _ _ _ _ _ Hp Hp')|]. by rewrite <- Ht.
Qed.

Lemma retire_completes w a s i q r :
  dw_states w !! a = Some s -> busy (dw_native w) a s i q -> q_native_done q = true ->
  qr_token r = q_token q -> result_ok (rl_maximum_result_addresses (st_limits s)) r ->
  exists w1, retire_channel lib w a i = Ret w1 /\ closed w (complete w1 a (st_sink s) r) a i s q r.
Proof.
  intros Hs Hb Hd Hr Hok. destruct (retire_run w a s i q Hs Hb Hd) as (s' & q' & w1 & E & Hbs & Hso & Ht & Hf & Htok).
  exists w1. split; [done|]. split. exists s', q'. split; [|split; [done|by unfold result_token; rewrite Hr]].
  pose proof (touched_slot _ _ _ _ _ _ _ _ Ht) as Hq'.
  apply (progress_trans w w1 _ a i s s' s' q q' q' [] [r]); [by apply progress_beside|].
  apply progress_complete; [by eapply beside_state|done|by rewrite (sf_sink _ _ Hf)| |by rewrite (sf_limits _ _ Hf)].
  intros ch cv. apply rest_context. by eapply so_slots.
Qed.

Lemma dispatch_run w a s i q :
  dw_states w !! a = Some s -> busy (dw_native w) a s i q -> q_native_done q = true -> q_canceling q = false ->
  exists r w', dispatch_completion lib w a i = Ret w' /\ closed w w' a i s q r /\ qr_token r = q_token q.
Proof.
  intros Hs Hb Hd Hc. pose proof Hb as [_ Hq _ (_ & Hlen & _) _ Hcomp _ _]. specialize (Hcomp Hd Hc).
  set (r := MkDnsQueryResult (q_token q) (take (Z.to_nat (q_completed_address_count q)) (q_completed_addresses q))
              (if q_completed_with_error q then Some (q_completed_error q) else None)).
  destruct (retire_completes w a s i q r Hs Hb Hd eq_refl) as (w1 & E & Hcl).
  - unfold completed_ok in Hcomp. unfold result_ok. simpl. destruct (q_completed_with_error q); [by rewrite Hcomp|].
    rewrite length_take, Hlen. destruct (sh_limits _ (bz_shape _ _ _ _ _ Hb)). lia.
  - exists r, (complete w1 a (st_sink s) r). split; [|done].
    unfold dispatch_completion, the_state, the_query. rewrite Hs. cbn [mbind outcome_bind]. rewrite Hq.
    cbn [mbind outcome_bind]. rewrite E. done.
Qed.

(** Cancelling the query of a slot, from its state with the cancelling flag set. *)
Lemma cancel_run w a s i q ch :
  dw_states w !! a = Some s -> busy (dw_native w) a s i q -> q_native_done q = false -> q_channel q = Some ch ->
  let s1 := set_query s i (set_canceling q true) in
  exists s' q' w', call lib (ares_cancel lib ch) (set_state w a s1) = Ret w' /\ dw_states w' !! a = Some s' /\
    progress w w' a i s s' q q' [] /\ busy (dw_native w') a s' i q' /\ q_native_done q' = true /\
    q_token q' = q_token q /\ active_tokens s' = active_tokens s.
Proof.
  intros Hs Hb Hd Hch s1.
  pose proof Hb as [Hsh Hq Hothers (Hown & Hlen & Hact) (ch' & cv & Hch' & Hcv & Hctx & Hpend) _ Ht [Hout Hmax]].
  assert (ch' = ch) as -> by congruence. rewrite Hd in *. set (q1 := set_canceling q true).
  assert (Hq1 : st_queries s1 !! i = Some q1) by (apply list_lookup_insert_eq; by eapply lookup_lt_Some).
  assert (Ht1 : touched (dw_native w) (dw_native w) a i s s1 q q1)
    by (apply touched_fields; [done|done|done|by eapply busy_context]).
  destruct (law_ares_cancel (dw_native w) ch cv Hcv) as (cbs & n' & cv' & Hf & Hacts & Hp').
  assert (Htok1 : active_tokens s1 = active_tokens s) by (by eapply active_tokens_insert).
  destruct (call_busy (ares_cancel lib ch) (set_state w a s1) a s1 i q1 ch cv cv cbs n' cv' Hf Hacts)
    as (s' & q' & w' & E & Hrest & Hb' & Hslot & Hframe & Hqs & Hsame & Hv'); try done.
  - apply lookup_insert_eq.
  - destruct Hsh as [G1 G2 G3 G4]. split; try done. by rewrite <- G1; simpl; rewrite length_insert.
  - simpl. by rewrite Hd.
  - intros j qj Hj Hqj. simpl in Hqj. rewrite list_lookup_insert_ne in Hqj by done. by apply Hothers.
  - apply (table_ok_queries s); [done|done| |].
    + intros j (qj & Hj & Hfj). unfold slot_failed. simpl. destruct (decide (j = i)) as [->|].
      * exists q1. rewrite list_lookup_insert_eq by (by eapply lookup_lt_Some). split; [done|]. simpl. congruence.
      * exists qj. by rewrite list_lookup_insert_ne.
    + eapply table_ok_views; [|exact Ht]. intros j. rewrite <- (views_at (dw_native w) s i q ch cv j) by done.
      by apply (views_after (dw_native w) (dw_native w) s s1 i q q1 ch cv).
  - rewrite Htok1. simpl. lia.
  - pose proof (beside_rest _ _ _ _ _ Hrest) as Hbs. exists s', q', w'. split; [done|]. split; [by eapply beside_state|].
    assert (En : dw_native w' = n') by apply Hrest.
    split; [|split; [done|split; [|split; [by rewrite (ss_token _ _ Hslot)|]]]].
    + apply (progress_trans w (set_state w a s1) w' a i s s1 s' q q1 q' [] []);
        apply progress_beside; [apply beside_set|done|by split|done| |done].
      apply (touched_called _ _ a i s1 s' q1 q' ch); [done..| | |].
      * rewrite En. done.
      * right. by rewrite (ss_channel _ _ Hslot).
      * rewrite En, Hv'. split; [by rewrite (ss_channel _ _ Hslot)|]. eapply (busy_context _ _ _ _ _ Hb').
        -- by rewrite (ss_channel _ _ Hslot).
        -- by rewrite En.
    + destruct Hb' as [_ _ _ _ (c & cv2 & H1 & H2 & _ & H4) _ _ _]. rewrite (ss_channel _ _ Hslot) in H1.
      simpl in H1. assert (c = ch) as -> by congruence. rewrite En, Hv' in H2. injection H2 as <-. rewrite Hp' in H4.
      by destruct (q_native_done q').
    + rewrite <- Htok1. eapply active_tokens_insert; [done|done|apply Hslot|apply Hslot].
Qed.

Lemma fail_run w a s i q :
  dw_states w !! a = Some s -> busy (dw_native w) a s i q -> q_native_done q = false ->
  exists w', fail_socket_capacity lib w a i = Ret w' /\
    closed w w' a i s q (MkDnsQueryResult (q_token q) [] (Some dns_socket_error)).
Proof.
  intros Hs Hb Hd. pose proof Hb as [_ Hq _ _ (ch & cv & Hch & _) _ _ _].
  destruct (cancel_run w a s i q ch Hs Hb Hd Hch) as (s' & q' & w1 & E & Hs' & Hp & Hb' & Hd' & Htk & Htok).
  destruct (retire_completes w1 a s' i q' (MkDnsQueryResult (q_token q) [] (Some dns_socket_error)) Hs' Hb' Hd')
    as (w2 & E2 & Hcl); [by rewrite Htk|done|].
  exists (complete w2 a (st_sink s) (MkDnsQueryResult (q_token q) [] (Some dns_socket_error))). split.
  - unfold fail_socket_capacity, the_state, the_query. rewrite Hs. cbn [mbind outcome_bind]. rewrite Hq.
    cbn [mbind outcome_bind]. rewrite Hch, E. cbn [mbind outcome_bind]. by rewrite E2.
  - rewrite (sf_sink _ _ (pg_frame _ _ _ _ _ _ _ _ _ Hp)) in Hcl. by eapply closed_after.
Qed.

Lemma busy_rest n a s i q :
  busy n a s i q -> q_native_done q = false -> q_socket_capacity_failed q = false -> q_canceling q = false ->
  state_ok n a s.
Proof.
  intros [Hsh Hq Hothers (Hown & Hlen & Hact) (ch & cv & Hch & Hcv & Hctx & Hpend) _ Ht [Hout Hmax]] Hd Hf Hc.
  rewrite Hd in *. split; [done| |done|split; lia]. intros j qj Hj. destruct (decide (j = i)) as [->|]; [|by apply Hothers].
  assert (qj = q) as -> by congruence. split; try done. rewrite Hact. exists ch, cv. done.
Qed.

(** What follows a call: the query ends with one completion, or the resolver is at rest. *)
Lemma settle_run w a s i q :
  dw_states w !! a = Some s -> busy (dw_native w) a s i q -> q_canceling q = false ->
  (exists r w', settle lib w a i = Ret (true, w') /\ closed w w' a i s q r /\ qr_token r = q_token q) \/
  settle lib w a i = Ret (false, w) /\ state_ok (dw_native w) a s.
Proof.
  intros Hs Hb Hc. pose proof Hb as [_ Hq _ _ _ _ _ _]. unfold settle, the_state, the_query. rewrite Hs.
  cbn [mbind outcome_bind]. rewrite Hq. cbn [mbind outcome_bind]. destruct (q_native_done q) eqn:Hd.
  - left. destruct (dispatch_run w a s i q Hs Hb Hd Hc) as (r & w' & -> & Hcl & Hr). by exists r, w'.
  - destruct (q_socket_capacity_failed q) eqn:Hf; [left|right; split; [done|by eapply busy_rest]].
    destruct (fail_run w a s i q Hs Hb Hd) as (w' & -> & Hcl). by eexists _, w'.
Qed.

(** ** Operations on one slot *)

(** An operation of the resolver at [a]: [opened] are the tokens it opened a query for. *)
Record ran w w' (a : nat) s s' (opened : list Z) (results : list DnsQueryResult) : Prop := {
  rn_ok : world_ok w';
  rn_states : dw_states w' = <[a := s']> (dw_states w);
  rn_outside : dw_lifecycles w' = dw_lifecycles w /\ dw_process w' = dw_process w;
  rn_completions : dw_completions w' = map (fun r => (a, st_sink s, r)) results ++ dw_completions w;
  rn_frame : st_lifecycle s' = st_lifecycle s /\ st_limits s' = st_limits s /\ st_sink s' = st_sink s;
  rn_results : Forall (result_ok (rl_maximum_result_addresses (st_limits s))) results;
  rn_tokens : opened ++ active_tokens s ≡ₚ map result_token results ++ active_tokens s' }.

Lemma ran_none w a s : world_ok w -> dw_states w !! a = Some s -> ran w w a s s [] [].
Proof. intros Hok Hs. split; try done. by rewrite insert_id. Qed.

Lemma ran_trans w1 w2 w3 a s1 s2 s3 o1 o2 r1 r2 :
  ran w1 w2 a s1 s2 o1 r1 -> ran w2 w3 a s2 s3 o2 r2 -> ran w1 w3 a s1 s3 (o2 ++ o1) (r2 ++ r1).
Proof.
  intros [A1 A2 [A3 A4] A5 (A6 & A7 & A8) A9 A10] [B1 B2 [B3 B4] B5 (B6 & B7 & B8) B9 B10]. split.
  - done.
  - by rewrite B2, A2, insert_insert_eq.
  - split; congruence.
  - rewrite B5, A5, A8, map_app. by rewrite app_assoc.
  - split; [congruence|]. split; congruence.
  - apply Forall_app. rewrite A7 in B9. done.
  - rewrite <- app_assoc, A10, map_app, (Permutation_app_comm (map _ r2)), <- app_assoc, <- B10. solve_Permutation.
Qed.

Lemma ran_progress w w' a i s s' q q' opened results :
  world_ok w -> dw_states w !! a = Some s -> progress w w' a i s s' q q' results -> state_ok (dw_native w') a s' ->
  opened ++ active_tokens s ≡ₚ map result_token results ++ active_tokens s' -> ran w w' a s s' opened results.
Proof.
  intros Hok Hs [H1 H2 H3 H4 H5 H6] Hso Htok. split; try done; [by eapply world_touched|].
  split; [apply H5|]. split; apply H5.
Qed.

Lemma rest_busy n a s i q :
  state_ok n a s -> st_queries s !! i = Some q -> q_active q = true -> busy n a s i q.
Proof.
  intros [H1 H2 H3 [H4 H5]] Hq Ha. destruct (H2 i q Hq) as [R1 R2 (R3 & R4 & R5) R6]. rewrite Ha in R6.
  destruct R6 as (ch & cv & Hch & Hcv & Hctx & Hp). split; try done.
  - intros j q' _. apply H2.
  - exists ch, cv. by rewrite R3.
  - rewrite R3. congruence.
  - rewrite R3. split; [lia|done].
Qed.

(** A call that processes the query of an active slot, and what follows it. *)
Lemma process_run w a s i q ch readable writable :
  world_ok w -> dw_states w !! a = Some s -> st_queries s !! i = Some q -> q_active q = true -> q_channel q = Some ch ->
  exists w1 ended w' s' results, call lib (ares_process_fd lib ch readable writable) w = Ret w1 /\
    settle lib w1 a i = Ret (ended, w') /\ ran w w' a s s' [] results /\ st_next_token s' = st_next_token s /\
    length results = (if ended : bool then 1%nat else 0%nat).
Proof.
  intros Hok Hs Hq Ha Hch. pose proof (proj1 Hok a s Hs) as Hso.
  pose proof (rest_busy _ _ _ _ _ Hso Hq Ha) as Hb. destruct (so_slots _ _ _ Hso i q Hq) as [_ _ (Hd & Hc & _) _].
  pose proof Hb as [Hsh _ Hothers (Hown & Hlen & Hact) (ch' & cv & Hch' & Hcv & Hctx & Hpend) _ Ht [Hout Hmax]].
  assert (ch' = ch) as -> by congruence.
  destruct (law_ares_process (dw_native w) ch cv readable writable Hcv) as (cbs & n' & cv' & Hf & Hacts).
  destruct (call_busy (ares_process_fd lib ch readable writable) w a s i q ch cv cv cbs n' cv' Hf Hacts)
    as (s1 & q1 & w1 & E & Hrest & Hb1 & Hslot & Hframe & Hqs & Hsame & Hv'); try done; [rewrite Hd in Hout; lia|].
  pose proof (beside_rest _ _ _ _ _ Hrest) as Hbs. assert (En : dw_native w1 = n') by apply Hrest.
  assert (Hp1 : progress w w1 a i s s1 q q1 []).
  { apply progress_beside; [done| |done]. apply (touched_called _ _ a i s s1 q q1 ch); [done..|by rewrite En| |].
    - right. by rewrite (ss_channel _ _ Hslot).
    - rewrite En, Hv'. split; [by rewrite (ss_channel _ _ Hslot)|]. eapply (busy_context _ _ _ _ _ Hb1).
      + by rewrite (ss_channel _ _ Hslot).
      + by rewrite En. }
  assert (Htok : active_tokens s1 = active_tokens s) by (eapply active_tokens_insert; [done|done|apply Hslot|apply Hslot]).
  exists w1. destruct (settle_run w1 a s1 i q1) as [(r & w' & Es & Hcl & Hr)|[Es Hso1]];
    [by eapply beside_state|done|by rewrite (ss_canceling _ _ Hslot)| |].
  - pose proof (closed_after _ _ _ _ _ _ _ _ _ _ Hp1 Htok Hcl) as [(s' & q' & Hp & Hok' & Htk)].
    exists true, w', s', [r]. split; [done|]. split; [done|]. split; [by eapply ran_progress|].
    split; [apply Hp|done].
  - exists false, w1, s1, []. split; [done|]. split; [done|]. split; [|split; [apply Hp1|done]].
    eapply ran_progress; [done|done|done|done|]. by rewrite Htok.
Qed.
End resolvers.
