(* ===== verification/DnsOperations.v ===== *)
(** * The operations of a resolver

    Each operation of a resolver on a world that satisfies the invariant: it returns, the
    invariant holds again, and the queries it opened and the completions it made account for the
    change of the active ones. *)
From S2P Require Import Prelude Contract CheckedArithmetic Views Dependencies DependencyLifecycle Dns DnsSpec DnsQueries.
From Stdlib Require Import ZArith Lia String Ascii.
From stdpp Require Import base numbers list gmap option.

Set Default Goal Selector "!".
#[local] Open Scope Z_scope.

Section operations.
Context {N CH R L : Type} `{EqDecision CH} {lib : Ares N CH R} {laws : AresLaws lib}.
Abbreviation Slot := (QuerySlot (CH:=CH)).
Abbreviation Resolver := (State (CH:=CH) (L:=L)).
Abbreviation World := (DnsWorld (N:=N) (CH:=CH) (R:=R) (L:=L)).
Abbreviation work := (nat * Z * (option Z * option Z))%type.
Implicit Types (n : N) (s : Resolver) (w : World) (q : Slot).

Lemma the_state_ret w a s : dw_states w !! a = Some s -> the_state w a = Ret s.
Proof. unfold the_state. by intros ->. Qed.

(** ** Processing sockets and timeouts *)
Lemma process_work_run a items : forall w s,
  world_ok w -> dw_states w !! a = Some s ->
  Forall (fun item : work => (item.1.1 < maximum_query_capacity)%nat) items ->
  exists w' s' results, process_work lib a items w = Ret w' /\ ran w w' a s s' [] results /\
    st_next_token s' = st_next_token s /\ (length results <= 1)%nat.
Proof.
  induction items as [|[[i token] [readable writable]] items IH]; intros w s Hok Hs Hin; cbn [process_work].
  { exists w, s, []. split; [done|]. split; [by apply ran_none|]. split; [done|simpl; lia]. }
  apply list.Forall_cons in Hin as [Hi Hin]. simpl in Hi. unfold the_state at 1, the_query at 1. rewrite Hs.
  cbn [mbind outcome_bind]. pose proof (proj1 Hok a s Hs) as Hso.
  destruct (lookup_lt_is_Some_2 (st_queries s) i) as [q Hq]; [by rewrite (sh_queries _ (so_shape _ _ _ Hso))|].
  rewrite Hq. cbn [mbind outcome_bind]. destruct (q_active q) eqn:Ha; [|by apply IH].
  destruct (q_channel q) as [ch|] eqn:Hch; [|by apply IH]. destruct (token_value (q_token q) =? token); [|by apply IH].
  simpl negb. cbv iota.
  destruct (process_run w a s i q ch readable writable Hok Hs Hq Ha Hch)
    as (w1 & ended & w2 & s2 & res & -> & E & Hran & Hnext & Hlen).
  cbn [mbind outcome_bind]. rewrite E. cbn [mbind outcome_bind]. destruct ended.
  - exists w2, s2, res. split; [done|]. split; [done|]. split; [done|lia].
  - destruct res; [|done]. destruct (IH w2 s2) as (w3 & s3 & res & E3 & Hran3 & Hnext3 & Hlen3); [apply Hran| |done|].
    + rewrite (rn_states _ _ _ _ _ _ _ Hran). apply lookup_insert_eq.
    + exists w3, s3, res. split; [done|].
      split; [|split; [congruence|done]]. rewrite <- (app_nil_r res). by eapply (ran_trans _ _ _ _ _ _ _ [] []).
Qed.

(** A registered socket belongs to an active slot with a channel. *)
Lemma table_slot n a s k :
  state_ok n a s -> k ∈ table s ->
  exists i q ch, ks_query k = Some i /\ st_queries s !! i = Some q /\ q_active q = true /\ q_channel q = Some ch.
Proof.
  intros [H1 H2 [_ _ _ Hsound _] _] Hk. rewrite list.Forall_forall in Hsound.
  destruct (Hsound k Hk) as (i & cv & Hi & Hv & _). unfold views_of in Hv.
  destruct (st_queries s !! i) as [q|] eqn:Hq; [|done]. simpl in Hv. destruct (q_channel q) as [ch|] eqn:Hch; [|done].
  exists i, q, ch. split; [done|]. split; [done|]. destruct (H2 i q Hq) as [_ _ _ Hr]. destruct (q_active q); [done|congruence].
Qed.

Lemma event_work_run n a s events :
  state_ok n a s ->
  exists r, event_work s events = Ret r /\
    match r with Err _ => True | Ok items => Forall (fun item : work => (item.1.1 < maximum_query_capacity)%nat) items end.
Proof.
  intros Hso. induction events as [|event events (r & IH & Hr)]; cbn [event_work]; [eexists; split; [done|constructor]|].
  destruct (_ || _); [by eexists|]. fold (table s).
  pose proof (table_member s (fun _ => None) (se_descriptor event)) as Hfind.
  destruct (list_find _ (table s)) as [[index k]|]; [|by eexists]. destruct Hfind as [Hk _].
  destruct (table_slot n a s k Hso) as (i & q & ch & Hi & Hq & Ha & Hch); [by eapply list_elem_of_lookup_2|].
  rewrite Hi. unfold the_query. rewrite Hq. cbn [mbind outcome_bind]. rewrite Ha, Hch. simpl. rewrite IH.
  destruct r as [items|e]; simpl; eexists; (split; [done|]); [|done]. constructor; [|done]. simpl.
  rewrite <- (sh_queries _ (so_shape _ _ _ Hso)). by eapply lookup_lt_Some.
Qed.

Lemma timeout_work_range (queries : list Slot) : forall k,
  Forall (fun item : work => (item.1.1 < k + length queries)%nat) (timeout_work k queries).
Proof.
  induction queries as [|q queries IH]; intros k; cbn [timeout_work]; [constructor|].
  assert (Forall (fun item : work => (item.1.1 < k + length (q :: queries))%nat) (timeout_work (S k) queries)) as Hrest.
  { eapply list.Forall_impl; [apply IH|]. simpl. intros x. lia. }
  destruct (q_active q), (q_channel q); try done. constructor; [simpl; lia|done].
Qed.

Lemma process_events_run w a s events :
  world_ok w -> dw_states w !! a = Some s ->
  exists r w' s' results, DnsResolver_process_events lib (MkDnsResolver (Some a)) w events = Ret (r, w') /\
    ran w w' a s s' [] results /\ st_next_token s' = st_next_token s /\ (length results <= 1)%nat /\
    match r with Err _ => w' = w | Ok _ => True end.
Proof.
  intros Hok Hs. unfold DnsResolver_process_events, the_state. cbn [dr_state]. rewrite Hs. cbn [mbind outcome_bind].
  assert (Hnone : ran w w a s s [] []) by (by apply ran_none).
  destruct (_ <? _)%nat; [exists (Err dns_events_error), w, s, []; split; [done|split; [done|split; [done|split; [simpl; lia|done]]]]|].
  destruct (event_work_run (dw_native w) a s events (proj1 Hok a s Hs)) as (r & -> & Hr). cbn [mbind outcome_bind].
  destruct r as [items|e]; [|exists (Err e), w, s, []; split; [done|split; [done|split; [done|split; [simpl; lia|done]]]]].
  destruct (process_work_run a items w s Hok Hs Hr) as (w' & s' & res & E & Hran & Hnext & Hlen).
  cbn [mbind outcome_bind]. rewrite E. exists (Ok tt), w', s', res. done.
Qed.

Lemma process_timeout_run w a s :
  world_ok w -> dw_states w !! a = Some s ->
  exists w' s' results, DnsResolver_process_timeout lib (MkDnsResolver (Some a)) w = Ret (Ok tt, w') /\
    ran w w' a s s' [] results /\ st_next_token s' = st_next_token s /\ (length results <= 1)%nat.
Proof.
  intros Hok Hs. unfold DnsResolver_process_timeout, the_state. cbn [dr_state]. rewrite Hs. cbn [mbind outcome_bind].
  destruct (process_work_run a (timeout_work 0 (st_queries s)) w s Hok Hs) as (w' & s' & res & E & Hran & Hnext & Hlen).
  { eapply list.Forall_impl; [apply timeout_work_range|]. intros x.
    rewrite (sh_queries _ (so_shape _ _ _ (proj1 Hok a s Hs))). simpl. lia. }
  rewrite E. by exists w', s', res.
Qed.

(** ** Cancelling *)
Lemma cancel_operation_run w a s token :
  world_ok w -> dw_states w !! a = Some s ->
  exists r w' s' results, DnsResolver_cancel lib (MkDnsResolver (Some a)) w token = Ret (r, w') /\
    ran w w' a s s' [] results /\ st_next_token s' = st_next_token s /\
    match r with
    | Ok _ => results = [MkDnsQueryResult token [] (Some dns_canceled_error)]
    | Err e => w' = w /\ results = [] /\ e = dns_token_inactive_error /\
        (token_value token = 0 \/ token_value token ∉ active_tokens s)
    end.
Proof.
  intros Hok Hs. pose proof (proj1 Hok a s Hs) as Hso. unfold DnsResolver_cancel, the_state. cbn [dr_state]. rewrite Hs.
  cbn [mbind outcome_bind]. unfold find_query, DnsQueryToken_valid.
  destruct (Z.eqb_spec (token_value token) 0) as [E0|E0]; simpl.
  { exists (Err dns_token_inactive_error), w, s, []. split; [done|]. split; [by apply ran_none|]. split; [done|].
    split; [done|]. split; [done|]. split; [done|by left]. }
  destruct (list_find _ (st_queries s)) as [[i q]|] eqn:Hfind.
  - apply list_find_Some in Hfind as (Hq & (Ha & Hd & Htk) & _).
    pose proof (rest_busy _ _ _ _ _ Hso Hq Ha) as Hb. destruct (so_slots _ _ _ Hso i q Hq) as [_ _ (_ & Hc & _) _].
    rewrite Hc. pose proof Hb as [_ _ _ _ (ch & cv & Hch & _) _ _ _]. rewrite Hch.
    destruct (cancel_run w a s i q ch Hs Hb Hd Hch) as (s1 & q1 & w1 & E & Hs1 & Hp & Hb1 & Hd1 & Htk1 & Htok).
    rewrite E. cbn [mbind outcome_bind]. rewrite Hs1. cbn [mbind outcome_bind]. unfold the_query.
    rewrite (bz_slot _ _ _ _ _ Hb1). cbn [mbind outcome_bind]. rewrite Hd1. simpl.
    set (r := MkDnsQueryResult token [] (Some dns_canceled_error)).
    destruct (retire_completes w1 a s1 i q1 r Hs1 Hb1 Hd1) as (w2 & -> & Hcl); [|done|].
    { simpl. rewrite Htk1. destruct token, (q_token q). simpl in *. congruence. }
    cbn [mbind outcome_bind].
    pose proof (closed_after _ _ _ _ _ _ _ _ _ _ Hp Htok Hcl) as [(s' & q' & Hp' & Hok' & Htk')].
    eexists _, _, s', [r]. split; [done|]. split; [by eapply ran_progress|]. split; [apply Hp'|done].
  - exists (Err dns_token_inactive_error), w, s, []. split; [done|]. split; [by apply ran_none|]. split; [done|].
    split; [done|]. split; [done|]. split; [done|]. right. unfold active_tokens. intros Hin. apply list_elem_of_fmap in Hin as (q & Hq & Hin).
    apply list_elem_of_filter in Hin as [Ha Hin]. apply list_find_None in Hfind.
    rewrite list.Forall_forall in Hfind. apply (Hfind q Hin). split; [done|]. split; [|done].
    apply list_elem_of_lookup in Hin as [j Hj]. apply (so_slots _ _ _ Hso j q Hj).
Qed.

(** ** Opening a query *)
Lemma touched_opened n n' a i s s' q q' ch cv :
  st_queries s !! i = Some q -> st_queries s' = <[i := q']> (st_queries s) ->
  q_channel q = None -> q_channel q' = Some ch -> view n ch = None ->
  view n' ch = Some cv -> cv_context cv = MkSlotContext a i -> (forall c, c <> ch -> view n' c = view n c) ->
  touched n n' a i s s' q q'.
Proof.
  intros Hq Hs Hch Hch' Hfresh Hcv Hctx Hsame. split; [done| | |].
  - intros c cv0 Hc. destruct (decide (c = ch)) as [->|Hne]; [right; split; congruence|left].
    rewrite <- Hsame by done. split; [done|congruence].
  - intros c cv0 Hc _. rewrite Hsame; [done|congruence].
  - intros c Hc. right. congruence.
Qed.

(** A slot without a channel, while the library's channels stay as they are. *)
Lemma touched_idle n n' a i s s' q q' :
  st_queries s !! i = Some q -> st_queries s' = <[i := q']> (st_queries s) ->
  q_channel q = None -> q_channel q' = None -> (forall c, view n' c = view n c) -> touched n n' a i s s' q q'.
Proof.
  intros Hq Hs Hch Hch' Hsame. split; [done| | |].
  - intros c cv Hc. left. rewrite <- Hsame. split; [done|congruence].
  - intros c cv Hc _. by rewrite Hsame.
  - congruence.
Qed.

Lemma table_add s views i cv :
  table_ok s views -> views i = None -> cv_sockets cv = ∅ -> table_ok s (view_at views i cv).
Proof.
  intros [H1 H2 H3 H4 H5] Hi Hcv. split; try done.
  - eapply list.Forall_impl; [exact H4|]. intros k (j & c & Hk & Hv & Hd). exists j, c.
    rewrite view_at_ne; [done|congruence].
  - intros j c d r wr Hv Hf Hd. destruct (decide (j = i)) as [->|].
    + rewrite view_at_eq in Hv. injection Hv as <-. by rewrite Hcv, lookup_empty in Hd.
    + rewrite view_at_ne in Hv by done. by eapply H5.
Qed.

(** The other slots of a state at rest stay at rest when the slot [i] had no channel. *)
Lemma others_rest n n' a i s s' q q' :
  state_ok n a s -> touched n n' a i s s' q q' -> q_channel q = None ->
  forall j qj, j <> i -> st_queries s' !! j = Some qj -> slot_rest n' a j qj.
Proof.
  intros Hso [[Hq Hs] _ Hkept _] Hch j qj Hj Hqj. rewrite Hs, list_lookup_insert_ne in Hqj by done.
  pose proof (so_slots _ _ _ Hso j qj Hqj) as Hr. apply (slot_rest_view n); [done|]. intros c Hc.
  destruct Hr as [_ _ _ Hr]. destruct (q_active qj); [|congruence]. destruct Hr as (c' & cv & Hc' & Hcv & _).
  assert (c' = c) as -> by congruence. rewrite Hcv. apply Hkept; [done|congruence].
Qed.

Lemma others_views n n' a i s s' q q' j :
  state_ok n a s -> touched n n' a i s s' q q' -> q_channel q = None -> j <> i ->
  views_of n' s' j = views_of n s j.
Proof.
  intros Hso [[Hq Hs] _ Hkept _] Hch Hj. unfold views_of. rewrite Hs, list_lookup_insert_ne by done.
  destruct (st_queries s !! j) as [qj|] eqn:Hqj; [|done]. simpl. destruct (q_channel qj) as [c|] eqn:Hc; [|done]. simpl.
  pose proof (so_slots _ _ _ Hso j qj Hqj) as [_ _ _ Hr]. destruct (q_active qj); [|congruence].
  destruct Hr as (c' & cv & Hc' & Hcv & _). assert (c' = c) as -> by congruence. rewrite Hcv. apply Hkept; [done|congruence].
Qed.

Lemma shaped_frame s s' :
  shaped s -> same_frame s s' -> length (st_queries s') = length (st_queries s) -> shaped s'.
Proof. intros [H1 H2 H3 H4] [F1 F2 F3 F4 F5 F6 F7 F8] Hl. split; rewrite ?F2, ?F5, ?F7, ?F8, ?Hl; done. Qed.

Lemma active_tokens_idle s s' i q q' :
  st_queries s !! i = Some q -> st_queries s' = <[i := q']> (st_queries s) ->
  q_active q = false -> q_active q' = false -> active_tokens s' = active_tokens s.
Proof.
  intros Hq Hs Ha Ha'. unfold active_tokens. rewrite Hs, (insert_take_drop _ i q') by (by eapply lookup_lt_Some).
  rewrite <- (take_drop_middle (st_queries s) i q Hq) at 3.
  rewrite !list.filter_app, !filter_cons, !map_app.
  rewrite (decide_False (P := q_active q' = true)) by congruence.
  rewrite (decide_False (P := q_active q = true)) by congruence. done.
Qed.

(** A slot that was free and is free again. *)
Lemma state_idle n n' a i s s' q q' :
  state_ok n a s -> touched n n' a i s s' q q' -> same_frame s s' -> q_active q = false -> q_active q' = false ->
  slot_rest n' a i q' -> st_outstanding s' = st_outstanding s -> table_ok s' (views_of n' s') -> state_ok n' a s'.
Proof.
  intros Hso Ht Hf Ha Ha' Hr Ho Htab. pose proof Ht as [[Hq Hs] _ _ _].
  assert (Hch : q_channel q = None).
  { destruct (so_slots _ _ _ Hso i q Hq) as [_ _ _ Hc]. by rewrite Ha in Hc. }
  split; [eapply shaped_frame; [apply Hso|done|by rewrite Hs, length_insert]| |done|].
  - intros j qj Hj. destruct (decide (j = i)) as [->|Hne].
    + rewrite (touched_slot _ _ _ _ _ _ _ _ Ht) in Hj. by injection Hj as <-.
    + by eapply others_rest.
  - rewrite Ho, (sf_limits _ _ Hf), (active_tokens_idle s s' i q q') by done. apply Hso.
Qed.

(** The free slot [resolve] takes, and what it holds once its channel is initialized. *)
Record opened n (a i : nat) s q ch : Prop := {
  op_shape : shaped s;
  op_slot : st_queries s !! i = Some q;
  op_others : forall j q', j <> i -> st_queries s !! j = Some q' -> slot_rest n a j q';
  op_fixed : q_owner q = Some a /\ length (q_completed_addresses q) = maximum_address_capacity /\ q_active q = true;
  op_flags : q_native_done q = false /\ q_canceling q = false;
  op_channel : q_channel q = Some ch /\ view n ch = Some (MkChannelView (MkSlotContext a i) false ∅);
  op_table : table_ok s (views_of n s) }.

(** The state with the slot [i] open on the channel [ch]. *)
Lemma open_channel n n' a i s q token ch :
  state_ok n a s -> st_queries s !! i = Some q -> q_active q = false -> view n ch = None ->
  view n' ch = Some (MkChannelView (MkSlotContext a i) false ∅) -> (forall c, c <> ch -> view n' c = view n c) ->
  let q1 := set_channel (open_query q token) (Some ch) in
  let s1 := set_query s i q1 in
  touched n n' a i s s1 q q1 /\ opened n' a i s1 q1 ch.
Proof.
  intros Hso Hq Ha Hfresh Hcv Hsame q1 s1.
  destruct (so_slots _ _ _ Hso i q Hq) as [R1 R2 (R3 & R4 & R5) R6]. rewrite Ha in R6.
  assert (Ht : touched n n' a i s s1 q q1) by (by eapply touched_opened).
  split; [done|]. pose proof (touched_slot _ _ _ _ _ _ _ _ Ht) as Hq1. split; try done.
  - eapply shaped_frame; [apply Hso|by split|simpl; by rewrite length_insert].
  - by eapply others_rest.
  - apply (table_ok_views s1 (view_at (views_of n s) i (MkChannelView (MkSlotContext a i) false ∅))).
    + intros j. destruct (decide (j = i)) as [->|Hne].
      * rewrite view_at_eq. unfold views_of. rewrite Hq1. simpl. by rewrite Hcv.
      * rewrite view_at_ne by done. by eapply others_views.
    + apply (table_ok_queries s); [done|done| |].
      * intros j (qj & Hj & Hfj). destruct (so_slots _ _ _ Hso j qj Hj) as [_ _ (_ & _ & E) _]. congruence.
      * apply table_add; [apply Hso| |done]. unfold views_of. rewrite Hq. simpl. by rewrite R6.
Qed.

(** The channel of an open slot is destroyed before a query was made on it. *)
Lemma opened_destroyed w a i s q ch :
  dw_states w !! a = Some s -> opened (dw_native w) a i s q ch ->
  exists s' q' w', call lib (ares_destroy lib ch) w = Ret w' /\ beside w w' a s' /\
    st_queries s' = <[i := q']> (st_queries s) /\ same_slot q q' /\ same_frame s s' /\
    st_outstanding s' = st_outstanding s /\ view (dw_native w') ch = None /\
    (forall c, c <> ch -> view (dw_native w') c = view (dw_native w) c) /\
    exists cv', cv_sockets cv' = ∅ /\ table_ok s' (view_at (views_of (dw_native w) s) i cv').
Proof.
  intros Hs [Hsh Hq Hothers (Hown & Hlen & Hact) [Hd Hc] [Hch Hcv] Ht].
  destruct (law_ares_destroy (dw_native w) ch _ Hcv) as (cbs & n' & Hf & Hacts).
  destruct (call_flight (ares_destroy lib ch) w a s i q ch _ _ cbs n' None Hf Hacts Hs Hq Hch Hcv eq_refl
    (conj eq_refl eq_refl) (rest_foreign _ _ _ _ Hothers) Hlen (proj2 (sh_limits _ Hsh)) Ht) as (s1 & w1 & cv1 & E & Hrest & Hfl & Hp1 & Hsk1).
  destruct Hacts as (_ & Hview & Hsame & _). destruct Hfl as [Hframe _ (q0 & q1 & Hq0 & Hqs & Hslot & _) Hout Ht1].
  assert (q0 = q) as -> by congruence. exists s1, q1, w1. assert (En : dw_native w1 = n') by apply Hrest.
  split; [done|]. split; [by eapply beside_rest|]. split; [done|]. split; [done|]. split; [done|]. split; [done|].
  rewrite En. split; [done|]. split; [done|]. by exists cv1.
Qed.

(** The slot after a failed initialization, once [resolve] has finished it. *)
Definition refused w w' (a i : nat) s q : Prop :=
  exists s' q', dw_states w' !! a = Some s' /\ st_queries s' !! i = Some q' /\
    progress w (set_state w' a (set_query s' i (finish_query q'))) a i s (set_query s' i (finish_query q')) q (finish_query q') [] /\
    state_ok (dw_native w') a (set_query s' i (finish_query q')) /\ q_active (finish_query q') = false.

(** The initialization failed before there was a channel. *)
Lemma refused_early w n' l a i s q token :
  dw_states w !! a = Some s -> state_ok (dw_native w) a s -> st_queries s !! i = Some q -> q_active q = false ->
  (forall c, view n' c = view (dw_native w) c) ->
  refused w (set_log (set_native (set_state w a (set_query s i (open_query q token))) n') l) a i s q.
Proof.
  intros Hs Hso Hq Ha Hsame. destruct (so_slots _ _ _ Hso i q Hq) as [R1 R2 (R3 & R4 & R5) R6]. rewrite Ha in R6.
  assert (Hlt : (i < length (st_queries s))%nat) by (by eapply lookup_lt_Some).
  set (q1 := open_query q token). set (s1 := set_query s i q1). set (s2 := set_query s1 i (finish_query q1)).
  assert (Ht : touched (dw_native w) n' a i s s2 q (finish_query q1)).
  { apply touched_idle; [done| |done|done|done]. simpl. by rewrite list_insert_insert_eq. }
  assert (Hso2 : state_ok n' a s2).
  { apply (state_idle (dw_native w) n' a i s s2 q (finish_query q1)); try done.
    apply (table_ok_views s2 (views_of (dw_native w) s)).
    - intros j. destruct (decide (j = i)) as [->|Hne].
      + unfold views_of. simpl. rewrite !list_insert_insert_eq, list_lookup_insert_eq, Hq by done. simpl. by rewrite R6.
      + by eapply others_views.
    - apply (table_ok_queries s); [done|done| |apply Hso].
      intros j (qj & Hj & Hfj). destruct (so_slots _ _ _ Hso j qj Hj) as [_ _ (_ & _ & E) _]. congruence. }
  exists s1, q1. split; [simpl; by rewrite lookup_insert_eq|]. split; [simpl; by rewrite list_lookup_insert_eq|].
  split; [|done]. split; try done. simpl. by rewrite insert_insert_eq.
Qed.

(** It failed to set the servers and destroyed the channel. *)
Lemma refused_late w w1 a i s q q1 s1 ch :
  dw_states w !! a = Some s -> state_ok (dw_native w) a s -> q_active q = false -> q_channel q = None ->
  progress w w1 a i s s1 q q1 [] -> opened (dw_native w1) a i s1 q1 ch -> st_outstanding s1 = st_outstanding s ->
  exists w2 s2 q2, call lib (ares_destroy lib ch) w1 = Ret w2 /\ dw_states w2 !! a = Some s2 /\
    st_queries s2 !! i = Some q2 /\ refused w (set_state w2 a (set_query s2 i (set_channel q2 None))) a i s q.
Proof.
  intros Hs Hso Ha Hchq Hp Hop Hout. pose proof Hop as [Hsh Hq1 Hothers (Hown & Hlen & Hact) _ [Hch Hcv] _].
  assert (Hs1 : dw_states w1 !! a = Some s1) by (rewrite (pg_states _ _ _ _ _ _ _ _ _ Hp); apply lookup_insert_eq).
  destruct (opened_destroyed w1 a i s1 q1 ch Hs1 Hop)
    as (s2 & q2 & w2 & E & Hb & Hqs & Hslot & Hframe & Ho2 & Hv2 & Hsame & cv' & Hsk & Ht2).
  assert (Hs2 : dw_states w2 !! a = Some s2) by (by eapply beside_state).
  assert (Hlt : (i < length (st_queries s1))%nat) by (by eapply lookup_lt_Some).
  assert (Hq2 : st_queries s2 !! i = Some q2) by (by rewrite Hqs, list_lookup_insert_eq).
  exists w2, s2, q2. split; [done|]. split; [done|]. split; [done|].
  set (q3 := set_channel q2 None). set (s3 := set_query s2 i q3).
  assert (Ha3 : q_active q3 = true) by (simpl; by rewrite (ss_active _ _ Hslot)).
  assert (Hf3 : q_active (finish_query q3) = false /\ q_channel (finish_query q3) = None)
    by (unfold finish_query; by rewrite Ha3).
  set (s4 := set_query s3 i (finish_query q3)).
  assert (Hq4 : st_queries s4 = <[i := finish_query q3]> (st_queries s1))
    by (simpl; by rewrite Hqs, !list_insert_insert_eq).
  assert (Hp4 : progress w (set_state w2 a s4) a i s s4 q (finish_query q3) []).
  { apply (progress_trans w w1 _ a i s s1 s4 q q1 (finish_query q3) [] [] Hp). apply progress_beside.
    - eapply beside_trans; [exact Hb|apply beside_set].
    - apply (touched_called _ _ a i s1 s4 q1 _ ch); [done..|left; apply Hf3|simpl; by rewrite Hv2].
    - eapply same_frame_trans; [exact Hframe|by split]. }
  exists s3, q3. split; [simpl; by rewrite lookup_insert_eq|].
  split; [simpl; rewrite list_lookup_insert_eq; [done|by eapply lookup_lt_Some]|].
  split; [|split; [|apply Hf3]].
  - destruct Hp4 as [G1 G2 G3 G4 G5 G6]. split; try done. simpl. simpl in G1. by rewrite insert_insert_eq.
  - apply (state_idle (dw_native w) (dw_native w2) a i s s4 q (finish_query q3) Hso (pg_touched _ _ _ _ _ _ _ _ _ Hp4));
      [apply Hp4|done|apply Hf3| |simpl; congruence|].
    + apply finish_query_rest; [done|simpl; by rewrite (ss_owner _ _ Hslot)|simpl; by rewrite (ss_length _ _ Hslot)].
    + apply (table_drop s2 s4 (views_of (dw_native w1) s1) _ i cv' Ht2 Hsk); [done|done| | |].
      * intros j Hj. apply (slot_failed_other s2 s4 i (finish_query q3)); [|done].
        simpl. by rewrite list_insert_insert_eq.
      * unfold views_of. rewrite Hq4, list_lookup_insert_eq by done. simpl. by rewrite (proj2 Hf3).
      * intros j Hj. rewrite (others_views (dw_native w) (dw_native w2) a i s s4 q (finish_query q3) j Hso
          (pg_touched _ _ _ _ _ _ _ _ _ Hp4) Hchq Hj).
        symmetry. by apply (others_views (dw_native w) (dw_native w1) a i s s1 q q1 j Hso (pg_touched _ _ _ _ _ _ _ _ _ Hp)).
Qed.

(** The error is one the library reported for the session. *)
Definition session_error (e : Error) : Prop :=
  exists status, e = normalize_dependency_error id_c_ares op_dns_session (status_for status)
                       (cast int32_t (ares_status_value lib status)).

Lemma initialize_channel_run w a i s q token :
  dw_states w !! a = Some s -> state_ok (dw_native w) a s -> st_queries s !! i = Some q -> q_active q = false ->
  let w0 := set_state w a (set_query s i (open_query q token)) in
  (exists w' s' q' ch, initialize_channel lib w0 a i = Ret (Ok tt, w') /\ dw_states w' !! a = Some s' /\
     progress w w' a i s s' q q' [] /\ opened (dw_native w') a i s' q' ch /\ q_token q' = token /\
     st_outstanding s' = st_outstanding s) \/
  (exists e w', initialize_channel lib w0 a i = Ret (Err e, w') /\ refused w w' a i s q /\ session_error e).
Proof.
  intros Hs Hso Hq Ha w0. assert (Hlt : (i < length (st_queries s))%nat) by (by eapply lookup_lt_Some).
  destruct (so_slots _ _ _ Hso i q Hq) as [R1 R2 (R3 & R4 & R5) R6]. rewrite Ha in R6.
  unfold initialize_channel, the_state, the_query. unfold w0 at 1 3. simpl dw_states. rewrite lookup_insert_eq.
  cbn [mbind outcome_bind]. simpl st_queries. rewrite list_lookup_insert_eq by done. cbn [mbind outcome_bind].
  simpl st_limits. simpl dw_native.
  pose proof (law_ares_init (MkAresOptions (ARES_FLAG_NOSEARCH lib) (cast int32_t (rl_timeout_milliseconds (st_limits s)))
    (cast int32_t (rl_attempts (st_limits s))) (MkSlotContext a i) 0) (option_mask lib) (dw_native w)) as Hinit.
  destruct (ares_init_options lib _ _ (dw_native w)) as [[ch|status] n'].
  2: { right. eexists _, _. split; [done|]. split; [by apply refused_early|by exists status]. }
  destruct Hinit as (Hfresh & Hcv & Hsame). simpl in Hcv.
  destruct (open_channel (dw_native w) n' a i s q token ch Hso Hq Ha Hfresh Hcv Hsame) as [Ht Hop].
  set (q1 := set_channel (open_query q token) (Some ch)) in *.
  assert (Es : set_query (set_query s i (open_query q token)) i q1 = set_query s i q1)
    by (unfold set_query, set_queries; simpl; by rewrite list_insert_insert_eq).
  rewrite Es. set (s1 := set_query s i q1) in *. set (w1 := set_state (set_native w0 n') a s1).
  assert (Hp : forall n, touched (dw_native w) n a i s s1 q q1 -> forall l, progress w (set_log (set_native w1 n) l) a i s s1 q q1 []).
  { intros n Htn l. split; try done. simpl. by rewrite insert_insert_eq. }
  assert (Hs1 : dw_states w1 !! a = Some s1) by apply lookup_insert_eq.
  simpl st_has_explicit_nameservers. destruct (st_has_explicit_nameservers s) eqn:Hx; [|left].
  2: { exists w1, s1, q1, ch. split; [done|]. split; [done|]. split; [|done].
       specialize (Hp n' Ht (dw_log w)). destruct Hp. by split. }
  simpl st_nameserver_csv. destruct (sh_csv _ (so_shape _ _ _ Hso) Hx) as [csv ->].
  destruct (law_ares_servers n' ch _ csv Hcv) as (status & n2 & Esrv & Hsame2). simpl dw_native. rewrite Esrv. cbn [mbind outcome_bind].
  assert (Hop2 : opened n2 a i s1 q1 ch).
  { destruct Hop as [O1 O2 O3 O4 O5 [O6 O7] O8]. split; try done.
    - intros j qj Hj Hqj. apply (slot_rest_view n'); [by apply O3|]. intros c _. apply Hsame2.
    - split; [done|]. rewrite Hsame2. done.
    - eapply table_ok_views; [|exact O8]. intros j. unfold views_of. destruct (st_queries s1 !! j) as [qj|]; [|done]. simpl.
      destruct (q_channel qj) as [c|]; [|done]. apply Hsame2. }
  assert (Ht2 : touched (dw_native w) n2 a i s s1 q q1).
  { destruct Ht as [T1 T2 T3 T4]. split; try done.
    - intros c cv Hc. apply T2. by rewrite <- (Hsame2 c).
    - intros c cv Hc Hne. rewrite (Hsame2 c). by apply T3. }
  destruct (decide (status = ARES_SUCCESS)) as [->|Hne].
  - left. rewrite bool_decide_true by done. simpl negb. cbv iota.
    exists (set_native w1 n2), s1, q1, ch. split; [done|]. split; [done|]. split; [|done].
    specialize (Hp n2 Ht2 (dw_log w)). destruct Hp. by split.
  - right. rewrite bool_decide_false by done. simpl negb. cbv iota. unfold native_error. cbv beta iota zeta.
    match goal with |- context [log_dependency_error ?k ?l ?e] => set (lg := log_dependency_error k l e); set (er := e) end.
    destruct (refused_late w (set_log (set_native w1 n2) lg) a i s q q1 s1 ch Hs Hso Ha R6) as (w2 & s2 & q2 & E & Hs2 & Hq2 & Hr);
      [by apply Hp|done|done|].
    rewrite E. cbn [mbind outcome_bind]. rewrite Hs2. cbn [mbind outcome_bind]. rewrite Hq2. cbn [mbind outcome_bind].
    eexists er, _. split; [done|]. split; [done|]. by exists status.
Qed.

(** The arguments and limits [resolve] refuses, before it changes anything. *)
Definition resolve_refusal s (hostname : TextView) (family : DnsQueryFamily) : option Error :=
  if bool_decide (1 <= length hostname <= 253)%nat then
    match family_of family with
    | None => Some dns_family_error
    | Some _ =>
        if bool_decide (Ascii.zero ∈ hostname) then Some (core_error invalid_input "text contains an embedded NUL") else
        if st_outstanding s =? rl_maximum_outstanding_queries (st_limits s) then Some dns_outstanding_error else
        if st_next_token s =? 0 then Some dns_token_error else None
    end
  else Some dns_hostname_error.

Lemma free_slot n a s :
  state_ok n a s -> st_outstanding s <> rl_maximum_outstanding_queries (st_limits s) ->
  exists i q, list_find (fun q => q_active q = false) (st_queries s) = Some (i, q) /\
    st_queries s !! i = Some q /\ q_active q = false.
Proof.
  intros [Hsh _ _ [Ho Hmax]] Hne. destruct (list_find _ (st_queries s)) as [[i q]|] eqn:E.
  - exists i, q. apply list_find_Some in E as (? & ? & _). done.
  - apply list_find_None in E. destruct Hsh as [Hl [Hlim _] _ _].
    enough (length (active_tokens s) = maximum_query_capacity) by lia.
    rewrite <- Hl. unfold active_tokens. rewrite length_map. clear - E. revert E.
    generalize (st_queries s) as l. intros l E. induction E as [|q l Hq E IH]; [done|].
    rewrite filter_cons_True by (by destruct (q_active q)). simpl. by rewrite IH.
Qed.

(** The query of an open slot is made, and what follows. *)
Lemma query_run w a i s q ch name family :
  dw_states w !! a = Some s -> opened (dw_native w) a i s q ch ->
  st_outstanding s + 1 = Z.of_nat (length (active_tokens s)) ->
  st_outstanding s + 1 <= rl_maximum_outstanding_queries (st_limits s) ->
  exists w1 ended w' s' q' results,
    call lib (ares_getaddrinfo lib ch name family (MkSlotContext a i)) (set_state w a (set_outstanding s (st_outstanding s + 1))) =
      Ret w1 /\
    settle lib w1 a i = Ret (ended, w') /\ progress w w' a i s s' q q' results /\ state_ok (dw_native w') a s' /\
    active_tokens s ≡ₚ map result_token results ++ active_tokens s' /\
    (results = [] \/ exists r, results = [r] /\ qr_token r = q_token q).
Proof.
  intros Hs [Hsh Hq Hothers (Hown & Hlen & Hact) [Hd Hc] [Hch Hcv] Ht] Hout Hmax.
  set (s1 := set_outstanding s (st_outstanding s + 1)). set (cv := MkChannelView (MkSlotContext a i) false ∅) in *.
  destruct (law_ares_getaddrinfo (dw_native w) ch cv name family Hcv eq_refl) as (cbs & n' & cv' & Hf & Hacts).
  destruct (call_busy (ares_getaddrinfo lib ch name family (MkSlotContext a i)) (set_state w a s1) a s1 i q ch cv
    (with_pending cv true) cbs n' cv' Hf Hacts)
    as (s2 & q2 & w2 & E & Hrest & Hb2 & Hslot & Hframe & Hqs & Hsame & Hv'); try done.
  { apply lookup_insert_eq. }
  { by destruct Hsh. }
  { by rewrite Hd. }
  { by destruct Ht. }
  pose proof (beside_rest _ _ _ _ _ Hrest) as Hbs. assert (En : dw_native w2 = n') by apply Hrest.
  assert (Hch2 : q_channel q2 = Some ch) by (by rewrite (ss_channel _ _ Hslot)).
  assert (Hp : progress w w2 a i s s2 q q2 []).
  { apply progress_beside; [eapply beside_trans; [apply beside_set|exact Hbs]| |
      eapply same_frame_trans; [|exact Hframe]; by split].
    apply (touched_called _ _ a i s s2 q q2 ch); [done..|by rewrite En|by right|].
    rewrite En, Hv'. split; [done|]. eapply (busy_context _ _ _ _ _ Hb2); [done|by rewrite En]. }
  assert (Htok : active_tokens s2 = active_tokens s) by (eapply active_tokens_insert; [done|done|apply Hslot|apply Hslot]).
  exists w2. destruct (settle_run w2 a s2 i q2) as [(r & w' & Es & Hcl & Hr)|[Es Hso2]];
    [by eapply beside_state|done|by rewrite (ss_canceling _ _ Hslot)| |].
  - pose proof (closed_after _ _ _ _ _ _ _ _ _ _ Hp Htok Hcl) as [(s' & q' & Hp' & Hok' & Htk)].
    exists true, w', s', q', [r]. split; [done|]. split; [done|]. split; [done|]. split; [done|]. split; [done|].
    right. exists r. rewrite Hr. split; [done|]. by rewrite (ss_token _ _ Hslot).
  - exists false, w2, s2, q2, []. split; [done|]. split; [done|]. split; [done|]. split; [done|].
    split; [by rewrite Htok|by left].
Qed.

(** [resolve] refuses exactly what [resolve_refusal] says; otherwise it opens one query, with the
    next token, or the library refuses the session. *)
Lemma resolve_run w a s hostname family :
  world_ok w -> dw_states w !! a = Some s ->
  match resolve_refusal s hostname family with
  | Some e => DnsResolver_resolve lib (MkDnsResolver (Some a)) w hostname family = Ret (Err e, w)
  | None => exists r w' s' opened results,
      DnsResolver_resolve lib (MkDnsResolver (Some a)) w hostname family = Ret (r, w') /\
      ran w w' a s s' opened results /\ st_next_token s <> 0 /\ st_next_token s' = u64 (st_next_token s + 1) /\
      match r with
      | Ok token => token_value token = st_next_token s /\ opened = [st_next_token s] /\
          (results = [] \/ exists x, results = [x] /\ qr_token x = token)
      | Err e => opened = [] /\ results = [] /\ session_error e
      end
  end.
Proof.
  intros Hok Hs. pose proof (proj1 Hok a s Hs) as Hso. unfold resolve_refusal, DnsResolver_resolve.
  cbn [dr_state]. rewrite (the_state_ret w a s Hs). cbn [mbind outcome_bind].
  destruct (decide (1 <= length hostname <= 253)%nat) as [Hlen|Hlen].
  2: { rewrite bool_decide_false by done.
       destruct (Nat.eqb_spec (length hostname) 0); [done|]. simpl. by destruct (Nat.ltb_spec 253 (length hostname)); [|lia]. }
  rewrite bool_decide_true by done. rewrite (proj2 (Nat.eqb_neq _ _)) by lia. rewrite (proj2 (Nat.ltb_ge _ _)) by lia.
  cbn [orb]. destruct (family_of family) as [native|]; [|done].
  destruct (to_c_string_spec 254 hostname) as [Hfits Hread]. destruct (decide (Ascii.zero ∈ hostname)) as [Hz|Hz].
  { rewrite bool_decide_true by done. unfold TextView_to_c_string.
    destruct (TextView_contains_nul hostname) eqn:Hn; [done|]. by apply contains_nul_false in Hn. }
  rewrite bool_decide_false by done.
  destruct (TextView_to_c_string 254 hostname) as [name|e]; [|assert (has_value (Err (A:=StaticCString) e) = true) by (apply Hfits; split; [done|lia]); done].
  destruct (Hread name eq_refl) as (_ & Hname & _). rewrite Hname. clear Hfits Hread.
  destruct (Z.eqb_spec (st_outstanding s) (rl_maximum_outstanding_queries (st_limits s))) as [|Hroom]; [done|].
  destruct (free_slot _ _ _ Hso Hroom) as (i & q & -> & Hq & Ha).
  destruct (Z.eqb_spec (st_next_token s) 0) as [|Hnz]; [done|]. cbv zeta. set (token := MkDnsQueryToken (st_next_token s)) in *.
  set (s0 := set_next_token s (u64 (st_next_token s + 1))) in *. set (w0 := set_state w a s0).
  assert (Hso0 : state_ok (dw_native w) a s0) by (destruct Hso as [[] ? [] ?]; split; [by split|done|by split|done]).
  assert (Hok0 : world_ok w0).
  { apply (world_touched w w0 a i s s0 q q); [done|done|done| |done]. apply touched_fields; [done| |done|].
    - simpl. by rewrite list_insert_id.
    - intros ch cv. apply rest_context. by apply (so_slots _ _ _ Hso). }
  assert (Hran0 : ran w w0 a s s0 [] []) by (by split).
  assert (Hs0 : dw_states w0 !! a = Some s0) by apply lookup_insert_eq.
  assert (Ew : set_state w a (set_query s0 i (open_query q token)) = set_state w0 a (set_query s0 i (open_query q token)))
    by (unfold w0, set_state; simpl; by rewrite insert_insert_eq).
  rewrite Ew. destruct (initialize_channel_run w0 a i s0 q token Hs0 Hso0 Hq Ha)
    as [(w1 & s1 & q1 & ch & E1 & Hs1 & Hp1 & Hop & Htk & Ho1)|(e & w1 & E1 & (s1 & q1 & Hs1 & Hq1 & Hp1 & Hso1 & Ha1) & He)];
    rewrite E1; cbn [mbind outcome_bind]; unfold the_state, the_query; rewrite Hs1; cbn [mbind outcome_bind].
  - pose proof Hop as [_ Hq1 _ (_ & _ & Hact) _ [Hch _] _]. rewrite Hq1. cbn [mbind outcome_bind]. rewrite Hch.
    pose proof (pg_touched _ _ _ _ _ _ _ _ _ Hp1) as [[_ Hqs1] _ _ _].
    assert (Htok1 : active_tokens s1 ≡ₚ [st_next_token s] ++ active_tokens s0).
    { rewrite (active_tokens_open s0 s1 i q q1 Hq Hqs1 Ha Hact), Htk. done. }
    destruct (so_outstanding _ _ _ Hso0) as [HoA HoB]. pose proof (Permutation_length Htok1) as Hl1. simpl in Hl1, HoA, HoB.
    destruct (query_run w1 a i s1 q1 ch hostname (MkAresHints native SOCK_STREAM) Hs1 Hop) as (w2 & ended & w' & s' & q' & res & E2 & E3 & Hp2 & Hso' & Hres & Hone).
    + rewrite Ho1, Hl1. change (st_outstanding s0) with (st_outstanding s). lia.
    + rewrite Ho1, (sf_limits _ _ (pg_frame _ _ _ _ _ _ _ _ _ Hp1)). simpl. lia.
    + rewrite E2. cbn [mbind outcome_bind]. rewrite E3. cbn [mbind outcome_bind].
      pose proof (progress_trans _ _ _ _ _ _ _ _ _ _ _ _ _ Hp1 Hp2) as Hp. rewrite app_nil_r in Hp.
      eexists _, w', s', [st_next_token s], res. split; [done|]. split; [|split; [done|split; [|split; [done|split; [done|]]]]].
      * rewrite <- (app_nil_r res). apply (ran_trans _ w0 _ a s s0 s' [] [st_next_token s] [] res Hran0).
        eapply ran_progress; [done|done|exact Hp|done|]. by rewrite <- Hres, Htok1.
      * rewrite (sf_next _ _ (pg_frame _ _ _ _ _ _ _ _ _ Hp)). done.
      * by rewrite <- Htk.
  - rewrite Hq1. cbn [mbind outcome_bind]. set (s2 := set_query s1 i (finish_query q1)) in *.
    eexists _, _, s2, [], []. split; [done|]. split; [|split; [done|split; [|done]]].
    + apply (ran_trans _ w0 _ a s s0 s2 [] [] [] [] Hran0). eapply ran_progress; [done|done|exact Hp1|done|]. simpl.
      pose proof (pg_touched _ _ _ _ _ _ _ _ _ Hp1) as [[_ Hqs2] _ _ _].
      by rewrite (active_tokens_idle s0 s2 i q (finish_query q1) Hq Hqs2 Ha Ha1).
    + rewrite (sf_next _ _ (pg_frame _ _ _ _ _ _ _ _ _ Hp1)). done.
Qed.
End operations.
