(* ===== verification/DnsLifetime.v ===== *)
(** * Creating, observing and releasing resolvers

    A release destroys exactly the channels of the resolver; a creation starts at rest, with the
    nameservers joined into the text the library reads. *)
From S2P Require Import Prelude Contract CheckedArithmetic Views Dependencies DependencyLifecycle Dns DnsSpec DnsNameservers DnsQueries DnsOperations.
From Stdlib Require Import ZArith Lia String Ascii.
From stdpp Require Import base numbers list gmap option.

Set Default Goal Selector "!".
#[local] Open Scope Z_scope.

Section lifetime.
Context {N CH R L : Type} `{EqDecision CH} {lib : Ares N CH R} {laws : AresLaws lib}.
Abbreviation Slot := (QuerySlot (CH:=CH)).
Abbreviation Resolver := (State (CH:=CH) (L:=L)).
Abbreviation World := (DnsWorld (N:=N) (CH:=CH) (R:=R) (L:=L)).
Implicit Types (n : N) (s : Resolver) (w : World) (q : Slot).

(** ** Release *)

(** The channels of the slots below [k] are destroyed, the others are at rest. *)
Record closing n (a : nat) s (k : nat) : Prop := {
  cg_queries : length (st_queries s) = maximum_query_capacity;
  cg_limit : 1 <= rl_maximum_result_addresses (st_limits s) <= Z.of_nat maximum_address_capacity;
  cg_slots : forall j q, (k <= j)%nat -> st_queries s !! j = Some q -> slot_rest n a j q;
  cg_gone : forall j q ch, (j < k)%nat -> st_queries s !! j = Some q -> q_channel q = Some ch -> view n ch = None;
  cg_table : table_ok s (views_of n s) }.

Lemma closing_foreign n a s k i : closing n a s k -> foreign n a i s.
Proof.
  intros [_ _ Hs Hg _] j q ch cv _ Hq Hch Hcv. destruct (decide (k <= j)%nat).
  - apply (rest_context n a j q ch cv); [by apply Hs|done|done].
  - rewrite (Hg j q ch) in Hcv; [done|lia|done|done].
Qed.

(** What a step of the loop does: only the channel of slot [k] goes. *)
Record dropped n n' (k : nat) s s' : Prop := {
  dp_frame : same_frame s s';
  dp_channels : forall j, q_channel <$> st_queries s' !! j = q_channel <$> st_queries s !! j;
  dp_old : forall c cv, view n' c = Some cv -> view n c = Some cv;
  dp_kept : forall c cv, view n c = Some cv ->
    (forall j q, (k <= j)%nat -> st_queries s !! j = Some q -> q_channel q <> Some c) -> view n' c = Some cv }.

Lemma dropped_refl n k s : dropped n n k s s.
Proof. split; try done. Qed.

Lemma dropped_trans n1 n2 n3 k k' s1 s2 s3 :
  (k <= k')%nat -> dropped n1 n2 k s1 s2 -> dropped n2 n3 k' s2 s3 -> dropped n1 n3 k s1 s3.
Proof.
  intros Hk [A1 A2 A3 A4] [B1 B2 B3 B4]. split.
  - by eapply same_frame_trans.
  - intros j. by rewrite B2, A2.
  - intros c cv Hc. by apply A3, B3.
  - intros c cv Hc Hne. apply B4; [by apply A4|]. intros j q Hj Hq E.
    pose proof (A2 j) as Hj'. rewrite Hq in Hj'. simpl in Hj'. destruct (st_queries s1 !! j) as [q1|] eqn:Hq1; [|done].
    simpl in Hj'. apply (Hne j q1); [lia|done|congruence].
Qed.

Lemma destroy_step w a s k q ch :
  dw_states w !! a = Some s -> closing (dw_native w) a s k -> st_queries s !! k = Some q -> q_channel q = Some ch ->
  exists s' w', call lib (ares_destroy lib ch) w = Ret w' /\ beside w w' a s' /\ closing (dw_native w') a s' (S k) /\
    dropped (dw_native w) (dw_native w') k s s'.
Proof.
  intros Hs Hcl Hq Hch. pose proof Hcl as [Hl Hlim Hslots Hgone Ht].
  destruct (Hslots k q (Nat.le_refl k) Hq) as [R1 R2 R3 R4]. destruct (q_active q); [|congruence].
  destruct R4 as (ch' & cv & Hch' & Hcv & Hctx & Hp). assert (ch' = ch) as -> by congruence.
  destruct (law_ares_destroy (dw_native w) ch cv Hcv) as (cbs & n' & Hf & Hacts).
  destruct (call_flight (ares_destroy lib ch) w a s k q ch cv cv cbs n' None Hf Hacts Hs Hq Hch Hcv Hctx
    (conj eq_refl eq_refl) (closing_foreign _ _ _ _ k Hcl) R2 Hlim Ht) as (s1 & w1 & cv1 & E & Hrest & Hfl & Hp1 & Hsk1).
  destruct Hacts as (_ & Hview & Hsame & _). destruct Hfl as [Hframe _ (q0 & q1 & Hq0 & Hqs & Hslot & _) _ Ht1].
  assert (q0 = q) as -> by congruence. assert (En : dw_native w1 = n') by apply Hrest.
  assert (Hlt : (k < length (st_queries s))%nat) by (by eapply lookup_lt_Some).
  assert (Hother : forall j qj c cv, j <> k -> st_queries s !! j = Some qj -> q_channel qj = Some c ->
    view (dw_native w) c = Some cv -> c <> ch).
  { intros j qj c cvj Hj Hqj Hc Hv ->. pose proof (closing_foreign _ _ _ _ k Hcl j qj ch cvj Hj Hqj Hc Hv). congruence. }
  exists s1, w1. split; [done|]. split; [by eapply beside_rest|]. rewrite En. split; split.
  - by rewrite Hqs, length_insert.
  - by rewrite (sf_limits _ _ Hframe).
  - intros j qj Hj Hqj. rewrite Hqs, list_lookup_insert_ne in Hqj by lia.
    assert (Hr : slot_rest (dw_native w) a j qj) by (apply Hslots; [lia|done]). apply (slot_rest_view _ _ _ _ _ Hr).
    intros c Hc. destruct Hr as [_ _ _ Hr]. destruct (q_active qj); [|congruence].
    destruct Hr as (c' & cvj & Hc' & Hv & _). assert (c' = c) as -> by congruence. apply Hsame.
    apply (Hother j qj c cvj); [lia|done..].
  - intros j qj c Hj Hqj Hc. rewrite Hqs in Hqj. destruct (decide (j = k)) as [->|Hne].
    + rewrite list_lookup_insert_eq in Hqj by done. injection Hqj as <-. rewrite (ss_channel _ _ Hslot) in Hc. congruence.
    + rewrite list_lookup_insert_ne in Hqj by done. destruct (decide (c = ch)) as [->|]; [done|].
      rewrite Hsame by done. apply (Hgone j qj); [lia|done|done].
  - apply (table_drop s1 s1 (views_of (dw_native w) s) _ k cv1 Ht1 Hsk1); try done.
    + unfold views_of. rewrite Hqs, list_lookup_insert_eq by done. simpl. rewrite (ss_channel _ _ Hslot), Hch. done.
    + intros j Hj. unfold views_of. rewrite Hqs, list_lookup_insert_ne by done.
      destruct (st_queries s !! j) as [qj|] eqn:Hqj; [|done]. simpl. destruct (q_channel qj) as [c|] eqn:Hc; [|done]. simpl.
      destruct (decide (c = ch)) as [->|]; [|by apply Hsame].
      by destruct (Hother j qj ch cv Hj Hqj Hc Hcv).
  - done.
  - intros j. rewrite Hqs. destruct (decide (j = k)) as [->|].
    + rewrite list_lookup_insert_eq, Hq by done. simpl. by rewrite (ss_channel _ _ Hslot).
    + by rewrite list_lookup_insert_ne.
  - intros c cvc Hc. destruct (decide (c = ch)) as [->|]; [congruence|]. by rewrite <- Hsame.
  - intros c cvc Hc Hne. rewrite Hsame; [done|]. intros ->. by apply (Hne k q).
Qed.

Lemma destroy_loop_run a count : forall k w s,
  dw_states w !! a = Some s -> closing (dw_native w) a s k -> (k + count)%nat = maximum_query_capacity ->
  exists s' w', destroy_loop lib count k a w = Ret w' /\ beside w w' a s' /\
    closing (dw_native w') a s' maximum_query_capacity /\ dropped (dw_native w) (dw_native w') k s s'.
Proof.
  induction count as [|count IH]; intros k w s Hs Hcl Hk; cbn [destroy_loop].
  { exists s, w. replace maximum_query_capacity with k by lia. split; [done|]. split; [|split; [done|apply dropped_refl]].
    split; try done. simpl. by rewrite insert_id. }
  rewrite (the_state_ret w a s Hs). cbn [mbind outcome_bind]. unfold the_query at 1.
  destruct (lookup_lt_is_Some_2 (st_queries s) k) as [q Hq]; [rewrite (cg_queries _ _ _ _ Hcl); lia|].
  rewrite Hq. cbn [mbind outcome_bind]. destruct (q_channel q) as [ch|] eqn:Hch.
  - destruct (destroy_step w a s k q ch Hs Hcl Hq Hch) as (s1 & w1 & -> & Hb & Hcl1 & Hd1). cbn [mbind outcome_bind].
    destruct (IH (S k) w1 s1) as (s' & w' & E & Hb' & Hcl' & Hd'); [by eapply beside_state|done|lia|].
    exists s', w'. split; [done|]. split; [by eapply beside_trans|]. split; [done|].
    eapply dropped_trans; [|exact Hd1|exact Hd']. lia.
  - cbn [mbind outcome_bind]. destruct (IH (S k) w s) as (s' & w' & E & Hb' & Hcl' & Hd'); [done| |lia|].
    + destruct Hcl as [H1 H2 H3 H4 H5]. split; try done.
      * intros j qj Hj. apply H3. lia.
      * intros j qj c Hj Hqj Hc. destruct (decide (j = k)) as [->|]; [congruence|]. apply (H4 j qj); [lia|done..].
    + exists s', w'. split; [done|]. split; [done|]. split; [done|].
      eapply dropped_trans; [|apply dropped_refl|exact Hd']. lia.
Qed.

(** The state and all its channels are gone; nothing else of the library changed. *)
Lemma release_resolver_run w a s la l :
  world_ok w -> dw_states w !! a = Some s -> st_lifecycle s = Some la -> dw_lifecycles w !! la = Some l ->
  exists w', DnsResolver_release lib (MkDnsResolver (Some a)) w = Ret (MkDnsResolver None, w') /\ world_ok w' /\
    dw_states w' = delete a (dw_states w) /\ dw_completions w' = dw_completions w /\ dw_process w' = dw_process w /\
    dw_lifecycles w' = <[la := MkDnsDependencyLifecycle (dl_process l)
      (if dl_live_resolvers l =? 0 then 0 else dl_live_resolvers l - 1) (dl_initialized l)]> (dw_lifecycles w) /\
    (forall c cv, view (dw_native w') c = Some cv <-> view (dw_native w) c = Some cv /\ sc_state (cv_context cv) <> a).
Proof.
  intros Hok Hs Hla Hl. pose proof (proj1 Hok a s Hs) as Hso. unfold DnsResolver_release. cbn [dr_state].
  rewrite (the_state_ret w a s Hs). cbn [mbind outcome_bind]. set (s0 := set_shutting_down s). set (w0 := set_state w a s0).
  destruct (destroy_loop_run a maximum_query_capacity 0 w0 s0) as (s' & w1 & E & Hb & Hcl & Hd).
  { apply lookup_insert_eq. }
  { destruct Hso as [[H1 [_ H2] H3 H4] H5 [] H7]. split; try done; [intros; by apply H5|intros; lia]. }
  { done. }
  rewrite E. cbn [mbind outcome_bind]. rewrite (the_state_ret w1 a s') by (by eapply beside_state).
  cbn [mbind outcome_bind]. pose proof Hd as [Hf Hch Hold Hkept]. rewrite (sf_lifecycle _ _ Hf). simpl st_lifecycle. rewrite Hla.
  destruct Hb as [_ B2 B3 B4 B5]. simpl in B2, B3, B4, B5. simpl dw_lifecycles. rewrite B3, Hl.
  assert (Hslots : forall c cv, view (dw_native w) c = Some cv -> sc_state (cv_context cv) = a ->
    exists q, st_queries s !! sc_index (cv_context cv) = Some q /\ q_channel q = Some c).
  { intros c cv Hcv Hctx. destruct (proj2 Hok c cv Hcv) as (s2 & q & Hs2 & Hq & Hc). exists q.
    rewrite Hctx, Hs in Hs2. by injection Hs2 as <-. }
  assert (Hviews : forall c cv, view (dw_native w1) c = Some cv <-> view (dw_native w) c = Some cv /\ sc_state (cv_context cv) <> a).
  { intros c cv. split.
    - intros Hc. split; [by apply Hold|]. intros Hctx. destruct (Hslots c cv (Hold c cv Hc) Hctx) as (q & Hq & Hqc).
      pose proof (Hch (sc_index (cv_context cv))) as Hq'. simpl st_queries in Hq'. rewrite Hq in Hq'. simpl in Hq'.
      destruct (st_queries s' !! sc_index (cv_context cv)) as [q'|] eqn:Eq'; [|done]. simpl in Hq'.
      rewrite (cg_gone _ _ _ _ Hcl (sc_index (cv_context cv)) q' c) in Hc; [done| |done|congruence].
      rewrite <- (cg_queries _ _ _ _ Hcl). by eapply lookup_lt_Some.
    - intros [Hc Hctx]. apply Hkept; [done|]. intros j q _ Hq Hqc.
      pose proof (rest_context _ _ _ _ _ _ (so_slots _ _ _ Hso j q Hq) Hqc Hc) as E'. by rewrite E' in Hctx. }
  assert (Hstates : delete a (dw_states w1) = delete a (dw_states w))
    by (rewrite B2; by rewrite delete_insert_eq, delete_insert_eq).
  eexists. split; [done|].
  assert (Hok1 : forall w', dw_native w' = dw_native w1 -> dw_states w' = delete a (dw_states w) -> world_ok w').
  { intros w' Hn Hst. split.
    - rewrite Hst, Hn. intros b t Hb. apply lookup_delete_Some in Hb as [Hne Hb].
      pose proof (proj1 Hok b t Hb) as Ht. apply (state_ok_view _ _ _ _ Ht). intros j q c Hq Hc.
      destruct (so_slots _ _ _ Ht j q Hq) as [_ _ _ Hr]. destruct (q_active q); [|congruence].
      destruct Hr as (c' & cv & Hc' & Hcv & Hctx & _). assert (c' = c) as -> by congruence. rewrite Hcv. apply Hviews.
      split; [done|]. rewrite Hctx. simpl. congruence.
    - unfold no_orphans. rewrite Hst, Hn. intros c cv Hcv. apply Hviews in Hcv as [Hcv Hctx]. rewrite lookup_delete_ne by done.
      by apply (proj2 Hok). }
  destruct (Z.eqb_spec (dl_live_resolvers l) 0) as [E0|]; simpl negb; cbv iota.
  - split; [by apply Hok1|]. simpl. rewrite B4, B5, Hstates, B3. split; [done|]. split; [done|]. split; [done|].
    split; [|done]. rewrite insert_id; [done|]. rewrite Hl. destruct l. simpl in *. by rewrite E0.
  - split; [by apply Hok1|]. simpl. rewrite B4, B5, Hstates, B3. done.
Qed.

(** ** Creation *)

(** A state just created: no query yet, and the next token is the first. *)
Record fresh_state (a : nat) (config : DnsResolverConfig) (sink : DnsQuerySink) s : Prop := {
  fs_config : st_lifecycle s = rc_lifecycle config /\ st_limits s = rc_limits config /\ st_sink s = sink;
  fs_tokens : active_tokens s = [] /\ st_next_token s = 1;
  fs_explicit : st_has_explicit_nameservers s = bool_decide (rc_nameservers config <> []) }.

Lemma initial_queries a (q : Slot) n j q' :
  q_owner q = Some a -> length (q_completed_addresses q) = maximum_address_capacity -> q_active q = false ->
  q_native_done q = false /\ q_canceling q = false /\ q_socket_capacity_failed q = false -> q_channel q = None ->
  replicate maximum_query_capacity q !! j = Some q' -> slot_rest n a j q'.
Proof.
  intros Ho Hl Ha Hf Hc Hq. apply lookup_replicate in Hq as [-> _]. split; try done. by rewrite Ha.
Qed.

Lemma filter_replicate_false (m : nat) q :
  q_active q = false -> filter (fun q => q_active q = true) (replicate m q) = [].
Proof. intros Ha. induction m as [|m IH]; [done|]. simpl. rewrite filter_cons_False by congruence. done. Qed.

Lemma initial_ok n a config sink (log : DependencyLogSink L) csv explicit :
  valid_resolver_config config sink = true ->
  (explicit = true -> exists text, c_string_read csv = Some text) ->
  1 <= rl_maximum_outstanding_queries (rc_limits config) -> 1 <= rl_maximum_result_addresses (rc_limits config) ->
  let s0 := initial_state (CH:=CH) a config sink log in
  let s := MkState (st_lifecycle s0) (st_limits s0) (st_sink s0) (st_log s0) (st_queries s0) (st_sockets s0) csv
    (st_next_token s0) (st_outstanding s0) (st_socket_count s0) explicit false in
  state_ok n a s.
Proof.
  intros Hv Hcsv H1 H2 s0 s. unfold valid_resolver_config in Hv. rewrite negb_true_iff, !orb_false_iff in Hv.
  destruct Hv as (((((((((_ & Hq) & _) & Hr) & _) & _) & _) & _) & _) & _).
  apply Z.ltb_ge in Hq, Hr.
  assert (Htok : active_tokens s = []) by (unfold active_tokens, s, s0, initial_state; cbn [st_queries]; by rewrite filter_replicate_false).
  split.
  - split; [apply length_replicate|simpl; lia|done|done].
  - intros j q Hj. by eapply initial_queries; [..|exact Hj].
  - split; [apply length_replicate|simpl; lia| | |].
    + simpl. constructor.
    + simpl. constructor.
    + intros j cv d r wr Hj. unfold views_of, s, s0, initial_state in Hj. cbn [st_queries] in Hj.
      destruct (replicate maximum_query_capacity _ !! j) as [q|] eqn:E; [|done].
      apply lookup_replicate in E as [-> _]. done.
  - rewrite Htok. simpl. lia.
Qed.

(** Limits are unsigned. *)
Definition config_ok (config : DnsResolverConfig) : Prop :=
  0 <= rl_maximum_outstanding_queries (rc_limits config) /\ 0 <= rl_maximum_result_addresses (rc_limits config) /\
  Forall port_ok (rc_nameservers config).

(** A creation fails and changes nothing, or makes one more resolver at rest, counted by its
    lifecycle, which is initialized in this process. *)
Lemma create_run w config sink (log : DependencyLogSink L) allocated :
  world_ok w -> config_ok config ->
  (forall la, rc_lifecycle config = Some la -> is_Some (dw_lifecycles w !! la)) ->
  (forall a, allocated = Some a -> dw_states w !! a = None) ->
  exists r w', DnsResolver_create lib w config sink log allocated = Ret (r, w') /\
  match r with
  | Err _ => w' = w
  | Ok resolver => exists a s la l, resolver = MkDnsResolver (Some a) /\ allocated = Some a /\ fresh_state a config sink s /\
      world_ok w' /\ dw_states w' = <[a := s]> (dw_states w) /\ dw_native w' = dw_native w /\
      dw_completions w' = dw_completions w /\ dw_process w' = dw_process w /\
      rc_lifecycle config = Some la /\ dw_lifecycles w !! la = Some l /\
      dl_initialized l = true /\ dl_process l = current_process w /\
      dw_lifecycles w' = <[la := MkDnsDependencyLifecycle (dl_process l) (u32 (dl_live_resolvers l + 1)) true]> (dw_lifecycles w)
  end.
Proof.
  intros Hok (Hc1 & Hc2 & Hports) Hlife Hfresh. unfold DnsResolver_create.
  destruct (rc_lifecycle config) as [la|] eqn:Hla; [|by eexists _, _]. destruct (Hlife la eq_refl) as [l Hl]. rewrite Hl.
  destruct (dl_initialized l) eqn:Hi; [|by eexists _, _].
  destruct (Z.eqb_spec (dl_process l) (current_process w)) as [Hp|]; [|by eexists _, _]. cbn [negb orb].
  destruct (valid_resolver_config config sink) eqn:Hv; [|by eexists _, _]. cbn [negb].
  destruct allocated as [a|]; [|by eexists _, _].
  assert (Hlim : 1 <= rl_maximum_outstanding_queries (rc_limits config) /\ 1 <= rl_maximum_result_addresses (rc_limits config) /\
    (length (rc_nameservers config) <= maximum_nameserver_capacity)%nat).
  { unfold valid_resolver_config in Hv. rewrite negb_true_iff, !orb_false_iff in Hv.
    destruct Hv as (((((((((E1 & _) & E2) & _) & _) & _) & _) & _) & E3) & _).
    apply Z.eqb_neq in E1, E2. apply Nat.ltb_ge in E3. lia. }
  destruct Hlim as (Hl1 & Hl2 & Hl3).
  assert (Hdone : forall csv explicit, (explicit = true -> exists text, c_string_read csv = Some text) ->
    explicit = bool_decide (rc_nameservers config <> []) ->
    let s0 := initial_state (CH:=CH) a config sink log in
    let s := MkState (st_lifecycle s0) (st_limits s0) (st_sink s0) (st_log s0) (st_queries s0) (st_sockets s0) csv
      (st_next_token s0) (st_outstanding s0) (st_socket_count s0) explicit false in
    let w' := set_lifecycle (set_state w a s) la (MkDnsDependencyLifecycle (dl_process l) (u32 (dl_live_resolvers l + 1)) true) in
    exists a' s' la' l', MkDnsResolver (Some a) = MkDnsResolver (Some a') /\ Some a = Some a' /\ fresh_state a' config sink s' /\
      world_ok w' /\ dw_states w' = <[a' := s']> (dw_states w) /\ dw_native w' = dw_native w /\
      dw_completions w' = dw_completions w /\ dw_process w' = dw_process w /\
      Some la = Some la' /\ dw_lifecycles w !! la' = Some l' /\
      dl_initialized l' = true /\ dl_process l' = current_process w /\
      dw_lifecycles w' = <[la' := MkDnsDependencyLifecycle (dl_process l') (u32 (dl_live_resolvers l' + 1)) true]> (dw_lifecycles w)).
  { intros csv explicit Hcsv Hex s0 s w'. exists a, s, la, l. split; [done|]. split; [done|]. split.
    { split; [done| |done]. split; [|done]. unfold active_tokens, s, s0, initial_state. cbn [st_queries]. by rewrite filter_replicate_false. }
    split; [|done]. split.
    - intros b t Hb. simpl in Hb. apply lookup_insert_Some in Hb as [[<- <-]|[Hne Hb]]; [by apply initial_ok|].
      by apply (proj1 Hok).
    - intros c cv Hcv. destruct (proj2 Hok c cv Hcv) as (t & q & Ht & Hq). exists t, q. simpl.
      rewrite lookup_insert_ne; [done|]. intros ->. rewrite (Hfresh _ eq_refl) in Ht. done. }
  destruct (rc_nameservers config) as [|server servers] eqn:Hns.
  - eexists _, _. split; [done|]. by apply (Hdone (replicate nameserver_csv_capacity Ascii.zero) false).
  - destruct (csv_after_run (server :: servers) [] Hports) as [Hrun Hfit];
      [unfold nameserver_csv_capacity, maximum_nameserver_capacity in *; simpl in *; lia|set_solver|].
    assert (Hrun' : append_nameservers lib (server :: servers)
      (st_nameserver_csv (initial_state (CH:=CH) a config sink log)) 0 = _) by exact Hrun.
    rewrite Hrun'. clear Hrun Hrun'.
    destruct (csv_after [] (server :: servers)) as [text|e]; cbn [mbind Result_bind]; [|by eexists _, _].
    destruct Hfit as (H1 & H2 & _). eexists _, _. split; [done|].
    apply (Hdone (csv_buffer text) true); [|done]. intros _. exists text. apply csv_buffer_reads; [|done].
    unfold nameserver_csv_capacity, maximum_nameserver_capacity in *. simpl in *. lia.
Qed.

(** ** Observers *)

(** The interests are the sockets the channels have open, each once. *)
Lemma interests_run w a s capacity :
  dw_states w !! a = Some s -> state_ok (dw_native w) a s ->
  if capacity <? st_socket_count s then DnsResolver_socket_interests (MkDnsResolver (Some a)) w capacity = Ret (Err dns_interest_error)
  else exists interests, DnsResolver_socket_interests (MkDnsResolver (Some a)) w capacity = Ret (Ok interests) /\
    Z.of_nat (length interests) = st_socket_count s /\ NoDup (map si_descriptor interests) /\
    forall d r wr, MkDnsSocketInterest d r wr ∈ interests <->
      exists j cv, views_of (dw_native w) s j = Some cv /\ cv_sockets cv !! d = Some (r, wr).
Proof.
  intros Hs Hso. unfold DnsResolver_socket_interests. cbn [dr_state]. rewrite (the_state_ret w a s Hs). cbn [mbind outcome_bind].
  destruct (_ <? _); [done|]. fold (table s). eexists. split; [done|].
  pose proof (so_table _ _ _ Hso) as Ht. split; [rewrite length_map, (table_length s _ Ht); destruct Ht; lia|].
  destruct Ht as [_ _ Hu Hsound Hcomp]. split; [by rewrite map_map|]. intros d r wr. split.
  - intros Hin. apply list_elem_of_fmap in Hin as (k & [= -> -> ->] & Hk). rewrite list.Forall_forall in Hsound.
    destruct (Hsound k Hk) as (j & cv & _ & Hv & Hd). by exists j, cv.
  - intros (j & cv & Hv & Hd). apply list_elem_of_fmap. exists (MkSocketSlot d (Some j) r wr). split; [done|].
    apply (Hcomp j cv); [done| |done]. intros (q & Hq & Hf). destruct (so_slots _ _ _ Hso j q Hq) as [_ _ (_ & _ & E) _]. congruence.
Qed.

(** The timeouts the library gives for the active queries, in milliseconds. *)
Definition timeouts n s : list Z :=
  omap (fun q => match q_active q, q_channel q with
                 | true, Some ch => match ares_timeout lib ch n with Ret (Some t) => Some (timeout_milliseconds t) | _ => None end
                 | _, _ => None
                 end) (st_queries s).

Definition earlier (result : DnsTimeout) (ms : Z) : DnsTimeout :=
  if negb (dt_active result) || (ms <? dt_milliseconds result) then MkDnsTimeout true ms else result.

Lemma timeout_loop_run n (queries : list Slot) : forall result,
  Forall (fun q => forall ch, q_active q = true -> q_channel q = Some ch -> is_Some (view n ch)) queries ->
  timeout_loop lib n queries result = Ret (fold_left earlier
    (omap (fun q => match q_active q, q_channel q with
                    | true, Some ch => match ares_timeout lib ch n with Ret (Some t) => Some (timeout_milliseconds t) | _ => None end
                    | _, _ => None
                    end) queries) result).
Proof.
  induction queries as [|q queries IH]; intros result Hq; [done|]. apply list.Forall_cons in Hq as [Hq Hqs].
  cbn [timeout_loop omap list_omap]. destruct (q_active q); [|by apply IH]. destruct (q_channel q) as [ch|]; [|by apply IH].
  destruct (Hq ch eq_refl eq_refl) as [cv Hcv]. destruct (law_ares_timeout n ch cv Hcv) as [[t|] ->]; cbn [mbind outcome_bind]; by apply IH.
Qed.

Lemma earliest (l : list Z) : forall result,
  let r := fold_left earlier l result in
  if dt_active result || negb (length l =? 0)%nat then
    dt_active r = true /\ (dt_active result = true -> dt_milliseconds r <= dt_milliseconds result) /\
    Forall (fun ms => dt_milliseconds r <= ms) l /\ (r = result \/ dt_milliseconds r ∈ l)
  else r = result.
Proof.
  induction l as [|ms l IH]; intros result; simpl.
  { rewrite orb_false_r. destruct (dt_active result) eqn:E; [|done]. split; [done|]. split; [lia|]. split; [constructor|by left]. }
  rewrite orb_true_r. specialize (IH (earlier result ms)). simpl in IH.
  assert (Hact : dt_active (earlier result ms) = true /\ dt_milliseconds (earlier result ms) <= ms /\
    (dt_active result = true -> dt_milliseconds (earlier result ms) <= dt_milliseconds result) /\
    (earlier result ms = result \/ dt_milliseconds (earlier result ms) = ms)).
  { unfold earlier. destruct (dt_active result) eqn:E; simpl.
    - destruct (Z.ltb_spec ms (dt_milliseconds result)); simpl; [|rewrite E]; repeat split; try lia; auto.
    - repeat split; try lia; auto. }
  destruct Hact as (A1 & A2 & A3 & A4). rewrite A1 in IH. simpl in IH. destruct IH as (B1 & B2 & B3 & B4).
  specialize (B2 eq_refl). split; [done|]. split; [intros H; specialize (A3 H); lia|].
  split; [constructor; [lia|done]|]. destruct B4 as [->|B4]; [|right; by apply elem_of_cons; right].
  destruct A4 as [->|A4]; [by left|]. right. rewrite A4. apply elem_of_cons. by left.
Qed.

(** The next timeout is the earliest of those the library gives, if any. *)
Lemma next_timeout_run w a s :
  dw_states w !! a = Some s -> state_ok (dw_native w) a s ->
  exists r, DnsResolver_next_timeout lib (MkDnsResolver (Some a)) w = Ret r /\
    match timeouts (dw_native w) s with
    | [] => r = MkDnsTimeout false 0
    | l => dt_active r = true /\ dt_milliseconds r ∈ l /\ Forall (fun ms => dt_milliseconds r <= ms) l
    end.
Proof.
  intros Hs Hso. unfold DnsResolver_next_timeout. cbn [dr_state]. rewrite (the_state_ret w a s Hs). cbn [mbind outcome_bind].
  rewrite timeout_loop_run.
  - fold (timeouts (dw_native w) s). eexists. split; [done|]. pose proof (earliest (timeouts (dw_native w) s) (MkDnsTimeout false 0)) as He.
    destruct (timeouts (dw_native w) s) as [|ms l]; [done|]. cbn [dt_active orb length Nat.eqb negb] in He.
    destruct He as (H1 & _ & H3 & H4). split; [done|]. split; [|done]. destruct H4 as [E|]; [|done]. by rewrite E in H1.
  - apply list.Forall_forall. intros q Hq ch Ha Hch. apply list_elem_of_lookup in Hq as [j Hj].
    destruct (so_slots _ _ _ Hso j q Hj) as [_ _ _ Hr]. rewrite Ha in Hr. destruct Hr as (ch' & cv & Hch' & Hcv & _).
    exists cv. congruence.
Qed.
End lifetime.
