(* ===== verification/DnsClient.v ===== *)
(** * Every query is answered once

    Programs that create, use, move and destroy resolvers and drive the lifecycle of the library
    in any order.  The tokens a program was given are its completed and its active queries, each
    once; the library holds exactly the channels of the active ones; and the library is not
    cleaned up under a live resolver.  Last a library that satisfies [AresLaws], and the
    witnesses. *)
From S2P Require Import Prelude Contract CheckedArithmetic Views Dependencies DependencyLifecycle Dns DnsSpec DnsNameservers DnsQueries DnsOperations DnsLifetime.
From Stdlib Require Import ZArith Lia String Ascii.
From stdpp Require Import base numbers list gmap option.

Set Default Goal Selector "!".
#[local] Open Scope Z_scope.

Section clients.
Context {N CH R L : Type} `{EqDecision CH} {lib : Ares N CH R} {laws : AresLaws lib}.
Abbreviation Slot := (QuerySlot (CH:=CH)).
Abbreviation Resolver := (State (CH:=CH) (L:=L)).
Abbreviation World := (DnsWorld (N:=N) (CH:=CH) (R:=R) (L:=L)).
Implicit Types (n : N) (s : Resolver) (w : World) (q : Slot).

(** ** Programs *)

(** The resolver objects of a program by number, and for each live state the tokens [resolve]
    returned, with the number of completions there had been at its creation. *)
Record Client := MkClient {
  cl_world : World; cl_objects : gmap nat DnsResolver; cl_history : gmap nat (list Z * nat) }.
Implicit Types (c : Client).

Inductive Hook := HookPreflight | HookWorkerInitialize | HookWorkerCleanup | HookMasterCleanup.

Inductive Op :=
  | OpCreate (o : nat) (config : DnsResolverConfig) (sink : DnsQuerySink) (log : DependencyLogSink L) (allocated : option nat)
  | OpMove (o o' : nat)
  | OpAssign (o o' : nat)
  | OpDestroy (o : nat)
  | OpResolve (o : nat) (hostname : TextView) (family : DnsQueryFamily)
  | OpCancel (o : nat) (token : DnsQueryToken)
  | OpEvents (o : nat) (events : list DnsSocketEvent)
  | OpTimeout (o : nat)
  | OpHook (la : nat) (hook : Hook).

Definition object c (o : nat) : outcome DnsResolver :=
  match cl_objects c !! o with None => Stop Undefined | Some r => Ret r end.
Definition with_world c w : Client := MkClient w (cl_objects c) (cl_history c).
Definition with_objects c (objects : gmap nat DnsResolver) : Client := MkClient (cl_world c) objects (cl_history c).

(** The hook functions of a lifecycle object; all are set. *)
Definition run_hook w (la : nat) (hook : Hook) : World :=
  let hooks := DnsDependencyLifecycle_hooks lib la in
  match hook with
  | HookPreflight => match lh_preflight hooks with Some f => snd (f w) | None => w end
  | HookWorkerInitialize => match lh_worker_initialize hooks with Some f => snd (f w) | None => w end
  | HookWorkerCleanup => match lh_worker_cleanup hooks with Some f => snd (f w) | None => w end
  | HookMasterCleanup => match lh_master_cleanup hooks with Some f => snd (f w) | None => w end
  end.

Definition exec c (op : Op) : outcome Client :=
  match op with
  | OpCreate o config sink log allocated =>
      '(r, w) ← DnsResolver_create lib (cl_world c) config sink log allocated;
      match r with
      | Err _ => Ret (with_world c w)
      | Ok resolver =>
          Ret (MkClient w (<[o := resolver]> (cl_objects c))
                 (match dr_state resolver with
                  | Some a => <[a := ([], length (dw_completions w))]> (cl_history c)
                  | None => cl_history c
                  end))
      end
  | OpMove o o' =>
      r ← object c o;
      let '(new, old) := DnsResolver_move_construct r in
      Ret (with_objects c (<[o' := new]> (<[o := old]> (cl_objects c))))
  | OpAssign o o' =>
      this ← object c o; other ← object c o';
      '(new, old, w) ← DnsResolver_move_assign lib this other (cl_world c);
      Ret (MkClient w (<[o := new]> (<[o' := old]> (cl_objects c))) (cl_history c))
  | OpDestroy o =>
      r ← object c o;
      w ← DnsResolver_destroy lib r (cl_world c);
      Ret (MkClient w (delete o (cl_objects c)) (cl_history c))
  | OpResolve o hostname family =>
      this ← object c o;
      '(r, w) ← DnsResolver_resolve lib this (cl_world c) hostname family;
      Ret (MkClient w (cl_objects c)
             (match r, dr_state this with
              | Ok token, Some a => alter (fun h => (token_value token :: h.1, h.2)) a (cl_history c)
              | _, _ => cl_history c
              end))
  | OpCancel o token =>
      this ← object c o; '(_, w) ← DnsResolver_cancel lib this (cl_world c) token; Ret (with_world c w)
  | OpEvents o events =>
      this ← object c o; '(_, w) ← DnsResolver_process_events lib this (cl_world c) events; Ret (with_world c w)
  | OpTimeout o =>
      this ← object c o; '(_, w) ← DnsResolver_process_timeout lib this (cl_world c); Ret (with_world c w)
  | OpHook la hook => Ret (with_world c (run_hook (cl_world c) la hook))
  end.

Fixpoint run_ops c (ops : list Op) : outcome Client :=
  match ops with [] => Ret c | op :: ops => c ← exec c op; run_ops c ops end.

(** What a program may do: objects exist and new ones are new, [operator new] returns storage no
    live state has, lifecycle objects outlive their resolvers, and a lifecycle counts fewer than
    [2^32 - 1] of them. *)
Definition legal c (op : Op) : Prop :=
  match op with
  | OpCreate o config sink log allocated =>
      cl_objects c !! o = None /\ config_ok config /\
      (forall la, rc_lifecycle config = Some la ->
         exists l, dw_lifecycles (cl_world c) !! la = Some l /\ dl_live_resolvers l < 4294967295) /\
      (forall a, allocated = Some a -> dw_states (cl_world c) !! a = None)
  | OpMove o o' => is_Some (cl_objects c !! o) /\ cl_objects c !! o' = None
  | OpAssign o o' => is_Some (cl_objects c !! o) /\ is_Some (cl_objects c !! o') /\ o <> o'
  | OpDestroy o | OpResolve o _ _ | OpCancel o _ | OpEvents o _ | OpTimeout o => is_Some (cl_objects c !! o)
  | OpHook la _ => is_Some (dw_lifecycles (cl_world c) !! la)
  end.

Fixpoint legal_run c (ops : list Op) : Prop :=
  match ops with
  | [] => True
  | op :: ops => legal c op /\ forall c', exec c op = Ret c' -> legal_run c' ops
  end.

(** ** The invariant *)

(** The completions made for the state at [a] since there had been [base] of them. *)
Definition answers (a base : nat) (log : list (nat * DnsQuerySink * DnsQueryResult)) : list (DnsQuerySink * DnsQueryResult) :=
  omap (fun '(b, sink, r) => if decide (b = a) then Some (sink, r) else None) (take (length log - base) log).

(** The tokens of a resolver: issued once, answered or active. *)
Record accounted (a : nat) s (issued : list Z) (base : nat) (log : list (nat * DnsQuerySink * DnsQueryResult)) : Prop := {
  ac_base : (base <= length log)%nat;
  ac_tokens : issued ≡ₚ map (fun x => result_token x.2) (answers a base log) ++ active_tokens s;
  ac_unique : NoDup issued;
  ac_fresh : Forall (fun t => 1 <= t /\ (st_next_token s = 0 \/ t < st_next_token s)) issued;
  ac_next : 0 <= st_next_token s < 2 ^ 64;
  ac_answers : Forall (fun x => x.1 = st_sink s /\ result_ok (rl_maximum_result_addresses (st_limits s)) x.2) (answers a base log) }.

(** The states of the resolvers of one lifecycle. *)
Definition resolvers_of w (la : nat) : gmap nat Resolver := filter (fun x => st_lifecycle x.2 = Some la) (dw_states w).

Record client_ok c : Prop := {
  co_world : world_ok (cl_world c);
  co_objects : forall o a, cl_objects c !! o = Some (MkDnsResolver (Some a)) -> is_Some (dw_states (cl_world c) !! a);
  co_owner : forall a, is_Some (dw_states (cl_world c) !! a) -> exists o, cl_objects c !! o = Some (MkDnsResolver (Some a));
  co_single : forall o o' a, cl_objects c !! o = Some (MkDnsResolver (Some a)) ->
    cl_objects c !! o' = Some (MkDnsResolver (Some a)) -> o = o';
  co_lifecycle : forall a s, dw_states (cl_world c) !! a = Some s ->
    exists la l, st_lifecycle s = Some la /\ dw_lifecycles (cl_world c) !! la = Some l /\ dl_initialized l = true;
  co_counts : forall la l, dw_lifecycles (cl_world c) !! la = Some l ->
    dl_live_resolvers l = Z.of_nat (size (resolvers_of (cl_world c) la));
  co_history : forall a s, dw_states (cl_world c) !! a = Some s ->
    exists issued base, cl_history c !! a = Some (issued, base) /\
      accounted a s issued base (dw_completions (cl_world c)) }.

(** ** Accounting *)
Lemma answers_push a b base sink results log :
  (base <= length log)%nat ->
  answers a base (map (fun r => (b, sink, r)) results ++ log) =
    (if decide (b = a) then map (pair sink) results else []) ++ answers a base log.
Proof.
  intros Hb. unfold answers. rewrite length_app, length_map.
  replace (length results + length log - base)%nat with (length (map (fun r => (b, sink, r)) results) + (length log - base))%nat
    by (rewrite length_map; lia).
  rewrite take_app_add, omap_app. f_equal. clear.
  destruct (decide (b = a)) as [->|Hne]; induction results as [|r results IH]; try done; simpl.
  - rewrite decide_True by done. f_equal. exact IH.
  - rewrite decide_False by done. exact IH.
Qed.

Lemma answers_none a log : answers a (length log) log = [].
Proof. unfold answers. by rewrite Nat.sub_diag. Qed.

(** The next token is the same or one later. *)
Definition advanced s s' : Prop :=
  st_next_token s' = st_next_token s \/ st_next_token s <> 0 /\ st_next_token s' = u64 (st_next_token s + 1).
Definition opens s s' (opened : list Z) : Prop :=
  opened = [] /\ advanced s s' \/
  opened = [st_next_token s] /\ st_next_token s <> 0 /\ st_next_token s' = u64 (st_next_token s + 1).

Lemma fresh_advanced s s' t :
  0 <= st_next_token s < 2 ^ 64 -> advanced s s' -> st_next_token s = 0 \/ t < st_next_token s ->
  st_next_token s' = 0 \/ t < st_next_token s'.
Proof.
  intros Hn [->|[Hnz ->]] Ht; [done|]. unfold u64. change (2 ^ 64) with 18446744073709551616 in *.
  destruct (decide (st_next_token s + 1 = 18446744073709551616)) as [->|]; [by left|right]. rewrite Z.mod_small by lia. lia.
Qed.

Lemma opens_advanced s s' opened : opens s s' opened -> advanced s s'.
Proof. intros [[_ H]|[_ H]]; [done|by right]. Qed.

Lemma accounted_ran w w' a s s' opened results issued base :
  ran w w' a s s' opened results -> opens s s' opened -> accounted a s issued base (dw_completions w) ->
  accounted a s' (opened ++ issued) base (dw_completions w').
Proof.
  intros Hran Hopen [H1 H2 H3 H4 H5 H6]. pose proof (opens_advanced _ _ _ Hopen) as Hadv.
  destruct Hran as [_ _ _ Hlog (_ & Hlim & Hsink) Hres Htok]. rewrite Hlog.
  assert (Hans : answers a base (map (fun r => (a, st_sink s, r)) results ++ dw_completions w) =
    map (pair (st_sink s)) results ++ answers a base (dw_completions w)) by (rewrite answers_push, decide_True by done; done).
  split.
  - rewrite length_app. lia.
  - rewrite Hans, map_app, map_map. simpl. rewrite H2. rewrite <- app_assoc.
    rewrite (Permutation_app_comm (map _ results)), <- app_assoc.
    rewrite (Permutation_app_comm (active_tokens s')). change (map (fun x => result_token x) results) with (map result_token results).
    rewrite <- Htok. solve_Permutation.
  - destruct Hopen as [[-> _]|(-> & Hnz & _)]; [done|]. simpl. constructor; [|done]. intros Hin.
    rewrite list.Forall_forall in H4. destruct (H4 _ Hin) as [_ [?|?]]; lia.
  - apply Forall_app. split.
    + destruct Hopen as [[-> _]|(-> & Hnz & Hnext)]; [constructor|]. constructor; [|constructor]. split; [lia|].
      rewrite Hnext. unfold u64. change (2 ^ 64) with 18446744073709551616 in *.
      destruct (decide (st_next_token s + 1 = 18446744073709551616)) as [->|]; [by left|right]. rewrite Z.mod_small by lia. lia.
    + eapply list.Forall_impl; [exact H4|]. intros t [Ht1 Ht2]. split; [done|]. by eapply fresh_advanced.
  - destruct Hadv as [->|[_ ->]]; [done|]. apply Z.mod_pos_bound. lia.
  - rewrite Hans, Hlim, Hsink. apply Forall_app. split; [|done]. apply Forall_map.
    eapply list.Forall_impl; [exact Hres|]. done.
Qed.

Lemma accounted_other w w' a s s' opened results b t issued base :
  ran w w' a s s' opened results -> b <> a ->
  accounted b t issued base (dw_completions w) -> accounted b t issued base (dw_completions w').
Proof.
  intros [_ _ _ Hlog _ _ _] Hne [H1 H2 H3 H4 H5 H6]. rewrite Hlog.
  assert (Hans : answers b base (map (fun r => (a, st_sink s, r)) results ++ dw_completions w) = answers b base (dw_completions w))
    by (rewrite answers_push, decide_False by done; done).
  split; rewrite ?Hans; try done. rewrite length_app. lia.
Qed.

(** ** Counting *)
Lemma counts_update (states : gmap nat Resolver) a s s' la :
  states !! a = Some s -> st_lifecycle s' = st_lifecycle s ->
  size (filter (fun x => st_lifecycle x.2 = Some la) (<[a := s']> states)) =
  size (filter (fun x => st_lifecycle x.2 = Some la) states).
Proof.
  intros Ha Hl. rewrite map_filter_insert. destruct (decide _) as [Hla|Hla]; simpl in Hla; rewrite Hl in Hla.
  - rewrite map_size_insert_Some; [done|]. exists s. by apply map_lookup_filter_Some.
  - rewrite map_filter_delete, delete_id; [done|]. apply map_lookup_filter_None. right. intros x Hx. simpl.
    assert (x = s) as -> by congruence. done.
Qed.

Lemma counts_delete (states : gmap nat Resolver) a s la la' :
  states !! a = Some s -> st_lifecycle s = Some la' ->
  (size (filter (fun x => st_lifecycle x.2 = Some la) (delete a states)) + (if decide (la = la') then 1 else 0))%nat =
  size (filter (fun x => st_lifecycle x.2 = Some la) states).
Proof.
  intros Ha Hl. rewrite map_filter_delete. destruct (decide (la = la')) as [->|Hne].
  - assert (filter (fun x => st_lifecycle x.2 = Some la') states !! a = Some s) as Hin by (by apply map_lookup_filter_Some).
    pose proof (map_size_delete_Some _ _ (mk_is_Some _ _ Hin)) as E.
    assert (size (filter (fun x => st_lifecycle x.2 = Some la') states) <> 0)%nat; [|lia].
    intros Hz. apply map_size_empty_inv in Hz. by rewrite Hz in Hin.
  - rewrite delete_id; [lia|]. apply map_lookup_filter_None. right. intros x Hx. simpl. congruence.
Qed.

Lemma counts_insert (states : gmap nat Resolver) a s la la' :
  states !! a = None -> st_lifecycle s = Some la' ->
  size (filter (fun x => st_lifecycle x.2 = Some la) (<[a := s]> states)) =
  (size (filter (fun x => st_lifecycle x.2 = Some la) states) + (if decide (la = la') then 1 else 0))%nat.
Proof.
  intros Ha Hl. rewrite map_filter_insert. destruct (decide (la = la')) as [->|Hne]; simpl.
  - rewrite decide_True by done. rewrite map_size_insert_None; [lia|]. apply map_lookup_filter_None. by left.
  - rewrite decide_False by congruence. rewrite delete_id by done. lia.
Qed.

(** ** Operations on a resolver *)
Lemma client_ran c w' a s s' opened results history :
  client_ok c -> dw_states (cl_world c) !! a = Some s -> ran (cl_world c) w' a s s' opened results -> opens s s' opened ->
  (forall issued base, cl_history c !! a = Some (issued, base) -> history !! a = Some (opened ++ issued, base)) ->
  (forall b, b <> a -> history !! b = cl_history c !! b) ->
  client_ok (MkClient w' (cl_objects c) history).
Proof.
  intros [C1 C2 C3 C4 C5 C6 C7] Hs Hran Hopen Hh Hb. pose proof Hran as [R1 R2 [R3 R4] R5 (R6 & R7 & R8) R9 R10].
  assert (Hdom : forall b, is_Some (dw_states w' !! b) <-> is_Some (dw_states (cl_world c) !! b)).
  { intros b. rewrite R2. destruct (decide (b = a)) as [->|]; [by rewrite lookup_insert_eq, Hs|by rewrite lookup_insert_ne]. }
  split; simpl.
  - done.
  - intros o b Ho. apply Hdom. by eapply C2.
  - intros b Hx. apply C3. by apply Hdom.
  - done.
  - intros b t Ht. rewrite R3. rewrite R2 in Ht. apply lookup_insert_Some in Ht as [[<- <-]|[Hne Ht]].
    + rewrite R6. by apply (C5 a).
    + by apply (C5 b).
  - intros la l Hl. rewrite R3 in Hl. rewrite (C6 la l Hl). unfold resolvers_of. rewrite R2. f_equal. symmetry.
    by apply (counts_update _ a s s').
  - intros b t Ht. rewrite R2 in Ht. apply lookup_insert_Some in Ht as [[<- <-]|[Hne Ht]].
    + destruct (C7 a s Hs) as (issued & base & Hi & Hacc). exists (opened ++ issued), base.
      split; [by apply Hh|]. by eapply accounted_ran.
    + destruct (C7 b t Ht) as (issued & base & Hi & Hacc). exists issued, base.
      split; [by rewrite Hb by done|]. by eapply accounted_other.
Qed.

(** An operation that opens no query. *)
Lemma client_ran_quiet c w' a s s' results :
  client_ok c -> dw_states (cl_world c) !! a = Some s -> ran (cl_world c) w' a s s' [] results ->
  st_next_token s' = st_next_token s -> client_ok (with_world c w').
Proof.
  intros Hc Hs Hran Hn. apply (client_ran c w' a s s' [] results (cl_history c)); try done.
  left. split; [done|by left].
Qed.

(** What a resolver object denotes. *)
Lemma client_object c o r :
  client_ok c -> cl_objects c !! o = Some r ->
  r = MkDnsResolver None \/ exists a s, r = MkDnsResolver (Some a) /\ dw_states (cl_world c) !! a = Some s.
Proof.
  intros Hc Ho. destruct r as [[a|]]; [right|by left]. destruct (co_objects _ Hc o a Ho) as [s Hs]. by exists a, s.
Qed.

(** ** Objects *)
Lemma client_release c o r :
  client_ok c -> cl_objects c !! o = Some r ->
  exists w', DnsResolver_release lib r (cl_world c) = Ret (MkDnsResolver None, w') /\
    client_ok (MkClient w' (<[o := MkDnsResolver None]> (cl_objects c)) (cl_history c)).
Proof.
  intros Hc Ho. destruct (client_object c o r Hc Ho) as [->|(a & s & -> & Hs)].
  { exists (cl_world c). split; [done|]. rewrite insert_id by done. by destruct c. }
  pose proof Hc as [C1 C2 C3 C4 C5 C6 C7]. destruct (C5 a s Hs) as (la & l & Hla & Hl & Hi).
  destruct (release_resolver_run (cl_world c) a s la l C1 Hs Hla Hl) as (w' & E & Hok & Hst & Hlog & Hpr & Hlife & _).
  exists w'. split; [done|].
  pose proof (counts_delete (dw_states (cl_world c)) a s la la Hs Hla) as Hcount. rewrite decide_True in Hcount by done.
  pose proof (C6 la l Hl) as Hlive. unfold resolvers_of in Hlive.
  split; simpl.
  - done.
  - intros o' b Ho'. apply lookup_insert_Some in Ho' as [[_ E']|[Hne Ho']]; [done|].
    rewrite Hst. rewrite lookup_delete_ne; [by eapply C2|]. intros ->. by apply Hne, (C4 o o' b).
  - intros b [t Ht]. rewrite Hst in Ht. apply lookup_delete_Some in Ht as [Hne Ht].
    destruct (C3 b (mk_is_Some _ _ Ht)) as [o' Ho']. exists o'. rewrite lookup_insert_ne; [done|]. intros ->. congruence.
  - intros o1 o2 b H1 H2. apply lookup_insert_Some in H1 as [[_ ?]|[_ H1]]; [done|].
    apply lookup_insert_Some in H2 as [[_ ?]|[_ H2]]; [done|]. by eapply C4.
  - intros b t Ht. rewrite Hst in Ht. apply lookup_delete_Some in Ht as [_ Ht].
    destruct (C5 b t Ht) as (lb & m & Hlb & Hm & Hmi). rewrite Hlife. destruct (decide (lb = la)) as [->|].
    + eexists la, _. split; [done|]. split; [apply lookup_insert_eq|]. simpl. congruence.
    + exists lb, m. by rewrite lookup_insert_ne.
  - intros lb m Hm. unfold resolvers_of. rewrite Hst. rewrite Hlife in Hm.
    apply lookup_insert_Some in Hm as [[<- <-]|[Hne Hm]]; simpl.
    + destruct (Z.eqb_spec (dl_live_resolvers l) 0); lia.
    + rewrite (C6 lb m Hm). unfold resolvers_of.
      rewrite <- (counts_delete (dw_states (cl_world c)) a s lb la Hs Hla). rewrite decide_False by done. lia.
  - intros b t Ht. rewrite Hst in Ht. apply lookup_delete_Some in Ht as [_ Ht]. rewrite Hlog. by apply C7.
Qed.

(** A resolver moves to an object that holds none. *)
Lemma client_transfer c o o' r :
  client_ok c -> cl_objects c !! o = Some r -> o <> o' ->
  cl_objects c !! o' = None \/ cl_objects c !! o' = Some (MkDnsResolver None) ->
  client_ok (with_objects c (<[o' := r]> (<[o := MkDnsResolver None]> (cl_objects c)))).
Proof.
  intros [C1 C2 C3 C4 C5 C6 C7] Ho Hne Ho'.
  set (swap x := if decide (x = o') then o else x).
  assert (Hat : forall x a, <[o' := r]> (<[o := MkDnsResolver None]> (cl_objects c)) !! x = Some (MkDnsResolver (Some a)) ->
    cl_objects c !! swap x = Some (MkDnsResolver (Some a)) /\ x <> o).
  { intros x a Hx. unfold swap. destruct (decide (x = o')) as [->|Hx'].
    - rewrite lookup_insert_eq in Hx. injection Hx as ->. done.
    - rewrite lookup_insert_ne in Hx by done. apply lookup_insert_Some in Hx as [[_ ?]|[? ?]]; done. }
  split; simpl; try done.
  - intros x a Hx. apply Hat in Hx as [Hx _]. by eapply C2.
  - intros a Ha. destruct (C3 a Ha) as [x Hx]. destruct (decide (x = o)) as [->|].
    + exists o'. rewrite lookup_insert_eq. congruence.
    + exists x. rewrite !lookup_insert_ne; [done|done|]. intros <-. destruct Ho'; congruence.
  - intros x y a Hx Hy. apply Hat in Hx as [Hx Hxo], Hy as [Hy Hyo]. pose proof (C4 _ _ _ Hx Hy) as E. unfold swap in E.
    destruct (decide (x = o')), (decide (y = o')); congruence.
Qed.

Lemma client_drop c o :
  client_ok c -> cl_objects c !! o = Some (MkDnsResolver None) -> client_ok (with_objects c (delete o (cl_objects c))).
Proof.
  intros [C1 C2 C3 C4 C5 C6 C7] Ho. split; simpl; try done.
  - intros x a Hx. apply lookup_delete_Some in Hx as [_ Hx]. by eapply C2.
  - intros a Ha. destruct (C3 a Ha) as [x Hx]. exists x. rewrite lookup_delete_ne; [done|]. congruence.
  - intros x y a Hx Hy. apply lookup_delete_Some in Hx as [_ Hx], Hy as [_ Hy]. by eapply C4.
Qed.

Lemma client_create c o config sink log allocated :
  client_ok c -> legal c (OpCreate o config sink log allocated) ->
  exists c', exec c (OpCreate o config sink log allocated) = Ret c' /\ client_ok c'.
Proof.
  intros Hc (Ho & Hcfg & Hlife & Hfresh). pose proof Hc as [C1 C2 C3 C4 C5 C6 C7].
  destruct (create_run (cl_world c) config sink log allocated C1 Hcfg) as (r & w' & E & Hr); [|done|].
  { intros la Hla. destruct (Hlife la Hla) as (l & Hl & _). by exists l. }
  unfold exec. rewrite E. cbn [mbind outcome_bind]. destruct r as [resolver|e]; [|by subst; eexists; split; [done|destruct c]].
  destruct Hr as (a & s & la & l & -> & -> & [F1 [F2 F3] F4] & Hok & Hst & _ & Hlog & Hpr & Hla & Hl & Hi & _ & Hls).
  destruct F1 as (F5 & F6 & F7). rewrite Hla in F5. specialize (Hfresh a eq_refl). eexists. split; [done|]. cbn [dr_state].
  destruct (Hlife la Hla) as (l' & Hl' & Hmax). assert (l' = l) as -> by congruence. clear Hl'.
  split; simpl.
  - done.
  - intros x b Hx. rewrite Hst. apply lookup_insert_Some in Hx as [[_ [= <-]]|[_ Hx]]; [by rewrite lookup_insert_eq|].
    apply lookup_insert_is_Some'. right. by eapply C2.
  - intros b Hb. rewrite Hst in Hb. destruct (decide (b = a)) as [->|Hne].
    + exists o. apply lookup_insert_eq.
    + rewrite lookup_insert_ne in Hb by done. destruct (C3 b Hb) as [x Hx]. exists x.
      rewrite lookup_insert_ne; [done|]. intros <-. congruence.
  - intros x y b Hx Hy.
    assert (Hnot : forall z, cl_objects c !! z <> Some (MkDnsResolver (Some a))).
    { intros z Hz. destruct (C2 z a Hz). congruence. }
    apply lookup_insert_Some in Hx as [[<- [= <-]]|[_ Hx]]; apply lookup_insert_Some in Hy as [[<- ?]|[_ Hy]]; try done.
    + by apply Hnot in Hy.
    + simplify_eq. by apply Hnot in Hx.
    + by eapply C4.
  - intros b t Ht. rewrite Hst in Ht. rewrite Hls. apply lookup_insert_Some in Ht as [[<- <-]|[Hne Ht]].
    + eexists la, _. split; [done|]. split; [apply lookup_insert_eq|done].
    + destruct (C5 b t Ht) as (lb & m & Hlb & Hm & Hmi). destruct (decide (lb = la)) as [->|].
      * eexists la, _. split; [done|]. split; [apply lookup_insert_eq|done].
      * exists lb, m. by rewrite lookup_insert_ne.
  - intros lb m Hm. unfold resolvers_of. rewrite Hst, (counts_insert _ a s lb la Hfresh F5). rewrite Hls in Hm.
    apply lookup_insert_Some in Hm as [[<- <-]|[Hne Hm]]; simpl.
    + rewrite decide_True by done. pose proof (C6 la l Hl) as Hlive. unfold resolvers_of in Hlive. unfold u32.
      rewrite Z.mod_small; lia.
    + rewrite decide_False by done. rewrite (C6 lb m Hm). unfold resolvers_of. lia.
  - intros b t Ht. rewrite Hst in Ht. apply lookup_insert_Some in Ht as [[<- <-]|[Hne Ht]].
    + exists [], (length (dw_completions w')). rewrite lookup_insert_eq. split; [done|]. rewrite Hlog.
      split; rewrite ?answers_none; try done; [by rewrite F2|constructor|rewrite F3; lia].
    + rewrite lookup_insert_ne, Hlog by done. by apply C7.
Qed.

(** ** Hooks *)
Lemma world_ok_views w w' :
  world_ok w -> dw_states w' = dw_states w -> (forall ch, view (dw_native w') ch = view (dw_native w) ch) -> world_ok w'.
Proof.
  intros [H1 H2] Hs Hv. split.
  - rewrite Hs. intros a s Ha. apply (state_ok_view (dw_native w)); [by apply H1|]. intros j q ch _ _. apply Hv.
  - intros ch cv Hcv. rewrite Hv in Hcv. rewrite Hs. by apply H2.
Qed.

Lemma client_lifecycle c w' la l l' :
  client_ok c -> world_ok w' -> dw_states w' = dw_states (cl_world c) -> dw_completions w' = dw_completions (cl_world c) ->
  dw_lifecycles (cl_world c) !! la = Some l -> dw_lifecycles w' = <[la := l']> (dw_lifecycles (cl_world c)) ->
  dl_live_resolvers l' = dl_live_resolvers l ->
  (dl_live_resolvers l = 0 \/ dl_initialized l' = dl_initialized l) -> client_ok (with_world c w').
Proof.
  intros [C1 C2 C3 C4 C5 C6 C7] Hok Hst Hlog Hl Hls Hlive Hinit. split; simpl; rewrite ?Hst, ?Hlog; try done.
  - intros a s Hs. destruct (C5 a s Hs) as (lb & m & Hlb & Hm & Hi). rewrite Hls.
    destruct (decide (lb = la)) as [->|]; [|exists lb, m; by rewrite lookup_insert_ne].
    exists la, l'. split; [done|]. split; [apply lookup_insert_eq|]. assert (m = l) as -> by congruence.
    destruct Hinit as [H0|H0]; [|congruence]. rewrite (C6 la l Hl) in H0.
    assert (resolvers_of (cl_world c) la !! a = Some s) as Hin by (by apply map_lookup_filter_Some).
    assert (size (resolvers_of (cl_world c) la) = 0)%nat as Hz by lia. apply map_size_empty_inv in Hz. by rewrite Hz in Hin.
  - intros lb m Hm. unfold resolvers_of. rewrite Hst. rewrite Hls in Hm.
    apply lookup_insert_Some in Hm as [[<- <-]|[_ Hm]]; [rewrite Hlive; by apply (C6 la l)|by apply (C6 lb)].
Qed.

Lemma client_hook c la hook : client_ok c -> legal c (OpHook la hook) -> client_ok (with_world c (run_hook (cl_world c) la hook)).
Proof.
  intros Hc [l Hl]. assert (Hsame : client_ok (with_world c (cl_world c))) by (by destruct c).
  pose proof (law_ares_library (dw_native (cl_world c))) as Hviews.
  assert (Hstored : forall l' n', (forall ch, view n' ch = view (dw_native (cl_world c)) ch) ->
    dl_live_resolvers l' = dl_live_resolvers l -> (dl_live_resolvers l = 0 \/ dl_initialized l' = dl_initialized l) ->
    client_ok (with_world c (store_lifecycle (cl_world c) la (Some l') n'))).
  { intros l' n' Hv H1 H2. apply (client_lifecycle c _ la l l'); try done. by apply (world_ok_views (cl_world c)); [apply Hc|..]. }
  destruct hook; simpl; [done| | |done]; rewrite Hl.
  - unfold DnsDependencyLifecycle_worker_initialize.
    destruct (_ || _ || _) eqn:Hg; simpl; [by apply Hstored; [..|right]|].
    destruct (dl_initialized l) eqn:Hi; simpl; [by apply Hstored; [..|right]|].
    destruct (ares_library_init lib (dw_native (cl_world c))) as [status n'] eqn:E.
    assert (Hv : forall ch, view n' ch = view (dw_native (cl_world c)) ch).
    { intros ch. apply Hviews. }
    destruct (bool_decide (status = ARES_SUCCESS)); simpl; [|by apply Hstored; [..|right]]. apply Hstored; [done|done|left].
    rewrite !orb_false_iff, negb_false_iff in Hg. destruct Hg as [[_ H0] _]. by apply Z.eqb_eq.
  - unfold DnsDependencyLifecycle_worker_cleanup. destruct (_ || _) eqn:Hg; simpl; [by apply Hstored; [..|right]|].
    rewrite orb_false_iff, negb_false_iff in Hg. destruct Hg as [_ H0]. apply Hstored; [|done|left; by apply Z.eqb_eq].
    intros ch. destruct (dl_initialized l); [|done]. apply Hviews.
Qed.

(** ** Programs are safe *)
Lemma exec_op_ok c op : client_ok c -> legal c op -> exists c', exec c op = Ret c' /\ client_ok c'.
Proof.
  intros Hc Hleg. destruct op as [o config sink log allocated|o o'|o o'|o|o hostname family|o token|o events|o|la hook].
  - by apply client_create.
  - destruct Hleg as [[r Ho] Ho']. unfold exec, object. rewrite Ho. cbn [mbind outcome_bind]. eexists. split; [done|].
    destruct r as [st]. apply (client_transfer c o o' (MkDnsResolver st)); [done|done| |by left]. intros ->. congruence.
  - destruct Hleg as ([r Ho] & [r' Ho'] & Hne). destruct (client_release c o r Hc Ho) as (w' & E & Hc').
    unfold exec, object, DnsResolver_move_assign. rewrite Ho, Ho'. cbn [mbind outcome_bind]. rewrite E. cbn [mbind outcome_bind].
    eexists. split; [done|]. destruct r' as [st].
    pose proof (client_transfer _ o' o (MkDnsResolver st) Hc') as Ht. simpl in Ht. rewrite lookup_insert_ne in Ht by done.
    specialize (Ht Ho' (not_eq_sym Hne)). rewrite lookup_insert_eq in Ht. specialize (Ht (or_intror eq_refl)).
    unfold with_objects in Ht. simpl in Ht. rewrite (insert_insert_ne _ o' o), insert_insert_eq in Ht by done. done.
  - destruct Hleg as [r Ho]. destruct (client_release c o r Hc Ho) as (w' & E & Hc').
    unfold exec, object, DnsResolver_destroy. rewrite Ho. cbn [mbind outcome_bind]. rewrite E. cbn [mbind outcome_bind].
    eexists. split; [done|]. pose proof (client_drop _ o Hc') as Hd. simpl in Hd. rewrite lookup_insert_eq in Hd.
    specialize (Hd eq_refl). unfold with_objects in Hd. simpl in Hd. by rewrite delete_insert_eq in Hd.
  - destruct Hleg as [r Ho]. unfold exec, object. rewrite Ho. cbn [mbind outcome_bind].
    destruct (client_object c o r Hc Ho) as [->|(a & s & -> & Hs)]; [by eexists; split; [done|destruct c]|].
    pose proof (resolve_run (cl_world c) a s hostname family (co_world _ Hc) Hs) as Hrun.
    destruct (resolve_refusal s hostname family) as [e|]; [rewrite Hrun; by eexists; split; [done|destruct c]|].
    destruct Hrun as (r & w' & s' & opened & results & -> & Hran & Hnz & Hnext & Hr). cbn [mbind outcome_bind dr_state].
    eexists. split; [done|]. apply (client_ran c w' a s s' opened results); [done|done|done| | |].
    + destruct r as [token|e]; [destruct Hr as (_ & -> & _); by right|destruct Hr as (-> & _); left].
      split; [done|by right].
    + intros issued base Hh. destruct r as [token|e]; [|destruct Hr as (-> & _); done].
      destruct Hr as (Ht & -> & _). rewrite lookup_alter_eq, Hh. simpl. by rewrite Ht.
    + intros b Hb. destruct r; [|done]. by rewrite lookup_alter_ne.
  - destruct Hleg as [r Ho]. unfold exec, object. rewrite Ho. cbn [mbind outcome_bind].
    destruct (client_object c o r Hc Ho) as [->|(a & s & -> & Hs)]; [by eexists; split; [done|destruct c]|].
    destruct (cancel_operation_run (cl_world c) a s token (co_world _ Hc) Hs) as (r & w' & s' & results & -> & Hran & Hn & _).
    eexists. split; [done|]. by eapply client_ran_quiet.
  - destruct Hleg as [r Ho]. unfold exec, object. rewrite Ho. cbn [mbind outcome_bind].
    destruct (client_object c o r Hc Ho) as [->|(a & s & -> & Hs)]; [by eexists; split; [done|destruct c]|].
    destruct (process_events_run (cl_world c) a s events (co_world _ Hc) Hs) as (r & w' & s' & results & -> & Hran & Hn & _).
    eexists. split; [done|]. by eapply client_ran_quiet.
  - destruct Hleg as [r Ho]. unfold exec, object. rewrite Ho. cbn [mbind outcome_bind].
    destruct (client_object c o r Hc Ho) as [->|(a & s & -> & Hs)]; [by eexists; split; [done|destruct c]|].
    destruct (process_timeout_run (cl_world c) a s (co_world _ Hc) Hs) as (w' & s' & results & -> & Hran & Hn & _).
    eexists. split; [done|]. by eapply client_ran_quiet.
  - eexists. split; [done|]. by apply client_hook.
Qed.

(** Before the first operation. *)
Record client_start c : Prop := {
  sc_empty : cl_objects c = ∅ /\ dw_states (cl_world c) = ∅;
  sc_channels : forall ch, view (dw_native (cl_world c)) ch = None;
  sc_lifecycles : map_Forall (fun _ l => dl_live_resolvers l = 0) (dw_lifecycles (cl_world c)) }.

Lemma client_start_ok c : client_start c -> client_ok c.
Proof.
  intros [[H1 H2] H3 H4]. split; rewrite ?H1, ?H2.
  - split; [rewrite H2; apply map_Forall_empty|]. intros ch cv Hcv. by rewrite H3 in Hcv.
  - intros o a Ho. by rewrite lookup_empty in Ho.
  - intros a [s Hs]. by rewrite lookup_empty in Hs.
  - intros o o' a Ho. by rewrite lookup_empty in Ho.
  - intros a s Hs. by rewrite lookup_empty in Hs.
  - intros la l Hl. unfold resolvers_of. rewrite H2, map_filter_empty, map_size_empty. by apply (H4 la).
  - intros a s Hs. by rewrite lookup_empty in Hs.
Qed.

Lemma run_ops_ok ops : forall c, client_ok c -> legal_run c ops -> exists c', run_ops c ops = Ret c' /\ client_ok c'.
Proof.
  induction ops as [|op ops IH]; intros c Hc Hleg; [by exists c|]. destruct Hleg as [Hop Hleg].
  destruct (exec_op_ok c op Hc Hop) as (c1 & E & Hc1). cbn [run_ops]. rewrite E. cbn [mbind outcome_bind]. apply IH; [done|by apply Hleg].
Qed.

(** C16: Whatever a program does with resolvers (creating, moving, assigning, destroying, resolving,
    cancelling, processing sockets and timeouts, driving the library's lifecycle), every operation
    returns, and the tokens [resolve] gave out for a live resolver are, each exactly once, those of
    the completions it has made and of its active queries; a completion goes to the resolver's own
    sink and has either an error and no addresses or between one and the configured most; and the
    outstanding queries are the active ones, at most the configured limit. *)
Theorem dns_queries_answered_once c ops :
  client_start c -> legal_run c ops ->
  exists c', run_ops c ops = Ret c' /\
  forall o a, cl_objects c' !! o = Some (MkDnsResolver (Some a)) ->
  exists s issued base, dw_states (cl_world c') !! a = Some s /\ cl_history c' !! a = Some (issued, base) /\
    let made := answers a base (dw_completions (cl_world c')) in
    issued ≡ₚ map (fun x => result_token x.2) made ++ active_tokens s /\ NoDup issued /\ Forall (fun t => 1 <= t) issued /\
    Forall (fun x => x.1 = st_sink s /\ result_ok (rl_maximum_result_addresses (st_limits s)) x.2) made /\
    DnsResolver_outstanding_queries (MkDnsResolver (Some a)) (cl_world c') = Ret (Z.of_nat (length (active_tokens s))) /\
    Z.of_nat (length (active_tokens s)) <= rl_maximum_outstanding_queries (st_limits s).
Proof.
  intros Hstart Hleg. destruct (run_ops_ok ops c (client_start_ok c Hstart) Hleg) as (c' & E & Hc). exists c'. split; [done|].
  intros o a Ho. destruct (co_objects _ Hc o a Ho) as [s Hs]. destruct (co_history _ Hc a s Hs) as (issued & base & Hh & [H1 H2 H3 H4 H5 H6]).
  exists s, issued, base. split; [done|]. split; [done|]. split; [done|]. split; [done|].
  split; [eapply list.Forall_impl; [exact H4|]; intros t [Ht _]; exact Ht|]. split; [done|].
  pose proof (so_outstanding _ _ _ (proj1 (co_world _ Hc) a s Hs)) as [Ho1 Ho2]. split; [|lia].
  unfold DnsResolver_outstanding_queries. cbn [dr_state]. rewrite (the_state_ret _ a s Hs). cbn [mbind outcome_bind]. by rewrite Ho1.
Qed.

(** C17: In the same programs nothing of the library is lost: every channel belongs to an unfinished
    query of a resolver some object holds; the socket interests of a resolver are exactly the
    sockets its channels have open, each descriptor once; its next timeout is the earliest one of
    its channels; a lifecycle reports as live the resolvers made with it, and is initialized while
    there are any; and when no object holds a resolver the library has no channel left. *)
Theorem dns_resources_accounted c ops :
  client_start c -> legal_run c ops ->
  exists c', run_ops c ops = Ret c' /\
  let w := cl_world c' in
  (forall ch cv, view (dw_native w) ch = Some cv ->
     exists o a s q, cl_objects c' !! o = Some (MkDnsResolver (Some a)) /\ dw_states w !! a = Some s /\
       st_queries s !! sc_index (cv_context cv) = Some q /\ q_active q = true /\ q_channel q = Some ch /\ cv_pending cv = true) /\
  (forall o a capacity, cl_objects c' !! o = Some (MkDnsResolver (Some a)) ->
     exists s, dw_states w !! a = Some s /\
     (exists t, DnsResolver_next_timeout lib (MkDnsResolver (Some a)) w = Ret t /\
        match timeouts (lib:=lib) (dw_native w) s with
        | [] => t = MkDnsTimeout false 0
        | l => dt_active t = true /\ dt_milliseconds t ∈ l /\ Forall (fun ms => dt_milliseconds t <= ms) l
        end) /\
     if capacity <? st_socket_count s
     then DnsResolver_socket_interests (MkDnsResolver (Some a)) w capacity = Ret (Err dns_interest_error)
     else exists interests, DnsResolver_socket_interests (MkDnsResolver (Some a)) w capacity = Ret (Ok interests) /\
       Z.of_nat (length interests) = st_socket_count s /\ NoDup (map si_descriptor interests) /\
       forall d r wr, MkDnsSocketInterest d r wr ∈ interests <->
         exists j cv, views_of (dw_native w) s j = Some cv /\ cv_sockets cv !! d = Some (r, wr)) /\
  (forall la l, dw_lifecycles w !! la = Some l ->
     DnsDependencyLifecycle_live_state (Some l) = MkDependencyLiveState (Z.of_nat (size (resolvers_of w la))) 0 0 0 /\
     (resolvers_of w la <> ∅ -> dl_initialized l = true)) /\
  ((forall o a, cl_objects c' !! o <> Some (MkDnsResolver (Some a))) ->
     dw_states w = ∅ /\ forall ch, view (dw_native w) ch = None).
Proof.
  intros Hstart Hleg. destruct (run_ops_ok ops c (client_start_ok c Hstart) Hleg) as (c' & E & Hc). exists c'. split; [done|].
  cbv zeta. pose proof Hc as [C1 C2 C3 C4 C5 C6 C7].
  assert (Hchan : forall ch cv, view (dw_native (cl_world c')) ch = Some cv ->
     exists o a s q, cl_objects c' !! o = Some (MkDnsResolver (Some a)) /\ dw_states (cl_world c') !! a = Some s /\
       st_queries s !! sc_index (cv_context cv) = Some q /\ q_active q = true /\ q_channel q = Some ch /\ cv_pending cv = true).
  { intros ch cv Hcv. destruct (proj2 C1 ch cv Hcv) as (s & q & Hs & Hq & Hch).
    destruct (C3 _ (mk_is_Some _ _ Hs)) as [o Ho]. exists o, (sc_state (cv_context cv)), s, q.
    destruct (so_slots _ _ _ (proj1 C1 _ s Hs) _ q Hq) as [_ _ _ Hr]. destruct (q_active q); [|congruence].
    destruct Hr as (ch' & cv' & Hch' & Hcv' & _ & Hp). assert (ch' = ch) as -> by congruence.
    assert (cv' = cv) as -> by congruence. done. }
  split; [exact Hchan|]. split; [|split].
  - intros o a capacity Ho. destruct (C2 o a Ho) as [s Hs]. exists s. split; [done|].
    pose proof (proj1 C1 a s Hs) as Hso. split; [by apply next_timeout_run|by apply interests_run].
  - intros la l Hl. split; [simpl; by rewrite (C6 la l Hl)|]. intros Hne.
    apply map_choose in Hne as (a & s & Hs). apply map_lookup_filter_Some in Hs as [Hs Hla]. simpl in Hla.
    destruct (C5 a s Hs) as (lb & m & Hlb & Hm & Hi). congruence.
  - intros Hnone. split.
    + apply map_empty. intros a. apply eq_None_not_Some. intros Hs. destruct (C3 a Hs) as [o Ho]. by apply (Hnone o a).
    + intros ch. apply eq_None_not_Some. intros [cv Hcv]. destruct (Hchan ch cv Hcv) as (o & a & _ & _ & Ho & _). by apply (Hnone o a).
Qed.

(** ** The completion callback *)
Definition native_of (result : option (R * list ares_addrinfo_node)) : list R :=
  match result with None => [] | Some (r, _) => [r] end.

Lemma free_native_freed w result : dw_freed (free_native w result) = native_of result ++ dw_freed w.
Proof. by destruct result as [[r nodes]|]. Qed.

Lemma address_complete_freed w context status result w' :
  address_complete lib w context status result = Ret w' -> dw_freed w' = native_of result ++ dw_freed w.
Proof.
  unfold address_complete. destruct (the_state w (sc_state context)) as [s|]; [|done]. cbn [mbind outcome_bind].
  destruct (the_query s (sc_index context)) as [q|]; [|done]. cbn [mbind outcome_bind].
  destruct (st_shutting_down s); [intros [= <-]; apply free_native_freed|].
  destruct (q_canceling q && _); [intros [= <-]; apply free_native_freed|].
  destruct (bool_decide (status = ARES_SUCCESS)); cbn [negb].
  - destruct (address_loop _ _ _) as [q'|]; [|done]. cbn [mbind outcome_bind].
    destruct (negb (q_completed_with_error q') && (q_completed_address_count q' =? 0)); cbn [mbind outcome_bind native_error]; intros [= <-];
      cbn [set_state dw_freed]; by rewrite free_native_freed.
  - cbn [mbind outcome_bind native_error]. intros [= <-]. cbn [set_state dw_freed]. by rewrite free_native_freed.
Qed.

(** C18: The completion callback records what the library reports and frees its result exactly once.
    With an error status the query has that error, normalized; with success it has the usable
    addresses of the result in order, or fails when there is none or there are more than the
    caller takes.  Only the slot and the count of outstanding queries change; while the resolver
    shuts down, or for a cancelled query, the slot is only marked as done. *)
Theorem dns_completion_exact w a i s q status result :
  dw_states w !! a = Some s -> st_queries s !! i = Some q ->
  0 <= rl_maximum_result_addresses (st_limits s) <= Z.of_nat (length (q_completed_addresses q)) ->
  exists q' w', address_complete lib w (MkSlotContext a i) status result = Ret w' /\
    dw_states w' = <[a := if st_shutting_down s then set_query s i q' else finish_outstanding (set_query s i q')]> (dw_states w) /\
    dw_freed w' = native_of result ++ dw_freed w /\ dw_completions w' = dw_completions w /\ dw_native w' = dw_native w /\
    q_native_done q' = true /\ q_token q' = q_token q /\ q_channel q' = q_channel q /\
    if st_shutting_down s || (q_canceling q && bool_decide (status = ARES_ECANCELLED)) then q' = set_native_done q
    else reports q' (completion_of lib (rl_maximum_result_addresses (st_limits s)) status (default [] (snd <$> result))).
Proof.
  intros Hs Hq Hl.
  assert (Hmarked : forall s', address_complete lib w (MkSlotContext a i) status result = Ret (set_state (free_native w result) a s') ->
    dw_states (set_state (free_native w result) a s') = <[a := s']> (dw_states w) /\
    dw_completions (set_state (free_native w result) a s') = dw_completions w /\
    dw_native (set_state (free_native w result) a s') = dw_native w) by (intros s' _; by destruct result as [[r nodes]|]).
  destruct (st_shutting_down s || (q_canceling q && bool_decide (status = ARES_ECANCELLED))) eqn:Hm.
  - set (s' := if st_shutting_down s then set_query s i (set_native_done q) else finish_outstanding (set_query s i (set_native_done q))).
    assert (E : address_complete lib w (MkSlotContext a i) status result = Ret (set_state (free_native w result) a s')).
    { unfold address_complete, the_state, the_query. cbn [sc_state sc_index]. rewrite Hs. cbn [mbind outcome_bind]. rewrite Hq.
      cbn [mbind outcome_bind]. unfold s'. destruct (st_shutting_down s); [done|]. cbn [orb] in Hm. by rewrite Hm. }
    destruct (Hmarked s' E) as (H1 & H2 & H3). exists (set_native_done q), (set_state (free_native w result) a s').
    split; [done|]. split; [done|]. split; [by eapply address_complete_freed|]. done.
  - apply orb_false_iff in Hm as [Hsh Hc].
    destruct (address_complete_run lib w a i s q status result Hs Hq Hsh Hc Hl) as (q' & w' & E & Hrest & Hslot & Hd & _ & Hrep).
    exists q', w'. rewrite Hsh. destruct Hrest as [R1 R2 R3 R4 R5]. destruct Hslot as [S1 S2 S3 S4 S5 S6].
    split; [done|]. split; [done|]. split; [by eapply address_complete_freed|]. done.
Qed.
End clients.

(** ** A resolver library that answers

    Each channel has one socket, and reading from it answers the query with one address.  *)
(** A channel: its slot, whether its query is unfinished, and whether its socket is open. *)
Record DemoChannel := MkDemoChannel { dc_context : slot_context; dc_pending : bool; dc_open : bool }.
Abbreviation DemoNative := (list (option DemoChannel)).

Definition demo_socket (ch : nat) : Z := Z.of_nat ch.
Definition open_sockets (ch : nat) (open : bool) : gmap Z (bool * bool) :=
  if open then {[demo_socket ch := (true, false)]} else ∅.
Definition demo_view (n : DemoNative) (ch : nat) : option ChannelView :=
  match mjoin (n !! ch) with
  | None => None
  | Some d => Some (MkChannelView (dc_context d) (dc_pending d)
                (open_sockets ch (dc_open d)))
  end.

(** A call on an existing channel, with the callbacks it makes and the channel it leaves. *)
Definition demo_call (f : nat -> DemoChannel -> list (ares_callback nat) * option DemoChannel) (ch : nat) (n : DemoNative) :
    outcome (list (ares_callback nat) * DemoNative) :=
  match mjoin (n !! ch) with
  | None => Stop Undefined
  | Some d => let '(cbs, d') := f ch d in Ret (cbs, <[ch := d']> n)
  end.

Definition demo_node : ares_addrinfo_node :=
  MkNode AF_INET (Some [2; 0; 0; 80; 192; 0; 2; 7; 0; 0; 0; 0; 0; 0; 0; 0]) 16 300.

Definition demo_query (ch : nat) (d : DemoChannel) : list (ares_callback nat) * option DemoChannel :=
  ([CbSocket (dc_context d) (demo_socket ch) true false], Some (MkDemoChannel (dc_context d) true true)).
Definition demo_process (readable : option Z) (ch : nat) (d : DemoChannel) : list (ares_callback nat) * option DemoChannel :=
  if bool_decide (readable = Some (demo_socket ch)) && dc_pending d then
    ([CbComplete (dc_context d) ARES_SUCCESS (Some (ch, [demo_node])); CbSocket (dc_context d) (demo_socket ch) false false],
     Some (MkDemoChannel (dc_context d) false false))
  else ([], Some d).
Definition demo_cancel (ch : nat) (d : DemoChannel) : list (ares_callback nat) * option DemoChannel :=
  (if dc_pending d then [CbComplete (dc_context d) ARES_ECANCELLED None] else [],
   Some (MkDemoChannel (dc_context d) false (dc_open d))).
Definition demo_destroy (ch : nat) (d : DemoChannel) : list (ares_callback nat) * option DemoChannel :=
  ((if dc_pending d then [CbComplete (dc_context d) ARES_EDESTRUCTION None] else []) ++
   [CbSocket (dc_context d) (demo_socket ch) false false], None).

Definition demo_ntop (family : address_family) (bytes : list Z) : option (list ascii) :=
  match family with
  | AF_INET =>
      match take 4 bytes with
      | [a; b; c; d] =>
          if bool_decide (Forall (fun x => 0 <= x < 256) [a; b; c; d]) then
            Some (port_text a ++ ["."%char] ++ port_text b ++ ["."%char] ++ port_text c ++ ["."%char] ++ port_text d)
          else None
      | _ => None
      end
  | AF_INET6 => Some [":"%char; ":"%char]
  | _ => None
  end.

Definition demo_ares : Ares DemoNative nat nat := {|
  ARES_FLAG_NOSEARCH := 32; ARES_OPT_FLAGS := 1; ARES_OPT_TIMEOUTMS := 8192; ARES_OPT_TRIES := 4; ARES_OPT_SOCK_STATE_CB := 512;
  ARES_OPT_QUERY_CACHE := Some 2097152;
  ares_status_value _ := 1;
  ares_library_init n := (ARES_SUCCESS, n);
  ares_library_cleanup n := n;
  ares_init_options options _ n := (inl (length n), n ++ [Some (MkDemoChannel (ao_context options) false false)]);
  ares_set_servers_ports_csv ch csv n := match mjoin (n !! ch) with None => Stop Undefined | Some _ => Ret (ARES_SUCCESS, n) end;
  ares_getaddrinfo ch name family context := demo_call demo_query ch;
  ares_cancel := demo_call demo_cancel;
  ares_process_fd ch readable writable := demo_call (demo_process readable) ch;
  ares_destroy := demo_call demo_destroy;
  ares_timeout ch n := match mjoin (n !! ch) with
                       | None => Stop Undefined
                       | Some d => Ret (if dc_pending d then Some (1, 500000) else None)
                       end;
  inet_ntop := demo_ntop |}.

(** ** The laws *)
Lemma demo_view_at (n : DemoNative) ch cv :
  demo_view n ch = Some cv -> exists d, n !! ch = Some (Some d) /\ cv_context cv = dc_context d /\ cv_pending cv = dc_pending d /\
    cv_sockets cv = open_sockets ch (dc_open d).
Proof.
  unfold demo_view. destruct (n !! ch) as [[d|]|] eqn:E; simpl; try done. intros [= <-]. by exists d.
Qed.

Lemma demo_view_insert (n : DemoNative) ch d c :
  (ch < length n)%nat -> c <> ch -> demo_view (<[ch := d]> n) c = demo_view n c.
Proof. intros Hl Hc. unfold demo_view. by rewrite list_lookup_insert_ne. Qed.

(** Only the channel has its socket. *)
Lemma demo_socket_own (n : DemoNative) ch c cv :
  c <> ch -> demo_view n c = Some cv -> cv_sockets cv !! demo_socket ch = None.
Proof.
  intros Hc Hv. apply demo_view_at in Hv as (d & _ & _ & _ & ->). destruct (dc_open d); [|apply lookup_empty].
  apply lookup_singleton_None. unfold demo_socket. lia.
Qed.

(** What a call has to do to act as the laws ask. *)
Lemma demo_acts f (n : DemoNative) ch start d cbs d' cv' :
  n !! ch = Some (Some d) -> f ch d = (cbs, d') -> apply_callbacks start cbs = Some cv' ->
  match d' with
  | Some x => cv' = MkChannelView (dc_context x) (dc_pending x) (open_sockets ch (dc_open x))
  | None => cv_pending cv' = false /\ cv_sockets cv' = ∅
  end ->
  Forall (fun x => x = demo_socket ch) (callback_sockets cbs) ->
  let n' := <[ch := d']> n in
  let after := match d' with Some _ => Some cv' | None => None end in
  demo_call f ch n = Ret (cbs, n') /\
  ((exists cv', apply_callbacks start cbs = Some cv' /\
     match after with Some cv'' => cv'' = cv' | None => cv_pending cv' = false /\ cv_sockets cv' = ∅ end) /\
   demo_view n' ch = after /\ (forall c, c <> ch -> demo_view n' c = demo_view n c) /\
   (forall x c cv', x ∈ callback_sockets cbs -> c <> ch -> demo_view n c = Some cv' -> cv_sockets cv' !! x = None)).
Proof.
  intros Hd Hf Happ Hd' Hsk n' after. assert (Hl : (ch < length n)%nat) by (by eapply lookup_lt_Some).
  split; [unfold demo_call; rewrite Hd; simpl; by rewrite Hf|]. split; [|split; [|split]].
  - exists cv'. split; [done|]. unfold after. by destruct d'.
  - unfold demo_view, n', after. rewrite list_lookup_insert_eq by done. destruct d'; simpl; [by rewrite Hd'|done].
  - intros c Hc. by apply demo_view_insert.
  - intros x c cvc Hx Hc Hcv. rewrite list.Forall_forall in Hsk. rewrite (Hsk x Hx). by eapply demo_socket_own.
Qed.

Lemma demo_ntop_text family bytes text :
  demo_ntop family bytes = Some text -> (length text <= 45)%nat /\ Ascii.zero ∉ text.
Proof.
  unfold demo_ntop. destruct family; try done; [|by intros [= <-]; split; [simpl; lia|]; rewrite !elem_of_cons; intros [?|[?|?%not_elem_of_nil]]].
  destruct (take 4 bytes) as [|a [|b [|c [|d [|]]]]]; try done. destruct (bool_decide _) eqn:E; [|done].
  apply bool_decide_eq_true, list.Forall_cons in E as [Ha E]. apply list.Forall_cons in E as [Hb E].
  apply list.Forall_cons in E as [Hc E]. apply list.Forall_cons in E as [Hd _]. intros [= <-].
  destruct (port_text_spec a) as (? & ? & _); [lia|]. destruct (port_text_spec b) as (? & ? & _); [lia|].
  destruct (port_text_spec c) as (? & ? & _); [lia|]. destruct (port_text_spec d) as (? & ? & _); [lia|].
  split; [rewrite !length_app; simpl; rewrite ?length_app; simpl; rewrite ?length_app; simpl; lia|].
  repeat first [rewrite elem_of_app | rewrite elem_of_cons]. intros [?|[?|[?|[?|[?|[?|?]]]]]]; done.
Qed.

Lemma sockets_close ch (open : bool) :
  delete (demo_socket ch) (open_sockets ch open) = ∅.
Proof. destruct open; [apply delete_singleton_eq|apply delete_empty]. Qed.

Lemma sockets_open ch (open : bool) :
  <[demo_socket ch := (true, false)]> (open_sockets ch open) =
  {[demo_socket ch := (true, false)]}.
Proof. destruct open; [apply insert_singleton_eq|apply insert_empty]. Qed.

Lemma demo_init options mask (n : DemoNative) :
  let '(r, n') := ares_init_options demo_ares options mask n in
  match r with
  | inl ch => demo_view n ch = None /\ demo_view n' ch = Some (MkChannelView (ao_context options) false ∅) /\
      forall c, c <> ch -> demo_view n' c = demo_view n c
  | inr _ => forall c, demo_view n' c = demo_view n c
  end.
Proof.
  simpl. unfold demo_view. split; [by rewrite lookup_ge_None_2|]. split; [by rewrite lookup_app_r, Nat.sub_diag by lia|].
  intros c Hc. destruct (decide (c < length n)%nat); [by rewrite lookup_app_l|].
  rewrite !lookup_ge_None_2; [done|lia|rewrite length_app; simpl; lia].
Qed.

Ltac open_channel_view H :=
  apply demo_view_at in H as ([context pending open] & Hd & ? & ? & Hsk); simpl in *; subst.

#[export] Program Instance demo_ares_laws : AresLaws demo_ares := {| view := demo_view; law_ares_init := demo_init |}.
Next Obligation.
  intros n ch cv csv Hv. apply demo_view_at in Hv as (d & Hd & _). exists ARES_SUCCESS, n. simpl. by rewrite Hd.
Qed.
Next Obligation.
  intros n ch [ctx p sk] name family Hv Hp. open_channel_view Hv. eexists _, _, _.
  eapply (demo_acts demo_query n ch _ _ _ (Some _)); [exact Hd|done|simpl; by rewrite decide_True|simpl; f_equal; apply sockets_open|].
  by repeat constructor.
Qed.
Next Obligation.
  intros n ch [ctx p sk] Hv. open_channel_view Hv. destruct pending.
  - destruct (demo_acts demo_cancel n ch (MkChannelView context true (open_sockets ch open)) _ _ (Some _)
      (MkChannelView context false (open_sockets ch open)) Hd eq_refl) as [E Hacts];
      [simpl; by rewrite decide_True|done|by repeat constructor|]. by eexists _, _, _.
  - destruct (demo_acts demo_cancel n ch (MkChannelView context false (open_sockets ch open)) _ _ (Some _)
      (MkChannelView context false (open_sockets ch open)) Hd eq_refl) as [E Hacts]; [done|done|by repeat constructor|].
    by eexists _, _, _.
Qed.
Next Obligation.
  intros n ch [ctx p sk] readable writable Hv. open_channel_view Hv.
  destruct (bool_decide (readable = Some (demo_socket ch)) && pending) eqn:E; eexists _, _, _.
  - eapply (demo_acts (demo_process readable) n ch _ _ _ (Some _)); [exact Hd|unfold demo_process; simpl; by rewrite E| |..].
    + apply andb_true_iff in E as [_ ->]. simpl. rewrite decide_True by done. simpl. by rewrite decide_True.
    + simpl. f_equal. apply sockets_close.
    + by repeat constructor.
  - eapply (demo_acts (demo_process readable) n ch _ _ _ (Some _)); [exact Hd|unfold demo_process; simpl; by rewrite E|done|done|constructor].
Qed.
Next Obligation.
  intros n ch [ctx p sk] Hv. open_channel_view Hv. eexists _, _.
  destruct pending; eapply (demo_acts demo_destroy n ch _ _ _ None); try done; try (by repeat constructor).
  - simpl. rewrite decide_True by done. simpl. by rewrite decide_True.
  - split; [done|apply sockets_close].
  - simpl. by rewrite decide_True.
  - split; [done|apply sockets_close].
Qed.
Next Obligation.
  intros n ch cv Hv. apply demo_view_at in Hv as (d & Hd & _). simpl. rewrite Hd. by eexists.
Qed.
Next Obligation. done. Qed.
Next Obligation. apply demo_ntop_text. Qed.

(** ** Legal programs, decided *)
Section check.
Context {L : Type}.
Abbreviation DemoClient := (Client (N:=DemoNative) (CH:=nat) (R:=nat) (L:=L)).
Implicit Types (c : DemoClient).

Definition present c (o : nat) : bool := match cl_objects c !! o with Some _ => true | None => false end.

Definition legal_check c (op : Op (L:=L)) : bool :=
  match op with
  | OpCreate o config sink log allocated =>
      negb (present c o) && (0 <=? rl_maximum_outstanding_queries (rc_limits config)) &&
      (0 <=? rl_maximum_result_addresses (rc_limits config)) &&
      forallb (fun s => (0 <=? dn_port s) && (dn_port s <? 65536)) (rc_nameservers config) &&
      match rc_lifecycle config with
      | None => true
      | Some la => match dw_lifecycles (cl_world c) !! la with None => false | Some l => dl_live_resolvers l <? 4294967295 end
      end &&
      match allocated with
      | None => true
      | Some a => match dw_states (cl_world c) !! a with None => true | Some _ => false end
      end
  | OpMove o o' => present c o && negb (present c o')
  | OpAssign o o' => present c o && present c o' && negb (o =? o')%nat
  | OpDestroy o | OpResolve o _ _ | OpCancel o _ | OpEvents o _ | OpTimeout o => present c o
  | OpHook la _ => match dw_lifecycles (cl_world c) !! la with Some _ => true | None => false end
  end.

Lemma present_some c o : present c o = true -> is_Some (cl_objects c !! o).
Proof. unfold present. by destruct (cl_objects c !! o). Qed.
Lemma present_none c o : present c o = false -> cl_objects c !! o = None.
Proof. unfold present. by destruct (cl_objects c !! o). Qed.

Lemma legal_check_ok c op : legal_check c op = true -> legal c op.
Proof.
  destruct op as [o config sink log allocated|o o'|o o'|o|o hostname family|o token|o events|o|la hook]; simpl;
    try (by apply present_some).
  - rewrite !andb_true_iff, negb_true_iff, !Z.leb_le. intros (((((H1 & H2) & H3) & H4) & H5) & H6).
    split; [by apply present_none|]. split; [split; [done|]; split; [done|]|split].
    + rewrite forallb_forall in H4. apply list.Forall_forall. intros s Hs. apply list_elem_of_In, H4 in Hs.
      rewrite andb_true_iff, Z.leb_le, Z.ltb_lt in Hs. exact Hs.
    + intros la E. rewrite E in H5. destruct (dw_lifecycles (cl_world c) !! la) as [l|]; [|done]. exists l.
      split; [done|by apply Z.ltb_lt].
    + intros a E. rewrite E in H6. by destruct (dw_states (cl_world c) !! a).
  - rewrite andb_true_iff, negb_true_iff. intros [H1 H2]. split; [by apply present_some|by apply present_none].
  - rewrite !andb_true_iff, negb_true_iff, Nat.eqb_neq. intros [[H1 H2] H3].
    split; [by apply present_some|]. split; [by apply present_some|done].
  - by destruct (dw_lifecycles (cl_world c) !! la).
Qed.

Fixpoint legal_run_check c (ops : list (Op (L:=L))) : bool :=
  match ops with
  | [] => true
  | op :: ops => legal_check c op && match exec (lib:=demo_ares) c op with Ret c' => legal_run_check c' ops | Stop _ => true end
  end.

Lemma legal_run_check_ok ops : forall c, legal_run_check c ops = true -> legal_run (lib:=demo_ares) c ops.
Proof.
  induction ops as [|op ops IH]; intros c; simpl; [done|]. rewrite andb_true_iff. intros [H1 H2].
  split; [by apply legal_check_ok|]. intros c' E. rewrite E in H2. by apply IH.
Qed.
End check.

(** ** A program *)
Definition demo_dns_sink : DnsQuerySink := MkDnsQuerySink 9 (Some 1%nat).
Definition demo_dns_log : DependencyLogSink unit := MkDependencyLogSink None.
Definition demo_server : DnsNameserver := MkDnsNameserver address_ipv4 [192; 0; 2; 53] 53.
Definition demo_server6 : DnsNameserver := MkDnsNameserver address_ipv6 (replicate 16 0) 5353.
Definition demo_dns_config : DnsResolverConfig :=
  MkDnsResolverConfig (MkDnsResolverLimits 2 4 1000 3) [demo_server; demo_server6] (Some 0%nat).
Definition demo_host : TextView := ["a"%char; "."%char; "b"%char].

Definition demo_dns_start : Client (N:=DemoNative) (CH:=nat) (R:=nat) (L:=unit) :=
  MkClient (MkDnsWorld [] ∅ {[0%nat := DnsDependencyLifecycle_default]} [] [] tt 42) ∅ ∅.

(** Two queries, the third refused at the limit; one answered, the other cancelled after the
    resolver moved; another made; and a cleanup refused under the live resolver. *)
Definition demo_dns_program : list (Op (L:=unit)) :=
  [OpHook 0 HookWorkerInitialize; OpCreate 0 demo_dns_config demo_dns_sink demo_dns_log (Some 5%nat);
   OpResolve 0 demo_host query_ipv4; OpResolve 0 demo_host query_any; OpResolve 0 demo_host query_ipv6;
   OpEvents 0 [MkDnsSocketEvent 0 true false]; OpMove 0 1; OpCancel 1 (MkDnsQueryToken 2);
   OpResolve 1 demo_host query_any; OpTimeout 1; OpHook 0 HookWorkerCleanup].

Lemma demo_dns_start_ok : client_start (lib:=demo_ares) demo_dns_start.
Proof.
  split; [done|done|]. apply map_Forall_singleton. done.
Qed.

Lemma demo_dns_legal : legal_run (lib:=demo_ares) demo_dns_start demo_dns_program.
Proof. apply legal_run_check_ok. vm_compute. reflexivity. Qed.

Lemma dns_queries_answered_once_witness :
  exists c' s issued base, run_ops (lib:=demo_ares) demo_dns_start demo_dns_program = Ret c' /\
    dw_states (cl_world c') !! 5%nat = Some s /\ cl_history c' !! 5%nat = Some (issued, base) /\ NoDup issued /\
    issued ≡ₚ map (fun x => result_token x.2) (answers 5 base (dw_completions (cl_world c'))) ++ active_tokens s /\ issued = [3; 2; 1].
Proof.
  destruct (dns_queries_answered_once demo_dns_start demo_dns_program demo_dns_start_ok demo_dns_legal) as (c' & E & H).
  assert (H1 : match run_ops (lib:=demo_ares) demo_dns_start demo_dns_program with
    | Ret c => cl_objects c !! 1%nat = Some (MkDnsResolver (Some 5%nat)) /\ fst <$> cl_history c !! 5%nat = Some [3; 2; 1]
    | Stop _ => False end) by (vm_compute; split; reflexivity).
  rewrite E in H1. destruct H1 as [H1 H2]. destruct (H 1%nat 5%nat H1) as (s & issued & base & Hs & Hh & Hp & Hn & _).
  exists c', s, issued, base. rewrite Hh in H2. injection H2 as ->. split; [exact E|]. split; [exact Hs|]. split; [exact Hh|].
  split; [exact Hn|]. split; [exact Hp|reflexivity].
Defined.

Lemma dns_resources_accounted_witness :
  exists c', run_ops (lib:=demo_ares) demo_dns_start (demo_dns_program ++ [OpDestroy 0; OpDestroy 1]) = Ret c' /\
    dw_states (cl_world c') = ∅ /\ (forall ch, demo_view (dw_native (cl_world c')) ch = None).
Proof.
  assert (Hl : legal_run (lib:=demo_ares) demo_dns_start (demo_dns_program ++ [OpDestroy 0; OpDestroy 1]))
    by (apply legal_run_check_ok; vm_compute; reflexivity).
  destruct (dns_resources_accounted demo_dns_start _ demo_dns_start_ok Hl) as (c' & E & _ & _ & _ & H).
  exists c'. split; [exact E|]. apply H. intros o a.
  assert (H1 : match run_ops (lib:=demo_ares) demo_dns_start (demo_dns_program ++ [OpDestroy 0; OpDestroy 1]) with
    | Ret c => cl_objects c = ∅ | Stop _ => False end) by (vm_compute; reflexivity).
  rewrite E in H1. rewrite H1, lookup_empty. discriminate.
Defined.

Lemma nameserver_csv_exact_witness :
  append_nameservers demo_ares [demo_server; demo_server6] (replicate nameserver_csv_capacity Ascii.zero) 0 =
    Ok (csv_buffer (list_ascii_of_string "192.0.2.53:53,[::]:5353"), 23).
Proof.
  destruct (nameserver_csv_exact (lib:=demo_ares) [demo_server; demo_server6]) as [E _].
  - unfold maximum_nameserver_capacity. simpl. lia.
  - unfold port_ok. repeat constructor; simpl; lia.
  - rewrite E. vm_compute. reflexivity.
Defined.

(** The state of a resolver with its first slot open, and the callback that completes it. *)
Definition demo_open_state : State (CH:=nat) (L:=unit) :=
  let s := initial_state 5 demo_dns_config demo_dns_sink demo_dns_log in
  set_query s 0 (open_query (MkQuerySlot (Some 5%nat) (Some 0%nat) (MkDnsQueryToken 0)
    (replicate maximum_address_capacity DnsAddress_default) (core_error invalid_state "") 0 false false false false false)
    (MkDnsQueryToken 1)).
Definition demo_open_world : DnsWorld (N:=DemoNative) (R:=nat) :=
  MkDnsWorld [] {[5%nat := demo_open_state]} ∅ [] [] tt 42.

Lemma dns_completion_exact_witness :
  exists (q' : QuerySlot (CH:=nat)) w', address_complete demo_ares demo_open_world (MkSlotContext 5 0) ARES_SUCCESS (Some (7%nat, [demo_node])) = Ret w' /\
    dw_freed w' = [7%nat] /\ q_native_done q' = true /\ q_completed_address_count q' = 1 /\
    take 1 (q_completed_addresses q') = [MkDnsAddress address_ipv4 [192; 0; 2; 7; 0; 0; 0; 0; 0; 0; 0; 0; 0; 0; 0; 0] 300].
Proof.
  destruct (dns_completion_exact (lib:=demo_ares) demo_open_world 5 0 demo_open_state
    (open_query (MkQuerySlot (Some 5%nat) (Some 0%nat) (MkDnsQueryToken 0)
      (replicate maximum_address_capacity DnsAddress_default) (core_error invalid_state "") 0 false false false false false)
      (MkDnsQueryToken 1)) ARES_SUCCESS (Some (7%nat, [demo_node])))
    as (q' & w' & E & _ & Hf & _ & _ & Hd & _ & _ & Hr).
  - reflexivity.
  - reflexivity.
  - vm_compute. split; discriminate.
  - exists q', w'. split; [exact E|]. split; [exact Hf|]. split; [exact Hd|]. vm_compute in Hr.
    destruct Hr as (_ & H1 & H2). rewrite H2 in H1. split; [exact H2|exact H1].
Defined.
