(* ===== verification/Regex.v ===== *)
(** * Regular expressions

    Models [src/adapters/contract/laghu/adapters/regex.hpp] and [src/adapters/regex.cpp]: the
    compilation of a pattern, whose state lives in the memory pool and which pins the arena of
    the pool, bounded matching, moves and release.

    PCRE2 is a record of functions.  They act on a state [N] of its own and on the pool its
    allocation callbacks draw from; [Stop] is a call the library leaves undefined.  Its objects
    are known by their addresses, and the values of its constants are fields.  The states of
    patterns are objects in the storage of the pool, found by their address.  Patterns and
    subjects are the bytes of the views they are given as; an empty one is replaced by a
    constant of no bytes. *)
From S2P Require Import Prelude Contract CheckedArithmetic Identifiers Views BoundedArena NativeMemory Dependencies.
From Stdlib Require Import ZArith Lia String Ascii.
From stdpp Require Import base numbers list gmap option.

Set Default Goal Selector "!".
#[local] Open Scope Z_scope.

(** ** Limits, captures and errors *)
Record RegexCompileLimits := MkRegexCompileLimits {
  rcl_maximum_pattern_bytes : Z; rcl_maximum_pattern_depth : Z; rcl_maximum_capture_count : Z }.

Record RegexMatchLimits := MkRegexMatchLimits {
  rml_maximum_subject_bytes : Z; rml_maximum_match_steps : Z; rml_maximum_depth : Z; rml_maximum_output_captures : Z }.

Record RegexCompileFailure := MkRegexCompileFailure { cf_offset : Z }.
Record RegexCapture := MkRegexCapture { rx_begin : Z; rx_end : Z; rx_matched : bool }.
Definition RegexCapture_default : RegexCapture := MkRegexCapture 0 0 false.
Record RegexMatchResult := MkRegexMatchResult { rm_capture_count : Z; rm_matched : bool }.

Definition maximum_reportable_capture_count : Z := 65534.

Definition valid_compile_limits (limits : RegexCompileLimits) : bool :=
  negb (rcl_maximum_pattern_bytes limits =? 0) && negb (rcl_maximum_pattern_depth limits =? 0) &&
  negb (rcl_maximum_capture_count limits =? 0).

Definition valid_match_limits (limits : RegexMatchLimits) : bool :=
  negb (rml_maximum_subject_bytes limits =? 0) && negb (rml_maximum_match_steps limits =? 0) &&
  negb (rml_maximum_depth limits =? 0) && negb (rml_maximum_output_captures limits =? 0).

Definition regex_limits_error := core_error invalid_input "regex compile limits must be positive".
Definition regex_capture_limit_error := core_error invalid_range "regex capture limit exceeds PCRE2 reportable capacity".
Definition regex_pattern_bytes_error := core_error invalid_range "regex pattern exceeds the caller byte limit".
Definition regex_state_error := core_error exhaustion "regex pattern state allocation is exhausted".
Definition regex_captures_error := core_error invalid_range "regex pattern exceeds the caller capture limit".
Definition regex_inactive_error := core_error invalid_state "regex pattern is inactive or its arena was reset".
Definition regex_match_limits_error := core_error invalid_input "regex match limits must be positive".
Definition regex_subject_error := core_error invalid_range "regex subject exceeds the caller byte limit".
Definition regex_output_error := core_error invalid_range "regex capture output capacity is insufficient".
Definition regex_insufficient_error := core_error invalid_range "regex capture output was insufficient for the match".

(** Four words and a 32-bit count, padded. *)
Definition sizeof_State : Z := 40.

(** The bytes of a text. *)
Definition bytes_of (text : TextView) : list Z := map (fun c => Z.of_N (N_of_ascii c)) text.

Section regex.
Context {N C L : Type}.
Abbreviation Native := (N * PoolState C)%type.

(** A compilation gives the code, or the error and its offset; the query of a pattern its
    status and the number of capture groups; a match its result, which is the number of the
    highest group that matched and one, or an error. *)
Record Pcre2 := MkPcre2 {
  PCRE2_ERROR_NOMATCH : Z; PCRE2_ERROR_NOMEMORY : Z; PCRE2_ERROR_HEAP_FAILED : Z; PCRE2_ERROR_MATCHLIMIT : Z;
  PCRE2_ERROR_DEPTHLIMIT : Z; PCRE2_ERROR_HEAPLIMIT : Z; PCRE2_ERROR_BADOPTION : Z; PCRE2_ERROR_BADOFFSET : Z;
  PCRE2_ERROR_NULL : Z; PCRE2_UNSET : Z;
  pcre2_general_context_create : Native -> outcome (option Z * Native);
  pcre2_general_context_free : Z -> Native -> outcome Native;
  pcre2_compile_context_create : Z -> Native -> outcome (option Z * Native);
  pcre2_set_parens_nest_limit : Z -> Z -> Native -> outcome Native;
  pcre2_compile_context_free : Z -> Native -> outcome Native;
  pcre2_compile : list Z -> Z -> Native -> outcome ((Z + Z * Z) * Native);
  pcre2_code_free : Z -> Native -> outcome Native;
  pcre2_pattern_info : Z -> Native -> outcome (Z * Z);
  pcre2_match_context_create : Z -> Native -> outcome (option Z * Native);
  pcre2_set_match_limit : Z -> Z -> Native -> outcome Native;
  pcre2_set_depth_limit : Z -> Z -> Native -> outcome Native;
  pcre2_match_context_free : Z -> Native -> outcome Native;
  pcre2_match_data_create : Z -> Z -> Native -> outcome (option Z * Native);
  pcre2_match : Z -> list Z -> Z -> Z -> Native -> outcome (Z * Native);
  pcre2_get_ovector_pointer : Z -> Native -> outcome (list Z);
  pcre2_match_data_free : Z -> Native -> outcome Native }.

Context (lib : Pcre2).

(** ** State *)

(** The pool of the state is the one of the world. *)
Record State := MkState { rs_general : option Z; rs_log : DependencyLogSink L; rs_capture_count : Z }.

Record RegexWorld := MkRegexWorld { rw_native : Native; rw_log : L; rw_states : gmap pointer State }.
Implicit Types (w : RegexWorld).

Definition rw_pool w : PoolState C := snd (rw_native w).
Definition rw_arena w : BoundedArena (C * Memory) := ps_arena (rw_pool w).
Definition set_native w (n : Native) : RegexWorld := MkRegexWorld n (rw_log w) (rw_states w).
Definition set_pool w (s : PoolState C) : RegexWorld := set_native w (fst (rw_native w), s).
Definition set_state w (p : pointer) (s : State) : RegexWorld := MkRegexWorld (rw_native w) (rw_log w) (<[p := s]> (rw_states w)).
Definition drop_state w (p : pointer) : RegexWorld := MkRegexWorld (rw_native w) (rw_log w) (delete p (rw_states w)).
Definition set_arena_of w (arena : BoundedArena (C * Memory)) : RegexWorld :=
  set_pool w (MkPoolState (ps_pool (rw_pool w)) arena (ps_heap (rw_pool w)) (ps_context (rw_pool w)) (ps_headers (rw_pool w))).

(** A call of the library. *)
Definition native {A} (f : Native -> outcome (A * Native)) w : outcome (A * RegexWorld) :=
  '(r, n) ← f (rw_native w); Ret (r, set_native w n).
Definition native_ (f : Native -> outcome Native) w : outcome RegexWorld :=
  n ← f (rw_native w); Ret (set_native w n).

Definition status_for (code : Z) : DependencyStatus :=
  if (code =? PCRE2_ERROR_NOMEMORY lib) || (code =? PCRE2_ERROR_HEAP_FAILED lib) then status_exhaustion else
  if (code =? PCRE2_ERROR_MATCHLIMIT lib) || (code =? PCRE2_ERROR_DEPTHLIMIT lib) || (code =? PCRE2_ERROR_HEAPLIMIT lib)
  then status_invalid_range else
  if (code =? PCRE2_ERROR_BADOPTION lib) || (code =? PCRE2_ERROR_BADOFFSET lib) || (code =? PCRE2_ERROR_NULL lib)
  then status_invalid_input else status_invalid_input.

Definition native_error (operation : DependencyOperation) (code : Z) (sink : DependencyLogSink L) w : Error * RegexWorld :=
  let e := normalize_dependency_error id_pcre2_8bit operation (status_for code) (cast int32_t code) in
  (e, MkRegexWorld (rw_native w) (log_dependency_error sink (rw_log w) e) (rw_states w)).

(** ** Patterns *)
Record RegexPattern := MkRegexPattern {
  rp_code : option Z; rp_state : option pointer; rp_arena : option nat; rp_generation : Z; rp_pin : ArenaPin }.
Definition empty_pattern : RegexPattern := MkRegexPattern None None None 0 (MkArenaPin None).

(** [internal::arena_free] of the storage of a state whose destructor has run. *)
Definition free_state w (p : pointer) : outcome RegexWorld :=
  let w := drop_state w p in s ← arena_free (rw_pool w) (Some p); Ret (set_pool w s).

Definition free_general w (general : option Z) : outcome RegexWorld :=
  match general with None => Stop Undefined | Some g => native_ (pcre2_general_context_free lib g) w end.

(** The pin is destroyed when [compile] returns an error. *)
Definition abandon (pin : ArenaPin) (e : Error) (failure : RegexCompileFailure) w :
    outcome (Result RegexPattern * RegexCompileFailure * RegexWorld) :=
  arena ← ArenaPin_destroy (rw_arena w) pin; Ret (Err e, failure, set_arena_of w arena).

(** The part of [compile] after the general context: the compile context and the code. *)
Definition compile_code (pattern : list Z) (limits : RegexCompileLimits) (log_sink : DependencyLogSink L)
    (pin : ArenaPin) (storage : pointer) (general : Z) w :
    outcome (Result RegexPattern * RegexCompileFailure * RegexWorld) :=
  '(compile_context, w) ← native (pcre2_compile_context_create lib general) w;
  match compile_context with
  | None =>
      w ← free_general w (Some general); w ← free_state w storage;
      let '(e, w) := native_error op_regex_compile (PCRE2_ERROR_NOMEMORY lib) log_sink w in
      abandon pin e (MkRegexCompileFailure 0) w
  | Some compile_context =>
      w ← native_ (pcre2_set_parens_nest_limit lib compile_context (rcl_maximum_pattern_depth limits)) w;
      '(code, w) ← native (pcre2_compile lib pattern compile_context) w;
      w ← native_ (pcre2_compile_context_free lib compile_context) w;
      match code with
      | inr (compile_error, error_offset) =>
          w ← free_general w (Some general); w ← free_state w storage;
          let '(e, w) := native_error op_regex_compile compile_error log_sink w in
          abandon pin e (MkRegexCompileFailure error_offset) w
      | inl code =>
          '(info, capture_count) ← pcre2_pattern_info lib code (rw_native w);
          if negb (info =? 0) || (rcl_maximum_capture_count limits <? capture_count) then
            w ← native_ (pcre2_code_free lib code) w;
            w ← free_general w (Some general); w ← free_state w storage;
            if negb (info =? 0) then
              let '(e, w) := native_error op_regex_compile info log_sink w in abandon pin e (MkRegexCompileFailure 0) w
            else abandon pin regex_captures_error (MkRegexCompileFailure 0) w
          else
            let w := set_state w storage (MkState (Some general) log_sink capture_count) in
            Ret (Ok (MkRegexPattern (Some code) (Some storage) (Some (ba_address (rw_arena w)))
                       (ba_generation (rw_arena w)) pin), MkRegexCompileFailure 0, w)
      end
  end.

(** The pattern, the failure the caller sees, and the world. *)
Definition RegexPattern_compile (pattern : list Z) (limits : RegexCompileLimits) (log_sink : DependencyLogSink L) w :
    outcome (Result RegexPattern * RegexCompileFailure * RegexWorld) :=
  let failure := MkRegexCompileFailure 0 in
  if negb (valid_compile_limits limits) then Ret (Err regex_limits_error, failure, w) else
  if maximum_reportable_capture_count <? rcl_maximum_capture_count limits then Ret (Err regex_capture_limit_error, failure, w) else
  if rcl_maximum_pattern_bytes limits <? Z.of_nat (length pattern) then Ret (Err regex_pattern_bytes_error, failure, w) else
  let w := set_pool w (synchronize (rw_pool w)) in
  let '(pin, arena) := BoundedArena_pin (rw_arena w) (np_worker (ps_pool (rw_pool w))) in
  let w := set_arena_of w arena in
  match pin with
  | Err e => Ret (Err e, failure, w)
  | Ok pin =>
      '(storage, s) ← arena_malloc (rw_pool w) sizeof_State;
      let w := set_pool w s in
      match storage with
      | None => abandon pin regex_state_error failure w
      | Some storage =>
          '(general, w) ← native (pcre2_general_context_create lib) (set_state w storage (MkState None log_sink 0));
          match general with
          | None =>
              w ← free_state w storage;
              let '(e, w) := native_error op_regex_compile (PCRE2_ERROR_NOMEMORY lib) log_sink w in abandon pin e failure w
          | Some general =>
              compile_code pattern limits log_sink pin storage general
                (set_state w storage (MkState (Some general) log_sink 0))
          end
      end
  end.

Definition RegexPattern_compile_text (pattern : TextView) : RegexCompileLimits -> DependencyLogSink L -> RegexWorld ->
    outcome (Result RegexPattern * RegexCompileFailure * RegexWorld) :=
  RegexPattern_compile (bytes_of pattern).

Definition active_parts (this : RegexPattern) w : option (Z * pointer) :=
  match rp_code this, rp_state this, rp_arena this with
  | Some code, Some state, Some _ =>
      if ba_generation (rw_arena w) =? rp_generation this then Some (code, state) else None
  | _, _, _ => None
  end.

Definition RegexPattern_require_valid (this : RegexPattern) w : Result (Z * pointer) :=
  match active_parts this w with Some x => Ok x | None => Err regex_inactive_error end.

(** ** Matching *)
Definition fill_captures (captures : list RegexCapture) (count : Z) : list RegexCapture :=
  replicate (Z.to_nat count) RegexCapture_default ++ drop (Z.to_nat count) captures.

Definition capture_at (vector : list Z) (index : nat) : outcome RegexCapture :=
  first ← slot vector (Z.of_nat index * 2);
  last ← slot vector (Z.of_nat index * 2 + 1);
  Ret (if first =? PCRE2_UNSET lib then RegexCapture_default else MkRegexCapture first last true).

(** The loop over the groups, with [count] left from [index] on. *)
Fixpoint capture_loop (count index : nat) (vector : list Z) (captures : list RegexCapture) : outcome (list RegexCapture) :=
  match count with
  | O => Ret captures
  | S count =>
      capture ← capture_at vector index;
      captures ← set_slot captures (Z.of_nat index) capture;
      capture_loop count (S index) vector captures
  end.

(** The result, the captures and the world. *)
Definition RegexPattern_match (this : RegexPattern) (subject : list Z) (captures : list RegexCapture) (limits : RegexMatchLimits) w :
    outcome (Result RegexMatchResult * list RegexCapture * RegexWorld) :=
  match RegexPattern_require_valid this w with
  | Err e => Ret (Err e, captures, w)
  | Ok (code, p) =>
    if negb (valid_match_limits limits) then Ret (Err regex_match_limits_error, captures, w) else
    if rml_maximum_subject_bytes limits <? Z.of_nat (length subject) then Ret (Err regex_subject_error, captures, w) else
    match rw_states w !! p with
    | None => Stop Undefined
    | Some state =>
      let required_captures := u64 (rs_capture_count state + 1) in
      let maximum := rml_maximum_output_captures limits in
      if (Z.of_nat (length captures) <? maximum) || (maximum <? required_captures) || (u32_max <? maximum)
      then Ret (Err regex_output_error, captures, w) else
      match rs_general state with
      | None => Stop Undefined
      | Some general =>
        '(match_context, w) ← native (pcre2_match_context_create lib general) w;
        match match_context with
        | None =>
            let '(e, w) := native_error op_regex_match (PCRE2_ERROR_NOMEMORY lib) (rs_log state) w in Ret (Err e, captures, w)
        | Some match_context =>
          w ← native_ (pcre2_set_match_limit lib match_context (rml_maximum_match_steps limits)) w;
          w ← native_ (pcre2_set_depth_limit lib match_context (rml_maximum_depth limits)) w;
          '(match_data, w) ← native (pcre2_match_data_create lib (u32 maximum) general) w;
          match match_data with
          | None =>
              w ← native_ (pcre2_match_context_free lib match_context) w;
              let '(e, w) := native_error op_regex_match (PCRE2_ERROR_NOMEMORY lib) (rs_log state) w in Ret (Err e, captures, w)
          | Some match_data =>
            let finish (w : RegexWorld) := w ← native_ (pcre2_match_data_free lib match_data) w;
                            native_ (pcre2_match_context_free lib match_context) w in
            '(result, w) ← native (pcre2_match lib code subject match_data match_context) w;
            if result =? PCRE2_ERROR_NOMATCH lib then
              w ← finish w; Ret (Ok (MkRegexMatchResult 0 false), fill_captures captures maximum, w)
            else if result =? 0 then
              w ← finish w; Ret (Err regex_insufficient_error, fill_captures captures maximum, w)
            else if result <? 0 then
              let '(e, w) := native_error op_regex_match result (rs_log state) w in
              w ← finish w; Ret (Err e, captures, w)
            else
              vector ← pcre2_get_ovector_pointer lib match_data (rw_native w);
              captures ← capture_loop (Z.to_nat result) 0 vector (fill_captures captures maximum);
              w ← finish w; Ret (Ok (MkRegexMatchResult result true), captures, w)
          end
        end
      end
    end
  end.

Definition RegexPattern_match_text (this : RegexPattern) (subject : TextView) : list RegexCapture -> RegexMatchLimits -> RegexWorld ->
    outcome (Result RegexMatchResult * list RegexCapture * RegexWorld) :=
  RegexPattern_match this (bytes_of subject).

(** ** Release and moves *)
Definition RegexPattern_release (this : RegexPattern) w : outcome (RegexPattern * RegexWorld) :=
  w ← (match active_parts this w with
       | None => Ret w
       | Some (code, p) =>
           match rw_states w !! p with
           | None => Stop Undefined
           | Some state =>
               w ← native_ (pcre2_code_free lib code) w;
               w ← free_general w (rs_general state);
               free_state w p
           end
       end);
  '(arena, pin, _) ← ArenaPin_move_assign (rw_arena w) (rp_pin this) (MkArenaPin None);
  Ret (MkRegexPattern None None None 0 pin, set_arena_of w arena).

(** [this] and what is left of [other]. *)
Definition RegexPattern_move_from (this other : RegexPattern) w : outcome (RegexPattern * RegexPattern * RegexWorld) :=
  '(arena, pin, other_pin) ← ArenaPin_move_assign (rw_arena w) (rp_pin this) (rp_pin other);
  Ret (MkRegexPattern (rp_code other) (rp_state other) (rp_arena other) (rp_generation other) pin,
       MkRegexPattern None None None 0 other_pin, set_arena_of w arena).

Definition RegexPattern_move_construct (other : RegexPattern) w : outcome (RegexPattern * RegexPattern * RegexWorld) :=
  RegexPattern_move_from empty_pattern other w.

(** Between two distinct patterns; self-assignment does nothing. *)
Definition RegexPattern_move_assign (this other : RegexPattern) w : outcome (RegexPattern * RegexPattern * RegexWorld) :=
  '(this, w) ← RegexPattern_release this w; RegexPattern_move_from this other w.

Definition RegexPattern_destroy (this : RegexPattern) w : outcome RegexWorld :=
  '(_, w) ← RegexPattern_release this w; Ret w.
End regex.
Arguments Pcre2 : clear implicits.
Arguments RegexWorld : clear implicits.
Arguments State : clear implicits.
