(* ===== verification/RegexSpec.v ===== *)
(** * PCRE2 and its memory

    What the adapter relies on from PCRE2 ([Pcre2Laws]): its objects, and that it uses the pool
    only through the allocation functions and only its own blocks.  Blocks of others keep their
    contents and stay allocated whatever the library does. *)
From S2P Require Import Prelude Contract CheckedArithmetic Identifiers MemoryBudget BudgetInvariant Views BlockSource BoundedArena ArenaSpec.
From S2P Require Import NativeMemory NativeSpec Dependencies CodecPool Regex.
From Stdlib Require Import ZArith Lia String Ascii.
From stdpp Require Import base numbers list gmap option fin_map_dom.

Set Default Goal Selector "!".
#[local] Open Scope Z_scope.

(** ** The objects of the library *)
Inductive Pcre2Object := KGeneral | KCompileContext | KCode (captures : Z) | KMatchContext | KMatchData (pairs : Z).

Section laws.
Context {N C : Type} {acquire : C * Memory -> Z -> Result MutableByteView * (C * Memory)}.
Context {reset : C * Memory -> Result unit * (C * Memory)} `{!PoolSource acquire reset}.
Context (objects : N -> gmap Z Pcre2Object) (blocks : N -> gset pointer).
Abbreviation implements := (implements (acquire := acquire) (reset := reset)).
Abbreviation lib_use := (lib_use (acquire := acquire) (reset := reset)).

(** A call that returns [r] from wherever the library's blocks are allocated. *)
Definition returns {A} (f : N * PoolState C -> outcome (A * (N * PoolState C))) (n : N) (post : A -> N -> Prop) : Prop :=
  forall s live, implements s live -> blocks n ⊆ dom live ->
  exists r n' s' live', f (n, s) = Ret (r, (n', s')) /\ lib_use (blocks n) s live (blocks n') s' live' /\ post r n'.

Definition unit_call (f : N * PoolState C -> outcome (N * PoolState C)) : N * PoolState C -> outcome (unit * (N * PoolState C)) :=
  fun x => y ← f x; Ret (tt, y).

Definition creates (f : N * PoolState C -> outcome (option Z * (N * PoolState C))) (n : N) (k : Pcre2Object) : Prop :=
  returns f n (fun r n' => match r with
                           | None => objects n' = objects n
                           | Some h => objects n !! h = None /\ objects n' = <[h := k]> (objects n)
                           end).
Definition frees (f : N * PoolState C -> outcome (N * PoolState C)) (n : N) (h : Z) : Prop :=
  returns (unit_call f) n (fun _ n' => objects n' = delete h (objects n)).
Definition keeps (f : N * PoolState C -> outcome (N * PoolState C)) (n : N) : Prop :=
  returns (unit_call f) n (fun _ n' => objects n' = objects n).
End laws.

(** The most pairs that match data can have. *)
Definition maximum_pairs : Z := 65535.

(** Calls on existing objects return; creation gives a new object or none; the memory of the
    library is that of its objects; and a match fills at most the pairs its data has. *)
Class Pcre2Laws {N C : Type} {acquire : C * Memory -> Z -> Result MutableByteView * (C * Memory)}
    {reset : C * Memory -> Result unit * (C * Memory)} `{!PoolSource acquire reset} (lib : Pcre2 N C) := {
  objects : N -> gmap Z Pcre2Object;
  blocks : N -> gset pointer;
  law_no_objects n : objects n = ∅ -> blocks n = ∅;
  law_nomatch_negative : PCRE2_ERROR_NOMATCH lib < 0;
  law_general_create n : creates (acquire := acquire) (reset := reset) objects blocks (pcre2_general_context_create lib) n KGeneral;
  law_general_free n g : objects n !! g = Some KGeneral ->
    frees (acquire := acquire) (reset := reset) objects blocks (pcre2_general_context_free lib g) n g;
  law_compile_context_create n g : objects n !! g = Some KGeneral ->
    creates (acquire := acquire) (reset := reset) objects blocks (pcre2_compile_context_create lib g) n KCompileContext;
  law_nest_limit n x limit : objects n !! x = Some KCompileContext ->
    keeps (acquire := acquire) (reset := reset) objects blocks (pcre2_set_parens_nest_limit lib x limit) n;
  law_compile_context_free n x : objects n !! x = Some KCompileContext ->
    frees (acquire := acquire) (reset := reset) objects blocks (pcre2_compile_context_free lib x) n x;
  law_compile n pattern x : objects n !! x = Some KCompileContext ->
    returns (acquire := acquire) (reset := reset) blocks (pcre2_compile lib pattern x) n
      (fun r n' => match r with
                   | inl c => objects n !! c = None /\ exists k, 0 <= k <= u32_max /\ objects n' = <[c := KCode k]> (objects n)
                   | inr _ => objects n' = objects n
                   end);
  law_code_free n c k : objects n !! c = Some (KCode k) ->
    frees (acquire := acquire) (reset := reset) objects blocks (pcre2_code_free lib c) n c;
  law_pattern_info n s c k : objects n !! c = Some (KCode k) ->
    exists info count, pcre2_pattern_info lib c (n, s) = Ret (info, count) /\ (info = 0 -> count = k);
  law_match_context_create n g : objects n !! g = Some KGeneral ->
    creates (acquire := acquire) (reset := reset) objects blocks (pcre2_match_context_create lib g) n KMatchContext;
  law_match_limit n x limit : objects n !! x = Some KMatchContext ->
    keeps (acquire := acquire) (reset := reset) objects blocks (pcre2_set_match_limit lib x limit) n;
  law_depth_limit n x limit : objects n !! x = Some KMatchContext ->
    keeps (acquire := acquire) (reset := reset) objects blocks (pcre2_set_depth_limit lib x limit) n;
  law_match_context_free n x : objects n !! x = Some KMatchContext ->
    frees (acquire := acquire) (reset := reset) objects blocks (pcre2_match_context_free lib x) n x;
  law_match_data_create n pairs g : objects n !! g = Some KGeneral -> 1 <= pairs ->
    creates (acquire := acquire) (reset := reset) objects blocks (pcre2_match_data_create lib pairs g) n (KMatchData (Z.min pairs maximum_pairs));
  law_match n c k subject d pairs x :
    objects n !! c = Some (KCode k) -> objects n !! d = Some (KMatchData pairs) -> objects n !! x = Some KMatchContext -> 1 <= pairs ->
    returns (acquire := acquire) (reset := reset) blocks (pcre2_match lib c subject d x) n
      (fun r n' => r <= pairs /\ objects n' = objects n);
  law_ovector n s d pairs : objects n !! d = Some (KMatchData pairs) -> 1 <= pairs ->
    exists vector, pcre2_get_ovector_pointer lib d (n, s) = Ret vector /\ Z.of_nat (length vector) = 2 * pairs;
  law_match_data_free n d pairs : objects n !! d = Some (KMatchData pairs) ->
    frees (acquire := acquire) (reset := reset) objects blocks (pcre2_match_data_free lib d) n d }.

(** ** Calls of the adapter *)
Section calls.
Context {N C L : Type} {acquire : C * Memory -> Z -> Result MutableByteView * (C * Memory)}.
Context {reset : C * Memory -> Result unit * (C * Memory)} `{!PoolSource acquire reset}.
Context {lib : Pcre2 N C} {laws : Pcre2Laws (acquire := acquire) (reset := reset) lib}.
Abbreviation World := (RegexWorld N C L).
Implicit Types (w : World) (live : gmap pointer (list Z)).
Abbreviation implements := (implements (acquire := acquire) (reset := reset)).

Definition library w : N := (rw_native w).1.

(** The pool implements [live], in which the library has its blocks. *)
Record ready w live : Prop := {
  rd_pool : implements (rw_pool w) live;
  rd_blocks : blocks (library w) ⊆ dom live }.

(** Between calls of the library: only it and the pool changed, and only its blocks. *)
Record used w live w' live' : Prop := {
  us_states : rw_states w' = rw_states w;
  us_ready : ready w' live';
  us_kept : kept (rw_pool w) (rw_pool w');
  us_framed : framed (blocks (library w)) live (blocks (library w')) live' }.

Lemma used_refl w live : ready w live -> used w live w live.
Proof. intros [H1 H2]. by split. Qed.

Lemma used_trans w1 live1 w2 live2 w3 live3 : used w1 live1 w2 live2 -> used w2 live2 w3 live3 -> used w1 live1 w3 live3.
Proof.
  intros [A1 A3 A4 A5] [B1 B3 B4 B5].
  split; [congruence|done|by eapply kept_trans|by eapply framed_trans].
Qed.

Lemma native_run {A} (f : N * PoolState C -> outcome (A * (N * PoolState C))) w live post :
  ready w live -> returns (acquire := acquire) (reset := reset) blocks f (library w) post ->
  exists r w' live', native f w = Ret (r, w') /\ used w live w' live' /\ post r (library w').
Proof.
  intros [H1 H2] Hf. destruct w as [[n s] l states]. destruct (Hf s live H1 H2) as (r & n' & s' & live' & E & Hu & Hp).
  exists r, (MkRegexWorld (n', s') l states), live'. unfold native. unfold library in E. simpl in *. rewrite E.
  split; [done|]. split; [|done]. destruct (lib_use_ok _ _ _ _ _ _ Hu H1 H2) as (G1 & G2 & G3).
  split; try done. split; [done|apply G3].
Qed.

Lemma native_unit_run (f : N * PoolState C -> outcome (N * PoolState C)) w live post :
  ready w live -> returns (acquire := acquire) (reset := reset) blocks (unit_call f) (library w) post ->
  exists w' live', native_ f w = Ret w' /\ used w live w' live' /\ post tt (library w').
Proof.
  intros Hr Hf. destruct (native_run (unit_call f) w live post Hr Hf) as ([] & w' & live' & E & Hu & Hp).
  exists w', live'. split; [|done]. unfold native, unit_call in E. unfold native_.
  destruct (f (rw_native w)) as [n|]; [|done]. cbn [mbind outcome_bind] in *. by injection E as ->.
Qed.

(** The three shapes of calls. *)
Lemma create_call f w live k :
  ready w live -> creates (acquire := acquire) (reset := reset) objects blocks f (library w) k ->
  exists r w' live', native f w = Ret (r, w') /\ used w live w' live' /\
    match r with
    | None => objects (library w') = objects (library w)
    | Some h => objects (library w) !! h = None /\ objects (library w') = <[h := k]> (objects (library w))
    end.
Proof. apply native_run. Qed.

Lemma free_call f w live h :
  ready w live -> frees (acquire := acquire) (reset := reset) objects blocks f (library w) h ->
  exists w' live', native_ f w = Ret w' /\ used w live w' live' /\ objects (library w') = delete h (objects (library w)).
Proof. intros Hr Hf. exact (native_unit_run f w live _ Hr Hf). Qed.

Lemma keep_call f w live :
  ready w live -> keeps (acquire := acquire) (reset := reset) objects blocks f (library w) ->
  exists w' live', native_ f w = Ret w' /\ used w live w' live' /\ objects (library w') = objects (library w).
Proof. intros Hr Hf. exact (native_unit_run f w live _ Hr Hf). Qed.

Lemma ready_logged w live operation code sink : ready w live -> used w live (native_error lib operation code sink w).2 live.
Proof. intros [H1 H2]. by split. Qed.
End calls.
