(* ===== verification/RegexOperations.v ===== *)
(** * Operations of patterns

    Matching against what the library reports, and compilation and release with all that they
    acquire and give back, over any library that keeps the laws. *)
From S2P Require Import Prelude Contract CheckedArithmetic Identifiers MemoryBudget MemoryBudgetSpec BudgetInvariant Views BlockSource BoundedArena ArenaSpec.
From S2P Require Import NativeMemory NativeSpec Dependencies CodecPool Regex RegexSpec.
From Stdlib Require Import ZArith Lia String Ascii.
From stdpp Require Import base numbers list gmap option fin_map_dom.

Set Default Goal Selector "!".
#[local] Open Scope Z_scope.

Section patterns.
Context {N C L : Type} {acquire : C * Memory -> Z -> Result MutableByteView * (C * Memory)}.
Context {reset : C * Memory -> Result unit * (C * Memory)} `{!PoolSource acquire reset}.
Context {lib : Pcre2 N C} {laws : Pcre2Laws (acquire := acquire) (reset := reset) lib}.
Abbreviation World := (RegexWorld N C L).
Implicit Types (w : World) (live : gmap pointer (list Z)).
Abbreviation implements := (implements (acquire := acquire) (reset := reset)).

(** ** Captures *)

(** The capture of a group in the vector of offsets. *)
Definition group (vector : list Z) (i : nat) : RegexCapture :=
  match vector !! (2 * i)%nat, vector !! (2 * i + 1)%nat with
  | Some first, Some last => if first =? PCRE2_UNSET lib then RegexCapture_default else MkRegexCapture first last true
  | _, _ => RegexCapture_default
  end.

Lemma capture_at_run vector i :
  (2 * i + 1 < length vector)%nat -> capture_at lib vector i = Ret (group vector i).
Proof.
  intros Hi. unfold capture_at, group, slot.
  replace (Z.to_nat (Z.of_nat i * 2)) with (2 * i)%nat by lia. replace (Z.to_nat (Z.of_nat i * 2 + 1)) with (2 * i + 1)%nat by lia.
  destruct (lookup_lt_is_Some_2 vector (2 * i)) as [x ->]; [lia|]. cbn [mbind outcome_bind].
  destruct (lookup_lt_is_Some_2 vector (2 * i + 1)) as [y ->]; [lia|]. done.
Qed.

Lemma capture_loop_run vector count : forall index captures,
  (index + count <= length captures)%nat -> (2 * (index + count) <= length vector)%nat ->
  capture_loop lib count index vector captures =
    Ret (take index captures ++ map (group vector) (seq index count) ++ drop (index + count) captures).
Proof.
  induction count as [|count IH]; intros index captures Hc Hv; cbn [capture_loop].
  { rewrite Nat.add_0_r. simpl. by rewrite take_drop. }
  rewrite capture_at_run by lia. cbn [mbind outcome_bind]. unfold set_slot.
  rewrite (proj2 (Z.leb_gt _ _)) by lia. cbn [mbind outcome_bind]. rewrite Nat2Z.id.
  rewrite IH by (rewrite ?length_insert; lia). f_equal. cbn [seq map].
  rewrite (take_S_r _ _ (group vector index)) by (apply list_lookup_insert_eq; lia).
  rewrite take_insert_ge, drop_insert_lt by lia. rewrite <- app_assoc. simpl.
  by replace (S (index + count)) with (index + S count)%nat by lia.
Qed.

Lemma fill_captures_length captures maximum :
  0 <= maximum <= Z.of_nat (length captures) -> length (fill_captures captures maximum) = length captures.
Proof. intros H. unfold fill_captures. rewrite length_app, length_replicate, length_drop. lia. Qed.

(** The captures after a match of [count] groups with room for [maximum]. *)
Definition reported (vector : list Z) (count maximum : Z) (captures : list RegexCapture) : list RegexCapture :=
  map (group vector) (seq 0 (Z.to_nat count)) ++ replicate (Z.to_nat (maximum - count)) RegexCapture_default ++
  drop (Z.to_nat maximum) captures.

Lemma report_run vector count maximum captures :
  0 < count <= maximum -> maximum <= Z.of_nat (length captures) -> 2 * count <= Z.of_nat (length vector) ->
  capture_loop lib (Z.to_nat count) 0 vector (fill_captures captures maximum) = Ret (reported vector count maximum captures).
Proof.
  intros Hc Hm Hv. rewrite capture_loop_run; [|rewrite fill_captures_length; lia|lia]. simpl. f_equal. unfold reported. f_equal.
  unfold fill_captures. rewrite drop_app_le by (rewrite length_replicate; lia). rewrite drop_replicate. do 2 f_equal. lia.
Qed.

(** ** Matching *)

(** The arguments a match refuses. *)
Definition match_refusal (subject : list Z) (captures : list RegexCapture) (limits : RegexMatchLimits) (count : Z) : option Error :=
  if negb (valid_match_limits limits) then Some regex_match_limits_error else
  if rml_maximum_subject_bytes limits <? Z.of_nat (length subject) then Some regex_subject_error else
  if (Z.of_nat (length captures) <? rml_maximum_output_captures limits) || (rml_maximum_output_captures limits <? count + 1) ||
     (u32_max <? rml_maximum_output_captures limits) then Some regex_output_error else None.

(** What a match reports when the library returns [result]. *)
Definition match_report (result : Z) (vector : list Z) (maximum : Z) (captures : list RegexCapture)
    (r : Result RegexMatchResult) (captures' : list RegexCapture) : Prop :=
  if result =? PCRE2_ERROR_NOMATCH lib then r = Ok (MkRegexMatchResult 0 false) /\ captures' = fill_captures captures maximum
  else if result =? 0 then r = Err regex_insufficient_error /\ captures' = fill_captures captures maximum
  else if result <? 0 then captures' = captures /\
    r = Err (normalize_dependency_error id_pcre2_8bit op_regex_match (status_for lib result) (cast int32_t result))
  else 0 < result <= maximum /\ r = Ok (MkRegexMatchResult result true) /\ captures' = reported vector result maximum captures.

Definition memory_error (operation : DependencyOperation) : Error :=
  normalize_dependency_error id_pcre2_8bit operation (status_for lib (PCRE2_ERROR_NOMEMORY lib))
    (cast int32_t (PCRE2_ERROR_NOMEMORY lib)).

(** The match data and the match context are freed. *)
Lemma finish_match_run w live (O : gmap Z Pcre2Object) x d pairs :
  ready w live -> O !! x = None -> <[x := KMatchContext]> O !! d = None ->
  objects (library w) = <[d := KMatchData pairs]> (<[x := KMatchContext]> O) ->
  exists w' live', (w1 ← native_ (pcre2_match_data_free lib d) w; native_ (pcre2_match_context_free lib x) w1) = Ret w' /\
    used w live w' live' /\ objects (library w') = O.
Proof.
  intros Hr Hx Hd HO.
  destruct (free_call (pcre2_match_data_free lib d) w live d Hr) as (w1 & live1 & -> & Hu1 & HO1).
  { apply (law_match_data_free _ d pairs). rewrite HO. apply lookup_insert_eq. }
  rewrite HO, delete_insert_id in HO1 by done. cbn [mbind outcome_bind].
  destruct (free_call (pcre2_match_context_free lib x) w1 live1 x (us_ready _ _ _ _ Hu1)) as (w2 & live2 & -> & Hu2 & HO2).
  { apply law_match_context_free. rewrite HO1. apply lookup_insert_eq. }
  rewrite HO1, delete_insert_id in HO2 by done. exists w2, live2. split; [done|]. split; [by eapply used_trans|done].
Qed.

(** What the adapter asks of the library for one match, from the context to the result. *)
Definition match_asked (code general : Z) (subject : list Z) (limits : RegexMatchLimits) (n0 : N * PoolState C)
    (result : Z) (vector : list Z) : Prop :=
  exists x d n1 n2 n3 n4 n5,
    pcre2_match_context_create lib general n0 = Ret (Some x, n1) /\
    pcre2_set_match_limit lib x (rml_maximum_match_steps limits) n1 = Ret n2 /\
    pcre2_set_depth_limit lib x (rml_maximum_depth limits) n2 = Ret n3 /\
    pcre2_match_data_create lib (rml_maximum_output_captures limits) general n3 = Ret (Some d, n4) /\
    pcre2_match lib code subject d x n4 = Ret (result, n5) /\
    (0 < result -> pcre2_get_ovector_pointer lib d n5 = Ret vector).

(** The result of a match of an active pattern. *)
Definition match_outcome (code general count : Z) (subject : list Z) (captures : list RegexCapture) (limits : RegexMatchLimits)
    (n0 : N * PoolState C) (r : Result RegexMatchResult) (captures' : list RegexCapture) : Prop :=
  match match_refusal subject captures limits count with
  | Some e => r = Err e /\ captures' = captures
  | None => (r = Err (memory_error op_regex_match) /\ captures' = captures) \/
      exists result vector, match_asked code general subject limits n0 result vector /\
        match_report result vector (rml_maximum_output_captures limits) captures r captures'
  end.

Lemma native_inv {A} (f : N * PoolState C -> outcome (A * (N * PoolState C))) w r w' :
  native f w = Ret (r, w') -> f (rw_native w) = Ret (r, rw_native w').
Proof. unfold native. intros H. apply outcome_bind_Ret_inv in H as ([r1 n] & -> & H). by injection H as <- <-. Qed.

Lemma native_unit_inv (f : N * PoolState C -> outcome (N * PoolState C)) w w' :
  native_ f w = Ret w' -> f (rw_native w) = Ret (rw_native w').
Proof. unfold native_. intros H. apply outcome_bind_Ret_inv in H as (n & -> & H). by injection H as <-. Qed.

(** The match itself, with its context and data, and what is reported of its result. *)
Lemma matched_run w live (O : gmap Z Pcre2Object) code k subject x d pairs sink captures maximum :
  ready w live -> O !! x = None -> <[x := KMatchContext]> O !! d = None ->
  objects (library w) = <[d := KMatchData pairs]> (<[x := KMatchContext]> O) -> O !! code = Some (KCode k) ->
  1 <= pairs <= maximum -> maximum <= Z.of_nat (length captures) ->
  exists r captures' w' live' result vector n',
    (let finish (w : World) := w ← native_ (pcre2_match_data_free lib d) w; native_ (pcre2_match_context_free lib x) w in
     '(result, w) ← native (pcre2_match lib code subject d x) w;
     if result =? PCRE2_ERROR_NOMATCH lib then
       w ← finish w; Ret (Ok (MkRegexMatchResult 0 false), fill_captures captures maximum, w)
     else if result =? 0 then
       w ← finish w; Ret (Err regex_insufficient_error, fill_captures captures maximum, w)
     else if result <? 0 then
       let '(e, w) := native_error lib op_regex_match result sink w in
       w ← finish w; Ret (Err e, captures, w)
     else
       vector ← pcre2_get_ovector_pointer lib d (rw_native w);
       captures ← capture_loop lib (Z.to_nat result) 0 vector (fill_captures captures maximum);
       w ← finish w; Ret (Ok (MkRegexMatchResult result true), captures, w)) = Ret (r, captures', w') /\
    used w live w' live' /\ objects (library w') = O /\
    pcre2_match lib code subject d x (rw_native w) = Ret (result, n') /\
    (0 < result -> pcre2_get_ovector_pointer lib d n' = Ret vector) /\ match_report result vector maximum captures r captures'.
Proof.
  intros Hr Hx Hd HO Hc Hm Hlen'. cbn zeta.
  assert (Hxc : x <> code) by congruence. assert (Hdc : d <> code) by (intros ->; rewrite lookup_insert_ne in Hd; congruence).
  assert (Hdx : d <> x) by (intros ->; by rewrite lookup_insert_eq in Hd).
  destruct (native_run (pcre2_match lib code subject d x) w live _ Hr (law_match _ code k subject d pairs x
    ltac:(by rewrite HO, !lookup_insert_ne) ltac:(by rewrite HO, lookup_insert_eq) ltac:(by rewrite HO, lookup_insert_ne, lookup_insert_eq) (proj1 Hm)))
    as (result & w1 & live1 & E & Hu1 & Hle & HO1). rewrite HO in HO1. rewrite E, outcome_bind_Ret. apply native_inv in E.
  pose proof law_nomatch_negative as Hneg. unfold match_report.
  destruct (law_ovector (library w1) (rw_pool w1) d pairs ltac:(by rewrite HO1, lookup_insert_eq) (proj1 Hm)) as (vector & Hv & Hlen).
  replace (library w1, rw_pool w1) with (rw_native w1) in Hv by (unfold library, rw_pool; by destruct (rw_native w1)).
  destruct (finish_match_run w1 live1 O x d pairs (us_ready _ _ _ _ Hu1) Hx Hd HO1) as (w2 & live2 & E2 & Hu2 & HO2).
  pose proof (used_trans _ _ _ _ _ _ Hu1 Hu2) as Hu.
  destruct (Z.eqb_spec result (PCRE2_ERROR_NOMATCH lib)) as [->|Hno].
  { rewrite E2, outcome_bind_Ret. eexists _, _, w2, live2, _, vector, _. do 5 (split; [done|]). by rewrite Z.eqb_refl. }
  destruct (Z.eqb_spec result 0) as [->|Hz].
  { rewrite E2, outcome_bind_Ret. eexists _, _, w2, live2, 0, vector, _. do 5 (split; [done|]).
    by rewrite (proj2 (Z.eqb_neq 0 _)) by lia. }
  destruct (Z.ltb_spec result 0) as [Hlt|Hge].
  - unfold native_error. set (w1' := MkRegexWorld _ _ _).
    pose proof (ready_logged w1 live1 op_regex_match result sink (us_ready _ _ _ _ Hu1)) as Hlog. change (_.2) with w1' in Hlog.
    destruct (finish_match_run w1' live1 O x d pairs (us_ready _ _ _ _ Hlog) Hx Hd HO1) as (w3 & live3 & E3 & Hu3 & HO3).
    rewrite E3, outcome_bind_Ret. eexists _, _, w3, live3, result, vector, _. split; [done|].
    split; [eapply used_trans; [exact Hu1|]; by eapply used_trans|]. do 3 (split; [done|]).
    by rewrite !(proj2 (Z.eqb_neq _ _)), (proj2 (Z.ltb_lt _ _)) by lia.
  - rewrite Hv, outcome_bind_Ret. rewrite report_run by lia. rewrite outcome_bind_Ret, E2, outcome_bind_Ret.
    eexists _, _, w2, live2, result, vector, _. do 5 (split; [done|]).
    rewrite !(proj2 (Z.eqb_neq _ _)), (proj2 (Z.ltb_ge _ _)) by lia. split; [lia|done].
Qed.

(** A match of an active pattern. *)
Lemma match_run w live (this : RegexPattern) subject captures limits code p state general :
  ready w live -> active_parts this w = Some (code, p) -> rw_states w !! p = Some state -> rs_general state = Some general ->
  objects (library w) !! general = Some KGeneral -> objects (library w) !! code = Some (KCode (rs_capture_count state)) ->
  0 <= rs_capture_count state <= u32_max -> 0 <= rml_maximum_output_captures limits ->
  exists r captures' w' live', RegexPattern_match lib this subject captures limits w = Ret (r, captures', w') /\
    used w live w' live' /\ objects (library w') = objects (library w) /\
    match_outcome code general (rs_capture_count state) subject captures limits (rw_native w) r captures'.
Proof.
  intros Hr Hparts Hst Hg Hgen Hcode Hcount Hmax. unfold RegexPattern_match, RegexPattern_require_valid, match_outcome, match_refusal. rewrite Hparts.
  pose proof (used_refl w live Hr) as Hu0.
  destruct (negb (valid_match_limits limits)) eqn:Hvalid; [by exists (Err regex_match_limits_error), captures, w, live|].
  destruct (_ <? Z.of_nat (length subject)); [by exists (Err regex_subject_error), captures, w, live|].
  rewrite Hst, u64_small by (unfold u32_max, u64_max in *; lia).
  destruct ((_ <? _) || _ || _) eqn:Hout; [by exists (Err regex_output_error), captures, w, live|]. rewrite Hg.
  apply orb_false_iff in Hout as [[H1%Z.ltb_ge H2%Z.ltb_ge]%orb_false_iff H3%Z.ltb_ge].
  apply negb_false_iff in Hvalid. unfold valid_match_limits in Hvalid. apply andb_true_iff in Hvalid as [_ Hpos].
  apply negb_true_iff, Z.eqb_neq in Hpos.
  destruct (create_call (pcre2_match_context_create lib general) w live KMatchContext Hr (law_match_context_create _ general Hgen))
    as ([x|] & w1 & live1 & E1 & Hu1 & HO1); rewrite E1, outcome_bind_Ret; apply native_inv in E1.
  2:{ eexists _, _, _, _. split; [done|]. split; [|split; [exact HO1|by left]].
      eapply used_trans; [exact Hu1|]. apply ready_logged, Hu1. }
  destruct HO1 as [Hx HO1].
  destruct (keep_call (pcre2_set_match_limit lib x (rml_maximum_match_steps limits)) w1 live1 (us_ready _ _ _ _ Hu1)
    (law_match_limit _ x _ ltac:(by rewrite HO1, lookup_insert_eq))) as (w2 & live2 & E2 & Hu2 & HO2). rewrite HO1 in HO2.
  rewrite E2, outcome_bind_Ret. apply native_unit_inv in E2.
  destruct (keep_call (pcre2_set_depth_limit lib x (rml_maximum_depth limits)) w2 live2 (us_ready _ _ _ _ Hu2)
    (law_depth_limit _ x _ ltac:(by rewrite HO2, lookup_insert_eq))) as (w3 & live3 & E3 & Hu3 & HO3). rewrite HO2 in HO3.
  rewrite E3, outcome_bind_Ret. apply native_unit_inv in E3.
  pose proof (used_trans _ _ _ _ _ _ Hu1 (used_trans _ _ _ _ _ _ Hu2 Hu3)) as Hu03.
  rewrite u32_small by lia. assert (Hxg : x <> general) by congruence.
  destruct (create_call (pcre2_match_data_create lib (rml_maximum_output_captures limits) general) w3 live3 _ (us_ready _ _ _ _ Hu3)
    (law_match_data_create _ (rml_maximum_output_captures limits) general ltac:(by rewrite HO3, lookup_insert_ne) ltac:(lia))) as ([d|] & w4 & live4 & E4 & Hu4 & HO4);
    rewrite E4, outcome_bind_Ret; apply native_inv in E4; rewrite HO3 in HO4.
  2:{ destruct (free_call (pcre2_match_context_free lib x) w4 live4 x (us_ready _ _ _ _ Hu4)
        (law_match_context_free _ x ltac:(by rewrite HO4, lookup_insert_eq))) as (w5 & live5 & E5 & Hu5 & HO5).
      rewrite E5, outcome_bind_Ret. rewrite HO4, delete_insert_id in HO5 by done. eexists _, _, _, _. split; [done|].
      split; [|split; [exact HO5|by left]].
      eapply used_trans; [exact Hu03|]. eapply used_trans; [exact Hu4|]. eapply used_trans; [exact Hu5|]. apply ready_logged, Hu5. }
  destruct HO4 as [Hd HO4].
  destruct (matched_run w4 live4 (objects (library w)) code (rs_capture_count state) subject x d _ (rs_log state) captures
    (rml_maximum_output_captures limits) (us_ready _ _ _ _ Hu4) Hx Hd HO4 Hcode ltac:(unfold maximum_pairs; lia) ltac:(lia))
    as (r & captures' & w5 & live5 & result & vector & n & E5 & Hu5 & HO5 & Hask & Hvec & Hrep).
  exists r, captures', w5, live5. split; [exact E5|].
  split; [eapply used_trans; [exact Hu03|]; by eapply used_trans|]. split; [done|]. right. exists result, vector. split; [|done].
  exists x, d, (rw_native w1), (rw_native w2), (rw_native w3), (rw_native w4), n. done.
Qed.

(** ** The storage of a state *)
Definition others w live : gset pointer := dom live ∖ blocks (library w).

(** From [w0] a state was put at [p], and the arena pinned. *)
Record held w0 live0 w live (p : pointer) : Prop := {
  hd_ready : ready w live;
  hd_states : exists st, rw_states w = <[p := st]> (rw_states w0);
  hd_block : p ∈ others w live;
  hd_others : others w live = {[p]} ∪ others w0 live0;
  hd_shifted : shifted (rw_pool w0) (rw_pool w) 1 }.

(** Everything as in [w0], but for [d] pins. *)
Record same w0 live0 w live (d : Z) : Prop := {
  sm_ready : ready w live;
  sm_states : rw_states w = rw_states w0;
  sm_others : others w live = others w0 live0;
  sm_shifted : shifted (rw_pool w0) (rw_pool w) d }.

Lemma used_others w live w' live' : used w live w' live' -> others w' live' = others w live.
Proof. intros [_ _ _ [_ _ F]]. exact F. Qed.

Lemma held_used w0 live0 w live w' live' p : held w0 live0 w live p -> used w live w' live' -> held w0 live0 w' live' p.
Proof.
  intros [H1 H2 H3 H4 H5] Hu. pose proof (used_others _ _ _ _ Hu) as Ho. destruct Hu as [U1 U2 U3 _].
  split; [done|by rewrite U1|by rewrite Ho|by rewrite Ho|by eapply shifted_kept].
Qed.

Lemma held_set_state w0 live0 w live p st : held w0 live0 w live p -> held w0 live0 (set_state w p st) live p.
Proof.
  intros [H1 [st0 H2] H3 H4 H5]. split; try done.
  - destruct H1. by split.
  - exists st. unfold set_state. cbn [rw_states]. by rewrite H2, insert_insert_eq.
Qed.

Lemma same_logged w0 live0 w live d operation code sink :
  same w0 live0 w live d -> same w0 live0 (native_error lib operation code sink w).2 live d.
Proof. intros [[H1 H1'] H2 H3 H4]. by split. Qed.

Lemma free_storage_run w live p : ready w live -> p ∈ others w live ->
  exists w' live', free_state w p = Ret w' /\ library w' = library w /\ ready w' live' /\ rw_states w' = delete p (rw_states w) /\
    others w' live' = others w live ∖ {[p]} /\ kept (rw_pool w) (rw_pool w').
Proof.
  intros [[free HI] R2] Hp. unfold others in Hp. apply elem_of_difference in Hp as [Hl Hb]. apply elem_of_dom in Hl as [old Hl].
  destruct (free_run (rw_pool w) live free p old HI Hl) as (s' & E & HI').
  exists (set_pool (drop_state w p) s'), (delete p live). unfold free_state, others.
  change (rw_pool (drop_state w p)) with (rw_pool w). change (library (set_pool (drop_state w p) s')) with (library w).
  rewrite E, outcome_bind_Ret, dom_delete_L. split; [done|]. split; [done|]. split; [split; [by eexists|]|].
  - change (library (set_pool (drop_state w p) s')) with (library w). rewrite dom_delete_L. set_solver.
  - split; [done|]. split; [set_solver|]. by eapply arena_free_kept.
Qed.

Lemma free_state_run w0 live0 w live p : held w0 live0 w live p -> rw_states w0 !! p = None -> p ∉ others w0 live0 ->
  exists w' live', free_state w p = Ret w' /\ library w' = library w /\ same w0 live0 w' live' 1.
Proof.
  intros [R [st H2] H3 H4 H5] Hnone Hnew. destruct (free_storage_run w live p R H3) as (w' & live' & E & Hlib & R' & Hst & Ho & Hk).
  exists w', live'. split; [done|]. split; [done|]. split; [done|by rewrite Hst, H2, delete_insert_id| |by eapply shifted_kept].
  rewrite Ho, H4. set_solver.
Qed.

(** The general context and the storage are given back. *)
Lemma undo_run {A} w0 live0 w live p (O : gmap Z Pcre2Object) g (k : World -> outcome A) :
  held w0 live0 w live p -> rw_states w0 !! p = None -> p ∉ others w0 live0 -> O !! g = None -> objects (library w) = <[g := KGeneral]> O ->
  exists w' live', (w ← free_general lib w (Some g); w ← free_state w p; k w) = k w' /\
    objects (library w') = O /\ same w0 live0 w' live' 1.
Proof.
  intros Hh Hnone Hnew Hg HO.
  destruct (free_call (pcre2_general_context_free lib g) w live g (hd_ready _ _ _ _ _ Hh)) as (w1 & live1 & E1 & Hu1 & HO1).
  { apply law_general_free. by rewrite HO, lookup_insert_eq. }
  cbn [free_general]. rewrite E1, outcome_bind_Ret. rewrite HO, delete_insert_id in HO1 by done.
  destruct (free_state_run w0 live0 w1 live1 p (held_used _ _ _ _ _ _ _ Hh Hu1) Hnone Hnew) as (w2 & live2 & -> & E2 & Hs).
  rewrite outcome_bind_Ret. exists w2, live2. split; [done|]. by rewrite E2.
Qed.

(** The pin is given back as well. *)
Lemma abandon_run w0 live0 w live a e failure : implements (rw_pool w0) live0 -> same w0 live0 w live 1 ->
  exists w', abandon (MkArenaPin (Some a)) e failure w = Ret (Err e, failure, w') /\ library w' = library w /\ same w0 live0 w' live 0.
Proof.
  intros Hi0 [[R1 R2] H2 H3 H4]. destruct (implements_counts _ _ Hi0) as [Hp _].
  destruct (unpin_run (rw_pool w) live a R1) as (arena & E & Hi & Hs); [rewrite (sh_pins _ _ _ H4); lia|].
  exists (set_arena_of w arena). unfold abandon, ArenaPin_destroy. unfold rw_arena. rewrite E, !outcome_bind_Ret.
  split; [done|]. split; [done|]. split; [by split|done|done|]. replace 0 with (1 + -1) by lia. by eapply shifted_trans.
Qed.

(** ** Compilation *)
Definition active_pattern (s : PoolState C) (code : Z) (p : pointer) : RegexPattern :=
  MkRegexPattern (Some code) (Some p) (Some (ba_address (ps_arena s))) (ba_generation (ps_arena s))
    (MkArenaPin (Some (ba_address (ps_arena s)))).

(** Success leaves one state, one general context, one code and one pin more; failure nothing. *)
Definition compilation w0 live0 (limits : RegexCompileLimits) (log_sink : DependencyLogSink L)
    (r : Result RegexPattern) w live : Prop :=
  match r with
  | Err _ => same w0 live0 w live 0 /\ objects (library w) = objects (library w0)
  | Ok s => exists p code general count, s = active_pattern (rw_pool w0) code p /\ p ∉ others w0 live0 /\ held w0 live0 w live p /\
      rw_states w = <[p := MkState (Some general) log_sink count]> (rw_states w0) /\
      objects (library w0) !! general = None /\ objects (library w0) !! code = None /\ general <> code /\
      objects (library w) = <[code := KCode count]> (<[general := KGeneral]> (objects (library w0))) /\
      0 <= count <= u32_max /\ count <= rcl_maximum_capture_count limits
  end.

(** Failures after the general context was created. *)
Lemma failed_run w0 live0 w live p g limits log_sink (report : World -> Error * World) failure : implements (rw_pool w0) live0 ->
  held w0 live0 w live p -> rw_states w0 !! p = None -> p ∉ others w0 live0 -> objects (library w0) !! g = None ->
  objects (library w) = <[g := KGeneral]> (objects (library w0)) ->
  (forall v, library (report v).2 = library v /\ forall live1, same w0 live0 v live1 1 -> same w0 live0 (report v).2 live1 1) ->
  exists r w' live', (w ← free_general lib w (Some g); w ← free_state w p;
     let '(e, w) := report w in abandon (MkArenaPin (Some (ba_address (rw_arena w0)))) e failure w) = Ret (r, failure, w') /\
    compilation w0 live0 limits log_sink r w' live'.
Proof.
  intros Hi0 Hh Hnone Hnew Hg HO Hrep.
  destruct (undo_run w0 live0 w live p _ g (fun w => let '(e, w) := report w in abandon (MkArenaPin (Some (ba_address (rw_arena w0)))) e failure w)
    Hh Hnone Hnew Hg HO) as (w1 & live1 & -> & HO1 & Hs1).
  destruct (Hrep w1) as (Hlib & Hs). specialize (Hs _ Hs1). destruct (report w1) as [e w2]. cbn [snd] in *.
  destruct (abandon_run w0 live0 w2 live1 (ba_address (rw_arena w0)) e failure Hi0 Hs) as (w3 & -> & Hlib2 & Hs2).
  exists (Err e), w3, live1. split; [done|]. split; [done|]. by rewrite Hlib2, Hlib, HO1.
Qed.

Lemma report_native w0 live0 operation code sink v :
  library (native_error lib operation code sink v).2 = library v /\
  forall live1, same w0 live0 v live1 1 -> same w0 live0 (native_error lib operation code sink v).2 live1 1.
Proof. split; [done|]. intros live1. apply same_logged. Qed.

Lemma compile_code_run pattern limits log_sink w0 live0 w live p g : implements (rw_pool w0) live0 ->
  held w0 live0 w live p -> rw_states w0 !! p = None -> p ∉ others w0 live0 -> objects (library w0) !! g = None ->
  objects (library w) = <[g := KGeneral]> (objects (library w0)) ->
  exists r failure w' live',
    compile_code lib pattern limits log_sink (MkArenaPin (Some (ba_address (rw_arena w0)))) p g w = Ret (r, failure, w') /\
    compilation w0 live0 limits log_sink r w' live'.
Proof.
  intros Hi0 Hh Hnone Hnew Hg HO. unfold compile_code.
  destruct (create_call (pcre2_compile_context_create lib g) w live KCompileContext (hd_ready _ _ _ _ _ Hh)
    (law_compile_context_create _ g ltac:(by rewrite HO, lookup_insert_eq))) as ([x|] & w1 & live1 & -> & Hu1 & HO1);
    rewrite outcome_bind_Ret; rewrite HO in HO1; pose proof (held_used _ _ _ _ _ _ _ Hh Hu1) as Hh1.
  2:{ destruct (failed_run w0 live0 w1 live1 p g limits log_sink (native_error lib op_regex_compile (PCRE2_ERROR_NOMEMORY lib) log_sink)
        (MkRegexCompileFailure 0) Hi0 Hh1 Hnone Hnew Hg HO1 (report_native _ _ _ _ _)) as (r & w' & live' & E & Hc).
      exists r, (MkRegexCompileFailure 0), w', live'. split; [exact E|exact Hc]. }
  destruct HO1 as [Hx HO1].
  destruct (keep_call (pcre2_set_parens_nest_limit lib x (rcl_maximum_pattern_depth limits)) w1 live1 (us_ready _ _ _ _ Hu1)
    (law_nest_limit _ x _ ltac:(by rewrite HO1, lookup_insert_eq))) as (w2 & live2 & -> & Hu2 & HO2). rewrite HO1 in HO2.
  rewrite outcome_bind_Ret. pose proof (held_used _ _ _ _ _ _ _ Hh1 Hu2) as Hh2.
  destruct (native_run (pcre2_compile lib pattern x) w2 live2 _ (us_ready _ _ _ _ Hu2)
    (law_compile _ pattern x ltac:(by rewrite HO2, lookup_insert_eq))) as (made & w3 & live3 & -> & Hu3 & Hmade). rewrite HO2 in Hmade.
  rewrite outcome_bind_Ret. pose proof (held_used _ _ _ _ _ _ _ Hh2 Hu3) as Hh3.
  assert (Hctx : objects (library w3) !! x = Some KCompileContext).
  { destruct made as [c|]; [|by rewrite Hmade, lookup_insert_eq]. destruct Hmade as (Hc & k & _ & ->).
    rewrite lookup_insert_ne by (intros ->; by rewrite lookup_insert_eq in Hc). by rewrite lookup_insert_eq. }
  destruct (free_call (pcre2_compile_context_free lib x) w3 live3 x (us_ready _ _ _ _ Hu3) (law_compile_context_free _ x Hctx))
    as (w4 & live4 & -> & Hu4 & HO4). rewrite outcome_bind_Ret. pose proof (held_used _ _ _ _ _ _ _ Hh3 Hu4) as Hh4.
  destruct made as [c|[error offset]].
  2:{ rewrite Hmade, delete_insert_id in HO4 by done.
      destruct (failed_run w0 live0 w4 live4 p g limits log_sink (native_error lib op_regex_compile error log_sink)
        (MkRegexCompileFailure offset) Hi0 Hh4 Hnone Hnew Hg HO4 (report_native _ _ _ _ _)) as (r & w' & live' & E & Hc).
      exists r, (MkRegexCompileFailure offset), w', live'. split; [exact E|exact Hc]. }
  destruct Hmade as (Hc & count & Hcount & HO3). apply lookup_insert_None in Hc as [Hc Hxc]. apply lookup_insert_None in Hc as [Hc Hgc].
  rewrite HO3, (delete_insert_ne _ x c), delete_insert_id in HO4 by done.
  destruct (law_pattern_info (library w4) (rw_pool w4) c count ltac:(by rewrite HO4, lookup_insert_eq)) as (info & captures & Einfo & Hinfo).
  replace (library w4, rw_pool w4) with (rw_native w4) in Einfo by (unfold library, rw_pool; by destruct (rw_native w4)).
  rewrite Einfo, outcome_bind_Ret. destruct (negb (info =? 0) || _) eqn:Hbad.
  - destruct (free_call (pcre2_code_free lib c) w4 live4 c (us_ready _ _ _ _ Hu4) (law_code_free _ c count ltac:(by rewrite HO4, lookup_insert_eq)))
      as (w5 & live5 & -> & Hu5 & HO5). rewrite outcome_bind_Ret. pose proof (held_used _ _ _ _ _ _ _ Hh4 Hu5) as Hh5.
    rewrite HO4, delete_insert_id in HO5 by (by rewrite lookup_insert_ne).
    destruct (negb (info =? 0)).
    + destruct (failed_run w0 live0 w5 live5 p g limits log_sink (native_error lib op_regex_compile info log_sink)
        (MkRegexCompileFailure 0) Hi0 Hh5 Hnone Hnew Hg HO5 (report_native _ _ _ _ _)) as (r & w' & live' & E & Hcomp).
      exists r, (MkRegexCompileFailure 0), w', live'. split; [exact E|exact Hcomp].
    + destruct (failed_run w0 live0 w5 live5 p g limits log_sink (fun w => (regex_captures_error, w))
        (MkRegexCompileFailure 0) Hi0 Hh5 Hnone Hnew Hg HO5) as (r & w' & live' & E & Hcomp); [done|].
      exists r, (MkRegexCompileFailure 0), w', live'. split; [exact E|exact Hcomp].
  - apply orb_false_iff in Hbad as [Hi Hle%Z.ltb_ge]. apply negb_false_iff, Z.eqb_eq in Hi. rewrite (Hinfo Hi) in *.
    pose proof (held_set_state _ _ _ _ _ (MkState (Some g) log_sink count) Hh4) as Hh5.
    pose proof (hd_shifted _ _ _ _ _ Hh5) as [S1 S2 _]. eexists _, _, _, live4. split; [done|].
    exists p, c, g, count. split; [unfold active_pattern, rw_arena; by rewrite S1, S2|]. split; [done|]. split; [done|]. split; [|done].
    destruct (hd_states _ _ _ _ _ Hh4) as [st Hst]. unfold set_state. cbn [rw_states]. by rewrite Hst, insert_insert_eq.
Qed.

(** The arguments a compilation refuses. *)
Definition compile_refusal (pattern : list Z) (limits : RegexCompileLimits) : option Error :=
  if negb (valid_compile_limits limits) then Some regex_limits_error else
  if maximum_reportable_capture_count <? rcl_maximum_capture_count limits then Some regex_capture_limit_error else
  if rcl_maximum_pattern_bytes limits <? Z.of_nat (length pattern) then Some regex_pattern_bytes_error else None.

Lemma same_refl w live : ready w live -> same w live w live 0.
Proof. intros H. split; [done..|]. apply kept_shifted, kept_refl. Qed.

(** The storage of the state and the general context. *)
Lemma compile_state_run pattern limits log_sink w0 live0 w : implements (rw_pool w0) live0 -> dom (rw_states w0) = others w0 live0 ->
  same w0 live0 w live0 1 -> library w = library w0 ->
  exists r failure w' live',
    ('(storage, s) ← arena_malloc (rw_pool w) sizeof_State;
     let w := set_pool w s in
     match storage with
     | None => abandon (MkArenaPin (Some (ba_address (rw_arena w0)))) regex_state_error (MkRegexCompileFailure 0) w
     | Some storage =>
         '(general, w) ← native (pcre2_general_context_create lib) (set_state w storage (MkState None log_sink 0));
         match general with
         | None =>
             w ← free_state w storage;
             let '(e, w) := native_error lib op_regex_compile (PCRE2_ERROR_NOMEMORY lib) log_sink w in
             abandon (MkArenaPin (Some (ba_address (rw_arena w0)))) e (MkRegexCompileFailure 0) w
         | Some general =>
             compile_code lib pattern limits log_sink (MkArenaPin (Some (ba_address (rw_arena w0)))) storage general
               (set_state w storage (MkState (Some general) log_sink 0))
         end
     end) = Ret (r, failure, w') /\ compilation w0 live0 limits log_sink r w' live'.
Proof.
  intros Hi0 Hdom [[[free HI] R2] H2 H3 H4] Hlib.
  destruct (malloc_ok (rw_pool w) live0 free sizeof_State HI ltac:(unfold is_size, sizeof_State, size_max, u64_max; lia)) as (r & s' & free' & E & Hr).
  rewrite E, outcome_bind_Ret. apply arena_malloc_kept in E. cbn zeta. set (w1 := set_pool w s').
  assert (Hlib1 : library w1 = library w0) by exact Hlib. rewrite Hlib in R2.
  destruct r as [p|].
  2:{ destruct (abandon_run w0 live0 w1 live0 (ba_address (rw_arena w0)) regex_state_error (MkRegexCompileFailure 0) Hi0) as (w2 & -> & L2 & S2).
      { split; [split; [by eexists|by rewrite Hlib1]|done|unfold others; by rewrite Hlib1|by eapply shifted_kept]. }
      eexists _, _, _, _. split; [done|]. split; [done|]. by rewrite L2, Hlib1. }
  destruct Hr as (Hp & bytes & _ & HI'). pose proof Hp as Hpd. apply not_elem_of_dom in Hpd.
  assert (Hnew : p ∉ others w0 live0) by (unfold others; set_solver).
  assert (Hnone : rw_states w0 !! p = None) by (apply not_elem_of_dom; by rewrite Hdom).
  assert (Hh : held w0 live0 (set_state w1 p (MkState None log_sink 0)) (<[p := bytes]> live0) p).
  { assert (Hpb : p ∉ blocks (library w0)) by set_solver.
    assert (Ho : others (set_state w1 p (MkState None log_sink 0)) (<[p := bytes]> live0) = {[p]} ∪ others w0 live0).
    { unfold others. change (library (set_state w1 p (MkState None log_sink 0))) with (library w1). rewrite Hlib1, dom_insert_L. set_solver. }
    split; [split; [by eexists|]| |rewrite Ho; set_solver|done|by eapply shifted_kept].
    - change (library (set_state w1 p (MkState None log_sink 0))) with (library w1). rewrite Hlib1, dom_insert_L. set_solver.
    - exists (MkState None log_sink 0). unfold set_state. cbn [rw_states]. by rewrite <- H2. }
  destruct (create_call (pcre2_general_context_create lib) _ _ KGeneral (hd_ready _ _ _ _ _ Hh) (law_general_create _)) as ([g|] & w2 & live2 & -> & Hu2 & HO2);
    rewrite outcome_bind_Ret; pose proof (held_used _ _ _ _ _ _ _ Hh Hu2) as Hh2;
    change (library (set_state w1 p (MkState None log_sink 0))) with (library w1) in HO2; rewrite Hlib1 in HO2.
  - destruct HO2 as [Hg HO2]. apply (compile_code_run pattern limits log_sink w0 live0 _ live2 p g); try done. by apply held_set_state.
  - destruct (free_state_run w0 live0 w2 live2 p Hh2 Hnone Hnew) as (w3 & live3 & -> & E3 & Hs). rewrite outcome_bind_Ret.
    apply (same_logged _ _ _ _ _ op_regex_compile (PCRE2_ERROR_NOMEMORY lib) log_sink) in Hs.
    unfold native_error in *. cbn [snd] in Hs.
    destruct (abandon_run w0 live0 _ live3 (ba_address (rw_arena w0)) (memory_error op_regex_compile) (MkRegexCompileFailure 0) Hi0 Hs) as (w4 & E4 & L4 & S4).
    eexists _, _, _, _. split; [exact E4|]. split; [done|]. rewrite L4. exact (eq_trans (f_equal objects E3) HO2).
Qed.

Lemma compile_run pattern limits log_sink w live : ready w live -> dom (rw_states w) = others w live ->
  exists r failure w' live', RegexPattern_compile lib pattern limits log_sink w = Ret (r, failure, w') /\
    compilation w live limits log_sink r w' live' /\
    (forall e, compile_refusal pattern limits = Some e -> r = Err e /\ w' = w).
Proof.
  intros Hr Hdom. unfold RegexPattern_compile, compile_refusal.
  destruct (negb (valid_compile_limits limits)).
  { eexists (Err _), _, w, live. split; [done|]. split; [split; [by apply same_refl|done]|by intros e [= <-]]. }
  destruct (maximum_reportable_capture_count <? _).
  { eexists (Err _), _, w, live. split; [done|]. split; [split; [by apply same_refl|done]|by intros e [= <-]]. }
  destruct (rcl_maximum_pattern_bytes limits <? _).
  { eexists (Err _), _, w, live. split; [done|]. split; [split; [by apply same_refl|done]|by intros e [= <-]]. }
  destruct Hr as [R1 R2]. pose proof (pin_run (rw_pool w) live R1) as Hpin. cbn zeta.
  change (rw_arena (set_pool w (synchronize (rw_pool w)))) with (ps_arena (synchronize (rw_pool w))).
  change (rw_pool (set_pool w (synchronize (rw_pool w)))) with (synchronize (rw_pool w)).
  destruct (BoundedArena_pin _ _) as [pin arena]. destruct Hpin as [Hi Hpin].
  set (w1 := set_arena_of _ arena).
  assert (Hs : forall d, shifted (rw_pool w) (with_arena (synchronize (rw_pool w)) arena) d -> same w live w1 live d).
  { intros d Hd. split; [by split|done|done|exact Hd]. }
  destruct pin as [pin|e].
  - destruct Hpin as [-> Hd].
    destruct (compile_state_run pattern limits log_sink w live w1 R1 Hdom (Hs _ Hd) eq_refl) as (r & failure & w' & live' & E & Hc).
    exists r, failure, w', live'. split; [exact E|]. by split.
  - eexists (Err _), _, w1, live. split; [done|]. split; [split; [by apply Hs|done]|done].
Qed.

(** ** Release and moves *)
Lemma release_empty_pattern w : RegexPattern_release lib empty_pattern w = Ret (empty_pattern, w).
Proof. unfold RegexPattern_release. cbn. unfold set_arena_of, set_pool, set_native, rw_arena, rw_pool. by destruct w as [[n []] ? ?]. Qed.

Lemma move_from_empty_pattern w (s : RegexPattern) : RegexPattern_move_from empty_pattern s w = Ret (s, empty_pattern, w).
Proof.
  unfold RegexPattern_move_from. cbn. unfold set_arena_of, set_pool, set_native, rw_arena, rw_pool. by destruct w as [[n []] ? ?], s as [? ? ? ? []].
Qed.
End patterns.
