(* ===== verification/RegexClient.v ===== *)
(** * Programs with patterns

    Programs that compile, match, move and destroy patterns and reset the arena in any order:
    every pattern owns its state, its contexts and its code, and all of the library's memory is
    that of patterns. *)
From S2P Require Import Prelude Contract CheckedArithmetic Identifiers MemoryBudget BudgetInvariant MemoryBudgetSpec Views BlockSource BoundedArena.
From S2P Require Import ArenaSpec Dependencies NativeMemory NativeSpec CodecPool Regex RegexSpec RegexOperations.
From Stdlib Require Import ZArith Lia String Ascii.
From stdpp Require Import base numbers list gmap option fin_map_dom.

Set Default Goal Selector "!".
#[local] Open Scope Z_scope.

Section clients.
Context {N C L : Type} {acquire : C * Memory -> Z -> Result MutableByteView * (C * Memory)}.
Context {reset : C * Memory -> Result unit * (C * Memory)} `{!PoolSource acquire reset}.
Context {lib : Pcre2 N C} {laws : Pcre2Laws (acquire := acquire) (reset := reset) lib}.
Abbreviation World := (RegexWorld N C L).
Implicit Types (w : World) (live : gmap pointer (list Z)) (codes : gmap pointer Z) (home : gmap Z pointer).
Abbreviation implements := (implements (acquire := acquire) (reset := reset)).

(** ** The world between operations *)

(** The pattern whose state is at [p] has the code [c]. *)
Record owned w home (p : pointer) (c : Z) (state : State L) (general : Z) : Prop := {
  od_state : rw_states w !! p = Some state;
  od_general : rs_general state = Some general;
  od_general_object : objects (library w) !! general = Some KGeneral;
  od_code_object : objects (library w) !! c = Some (KCode (rs_capture_count state));
  od_count : 0 <= rs_capture_count state <= u32_max;
  od_general_home : home !! general = Some p;
  od_code_home : home !! c = Some p }.

(** [codes] are the codes of the patterns by the address of their state, [home] the pattern of
    each object of the library: the states and the blocks that are not the library's are those
    of the patterns, and so are its objects. *)
Record resting w live codes home : Prop := {
  rt_ready : ready w live;
  rt_states : dom (rw_states w) = dom codes;
  rt_others : others w live = dom codes;
  rt_owned : forall p c, codes !! p = Some c -> exists state general, owned w home p c state general;
  rt_objects : dom (objects (library w)) = dom home;
  rt_home : forall h p, home !! h = Some p -> exists c state, codes !! p = Some c /\ rw_states w !! p = Some state /\
    (h = c \/ rs_general state = Some h) }.

(** The library may use its memory meanwhile. *)
Lemma resting_used w live w' live' codes home :
  resting w live codes home -> used w live w' live' -> objects (library w') = objects (library w) -> resting w' live' codes home.
Proof.
  intros [H1 H2 H3 H4 H5 H6] Hu HO. pose proof (used_others _ _ _ _ Hu) as Ho. destruct Hu as [U1 U2 _ _].
  split; [done|by rewrite U1|by rewrite Ho| |by rewrite HO|by rewrite U1].
  intros p c Hp. destruct (H4 p c Hp) as (state & g & [A1 A2 A3 A4 A5 A6 A7]). exists state, g. split; by rewrite ?U1, ?HO.
Qed.

Lemma resting_same w live w' live' codes home d :
  resting w live codes home -> same w live w' live' d -> objects (library w') = objects (library w) -> resting w' live' codes home.
Proof.
  intros [H1 H2 H3 H4 H5 H6] [S1 S2 S3 _] HO. split; [done|by rewrite S2|by rewrite S3| |by rewrite HO|by rewrite S2].
  intros p c Hp. destruct (H4 p c Hp) as (state & g & [A1 A2 A3 A4 A5 A6 A7]). exists state, g. split; by rewrite ?S2, ?HO.
Qed.

Lemma resting_domain w live codes home : resting w live codes home -> dom (rw_states w) = others w live.
Proof. intros [_ H2 H3 _ _ _]. by rewrite H2, H3. Qed.

(** A compiled pattern joins the others. *)
Lemma resting_compiled w live codes home limits sink s w' live' :
  resting w live codes home -> compilation w live limits sink (Ok s) w' live' ->
  exists p c home', s = active_pattern (rw_pool w) c p /\ codes !! p = None /\ resting w' live' (<[p := c]> codes) home' /\
    shifted (rw_pool w) (rw_pool w') 1.
Proof.
  intros [H1 H2 H3 H4 H5 H6] (p & c & g & count & -> & Hnew & Hh & Hst & Hg & Hc & Hgc & HO & Hcount & _).
  assert (Hp : codes !! p = None) by (apply not_elem_of_dom; by rewrite <- H3).
  assert (Hhome : home !! g = None /\ home !! c = None) by (split; apply not_elem_of_dom; rewrite <- H5; by apply not_elem_of_dom).
  destruct Hhome as [Hhg Hhc]. exists p, c, (<[c := p]> (<[g := p]> home)). split; [done|]. split; [done|]. split; [|apply Hh].
  assert (Hobj : forall h k, objects (library w) !! h = Some k -> objects (library w') !! h = Some k)
    by (intros h k Hk; rewrite HO, !lookup_insert_ne by congruence; done).
  assert (Hh' : forall h q, home !! h = Some q -> <[c := p]> (<[g := p]> home) !! h = Some q)
    by (intros h q Hq; rewrite !lookup_insert_ne by congruence; done).
  split.
  - apply Hh.
  - by rewrite Hst, !dom_insert_L, H2.
  - by rewrite (hd_others _ _ _ _ _ Hh), H3, dom_insert_L.
  - intros q d Hq. destruct (decide (q = p)) as [->|Hne].
    + rewrite lookup_insert_eq in Hq. injection Hq as <-. exists (MkState (Some g) sink count), g.
      split; [by rewrite Hst, lookup_insert_eq|done| | |done| |]; rewrite ?HO.
      * by rewrite lookup_insert_ne, lookup_insert_eq.
      * by rewrite lookup_insert_eq.
      * by rewrite lookup_insert_ne, lookup_insert_eq.
      * by rewrite lookup_insert_eq.
    + rewrite lookup_insert_ne in Hq by done. destruct (H4 q d Hq) as (state & g' & [A1 A2 A3 A4 A5 A6 A7]). exists state, g'.
      split; auto. by rewrite Hst, lookup_insert_ne.
  - by rewrite HO, !dom_insert_L, H5.
  - intros h q Hq. destruct (decide (h = c)) as [->|Hne1]; [|destruct (decide (h = g)) as [->|Hne2]].
    + rewrite lookup_insert_eq in Hq. injection Hq as <-. exists c, (MkState (Some g) sink count). rewrite Hst, !lookup_insert_eq. auto.
    + rewrite lookup_insert_ne, lookup_insert_eq in Hq by done. injection Hq as <-. exists c, (MkState (Some g) sink count).
      rewrite Hst, !lookup_insert_eq. auto.
    + rewrite !lookup_insert_ne in Hq by done. destruct (H6 h q Hq) as (d & state & Hd & Hs & Hor). exists d, state.
      assert (q <> p) by congruence. by rewrite Hst, !lookup_insert_ne.
Qed.

(** ** Release *)
Lemma active_pattern_parts w (s : PoolState C) c p : ba_generation (ps_arena s) = ba_generation (rw_arena w) ->
  active_parts (active_pattern s c p) w = Some (c, p).
Proof. intros E. unfold active_parts. cbn. by rewrite E, Z.eqb_refl. Qed.

(** The objects of a pattern are gone with it. *)
Lemma resting_released w live codes home p c state g w' live' :
  resting w live codes home -> codes !! p = Some c -> owned w home p c state g -> ready w' live' ->
  rw_states w' = delete p (rw_states w) -> others w' live' = others w live ∖ {[p]} ->
  objects (library w') = delete g (delete c (objects (library w))) ->
  resting w' live' (delete p codes) (delete g (delete c home)).
Proof.
  intros [H1 H2 H3 H4 H5 H6] Hp Ho Hr Hst Hoth HO. split.
  - done.
  - by rewrite Hst, !dom_delete_L, H2.
  - by rewrite Hoth, H3, dom_delete_L.
  - intros q d Hq. apply lookup_delete_Some in Hq as [Hne Hq]. destruct (H4 q d Hq) as (st & g' & [A1 A2 A3 A4 A5 A6 A7]).
    destruct Ho as [B1 B2 B3 B4 B5 B6 B7].
    assert (g' <> g) by congruence. assert (g' <> c) by congruence. assert (d <> g) by congruence. assert (d <> c) by congruence.
    exists st, g'. split; rewrite ?Hst, ?HO, ?lookup_delete_ne; done.
  - by rewrite HO, !dom_delete_L, H5.
  - intros h q Hq. apply lookup_delete_Some in Hq as [Hg Hq]. apply lookup_delete_Some in Hq as [Hc Hq].
    destruct (H6 h q Hq) as (d & st & Hd & Hs & Hor). exists d, st. assert (Hne : q <> p).
    { intros ->. rewrite Hd in Hp. injection Hp as ->. destruct Hor as [->|Hor]; [done|]. pose proof (od_state _ _ _ _ _ _ Ho).
      pose proof (od_general _ _ _ _ _ _ Ho). congruence. }
    by rewrite Hst, !lookup_delete_ne by congruence.
Qed.

Lemma release_owned_run w live codes home p c (s : PoolState C) :
  resting w live codes home -> codes !! p = Some c -> ba_generation (ps_arena s) = ba_generation (rw_arena w) -> 1 <= ba_live_pins (rw_arena w) ->
  exists w' live' home', RegexPattern_release lib (active_pattern s c p) w = Ret (empty_pattern, w') /\
    resting w' live' (delete p codes) home' /\ shifted (rw_pool w) (rw_pool w') (-1).
Proof.
  intros Hrest Hp Hgen Hpins. pose proof Hrest as [H1 H2 H3 H4 H5 H6]. destruct (H4 p c Hp) as (state & g & Ho).
  pose proof Ho as [A1 A2 A3 A4 A5 A6 A7]. unfold RegexPattern_release. rewrite (active_pattern_parts w s c p Hgen), A1.
  destruct (free_call (pcre2_code_free lib c) w live c H1 (law_code_free _ c _ A4)) as (w1 & live1 & -> & Hu1 & HO1). rewrite outcome_bind_Ret, A2.
  assert (Hgc : c <> g) by congruence.
  destruct (free_call (pcre2_general_context_free lib g) w1 live1 g (us_ready _ _ _ _ Hu1)
    (law_general_free _ g ltac:(by rewrite HO1, lookup_delete_ne))) as (w2 & live2 & E2 & Hu2 & HO2). cbn [free_general].
  rewrite E2, outcome_bind_Ret. pose proof (used_trans _ _ _ _ _ _ Hu1 Hu2) as Hu.
  destruct (free_storage_run w2 live2 p (us_ready _ _ _ _ Hu2)) as (w3 & live3 & -> & Hlib & R3 & Hst & Hoth & Hk).
  { rewrite (used_others _ _ _ _ Hu), H3. apply elem_of_dom. by rewrite Hp. }
  rewrite outcome_bind_Ret. cbn [active_pattern rp_pin]. unfold ArenaPin_move_assign.
  pose proof (shifted_trans _ _ _ _ _ (kept_shifted _ _ (us_kept _ _ _ _ Hu)) (kept_shifted _ _ Hk)) as Hs3.
  destruct (unpin_run (rw_pool w3) live3 (ba_address (ps_arena s)) (rd_pool _ _ R3)) as (arena & E4 & Hi4 & Hs4).
  { pose proof (sh_pins _ _ _ Hs3). unfold rw_arena in Hpins. lia. }
  unfold rw_arena. rewrite E4, !outcome_bind_Ret. cbn [pin_arena].
  exists (set_arena_of w3 arena), live3, (delete g (delete c home)). split; [done|]. split; [|exact (shifted_trans _ _ _ _ _ Hs3 Hs4)].
  apply (resting_released w live codes home p c state g); try done.
  - split; [done|apply R3].
  - cbn. by rewrite Hst, (us_states _ _ _ _ Hu).
  - change (others (set_arena_of w3 arena) live3) with (others w3 live3). by rewrite Hoth, (used_others _ _ _ _ Hu).
  - change (library (set_arena_of w3 arena)) with (library w3). by rewrite Hlib, HO2, HO1.
Qed.

(** ** Clients *)
Record RegexClient := MkRegexClient { rc_patterns : gmap nat RegexPattern; rc_world : World }.

Inductive regex_op :=
  | XCompile (x : nat) (pattern : list Z) (limits : RegexCompileLimits) (log : DependencyLogSink L)
  | XMatch (x : nat) (subject : list Z) (captures : list RegexCapture) (limits : RegexMatchLimits)
  | XMove (x y : nat)
  | XAssign (x y : nat)
  | XDestroy (x : nat)
  | XReset (boundary : ArenaQuiescentBoundary).

(** [XMove x y] constructs [y] from [x]; [XAssign x y] assigns [y] to [x]. *)
Definition exec_regex (c : RegexClient) (op : regex_op) : outcome RegexClient :=
  let w := rc_world c in
  match op with
  | XCompile x pattern limits log =>
      '(r, _, w) ← RegexPattern_compile lib pattern limits log w;
      Ret (MkRegexClient (match r with Ok s => <[x := s]> (rc_patterns c) | Err _ => rc_patterns c end) w)
  | XMatch x subject captures limits =>
      match rc_patterns c !! x with
      | None => Stop Undefined
      | Some s => '(_, _, w) ← RegexPattern_match lib s subject captures limits w; Ret (MkRegexClient (rc_patterns c) w)
      end
  | XMove x y =>
      match rc_patterns c !! x with
      | None => Stop Undefined
      | Some s => '(t, s, w) ← RegexPattern_move_construct s w; Ret (MkRegexClient (<[y := t]> (<[x := s]> (rc_patterns c))) w)
      end
  | XAssign x y =>
      match rc_patterns c !! x, rc_patterns c !! y with
      | Some s, Some t =>
          '(s, t, w) ← RegexPattern_move_assign lib s t w; Ret (MkRegexClient (<[x := s]> (<[y := t]> (rc_patterns c))) w)
      | _, _ => Stop Undefined
      end
  | XDestroy x =>
      match rc_patterns c !! x with
      | None => Stop Undefined
      | Some s => w ← RegexPattern_destroy lib s w; Ret (MkRegexClient (delete x (rc_patterns c)) w)
      end
  | XReset boundary => '(_, s) ← exec_pool (rw_pool w) (PReset boundary); Ret (MkRegexClient (rc_patterns c) (set_pool w s))
  end.

Definition regex_legal (c : RegexClient) (op : regex_op) : Prop :=
  match op with
  | XCompile x _ _ _ => rc_patterns c !! x = None
  | XMatch x _ _ limits => is_Some (rc_patterns c !! x) /\ 0 <= rml_maximum_output_captures limits
  | XMove x y => is_Some (rc_patterns c !! x) /\ rc_patterns c !! y = None
  | XAssign x y => is_Some (rc_patterns c !! x) /\ is_Some (rc_patterns c !! y) /\ x <> y
  | XDestroy x => is_Some (rc_patterns c !! x)
  | XReset _ => True
  end.

#[export] Instance pattern_handle : PinnedHandle C RegexPattern.
Proof.
  refine {| handle_empty := empty_pattern; handle_active := active_pattern; handle_state := rp_state |}.
  - done.
  - done.
  - intros s s' d c p [E1 E2 _]. unfold active_pattern. by rewrite E1, E2.
Defined.

Lemma pattern_cases patterns s codes x t : handles_ok patterns s codes -> patterns !! x = Some t ->
  t = empty_pattern \/ exists p c, codes !! p = Some c /\ t = active_pattern s c p.
Proof. exact (fun H => ho_active _ _ _ H x t). Qed.

Lemma pattern_of patterns s codes p c : handles_ok patterns s codes -> codes !! p = Some c -> exists x, patterns !! x = Some (active_pattern s c p).
Proof. exact (fun H => ho_codes _ _ _ H p c). Qed.

Definition regex_ok (c : RegexClient) : Prop := exists live codes home,
  resting (rc_world c) live codes home /\ handles_ok (rc_patterns c) (rw_pool (rc_world c)) codes.

(** ** Operations of clients *)
Lemma resting_nothing w live home : resting w live ∅ home -> home = ∅ /\ objects (library w) = ∅ /\ live = ∅.
Proof.
  intros [H1 H2 H3 H4 H5 H6].
  assert (home = ∅) as ->.
  { apply map_eq. intros h. rewrite lookup_empty. destruct (home !! h) as [p|] eqn:E; [|done]. by destruct (H6 h p E) as (c & st & Hc & _). }
  rewrite dom_empty_L in H5. apply dom_empty_inv_L in H5. split; [done|]. split; [done|]. apply dom_empty_inv_L.
  unfold others in H3. rewrite (law_no_objects _ H5), dom_empty_L in H3. set_solver.
Qed.

Lemma reset_regex c boundary : regex_ok c -> exists c', exec_regex c (XReset boundary) = Ret c' /\ regex_ok c'.
Proof.
  intros (live & codes & home & Hrest & Hpat). cbn [exec_regex]. destruct (decide (codes = ∅)) as [->|Hne].
  - destruct (resting_nothing _ _ _ Hrest) as (-> & HO & ->). pose proof (rd_pool _ _ (rt_ready _ _ _ _ Hrest)) as Hi.
    destruct (pool_reset_run (rw_pool (rc_world c)) boundary (ex_intro _ ∅ Hi)) as (s' & E & _ & Hp & Ha & _).
    destruct Hi as [free HI]. destruct (reset_op_run (rw_pool (rc_world c)) ∅ free boundary HI) as (s1 & live1 & free1 & E1 & Hstep & HI1).
    rewrite E in E1. injection E1 as <-. rewrite E, outcome_bind_Ret. eexists. split; [done|].
    assert (live1 = ∅) as -> by (by inversion Hstep). exists ∅, ∅, ∅. split; [|by apply (handles_none _ _ _ Hpat)].
    pose proof Hrest as [R1 R2 R3 R4 R5 R6]. split; try done. split; [by eexists|apply R1].
  - rewrite (handles_pinned _ _ _ boundary Hpat Hne), outcome_bind_Ret. eexists. split; [done|]. exists live, codes, home.
    destruct c as [patterns [[n s] l states]]. done.
Qed.

Lemma release_pattern c x t : regex_ok c -> rc_patterns c !! x = Some t ->
  exists w', RegexPattern_release lib t (rc_world c) = Ret (empty_pattern, w') /\
    regex_ok (MkRegexClient (<[x := empty_pattern]> (rc_patterns c)) w').
Proof.
  intros (live & codes & home & Hrest & Hpat) Hx. destruct (pattern_cases _ _ _ x t Hpat Hx) as [->|(p & d & Hp & ->)].
  - exists (rc_world c). split; [apply release_empty_pattern|]. rewrite insert_id by done. by exists live, codes, home.
  - destruct (release_owned_run (rc_world c) live codes home p d (rw_pool (rc_world c)) Hrest Hp eq_refl) as (w' & live' & home' & E & Hr & Hs).
    { unfold rw_arena. rewrite (ho_pins _ _ _ Hpat). assert (size codes <> 0%nat); [|lia]. intros E%map_size_empty_inv. by rewrite E in Hp. }
    exists w'. split; [done|]. exists live', (delete p codes), home'. split; [done|]. exact (handles_released _ _ _ _ _ _ _ Hpat Hx Hp Hs).
Qed.

Lemma move_pattern c x y t : regex_ok c -> x <> y -> (forall u, rc_patterns c !! x = Some u -> u = empty_pattern) -> rc_patterns c !! y = Some t ->
  regex_ok (MkRegexClient (<[x := t]> (<[y := empty_pattern]> (rc_patterns c))) (rc_world c)).
Proof. intros (live & codes & home & Hrest & Hpat) Hne Hx Hy. exists live, codes, home. split; [done|]. exact (handles_moved _ _ _ _ _ _ Hpat Hne Hx Hy). Qed.

Lemma match_empty w subject captures limits : RegexPattern_match lib empty_pattern subject captures limits w = Ret (Err regex_inactive_error, captures, w).
Proof. done. Qed.

(** A match of a pattern of the client, and the parts of the pattern. *)
Lemma match_pattern w live codes home p d subject captures limits : resting w live codes home -> codes !! p = Some d ->
  0 <= rml_maximum_output_captures limits ->
  exists state general r captures' w' live', owned w home p d state general /\
    RegexPattern_match lib (active_pattern (rw_pool w) d p) subject captures limits w = Ret (r, captures', w') /\
    match_outcome (lib := lib) d general (rs_capture_count state) subject captures limits (rw_native w) r captures' /\
    objects (library w') = objects (library w) /\ rw_states w' = rw_states w /\
    resting w' live' codes home /\ shifted (rw_pool w) (rw_pool w') 0.
Proof.
  intros Hrest Hp Hmax. destruct (rt_owned _ _ _ _ Hrest p d Hp) as (state & g & Ho). pose proof Ho as [A1 A2 A3 A4 A5 A6 A7].
  destruct (match_run w live (active_pattern (rw_pool w) d p) subject captures limits d p state g (rt_ready _ _ _ _ Hrest)
    (active_pattern_parts w (rw_pool w) d p eq_refl) A1 A2 A3 A4 A5 Hmax) as (r & captures' & w' & live' & E & Hu & HO & Hm).
  exists state, g, r, captures', w', live'. do 4 (split; [done|]). split; [apply Hu|].
  split; [by eapply resting_used|]. apply kept_shifted, Hu.
Qed.

Lemma exec_regex_ok c op : regex_ok c -> regex_legal c op -> exists c', exec_regex c op = Ret c' /\ regex_ok c'.
Proof.
  intros Hc Hl. destruct op as [x pattern limits log|x subject captures limits|x y|x y|x|b]; cbn [regex_legal] in Hl; [| | | | |by apply reset_regex].
  - destruct Hc as (live & codes & home & Hrest & Hpat). cbn [exec_regex].
    destruct (compile_run pattern limits log (rc_world c) live (rt_ready _ _ _ _ Hrest) (resting_domain _ _ _ _ Hrest))
      as (r & failure & w' & live' & -> & Hcomp & _). rewrite outcome_bind_Ret. eexists. split; [done|]. destruct r as [s|e].
    + destruct (resting_compiled _ _ _ _ _ _ _ _ _ Hrest Hcomp) as (p & d & home' & -> & Hp & Hr & Hs).
      exists live', (<[p := d]> codes), home'. split; [done|]. exact (handles_compiled _ _ _ _ _ _ _ Hpat Hl Hp Hs).
    + destruct Hcomp as [Hs HO]. exists live', codes, home. split; [by eapply resting_same|]. eapply handles_shifted; [done|]. apply Hs.
  - destruct Hl as [[t Hx] Hmax]. cbn [exec_regex]. rewrite Hx. pose proof Hc as (live & codes & home & Hrest & Hpat).
    destruct (pattern_cases _ _ _ x t Hpat Hx) as [->|(p & d & Hp & ->)].
    + rewrite match_empty, outcome_bind_Ret. eexists. split; [done|]. by destruct c.
    + destruct (match_pattern _ _ _ _ _ _ subject captures limits Hrest Hp Hmax) as (st & g & r & captures' & w' & live' & _ & -> & _ & _ & _ & Hr & Hs).
      rewrite outcome_bind_Ret. eexists. split; [done|]. exists live', codes, home. split; [done|]. by eapply handles_shifted.
  - destruct Hl as [[t Hx] Hy]. cbn [exec_regex]. rewrite Hx. unfold RegexPattern_move_construct. rewrite move_from_empty_pattern, outcome_bind_Ret.
    eexists. split; [done|]. apply move_pattern; [done|congruence|congruence|done].
  - destruct Hl as ([t Hx] & [u Hy] & Hne). cbn [exec_regex]. rewrite Hx, Hy. unfold RegexPattern_move_assign.
    destruct (release_pattern c x t Hc Hx) as (w' & -> & Hc'). rewrite outcome_bind_Ret, move_from_empty_pattern, outcome_bind_Ret.
    eexists. split; [done|]. pose proof (move_pattern _ x y u Hc' Hne) as Hm. cbn [rc_patterns rc_world] in Hm.
    rewrite lookup_insert_eq, lookup_insert_ne in Hm by done. specialize (Hm ltac:(by intros ? [= <-]) Hy).
    by rewrite (insert_insert_ne _ y x), insert_insert_eq in Hm by done.
  - destruct Hl as [t Hx]. cbn [exec_regex]. rewrite Hx. unfold RegexPattern_destroy.
    destruct (release_pattern c x t Hc Hx) as (w' & -> & (live & codes & home & Hrest & Hpat)).
    rewrite !outcome_bind_Ret. eexists. split; [done|]. exists live, codes, home. split; [done|]. cbn [rc_patterns] in *.
    rewrite <- (delete_insert_eq _ x empty_pattern). exact (handles_dropped _ _ _ x Hpat (lookup_insert_eq _ _ _)).
Qed.

(** Clients that legal operations lead to. *)
Inductive regex_reachable (c0 : RegexClient) : RegexClient -> Prop :=
  | rr_start : regex_reachable c0 c0
  | rr_step c op c' : regex_reachable c0 c -> regex_legal c op -> exec_regex c op = Ret c' -> regex_reachable c0 c'.

(** Nothing allocated, compiled or pinned. *)
Record regex_fresh w : Prop := {
  rf_pool : implements (rw_pool w) ∅;
  rf_states : rw_states w = ∅;
  rf_objects : objects (library w) = ∅;
  rf_pins : ba_live_pins (rw_arena w) = 0 }.

Lemma fresh_ok w : regex_fresh w -> regex_ok (MkRegexClient ∅ w).
Proof.
  intros [H1 H2 H3 H4]. exists ∅, ∅, ∅. pose proof (law_no_objects _ H3) as Hb. split; cbn [rc_world rc_patterns].
  - split; [|by rewrite H2|unfold others; by rewrite Hb, dom_empty_L|done|by rewrite H3|done]. split; [done|]. rewrite Hb. set_solver.
  - by split.
Qed.

Lemma regex_reachable_ok w c : regex_fresh w -> regex_reachable (MkRegexClient ∅ w) c -> regex_ok c.
Proof.
  intros Hw. induction 1 as [|c op c' _ IH Hl E]; [by apply fresh_ok|].
  destruct (exec_regex_ok c op IH Hl) as (c2 & E2 & H2). rewrite E in E2. by injection E2 as ->.
Qed.

(** C19: patterns are safe to compile, match, move and destroy in any order, over any PCRE2 that
    keeps its contract and while it draws all its memory from the pool: no operation is
    undefined or ends the process; every pattern is empty or valid, with a state, a general
    context and a code of its own that are alive; every object of the library belongs to a
    pattern and every block of the pool is the library's or the state of a pattern, so nothing
    leaks, even when compilation or matching fails half way; a reset of the arena never
    invalidates a pattern; and once all patterns are empty, no object, no block and no pin
    is left. *)
Theorem regex_clients_safe w (c : RegexClient) (op : regex_op) :
  regex_fresh w -> regex_reachable (MkRegexClient ∅ w) c -> regex_legal c op ->
  exists c' live, exec_regex c op = Ret c' /\ let w' := rc_world c' in implements (rw_pool w') live /\
    (forall x t, rc_patterns c' !! x = Some t -> t = empty_pattern \/
       exists p code state general, RegexPattern_require_valid t w' = Ok (code, p) /\ rp_state t = Some p /\ rw_states w' !! p = Some state /\
         rs_general state = Some general /\ objects (library w') !! general = Some KGeneral /\
         objects (library w') !! code = Some (KCode (rs_capture_count state))) /\
    (forall x y t u p, rc_patterns c' !! x = Some t -> rc_patterns c' !! y = Some u -> rp_state t = Some p -> rp_state u = Some p -> x = y) /\
    (forall h, is_Some (objects (library w') !! h) -> exists x t p state, rc_patterns c' !! x = Some t /\ rp_state t = Some p /\
       rw_states w' !! p = Some state /\ (rp_code t = Some h \/ rs_general state = Some h)) /\
    (forall p, p ∈ dom live -> p ∉ blocks (library w') -> exists x t, rc_patterns c' !! x = Some t /\ rp_state t = Some p) /\
    ((forall x t, rc_patterns c' !! x = Some t -> t = empty_pattern) ->
       objects (library w') = ∅ /\ live = ∅ /\ ba_live_pins (rw_arena w') = 0).
Proof.
  intros Hw Hreach Hl. destruct (exec_regex_ok c op (regex_reachable_ok w c Hw Hreach) Hl) as (c' & E & (live & codes & home & Hrest & Hpat)).
  exists c', live. split; [done|]. pose proof Hrest as [R1 R2 R3 R4 R5 R6]. pose proof (ho_apart _ _ _ Hpat) as P2. pose proof (ho_pins _ _ _ Hpat) as P4. cbn zeta.
  split; [apply R1|]. split; [|split; [done|split; [|split]]].
  - intros x t Hx. destruct (pattern_cases _ _ _ x t Hpat Hx) as [->|(p & d & Hp & ->)]; [by left|]. right. destruct (R4 p d Hp) as (state & g & [A1 A2 A3 A4 A5 A6 A7]).
    exists p, d, state, g. unfold RegexPattern_require_valid. by rewrite active_pattern_parts.
  - intros h Hh. apply elem_of_dom in Hh. rewrite R5 in Hh. apply elem_of_dom in Hh as [p Hh]. destruct (R6 h p Hh) as (d & state & Hd & Hs & Hor).
    destruct (pattern_of _ _ _ p d Hpat Hd) as [x Hx]. exists x, (active_pattern (rw_pool (rc_world c')) d p), p, state. do 3 (split; [done|]). destruct Hor as [->|]; auto.
  - intros p Hp Hb. assert (p ∈ dom codes) as [d Hd]%elem_of_dom by (rewrite <- R3; unfold others; set_solver).
    destruct (pattern_of _ _ _ p d Hpat Hd) as [x Hx]. by exists x, (active_pattern (rw_pool (rc_world c')) d p).
  - intros Hempty. assert (codes = ∅) as ->; [|by destruct (resting_nothing _ _ _ Hrest) as (_ & -> & ->)].
    apply map_eq. intros p. rewrite lookup_empty. destruct (codes !! p) as [d|] eqn:Ep; [|done]. destruct (pattern_of _ _ _ p d Hpat Ep) as [x Hx]. by apply Hempty in Hx.
Qed.

(** C20: in every reachable program a match of a pattern that is not empty returns: with the
    error of the argument it refuses, or that memory is exhausted, leaving the captures as they
    were; or what the library answers when it is asked with the limits of the caller and room
    for the captures of the caller: no match and empty captures, too little room, the library's
    error with the captures unchanged, or a positive number of groups, which fits, their
    offsets from the vector of the library, empty captures up to the caller's maximum and the
    rest unchanged.  The match leaves no object and no state behind. *)
Theorem regex_match_exact w (c : RegexClient) (x : nat) (t : RegexPattern) (subject : list Z) (captures : list RegexCapture)
    (limits : RegexMatchLimits) :
  regex_fresh w -> regex_reachable (MkRegexClient ∅ w) c -> rc_patterns c !! x = Some t -> t <> empty_pattern ->
  0 <= rml_maximum_output_captures limits ->
  exists code p state general r captures' w',
    RegexPattern_require_valid t (rc_world c) = Ok (code, p) /\ rw_states (rc_world c) !! p = Some state /\ rs_general state = Some general /\
    RegexPattern_match lib t subject captures limits (rc_world c) = Ret (r, captures', w') /\
    match_outcome (lib := lib) code general (rs_capture_count state) subject captures limits (rw_native (rc_world c)) r captures' /\
    objects (library w') = objects (library (rc_world c)) /\ rw_states w' = rw_states (rc_world c).
Proof.
  intros Hw Hreach Hx Hne Hmax. destruct (regex_reachable_ok w c Hw Hreach) as (live & codes & home & Hrest & Hpat).
  destruct (pattern_cases _ _ _ x t Hpat Hx) as [->|(p & d & Hp & ->)]; [done|].
  destruct (match_pattern _ _ _ _ _ _ subject captures limits Hrest Hp Hmax)
    as (state & g & r & captures' & w' & live' & [A1 A2 A3 A4 A5 A6 A7] & E & Hm & HO & Hst & _).
  exists d, p, state, g, r, captures', w'. unfold RegexPattern_require_valid. by rewrite active_pattern_parts.
Qed.

(** In every reachable program a compilation returns.  Limits that are not positive, a
    capture limit above what PCRE2 can report and a pattern above the byte limit are refused
    and nothing changes; any other failure gives back the state, the contexts, the code and the
    pin; and success gives a pattern with at most as many groups as the limit allows, whose
    general context and code are the only objects more and whose pin is the only pin more. *)
Theorem regex_compile_exact w (c : RegexClient) (pattern : list Z) (limits : RegexCompileLimits) (log : DependencyLogSink L) :
  regex_fresh w -> regex_reachable (MkRegexClient ∅ w) c ->
  exists r failure w', RegexPattern_compile lib pattern limits log (rc_world c) = Ret (r, failure, w') /\
    (forall e, compile_refusal pattern limits = Some e -> r = Err e /\ w' = rc_world c) /\
    match r with
    | Err _ => rw_states w' = rw_states (rc_world c) /\ objects (library w') = objects (library (rc_world c)) /\
        ba_live_pins (rw_arena w') = ba_live_pins (rw_arena (rc_world c))
    | Ok t => exists p code general count, RegexPattern_require_valid t w' = Ok (code, p) /\ count <= rcl_maximum_capture_count limits /\
        rw_states (rc_world c) !! p = None /\ rw_states w' = <[p := MkState (Some general) log count]> (rw_states (rc_world c)) /\
        objects (library (rc_world c)) !! general = None /\ objects (library (rc_world c)) !! code = None /\ general <> code /\
        objects (library w') = <[code := KCode count]> (<[general := KGeneral]> (objects (library (rc_world c)))) /\
        ba_live_pins (rw_arena w') = ba_live_pins (rw_arena (rc_world c)) + 1
    end.
Proof.
  intros Hw Hreach. destruct (regex_reachable_ok w c Hw Hreach) as (live & codes & home & Hrest & _).
  destruct (compile_run pattern limits log (rc_world c) live (rt_ready _ _ _ _ Hrest) (resting_domain _ _ _ _ Hrest))
    as (r & failure & w' & live' & E & Hcomp & Href).
  exists r, failure, w'. split; [done|]. split; [done|]. destruct r as [t|e].
  - destruct Hcomp as (p & d & g & count & -> & Hnew & Hh & Hst & Hg & Hc & Hgc & HO & _ & Hle).
    pose proof (hd_shifted _ _ _ _ _ Hh) as [S1 S2 S3]. exists p, d, g, count. unfold RegexPattern_require_valid. rewrite active_pattern_parts by done.
    split; [done|]. split; [done|]. split; [|done]. apply not_elem_of_dom. by rewrite (resting_domain _ _ _ _ Hrest).
  - destruct Hcomp as [[_ S2 _ [_ _ S5]] HO]. split; [done|]. split; [done|]. unfold rw_arena. lia.
Qed.
End clients.

(** * Patterns at work

    A library that finds whether the subject is empty and needs no memory, with its laws, and
    the theorems about patterns at concrete inputs. *)

Module Frugal.
(** The next handle and the objects. *)
Abbreviation Handles := (Z * gmap Z Pcre2Object)%type.
Abbreviation Native := (Handles * PoolState nat)%type.

Definition create (k : Pcre2Object) (x : Native) : outcome (option Z * Native) :=
  let '((next, o), s) := x in
  match o !! next with Some _ => Ret (None, x) | None => Ret (Some next, ((next + 1, <[next := k]> o), s)) end.
Definition erase (h : Z) (x : Native) : outcome Native :=
  let '((next, o), s) := x in match o !! h with Some _ => Ret ((next, delete h o), s) | None => Stop Undefined end.
Definition keep (h : Z) (x : Native) : outcome Native :=
  match x.1.2 !! h with Some _ => Ret x | None => Stop Undefined end.

(** A pattern of two bytes or more has one group, which is never set. *)
Definition compile (pattern : list Z) (context : Z) (x : Native) : outcome ((Z + Z * Z) * Native) :=
  '(r, x) ← create (KCode (if 2 <=? Z.of_nat (length pattern) then 1 else 0)) x;
  Ret (match r with Some h => inl h | None => inr (-48, 0) end, x).
Definition info (code : Z) (x : Native) : outcome (Z * Z) :=
  match x.1.2 !! code with Some (KCode k) => Ret (0, k) | _ => Stop Undefined end.

(** Offsets from 0 to 1, or no match. *)
Definition matching (code : Z) (subject : list Z) (data context : Z) (x : Native) : outcome (Z * Native) :=
  match x.1.2 !! data with
  | Some (KMatchData pairs) => Ret (if (1 <=? Z.of_nat (length subject)) && (1 <=? pairs) then 1 else -1, x)
  | _ => Stop Undefined
  end.
Definition vector (data : Z) (x : Native) : outcome (list Z) :=
  match x.1.2 !! data with
  | Some (KMatchData pairs) => Ret (if 1 <=? pairs then 0 :: 1 :: replicate (Z.to_nat (2 * (pairs - 1))) (-1) else [])
  | _ => Stop Undefined
  end.

Definition pcre2 : Pcre2 Handles nat := {|
  PCRE2_ERROR_NOMATCH := -1; PCRE2_ERROR_NOMEMORY := -48; PCRE2_ERROR_HEAP_FAILED := -61; PCRE2_ERROR_MATCHLIMIT := -47;
  PCRE2_ERROR_DEPTHLIMIT := -53; PCRE2_ERROR_HEAPLIMIT := -63; PCRE2_ERROR_BADOPTION := -34; PCRE2_ERROR_BADOFFSET := -33;
  PCRE2_ERROR_NULL := -51; PCRE2_UNSET := -1;
  pcre2_general_context_create := create KGeneral;
  pcre2_general_context_free := erase;
  pcre2_compile_context_create _ := create KCompileContext;
  pcre2_set_parens_nest_limit x _ := keep x;
  pcre2_compile_context_free := erase;
  pcre2_compile := compile;
  pcre2_code_free := erase;
  pcre2_pattern_info := info;
  pcre2_match_context_create _ := create KMatchContext;
  pcre2_set_match_limit x _ := keep x;
  pcre2_set_depth_limit x _ := keep x;
  pcre2_match_context_free := erase;
  pcre2_match_data_create pairs _ := create (KMatchData (Z.max 0 (Z.min pairs maximum_pairs)));
  pcre2_match := matching;
  pcre2_get_ovector_pointer := vector;
  pcre2_match_data_free := erase |}.

Abbreviation objects_of := (fun n : Handles => n.2).
Abbreviation no_blocks := (fun n : Handles => ∅ : gset pointer).
Abbreviation creates := (creates (acquire := pool_acquire) (reset := pool_reset) objects_of no_blocks).

Lemma create_law n k : creates (create k) n k.
Proof.
  intros s live _ _. destruct n as [next o]. unfold create. destruct (o !! next) eqn:E.
  - exists None, (next, o), s, live. split; [done|]. split; [apply lu_nothing|done].
  - eexists _, (_, _), s, live. split; [done|]. split; [apply lu_nothing|done].
Qed.

Lemma erase_law n h k : n.2 !! h = Some k -> frees (acquire := pool_acquire) (reset := pool_reset) objects_of no_blocks (erase h) n h.
Proof.
  intros H s live _ _. destruct n as [next o]. cbn in H. unfold unit_call, erase. rewrite H.
  eexists tt, (_, _), s, live. split; [done|]. split; [apply lu_nothing|done].
Qed.

Lemma keep_law n h k : n.2 !! h = Some k -> keeps (acquire := pool_acquire) (reset := pool_reset) objects_of no_blocks (keep h) n.
Proof.
  intros H s live _ _. unfold unit_call, keep. cbn [fst]. rewrite H. exists tt, n, s, live. split; [done|]. split; [apply lu_nothing|done].
Qed.

#[export] Instance laws : Pcre2Laws (acquire := pool_acquire) (reset := pool_reset) pcre2.
Proof.
  refine {| objects := objects_of; blocks := no_blocks |}; cbn [pcre2 PCRE2_ERROR_NOMATCH pcre2_general_context_create
    pcre2_general_context_free pcre2_compile_context_create pcre2_set_parens_nest_limit pcre2_compile_context_free pcre2_compile pcre2_code_free
    pcre2_pattern_info pcre2_match_context_create pcre2_set_match_limit pcre2_set_depth_limit pcre2_match_context_free pcre2_match_data_create
    pcre2_match pcre2_get_ovector_pointer pcre2_match_data_free].
  1-2: done.
  all: try (intros; by eapply erase_law).
  all: try (intros; by eapply keep_law).
  all: try (intros; by apply create_law).
  - intros n pattern x _ s live Hi Hb. destruct (create_law n (KCode (if 2 <=? Z.of_nat (length pattern) then 1 else 0)) s live Hi Hb)
      as (r & n' & s' & live' & E & Hu & Hpost). unfold compile. rewrite E, outcome_bind_Ret. eexists _, n', s', live'. split; [done|]. split; [done|].
    destruct r as [h|]; [|done]. destruct Hpost as [H1 H2]. split; [done|]. eexists. split; [|done].
    destruct (2 <=? _); unfold u32_max; lia.
  - intros n s c k H. unfold info. cbn [fst]. rewrite H. by eexists _, _.
  - intros n pairs g _ Hp. rewrite Z.max_r by (unfold maximum_pairs; lia). apply create_law.
  - intros n c k subject d pairs x _ H _ Hp s live _ _. unfold matching. cbn [fst]. rewrite H. eexists _, n, s, live. split; [done|].
    split; [apply lu_nothing|]. split; [|done]. destruct (_ && _); lia.
  - intros n s d pairs H Hp. unfold vector. cbn [fst]. rewrite H. eexists. split; [done|].
    rewrite (proj2 (Z.leb_le _ _)) by lia. cbn [length]. rewrite length_replicate. lia.
Defined.
End Frugal.
#[export] Existing Instance Frugal.laws.

(** ** Patterns in a small pool *)
Definition regex_world : RegexWorld Frugal.Handles nat unit := MkRegexWorld ((1, ∅), wide_pool) tt ∅.
Definition regex_sink : DependencyLogSink unit := MkDependencyLogSink None.
Definition regex_limits : RegexCompileLimits := MkRegexCompileLimits 8 4 3.
Definition regex_match_limits : RegexMatchLimits := MkRegexMatchLimits 8 100 10 3.

Lemma regex_world_fresh : regex_fresh regex_world.
Proof. split; [exact wide_pool_implements|reflexivity..]. Qed.

Definition demo_compiled : outcome (RegexClient (N := Frugal.Handles) (C := nat) (L := unit)) :=
  exec_regex (lib := Frugal.pcre2) (MkRegexClient ∅ regex_world) (XCompile 0 [97; 98] regex_limits regex_sink).

Definition verdict {A} (r : Result A) : Result unit := match r with Ok _ => Ok tt | Err e => Err e end.

(** Three patterns compile, the fourth finds the arena exhausted and leaves no pin behind. *)
Example patterns_exhaust_the_arena :
  (let compile pattern := RegexPattern_compile Frugal.pcre2 pattern regex_limits regex_sink in
   '(r1, _, w) ← compile [97; 98] regex_world;
   '(r2, _, w) ← compile [97] w;
   '(r3, _, w) ← compile [] w;
   '(r4, _, w) ← compile [97] w;
   '(r5, _, w) ← compile [97; 98; 99; 100; 101; 102; 103; 104; 105] w;
   Ret (map verdict [r1; r2; r3; r4; r5], ba_live_pins (rw_arena w))) =
  Ret ([Ok tt; Ok tt; Ok tt; Err regex_state_error; Err regex_pattern_bytes_error], 3).
Proof. vm_compute. reflexivity. Qed.

(** A match sets the captures up to the maximum and leaves the others. *)
Example match_reports_captures :
  ('(r, _, w) ← RegexPattern_compile Frugal.pcre2 [97; 98] regex_limits regex_sink regex_world;
   match r with
   | Err _ => Stop Undefined
   | Ok t =>
       let captures := replicate 4 (MkRegexCapture 7 7 true) in
       '(r, found, w) ← RegexPattern_match Frugal.pcre2 t [97] captures regex_match_limits w;
       '(s, none, w) ← RegexPattern_match Frugal.pcre2 t [] captures regex_match_limits w;
       '(u, kept, w) ← RegexPattern_match Frugal.pcre2 t [97] captures (MkRegexMatchLimits 8 100 10 1) w;
       '(t, w) ← RegexPattern_release Frugal.pcre2 t w;
       Ret (r, found, s, take 3 none, u, (rw_native w).1.2, ba_live_pins (rw_arena w))
   end) =
  Ret (Ok (MkRegexMatchResult 1 true), [MkRegexCapture 0 1 true; RegexCapture_default; RegexCapture_default; MkRegexCapture 7 7 true],
       Ok (MkRegexMatchResult 0 false), replicate 3 RegexCapture_default, Err regex_output_error, ∅, 0).
Proof. vm_compute. reflexivity. Qed.

Lemma regex_clients_safe_witness :
  exists c' live, demo_compiled = Ret c' /\ implements (acquire := pool_acquire) (reset := pool_reset) (rw_pool (rc_world c')) live.
Proof.
  destruct (regex_clients_safe (lib := Frugal.pcre2) regex_world (MkRegexClient ∅ regex_world) (XCompile 0 [97; 98] regex_limits regex_sink)
    regex_world_fresh (rr_start _) eq_refl) as (c' & live & E & Hi & _).
  exists c', live. split; [exact E|exact Hi].
Defined.

Lemma demo_pattern_active : match demo_compiled with
  | Ret c => match rc_patterns c !! 0%nat with Some t => bool_decide (rp_state t <> None) | None => false end
  | Stop _ => false
  end = true.
Proof. vm_compute. reflexivity. Qed.

Lemma regex_match_exact_witness :
  exists c t, demo_compiled = Ret c /\ rc_patterns c !! 0%nat = Some t /\ exists r captures' w',
    RegexPattern_match Frugal.pcre2 t [97] (replicate 4 RegexCapture_default) regex_match_limits (rc_world c) = Ret (r, captures', w') /\
    objects (library w') = objects (library (rc_world c)).
Proof.
  pose proof demo_pattern_active as H. destruct demo_compiled as [c|] eqn:E; [|discriminate H].
  destruct (rc_patterns c !! 0%nat) as [t|] eqn:Ht; [|discriminate H]. exists c, t. split; [reflexivity|]. split; [exact Ht|].
  assert (Hne : t <> empty_pattern) by (intros ->; discriminate H).
  assert (Hl : regex_legal (MkRegexClient ∅ regex_world) (XCompile 0 [97; 98] regex_limits regex_sink)) by (cbn; exact (lookup_empty 0%nat)).
  destruct (regex_match_exact (lib := Frugal.pcre2) regex_world c 0 t [97] (replicate 4 RegexCapture_default) regex_match_limits regex_world_fresh
    (rr_step _ (MkRegexClient ∅ regex_world) (XCompile 0 [97; 98] regex_limits regex_sink) c (rr_start _) Hl E) Ht Hne) as (code & p & state & g & r & captures' & w' & _ & _ & _ & Hrun & _ & HO & _);
    [simpl; lia|].
  exists r, captures', w'. split; [exact Hrun|exact HO].
Defined.

Lemma regex_compile_exact_witness :
  exists r failure w', RegexPattern_compile Frugal.pcre2 [97] (MkRegexCompileLimits 8 4 70000) regex_sink regex_world = Ret (r, failure, w') /\
    r = Err regex_capture_limit_error /\ w' = regex_world.
Proof.
  destruct (regex_compile_exact (lib := Frugal.pcre2) regex_world (MkRegexClient ∅ regex_world) [97] (MkRegexCompileLimits 8 4 70000) regex_sink
    regex_world_fresh (rr_start _)) as (r & failure & w' & E & Href & _).
  exists r, failure, w'. split; [exact E|]. apply Href. reflexivity.
Defined.
