(* ===== verification/TextOps.v ===== *)
(** * Operations of [std::string_view]

    The comparisons and searches the adapters make on texts, with what they decide. *)
From S2P Require Import Prelude Contract.
From Stdlib Require Import ZArith Lia String Ascii.
From stdpp Require Import base numbers list option.

Set Default Goal Selector "!".
#[local] Open Scope Z_scope.

Definition char_value (c : ascii) : Z := Z.of_N (N_of_ascii c).

(** [low <= c && c <= high], for characters of ASCII. *)
Definition in_span (low high c : ascii) : bool := (char_value low <=? char_value c) && (char_value c <=? char_value high).
Definition is_letter_or_digit (c : ascii) : bool := in_span "a" "z" c || in_span "A" "Z" c || in_span "0" "9" c.

Definition chars (s : string) : list ascii := list_ascii_of_string s.

Definition starts_with (prefix t : list ascii) : bool := bool_decide (take (length prefix) t = prefix).
Definition ends_with (suffix t : list ascii) : bool :=
  bool_decide (length suffix <= length t)%nat && bool_decide (drop (length t - length suffix) t = suffix).
Fixpoint contains (part t : list ascii) : bool :=
  starts_with part t || match t with [] => false | _ :: rest => contains part rest end.

Fixpoint find_first (c : ascii) (t : list ascii) : option nat :=
  match t with [] => None | d :: rest => if bool_decide (d = c) then Some 0%nat else S <$> find_first c rest end.

(** [t.find(c, position)] *)
Definition find_char_from (c : ascii) (t : list ascii) (position : nat) : option nat :=
  Nat.add position <$> find_first c (drop position t).

(** [t.substr(position, count)] *)
Definition substr (t : list ascii) (position count : nat) : list ascii := take count (drop position t).

(** The loop that copies values into an array from an index on. *)
Fixpoint copy_into {A} (values : list A) (index : Z) (array : list A) : outcome (list A) :=
  match values with
  | [] => Ret array
  | x :: values => array ← set_slot array index x; copy_into values (index + 1) array
  end.

(** The loop that looks for the end of the text at a pointer, within [capacity] characters. *)
Fixpoint terminated_text (capacity : nat) (index : Z) (value : list ascii) : outcome (option (list ascii)) :=
  match capacity with
  | O => Ret None
  | S capacity =>
      c ← slot value index;
      if bool_decide (c = Ascii.zero) then Ret (Some (take (Z.to_nat index) value)) else terminated_text capacity (index + 1) value
  end.

Lemma copy_into_run {A} (values : list A) : forall index array, 0 <= index -> index + Z.of_nat (length values) <= Z.of_nat (length array) ->
  copy_into values index array = Ret (take (Z.to_nat index) array ++ values ++ drop (Z.to_nat index + length values) array).
Proof.
  induction values as [|x values IH]; intros index array Hi Hl; cbn [copy_into].
  - rewrite Nat.add_0_r. simpl. by rewrite take_drop.
  - cbn [length] in Hl. rewrite set_slot_ok, outcome_bind_Ret by lia. rewrite IH by (rewrite ?length_insert; lia).
    replace (Z.to_nat (index + 1)) with (S (Z.to_nat index)) by lia.
    rewrite (take_S_r _ _ x) by (apply list_lookup_insert_eq; lia). rewrite take_insert_ge, drop_insert_lt by lia.
    rewrite <- app_assoc. cbn [app length]. do 5 f_equal. lia.
Qed.

Lemma terminated_text_run capacity : forall index value front rest, value = front ++ Ascii.zero :: rest -> Ascii.zero ∉ front ->
  0 <= index <= Z.of_nat (length front) ->
  terminated_text capacity index value = Ret (if Z.of_nat (length front) <? index + Z.of_nat capacity then Some front else None).
Proof.
  induction capacity as [|capacity IH]; intros index value front rest -> Hz Hi; cbn [terminated_text].
  - by rewrite (proj2 (Z.ltb_ge _ _)) by lia.
  - destruct (Z.eq_dec index (Z.of_nat (length front))) as [->|Hne].
    + rewrite (slot_ok _ _ Ascii.zero); [|by rewrite Nat2Z.id, lookup_app_r, Nat.sub_diag by lia]. rewrite outcome_bind_Ret.
      rewrite bool_decide_eq_true_2 by done. rewrite (proj2 (Z.ltb_lt _ _)) by lia. by rewrite Nat2Z.id, take_app_length.
    + destruct (lookup_lt_is_Some_2 front (Z.to_nat index)) as [c Hc]; [lia|].
      rewrite (slot_ok _ _ c); [|by rewrite lookup_app_l by lia]. rewrite outcome_bind_Ret.
      rewrite bool_decide_eq_false_2; [|intros ->; apply Hz; by eapply list_elem_of_lookup_2]. rewrite (IH _ _ front rest) by (done || lia).
      by replace (index + 1 + Z.of_nat capacity) with (index + Z.of_nat (S capacity)) by lia.
Qed.

Lemma char_value_range c : 0 <= char_value c < 256.
Proof. unfold char_value. pose proof (N_ascii_bounded c). lia. Qed.

Lemma char_value_inj c d : char_value c = char_value d -> c = d.
Proof. unfold char_value. intros H. rewrite <- (ascii_N_embedding c), <- (ascii_N_embedding d). f_equal. lia. Qed.

Lemma in_span_iff low high c : in_span low high c = true <-> char_value low <= char_value c <= char_value high.
Proof. unfold in_span. rewrite andb_true_iff, !Z.leb_le. done. Qed.

Lemma starts_with_iff prefix t : starts_with prefix t = true <-> exists rest, t = prefix ++ rest.
Proof.
  unfold starts_with. rewrite bool_decide_eq_true. split.
  - intros E. exists (drop (length prefix) t). rewrite <- E at 1. by rewrite take_drop.
  - intros [rest ->]. by rewrite take_app_length.
Qed.

Lemma ends_with_iff suffix t : ends_with suffix t = true <-> exists front, t = front ++ suffix.
Proof.
  unfold ends_with. rewrite andb_true_iff, !bool_decide_eq_true. split.
  - intros [_ E]. exists (take (length t - length suffix) t). rewrite <- E at 2. by rewrite take_drop.
  - intros [front ->]. rewrite length_app. split; [lia|].
    replace (length front + length suffix - length suffix)%nat with (length front) by lia. by rewrite drop_app_length.
Qed.

Lemma contains_iff part t : contains part t = true <-> exists front rest, t = front ++ part ++ rest.
Proof.
  induction t as [|c t IH]; cbn [contains]; rewrite orb_true_iff, starts_with_iff.
  - split; [intros [[rest ->]|]; [by exists [], rest|done]|]. intros (front & rest & E). left. destruct front; [by exists rest|done].
  - rewrite IH. split.
    + intros [[rest E]|(front & rest & ->)]; [by exists [], rest|by exists (c :: front), rest].
    + intros (front & rest & E). destruct front as [|d front]; [left; by exists rest|]. injection E as -> ->. right. by exists front, rest.
Qed.

Lemma find_first_Some c t i : find_first c t = Some i <-> exists front rest, t = front ++ c :: rest /\ i = length front /\ c ∉ front.
Proof.
  revert i. induction t as [|d t IH]; intros i; cbn [find_first].
  - split; [done|]. intros (front & rest & E & _). by destruct front.
  - case_bool_decide as Hd.
    + subst d. split.
      * intros [= <-]. exists [], t. split; [done|]. split; [done|]. apply not_elem_of_nil.
      * intros (front & rest & E & -> & Hn). destruct front as [|e front]; [done|]. injection E as -> _. by apply not_elem_of_cons in Hn as [? _].
    + rewrite fmap_Some. setoid_rewrite IH. split.
      * intros (j & (front & rest & -> & -> & Hn) & ->). exists (d :: front), rest. split; [done|]. split; [done|]. by apply not_elem_of_cons.
      * intros (front & rest & E & -> & Hn). destruct front as [|e front]; [injection E as -> _; done|]. injection E as -> ->.
        apply not_elem_of_cons in Hn as [_ Hn]. exists (length front). split; [|done]. by exists front, rest.
Qed.

Lemma find_first_None c t : find_first c t = None <-> c ∉ t.
Proof.
  induction t as [|d t IH]; cbn [find_first]; [split; [intros _; apply not_elem_of_nil|done]|]. case_bool_decide as Hd.
  - subst d. split; [done|]. intros H. exfalso. apply H. by left.
  - rewrite fmap_None, IH, not_elem_of_cons. split; [intros H; split; [congruence|done]|by intros []].
Qed.

(** ** Parts between separators *)
Fixpoint split_on (sep : ascii) (t : list ascii) : list (list ascii) :=
  match t with
  | [] => [[]]
  | c :: t =>
      if bool_decide (c = sep) then [] :: split_on sep t else
      match split_on sep t with part :: parts => (c :: part) :: parts | [] => [[c]] end
  end.

Fixpoint join_with (sep : ascii) (parts : list (list ascii)) : list ascii :=
  match parts with
  | [] => []
  | [part] => part
  | part :: parts => part ++ sep :: join_with sep parts
  end.

Lemma split_on_cons sep t : exists part parts, split_on sep t = part :: parts.
Proof. destruct t as [|c t]; cbn [split_on]; [eauto|]. case_bool_decide; [eauto|]. destruct (split_on sep t); eauto. Qed.

Lemma split_on_app sep front : forall rest, sep ∉ front -> split_on sep (front ++ sep :: rest) = front :: split_on sep rest.
Proof.
  induction front as [|c front IH]; intros rest Hn; cbn [app split_on]; [by rewrite bool_decide_eq_true_2|].
  apply not_elem_of_cons in Hn as [Hc Hn]. rewrite bool_decide_eq_false_2 by congruence. by rewrite IH.
Qed.

Lemma split_on_none sep t : sep ∉ t -> split_on sep t = [t].
Proof.
  induction t as [|c t IH]; intros Hn; cbn [split_on]; [done|]. apply not_elem_of_cons in Hn as [Hc Hn].
  rewrite bool_decide_eq_false_2 by congruence. by rewrite IH.
Qed.

Lemma join_split sep t : join_with sep (split_on sep t) = t.
Proof.
  induction t as [|c t IH]; cbn [split_on]; [done|]. destruct (split_on_cons sep t) as (part & parts & E). rewrite E in *.
  case_bool_decide as Hc; [subst c; cbn [join_with app]; f_equal; exact IH|]. destruct parts; cbn [join_with app] in *; by rewrite IH.
Qed.

Lemma split_on_parts sep t : Forall (fun part => sep ∉ part) (split_on sep t).
Proof.
  induction t as [|c t IH]; cbn [split_on]; [constructor; [apply not_elem_of_nil|constructor]|]. case_bool_decide as Hc.
  - constructor; [apply not_elem_of_nil|done].
  - destruct (split_on sep t) as [|part parts]; [constructor; [|constructor]|].
    + apply not_elem_of_cons. split; [congruence|apply not_elem_of_nil].
    + apply Forall_cons_1 in IH as [H1 H2]. constructor; [|done]. apply not_elem_of_cons. split; [congruence|done].
Qed.

Lemma split_join sep parts : parts <> [] -> Forall (fun part => sep ∉ part) parts -> split_on sep (join_with sep parts) = parts.
Proof.
  induction parts as [|part parts IH]; intros Hne Hp; [done|]. apply Forall_cons_1 in Hp as [H1 H2].
  destruct parts as [|part2 parts]; [by apply split_on_none|]. change (join_with sep (part :: part2 :: parts)) with (part ++ sep :: join_with sep (part2 :: parts)).
  rewrite split_on_app by done. by rewrite IH.
Qed.

Lemma split_on_suffix sep front rest : exists p ps, split_on sep (front ++ sep :: rest) = (p :: ps) ++ split_on sep rest.
Proof.
  induction front as [|c front (p & ps & IH)]; cbn [app split_on]; [rewrite bool_decide_eq_true_2 by done; by exists [], []|].
  rewrite IH. case_bool_decide; [by exists [], (p :: ps)|by exists (c :: p), ps].
Qed.

Lemma join_app sep before part after : before <> [] ->
  join_with sep (before ++ part :: after) = join_with sep before ++ sep :: join_with sep (part :: after).
Proof.
  induction before as [|b before IH]; intros Hne; [done|]. destruct before as [|b2 before]; [done|]. cbn [app].
  change (join_with sep (b :: b2 :: before)) with (b ++ sep :: join_with sep (b2 :: before)). rewrite <- app_assoc. cbn [app]. by rewrite <- IH.
Qed.

(** A text is one of the parts when it stands between separators or ends the text. *)
Lemma part_iff sep part t : sep ∉ part ->
  part ∈ split_on sep t <-> contains (sep :: part ++ [sep]) (sep :: t) = true \/ ends_with (sep :: part) (sep :: t) = true.
Proof.
  intros Hn. rewrite contains_iff, ends_with_iff. split.
  - intros Hin. apply list_elem_of_split in Hin as (before & after & E). rewrite <- (join_split sep t), E. clear E.
    destruct before as [|b before].
    + destruct after as [|a after]; [right; by exists []|left]. exists [], (join_with sep (a :: after)). cbn [app join_with]. by rewrite <- app_assoc.
    + rewrite join_app by done. destruct after as [|a after].
      * right. by exists (sep :: join_with sep (b :: before)).
      * left. exists (sep :: join_with sep (b :: before)), (join_with sep (a :: after)). cbn [app]. do 2 f_equal. cbn [join_with]. by rewrite <- app_assoc.
  - assert (Hsplit : forall front rest, (rest = [] \/ exists r, rest = sep :: r) -> sep :: t = front ++ sep :: part ++ rest -> part ∈ split_on sep t).
    { intros front rest Hr E. assert (Hpart : part ∈ split_on sep (part ++ rest)).
      { destruct Hr as [->|[r ->]]; [rewrite app_nil_r, split_on_none by done|rewrite split_on_app by done]; by left. }
      destruct front as [|c front]; [by injection E as ->|]. injection E as <- ->.
      destruct (split_on_suffix sep front (part ++ rest)) as (p & ps & ->). apply elem_of_app. by right. }
    intros [(front & rest & E)|(front & E)].
    + apply (Hsplit front (sep :: rest)); [right; eauto|]. cbn [app] in E. by rewrite <- app_assoc in E.
    + apply (Hsplit front []); [by left|]. by rewrite app_nil_r.
Qed.

(** The last part ends the text. *)
Lemma last_part sep t : exists before l, split_on sep t = before ++ [l] /\ (sep ∉ l) /\ exists front, sep :: t = front ++ sep :: l.
Proof.
  destruct (split_on_cons sep t) as (p & ps & E). destruct (exists_last (l := split_on sep t)) as (before & l & Hl); [by rewrite E|].
  exists before, l. split; [done|]. pose proof (split_on_parts sep t) as Hp. rewrite Hl in Hp. apply list.Forall_app in Hp as [_ Hp]. apply Forall_cons_1 in Hp as [Hp _].
  split; [done|]. rewrite <- (join_split sep t), Hl. destruct before as [|b before]; [by exists []|]. rewrite join_app by done.
  by exists (sep :: join_with sep (b :: before)).
Qed.

Lemma ends_with_part sep suffix front l : sep ∉ suffix -> ends_with suffix (front ++ sep :: l) = ends_with suffix l.
Proof.
  intros Hs. apply eq_true_iff_eq. rewrite !ends_with_iff. split.
  - intros [x E]. destruct (app_eq_app _ _ _ _ E) as (k & [[_ E2]|[_ E2]]).
    + exfalso. apply Hs. rewrite E2. apply elem_of_app. right. by left.
    + destruct k as [|c k]; [exfalso; apply Hs; cbn [app] in E2; rewrite <- E2; by left|]. injection E2 as _ ->. by exists k.
  - intros [x ->]. exists (front ++ sep :: x). by rewrite <- app_assoc.
Qed.
