(* ===== verification/Password.v ===== *)
(** * Password verification

    Models [src/adapters/contract/laghu/adapters/password_auth.hpp], its private header and
    [src/adapters/password_auth.cpp]: the owned copy of the password and its cleansing, the
    grammar of the permitted hashes, the limits, the lease of the worker, and the comparison
    with what [crypt_r] returns.

    [crypt_r] is a parameter: it reads the two character arrays it is given the addresses of
    and returns the characters from its result on, if it is not null, and [errno].  Secret
    passwords that have been destroyed are returned with the result, as they were left. *)
From S2P Require Import Prelude Contract CheckedArithmetic Identifiers Views Dependencies TextOps.
From Stdlib Require Import ZArith Lia String Ascii.
From stdpp Require Import base numbers list option sets.

Set Default Goal Selector "!".
#[local] Open Scope Z_scope.

(** ** Limits and workers *)
Definition maximum_supported_password_bytes : Z := 511.
Definition password_storage_capacity : nat := 512.
Definition encoded_password_capacity : nat := 256.
Definition bcrypt_minimum_cost : Z := 4.
Definition bcrypt_maximum_cost : Z := 31.
Definition sha512_minimum_rounds : Z := 1000.
Definition sha512_maximum_rounds : Z := 999999999.
Definition sha512_crypt_standard_rounds : Z := 5000.

Record PasswordVerificationLimits := MkPasswordVerificationLimits {
  pl_maximum_password_bytes : Z; pl_minimum_bcrypt_cost : Z; pl_maximum_bcrypt_cost : Z;
  pl_minimum_sha512_rounds : Z; pl_maximum_sha512_rounds : Z }.

Record PasswordAuthWorker := MkPasswordAuthWorker { aw_worker : WorkerId; aw_maximum_in_flight : Z; aw_active : Z }.

Inductive PasswordScheme := bcrypt | sha512.
Record ParsedPasswordHash := MkParsedPasswordHash { ph_scheme : PasswordScheme; ph_work_factor : Z }.

Definition password_limits_error := core_error invalid_input "password verification limits are invalid".
Definition password_worker_error := core_error invalid_state "password work requires its designated auth worker".
Definition password_bound_error := core_error invalid_input "password auth worker requires a positive bound".
Definition password_size_error := core_error invalid_range "password exceeds caller limit".
Definition password_fit_error := core_error invalid_range "text does not fit including terminator".
Definition password_nul_error := core_error invalid_input "text contains an embedded NUL".
Definition bcrypt_malformed_error := core_error invalid_input "bcrypt encoding is malformed".
Definition bcrypt_factor_error := core_error invalid_input "bcrypt work factor is malformed".
Definition sha512_malformed_error := core_error invalid_input "SHA-512 crypt encoding is malformed".
Definition sha512_rounds_error := core_error invalid_input "SHA-512 crypt rounds are malformed".
Definition sha512_salt_error := core_error invalid_input "SHA-512 crypt salt is malformed".
Definition sha512_checksum_error := core_error invalid_input "SHA-512 crypt checksum is malformed".
Definition password_scheme_error := core_error invalid_input "password scheme is not permitted".
Definition password_factor_error := core_error invalid_range "password work factor is outside caller limits".
Definition bcrypt_length_error := core_error invalid_range "bcrypt password exceeds 72 bytes".
Definition password_capacity_error := core_error exhaustion "password auth worker capacity is exhausted".

Definition validate_password_limits (limits : PasswordVerificationLimits) : Result unit :=
  if (pl_maximum_password_bytes limits =? 0) || (maximum_supported_password_bytes <? pl_maximum_password_bytes limits) ||
     (pl_minimum_bcrypt_cost limits <? bcrypt_minimum_cost) || (bcrypt_maximum_cost <? pl_maximum_bcrypt_cost limits) ||
     (pl_maximum_bcrypt_cost limits <? pl_minimum_bcrypt_cost limits) ||
     (pl_minimum_sha512_rounds limits <? sha512_minimum_rounds) || (sha512_maximum_rounds <? pl_maximum_sha512_rounds limits) ||
     (pl_maximum_sha512_rounds limits <? pl_minimum_sha512_rounds limits)
  then Err password_limits_error else Ok tt.

(** ** [SecretPassword] *)
Record SecretPassword := MkSecretPassword { sp_bytes : list ascii; sp_size : Z }.

Definition SecretPassword_default : SecretPassword := MkSecretPassword (replicate password_storage_capacity Ascii.zero) 0.
Definition SecretPassword_view (this : SecretPassword) : list ascii := take (Z.to_nat (sp_size this)) (sp_bytes this).
Definition SecretPassword_is_cleansed (this : SecretPassword) : bool :=
  (sp_size this =? 0) && forallb (fun byte => bool_decide (byte = Ascii.zero)) (sp_bytes this).
Definition SecretPassword_cleanse (this : SecretPassword) : SecretPassword :=
  MkSecretPassword (map (fun _ => Ascii.zero) (sp_bytes this)) 0.

(** The new object and what is left of the other. *)
Definition SecretPassword_move_construct (other : SecretPassword) : SecretPassword * SecretPassword :=
  (MkSecretPassword (sp_bytes other) (sp_size other), SecretPassword_cleanse other).
Definition SecretPassword_move_assign (this other : SecretPassword) : SecretPassword * SecretPassword :=
  let _ := SecretPassword_cleanse this in SecretPassword_move_construct other.
Definition SecretPassword_destroy (this : SecretPassword) : SecretPassword := SecretPassword_cleanse this.

(** The copy of the characters, up to a NUL. *)
Fixpoint copy_password (input : list ascii) (index : Z) (bytes : list ascii) : outcome (bool * list ascii) :=
  match input with
  | [] => Ret (true, bytes)
  | character :: input =>
      if bool_decide (character = Ascii.zero) then Ret (false, bytes) else
      bytes ← set_slot bytes index character;
      copy_password input (index + 1) bytes
  end.

(** The password, and the objects that [from] destroys. *)
Definition SecretPassword_from (password : TextView) : outcome (Result SecretPassword * list SecretPassword) :=
  if Z.of_nat password_storage_capacity <=? Z.of_nat (length password) then Ret (Err password_fit_error, []) else
  let output := SecretPassword_default in
  '(copied, bytes) ← copy_password password 0 (sp_bytes output);
  if negb copied then Ret (Err password_nul_error, [SecretPassword_destroy (MkSecretPassword bytes (sp_size output))]) else
  let '(result, output) := SecretPassword_move_construct (MkSecretPassword bytes (Z.of_nat (length password))) in
  Ret (Ok result, [SecretPassword_destroy output]).

(** ** The grammar of hashes *)
Definition is_crypt_character (c : ascii) : bool :=
  is_letter_or_digit c || bool_decide (c = "."%char) || bool_decide (c = "/"%char).

Fixpoint decimal_loop (text : list ascii) (parsed : Z) : option Z :=
  match text with
  | [] => Some parsed
  | character :: text =>
      if (char_value character <? 48) || (57 <? char_value character) then None else
      let digit := char_value character - 48 in
      if (u32_max - digit) / 10 <? parsed then None else decimal_loop text (u32 (parsed * 10 + digit))
  end.
Definition parse_decimal (text : list ascii) : option Z := if bool_decide (text = []) then None else decimal_loop text 0.

Definition parse_bcrypt (h : list ascii) : outcome (Result ParsedPasswordHash) :=
  if negb (bool_decide (length h = 60%nat)) then Ret (Err bcrypt_malformed_error) else
  c0 ← slot h 0; c1 ← slot h 1; c2 ← slot h 2; c3 ← slot h 3; c6 ← slot h 6;
  if negb (bool_decide (c0 = "$"%char)) || negb (bool_decide (c1 = "2"%char)) ||
     (negb (bool_decide (c2 = "a"%char)) && negb (bool_decide (c2 = "b"%char)) && negb (bool_decide (c2 = "y"%char))) ||
     negb (bool_decide (c3 = "$"%char)) || negb (bool_decide (c6 = "$"%char)) then Ret (Err bcrypt_malformed_error) else
  match parse_decimal (substr h 4 2) with
  | None => Ret (Err bcrypt_factor_error)
  | Some cost =>
      if (cost <? bcrypt_minimum_cost) || (bcrypt_maximum_cost <? cost) then Ret (Err bcrypt_factor_error) else
      Ret (if forallb is_crypt_character (drop 7 h) then Ok (MkParsedPasswordHash bcrypt cost) else Err bcrypt_malformed_error)
  end.

(** The position after the rounds, and the rounds. *)
Definition parse_rounds (h : list ascii) : Result (nat * Z) :=
  let cursor := 3%nat in
  if starts_with (chars "rounds=") (drop cursor h) then
    let cursor := (cursor + 7)%nat in
    match find_char_from "$" h cursor with
    | None => Err sha512_rounds_error
    | Some rounds_end =>
        match parse_decimal (substr h cursor (rounds_end - cursor)) with
        | None => Err sha512_rounds_error
        | Some rounds =>
            if (rounds <? sha512_minimum_rounds) || (sha512_maximum_rounds <? rounds) then Err sha512_rounds_error
            else Ok ((rounds_end + 1)%nat, rounds)
        end
    end
  else Ok (cursor, sha512_crypt_standard_rounds).

Definition parse_sha512 (h : list ascii) : Result ParsedPasswordHash :=
  if negb (starts_with (chars "$6$") h) then Err sha512_malformed_error else
  '(cursor, rounds) ← parse_rounds h;
  match find_char_from "$" h cursor with
  | None => Err sha512_salt_error
  | Some salt_end =>
      if bool_decide (salt_end = cursor) || (16 <? Z.of_nat (salt_end - cursor)) then Err sha512_salt_error else
      if negb (forallb is_crypt_character (substr h cursor (salt_end - cursor))) then Err sha512_salt_error else
      let checksum := drop (salt_end + 1) h in
      if negb (bool_decide (length checksum = 86%nat)) then Err sha512_checksum_error else
      if negb (forallb is_crypt_character checksum) then Err sha512_checksum_error else
      Ok (MkParsedPasswordHash sha512 rounds)
  end.

Definition parse_password_hash (h : list ascii) : outcome (Result ParsedPasswordHash) :=
  if starts_with (chars "$2") h then parse_bcrypt h else
  if starts_with (chars "$6$") h then Ret (parse_sha512 h) else Ret (Err password_scheme_error).

Definition validate_work_factor (parsed : ParsedPasswordHash) (limits : PasswordVerificationLimits) : Result unit :=
  let f := ph_work_factor parsed in
  if match ph_scheme parsed with
     | bcrypt => (f <? pl_minimum_bcrypt_cost limits) || (pl_maximum_bcrypt_cost limits <? f)
     | sha512 => (f <? pl_minimum_sha512_rounds limits) || (pl_maximum_sha512_rounds limits <? f)
     end
  then Err password_factor_error else Ok tt.

(** ** The comparison *)

Definition bounded_crypt_output (value : option (list ascii)) : outcome (Result (list ascii)) :=
  match value with
  | None => Ret (Err (make_error domain_dependency dependency 0 (chars "libxcrypt returned no password result")))
  | Some value =>
      r ← terminated_text encoded_password_capacity 0 value;
      Ret (match r with Some t => Ok t | None => Err (make_error domain_dependency corrupt_data 0 (chars "libxcrypt output exceeded bounded capacity")) end)
  end.

Definition constant_time_hash_equal (expected actual : list ascii) : outcome bool :=
  expected_bytes ← copy_into (map char_value expected) 0 (replicate encoded_password_capacity 0);
  actual_bytes ← copy_into (map char_value actual) 0 (replicate encoded_password_capacity 0);
  Ret (foldl (fun difference x => Z.lor difference x) 0 (zip_with Z.lxor expected_bytes actual_bytes) =? 0).

Definition crypt_status (native_code : Z) : DependencyStatus :=
  if native_code =? EINVAL then status_invalid_input else
  if native_code =? ERANGE then status_invalid_range else
  if native_code =? ENOMEM then status_exhaustion else
  if (native_code =? ENOSYS) || (native_code =? ENOTSUP) || (native_code =? EOPNOTSUPP) then status_unavailable else status_io.

(** ** Verification *)
Section verify.
Context {N L : Type} (crypt_r : list ascii -> list ascii -> N -> outcome (option (list ascii) * Z * N)).

(** The state of the library and of the log. *)
Record PasswordWorld := MkPasswordWorld { pw_native : N; pw_log : L }.
Implicit Types (w : PasswordWorld).

Definition log_password_error (log_sink : DependencyLogSink L) (status : DependencyStatus) (native_code : Z) w : Error * PasswordWorld :=
  let e := normalize_dependency_error id_libxcrypt op_password_verify status native_code in
  (e, MkPasswordWorld (pw_native w) (log_dependency_error log_sink (pw_log w) e)).

Definition password_auth_native_error (native_code : Z) (log_sink : DependencyLogSink L) w : Error * PasswordWorld :=
  log_password_error log_sink (crypt_status native_code) native_code w.

Definition set_active (a : PasswordAuthWorker) (active : Z) : PasswordAuthWorker :=
  MkPasswordAuthWorker (aw_worker a) (aw_maximum_in_flight a) active.

(** With the lease: the call of the library and the comparison. *)
Definition crypt_and_compare (password : SecretPassword) (hash : StaticCString) (log_sink : DependencyLogSink L) w : outcome (Result bool * PasswordWorld) :=
  '(native_result, errno, n) ← crypt_r (sp_bytes password) (cs_storage hash) (pw_native w);
  let w := MkPasswordWorld n (pw_log w) in
  failed ← (match native_result with
            | None => Ret true
            | Some value => c ← slot value 0; Ret (bool_decide (c = "*"%char))
            end);
  if (failed : bool) then let '(e, w) := password_auth_native_error errno log_sink w in Ret (Err e, w) else
  output ← bounded_crypt_output native_result;
  match output with
  | Err _ => let '(e, w) := log_password_error log_sink status_corrupt_data 0 w in Ret (Err e, w)
  | Ok output => equal ← constant_time_hash_equal (StaticCString_view hash) output; Ret (Ok equal, w)
  end.

(** The result, the secret passwords that were destroyed, the worker and the world. *)
Definition verify_password (auth_worker : PasswordAuthWorker) (worker : WorkerId) (password encoded_hash : TextView)
    (limits : PasswordVerificationLimits) (log_sink : DependencyLogSink L) w :
    outcome (Result bool * list SecretPassword * PasswordAuthWorker * PasswordWorld) :=
  match validate_password_limits limits with Err e => Ret (Err e, [], auth_worker, w) | Ok _ =>
  if negb (value_ (aw_worker auth_worker) =? value_ worker) then Ret (Err password_worker_error, [], auth_worker, w) else
  if aw_maximum_in_flight auth_worker =? 0 then Ret (Err password_bound_error, [], auth_worker, w) else
  if pl_maximum_password_bytes limits <? Z.of_nat (length password) then Ret (Err password_size_error, [], auth_worker, w) else
  '(bounded_password, gone) ← SecretPassword_from password;
  match bounded_password with Err e => Ret (Err e, gone, auth_worker, w) | Ok bounded_password =>
  let gone := gone ++ [SecretPassword_destroy bounded_password] in
  match TextView_to_c_string encoded_password_capacity encoded_hash with Err e => Ret (Err e, gone, auth_worker, w) | Ok bounded_hash =>
  parsed_hash ← parse_password_hash (StaticCString_view bounded_hash);
  match parsed_hash with Err e => Ret (Err e, gone, auth_worker, w) | Ok parsed_hash =>
  if match ph_scheme parsed_hash with bcrypt => 72 <? Z.of_nat (length password) | sha512 => false end
  then Ret (Err bcrypt_length_error, gone, auth_worker, w) else
  match validate_work_factor parsed_hash limits with Err e => Ret (Err e, gone, auth_worker, w) | Ok _ =>
  if aw_maximum_in_flight auth_worker <=? aw_active auth_worker then Ret (Err password_capacity_error, gone, auth_worker, w) else
  let auth_worker := set_active auth_worker (u64 (aw_active auth_worker + 1)) in
  '(r, w) ← crypt_and_compare bounded_password bounded_hash log_sink w;
  let auth_worker := set_active auth_worker (u64 (aw_active auth_worker - 1)) in
  Ret (r, gone, auth_worker, w)
  end end end end end.
End verify.
Arguments PasswordWorld : clear implicits.

(** * Password hashes and their verification

    The grammar of the permitted hashes, that the parser accepts exactly it, and what
    verification decides. *)

(** ** Numbers *)
Definition digits (t : list ascii) : Prop := Forall (fun c => in_span "0" "9" c = true) t.
Definition decimal_from (v : Z) (t : list ascii) : Z := foldl (fun v c => v * 10 + (char_value c - 48)) v t.

Lemma digit_range c : in_span "0" "9" c = true <-> 48 <= char_value c <= 57.
Proof. apply in_span_iff. Qed.

Lemma decimal_from_ge t : forall v, 0 <= v -> digits t -> v <= decimal_from v t.
Proof.
  induction t as [|c t IH]; intros v Hv Ht; [done|]. apply Forall_cons_1 in Ht as [Hc Ht]. apply digit_range in Hc.
  unfold decimal_from. cbn [foldl]. specialize (IH (v * 10 + (char_value c - 48)) ltac:(lia) Ht). unfold decimal_from in IH. lia.
Qed.

Lemma decimal_loop_exact t : forall p v, 0 <= p <= u32_max ->
  decimal_loop t p = Some v <-> digits t /\ decimal_from p t = v /\ v <= u32_max.
Proof.
  unfold u32_max. induction t as [|c t IH]; intros p v Hp; cbn [decimal_loop].
  - split; [intros [= <-]; split; [apply Forall_nil_2|split; [done|lia]]|by intros (_ & <- & _)].
  - pose proof (char_value_range c). destruct ((_ <? 48) || _) eqn:Hd.
    { split; [done|]. intros (Hc & _). apply Forall_cons_1 in Hc as [Hc _]. apply digit_range in Hc.
      apply orb_true_iff in Hd as [H1%Z.ltb_lt|H1%Z.ltb_lt]; lia. }
    apply orb_false_iff in Hd as [H1%Z.ltb_ge H2%Z.ltb_ge].
    assert (Hc : in_span "0" "9" c = true) by (by apply digit_range).
    pose proof (Z.div_mod (4294967295 - (char_value c - 48)) 10 ltac:(lia)). pose proof (Z.mod_pos_bound (4294967295 - (char_value c - 48)) 10 ltac:(lia)).
    destruct (Z.ltb_spec ((u32_max - (char_value c - 48)) / 10) p) as [Hlt|Hge]; unfold u32_max in *.
    + split; [done|]. intros (Ht & Hv & Hle). apply Forall_cons_1 in Ht as [_ Ht]. exfalso.
      assert (4294967295 < p * 10 + (char_value c - 48)) by lia.
      pose proof (decimal_from_ge t (p * 10 + (char_value c - 48)) ltac:(lia) Ht). unfold decimal_from in *. cbn [foldl] in Hv. lia.
    + assert (Hsmall : 0 <= p * 10 + (char_value c - 48) <= 4294967295) by lia. rewrite u32_small by exact Hsmall.
      rewrite (IH _ v Hsmall). unfold decimal_from. cbn [foldl]. split; [intros (A & B & D)|intros (A & B & D); apply Forall_cons_1 in A as [_ A]]; [|done].
      split; [by constructor|done].
Qed.

Lemma parse_decimal_exact t v : parse_decimal t = Some v <-> t <> [] /\ digits t /\ decimal_from 0 t = v /\ v <= u32_max.
Proof.
  unfold parse_decimal. case_bool_decide as Ht; [split; [done|by intros []]|].
  rewrite decimal_loop_exact by (unfold u32_max; lia). tauto.
Qed.

(** ** The grammar *)
Definition crypt_text (t : list ascii) : Prop := Forall (fun c => is_crypt_character c = true) t.

Inductive password_hash : list ascii -> PasswordScheme -> Z -> Prop :=
  | hash_bcrypt version cost tail :
      version = "a"%char \/ version = "b"%char \/ version = "y"%char ->
      length cost = 2%nat -> digits cost -> 4 <= decimal_from 0 cost <= 31 ->
      length tail = 53%nat -> crypt_text tail ->
      password_hash (chars "$2" ++ version :: chars "$" ++ cost ++ chars "$" ++ tail) bcrypt (decimal_from 0 cost)
  | hash_sha512 salt sum :
      (1 <= length salt <= 16)%nat -> crypt_text salt -> length sum = 86%nat -> crypt_text sum ->
      password_hash (chars "$6$" ++ salt ++ chars "$" ++ sum) sha512 5000
  | hash_sha512_rounds rounds salt sum :
      rounds <> [] -> digits rounds -> 1000 <= decimal_from 0 rounds <= 999999999 ->
      (1 <= length salt <= 16)%nat -> crypt_text salt -> length sum = 86%nat -> crypt_text sum ->
      password_hash (chars "$6$rounds=" ++ rounds ++ chars "$" ++ salt ++ chars "$" ++ sum) sha512 (decimal_from 0 rounds).

Lemma crypt_text_forallb t : forallb is_crypt_character t = true <-> crypt_text t.
Proof. unfold crypt_text. by rewrite forallb_forall, Stdlib.Lists.List.Forall_forall. Qed.

Lemma dollar_not_crypt t : crypt_text t -> "$"%char ∉ t.
Proof. intros H Hi. unfold crypt_text in H. rewrite list.Forall_forall in H. by specialize (H _ Hi). Qed.

Lemma dollar_not_digit t : digits t -> "$"%char ∉ t.
Proof. intros H Hi. unfold digits in H. rewrite list.Forall_forall in H. by specialize (H _ Hi). Qed.

(** ** Bcrypt *)
Lemma parse_bcrypt_exact h : exists r, parse_bcrypt h = Ret r /\
  forall p, r = Ok p <-> exists version cost tail, (version = "a"%char \/ version = "b"%char \/ version = "y"%char) /\
    length cost = 2%nat /\ digits cost /\ 4 <= decimal_from 0 cost <= 31 /\ length tail = 53%nat /\ crypt_text tail /\
    h = chars "$2" ++ version :: chars "$" ++ cost ++ chars "$" ++ tail /\ p = MkParsedPasswordHash bcrypt (decimal_from 0 cost).
Proof.
  unfold parse_bcrypt. case_bool_decide as Hlen; cbn [negb].
  2:{ eexists. split; [done|]. intros p. split; [done|]. intros (version & cost & tail & _ & H1 & _ & _ & H2 & _ & -> & _).
      exfalso. apply Hlen. cbn. rewrite length_app. cbn. lia. }
  do 7 (destruct h as [|? h]; [done|]). injection Hlen as Hlen. rename a into c0, a0 into c1, a1 into c2, a2 into c3, a3 into d1, a4 into d2, a5 into c6.
  rewrite (slot_ok (c0 :: c1 :: c2 :: c3 :: d1 :: d2 :: c6 :: h) 0 c0 eq_refl), outcome_bind_Ret, (slot_ok (c0 :: c1 :: c2 :: c3 :: d1 :: d2 :: c6 :: h) 1 c1 eq_refl), outcome_bind_Ret, (slot_ok (c0 :: c1 :: c2 :: c3 :: d1 :: d2 :: c6 :: h) 2 c2 eq_refl), outcome_bind_Ret,
    (slot_ok (c0 :: c1 :: c2 :: c3 :: d1 :: d2 :: c6 :: h) 3 c3 eq_refl), outcome_bind_Ret, (slot_ok (c0 :: c1 :: c2 :: c3 :: d1 :: d2 :: c6 :: h) 6 c6 eq_refl), outcome_bind_Ret.
  destruct (negb (bool_decide (c0 = _)) || _ || _ || _ || _) eqn:Hhead.
  { eexists. split; [done|]. intros p. split; [done|]. intros (version & cost & tail & Hv & H1 & _ & _ & _ & _ & E & _).
    destruct cost as [|e1 [|e2 []]]; try done. injection E as -> -> -> -> -> -> -> ->. by destruct Hv as [-> | [-> | -> ]]. }
  rewrite !orb_false_iff, !andb_false_iff, !negb_false_iff, !bool_decide_eq_true in Hhead. destruct Hhead as [[[[-> ->] Hv] ->] ->].
  change (substr _ 4 2) with [d1; d2]. change (drop 7 _) with h.
  destruct (parse_decimal [d1; d2]) as [cost|] eqn:Hcost.
  2:{ eexists. split; [done|]. intros p. split; [done|]. intros (version & cost & tail & _ & H1 & H2 & H3 & _ & _ & E & _). exfalso.
      destruct cost as [|e1 [|e2 []]]; try done. injection E as _ -> -> ->.
      assert (parse_decimal [e1; e2] = Some (decimal_from 0 [e1; e2])); [|congruence]. apply parse_decimal_exact. unfold u32_max. split; [done|]. split; [done|]. split; [done|lia]. }
  apply parse_decimal_exact in Hcost as (_ & Hdig & Hval & _). unfold bcrypt_minimum_cost, bcrypt_maximum_cost.
  destruct ((cost <? 4) || (31 <? cost)) eqn:Hrange.
  { eexists. split; [done|]. intros p. split; [done|]. intros (version & cost' & tail & _ & H1 & H2 & H3 & _ & _ & E & _). exfalso.
    destruct cost' as [|e1 [|e2 []]]; try done. injection E as _ -> -> ->. subst cost. apply orb_true_iff in Hrange as [?%Z.ltb_lt|?%Z.ltb_lt]; lia. }
  apply orb_false_iff in Hrange as [H4%Z.ltb_ge H31%Z.ltb_ge]. eexists. split; [done|]. intros p.
  destruct (forallb is_crypt_character h) eqn:Hcrypt.
  - apply crypt_text_forallb in Hcrypt. split.
    + intros [= <-]. exists c2, [d1; d2], h. split; [tauto|]. split; [done|]. split; [done|]. split; [lia|]. split; [done|]. split; [done|]. by rewrite Hval.
    + intros (version & cost' & tail & _ & H1 & _ & _ & _ & _ & E & ->). destruct cost' as [|e1 [|e2 []]]; try done. injection E as _ -> -> ->. by rewrite Hval.
  - split; [done|]. intros (version & cost' & tail & _ & H1 & _ & _ & _ & H2 & E & _). destruct cost' as [|e1 [|e2 []]]; try done.
    injection E as _ -> -> ->. apply crypt_text_forallb in H2. congruence.
Qed.

(** ** SHA-512 *)
Lemma find_char_from_Some t position i c : find_char_from c t position = Some i ->
  exists front rest, drop position t = front ++ c :: rest /\ i = (position + length front)%nat /\ (c ∉ front) /\
    substr t position (i - position) = front /\ drop (i + 1) t = rest.
Proof.
  unfold find_char_from, substr. intros (j & Hj & ->)%fmap_Some. apply find_first_Some in Hj as (front & rest & E & -> & Hn).
  exists front, rest. split; [done|]. split; [done|]. split; [done|].
  replace (position + length front - position)%nat with (length front) by lia. rewrite E, take_app_length. split; [done|].
  replace (position + length front + 1)%nat with (position + (length front + 1))%nat by lia.
  rewrite <- drop_drop, E. by rewrite drop_app_add'.
Qed.

Lemma find_char_from_found t position c front rest : drop position t = front ++ c :: rest -> c ∉ front ->
  find_char_from c t position = Some (position + length front)%nat.
Proof.
  intros E Hn. unfold find_char_from. assert (find_first c (drop position t) = Some (length front)) as ->; [|done].
  apply find_first_Some. by exists front, rest.
Qed.

(** The salt and the checksum from a position on. *)
Definition sha512_tail (t salt sum : list ascii) : Prop :=
  t = salt ++ chars "$" ++ sum /\ (1 <= length salt <= 16)%nat /\ crypt_text salt /\ length sum = 86%nat /\ crypt_text sum.

Lemma sha512_tail_exact h cursor rounds p :
  match find_char_from "$" h cursor with
  | None => Err sha512_salt_error
  | Some salt_end =>
      if bool_decide (salt_end = cursor) || (16 <? Z.of_nat (salt_end - cursor)) then Err sha512_salt_error else
      if negb (forallb is_crypt_character (substr h cursor (salt_end - cursor))) then Err sha512_salt_error else
      let checksum := drop (salt_end + 1) h in
      if negb (bool_decide (length checksum = 86%nat)) then Err sha512_checksum_error else
      if negb (forallb is_crypt_character checksum) then Err sha512_checksum_error else
      Ok (MkParsedPasswordHash sha512 rounds)
  end = Ok p <-> (exists salt sum, sha512_tail (drop cursor h) salt sum) /\ p = MkParsedPasswordHash sha512 rounds.
Proof.
  split.
  - destruct (find_char_from "$" h cursor) as [i|] eqn:Hf; [|done].
    apply find_char_from_Some in Hf as (front & rest & E & -> & Hn & E1 & E2). rewrite E1. cbn zeta. rewrite E2.
    destruct (bool_decide _ || _) eqn:Hsize; [done|]. destruct (forallb is_crypt_character front) eqn:Hs; [|done].
    cbn [negb]. destruct (bool_decide (length rest = _)) eqn:Hl; cbn [negb]; [apply bool_decide_eq_true in Hl|discriminate 1]. destruct (forallb is_crypt_character rest) eqn:Hr; [|done]. cbn [negb]. intros [= <-].
    split; [|done]. exists front, rest. apply orb_false_iff in Hsize as [H1 H2%Z.ltb_ge]. apply bool_decide_eq_false in H1.
    apply crypt_text_forallb in Hs, Hr. split; [done|]. split; [lia|done].
  - intros [(salt & sum & E & Hlen & Hs & Hsum & Hc) ->].
    rewrite (find_char_from_found h cursor "$" salt sum E (dollar_not_crypt _ Hs)).
    destruct (find_char_from_Some h cursor _ _ (find_char_from_found h cursor "$" salt sum E (dollar_not_crypt _ Hs)))
      as (front & rest & E' & Hi & _ & E1 & E2). assert (length front = length salt) by lia.
    assert (front = salt /\ rest = sum) as [-> ->].
    { rewrite E in E'. apply app_inj_1 in E' as [-> E']; [|lia]. by injection E' as ->. }
    rewrite E1. cbn zeta. rewrite E2. rewrite bool_decide_eq_false_2 by lia. rewrite (proj2 (Z.ltb_ge _ _)) by lia.
    apply crypt_text_forallb in Hs, Hc. rewrite Hs, Hc. cbn [orb negb]. by rewrite bool_decide_eq_true_2.
Qed.

Lemma parse_rounds_exact rest cursor rounds : parse_rounds (chars "$6$" ++ rest) = Ok (cursor, rounds) <->
  (starts_with (chars "rounds=") rest = false /\ cursor = 3%nat /\ rounds = 5000) \/
  (exists ds tail, rest = chars "rounds=" ++ ds ++ chars "$" ++ tail /\ ds <> [] /\ digits ds /\ 1000 <= decimal_from 0 ds <= 999999999 /\
     cursor = (11 + length ds)%nat /\ rounds = decimal_from 0 ds).
Proof.
  unfold parse_rounds. change (drop 3 (chars "$6$" ++ rest)) with rest. cbn zeta.
  destruct (starts_with (chars "rounds=") rest) eqn:Hr.
  2:{ split; [intros [= <- <-]; by left|]. intros [(_ & -> & ->)|(ds & tail & -> & _)]; [done|]. exfalso.
      assert (starts_with (chars "rounds=") (chars "rounds=" ++ ds ++ chars "$" ++ tail) = true); [|congruence]. apply starts_with_iff. eauto. }
  apply starts_with_iff in Hr as [body ->]. change (drop (3 + 7) (chars "$6$" ++ chars "rounds=" ++ body)) with body.
  assert (Hd : drop (3 + 7) (chars "$6$" ++ chars "rounds=" ++ body) = body) by done.
  unfold sha512_minimum_rounds, sha512_maximum_rounds. split.
  - intros H. right. destruct (find_char_from _ _ _) as [i|] eqn:Hf; [|done].
    apply find_char_from_Some in Hf as (front & tail & E & -> & Hn & E1 & _). rewrite Hd in E. rewrite E1 in H.
    destruct (parse_decimal front) as [v|] eqn:Hv; [|done]. apply parse_decimal_exact in Hv as (Hne & Hdig & <- & _).
    destruct (_ || _) eqn:Hrange; [done|]. injection H as <- <-. apply orb_false_iff in Hrange as [H1%Z.ltb_ge H2%Z.ltb_ge].
    exists front, tail. subst body. split; [done|]. split; [done|]. split; [done|]. split; [lia|]. split; [lia|done].
  - intros [(Hs & _)|(ds & tail & E & Hne & Hdig & Hrange & -> & ->)].
    { exfalso. assert (starts_with (chars "rounds=") (chars "rounds=" ++ body) = true); [|congruence]. apply starts_with_iff. eauto. }
    apply app_inv_head in E. subst body.
    pose proof (find_char_from_found _ _ "$"%char ds tail Hd (dollar_not_digit _ Hdig)) as Hf. rewrite Hf.
    destruct (find_char_from_Some _ _ _ _ Hf) as (front & rest & E & Hi & _ & E1 & _). rewrite Hd in E.
    assert (front = ds) as ->. { apply app_inj_1 in E as [-> _]; [done|lia]. }
    rewrite E1. assert (parse_decimal ds = Some (decimal_from 0 ds)) as ->.
    { apply parse_decimal_exact. unfold u32_max. split; [done|]. split; [done|]. split; [done|lia]. }
    rewrite !(proj2 (Z.ltb_ge _ _)) by lia. cbn [orb]. do 2 f_equal. lia.
Qed.

Lemma parse_sha512_exact rest p : parse_sha512 (chars "$6$" ++ rest) = Ok p <->
  exists rounds, p = MkParsedPasswordHash sha512 rounds /\ password_hash (chars "$6$" ++ rest) sha512 rounds.
Proof.
  unfold parse_sha512. assert (starts_with (chars "$6$") (chars "$6$" ++ rest) = true) as -> by (apply starts_with_iff; eauto). cbn [negb].
  split.
  - intros H. destruct (parse_rounds (chars "$6$" ++ rest)) as [[cursor rounds]|e] eqn:Hr; [|done]. apply parse_rounds_exact in Hr.
    cbn [mbind Result_bind] in H. apply sha512_tail_exact in H as [(salt & sum & E & Hlen & Hs & Hsum & Hc) ->]. exists rounds. split; [done|].
    destruct Hr as [(_ & -> & ->)|(ds & tail & -> & Hne & Hdig & Hrange & -> & ->)].
    + change (drop 3 (chars "$6$" ++ rest)) with rest in E. subst rest. by apply hash_sha512.
    + assert (Hd : drop (11 + length ds) (chars "$6$" ++ chars "rounds=" ++ ds ++ chars "$" ++ tail) = tail).
      { change (drop (11 + length ds) _) with (drop (S (length ds)) (ds ++ chars "$" ++ tail)).
        replace (S (length ds)) with (length ds + 1)%nat by lia. by rewrite drop_app_add'. }
      rewrite Hd in E. subst tail. by apply (hash_sha512_rounds ds salt sum).
  - intros (rounds & -> & H). remember (chars "$6$" ++ rest) as h eqn:Eh. clear Eh. remember sha512 as scheme eqn:Escheme.
    destruct H as [|salt sum Hlen Hs Hsum Hc|ds salt sum Hne Hdig Hrange Hlen Hs Hsum Hc]; [discriminate Escheme| |].
    + assert (parse_rounds (chars "$6$" ++ salt ++ chars "$" ++ sum) = Ok (3%nat, 5000)) as ->.
      { apply parse_rounds_exact. left. split; [|done]. destruct (starts_with _ _) eqn:E; [|done]. apply starts_with_iff in E as [t E]. exfalso.
        assert (Hin : "="%char ∈ salt ++ chars "$" ++ sum) by (rewrite E; set_solver).
        rewrite !elem_of_app in Hin. unfold crypt_text in *. rewrite list.Forall_forall in Hs, Hc.
        destruct Hin as [Hin|[Hin|Hin]]; [by apply Hs in Hin| |by apply Hc in Hin]. by apply list_elem_of_singleton in Hin. }
      cbn [mbind Result_bind]. apply sha512_tail_exact. split; [|done]. by exists salt, sum.
    + change (chars "$6$rounds=" ++ ds ++ chars "$" ++ salt ++ chars "$" ++ sum) with (chars "$6$" ++ chars "rounds=" ++ ds ++ chars "$" ++ salt ++ chars "$" ++ sum).
      assert (parse_rounds (chars "$6$" ++ chars "rounds=" ++ ds ++ chars "$" ++ salt ++ chars "$" ++ sum) = Ok ((11 + length ds)%nat, decimal_from 0 ds)) as ->.
      { apply parse_rounds_exact. right. by exists ds, (salt ++ chars "$" ++ sum). }
      cbn [mbind Result_bind]. apply sha512_tail_exact. split; [|done]. exists salt, sum. split; [|done].
      change (drop (11 + length ds) _) with (drop (S (length ds)) (ds ++ chars "$" ++ salt ++ chars "$" ++ sum)).
      replace (S (length ds)) with (length ds + 1)%nat by lia. by rewrite drop_app_add'.
Qed.

Lemma parse_password_hash_run (h : list ascii) :
  exists r, parse_password_hash h = Ret r /\
    forall scheme factor, r = Ok (MkParsedPasswordHash scheme factor) <-> password_hash h scheme factor.
Proof.
  unfold parse_password_hash. destruct (starts_with (chars "$2") h) eqn:H2; [|destruct (starts_with (chars "$6$") h) eqn:H6].
  - destruct (parse_bcrypt_exact h) as (r & -> & Hr). exists r. split; [done|]. intros scheme factor. rewrite Hr. split.
    + intros (version & cost & tail & Hv & H1 & Hd & Hrange & Hl & Hc & -> & [= -> ->]). by apply hash_bcrypt.
    + apply starts_with_iff in H2 as [rest ->]. remember (chars "$2" ++ rest) as h eqn:Eh.
      intros H. destruct H as [version cost tail Hv H1 Hd Hrange Hl Hc| |]; [|discriminate Eh|discriminate Eh]. by exists version, cost, tail.
  - exists (parse_sha512 h). split; [done|]. intros scheme factor. apply starts_with_iff in H6 as [rest ->]. rewrite parse_sha512_exact. split.
    + by intros (rounds & [= -> ->] & H).
    + intros H. destruct scheme; [|by exists factor]. remember (chars "$6$" ++ rest) as h eqn:Eh. remember bcrypt as scheme eqn:E.
      destruct H; [|discriminate E|discriminate E]. discriminate Eh.
  - eexists. split; [done|]. intros scheme factor. split; [done|]. intros H. exfalso.
    destruct H as [version cost tail|salt sum|rounds salt sum].
    + assert (starts_with (chars "$2") (chars "$2" ++ version :: chars "$" ++ cost ++ chars "$" ++ tail) = true); [|congruence]. apply starts_with_iff. eauto.
    + assert (starts_with (chars "$6$") (chars "$6$" ++ salt ++ chars "$" ++ sum) = true); [|congruence]. apply starts_with_iff. eauto.
    + assert (starts_with (chars "$6$") (chars "$6$" ++ chars "rounds=" ++ rounds ++ chars "$" ++ salt ++ chars "$" ++ sum) = true) by (apply starts_with_iff; eauto).
      change (chars "$6$rounds=" ++ rounds ++ chars "$" ++ salt ++ chars "$" ++ sum)
        with (chars "$6$" ++ chars "rounds=" ++ rounds ++ chars "$" ++ salt ++ chars "$" ++ sum) in H6. congruence.
Qed.

(** C22: the parser of password hashes is total and accepts exactly the grammar of the permitted
    schemes: bcrypt of versions a, b and y with two digits of cost from 4 to 31 and 53
    characters of salt and checksum, and SHA-512 crypt with an optional number of rounds from
    1000 to 999999999, a salt of 1 to 16 characters and a checksum of 86; and the scheme and
    the work factor it reports are those of the text. *)
Theorem password_hash_exact (h : list ascii) :
  exists r, parse_password_hash h = Ret r /\
    forall scheme factor, r = Ok (MkParsedPasswordHash scheme factor) <-> password_hash h scheme factor.
Proof. apply parse_password_hash_run. Qed.

(** ** Secrets *)
Lemma cleanse_cleansed p : SecretPassword_is_cleansed (SecretPassword_cleanse p) = true.
Proof. unfold SecretPassword_is_cleansed. cbn. apply forallb_forall. intros x (y & <- & _)%List.in_map_iff. by rewrite bool_decide_eq_true_2. Qed.

Lemma copy_password_run input : forall index bytes, 0 <= index -> index + Z.of_nat (length input) <= Z.of_nat (length bytes) ->
  exists copied bytes', copy_password input index bytes = Ret (copied, bytes') /\ length bytes' = length bytes /\
    (copied = true <-> Ascii.zero ∉ input) /\
    (copied = true -> bytes' = take (Z.to_nat index) bytes ++ input ++ drop (Z.to_nat index + length input) bytes).
Proof.
  induction input as [|c input IH]; intros index bytes Hi Hl; cbn [copy_password].
  - exists true, bytes. split; [done|]. split; [done|]. split; [split; [intros _; apply not_elem_of_nil|done]|]. intros _.
    rewrite Nat.add_0_r. simpl. by rewrite take_drop.
  - case_bool_decide as Hc.
    + exists false, bytes. split; [done|]. split; [done|]. split; [|done]. split; [done|]. rewrite not_elem_of_cons. intros [? _]. congruence.
    + cbn [length] in Hl. rewrite set_slot_ok by lia. rewrite outcome_bind_Ret.
      destruct (IH (index + 1) (<[Z.to_nat index := c]> bytes)) as (copied & bytes' & -> & Hlen & Hz & Hb); [lia|rewrite length_insert; lia|].
      exists copied, bytes'. split; [done|]. rewrite length_insert in Hlen. split; [done|]. split; [rewrite Hz, not_elem_of_cons; naive_solver|].
      intros ->. rewrite (Hb eq_refl). replace (Z.to_nat (index + 1)) with (S (Z.to_nat index)) by lia.
      rewrite (take_S_r _ _ c) by (apply list_lookup_insert_eq; lia). rewrite take_insert_ge, drop_insert_lt by lia.
      rewrite <- app_assoc. cbn [app length]. do 4 f_equal. lia.
Qed.

Lemma SecretPassword_from_run password : exists r gone, SecretPassword_from password = Ret (r, gone) /\
  Forall (fun p => SecretPassword_is_cleansed p = true) gone /\
  ((exists p, r = Ok p) <-> (length password < 512)%nat /\ Ascii.zero ∉ password) /\
  (forall p, r = Ok p -> c_string_read (sp_bytes p) = Some password /\ SecretPassword_view p = password /\ length gone = 1%nat) /\
  (forall e, r = Err e -> e = password_fit_error \/ e = password_nul_error).
Proof.
  unfold SecretPassword_from, password_storage_capacity. destruct (Z.leb_spec (Z.of_nat 512) (Z.of_nat (length password))) as [Hle|Hlt].
  { eexists (Err _), []. split; [done|]. split; [constructor|]. split; [|split; [done|]]; [|intros e [= <-]; by left].
    split; [by intros []|]. intros [? _]. lia. }
  destruct (copy_password_run password 0 (replicate 512 Ascii.zero)) as (copied & bytes & E & Hlen & Hz & Hb); [lia|rewrite length_replicate; lia|].
  change (sp_bytes SecretPassword_default) with (replicate 512 Ascii.zero). rewrite E, outcome_bind_Ret. destruct copied; cbn [negb].
  - assert (Hbytes : exists rest, bytes = password ++ Ascii.zero :: rest).
    { exists (replicate (511 - length password) Ascii.zero). rewrite (Hb eq_refl), drop_replicate.
      by replace (512 - (Z.to_nat 0 + length password))%nat with (S (511 - length password)) by lia. }
    destruct Hbytes as [rest ->]. eexists (Ok _), _. split; [done|]. split; [constructor; [apply cleanse_cleansed|constructor]|].
    split; [split; [intros _; split; [lia|by apply Hz]|by eexists]|]. split; [|done]. intros p [= <-].
    split; [apply c_string_read_app, Hz; done|]. unfold SecretPassword_view. cbn [sp_size sp_bytes]. rewrite Nat2Z.id. by rewrite take_app_length.
  - eexists (Err _), _. split; [done|]. split; [constructor; [apply cleanse_cleansed|constructor]|]. split; [|split; [done|intros e [= <-]; by right]].
    split; [by intros []|]. intros [_ H]. by apply Hz in H.
Qed.

(** ** The comparison *)
Lemma foldl_lor_zero (l : list Z) : forall d, foldl (fun difference x => Z.lor difference x) d l = 0 <-> d = 0 /\ Forall (fun x => x = 0) l.
Proof.
  induction l as [|x l IH]; intros d; cbn [foldl]; [split; [intros ->; split; [done|constructor]|by intros []]|].
  rewrite IH, Z.lor_eq_0_iff. split; [intros [[-> ->] H]; by repeat constructor|intros [-> H]; by apply Forall_cons_1 in H as [-> H]].
Qed.

Lemma lxor_all_zero (l k : list Z) : length l = length k -> Forall (fun x => x = 0) (zip_with Z.lxor l k) <-> l = k.
Proof.
  revert k. induction l as [|x l IH]; intros [|y k] Hl; try done. injection Hl as Hl. cbn [zip_with].
  split.
  - intros [H1 H2]%Forall_cons_1. apply Z.lxor_eq in H1 as ->. f_equal. by apply IH.
  - intros [= -> ->]. constructor; [apply Z.lxor_nilpotent|by apply IH].
Qed.

Lemma char_value_zero c : char_value c = 0 <-> c = Ascii.zero.
Proof. split; [intros H; by apply char_value_inj|by intros ->]. Qed.

(** Texts without NUL are told apart by their padded arrays. *)
Lemma padded_inj (a b : list ascii) : forall n m, Ascii.zero ∉ a -> Ascii.zero ∉ b ->
  map char_value a ++ replicate n 0 = map char_value b ++ replicate m 0 -> a = b.
Proof.
  revert b. induction a as [|x a IH]; intros [|y b] n m Ha Hb E; cbn [map app] in E.
  - done.
  - destruct n; cbn in E; [done|]. injection E as E _. symmetry in E. apply char_value_zero in E as ->. exfalso. apply Hb. by left.
  - destruct m; cbn in E; [done|]. injection E as E _. apply char_value_zero in E as ->. exfalso. apply Ha. by left.
  - injection E as E1 E2. apply char_value_inj in E1 as ->. f_equal. apply not_elem_of_cons in Ha as [_ Ha], Hb as [_ Hb]. by apply (IH b n m).
Qed.

Lemma constant_time_run (a b : list ascii) : (length a <= 256)%nat -> (length b <= 256)%nat -> Ascii.zero ∉ a -> Ascii.zero ∉ b ->
  constant_time_hash_equal a b = Ret (bool_decide (a = b)).
Proof.
  intros Ha Hb Za Zb. unfold constant_time_hash_equal, encoded_password_capacity.
  rewrite !copy_into_run by (rewrite ?length_map, ?length_replicate; lia). rewrite !outcome_bind_Ret. cbn [Z.to_nat take app]. rewrite !drop_replicate. f_equal.
  set (x := map char_value a ++ _). set (y := map char_value b ++ _).
  assert (Hlen : length x = length y) by (unfold x, y; rewrite !length_app, !length_map, !length_replicate; lia).
  apply eq_true_iff_eq. rewrite Z.eqb_eq, foldl_lor_zero, lxor_all_zero, bool_decide_eq_true by done. split.
  - intros [_ E]. exact (padded_inj a b _ _ Za Zb E).
  - intros ->. done.
Qed.

(** ** Verification *)

(** The result of [crypt_r] is null or a text that ends. *)
Definition crypt_lawful {N : Type} (crypt_r : list ascii -> list ascii -> N -> outcome (option (list ascii) * Z * N)) : Prop :=
  forall password hash n p h, c_string_read password = Some p -> c_string_read hash = Some h ->
  exists out errno n', crypt_r password hash n = Ret (out, errno, n') /\
    forall value, out = Some value -> exists front rest, value = front ++ Ascii.zero :: rest /\ Ascii.zero ∉ front.

Definition limits_permitted (limits : PasswordVerificationLimits) : Prop :=
  pl_maximum_password_bytes limits <> 0 /\ pl_maximum_password_bytes limits <= 511 /\
  4 <= pl_minimum_bcrypt_cost limits <= pl_maximum_bcrypt_cost limits /\ pl_maximum_bcrypt_cost limits <= 31 /\
  1000 <= pl_minimum_sha512_rounds limits <= pl_maximum_sha512_rounds limits /\ pl_maximum_sha512_rounds limits <= 999999999.

Definition factor_permitted (limits : PasswordVerificationLimits) (scheme : PasswordScheme) (factor : Z) : Prop :=
  match scheme with
  | bcrypt => pl_minimum_bcrypt_cost limits <= factor <= pl_maximum_bcrypt_cost limits
  | sha512 => pl_minimum_sha512_rounds limits <= factor <= pl_maximum_sha512_rounds limits
  end.

(** What the library is asked to verify. *)
Record permitted (a : PasswordAuthWorker) (worker : WorkerId) (password hash : TextView) (limits : PasswordVerificationLimits)
    (scheme : PasswordScheme) (factor : Z) : Prop := {
  pm_limits : limits_permitted limits;
  pm_worker : value_ (aw_worker a) = value_ worker;
  pm_bound : aw_active a < aw_maximum_in_flight a;
  pm_size : Z.of_nat (length password) <= pl_maximum_password_bytes limits;
  pm_password : Ascii.zero ∉ password;
  pm_hash_text : (length hash < 256)%nat /\ Ascii.zero ∉ hash;
  pm_hash : password_hash hash scheme factor;
  pm_bcrypt : scheme = bcrypt -> Z.of_nat (length password) <= 72;
  pm_factor : factor_permitted limits scheme factor }.

Lemma limits_exact limits : validate_password_limits limits = Ok tt <-> limits_permitted limits.
Proof.
  unfold validate_password_limits, limits_permitted, maximum_supported_password_bytes, bcrypt_minimum_cost, bcrypt_maximum_cost,
    sha512_minimum_rounds, sha512_maximum_rounds. destruct (_ || _) eqn:E.
  - split; [done|]. intros H. exfalso. rewrite !orb_true_iff, !Z.ltb_lt, Z.eqb_eq in E. lia.
  - split; [|done]. intros _. rewrite !orb_false_iff, !Z.ltb_ge, Z.eqb_neq in E. lia.
Qed.

Lemma factor_exact scheme factor limits : validate_work_factor (MkParsedPasswordHash scheme factor) limits = Ok tt <-> factor_permitted limits scheme factor.
Proof.
  unfold validate_work_factor, factor_permitted. cbn [ph_scheme ph_work_factor].
  destruct scheme; (destruct (_ || _) eqn:E; [split; [done|]; intros H; exfalso; rewrite orb_true_iff, !Z.ltb_lt in E; lia|
    split; [|done]; intros _; rewrite orb_false_iff, !Z.ltb_ge in E; lia]).
Qed.

Section verification.
Context {N L : Type} (crypt_r : list ascii -> list ascii -> N -> outcome (option (list ascii) * Z * N)).
Implicit Types (w : PasswordWorld N L).

Definition crypt_error (status : DependencyStatus) (code : Z) : Error := normalize_dependency_error id_libxcrypt op_password_verify status code.

(** What the result of the library means for a hash. *)
Definition crypt_verdict (hash : list ascii) (out : option (list ascii)) (errno : Z) : Result bool :=
  match out with
  | None => Err (crypt_error (crypt_status errno) errno)
  | Some value =>
      match c_string_read value with
      | None => Err (crypt_error status_corrupt_data 0)
      | Some text =>
          if starts_with (chars "*") text then Err (crypt_error (crypt_status errno) errno) else
          if 256 <=? Z.of_nat (length text) then Err (crypt_error status_corrupt_data 0) else Ok (bool_decide (text = hash))
      end
  end.

Lemma compare_run (password : SecretPassword) (storage : StaticCString) (hash p : list ascii) sink w :
  crypt_lawful crypt_r -> c_string_read (sp_bytes password) = Some p -> c_string_read (cs_storage storage) = Some hash ->
  StaticCString_view storage = hash -> (length hash < 256)%nat -> Ascii.zero ∉ hash ->
  exists out errno n' w', crypt_r (sp_bytes password) (cs_storage storage) (pw_native w) = Ret (out, errno, n') /\
    crypt_and_compare crypt_r password storage sink w = Ret (crypt_verdict hash out errno, w') /\ pw_native w' = n'.
Proof.
  intros Hlaw Hp Hh Hview Hlen Hz. destruct (Hlaw _ _ (pw_native w) p hash Hp Hh) as (out & errno & n' & E & Hout).
  exists out, errno, n'. unfold crypt_and_compare. rewrite E, outcome_bind_Ret. destruct out as [value|]; [|by eexists].
  destruct (Hout value eq_refl) as (front & rest & -> & Hzf). unfold crypt_verdict. rewrite c_string_read_app by done.
  assert (Hslot : exists c, (front ++ Ascii.zero :: rest) !! 0%nat = Some c /\ bool_decide (c = "*"%char) = starts_with (chars "*") front).
  { destruct front as [|c front]; [by exists Ascii.zero|]. exists c. split; [done|]. unfold starts_with. cbn [chars list_ascii_of_string length take].
    apply bool_decide_ext. split; [by intros ->|by intros [= ->]]. }
  destruct Hslot as (c & Hc & Hstar). rewrite (slot_ok _ 0 c Hc), !outcome_bind_Ret, Hstar.
  destruct (starts_with (chars "*") front); [by eexists|]. unfold bounded_crypt_output.
  rewrite (terminated_text_run _ 0 _ front rest) by (done || lia). rewrite outcome_bind_Ret. unfold encoded_password_capacity.
  change (0 + Z.of_nat 256) with 256.
  destruct (Z.ltb_spec (Z.of_nat (length front)) 256) as [Hs|Hs].
  - rewrite outcome_bind_Ret, (proj2 (Z.leb_gt _ _)) by lia. rewrite Hview, constant_time_run by (done || lia). rewrite outcome_bind_Ret.
    rewrite (bool_decide_ext (hash = front) (front = hash)) by (split; congruence). by eexists.
  - rewrite outcome_bind_Ret, (proj2 (Z.leb_le _ _)) by lia. by eexists.
Qed.

(** The rest of a verification, once the password has been copied. *)
Definition decided (a : PasswordAuthWorker) (worker : WorkerId) (password hash : TextView) (limits : PasswordVerificationLimits) w
    (r : Result bool) (gone : list SecretPassword) w' : Prop :=
  Forall (fun p => SecretPassword_is_cleansed p = true) gone /\
  (forall scheme factor, permitted a worker password hash limits scheme factor ->
     exists bytes storage out errno, c_string_read bytes = Some password /\ c_string_read storage = Some hash /\
       crypt_r bytes storage (pw_native w) = Ret (out, errno, pw_native w') /\ r = crypt_verdict hash out errno /\ length gone = 2%nat) /\
  ((forall scheme factor, ~ permitted a worker password hash limits scheme factor) -> exists e, r = Err e /\ w' = w).

Lemma decided_refused a worker password hash limits w e gone : Forall (fun p => SecretPassword_is_cleansed p = true) gone ->
  (forall scheme factor, ~ permitted a worker password hash limits scheme factor) -> decided a worker password hash limits w (Err e) gone w.
Proof. intros Hg Hn. split; [done|]. split; [|by eexists]. intros scheme factor Hp. by apply Hn in Hp. Qed.

(** From the hash on. *)
Lemma verify_hash_run a worker password hash limits sink w secret gone :
  crypt_lawful crypt_r -> 0 <= aw_active a -> aw_maximum_in_flight a <= size_max ->
  limits_permitted limits -> value_ (aw_worker a) = value_ worker -> Z.of_nat (length password) <= pl_maximum_password_bytes limits ->
  Ascii.zero ∉ password -> c_string_read (sp_bytes secret) = Some password -> Forall (fun p => SecretPassword_is_cleansed p = true) gone -> length gone = 2%nat ->
  exists r w', (match TextView_to_c_string encoded_password_capacity hash with Err e => Ret (Err e, gone, a, w) | Ok bounded_hash =>
     parsed_hash ← parse_password_hash (StaticCString_view bounded_hash);
     match parsed_hash with Err e => Ret (Err e, gone, a, w) | Ok parsed_hash =>
     if match ph_scheme parsed_hash with bcrypt => 72 <? Z.of_nat (length password) | sha512 => false end
     then Ret (Err bcrypt_length_error, gone, a, w) else
     match validate_work_factor parsed_hash limits with Err e => Ret (Err e, gone, a, w) | Ok _ =>
     if aw_maximum_in_flight a <=? aw_active a then Ret (Err password_capacity_error, gone, a, w) else
     let a := set_active a (u64 (aw_active a + 1)) in
     '(r, w) ← crypt_and_compare crypt_r secret bounded_hash sink w;
     let a := set_active a (u64 (aw_active a - 1)) in
     Ret (r, gone, a, w)
     end end end) = Ret (r, gone, a, w') /\ decided a worker password hash limits w r gone w'.
Proof.
  intros Hlaw Ha Hm Hlim Hw Hs Hz Hread Hg Hlen. destruct (to_c_string_spec encoded_password_capacity hash) as [Hfits Hstorage].
  destruct (TextView_to_c_string encoded_password_capacity hash) as [storage|e].
  2:{ eexists _, w. split; [done|]. apply decided_refused; [done|]. intros scheme factor [_ _ _ _ _ [P1 P2] _ _ _].
      by discriminate (proj2 Hfits (conj P2 P1)). }
  destruct (Hstorage storage eq_refl) as (_ & Hr & Hview & _). destruct (proj1 Hfits eq_refl) as [Hzh Hlh]. clear Hfits Hstorage. rewrite Hview.
  destruct (parse_password_hash_run hash) as (parsed & -> & Hparse). rewrite outcome_bind_Ret. destruct parsed as [[scheme factor]|e].
  2:{ eexists _, w. split; [done|]. apply decided_refused; [done|]. intros scheme factor [_ _ _ _ _ _ P1 _ _]. by apply Hparse in P1. }
  pose proof (proj1 (Hparse scheme factor) eq_refl) as Hhash.
  assert (Hone : forall scheme' factor', password_hash hash scheme' factor' -> scheme' = scheme /\ factor' = factor)
    by (intros scheme' factor' H; apply Hparse in H; by injection H as -> ->).
  cbn [ph_scheme]. destruct (match scheme with bcrypt => _ | sha512 => false end) eqn:H72.
  { eexists _, w. split; [done|]. apply decided_refused; [done|]. intros scheme' factor' [_ _ _ _ _ _ P1 P2 _].
    destruct (Hone _ _ P1) as [-> ->]. destruct scheme; [|done]. apply Z.ltb_lt in H72. specialize (P2 eq_refl). lia. }
  destruct (validate_work_factor _ limits) as [[]|e] eqn:Hfactor.
  2:{ eexists _, w. split; [done|]. apply decided_refused; [done|]. intros scheme' factor' [_ _ _ _ _ _ P1 _ P2].
      destruct (Hone _ _ P1) as [-> ->]. apply factor_exact in P2. congruence. }
  apply factor_exact in Hfactor. destruct (Z.leb_spec (aw_maximum_in_flight a) (aw_active a)) as [Hfull|Hfree].
  { eexists _, w. split; [done|]. apply decided_refused; [done|]. intros scheme' factor' [_ _ P1 _ _ _ _ _ _]. lia. }
  destruct (compare_run secret storage hash password sink w Hlaw Hread Hr Hview) as (out & errno & n' & w' & E & Hrun & Hn); [done|done|].
  cbn zeta. rewrite Hrun, outcome_bind_Ret. eexists _, w'. split.
  { cbn [set_active aw_active]. unfold size_max in Hm. rewrite (u64_small (aw_active a + 1)) by lia. rewrite u64_small by lia.
    replace (aw_active a + 1 - 1) with (aw_active a) by lia. by destruct a. }
  split; [done|]. split.
  - intros _ _ _. exists (sp_bytes secret), (cs_storage storage), out, errno. rewrite Hn. done.
  - intros Hno. exfalso. apply (Hno scheme factor). split; try done. intros ->. by apply Z.ltb_ge in H72.
Qed.

(** C21: verification of a password is exact, over any [crypt_r] whose results end: it always
    returns with the worker as it found it and with every copy of the password cleansed.  The
    library is asked, exactly once and with exactly the password and the hash, when the limits
    are consistent, the worker is the designated one and has a free slot, the password is
    within its limits and without NUL, and the hash is one of the grammar with a work factor
    within the limits; the verdict is then whether the text the library returned is the hash,
    or its failure.  Otherwise the library and the log are not touched and an error is
    returned. *)
Theorem verify_password_exact (a : PasswordAuthWorker) (worker : WorkerId) (password hash : TextView)
    (limits : PasswordVerificationLimits) (sink : DependencyLogSink L) w :
  crypt_lawful crypt_r -> 0 <= aw_active a -> aw_maximum_in_flight a <= size_max ->
  exists r gone w', verify_password crypt_r a worker password hash limits sink w = Ret (r, gone, a, w') /\
    Forall (fun p => SecretPassword_is_cleansed p = true) gone /\
    (forall scheme factor, permitted a worker password hash limits scheme factor ->
       exists bytes storage out errno, c_string_read bytes = Some password /\ c_string_read storage = Some hash /\
         crypt_r bytes storage (pw_native w) = Ret (out, errno, pw_native w') /\ r = crypt_verdict hash out errno /\ length gone = 2%nat) /\
    ((forall scheme factor, ~ permitted a worker password hash limits scheme factor) -> exists e, r = Err e /\ w' = w).
Proof.
  intros Hlaw Ha Hm. change (exists r gone w', verify_password crypt_r a worker password hash limits sink w = Ret (r, gone, a, w') /\
    decided a worker password hash limits w r gone w'). unfold verify_password.
  destruct (validate_password_limits limits) as [[]|e] eqn:Hlim.
  2:{ eexists _, [], w. split; [done|]. apply decided_refused; [constructor|]. intros scheme factor [P1 _ _ _ _ _ _ _ _].
      apply limits_exact in P1. congruence. }
  apply limits_exact in Hlim. destruct (Z.eqb_spec (value_ (aw_worker a)) (value_ worker)) as [Hw|Hw]; cbn [negb].
  2:{ eexists _, [], w. split; [done|]. apply decided_refused; [constructor|]. by intros scheme factor [_ P1 _ _ _ _ _ _ _]. }
  destruct (Z.eqb_spec (aw_maximum_in_flight a) 0) as [Hb|Hb].
  { eexists _, [], w. split; [done|]. apply decided_refused; [constructor|]. intros scheme factor [_ _ P1 _ _ _ _ _ _]. lia. }
  destruct (Z.ltb_spec (pl_maximum_password_bytes limits) (Z.of_nat (length password))) as [Hs|Hs].
  { eexists _, [], w. split; [done|]. apply decided_refused; [constructor|]. intros scheme factor [_ _ _ P1 _ _ _ _ _]. lia. }
  destruct (SecretPassword_from_run password) as (rp & gone & -> & Hgone & Hok & Hread & _). rewrite outcome_bind_Ret. destruct rp as [secret|e].
  2:{ eexists _, gone, w. split; [done|]. apply decided_refused; [done|]. intros scheme factor [P1 _ _ P2 P3 _ _ _ _].
      destruct (proj2 Hok) as [p Hp]; [|done]. split; [unfold limits_permitted in P1; lia|done]. }
  destruct (Hread secret eq_refl) as (Hsecret & _ & Hlen). destruct (proj1 Hok (ex_intro _ secret eq_refl)) as [_ Hz]. cbn zeta.
  destruct (verify_hash_run a worker password hash limits sink w secret (gone ++ [SecretPassword_destroy secret])
    Hlaw Ha Hm Hlim Hw Hs Hz Hsecret) as (r & w' & E & Hd).
  - apply Forall_app_2; [done|]. constructor; [apply cleanse_cleansed|constructor].
  - rewrite length_app. cbn [length]. lia.
  - by exists r, (gone ++ [SecretPassword_destroy secret]), w'.
Qed.
End verification.

(** ** A library that knows one password *)
Lemma c_string_read_inv l t : c_string_read l = Some t -> exists rest, l = t ++ Ascii.zero :: rest /\ Ascii.zero ∉ t.
Proof.
  revert t. induction l as [|c l IH]; intros t; cbn [c_string_read]; [done|]. case_bool_decide as Hc.
  - intros [= <-]. subst c. exists l. split; [done|apply not_elem_of_nil].
  - intros (u & Hu & ->)%fmap_Some. destruct (IH u Hu) as (rest & -> & Hn). exists rest. split; [done|]. apply not_elem_of_cons. split; [congruence|done].
Qed.

(** The hash again for the password "laghu", another text for every other one; the calls are counted. *)
Definition one_password (password hash : list ascii) (calls : nat) : outcome (option (list ascii) * Z * nat) :=
  Ret (Some (if bool_decide (c_string_read password = Some (chars "laghu")) then hash else chars "no" ++ [Ascii.zero]), 0, S calls).

Lemma one_password_lawful : crypt_lawful one_password.
Proof.
  intros password hash n p h Hp Hh. eexists _, _, _. split; [done|]. intros value [= <-]. case_bool_decide as Hl.
  - destruct (c_string_read_inv _ _ Hh) as (rest & -> & Hn). by exists h, rest.
  - exists (chars "no"), []. split; [done|]. by apply contains_nul_false.
Qed.

Definition demo_bcrypt : list ascii := chars "$2b$12$" ++ replicate 53 "k"%char.
Definition demo_sha512 : list ascii := chars "$6$rounds=05000$salt$" ++ replicate 86 "/"%char.
Definition auth_worker : PasswordAuthWorker := MkPasswordAuthWorker (MkStrongIdentifier 7) 1 0.
Definition auth_limits : PasswordVerificationLimits := MkPasswordVerificationLimits 100 10 14 1000 100000.
Definition auth_world : PasswordWorld nat unit := MkPasswordWorld 0%nat tt.
Definition auth_sink : DependencyLogSink unit := MkDependencyLogSink None.

Definition demo_verify (password hash : list ascii) : outcome (Result bool * nat) :=
  '(r, gone, a, w) ← verify_password one_password auth_worker (MkStrongIdentifier 7) password hash auth_limits auth_sink auth_world;
  Ret (r, pw_native w).

(** The right password and a wrong one; a bcrypt password of 73 bytes; too few rounds. *)
Example verification_decides :
  demo_verify (chars "laghu") demo_bcrypt = Ret (Ok true, 1%nat) /\
  demo_verify (chars "guru") demo_sha512 = Ret (Ok false, 1%nat) /\
  demo_verify (replicate 73 "x"%char) demo_bcrypt = Ret (Err bcrypt_length_error, 0%nat) /\
  demo_verify (chars "laghu") (chars "$6$rounds=999$salt$" ++ replicate 86 "/"%char) = Ret (Err sha512_rounds_error, 0%nat).
Proof. vm_compute. done. Qed.

Lemma verify_password_exact_witness :
  exists r gone w', verify_password one_password auth_worker (MkStrongIdentifier 7) (chars "laghu") demo_bcrypt auth_limits auth_sink auth_world =
      Ret (r, gone, auth_worker, w') /\ Forall (fun p => SecretPassword_is_cleansed p = true) gone.
Proof.
  destruct (verify_password_exact one_password auth_worker (MkStrongIdentifier 7) (chars "laghu") demo_bcrypt auth_limits auth_sink auth_world
    one_password_lawful) as (r & gone & w' & E & Hg & _); [simpl; lia|unfold size_max, u64_max; simpl; lia|].
  exists r, gone, w'. split; [exact E|exact Hg].
Defined.
