(* ===== verification/Idna.v ===== *)
(** * Internationalized hostnames

    Models [src/adapters/contract/laghu/adapters/idna.hpp], its private header and
    [src/adapters/idna.cpp]: the validation of ASCII hostnames, the checks of the input, the
    lookup by libidn2 and the release of its output.

    Libidn2 is a record of functions and constants over a state [N] of its own.  The output of
    a lookup is its address, with the characters from there on. *)
From S2P Require Import Prelude Contract CheckedArithmetic Views Dependencies TextOps.
From Stdlib Require Import ZArith Lia String Ascii.
From stdpp Require Import base numbers list option gmap.

Set Default Goal Selector "!".
#[local] Open Scope Z_scope.

(** ** ASCII hostnames *)
Definition maximum_text_length : Z := 253.
Definition hostname_storage_capacity : nat := 254.
Definition libidn2_lookup_name_maximum_length : nat := 255.
Definition utf8_input_storage_capacity : nat := 1021.
Definition native_output_storage_capacity : nat := 256.

Record AsciiHostname := MkAsciiHostname { ah_bytes : list ascii; ah_length : Z }.
Definition AsciiHostname_value (this : AsciiHostname) : list ascii := take (Z.to_nat (ah_length this)) (ah_bytes this).

Definition hostname_empty_error := core_error invalid_input "hostname must not be empty".
Definition hostname_size_error := core_error invalid_range "hostname exceeds 253 bytes".
Definition hostname_label_error := core_error invalid_input "hostname contains an invalid label".
Definition hostname_ascii_error := core_error invalid_input "hostname is not bounded ASCII".
Definition hostname_empty_label_error := core_error invalid_input "hostname contains an empty label".
Definition hostname_character_error := core_error invalid_input "hostname contains an invalid ASCII character".
Definition idna_output_error := core_error invalid_range "IDNA output exceeds 253 bytes".

Definition is_ascii_label_character (c : ascii) : bool := is_letter_or_digit c || bool_decide (c = "-"%char).
Definition is_permitted_ascii_input_character (c : ascii) : bool := is_ascii_label_character c || bool_decide (c = "."%char).

Fixpoint label_structure_loop (hostname : list ascii) (preceding_separator : bool) : Result unit :=
  match hostname with
  | [] => if preceding_separator then Err hostname_empty_label_error else Ok tt
  | character :: hostname =>
      if bool_decide (character = "."%char) then
        if preceding_separator then Err hostname_empty_label_error else label_structure_loop hostname true
      else label_structure_loop hostname false
  end.
Definition validate_input_label_structure (hostname : list ascii) : Result unit := label_structure_loop hostname true.

(** The [count] indices left from [index] on. *)
Fixpoint hostname_loop (count : nat) (index label_start : Z) (hostname : list ascii) : outcome (Result unit) :=
  match count with
  | O => Ret (Ok tt)
  | S count =>
      let size := Z.of_nat (length hostname) in
      separator ← (if index =? size then Ret true else c ← slot hostname index; Ret (bool_decide (c = "."%char)));
      if (separator : bool) then
        let label_size := index - label_start in
        invalid ← (if (label_size =? 0) || (63 <? label_size) then Ret true else
                   first ← slot hostname label_start;
                   if bool_decide (first = "-"%char) then Ret true else
                   last ← slot hostname (index - 1); Ret (bool_decide (last = "-"%char)));
        if (invalid : bool) then Ret (Err hostname_label_error) else hostname_loop count (index + 1) (index + 1) hostname
      else
        c ← slot hostname index;
        if negb (is_ascii_label_character c) then Ret (Err hostname_ascii_error) else hostname_loop count (index + 1) label_start hostname
  end.

Definition validate_ascii_hostname (hostname : list ascii) : outcome (Result unit) :=
  if bool_decide (hostname = []) then Ret (Err hostname_empty_error) else
  if maximum_text_length <? Z.of_nat (length hostname) then Ret (Err hostname_size_error) else
  hostname_loop (length hostname + 1) 0 0 hostname.

Definition AsciiHostname_from_ascii (hostname : list ascii) : outcome (Result AsciiHostname) :=
  valid ← validate_ascii_hostname hostname;
  match valid with
  | Err e => Ret (Err e)
  | Ok _ =>
      bytes ← copy_into hostname 0 (replicate hostname_storage_capacity Ascii.zero);
      Ret (Ok (MkAsciiHostname bytes (cast uint16_t (Z.of_nat (length hostname)))))
  end.

(** ** Lookup *)
Section lookup.
Context {N L : Type}.

Record Idn2 := MkIdn2 {
  IDN2_OK : Z; IDN2_MALLOC : Z; IDN2_NO_CODESET : Z; IDN2_TOO_BIG_DOMAIN : Z; IDN2_TOO_BIG_LABEL : Z; IDN2_PUNYCODE_BIG_OUTPUT : Z;
  IDN2_ENCODING_ERROR : Z; IDN2_PUNYCODE_BAD_INPUT : Z; IDN2_PUNYCODE_OVERFLOW : Z; IDN2_INVALID_ALABEL : Z; IDN2_UALABEL_MISMATCH : Z;
  IDN2_NOT_NFC : Z; IDN2_2HYPHEN : Z; IDN2_HYPHEN_STARTEND : Z; IDN2_LEADING_COMBINING : Z; IDN2_DISALLOWED : Z;
  IDN2_CONTEXTJ : Z; IDN2_CONTEXTJ_NO_RULE : Z; IDN2_CONTEXTO : Z; IDN2_CONTEXTO_NO_RULE : Z; IDN2_UNASSIGNED : Z;
  IDN2_BIDI : Z; IDN2_DOT_IN_LABEL : Z; IDN2_INVALID_TRANSITIONAL : Z; IDN2_INVALID_NONTRANSITIONAL : Z; IDN2_ALABEL_ROUNDTRIP_FAILED : Z;
  idn2_lookup_u8 : list ascii -> N -> outcome (Z * option (Z * list ascii) * N);
  idn2_free : Z -> N -> outcome N }.
Context (lib : Idn2).

(** The state of the library and of the log. *)
Record IdnaWorld := MkIdnaWorld { iw_native : N; iw_log : L }.
Implicit Types (w : IdnaWorld).

Definition idn2_status (status : Z) : DependencyStatus :=
  if status =? IDN2_MALLOC lib then status_exhaustion else
  if status =? IDN2_NO_CODESET lib then status_unavailable else
  if (status =? IDN2_TOO_BIG_DOMAIN lib) || (status =? IDN2_TOO_BIG_LABEL lib) || (status =? IDN2_PUNYCODE_BIG_OUTPUT lib) then status_invalid_range else
  if existsb (Z.eqb status)
       [IDN2_ENCODING_ERROR lib; IDN2_PUNYCODE_BAD_INPUT lib; IDN2_PUNYCODE_OVERFLOW lib; IDN2_INVALID_ALABEL lib; IDN2_UALABEL_MISMATCH lib;
        IDN2_NOT_NFC lib; IDN2_2HYPHEN lib; IDN2_HYPHEN_STARTEND lib; IDN2_LEADING_COMBINING lib; IDN2_DISALLOWED lib;
        IDN2_CONTEXTJ lib; IDN2_CONTEXTJ_NO_RULE lib; IDN2_CONTEXTO lib; IDN2_CONTEXTO_NO_RULE lib; IDN2_UNASSIGNED lib;
        IDN2_BIDI lib; IDN2_DOT_IN_LABEL lib; IDN2_INVALID_TRANSITIONAL lib; IDN2_INVALID_NONTRANSITIONAL lib; IDN2_ALABEL_ROUNDTRIP_FAILED lib]
  then status_invalid_input else status_corrupt_data.

Definition log_idna_error (log_sink : DependencyLogSink L) (status : DependencyStatus) (native_code : Z) w : Error * IdnaWorld :=
  let e := normalize_dependency_error id_libidn2 op_idna_lookup status native_code in
  (e, MkIdnaWorld (iw_native w) (log_dependency_error log_sink (iw_log w) e)).

Definition idn2_failure (status : Z) (log_sink : DependencyLogSink L) w : Error * IdnaWorld :=
  log_idna_error log_sink (idn2_status status) (cast int32_t status) w.

(** The destructor of the output. *)
Definition NativeIdn2Output_destroy (output : option (Z * list ascii)) w : outcome IdnaWorld :=
  match output with
  | None => Ret w
  | Some (address, _) => n ← idn2_free lib address (iw_native w); Ret (MkIdnaWorld n (iw_log w))
  end.

Definition bounded_native_string (value : option (Z * list ascii)) : outcome (Result (list ascii)) :=
  match value with
  | None => Ret (Err (make_error domain_dependency corrupt_data 0 (chars "libidn2 returned no hostname")))
  | Some (_, value) =>
      r ← terminated_text native_output_storage_capacity 0 value;
      Ret (match r with Some t => Ok t | None => Err (make_error domain_dependency corrupt_data 0 (chars "libidn2 output exceeded hostname capacity")) end)
  end.

(** What is made of the output while it is held. *)
Definition accept_output (output : option (Z * list ascii)) (log_sink : DependencyLogSink L) w : outcome (Result AsciiHostname * IdnaWorld) :=
  native_hostname ← bounded_native_string output;
  match native_hostname with
  | Err _ => let '(e, w) := log_idna_error log_sink status_corrupt_data 0 w in Ret (Err e, w)
  | Ok native_hostname =>
      if maximum_text_length <? Z.of_nat (length native_hostname) then Ret (Err idna_output_error, w) else
      bounded_hostname ← AsciiHostname_from_ascii native_hostname;
      match bounded_hostname with
      | Err _ => let '(e, w) := log_idna_error log_sink status_corrupt_data 0 w in Ret (Err e, w)
      | Ok bounded_hostname => Ret (Ok bounded_hostname, w)
      end
  end.

Definition idna_to_ascii (hostname : TextView) (log_sink : DependencyLogSink L) w : outcome (Result AsciiHostname * IdnaWorld) :=
  if bool_decide (hostname = []) then Ret (Err hostname_empty_error, w) else
  match TextView_to_c_string utf8_input_storage_capacity hostname with
  | Err e => Ret (Err e, w)
  | Ok input =>
      if existsb (fun c => (char_value c <? 128) && negb (is_permitted_ascii_input_character c)) (StaticCString_view input)
      then Ret (Err hostname_character_error, w) else
      match validate_input_label_structure (StaticCString_view input) with
      | Err e => Ret (Err e, w)
      | Ok _ =>
          '(status, native_output, n) ← idn2_lookup_u8 lib (cs_storage input) (iw_native w);
          let w := MkIdnaWorld n (iw_log w) in
          if negb (status =? IDN2_OK lib) then let '(e, w) := idn2_failure status log_sink w in Ret (Err e, w) else
          '(r, w) ← accept_output native_output log_sink w;
          w ← NativeIdn2Output_destroy native_output w;
          Ret (r, w)
      end
  end.
End lookup.
Arguments Idn2 : clear implicits.
Arguments IdnaWorld : clear implicits.

(** * Hostnames and their labels

    Hostnames as labels joined by dots, that validation accepts exactly those within the
    bounds, and what a lookup returns and leaves behind. *)

(** ** Labels *)
Record good_label (l : list ascii) : Prop := {
  gl_size : (1 <= length l <= 63)%nat;
  gl_characters : Forall (fun c => is_ascii_label_character c = true) l;
  gl_first : head l <> Some "-"%char;
  gl_last : last l <> Some "-"%char }.

Definition hostname_ok (h : list ascii) : Prop :=
  (length h <= 253)%nat /\ exists labels, labels <> [] /\ h = join_with "." labels /\ Forall good_label labels.

Lemma dot_not_label : is_ascii_label_character "."%char = false.
Proof. done. Qed.

Lemma label_no_dot l : Forall (fun c => is_ascii_label_character c = true) l -> "."%char ∉ l.
Proof. intros H Hin. rewrite list.Forall_forall in H. by specialize (H _ Hin). Qed.

Lemma labels_split h : (exists labels, labels <> [] /\ h = join_with "." labels /\ Forall good_label labels) <-> Forall good_label (split_on "." h).
Proof.
  split.
  - intros (labels & Hne & -> & Hg). rewrite split_join; [done|done|]. eapply list.Forall_impl; [exact Hg|]. intros l [_ Hc _ _]. by apply label_no_dot.
  - intros Hg. exists (split_on "." h). split; [|by rewrite join_split]. destruct (split_on_cons "." h) as (p & ps & ->). done.
Qed.

(** ** Validation *)

(** The checks at the end of a label. *)
Lemma label_check (P cur rest : list ascii) : Forall (fun c => is_ascii_label_character c = true) cur ->
  exists invalid, (let label_size := Z.of_nat (length P + length cur) - Z.of_nat (length P) in
    if (label_size =? 0) || (63 <? label_size) then Ret true else
    first ← slot (P ++ cur ++ rest) (Z.of_nat (length P));
    if bool_decide (first = "-"%char) then Ret true else
    last ← slot (P ++ cur ++ rest) (Z.of_nat (length P + length cur) - 1); Ret (bool_decide (last = "-"%char))) = Ret invalid /\
  (invalid = false <-> good_label cur).
Proof.
  intros Hc. cbn zeta. replace (Z.of_nat (length P + length cur) - Z.of_nat (length P)) with (Z.of_nat (length cur)) by lia.
  destruct ((_ =? 0) || _) eqn:Hsize.
  { exists true. split; [done|]. split; [done|]. intros [[H1 H2] _ _ _]. rewrite orb_true_iff, Z.eqb_eq, Z.ltb_lt in Hsize. lia. }
  rewrite orb_false_iff, Z.eqb_neq, Z.ltb_ge in Hsize. destruct cur as [|c cur]; [cbn in Hsize; lia|].
  rewrite (slot_ok (P ++ (c :: cur) ++ rest) (Z.of_nat (length P)) c); [|by rewrite Nat2Z.id, lookup_app_r, Nat.sub_diag by lia]. rewrite outcome_bind_Ret.
  case_bool_decide as Hfirst.
  { subst c. exists true. split; [done|]. split; [done|]. by intros [_ _ H _]. }
  destruct (lookup_lt_is_Some_2 (c :: cur) (length cur)) as [d Hd]; [cbn; lia|].
  rewrite (slot_ok _ _ d).
  2:{ replace (Z.to_nat (Z.of_nat (length P + length (c :: cur)) - 1)) with (length P + length cur)%nat by (cbn [length]; lia).
      rewrite lookup_app_r by lia. replace (length P + length cur - length P)%nat with (length cur) by lia.
      change (c :: cur ++ rest) with ((c :: cur) ++ rest). by rewrite lookup_app_l by (cbn; lia). }
  rewrite outcome_bind_Ret. eexists. split; [done|]. rewrite bool_decide_eq_false.
  assert (Hlast : last (c :: cur) = Some d) by (by rewrite last_lookup).
  split.
  - intros Hne. split; [cbn [length] in *; lia|done|by intros [= ->]|congruence].
  - intros [_ _ _ H]. congruence.
Qed.

Lemma hostname_loop_exact rest : forall P cur, Forall (fun c => is_ascii_label_character c = true) cur ->
  exists r, hostname_loop (length rest + 1) (Z.of_nat (length P + length cur)) (Z.of_nat (length P)) (P ++ cur ++ rest) = Ret r /\
    (r = Ok tt <-> forall part parts, split_on "." rest = part :: parts -> Forall good_label ((cur ++ part) :: parts)).
Proof.
  induction rest as [|c rest IH]; intros P cur Hcur; cbn [hostname_loop Nat.add length].
  - rewrite app_nil_r, length_app, Z.eqb_refl, outcome_bind_Ret.
    destruct (label_check P cur [] Hcur) as (invalid & E & Hi). rewrite app_nil_r in E. cbn zeta in E. rewrite E, outcome_bind_Ret.
    destruct invalid; eexists; (split; [done|]).
    + split; [done|]. intros H. specialize (H [] [] eq_refl). rewrite app_nil_r in H. apply Forall_cons_1 in H as [H _]. by apply Hi in H.
    + split; [|done]. intros _ part parts [= <- <-]. rewrite app_nil_r. constructor; [by apply Hi|constructor].
  - rewrite (proj2 (Z.eqb_neq (Z.of_nat (length P + length cur)) (Z.of_nat (length (P ++ cur ++ c :: rest))))) by (rewrite !length_app; cbn [length]; lia).
    assert (Hslot : (P ++ cur ++ c :: rest) !! (length P + length cur)%nat = Some c).
    { rewrite app_assoc, lookup_app_r by (rewrite length_app; lia). by rewrite length_app, Nat.sub_diag. }
    rewrite (slot_ok (P ++ cur ++ c :: rest) (Z.of_nat (length P + length cur)) c) by (by rewrite Nat2Z.id). rewrite !outcome_bind_Ret.
    replace (Z.of_nat (length P + length cur) + 1) with (Z.of_nat (length P + length cur + 1)) by lia.
    cbn [split_on]. case_bool_decide as Hdot.
    + subst c. destruct (label_check P cur ("."%char :: rest) Hcur) as (invalid & E & Hi). cbn zeta in E. cbn zeta. rewrite E, outcome_bind_Ret. destruct invalid.
      { eexists. split; [done|]. split; [done|]. intros H. specialize (H _ _ eq_refl). rewrite app_nil_r in H. apply Forall_cons_1 in H as [H _]. by apply Hi in H. }
      destruct (IH (P ++ cur ++ ["."%char]) [] (Forall_nil_2 _)) as (r & Hr & Hiff). rewrite <- !app_assoc in Hr. cbn [app] in Hr.
      rewrite !length_app in Hr. cbn [length] in Hr. rewrite Nat.add_0_r in Hr. rewrite Nat.add_assoc in Hr. exists r. split; [done|]. rewrite Hiff. split.
      * intros H part parts [= <- <-]. rewrite app_nil_r. constructor; [by apply Hi|]. destruct (split_on_cons "." rest) as (p & ps & Hs). rewrite Hs. by apply H.
      * intros H part parts Hs. specialize (H _ _ eq_refl). apply Forall_cons_1 in H as [_ H]. by rewrite Hs in H.
    + destruct (is_ascii_label_character c) eqn:Hlabel; cbn [negb].
      * destruct (IH P (cur ++ [c])) as (r & Hr & Hiff); [apply Forall_app_2; [done|by constructor]|].
        rewrite <- app_assoc in Hr. cbn [app] in Hr. rewrite length_app in Hr. cbn [length] in Hr. rewrite Nat.add_assoc in Hr. exists r. split; [done|].
        rewrite Hiff. destruct (split_on_cons "." rest) as (p & ps & Hs). rewrite Hs. split.
        -- intros H part parts [= <- <-]. specialize (H p ps eq_refl). by rewrite <- app_assoc in H.
        -- intros H part parts [= <- <-]. specialize (H _ _ eq_refl). by rewrite <- app_assoc.
      * eexists. split; [done|]. split; [done|]. intros H. destruct (split_on_cons "." rest) as (p & ps & Hs). rewrite Hs in H. specialize (H _ _ eq_refl).
        apply Forall_cons_1 in H as [[_ H _ _] _]. apply list.Forall_app in H as [_ H]. apply Forall_cons_1 in H as [H _]. congruence.
Qed.

Lemma validate_hostname_run h : exists r, validate_ascii_hostname h = Ret r /\ (r = Ok tt <-> hostname_ok h).
Proof.
  unfold validate_ascii_hostname, hostname_ok. setoid_rewrite labels_split. case_bool_decide as Hne.
  { subst h. eexists. split; [done|]. split; [done|]. intros [_ H]. cbn in H. apply Forall_cons_1 in H as [[H _ _ _] _]. cbn in H. lia. }
  unfold maximum_text_length. destruct (Z.ltb_spec 253 (Z.of_nat (length h))) as [Hs|Hs].
  { eexists. split; [done|]. split; [done|]. intros [H _]. lia. }
  destruct (hostname_loop_exact h [] [] (Forall_nil_2 _)) as (r & E & Hr). cbn in E. exists r. split; [done|]. rewrite Hr.
  destruct (split_on_cons "." h) as (p & ps & Hsp). rewrite Hsp. split.
  - intros H. split; [lia|]. by apply (H p ps).
  - intros [_ H] part parts [= <- <-]. done.
Qed.

(** The stored hostname is the text with its terminator. *)
Lemma from_ascii_run h : exists r, AsciiHostname_from_ascii h = Ret r /\ ((exists x, r = Ok x) <-> hostname_ok h) /\
  forall x, r = Ok x -> AsciiHostname_value x = h /\ length (ah_bytes x) = 254%nat /\ exists rest, ah_bytes x = h ++ Ascii.zero :: rest.
Proof.
  unfold AsciiHostname_from_ascii. destruct (validate_hostname_run h) as (r & -> & Hr). rewrite outcome_bind_Ret. destruct r as [[]|e].
  2:{ eexists. split; [done|]. split; [|done]. split; [by intros []|]. intros H. by apply Hr in H. }
  pose proof (proj1 Hr eq_refl) as Hok. assert (Hlen : (length h <= 253)%nat) by apply Hok. unfold hostname_storage_capacity.
  rewrite copy_into_run by (rewrite ?length_replicate; lia).
  assert (Hbytes : exists rest, take (Z.to_nat 0) (replicate 254 Ascii.zero) ++ h ++ drop (Z.to_nat 0 + length h) (replicate 254 Ascii.zero) =
    h ++ Ascii.zero :: rest /\ length rest = (253 - length h)%nat).
  { exists (replicate (253 - length h) Ascii.zero). rewrite length_replicate, drop_replicate.
    by replace (254 - (Z.to_nat 0 + length h))%nat with (S (253 - length h)) by lia. }
  destruct Hbytes as (rest & -> & Hrest). rewrite outcome_bind_Ret. eexists. split; [done|]. split; [split; [done|by eexists]|].
  intros x [= <-]. unfold AsciiHostname_value. cbn [ah_bytes ah_length].
  rewrite cast_in_range by (done || (unfold int_min, int_max; cbn; lia)). rewrite Nat2Z.id, take_app_length. split; [done|].
  split; [rewrite length_app; cbn [length]; lia|]. by eexists.
Qed.

Lemma hostname_decided h : hostname_ok h \/ ~ hostname_ok h.
Proof.
  destruct (from_ascii_run h) as (r & _ & Hr & _). destruct r as [x|e]; [left; apply Hr; by eexists|right]. intros H. apply Hr in H as [x Hx]. done.
Qed.

(** ** The input *)
Lemma label_structure_exact h : forall sep, label_structure_loop h sep = Ok tt <->
  forall part parts, split_on "." h = part :: parts -> (sep = true -> part <> []) /\ Forall (fun l => l <> []) parts.
Proof.
  induction h as [|c h IH]; intros sep; cbn [label_structure_loop split_on].
  - destruct sep; split; try done.
    + intros H. by destruct (H [] [] eq_refl) as [H' _]; specialize (H' eq_refl).
    + intros _ part parts [= <- <-]. by split; [|constructor].
  - destruct (split_on_cons "." h) as (p & ps & E). rewrite E in *. case_bool_decide as Hc.
    + destruct sep.
      * split; [done|]. intros H. by destruct (H [] _ eq_refl) as [H' _]; specialize (H' eq_refl).
      * rewrite IH. split.
        -- intros H part parts [= <- <-]. split; [done|]. destruct (H p ps eq_refl) as [H1 H2]. constructor; auto.
        -- intros H part parts [= <- <-]. destruct (H _ _ eq_refl) as [_ H2]. apply Forall_cons_1 in H2 as [H2 H3]. done.
    + rewrite IH. split.
      * intros H part parts [= <- <-]. split; [done|]. by destruct (H p ps eq_refl).
      * intros H part parts [= <- <-]. split; [done|]. by destruct (H _ _ eq_refl).
Qed.

(** Why libidn2 is not asked about [h]: the checks in their order, each with its error. *)
Definition permitted (c : ascii) : Prop := char_value c < 128 -> is_permitted_ascii_input_character c = true.
#[export] Instance permitted_dec c : Decision (permitted c).
Proof. unfold permitted. apply _. Defined.

Definition input_error (h : list ascii) : option Error :=
  if decide (h = []) then Some (core_error invalid_input "hostname must not be empty") else
  if decide (Ascii.zero ∈ h) then Some (core_error invalid_input "text contains an embedded NUL") else
  if decide (1020 < length h)%nat then Some (core_error invalid_range "text does not fit including terminator") else
  if decide (Forall permitted h) then
    if decide (Forall (fun l => l <> []) (split_on "." h)) then None
    else Some (core_error invalid_input "hostname contains an empty label")
  else Some (core_error invalid_input "hostname contains an invalid ASCII character").

Lemma characters_exact h : existsb (fun c => (char_value c <? 128) && negb (is_permitted_ascii_input_character c)) h = false <->
  Forall permitted h.
Proof.
  unfold permitted. induction h as [|c h IH]; cbn [existsb]; [split; [intros _; constructor|done]|]. rewrite orb_false_iff, andb_false_iff, Z.ltb_ge, negb_false_iff, IH. split.
  - intros [[H|H] H2]; constructor; (done || lia).
  - intros [H1 H2]%Forall_cons_1. split; [|done]. destruct (Z_lt_le_dec (char_value c) 128); [right|left]; auto.
Qed.

Lemma structure_exact h : validate_input_label_structure h = Ok tt <-> Forall (fun l => l <> []) (split_on "." h).
Proof.
  unfold validate_input_label_structure. rewrite label_structure_exact. destruct (split_on_cons "." h) as (p & ps & ->). split.
  - intros H. destruct (H p ps eq_refl) as [H1 H2]. constructor; auto.
  - intros H part parts [= <- <-]. apply Forall_cons_1 in H as [H1 H2]. done.
Qed.

(** ** Lookup *)

(** A lookup that succeeds returns a text that ends, in an object of its own; one that fails
    returns none; objects are freed once. *)
Class Idn2Laws {N : Type} (lib : Idn2 N) := {
  idn2_live : N -> gset Z;
  law_lookup n storage text : c_string_read storage = Some text ->
    exists status out n', idn2_lookup_u8 lib storage n = Ret (status, out, n') /\
      match out with
      | None => idn2_live n' = idn2_live n
      | Some (address, value) => status = IDN2_OK lib /\ (address ∉ idn2_live n) /\ idn2_live n' = {[address]} ∪ idn2_live n /\
          exists front rest, value = front ++ Ascii.zero :: rest /\ Ascii.zero ∉ front
      end;
  law_idn2_free n address : address ∈ idn2_live n -> exists n', idn2_free lib address n = Ret n' /\ idn2_live n' = idn2_live n ∖ {[address]} }.

Section lookup.
Context {N L : Type} {lib : Idn2 N} {laws : Idn2Laws lib}.
Implicit Types (w : IdnaWorld N L).

Definition idna_error (status : DependencyStatus) (code : Z) : Error := normalize_dependency_error id_libidn2 op_idna_lookup status code.

(** What is returned for the text of the library: the hostname when it is one, and otherwise
    the error for its length when it is 254 or 255 bytes, or that for corrupt data. *)
Definition idna_verdict (text : list ascii) (r : Result AsciiHostname) : Prop :=
  (hostname_ok text -> exists x, r = Ok x /\ AsciiHostname_value x = text) /\
  (~ hostname_ok text -> r = Err (if decide (254 <= length text <= 255)%nat
     then core_error invalid_range "IDNA output exceeds 253 bytes" else idna_error status_corrupt_data 0)).

(** Every label structure that is refused has an empty label, and is told so. *)
Lemma label_structure_error h : forall sep e, label_structure_loop h sep = Err e -> e = core_error invalid_input "hostname contains an empty label".
Proof.
  induction h as [|c h IH]; intros sep e; cbn [label_structure_loop]; [destruct sep; [by intros [= <-]|done]|].
  case_bool_decide; [destruct sep; [by intros [= <-]|]|]; apply IH.
Qed.

Lemma to_c_string_error h e : TextView_to_c_string utf8_input_storage_capacity h = Err e ->
  e = if decide (Ascii.zero ∈ h) then core_error invalid_input "text contains an embedded NUL"
      else core_error invalid_range "text does not fit including terminator".
Proof.
  unfold TextView_to_c_string. destruct (TextView_contains_nul h) eqn:Hn.
  - case_decide as Hz; [by intros [= <-]|]. apply contains_nul_false in Hz. congruence.
  - apply contains_nul_false in Hn. rewrite decide_False by done. destruct (_ <=? _); [by intros [= <-]|done].
Qed.

Lemma accept_output_run address front rest sink w : Ascii.zero ∉ front ->
  exists r w', accept_output (Some (address, front ++ Ascii.zero :: rest)) sink w = Ret (r, w') /\ iw_native w' = iw_native w /\ idna_verdict front r.
Proof.
  intros Hz. unfold accept_output, bounded_native_string. rewrite (terminated_text_run _ 0 _ front rest) by (done || lia). rewrite !outcome_bind_Ret.
  change (0 + Z.of_nat native_output_storage_capacity) with 256. unfold idna_verdict. destruct (Z.ltb_spec (Z.of_nat (length front)) 256) as [Hs|Hs].
  2:{ rewrite decide_False by lia. eexists (Err _), _. split; [done|]. split; [done|]. split; [intros [H _]; lia|done]. }
  unfold maximum_text_length. destruct (Z.ltb_spec 253 (Z.of_nat (length front))) as [Hl|Hl].
  { rewrite decide_True by lia. eexists (Err _), _. split; [done|]. split; [done|]. split; [intros [H _]; lia|done]. }
  rewrite decide_False by lia. destruct (from_ascii_run front) as (r & -> & Hr & Hx). rewrite outcome_bind_Ret. destruct r as [x|e].
  - eexists (Ok x), _. split; [done|]. split; [done|]. split; [intros _; exists x; split; [done|by apply Hx]|]. intros Hn. destruct Hn. apply Hr. by eexists.
  - eexists (Err _), _. split; [done|]. split; [done|]. split; [|done]. intros H. apply Hr in H as [y Hy]. done.
Qed.

Lemma lookup_run storage hostname sink w : c_string_read storage = Some hostname ->
  exists status out n' r w', idn2_lookup_u8 lib storage (iw_native w) = Ret (status, out, n') /\
    (let w := MkIdnaWorld n' (iw_log w) in
     if negb (status =? IDN2_OK lib) then let '(e, w) := idn2_failure lib status sink w in Ret (Err e, w) else
     '(r, w) ← accept_output out sink w;
     w ← NativeIdn2Output_destroy lib out w;
     Ret (r, w)) = Ret (r, w') /\ idn2_live (iw_native w') = idn2_live (iw_native w) /\
    (status <> IDN2_OK lib -> r = Err (idna_error (idn2_status lib status) (cast int32_t status))) /\
    (status = IDN2_OK lib -> match out with
       | None => r = Err (idna_error status_corrupt_data 0)
       | Some (_, value) => exists text, c_string_read value = Some text /\ idna_verdict text r
       end).
Proof.
  intros Hs. destruct (law_lookup (iw_native w) storage hostname Hs) as (status & out & n' & E & Hout). exists status, out, n'. cbn zeta.
  destruct (Z.eqb_spec status (IDN2_OK lib)) as [Hok|Hok]; cbn [negb].
  - destruct out as [[address value]|].
    + destruct Hout as (_ & Hnew & Hlive & front & rest & -> & Hz).
      destruct (accept_output_run address front rest sink (MkIdnaWorld n' (iw_log w)) Hz) as (r & w1 & -> & Hn & Hv). rewrite outcome_bind_Ret.
      unfold NativeIdn2Output_destroy. rewrite Hn. cbn [iw_native].
      destruct (law_idn2_free n' address) as (n2 & -> & Hl2); [rewrite Hlive; set_solver|]. rewrite !outcome_bind_Ret.
      exists r, (MkIdnaWorld n2 (iw_log w1)). split; [done|]. split; [done|]. split; [cbn [iw_native]; rewrite Hl2, Hlive; set_solver|].
      split; [done|]. intros _. exists front. split; [by apply c_string_read_app|done].
    + eexists (Err _), _. split; [done|]. split; [done|]. split; [done|]. split; [done|]. done.
  - eexists (Err _), _. split; [done|]. split; [done|]. split; [|done]. destruct out as [[address value]|]; [|done]. by destruct Hout as [? _].
Qed.

(** C23: a lookup is exact, over any libidn2 that keeps its contract.  It always returns and frees
    the output of the library exactly once.  The input is checked in this order: it is not
    empty, has no NUL, has at most 1020 bytes, no ASCII character but letters, digits, hyphens
    and dots, and no empty label; the first check that fails decides the error, and nothing is
    touched.  When all hold the library is asked, once and with exactly the text.  A status
    other than success is reported with its code.  What the library answers becomes a hostname
    exactly when it is at most 253 bytes of labels of 1 to 63 letters, digits and inner hyphens,
    and the hostname returned is then that text; a text of 254 or 255 bytes gives the error for
    its length, and every other answer that for corrupt data. *)
Theorem idna_to_ascii_exact (hostname : TextView) (sink : DependencyLogSink L) w :
  exists r w', idna_to_ascii lib hostname sink w = Ret (r, w') /\ idn2_live (iw_native w') = idn2_live (iw_native w) /\
    (forall x, r = Ok x -> hostname_ok (AsciiHostname_value x)) /\
    match input_error hostname with
    | Some e => r = Err e /\ w' = w
    | None => exists storage status out n', c_string_read storage = Some hostname /\
       idn2_lookup_u8 lib storage (iw_native w) = Ret (status, out, n') /\
       (status <> IDN2_OK lib -> r = Err (idna_error (idn2_status lib status) (cast int32_t status))) /\
       (status = IDN2_OK lib -> match out with
          | None => r = Err (idna_error status_corrupt_data 0)
          | Some (_, value) => exists text, c_string_read value = Some text /\ idna_verdict text r
          end)
    end.
Proof.
  assert (Hrefuse : forall e, exists r w', Ret (Err e, w) = Ret (r, w') /\ idn2_live (iw_native w') = idn2_live (iw_native w) /\
    (forall x, r = Ok x -> hostname_ok (AsciiHostname_value x)) /\ r = Err e /\ w' = w) by (intros e; by exists (Err e), w).
  unfold idna_to_ascii, input_error. case_bool_decide as Hne; [rewrite decide_True by done; apply Hrefuse|]. rewrite (decide_False (P := hostname = [])) by done.
  destruct (to_c_string_spec utf8_input_storage_capacity hostname) as [Hfits Hstorage].
  destruct (TextView_to_c_string utf8_input_storage_capacity hostname) as [storage|e] eqn:Hc.
  2:{ pose proof (to_c_string_error _ _ Hc) as ->. case_decide as Hz; [rewrite decide_True by done; apply Hrefuse|]. rewrite decide_False by done. rewrite decide_True; [apply Hrefuse|].
      assert (~ (length hostname < utf8_input_storage_capacity)%nat) as Hlong; [|unfold utf8_input_storage_capacity in Hlong; lia].
      intros Hlt. by discriminate (proj2 Hfits (conj Hz Hlt)). }
  destruct (Hstorage storage eq_refl) as (_ & Hread & Hview & _). destruct (proj1 Hfits eq_refl) as [Hz Hlen]. rewrite Hview.
  rewrite (decide_False (P := Ascii.zero ∈ hostname)), (decide_False (P := (1020 < _)%nat)) by (done || (unfold utf8_input_storage_capacity in Hlen; lia)).
  destruct (existsb _ hostname) eqn:Hchars.
  { rewrite decide_False; [apply Hrefuse|]. intros P1%characters_exact. congruence. }
  apply characters_exact in Hchars. rewrite (decide_True (P := Forall permitted hostname)) by done.
  destruct (validate_input_label_structure hostname) as [[]|e] eqn:Hlabels.
  2:{ rewrite decide_False by (intros P1%structure_exact; congruence). rewrite (label_structure_error _ _ _ Hlabels). apply Hrefuse. }
  apply structure_exact in Hlabels. rewrite decide_True by done.
  destruct (lookup_run (cs_storage storage) hostname sink w Hread) as (status & out & n' & r & w' & E & Hrun & Hlive & H1 & H2).
  rewrite E, outcome_bind_Ret. exists r, w'. split; [exact Hrun|]. split; [done|]. split.
  - intros x ->. destruct (Z.eq_dec status (IDN2_OK lib)) as [Hok|Hok]; [|by discriminate (H1 Hok)]. specialize (H2 Hok).
    destruct out as [[address value]|]; [|done]. destruct H2 as (text & _ & Hv & Hbad). destruct (hostname_decided text) as [Ht|Ht]; [|by discriminate (Hbad Ht)].
    by destruct (Hv Ht) as (y & [= <-] & ->).
  - by exists (cs_storage storage), status, out, n'.
Qed.
End lookup.

(** ** A library that returns what it is given *)
Module Echo.
(** The next address and the outputs that are held. *)
Abbreviation Native := (Z * gset Z)%type.

Definition lookup (storage : list ascii) (n : Native) : outcome (Z * option (Z * list ascii) * Native) :=
  if decide (n.1 ∈ n.2) then Ret (-100, None, n) else
  match c_string_read storage with
  | None => Stop Undefined
  | Some text => Ret (0, Some (n.1, text ++ [Ascii.zero]), (n.1 + 1, {[n.1]} ∪ n.2))
  end.
Definition free (address : Z) (n : Native) : outcome Native :=
  if decide (address ∈ n.2) then Ret (n.1, n.2 ∖ {[address]}) else Stop Undefined.

Definition idn2 : Idn2 Native := {|
  IDN2_OK := 0; IDN2_MALLOC := -100; IDN2_NO_CODESET := -101; IDN2_TOO_BIG_DOMAIN := -205; IDN2_TOO_BIG_LABEL := -206; IDN2_PUNYCODE_BIG_OUTPUT := -203;
  IDN2_ENCODING_ERROR := -200; IDN2_PUNYCODE_BAD_INPUT := -202; IDN2_PUNYCODE_OVERFLOW := -204; IDN2_INVALID_ALABEL := -207; IDN2_UALABEL_MISMATCH := -208;
  IDN2_NOT_NFC := -300; IDN2_2HYPHEN := -301; IDN2_HYPHEN_STARTEND := -302; IDN2_LEADING_COMBINING := -303; IDN2_DISALLOWED := -304;
  IDN2_CONTEXTJ := -305; IDN2_CONTEXTJ_NO_RULE := -306; IDN2_CONTEXTO := -307; IDN2_CONTEXTO_NO_RULE := -308; IDN2_UNASSIGNED := -309;
  IDN2_BIDI := -310; IDN2_DOT_IN_LABEL := -311; IDN2_INVALID_TRANSITIONAL := -312; IDN2_INVALID_NONTRANSITIONAL := -313; IDN2_ALABEL_ROUNDTRIP_FAILED := -314;
  idn2_lookup_u8 := lookup; idn2_free := free |}.

Lemma read_no_nul l : forall t, c_string_read l = Some t -> Ascii.zero ∉ t.
Proof.
  induction l as [|c l IH]; intros t; cbn [c_string_read]; [done|]. case_bool_decide as Hc; [intros [= <-]; apply not_elem_of_nil|].
  intros (u & Hu & ->)%fmap_Some. apply not_elem_of_cons. split; [congruence|by apply IH].
Qed.

#[export] Instance laws : Idn2Laws idn2.
Proof.
  refine {| idn2_live := fun n : Native => n.2 |}; cbn [idn2 idn2_lookup_u8 idn2_free IDN2_OK].
  - intros n storage text Hs. unfold lookup. case_decide as Hd; [by eexists _, None, _|]. rewrite Hs. eexists _, (Some _), _. split; [done|].
    split; [done|]. split; [done|]. split; [done|]. exists text, []. split; [done|]. by eapply read_no_nul.
  - intros n address Ha. unfold free. rewrite decide_True by done. by eexists.
Defined.
End Echo.
#[export] Existing Instance Echo.laws.

Definition idna_world : IdnaWorld Echo.Native unit := MkIdnaWorld (1, ∅) tt.
Definition idna_sink : DependencyLogSink unit := MkDependencyLogSink None.
Definition demo_idna (text : string) : outcome (Result (list ascii)) :=
  '(r, w) ← idna_to_ascii Echo.idn2 (chars text) idna_sink idna_world;
  Ret (match r with Ok x => Ok (AsciiHostname_value x) | Err e => Err e end).

(** A label that ends in a hyphen is refused by the check of the output. *)
Example hostnames_decided :
  demo_idna "www.example" = Ret (Ok (chars "www.example")) /\ demo_idna "a..b" = Ret (Err hostname_empty_label_error) /\
  demo_idna "a_b" = Ret (Err hostname_character_error) /\ demo_idna "a-.b" = Ret (Err (idna_error status_corrupt_data 0)).
Proof. vm_compute. done. Qed.

Lemma idna_to_ascii_exact_witness :
  exists r w', idna_to_ascii Echo.idn2 (chars "www.example") idna_sink idna_world = Ret (r, w') /\ idn2_live (iw_native w') = ∅.
Proof.
  destruct (idna_to_ascii_exact (lib := Echo.idn2) (chars "www.example") idna_sink idna_world) as (r & w' & E & Hl & _).
  exists r, w'. split; [exact E|exact Hl].
Defined.
