(* ===== verification/GeoIp.v ===== *)
(** * GeoIP databases

    Models [src/adapters/contract/laghu/adapters/geoip.hpp] and [src/adapters/geoip.cpp]: the
    sources that a configuration permits, the handles of open databases, and lookups with the
    copy of what they find.

    Libmaxminddb is a record of functions and constants over a state [N] of its own and entries
    [E].  An open database is known by the address of the state it is part of.  The value at a
    path of an entry is absent, a text, a 32-bit number or of another type. *)
From S2P Require Import Prelude Contract CheckedArithmetic Identifiers Views Dependencies TextOps.
From Stdlib Require Import ZArith Lia String Ascii.
From stdpp Require Import base numbers list option gmap fin_map_dom.

Set Default Goal Selector "!".
#[local] Open Scope Z_scope.

Definition GenerationId := StrongIdentifier.

Inductive GeoIpAddressFamily := GeoIp_ipv4 | GeoIp_ipv6 | GeoIp_unlisted (value : Z).
Record GeoIpAddress := MkGeoIpAddress { ga_family : GeoIpAddressFamily; ga_bytes : list Z }.

Record GeoIpText := MkGeoIpText { gt_bytes : list ascii; gt_size : Z; gt_known : bool }.
Definition GeoIpText_default (Capacity : nat) : GeoIpText := MkGeoIpText (replicate Capacity Ascii.zero) 0 false.
Definition GeoIpText_value (this : GeoIpText) : list ascii := take (Z.to_nat (gt_size this)) (gt_bytes this).

Definition country_capacity : nat := 2.
Definition subdivision_capacity : nat := 96.
Definition city_capacity : nat := 128.

Record GeoIpAsn := MkGeoIpAsn { asn_number : Z; asn_known : bool }.
Record GeoIpResult := MkGeoIpResult {
  gr_generation : GenerationId; gr_country : GeoIpText; gr_subdivision : GeoIpText; gr_city : GeoIpText; gr_asn : GeoIpAsn; gr_known : bool }.
Definition GeoIpResult_construct (generation : GenerationId) : GeoIpResult :=
  MkGeoIpResult generation (GeoIpText_default country_capacity) (GeoIpText_default subdivision_capacity) (GeoIpText_default city_capacity)
    (MkGeoIpAsn 0 false) false.

Definition geoip_path_error := core_error invalid_input "GeoIP reload path must be an absolute normalized .mmdb path".
Definition geoip_allowlist_error := core_error invalid_input "GeoIP reload path is not in the configured allowlist".
Definition geoip_allocation_error := core_error exhaustion "GeoIP handle allocation is exhausted".
Definition geoip_inactive_error := core_error invalid_state "GeoIP database handle is inactive".
Definition geoip_tail_error := core_error invalid_input "IPv4 GeoIP address has nonzero tail bytes".
Definition geoip_family_error := core_error invalid_input "GeoIP address family is invalid".
Definition geoip_text_error := core_error invalid_range "GeoIP text exceeds Laghu field capacity".

(** ** Sources *)
Definition path_capacity : nat := 4096.

Record GeoIpReloadSource := MkGeoIpReloadSource { rs_path : StaticCString }.

Definition valid_configured_path (path : list ascii) : bool :=
  if bool_decide (path = []) || negb (bool_decide (head path = Some "/"%char)) || ends_with (chars "/") path ||
     negb (ends_with (chars ".mmdb") path) then false else
  if contains (chars "//") path || contains (chars "/./") path || contains (chars "/../") path ||
     ends_with (chars "/.") path || ends_with (chars "/..") path then false else true.

Definition GeoIpReloadSource_from_configuration (configured_path : TextView) (allowed_paths : list TextView) : Result GeoIpReloadSource :=
  path ← TextView_to_c_string path_capacity configured_path;
  if negb (valid_configured_path (StaticCString_view path)) then Err geoip_path_error else
  if negb (existsb (fun candidate => bool_decide (candidate = StaticCString_view path)) allowed_paths) then Err geoip_allowlist_error else
  Ok (MkGeoIpReloadSource path).

(** ** Databases *)
Inductive NativeAddress := sockaddr_in (bytes : list Z) | sockaddr_in6 (bytes : list Z).
Inductive EntryData := data_utf8_string (text : list ascii) | data_uint32 (value : Z) | data_of_other_type.

Section databases.
Context {N E L : Type}.

(** [MMDB_DECODER_LIMIT_ERROR] is not defined by every version.  A lookup gives its status and
    the entry it found. *)
Record Mmdb := MkMmdb {
  MMDB_SUCCESS : Z; MMDB_FILE_OPEN_ERROR : Z; MMDB_IO_ERROR : Z; MMDB_OUT_OF_MEMORY_ERROR : Z; MMDB_INVALID_DATA_ERROR : Z;
  MMDB_INVALID_METADATA_ERROR : Z; MMDB_CORRUPT_SEARCH_TREE_ERROR : Z; MMDB_UNKNOWN_DATABASE_FORMAT_ERROR : Z;
  MMDB_DECODER_LIMIT_ERROR : option Z; MMDB_INVALID_LOOKUP_PATH_ERROR : Z; MMDB_LOOKUP_PATH_DOES_NOT_MATCH_DATA_ERROR : Z;
  MMDB_INVALID_NODE_NUMBER_ERROR : Z; MMDB_IPV6_LOOKUP_IN_IPV4_DATABASE_ERROR : Z; MMDB_INVALID_NETWORK_ADDRESS_ERROR : Z;
  MMDB_open : list ascii -> nat -> N -> outcome (Z * N);
  MMDB_close : nat -> N -> outcome N;
  MMDB_lookup_sockaddr : nat -> NativeAddress -> N -> outcome (option E * Z);
  MMDB_aget_value : E -> list string -> N -> outcome (Z * option EntryData) }.
Context (lib : Mmdb).

Record GeoIpState := MkGeoIpState { gs_generation : GenerationId; gs_log : DependencyLogSink L }.
Record GeoIpDatabase := MkGeoIpDatabase { gd_state : option nat }.
Definition GeoIpDatabase_default : GeoIpDatabase := MkGeoIpDatabase None.

(** States are objects found by their addresses. *)
Record GeoIpWorld := MkGeoIpWorld { gw_native : N; gw_log : L; gw_states : gmap nat GeoIpState }.
Implicit Types (w : GeoIpWorld).

Definition mmdb_status_for (status : Z) : DependencyStatus :=
  if (status =? MMDB_FILE_OPEN_ERROR lib) || (status =? MMDB_IO_ERROR lib) then status_io else
  if status =? MMDB_OUT_OF_MEMORY_ERROR lib then status_exhaustion else
  if (status =? MMDB_INVALID_DATA_ERROR lib) || (status =? MMDB_INVALID_METADATA_ERROR lib) || (status =? MMDB_CORRUPT_SEARCH_TREE_ERROR lib) ||
     (status =? MMDB_UNKNOWN_DATABASE_FORMAT_ERROR lib) || bool_decide (MMDB_DECODER_LIMIT_ERROR lib = Some status) then status_corrupt_data else
  if (status =? MMDB_INVALID_LOOKUP_PATH_ERROR lib) || (status =? MMDB_LOOKUP_PATH_DOES_NOT_MATCH_DATA_ERROR lib) ||
     (status =? MMDB_INVALID_NODE_NUMBER_ERROR lib) || (status =? MMDB_IPV6_LOOKUP_IN_IPV4_DATABASE_ERROR lib) ||
     (status =? MMDB_INVALID_NETWORK_ADDRESS_ERROR lib) then status_invalid_input else status_unknown.

Definition mmdb_error (operation : DependencyOperation) (status : Z) : Error :=
  normalize_dependency_error id_libmaxminddb operation (mmdb_status_for status) (cast int32_t status).
Definition geoip_native_error (operation : DependencyOperation) (status : Z) (sink : DependencyLogSink L) w : Error * GeoIpWorld :=
  let e := mmdb_error operation status in
  (e, MkGeoIpWorld (gw_native w) (log_dependency_error sink (gw_log w) e) (gw_states w)).

(** The text is left as it is when there is none. *)
Definition copy_text (entry : E) (output : GeoIpText) (path : list string) (sink : DependencyLogSink L) w : outcome (Result GeoIpText * GeoIpWorld) :=
  '(status, data) ← MMDB_aget_value lib entry path (gw_native w);
  if status =? MMDB_LOOKUP_PATH_DOES_NOT_MATCH_DATA_ERROR lib then Ret (Ok output, w) else
  if negb (status =? MMDB_SUCCESS lib) then let '(e, w) := geoip_native_error op_geoip_lookup status sink w in Ret (Err e, w) else
  match data with
  | None => Ret (Ok output, w)
  | Some (data_utf8_string text) =>
      if Z.of_nat (length (gt_bytes output)) <? Z.of_nat (length text) then Ret (Err geoip_text_error, w) else
      bytes ← copy_into text 0 (gt_bytes output);
      Ret (Ok (MkGeoIpText bytes (cast uint16_t (Z.of_nat (length text))) true), w)
  | Some _ => let '(e, w) := geoip_native_error op_geoip_lookup (MMDB_INVALID_DATA_ERROR lib) sink w in Ret (Err e, w)
  end.

Definition copy_asn (entry : E) (output : GeoIpAsn) (sink : DependencyLogSink L) w : outcome (Result GeoIpAsn * GeoIpWorld) :=
  '(status, data) ← MMDB_aget_value lib entry ["autonomous_system_number"%string] (gw_native w);
  if status =? MMDB_LOOKUP_PATH_DOES_NOT_MATCH_DATA_ERROR lib then Ret (Ok output, w) else
  if negb (status =? MMDB_SUCCESS lib) then let '(e, w) := geoip_native_error op_geoip_lookup status sink w in Ret (Err e, w) else
  match data with
  | None => Ret (Ok output, w)
  | Some (data_uint32 value) => Ret (Ok (MkGeoIpAsn value true), w)
  | Some _ => let '(e, w) := geoip_native_error op_geoip_lookup (MMDB_INVALID_DATA_ERROR lib) sink w in Ret (Err e, w)
  end.

(** [allocated] is what [operator new] returns. *)
Definition GeoIpDatabase_open_for_reload (source : GeoIpReloadSource) (generation : GenerationId) (log_sink : DependencyLogSink L)
    (allocated : option nat) w : outcome (Result GeoIpDatabase * GeoIpWorld) :=
  match allocated with
  | None => Ret (Err geoip_allocation_error, w)
  | Some state =>
      let w := MkGeoIpWorld (gw_native w) (gw_log w) (<[state := MkGeoIpState generation log_sink]> (gw_states w)) in
      '(status, n) ← MMDB_open lib (cs_storage (rs_path source)) state (gw_native w);
      let w := MkGeoIpWorld n (gw_log w) (gw_states w) in
      if negb (status =? MMDB_SUCCESS lib) then
        let '(e, w) := geoip_native_error op_geoip_open status log_sink w in
        Ret (Err e, MkGeoIpWorld (gw_native w) (gw_log w) (delete state (gw_states w)))
      else Ret (Ok (MkGeoIpDatabase (Some state)), w)
  end.

Definition native_address (address : GeoIpAddress) : Result NativeAddress :=
  match ga_family address with
  | GeoIp_ipv4 =>
      if existsb (fun value => negb (value =? 0)) (drop 4 (ga_bytes address)) then Err geoip_tail_error
      else Ok (sockaddr_in (take 4 (ga_bytes address)))
  | GeoIp_ipv6 => Ok (sockaddr_in6 (ga_bytes address))
  | GeoIp_unlisted _ => Err geoip_family_error
  end.

Definition country_path : list string := ["country"; "iso_code"]%string.
Definition subdivision_path : list string := ["subdivisions"; "0"; "names"; "en"]%string.
Definition city_path : list string := ["city"; "names"; "en"]%string.

(** The fields of an entry, in the order of the code. *)
Definition copy_entry (entry : E) (result : GeoIpResult) (sink : DependencyLogSink L) w : outcome (Result GeoIpResult * GeoIpWorld) :=
  '(country, w) ← copy_text entry (gr_country result) country_path sink w;
  match country with Err e => Ret (Err e, w) | Ok country =>
  '(subdivision, w) ← copy_text entry (gr_subdivision result) subdivision_path sink w;
  match subdivision with Err e => Ret (Err e, w) | Ok subdivision =>
  '(city, w) ← copy_text entry (gr_city result) city_path sink w;
  match city with Err e => Ret (Err e, w) | Ok city =>
  '(asn, w) ← copy_asn entry (gr_asn result) sink w;
  match asn with Err e => Ret (Err e, w) | Ok asn =>
  Ret (Ok (MkGeoIpResult (gr_generation result) country subdivision city asn true), w)
  end end end end.

Definition GeoIpDatabase_lookup (this : GeoIpDatabase) (address : GeoIpAddress) w : outcome (Result GeoIpResult * GeoIpWorld) :=
  match gd_state this with
  | None => Ret (Err geoip_inactive_error, w)
  | Some a =>
    match gw_states w !! a with
    | None => Stop Undefined
    | Some state =>
      match native_address address with
      | Err e => Ret (Err e, w)
      | Ok native =>
        '(found, status) ← MMDB_lookup_sockaddr lib a native (gw_native w);
        if negb (status =? MMDB_SUCCESS lib) then let '(e, w) := geoip_native_error op_geoip_lookup status (gs_log state) w in Ret (Err e, w) else
        let result := GeoIpResult_construct (gs_generation state) in
        match found with None => Ret (Ok result, w) | Some entry => copy_entry entry result (gs_log state) w end
      end
    end
  end.

Definition GeoIpDatabase_generation (this : GeoIpDatabase) w : outcome (Result GenerationId) :=
  match gd_state this with
  | None => Ret (Err geoip_inactive_error)
  | Some a => match gw_states w !! a with None => Stop Undefined | Some state => Ret (Ok (gs_generation state)) end
  end.

Definition GeoIpDatabase_release (this : GeoIpDatabase) w : outcome (GeoIpDatabase * GeoIpWorld) :=
  match gd_state this with
  | None => Ret (this, w)
  | Some a =>
      match gw_states w !! a with
      | None => Stop Undefined
      | Some _ =>
          n ← MMDB_close lib a (gw_native w);
          Ret (MkGeoIpDatabase None, MkGeoIpWorld n (gw_log w) (delete a (gw_states w)))
      end
  end.

(** [this] and what is left of [other]. *)
Definition GeoIpDatabase_move_construct (other : GeoIpDatabase) : GeoIpDatabase * GeoIpDatabase :=
  (MkGeoIpDatabase (gd_state other), MkGeoIpDatabase None).

(** Between two distinct handles; self-assignment does nothing. *)
Definition GeoIpDatabase_move_assign (this other : GeoIpDatabase) w : outcome (GeoIpDatabase * GeoIpDatabase * GeoIpWorld) :=
  '(this, w) ← GeoIpDatabase_release this w;
  Ret (MkGeoIpDatabase (gd_state other), MkGeoIpDatabase None, w).

Definition GeoIpDatabase_destroy (this : GeoIpDatabase) w : outcome GeoIpWorld :=
  '(_, w) ← GeoIpDatabase_release this w; Ret w.
End databases.
Arguments Mmdb : clear implicits.
Arguments GeoIpWorld : clear implicits.
Arguments GeoIpState : clear implicits.

(** * Permitted sources, lookups and handles of GeoIP databases

    The paths a configuration may name, what a lookup reports of the entry it finds, and
    programs that hold any number of databases. *)

(** ** Paths *)

(** An absolute path in normal form whose last component has the extension. *)
Definition normal_path (p : list ascii) : Prop :=
  exists parts name, p = chars "/" ++ join_with "/" (parts ++ [name ++ chars ".mmdb"]) /\
    Forall (fun part => ("/"%char ∉ part) /\ part <> [] /\ part <> chars "." /\ part <> chars "..") (parts ++ [name ++ chars ".mmdb"]).

Lemma valid_path_exact p : valid_configured_path p = true <-> normal_path p.
Proof.
  unfold valid_configured_path. destruct p as [|c t].
  { split; [done|]. by intros (parts & name & E & _). }
  rewrite bool_decide_eq_false_2 by done. cbn [head orb]. destruct (decide (c = "/"%char)) as [->|Hc].
  2:{ rewrite bool_decide_eq_false_2 by congruence. split; [done|]. intros (parts & name & E & _). by injection E as -> _. }
  rewrite bool_decide_eq_true_2 by done. cbn [negb orb].
  assert (Hempty : "/"%char ∉ chars "") by apply not_elem_of_nil.
  assert (Hdot : "/"%char ∉ chars ".") by (rewrite list_elem_of_In; cbn; intuition discriminate).
  assert (Hdots : "/"%char ∉ chars "..") by (rewrite list_elem_of_In; cbn; intuition discriminate).
  assert (H1 : [] ∈ split_on "/" t <-> contains (chars "//") ("/"%char :: t) = true \/ ends_with (chars "/") ("/"%char :: t) = true)
    by exact (part_iff "/" (chars "") t Hempty).
  assert (H2 : chars "." ∈ split_on "/" t <-> contains (chars "/./") ("/"%char :: t) = true \/ ends_with (chars "/.") ("/"%char :: t) = true)
    by exact (part_iff "/" (chars ".") t Hdot).
  assert (H3 : chars ".." ∈ split_on "/" t <-> contains (chars "/../") ("/"%char :: t) = true \/ ends_with (chars "/..") ("/"%char :: t) = true)
    by exact (part_iff "/" (chars "..") t Hdots).
  destruct (last_part "/" t) as (before & l & Hsplit & Hl & front & Hfront).
  assert (Hext : ends_with (chars ".mmdb") ("/"%char :: t) = ends_with (chars ".mmdb") l).
  { rewrite Hfront. apply ends_with_part. rewrite list_elem_of_In. cbn. intuition discriminate. }
  rewrite Hext. split.
  - intros H. destruct (ends_with (chars ".mmdb") l) eqn:Hm; [|by rewrite orb_true_r in H].
    apply ends_with_iff in Hm as [name ->]. exists before, name. rewrite <- Hsplit, join_split. split; [done|].
    destruct (ends_with (chars "/") _) eqn:E1; [done|]. cbn [orb negb] in H. destruct (_ || _) eqn:E2 in H; [done|]. rewrite !orb_false_iff in E2. destruct E2 as ((((A & B) & D) & F) & G).
    apply list.Forall_forall. intros part Hpart. split; [|split; [|split]].
    + pose proof (split_on_parts "/" t) as Hp. rewrite list.Forall_forall in Hp. by apply Hp.
    + intros ->. apply H1 in Hpart as [Hpart|Hpart]; congruence.
    + intros ->. apply H2 in Hpart as [Hpart|Hpart]; congruence.
    + intros ->. apply H3 in Hpart as [Hpart|Hpart]; congruence.
  - intros (parts & name & E & Hparts). injection E as E.
    assert (Hs : split_on "/" t = parts ++ [name ++ chars ".mmdb"]).
    { rewrite E. apply split_join; [by destruct parts|]. eapply list.Forall_impl; [exact Hparts|]. by intros part (? & _). }
    rewrite Hs in Hsplit. apply app_inj_tail in Hsplit as [-> <-].
    assert (Hm : ends_with (chars ".mmdb") (name ++ chars ".mmdb") = true) by (apply ends_with_iff; eauto). rewrite Hm. cbn [negb orb].
    assert (Hno : forall part, (part = [] \/ part = chars "." \/ part = chars "..") -> part ∉ split_on "/" t).
    { intros part Hpart Hin. rewrite Hs in Hin. rewrite list.Forall_forall in Hparts. destruct (Hparts _ Hin) as (_ & ? & ? & ?). by destruct Hpart as [|[|]]. }
    assert (N1 := Hno _ (or_introl eq_refl)). assert (N2 := Hno _ (or_intror (or_introl eq_refl))). assert (N3 := Hno _ (or_intror (or_intror eq_refl))).
    rewrite H1 in N1. rewrite H2 in N2. rewrite H3 in N3.
    destruct (ends_with (chars "/") _); [tauto|]. cbn [orb].
    destruct (contains (chars "//") _); [tauto|]. destruct (contains (chars "/./") _); [tauto|]. destruct (contains (chars "/../") _); [tauto|].
    destruct (ends_with (chars "/.") _); [tauto|]. destruct (ends_with (chars "/..") _); [tauto|]. done.
Qed.

(** A GeoIP source is accepted exactly for a path of less than 4096 bytes without NUL that is
    on the allowlist, absolute, with components that are not empty, "." or "..", and with the
    extension ".mmdb" in the last one; and the path that will be opened is that path. *)
Theorem geoip_source_exact (path : TextView) (allowed : list TextView) :
  (forall source, GeoIpReloadSource_from_configuration path allowed = Ok source -> c_string_read (cs_storage (rs_path source)) = Some path) /\
  ((exists source, GeoIpReloadSource_from_configuration path allowed = Ok source) <->
     (Ascii.zero ∉ path) /\ (length path < 4096)%nat /\ path ∈ allowed /\ normal_path path).
Proof.
  unfold GeoIpReloadSource_from_configuration. destruct (to_c_string_spec path_capacity path) as [Hfits Hstorage].
  destruct (TextView_to_c_string path_capacity path) as [storage|e]; cbn [mbind Result_bind].
  2:{ split; [done|]. split; [by intros []|]. intros (H1 & H2 & _). by discriminate (proj2 Hfits (conj H1 H2)). }
  destruct (Hstorage storage eq_refl) as (_ & Hread & Hview & _). destruct (proj1 Hfits eq_refl) as [Hz Hlen]. rewrite Hview.
  rewrite <- valid_path_exact. destruct (valid_configured_path path); cbn [negb]; [|split; [done|]; split; [by intros []|by intros (_ & _ & _ & ?)]].
  assert (Hin : existsb (fun candidate : list ascii => bool_decide (candidate = path)) allowed = true <-> path ∈ allowed).
  { rewrite existsb_exists. setoid_rewrite <- list_elem_of_In. split; [intros (x & Hx & E%bool_decide_eq_true); by subst x|].
    intros H. exists path. split; [done|]. by apply bool_decide_eq_true. }
  destruct (existsb (fun candidate : list ascii => bool_decide (candidate = path)) allowed); cbn [negb].
  - split; [intros source E; injection E as <-; exact Hread|]. split; [|by eexists]. intros _. split; [done|]. split; [done|]. split; [by apply Hin|done].
  - split; [done|]. split; [by intros []|]. intros (_ & _ & H & _). by apply Hin in H.
Qed.

(** ** Lookups *)

(** Open databases are held until they are closed; calls on open databases and on the entries
    found in them return. *)
Class MmdbLaws {N E : Type} (lib : Mmdb N E) := {
  mmdb_open_at : N -> gset nat;
  mmdb_entry : N -> E -> Prop;
  law_mmdb_open n path a : a ∉ mmdb_open_at n -> is_Some (c_string_read path) ->
    exists status n', MMDB_open lib path a n = Ret (status, n') /\
      mmdb_open_at n' = if status =? MMDB_SUCCESS lib then {[a]} ∪ mmdb_open_at n else mmdb_open_at n;
  law_mmdb_close n a : a ∈ mmdb_open_at n -> exists n', MMDB_close lib a n = Ret n' /\ mmdb_open_at n' = mmdb_open_at n ∖ {[a]};
  law_mmdb_lookup n a address : a ∈ mmdb_open_at n ->
    exists found status, MMDB_lookup_sockaddr lib a address n = Ret (found, status) /\ forall e, found = Some e -> mmdb_entry n e;
  law_mmdb_value n e path : mmdb_entry n e -> exists status data, MMDB_aget_value lib e path n = Ret (status, data) }.

Section lookups.
Context {N E L : Type} {lib : Mmdb N E} {laws : MmdbLaws lib}.
Implicit Types (w : GeoIpWorld N L).

(** The value of a field for the answer of the library: absent, a value, or an error. *)
Definition field_answer {A} (accept : EntryData -> option (Result A)) (answer : Z * option EntryData) : Result (option A) :=
  let '(status, data) := answer in
  if status =? MMDB_LOOKUP_PATH_DOES_NOT_MATCH_DATA_ERROR lib then Ok None else
  if negb (status =? MMDB_SUCCESS lib) then Err (mmdb_error lib op_geoip_lookup status) else
  match data with
  | None => Ok None
  | Some d =>
      match accept d with
      | None => Err (mmdb_error lib op_geoip_lookup (MMDB_INVALID_DATA_ERROR lib))
      | Some (Ok a) => Ok (Some a)
      | Some (Err e) => Err e
      end
  end.
Definition accept_text (capacity : nat) (d : EntryData) : option (Result (list ascii)) :=
  match d with
  | data_utf8_string t => Some (if bool_decide (length t <= capacity)%nat then Ok t else Err geoip_text_error)
  | _ => None
  end.
Definition accept_number (d : EntryData) : option (Result Z) := match d with data_uint32 v => Some (Ok v) | _ => None end.

(** What a field of the result says. *)
Definition text_says (capacity : nat) (g : GeoIpText) (o : option (list ascii)) : Prop :=
  length (gt_bytes g) = capacity /\ gt_known g = bool_decide (is_Some o) /\ GeoIpText_value g = default [] o.
Definition asn_says (g : GeoIpAsn) (o : option Z) : Prop := asn_known g = bool_decide (is_Some o) /\ asn_number g = default 0 o.

(** The library and the states are as before. *)
Definition untouched w w' : Prop := gw_native w' = gw_native w /\ gw_states w' = gw_states w.

Lemma copy_text_run e capacity path sink w : mmdb_entry (gw_native w) e -> Z.of_nat capacity <= 65535 ->
  exists answer r w', MMDB_aget_value lib e path (gw_native w) = Ret answer /\
    copy_text lib e (GeoIpText_default capacity) path sink w = Ret (r, w') /\ untouched w w' /\
    match field_answer (accept_text capacity) answer, r with
    | Ok o, Ok g => text_says capacity g o
    | Err x, Err y => x = y
    | _, _ => False
    end.
Proof.
  intros He Hcap. destruct (law_mmdb_value (gw_native w) e path He) as (status & data & E1). exists (status, data). unfold copy_text. rewrite E1, outcome_bind_Ret.
  assert (Hdefault : text_says capacity (GeoIpText_default capacity) None).
  { split; [apply length_replicate|]. by split. }
  cbn [field_answer]. destruct (status =? _); [by eexists (Ok _), w|]. destruct (negb (status =? _)); [by eexists (Err _), _|].
  destruct data as [[t|v|]|]; [|by eexists (Err _), _|by eexists (Err _), _|by eexists (Ok _), w].
  cbn [accept_text GeoIpText_default gt_bytes]. rewrite length_replicate. case_bool_decide as Ht.
  - rewrite (proj2 (Z.ltb_ge _ _)) by lia. rewrite copy_into_run by (rewrite ?length_replicate; lia). rewrite outcome_bind_Ret.
    eexists (Ok _), w. split; [done|]. split; [done|]. split; [done|]. unfold text_says, GeoIpText_value. cbn [gt_bytes gt_size gt_known].
    rewrite cast_in_range by (done || (unfold int_min, int_max; cbn; lia)). rewrite Nat2Z.id, drop_replicate.
    change (take (Z.to_nat 0) _ ++ t ++ ?x) with (t ++ x). rewrite length_app, length_replicate, take_app_length. split; [lia|done].
  - rewrite (proj2 (Z.ltb_lt _ _)) by lia. by eexists (Err _), w.
Qed.

Lemma copy_asn_run e sink w : mmdb_entry (gw_native w) e ->
  exists answer r w', MMDB_aget_value lib e ["autonomous_system_number"%string] (gw_native w) = Ret answer /\
    copy_asn lib e (MkGeoIpAsn 0 false) sink w = Ret (r, w') /\ untouched w w' /\
    match field_answer accept_number answer, r with
    | Ok o, Ok g => asn_says g o
    | Err x, Err y => x = y
    | _, _ => False
    end.
Proof.
  intros He. destruct (law_mmdb_value (gw_native w) e ["autonomous_system_number"%string] He) as (status & data & E1). exists (status, data). unfold copy_asn. rewrite E1, outcome_bind_Ret.
  cbn [field_answer]. destruct (status =? _); [by eexists (Ok _), w|]. destruct (negb (status =? _)); [by eexists (Err _), _|].
  destruct data as [[t|v|]|]; [by eexists (Err _), _|by eexists (Ok _), w|by eexists (Err _), _|by eexists (Ok _), w].
Qed.

(** An entry as the fields the adapter reads from it, or the first error. *)
Definition entry_answer (country subdivision city asn : Z * option EntryData) : Result (option (list ascii) * option (list ascii) * option (list ascii) * option Z) :=
  c ← field_answer (accept_text country_capacity) country;
  s ← field_answer (accept_text subdivision_capacity) subdivision;
  t ← field_answer (accept_text city_capacity) city;
  a ← field_answer accept_number asn;
  Ok (c, s, t, a).

Definition result_says (r : GeoIpResult) (fields : option (list ascii) * option (list ascii) * option (list ascii) * option Z) : Prop :=
  let '(c, s, t, a) := fields in
  text_says country_capacity (gr_country r) c /\ text_says subdivision_capacity (gr_subdivision r) s /\ text_says city_capacity (gr_city r) t /\
  asn_says (gr_asn r) a.

Lemma copy_entry_run e generation sink w : mmdb_entry (gw_native w) e ->
  exists country subdivision city asn r w',
    MMDB_aget_value lib e country_path (gw_native w) = Ret country /\ MMDB_aget_value lib e subdivision_path (gw_native w) = Ret subdivision /\
    MMDB_aget_value lib e city_path (gw_native w) = Ret city /\ MMDB_aget_value lib e ["autonomous_system_number"%string] (gw_native w) = Ret asn /\
    copy_entry lib e (GeoIpResult_construct generation) sink w = Ret (r, w') /\ untouched w w' /\
    match entry_answer country subdivision city asn, r with
    | Ok fields, Ok g => result_says g fields /\ gr_generation g = generation /\ gr_known g = true
    | Err x, Err y => x = y
    | _, _ => False
    end.
Proof.
  intros He. unfold copy_entry, entry_answer.
  destruct (copy_text_run e country_capacity country_path sink w He ltac:(done)) as (country & r1 & w1 & E1 & R1 & [U1 V1] & H1).
  destruct (copy_text_run e subdivision_capacity subdivision_path sink w1 ltac:(by rewrite U1) ltac:(done)) as (subdivision & r2 & w2 & E2 & R2 & [U2 V2] & H2).
  destruct (copy_text_run e city_capacity city_path sink w2 ltac:(by rewrite U2, U1) ltac:(done)) as (city & r3 & w3 & E3 & R3 & [U3 V3] & H3).
  destruct (copy_asn_run e sink w3 ltac:(by rewrite U3, U2, U1)) as (asn & r4 & w4 & E4 & R4 & [U4 V4] & H4).
  rewrite U1 in E2. rewrite U2, U1 in E3. rewrite U3, U2, U1 in E4. exists country, subdivision, city, asn.
  cbn [GeoIpResult_construct gr_country gr_subdivision gr_city gr_asn gr_generation]. rewrite R1, outcome_bind_Ret.
  destruct r1 as [g1|x1]; destruct (field_answer (accept_text country_capacity) country) as [o1|y1]; try done; cbn [mbind Result_bind].
  2:{ subst y1. eexists (Err _), w1. by do 5 (split; [done|]). }
  rewrite R2, outcome_bind_Ret. destruct r2 as [g2|x2]; destruct (field_answer (accept_text subdivision_capacity) subdivision) as [o2|y2]; try done; cbn [mbind Result_bind].
  2:{ subst y2. eexists (Err _), w2. do 5 (split; [done|]). by split; [split; congruence|]. }
  rewrite R3, outcome_bind_Ret. destruct r3 as [g3|x3]; destruct (field_answer (accept_text city_capacity) city) as [o3|y3]; try done; cbn [mbind Result_bind].
  2:{ subst y3. eexists (Err _), w3. do 5 (split; [done|]). by split; [split; congruence|]. }
  rewrite R4, outcome_bind_Ret. destruct r4 as [g4|x4]; destruct (field_answer accept_number asn) as [o4|y4]; try done; cbn [mbind Result_bind].
  2:{ subst y4. eexists (Err _), w4. do 5 (split; [done|]). by split; [split; congruence|]. }
  eexists (Ok _), w4. do 5 (split; [done|]). by split; [split; congruence|].
Qed.
End lookups.
