(* ===== verification/GeoIpClient.v ===== *)
(** * Programs with GeoIP databases

    Programs that open, look up, move and close databases in any order: every open database
    belongs to one handle, and lookups report what the library answers. *)
From S2P Require Import Prelude Contract CheckedArithmetic Identifiers Views Dependencies TextOps GeoIp.
From Stdlib Require Import ZArith Lia String Ascii.
From stdpp Require Import base numbers list option gmap fin_map_dom.

Set Default Goal Selector "!".
#[local] Open Scope Z_scope.

Section clients.
Context {N E L : Type} {lib : Mmdb N E} {laws : MmdbLaws lib}.
Abbreviation World := (GeoIpWorld N L).
Implicit Types (w : World).

Record GeoIpClient := MkGeoIpClient { gc_handles : gmap nat GeoIpDatabase; gc_world : World }.

Inductive geoip_op :=
  | GDefault (x : nat)
  | GOpen (x : nat) (source : GeoIpReloadSource) (generation : GenerationId) (log : DependencyLogSink L) (allocated : option nat)
  | GLookup (x : nat) (address : GeoIpAddress)
  | GGeneration (x : nat)
  | GMove (x y : nat)
  | GAssign (x y : nat)
  | GDestroy (x : nat).

(** [GMove x y] constructs [y] from [x]; [GAssign x y] assigns [y] to [x]. *)
Definition exec_geoip (c : GeoIpClient) (op : geoip_op) : outcome GeoIpClient :=
  let w := gc_world c in
  match op with
  | GDefault x => Ret (MkGeoIpClient (<[x := GeoIpDatabase_default]> (gc_handles c)) w)
  | GOpen x source generation log allocated =>
      '(r, w) ← GeoIpDatabase_open_for_reload lib source generation log allocated w;
      Ret (MkGeoIpClient (match r with Ok d => <[x := d]> (gc_handles c) | Err _ => gc_handles c end) w)
  | GLookup x address =>
      match gc_handles c !! x with
      | None => Stop Undefined
      | Some d => '(_, w) ← GeoIpDatabase_lookup lib d address w; Ret (MkGeoIpClient (gc_handles c) w)
      end
  | GGeneration x =>
      match gc_handles c !! x with
      | None => Stop Undefined
      | Some d => _ ← GeoIpDatabase_generation d w; Ret c
      end
  | GMove x y =>
      match gc_handles c !! x with
      | None => Stop Undefined
      | Some d => let '(t, d) := GeoIpDatabase_move_construct d in Ret (MkGeoIpClient (<[y := t]> (<[x := d]> (gc_handles c))) w)
      end
  | GAssign x y =>
      match gc_handles c !! x, gc_handles c !! y with
      | Some d, Some t => '(d, t, w) ← GeoIpDatabase_move_assign lib d t w; Ret (MkGeoIpClient (<[x := d]> (<[y := t]> (gc_handles c))) w)
      | _, _ => Stop Undefined
      end
  | GDestroy x =>
      match gc_handles c !! x with
      | None => Stop Undefined
      | Some d => w ← GeoIpDatabase_destroy lib d w; Ret (MkGeoIpClient (delete x (gc_handles c)) w)
      end
  end.

(** [operator new] returns storage that is not in use, and sources come from a configuration. *)
Definition geoip_legal (c : GeoIpClient) (op : geoip_op) : Prop :=
  match op with
  | GDefault x => gc_handles c !! x = None
  | GOpen x source _ _ allocated => gc_handles c !! x = None /\ (forall a, allocated = Some a -> gw_states (gc_world c) !! a = None) /\
      exists path allowed, GeoIpReloadSource_from_configuration path allowed = Ok source
  | GLookup x _ | GGeneration x | GDestroy x => is_Some (gc_handles c !! x)
  | GMove x y => is_Some (gc_handles c !! x) /\ gc_handles c !! y = None
  | GAssign x y => is_Some (gc_handles c !! x) /\ is_Some (gc_handles c !! y) /\ x <> y
  end.

Record geoip_ok (c : GeoIpClient) : Prop := {
  go_open : mmdb_open_at (gw_native (gc_world c)) = dom (gw_states (gc_world c));
  go_handles : forall x d a, gc_handles c !! x = Some d -> gd_state d = Some a -> is_Some (gw_states (gc_world c) !! a);
  go_apart : forall x y d t a, gc_handles c !! x = Some d -> gc_handles c !! y = Some t -> gd_state d = Some a -> gd_state t = Some a -> x = y;
  go_owned : forall a, is_Some (gw_states (gc_world c) !! a) -> exists x d, gc_handles c !! x = Some d /\ gd_state d = Some a }.

Lemma untouched_ok c w' : geoip_ok c -> untouched (gc_world c) w' -> geoip_ok (MkGeoIpClient (gc_handles c) w').
Proof. intros [H1 H2 H3 H4] [U1 U2]. split; cbn [gc_world gc_handles]; rewrite ?U1, ?U2; done. Qed.

Lemma source_reads source path allowed : GeoIpReloadSource_from_configuration path allowed = Ok source -> is_Some (c_string_read (cs_storage (rs_path source))).
Proof.
  unfold GeoIpReloadSource_from_configuration. destruct (to_c_string_spec path_capacity path) as [_ Hs].
  destruct (TextView_to_c_string path_capacity path) as [storage|]; cbn [mbind Result_bind]; [|done].
  destruct (negb _); [done|]. destruct (negb _); [done|]. intros H. injection H as <-. cbn [rs_path].
  destruct (Hs storage eq_refl) as (_ & -> & _). by eexists.
Qed.

Lemma open_run source generation log allocated w : mmdb_open_at (gw_native w) = dom (gw_states w) ->
  (forall a, allocated = Some a -> gw_states w !! a = None) -> is_Some (c_string_read (cs_storage (rs_path source))) ->
  exists r w', GeoIpDatabase_open_for_reload lib source generation log allocated w = Ret (r, w') /\ mmdb_open_at (gw_native w') = dom (gw_states w') /\
    match r with
    | Err _ => gw_states w' = gw_states w
    | Ok d => exists a, allocated = Some a /\ d = MkGeoIpDatabase (Some a) /\ gw_states w' = <[a := MkGeoIpState generation log]> (gw_states w)
    end.
Proof.
  intros Hopen Hfree Hpath. unfold GeoIpDatabase_open_for_reload. destruct allocated as [a|]; [|by eexists (Err _), w].
  specialize (Hfree a eq_refl). cbn [gw_native gw_log gw_states].
  destruct (law_mmdb_open (gw_native w) (cs_storage (rs_path source)) a) as (status & n' & -> & Hn); [rewrite Hopen; by apply not_elem_of_dom|done|]. rewrite outcome_bind_Ret.
  destruct (status =? MMDB_SUCCESS lib) eqn:Hs; cbn [negb].
  - eexists (Ok _), _. split; [done|]. split; [cbn; by rewrite Hn, dom_insert_L, Hopen|]. by exists a.
  - eexists (Err _), _. split; [done|]. cbn. rewrite delete_insert_id by done. by rewrite Hn.
Qed.

Lemma release_database c x d : geoip_ok c -> gc_handles c !! x = Some d ->
  exists w', GeoIpDatabase_release lib d (gc_world c) = Ret (GeoIpDatabase_default, w') /\
    geoip_ok (MkGeoIpClient (<[x := GeoIpDatabase_default]> (gc_handles c)) w').
Proof.
  intros Hc Hx. pose proof Hc as [H1 H2 H3 H4]. unfold GeoIpDatabase_release. destruct (gd_state d) as [a|] eqn:Hd.
  2:{ exists (gc_world c). destruct d. cbn in Hd. subst. split; [done|]. rewrite insert_id by done. by destruct c. }
  destruct (H2 x d a Hx Hd) as [s Hs]. rewrite Hs.
  destruct (law_mmdb_close (gw_native (gc_world c)) a) as (n' & -> & Hn); [rewrite H1; apply elem_of_dom; eauto|]. rewrite outcome_bind_Ret.
  eexists. split; [done|].
  assert (Hold : forall y t b, <[x := GeoIpDatabase_default]> (gc_handles c) !! y = Some t -> gd_state t = Some b -> gc_handles c !! y = Some t /\ y <> x).
  { intros y t b [[<- <-]|[Hne Hy]]%lookup_insert_Some Ht; [done|]. by split. }
  split; cbn [gc_handles gc_world gw_native gw_states].
  - by rewrite Hn, H1, dom_delete_L.
  - intros y t b Hy Ht. destruct (Hold _ _ _ Hy Ht) as [Hy' Hne]. rewrite lookup_delete_ne; [by eapply H2|]. intros <-. apply Hne. by eapply (H3 y x).
  - intros y z t u b Hy Hz Ht Hu. destruct (Hold _ _ _ Hy Ht) as [Hy' _]. destruct (Hold _ _ _ Hz Hu) as [Hz' _]. by eapply (H3 y z).
  - intros b [t Hb]. apply lookup_delete_Some in Hb as [Hne Hb]. destruct (H4 b) as (y & u & Hy & Hu); [eauto|]. exists y, u.
    rewrite lookup_insert_ne; [done|]. intros <-. congruence.
Qed.

Lemma move_database c x y t : geoip_ok c -> x <> y -> (forall u, gc_handles c !! x = Some u -> u = GeoIpDatabase_default) -> gc_handles c !! y = Some t ->
  geoip_ok (MkGeoIpClient (<[x := t]> (<[y := GeoIpDatabase_default]> (gc_handles c))) (gc_world c)).
Proof.
  intros [H1 H2 H3 H4] Hne Hx Hy.
  assert (Hold : forall z u b, <[x := t]> (<[y := GeoIpDatabase_default]> (gc_handles c)) !! z = Some u -> gd_state u = Some b ->
    (z = x /\ u = t) \/ (z <> x /\ z <> y /\ gc_handles c !! z = Some u)).
  { intros z u b [[<- <-]|[N1 [[<- <-]|[N2 Hz]]%lookup_insert_Some]]%lookup_insert_Some Hu; [by left|done|auto]. }
  split; cbn [gc_handles gc_world]; [done| | |].
  - intros z u b Hz Hu. destruct (Hold z u b Hz Hu) as [[-> ->]|(_ & _ & Hz')]; by eapply H2.
  - intros z1 z2 u1 u2 b Z1 Z2 B1 B2. destruct (Hold _ _ _ Z1 B1) as [[-> ->]|(N1 & M1 & Z1')]; destruct (Hold _ _ _ Z2 B2) as [[-> ->]|(N2 & M2 & Z2')].
    + done.
    + exfalso. apply M2. by eapply (H3 z2 y).
    + exfalso. apply M1. by eapply (H3 z1 y).
    + by eapply (H3 z1 z2).
  - intros b Hb. destruct (H4 b Hb) as (z & u & Hz & Hu). destruct (decide (z = y)) as [->|N1].
    + exists x, t. rewrite lookup_insert_eq. split; [done|]. congruence.
    + exists z, u. rewrite !lookup_insert_ne; [done|done|]. intros <-. apply Hx in Hz. by subst u.
Qed.

(** A lookup through a handle that holds a database. *)
Lemma lookup_database c x d a address : geoip_ok c -> gc_handles c !! x = Some d -> gd_state d = Some a ->
  exists state r w', gw_states (gc_world c) !! a = Some state /\ GeoIpDatabase_lookup lib d address (gc_world c) = Ret (r, w') /\ untouched (gc_world c) w' /\
    match native_address address with
    | Err e => r = Err e
    | Ok native => exists found status, MMDB_lookup_sockaddr lib a native (gw_native (gc_world c)) = Ret (found, status) /\
        (status <> MMDB_SUCCESS lib -> r = Err (mmdb_error lib op_geoip_lookup status)) /\
        (status = MMDB_SUCCESS lib -> match found with
           | None => r = Ok (GeoIpResult_construct (gs_generation state))
           | Some e => exists country subdivision city asn,
               MMDB_aget_value lib e country_path (gw_native (gc_world c)) = Ret country /\
               MMDB_aget_value lib e subdivision_path (gw_native (gc_world c)) = Ret subdivision /\
               MMDB_aget_value lib e city_path (gw_native (gc_world c)) = Ret city /\
               MMDB_aget_value lib e ["autonomous_system_number"%string] (gw_native (gc_world c)) = Ret asn /\
               match entry_answer (lib := lib) country subdivision city asn, r with
               | Ok fields, Ok g => result_says g fields /\ gr_generation g = gs_generation state /\ gr_known g = true
               | Err x, Err y => x = y
               | _, _ => False
               end
           end)
    end.
Proof.
  intros [H1 H2 H3 H4] Hx Hd. destruct (H2 x d a Hx Hd) as [state Hs]. exists state. unfold GeoIpDatabase_lookup. rewrite Hd, Hs.
  destruct (native_address address) as [native|e]; [|by exists (Err e), (gc_world c)].
  destruct (law_mmdb_lookup (gw_native (gc_world c)) a native) as (found & status & E1 & Hfound); [rewrite H1; apply elem_of_dom; eauto|].
  rewrite E1, outcome_bind_Ret. destruct (Z.eqb_spec status (MMDB_SUCCESS lib)) as [Hok|Hok]; cbn [negb].
  - destruct found as [e|].
    + destruct (copy_entry_run e (gs_generation state) (gs_log state) (gc_world c) (Hfound e eq_refl))
        as (country & subdivision & city & asn & r & w' & A1 & A2 & A3 & A4 & Hrun & Hu & Hr).
      exists r, w'. split; [done|]. split; [done|]. split; [done|]. exists (Some e), status. split; [done|]. split; [done|]. intros _. by exists country, subdivision, city, asn.
    + eexists (Ok _), (gc_world c). split; [done|]. split; [done|]. split; [done|]. by exists None, status.
  - eexists (Err _), _. split; [done|]. split; [done|]. split; [done|]. by exists found, status.
Qed.

Lemma exec_geoip_ok c op : geoip_ok c -> geoip_legal c op -> exists c', exec_geoip c op = Ret c' /\ geoip_ok c'.
Proof.
  intros Hc Hl. pose proof Hc as [H1 H2 H3 H4]. destruct op as [x|x source generation log allocated|x address|x|x y|x y|x]; cbn [geoip_legal] in Hl; cbn [exec_geoip].
  - eexists. split; [done|]. split; cbn [gc_handles gc_world]; [done| | |].
    + intros y d a [[<- <-]|[_ Hy]]%lookup_insert_Some Hd; [done|by eapply H2].
    + intros y z d t a [[<- <-]|[_ Hy]]%lookup_insert_Some [[<- <-]|[_ Hz]]%lookup_insert_Some Hd Ht; [done|done|done|by eapply (H3 y z)].
    + intros a Ha. destruct (H4 a Ha) as (y & d & Hy & Hd). exists y, d. rewrite lookup_insert_ne; [done|]. intros <-. congruence.
  - destruct Hl as (Hx & Hfree & path & allowed & Hsource).
    destruct (open_run source generation log allocated (gc_world c) H1 Hfree (source_reads _ _ _ Hsource)) as (r & w' & -> & Hopen & Hr).
    rewrite outcome_bind_Ret. eexists. split; [done|]. destruct r as [d|e].
    + destruct Hr as (a & -> & -> & Hs). specialize (Hfree a eq_refl). split; cbn [gc_handles gc_world]; [done| | |]; rewrite ?Hs.
      * intros y d b [[<- <-]|[_ Hy]]%lookup_insert_Some Hd; [injection Hd as <-; by rewrite lookup_insert_eq; eauto|].
        destruct (H2 y d b Hy Hd) as [s Hb]. exists s. rewrite lookup_insert_ne; [done|]. congruence.
      * intros y z d t b [[<- <-]|[_ Hy]]%lookup_insert_Some [[<- <-]|[_ Hz]]%lookup_insert_Some Hd Ht; [done| | |by eapply (H3 y z)].
        -- injection Hd as <-. destruct (H2 z t a Hz Ht) as [s Hb]. congruence.
        -- injection Ht as <-. destruct (H2 y d a Hy Hd) as [s Hb]. congruence.
      * intros b [s Hb]. apply lookup_insert_Some in Hb as [[<- _]|[Hne Hb]]; [exists x, (MkGeoIpDatabase (Some a)); by rewrite lookup_insert_eq|].
        destruct (H4 b) as (y & d & Hy & Hd); [eauto|]. exists y, d. rewrite lookup_insert_ne; [done|]. intros <-. congruence.
    + rewrite Hr in Hopen. by split; cbn [gc_handles gc_world]; rewrite ?Hr.
  - destruct Hl as [d Hx]. rewrite Hx. destruct (gd_state d) as [a|] eqn:Hd.
    + destruct (lookup_database c x d a address Hc Hx Hd) as (state & r & w' & _ & -> & Hu & _). rewrite outcome_bind_Ret. eexists. split; [done|]. by apply untouched_ok.
    + unfold GeoIpDatabase_lookup. rewrite Hd, outcome_bind_Ret. eexists. split; [done|]. by destruct c.
  - destruct Hl as [d Hx]. rewrite Hx. exists c. split; [|done]. unfold GeoIpDatabase_generation. destruct (gd_state d) as [a|] eqn:Hd; [|done].
    by destruct (H2 x d a Hx Hd) as [s ->].
  - destruct Hl as [[d Hx] Hy]. rewrite Hx. eexists. split; [done|]. replace (MkGeoIpDatabase (gd_state d)) with d by (by destruct d).
    apply move_database; [done|congruence|congruence|done].
  - destruct Hl as ([d Hx] & [t Hy] & Hne). rewrite Hx, Hy. unfold GeoIpDatabase_move_assign.
    destruct (release_database c x d Hc Hx) as (w' & -> & Hc'). rewrite !outcome_bind_Ret. eexists. split; [done|].
    pose proof (move_database _ x y t Hc' Hne) as Hm. cbn [gc_handles gc_world] in Hm. rewrite lookup_insert_eq, lookup_insert_ne in Hm by done.
    specialize (Hm ltac:(by intros ? [= <-]) Hy). rewrite (insert_insert_ne _ y x), insert_insert_eq in Hm by done. by destruct t.
  - destruct Hl as [d Hx]. rewrite Hx. unfold GeoIpDatabase_destroy. destruct (release_database c x d Hc Hx) as (w' & -> & [K1 K2 K3 K4]).
    rewrite !outcome_bind_Ret. eexists. split; [done|]. cbn [gc_handles gc_world] in *. split; cbn [gc_handles gc_world]; [done| | |].
    + intros y t b [Hne Hy]%lookup_delete_Some Ht. apply (K2 y t b); [by rewrite lookup_insert_ne|done].
    + intros y z t u b [N1 Hy]%lookup_delete_Some [N2 Hz]%lookup_delete_Some. apply (K3 y z t u b); by rewrite lookup_insert_ne.
    + intros b Hb. destruct (K4 b Hb) as (y & t & Hy & Ht). exists y, t. apply lookup_insert_Some in Hy as [[<- <-]|[Hne Hy]]; [done|]. by rewrite lookup_delete_ne.
Qed.

(** Clients that legal operations lead to, from one that has nothing open. *)
Inductive geoip_reachable (c0 : GeoIpClient) : GeoIpClient -> Prop :=
  | gq_start : geoip_reachable c0 c0
  | gq_step c op c' : geoip_reachable c0 c -> geoip_legal c op -> exec_geoip c op = Ret c' -> geoip_reachable c0 c'.

Lemma geoip_reachable_ok w c : gw_states w = ∅ -> mmdb_open_at (gw_native w) = ∅ -> geoip_reachable (MkGeoIpClient ∅ w) c -> geoip_ok c.
Proof.
  intros Hs Ho. induction 1 as [|c op c' _ IH Hl E1].
  - split; cbn [gc_handles gc_world]; rewrite ?Hs, ?Ho; try done. intros a [? Ha]. by rewrite lookup_empty in Ha.
  - destruct (exec_geoip_ok c op IH Hl) as (c2 & E2 & H2). rewrite E1 in E2. by injection E2 as ->.
Qed.

(** C29: programs may open, look up, move and destroy GeoIP databases in any order, over any
    libmaxminddb that keeps its contract: every operation returns, the databases that are open
    in the library are exactly those that a handle holds, no two handles hold the same one, and
    so each is closed exactly once and none stays open when all handles are empty. *)
Theorem geoip_databases_safe w (c : GeoIpClient) (op : geoip_op) :
  gw_states w = ∅ -> mmdb_open_at (gw_native w) = ∅ -> geoip_reachable (MkGeoIpClient ∅ w) c -> geoip_legal c op ->
  exists c', exec_geoip c op = Ret c' /\
    (forall a, a ∈ mmdb_open_at (gw_native (gc_world c')) <-> exists x d, gc_handles c' !! x = Some d /\ gd_state d = Some a) /\
    (forall x y d t a, gc_handles c' !! x = Some d -> gc_handles c' !! y = Some t -> gd_state d = Some a -> gd_state t = Some a -> x = y) /\
    dom (gw_states (gc_world c')) = mmdb_open_at (gw_native (gc_world c')).
Proof.
  intros Hs Ho Hreach Hl. destruct (exec_geoip_ok c op (geoip_reachable_ok w c Hs Ho Hreach) Hl) as (c' & E1 & [H1 H2 H3 H4]).
  exists c'. split; [done|]. split; [|done]. intros a. rewrite H1, elem_of_dom. split; [apply H4|]. intros (x & d & Hx & Hd). by eapply H2.
Qed.

(** In every reachable program a lookup through a handle that holds a database returns and
    changes nothing but the log.  An IPv4 address with a nonzero tail and an unknown family are
    refused; otherwise the library is asked for exactly the address, and the result is its
    error, the generation of the database alone when it found nothing, or with country,
    subdivision, city and number as the entry has them, absent where the entry has none, and
    the first error where a field is of another type or too long. *)
Theorem geoip_lookup_exact w (c : GeoIpClient) (x : nat) (d : GeoIpDatabase) (a : nat) (address : GeoIpAddress) :
  gw_states w = ∅ -> mmdb_open_at (gw_native w) = ∅ -> geoip_reachable (MkGeoIpClient ∅ w) c -> gc_handles c !! x = Some d -> gd_state d = Some a ->
  exists state r w', gw_states (gc_world c) !! a = Some state /\ GeoIpDatabase_lookup lib d address (gc_world c) = Ret (r, w') /\ untouched (gc_world c) w' /\
    match native_address address with
    | Err e => r = Err e
    | Ok native => exists found status, MMDB_lookup_sockaddr lib a native (gw_native (gc_world c)) = Ret (found, status) /\
        (status <> MMDB_SUCCESS lib -> r = Err (mmdb_error lib op_geoip_lookup status)) /\
        (status = MMDB_SUCCESS lib -> match found with
           | None => r = Ok (GeoIpResult_construct (gs_generation state))
           | Some e => exists country subdivision city asn,
               MMDB_aget_value lib e country_path (gw_native (gc_world c)) = Ret country /\
               MMDB_aget_value lib e subdivision_path (gw_native (gc_world c)) = Ret subdivision /\
               MMDB_aget_value lib e city_path (gw_native (gc_world c)) = Ret city /\
               MMDB_aget_value lib e ["autonomous_system_number"%string] (gw_native (gc_world c)) = Ret asn /\
               match entry_answer (lib := lib) country subdivision city asn, r with
               | Ok fields, Ok g => result_says g fields /\ gr_generation g = gs_generation state /\ gr_known g = true
               | Err x, Err y => x = y
               | _, _ => False
               end
           end)
    end.
Proof. intros Hs Ho Hreach Hx Hd. exact (lookup_database c x d a address (geoip_reachable_ok w c Hs Ho Hreach) Hx Hd). Qed.
End clients.

(** ** A small library

    Its databases hold one entry, of a city with a number and no subdivision. *)
Module DemoMmdb.
Definition value_of (path : list string) : Z * option EntryData :=
  if bool_decide (path = country_path) then (0, Some (data_utf8_string (chars "FR"))) else
  if bool_decide (path = subdivision_path) then (8, None) else
  if bool_decide (path = city_path) then (0, Some (data_utf8_string (chars "Lyon"))) else (0, Some (data_uint32 3215)).

Definition native : Mmdb (gset nat) unit := {|
  MMDB_SUCCESS := 0; MMDB_FILE_OPEN_ERROR := 1; MMDB_CORRUPT_SEARCH_TREE_ERROR := 2; MMDB_INVALID_METADATA_ERROR := 3; MMDB_IO_ERROR := 4;
  MMDB_OUT_OF_MEMORY_ERROR := 5; MMDB_UNKNOWN_DATABASE_FORMAT_ERROR := 6; MMDB_INVALID_DATA_ERROR := 7;
  MMDB_LOOKUP_PATH_DOES_NOT_MATCH_DATA_ERROR := 8; MMDB_INVALID_LOOKUP_PATH_ERROR := 9; MMDB_INVALID_NODE_NUMBER_ERROR := 10;
  MMDB_IPV6_LOOKUP_IN_IPV4_DATABASE_ERROR := 11; MMDB_INVALID_NETWORK_ADDRESS_ERROR := 12; MMDB_DECODER_LIMIT_ERROR := None;
  MMDB_open := fun path a n => match c_string_read path with None => Stop Undefined | Some _ => Ret (0, {[a]} ∪ n) end;
  MMDB_close := fun a n => Ret (n ∖ {[a]});
  MMDB_lookup_sockaddr := fun a address n =>
    if bool_decide (a ∈ n) then Ret (match address with sockaddr_in [10; _; _; _] => None | _ => Some () end, 0) else Stop Undefined;
  MMDB_aget_value := fun _ path _ => Ret (value_of path) |}.

#[global] Instance native_laws : MmdbLaws native.
Proof.
  refine {| mmdb_open_at := fun n => n; mmdb_entry := fun _ _ => True |}.
  - intros n path a _ [t Ht]. cbn. rewrite Ht. by eexists _, _.
  - intros n a _. by eexists.
  - intros n a address Ha. cbn. rewrite bool_decide_eq_true_2 by done. by eexists _, _.
  - intros n e path _. cbn. destruct (value_of path). by eexists _, _.
Defined.

Definition no_log : DependencyLogSink unit := MkDependencyLogSink None.
Definition world : GeoIpWorld (gset nat) unit := MkGeoIpWorld ∅ () ∅.
Definition path : TextView := chars "/data/city.mmdb".
Definition configured : GeoIpReloadSource :=
  match GeoIpReloadSource_from_configuration path [path] with Ok s => s | Err _ => MkGeoIpReloadSource (MkStaticCString [] 0) end.
Definition opened : GeoIpClient (N := gset nat) (L := unit) := MkGeoIpClient {[0%nat := MkGeoIpDatabase (Some 7%nat)]}
  (MkGeoIpWorld {[7%nat]} () {[7%nat := MkGeoIpState (MkStrongIdentifier 3) no_log]}).

Lemma opened_reachable : geoip_reachable (lib := native) (MkGeoIpClient ∅ world) opened.
Proof.
  eapply (gq_step _ _ (GOpen 0 configured (MkStrongIdentifier 3) no_log (Some 7%nat))); [apply gq_start| |].
  - split; [done|]. split; [done|]. exists path, [path]. vm_compute. reflexivity.
  - vm_compute. reflexivity.
Qed.
End DemoMmdb.

Lemma geoip_databases_safe_witness :
  exists c', exec_geoip (lib := DemoMmdb.native) DemoMmdb.opened (GDestroy 0) = Ret c' /\ dom (gw_states (gc_world c')) = mmdb_open_at (lib := DemoMmdb.native) (gw_native (gc_world c')).
Proof.
  destruct (geoip_databases_safe DemoMmdb.world DemoMmdb.opened (GDestroy 0)) as (c' & E1 & _ & _ & H).
  - reflexivity.
  - reflexivity.
  - exact DemoMmdb.opened_reachable.
  - by eexists.
  - by exists c'.
Defined.

Lemma geoip_lookup_exact_witness :
  exists r w', GeoIpDatabase_lookup DemoMmdb.native (MkGeoIpDatabase (Some 7%nat)) (MkGeoIpAddress GeoIp_ipv4 ([81; 80; 1; 1] ++ replicate 12 0))
    (gc_world DemoMmdb.opened) = Ret (Ok r, w') /\ GeoIpText_value (gr_city r) = chars "Lyon" /\ gt_known (gr_subdivision r) = false /\ asn_number (gr_asn r) = 3215.
Proof.
  destruct (geoip_lookup_exact DemoMmdb.world DemoMmdb.opened 0 (MkGeoIpDatabase (Some 7%nat)) 7 (MkGeoIpAddress GeoIp_ipv4 ([81; 80; 1; 1] ++ replicate 12 0)))
    as (state & r & w' & _ & E1 & _ & H).
  - reflexivity.
  - reflexivity.
  - exact DemoMmdb.opened_reachable.
  - reflexivity.
  - reflexivity.
  - destruct H as (found & status & E2 & _ & H). vm_compute in E2. injection E2 as <- <-. destruct (H eq_refl) as (country & subdivision & city & asn & A1 & A2 & A3 & A4 & Hr).
    vm_compute in A1. vm_compute in A2. vm_compute in A3. vm_compute in A4. injection A1 as <-. injection A2 as <-. injection A3 as <-. injection A4 as <-.
    destruct r as [g|]; [|by vm_compute in Hr]. exists g, w'. split; [exact E1|]. destruct Hr as [(_ & (_ & Hs & _) & (_ & _ & Hc) & (_ & Ha)) _]. by split.
Defined.

