(* ===== verification/Otlp.v ===== *)
(** * Encoding of telemetry

    Models [src/adapters/contract/laghu/adapters/otlp.hpp] and [src/adapters/otlp.cpp]: bounded
    UTF-8 texts, and the encoding of traces, metrics and logs as protobuf messages in one pass
    over a bounded output, with sizes computed by running the encoders on a counter.

    The templates over the output are functions of a class [Output] with the instances [Sizer]
    and [Writer]; a generic lambda is a function of the instance.  The bytes of the output span
    are a list, returned with the result; a [double] is its 64-bit representation. *)
From S2P Require Import Prelude Contract CheckedArithmetic Views TextOps.
From Stdlib Require Import ZArith Lia String Ascii.
From stdpp Require Import base numbers list option.

Set Default Goal Selector "!".
#[local] Open Scope Z_scope.

Definition otlp_capacity_error := core_error exhaustion "OTLP text capacity is exhausted".
Definition otlp_utf8_error := core_error invalid_input "OTLP text is not valid UTF-8".
Definition otlp_resource_error := core_error invalid_input "OTLP resource attribute count is invalid".
Definition otlp_trace_error := core_error invalid_input "OTLP trace identifier or time range is invalid".
Definition otlp_event_error := core_error invalid_input "OTLP trace event is invalid".
Definition otlp_metric_error := core_error invalid_input "OTLP metric name or timestamp is invalid".
Definition otlp_log_error := core_error invalid_input "OTLP log body, timestamp, or correlation identifier is invalid".
Definition otlp_batch_error := core_error exhaustion "OTLP batch or scratch capacity is exhausted".
Definition otlp_output_error := core_error exhaustion "OTLP output capacity is exhausted".

(** ** Texts *)
Record OtlpText := MkOtlpText { ot_bytes : list ascii; ot_size : Z }.
Definition OtlpText_default (Capacity : nat) : OtlpText := MkOtlpText (replicate Capacity Ascii.zero) 0.
Definition OtlpText_empty (this : OtlpText) : bool := ot_size this =? 0.
Definition OtlpText_value (this : OtlpText) : list ascii := take (Z.to_nat (ot_size this)) (ot_bytes this).

Definition continuation (byte : Z) : bool := Z.land byte 0xc0 =? 0x80.
Definition unsigned_at (text : list ascii) (index : Z) : outcome Z := c ← slot text index; Ret (char_value c).

(** Whether the sequence at [index] is valid, and its length. *)
Definition utf8_sequence (index : Z) (text : list ascii) : outcome (option Z) :=
  let size := Z.of_nat (length text) in
  first ← unsigned_at text index;
  if first <=? 0x7f then Ret (Some 1) else
  if (0xc2 <=? first) && (first <=? 0xdf) then
    if size <=? index + 1 then Ret None else
    second ← unsigned_at text (index + 1);
    Ret (if negb (continuation second) then None else Some 2)
  else if (0xe0 <=? first) && (first <=? 0xef) then
    if size <=? index + 2 then Ret None else
    second ← unsigned_at text (index + 1);
    third ← unsigned_at text (index + 2);
    Ret (if negb (continuation second) || negb (continuation third) || ((first =? 0xe0) && (second <? 0xa0)) || ((first =? 0xed) && (0xa0 <=? second))
         then None else Some 3)
  else if (0xf0 <=? first) && (first <=? 0xf4) then
    if size <=? index + 3 then Ret None else
    second ← unsigned_at text (index + 1);
    third ← unsigned_at text (index + 2);
    fourth ← unsigned_at text (index + 3);
    Ret (if negb (continuation second) || negb (continuation third) || negb (continuation fourth) ||
            ((first =? 0xf0) && (second <? 0x90)) || ((first =? 0xf4) && (0x90 <=? second))
         then None else Some 4)
  else Ret None.

(** A round advances the index, so the fuel is one more than the length. *)
Fixpoint utf8_loop (fuel : nat) (index : Z) (text : list ascii) : outcome bool :=
  match fuel with
  | O => Stop OutOfFuel
  | S fuel =>
      if Z.of_nat (length text) <=? index then Ret true else
      r ← utf8_sequence index text;
      match r with None => Ret false | Some n => utf8_loop fuel (index + n) text end
  end.
Definition valid_utf8 (text : list ascii) : outcome bool := utf8_loop (S (length text)) 0 text.

Definition OtlpText_from (Capacity : nat) (text : TextView) : outcome (Result OtlpText) :=
  if Z.of_nat Capacity <? Z.of_nat (length text) then Ret (Err otlp_capacity_error) else
  valid ← valid_utf8 text;
  if negb valid then Ret (Err otlp_utf8_error) else
  bytes ← copy_into text 0 (ot_bytes (OtlpText_default Capacity));
  Ret (Ok (MkOtlpText bytes (cast uint16_t (Z.of_nat (length text))))).

(** ** Records *)
Record OtlpAttribute := MkOtlpAttribute { at_key : OtlpText; at_value : OtlpText }.
Record OtlpMetadata := MkOtlpMetadata {
  md_service_name : OtlpText; md_scope_name : OtlpText; md_scope_version : OtlpText; md_resource_attributes : list OtlpAttribute;
  md_resource_attribute_count : Z }.
Record OtlpEvent := MkOtlpEvent { ev_time_unix_nano : Z; ev_name : OtlpText; ev_attributes : list OtlpAttribute; ev_attribute_count : Z }.
Record OtlpTraceRecord := MkOtlpTraceRecord {
  tr_trace_id : list Z; tr_span_id : list Z; tr_name : OtlpText; tr_start_time_unix_nano : Z; tr_end_time_unix_nano : Z;
  tr_attributes : list OtlpAttribute; tr_attribute_count : Z; tr_events : list OtlpEvent; tr_event_count : Z }.
Record OtlpMetricRecord := MkOtlpMetricRecord {
  mr_name : OtlpText; mr_unit : OtlpText; mr_time_unix_nano : Z; mr_value : Z; mr_attributes : list OtlpAttribute; mr_attribute_count : Z }.
Record OtlpLogRecord := MkOtlpLogRecord {
  lr_time_unix_nano : Z; lr_severity_number : Z; lr_severity_text : OtlpText; lr_body : OtlpText; lr_trace_id : list Z; lr_span_id : list Z;
  lr_attributes : list OtlpAttribute; lr_attribute_count : Z }.

Definition nonzero (value : list Z) : bool := existsb (fun byte => negb (byte =? 0)) value.

(** ** Outputs *)
Definition varint_fuel : nat := 10.
Fixpoint varint_size_loop (fuel : nat) (value result : Z) : outcome Z :=
  match fuel with
  | O => Stop OutOfFuel
  | S fuel => if 0x80 <=? value then varint_size_loop fuel (Z.shiftr value 7) (u64 (result + 1)) else Ret result
  end.
Definition varint_size (value : Z) : outcome Z := varint_size_loop varint_fuel value 1.

(** A step on an output: whether it succeeded, and the output after it. *)
Definition encoder (Out : Type) : Type := Out -> outcome (bool * Out).
Definition and_then {Out} (a b : encoder Out) : encoder Out := fun o => '(ok, o) ← a o; if (ok : bool) then b o else Ret (false, o).
Definition accept {Out} : encoder Out := fun o => Ret (true, o).
Definition reject {Out} : encoder Out := fun o => Ret (false, o).
Infix "&&&" := and_then (at level 40, left associativity) : laghu_scope.

Record Sizer := MkSizer { sz_used : Z }.

Class Output (Out : Type) := {
  varint : Z -> encoder Out;
  tag : Z -> Z -> encoder Out;
  bytes : Z -> list Z -> encoder Out;
  text : Z -> list ascii -> encoder Out;
  fixed64 : Z -> Z -> encoder Out;
  message_with : Z -> encoder Sizer -> encoder Out -> encoder Out }.

Definition key_of (field wire : Z) : Z := Z.lor (Z.shiftl field 3) wire.

Definition Sizer_add (this : Sizer) (n : Z) : outcome (bool * Sizer) := Ret (true, MkSizer (u64 (sz_used this + n))).
Definition Sizer_varint (value : Z) : encoder Sizer := fun this => n ← varint_size value; Sizer_add this n.
Definition Sizer_tag (field wire : Z) : encoder Sizer := Sizer_varint (key_of field wire).
Definition Sizer_delimited (field size : Z) : encoder Sizer := fun this =>
  k ← varint_size (key_of field 2); n ← varint_size size; Sizer_add this (u64 (k + n + size)).
Definition Sizer_bytes (field : Z) (value : list Z) : encoder Sizer := Sizer_delimited field (Z.of_nat (length value)).
Definition Sizer_text (field : Z) (value : list ascii) : encoder Sizer := Sizer_delimited field (Z.of_nat (length value)).
Definition Sizer_fixed64 (field value : Z) : encoder Sizer := fun this => k ← varint_size (key_of field 1); Sizer_add this (u64 (k + 8)).
Definition Sizer_message (field : Z) (encode : encoder Sizer) : encoder Sizer := fun this =>
  '(ok, child) ← encode (MkSizer 0);
  if negb ok then Ret (false, this) else Sizer_delimited field (sz_used child) this.

#[export] Instance Sizer_Output : Output Sizer := {|
  varint := Sizer_varint; tag := Sizer_tag; bytes := Sizer_bytes; text := Sizer_text; fixed64 := Sizer_fixed64;
  message_with := fun field encode _ => Sizer_message field encode |}.

Record Writer := MkWriter { wr_output : list Z; wr_used : Z }.
Definition Writer_room (this : Writer) : Z := u64 (Z.of_nat (length (wr_output this)) - wr_used this).
(** [output_[used_++] = byte] *)
Definition Writer_put (this : Writer) (byte : Z) : outcome Writer :=
  output ← set_slot (wr_output this) (wr_used this) byte; Ret (MkWriter output (u64 (wr_used this + 1))).
Fixpoint Writer_put_all (this : Writer) (values : list Z) : outcome Writer :=
  match values with [] => Ret this | byte :: values => this ← Writer_put this byte; Writer_put_all this values end.

Fixpoint Writer_varint_loop (fuel : nat) (value : Z) (this : Writer) : outcome (bool * Writer) :=
  match fuel with
  | O => Stop OutOfFuel
  | S fuel =>
      if wr_used this =? Z.of_nat (length (wr_output this)) then Ret (false, this) else
      let byte := Z.land value 0x7f in
      let value := Z.shiftr value 7 in
      let byte := if negb (value =? 0) then Z.lor byte 0x80 else byte in
      this ← Writer_put this byte;
      if negb (value =? 0) then Writer_varint_loop fuel value this else Ret (true, this)
  end.
Definition Writer_varint (value : Z) : encoder Writer := Writer_varint_loop varint_fuel value.
Definition Writer_tag (field wire : Z) : encoder Writer := Writer_varint (key_of field wire).
Definition Writer_fits (size : Z) : encoder Writer := fun this => Ret (negb (Writer_room this <? size), this).
Definition Writer_copy (values : list Z) : encoder Writer := fun this => this ← Writer_put_all this values; Ret (true, this).
Definition Writer_bytes (field : Z) (value : list Z) : encoder Writer :=
  let size := Z.of_nat (length value) in Writer_tag field 2 &&& Writer_varint size &&& Writer_fits size &&& Writer_copy value.
Definition Writer_text (field : Z) (value : list ascii) : encoder Writer :=
  let size := Z.of_nat (length value) in Writer_tag field 2 &&& Writer_varint size &&& Writer_fits size &&& Writer_copy (map char_value value).
Definition shifts : list Z := [0; 8; 16; 24; 32; 40; 48; 56].
Definition Writer_fixed64 (field value : Z) : encoder Writer :=
  Writer_tag field 1 &&& Writer_fits 8 &&& Writer_copy (map (fun shift => Z.land (Z.shiftr value shift) 0xff) shifts).
Definition Writer_message (field : Z) (encode_child : encoder Sizer) (encode : encoder Writer) : encoder Writer := fun this =>
  '(ok, child) ← encode_child (MkSizer 0);
  if negb ok then Ret (false, this) else (Writer_tag field 2 &&& Writer_varint (sz_used child) &&& encode) this.

#[export] Instance Writer_Output : Output Writer := {|
  varint := Writer_varint; tag := Writer_tag; bytes := Writer_bytes; text := Writer_text; fixed64 := Writer_fixed64; message_with := Writer_message |}.

(** ** Encoders *)
Section encoders.
Context {Out : Type} {H : Output Out}.

(** The encoder of a message is generic: it runs on a [Sizer] and on the output itself. *)
Definition message (field : Z) (encode : forall P, Output P -> encoder P) : encoder Out :=
  message_with field (encode Sizer Sizer_Output) (encode Out H).

Definition encode_attribute (attribute : OtlpAttribute) : encoder Out :=
  text 1 (OtlpText_value (at_key attribute)) &&& message 2 (fun P _ => text 1 (OtlpText_value (at_value attribute))).

Definition encode_optional_bytes (field : Z) (value : list Z) : encoder Out := if negb (nonzero value) then accept else bytes field value.
End encoders.

Section repeated.
Context {Out : Type} {H : Output Out}.

(** [count] elements from [index] on, each as a message of [field]. *)
Fixpoint repeat_messages {A} (count : nat) (index : Z) (elements : list A) (field : Z) (encode : A -> forall P, Output P -> encoder P) : encoder Out :=
  fun o =>
  match count with
  | O => accept o
  | S count => element ← slot elements index; (message field (encode element) &&& repeat_messages count (index + 1) elements field encode) o
  end.

Definition encode_attributes (attributes : list OtlpAttribute) (attribute_count field : Z) : encoder Out :=
  if Z.of_nat (length attributes) <? attribute_count then reject else
  repeat_messages (Z.to_nat attribute_count) 0 attributes field (fun a P _ => encode_attribute a).

(** [*OtlpText<Capacity>::from(text)] *)
Definition required_text (Capacity : nat) (value : list ascii) : outcome OtlpText :=
  r ← OtlpText_from Capacity value;
  match r with Ok t => Ret t | Err _ => Stop Undefined end.

Definition encode_resource (metadata : OtlpMetadata) : encoder Out := fun o =>
  if Z.of_nat (length (md_resource_attributes metadata)) <? md_resource_attribute_count metadata then reject o else
  key ← required_text 64 (chars "service.name");
  value ← required_text 128 (OtlpText_value (md_service_name metadata));
  let service := MkOtlpAttribute key value in
  (message 1 (fun P _ => encode_attribute service) &&&
   repeat_messages (Z.to_nat (md_resource_attribute_count metadata)) 0 (md_resource_attributes metadata) 1 (fun a P _ => encode_attribute a)) o.

Definition encode_scope (metadata : OtlpMetadata) : encoder Out :=
  text 1 (OtlpText_value (md_scope_name metadata)) &&& text 2 (OtlpText_value (md_scope_version metadata)).

Definition encode_event (event : OtlpEvent) : encoder Out :=
  fixed64 1 (ev_time_unix_nano event) &&& text 2 (OtlpText_value (ev_name event)) &&&
  encode_attributes (ev_attributes event) (ev_attribute_count event) 3.

Definition encode_trace (record : OtlpTraceRecord) : encoder Out :=
  bytes 1 (tr_trace_id record) &&& bytes 2 (tr_span_id record) &&& text 5 (OtlpText_value (tr_name record)) &&&
  fixed64 7 (tr_start_time_unix_nano record) &&& fixed64 8 (tr_end_time_unix_nano record) &&&
  encode_attributes (tr_attributes record) (tr_attribute_count record) 9.

Definition encode_log (record : OtlpLogRecord) : encoder Out :=
  fixed64 1 (lr_time_unix_nano record) &&& tag 2 0 &&& varint (lr_severity_number record) &&& text 3 (OtlpText_value (lr_severity_text record)) &&&
  message 5 (fun P _ => text 1 (OtlpText_value (lr_body record))) &&& encode_attributes (lr_attributes record) (lr_attribute_count record) 6 &&&
  encode_optional_bytes 9 (lr_trace_id record) &&& encode_optional_bytes 10 (lr_span_id record).
End repeated.

Section composed.
Context {Out : Type} {H : Output Out}.

Definition encode_span (record : OtlpTraceRecord) : encoder Out :=
  encode_trace record &&& repeat_messages (Z.to_nat (tr_event_count record)) 0 (tr_events record) 11 (fun e P _ => encode_event e).

Definition encode_point (record : OtlpMetricRecord) : encoder Out :=
  fixed64 3 (mr_time_unix_nano record) &&& fixed64 4 (mr_value record) &&& encode_attributes (mr_attributes record) (mr_attribute_count record) 7.
End composed.

Section metrics.
Context {Out : Type} {H : Output Out}.

Definition encode_metric (record : OtlpMetricRecord) : encoder Out :=
  text 1 (OtlpText_value (mr_name record)) &&& text 3 (OtlpText_value (mr_unit record)) &&&
  message 5 (fun P _ => message 1 (fun Q _ => encode_point record)).
End metrics.

(** ** Requests *)
Section requests.
Context {Rec : Type} (encode_record : Rec -> forall P, Output P -> encoder P).

(** [for (const auto& record : records)] *)
Fixpoint encode_records {Out} {H : Output Out} (records : list Rec) : encoder Out :=
  match records with [] => accept | record :: records => message 2 (encode_record record) &&& encode_records records end.

Definition encode_scope_records {Out} {H : Output Out} (metadata : OtlpMetadata) (records : list Rec) : encoder Out :=
  message 1 (fun P _ => encode_scope metadata) &&& encode_records records.
Definition encode_resource_records {Out} {H : Output Out} (metadata : OtlpMetadata) (records : list Rec) : encoder Out :=
  message 1 (fun P _ => encode_resource metadata) &&& message 2 (fun P _ => encode_scope_records metadata records).

(** The number of bytes written. *)
Definition encode_request (metadata : OtlpMetadata) (records : list Rec) (output scratch : list Z) : outcome (Result Z * list Z) :=
  if (64 <? Z.of_nat (length records)) || (Z.of_nat (length scratch) <? 64) then Ret (Err otlp_batch_error, output) else
  '(valid, writer) ← message 1 (fun P _ => encode_resource_records metadata records) (MkWriter output 0);
  if negb valid then Ret (Err otlp_output_error, wr_output writer) else Ret (Ok (wr_used writer), wr_output writer).
End requests.

Definition valid_attribute_count (attributes : list OtlpAttribute) (attribute_count : Z) : bool := attribute_count <=? Z.of_nat (length attributes).
Definition valid_metadata (metadata : OtlpMetadata) : bool := md_resource_attribute_count metadata <=? Z.of_nat (length (md_resource_attributes metadata)).

Fixpoint check_events (count : nat) (index : Z) (events : list OtlpEvent) : outcome (Result unit) :=
  match count with
  | O => Ret (Ok tt)
  | S count =>
      event ← slot events index;
      if OtlpText_empty (ev_name event) || (ev_time_unix_nano event =? 0) || negb (valid_attribute_count (ev_attributes event) (ev_attribute_count event))
      then Ret (Err otlp_event_error) else check_events count (index + 1) events
  end.

Definition check_trace (record : OtlpTraceRecord) : outcome (Result unit) :=
  if negb (nonzero (tr_trace_id record)) || negb (nonzero (tr_span_id record)) || OtlpText_empty (tr_name record) ||
     (tr_start_time_unix_nano record =? 0) || (tr_end_time_unix_nano record <? tr_start_time_unix_nano record) ||
     (Z.of_nat (length (tr_events record)) <? tr_event_count record) || negb (valid_attribute_count (tr_attributes record) (tr_attribute_count record))
  then Ret (Err otlp_trace_error) else check_events (Z.to_nat (tr_event_count record)) 0 (tr_events record).

Definition check_metric (record : OtlpMetricRecord) : outcome (Result unit) :=
  Ret (if OtlpText_empty (mr_name record) || (mr_time_unix_nano record =? 0) || negb (valid_attribute_count (mr_attributes record) (mr_attribute_count record))
       then Err otlp_metric_error else Ok tt).

Definition check_log (record : OtlpLogRecord) : outcome (Result unit) :=
  Ret (if OtlpText_empty (lr_body record) || (lr_time_unix_nano record =? 0) || (nonzero (lr_span_id record) && negb (nonzero (lr_trace_id record))) ||
          negb (valid_attribute_count (lr_attributes record) (lr_attribute_count record))
       then Err otlp_log_error else Ok tt).

Fixpoint check_records {Rec} (check : Rec -> outcome (Result unit)) (records : list Rec) : outcome (Result unit) :=
  match records with
  | [] => Ret (Ok tt)
  | record :: records => r ← check record; match r with Err e => Ret (Err e) | Ok _ => check_records check records end
  end.

(** The three entry points: the checks, then the request. *)
Definition checked_request {Rec} (check : Rec -> outcome (Result unit)) (encode_record : Rec -> forall P, Output P -> encoder P)
    (metadata : OtlpMetadata) (records : list Rec) (output scratch : list Z) : outcome (Result Z * list Z) :=
  if negb (valid_metadata metadata) then Ret (Err otlp_resource_error, output) else
  r ← check_records check records;
  match r with Err e => Ret (Err e, output) | Ok _ => encode_request encode_record metadata records output scratch end.

Definition encode_otlp_traces : OtlpMetadata -> list OtlpTraceRecord -> list Z -> list Z -> outcome (Result Z * list Z) :=
  checked_request check_trace (fun record P _ => encode_span record).
Definition encode_otlp_metrics : OtlpMetadata -> list OtlpMetricRecord -> list Z -> list Z -> outcome (Result Z * list Z) :=
  checked_request check_metric (fun record P _ => encode_metric record).
Definition encode_otlp_logs : OtlpMetadata -> list OtlpLogRecord -> list Z -> list Z -> outcome (Result Z * list Z) :=
  checked_request check_log (fun record P _ => encode_log record).
