(* ===== verification/OtlpSpec.v ===== *)
(** * Bounded texts and UTF-8

    The texts accepted are exactly the encodings of sequences of Unicode scalar values that fit. *)
From S2P Require Import Prelude Contract CheckedArithmetic Views TextOps Otlp.
From Stdlib Require Import ZArith Lia String Ascii.
From stdpp Require Import base numbers list option.

Set Default Goal Selector "!".
#[local] Open Scope Z_scope.

(** ** UTF-8 *)
Definition is_scalar (c : Z) : Prop := 0 <= c <= 0x10ffff /\ ~ (0xd800 <= c <= 0xdfff).
Definition tail_byte (x : Z) : Z := 0x80 + x mod 64.
Definition utf8_bytes (c : Z) : list Z :=
  if c <? 0x80 then [c] else
  if c <? 0x800 then [0xc0 + c / 64; tail_byte c] else
  if c <? 0x10000 then [0xe0 + c / 4096; tail_byte (c / 64); tail_byte c] else
  [0xf0 + c / 262144; tail_byte (c / 4096); tail_byte (c / 64); tail_byte c].
Definition is_utf8 (text : list ascii) : Prop := exists scalars, Forall is_scalar scalars /\ map char_value text = concat (map utf8_bytes scalars).

(** The length of the sequence at the front of some bytes. *)
Definition sequence_of (l : list Z) : option Z :=
  match l with
  | [] => None
  | first :: l =>
      if first <=? 0x7f then Some 1 else
      if (0xc2 <=? first) && (first <=? 0xdf) then
        match l with second :: _ => if negb (continuation second) then None else Some 2 | _ => None end
      else if (0xe0 <=? first) && (first <=? 0xef) then
        match l with
        | second :: third :: _ =>
            if negb (continuation second) || negb (continuation third) || ((first =? 0xe0) && (second <? 0xa0)) || ((first =? 0xed) && (0xa0 <=? second))
            then None else Some 3
        | _ => None
        end
      else if (0xf0 <=? first) && (first <=? 0xf4) then
        match l with
        | second :: third :: fourth :: _ =>
            if negb (continuation second) || negb (continuation third) || negb (continuation fourth) ||
               ((first =? 0xf0) && (second <? 0x90)) || ((first =? 0xf4) && (0x90 <=? second)) then None else Some 4
        | _ => None
        end
      else None
  end.

Lemma continuation_range b : 0 <= b < 256 -> continuation b = (0x80 <=? b) && (b <? 0xc0).
Proof.
  intros Hb. assert (H : forallb (fun b => Bool.eqb (continuation b) ((0x80 <=? b) && (b <? 0xc0))) (seqZ 0 256) = true) by (vm_compute; reflexivity).
  rewrite forallb_forall in H. apply eqb_prop, H, list_elem_of_In, elem_of_seqZ. lia.
Qed.

Lemma unsigned_at_run text index : 0 <= index ->
  unsigned_at text index = match map char_value (drop (Z.to_nat index) text) with b :: _ => Ret b | [] => Stop Undefined end.
Proof.
  intros Hi. unfold unsigned_at, slot. destruct (text !! Z.to_nat index) as [c|] eqn:E.
  - by rewrite (drop_S _ _ _ E).
  - by rewrite drop_ge by (by apply lookup_ge_None).
Qed.

Lemma sequence_run text index : 0 <= index < Z.of_nat (length text) ->
  utf8_sequence index text = Ret (sequence_of (map char_value (drop (Z.to_nat index) text))).
Proof.
  intros Hi. unfold utf8_sequence. rewrite !unsigned_at_run by lia.
  assert (Hlen : length (drop (Z.to_nat index) text) = (length text - Z.to_nat index)%nat) by apply length_drop.
  replace (Z.to_nat (index + 1)) with (Z.to_nat index + 1)%nat by lia. replace (Z.to_nat (index + 2)) with (Z.to_nat index + 2)%nat by lia.
  replace (Z.to_nat (index + 3)) with (Z.to_nat index + 3)%nat by lia. rewrite <- !drop_drop.
  destruct (drop (Z.to_nat index) text) as [|c0 l] eqn:E; [cbn in Hlen; lia|]. cbn [map outcome_bind mbind sequence_of drop length] in *.
  destruct (char_value c0 <=? 0x7f); [done|].
  destruct l as [|c1 [|c2 [|c3 l]]]; cbn [map drop length] in *; rewrite ?drop_0; cbn [map];
    repeat (match goal with |- context [Z.of_nat (length text) <=? ?x] => destruct (Z.leb_spec (Z.of_nat (length text)) x); try lia end);
    cbn [mbind outcome_bind]; by repeat case_match.
Qed.

Ltac utf8_arith := unfold tail_byte, is_scalar in *; Z.to_euclidean_division_equations; lia.

(** The front of the encoding of a scalar value is recognized. *)
Lemma sequence_of_scalar c rest : is_scalar c -> sequence_of (utf8_bytes c ++ rest) = Some (Z.of_nat (length (utf8_bytes c))).
Proof.
  intros Hc. unfold utf8_bytes. destruct (Z.ltb_spec c 0x80) as [H1|H1].
  { cbn [app sequence_of length]. by rewrite (proj2 (Z.leb_le c 0x7f)) by lia. }
  assert (Ht : forall x, continuation (tail_byte x) = true).
  { intros x. assert (0x80 <= tail_byte x < 0xc0) by utf8_arith. rewrite continuation_range by lia. apply andb_true_iff. rewrite Z.leb_le, Z.ltb_lt. lia. }
  destruct (Z.ltb_spec c 0x800) as [H2|H2]; [|destruct (Z.ltb_spec c 0x10000) as [H3|H3]]; cbn [app sequence_of length]; rewrite ?Ht.
  - assert (0xc2 <= 0xc0 + c / 64 <= 0xdf) by utf8_arith. rewrite (proj2 (Z.leb_gt _ 0x7f)) by lia. by rewrite (proj2 (Z.leb_le 0xc2 _)), (proj2 (Z.leb_le _ 0xdf)) by lia.
  - assert (H0 : 0xe0 <= 0xe0 + c / 4096 <= 0xef) by utf8_arith. rewrite (proj2 (Z.leb_gt _ 0x7f)) by lia.
    rewrite (proj2 (Z.leb_le 0xc2 _)), (proj2 (Z.leb_gt _ 0xdf)), (proj2 (Z.leb_le 0xe0 _)), (proj2 (Z.leb_le _ 0xef)) by lia. cbn [andb negb orb].
    destruct (Z.eqb_spec (0xe0 + c / 4096) 0xe0) as [E1|E1]; cbn [andb].
    + rewrite (proj2 (Z.ltb_ge _ _)) by utf8_arith. by rewrite (proj2 (Z.eqb_neq _ 0xed)) by lia.
    + destruct (Z.eqb_spec (0xe0 + c / 4096) 0xed) as [E2|E2]; [|done]. cbn [andb orb]. by rewrite (proj2 (Z.leb_gt _ _)) by utf8_arith.
  - assert (H0 : 0xf0 <= 0xf0 + c / 262144 <= 0xf4) by utf8_arith. rewrite (proj2 (Z.leb_gt _ 0x7f)) by lia.
    rewrite (proj2 (Z.leb_le 0xc2 _)), (proj2 (Z.leb_gt _ 0xdf)), (proj2 (Z.leb_le 0xe0 _)), (proj2 (Z.leb_gt _ 0xef)), (proj2 (Z.leb_le 0xf0 _)), (proj2 (Z.leb_le _ 0xf4)) by lia.
    cbn [andb negb orb]. destruct (Z.eqb_spec (0xf0 + c / 262144) 0xf0) as [E1|E1]; cbn [andb].
    + rewrite (proj2 (Z.ltb_ge _ _)) by utf8_arith. by rewrite (proj2 (Z.eqb_neq _ 0xf4)) by lia.
    + destruct (Z.eqb_spec (0xf0 + c / 262144) 0xf4) as [E2|E2]; [|done]. cbn [andb orb]. by rewrite (proj2 (Z.leb_gt _ _)) by utf8_arith.
Qed.

(** The encoding of a value that is built from its parts. *)
Lemma bytes_of_parts c (l : list Z) : is_scalar c ->
  match l with
  | [b0] => c = b0 /\ c < 0x80
  | [b0; b1] => 0x80 <= b1 < 0xc0 /\ c = (b0 - 0xc0) * 64 + (b1 - 0x80) /\ 0x80 <= c < 0x800
  | [b0; b1; b2] => 0x80 <= b1 < 0xc0 /\ 0x80 <= b2 < 0xc0 /\ c = (b0 - 0xe0) * 4096 + (b1 - 0x80) * 64 + (b2 - 0x80) /\ 0x800 <= c < 0x10000
  | [b0; b1; b2; b3] => 0x80 <= b1 < 0xc0 /\ 0x80 <= b2 < 0xc0 /\ 0x80 <= b3 < 0xc0 /\
      c = (b0 - 0xf0) * 262144 + (b1 - 0x80) * 4096 + (b2 - 0x80) * 64 + (b3 - 0x80) /\ 0x10000 <= c
  | _ => False
  end -> utf8_bytes c = l.
Proof.
  intros Hc H. unfold utf8_bytes. destruct l as [|b0 [|b1 [|b2 [|b3 [|]]]]]; try done.
  - destruct H as [<- H]. by rewrite (proj2 (Z.ltb_lt _ _)).
  - destruct H as (H1 & Hv & H2). rewrite (proj2 (Z.ltb_ge _ 0x80)), (proj2 (Z.ltb_lt _ 0x800)) by lia. repeat f_equal; utf8_arith.
  - destruct H as (H1 & H2 & Hv & H3). rewrite (proj2 (Z.ltb_ge _ 0x80)), (proj2 (Z.ltb_ge _ 0x800)), (proj2 (Z.ltb_lt _ 0x10000)) by lia. repeat f_equal; utf8_arith.
  - destruct H as (H1 & H2 & H3 & Hv & H4). rewrite (proj2 (Z.ltb_ge _ 0x80)), (proj2 (Z.ltb_ge _ 0x800)), (proj2 (Z.ltb_ge _ 0x10000)) by lia. repeat f_equal; utf8_arith.
Qed.

(** A recognized front is the encoding of a scalar value. *)
Lemma sequence_of_sound l n : Forall (fun b => 0 <= b < 256) l -> sequence_of l = Some n ->
  exists c rest, is_scalar c /\ l = utf8_bytes c ++ rest /\ n = Z.of_nat (length (utf8_bytes c)).
Proof.
  intros Hl H. assert (Hfront : forall c front rest, is_scalar c -> utf8_bytes c = front -> l = front ++ rest -> n = Z.of_nat (length front) ->
    exists c rest, is_scalar c /\ l = utf8_bytes c ++ rest /\ n = Z.of_nat (length (utf8_bytes c))).
  { intros c front rest Hc Hb -> ->. exists c, rest. by rewrite Hb. }
  destruct l as [|b0 l]; cbn [sequence_of] in H; [done|]. apply list.Forall_cons in Hl as [H0 Hl].
  destruct (Z.leb_spec b0 0x7f) as [Ha|Ha].
  { injection H as <-. assert (Hc : is_scalar b0) by (unfold is_scalar; lia). eapply (Hfront b0 [b0]); [done|apply bytes_of_parts; [done|lia]|done|done]. }
  destruct (_ && _) eqn:E2 in H.
  { apply andb_true_iff in E2 as [E2 E3]. apply Z.leb_le in E2, E3. destruct l as [|b1 l]; [done|]. apply list.Forall_cons in Hl as [H1 Hl].
    rewrite continuation_range in H by done. destruct (negb _) eqn:C in H; [done|]. injection H as <-. apply negb_false_iff, andb_true_iff in C as [C1 C2].
    apply Z.leb_le in C1. apply Z.ltb_lt in C2. assert (Hc : is_scalar ((b0 - 0xc0) * 64 + (b1 - 0x80))) by (unfold is_scalar; lia).
    eapply (Hfront _ [b0; b1]); [exact Hc|apply bytes_of_parts; [done|lia]|done|done]. }
  destruct (_ && _) eqn:E3 in H.
  { apply andb_true_iff in E3 as [E3 E4]. apply Z.leb_le in E3, E4. destruct l as [|b1 [|b2 l]]; [done|done|]. apply list.Forall_cons in Hl as [H1 Hl]. apply list.Forall_cons in Hl as [H2 Hl].
    rewrite !continuation_range in H by done. destruct (_ || _) eqn:C in H; [done|]. injection H as <-.
    rewrite !orb_false_iff, !negb_false_iff, !andb_true_iff, !andb_false_iff, !Z.eqb_neq, !Z.leb_le, !Z.leb_gt, !Z.ltb_lt, !Z.ltb_ge in C.
    assert (Hc : is_scalar ((b0 - 0xe0) * 4096 + (b1 - 0x80) * 64 + (b2 - 0x80))) by (unfold is_scalar; lia).
    eapply (Hfront _ [b0; b1; b2]); [exact Hc|apply bytes_of_parts; [done|lia]|done|done]. }
  destruct (_ && _) eqn:E4 in H; [|done].
  apply andb_true_iff in E4 as [E4 E5]. apply Z.leb_le in E4, E5. destruct l as [|b1 [|b2 [|b3 l]]]; [done|done|done|].
  apply list.Forall_cons in Hl as [H1 Hl]. apply list.Forall_cons in Hl as [H2 Hl]. apply list.Forall_cons in Hl as [H3 Hl].
  rewrite !continuation_range in H by done. destruct (_ || _) eqn:C in H; [done|]. injection H as <-.
  rewrite !orb_false_iff, !negb_false_iff, !andb_true_iff, !andb_false_iff, !Z.eqb_neq, !Z.leb_le, !Z.leb_gt, !Z.ltb_lt, !Z.ltb_ge in C.
  assert (Hc : is_scalar ((b0 - 0xf0) * 262144 + (b1 - 0x80) * 4096 + (b2 - 0x80) * 64 + (b3 - 0x80))) by (unfold is_scalar; lia).
  eapply (Hfront _ [b0; b1; b2; b3]); [exact Hc|apply bytes_of_parts; [done|lia]|done|done].
Qed.

Lemma utf8_bytes_nonempty c : (0 < length (utf8_bytes c))%nat.
Proof. unfold utf8_bytes. repeat case_match; cbn; lia. Qed.

Lemma utf8_loop_run text fuel : forall index, 0 <= index <= Z.of_nat (length text) -> Z.of_nat (length text) < index + Z.of_nat fuel ->
  exists b, utf8_loop fuel index text = Ret b /\ (b = true <-> is_utf8 (drop (Z.to_nat index) text)).
Proof.
  induction fuel as [|fuel IH]; intros index Hi Hf; cbn [utf8_loop].
  { lia. }
  destruct (Z.leb_spec (Z.of_nat (length text)) index) as [Hend|Hend].
  { exists true. split; [done|]. split; [|done]. intros _. exists []. rewrite drop_ge by lia. by split; [constructor|]. }
  rewrite sequence_run by lia. rewrite outcome_bind_Ret. set (l := map char_value (drop (Z.to_nat index) text)).
  assert (Hbytes : Forall (fun b => 0 <= b < 256) l).
  { apply list.Forall_forall. intros b Hb. apply list_elem_of_fmap in Hb as (c & -> & _). apply char_value_range. }
  destruct (sequence_of l) as [n|] eqn:E.
  - destruct (sequence_of_sound l n Hbytes E) as (c & rest & Hc & El & ->). destruct (IH (index + Z.of_nat (length (utf8_bytes c)))) as (b & -> & Hb); [|pose proof (utf8_bytes_nonempty c); lia|].
    { apply (f_equal length) in El. unfold l in El. rewrite length_map, length_drop, length_app in El. lia. }
    exists b. split; [done|]. rewrite Hb. unfold is_utf8. fold l.
    replace (Z.to_nat (index + Z.of_nat (length (utf8_bytes c)))) with (Z.to_nat index + length (utf8_bytes c))%nat by lia. rewrite <- drop_drop.
    assert (Hrest : map char_value (drop (length (utf8_bytes c)) (drop (Z.to_nat index) text)) = rest).
    { etransitivity; [apply fmap_drop|]. change (char_value <$> drop (Z.to_nat index) text) with l. by rewrite El, drop_app_length. }
    rewrite Hrest. split.
    + intros (scalars & Hs & Er). exists (c :: scalars). split; [by constructor|]. cbn [map concat]. by rewrite El, Er.
    + intros (scalars & Hs & Er). destruct scalars as [|c' scalars]; [rewrite Er in E; done|]. apply list.Forall_cons in Hs as [Hc' Hs]. cbn [map concat] in Er.
      rewrite Er, sequence_of_scalar in E by done. injection E as E%Nat2Z.inj. exists scalars. split; [done|]. rewrite Er in El. by apply app_inj_1 in El as [_ ->].
  - exists false. split; [done|]. split; [done|]. intros (scalars & Hs & Er). fold l in Er. exfalso. destruct scalars as [|c' scalars].
    + cbn in Er. apply (f_equal length) in Er. unfold l in Er. rewrite length_map, length_drop in Er. cbn in Er. lia.
    + apply list.Forall_cons in Hs as [Hc' Hs]. cbn [map concat] in Er. rewrite Er, sequence_of_scalar in E by done. done.
Qed.

Lemma valid_utf8_run text : exists b, valid_utf8 text = Ret b /\ (b = true <-> is_utf8 text).
Proof. apply (utf8_loop_run text (S (length text)) 0); lia. Qed.

(** ** Texts *)
Lemma otlp_text_run (capacity : nat) (text : TextView) : Z.of_nat capacity <= 65535 ->
  (forall t, OtlpText_from capacity text = Ret (Ok t) -> OtlpText_value t = text /\ length (ot_bytes t) = capacity /\ ot_size t = Z.of_nat (length text)) /\
  (((length text <= capacity)%nat /\ is_utf8 text) -> exists t, OtlpText_from capacity text = Ret (Ok t)) /\
  ((length text <= capacity)%nat -> ~ is_utf8 text -> OtlpText_from capacity text = Ret (Err otlp_utf8_error)) /\
  ((capacity < length text)%nat -> OtlpText_from capacity text = Ret (Err otlp_capacity_error)).
Proof.
  intros Hcap. unfold OtlpText_from. destruct (Z.ltb_spec (Z.of_nat capacity) (Z.of_nat (length text))) as [Hl|Hl].
  { split; [done|]. split; [intros []; lia|]. split; [lia|done]. }
  destruct (valid_utf8_run text) as (b & -> & Hb). rewrite outcome_bind_Ret. destruct b; cbn [negb].
  - assert (Hu : is_utf8 text) by (by apply Hb). cbn [OtlpText_default ot_bytes]. rewrite copy_into_run by (rewrite ?length_replicate; lia). rewrite outcome_bind_Ret.
    rewrite cast_in_range by (done || (unfold int_min, int_max; cbn; lia)).
    split; [|by split; [eauto|split; [|lia]]]. intros t E. injection E as <-. unfold OtlpText_value. cbn [ot_bytes ot_size]. rewrite Nat2Z.id.
    change (take (Z.to_nat 0) ?x ++ ?y) with y. rewrite take_app_length, length_app, length_drop, length_replicate. split; [done|]. split; [lia|done].
  - assert (Hu : ~ is_utf8 text) by (intros H; by apply Hb in H). split; [done|]. split; [by intros []|]. split; [done|lia].
Qed.

(** A telemetry text of a capacity of at most 65535 bytes is made exactly from the texts that
    fit and are UTF-8, the encoding of a sequence of Unicode scalar values without surrogates
    and without overlong forms; its value is the text; a text that does not fit is refused as
    exhaustion and one that is not UTF-8 as invalid, and the check reads no byte outside of it. *)
Theorem otlp_text_exact (capacity : nat) (text : TextView) : Z.of_nat capacity <= 65535 ->
  (forall t, OtlpText_from capacity text = Ret (Ok t) -> OtlpText_value t = text /\ length (ot_bytes t) = capacity /\ ot_size t = Z.of_nat (length text)) /\
  (((length text <= capacity)%nat /\ is_utf8 text) -> exists t, OtlpText_from capacity text = Ret (Ok t)) /\
  ((length text <= capacity)%nat -> ~ is_utf8 text -> OtlpText_from capacity text = Ret (Err otlp_utf8_error)) /\
  ((capacity < length text)%nat -> OtlpText_from capacity text = Ret (Err otlp_capacity_error)).
Proof. exact (otlp_text_run capacity text). Qed.

(** The euro sign and a letter; an overlong slash. *)
Definition euro : list ascii := [ascii_of_nat 226; ascii_of_nat 130; ascii_of_nat 172; "x"%char].

Lemma otlp_text_exact_witness : (exists t, OtlpText_from 64 euro = Ret (Ok t)) /\ is_utf8 euro.
Proof.
  assert (H : is_utf8 euro) by (exists [0x20ac; 120]; split; [repeat constructor; lia|vm_compute; reflexivity]).
  split; [|exact H]. destruct (otlp_text_exact 64 euro) as (_ & H1 & _); [lia|]. apply H1. split; [cbn; lia|exact H].
Defined.

(** * Telemetry requests as protobuf messages

    A message is a tree of fields; its bytes are given by a reference encoder, and a reader of
    the wire format recovers the tree from them.  The encoders write exactly these bytes when
    they fit in the output, and refuse otherwise. *)

(** ** The wire format *)
Inductive pb_field :=
  | FVarint (n v : Z)
  | FFixed64 (n v : Z)
  | FBytes (n : Z) (l : list Z)
  | FMessage (n : Z) (fields : list pb_field).

(** Groups of seven bits, the lowest first; 64-bit values have at most ten. *)
Fixpoint varint_groups (more : nat) (v : Z) : list Z :=
  match more with
  | O => [v mod 128]
  | S more => if v <? 128 then [v] else (128 + v mod 128) :: varint_groups more (v / 128)
  end.
Definition varint_bytes (v : Z) : list Z := varint_groups 9 v.
Definition key_bytes (n wire : Z) : list Z := varint_bytes (8 * n + wire).
Fixpoint le_bytes (count : nat) (v : Z) : list Z := match count with O => [] | S count => v mod 256 :: le_bytes count (v / 256) end.
Definition delimited_bytes (n : Z) (payload : list Z) : list Z := key_bytes n 2 ++ varint_bytes (Z.of_nat (length payload)) ++ payload.

Fixpoint field_bytes (f : pb_field) : list Z :=
  match f with
  | FVarint n v => key_bytes n 0 ++ varint_bytes v
  | FFixed64 n v => key_bytes n 1 ++ le_bytes 8 v
  | FBytes n l => delimited_bytes n l
  | FMessage n fields => delimited_bytes n (concat (map field_bytes fields))
  end.
Definition fields_bytes (fields : list pb_field) : list Z := concat (map field_bytes fields).

(** A reader of the format. *)
Inductive wire_value := WVarint (v : Z) | WFixed64 (v : Z) | WBytes (l : list Z).

Fixpoint read_varint (l : list Z) : option (Z * list Z) :=
  match l with
  | [] => None
  | b :: l => if b <? 128 then Some (b, l) else '(v, l) ← read_varint l; Some (b - 128 + 128 * v, l)
  end.
Fixpoint read_le (count : nat) (l : list Z) : option (Z * list Z) :=
  match count, l with
  | O, _ => Some (0, l)
  | S count, b :: l => '(v, l) ← read_le count l; Some (b + 256 * v, l)
  | S _, [] => None
  end.
Definition read_item (l : list Z) : option (Z * wire_value * list Z) :=
  '(key, l) ← read_varint l;
  if key mod 8 =? 0 then '(v, l) ← read_varint l; Some (key / 8, WVarint v, l) else
  if key mod 8 =? 1 then '(v, l) ← read_le 8 l; Some (key / 8, WFixed64 v, l) else
  if key mod 8 =? 2 then
    '(size, l) ← read_varint l;
    if Z.of_nat (length l) <? size then None else Some (key / 8, WBytes (take (Z.to_nat size) l), drop (Z.to_nat size) l)
  else None.
Fixpoint read_items (fuel : nat) (l : list Z) : option (list (Z * wire_value)) :=
  match l, fuel with
  | [], _ => Some []
  | _, O => None
  | _, S fuel => '(item, rest) ← read_item l; cons item <$> read_items fuel rest
  end.
Definition read_wire (l : list Z) : option (list (Z * wire_value)) := read_items (length l) l.

(** The bytes read as the fields, messages by their bytes in turn. *)
Inductive reads_as : list Z -> list pb_field -> Prop :=
  | reads_fields l items fields : read_wire l = Some items -> Forall2 item_as items fields -> reads_as l fields
with item_as : Z * wire_value -> pb_field -> Prop :=
  | item_varint n v : item_as (n, WVarint v) (FVarint n v)
  | item_fixed64 n v : item_as (n, WFixed64 v) (FFixed64 n v)
  | item_bytes n l : item_as (n, WBytes l) (FBytes n l)
  | item_message n l fields : reads_as l fields -> item_as (n, WBytes l) (FMessage n fields).

Definition number_ok (n : Z) : Prop := 0 <= n < 2 ^ 29.
Definition size_ok (l : list Z) : Prop := Z.of_nat (length l) <= u64_max.
Inductive field_ok : pb_field -> Prop :=
  | ok_varint n v : number_ok n -> 0 <= v <= u64_max -> field_ok (FVarint n v)
  | ok_fixed64 n v : number_ok n -> 0 <= v <= u64_max -> field_ok (FFixed64 n v)
  | ok_bytes n l : number_ok n -> size_ok l -> field_ok (FBytes n l)
  | ok_message n fields : number_ok n -> size_ok (fields_bytes fields) -> Forall field_ok fields -> field_ok (FMessage n fields).

Lemma read_varint_groups more : forall v rest, 0 <= v < 128 ^ Z.of_nat (S more) -> read_varint (varint_groups more v ++ rest) = Some (v, rest).
Proof.
  induction more as [|more IH]; intros v rest Hv; cbn [varint_groups].
  - cbn [app read_varint]. rewrite Z.mod_small by lia. by rewrite (proj2 (Z.ltb_lt v 128)) by lia.
  - destruct (Z.ltb_spec v 128) as [Hs|Hs]; cbn [app read_varint].
    + by rewrite (proj2 (Z.ltb_lt v 128)) by lia.
    + pose proof (Z.mod_pos_bound v 128 ltac:(lia)). rewrite (proj2 (Z.ltb_ge (128 + v mod 128) 128)) by lia.
      rewrite IH; [|rewrite (Nat2Z.inj_succ (S more)), Z.pow_succ_r in Hv by lia; split; [apply Z.div_pos; lia|apply Z.div_lt_upper_bound; lia]].
      cbn [mbind option_bind]. do 2 f_equal. rewrite (Z.div_mod v 128) at 3 by lia. lia.
Qed.

Lemma read_varint_bytes v rest : 0 <= v <= u64_max -> read_varint (varint_bytes v ++ rest) = Some (v, rest).
Proof. intros Hv. apply read_varint_groups. unfold u64_max in Hv. cbn. lia. Qed.

Lemma read_le_bytes count : forall v rest, 0 <= v < 256 ^ Z.of_nat count -> read_le count (le_bytes count v ++ rest) = Some (v, rest).
Proof.
  induction count as [|count IH]; intros v rest Hv; cbn [le_bytes app read_le]; [do 2 f_equal; cbn in Hv; lia|].
  rewrite IH; [|rewrite Nat2Z.inj_succ, Z.pow_succ_r in Hv by lia; split; [apply Z.div_pos; lia|apply Z.div_lt_upper_bound; lia]].
  cbn [mbind option_bind]. do 2 f_equal. rewrite (Z.div_mod v 256) at 3 by lia. lia.
Qed.

Lemma key_parts n wire : 0 <= wire < 8 -> (8 * n + wire) mod 8 = wire /\ (8 * n + wire) / 8 = n.
Proof. intros Hw. rewrite Z.add_comm, Z.mul_comm, Z_mod_plus_full, Z.mod_small, Z.div_add, Z.div_small by lia. lia. Qed.

Lemma read_key n wire rest : number_ok n -> 0 <= wire < 8 -> read_varint (key_bytes n wire ++ rest) = Some (8 * n + wire, rest).
Proof. intros Hn Hw. apply read_varint_bytes. unfold number_ok, u64_max in *. lia. Qed.

(** What one field is read as. *)
Definition field_item (f : pb_field) : Z * wire_value :=
  match f with
  | FVarint n v => (n, WVarint v)
  | FFixed64 n v => (n, WFixed64 v)
  | FBytes n l => (n, WBytes l)
  | FMessage n fields => (n, WBytes (fields_bytes fields))
  end.

Lemma read_field f rest : field_ok f -> read_item (field_bytes f ++ rest) = Some (field_item f, rest).
Proof.
  assert (Hd : forall n l, number_ok n -> size_ok l -> read_item (delimited_bytes n l ++ rest) = Some (n, WBytes l, rest)).
  { intros n l Hn Hl. unfold read_item, delimited_bytes. rewrite <- !app_assoc, read_key by (done || lia). cbn [mbind option_bind].
    destruct (key_parts n 2 ltac:(lia)) as [-> ->]. cbn [Z.eqb Pos.eqb]. rewrite read_varint_bytes by (unfold size_ok in Hl; lia). cbn [mbind option_bind].
    rewrite (proj2 (Z.ltb_ge _ _)) by (rewrite length_app; lia). rewrite Nat2Z.id, take_app_length, drop_app_length. done. }
  destruct 1 as [n v Hn Hv|n v Hn Hv|n l Hn Hl|n fields Hn Hl _]; cbn [field_bytes field_item]; [| |by apply Hd|by apply Hd].
  - unfold read_item. rewrite <- app_assoc, read_key by (done || lia). cbn [mbind option_bind]. destruct (key_parts n 0 ltac:(lia)) as [-> ->]. cbn [Z.eqb].
    by rewrite read_varint_bytes.
  - unfold read_item. rewrite <- app_assoc, read_key by (done || lia). cbn [mbind option_bind]. destruct (key_parts n 1 ltac:(lia)) as [-> ->]. cbn [Z.eqb].
    rewrite read_le_bytes; [done|]. unfold u64_max in Hv. cbn. lia.
Qed.

Lemma varint_bytes_nonempty v : (0 < length (varint_bytes v))%nat.
Proof. unfold varint_bytes. cbn [varint_groups]. destruct (v <? 128); cbn [length]; lia. Qed.

Lemma field_bytes_nonempty f : (0 < length (field_bytes f))%nat.
Proof.
  destruct f; cbn [field_bytes]; unfold delimited_bytes, key_bytes; rewrite length_app;
    match goal with |- context [varint_bytes ?v] => pose proof (varint_bytes_nonempty v) end; lia.
Qed.

Lemma read_items_fields fields : forall fuel, Forall field_ok fields -> (length (fields_bytes fields) <= fuel)%nat ->
  read_items fuel (fields_bytes fields) = Some (map field_item fields).
Proof.
  induction fields as [|f fields IH]; intros fuel Hok Hfuel; [by destruct fuel|].
  apply list.Forall_cons in Hok as [Hf Hok]. unfold fields_bytes in *. cbn [map concat] in *. pose proof (field_bytes_nonempty f) as Hne. rewrite length_app in Hfuel.
  destruct (field_bytes f ++ concat (map field_bytes fields)) as [|b l] eqn:E; [apply (f_equal length) in E; rewrite length_app in E; cbn in E; lia|].
  destruct fuel as [|fuel]; [lia|]. cbn [read_items]. rewrite <- E, read_field by done. cbn [mbind option_bind]. rewrite IH by (done || lia). done.
Qed.

Section field_induction.
Context (P : pb_field -> Prop) (Hv : forall n v, P (FVarint n v)) (Hf : forall n v, P (FFixed64 n v)) (Hb : forall n l, P (FBytes n l))
  (Hm : forall n fields, Forall P fields -> P (FMessage n fields)).
Fixpoint field_tree_ind (f : pb_field) : P f :=
  match f with
  | FVarint n v => Hv n v
  | FFixed64 n v => Hf n v
  | FBytes n l => Hb n l
  | FMessage n fields => Hm n fields ((fix go l : Forall P l := match l with [] => Forall_nil_2 P | f :: l => Forall_cons_2 P f l (field_tree_ind f) (go l) end) fields)
  end.
End field_induction.

Lemma fields_read fields : Forall field_ok fields -> Forall (fun f => field_ok f -> item_as (field_item f) f) fields -> reads_as (fields_bytes fields) fields.
Proof.
  intros Hok Hitems. apply (reads_fields _ (map field_item fields)); [by apply read_items_fields|].
  induction Hitems as [|f fields Hf _ IH]; [constructor|]. apply list.Forall_cons in Hok as [Hok Hrest]. constructor; auto.
Qed.

Lemma field_reads f : field_ok f -> item_as (field_item f) f.
Proof.
  induction f as [n v|n v|n l|n fields IH] using field_tree_ind; intros Hok; cbn [field_item]; [constructor..|]. constructor.
  inversion Hok; subst. by apply fields_read.
Qed.

(** The reader recovers every well-formed tree from its bytes. *)
Lemma tree_reads fields : Forall field_ok fields -> reads_as (fields_bytes fields) fields.
Proof. intros Hok. apply fields_read; [done|]. apply list.Forall_forall. intros f _. apply field_reads. Qed.

(** * The encoders of telemetry write the bytes of their trees

    What an encoder does on the counter and on the writer, proved once for each primitive and
    composed along the code. *)

Lemma key_of_sum n wire : 0 <= wire < 8 -> key_of n wire = 8 * n + wire.
Proof.
  intros Hw. unfold key_of. rewrite Z.shiftl_mul_pow2 by lia. change (2 ^ 3) with 8.
  assert (Hd : Z.land (n * 8) wire = 0).
  { apply Z.bits_inj'. intros i Hi. rewrite Z.land_spec, Z.bits_0. change 8 with (2 ^ 3). destruct (Z.lt_ge_cases i 3) as [Hs|Hs].
    - by rewrite Z.mul_pow2_bits_low.
    - rewrite (Z.bits_above_log2 wire i), andb_false_r; [done|lia|]. destruct (Z.eq_dec wire 0) as [->|]; [cbn; lia|].
      assert (Z.log2 wire < 3); [apply Z.log2_lt_pow2; lia|lia]. }
  rewrite <- Z.lxor_lor, <- Z.add_nocarry_lxor by done. lia.
Qed.

(** ** The counter *)
Definition counts (e : encoder Sizer) (n : Z) : Prop := forall s, 0 <= sz_used s <= u64_max -> e s = Ret (true, MkSizer (u64 (sz_used s + n))).

Lemma varint_size_groups more : forall v result, 0 <= v < 128 ^ Z.of_nat (S more) -> 0 <= result -> result + Z.of_nat more < u64_max ->
  varint_size_loop (S more) v result = Ret (result + Z.of_nat (length (varint_groups more v)) - 1).
Proof.
  induction more as [|more IH]; intros v result Hv Hr Hb; cbn [varint_groups].
  - cbn [varint_size_loop]. rewrite (proj2 (Z.leb_gt _ _)) by (cbn in Hv; lia). cbn [length]. f_equal. lia.
  - change (varint_size_loop (S (S more)) v result) with (if 0x80 <=? v then varint_size_loop (S more) (Z.shiftr v 7) (u64 (result + 1)) else Ret result).
    destruct (Z.ltb_spec v 128) as [Hs|Hs].
    + rewrite (proj2 (Z.leb_gt _ _)) by lia. cbn [length]. f_equal. lia.
    + rewrite (proj2 (Z.leb_le _ _)) by lia. rewrite Z.shiftr_div_pow2 by lia. change (2 ^ 7) with 128. rewrite u64_small by lia.
      rewrite IH; [cbn [length]; f_equal; lia|rewrite (Nat2Z.inj_succ (S more)), Z.pow_succ_r in Hv by lia; split; [apply Z.div_pos; lia|apply Z.div_lt_upper_bound; lia]|lia|lia].
Qed.

Lemma varint_size_run v : 0 <= v <= u64_max -> varint_size v = Ret (Z.of_nat (length (varint_bytes v))).
Proof.
  intros Hv. unfold varint_size, varint_fuel. rewrite varint_size_groups; [f_equal; unfold varint_bytes; lia|unfold u64_max in Hv; cbn; lia|lia|unfold u64_max; lia].
Qed.

Lemma varint_bytes_length v : (0 < length (varint_bytes v) <= 10)%nat.
Proof.
  assert (H : forall more w, (0 < length (varint_groups more w) <= S more)%nat).
  { induction more as [|more IH]; intros w; cbn [varint_groups]; [cbn; lia|]. destruct (w <? 128); cbn [length]; [lia|]. specialize (IH (w / 128)). lia. }
  apply H.
Qed.

Lemma u64_add_l a b : u64 (u64 a + b) = u64 (a + b).
Proof. unfold u64. by rewrite Zplus_mod_idemp_l. Qed.

Lemma u64_add_r a b : u64 (a + u64 b) = u64 (a + b).
Proof. unfold u64. by rewrite Zplus_mod_idemp_r. Qed.

Lemma counts_and a b m n : counts a m -> counts b n -> counts (a &&& b) (m + n).
Proof.
  intros Ha Hb s Hs. unfold and_then. rewrite Ha, outcome_bind_Ret, Hb by (done || apply u64_range). cbn [sz_used]. by rewrite u64_add_l, Z.add_assoc.
Qed.

Lemma counts_accept : counts accept 0.
Proof. intros s Hs. rewrite Z.add_0_r, u64_small by done. by destruct s. Qed.

Lemma counts_varint v : 0 <= v <= u64_max -> counts (Sizer_varint v) (Z.of_nat (length (varint_bytes v))).
Proof. intros Hv s _. unfold Sizer_varint. by rewrite varint_size_run. Qed.

Lemma counts_tag n wire : number_ok n -> 0 <= wire < 8 -> counts (Sizer_tag n wire) (Z.of_nat (length (key_bytes n wire))).
Proof. intros Hn Hw. unfold Sizer_tag, key_bytes. rewrite key_of_sum by done. apply counts_varint. unfold number_ok, u64_max in *. lia. Qed.

Lemma counts_delimited n payload : number_ok n -> size_ok payload ->
  counts (Sizer_delimited n (Z.of_nat (length payload))) (Z.of_nat (length (delimited_bytes n payload))).
Proof.
  intros Hn Hs s _. unfold Sizer_delimited. rewrite key_of_sum by lia.
  rewrite (varint_size_run (8 * n + 2)), outcome_bind_Ret by (unfold number_ok, u64_max in *; lia). rewrite varint_size_run, outcome_bind_Ret by (unfold size_ok in Hs; lia).
  unfold Sizer_add. rewrite u64_add_r. unfold delimited_bytes, key_bytes. rewrite !length_app, !Nat2Z.inj_add. do 4 f_equal. lia.
Qed.

Lemma counts_fixed64 n v : number_ok n -> counts (Sizer_fixed64 n v) (Z.of_nat (length (key_bytes n 1 ++ le_bytes 8 v))).
Proof.
  intros Hn s _. unfold Sizer_fixed64. rewrite key_of_sum by lia. rewrite varint_size_run, outcome_bind_Ret by (unfold number_ok, u64_max in *; lia).
  unfold Sizer_add. rewrite u64_add_r, length_app, Nat2Z.inj_add. done.
Qed.

Lemma counts_message n e payload : number_ok n -> size_ok payload -> counts e (Z.of_nat (length payload)) ->
  counts (Sizer_message n e) (Z.of_nat (length (delimited_bytes n payload))).
Proof.
  intros Hn Hs He s Hu. unfold Sizer_message. rewrite He, outcome_bind_Ret by (cbn; unfold u64_max; lia). cbn [negb sz_used]. rewrite u64_small by (unfold size_ok in Hs; lia). by apply counts_delimited.
Qed.

(** ** The writer *)
Definition writer_ok (w : Writer) : Prop := 0 <= wr_used w <= Z.of_nat (length (wr_output w)) /\ Z.of_nat (length (wr_output w)) <= size_max.
Definition written (w : Writer) (l : list Z) : Writer :=
  MkWriter (take (Z.to_nat (wr_used w)) (wr_output w) ++ l ++ drop (Z.to_nat (wr_used w) + length l) (wr_output w)) (wr_used w + Z.of_nat (length l)).
Definition fits (w : Writer) (l : list Z) : Prop := wr_used w + Z.of_nat (length l) <= Z.of_nat (length (wr_output w)).
#[export] Instance fits_decision w l : Decision (fits w l) := Z.le_dec _ _.

Record writes (e : encoder Writer) (l : list Z) : Prop := {
  writes_done w : writer_ok w -> fits w l -> e w = Ret (true, written w l);
  writes_full w : writer_ok w -> ~ fits w l -> exists w', e w = Ret (false, w') /\ length (wr_output w') = length (wr_output w) }.

Lemma written_ok w l : writer_ok w -> fits w l -> writer_ok (written w l) /\ length (wr_output (written w l)) = length (wr_output w).
Proof.
  unfold writer_ok, fits. intros [[H1 H2] H3] H4. cbn [written wr_output wr_used].
  rewrite !length_app, length_take, length_drop. lia.
Qed.

Lemma written_written w k l : writer_ok w -> fits w (k ++ l) -> written (written w k) l = written w (k ++ l).
Proof.
  unfold writer_ok, fits. rewrite length_app. intros [[H1 H2] H3] H4. unfold written. cbn [wr_output wr_used].
  rewrite length_app. f_equal; [|lia].
  replace (Z.to_nat (wr_used w + Z.of_nat (length k))) with (Z.to_nat (wr_used w) + length k)%nat by lia.
  set (u := Z.to_nat (wr_used w)) in *. assert (Hu : length (take u (wr_output w)) = u) by (rewrite length_take; lia).
  rewrite take_app_ge by lia. rewrite drop_app_ge by lia. rewrite Hu.
  replace (u + length k - u)%nat with (length k) by lia. replace (u + length k + length l - u)%nat with (length k + length l)%nat by lia.
  rewrite take_app_length. rewrite drop_app_ge by lia. replace (length k + length l - length k)%nat with (length l) by lia. rewrite drop_drop, <- !app_assoc.
  do 3 f_equal. f_equal. lia.
Qed.

Lemma writes_accept : writes accept [].
Proof.
  split; intros w [[H1 H2] H3] Hf.
  - unfold accept, written. cbn [app length]. rewrite Nat.add_0_r, take_drop, Z.add_0_r. by destruct w.
  - exfalso. apply Hf. unfold fits. cbn [length]. lia.
Qed.

Lemma writes_and a b k l : writes a k -> writes b l -> writes (a &&& b) (k ++ l).
Proof.
  intros [A1 A2] [B1 B2]. split; intros w Hw Hf; unfold and_then.
  - assert (Hk : fits w k) by (unfold fits in *; rewrite length_app in Hf; lia). rewrite A1 by done. cbn [mbind outcome_bind].
    destruct (written_ok w k Hw Hk) as [Hok Hlen]. rewrite B1; [by rewrite written_written|done|].
    unfold fits in *. rewrite Hlen. cbn [written wr_used]. rewrite length_app in Hf. lia.
  - destruct (decide (fits w k)) as [Hk|Hk].
    + rewrite A1 by done. cbn [mbind outcome_bind]. destruct (written_ok w k Hw Hk) as [Hok Hlen]. rewrite <- Hlen. apply B2; [done|].
      unfold fits in *. rewrite Hlen. cbn [written wr_used]. rewrite length_app in Hf. lia.
    + destruct (A2 w Hw Hk) as (w' & -> & Hlen). exists w'. by split.
Qed.

Lemma writes_ext a b l : (forall w, a w = b w) -> writes a l -> writes b l.
Proof. intros E [A1 A2]. split; intros w; rewrite <- E; auto. Qed.

Lemma and_then_assoc {Out} (a b c : encoder Out) o : (a &&& b &&& c) o = (a &&& (b &&& c)) o.
Proof. unfold and_then. destruct (a o) as [[[] o']|]; done. Qed.

Lemma put_run w b : writer_ok w -> fits w [b] -> Writer_put w b = Ret (written w [b]).
Proof.
  intros [[H1 H2] H3] Hf. unfold fits in Hf. cbn [length] in Hf. unfold Writer_put. rewrite set_slot_ok by lia. rewrite outcome_bind_Ret. unfold written. cbn [length app].
  rewrite u64_small by (unfold size_max in H3; lia). do 2 f_equal. rewrite insert_take_drop by lia. f_equal. f_equal. f_equal. lia.
Qed.

Lemma put_all_run l : forall w, writer_ok w -> fits w l -> Writer_put_all w l = Ret (written w l).
Proof.
  induction l as [|b l IH]; intros w Hw Hf.
  - destruct writes_accept as [H _]. specialize (H w Hw Hf). unfold accept in H. cbn [Writer_put_all]. congruence.
  - cbn [Writer_put_all]. assert (Hb : fits w [b]) by (unfold fits in *; cbn [length] in *; lia). rewrite put_run by done. rewrite outcome_bind_Ret.
    destruct (written_ok w [b] Hw Hb) as [Hok Hlen]. rewrite IH; [by rewrite written_written|done|].
    unfold fits in *. rewrite Hlen. cbn [written wr_used length] in *. lia.
Qed.

Lemma writes_copy l : writes (Writer_fits (Z.of_nat (length l)) &&& Writer_copy l) l.
Proof.
  split; intros w Hw Hf; unfold and_then, Writer_fits, Writer_room, Writer_copy; cbn [mbind outcome_bind];
    pose proof Hw as [[H1 H2] H3]; unfold fits in Hf; rewrite u64_small by (unfold size_max in H3; lia).
  - rewrite (proj2 (Z.ltb_ge _ _)) by lia. cbn [negb]. by rewrite put_all_run.
  - rewrite (proj2 (Z.ltb_lt _ _)) by lia. cbn [negb]. by exists w.
Qed.

Lemma group_byte v : 0 <= v -> (if negb (Z.shiftr v 7 =? 0) then Z.lor (Z.land v 0x7f) 0x80 else Z.land v 0x7f) = if v <? 128 then v else 128 + v mod 128.
Proof.
  intros Hv. rewrite Z.shiftr_div_pow2 by lia. change (2 ^ 7) with 128. change 127 with (Z.ones 7). rewrite Z.land_ones by lia. change (2 ^ 7) with 128.
  destruct (Z.ltb_spec v 128) as [Hs|Hs].
  - rewrite Z.div_small by lia. cbn. apply Z.mod_small. lia.
  - rewrite (proj2 (Z.eqb_neq _ _)); [|pose proof (Z.div_le_lower_bound v 128 1); lia]. cbn [negb].
    pose proof (Z.mod_pos_bound v 128 ltac:(lia)) as Hm. assert (Hd : Z.land (v mod 128) 128 = 0).
    { apply Z.bits_inj'. intros i Hi. rewrite Z.land_spec, Z.bits_0. change 128 with (2 ^ 7) at 2. rewrite Z.pow2_bits_eqb by lia.
      destruct (Z.eqb_spec 7 i) as [<-|]; [|by rewrite andb_false_r]. change 128 with (2 ^ 7). rewrite Z.mod_pow2_bits_high by lia. done. }
    rewrite <- Z.lxor_lor, <- Z.add_nocarry_lxor by done. lia.
Qed.

Lemma writes_put b : writes (fun w => if wr_used w =? Z.of_nat (length (wr_output w)) then Ret (false, w) else w ← Writer_put w b; Ret (true, w)) [b].
Proof.
  split; intros w Hw Hf; pose proof Hw as [[H1 H2] H3]; pose proof Hf as Hf'; unfold fits in Hf'; cbn [length] in Hf'.
  - rewrite (proj2 (Z.eqb_neq _ _)) by lia. by rewrite put_run.
  - rewrite (proj2 (Z.eqb_eq _ _)) by lia. by exists w.
Qed.

Lemma writes_last fuel v : 0 <= v < 128 -> writes (Writer_varint_loop (S fuel) v) [v].
Proof.
  intros Hv. eapply writes_ext; [|apply writes_put]. intros w. cbn [Writer_varint_loop]. rewrite group_byte by lia. rewrite (proj2 (Z.ltb_lt v 128)) by lia.
  rewrite Z.shiftr_div_pow2 by lia. change (2 ^ 7) with 128. rewrite Z.div_small by lia. done.
Qed.

Lemma writes_groups more : forall v, 0 <= v < 128 ^ Z.of_nat (S more) -> writes (Writer_varint_loop (S more) v) (varint_groups more v).
Proof.
  induction more as [|more IH]; intros v Hv; cbn [varint_groups].
  - rewrite Z.mod_small by lia. by apply writes_last.
  - destruct (Z.ltb_spec v 128) as [Hs|Hs]; [apply writes_last; lia|].
    assert (Hb : 0 <= v / 128 < 128 ^ Z.of_nat (S more)).
    { rewrite (Nat2Z.inj_succ (S more)), Z.pow_succ_r in Hv by lia. split; [apply Z.div_pos; lia|apply Z.div_lt_upper_bound; lia]. }
    assert (Hnz : (v / 128 =? 0) = false) by (apply Z.eqb_neq; pose proof (Z.div_le_lower_bound v 128 1); lia).
    specialize (IH _ Hb). apply (writes_ext ((fun w => if wr_used w =? Z.of_nat (length (wr_output w)) then Ret (false, w) else
      w ← Writer_put w (128 + v mod 128); Ret (true, w)) &&& Writer_varint_loop (S more) (v / 128))).
    { intros w. unfold and_then. remember (S more) as m. cbn [Writer_varint_loop]. rewrite group_byte by lia. rewrite (proj2 (Z.ltb_ge v 128)) by lia.
      rewrite Z.shiftr_div_pow2 by lia. change (2 ^ 7) with 128. rewrite Hnz. cbn [negb].
      destruct (wr_used w =? _); [done|]. destruct (Writer_put w (128 + v mod 128)); reflexivity. }
    change ((128 + v mod 128) :: varint_groups more (v / 128)) with ([128 + v mod 128] ++ varint_groups more (v / 128)).
    apply writes_and; [apply writes_put|done].
Qed.

Lemma writes_varint v : 0 <= v <= u64_max -> writes (Writer_varint v) (varint_bytes v).
Proof. intros Hv. apply writes_groups. unfold u64_max in Hv. cbn. lia. Qed.

Lemma writes_tag n wire : number_ok n -> 0 <= wire < 8 -> writes (Writer_tag n wire) (key_bytes n wire).
Proof. intros Hn Hw. unfold Writer_tag, key_bytes. rewrite key_of_sum by done. apply writes_varint. unfold number_ok, u64_max in *. lia. Qed.

Lemma writes_delimited n payload : number_ok n -> size_ok payload ->
  writes (Writer_tag n 2 &&& Writer_varint (Z.of_nat (length payload)) &&& Writer_fits (Z.of_nat (length payload)) &&& Writer_copy payload) (delimited_bytes n payload).
Proof.
  intros Hn Hs. unfold delimited_bytes. rewrite app_assoc. eapply writes_ext; [intros w; symmetry; apply and_then_assoc|].
  apply writes_and; [|apply writes_copy]. apply writes_and; [apply writes_tag; done || lia|apply writes_varint; unfold size_ok in Hs; lia].
Qed.

Lemma byte_at v shift : 0 <= shift -> Z.land (Z.shiftr v shift) 0xff = (v / 2 ^ shift) mod 256.
Proof. intros Hs. change 255 with (Z.ones 8). rewrite Z.land_ones, Z.shiftr_div_pow2 by lia. done. Qed.

Lemma shift_bytes v : map (fun shift => Z.land (Z.shiftr v shift) 0xff) shifts = le_bytes 8 v.
Proof.
  unfold shifts. cbn [map le_bytes]. rewrite !byte_at by lia. rewrite !Z.div_div by lia. rewrite Z.pow_0_r, Z.div_1_r. done.
Qed.

Lemma writes_fixed64 n v : number_ok n -> writes (Writer_fixed64 n v) (key_bytes n 1 ++ le_bytes 8 v).
Proof.
  intros Hn. unfold Writer_fixed64. rewrite shift_bytes. eapply writes_ext; [intros w; symmetry; apply and_then_assoc|].
  apply writes_and; [apply writes_tag; done || lia|]. exact (writes_copy (le_bytes 8 v)).
Qed.

Lemma writes_message n child e payload : number_ok n -> size_ok payload -> counts child (Z.of_nat (length payload)) -> writes e payload ->
  writes (Writer_message n child e) (delimited_bytes n payload).
Proof.
  intros Hn Hs Hc He. apply (writes_ext (Writer_tag n 2 &&& Writer_varint (Z.of_nat (length payload)) &&& e)).
  { intros w. unfold Writer_message. rewrite Hc, outcome_bind_Ret by (cbn; unfold u64_max; lia). cbn [negb sz_used]. rewrite u64_small by (unfold size_ok in Hs; lia). done. }
  unfold delimited_bytes. rewrite app_assoc. apply writes_and; [|done].
  apply writes_and; [apply writes_tag; done || lia|apply writes_varint; unfold size_ok in Hs; lia].
Qed.
