(* ===== verification/OtlpRequests.v ===== *)
(** * Requests of traces, metrics and logs

    The trees of the three requests, and what the entry points do with valid and with invalid
    records and with outputs of any size. *)
From S2P Require Import Prelude Contract CheckedArithmetic Views TextOps Otlp OtlpSpec.
From Stdlib Require Import ZArith Lia String Ascii.
From stdpp Require Import base numbers list option.

Set Default Goal Selector "!".
#[local] Open Scope Z_scope.

(** ** Generic encoders *)
Abbreviation generic := (forall P : Type, Output P -> encoder P).
Record encodes (e : generic) (fields : list pb_field) : Prop := {
  encodes_counts : counts (e Sizer Sizer_Output) (Z.of_nat (length (fields_bytes fields)));
  encodes_writes : writes (e Writer Writer_Output) (fields_bytes fields) }.

(** The fields are well formed and their bytes few. *)
Record within (b : Z) (fields : list pb_field) : Prop := {
  within_ok : Forall field_ok fields;
  within_size : Z.of_nat (length (fields_bytes fields)) <= b }.

Lemma fields_bytes_app f g : fields_bytes (f ++ g) = fields_bytes f ++ fields_bytes g.
Proof. unfold fields_bytes. by rewrite map_app, concat_app. Qed.

Lemma fields_bytes_one f : fields_bytes [f] = field_bytes f.
Proof. apply app_nil_r. Qed.

Lemma within_small b fields : within b fields -> b <= u64_max -> size_ok (fields_bytes fields).
Proof. intros [_ H] Hb. unfold size_ok. lia. Qed.

Lemma within_le a b fields : within a fields -> a <= b -> within b fields.
Proof. intros [H1 H2] Hab. split; [done|lia]. Qed.

Lemma within_nil : within 0 [].
Proof. by split; [constructor|]. Qed.

Lemma within_app a b f g : within a f -> within b g -> within (a + b) (f ++ g).
Proof. intros [F1 F2] [G1 G2]. split; [by apply list.Forall_app|]. rewrite fields_bytes_app, length_app. lia. Qed.

Lemma delimited_size n l : Z.of_nat (length (delimited_bytes n l)) <= 20 + Z.of_nat (length l).
Proof.
  unfold delimited_bytes, key_bytes. rewrite !length_app. pose proof (varint_bytes_length (8 * n + 2)). pose proof (varint_bytes_length (Z.of_nat (length l))). lia.
Qed.

Lemma within_bytes n c l : number_ok n -> Z.of_nat (length l) <= c -> c <= u64_max -> within (20 + c) [FBytes n l].
Proof.
  intros Hn Hl Hc. split; [apply Forall_singleton, ok_bytes; done || (unfold size_ok; lia)|]. rewrite fields_bytes_one. pose proof (delimited_size n l). cbn [field_bytes]. lia.
Qed.

Lemma within_message n c fields : number_ok n -> within c fields -> c <= u64_max -> within (20 + c) [FMessage n fields].
Proof.
  intros Hn [H1 H2] Hc. split; [apply Forall_singleton, ok_message; done || (unfold size_ok; lia)|]. rewrite fields_bytes_one. cbn [field_bytes].
  fold (fields_bytes fields). pose proof (delimited_size n (fields_bytes fields)). lia.
Qed.

Lemma within_fixed64 n v : number_ok n -> 0 <= v <= u64_max -> within 18 [FFixed64 n v].
Proof.
  intros Hn Hv. split; [by apply Forall_singleton, ok_fixed64|]. rewrite fields_bytes_one. cbn [field_bytes]. unfold key_bytes. rewrite length_app.
  pose proof (varint_bytes_length (8 * n + 1)). change (length (le_bytes 8 v)) with 8%nat. lia.
Qed.

Lemma within_varint n v : number_ok n -> 0 <= v <= u64_max -> within 20 [FVarint n v].
Proof.
  intros Hn Hv. split; [by apply Forall_singleton, ok_varint|]. rewrite fields_bytes_one. cbn [field_bytes]. unfold key_bytes. rewrite length_app.
  pose proof (varint_bytes_length (8 * n + 0)). pose proof (varint_bytes_length v). lia.
Qed.

Lemma within_repeat {A} n c k (tree : A -> list pb_field) (l : list A) : number_ok n -> 0 <= c <= u64_max -> Forall (fun x => within c (tree x)) l ->
  Z.of_nat (length l) <= k -> within (k * (20 + c)) (map (fun x => FMessage n (tree x)) l).
Proof.
  intros Hn Hc Hl Hk. apply (within_le (Z.of_nat (length l) * (20 + c))); [|nia]. clear Hk. induction Hl as [|x l Hx _ IH]; [apply within_nil|].
  assert (Hl : within ((20 + c) + Z.of_nat (length l) * (20 + c)) ([FMessage n (tree x)] ++ map (fun x => FMessage n (tree x)) l)).
  { apply within_app; [|done]. apply within_message; [done|done|lia]. }
  eapply within_le; [exact Hl|]. change (length (x :: l)) with (S (length l)). lia.
Qed.

Lemma encodes_accept : encodes (fun P _ => accept) [].
Proof. split; [apply counts_accept|apply writes_accept]. Qed.

Lemma encodes_and (a b : generic) f g : encodes a f -> encodes b g -> encodes (fun P H => a P H &&& b P H) (f ++ g).
Proof.
  intros [A1 A2] [B1 B2]. split; rewrite fields_bytes_app; [|by apply writes_and]. rewrite length_app, Nat2Z.inj_add. by apply counts_and.
Qed.

Lemma encodes_bytes n l : number_ok n -> size_ok l -> encodes (fun P _ => bytes n l) [FBytes n l].
Proof. intros Hn Hl. split; rewrite fields_bytes_one; [by apply counts_delimited|by apply writes_delimited]. Qed.

Lemma encodes_text n t : number_ok n -> size_ok (map char_value t) -> encodes (fun P _ => text n t) [FBytes n (map char_value t)].
Proof.
  intros Hn Hl. split; rewrite fields_bytes_one; cbn [text Sizer_Output Writer_Output]; unfold Sizer_text, Writer_text; rewrite <- (length_map char_value t);
    [by apply counts_delimited|by apply writes_delimited].
Qed.

Lemma encodes_fixed64 n v : number_ok n -> encodes (fun P _ => fixed64 n v) [FFixed64 n v].
Proof. intros Hn. split; rewrite fields_bytes_one; [by apply counts_fixed64|by apply writes_fixed64]. Qed.

Lemma encodes_message n (e : generic) fields : number_ok n -> size_ok (fields_bytes fields) -> encodes e fields -> encodes (fun P _ => message n e) [FMessage n fields].
Proof. intros Hn Hs [E1 E2]. split; rewrite fields_bytes_one; [by apply counts_message|by apply writes_message]. Qed.

Lemma encodes_varint n (a : generic) f v : number_ok n -> 0 <= v <= u64_max -> encodes a f ->
  encodes (fun P H => a P H &&& tag n 0 &&& varint v) (f ++ [FVarint n v]).
Proof.
  intros Hn Hv [A1 A2]. split; rewrite fields_bytes_app, fields_bytes_one; cbn [field_bytes].
  - rewrite !length_app, !Nat2Z.inj_add, Z.add_assoc. apply counts_and; [|by apply counts_varint]. apply counts_and; [done|]. apply counts_tag; [done|lia].
  - rewrite app_assoc. apply writes_and; [|by apply writes_varint]. apply writes_and; [done|]. apply writes_tag; [done|lia].
Qed.

Lemma encodes_eq (e : generic) f g : f = g -> encodes e f -> encodes e g.
Proof. by intros ->. Qed.

(** An element after another, with the rest of the list still to come. *)
Lemma encodes_repeat {A} n c (encode : A -> generic) (tree : A -> list pb_field) (elements : list A) : number_ok n -> c <= u64_max ->
  forall stop, (forall i x, (i < stop)%nat -> elements !! i = Some x -> within c (tree x) /\ encodes (encode x) (tree x)) -> (stop <= length elements)%nat ->
  forall count index, 0 <= index -> index + Z.of_nat count <= Z.of_nat stop ->
  encodes (fun P _ => repeat_messages count index elements n encode) (map (fun x => FMessage n (tree x)) (take count (drop (Z.to_nat index) elements))).
Proof.
  intros Hn Hc stop Hall Hstop. induction count as [|count IH]; intros index Hi Hl; [rewrite take_0; apply encodes_accept|].
  destruct (lookup_lt_is_Some_2 elements (Z.to_nat index)) as [x Hx]; [lia|]. rewrite (drop_S _ _ _ Hx). cbn [take map].
  destruct (Hall (Z.to_nat index) x ltac:(lia) Hx) as [Hw He].
  destruct (encodes_and (fun P _ => message n (encode x)) (fun P _ => repeat_messages count (index + 1) elements n encode) [FMessage n (tree x)]
    (map (fun x => FMessage n (tree x)) (take count (drop (S (Z.to_nat index)) elements)))) as [E1 E2].
  - apply encodes_message; [done|by eapply within_small|done].
  - replace (S (Z.to_nat index)) with (Z.to_nat (index + 1)) by lia. apply IH; lia.
  - split.
    + intros s Hs. cbn [repeat_messages]. rewrite (slot_ok _ _ _ Hx), outcome_bind_Ret. by apply E1.
    + apply (writes_ext (message n (encode x) &&& repeat_messages count (index + 1) elements n encode)); [|exact E2].
      intros w. cbn [repeat_messages]. by rewrite (slot_ok _ _ _ Hx), outcome_bind_Ret.
Qed.

(** ** The trees *)

(** Texts are made by [from] only. *)
Definition text_ok (capacity : nat) (t : OtlpText) : Prop := exists value, OtlpText_from capacity value = Ret (Ok t).
Definition text_bytes (t : OtlpText) : list Z := map char_value (OtlpText_value t).

Definition attribute_fields (a : OtlpAttribute) : list pb_field := [FBytes 1 (text_bytes (at_key a)); FMessage 2 [FBytes 1 (text_bytes (at_value a))]].
Definition attributes_fields (n : Z) (attributes : list OtlpAttribute) (count : Z) : list pb_field :=
  map (fun a => FMessage n (attribute_fields a)) (take (Z.to_nat count) attributes).
Definition service_fields (m : OtlpMetadata) : list pb_field :=
  [FBytes 1 (map char_value (chars "service.name")); FMessage 2 [FBytes 1 (text_bytes (md_service_name m))]].
Definition resource_fields (m : OtlpMetadata) : list pb_field :=
  FMessage 1 (service_fields m) :: attributes_fields 1 (md_resource_attributes m) (md_resource_attribute_count m).
Definition scope_fields (m : OtlpMetadata) : list pb_field := [FBytes 1 (text_bytes (md_scope_name m)); FBytes 2 (text_bytes (md_scope_version m))].
Definition event_fields (e : OtlpEvent) : list pb_field :=
  [FFixed64 1 (ev_time_unix_nano e); FBytes 2 (text_bytes (ev_name e))] ++ attributes_fields 3 (ev_attributes e) (ev_attribute_count e).
Definition span_fields (r : OtlpTraceRecord) : list pb_field :=
  [FBytes 1 (tr_trace_id r); FBytes 2 (tr_span_id r); FBytes 5 (text_bytes (tr_name r));
   FFixed64 7 (tr_start_time_unix_nano r); FFixed64 8 (tr_end_time_unix_nano r)] ++
  attributes_fields 9 (tr_attributes r) (tr_attribute_count r) ++ map (fun e => FMessage 11 (event_fields e)) (take (Z.to_nat (tr_event_count r)) (tr_events r)).
Definition point_fields (r : OtlpMetricRecord) : list pb_field :=
  [FFixed64 3 (mr_time_unix_nano r); FFixed64 4 (mr_value r)] ++ attributes_fields 7 (mr_attributes r) (mr_attribute_count r).
Definition metric_fields (r : OtlpMetricRecord) : list pb_field :=
  [FBytes 1 (text_bytes (mr_name r)); FBytes 3 (text_bytes (mr_unit r)); FMessage 5 [FMessage 1 (point_fields r)]].
Definition optional_bytes (n : Z) (l : list Z) : list pb_field := if nonzero l then [FBytes n l] else [].
Definition log_fields (r : OtlpLogRecord) : list pb_field :=
  [FFixed64 1 (lr_time_unix_nano r); FVarint 2 (lr_severity_number r); FBytes 3 (text_bytes (lr_severity_text r)); FMessage 5 [FBytes 1 (text_bytes (lr_body r))]] ++
  attributes_fields 6 (lr_attributes r) (lr_attribute_count r) ++ optional_bytes 9 (lr_trace_id r) ++ optional_bytes 10 (lr_span_id r).
Definition request_fields {Rec} (tree : Rec -> list pb_field) (m : OtlpMetadata) (records : list Rec) : list pb_field :=
  [FMessage 1 [FMessage 1 (resource_fields m); FMessage 2 (FMessage 1 (scope_fields m) :: map (fun r => FMessage 2 (tree r)) records)]].

(** ** Encoders of the trees *)
Record good (b : Z) (e : generic) (fields : list pb_field) : Prop := { good_within : within b fields; good_encodes : encodes e fields }.

Lemma good_and a b x y f g : good a x f -> good b y g -> good (a + b) (fun P H => x P H &&& y P H) (f ++ g).
Proof. intros [W1 E1] [W2 E2]. split; [by apply within_app|by apply encodes_and]. Qed.

Lemma good_bytes n c l : number_ok n -> Z.of_nat (length l) <= c -> c <= u64_max -> good (20 + c) (fun P _ => bytes n l) [FBytes n l].
Proof. intros Hn Hl Hc. split; [by apply within_bytes|]. apply encodes_bytes; [done|unfold size_ok; lia]. Qed.

Lemma good_fixed64 n v : number_ok n -> 0 <= v <= u64_max -> good 18 (fun P _ => fixed64 n v) [FFixed64 n v].
Proof. intros Hn Hv. split; [by apply within_fixed64|by apply encodes_fixed64]. Qed.

Lemma good_varint n b a f v : number_ok n -> 0 <= v <= u64_max -> good b a f -> good (b + 20) (fun P H => a P H &&& tag n 0 &&& varint v) (f ++ [FVarint n v]).
Proof. intros Hn Hv [W E]. split; [by apply within_app, within_varint|by apply encodes_varint]. Qed.

Lemma good_message n c e f : number_ok n -> c <= u64_max -> good c e f -> good (20 + c) (fun P _ => message n e) [FMessage n f].
Proof. intros Hn Hc [W E]. split; [by apply within_message|]. apply encodes_message; [done|by eapply within_small|done]. Qed.

Lemma good_repeat {A} n c (encode : A -> generic) (tree : A -> list pb_field) (elements : list A) count : number_ok n -> 0 <= c <= u64_max ->
  Forall (fun x => good c (encode x) (tree x)) (take (Z.to_nat count) elements) -> 0 <= count <= Z.of_nat (length elements) ->
  good (Z.of_nat (length elements) * (20 + c)) (fun P _ => repeat_messages (Z.to_nat count) 0 elements n encode) (map (fun x => FMessage n (tree x)) (take (Z.to_nat count) elements)).
Proof.
  intros Hn Hc Hall Hcount. split.
  - apply within_repeat; [done|done| |rewrite length_take; lia]. eapply list.Forall_impl; [exact Hall|]. by intros x [].
  - apply (encodes_repeat n c encode tree elements Hn ltac:(lia) (Z.to_nat count)) with (index := 0); [|lia..].
    intros i x Hi Hx. destruct (Forall_lookup_1 _ _ i x Hall) as [W E]; [by rewrite lookup_take_lt|done].
Qed.

Lemma good_eq b c (x y : generic) f g : b <= c -> (forall P H o, x P H o = y P H o) -> f = g -> good b x f -> good c y g.
Proof.
  intros Hb E -> [W [E1 E2]]. split; [by eapply within_le|]. split; [|eapply writes_ext; [intros w; apply E|exact E2]]. intros s. rewrite <- E. apply E1.
Qed.

Lemma text_ok_value capacity t : Z.of_nat capacity <= 65535 -> text_ok capacity t ->
  (length (OtlpText_value t) <= capacity)%nat /\ is_utf8 (OtlpText_value t) /\ (OtlpText_empty t = true <-> OtlpText_value t = []).
Proof.
  intros Hc [value E]. destruct (otlp_text_run capacity value Hc) as (H1 & _ & H3 & H4). destruct (H1 t E) as (-> & Hb & Hs).
  destruct (decide (capacity < length value)%nat) as [Hl|Hl]; [by rewrite H4 in E|]. split; [lia|]. split.
  - destruct (valid_utf8_run value) as (b & Hv & Hu). destruct b; [by apply Hu|]. rewrite H3 in E; [done|lia|]. intros H. by apply Hu in H.
  - unfold OtlpText_empty. rewrite Hs, Z.eqb_eq. destruct value; cbn [length]; split; done || lia.
Qed.

Lemma good_text n capacity t : number_ok n -> Z.of_nat capacity <= 65535 -> text_ok capacity t ->
  good (20 + Z.of_nat capacity) (fun P _ => text n (OtlpText_value t)) [FBytes n (text_bytes t)].
Proof.
  intros Hn Hc Ht. destruct (text_ok_value _ _ Hc Ht) as [Hl _]. assert (Hb : Z.of_nat (length (text_bytes t)) <= Z.of_nat capacity) by (unfold text_bytes; rewrite length_map; lia).
  split; [apply within_bytes; [done|done|unfold u64_max; lia]|]. apply encodes_text; [done|]. unfold size_ok. fold (text_bytes t). unfold u64_max. lia.
Qed.

Ltac number := unfold number_ok, u64_max in *; lia.

Definition attribute_ok (a : OtlpAttribute) : Prop := text_ok 64 (at_key a) /\ text_ok 128 (at_value a).

Lemma good_attribute a : attribute_ok a -> good 252 (fun P _ => encode_attribute a) (attribute_fields a).
Proof.
  intros [Hk Hv]. apply (good_and 84 168 _ _ [_] [_]).
  - apply (good_text 1 64); [number|lia|done].
  - apply (good_message 2 148); [number|number|]. apply (good_text 1 128); [number|lia|done].
Qed.

Lemma good_attributes n k attributes count : number_ok n -> length attributes = k -> Forall attribute_ok attributes -> 0 <= count <= Z.of_nat k -> Z.of_nat k <= 1000 ->
  good (Z.of_nat k * 272) (fun P _ => encode_attributes attributes count n) (attributes_fields n attributes count).
Proof.
  intros Hn <- Hall Hcount Hk. eapply good_eq; [reflexivity| |reflexivity|apply (good_repeat n 252 (fun a P _ => encode_attribute a) attribute_fields attributes count)].
  - intros P H o. unfold encode_attributes. by rewrite (proj2 (Z.ltb_ge _ _)) by lia.
  - done.
  - number.
  - apply Forall_take. eapply list.Forall_impl; [exact Hall|]. apply good_attribute.
  - done.
Qed.

Record metadata_ok (m : OtlpMetadata) : Prop := {
  mo_service : text_ok 64 (md_service_name m); mo_scope : text_ok 64 (md_scope_name m); mo_version : text_ok 32 (md_scope_version m);
  mo_attributes : length (md_resource_attributes m) = 16%nat /\ Forall attribute_ok (md_resource_attributes m); mo_count : 0 <= md_resource_attribute_count m }.

Lemma required_text_run capacity value : Z.of_nat capacity <= 65535 -> (length value <= capacity)%nat -> is_utf8 value ->
  exists t, required_text capacity value = Ret t /\ OtlpText_value t = value /\ text_ok capacity t.
Proof.
  intros Hc Hl Hu. destruct (otlp_text_run capacity value Hc) as (H1 & H2 & _). destruct (H2 (conj Hl Hu)) as [t E]. exists t. unfold required_text. rewrite E.
  split; [done|]. split; [by apply H1|by exists value].
Qed.

Lemma good_resource m : metadata_ok m -> md_resource_attribute_count m <= 16 -> good (272 + 16 * 272) (fun P _ => encode_resource m) (resource_fields m).
Proof.
  intros [Hs _ _ [Hlen Hall] Hc] Hcount.
  destruct (required_text_run 64 (chars "service.name")) as (key & Ek & Hk & Hkey); [lia|cbn; lia| |].
  { destruct (valid_utf8_run (chars "service.name")) as (b & Hv & Hu). vm_compute in Hv. injection Hv as <-. by apply Hu. }
  destruct (text_ok_value 64 _ ltac:(lia) Hs) as (Hl & Hu & _).
  destruct (required_text_run 128 (OtlpText_value (md_service_name m)) ltac:(lia) ltac:(lia) Hu) as (value & Ev & Hv & Hvalue).
  assert (G1 : good 272 (fun P _ => message 1 (fun Q _ => encode_attribute (MkOtlpAttribute key value))) [FMessage 1 (attribute_fields (MkOtlpAttribute key value))]).
  { apply (good_message 1 252); [number|number|]. by apply good_attribute. }
  assert (G2 : good (16 * 272) (fun P _ => repeat_messages (Z.to_nat (md_resource_attribute_count m)) 0 (md_resource_attributes m) 1 (fun a Q _ => encode_attribute a))
    (attributes_fields 1 (md_resource_attributes m) (md_resource_attribute_count m))).
  { change 16 with (Z.of_nat 16). rewrite <- Hlen. apply (good_repeat 1 252); [number|number| |lia]. apply Forall_take. eapply list.Forall_impl; [exact Hall|]. apply good_attribute. }
  eapply good_eq; [reflexivity| | |exact (good_and _ _ _ _ _ _ G1 G2)].
  - intros P H o. unfold encode_resource. rewrite (proj2 (Z.ltb_ge _ _)) by lia. by rewrite Ek, Ev.
  - unfold attribute_fields, resource_fields, service_fields, text_bytes. cbn [at_key at_value]. by rewrite Hk, Hv.
Qed.

Lemma good_scope m : metadata_ok m -> good 136 (fun P _ => encode_scope m) (scope_fields m).
Proof. intros [_ Hs Hv _ _]. apply (good_and 84 52 _ _ [_] [_]); [apply (good_text 1 64)|apply (good_text 2 32)]; number || lia || done. Qed.

Definition attributes_ok (k : nat) (attributes : list OtlpAttribute) (count : Z) : Prop := length attributes = k /\ Forall attribute_ok attributes /\ 0 <= count.
Definition event_ok (e : OtlpEvent) : Prop :=
  0 <= ev_time_unix_nano e <= u64_max /\ text_ok 128 (ev_name e) /\ attributes_ok 8 (ev_attributes e) (ev_attribute_count e).
Record trace_ok (r : OtlpTraceRecord) : Prop := {
  to_trace : length (tr_trace_id r) = 16%nat; to_span : length (tr_span_id r) = 8%nat; to_name : text_ok 128 (tr_name r);
  to_start : 0 <= tr_start_time_unix_nano r <= u64_max; to_end : 0 <= tr_end_time_unix_nano r <= u64_max;
  to_attributes : attributes_ok 16 (tr_attributes r) (tr_attribute_count r); to_events : length (tr_events r) = 8%nat /\ Forall event_ok (tr_events r) /\ 0 <= tr_event_count r }.
Record metric_ok (r : OtlpMetricRecord) : Prop := {
  xo_name : text_ok 128 (mr_name r); xo_unit : text_ok 64 (mr_unit r); xo_time : 0 <= mr_time_unix_nano r <= u64_max; xo_value : 0 <= mr_value r <= u64_max;
  xo_attributes : attributes_ok 16 (mr_attributes r) (mr_attribute_count r) }.
Record log_ok (r : OtlpLogRecord) : Prop := {
  lo_time : 0 <= lr_time_unix_nano r <= u64_max; lo_severity : 0 <= lr_severity_number r <= u32_max; lo_text : text_ok 32 (lr_severity_text r); lo_body : text_ok 256 (lr_body r);
  lo_trace : length (lr_trace_id r) = 16%nat; lo_span : length (lr_span_id r) = 8%nat; lo_attributes : attributes_ok 16 (lr_attributes r) (lr_attribute_count r) }.

(** What the entry points require of records. *)
Definition event_valid (e : OtlpEvent) : Prop := OtlpText_value (ev_name e) <> [] /\ ev_time_unix_nano e <> 0 /\ ev_attribute_count e <= 8.
Record trace_valid (r : OtlpTraceRecord) : Prop := {
  tv_trace : exists b, b ∈ tr_trace_id r /\ b <> 0; tv_span : exists b, b ∈ tr_span_id r /\ b <> 0; tv_name : OtlpText_value (tr_name r) <> [];
  tv_time : 0 < tr_start_time_unix_nano r <= tr_end_time_unix_nano r; tv_count : tr_attribute_count r <= 16; tv_event_count : tr_event_count r <= 8;
  tv_events : Forall event_valid (take (Z.to_nat (tr_event_count r)) (tr_events r)) }.
Definition metric_valid (r : OtlpMetricRecord) : Prop := OtlpText_value (mr_name r) <> [] /\ mr_time_unix_nano r <> 0 /\ mr_attribute_count r <= 16.
Definition log_valid (r : OtlpLogRecord) : Prop :=
  OtlpText_value (lr_body r) <> [] /\ lr_time_unix_nano r <> 0 /\ lr_attribute_count r <= 16 /\
  ((exists b, b ∈ lr_span_id r /\ b <> 0) -> exists b, b ∈ lr_trace_id r /\ b <> 0).

Lemma good_event e : event_ok e -> event_valid e -> good 2342 (fun P _ => encode_event e) (event_fields e).
Proof.
  intros (Ht & Hn & Hl & Hall & Hc) (_ & _ & Hcount). apply (good_and 166 2176 _ _ [_; _]); [|apply (good_attributes 3 8); number || done || lia].
  apply (good_and 18 148 _ _ [_] [_]); [apply good_fixed64|apply (good_text 2 128)]; number || done || lia.
Qed.

Lemma good_optional n k l : number_ok n -> length l = k -> Z.of_nat k <= 1000 -> good (20 + Z.of_nat k) (fun P _ => encode_optional_bytes n l) (optional_bytes n l).
Proof.
  intros Hn Hl Hk. unfold encode_optional_bytes, optional_bytes. destruct (nonzero l); cbn [negb].
  - apply good_bytes; [done|lia|number].
  - split; [|apply encodes_accept]. eapply within_le; [apply within_nil|lia].
Qed.

Lemma good_log r : log_ok r -> log_valid r -> good 5000 (fun P _ => encode_log r) (log_fields r).
Proof.
  intros [H1 H2 H3 H4 H5 H6 (Hl & Hall & Hc)] (_ & _ & Hcount & _).
  assert (G : good (18 + 20 + 52 + 296 + 4352 + 36 + 28) (fun P _ => encode_log r)
    (((((([FFixed64 1 (lr_time_unix_nano r)] ++ [FVarint 2 (lr_severity_number r)]) ++ [FBytes 3 (text_bytes (lr_severity_text r))]) ++
      [FMessage 5 [FBytes 1 (text_bytes (lr_body r))]]) ++ attributes_fields 6 (lr_attributes r) (lr_attribute_count r)) ++ optional_bytes 9 (lr_trace_id r)) ++
      optional_bytes 10 (lr_span_id r))).
  { apply good_and; [|apply (good_optional 10 8); number || done || lia]. apply good_and; [|apply (good_optional 9 16); number || done || lia].
    apply good_and; [|apply (good_attributes 6 16); number || done || lia].
    apply good_and; [|apply (good_message 5 276); [number|number|apply (good_text 1 256); number || done || lia]].
    apply good_and; [|apply (good_text 3 32); number || done || lia].
    apply good_varint; [number|unfold u32_max in H2; number|]. apply good_fixed64; [number|done]. }
  eapply good_eq; [|reflexivity| |exact G]; [lia|]. unfold log_fields. by rewrite <- !app_assoc.
Qed.

Lemma good_metric r : metric_ok r -> metric_valid r -> good 5000 (fun P _ => encode_metric r) (metric_fields r).
Proof.
  intros [H1 H2 H3 H4 (Hl & Hall & Hc)] (_ & _ & Hcount).
  assert (Gp : good 4388 (fun P _ => encode_point r) (point_fields r)).
  { apply (good_and 36 4352 _ _ [_; _]); [|apply (good_attributes 7 16); number || done || lia]. apply (good_and 18 18 _ _ [_] [_]); apply good_fixed64; number || done. }
  assert (G : good (148 + 84 + (20 + (20 + 4388))) (fun P _ => encode_metric r) (([FBytes 1 (text_bytes (mr_name r))] ++ [FBytes 3 (text_bytes (mr_unit r))]) ++ [FMessage 5 [FMessage 1 (point_fields r)]])).
  { repeat apply good_and.
    - apply (good_text 1 128); number || done || lia.
    - apply (good_text 3 64); number || done || lia.
    - apply (good_message 5); [number|number|]. apply (good_message 1); [number|number|exact Gp]. }
  eapply good_eq; [|reflexivity|reflexivity|exact G]. lia.
Qed.

Lemma good_span r : trace_ok r -> trace_valid r -> good 30000 (fun P _ => encode_span r) (span_fields r).
Proof.
  intros [H1 H2 H3 H4 H5 (Hl & Hall & Hc) (Le & Ge & Ce)] [_ _ _ _ Hcount Ecount Hev].
  assert (Ge' : good (8 * (20 + 2342)) (fun P _ => repeat_messages (Z.to_nat (tr_event_count r)) 0 (tr_events r) 11 (fun e Q _ => encode_event e))
    (map (fun e => FMessage 11 (event_fields e)) (take (Z.to_nat (tr_event_count r)) (tr_events r)))).
  { change 8 with (Z.of_nat 8). rewrite <- Le. apply (good_repeat 11 2342); [number|number| |lia]. apply (Forall_take _ (Z.to_nat (tr_event_count r))) in Ge.
    apply list.Forall_forall. intros e He. rewrite list.Forall_forall in Hev, Ge. apply good_event; auto. }
  assert (G : good (36 + 28 + 148 + 18 + 18 + 4352 + 8 * (20 + 2342)) (fun P _ => encode_span r)
    (((((([FBytes 1 (tr_trace_id r)] ++ [FBytes 2 (tr_span_id r)]) ++ [FBytes 5 (text_bytes (tr_name r))]) ++ [FFixed64 7 (tr_start_time_unix_nano r)]) ++
      [FFixed64 8 (tr_end_time_unix_nano r)]) ++ attributes_fields 9 (tr_attributes r) (tr_attribute_count r)) ++
      map (fun e => FMessage 11 (event_fields e)) (take (Z.to_nat (tr_event_count r)) (tr_events r)))).
  { apply good_and; [|exact Ge']. apply good_and; [|apply (good_attributes 9 16); number || done || lia].
    do 2 (apply good_and; [|apply good_fixed64; number || done]). apply good_and; [|apply (good_text 5 128); number || done || lia].
    apply (good_and 36 28); apply (good_bytes _ 16) || apply (good_bytes _ 8); number || lia. }
  eapply good_eq; [|reflexivity| |exact G]; [lia|]. unfold span_fields. by rewrite <- !app_assoc.
Qed.

(** ** The checks *)

(** A check returns, and decides whether its subject is valid. *)
Definition decides (m : outcome (Result unit)) (valid : Prop) : Prop :=
  exists r, m = Ret r /\ match r with Ok _ => valid | Err e => code_ e = invalid_input /\ ~ valid end.

#[export] Instance decides_proper m : Proper (iff ==> iff) (decides m).
Proof. intros v v' E. unfold decides. split; intros (r & Hm & Hr); exists r; (split; [done|]); destruct r; rewrite ?E in *; tauto. Qed.

Lemma decides_if (b : bool) e valid m : code_ e = invalid_input -> (b = true -> ~ valid) -> (b = false -> decides m valid) ->
  decides (if b then Ret (Err e) else m) valid.
Proof. intros He Ht Hf. destruct b; [|by apply Hf]. exists (Err e). split; [done|]. split; [done|by apply Ht]. Qed.

Lemma decides_ok (valid : Prop) : valid -> decides (Ret (Ok tt)) valid.
Proof. intros H. by exists (Ok tt). Qed.

Lemma nonzero_iff l : nonzero l = true <-> exists b, b ∈ l /\ b <> 0.
Proof.
  unfold nonzero. rewrite existsb_exists. setoid_rewrite <- list_elem_of_In. setoid_rewrite negb_true_iff. by setoid_rewrite Z.eqb_neq.
Qed.

Lemma empty_iff capacity t : Z.of_nat capacity <= 65535 -> text_ok capacity t -> OtlpText_empty t = true <-> OtlpText_value t = [].
Proof. intros Hc Ht. by apply text_ok_value in Ht as (_ & _ & ?). Qed.

Lemma empty_false capacity t : Z.of_nat capacity <= 65535 -> text_ok capacity t -> OtlpText_empty t = false <-> OtlpText_value t <> [].
Proof. intros Hc Ht. rewrite <- (empty_iff capacity t Hc Ht). by destruct (OtlpText_empty t). Qed.

Lemma check_events_run events : length events = 8%nat -> Forall event_ok events -> forall count index, 0 <= index -> index + Z.of_nat count <= 8 ->
  decides (check_events count index events) (Forall event_valid (take count (drop (Z.to_nat index) events))).
Proof.
  intros Hl Hall. induction count as [|count IH]; intros index Hi Hc; cbn [check_events]; [rewrite take_0; by apply decides_ok|].
  destruct (lookup_lt_is_Some_2 events (Z.to_nat index)) as [e He]; [lia|]. rewrite (slot_ok _ _ _ He), outcome_bind_Ret, (drop_S _ _ _ He). cbn [take].
  destruct (Forall_lookup_1 _ _ _ _ Hall He) as (Ht & Hn & Ha & _). rewrite list.Forall_cons. apply decides_if; [done| |].
  - intros B [(V1 & V2 & V3) _]. unfold valid_attribute_count in B. rewrite Ha in B. rewrite !orb_true_iff, (empty_iff 128), Z.eqb_eq, negb_true_iff, Z.leb_gt in B by (done || lia). intuition lia.
  - intros B. unfold valid_attribute_count in B. rewrite Ha in B. rewrite !orb_false_iff, (empty_false 128), Z.eqb_neq, negb_false_iff, Z.leb_le in B by (done || lia).
    destruct (IH (index + 1) ltac:(lia) ltac:(lia)) as (r & E & Hr). replace (Z.to_nat (index + 1)) with (S (Z.to_nat index)) in Hr by lia.
    assert (Hv : event_valid e) by (unfold event_valid; intuition lia). exists r. split; [done|]. destruct r; [by split|]. tauto.
Qed.

Lemma check_trace_run r : trace_ok r -> decides (check_trace r) (trace_valid r).
Proof.
  intros [H1 H2 H3 H4 H5 (Hl & Hall & Hc) (Le & Ge & Ce)]. unfold check_trace, valid_attribute_count. rewrite Hl, Le. apply decides_if; [done| |].
  - intros B [V1 V2 V3 V4 V5 V6 V7].
    rewrite !orb_true_iff, !negb_true_iff, (empty_iff 128), Z.eqb_eq, !Z.ltb_lt, Z.leb_gt in B by (done || lia). rewrite <- nonzero_iff in V1, V2. intuition (congruence || lia).
  - intros B. rewrite !orb_false_iff, !negb_false_iff, !nonzero_iff, (empty_false 128), Z.eqb_neq, !Z.ltb_ge, Z.leb_le in B by (done || lia).
    destruct (check_events_run (tr_events r) Le Ge (Z.to_nat (tr_event_count r)) 0) as (res & E & Hr); [lia|lia|]. exists res. split; [done|]. change (Z.to_nat 0) with 0%nat in Hr. rewrite drop_0 in Hr. destruct res.
    + split; done || tauto || lia.
    + split; [tauto|]. intros [_ _ _ _ _ _ V7]. tauto.
Qed.

Lemma check_metric_run r : metric_ok r -> decides (check_metric r) (metric_valid r).
Proof.
  intros [H1 H2 H3 H4 (Hl & Hall & Hc)]. unfold check_metric, metric_valid, valid_attribute_count. rewrite Hl.
  destruct (_ || _) eqn:B; [exists (Err otlp_metric_error)|exists (Ok tt)]; split; try done.
  - split; [done|]. rewrite !orb_true_iff, (empty_iff 128), Z.eqb_eq, negb_true_iff, Z.leb_gt in B by (done || lia). intuition lia.
  - rewrite !orb_false_iff, (empty_false 128), Z.eqb_neq, negb_false_iff, Z.leb_le in B by (done || lia). intuition lia.
Qed.

Lemma check_log_run r : log_ok r -> decides (check_log r) (log_valid r).
Proof.
  intros [H1 H2 H3 H4 H5 H6 (Hl & Hall & Hc)]. unfold check_log, log_valid, valid_attribute_count. rewrite Hl, <- !nonzero_iff.
  destruct (_ || _) eqn:B; [exists (Err otlp_log_error)|exists (Ok tt)]; split; try done.
  - split; [done|]. rewrite !orb_true_iff, (empty_iff 256), Z.eqb_eq, andb_true_iff, !negb_true_iff, Z.leb_gt in B by (done || lia). intuition (congruence || lia).
  - rewrite !orb_false_iff, (empty_false 256), Z.eqb_neq, andb_false_iff, !negb_false_iff, Z.leb_le in B by (done || lia). intuition (congruence || lia).
Qed.

Lemma check_records_run {Rec} (check : Rec -> outcome (Result unit)) ok valid records : (forall r, ok r -> decides (check r) (valid r)) -> Forall ok records ->
  decides (check_records check records) (Forall valid records).
Proof.
  intros Hcheck. induction 1 as [|r records Hr _ IH]; cbn [check_records]; [by apply decides_ok|].
  destruct (Hcheck r Hr) as (res & -> & H). rewrite outcome_bind_Ret, list.Forall_cons. destruct res as [|e]; [|by exists (Err e); intuition].
  destruct IH as (res & -> & IH). exists res. split; [done|]. destruct res; tauto.
Qed.

(** ** Requests *)

(** What a request must do: write the bytes of the tree at the front of the output if the
    subject is valid, the batch small and the output large enough, and refuse otherwise. *)
Definition request_result (valid small : Prop) (fields : list pb_field) (output : list Z) (answer : outcome (Result Z * list Z)) : Prop :=
  exists r output', answer = Ret (r, output') /\ length output' = length output /\
    let size := length (fields_bytes fields) in
    (valid -> small -> (size <= length output)%nat ->
      r = Ok (Z.of_nat size) /\ output' = fields_bytes fields ++ drop size output /\ reads_as (take size output') fields) /\
    (~ valid -> output' = output /\ exists e, r = Err e /\ code_ e = invalid_input) /\
    (valid -> ~ (small /\ (size <= length output)%nat) -> exists e, r = Err e /\ code_ e = exhaustion).

Lemma good_request {Rec} (tree : Rec -> list pb_field) (encode : Rec -> generic) m records : metadata_ok m -> md_resource_attribute_count m <= 16 ->
  (length records <= 64)%nat -> Forall (fun r => good 30000 (encode r) (tree r)) records ->
  good 2000000 (fun P _ => message 1 (fun Q _ => encode_resource_records encode m records)) (request_fields tree m records).
Proof.
  intros Hm Hc Hfew Hall.
  assert (G1 : good (64 * 30020) (fun P _ => encode_records encode records) (map (fun r => FMessage 2 (tree r)) records)).
  { split.
    - apply (within_repeat 2 30000); [number|number| |lia]. eapply list.Forall_impl; [exact Hall|]. by intros r [].
    - clear Hfew. induction Hall as [|r records [W E] _ IH]; [apply encodes_accept|]. cbn [map]. apply (encodes_and _ _ [_]); [|exact IH].
      apply encodes_message; [number|by eapply within_small|done]. }
  assert (G2 : good (156 + 64 * 30020) (fun P _ => encode_scope_records encode m records) (FMessage 1 (scope_fields m) :: map (fun r => FMessage 2 (tree r)) records)).
  { apply (good_and 156 (64 * 30020) _ _ [_]); [|exact G1]. apply (good_message 1 136); [number|number|]. by apply good_scope. }
  assert (G3 : good (4644 + (20 + (156 + 64 * 30020))) (fun P _ => encode_resource_records encode m records)
    [FMessage 1 (resource_fields m); FMessage 2 (FMessage 1 (scope_fields m) :: map (fun r => FMessage 2 (tree r)) records)]).
  { apply (good_and _ _ _ _ [_] [_]); [apply (good_message 1 4624); [number|number|by apply good_resource]|apply good_message; [number|number|exact G2]]. }
  eapply good_eq; [|reflexivity|reflexivity|apply good_message; [number| |exact G3]]; number.
Qed.

Lemma request_run {Rec} check (encode : Rec -> generic) (tree : Rec -> list pb_field) ok valid m records output scratch :
  (forall r, ok r -> decides (check r) (valid r)) -> (forall r, ok r -> valid r -> good 30000 (encode r) (tree r)) ->
  metadata_ok m -> Forall ok records -> Z.of_nat (length output) <= size_max ->
  request_result (md_resource_attribute_count m <= 16 /\ Forall valid records) ((length records <= 64)%nat /\ (64 <= length scratch)%nat) (request_fields tree m records) output
    (checked_request check encode m records output scratch).
Proof.
  intros Hcheck Hgood Hm Hok Hout. unfold checked_request, valid_metadata. destruct (mo_attributes m Hm) as [Hlen _]. rewrite Hlen.
  destruct (Z.leb_spec (md_resource_attribute_count m) (Z.of_nat 16)) as [Hc|Hc]; cbn [negb].
  2:{ exists (Err otlp_resource_error), output. do 2 (split; [done|]). split; [lia|]. split; [|lia]. intros _. split; [done|]. by exists otlp_resource_error. }
  destruct (check_records_run check ok valid records Hcheck Hok) as (res & -> & Hres). rewrite outcome_bind_Ret. destruct res as [u|e].
  2:{ exists (Err e), output. do 2 (split; [done|]). split; [tauto|]. split; [|tauto]. intros _. split; [done|]. exists e. tauto. }
  unfold encode_request. destruct (_ || _) eqn:B.
  { exists (Err otlp_batch_error), output. do 2 (split; [done|]). rewrite orb_true_iff, !Z.ltb_lt in B. split; [lia|]. split; [tauto|]. intros _ _. by exists otlp_batch_error. }
  rewrite orb_false_iff, !Z.ltb_ge in B.
  destruct (good_request tree encode m records Hm Hc) as [[Wok Wsize] [_ [D F]]]; [lia| |].
  { apply list.Forall_forall. intros r Hr. rewrite list.Forall_forall in Hok, Hres. auto. }
  assert (Hw : writer_ok (MkWriter output 0)) by (split; cbn; lia). destruct (decide (fits (MkWriter output 0) (fields_bytes (request_fields tree m records)))) as [Hf|Hf].
  - rewrite (D _ Hw Hf). cbn [mbind outcome_bind negb]. eexists (Ok _), _. split; [reflexivity|]. destruct (written_ok _ _ Hw Hf) as [_ El]. split; [exact El|].
    unfold fits in Hf. cbn [wr_used wr_output] in Hf. cbn [written wr_used wr_output]. change (take (Z.to_nat 0) output ++ ?x) with x. change (Z.to_nat 0 + ?x)%nat with x.
    split; [|split; [tauto|intros _ []; split; lia]]. intros _ _ _. split; [done|]. split; [done|]. rewrite take_app_length. by apply tree_reads.
  - destruct (F _ Hw Hf) as (w' & -> & El). cbn [mbind outcome_bind negb]. eexists (Err _), _. split; [reflexivity|]. split; [exact El|].
    unfold fits in Hf. cbn [wr_used wr_output] in Hf. split; [lia|]. split; [tauto|]. intros _ _. by exists otlp_output_error.
Qed.

(** C30: the three encoders of telemetry return for all metadata and records whose texts were made
    by [from].  Invalid metadata or records are refused as such with the output untouched.
    Otherwise, if there are at most 64 records, 64 bytes of scratch and room for the request in
    the output, the front of the output is exactly the protobuf encoding of the request, of the
    size reported, the rest of the output is untouched, and a reader of the wire format recovers
    the request field by field; and if not, exhaustion is reported.  No byte outside of the
    output is written and no size overflows. *)
Theorem otlp_requests_exact (m : OtlpMetadata) (output scratch : list Z) : metadata_ok m -> Z.of_nat (length output) <= size_max ->
  (forall records, Forall trace_ok records -> request_result (md_resource_attribute_count m <= 16 /\ Forall trace_valid records)
     ((length records <= 64)%nat /\ (64 <= length scratch)%nat) (request_fields span_fields m records) output (encode_otlp_traces m records output scratch)) /\
  (forall records, Forall metric_ok records -> request_result (md_resource_attribute_count m <= 16 /\ Forall metric_valid records)
     ((length records <= 64)%nat /\ (64 <= length scratch)%nat) (request_fields metric_fields m records) output (encode_otlp_metrics m records output scratch)) /\
  (forall records, Forall log_ok records -> request_result (md_resource_attribute_count m <= 16 /\ Forall log_valid records)
     ((length records <= 64)%nat /\ (64 <= length scratch)%nat) (request_fields log_fields m records) output (encode_otlp_logs m records output scratch)).
Proof.
  intros Hm Hout. split; [|split]; intros records Hok.
  - apply (request_run _ _ _ trace_ok); [apply check_trace_run|apply good_span|done..].
  - apply (request_run _ _ _ metric_ok); [apply check_metric_run| |done..]. intros r Hr Hv. eapply good_eq; [|reflexivity|reflexivity|by apply good_metric]. lia.
  - apply (request_run _ _ _ log_ok); [apply check_log_run| |done..]. intros r Hr Hv. eapply good_eq; [|reflexivity|reflexivity|by apply good_log]. lia.
Qed.

(** ** An example *)
Module OtlpDemo.
Definition made (capacity : nat) (s : string) : OtlpText := match OtlpText_from capacity (chars s) with Ret (Ok t) => t | _ => OtlpText_default capacity end.
Definition blank : OtlpAttribute := MkOtlpAttribute (OtlpText_default 64) (OtlpText_default 128).
Definition attributes : list OtlpAttribute := MkOtlpAttribute (made 64 "host") (made 128 "a") :: replicate 15 blank.
Definition metadata : OtlpMetadata := MkOtlpMetadata (made 64 "laghu") (made 64 "core") (made 32 "1") attributes 1.
Definition entry : OtlpLogRecord := MkOtlpLogRecord 1700000000000000000 9 (made 32 "INFO") (made 256 "started") (replicate 16 0) (replicate 8 0) attributes 1.

Lemma blank_ok : attribute_ok blank.
Proof. split; exists []; vm_compute; reflexivity. Qed.

Lemma attributes_made : Forall attribute_ok attributes.
Proof.
  apply list.Forall_cons. split; [|apply Forall_replicate, blank_ok]. split; [exists (chars "host")|exists (chars "a")]; vm_compute; reflexivity.
Qed.

Lemma metadata_made : metadata_ok metadata.
Proof.
  split; [exists (chars "laghu")|exists (chars "core")|exists (chars "1")| |]; try (vm_compute; reflexivity); [|cbn; lia]. split; [reflexivity|exact attributes_made].
Qed.

Lemma entry_made : log_ok entry.
Proof.
  split; try (cbn; unfold u64_max, u32_max; lia); try reflexivity; [exists (chars "INFO")|exists (chars "started")|]; try (vm_compute; reflexivity).
  split; [reflexivity|]. split; [exact attributes_made|cbn; lia].
Qed.
End OtlpDemo.

Lemma otlp_requests_exact_witness : exists n output',
  encode_otlp_logs OtlpDemo.metadata [OtlpDemo.entry] (replicate 256 0) (replicate 64 0) = Ret (Ok n, output') /\
  reads_as (take (Z.to_nat n) output') (request_fields log_fields OtlpDemo.metadata [OtlpDemo.entry]).
Proof.
  destruct (otlp_requests_exact OtlpDemo.metadata (replicate 256 0) (replicate 64 0)) as (_ & _ & H).
  - exact OtlpDemo.metadata_made.
  - vm_compute. discriminate.
  - destruct (H [OtlpDemo.entry]) as (r & output' & E & _ & Hok & _); [apply Forall_singleton; exact OtlpDemo.entry_made|].
    destruct Hok as (-> & _ & Hr).
    + split; [cbn; lia|]. apply Forall_singleton. split; [vm_compute; discriminate|]. split; [vm_compute; discriminate|]. split; [cbn; lia|].
      intros (b & Hb & Hn). exfalso. apply Hn. by apply elem_of_replicate in Hb as [-> _].
    + split; [cbn; lia|]. rewrite length_replicate. lia.
    + vm_compute. lia.
    + eexists _, output'. split; [exact E|]. rewrite Nat2Z.id. exact Hr.
Defined.
