(* ===== verification/OpenSsl.v ===== *)
(** * The cryptographic provider

    Models [src/adapters/contract/laghu/adapters/crypto_provider.hpp] and
    [src/adapters/crypto_provider.cpp]: the operations of the provider over OpenSSL or LibreSSL,
    with the contexts and keys they own and the temporary copy of a private seed.

    The library is a record of functions over a state [N] of its own, which holds its error
    queue; contexts and keys are known by their addresses.  Byte views are the bytes they show.
    The storage of secrets that have been destroyed is kept in the world, as it was left. *)
From S2P Require Import Prelude Contract CheckedArithmetic Views Digest Dependencies.
From Stdlib Require Import ZArith Lia String Ascii.
From stdpp Require Import base numbers list option gmap.

Set Default Goal Selector "!".
#[local] Open Scope Z_scope.

Definition Ed25519Signature : Type := FixedCryptoBytes.
Definition Ed25519Signature_size : nat := 64.
Definition Ed25519PublicKey : Type := FixedCryptoBytes.
Definition Ed25519PublicKey_size : nat := 32.

Definition crypto_range_error (diagnostic : string) : Error := make_error domain_crypto invalid_range 0 (list_ascii_of_string diagnostic).
Definition hmac_key_error := crypto_range_error "HMAC key length exceeds provider limit".
Definition ed25519_seed_error := crypto_range_error "Ed25519 private seed must contain 32 bytes".
Definition spki_length_error := crypto_range_error "SPKI DER length is outside provider limits".

Definition bounded_provider_error_code (value : Z) : Z := if int_max int32_t <? value then int_max int32_t else cast int32_t value.

Section provider.
Context {N L : Type}.

(** Calls that write to an array of the caller take it and return it. *)
Record OpenSsl := MkOpenSsl {
  EVP_MD : Type;
  EVP_sha256 : EVP_MD;
  ERR_get_error : N -> Z * N;
  ERR_clear_error : N -> N;
  OPENSSL_cleanse : list Z -> list Z;
  CRYPTO_memcmp : list Z -> list Z -> Z;
  EVP_MD_CTX_new : N -> option nat * N;
  EVP_MD_CTX_free : nat -> N -> outcome N;
  EVP_PKEY_new_raw_private_key : list Z -> N -> outcome (option nat * N);
  EVP_PKEY_new_raw_public_key : list Z -> N -> outcome (option nat * N);
  EVP_PKEY_free : nat -> N -> outcome N;
  EVP_DigestInit_ex : nat -> EVP_MD -> N -> outcome (Z * N);
  EVP_DigestUpdate : nat -> list Z -> N -> outcome (Z * N);
  EVP_DigestFinal_ex : nat -> list Z -> N -> outcome (Z * list Z * Z * N);
  HMAC : EVP_MD -> list Z -> Z -> list Z -> list Z -> N -> outcome (bool * list Z * Z * N);
  EVP_DigestSignInit : nat -> nat -> N -> outcome (Z * N);
  EVP_DigestSign : nat -> list Z -> Z -> list Z -> N -> outcome (Z * list Z * Z * N);
  EVP_DigestVerifyInit : nat -> nat -> N -> outcome (Z * N);
  EVP_DigestVerify : nat -> list Z -> list Z -> N -> outcome (Z * N);
  d2i_PUBKEY : list Z -> Z -> N -> outcome (option nat * Z * N) }.

(** The dependency is selected when the program is built. *)
Context (lib : OpenSsl) (crypto_dependency_id : DependencyId).

Record CryptoWorld := MkCryptoWorld { cw_native : N; cw_log : L; cw_gone : list (list Z) }.
Implicit Types (w : CryptoWorld).

Definition set_crypto_native w (n : N) : CryptoWorld := MkCryptoWorld n (cw_log w) (cw_gone w).
Definition clear_errors w : CryptoWorld := set_crypto_native w (ERR_clear_error lib (cw_native w)).

Definition crypto_failure (operation : DependencyOperation) (log_sink : option (DependencyLogSink L)) w : Error * CryptoWorld :=
  let '(provider_error, n) := ERR_get_error lib (cw_native w) in
  let w := clear_errors (set_crypto_native w n) in
  let e := normalize_dependency_error crypto_dependency_id operation status_crypto (bounded_provider_error_code provider_error) in
  match log_sink with
  | None => (e, w)
  | Some sink => (e, MkCryptoWorld (cw_native w) (log_dependency_error sink (cw_log w) e) (cw_gone w))
  end.

Definition fail {A} (operation : DependencyOperation) (log_sink : option (DependencyLogSink L)) w : outcome (Result A * CryptoWorld) :=
  let '(e, w) := crypto_failure operation log_sink w in Ret (Err e, w).

(** Owned contexts and keys: made, and freed at the end of their scope. *)
Definition new_context w : outcome (option nat * CryptoWorld) := let '(c, n) := EVP_MD_CTX_new lib (cw_native w) in Ret (c, set_crypto_native w n).
Definition free_context (c : nat) w : outcome CryptoWorld := n ← EVP_MD_CTX_free lib c (cw_native w); Ret (set_crypto_native w n).
Definition free_key (k : nat) w : outcome CryptoWorld := n ← EVP_PKEY_free lib k (cw_native w); Ret (set_crypto_native w n).

(** The chain of calls in the condition: the digest, if all succeed. *)
Definition digest_chain (c : nat) (input : list Z) w : outcome (option (list Z) * CryptoWorld) :=
  '(r, n) ← EVP_DigestInit_ex lib c (EVP_sha256 lib) (cw_native w);
  if negb (r =? 1) then Ret (None, set_crypto_native w n) else
  '(r, n) ← EVP_DigestUpdate lib c input n;
  if negb (r =? 1) then Ret (None, set_crypto_native w n) else
  '(r, output, output_size, n) ← EVP_DigestFinal_ex lib c (replicate Sha256Digest_size 0) n;
  Ret (if negb (r =? 1) || negb (output_size =? Z.of_nat Sha256Digest_size) then None else Some output, set_crypto_native w n).

Definition sha256_with_log (input : list Z) (log_sink : option (DependencyLogSink L)) w : outcome (Result Sha256Digest * CryptoWorld) :=
  let w := clear_errors w in
  '(context, w) ← new_context w;
  match context with
  | None => fail op_sha256 log_sink w
  | Some c =>
      '(output, w) ← digest_chain c input w;
      '(r, w) ← match output with None => fail op_sha256 log_sink w | Some output => Ret (Ok (FixedCryptoBytes_from_array output), w) end;
      w ← free_context c w;
      Ret (r, w)
  end.

Definition hmac_sha256_with_log (key input : list Z) (log_sink : option (DependencyLogSink L)) w : outcome (Result Sha256Digest * CryptoWorld) :=
  if int_max int32_t <? Z.of_nat (length key) then Ret (Err hmac_key_error, w) else
  let w := clear_errors w in
  '(written, output, output_size, n) ← HMAC lib (EVP_sha256 lib) key (cast int32_t (Z.of_nat (length key))) input (replicate Sha256Digest_size 0) (cw_native w);
  let w := set_crypto_native w n in
  if negb written || negb (output_size =? Z.of_nat Sha256Digest_size) then fail op_hmac_sha256 log_sink w
  else Ret (Ok (FixedCryptoBytes_from_array output), w).

(** [SecretBytes<32>]: the copy, and what its destructor leaves. *)
Fixpoint copy_secret (count : nat) (index : Z) (input : list Z) : outcome (list Z) :=
  match count with
  | O => Ret []
  | S count => b ← slot input index; rest ← copy_secret count (index + 1) input; Ret (b :: rest)
  end.
Definition destroy_secret (bytes : list Z) w : CryptoWorld := MkCryptoWorld (cw_native w) (cw_log w) (cw_gone w ++ [OPENSSL_cleanse lib bytes]).

Definition make_ed25519_private_key (seed : list Z) w : outcome (option nat * CryptoWorld) :=
  temporary_seed ← copy_secret 32 0 seed;
  '(key, n) ← EVP_PKEY_new_raw_private_key lib temporary_seed (cw_native w);
  Ret (key, destroy_secret temporary_seed (set_crypto_native w n)).

Definition sign_chain (c k : nat) (input : list Z) w : outcome (option (list Z) * CryptoWorld) :=
  '(r, n) ← EVP_DigestSignInit lib c k (cw_native w);
  if negb (r =? 1) then Ret (None, set_crypto_native w n) else
  '(r, output, output_size, n) ← EVP_DigestSign lib c (replicate Ed25519Signature_size 0) (Z.of_nat Ed25519Signature_size) input n;
  Ret (if negb (r =? 1) || negb (output_size =? Z.of_nat Ed25519Signature_size) then None else Some output, set_crypto_native w n).

Definition ed25519_sign_with_log (private_key_seed input : list Z) (log_sink : option (DependencyLogSink L)) w : outcome (Result Ed25519Signature * CryptoWorld) :=
  if negb (Z.of_nat (length private_key_seed) =? Z.of_nat Ed25519PublicKey_size) then Ret (Err ed25519_seed_error, w) else
  let w := clear_errors w in
  '(private_key, w) ← make_ed25519_private_key private_key_seed w;
  match private_key with
  | None => fail op_ed25519_private_key log_sink w
  | Some k =>
      '(r, w) ← ('(context, w) ← new_context w;
                 match context with
                 | None => fail op_ed25519_sign log_sink w
                 | Some c =>
                     '(output, w) ← sign_chain c k input w;
                     '(r, w) ← match output with None => fail op_ed25519_sign log_sink w | Some output => Ret (Ok (FixedCryptoBytes_from_array output), w) end;
                     w ← free_context c w;
                     Ret (r, w)
                 end);
      w ← free_key k w;
      Ret (r, w)
  end.

Definition verify_in (c k : nat) (input signature : list Z) (log_sink : option (DependencyLogSink L)) w : outcome (Result bool * CryptoWorld) :=
  '(r, n) ← EVP_DigestVerifyInit lib c k (cw_native w);
  let w := set_crypto_native w n in
  if negb (r =? 1) then fail op_ed25519_verify log_sink w else
  '(result, n) ← EVP_DigestVerify lib c signature input (cw_native w);
  let w := set_crypto_native w n in
  if result =? 1 then Ret (Ok true, w) else
  if result =? 0 then Ret (Ok false, clear_errors w) else fail op_ed25519_verify log_sink w.

Definition ed25519_verify_with_log (public_key : Ed25519PublicKey) (input : list Z) (signature : Ed25519Signature) (log_sink : option (DependencyLogSink L)) w :
    outcome (Result bool * CryptoWorld) :=
  let w := clear_errors w in
  '(key, n) ← EVP_PKEY_new_raw_public_key lib (fc_bytes public_key) (cw_native w);
  let w := set_crypto_native w n in
  match key with
  | None => fail op_ed25519_verify log_sink w
  | Some k =>
      '(r, w) ← ('(context, w) ← new_context w;
                 match context with
                 | None => fail op_ed25519_verify log_sink w
                 | Some c => '(r, w) ← verify_in c k input (fc_bytes signature) log_sink w; w ← free_context c w; Ret (r, w)
                 end);
      w ← free_key k w;
      Ret (r, w)
  end.

Definition spki_sha256_with_log (der : list Z) (log_sink : option (DependencyLogSink L)) w : outcome (Result Sha256Digest * CryptoWorld) :=
  if bool_decide (der = []) || (int_max int64_t <? Z.of_nat (length der)) then Ret (Err spki_length_error, w) else
  let w := clear_errors w in
  '(public_key, consumed, n) ← d2i_PUBKEY lib der (cast int64_t (Z.of_nat (length der))) (cw_native w);
  let w := set_crypto_native w n in
  match public_key with
  | None => fail op_spki_decode log_sink w
  | Some k =>
      '(r, w) ← (if negb (consumed =? Z.of_nat (length der)) then fail op_spki_decode log_sink w else sha256_with_log der log_sink w);
      w ← free_key k w;
      Ret (r, w)
  end.

(** ** The table without a log *)
Definition sha256 (input : list Z) w := sha256_with_log input None w.
Definition hmac_sha256 (key input : list Z) w := hmac_sha256_with_log key input None w.
Definition ed25519_sign (private_key_seed input : list Z) w := ed25519_sign_with_log private_key_seed input None w.
Definition ed25519_verify (public_key : Ed25519PublicKey) (input : list Z) (signature : Ed25519Signature) w := ed25519_verify_with_log public_key input signature None w.
Definition spki_sha256 (der : list Z) w := spki_sha256_with_log der None w.
Definition provider_constant_time_equal (left right : Sha256Digest) : bool := CRYPTO_memcmp lib (fc_bytes left) (fc_bytes right) =? 0.

(** ** The table with a log *)
Record CryptoProviderWithLog := MkCryptoProviderWithLog { cl_sink : DependencyLogSink L }.
Definition CryptoProviderWithLog_sha256 (this : CryptoProviderWithLog) (input : list Z) w := sha256_with_log input (Some (cl_sink this)) w.
Definition CryptoProviderWithLog_hmac_sha256 (this : CryptoProviderWithLog) (key input : list Z) w := hmac_sha256_with_log key input (Some (cl_sink this)) w.
Definition CryptoProviderWithLog_ed25519_sign (this : CryptoProviderWithLog) (seed input : list Z) w := ed25519_sign_with_log seed input (Some (cl_sink this)) w.
Definition CryptoProviderWithLog_ed25519_verify (this : CryptoProviderWithLog) (public_key : Ed25519PublicKey) (input : list Z) (signature : Ed25519Signature) w :=
  ed25519_verify_with_log public_key input signature (Some (cl_sink this)) w.
Definition CryptoProviderWithLog_spki_sha256 (this : CryptoProviderWithLog) (der : list Z) w := spki_sha256_with_log der (Some (cl_sink this)) w.
End provider.
Arguments OpenSsl : clear implicits.
Arguments CryptoWorld : clear implicits.

(** * What the cryptographic provider computes and gives back

    The laws of the library say which contexts and keys exist, what a context has absorbed and
    what successful calls compute.  Every operation leaves no context and no key behind, cleanses
    the copy of a seed, and reports what the library computes or a failure of the library. *)

Inductive ContextState := ctx_idle | ctx_hash (l : list Z) | ctx_sign (seed : list Z) | ctx_verify (public : list Z).
Inductive KeyData := key_private (seed : list Z) | key_public (bytes : list Z) | key_decoded.

(** The objects of the library, whether it is [healthy], that is short of nothing, and the
    functions it computes.  [spki_of] are the encodings of exactly one public key. *)
Class OpenSslView (N : Type) := {
  contexts : N -> gmap nat ContextState; keys : N -> gmap nat KeyData; healthy : N -> Prop;
  sha256_of : list Z -> list Z; hmac_of : list Z -> list Z -> list Z; sign_of : list Z -> list Z -> list Z; verify_of : list Z -> list Z -> list Z -> bool;
  spki_of : list Z -> bool }.

(** The step from one state to the next changes the objects to [cs] and [ks]. *)
Record moves {N} {V : OpenSslView N} (n n' : N) (cs : gmap nat ContextState) (ks : gmap nat KeyData) : Prop := {
  mv_contexts : contexts n' = cs; mv_keys : keys n' = ks; mv_healthy : healthy n -> healthy n' }.
Abbreviation unmoved n n' := (moves n n' (contexts n) (keys n)).

Class OpenSslLaws {N} (V : OpenSslView N) (lib : OpenSsl N) := {
  law_get_error n : unmoved n (ERR_get_error lib n).2;
  law_clear_error n : unmoved n (ERR_clear_error lib n);
  law_cleanse l : OPENSSL_cleanse lib l = replicate (length l) 0;
  law_memcmp a b : length a = length b -> CRYPTO_memcmp lib a b = 0 <-> a = b;
  law_context_new n : match EVP_MD_CTX_new lib n with
    | (None, n') => unmoved n n' /\ ~ healthy n
    | (Some c, n') => contexts n !! c = None /\ moves n n' (<[c := ctx_idle]> (contexts n)) (keys n)
    end;
  law_context_free n c : is_Some (contexts n !! c) -> exists n', EVP_MD_CTX_free lib c n = Ret n' /\ moves n n' (delete c (contexts n)) (keys n);
  law_private_key n seed : length seed = 32%nat -> exists k n', EVP_PKEY_new_raw_private_key lib seed n = Ret (k, n') /\
    match k with
    | None => unmoved n n' /\ ~ healthy n
    | Some k => keys n !! k = None /\ moves n n' (contexts n) (<[k := key_private seed]> (keys n))
    end;
  law_public_key n bytes : length bytes = 32%nat -> exists k n', EVP_PKEY_new_raw_public_key lib bytes n = Ret (k, n') /\
    match k with
    | None => unmoved n n' /\ ~ healthy n
    | Some k => keys n !! k = None /\ moves n n' (contexts n) (<[k := key_public bytes]> (keys n))
    end;
  law_key_free n k : is_Some (keys n !! k) -> exists n', EVP_PKEY_free lib k n = Ret n' /\ moves n n' (contexts n) (delete k (keys n));
  law_digest_init n c : is_Some (contexts n !! c) -> exists r s n', EVP_DigestInit_ex lib c (EVP_sha256 lib) n = Ret (r, n') /\
    moves n n' (<[c := s]> (contexts n)) (keys n) /\ (r = 1 -> s = ctx_hash []) /\ (healthy n -> r = 1);
  law_digest_update n c l input : contexts n !! c = Some (ctx_hash l) -> exists r s n', EVP_DigestUpdate lib c input n = Ret (r, n') /\
    moves n n' (<[c := s]> (contexts n)) (keys n) /\ (r = 1 -> s = ctx_hash (l ++ input)) /\ (healthy n -> r = 1);
  law_digest_final n c l room : contexts n !! c = Some (ctx_hash l) -> length room = 32%nat -> exists r out size s n',
    EVP_DigestFinal_ex lib c room n = Ret (r, out, size, n') /\ moves n n' (<[c := s]> (contexts n)) (keys n) /\
    (r = 1 -> size = 32 -> out = sha256_of l) /\ (healthy n -> r = 1 /\ size = 32);
  law_hmac n key input room : Z.of_nat (length key) <= int_max int32_t -> length room = 32%nat -> exists written out size n',
    HMAC lib (EVP_sha256 lib) key (Z.of_nat (length key)) input room n = Ret (written, out, size, n') /\ unmoved n n' /\
    (written = true -> size = 32 -> out = hmac_of key input) /\ (healthy n -> written = true /\ size = 32);
  law_sign_init n c k seed : is_Some (contexts n !! c) -> keys n !! k = Some (key_private seed) -> exists r s n', EVP_DigestSignInit lib c k n = Ret (r, n') /\
    moves n n' (<[c := s]> (contexts n)) (keys n) /\ (r = 1 -> s = ctx_sign seed) /\ (healthy n -> r = 1);
  law_sign n c seed room input : contexts n !! c = Some (ctx_sign seed) -> length room = 64%nat -> exists r out size s n',
    EVP_DigestSign lib c room 64 input n = Ret (r, out, size, n') /\ moves n n' (<[c := s]> (contexts n)) (keys n) /\
    (r = 1 -> size = 64 -> out = sign_of seed input) /\ (healthy n -> r = 1 /\ size = 64);
  law_verify_init n c k public : is_Some (contexts n !! c) -> keys n !! k = Some (key_public public) -> exists r s n', EVP_DigestVerifyInit lib c k n = Ret (r, n') /\
    moves n n' (<[c := s]> (contexts n)) (keys n) /\ (r = 1 -> s = ctx_verify public) /\ (healthy n -> r = 1);
  law_verify n c public signature input : contexts n !! c = Some (ctx_verify public) -> exists r s n', EVP_DigestVerify lib c signature input n = Ret (r, n') /\
    moves n n' (<[c := s]> (contexts n)) (keys n) /\ (r = 1 -> verify_of public input signature = true) /\ (r = 0 -> verify_of public input signature = false) /\
    (healthy n -> r = 1 \/ r = 0);
  law_decode n der : der <> [] -> Z.of_nat (length der) <= int_max int64_t -> exists k consumed n', d2i_PUBKEY lib der (Z.of_nat (length der)) n = Ret (k, consumed, n') /\
    match k with
    | None => unmoved n n' /\ ~ (healthy n /\ spki_of der = true)
    | Some k => keys n !! k = None /\ moves n n' (contexts n) (<[k := key_decoded]> (keys n)) /\ (consumed = Z.of_nat (length der) <-> spki_of der = true)
    end }.

Section operations.
Context {N L : Type} {V : OpenSslView N} {lib : OpenSsl N} {laws : OpenSslLaws V lib} (id : DependencyId).
Abbreviation World := (CryptoWorld N L).
Implicit Types (w : World) (sink : option (DependencyLogSink L)).

(** An operation returns with the objects [cs] and [ks], more destroyed secrets, all of them
    zero, and a result that [good] describes, or a failure of the library. *)
Definition ends {A} (m : outcome (Result A * World)) w (cs : gmap nat ContextState) (ks : gmap nat KeyData) (able : Prop) (good : A -> Prop) : Prop :=
  exists r w', m = Ret (r, w') /\ moves (cw_native w) (cw_native w') cs ks /\ (exists secrets, cw_gone w' = cw_gone w ++ secrets /\ Forall (fun s => Forall (eq 0) s) secrets) /\
    match r with
    | Ok a => good a
    | Err e => (exists operation code, e = normalize_dependency_error id operation status_crypto code) /\ ~ able
    end.

Lemma moves_trans n1 n2 n3 cs ks cs' ks' : moves n1 n2 cs ks -> moves n2 n3 cs' ks' -> moves n1 n3 cs' ks'.
Proof. intros [? ? H1] [? ? H2]. split; auto. Qed.

Lemma unmoved_refl (n : N) : unmoved n n.
Proof. by split. Qed.

Lemma ends_after {A} (m : outcome (Result A * World)) w w1 cs ks cs1 ks1 (able : Prop) (good : A -> Prop) :
  moves (cw_native w) (cw_native w1) cs1 ks1 -> (exists secrets, cw_gone w1 = cw_gone w ++ secrets /\ Forall (fun s => Forall (eq 0) s) secrets) ->
  ends m w1 cs ks able good -> ends m w cs ks able good.
Proof.
  intros Hm (s1 & E1 & H1) (r & w' & Hr & Hm' & (s2 & E2 & H2) & Hgood). exists r, w'. split; [done|]. split; [by eapply moves_trans|]. split.
  - exists (s1 ++ s2). by rewrite E2, E1, <- app_assoc, list.Forall_app.
  - done.
Qed.

Lemma ends_step {A} (m : outcome (Result A * World)) w n cs ks cs1 ks1 (able : Prop) (good : A -> Prop) :
  moves (cw_native w) n cs1 ks1 -> ends m (set_crypto_native w n) cs ks able good -> ends m w cs ks able good.
Proof. intros Hm. eapply ends_after; [exact Hm|]. exists []. by rewrite app_nil_r. Qed.

Lemma ends_same {A} (m m' : outcome (Result A * World)) w cs ks (able : Prop) (good : A -> Prop) : m = m' -> ends m' w cs ks able good -> ends m w cs ks able good.
Proof. by intros ->. Qed.

Lemma ends_ok {A} w (a : A) (able : Prop) (good : A -> Prop) : good a -> ends (Ret (Ok a, w)) w (contexts (cw_native w)) (keys (cw_native w)) able good.
Proof. intros Ha. exists (Ok a), w. split; [done|]. split; [by split|]. split; [|done]. exists []. by rewrite app_nil_r. Qed.

Lemma ends_fail {A} w operation sink (able : Prop) (good : A -> Prop) : ~ able ->
  ends (fail lib id operation sink w) w (contexts (cw_native w)) (keys (cw_native w)) able good.
Proof.
  intros Hn. unfold fail, crypto_failure. destruct (ERR_get_error lib (cw_native w)) as [code n] eqn:E.
  pose proof (law_get_error (cw_native w)) as H1. rewrite E in H1. cbn [snd] in H1. pose proof (law_clear_error n) as H2.
  assert (Hm : moves (cw_native w) (ERR_clear_error lib n) (contexts (cw_native w)) (keys (cw_native w))).
  { destruct H1 as [A1 A2 A3], H2 as [B1 B2 B3]. split; [congruence|congruence|auto]. }
  destruct sink as [sink|]; eexists (Err _), _; (split; [reflexivity|]); (split; [exact Hm|]); (split; [exists []; by rewrite app_nil_r|]); (split; [by eexists _, _|done]).
Qed.

(** The end of the scope of a context and of a key. *)
Lemma ends_free_context {A} (m : outcome (Result A * World)) w c cs ks (able : Prop) (good : A -> Prop) : is_Some (cs !! c) -> ends m w cs ks able good ->
  ends ('(r, w) ← m; w ← free_context lib c w; Ret (r, w)) w (delete c cs) ks able good.
Proof.
  intros Hc (r & w' & -> & Hm & Hs & Hr). rewrite outcome_bind_Ret. unfold free_context.
  destruct (law_context_free (cw_native w') c) as (n & -> & Hf); [by rewrite (mv_contexts _ _ _ _ Hm)|]. rewrite !outcome_bind_Ret.
  exists r, (set_crypto_native w' n). split; [done|]. split; [|done]. rewrite (mv_contexts _ _ _ _ Hm), (mv_keys _ _ _ _ Hm) in Hf. by eapply moves_trans.
Qed.

Lemma ends_free_key {A} (m : outcome (Result A * World)) w k cs ks (able : Prop) (good : A -> Prop) : is_Some (ks !! k) -> ends m w cs ks able good ->
  ends ('(r, w) ← m; w ← free_key lib k w; Ret (r, w)) w cs (delete k ks) able good.
Proof.
  intros Hc (r & w' & -> & Hm & Hs & Hr). rewrite outcome_bind_Ret. unfold free_key.
  destruct (law_key_free (cw_native w') k) as (n & -> & Hf); [by rewrite (mv_keys _ _ _ _ Hm)|]. rewrite !outcome_bind_Ret.
  exists r, (set_crypto_native w' n). split; [done|]. split; [|done]. rewrite (mv_contexts _ _ _ _ Hm), (mv_keys _ _ _ _ Hm) in Hf. by eapply moves_trans.
Qed.

(** A scope that owns a new context. *)
Lemma ends_context {A} w operation sink (body : nat -> World -> outcome (Result A * World)) (able : Prop) (good : A -> Prop) : (able -> healthy (cw_native w)) ->
  (forall c w1, (able -> healthy (cw_native w1)) -> contexts (cw_native w1) !! c = Some ctx_idle -> keys (cw_native w1) = keys (cw_native w) ->
     exists s, ends (body c w1) w1 (<[c := s]> (contexts (cw_native w1))) (keys (cw_native w1)) able good) ->
  ends ('(context, w) ← new_context lib w;
        match context with
        | None => fail lib id operation sink w
        | Some c => '(r, w) ← body c w; w ← free_context lib c w; Ret (r, w)
        end) w (contexts (cw_native w)) (keys (cw_native w)) able good.
Proof.
  intros Hable Hbody. unfold new_context. pose proof (law_context_new (cw_native w)) as Hl. destruct (EVP_MD_CTX_new lib (cw_native w)) as [[c|] n]; rewrite outcome_bind_Ret.
  - destruct Hl as [Hfree Hm]. pose proof Hm as [M1 M2 M3]. destruct (Hbody c (set_crypto_native w n)) as (s & Hends); [cbn; auto|cbn; by rewrite M1, lookup_insert_eq|done|].
    apply (ends_free_context _ _ c) in Hends; [|by rewrite lookup_insert_eq]. cbn [set_crypto_native cw_native] in Hends. rewrite M1, M2, insert_insert_eq, delete_insert_id in Hends by done.
    eapply ends_step; [exact Hm|exact Hends].
  - destruct Hl as [Hm Hn]. eapply ends_step; [exact Hm|]. pose proof (ends_fail (set_crypto_native w n) operation sink able good ltac:(tauto)) as Hf.
    cbn [set_crypto_native cw_native] in Hf. by rewrite (mv_contexts _ _ _ _ Hm), (mv_keys _ _ _ _ Hm) in Hf.
Qed.

(** A chain of calls on a context gives its output, or fails. *)
Definition chained (m : outcome (option (list Z) * World)) w (c : nat) (able : Prop) (output : list Z) : Prop :=
  exists o w' s, m = Ret (o, w') /\ moves (cw_native w) (cw_native w') (<[c := s]> (contexts (cw_native w))) (keys (cw_native w)) /\ cw_gone w' = cw_gone w /\
    match o with Some l => l = output | None => ~ able end.

Lemma ends_chain (chain : outcome (option (list Z) * World)) w c operation sink (able : Prop) output : chained chain w c able output ->
  exists s, ends ('(output, w) ← chain; match output with None => fail lib id operation sink w | Some output => Ret (Ok (FixedCryptoBytes_from_array output), w) end) w
    (<[c := s]> (contexts (cw_native w))) (keys (cw_native w)) able (fun d => fc_bytes d = output).
Proof.
  intros (o & w' & s & -> & Hm & Hg & Ho). exists s. rewrite outcome_bind_Ret.
  eapply ends_after; [exact Hm|exists []; by rewrite app_nil_r|]. rewrite <- (mv_contexts _ _ _ _ Hm), <- (mv_keys _ _ _ _ Hm). destruct o as [l|]; [by apply ends_ok|by apply ends_fail].
Qed.

Lemma digest_chain_run c input w (able : Prop) : (able -> healthy (cw_native w)) -> is_Some (contexts (cw_native w) !! c) ->
  chained (digest_chain lib c input w) w c able (sha256_of input).
Proof.
  intros Hable Hc. unfold digest_chain, chained. destruct (law_digest_init (cw_native w) c Hc) as (r1 & s1 & n1 & -> & [M1 K1 P1] & S1 & A1). rewrite outcome_bind_Ret.
  destruct (Z.eqb_spec r1 1) as [R1|R1]; cbn [negb].
  2:{ exists None, (set_crypto_native w n1), s1. split; [done|]. split; [by split|]. split; [done|]. tauto. }
  rewrite (S1 R1) in M1. destruct (law_digest_update n1 c [] input) as (r2 & s2 & n2 & -> & [M2 K2 P2] & S2 & A2); [by rewrite M1, lookup_insert_eq|]. rewrite outcome_bind_Ret.
  rewrite M1, insert_insert_eq in M2. destruct (Z.eqb_spec r2 1) as [R2|R2]; cbn [negb].
  2:{ exists None, (set_crypto_native w n2), s2. split; [done|]. split; [split; [done|cbn; congruence|cbn; auto]|]. split; [done|]. tauto. }
  rewrite (S2 R2) in M2. destruct (law_digest_final n2 c ([] ++ input) (replicate Sha256Digest_size 0)) as (r3 & out & size & s3 & n3 & -> & [M3 K3 P3] & S3 & A3);
    [by rewrite M2, lookup_insert_eq|apply length_replicate|]. rewrite outcome_bind_Ret. rewrite M2, insert_insert_eq in M3.
  exists (if negb (r3 =? 1) || negb (size =? Z.of_nat Sha256Digest_size) then None else Some out), (set_crypto_native w n3), s3. split; [done|].
  split; [split; [done|cbn; congruence|cbn; auto]|]. split; [done|]. destruct (_ || _) eqn:E.
  - intros Ha. destruct A3 as [-> ->]; [auto|done].
  - apply orb_false_iff in E as [E1 E2]. apply negb_false_iff, Z.eqb_eq in E1, E2. by apply S3.
Qed.

(** A chain of calls in the scope of its context. *)
Lemma ends_scope (chain : nat -> World -> outcome (option (list Z) * World)) w operation sink (able : Prop) output : (able -> healthy (cw_native w)) ->
  (forall c w1, (able -> healthy (cw_native w1)) -> is_Some (contexts (cw_native w1) !! c) -> keys (cw_native w1) = keys (cw_native w) -> chained (chain c w1) w1 c able output) ->
  ends ('(context, w) ← new_context lib w;
        match context with
        | None => fail lib id operation sink w
        | Some c =>
            '(output, w) ← chain c w;
            '(r, w) ← match output with None => fail lib id operation sink w | Some output => Ret (Ok (FixedCryptoBytes_from_array output), w) end;
            w ← free_context lib c w;
            Ret (r, w)
        end) w (contexts (cw_native w)) (keys (cw_native w)) able (fun d => fc_bytes d = output).
Proof.
  intros Hable Hchain. eapply ends_same; [|apply (ends_context w operation sink (fun c w => '(output, w) ← chain c w;
    match output with None => fail lib id operation sink w | Some output => Ret (Ok (FixedCryptoBytes_from_array output), w) end)); [exact Hable|]].
  - destruct (new_context lib w) as [[[c|] w1]|]; cbn [mbind outcome_bind]; [|done|done]. by destruct (chain c w1) as [[o w2]|].
  - intros c w1 H1 Hc Hk. apply ends_chain, Hchain; [done|by rewrite Hc|done].
Qed.

Lemma sha256_run input sink w (able : Prop) : (able -> healthy (cw_native w)) ->
  ends (sha256_with_log lib id input sink w) w (contexts (cw_native w)) (keys (cw_native w)) able (fun d => fc_bytes d = sha256_of input).
Proof.
  intros Hable. pose proof (law_clear_error (cw_native w)) as Hm. eapply ends_step; [exact Hm|]. rewrite <- (mv_contexts _ _ _ _ Hm), <- (mv_keys _ _ _ _ Hm).
  apply (ends_scope (fun c => digest_chain lib c input) (clear_errors lib w)); [intros Ha; apply Hm, Hable, Ha|]. intros c w1 H1 Hc _. by apply digest_chain_run.
Qed.

Lemma hmac_run key input sink w (able : Prop) : (able -> healthy (cw_native w)) -> Z.of_nat (length key) <= int_max int32_t ->
  ends (hmac_sha256_with_log lib id key input sink w) w (contexts (cw_native w)) (keys (cw_native w)) able (fun d => fc_bytes d = hmac_of key input).
Proof.
  intros Hable Hk. unfold hmac_sha256_with_log. rewrite (proj2 (Z.ltb_ge _ _)) by done. rewrite cast_in_range by (done || (split; [unfold int_min; cbn; lia|done])).
  pose proof (law_clear_error (cw_native w)) as Hm. pose proof Hm as [M K P]. cbn [clear_errors set_crypto_native cw_native].
  destruct (law_hmac (ERR_clear_error lib (cw_native w)) key input (replicate Sha256Digest_size 0) Hk (length_replicate _ _)) as (written & out & size & n & -> & Hm' & S & A).
  rewrite outcome_bind_Ret. pose proof Hm' as [M' K' P']. rewrite M, K in Hm'. assert (Hn : moves (cw_native w) n (contexts (cw_native w)) (keys (cw_native w))) by (by eapply moves_trans).
  eapply (ends_step _ _ n); [exact Hn|]. rewrite <- (mv_contexts _ _ _ _ Hn), <- (mv_keys _ _ _ _ Hn). destruct (_ || _) eqn:E.
  - apply (ends_fail (set_crypto_native w n)). intros Ha. destruct A as [-> ->]; [auto|done].
  - apply orb_false_iff in E as [E1 E2]. apply negb_false_iff in E1. apply negb_false_iff, Z.eqb_eq in E2. apply (ends_ok (set_crypto_native w n)). by apply S.
Qed.

(** A scope that owns a key. *)
Lemma ends_key {A} (m : outcome (Result A * World)) w w1 k data (able : Prop) (good : A -> Prop) : keys (cw_native w) !! k = None ->
  moves (cw_native w) (cw_native w1) (contexts (cw_native w)) (<[k := data]> (keys (cw_native w))) ->
  (exists secrets, cw_gone w1 = cw_gone w ++ secrets /\ Forall (fun s => Forall (eq 0) s) secrets) ->
  ends m w1 (contexts (cw_native w1)) (keys (cw_native w1)) able good ->
  ends ('(r, w) ← m; w ← free_key lib k w; Ret (r, w)) w (contexts (cw_native w)) (keys (cw_native w)) able good.
Proof.
  intros Hk Hm Hs Hends. pose proof Hm as [M K P]. apply (ends_free_key _ _ k) in Hends; [|by rewrite K, lookup_insert_eq].
  rewrite M, K, delete_insert_id in Hends by done. eapply ends_after; [exact Hm|exact Hs|exact Hends].
Qed.

Lemma copy_secret_run count : forall index input, 0 <= index -> (Z.to_nat index + count <= length input)%nat ->
  copy_secret count index input = Ret (take count (drop (Z.to_nat index) input)).
Proof.
  induction count as [|count IH]; intros index input Hi Hl; cbn [copy_secret]; [by rewrite take_0|].
  destruct (lookup_lt_is_Some_2 input (Z.to_nat index)) as [b Hb]; [lia|]. rewrite (slot_ok _ _ _ Hb), outcome_bind_Ret, IH, outcome_bind_Ret by lia.
  rewrite (drop_S _ _ _ Hb). cbn [take]. by replace (Z.to_nat (index + 1)) with (S (Z.to_nat index)) by lia.
Qed.

Lemma sign_chain_run c k seed input w (able : Prop) : (able -> healthy (cw_native w)) -> is_Some (contexts (cw_native w) !! c) -> keys (cw_native w) !! k = Some (key_private seed) ->
  chained (sign_chain lib c k input w) w c able (sign_of seed input).
Proof.
  intros Hable Hc Hk. unfold sign_chain, chained. destruct (law_sign_init (cw_native w) c k seed Hc Hk) as (r1 & s1 & n1 & -> & [M1 K1 P1] & S1 & A1). rewrite outcome_bind_Ret.
  destruct (Z.eqb_spec r1 1) as [R1|R1]; cbn [negb].
  2:{ exists None, (set_crypto_native w n1), s1. split; [done|]. split; [by split|]. split; [done|]. tauto. }
  rewrite (S1 R1) in M1. destruct (law_sign n1 c seed (replicate Ed25519Signature_size 0) input) as (r3 & out & size & s3 & n3 & E & [M3 K3 P3] & S3 & A3);
    [by rewrite M1, lookup_insert_eq|apply length_replicate|]. change (Z.of_nat Ed25519Signature_size) with 64. rewrite E, outcome_bind_Ret. rewrite M1, insert_insert_eq in M3.
  exists (if negb (r3 =? 1) || negb (size =? 64) then None else Some out), (set_crypto_native w n3), s3. split; [done|].
  split; [split; [done|cbn; congruence|cbn; auto]|]. split; [done|]. destruct (_ || _) eqn:B.
  - intros Ha. destruct A3 as [-> ->]; [auto|done].
  - apply orb_false_iff in B as [E1 E2]. apply negb_false_iff, Z.eqb_eq in E1, E2. by apply S3.
Qed.

Lemma sign_run seed input sink w (able : Prop) : (able -> healthy (cw_native w)) -> length seed = 32%nat ->
  ends (ed25519_sign_with_log lib id seed input sink w) w (contexts (cw_native w)) (keys (cw_native w)) able (fun s => fc_bytes s = sign_of seed input).
Proof.
  intros Hable Hl. unfold ed25519_sign_with_log. rewrite Hl, (proj2 (Z.eqb_eq (Z.of_nat 32) (Z.of_nat Ed25519PublicKey_size)) eq_refl). cbn [negb].
  pose proof (law_clear_error (cw_native w)) as Hm. pose proof Hm as [M K P]. unfold make_ed25519_private_key. rewrite copy_secret_run by (cbn; lia). rewrite outcome_bind_Ret.
  change (drop (Z.to_nat 0) seed) with seed. rewrite take_ge by lia. cbn [clear_errors set_crypto_native cw_native].
  destruct (law_private_key (ERR_clear_error lib (cw_native w)) seed Hl) as (k & n & -> & Hk). rewrite !outcome_bind_Ret.
  assert (Hsecret : forall x : World, cw_gone x = cw_gone w -> exists secrets, cw_gone (destroy_secret lib seed x) = cw_gone w ++ secrets /\ Forall (fun s => Forall (eq 0) s) secrets).
  { intros x Hx. exists [OPENSSL_cleanse lib seed]. split; [cbn; by rewrite Hx|]. apply Forall_singleton. rewrite law_cleanse. by apply Forall_replicate. }
  set (w1 := destroy_secret lib seed (set_crypto_native (clear_errors lib w) n)). specialize (Hsecret (set_crypto_native (clear_errors lib w) n) eq_refl). fold w1 in Hsecret.
  destruct k as [k|]; destruct Hk as [Hk1 Hk2].
  - rewrite K in Hk1. rewrite M, K in Hk2. assert (Hw : moves (cw_native w) (cw_native w1) (contexts (cw_native w)) (<[k := key_private seed]> (keys (cw_native w)))) by (by eapply moves_trans).
    eapply (ends_key _ w w1 k); [done|exact Hw|exact Hsecret|].
    apply (ends_scope (fun c => sign_chain lib c k input) w1); [intros Ha; apply (mv_healthy _ _ _ _ Hk2); auto|].
    intros c w2 H1 Hc Hkeys. apply sign_chain_run; [done|done|]. rewrite Hkeys, (mv_keys _ _ _ _ Hw). by rewrite lookup_insert_eq.
  - rewrite M, K in Hk1. assert (Hw : moves (cw_native w) (cw_native w1) (contexts (cw_native w)) (keys (cw_native w))) by (by eapply moves_trans).
    eapply ends_after; [exact Hw|exact Hsecret|]. rewrite <- (mv_contexts _ _ _ _ Hw), <- (mv_keys _ _ _ _ Hw). apply ends_fail. auto.
Qed.

Lemma verify_in_run c k public input signature sink w (able : Prop) : (able -> healthy (cw_native w)) -> is_Some (contexts (cw_native w) !! c) ->
  keys (cw_native w) !! k = Some (key_public public) ->
  exists s, ends (verify_in lib id c k input signature sink w) w (<[c := s]> (contexts (cw_native w))) (keys (cw_native w)) able (fun b => b = verify_of public input signature).
Proof.
  intros Hable Hc Hk. unfold verify_in. destruct (law_verify_init (cw_native w) c k public Hc Hk) as (r1 & s1 & n1 & -> & Hm1 & S1 & A1). rewrite outcome_bind_Ret.
  pose proof Hm1 as [M1 K1 P1]. destruct (Z.eqb_spec r1 1) as [R1|R1]; cbn [negb].
  2:{ exists s1. eapply (ends_step _ _ n1); [exact Hm1|]. rewrite <- M1, <- K1. apply (ends_fail (set_crypto_native w n1)). tauto. }
  rewrite (S1 R1) in M1. destruct (law_verify n1 c public signature input) as (r2 & s2 & n2 & E & Hm2 & T & F & A2); [by rewrite M1, lookup_insert_eq|].
  cbn [set_crypto_native cw_native]. rewrite E, outcome_bind_Ret. rewrite M1, insert_insert_eq, K1 in Hm2. exists s2.
  assert (Hm : moves (cw_native w) n2 (<[c := s2]> (contexts (cw_native w))) (keys (cw_native w))) by (by eapply moves_trans).
  eapply (ends_step _ _ n2); [exact Hm|]. rewrite <- (mv_contexts _ _ _ _ Hm), <- (mv_keys _ _ _ _ Hm).
  destruct (Z.eqb_spec r2 1) as [R2|R2]; [apply (ends_ok (set_crypto_native w n2)); by rewrite T|]. destruct (Z.eqb_spec r2 0) as [R0|R0].
  - pose proof (law_clear_error n2) as Hc2. eapply (ends_step _ _ (ERR_clear_error lib n2)); [exact Hc2|].
    cbn [set_crypto_native cw_native]. rewrite <- (mv_contexts _ _ _ _ Hc2), <- (mv_keys _ _ _ _ Hc2). apply (ends_ok (set_crypto_native w (ERR_clear_error lib n2))). by rewrite F.
  - apply (ends_fail (set_crypto_native w n2)). intros Ha. destruct A2; [auto|done|done].
Qed.

Lemma verify_run public input signature sink w (able : Prop) : (able -> healthy (cw_native w)) -> length (fc_bytes public) = 32%nat ->
  ends (ed25519_verify_with_log lib id public input signature sink w) w (contexts (cw_native w)) (keys (cw_native w)) able
    (fun b => b = verify_of (fc_bytes public) input (fc_bytes signature)).
Proof.
  intros Hable Hl. unfold ed25519_verify_with_log. pose proof (law_clear_error (cw_native w)) as Hm. pose proof Hm as [M K P]. cbn [clear_errors set_crypto_native cw_native].
  destruct (law_public_key (ERR_clear_error lib (cw_native w)) (fc_bytes public) Hl) as (k & n & -> & Hk). rewrite outcome_bind_Ret. set (w1 := set_crypto_native w n).
  destruct k as [k|]; destruct Hk as [Hk1 Hk2].
  - rewrite K in Hk1. rewrite M, K in Hk2. assert (Hw : moves (cw_native w) (cw_native w1) (contexts (cw_native w)) (<[k := key_public (fc_bytes public)]> (keys (cw_native w)))) by (by eapply moves_trans).
    apply (ends_key _ w w1 k (key_public (fc_bytes public))); [done|exact Hw|exists []; by rewrite app_nil_r|].
    apply (ends_context w1 op_ed25519_verify sink (fun c => verify_in lib id c k input (fc_bytes signature) sink)); [intros Ha; apply (mv_healthy _ _ _ _ Hk2); auto|].
    intros c w2 H1 Hc Hkeys. apply verify_in_run; [done|by rewrite Hc|]. rewrite Hkeys, (mv_keys _ _ _ _ Hw). by rewrite lookup_insert_eq.
  - rewrite M, K in Hk1. assert (Hw : moves (cw_native w) (cw_native w1) (contexts (cw_native w)) (keys (cw_native w))) by (by eapply moves_trans).
    eapply ends_step; [exact Hw|]. rewrite <- (mv_contexts _ _ _ _ Hw), <- (mv_keys _ _ _ _ Hw). apply (ends_fail w1). auto.
Qed.

Lemma spki_run der sink w (able : Prop) : (able -> healthy (cw_native w) /\ spki_of der = true) -> der <> [] -> Z.of_nat (length der) <= int_max int64_t ->
  ends (spki_sha256_with_log lib id der sink w) w (contexts (cw_native w)) (keys (cw_native w)) able (fun d => spki_of der = true /\ fc_bytes d = sha256_of der).
Proof.
  intros Hable Hd Hl. unfold spki_sha256_with_log. rewrite bool_decide_eq_false_2 by done. rewrite (proj2 (Z.ltb_ge _ _)) by done. cbn [orb].
  rewrite cast_in_range by (done || (split; [unfold int_min; cbn; lia|done])). pose proof (law_clear_error (cw_native w)) as Hm. pose proof Hm as [M K P]. cbn [clear_errors set_crypto_native cw_native].
  destruct (law_decode (ERR_clear_error lib (cw_native w)) der Hd Hl) as (k & consumed & n & -> & Hk). rewrite outcome_bind_Ret. set (w1 := set_crypto_native w n).
  destruct k as [k|].
  - destruct Hk as (Hk1 & Hk2 & Hiff). rewrite K in Hk1. rewrite M, K in Hk2.
    assert (Hw : moves (cw_native w) (cw_native w1) (contexts (cw_native w)) (<[k := key_decoded]> (keys (cw_native w)))) by (by eapply moves_trans).
    eapply (ends_key _ w w1 k); [done|exact Hw|exists []; by rewrite app_nil_r|].
    destruct (Z.eqb_spec consumed (Z.of_nat (length der))) as [Hc|Hc]; cbn [negb].
    + destruct (sha256_run der sink w1 able) as (r & w2 & E & Hm2 & Hs2 & Hr); [intros Ha; apply (mv_healthy _ _ _ _ Hk2), P; tauto|].
      exists r, w2. split; [exact E|]. split; [exact Hm2|]. split; [exact Hs2|]. destruct r; [|done]. split; [by apply Hiff|done].
    + apply ends_fail. intros Ha. apply Hc, Hiff. tauto.
  - destruct Hk as [Hk1 Hk2]. rewrite M, K in Hk1. assert (Hw : moves (cw_native w) (cw_native w1) (contexts (cw_native w)) (keys (cw_native w))) by (by eapply moves_trans).
    eapply ends_step; [exact Hw|]. rewrite <- (mv_contexts _ _ _ _ Hw), <- (mv_keys _ _ _ _ Hw). apply (ends_fail w1). intros Ha. apply Hk2. split; [apply P|]; tauto.
Qed.

(** C31: every operation of the cryptographic provider returns, with or without a log, over any
    library that keeps its contract: it leaves exactly the contexts and keys that existed
    before, and every copy of a private seed it made has been overwritten with zeros.  Its
    result is what the library computes of exactly the bytes given (the SHA-256 digest, the
    HMAC, the signature, the verdict on a signature, the digest of one whole encoded public
    key), or an error of the library, which is reported only when the library is short of
    something or the encoding is not that of one key.  Arguments of a wrong length are refused
    before any call.  Two digests of one size compare as equal exactly when they are. *)
Theorem crypto_operations_exact (w : World) sink : let same {A} (m : outcome (Result A * World)) := ends m w (contexts (cw_native w)) (keys (cw_native w)) in
  (forall input, same (sha256_with_log lib id input sink w) (healthy (cw_native w)) (fun d => fc_bytes d = sha256_of input)) /\
  (forall key input, if bool_decide (Z.of_nat (length key) <= int_max int32_t)
     then same (hmac_sha256_with_log lib id key input sink w) (healthy (cw_native w)) (fun d => fc_bytes d = hmac_of key input)
     else hmac_sha256_with_log lib id key input sink w = Ret (Err hmac_key_error, w)) /\
  (forall seed input, if bool_decide (length seed = 32%nat)
     then same (ed25519_sign_with_log lib id seed input sink w) (healthy (cw_native w)) (fun s => fc_bytes s = sign_of seed input)
     else ed25519_sign_with_log lib id seed input sink w = Ret (Err ed25519_seed_error, w)) /\
  (forall public input signature, length (fc_bytes public) = 32%nat ->
     same (ed25519_verify_with_log lib id public input signature sink w) (healthy (cw_native w)) (fun b => b = verify_of (fc_bytes public) input (fc_bytes signature))) /\
  (forall der, if bool_decide (der <> [] /\ Z.of_nat (length der) <= int_max int64_t)
     then same (spki_sha256_with_log lib id der sink w) (healthy (cw_native w) /\ spki_of der = true) (fun d => spki_of der = true /\ fc_bytes d = sha256_of der)
     else spki_sha256_with_log lib id der sink w = Ret (Err spki_length_error, w)) /\
  (forall left right, length (fc_bytes left) = length (fc_bytes right) ->
     provider_constant_time_equal lib left right = bool_decide (fc_bytes left = fc_bytes right)).
Proof.
  intros same. unfold same. split; [intros input; by apply sha256_run|]. split; [|split; [|split; [|split]]].
  - intros key input. case_bool_decide as Hk; [by apply hmac_run|]. unfold hmac_sha256_with_log. by rewrite (proj2 (Z.ltb_lt _ _)) by lia.
  - intros seed input. case_bool_decide as Hl; [by apply sign_run|]. unfold ed25519_sign_with_log. rewrite (proj2 (Z.eqb_neq _ _)); [done|]. intros H%Nat2Z.inj. done.
  - intros public input signature Hl. by apply verify_run.
  - intros der. case_bool_decide as Hd; [apply spki_run; tauto|]. unfold spki_sha256_with_log. destruct (_ || _) eqn:B; [done|].
    exfalso. apply Hd. apply orb_false_iff in B as [B1 B2]. by rewrite bool_decide_eq_false in B1; apply Z.ltb_ge in B2.
  - intros left right Hl. unfold provider_constant_time_equal. pose proof (law_memcmp _ _ Hl) as Hm. case_bool_decide as Hd.
    + apply Z.eqb_eq. by apply Hm.
    + apply Z.eqb_neq. by intros ?%Hm.
Qed.
End operations.

(** ** A small library *)
Module DemoSsl.
Definition Objects : Type := gmap nat ContextState * gmap nat KeyData.
Definition checksum (size : nat) (l : list Z) : list Z := replicate size (foldl Z.add 0 l mod 256).
#[global] Instance view : OpenSslView Objects := {|
  contexts := fst; keys := snd; healthy := fun _ => True; sha256_of := checksum 32; hmac_of := fun key input => checksum 32 (key ++ input);
  sign_of := fun seed input => checksum 64 (seed ++ input); verify_of := fun public input signature => bool_decide (signature = checksum 64 (public ++ input));
  spki_of := fun der => bool_decide (head der = Some 48) |}.

Definition on_context (c : nat) (n : Objects) {A} (f : ContextState -> outcome (A * ContextState)) : outcome (A * Objects) :=
  match n.1 !! c with None => Stop Undefined | Some s => '(a, s) ← f s; Ret (a, (<[c := s]> n.1, n.2)) end.
Definition add_key (data : KeyData) (n : Objects) : option nat * Objects := let k := fresh (dom n.2) in (Some k, (n.1, <[k := data]> n.2)).

Definition native : OpenSsl Objects := {|
  ERR_get_error := fun n => (0, n); ERR_clear_error := fun n => n; OPENSSL_cleanse := fun l => replicate (length l) 0;
  CRYPTO_memcmp := fun a b => if bool_decide (a = b) then 0 else 1;
  EVP_MD_CTX_new := fun n => let c := fresh (dom n.1) in (Some c, (<[c := ctx_idle]> n.1, n.2));
  EVP_MD_CTX_free := fun c n => Ret (delete c n.1, n.2);
  EVP_PKEY_new_raw_private_key := fun seed n => Ret (add_key (key_private seed) n);
  EVP_PKEY_new_raw_public_key := fun bytes n => Ret (add_key (key_public bytes) n);
  EVP_PKEY_free := fun k n => Ret (n.1, delete k n.2);
  EVP_MD := unit; EVP_sha256 := tt;
  EVP_DigestInit_ex := fun c _ n => on_context c n (fun _ => Ret (1, ctx_hash []));
  EVP_DigestUpdate := fun c input n => on_context c n (fun s => match s with ctx_hash l => Ret (1, ctx_hash (l ++ input)) | _ => Stop Undefined end);
  EVP_DigestFinal_ex := fun c _ n => '(r, n) ← on_context c n (fun s => match s with ctx_hash l => Ret (checksum 32 l, ctx_idle) | _ => Stop Undefined end); Ret (1, r, 32, n);
  HMAC := fun _ key _ input _ n => Ret (true, checksum 32 (key ++ input), 32, n);
  EVP_DigestSignInit := fun c k n => on_context c n (fun _ => match n.2 !! k with Some (key_private seed) => Ret (1, ctx_sign seed) | _ => Stop Undefined end);
  EVP_DigestSign := fun c _ _ input n =>
    '(r, n) ← on_context c n (fun s => match s with ctx_sign seed => Ret (checksum 64 (seed ++ input), ctx_idle) | _ => Stop Undefined end); Ret (1, r, 64, n);
  EVP_DigestVerifyInit := fun c k n => on_context c n (fun _ => match n.2 !! k with Some (key_public public) => Ret (1, ctx_verify public) | _ => Stop Undefined end);
  EVP_DigestVerify := fun c signature input n => on_context c n (fun s => match s with
    | ctx_verify public => Ret (if bool_decide (signature = checksum 64 (public ++ input)) then 1 else 0, ctx_idle)
    | _ => Stop Undefined
    end);
  d2i_PUBKEY := fun der size n => let '(k, n) := add_key key_decoded n in Ret (k, if bool_decide (head der = Some 48) then size else 0, n) |}.

Lemma fresh_key (m : gmap nat KeyData) : m !! fresh (dom m) = None.
Proof. apply not_elem_of_dom, is_fresh. Qed.

Lemma fresh_context (m : gmap nat ContextState) : m !! fresh (dom m) = None.
Proof. apply not_elem_of_dom, is_fresh. Qed.

#[global] Instance native_lawful : OpenSslLaws view native.
Proof.
  split; try (intros; by split).
  - intros a b _. cbn. by case_bool_decide.
  - intros n. cbn. split; [apply fresh_context|by split].
  - intros n c _. eexists. by split; [|split].
  - intros n seed _. eexists _, _. split; [reflexivity|]. split; [apply fresh_key|by split].
  - intros n bytes _. eexists _, _. split; [reflexivity|]. split; [apply fresh_key|by split].
  - intros n k _. eexists. by split; [|split].
  - intros n c [s Hs]. cbn in *. unfold on_context. rewrite Hs. cbn. eexists _, _, _. by split; [|split; [split|]].
  - intros n c l input Hs. cbn in *. unfold on_context. rewrite Hs. cbn. eexists _, _, _. by split; [|split; [split|]].
  - intros n c l room Hs _. cbn in *. unfold on_context. rewrite Hs. cbn. eexists _, _, _, _, _. by split; [|split; [split|]].
  - intros n key input room _ _. cbn. eexists _, _, _, _. by split; [|split; [split|]].
  - intros n c k seed [s Hs] Hk. cbn in *. unfold on_context. rewrite Hs. cbn. rewrite Hk. cbn. eexists _, _, _. by split; [|split; [split|]].
  - intros n c seed room input Hs _. cbn in *. unfold on_context. rewrite Hs. cbn. eexists _, _, _, _, _. by split; [|split; [split|]].
  - intros n c k public [s Hs] Hk. cbn in *. unfold on_context. rewrite Hs. cbn. rewrite Hk. cbn. eexists _, _, _. by split; [|split; [split|]].
  - intros n c public signature input Hs. cbn in *. unfold on_context. rewrite Hs. cbn. eexists _, _, _. split; [done|]. split; [by split|].
    case_bool_decide; split; try done; split; auto; done.
  - intros n der Hd _. cbn. eexists _, _, _. split; [reflexivity|]. split; [apply fresh_key|]. split; [by split|]. case_bool_decide; split; try done.
    intros E. destruct der; [done|]. cbn in E. lia.
Defined.

Definition world : CryptoWorld Objects unit := MkCryptoWorld (∅, ∅) () [].
Definition key : Ed25519PublicKey := MkFixedCryptoBytes (replicate 32 7).
End DemoSsl.

Lemma crypto_operations_exact_witness :
  exists w', sha256_with_log DemoSsl.native id_openssl [1; 2] None DemoSsl.world = Ret (Ok (MkFixedCryptoBytes (replicate 32 3)), w') /\
    contexts (cw_native w') = contexts (cw_native DemoSsl.world) /\
    exists w'', ed25519_verify_with_log DemoSsl.native id_openssl DemoSsl.key [1] DemoSsl.key None DemoSsl.world = Ret (Ok false, w'').
Proof.
  destruct (crypto_operations_exact (lib := DemoSsl.native) id_openssl DemoSsl.world None) as (H1 & _ & _ & H4 & _).
  destruct (H1 [1; 2]) as (r & w' & E & [Hm _ _] & _ & Hr). exists w'. split; [|split; [exact Hm|]].
  - rewrite E. destruct r as [[d]|e]; [|exfalso; apply Hr; exact I]. cbn in Hr. rewrite Hr. reflexivity.
  - destruct (H4 DemoSsl.key [1] DemoSsl.key) as (r2 & w2 & E2 & _ & _ & Hr2); [reflexivity|]. exists w2. rewrite E2. destruct r2 as [b|e]; [|exfalso; apply Hr2; exact I]. rewrite Hr2. reflexivity.
Defined.
