(* ===== verification/Entropy.v ===== *)
(** * Entropy from the operating system

    Models [src/adapters/private/laghu/adapters/internal/entropy.hpp] and
    [src/adapters/entropy.cpp]: the request is split into chunks the system call accepts.  The
    call acts on the memory and on the state [W] of the system; it returns its status and
    [errno]. *)
From S2P Require Import Prelude Contract CheckedArithmetic Views.
From Stdlib Require Import ZArith Lia String.
From stdpp Require Import base numbers list option gmap.

Set Default Goal Selector "!".
#[local] Open Scope Z_scope.

Definition entropy_call_limit : Z := 256.
Definition entropy_request_limit : Z := 4096.
Definition entropy_call_error := core_error invalid_input "entropy call is required".
Definition entropy_limit_error := core_error invalid_range "entropy request exceeds bounded limit".

Section entropy.
Context {W : Type}.
Definition EntropyCall : Type := MutableByteView -> Memory -> W -> outcome (Z * Z * Memory * W).

(** Every round but the last fills 256 of at most 4096 bytes. *)
Definition entropy_fuel : nat := 17.

Fixpoint entropy_loop (fuel : nat) (offset : Z) (output : MutableByteView) (call : EntropyCall) (mem : Memory) (w : W) : outcome (Result unit * Memory * W) :=
  match fuel with
  | O => Stop OutOfFuel
  | S fuel =>
      if span_size output <=? offset then Ret (Ok tt, mem, w) else
      let request := Z.min entropy_call_limit (u64 (span_size output - offset)) in
      match MutableByteView_slice output offset request with
      | Err e => Ret (Err e, mem, w)
      | Ok chunk =>
          '(status, errno, mem, w) ← call chunk mem w;
          if negb (status =? 0) then Ret (Err (from_errno errno "getentropy failed"), mem, w)
          else entropy_loop fuel (u64 (offset + request)) output call mem w
      end
  end.

Definition fill_entropy_with (output : MutableByteView) (call : option EntropyCall) (mem : Memory) (w : W) : outcome (Result unit * Memory * W) :=
  match call with
  | None => Ret (Err entropy_call_error, mem, w)
  | Some call =>
      if entropy_request_limit <? span_size output then Ret (Err entropy_limit_error, mem, w)
      else entropy_loop entropy_fuel 0 output call mem w
  end.

Context (getentropy : option pointer -> Z -> Memory -> W -> outcome (Z * Z * Memory * W)).
Definition os_getentropy : EntropyCall := fun output => getentropy (span_data output) (span_size output).
Definition fill_entropy (output : MutableByteView) (mem : Memory) (w : W) : outcome (Result unit * Memory * W) :=
  fill_entropy_with output (Some os_getentropy) mem w.
End entropy.

(** ** The system call *)

(** The contents of a block with some bytes replaced. *)
Definition replaced (l : list Z) (offset : nat) (bytes : list Z) : list Z := take offset l ++ bytes ++ drop (offset + length bytes) l.

(** [entropy_given] are the bytes the system has delivered so far.  A call for at most 256
    bytes writes to them only, and delivers what it wrote unless it fails. *)
Class EntropyLaws {W : Type} (getentropy : option pointer -> Z -> Memory -> W -> outcome (Z * Z * Memory * W)) := {
  entropy_given : W -> list Z;
  law_getentropy p n mem w l : mem !! ptr_block p = Some l -> 0 <= ptr_offset p -> 0 < n <= 256 -> ptr_offset p + n <= Z.of_nat (length l) ->
    exists status errno bytes w', getentropy (Some p) n mem w = Ret (status, errno, <[ptr_block p := replaced l (Z.to_nat (ptr_offset p)) bytes]> mem, w') /\
      length bytes = Z.to_nat n /\ entropy_given w' = entropy_given w ++ (if status =? 0 then bytes else []) }.

Section fill.
Context {W : Type} {getentropy : option pointer -> Z -> Memory -> W -> outcome (Z * Z * Memory * W)} {laws : EntropyLaws getentropy}.

Lemma replaced_length l offset bytes : (offset + length bytes <= length l)%nat -> length (replaced l offset bytes) = length l.
Proof. intros H. unfold replaced. rewrite !length_app, length_take, length_drop. lia. Qed.

Lemma replaced_app l offset a b : (offset + length (a ++ b) <= length l)%nat -> replaced (replaced l offset a) (offset + length a) b = replaced l offset (a ++ b).
Proof.
  rewrite length_app. intros H. assert (Ha : length (take offset l ++ a) = (offset + length a)%nat) by (rewrite length_app, length_take; lia).
  assert (E1 : take (offset + length a) (replaced l offset a) = take offset l ++ a).
  { unfold replaced. rewrite app_assoc, <- Ha. apply take_app_length. }
  assert (E2 : drop (offset + length a + length b) (replaced l offset a) = drop (offset + length (a ++ b)) l).
  { unfold replaced. rewrite app_assoc, <- Ha, <- drop_drop, drop_app_length, drop_drop, Ha, length_app. f_equal. lia. }
  unfold replaced at 1. rewrite E1, E2. unfold replaced. by rewrite <- !app_assoc.
Qed.

(** The request stopped at the call for the bytes from [offset] on: it answered a status other
    than 0 with [errno], and left the memory and the system as they are found.  The calls before
    it delivered the [offset] bytes in front. *)
Definition failed_at (p : pointer) (size : Z) (mem0 : Memory) (w0 : W) (l filled : list Z) (mem : Memory) (w : W) (offset errno : Z) : Prop :=
  0 <= offset < size /\ exists before status,
    getentropy (Some (ptr_add p offset)) (Z.min 256 (size - offset))
      (<[ptr_block p := replaced l (Z.to_nat (ptr_offset p)) (take (Z.to_nat offset) filled)]> mem0) before = Ret (status, errno, mem, w) /\
    status <> 0 /\ entropy_given before = entropy_given w0 ++ take (Z.to_nat offset) filled.

(** From any offset: the bytes filled so far, then those still to come. *)
Lemma entropy_loop_run w0 fuel : forall offset output p mem w l got, span_data output = Some p -> mem !! ptr_block p = Some l ->
  0 <= ptr_offset p -> ptr_offset p + span_size output <= Z.of_nat (length l) -> span_size output <= 4096 ->
  offset = Z.of_nat (length got) -> offset <= span_size output -> entropy_given w = entropy_given w0 ++ got -> span_size output - offset <= 256 * (Z.of_nat fuel - 1) ->
  exists r more w', entropy_loop fuel offset output (os_getentropy getentropy) (<[ptr_block p := replaced l (Z.to_nat (ptr_offset p)) got]> mem) w =
      Ret (r, <[ptr_block p := replaced l (Z.to_nat (ptr_offset p)) (got ++ more)]> mem, w') /\ offset + Z.of_nat (length more) <= span_size output /\
    match r with
    | Ok _ => offset + Z.of_nat (length more) = span_size output /\ entropy_given w' = entropy_given w0 ++ got ++ more
    | Err e => exists at_ errno, e = from_errno errno "getentropy failed" /\
        failed_at p (span_size output) mem w0 l (got ++ more) (<[ptr_block p := replaced l (Z.to_nat (ptr_offset p)) (got ++ more)]> mem) w' at_ errno
    end.
Proof.
  induction fuel as [|fuel IH]; intros offset output p mem w l got Hp Hl Ho Hfit Hsmall Hoff Hle Hgot Hfuel; [lia|]. cbn [entropy_loop].
  destruct (Z.leb_spec (span_size output) offset) as [Hend|Hend].
  { exists (Ok tt), [], w. rewrite !app_nil_r. cbn [length]. split; [done|]. split; [lia|]. split; [lia|done]. }
  rewrite u64_small by (unfold u64_max; lia). set (request := Z.min entropy_call_limit (span_size output - offset)).
  assert (Hreq : 0 < request <= 256 /\ offset + request <= span_size output) by (unfold request, entropy_call_limit; lia).
  unfold MutableByteView_slice. rewrite checked_range_size_ok by (unfold size_max, u64_max; lia). cbn [mbind Result_bind].
  unfold subspan. rewrite Hp. cbn [fmap option_fmap option_map span_data span_size].
  set (mem1 := <[ptr_block p := replaced l (Z.to_nat (ptr_offset p)) got]> mem).
  destruct (law_getentropy (ptr_add p offset) request mem1 w (replaced l (Z.to_nat (ptr_offset p)) got)) as (status & errno & bytes & w1 & E & Hlen & Hgiven);
    [unfold mem1; cbn; by rewrite lookup_insert_eq|cbn; lia|lia|rewrite replaced_length by lia; cbn; lia|].
  pose proof E as Ecall. unfold mem1 in Ecall. cbn [ptr_add ptr_block ptr_offset] in Ecall. rewrite insert_insert_eq in Ecall.
  replace (Z.to_nat (ptr_offset p + offset)) with (Z.to_nat (ptr_offset p) + length got)%nat in Ecall by lia. rewrite replaced_app in Ecall by (rewrite length_app; lia).
  change (getentropy (Some (ptr_add p offset)) request mem1 w) with (os_getentropy getentropy (MkSpan (Some (ptr_add p offset)) request) mem1 w) in E.
  rewrite E, outcome_bind_Ret. clear E. cbn [ptr_add ptr_block ptr_offset]. unfold mem1. rewrite insert_insert_eq.
  replace (Z.to_nat (ptr_offset p + offset)) with (Z.to_nat (ptr_offset p) + length got)%nat by lia. rewrite replaced_app by (rewrite length_app; lia).
  destruct (Z.eqb_spec status 0) as [Hs|Hs]; cbn [negb].
  - rewrite u64_small by (unfold u64_max; lia).
    destruct (IH (offset + request) output p mem w1 l (got ++ bytes) Hp Hl Ho Hfit Hsmall) as (r & more & w' & E & Hmore & Hr); [rewrite length_app; lia|lia|by rewrite Hgiven, Hgot, <- app_assoc|unfold request, entropy_call_limit in *; lia|].
    exists r, (bytes ++ more), w'. rewrite E, <- app_assoc. split; [done|]. rewrite length_app. split; [lia|]. rewrite <- app_assoc in Hr. destruct r; [|done]. split; [lia|apply Hr].
  - exists (Err (from_errno errno "getentropy failed")), bytes, w1. split; [done|]. split; [lia|]. exists offset, errno. split; [done|].
    split; [lia|]. assert (Et : take (Z.to_nat offset) (got ++ bytes) = got) by (rewrite Hoff, Nat2Z.id; apply take_app_length).
    rewrite Et. exists w, status. split; [exact Ecall|]. by split.
Qed.

(** C32: a request for entropy returns.  More than 4096 bytes are refused without a call.
    Otherwise no byte outside of the output changes, and when the request succeeds the output is
    filled completely, with exactly the bytes the system delivered, in their order, although no
    call asks for more than 256.  When it fails, it is because a call for the next at most 256
    bytes answered a status other than 0: the error carries the [errno] of that call, the calls
    before it delivered all bytes in front, and nothing is called after it. *)
Theorem entropy_filled_exact (output : MutableByteView) (p : pointer) (mem : Memory) (w : W) (l : list Z) :
  span_data output = Some p -> mem !! ptr_block p = Some l -> 0 <= ptr_offset p -> 0 <= span_size output -> ptr_offset p + span_size output <= Z.of_nat (length l) ->
  if bool_decide (span_size output <= 4096) then
    exists r more w', let mem' := <[ptr_block p := replaced l (Z.to_nat (ptr_offset p)) more]> mem in
      fill_entropy getentropy output mem w = Ret (r, mem', w') /\ Z.of_nat (length more) <= span_size output /\
      match r with
      | Ok _ => Z.of_nat (length more) = span_size output /\ entropy_given w' = entropy_given w ++ more
      | Err e => exists offset errno, e = from_errno errno "getentropy failed" /\
          failed_at p (span_size output) mem w l more mem' w' offset errno
      end
  else fill_entropy getentropy output mem w = Ret (Err entropy_limit_error, mem, w).
Proof.
  intros Hp Hl Ho Hpos Hfit. unfold fill_entropy, fill_entropy_with, entropy_request_limit. case_bool_decide as Hsize; [|by rewrite (proj2 (Z.ltb_lt _ _)) by lia].
  rewrite (proj2 (Z.ltb_ge _ _)) by lia.
  destruct (entropy_loop_run w entropy_fuel 0 output p mem w l [] Hp Hl Ho Hfit Hsize eq_refl Hpos) as (r & more & w' & E & H1 & H2);
    [by rewrite app_nil_r|unfold entropy_fuel; lia|].
  exists r, more, w'. cbn zeta. assert (Hid : replaced l (Z.to_nat (ptr_offset p)) [] = l) by (unfold replaced; cbn [app length]; rewrite Nat.add_0_r; apply take_drop).
  rewrite Hid, insert_id in E by done. split; [exact E|]. by split.
Qed.
End fill.

(** ** A system that counts *)
Module DemoEntropy.
Definition getentropy (p : option pointer) (n : Z) (mem : Memory) (w : list Z) : outcome (Z * Z * Memory * list Z) :=
  match p with
  | None => Stop Undefined
  | Some p =>
      match mem !! ptr_block p with
      | None => Stop Undefined
      | Some l =>
          let bytes := map (fun i => (Z.of_nat (length w) + i) mod 256) (seqZ 0 n) in
          Ret (0, 0, <[ptr_block p := replaced l (Z.to_nat (ptr_offset p)) bytes]> mem, w ++ bytes)
      end
  end.

#[global] Instance getentropy_lawful : EntropyLaws getentropy.
Proof.
  refine {| entropy_given := fun w => w |}. intros p n mem w l Hl Ho Hn Hfit. unfold getentropy. rewrite Hl. eexists _, _, _, _. split; [reflexivity|].
  split; [|done]. by rewrite length_map, length_seqZ.
Defined.
End DemoEntropy.

Lemma entropy_filled_exact_witness :
  exists more w', fill_entropy DemoEntropy.getentropy (MkSpan (Some (MkPointer 1 2)) 300) {[1%nat := replicate 310 9]} [] =
      Ret (Ok tt, <[1%nat := replaced (replicate 310 9) 2 more]> {[1%nat := replicate 310 9]}, w') /\ length more = 300%nat.
Proof.
  pose proof (entropy_filled_exact (MkSpan (Some (MkPointer 1 2)) 300) (MkPointer 1 2) {[1%nat := replicate 310 9]} [] (replicate 310 9) eq_refl) as H.
  rewrite bool_decide_eq_true_2 in H by (cbn; lia).
  destruct H as (r & more & w' & E & _ & Hr); [by rewrite lookup_singleton_eq|cbn; lia|cbn; lia|rewrite length_replicate; cbn; lia|].
  assert (Hok : r = Ok tt).
  { vm_compute in E. injection E as <- _ _. reflexivity. }
  subst r. exists more, w'. split; [exact E|]. cbn in Hr. lia.
Defined.
