(* ===== verification/Conversations.v ===== *)
(** * Calls of libraries that call back

    nghttp2 and nghttp3 call the program back while one of their functions runs: for memory,
    through the allocation functions they were given, and to report what they read, through
    callbacks whose result decides how they go on.  A call is a tree of such requests with the
    answer of the library at its leaves ([conversation]), run against the program by
    [converse].

    The library is constrained on its side ([behaves]): it asks for memory as a client of a
    heap may, with blocks of its own, for a bounded time, and has its answer at the end,
    whatever the program replies.  The program's side are two functions: one that serves
    requests for memory as a heap would and one for the callbacks.  [converse_run] puts the
    two together; neither side sees how the other is made. *)
From S2P Require Import Prelude Contract CheckedArithmetic MemoryBudget MemoryBudgetSpec BudgetInvariant Views BlockSource BoundedArena ArenaSpec.
From S2P Require Import NativeMemory NativeSpec CodecPool.
From Stdlib Require Import ZArith Lia.
From stdpp Require Import base numbers list gmap option fin_map_dom.

Set Default Goal Selector "!".
#[local] Open Scope Z_scope.

(** [user] is the pointer the library was given to hand back; [Fault] is a call the library
    leaves undefined. *)
Inductive conversation (K R A : Type) : Type :=
  | Answer (a : A)
  | Fault
  | Request (user : pointer) (op : PoolOp) (k : option pointer -> conversation K R A)
  | Callback (user : pointer) (event : K) (k : R -> conversation K R A).
Arguments Answer {K R A}.
Arguments Fault {K R A}.
Arguments Request {K R A}.
Arguments Callback {K R A}.

Section run.
Context {K R W : Type}.
Context (request : pointer -> PoolOp -> W -> outcome (option pointer * W)) (callback : pointer -> K -> W -> outcome (R * W)).

Fixpoint converse {A} (c : conversation K R A) (w : W) : outcome (A * W) :=
  match c with
  | Answer a => Ret (a, w)
  | Fault => Stop Undefined
  | Request user op k => '(r, w) ← request user op w; converse (k r) w
  | Callback user event k => '(r, w) ← callback user event w; converse (k r) w
  end.
End run.

(** ** The library's side *)

(** The sizes of the blocks a library owns. *)
Abbreviation Owned := (gmap pointer Z).

Definition requested (op : PoolOp) : option Z :=
  match op with
  | PMalloc size | PRealloc None size => Some (Z.max 1 size)
  | PCalloc count size => Some (Z.max 1 (count * size))
  | _ => None
  end.

Definition owned_legal (own : Owned) (op : PoolOp) : Prop :=
  match op with
  | PMalloc size | PRealloc None size => is_size size
  | PCalloc count size => is_size count /\ is_size size
  | PRealloc (Some p) size => is_size size /\ is_Some (own !! p)
  | PFree None => True
  | PFree (Some p) => is_Some (own !! p)
  | PWrite p offset bytes => exists n, own !! p = Some n /\ 0 <= offset /\ offset + Z.of_nat (length bytes) <= n
  | PReset _ => False
  end.

(** How a reply changes what the library owns. *)
Inductive owned_step (own : Owned) : PoolOp -> option pointer -> Owned -> Prop :=
  | OSRefused op : may_refuse op -> owned_step own op None own
  | OSNew op n p : requested op = Some n -> own !! p = None -> owned_step own op (Some p) (<[p := n]> own)
  | OSReallocZero p : owned_step own (PRealloc (Some p) 0) None (delete p own)
  | OSRealloc p size q : 1 <= size -> (q = p \/ own !! q = None) ->
      owned_step own (PRealloc (Some p) size) (Some q) (<[q := size]> (delete p own))
  | OSFree p : owned_step own (PFree (Some p)) None (delete p own)
  | OSWrite p offset bytes : owned_step own (PWrite p offset bytes) None own.

(** [valid] are the callbacks the library may make, [post] what its answer says. *)
Fixpoint behaves {K R A} (user : pointer) (valid : Owned -> K -> Prop) (post : A -> Owned -> Prop) (own : Owned)
    (c : conversation K R A) : Prop :=
  match c with
  | Answer a => post a own
  | Fault => False
  | Request u op k => u = user /\ owned_legal own op /\ forall r own', owned_step own op r own' -> behaves user valid post own' (k r)
  | Callback u event k => u = user /\ valid own event /\ forall r, behaves user valid post own (k r)
  end.

Lemma behaves_weaken {K R A} user valid (post post' : A -> Owned -> Prop) (c : conversation K R A) : forall own,
  (forall a own', post a own' -> post' a own') -> behaves user valid post own c -> behaves user valid post' own c.
Proof.
  induction c as [a| |u op k IH|u event k IH]; intros own Hp; cbn [behaves]; [by apply Hp|done| |].
  - intros (-> & Hl & Hk). split; [done|]. split; [done|]. intros r own' Hs. apply IH; [done|by apply Hk].
  - intros (-> & Hv & Hk). split; [done|]. split; [done|]. intros r. apply IH; [done|apply Hk].
Qed.

(** The callbacks made and the replies to them, in order, and the answer. *)
Inductive exchanges {K R A} : conversation K R A -> list (K * R) -> A -> Prop :=
  | ex_answer a : exchanges (Answer a) [] a
  | ex_request user op k r trace a : exchanges (k r) trace a -> exchanges (Request user op k) trace a
  | ex_callback user event k r trace a : exchanges (k r) trace a -> exchanges (Callback user event k) ((event, r) :: trace) a.

(** ** The heap's side *)

(** The library's blocks are in the heap with these sizes. *)
Definition sized (own : Owned) (live : gmap pointer (list Z)) : Prop :=
  forall p n, own !! p = Some n -> exists bytes, live !! p = Some bytes /\ Z.of_nat (length bytes) = n.

Lemma sized_dom own live : sized own live -> dom own ⊆ dom live.
Proof. intros H p [n Hp]%elem_of_dom. destruct (H p n Hp) as (bytes & Hb & _). apply elem_of_dom. by exists bytes. Qed.

Lemma sized_insert own live p n bytes : sized own live -> Z.of_nat (length bytes) = n -> sized (<[p := n]> own) (<[p := bytes]> live).
Proof.
  intros H Hn q m [[<- <-]|[Hne Hq]]%lookup_insert_Some.
  - exists bytes. by rewrite lookup_insert_eq.
  - rewrite lookup_insert_ne by done. by apply H.
Qed.

Lemma sized_delete own live p : sized own live -> sized (delete p own) (delete p live).
Proof. intros H q n [Hne Hq]%lookup_delete_Some. rewrite lookup_delete_ne by done. by apply H. Qed.

Lemma sized_outside own live live' : sized own live -> (forall p, p ∈ dom own -> live' !! p = live !! p) -> sized own live'.
Proof. intros H E p n Hp. rewrite E; [by apply H|]. apply elem_of_dom. by exists n. Qed.

Lemma sized_fresh own live p : sized own live -> live !! p = None -> own !! p = None.
Proof. intros H Hp. destruct (own !! p) as [n|] eqn:E; [|done]. destruct (H p n E) as (b & Hb & _). congruence. Qed.

Lemma owned_pool_legal own live op : sized own live -> owned_legal own op -> pool_legal live op /\ own_op (dom own) op /\ is_reset op = false.
Proof.
  intros Hs. destruct op as [| |[p|] size|[p|]|p offset bytes|]; cbn; try (intros; done).
  - intros [H1 [n Hn]]. destruct (Hs p n Hn) as (b & Hb & _). split; [|split; [apply elem_of_dom; by exists n|done]].
    split; [done|]. intros ? [= <-]. by exists b.
  - intros [n Hn]. destruct (Hs p n Hn) as (b & Hb & _). split; [|split; [apply elem_of_dom; by exists n|done]]. intros ? [= <-]. by exists b.
  - intros (n & Hn & Ho & Hfit). destruct (Hs p n Hn) as (b & Hb & Hlen). split; [|split; [apply elem_of_dom; by exists n|done]].
    exists b. split; [done|]. lia.
Qed.

Lemma heap_owned_step own live op r live' : sized own live -> owned_legal own op -> heap_step live op r live' ->
  exists own', owned_step own op r own' /\ sized own' live' /\ dom own' = own_after (dom own) op r.
Proof.
  intros Hs Hl. destruct 1 as [op Hr|size p bytes Hp Hn|count size p bytes Hp Hc Hn _|size p bytes Hp Hn|p|p old size q bytes Hp H1 Hq Hn _|p|p old offset bytes Hp|b].
  - exists own. split; [by constructor|]. split; [done|]. destruct op as [| |[p|] size|[p|]| |]; try done. cbn in *.
    by rewrite (proj2 (Z.eqb_neq _ _)).
  - exists (<[p := Z.max 1 size]> own). split; [constructor; [done|by eapply sized_fresh]|]. split; [by apply sized_insert|]. by rewrite dom_insert_L.
  - exists (<[p := Z.max 1 (count * size)]> own). split; [constructor; [done|by eapply sized_fresh]|]. split; [by apply sized_insert|]. by rewrite dom_insert_L.
  - exists (<[p := Z.max 1 size]> own). split; [constructor; [done|by eapply sized_fresh]|]. split; [by apply sized_insert|]. by rewrite dom_insert_L.
  - exists (delete p own). split; [constructor|]. split; [by apply sized_delete|]. by rewrite dom_delete_L.
  - exists (<[q := size]> (delete p own)). split.
    { constructor; [done|]. destruct Hq as [->|Hq]; [by left|]. right. by eapply sized_fresh. }
    split; [apply sized_insert; [by apply sized_delete|done]|]. by rewrite dom_insert_L, dom_delete_L.
  - exists (delete p own). split; [constructor|]. split; [by apply sized_delete|]. by rewrite dom_delete_L.
  - exists own. split; [apply OSWrite|]. split; [|done]. intros q n Hq. destruct (Hs q n Hq) as (b & Hb & Hn).
    destruct (decide (q = p)) as [->|Hne].
    + rewrite lookup_insert_eq. eexists. split; [done|]. rewrite length_inserts. congruence.
    + exists b. by rewrite lookup_insert_ne.
  - done.
Qed.

(** ** Both together *)
Section both.
Context {K R W P : Type}.
Context (request : pointer -> PoolOp -> W -> outcome (option pointer * W)) (callback : pointer -> K -> W -> outcome (R * W)).
Context (user : pointer) (valid : Owned -> K -> Prop).
(** What holds of the world and the heap throughout while the library owns some blocks, how the
    world may change, what the callbacks act on, and how. *)
Context (inv : Owned -> W -> gmap pointer (list Z) -> Prop) (step : W -> W -> Prop) `{!PreOrder step}.
Context (part : W -> P) (effect : K -> P -> R -> P -> Prop).

Class Serves : Prop := {
  serve_sized own w live : inv own w live -> sized own live;
  serve_request own w live op : inv own w live -> owned_legal own op ->
    exists r w' live' own', request user op w = Ret (r, w') /\ heap_step live op r live' /\ owned_step own op r own' /\
      dom own' = own_after (dom own) op r /\ inv own' w' live' /\ step w w' /\ part w' = part w;
  serve_callback own w live event : inv own w live -> valid own event ->
    exists r w' live', callback user event w = Ret (r, w') /\ inv own w' live' /\ step w w' /\ effect event (part w) r (part w') /\
      framed (dom own) live (dom own) live' }.

(** The effects of a list of callbacks. *)
Inductive replies : P -> list (K * R) -> P -> Prop :=
  | rp_none p : replies p [] p
  | rp_next p event r p1 trace p2 : effect event p r p1 -> replies p1 trace p2 -> replies p ((event, r) :: trace) p2.

Lemma converse_run {A} `{!Serves} (post : A -> Owned -> Prop) (c : conversation K R A) : forall own w live,
  behaves user valid post own c -> inv own w live ->
  exists a w' live' own' trace, converse request callback c w = Ret (a, w') /\ post a own' /\ inv own' w' live' /\ step w w' /\
    framed (dom own) live (dom own') live' /\ exchanges c trace a /\ replies (part w) trace (part w').
Proof using PreOrder0.
  induction c as [a| |u op k IH|u event k IH]; intros own w live; cbn [behaves converse]; [|done| |].
  - intros Hp Hi. exists a, w, live, own, []. do 3 (split; [done|]). split; [reflexivity|].
    split; [by eapply framed_refl, sized_dom, serve_sized|]. split; constructor.
  - intros (-> & Hl & Hk) Hi. pose proof (serve_sized _ _ _ Hi) as Hs. destruct (owned_pool_legal own live op Hs Hl) as (_ & Hop & _).
    destruct (serve_request own w live op Hi Hl) as (r & w1 & live1 & own1 & -> & Hstep & Ho1 & Hdom & Hi1 & Hw1 & Hp1). rewrite outcome_bind_Ret.
    destruct (IH r own1 w1 live1 (Hk r own1 Ho1) Hi1) as (a & w2 & live2 & own2 & trace & E & Hpost & Hi2 & Hw2 & Hf2 & Hex & Hrep).
    exists a, w2, live2, own2, trace. do 3 (split; [done|]). split; [by etransitivity|].
    split; [|split; [by econstructor|by rewrite <- Hp1]]. eapply framed_trans; [|done]. rewrite Hdom.
    eapply heap_step_framed; [by apply sized_dom|done..].
  - intros (-> & Hv & Hk) Hi. destruct (serve_callback own w live event Hi Hv) as (r & w1 & live1 & -> & Hi1 & Hw1 & He & Hf1).
    rewrite outcome_bind_Ret.
    destruct (IH r own w1 live1 (Hk r) Hi1) as (a & w2 & live2 & own2 & trace & E & Hpost & Hi2 & Hw2 & Hf2 & Hex & Hrep).
    exists a, w2, live2, own2, ((event, r) :: trace). do 3 (split; [done|]). split; [by etransitivity|].
    split; [by eapply framed_trans|]. split; econstructor; eauto.
Qed.
End both.
