(* ===== verification/Http3.v ===== *)
(** * HTTP/3 sessions

    Models [src/adapters/contract/laghu/adapters/http3.hpp] and [src/adapters/http3.cpp]: the
    creation of a session, whose state lives in the memory pool and which pins the arena of the
    pool, the operations on its connection, the events it reports, moves and release.

    Nghttp3 is a record of functions over a state [N] of its own.  A call of it is a
    conversation: it asks the memory functions of the state it was given for memory and reports
    to the callbacks before it answers.  Connections are known by their addresses.  The sinks of
    events act on a state [E].  Input views are the bytes they show; the views of events and
    output are addresses in the memory of the library. *)
From S2P Require Import Prelude Contract CheckedArithmetic Identifiers Views BoundedArena NativeMemory NativeSpec Dependencies Conversations.
From Stdlib Require Import ZArith Lia String Ascii.
From stdpp Require Import base numbers list gmap option.

Set Default Goal Selector "!".
#[local] Open Scope Z_scope.

(** ** Events, limits and headers *)
Inductive Http3Role := http3_client | http3_server | http3_role_unlisted (value : Z).

Inductive Http3EventKind :=
  | h3_headers_begin | h3_header | h3_headers_end | h3_data | h3_stream_end | h3_reset | h3_stop_sending | h3_shutdown | h3_qpack_failure.

Record Http3Header := MkHttp3Header { hh_name : list Z; hh_value : list Z }.

Record Http3Event := MkHttp3Event {
  he_kind : Http3EventKind; he_stream_id : Z; he_name : ByteView; he_value : ByteView; he_data : ByteView; he_application_error : Z }.

Record Http3EventSink (E : Type) := MkHttp3EventSink { hs_write : option (Http3Event -> E -> bool * E) }.
Arguments MkHttp3EventSink {E}.
Arguments hs_write {E}.

Record Http3Limits := MkHttp3Limits { h3_maximum_field_section_bytes : Z; h3_qpack_table_capacity : Z; h3_qpack_blocked_streams : Z }.

Record Http3Output := MkHttp3Output { ho_stream_id : Z; ho_bytes : ByteView; ho_fin : bool }.

Definition h3_limits_error := core_error invalid_input "HTTP/3 role or field-section limit is invalid".
Definition h3_storage_error := core_error exhaustion "HTTP/3 session storage is exhausted".
Definition h3_inactive_error := core_error invalid_state "HTTP/3 session is inactive or its arena was reset".
Definition h3_field_count_error := core_error invalid_range "HTTP/3 headers must contain 1 to 64 fields".
Definition h3_field_limit_error := core_error invalid_input "HTTP/3 headers exceed the configured field-section limit".

(** ** Header fields for the library *)
Record nghttp3_nv := MkNghttp3Nv { nv_name : list Z; nv_value : list Z; nv_namelen : Z; nv_valuelen : Z; nv_flags : Z }.
Definition nghttp3_nv_default : nghttp3_nv := MkNghttp3Nv [] [] 0 0 0.
Definition NGHTTP3_NV_FLAG_NONE : Z := 0.

Definition NativeHeaders_capacity : nat := 64.
Record NativeHeaders := MkNativeHeaders { nh_values : list nghttp3_nv; nh_size : Z }.
Definition NativeHeaders_default : NativeHeaders := MkNativeHeaders (replicate NativeHeaders_capacity nghttp3_nv_default) 0.

Definition header_size (bytes : list Z) : Z := Z.of_nat (length bytes).

Definition header_refused (header : Http3Header) (maximum_bytes total : Z) : bool :=
  bool_decide (hh_name header = []) || (u64 (maximum_bytes - total) <? header_size (hh_name header)) ||
  (u64 (maximum_bytes - total - header_size (hh_name header)) <? header_size (hh_value header)).

Fixpoint native_headers_loop (headers : list Http3Header) (maximum_bytes : Z) (result : NativeHeaders) (total : Z) :
    outcome (Result NativeHeaders) :=
  match headers with
  | [] => Ret (Ok result)
  | header :: headers =>
      if header_refused header maximum_bytes total then Ret (Err h3_field_limit_error) else
      let total := u64 (total + u64 (header_size (hh_name header) + header_size (hh_value header))) in
      values ← set_slot (nh_values result) (nh_size result)
        (MkNghttp3Nv (hh_name header) (hh_value header) (header_size (hh_name header)) (header_size (hh_value header)) NGHTTP3_NV_FLAG_NONE);
      native_headers_loop headers maximum_bytes (MkNativeHeaders values (u64 (nh_size result + 1))) total
  end.

Definition native_headers (headers : list Http3Header) (maximum_bytes : Z) : outcome (Result NativeHeaders) :=
  if bool_decide (headers = []) || (NativeHeaders_capacity <? length headers)%nat then Ret (Err h3_field_count_error) else
  native_headers_loop headers maximum_bytes NativeHeaders_default 0.

(** ** The library *)
Record nghttp3_settings := MkNghttp3Settings {
  max_field_section_size : Z; qpack_max_dtable_capacity : Z; qpack_encoder_max_dtable_capacity : Z; qpack_blocked_streams : Z;
  h3_other_settings : list Z }.

(** The callbacks that are set, with their arguments; buffers of headers as the vector
    [nghttp3_rcbuf_get_buf] gives. *)
Inductive Http3Callback :=
  | CbBeginHeaders (stream : Z)
  | CbRecvHeader (stream token : Z) (name value : span) (flags : Z)
  | CbEndHeaders (stream fin : Z)
  | CbRecvData (stream : Z) (data : span)
  | CbEndStream (stream : Z)
  | CbStopSending (stream code : Z)
  | CbResetStream (stream code : Z)
  | CbShutdown (id : Z).

Abbreviation Http3Call N A := (N -> conversation Http3Callback Z (A * N)).

(** A new connection is given the settings and the state, which has the memory functions and
    is the user data of the callbacks; it answers its result and the connection.  The write
    function answers its result, the stream, the end of the stream and the vector; the last
    three are those given when it does not set them. *)
Record Nghttp3 (N : Type) := MkNghttp3 {
  NGHTTP3_ERR_NOMEM : Z; NGHTTP3_ERR_INVALID_ARGUMENT : Z; NGHTTP3_ERR_CALLBACK_FAILURE : Z;
  NGHTTP3_STREAM_CLOSE_FLAG_RX_APP_ERROR_CODE_SET : Z; NGHTTP3_STREAM_CLOSE_FLAG_TX_APP_ERROR_CODE_SET : Z;
  nghttp3_settings_default : nghttp3_settings;
  nghttp3_conn_client_new : nghttp3_settings -> pointer -> Http3Call N (Z * option Z);
  nghttp3_conn_server_new : nghttp3_settings -> pointer -> Http3Call N (Z * option Z);
  nghttp3_conn_del : Z -> Http3Call N unit;
  nghttp3_conn_bind_control_stream : Z -> Z -> Http3Call N Z;
  nghttp3_conn_bind_qpack_streams : Z -> Z -> Z -> Http3Call N Z;
  nghttp3_conn_read_stream2 : Z -> Z -> list Z -> Z -> Z -> Http3Call N Z;
  nghttp3_conn_writev_stream : Z -> Z -> Z -> span -> Http3Call N (Z * Z * Z * span);
  nghttp3_conn_add_write_offset : Z -> Z -> Z -> Http3Call N Z;
  nghttp3_conn_add_ack_offset : Z -> Z -> Z -> Http3Call N Z;
  nghttp3_conn_submit_request : Z -> Z -> list nghttp3_nv -> Http3Call N Z;
  nghttp3_conn_submit_response : Z -> Z -> list nghttp3_nv -> Http3Call N Z;
  nghttp3_conn_close_stream2 : Z -> Z -> Z -> Z -> Z -> Http3Call N Z;
  nghttp3_conn_shutdown : Z -> Http3Call N Z }.
Arguments NGHTTP3_ERR_NOMEM {N}.
Arguments NGHTTP3_ERR_INVALID_ARGUMENT {N}.
Arguments NGHTTP3_ERR_CALLBACK_FAILURE {N}.
Arguments NGHTTP3_STREAM_CLOSE_FLAG_RX_APP_ERROR_CODE_SET {N}.
Arguments NGHTTP3_STREAM_CLOSE_FLAG_TX_APP_ERROR_CODE_SET {N}.
Arguments nghttp3_settings_default {N}.
Arguments nghttp3_conn_client_new {N}.
Arguments nghttp3_conn_server_new {N}.
Arguments nghttp3_conn_del {N}.
Arguments nghttp3_conn_bind_control_stream {N}.
Arguments nghttp3_conn_bind_qpack_streams {N}.
Arguments nghttp3_conn_read_stream2 {N}.
Arguments nghttp3_conn_writev_stream {N}.
Arguments nghttp3_conn_add_write_offset {N}.
Arguments nghttp3_conn_add_ack_offset {N}.
Arguments nghttp3_conn_submit_request {N}.
Arguments nghttp3_conn_submit_response {N}.
Arguments nghttp3_conn_close_stream2 {N}.
Arguments nghttp3_conn_shutdown {N}.

Section http3.
Context {N C L E : Type} (lib : Nghttp3 N).

(** ** State *)

(** The pool of the state is the one of the world. *)
Record Http3State := MkHttp3State {
  h3_events : Http3EventSink E; h3_log : DependencyLogSink L; h3_maximum : Z; h3_terminal : bool }.

(** A pointer to the pool, the memory functions, two sinks, a size and a flag, padded. *)
Definition sizeof_Http3State : Z := 96.

Record Http3World := MkHttp3World {
  hw_library : N; hw_pool : PoolState C; hw_log : L; hw_sinks : E; hw_states : gmap pointer Http3State }.
Implicit Types (w : Http3World).

Definition hw_arena w : BoundedArena (C * Memory) := ps_arena (hw_pool w).
Definition hw_set_library w (n : N) : Http3World := MkHttp3World n (hw_pool w) (hw_log w) (hw_sinks w) (hw_states w).
Definition hw_set_pool w (s : PoolState C) : Http3World := MkHttp3World (hw_library w) s (hw_log w) (hw_sinks w) (hw_states w).
Definition hw_set_log w (l : L) : Http3World := MkHttp3World (hw_library w) (hw_pool w) l (hw_sinks w) (hw_states w).
Definition hw_set_sinks w (e : E) : Http3World := MkHttp3World (hw_library w) (hw_pool w) (hw_log w) e (hw_states w).
Definition hw_set_states w (states : gmap pointer Http3State) : Http3World :=
  MkHttp3World (hw_library w) (hw_pool w) (hw_log w) (hw_sinks w) states.
Definition hw_set_arena w (arena : BoundedArena (C * Memory)) : Http3World :=
  hw_set_pool w (MkPoolState (ps_pool (hw_pool w)) arena (ps_heap (hw_pool w)) (ps_context (hw_pool w)) (ps_headers (hw_pool w))).

(** ** Errors *)
Definition h3_status_for (code : Z) : DependencyStatus :=
  if code =? NGHTTP3_ERR_NOMEM lib then status_exhaustion else
  if code =? NGHTTP3_ERR_INVALID_ARGUMENT lib then status_invalid_input else status_corrupt_data.

Definition h3_native_error (operation : DependencyOperation) (code : Z) (sink : DependencyLogSink L) w : Error * Http3World :=
  let e := normalize_dependency_error id_nghttp3 operation (h3_status_for code) code in
  (e, hw_set_log w (log_dependency_error sink (hw_log w) e)).

(** ** Callbacks *)
Definition h3_emit (state : Http3State) (event : Http3Event) (e : E) : Z * E :=
  match hs_write (h3_events state) with
  | None => (0, e)
  | Some write => let '(accepted, e) := write event e in (if (accepted : bool) then 0 else NGHTTP3_ERR_CALLBACK_FAILURE lib, e)
  end.

(** [*core::ByteView::from(...)], undefined on an error. *)
Definition view_of (bytes : span) : outcome ByteView :=
  match ByteView_from bytes with Ok v => Ret v | Err _ => Stop Undefined end.

Definition stream_event (kind : Http3EventKind) (stream : Z) : Http3Event := MkHttp3Event kind stream empty_span empty_span empty_span 0.

Definition h3_begin_headers (state : Http3State) (stream : Z) (e : E) : outcome (Z * E) :=
  Ret (h3_emit state (stream_event h3_headers_begin stream) e).
Definition h3_recv_header (state : Http3State) (stream : Z) (name value : span) (e : E) : outcome (Z * E) :=
  name_view ← view_of name;
  value_view ← view_of value;
  Ret (h3_emit state (MkHttp3Event h3_header stream name_view value_view empty_span 0) e).
Definition h3_end_headers (state : Http3State) (stream : Z) (e : E) : outcome (Z * E) :=
  Ret (h3_emit state (stream_event h3_headers_end stream) e).
Definition h3_recv_data (state : Http3State) (stream : Z) (data : span) (e : E) : outcome (Z * E) :=
  view ← view_of data;
  Ret (h3_emit state (MkHttp3Event h3_data stream empty_span empty_span view 0) e).
Definition h3_end_stream (state : Http3State) (stream : Z) (e : E) : outcome (Z * E) :=
  Ret (h3_emit state (stream_event h3_stream_end stream) e).
Definition h3_stop_sending_cb (state : Http3State) (stream code : Z) (e : E) : outcome (Z * E) :=
  Ret (h3_emit state (MkHttp3Event h3_stop_sending stream empty_span empty_span empty_span code) e).
Definition h3_reset_stream (state : Http3State) (stream code : Z) (e : E) : outcome (Z * E) :=
  Ret (h3_emit state (MkHttp3Event h3_reset stream empty_span empty_span empty_span code) e).
Definition h3_shutdown_cb (state : Http3State) (id : Z) (e : E) : outcome (Z * E) :=
  Ret (h3_emit state (stream_event h3_shutdown id) e).

Definition h3_callback_in (state : Http3State) (event : Http3Callback) (e : E) : outcome (Z * E) :=
  match event with
  | CbBeginHeaders stream => h3_begin_headers state stream e
  | CbRecvHeader stream _ name value _ => h3_recv_header state stream name value e
  | CbEndHeaders stream _ => h3_end_headers state stream e
  | CbRecvData stream data => h3_recv_data state stream data e
  | CbEndStream stream => h3_end_stream state stream e
  | CbStopSending stream code => h3_stop_sending_cb state stream code e
  | CbResetStream stream code => h3_reset_stream state stream code e
  | CbShutdown id => h3_shutdown_cb state id e
  end.

(** The user data, and the memory functions, are those of a state that exists. *)
Definition h3_state_at w (user : pointer) : outcome Http3State :=
  match hw_states w !! user with Some state => Ret state | None => Stop Undefined end.

Definition h3_callback (user : pointer) (event : Http3Callback) w : outcome (Z * Http3World) :=
  state ← h3_state_at w user;
  '(r, e) ← h3_callback_in state event (hw_sinks w);
  Ret (r, hw_set_sinks w e).

Definition h3_request (user : pointer) (op : PoolOp) w : outcome (option pointer * Http3World) :=
  _ ← h3_state_at w user;
  '(r, s) ← exec_pool (hw_pool w) op;
  Ret (r, hw_set_pool w s).

(** A call of the library. *)
Definition h3_native {A} (f : Http3Call N A) w : outcome (A * Http3World) :=
  '(answer, w) ← converse h3_request h3_callback (f (hw_library w)) w;
  Ret (fst answer, hw_set_library w (snd answer)).

(** ** Sessions *)
Record Http3Session := MkHttp3Session {
  ss_connection : option Z; ss_state : option pointer; ss_arena : option nat; ss_generation : Z; ss_pin : ArenaPin }.
Definition empty_session : Http3Session := MkHttp3Session None None None 0 (MkArenaPin None).

(** [internal::arena_free] of the storage of a state whose destructor has run. *)
Definition h3_free_state w (p : pointer) : outcome Http3World :=
  let w := hw_set_states w (delete p (hw_states w)) in s ← arena_free (hw_pool w) (Some p); Ret (hw_set_pool w s).

(** The pin is destroyed when [create] returns an error. *)
Definition h3_abandon (pin : ArenaPin) (e : Error) w : outcome (Result Http3Session * Http3World) :=
  arena ← ArenaPin_destroy (hw_arena w) pin; Ret (Err e, hw_set_arena w arena).

Definition h3_limits_invalid (role : Http3Role) (limits : Http3Limits) : bool :=
  match role with http3_client | http3_server => false | http3_role_unlisted _ => true end ||
  (h3_maximum_field_section_bytes limits =? 0) || (size_max <? h3_maximum_field_section_bytes limits).

Definition h3_settings (limits : Http3Limits) : nghttp3_settings :=
  MkNghttp3Settings (h3_maximum_field_section_bytes limits) (h3_qpack_table_capacity limits) (h3_qpack_table_capacity limits)
    (h3_qpack_blocked_streams limits) (h3_other_settings (nghttp3_settings_default lib)).

Definition Http3Session_create (role : Http3Role) (limits : Http3Limits) (events : Http3EventSink E) (log_sink : DependencyLogSink L) w :
    outcome (Result Http3Session * Http3World) :=
  if h3_limits_invalid role limits then Ret (Err h3_limits_error, w) else
  let w := hw_set_pool w (synchronize (hw_pool w)) in
  let '(pin, arena) := BoundedArena_pin (hw_arena w) (np_worker (ps_pool (hw_pool w))) in
  let w := hw_set_arena w arena in
  match pin with
  | Err e => Ret (Err e, w)
  | Ok pin =>
      '(storage, s) ← arena_malloc (hw_pool w) sizeof_Http3State;
      let w := hw_set_pool w s in
      match storage with
      | None => h3_abandon pin h3_storage_error w
      | Some storage =>
          let state := MkHttp3State events log_sink (h3_maximum_field_section_bytes limits) false in
          let w := hw_set_states w (<[storage := state]> (hw_states w)) in
          '(result, connection, w) ← h3_native (match role with
                                               | http3_client => nghttp3_conn_client_new lib (h3_settings limits) storage
                                               | _ => nghttp3_conn_server_new lib (h3_settings limits) storage
                                               end) w;
          if negb (result =? 0) then
            w ← h3_free_state w storage;
            let '(e, w) := h3_native_error op_http3_session result log_sink w in
            h3_abandon pin e w
          else Ret (Ok (MkHttp3Session connection (Some storage) (Some (ba_address (hw_arena w))) (ba_generation (hw_arena w)) pin), w)
      end
  end.

(** The connection and the state of a session that is not terminal. *)
Definition h3_parts (this : Http3Session) w : outcome (option (Z * pointer * Http3State)) :=
  match ss_connection this, ss_state this, ss_arena this with
  | Some connection, Some p, Some _ =>
      if negb (ba_generation (hw_arena w) =? ss_generation this) then Ret None else
      state ← h3_state_at w p;
      Ret (if h3_terminal state then None else Some (connection, p, state))
  | _, _, _ => Ret None
  end.

(** The operations of a valid session. *)
Definition h3_require_valid {A} (this : Http3Session) w
    (k : Z -> pointer -> Http3State -> outcome (Result A * Http3World)) : outcome (Result A * Http3World) :=
  parts ← h3_parts this w;
  match parts with
  | None => Ret (Err h3_inactive_error, w)
  | Some (connection, p, state) => k connection p state
  end.

(** The error of a nonzero result. *)
Definition h3_checked (operation : DependencyOperation) (state : Http3State) (x : Z * Http3World) : outcome (Result unit * Http3World) :=
  let '(result, w) := x in
  if negb (result =? 0) then let '(e, w) := h3_native_error operation result (h3_log state) w in Ret (Err e, w) else Ret (Ok tt, w).

Definition Http3Session_bind_streams (this : Http3Session) (control encoder decoder : Z) w : outcome (Result unit * Http3World) :=
  h3_require_valid this w (fun connection p state =>
    '(result, w) ← h3_native (nghttp3_conn_bind_control_stream lib connection control) w;
    x ← (if result =? 0 then h3_native (nghttp3_conn_bind_qpack_streams lib connection encoder decoder) w else Ret (result, w));
    h3_checked op_http3_session state x).

Definition h3_set_terminal w (p : pointer) (state : Http3State) : Http3World :=
  hw_set_states w (<[p := MkHttp3State (h3_events state) (h3_log state) (h3_maximum state) true]> (hw_states w)).

Definition Http3Session_receive (this : Http3Session) (stream : Z) (data : list Z) (fin : bool) w : outcome (Result Z * Http3World) :=
  h3_require_valid this w (fun connection p state =>
    '(result, w) ← h3_native (nghttp3_conn_read_stream2 lib connection stream data (if fin then 1 else 0) 0) w;
    if result <? 0 then
      let '(e, w) := h3_native_error op_http3_receive (cast int32_t result) (h3_log state) (h3_set_terminal w p state) in Ret (Err e, w)
    else Ret (Ok (cast size_t result), w)).

Definition Http3Session_next_output (this : Http3Session) w : outcome (Result Http3Output * Http3World) :=
  h3_require_valid this w (fun connection p state =>
    '(count, stream, fin, vector, w) ← h3_native (nghttp3_conn_writev_stream lib connection (-1) 0 empty_span) w;
    if count <? 0 then
      let '(e, w) := h3_native_error op_http3_send (cast int32_t count) (h3_log state) (h3_set_terminal w p state) in Ret (Err e, w)
    else if count =? 0 then Ret (Ok (MkHttp3Output stream empty_span (negb (fin =? 0))), w)
    else view ← view_of vector; Ret (Ok (MkHttp3Output stream view (negb (fin =? 0))), w)).

Definition Http3Session_mark_output_written (this : Http3Session) (stream bytes : Z) w : outcome (Result unit * Http3World) :=
  h3_require_valid this w (fun connection p state =>
    x ← h3_native (nghttp3_conn_add_write_offset lib connection stream bytes) w; h3_checked op_http3_send state x).

Definition Http3Session_acknowledge_stream_data (this : Http3Session) (stream bytes : Z) w : outcome (Result unit * Http3World) :=
  h3_require_valid this w (fun connection p state =>
    x ← h3_native (nghttp3_conn_add_ack_offset lib connection stream bytes) w; h3_checked op_http3_send state x).

(** The fields in use of the array. *)
Definition h3_fields (native : NativeHeaders) : list nghttp3_nv := take (Z.to_nat (nh_size native)) (nh_values native).

Definition h3_submit (submit : Z -> Z -> list nghttp3_nv -> Http3Call N Z) (this : Http3Session) (stream : Z) (headers : list Http3Header) w :
    outcome (Result unit * Http3World) :=
  h3_require_valid this w (fun connection p state =>
    native ← native_headers headers (h3_maximum state);
    match native with
    | Err e => Ret (Err e, w)
    | Ok native => x ← h3_native (submit connection stream (h3_fields native)) w; h3_checked op_http3_submit state x
    end).

Definition Http3Session_submit_request (this : Http3Session) (stream : Z) (headers : list Http3Header) w : outcome (Result unit * Http3World) :=
  h3_submit (nghttp3_conn_submit_request lib) this stream headers w.

Definition Http3Session_submit_response (this : Http3Session) (stream : Z) (headers : list Http3Header) w : outcome (Result unit * Http3World) :=
  h3_submit (nghttp3_conn_submit_response lib) this stream headers w.

Definition Http3Session_close_stream (this : Http3Session) (stream code : Z) w : outcome (Result unit * Http3World) :=
  h3_require_valid this w (fun connection p state =>
    let flags := Z.lor (NGHTTP3_STREAM_CLOSE_FLAG_RX_APP_ERROR_CODE_SET lib) (NGHTTP3_STREAM_CLOSE_FLAG_TX_APP_ERROR_CODE_SET lib) in
    x ← h3_native (nghttp3_conn_close_stream2 lib connection flags stream code code) w; h3_checked op_http3_submit state x).

Definition Http3Session_shutdown (this : Http3Session) w : outcome (Result unit * Http3World) :=
  h3_require_valid this w (fun connection p state =>
    x ← h3_native (nghttp3_conn_shutdown lib connection) w; h3_checked op_http3_submit state x).

(** ** Release and moves *)
Definition Http3Session_release (this : Http3Session) w : outcome (Http3Session * Http3World) :=
  w ← (match ss_connection this, ss_arena this with
       | Some connection, Some _ =>
           if negb (ba_generation (hw_arena w) =? ss_generation this) then Ret w else
           '(_, w) ← h3_native (nghttp3_conn_del lib connection) w;
           match ss_state this with
           | None => Stop Undefined
           | Some p => _ ← h3_state_at w p; h3_free_state w p
           end
       | _, _ => Ret w
       end);
  '(arena, pin, _) ← ArenaPin_move_assign (hw_arena w) (ss_pin this) (MkArenaPin None);
  Ret (MkHttp3Session None None None 0 pin, hw_set_arena w arena).

(** [this] and what is left of [other]. *)
Definition Http3Session_move_from (this other : Http3Session) w : outcome (Http3Session * Http3Session * Http3World) :=
  '(arena, pin, other_pin) ← ArenaPin_move_assign (hw_arena w) (ss_pin this) (ss_pin other);
  Ret (MkHttp3Session (ss_connection other) (ss_state other) (ss_arena other) (ss_generation other) pin,
       MkHttp3Session None None None 0 other_pin, hw_set_arena w arena).

Definition Http3Session_move_construct (other : Http3Session) w : outcome (Http3Session * Http3Session * Http3World) :=
  Http3Session_move_from empty_session other w.

(** Between two distinct sessions; self-assignment does nothing. *)
Definition Http3Session_move_assign (this other : Http3Session) w : outcome (Http3Session * Http3Session * Http3World) :=
  '(this, w) ← Http3Session_release this w; Http3Session_move_from this other w.

Definition Http3Session_destroy (this : Http3Session) w : outcome Http3World :=
  '(_, w) ← Http3Session_release this w; Ret w.
End http3.
Arguments Http3World : clear implicits.
Arguments Http3State : clear implicits.
