(* ===== verification/Http3Spec.v ===== *)
(** * nghttp3 and one call of it

    What nghttp3 asks of its callers ([permits]) and what the adapter relies on in return
    ([Nghttp3Laws]): a call that is permitted on a live connection ends, calls back only for the
    state the connection was given and with views that are not null, and draws its memory from
    the functions of that state.  The adapter passes the arguments of its own callers on without
    a check, so that the conditions on roles, streams and amounts are theirs; that a connection
    is not used after a failed reception or production of output is the adapter's.  Header
    fields against their specification, what the sink is told, and one call of the library. *)
From S2P Require Import Prelude Contract CheckedArithmetic Identifiers MemoryBudget MemoryBudgetSpec BudgetInvariant Views BlockSource BoundedArena ArenaSpec.
From S2P Require Import NativeMemory NativeSpec Dependencies CodecPool Conversations Http3.
From Stdlib Require Import ZArith Lia String Ascii.
From stdpp Require Import base numbers list gmap option fin_map_dom.

Set Default Goal Selector "!".
#[local] Open Scope Z_scope.

(** ** Header fields *)
Definition field_size (header : Http3Header) : Z := header_size (hh_name header) + header_size (hh_value header).
Definition section_size (headers : list Http3Header) : Z := foldr (fun header total => field_size header + total) 0 headers.

Definition nv_of (header : Http3Header) : nghttp3_nv :=
  MkNghttp3Nv (hh_name header) (hh_value header) (header_size (hh_name header)) (header_size (hh_value header)) NGHTTP3_NV_FLAG_NONE.

(** Every field has a name, and all of them fit. *)
Definition section_fits (headers : list Http3Header) (maximum : Z) : Prop :=
  Forall (fun header => hh_name header <> []) headers /\ section_size headers <= maximum.

#[export] Instance section_fits_dec headers maximum : Decision (section_fits headers maximum).
Proof. unfold section_fits. apply _. Defined.

(** The headers a submission refuses. *)
Definition submission_refusal (headers : list Http3Header) (maximum : Z) : option Error :=
  if bool_decide (1 <= length headers <= NativeHeaders_capacity)%nat then
    if decide (section_fits headers maximum) then None
    else Some (core_error invalid_input "HTTP/3 headers exceed the configured field-section limit")
  else Some (core_error invalid_range "HTTP/3 headers must contain 1 to 64 fields").

Lemma section_size_nonneg headers : 0 <= section_size headers.
Proof. unfold section_size. induction headers as [|h headers IH]; cbn [foldr]; [lia|]. unfold field_size, header_size in *. lia. Qed.

Lemma section_size_cons header headers : section_size (header :: headers) = field_size header + section_size headers.
Proof. done. Qed.

Lemma header_refused_spec header maximum total : 0 <= total <= maximum -> maximum <= size_max ->
  header_refused header maximum total = false <-> hh_name header <> [] /\ total + field_size header <= maximum.
Proof.
  intros Ht Hm. unfold header_refused, field_size, header_size. unfold size_max in Hm. rewrite u64_small by lia. rewrite !orb_false_iff, bool_decide_eq_false, !Z.ltb_ge.
  split.
  - intros [[H1 H2] H3]. rewrite u64_small in H3 by lia. split; [done|]. lia.
  - intros [H1 H2]. rewrite u64_small by lia. split; [split; [done|]|]; lia.
Qed.

Lemma native_headers_loop_run headers maximum : forall done total,
  0 <= total <= maximum -> maximum <= size_max -> (length done + length headers <= NativeHeaders_capacity)%nat ->
  exists r, native_headers_loop headers maximum
      (MkNativeHeaders (done ++ replicate (NativeHeaders_capacity - length done) nghttp3_nv_default) (Z.of_nat (length done))) total = Ret r /\
    if decide (section_fits headers (maximum - total)) then exists native, r = Ok native /\ h3_fields native = done ++ map nv_of headers
    else r = Err h3_field_limit_error.
Proof.
  induction headers as [|h headers IH]; intros done total Ht Hm Hlen; cbn [native_headers_loop].
  { eexists. split; [reflexivity|]. destruct (decide _) as [_|Hno].
    - eexists. split; [reflexivity|]. unfold h3_fields. cbn [nh_size nh_values map]. rewrite Nat2Z.id, take_app_length. by rewrite app_nil_r.
    - exfalso. apply Hno. split; [constructor|]. cbn. lia. }
  destruct (header_refused h maximum total) eqn:Hr.
  - eexists. split; [reflexivity|]. destruct (decide _) as [[Hn Hs]|_]; [|reflexivity]. exfalso.
    apply not_false_iff_true in Hr. apply Hr. apply header_refused_spec; [done..|]. apply Forall_cons in Hn as [Hn _].
    split; [done|]. rewrite section_size_cons in Hs. pose proof (section_size_nonneg headers). lia.
  - apply header_refused_spec in Hr as [Hname Hfit]; [|done..]. unfold field_size in Hfit. unfold header_size in Hfit. cbn [length] in Hlen.
    unfold size_max, NativeHeaders_capacity in *. cbn [nh_values nh_size].
    unfold set_slot. rewrite length_app, length_replicate.
    rewrite (proj2 (Z.leb_gt _ _)) by lia. rewrite outcome_bind_Ret, Nat2Z.id. unfold header_size.
    rewrite (u64_small (Z.of_nat (length (hh_name h)) + _)) by lia. rewrite (u64_small (total + _)) by lia. rewrite u64_small by (unfold u64_max; lia).
    rewrite insert_app_r_alt by lia. rewrite Nat.sub_diag. destruct (64 - length done)%nat as [|room] eqn:Eroom; [lia|]. cbn [replicate insert list_insert].
    destruct (IH (done ++ [nv_of h]) (total + (Z.of_nat (length (hh_name h)) + Z.of_nat (length (hh_value h)))) ltac:(lia) Hm) as (r & Er & Hres).
    { rewrite length_app. cbn. lia. }
    exists r. split.
    + rewrite <- Er. f_equal. f_equal.
      * rewrite <- app_assoc. cbn. do 2 f_equal. rewrite length_app. cbn. f_equal. lia.
      * rewrite length_app. cbn. lia.
    + revert Hres. set (t' := total + _). destruct (decide (section_fits headers (maximum - t'))) as [Hf|Hf].
      * intros (native & -> & En). destruct (decide _) as [_|Hno].
        { exists native. split; [done|]. rewrite En. cbn. by rewrite <- app_assoc. }
        exfalso. apply Hno. destruct Hf as [Hf1 Hf2]. split; [by constructor|]. rewrite section_size_cons. unfold field_size, header_size, t' in *. lia.
      * intros ->. destruct (decide _) as [[Hy1 Hy2]|_]; [|done]. exfalso. apply Hf. apply Forall_cons in Hy1 as [_ Hy1].
        split; [done|]. rewrite section_size_cons in Hy2. unfold field_size, header_size, t' in *. lia.
Qed.

Lemma native_headers_run headers maximum : 0 <= maximum <= size_max ->
  exists r, native_headers headers maximum = Ret r /\
    match submission_refusal headers maximum with
    | Some e => r = Err e
    | None => exists native, r = Ok native /\ h3_fields native = map nv_of headers
    end.
Proof.
  intros Hm. unfold native_headers, submission_refusal.
  destruct (bool_decide_reflect (1 <= length headers <= NativeHeaders_capacity)%nat) as [Hc|Hc].
  - rewrite (bool_decide_eq_false_2 (headers = [])) by (intros ->; cbn in Hc; lia). rewrite (proj2 (Nat.ltb_ge _ _)) by lia. cbn [orb].
    destruct (native_headers_loop_run headers maximum [] 0) as (r & Er & Hr); [lia|lia|cbn; lia|].
    exists r. split; [exact Er|]. rewrite Z.sub_0_r in Hr. by destruct (decide _).
  - eexists. split; [|reflexivity]. destruct (bool_decide_reflect (headers = [])) as [|Hne]; [done|].
    rewrite (proj2 (Nat.ltb_lt _ _)); [done|]. destruct headers; [done|]. cbn in *. lia.
Qed.

(** ** The laws *)
Definition h3_view_ok (v : span) : Prop := span_data v = None -> span_size v = 0.

Definition h3_event_ok (own : Owned) (event : Http3Callback) : Prop :=
  match event with
  | CbRecvHeader _ _ name value _ => h3_view_ok name /\ h3_view_ok value
  | CbRecvData _ data => h3_view_ok data
  | _ => True
  end.

(** The call ends, with an answer that satisfies [post] and the memory that is then the
    library's. *)
Definition answers {N A} (memory : N -> Owned) (user : pointer) (n : N) (f : Http3Call N A) (post : A -> N -> Prop) : Prop :=
  behaves user h3_event_ok (fun x own => own = memory (snd x) /\ post (fst x) (snd x)) (memory n) (f n).

(** Stream identifiers are 62-bit numbers whose last two bits say who opened the stream and
    whether it has two directions.  Requests have streams of the client with two. *)
Definition varint_max : Z := 4611686018427387903.
Definition stream_ok (stream : Z) : Prop := 0 <= stream <= varint_max.
Definition request_stream (stream : Z) : Prop := stream_ok stream /\ stream mod 4 = 0.
Definition own_uni (server : bool) (stream : Z) : Prop := stream_ok stream /\ stream mod 4 = if server then 3 else 2.
Definition peer_uni (server : bool) (stream : Z) : Prop := stream_ok stream /\ stream mod 4 = if server then 2 else 3.

Definition settings_ok (settings : nghttp3_settings) : Prop :=
  0 <= max_field_section_size settings <= varint_max /\ 0 <= qpack_max_dtable_capacity settings <= varint_max /\
  0 <= qpack_encoder_max_dtable_capacity settings <= varint_max /\ 0 <= qpack_blocked_streams settings <= varint_max.

(** What the conditions on calls depend on: the role of a connection, the streams bound to it,
    whether a call of it failed for good, the streams that have ended, and per stream the bytes
    of the last output and those accepted of it that are not acknowledged. *)
Record Http3Connection := MkHttp3Connection {
  cn_user : pointer; cn_server : bool; cn_control : option Z; cn_qpack : option (Z * Z); cn_failed : bool; cn_fatal : bool;
  cn_ended : gset Z; cn_offered : gmap Z Z; cn_accepted : gmap Z Z }.

Definition new_connection (user : pointer) (server : bool) : Http3Connection :=
  MkHttp3Connection user server None None false false ∅ ∅ ∅.

Inductive native_call :=
  | NBindControl (stream : Z)
  | NBindQpack (encoder decoder : Z)
  | NRead (stream : Z)
  | NWrite
  | NWriteOffset (stream bytes : Z)
  | NAckOffset (stream bytes : Z)
  | NRequest (stream : Z)
  | NResponse (stream : Z)
  | NClose (stream : Z)
  | NShutdown.

(** The conditions of nghttp3: no call after a fatal error; streams of the right kind, the
    control stream and those of QPACK distinct; no input on a stream that has ended; only
    bytes that were given out are accepted, and only accepted ones acknowledged; only clients
    submit requests and only servers responses, when the QPACK streams are bound; and a
    shutdown needs the control stream. *)
Definition permits (v : Http3Connection) (call : native_call) : Prop :=
  cn_fatal v = false /\
  match call with
  | NBindControl stream => own_uni (cn_server v) stream /\ forall e d, cn_qpack v = Some (e, d) -> stream <> e /\ stream <> d
  | NBindQpack encoder decoder => own_uni (cn_server v) encoder /\ own_uni (cn_server v) decoder /\ encoder <> decoder /\
      forall control, cn_control v = Some control -> control <> encoder /\ control <> decoder
  | NRead stream => (request_stream stream \/ peer_uni (cn_server v) stream) /\ stream ∉ cn_ended v
  | NWrite => True
  | NWriteOffset stream bytes => stream_ok stream /\ 0 <= bytes <= default 0 (cn_offered v !! stream)
  | NAckOffset stream bytes => stream_ok stream /\ 0 <= bytes <= default 0 (cn_accepted v !! stream)
  | NRequest stream => cn_server v = false /\ is_Some (cn_qpack v) /\ request_stream stream /\ stream ∉ cn_ended v
  | NResponse stream => cn_server v = true /\ is_Some (cn_qpack v) /\ request_stream stream
  | NClose stream => stream_ok stream
  | NShutdown => is_Some (cn_control v)
  end.

#[export] Instance permits_dec v call : Decision (permits v call).
Proof.
  unfold permits, own_uni, peer_uni, request_stream, stream_ok. apply and_dec; [apply _|]. destruct call; try apply _.
  - apply and_dec; [apply _|]. destruct (cn_qpack v) as [[e d]|]; [|by left].
    destruct (decide (stream <> e /\ stream <> d)) as [H|H]; [left; by intros ? ? [= <- <-]|right; intros H2; by apply H, H2].
  - repeat (apply and_dec; [apply _|]). destruct (cn_control v) as [control|]; [|by left].
    destruct (decide (control <> encoder /\ control <> decoder)) as [H|H]; [left; by intros ? [= <-]|right; intros H2; by apply H, H2].
Defined.

(** The connection after a call with this result. *)
Definition with_failed (v : Http3Connection) : Http3Connection :=
  MkHttp3Connection (cn_user v) (cn_server v) (cn_control v) (cn_qpack v) true (cn_fatal v) (cn_ended v) (cn_offered v) (cn_accepted v).
Definition with_fatal (v : Http3Connection) : Http3Connection :=
  MkHttp3Connection (cn_user v) (cn_server v) (cn_control v) (cn_qpack v) (cn_failed v) true (cn_ended v) (cn_offered v) (cn_accepted v).
Definition with_bound (v : Http3Connection) (control : option Z) (qpack : option (Z * Z)) : Http3Connection :=
  MkHttp3Connection (cn_user v) (cn_server v) control qpack (cn_failed v) (cn_fatal v) (cn_ended v) (cn_offered v) (cn_accepted v).
Definition with_ended (v : Http3Connection) (stream : Z) : Http3Connection :=
  MkHttp3Connection (cn_user v) (cn_server v) (cn_control v) (cn_qpack v) (cn_failed v) (cn_fatal v) ({[stream]} ∪ cn_ended v) (cn_offered v) (cn_accepted v).
Definition with_amounts (v : Http3Connection) (offered accepted : gmap Z Z) : Http3Connection :=
  MkHttp3Connection (cn_user v) (cn_server v) (cn_control v) (cn_qpack v) (cn_failed v) (cn_fatal v) (cn_ended v) offered accepted.

Definition after_success (call : native_call) (v : Http3Connection) : Http3Connection :=
  match call with
  | NBindControl stream => with_bound v (Some stream) (cn_qpack v)
  | NBindQpack encoder decoder => with_bound v (cn_control v) (Some (encoder, decoder))
  | NWriteOffset stream bytes =>
      with_amounts v (<[stream := default 0 (cn_offered v !! stream) - bytes]> (cn_offered v))
        (<[stream := default 0 (cn_accepted v !! stream) + bytes]> (cn_accepted v))
  | NAckOffset stream bytes => with_amounts v (cn_offered v) (<[stream := default 0 (cn_accepted v !! stream) - bytes]> (cn_accepted v))
  | NClose stream => with_ended v stream
  | _ => v
  end.

(** Running out of memory and a refusal by a callback are the fatal errors. *)
Definition after_call {N} (lib : Nghttp3 N) (call : native_call) (v : Http3Connection) (result : Z) : Http3Connection :=
  if result =? 0 then after_success call v
  else if (result =? NGHTTP3_ERR_NOMEM lib) || (result =? NGHTTP3_ERR_CALLBACK_FAILURE lib) then with_fatal v else v.
Definition after_read (stream fin : Z) (v : Http3Connection) (result : Z) : Http3Connection :=
  if result <? 0 then with_failed v else if fin =? 0 then v else with_ended v stream.
Definition after_write (v : Http3Connection) (result : Z * Z * Z * span) : Http3Connection :=
  let '(count, stream, _, vector) := result in
  if count <? 0 then with_failed v else if count =? 0 then v
  else with_amounts v (<[stream := span_size vector]> (cn_offered v)) (cn_accepted v).

(** A permitted call on a connection that has not failed. *)
Definition answers_on {N A} (connections : N -> gmap Z Http3Connection) (memory : N -> Owned) (n : N) (c : Z) (f : Http3Call N A) (call : native_call)
    (after : Http3Connection -> A -> Http3Connection) (post : A -> Prop) : Prop :=
  forall v, connections n !! c = Some v -> cn_failed v = false -> permits v call ->
    answers memory (cn_user v) n f (fun r n' => connections n' = <[c := after v r]> (connections n) /\ post r).

Definition answers_new {N} (connections : N -> gmap Z Http3Connection) (memory : N -> Owned) (n : N) (f : Http3Call N (Z * option Z))
    (settings : nghttp3_settings) (user : pointer) (server : bool) : Prop :=
  settings_ok settings -> answers memory user n f (fun r n' =>
    if fst r =? 0 then exists c, snd r = Some c /\ connections n !! c = None /\ connections n' = <[c := new_connection user server]> (connections n)
    else connections n' = connections n).

Class Nghttp3Laws {N : Type} (lib : Nghttp3 N) := {
  connections : N -> gmap Z Http3Connection;
  memory : N -> Owned;
  law_no_connections n : connections n = ∅ -> memory n = ∅;
  law_client_new n settings user : answers_new connections memory n (nghttp3_conn_client_new lib settings user) settings user false;
  law_server_new n settings user : answers_new connections memory n (nghttp3_conn_server_new lib settings user) settings user true;
  law_del n c v : connections n !! c = Some v ->
    answers memory (cn_user v) n (nghttp3_conn_del lib c) (fun _ n' => connections n' = delete c (connections n));
  law_bind_control n c stream : answers_on connections memory n c (nghttp3_conn_bind_control_stream lib c stream)
    (NBindControl stream) (after_call lib (NBindControl stream)) (fun _ => True);
  law_bind_qpack n c encoder decoder : answers_on connections memory n c (nghttp3_conn_bind_qpack_streams lib c encoder decoder)
    (NBindQpack encoder decoder) (after_call lib (NBindQpack encoder decoder)) (fun _ => True);
  law_read n c stream data fin ts : answers_on connections memory n c (nghttp3_conn_read_stream2 lib c stream data fin ts)
    (NRead stream) (after_read stream fin) (fun r => r <= Z.of_nat (length data));
  law_write n c : answers_on connections memory n c (nghttp3_conn_writev_stream lib c (-1) 0 empty_span)
    NWrite after_write (fun r => let '(count, _, _, v) := r in 0 < count -> h3_view_ok v);
  law_write_offset n c stream bytes : answers_on connections memory n c (nghttp3_conn_add_write_offset lib c stream bytes)
    (NWriteOffset stream bytes) (after_call lib (NWriteOffset stream bytes)) (fun _ => True);
  law_ack_offset n c stream bytes : answers_on connections memory n c (nghttp3_conn_add_ack_offset lib c stream bytes)
    (NAckOffset stream bytes) (after_call lib (NAckOffset stream bytes)) (fun _ => True);
  law_request n c stream fields : answers_on connections memory n c (nghttp3_conn_submit_request lib c stream fields)
    (NRequest stream) (after_call lib (NRequest stream)) (fun _ => True);
  law_response n c stream fields : answers_on connections memory n c (nghttp3_conn_submit_response lib c stream fields)
    (NResponse stream) (after_call lib (NResponse stream)) (fun _ => True);
  law_close n c flags stream rx tx : answers_on connections memory n c (nghttp3_conn_close_stream2 lib c flags stream rx tx)
    (NClose stream) (after_call lib (NClose stream)) (fun _ => True);
  law_shutdown n c : answers_on connections memory n c (nghttp3_conn_shutdown lib c)
    NShutdown (after_call lib NShutdown) (fun _ => True) }.

(** The states the connections were given. *)
Definition users {N} {lib : Nghttp3 N} {laws : Nghttp3Laws lib} (n : N) : gmap Z pointer := cn_user <$> connections n.

(** What calls leave alone. *)
Lemma after_call_kept {N} (lib : Nghttp3 N) call v r :
  cn_user (after_call lib call v r) = cn_user v /\ cn_failed (after_call lib call v r) = cn_failed v.
Proof. unfold after_call, after_success. by repeat case_match. Qed.

Lemma after_read_kept stream fin v r :
  cn_user (after_read stream fin v r) = cn_user v /\ cn_failed (after_read stream fin v r) = (r <? 0) || cn_failed v.
Proof. unfold after_read. by repeat case_match. Qed.

Lemma after_write_kept v count stream fin vector : let v' := after_write v (count, stream, fin, vector) in
  cn_user v' = cn_user v /\ cn_failed v' = (count <? 0) || cn_failed v.
Proof. unfold after_write. by repeat case_match. Qed.

(** ** What the sink is told *)

(** The event each callback stands for. *)
Definition event_of (callback : Http3Callback) : Http3Event :=
  match callback with
  | CbBeginHeaders stream => MkHttp3Event h3_headers_begin stream empty_span empty_span empty_span 0
  | CbRecvHeader stream _ name value _ => MkHttp3Event h3_header stream name value empty_span 0
  | CbEndHeaders stream _ => MkHttp3Event h3_headers_end stream empty_span empty_span empty_span 0
  | CbRecvData stream data => MkHttp3Event h3_data stream empty_span empty_span data 0
  | CbEndStream stream => MkHttp3Event h3_stream_end stream empty_span empty_span empty_span 0
  | CbStopSending stream code => MkHttp3Event h3_stop_sending stream empty_span empty_span empty_span code
  | CbResetStream stream code => MkHttp3Event h3_reset stream empty_span empty_span empty_span code
  | CbShutdown id => MkHttp3Event h3_shutdown id empty_span empty_span empty_span 0
  end.

(** The sink is told the event, once, and its verdict is the library's: 0 when it accepts and
    the error for callbacks that fail when it refuses; without a sink every event is
    accepted. *)
Definition told {N E} (lib : Nghttp3 N) (sink : Http3EventSink E) (callback : Http3Callback) (e : E) (verdict : Z) (e' : E) : Prop :=
  match hs_write sink with
  | None => verdict = 0 /\ e' = e
  | Some write => exists accepted, write (event_of callback) e = (accepted, e') /\
      verdict = if (accepted : bool) then 0 else NGHTTP3_ERR_CALLBACK_FAILURE lib
  end.

(** ** One call *)
Section calls.
Context {N C L E : Type} {acquire : C * Memory -> Z -> Result MutableByteView * (C * Memory)}.
Context {reset : C * Memory -> Result unit * (C * Memory)} `{!PoolSource acquire reset}.
Context {lib : Nghttp3 N} {laws : Nghttp3Laws lib}.
Abbreviation World := (Http3World N C L E).
Abbreviation State := (Http3State L E).
Implicit Types (w : World) (live : gmap pointer (list Z)) (state : State).
Abbreviation implements := (implements (acquire := acquire) (reset := reset)).

(** The pool implements [live], in which the library has its blocks. *)
Record h3_ready w live : Prop := {
  hr_pool : implements (hw_pool w) live;
  hr_sized : sized (memory (hw_library w)) live }.

(** Only the library, the pool and the sinks changed, and only the library's blocks. *)
Record h3_used w live w' live' : Prop := {
  hu_states : hw_states w' = hw_states w;
  hu_log : hw_log w' = hw_log w;
  hu_ready : h3_ready w' live';
  hu_kept : kept (hw_pool w) (hw_pool w');
  hu_framed : framed (dom (memory (hw_library w))) live (dom (memory (hw_library w'))) live' }.

Lemma h3_used_refl w live : h3_ready w live -> h3_used w live w live.
Proof. intros Hr. split; [done|done|done|apply kept_refl|]. apply framed_refl, sized_dom, Hr. Qed.

Lemma h3_used_trans w1 live1 w2 live2 w3 live3 : h3_used w1 live1 w2 live2 -> h3_used w2 live2 w3 live3 -> h3_used w1 live1 w3 live3.
Proof.
  intros [A1 A2 A3 A4 A5] [B1 B2 B3 B4 B5]. split; [congruence|congruence|done|by eapply kept_trans|by eapply framed_trans].
Qed.

(** What the library is told and reports while it runs [f], and its answer. *)
Definition asks {A} state (f : Http3Call N A) w (a : A) w' : Prop :=
  exists trace, exchanges (f (hw_library w)) trace (a, hw_library w') /\
    replies (told lib (h3_events state)) (hw_sinks w) trace (hw_sinks w').

(** What stays while a call runs. *)
Definition h3_step w w' : Prop :=
  hw_states w' = hw_states w /\ hw_log w' = hw_log w /\ hw_library w' = hw_library w /\ kept (hw_pool w) (hw_pool w').

#[export] Instance h3_step_preorder : PreOrder h3_step.
Proof.
  split.
  - intros w. split; [done|]. split; [done|]. split; [done|apply kept_refl].
  - intros w1 w2 w3 (A1 & A2 & A3 & A4) (B1 & B2 & B3 & B4). split; [congruence|]. split; [congruence|]. split; [congruence|by eapply kept_trans].
Qed.

Definition h3_inv (user : pointer) state (own : Owned) w live : Prop :=
  implements (hw_pool w) live /\ hw_states w !! user = Some state /\ sized own live.

Lemma view_of_ok v : h3_view_ok v -> view_of v = Ret v.
Proof.
  intros H. unfold view_of, ByteView_from. destruct (bool_decide_reflect (span_data v = None)) as [Hn|]; [|done].
  unfold span_empty. rewrite (H Hn). done.
Qed.

Lemma emit_told state callback (e : E) : exists r e', h3_emit lib state (event_of callback) e = (r, e') /\ told lib (h3_events state) callback e r e'.
Proof.
  unfold h3_emit, told. destruct (hs_write (h3_events state)) as [write|]; [|by exists 0, e].
  destruct (write (event_of callback) e) as [accepted e'] eqn:Ew. eexists _, e'. split; [done|]. by exists accepted.
Qed.

Lemma callback_told own state event (e : E) : h3_event_ok own event ->
  exists r e', h3_callback_in lib state event e = Ret (r, e') /\ told lib (h3_events state) event e r e'.
Proof.
  intros Hok. destruct (emit_told state event e) as (r & e' & Er & Ht). exists r, e'. split; [|done]. rewrite <- Er.
  destruct event; cbn [h3_event_ok h3_callback_in] in *; try done.
  - destruct Hok as [Hn Hv]. unfold h3_recv_header. by rewrite (view_of_ok _ Hn), outcome_bind_Ret, (view_of_ok _ Hv), outcome_bind_Ret.
  - unfold h3_recv_data. by rewrite (view_of_ok _ Hok), outcome_bind_Ret.
Qed.

#[export] Instance http3_serves user state :
  Serves h3_request (h3_callback lib) user h3_event_ok (h3_inv user state) h3_step hw_sinks
    (told lib (h3_events state)).
Proof using PoolSource0.
  split.
  - intros own w live (_ & _ & Hs). exact Hs.
  - intros own w live op ([free HI] & Hst & Hs) Hl. destruct (owned_pool_legal own live op Hs Hl) as (Hpl & _ & Hr).
    destruct (exec_pool_ok (hw_pool w) live free op HI Hpl) as (r & s' & live' & free' & Erun & Hstep & HI').
    destruct (heap_owned_step own live op r live' Hs Hl Hstep) as (own' & Ho & Hs' & Hdom).
    exists r, (hw_set_pool w s'), live', own'. unfold h3_request, h3_state_at. rewrite Hst, outcome_bind_Ret, Erun, outcome_bind_Ret.
    do 4 (split; [done|]). split; [split; [by exists free'|done]|]. split; [|done].
    split; [done|]. split; [done|]. split; [done|]. by eapply exec_pool_kept.
  - intros own w live event (Hi & Hst & Hs) Hv. destruct (callback_told own state event (hw_sinks w) Hv) as (r & e' & Erun & Htold).
    exists r, (hw_set_sinks w e'), live. unfold h3_callback, h3_state_at. rewrite Hst, outcome_bind_Ret, Erun, outcome_bind_Ret.
    split; [done|]. split; [done|]. split; [|split; [done|by apply framed_refl, sized_dom]].
    split; [done|]. split; [done|]. split; [done|apply kept_refl].
Qed.

Lemma h3_native_run {A} (f : Http3Call N A) w live user state post :
  h3_ready w live -> hw_states w !! user = Some state -> answers memory user (hw_library w) f post ->
  exists a w' live', h3_native lib f w = Ret (a, w') /\ post a (hw_library w') /\ h3_used w live w' live' /\ asks state f w a w'.
Proof using PoolSource0.
  intros [R1 R2] Hst Hf.
  destruct (converse_run h3_request (h3_callback lib) user h3_event_ok (h3_inv user state) h3_step hw_sinks _ _ (f (hw_library w)) _ w live Hf (conj R1 (conj Hst R2)))
    as ([a n'] & w1 & live1 & own1 & trace & Erun & [-> Hpost] & (Hi1 & _ & Hs1) & (S1 & S2 & S3 & S4) & Hf1 & Hex & Hrep).
  exists a, (hw_set_library w1 n'), live1. unfold h3_native. rewrite Erun, outcome_bind_Ret. split; [done|]. split; [done|].
  split; [by split|]. by exists trace.
Qed.
End calls.
