(* ===== verification/Http3Client.v ===== *)
(** * Programs with HTTP/3 sessions

    The operations of a session against what the library answers, and programs that create,
    use, move and destroy sessions and reset the arena: every session owns its state and its
    connection, and all of the library's memory is that of sessions.  The programs keep the
    conditions nghttp3 puts on roles, streams and amounts ([call_permitted]); the adapter
    forwards them unchecked. *)
From S2P Require Import Prelude Contract CheckedArithmetic Identifiers MemoryBudget MemoryBudgetSpec BudgetInvariant Views BlockSource BoundedArena ArenaSpec.
From S2P Require Import NativeMemory NativeSpec Dependencies CodecPool Conversations Http3 Http3Spec.
From Stdlib Require Import ZArith Lia String Ascii.
From stdpp Require Import base numbers list gmap option fin_map_dom.

Set Default Goal Selector "!".
#[local] Open Scope Z_scope.

(** The operations on a session, and what they return. *)
Inductive http3_call :=
  | HBind (control encoder decoder : Z)
  | HReceive (stream : Z) (data : list Z) (fin : bool)
  | HOutput
  | HWritten (stream bytes : Z)
  | HAcknowledge (stream bytes : Z)
  | HRequest (stream : Z) (headers : list Http3Header)
  | HResponse (stream : Z) (headers : list Http3Header)
  | HClose (stream code : Z)
  | HShutdown.

Inductive http3_reply := RDone | RCount (bytes : Z) | ROutput (output : Http3Output).

(** A view shows at most as many bytes as a size can count. *)
Definition call_legal (call : http3_call) : Prop :=
  match call with HReceive _ data _ => Z.of_nat (length data) <= size_max | _ => True end.

(** What nghttp3 asks of a program that makes this call. *)
Definition call_permitted (v : Http3Connection) (call : http3_call) : Prop :=
  match call with
  | HBind control encoder decoder => permits v (NBindControl control) /\ permits (after_success (NBindControl control) v) (NBindQpack encoder decoder)
  | HReceive stream _ _ => permits v (NRead stream)
  | HOutput => permits v NWrite
  | HWritten stream bytes => permits v (NWriteOffset stream bytes)
  | HAcknowledge stream bytes => permits v (NAckOffset stream bytes)
  | HRequest stream _ => permits v (NRequest stream)
  | HResponse stream _ => permits v (NResponse stream)
  | HClose stream _ => permits v (NClose stream)
  | HShutdown => permits v NShutdown
  end.

Definition limits_ok (limits : Http3Limits) : Prop :=
  0 <= h3_maximum_field_section_bytes limits <= varint_max /\ 0 <= h3_qpack_table_capacity limits <= varint_max /\
  0 <= h3_qpack_blocked_streams limits <= varint_max.

Definition reply_of {A} (f : A -> http3_reply) (r : Result A) : Result http3_reply := match r with Ok a => Ok (f a) | Err e => Err e end.

Section sessions.
Context {N C L E : Type} {acquire : C * Memory -> Z -> Result MutableByteView * (C * Memory)}.
Context {reset : C * Memory -> Result unit * (C * Memory)} `{!PoolSource acquire reset}.
Context {lib : Nghttp3 N} {laws : Nghttp3Laws lib}.
Abbreviation World := (Http3World N C L E).
Abbreviation State := (Http3State L E).
Implicit Types (w : World) (live : gmap pointer (list Z)) (state : State) (owners : gmap pointer Z).
Abbreviation implements := (implements (acquire := acquire) (reset := reset)).
Abbreviation h3_ready := (h3_ready (acquire := acquire) (reset := reset)).
Abbreviation h3_used := (h3_used (acquire := acquire) (reset := reset)).

Definition call_session (this : Http3Session) (call : http3_call) w : outcome (Result http3_reply * World) :=
  match call with
  | HBind control encoder decoder =>
      '(r, w) ← Http3Session_bind_streams lib this control encoder decoder w; Ret (reply_of (fun _ => RDone) r, w)
  | HReceive stream data fin => '(r, w) ← Http3Session_receive lib this stream data fin w; Ret (reply_of RCount r, w)
  | HOutput => '(r, w) ← Http3Session_next_output lib this w; Ret (reply_of ROutput r, w)
  | HWritten stream bytes => '(r, w) ← Http3Session_mark_output_written lib this stream bytes w; Ret (reply_of (fun _ => RDone) r, w)
  | HAcknowledge stream bytes => '(r, w) ← Http3Session_acknowledge_stream_data lib this stream bytes w; Ret (reply_of (fun _ => RDone) r, w)
  | HRequest stream headers => '(r, w) ← Http3Session_submit_request lib this stream headers w; Ret (reply_of (fun _ => RDone) r, w)
  | HResponse stream headers => '(r, w) ← Http3Session_submit_response lib this stream headers w; Ret (reply_of (fun _ => RDone) r, w)
  | HClose stream code => '(r, w) ← Http3Session_close_stream lib this stream code w; Ret (reply_of (fun _ => RDone) r, w)
  | HShutdown => '(r, w) ← Http3Session_shutdown lib this w; Ret (reply_of (fun _ => RDone) r, w)
  end.

(** ** What an operation reports *)
Definition h3_error (operation : DependencyOperation) (code : Z) : Error :=
  normalize_dependency_error id_nghttp3 operation
    (if bool_decide (code = NGHTTP3_ERR_NOMEM lib) then status_exhaustion
     else if bool_decide (code = NGHTTP3_ERR_INVALID_ARGUMENT lib) then status_invalid_input else status_corrupt_data) code.

Lemma status_for_error operation code : normalize_dependency_error id_nghttp3 operation (h3_status_for lib code) code = h3_error operation code.
Proof. unfold h3_error, h3_status_for. f_equal. destruct (Z.eqb_spec code (NGHTTP3_ERR_NOMEM lib)); [by rewrite bool_decide_eq_true_2|].
  rewrite bool_decide_eq_false_2 by done. destruct (Z.eqb_spec code (NGHTTP3_ERR_INVALID_ARGUMENT lib)); [by rewrite bool_decide_eq_true_2|by rewrite bool_decide_eq_false_2]. Qed.

Definition unit_reply (operation : DependencyOperation) (result : Z) : Result http3_reply :=
  if result =? 0 then Ok RDone else Err (h3_error operation result).

(** The library runs [f] once and its result is the reply. *)
Definition asks_once state (f : Http3Call N Z) (operation : DependencyOperation) w (reply : Result http3_reply) w' : Prop :=
  exists r, asks (lib := lib) state f w r w' /\ reply = unit_reply operation r.

Definition submits state (submit : list nghttp3_nv -> Http3Call N Z) (headers : list Http3Header) w (reply : Result http3_reply) w' : Prop :=
  match submission_refusal headers (h3_maximum state) with
  | Some e => reply = Err e /\ w' = w
  | None => asks_once state (submit (map nv_of headers)) op_http3_submit w reply w'
  end.

(** The reply of an operation on a connection whose session is not terminal, and whether the
    session is terminal after it. *)
Definition call_outcome state (c : Z) (call : http3_call) w (reply : Result http3_reply) (terminal : bool) w' : Prop :=
  match call with
  | HBind control encoder decoder => terminal = false /\ exists r w1,
      asks (lib := lib) state (nghttp3_conn_bind_control_stream lib c control) w r w1 /\
      (r <> 0 -> hw_library w' = hw_library w1 /\ hw_sinks w' = hw_sinks w1 /\ reply = unit_reply op_http3_session r) /\
      (r = 0 -> asks_once state (nghttp3_conn_bind_qpack_streams lib c encoder decoder) op_http3_session w1 reply w')
  | HReceive stream data fin => exists r, asks (lib := lib) state (nghttp3_conn_read_stream2 lib c stream data (if fin then 1 else 0) 0) w r w' /\
      r <= Z.of_nat (length data) /\ terminal = (r <? 0) /\
      reply = if r <? 0 then Err (h3_error op_http3_receive (cast int32_t r)) else Ok (RCount r)
  | HOutput => exists count stream fin v,
      asks (lib := lib) state (nghttp3_conn_writev_stream lib c (-1) 0 empty_span) w (count, stream, fin, v) w' /\ terminal = (count <? 0) /\
      reply = if count <? 0 then Err (h3_error op_http3_send (cast int32_t count))
              else Ok (ROutput (MkHttp3Output stream (if count =? 0 then empty_span else v) (negb (fin =? 0))))
  | HWritten stream bytes => terminal = false /\ asks_once state (nghttp3_conn_add_write_offset lib c stream bytes) op_http3_send w reply w'
  | HAcknowledge stream bytes => terminal = false /\ asks_once state (nghttp3_conn_add_ack_offset lib c stream bytes) op_http3_send w reply w'
  | HRequest stream headers => terminal = false /\ submits state (nghttp3_conn_submit_request lib c stream) headers w reply w'
  | HResponse stream headers => terminal = false /\ submits state (nghttp3_conn_submit_response lib c stream) headers w reply w'
  | HClose stream code => terminal = false /\ asks_once state (nghttp3_conn_close_stream2 lib c
      (Z.lor (NGHTTP3_STREAM_CLOSE_FLAG_RX_APP_ERROR_CODE_SET lib) (NGHTTP3_STREAM_CLOSE_FLAG_TX_APP_ERROR_CODE_SET lib)) stream code code)
      op_http3_submit w reply w'
  | HShutdown => terminal = false /\ asks_once state (nghttp3_conn_shutdown lib c) op_http3_submit w reply w'
  end.

(** ** The world between operations *)
Definition active_session (s : PoolState C) (c : Z) (p : pointer) : Http3Session :=
  MkHttp3Session (Some c) (Some p) (Some (ba_address (ps_arena s))) (ba_generation (ps_arena s)) (MkArenaPin (Some (ba_address (ps_arena s)))).

(** [owners] are the connections of the sessions by the address of their state: the states and
    the blocks that are not the library's are those of the sessions, and so are the
    connections. *)
Record h3_resting w live owners : Prop := {
  hq_ready : h3_ready w live;
  hq_states : dom (hw_states w) = dom owners;
  hq_others : dom live ∖ dom (memory (hw_library w)) = dom owners;
  hq_connections : forall c p, users (hw_library w) !! c = Some p <-> owners !! p = Some c;
  hq_maximum : forall p state, hw_states w !! p = Some state -> 0 <= h3_maximum state <= size_max;
  hq_failed : forall c v state, connections (hw_library w) !! c = Some v -> hw_states w !! cn_user v = Some state ->
    cn_failed v = true -> h3_terminal state = true }.

Lemma users_lookup n c v : connections n !! c = Some v -> users n !! c = Some (cn_user v).
Proof. intros H. unfold users. by rewrite lookup_fmap, H. Qed.

Lemma users_insert n n' c v v' : connections n !! c = Some v -> cn_user v' = cn_user v -> connections n' = <[c := v']> (connections n) -> users n' = users n.
Proof. intros Hc Hu HE. unfold users. rewrite HE, fmap_insert, Hu. apply insert_id. by rewrite lookup_fmap, Hc. Qed.

(** A call on connection [c], and then the mark when the session becomes terminal: a connection
    that failed has a terminal session. *)
Definition marked w (p : pointer) state (terminal : bool) : World := if terminal then h3_set_terminal w p state else w.

Lemma resting_call w live w' live' owners c v v' state terminal l :
  h3_resting w live owners -> h3_used w live w' live' -> connections (hw_library w) !! c = Some v -> hw_states w !! cn_user v = Some state ->
  connections (hw_library w') = <[c := v']> (connections (hw_library w)) -> cn_user v' = cn_user v ->
  (cn_failed v' = true -> terminal = true \/ cn_failed v = true) ->
  h3_resting (hw_set_log (marked w' (cn_user v) state terminal) l) live' owners.
Proof.
  intros [H1 H2 H3 H4 H5 H6] [U1 U2 U3 U4 U5] Hc Hp HC Hu Hf. pose proof (users_insert _ _ _ _ _ Hc Hu HC) as HU.
  assert (Hlib : hw_library (marked w' (cn_user v) state terminal) = hw_library w') by (by destruct terminal).
  assert (Hstates : hw_states (marked w' (cn_user v) state terminal) = if terminal
    then <[cn_user v := MkHttp3State (h3_events state) (h3_log state) (h3_maximum state) true]> (hw_states w) else hw_states w)
    by (destruct terminal; cbn; by rewrite U1).
  assert (Hpool : hw_pool (marked w' (cn_user v) state terminal) = hw_pool w') by (by destruct terminal).
  destruct U3 as [U3 U3'].
  split; cbn [hw_set_log hw_library hw_states]; rewrite ?Hlib, ?Hstates, ?HU.
  - split; cbn [hw_set_log hw_library hw_pool]; by rewrite ?Hlib, ?Hpool.
  - destruct terminal; [|done]. rewrite dom_insert_lookup_L by (by exists state). done.
  - by rewrite (fr_blocks _ _ _ _ U5).
  - done.
  - intros q st Hq. destruct terminal; [|by apply (H5 q)].
    apply lookup_insert_Some in Hq as [[<- <-]|[Hne Hq]]; [by apply (H5 (cn_user v) state)|by apply (H5 q)].
  - intros d v2 st. rewrite HC. intros [[<- <-]|[Hne Hd]]%lookup_insert_Some Hst Hfail.
    + rewrite Hu in Hst. destruct terminal; [by rewrite lookup_insert_eq in Hst; injection Hst as <-|].
      destruct (Hf Hfail) as [?|Hold]; [done|]. by apply (H6 c v).
    + assert (cn_user v2 <> cn_user v) as Hne2.
      { intros E2. apply users_lookup in Hd, Hc. rewrite E2 in Hd. apply H4 in Hd, Hc. congruence. }
      apply (H6 d v2); [done| |done]. destruct terminal; [|done]. by rewrite lookup_insert_ne in Hst.
Qed.

(** What an operation leaves: the states but for the mark, the log with the error. *)
Record call_effect w live owners (p : pointer) state (reply : Result http3_reply) (terminal : bool) w' live' : Prop := {
  ce_resting : h3_resting w' live' owners;
  ce_shifted : shifted (hw_pool w) (hw_pool w') 0;
  ce_states : hw_states w' = if terminal
    then <[p := MkHttp3State (h3_events state) (h3_log state) (h3_maximum state) true]> (hw_states w) else hw_states w;
  ce_log : hw_log w' = match reply with Err e => log_dependency_error (h3_log state) (hw_log w) e | Ok _ => hw_log w end }.

Lemma used_effect w live owners c v v' p state reply terminal w1 live1 :
  h3_resting w live owners -> hw_states w !! p = Some state -> h3_used w live w1 live1 ->
  connections (hw_library w) !! c = Some v -> cn_user v = p -> connections (hw_library w1) = <[c := v']> (connections (hw_library w)) ->
  cn_user v' = cn_user v -> (cn_failed v' = true -> terminal = true \/ cn_failed v = true) ->
  call_effect w live owners p state reply terminal
    (hw_set_log (marked w1 p state terminal) (match reply with Err e => log_dependency_error (h3_log state) (hw_log w1) e | Ok _ => hw_log w1 end)) live1.
Proof.
  intros Hr Hp Hu Hc <- HC Huser Hfail. pose proof (hu_states _ _ _ _ Hu) as Hst.
  split; [by eapply resting_call|destruct terminal; apply kept_shifted, Hu| |].
  - destruct terminal; cbn; by rewrite Hst.
  - destruct terminal; cbn; by rewrite (hu_log _ _ _ _ Hu).
Qed.

Lemma set_same_log w : hw_set_log w (hw_log w) = w.
Proof. by destruct w. Qed.

Lemma valid_run {A} w s live owners c p state (k : Z -> pointer -> State -> outcome (Result A * World)) :
  h3_resting w live owners -> ba_generation (ps_arena s) = ba_generation (hw_arena w) -> hw_states w !! p = Some state ->
  h3_require_valid (active_session s c p) w k = if h3_terminal state then Ret (Err h3_inactive_error, w) else k c p state.
Proof.
  intros Hr Hg Hp. unfold h3_require_valid, h3_parts. cbn [active_session ss_connection ss_state ss_arena ss_generation].
  rewrite Hg, Z.eqb_refl. cbn [negb]. unfold h3_state_at. rewrite Hp, !outcome_bind_Ret. by destruct (h3_terminal state).
Qed.

(** One call of the library whose result is the reply. *)
Lemma checked_run (f : Http3Call N Z) call operation w live owners c v p state :
  h3_resting w live owners -> hw_states w !! p = Some state ->
  connections (hw_library w) !! c = Some v -> cn_user v = p -> cn_failed v = false -> permits v call ->
  answers_on connections memory (hw_library w) c f call (after_call lib call) (fun _ => True) ->
  exists reply w' live', (x ← h3_native lib f w; '(r, w) ← h3_checked lib operation state x; Ret (reply_of (fun _ => RDone) r, w)) = Ret (reply, w') /\
    asks_once state f operation w reply w' /\ call_effect w live owners p state reply false w' live'.
Proof.
  intros Hr Hp Hc Hu Hf Hpermit Hlaw. specialize (Hlaw v Hc Hf Hpermit). rewrite Hu in Hlaw.
  destruct (h3_native_run f w live p state _ (hq_ready _ _ _ Hr) Hp Hlaw) as (r & w1 & live1 & -> & [HC _] & Hused & Ha).
  rewrite outcome_bind_Ret. unfold h3_checked. destruct (after_call_kept lib call v r) as [K1 K2].
  pose proof (used_effect w live owners c v _ p state (unit_reply operation r) false w1 live1 Hr Hp Hused Hc Hu HC K1 ltac:(rewrite K2; auto)) as He.
  destruct (Z.eqb_spec r 0) as [->|Hne]; cbn [negb].
  - exists (Ok RDone), w1, live1. rewrite outcome_bind_Ret. split; [done|]. split; [by exists 0|]. cbn in He. by rewrite set_same_log in He.
  - unfold h3_native_error. rewrite status_for_error, outcome_bind_Ret. eexists _, _, live1. split; [done|].
    unfold unit_reply in He. rewrite (proj2 (Z.eqb_neq r 0) Hne) in He. split; [|exact He].
    exists r. split; [done|]. unfold unit_reply. by rewrite (proj2 (Z.eqb_neq r 0) Hne).
Qed.

(** ** Operations on an active session *)
Section active.
Context (w : World) (live : gmap pointer (list Z)) (owners : gmap pointer Z) (s : PoolState C) (c : Z) (p : pointer) (state : State) (v : Http3Connection).
Hypothesis (Hr : h3_resting w live owners) (Hg : ba_generation (ps_arena s) = ba_generation (hw_arena w)).
Hypothesis (Hp : hw_states w !! p = Some state) (Ht : h3_terminal state = false).
Hypothesis (Hc : connections (hw_library w) !! c = Some v) (Hu : cn_user v = p).

Definition call_runs (call : http3_call) : Prop :=
  exists reply terminal w' live', call_session (active_session s c p) call w = Ret (reply, w') /\
    call_outcome state c call w reply terminal w' /\ call_effect w live owners p state reply terminal w' live'.

(** The adapter has not used the connection since a failure. *)
Lemma not_failed : cn_failed v = false.
Proof using Hr Hp Ht Hc Hu.
  destruct (cn_failed v) eqn:Hf; [|done]. rewrite (hq_failed _ _ _ Hr c v state Hc ltac:(by rewrite Hu) Hf) in Ht. done.
Qed.

Lemma bind_runs control encoder decoder : call_permitted v (HBind control encoder decoder) -> call_runs (HBind control encoder decoder).
Proof using All.
  intros [Hpc Hpq]. unfold call_runs. cbn [call_session call_outcome]. unfold Http3Session_bind_streams. rewrite (valid_run _ _ _ _ _ _ _ _ Hr Hg Hp), Ht.
  pose proof (law_bind_control (hw_library w) c control v Hc not_failed Hpc) as Hlaw. rewrite Hu in Hlaw.
  destruct (h3_native_run (nghttp3_conn_bind_control_stream lib c control) w live p state _ (hq_ready _ _ _ Hr) Hp Hlaw)
    as (r & w1 & live1 & -> & [HC _] & Hused & Ha). rewrite !outcome_bind_Ret.
  pose proof (hu_states _ _ _ _ Hused) as Hst. destruct (after_call_kept lib (NBindControl control) v r) as [K1 K2].
  destruct (Z.eqb_spec r 0) as [->|Hne].
  - pose proof (resting_call w live w1 live1 owners c v _ state false (hw_log w1) Hr Hused Hc ltac:(by rewrite Hu) HC K1 ltac:(rewrite K2; auto)) as Hr1.
    cbn [marked] in Hr1. rewrite set_same_log in Hr1.
    assert (Hc1 : connections (hw_library w1) !! c = Some (after_success (NBindControl control) v)) by (rewrite HC; apply lookup_insert_eq).
    destruct (checked_run (nghttp3_conn_bind_qpack_streams lib c encoder decoder) (NBindQpack encoder decoder) op_http3_session w1 live1 owners c _ p state Hr1 ltac:(by rewrite Hst) Hc1
      Hu not_failed Hpq (law_bind_qpack _ _ _ _)) as (reply & w2 & live2 & E2 & Ha2 & He2).
    exists reply, false, w2, live2. rewrite outcome_bind_assoc. split; [exact E2|]. split; [split; [done|]; by exists 0, w1|].
    destruct He2 as [E1 E2' E3 E4]. split; [done|exact (shifted_trans _ _ _ _ _ (kept_shifted _ _ (hu_kept _ _ _ _ Hused)) E2')|by rewrite E3|by rewrite E4, (hu_log _ _ _ _ Hused)].
  - rewrite outcome_bind_Ret. unfold h3_checked. rewrite (proj2 (Z.eqb_neq r 0) Hne). cbn [negb]. unfold h3_native_error. rewrite status_for_error, outcome_bind_Ret.
    eexists _, false, _, live1. split; [done|]. split; [|exact (used_effect w live owners c v _ p state (Err _) false w1 live1 Hr Hp Hused Hc Hu HC K1 ltac:(rewrite K2; auto))].
    split; [done|]. exists r, w1. split; [done|]. split; [|done]. intros _. split; [done|]. split; [done|].
    unfold unit_reply. by rewrite (proj2 (Z.eqb_neq r 0) Hne).
Qed.

Lemma receive_runs stream data fin : Z.of_nat (length data) <= size_max -> permits v (NRead stream) -> call_runs (HReceive stream data fin).
Proof using All.
  intros Hlen Hpermit. unfold call_runs. cbn [call_session call_outcome]. unfold Http3Session_receive. rewrite (valid_run _ _ _ _ _ _ _ _ Hr Hg Hp), Ht.
  pose proof (law_read (hw_library w) c stream data (if fin then 1 else 0) 0 v Hc not_failed Hpermit) as Hlaw. rewrite Hu in Hlaw.
  destruct (h3_native_run (nghttp3_conn_read_stream2 lib c stream data (if fin then 1 else 0) 0) w live p state _ (hq_ready _ _ _ Hr) Hp Hlaw)
    as (r & w1 & live1 & -> & [HC Hle] & Hused & Ha). rewrite outcome_bind_Ret. destruct (after_read_kept stream (if fin then 1 else 0) v r) as [K1 K2].
  pose proof (fun reply => used_effect w live owners c v _ p state reply (r <? 0) w1 live1 Hr Hp Hused Hc Hu HC K1
    ltac:(rewrite K2; intros [->|?]%orb_true_iff; auto)) as He.
  destruct (Z.ltb_spec r 0) as [Hneg|Hpos].
  - unfold h3_native_error. rewrite status_for_error, outcome_bind_Ret. eexists _, true, _, live1. split; [done|].
    split; [|exact (He (Err _))]. exists r. rewrite (proj2 (Z.ltb_lt r 0) Hneg). done.
  - rewrite outcome_bind_Ret. eexists _, false, _, live1. split; [done|]. specialize (He (Ok (RCount r))). cbn in He. rewrite set_same_log in He.
    replace (cast size_t r) with r by (symmetry; apply cast_in_range; [done|unfold size_max, u64_max in *; cbn; lia]).
    split; [|exact He]. exists r. rewrite (proj2 (Z.ltb_ge r 0) Hpos). done.
Qed.

Lemma output_runs : permits v NWrite -> call_runs HOutput.
Proof using All.
  intros Hpermit. unfold call_runs. cbn [call_session call_outcome]. unfold Http3Session_next_output. rewrite (valid_run _ _ _ _ _ _ _ _ Hr Hg Hp), Ht.
  pose proof (law_write (hw_library w) c v Hc not_failed Hpermit) as Hlaw. rewrite Hu in Hlaw.
  destruct (h3_native_run (nghttp3_conn_writev_stream lib c (-1) 0 empty_span) w live p state _ (hq_ready _ _ _ Hr) Hp Hlaw)
    as ([[[count stream] fin] vector] & w1 & live1 & -> & [HC Hv] & Hused & Ha). rewrite outcome_bind_Ret.
  destruct (after_write_kept v count stream fin vector) as [K1 K2].
  pose proof (fun reply => used_effect w live owners c v _ p state reply (count <? 0) w1 live1 Hr Hp Hused Hc Hu HC K1
    ltac:(rewrite K2; intros [->|?]%orb_true_iff; auto)) as He.
  destruct (Z.ltb_spec count 0) as [Hneg|Hpos].
  - unfold h3_native_error. rewrite status_for_error, outcome_bind_Ret. eexists _, true, _, live1. split; [done|].
    split; [|exact (He (Err _))]. exists count, stream, fin, vector. rewrite (proj2 (Z.ltb_lt count 0) Hneg). done.
  - pose proof (fun o => He (Ok (ROutput o))) as Ho. cbn in Ho. rewrite set_same_log in Ho.
    destruct (Z.eqb_spec count 0) as [->|Hne].
    + rewrite outcome_bind_Ret. eexists _, false, _, live1. split; [done|]. split; [|apply Ho]. by exists 0, stream, fin, vector.
    + rewrite view_of_ok, !outcome_bind_Ret by (apply Hv; lia). eexists _, false, _, live1. split; [done|]. split; [|apply Ho].
      exists count, stream, fin, vector. rewrite (proj2 (Z.ltb_ge count 0) Hpos), (proj2 (Z.eqb_neq count 0) Hne). done.
Qed.

(** The operations that make one call and check its result. *)
Lemma once_runs (f : Z -> Http3Call N Z) call operation : permits v call ->
  answers_on connections memory (hw_library w) c (f c) call (after_call lib call) (fun _ => True) ->
  exists reply w' live',
    ('(r, w') ← h3_require_valid (active_session s c p) w (fun connection _ state => x ← h3_native lib (f connection) w; h3_checked lib operation state x);
     Ret (reply_of (fun _ => RDone) r, w')) = Ret (reply, w') /\
    asks_once state (f c) operation w reply w' /\ call_effect w live owners p state reply false w' live'.
Proof using All.
  intros Hpermit Hf. destruct (checked_run (f c) call operation w live owners c v p state Hr Hp Hc Hu not_failed Hpermit Hf) as (reply & w' & live' & Erun & Ha & He).
  exists reply, w', live'. rewrite (valid_run _ _ _ _ _ _ _ _ Hr Hg Hp), Ht, outcome_bind_assoc. done.
Qed.

Lemma submit_runs submit call stream headers : permits v call ->
  (forall fields, answers_on connections memory (hw_library w) c (submit c stream fields) call (after_call lib call) (fun _ => True)) ->
  exists reply w' live',
    ('(r, w') ← h3_submit lib submit (active_session s c p) stream headers w; Ret (reply_of (fun _ => RDone) r, w')) = Ret (reply, w') /\
    submits state (submit c stream) headers w reply w' /\ call_effect w live owners p state reply false w' live'.
Proof using All.
  intros Hpermit Hf. unfold h3_submit. rewrite (valid_run _ _ _ _ _ _ _ _ Hr Hg Hp), Ht. unfold submits.
  destruct (native_headers_run headers (h3_maximum state) (hq_maximum _ _ _ Hr p state Hp)) as (r & -> & Hres). rewrite outcome_bind_Ret.
  destruct (submission_refusal headers (h3_maximum state)) as [e|] eqn:Hs.
  - subst r. rewrite outcome_bind_Ret. exists (Err e), w, live. split; [done|]. split; [done|].
    split; [done|apply kept_shifted, kept_refl|done|]. unfold submission_refusal in Hs. destruct (bool_decide _); [destruct (decide _); [done|]|]; injection Hs as <-.
    + unfold log_dependency_error. by destruct (sink_write _).
    + unfold log_dependency_error. by destruct (sink_write _).
  - destruct Hres as (native & -> & Hn). rewrite Hn.
    destruct (checked_run (submit c stream (map nv_of headers)) call op_http3_submit w live owners c v p state Hr Hp Hc Hu not_failed Hpermit (Hf _)) as (reply & w' & live' & Erun & Ha & He).
    exists reply, w', live'. rewrite outcome_bind_assoc. done.
Qed.

Lemma call_active call : call_legal call -> call_permitted v call -> call_runs call.
Proof using All.
  intros Hl Hpermit. destruct call as [control encoder decoder|stream data fin| |stream bytes|stream bytes|stream headers|stream headers|stream code|]; cbn [call_permitted] in Hpermit.
  - by apply bind_runs.
  - by apply receive_runs.
  - by apply output_runs.
  - destruct (once_runs (fun c => nghttp3_conn_add_write_offset lib c stream bytes) _ op_http3_send Hpermit (law_write_offset _ _ stream bytes)) as (reply & w' & live' & ? & ? & ?). by exists reply, false, w', live'.
  - destruct (once_runs (fun c => nghttp3_conn_add_ack_offset lib c stream bytes) _ op_http3_send Hpermit (law_ack_offset _ _ stream bytes)) as (reply & w' & live' & ? & ? & ?). by exists reply, false, w', live'.
  - destruct (submit_runs (nghttp3_conn_submit_request lib) _ stream headers Hpermit (fun fields => law_request _ _ stream fields)) as (reply & w' & live' & ? & ? & ?).
    by exists reply, false, w', live'.
  - destruct (submit_runs (nghttp3_conn_submit_response lib) _ stream headers Hpermit (fun fields => law_response _ _ stream fields)) as (reply & w' & live' & ? & ? & ?).
    by exists reply, false, w', live'.
  - destruct (once_runs (fun c => nghttp3_conn_close_stream2 lib c (Z.lor (NGHTTP3_STREAM_CLOSE_FLAG_RX_APP_ERROR_CODE_SET lib)
      (NGHTTP3_STREAM_CLOSE_FLAG_TX_APP_ERROR_CODE_SET lib)) stream code code) _ op_http3_submit Hpermit (law_close _ _ _ stream code code)) as (reply & w' & live' & ? & ? & ?). by exists reply, false, w', live'.
  - destruct (once_runs (fun c => nghttp3_conn_shutdown lib c) _ op_http3_submit Hpermit (law_shutdown _ _)) as (reply & w' & live' & ? & ? & ?). by exists reply, false, w', live'.
Qed.
End active.

Lemma call_terminal w s live owners c p state call : h3_resting w live owners -> ba_generation (ps_arena s) = ba_generation (hw_arena w) ->
  hw_states w !! p = Some state -> h3_terminal state = true -> call_session (active_session s c p) call w = Ret (Err h3_inactive_error, w).
Proof.
  intros Hr Hg Hp Ht. destruct call; cbn [call_session]; unfold Http3Session_bind_streams, Http3Session_receive, Http3Session_next_output,
    Http3Session_mark_output_written, Http3Session_acknowledge_stream_data, Http3Session_submit_request, Http3Session_submit_response, h3_submit,
    Http3Session_close_stream, Http3Session_shutdown; by rewrite (valid_run _ _ _ _ _ _ _ _ Hr Hg Hp), Ht.
Qed.

Lemma call_empty call w : call_session empty_session call w = Ret (Err h3_inactive_error, w).
Proof. by destruct call. Qed.

(** ** Creation *)
Lemma h3_free_run w live p : h3_ready w live -> p ∈ dom live -> p ∉ dom (memory (hw_library w)) ->
  exists w', h3_free_state w p = Ret w' /\ h3_ready w' (delete p live) /\ hw_states w' = delete p (hw_states w) /\
    hw_library w' = hw_library w /\ kept (hw_pool w) (hw_pool w').
Proof.
  intros [[free HI] Hs] [old Hl]%elem_of_dom Hm. unfold h3_free_state.
  change (hw_pool (hw_set_states w (delete p (hw_states w)))) with (hw_pool w).
  destruct (free_run (hw_pool w) live free p old HI Hl) as (s' & Erun & HI'). rewrite Erun, outcome_bind_Ret. eexists. split; [done|].
  split; [|split; [done|split; [done|by eapply arena_free_kept]]]. split; [by eexists|]. cbn.
  apply (sized_outside _ live); [done|]. intros q Hq. rewrite lookup_delete_ne; [done|]. by intros ->.
Qed.

Lemma h3_unpin_run w live a : h3_ready w live -> 1 <= ba_live_pins (hw_arena w) ->
  exists arena, ArenaPin_release (hw_arena w) (MkArenaPin (Some a)) = Ret (arena, MkArenaPin None) /\
    h3_ready (hw_set_arena w arena) live /\ shifted (hw_pool w) (hw_pool (hw_set_arena w arena)) (-1).
Proof.
  intros [Hi Hs] Hp. destruct (unpin_run (hw_pool w) live a Hi Hp) as (arena & Erun & Hi' & Hsh). exists arena. split; [exact Erun|]. split; [by split|exact Hsh].
Qed.

Lemma h3_abandon_run w live a e : h3_ready w live -> 1 <= ba_live_pins (hw_arena w) ->
  exists w', h3_abandon (MkArenaPin (Some a)) e w = Ret (Err e, w') /\ h3_ready w' live /\ shifted (hw_pool w) (hw_pool w') (-1) /\
    hw_states w' = hw_states w /\ hw_library w' = hw_library w.
Proof.
  intros Hr Hp. destruct (h3_unpin_run w live a Hr Hp) as (arena & Erun & Hr' & Hsh). exists (hw_set_arena w arena).
  unfold h3_abandon, ArenaPin_destroy. by rewrite Erun, !outcome_bind_Ret.
Qed.

(** Nothing but pins, the log and the library's own memory changed. *)
Lemma resting_unchanged w live w' live' owners : h3_resting w live owners -> h3_ready w' live' -> hw_states w' = hw_states w ->
  connections (hw_library w') = connections (hw_library w) ->
  dom live' ∖ dom (memory (hw_library w')) = dom live ∖ dom (memory (hw_library w)) -> h3_resting w' live' owners.
Proof.
  intros [H1 H2 H3 H4 H5 H6] Hr Hst HC Ho. split; [done|by rewrite Hst|by rewrite Ho|unfold users; by rewrite HC|by rewrite Hst|by rewrite HC, Hst].
Qed.

Lemma resting_created w live owners w' live' p c server state : h3_resting w live owners -> owners !! p = None ->
  h3_ready w' live' -> hw_states w' = <[p := state]> (hw_states w) -> 0 <= h3_maximum state <= size_max ->
  connections (hw_library w) !! c = None -> connections (hw_library w') = <[c := new_connection p server]> (connections (hw_library w)) ->
  dom live' ∖ dom (memory (hw_library w')) = {[p]} ∪ (dom live ∖ dom (memory (hw_library w))) -> h3_resting w' live' (<[p := c]> owners).
Proof.
  intros [H1 H2 H3 H4 H5 H6] Hp Hr Hst Hmax Hc HC Ho. split; [done|by rewrite Hst, !dom_insert_L, H2|by rewrite Ho, dom_insert_L, H3| | |].
  - assert (HU : users (hw_library w') = <[c := p]> (users (hw_library w))) by (unfold users; by rewrite HC, fmap_insert).
    assert (Hcu : users (hw_library w) !! c = None) by (unfold users; by rewrite lookup_fmap, Hc).
    intros d q. rewrite HU. split.
    + intros [[<- <-]|[Hne Hd]]%lookup_insert_Some; [by rewrite lookup_insert_eq|]. apply H4 in Hd.
      rewrite lookup_insert_ne; [done|]. congruence.
    + intros [[<- <-]|[Hne Hd]]%lookup_insert_Some; [by rewrite lookup_insert_eq|]. apply H4 in Hd.
      rewrite lookup_insert_ne; [done|]. congruence.
  - intros q st. rewrite Hst. intros [[<- <-]|[Hne Hq]]%lookup_insert_Some; [done|by apply (H5 q)].
  - intros d v st. rewrite HC, Hst. intros [[<- <-]|[Hne Hd]]%lookup_insert_Some; [done|].
    intros [[Eq _]|[_ Hq]]%lookup_insert_Some Hf; [|by apply (H6 d v)]. apply users_lookup, H4 in Hd. congruence.
Qed.

Definition is_server (role : Http3Role) : bool := match role with http3_client => false | _ => true end.

(** Success leaves one state, one connection and one pin more; failure nothing. *)
Definition creation w owners (role : Http3Role) (limits : Http3Limits) events log_sink (r : Result Http3Session) w' live' : Prop :=
  match r with
  | Err _ => h3_resting w' live' owners /\ shifted (hw_pool w) (hw_pool w') 0 /\ hw_states w' = hw_states w /\
      connections (hw_library w') = connections (hw_library w)
  | Ok t => exists p c, owners !! p = None /\ t = active_session (hw_pool w) c p /\ h3_resting w' live' (<[p := c]> owners) /\
      shifted (hw_pool w) (hw_pool w') 1 /\ connections (hw_library w') = <[c := new_connection p (is_server role)]> (connections (hw_library w)) /\
      hw_states w' = <[p := MkHttp3State events log_sink (h3_maximum_field_section_bytes limits) false]> (hw_states w)
  end.

Definition connects (role : Http3Role) (limits : Http3Limits) (p : pointer) : Http3Call N (Z * option Z) :=
  match role with
  | http3_client => nghttp3_conn_client_new lib (h3_settings lib limits) p
  | _ => nghttp3_conn_server_new lib (h3_settings lib limits) p
  end.

(** From the storage of the state on. *)
Lemma connect_run role limits events log_sink w live owners w1 bytes p :
  h3_resting w live owners -> limits_ok limits ->
  live !! p = None -> implements (hw_pool w1) (<[p := bytes]> live) -> hw_library w1 = hw_library w -> hw_states w1 = hw_states w ->
  shifted (hw_pool w) (hw_pool w1) 1 -> 1 <= ba_live_pins (hw_arena w1) ->
  let state := MkHttp3State events log_sink (h3_maximum_field_section_bytes limits) false in
  exists r w' live',
    ('(result, connection, w) ← h3_native lib (connects role limits p) (hw_set_states w1 (<[p := state]> (hw_states w1)));
     if negb (result =? 0) then
       w ← h3_free_state w p;
       let '(e, w) := h3_native_error lib op_http3_session result log_sink w in
       h3_abandon (MkArenaPin (Some (ba_address (hw_arena w1)))) e w
     else Ret (Ok (MkHttp3Session connection (Some p) (Some (ba_address (hw_arena w))) (ba_generation (hw_arena w)) (MkArenaPin (Some (ba_address (hw_arena w1))))), w))
      = Ret (r, w') /\ creation w owners role limits events log_sink r w' live'.
Proof.
  intros Hr Hmax Hp Hi Hlib Hst Hsh Hpins. cbn zeta. set (state := MkHttp3State _ _ _ _). set (w2 := hw_set_states w1 _).
  pose proof (sized_fresh _ _ _ (hr_sized _ _ (hq_ready _ _ _ Hr)) Hp) as Hpm. apply not_elem_of_dom in Hpm.
  assert (Hready : h3_ready w2 (<[p := bytes]> live)).
  { split; [exact Hi|]. cbn. rewrite Hlib. apply (sized_outside _ live); [apply Hr|]. intros q Hq. rewrite lookup_insert_ne; [done|]. by intros ->. }
  assert (Hlib2 : hw_library w2 = hw_library w) by exact Hlib.
  assert (Hown : owners !! p = None). { apply not_elem_of_dom. rewrite <- (hq_others _ _ _ Hr). apply not_elem_of_dom in Hp. set_solver. }
  assert (Hnone : hw_states w !! p = None) by (apply not_elem_of_dom; rewrite (hq_states _ _ _ Hr); by apply not_elem_of_dom).
  assert (Hset : settings_ok (h3_settings lib limits)) by (destruct Hmax as (M1 & M2 & M3); unfold settings_ok; cbn; auto).
  assert (Hlaw : answers memory p (hw_library w2) (connects role limits p) (fun r n' =>
    if fst r =? 0 then exists c, snd r = Some c /\ connections (hw_library w2) !! c = None /\
      connections n' = <[c := new_connection p (is_server role)]> (connections (hw_library w2))
    else connections n' = connections (hw_library w2))) by (destruct role; [by apply law_client_new|by apply law_server_new..]).
  destruct (h3_native_run _ w2 _ p state _ Hready ltac:(cbn; apply lookup_insert_eq) Hlaw) as ([result connection] & w3 & live3 & -> & Hpost & Hu & _).
  rewrite outcome_bind_Ret. cbn [fst snd] in Hpost. rewrite Hlib2 in Hpost. destruct Hu as [U1 U2 U3 U4 U5]. rewrite Hlib2 in U5.
  pose proof (shifted_kept _ _ _ _ Hsh U4) as Hsh3. pose proof (fr_blocks _ _ _ _ U5) as Hblocks.
  assert (Ho : dom live3 ∖ dom (memory (hw_library w3)) = {[p]} ∪ (dom live ∖ dom (memory (hw_library w)))).
  { rewrite Hblocks, dom_insert_L. set_solver. }
  assert (Hst3 : hw_states w3 = <[p := state]> (hw_states w)) by (rewrite U1; cbn; by rewrite Hst).
  pose proof Hsh as [S1 S2 S3]. pose proof Hsh3 as [T1 T2 T3]. unfold hw_arena in *.
  destruct (Z.eqb_spec result 0) as [->|Hne]; cbn [negb].
  - destruct Hpost as (c & -> & Hc & HC). eexists _, w3, live3. split; [done|]. exists p, c. split; [done|].
    split; [unfold active_session; by rewrite T1, T2, S2|]. split; [|done]. eapply resting_created; try done. cbn. unfold limits_ok, varint_max, size_max, u64_max in *. lia.
  - destruct (h3_free_run w3 live3 p U3) as (w4 & -> & R4 & St4 & L4 & K4); [set_solver|set_solver|]. rewrite outcome_bind_Ret.
    unfold h3_native_error. set (w5 := hw_set_log _ _). pose proof (shifted_kept _ _ _ _ Hsh3 K4) as Hsh4.
    destruct (h3_abandon_run w5 (delete p live3) (ba_address (ps_arena (hw_pool w1))) (normalize_dependency_error id_nghttp3 op_http3_session (h3_status_for lib result) result))
      as (w6 & -> & R6 & Hsh6 & St6 & L6).
    { destruct R4 as [? ?]. by split. }
    { destruct Hsh4 as [_ _ V3]. unfold w5, hw_arena. cbn. lia. }
    eexists _, w6, (delete p live3). split; [done|]. assert (Hst6 : hw_states w6 = hw_states w).
    { rewrite St6. cbn. by rewrite St4, Hst3, delete_insert_id. }
    assert (HC6 : connections (hw_library w6) = connections (hw_library w)) by (rewrite L6; cbn; by rewrite L4).
    split; [|split; [replace 0 with (1 + -1) by lia; by eapply shifted_trans|done]].
    apply (resting_unchanged w live); try done. rewrite L6. change (hw_library w5) with (hw_library w4). rewrite L4, dom_delete_L.
    apply not_elem_of_dom in Hp. set_solver.
Qed.

Lemma session_create_run role limits events log_sink w live owners : h3_resting w live owners -> limits_ok limits ->
  exists r w' live', Http3Session_create lib role limits events log_sink w = Ret (r, w') /\ creation w owners role limits events log_sink r w' live' /\
    (h3_limits_invalid role limits = true -> r = Err h3_limits_error /\ w' = w).
Proof.
  intros Hr Hmax. unfold Http3Session_create. destruct (h3_limits_invalid role limits).
  { eexists _, w, live. split; [done|]. split; [|done]. split; [done|]. split; [apply kept_shifted, kept_refl|done]. }
  pose proof (hq_ready _ _ _ Hr) as [Hi Hs]. pose proof (pin_run (hw_pool w) live Hi) as Hpin. cbn zeta.
  change (hw_arena (hw_set_pool w (synchronize (hw_pool w)))) with (ps_arena (synchronize (hw_pool w))).
  change (hw_pool (hw_set_pool w (synchronize (hw_pool w)))) with (synchronize (hw_pool w)).
  destruct (BoundedArena_pin _ _) as [pin arena]. destruct Hpin as [Hi1 Hpin]. set (w1 := hw_set_arena _ arena).
  change (with_arena (synchronize (hw_pool w)) arena) with (hw_pool w1) in *.
  assert (Hr1 : h3_ready w1 live) by (by split).
  destruct pin as [pin|e].
  2:{ eexists _, w1, live. split; [done|]. split; [|done]. split; [|done]. by apply (resting_unchanged w live). }
  destruct Hpin as [-> Hsh]. pose proof (implements_counts _ _ Hi) as [Hpins _]. pose proof Hsh as [S1 S2 S3]. destruct Hi1 as [free HI].
  destruct (malloc_ok (hw_pool w1) live free sizeof_Http3State HI ltac:(unfold is_size, sizeof_Http3State, size_max, u64_max; lia)) as (storage & s' & free' & Em & Hres).
  rewrite Em, outcome_bind_Ret. apply arena_malloc_kept in Em. pose proof (shifted_kept _ _ _ _ Hsh Em) as Hsh2. pose proof Hsh2 as [T1 T2 T3].
  destruct storage as [p|].
  - destruct Hres as (Hp & bytes & _ & HI'). cbn zeta.
    destruct (connect_run role limits events log_sink w live owners (hw_set_pool w1 s') bytes p Hr Hmax Hp) as (r & w' & live' & Erun & Hcr); try done.
    { by eexists. }
    { unfold hw_arena. cbn. lia. }
    exists r, w', live'. unfold hw_arena in Erun. cbn [hw_set_pool hw_pool] in Erun. rewrite T2 in Erun. split; [exact Erun|]. done.
  - destruct (h3_abandon_run (hw_set_pool w1 s') live (ba_address (ps_arena (hw_pool w))) h3_storage_error) as (w2 & -> & R2 & Hsh3 & St2 & L2).
    { split; [by eexists|done]. }
    { unfold hw_arena. cbn. lia. }
    eexists _, w2, live. split; [done|]. split; [|done]. split; [apply (resting_unchanged w live); [done|done|done|by rewrite L2|by rewrite L2]|].
    split; [replace 0 with (1 + -1) by lia; by eapply shifted_trans|]. split; [done|by rewrite L2].
Qed.

Lemma owner_connection w live owners p c : h3_resting w live owners -> owners !! p = Some c ->
  exists v, connections (hw_library w) !! c = Some v /\ cn_user v = p.
Proof.
  intros Hr Hp. apply (hq_connections _ _ _ Hr) in Hp. unfold users in Hp. rewrite lookup_fmap in Hp.
  destruct (connections (hw_library w) !! c) as [v|]; [|done]. injection Hp as Hp. by exists v.
Qed.

(** ** Release and moves *)
Lemma release_empty_session w : Http3Session_release lib empty_session w = Ret (empty_session, w).
Proof. unfold Http3Session_release. cbn. unfold hw_set_arena, hw_set_pool, hw_arena. by destruct w as [? [] ? ? ?]. Qed.

Lemma move_from_empty_session w (t : Http3Session) : Http3Session_move_from empty_session t w = Ret (t, empty_session, w).
Proof.
  unfold Http3Session_move_from. cbn. unfold hw_set_arena, hw_set_pool, hw_arena. by destruct w as [? [] ? ? ?], t as [? ? ? ? []].
Qed.

Lemma release_session_run w live owners s c p : h3_resting w live owners -> owners !! p = Some c ->
  ba_generation (ps_arena s) = ba_generation (hw_arena w) -> 1 <= ba_live_pins (hw_arena w) ->
  exists w' live', Http3Session_release lib (active_session s c p) w = Ret (empty_session, w') /\
    h3_resting w' live' (delete p owners) /\ shifted (hw_pool w) (hw_pool w') (-1).
Proof.
  intros Hr Hc Hg Hpins. unfold Http3Session_release. cbn [active_session ss_connection ss_state ss_arena ss_generation ss_pin].
  rewrite Hg, Z.eqb_refl. cbn [negb]. pose proof Hr as [H1 H2 H3 H4 H5 H6].
  destruct (owner_connection _ _ _ _ _ Hr Hc) as (v & Hv & Hu). pose proof (law_del _ _ _ Hv) as Hlaw. rewrite Hu in Hlaw.
  assert (Hst : is_Some (hw_states w !! p)) by (apply elem_of_dom; rewrite H2; apply elem_of_dom; by exists c). destruct Hst as [state Hst].
  destruct (h3_native_run (nghttp3_conn_del lib c) w live p state _ H1 Hst Hlaw) as ([] & w1 & live1 & -> & HC & Hused & _).
  rewrite outcome_bind_Ret. destruct Hused as [U1 U2 U3 U4 U5]. pose proof (fr_blocks _ _ _ _ U5) as Hblocks. unfold h3_state_at. rewrite U1, Hst, outcome_bind_Ret.
  assert (Hp : p ∈ dom live1 ∖ dom (memory (hw_library w1))) by (rewrite Hblocks, H3; apply elem_of_dom; by exists c).
  destruct (h3_free_run w1 live1 p U3) as (w2 & -> & R2 & St2 & L2 & K2); [set_solver|set_solver|]. rewrite outcome_bind_Ret. unfold ArenaPin_move_assign.
  pose proof (shifted_kept _ _ _ _ (kept_shifted _ _ U4) K2) as Hsh. pose proof (sh_pins _ _ _ Hsh) as Hp2. unfold hw_arena in Hpins.
  destruct (h3_unpin_run w2 (delete p live1) (ba_address (ps_arena s)) R2) as (arena & -> & R3 & Hsh3); [unfold hw_arena; lia|].
  rewrite !outcome_bind_Ret. cbn [pin_arena]. exists (hw_set_arena w2 arena), (delete p live1). split; [done|].
  split; [|replace (-1) with (0 + -1) by lia; by eapply shifted_trans].
  assert (HU : users (hw_library w1) = delete c (users (hw_library w))) by (unfold users; by rewrite HC, fmap_delete).
  split; [done| | | | |].
  - cbn. by rewrite St2, U1, !dom_delete_L, H2.
  - cbn. rewrite L2, !dom_delete_L, <- H3, <- Hblocks. set_solver.
  - intros d q. cbn. rewrite L2, HU. split.
    + intros [Hne Hd]%lookup_delete_Some. apply H4 in Hd. rewrite lookup_delete_ne; [done|]. intros <-. congruence.
    + intros [Hne Hd]%lookup_delete_Some. apply H4 in Hd. rewrite lookup_delete_ne; [done|]. intros <-.
      apply H4 in Hc. congruence.
  - cbn. intros q st. rewrite St2, U1. intros [_ Hq]%lookup_delete_Some. by apply (H5 q).
  - cbn. intros d v2 st. rewrite L2, HC, St2, U1. intros [_ Hd]%lookup_delete_Some [_ Hq]%lookup_delete_Some. by apply (H6 d v2).
Qed.

(** ** Clients *)
Record Http3Client := MkHttp3Client { hc_sessions : gmap nat Http3Session; hc_world : World }.

(** [HMove x y] constructs [y] from [x]; [HAssign x y] assigns [y] to [x]. *)
Inductive http3_op :=
  | HCreate (x : nat) (role : Http3Role) (limits : Http3Limits) (events : Http3EventSink E) (log : DependencyLogSink L)
  | HCall (x : nat) (call : http3_call)
  | HMove (x y : nat)
  | HAssign (x y : nat)
  | HDestroy (x : nat)
  | HReset (boundary : ArenaQuiescentBoundary).

Definition exec_http3 (client : Http3Client) (op : http3_op) : outcome Http3Client :=
  let w := hc_world client in
  let sessions := hc_sessions client in
  match op with
  | HCreate x role limits events log =>
      '(r, w) ← Http3Session_create lib role limits events log w;
      Ret (MkHttp3Client (match r with Ok t => <[x := t]> sessions | Err _ => sessions end) w)
  | HCall x call =>
      match sessions !! x with
      | None => Stop Undefined
      | Some t => '(_, w) ← call_session t call w; Ret (MkHttp3Client sessions w)
      end
  | HMove x y =>
      match sessions !! x with
      | None => Stop Undefined
      | Some t => '(u, t, w) ← Http3Session_move_construct t w; Ret (MkHttp3Client (<[y := u]> (<[x := t]> sessions)) w)
      end
  | HAssign x y =>
      match sessions !! x, sessions !! y with
      | Some t, Some u => '(t, u, w) ← Http3Session_move_assign lib t u w; Ret (MkHttp3Client (<[x := t]> (<[y := u]> sessions)) w)
      | _, _ => Stop Undefined
      end
  | HDestroy x =>
      match sessions !! x with
      | None => Stop Undefined
      | Some t => w ← Http3Session_destroy lib t w; Ret (MkHttp3Client (delete x sessions) w)
      end
  | HReset boundary => '(_, s) ← exec_pool (hw_pool w) (PReset boundary); Ret (MkHttp3Client sessions (hw_set_pool w s))
  end.

(** As long as the session is not terminal, the call is one that nghttp3 permits. *)
Definition may_call w (t : Http3Session) (call : http3_call) : Prop :=
  call_legal call /\ forall c p state v, ss_connection t = Some c -> ss_state t = Some p -> hw_states w !! p = Some state ->
    h3_terminal state = false -> connections (hw_library w) !! c = Some v -> call_permitted v call.

Definition http3_legal (client : Http3Client) (op : http3_op) : Prop :=
  let sessions := hc_sessions client in
  match op with
  | HCreate x _ limits _ _ => sessions !! x = None /\ limits_ok limits
  | HCall x call => exists t, sessions !! x = Some t /\ may_call (hc_world client) t call
  | HMove x y => is_Some (sessions !! x) /\ sessions !! y = None
  | HAssign x y => is_Some (sessions !! x) /\ is_Some (sessions !! y) /\ x <> y
  | HDestroy x => is_Some (sessions !! x)
  | HReset _ => True
  end.

#[export] Instance session_handle : PinnedHandle C Http3Session.
Proof.
  refine {| handle_empty := empty_session; handle_active := active_session; handle_state := ss_state |}.
  - done.
  - done.
  - intros s s' d c p [E1 E2 _]. unfold active_session. by rewrite E1, E2.
Defined.

Lemma session_cases sessions s owners x t : handles_ok sessions s owners -> sessions !! x = Some t ->
  t = empty_session \/ exists p c, owners !! p = Some c /\ t = active_session s c p.
Proof. exact (fun H => ho_active _ _ _ H x t). Qed.


Definition http3_ok (client : Http3Client) : Prop := exists live owners,
  h3_resting (hc_world client) live owners /\ handles_ok (hc_sessions client) (hw_pool (hc_world client)) owners.

Lemma resting_none w live : h3_resting w live ∅ -> connections (hw_library w) = ∅ /\ hw_states w = ∅ /\ live = ∅.
Proof.
  intros [H1 H2 H3 H4 H5 H6]. assert (Hc : connections (hw_library w) = ∅).
  { apply map_eq. intros c. rewrite lookup_empty. destruct (connections _ !! c) as [v|] eqn:Ec; [|done]. by apply users_lookup, H4 in Ec. }
  split; [done|]. rewrite (law_no_connections _ Hc), !dom_empty_L in H3. split; [apply dom_empty_inv_L; by rewrite H2, dom_empty_L|].
  apply dom_empty_inv_L. set_solver.
Qed.

Lemma reset_http3 client boundary : http3_ok client -> exists client', exec_http3 client (HReset boundary) = Ret client' /\ http3_ok client'.
Proof.
  intros (live & owners & Hr & Hh). cbn [exec_http3]. destruct (decide (owners = ∅)) as [->|Hne].
  - destruct (resting_none _ _ Hr) as (HC & Hst & ->). destruct (hq_ready _ _ _ Hr) as [[free HI] Hs].
    destruct (reset_op_run (hw_pool (hc_world client)) ∅ free boundary HI) as (s' & live' & free' & Erun & Hstep & HI').
    destruct (pool_reset_run (hw_pool (hc_world client)) boundary) as (s1 & E1 & _ & Hp & _).
    { exists ∅. by exists free. }
    rewrite Erun in E1. injection E1 as <-. rewrite Erun, outcome_bind_Ret. eexists. split; [done|].
    assert (live' = ∅) as -> by (by inversion Hstep). exists ∅, ∅. split; [|by apply (handles_none _ _ _ Hh)].
    apply (resting_unchanged (hc_world client) ∅); try done. split; [by eexists|done].
  - rewrite (handles_pinned _ _ _ boundary Hh Hne), outcome_bind_Ret. eexists. split; [done|]. exists live, owners. by destruct client as [? []].
Qed.

Lemma pinned_by_owner sessions s owners p c : handles_ok (T := Http3Session) sessions s owners -> owners !! p = Some c -> 1 <= ba_live_pins (ps_arena s).
Proof.
  intros Hh Hp. rewrite (ho_pins _ _ _ Hh). assert (size owners <> 0%nat); [|lia]. intros E0%map_size_empty_inv. by rewrite E0 in Hp.
Qed.

Lemma session_release_ok client x t : http3_ok client -> hc_sessions client !! x = Some t ->
  exists w', Http3Session_release lib t (hc_world client) = Ret (empty_session, w') /\
    http3_ok (MkHttp3Client (<[x := empty_session]> (hc_sessions client)) w').
Proof.
  intros (live & owners & Hr & Hh) Hx. destruct (session_cases _ _ _ x t Hh Hx) as [->|(p & c & Hp & ->)].
  - exists (hc_world client). split; [apply release_empty_session|]. rewrite insert_id by done. by exists live, owners.
  - destruct (release_session_run (hc_world client) live owners (hw_pool (hc_world client)) c p Hr Hp eq_refl (pinned_by_owner _ _ _ _ _ Hh Hp))
      as (w' & live' & Erun & Hr' & Hs).
    exists w'. split; [done|]. exists live', (delete p owners). split; [done|]. exact (handles_released _ _ _ _ _ _ _ Hh Hx Hp Hs).
Qed.

Lemma session_move_ok client x y t : http3_ok client -> x <> y -> (forall u, hc_sessions client !! x = Some u -> u = empty_session) ->
  hc_sessions client !! y = Some t -> http3_ok (MkHttp3Client (<[x := t]> (<[y := empty_session]> (hc_sessions client))) (hc_world client)).
Proof. intros (live & owners & Hr & Hh) Hne Hx Hy. exists live, owners. split; [done|]. exact (handles_moved _ _ _ _ _ _ Hh Hne Hx Hy). Qed.

Lemma owner_state w live owners p c : h3_resting w live owners -> owners !! p = Some c -> exists state, hw_states w !! p = Some state.
Proof. intros Hr Hp. apply elem_of_dom. rewrite (hq_states _ _ _ Hr). apply elem_of_dom. by exists c. Qed.

Lemma session_call_ok client x t call : http3_ok client -> hc_sessions client !! x = Some t -> may_call (hc_world client) t call ->
  exists reply w', call_session t call (hc_world client) = Ret (reply, w') /\ http3_ok (MkHttp3Client (hc_sessions client) w').
Proof.
  intros Hok Hx [Hl Hmay]. pose proof Hok as (live & owners & Hr & Hh). destruct (session_cases _ _ _ x t Hh Hx) as [->|(p & c & Hp & ->)].
  { eexists _, _. split; [apply call_empty|]. by destruct client. }
  destruct (owner_state _ _ _ _ _ Hr Hp) as [state Hst]. destruct (h3_terminal state) eqn:Ht.
  { eexists _, _. split; [by apply (call_terminal _ _ live owners _ _ state)|]. by destruct client. }
  destruct (owner_connection _ _ _ _ _ Hr Hp) as (v & Hv & Hu).
  destruct (call_active (hc_world client) live owners (hw_pool (hc_world client)) c p state v Hr eq_refl Hst Ht Hv Hu call Hl (Hmay c p state v eq_refl eq_refl Hst Ht Hv))
    as (reply & terminal & w' & live' & Erun & _ & [Hr' Hs _ _]).
  exists reply, w'. split; [done|]. exists live', owners. split; [done|]. by apply (handles_shifted _ _ _ _ Hh).
Qed.

Lemma exec_http3_ok client op : http3_ok client -> http3_legal client op -> exists client', exec_http3 client op = Ret client' /\ http3_ok client'.
Proof.
  intros Hok Hl. destruct op as [x role limits events log|x call|x y|x y|x|b]; cbn [http3_legal] in Hl; [| | | | |by apply reset_http3]; cbn [exec_http3].
  - destruct Hok as (live & owners & Hr & Hh). destruct Hl as [Hx Hmax].
    destruct (session_create_run role limits events log (hc_world client) live owners Hr) as (r & w' & live' & -> & Hcr & _); [done|].
    rewrite outcome_bind_Ret. eexists. split; [done|]. destruct r as [t|e].
    + destruct Hcr as (p & c & Hp & -> & Hr' & Hs & _). exists live', (<[p := c]> owners). split; [done|]. exact (handles_compiled _ _ _ _ _ _ _ Hh Hx Hp Hs).
    + destruct Hcr as (Hr' & Hs & _). exists live', owners. split; [done|]. by apply (handles_shifted _ _ _ _ Hh).
  - destruct Hl as (t & Hx & Hc). rewrite Hx. destruct (session_call_ok client x t call Hok Hx Hc) as (reply & w' & -> & Hok'). rewrite outcome_bind_Ret. by eexists.
  - destruct Hl as [[t Hx] Hy]. rewrite Hx. unfold Http3Session_move_construct. rewrite move_from_empty_session, outcome_bind_Ret. eexists. split; [done|].
    apply session_move_ok; [done|congruence|congruence|done].
  - destruct Hl as ([t Hx] & [u Hy] & Hne). rewrite Hx, Hy. unfold Http3Session_move_assign.
    destruct (session_release_ok client x t Hok Hx) as (w' & -> & Hok'). rewrite outcome_bind_Ret, move_from_empty_session, outcome_bind_Ret.
    eexists. split; [done|]. pose proof (session_move_ok _ x y u Hok' Hne) as Hm. cbn [hc_sessions hc_world] in Hm.
    rewrite lookup_insert_eq, lookup_insert_ne in Hm by done. specialize (Hm ltac:(by intros ? [= <-]) Hy).
    by rewrite (insert_insert_ne _ y x), insert_insert_eq in Hm by done.
  - destruct Hl as [t Hx]. rewrite Hx. unfold Http3Session_destroy. destruct (session_release_ok client x t Hok Hx) as (w' & -> & (live & owners & Hr & Hh)).
    rewrite !outcome_bind_Ret. eexists. split; [done|]. exists live, owners. split; [done|]. cbn [hc_sessions] in *.
    rewrite <- (delete_insert_eq _ x empty_session). exact (handles_dropped _ _ _ x Hh (lookup_insert_eq _ _ _)).
Qed.

(** Clients that legal operations lead to. *)
Inductive http3_reachable (client0 : Http3Client) : Http3Client -> Prop :=
  | hr_start : http3_reachable client0 client0
  | hr_step client op client' : http3_reachable client0 client -> http3_legal client op -> exec_http3 client op = Ret client' ->
      http3_reachable client0 client'.

(** Nothing allocated, connected or pinned. *)
Record http3_fresh w : Prop := {
  hf_pool : implements (hw_pool w) ∅;
  hf_states : hw_states w = ∅;
  hf_connections : connections (hw_library w) = ∅;
  hf_pins : ba_live_pins (hw_arena w) = 0 }.

Lemma http3_fresh_ok w : http3_fresh w -> http3_ok (MkHttp3Client ∅ w).
Proof.
  intros [H1 H2 H3 H4]. pose proof (law_no_connections _ H3) as Hm. exists ∅, ∅. split; cbn [hc_world hc_sessions].
  - split; [split; [done|by rewrite Hm]|by rewrite H2|by rewrite Hm, dom_empty_L, dom_empty_L| |by rewrite H2|by rewrite H3].
    intros c p. unfold users. by rewrite H3, fmap_empty.
  - by split.
Qed.

Lemma http3_reachable_ok w client : http3_fresh w -> http3_reachable (MkHttp3Client ∅ w) client -> http3_ok client.
Proof.
  intros Hw. induction 1 as [|client op client' _ IH Hl Erun]; [by apply http3_fresh_ok|].
  destruct (exec_http3_ok client op IH Hl) as (c2 & E2 & H2). rewrite Erun in E2. by injection E2 as ->.
Qed.


(** C28: in every reachable program an operation on an HTTP/3 session that is not empty, and that
    nghttp3 permits its caller, returns.  If the session is terminal it refuses and changes
    nothing.  Otherwise headers are refused exactly when there are none or more than 64, one has
    no name, or their bytes exceed the limit of the session, and nothing changes; any other
    operation asks the library, with the arguments of the caller, exactly once (two streams are
    bound one after the other, the second only if the first succeeded).  For every callback the
    library makes meanwhile the sink of the session is told, in order, the event that callback
    stands for ([event_of]: its kind, stream, field, data and error code), and the library is
    answered 0 when the sink accepts it and the error for failed callbacks when it refuses
    ([told]).  The reply is what the library answers, with a view of the output only if there is
    some; an error is logged in the sink of the session; and the session becomes terminal
    exactly when receiving or producing output fails.  No other state changes. *)
Theorem http3_operations_exact w (client : Http3Client) (x : nat) (t : Http3Session) (call : http3_call) :
  http3_fresh w -> http3_reachable (MkHttp3Client ∅ w) client -> hc_sessions client !! x = Some t -> t <> empty_session -> may_call (hc_world client) t call ->
  exists p c state reply w', ss_state t = Some p /\ ss_connection t = Some c /\ hw_states (hc_world client) !! p = Some state /\
    users (hw_library (hc_world client)) !! c = Some p /\ call_session t call (hc_world client) = Ret (reply, w') /\
    if h3_terminal state then reply = Err (core_error invalid_state "HTTP/3 session is inactive or its arena was reset") /\ w' = hc_world client
    else exists terminal, call_outcome state c call (hc_world client) reply terminal w' /\
      hw_states w' = (if (terminal : bool)
        then <[p := MkHttp3State (h3_events state) (h3_log state) (h3_maximum state) true]> (hw_states (hc_world client))
        else hw_states (hc_world client)) /\
      hw_log w' = (match reply with Err e => log_dependency_error (h3_log state) (hw_log (hc_world client)) e | Ok _ => hw_log (hc_world client) end) /\
      users (hw_library w') = users (hw_library (hc_world client)).
Proof.
  intros Hw Hreach Hx Hne [Hl Hmay]. destruct (http3_reachable_ok w client Hw Hreach) as (live & owners & Hr & Hh).
  destruct (session_cases _ _ _ x t Hh Hx) as [->|(p & c & Hp & ->)]; [done|]. destruct (owner_state _ _ _ _ _ Hr Hp) as [state Hst].
  destruct (h3_terminal state) eqn:Ht.
  - exists p, c, state, (Err h3_inactive_error), (hc_world client). do 3 (split; [done|]). split; [by apply (hq_connections _ _ _ Hr)|].
    split; [by apply (call_terminal _ _ live owners _ _ state)|]. by rewrite Ht.
  - destruct (owner_connection _ _ _ _ _ Hr Hp) as (v & Hv & Hu).
    destruct (call_active (hc_world client) live owners (hw_pool (hc_world client)) c p state v Hr eq_refl Hst Ht Hv Hu call Hl (Hmay c p state v eq_refl eq_refl Hst Ht Hv))
      as (reply & terminal & w' & live' & Erun & Ho & [Hr' Hs Hst' Hlog]).
    exists p, c, state, reply, w'. do 3 (split; [done|]). split; [by apply (hq_connections _ _ _ Hr)|]. split; [done|]. rewrite Ht.
    exists terminal. do 3 (split; [done|]). apply map_eq. intros d. apply option_eq. intros q.
    by rewrite (hq_connections _ _ _ Hr), (hq_connections _ _ _ Hr').
Qed.
End sessions.

(** ** Sessions at work

    A library that reports the data it is given, offers three bytes of output on the stream of
    number 2 and keeps no memory: a connection needs a block only while it is made.  A call that
    is not permitted, or on a connection that failed, is a fault. *)
Module Loopback.
(** The next connection and the connections. *)
Abbreviation Native := (Z * gmap Z Http3Connection)%type.

Definition connect (server : bool) (settings : nghttp3_settings) (user : pointer) (n : Native) : conversation Http3Callback Z (Z * option Z * Native) :=
  Request user (PMalloc 16) (fun r =>
    match r with
    | None => Answer ((-901, None), n)
    | Some p => Request user (PFree (Some p)) (fun _ =>
        match n.2 !! n.1 with
        | Some _ => Answer ((-901, None), n)
        | None => Answer ((0, Some n.1), (n.1 + 1, <[n.1 := new_connection user server]> n.2))
        end)
    end).

Definition on (c : Z) (call : native_call) {A} (f : Http3Connection -> conversation Http3Callback Z (A * Native)) (n : Native) :
    conversation Http3Callback Z (A * Native) :=
  match n.2 !! c with
  | None => Fault
  | Some v => if cn_failed v then Fault else if decide (permits v call) then f v else Fault
  end.

Definition set_view (n : Native) (c : Z) (v : Http3Connection) : Native := (n.1, <[c := v]> n.2).

Definition succeed (c : Z) (call : native_call) (n : Native) : conversation Http3Callback Z (Z * Native) :=
  on c call (fun v => Answer (0, set_view n c (after_success call v))) n.

Definition read (c stream : Z) (data : list Z) (fin ts : Z) (n : Native) : conversation Http3Callback Z (Z * Native) :=
  on c (NRead stream) (fun v => Callback (cn_user v) (CbRecvData stream (MkSpan (Some (MkPointer 0 0)) (Z.of_nat (length data)))) (fun r =>
    let result := if r =? 0 then Z.of_nat (length data) else -902 in Answer (result, set_view n c (after_read stream fin v result)))) n.

Definition write (c stream fin : Z) (vector : span) (n : Native) : conversation Http3Callback Z (Z * Z * Z * span * Native) :=
  on c NWrite (fun v => let result := (1, 2, fin, MkSpan (Some (MkPointer 0 0)) 3) in Answer (result, set_view n c (after_write v result))) n.

Definition nghttp3 : Nghttp3 Native := {|
  NGHTTP3_ERR_NOMEM := -901; NGHTTP3_ERR_INVALID_ARGUMENT := -101; NGHTTP3_ERR_CALLBACK_FAILURE := -902;
  NGHTTP3_STREAM_CLOSE_FLAG_RX_APP_ERROR_CODE_SET := 1; NGHTTP3_STREAM_CLOSE_FLAG_TX_APP_ERROR_CODE_SET := 2;
  nghttp3_settings_default := MkNghttp3Settings 0 0 0 0 [];
  nghttp3_conn_client_new := connect false;
  nghttp3_conn_server_new := connect true;
  nghttp3_conn_del c n := match n.2 !! c with None => Fault | Some _ => Answer (tt, (n.1, delete c n.2)) end;
  nghttp3_conn_bind_control_stream c stream := succeed c (NBindControl stream);
  nghttp3_conn_bind_qpack_streams c encoder decoder := succeed c (NBindQpack encoder decoder);
  nghttp3_conn_read_stream2 := read;
  nghttp3_conn_writev_stream := write;
  nghttp3_conn_add_write_offset c stream bytes := succeed c (NWriteOffset stream bytes);
  nghttp3_conn_add_ack_offset c stream bytes := succeed c (NAckOffset stream bytes);
  nghttp3_conn_submit_request c stream _ := succeed c (NRequest stream);
  nghttp3_conn_submit_response c stream _ := succeed c (NResponse stream);
  nghttp3_conn_close_stream2 c _ stream _ _ := succeed c (NClose stream);
  nghttp3_conn_shutdown c := succeed c NShutdown |}.

Abbreviation no_memory := (fun _ : Native => ∅ : Owned).

Lemma connect_law server n settings user : answers_new snd no_memory n (connect server settings user) settings user server.
Proof.
  intros _. unfold answers, connect. cbn [behaves]. split; [done|]. split; [cbn; unfold is_size, size_max, u64_max; lia|]. intros r own Hstep.
  destruct r as [p|]; [|by inversion Hstep]. cbn [behaves]. split; [done|]. split; [cbn; inversion Hstep; subst; by rewrite lookup_insert_eq|].
  intros r' own' Hfree. assert (own' = ∅) as ->.
  { inversion Hstep; subst. inversion Hfree; subst; [done|done|]. by rewrite delete_insert_id. }
  destruct (n.2 !! n.1) eqn:E0; cbn [behaves]; [by split|]. split; [done|]. cbn. by exists n.1.
Qed.

Lemma on_permitted {A} c call (f : Http3Connection -> conversation Http3Callback Z (A * Native)) n v :
  n.2 !! c = Some v -> cn_failed v = false -> permits v call -> on c call f n = f v.
Proof. intros Hc Hf Hp. unfold on. by rewrite Hc, Hf, decide_True. Qed.

Lemma succeed_law n c call : answers_on snd no_memory n c (succeed c call) call (after_call nghttp3 call) (fun _ => True).
Proof. intros v Hc Hf Hp. unfold answers, succeed. by rewrite (on_permitted _ _ _ _ v). Qed.

#[export] Instance laws : Nghttp3Laws nghttp3.
Proof.
  refine {| connections := snd; memory := no_memory |}; cbn [nghttp3 nghttp3_conn_client_new nghttp3_conn_server_new nghttp3_conn_del
    nghttp3_conn_bind_control_stream nghttp3_conn_bind_qpack_streams nghttp3_conn_read_stream2 nghttp3_conn_writev_stream
    nghttp3_conn_add_write_offset nghttp3_conn_add_ack_offset nghttp3_conn_submit_request nghttp3_conn_submit_response
    nghttp3_conn_close_stream2 nghttp3_conn_shutdown]; try (intros; apply succeed_law).
  - done.
  - intros. apply connect_law.
  - intros. apply connect_law.
  - intros n c v Hc. unfold answers. by rewrite Hc.
  - intros n c stream data fin ts v Hc Hf Hp. unfold answers, read. rewrite (on_permitted _ _ _ _ v) by done. cbn [behaves]. split; [done|]. split; [done|].
    intros r. cbn [fst snd]. split; [done|]. split; [done|]. destruct (r =? 0); lia.
  - intros n c v Hc Hf Hp. unfold answers, write. by rewrite (on_permitted _ _ _ _ v).
Defined.
End Loopback.
#[export] Existing Instance Loopback.laws.

(** Events are counted, and only the first is accepted. *)
Definition h3_demo_sink : Http3EventSink nat := MkHttp3EventSink (Some (fun _ n => (Nat.eqb n 0, S n))).
Definition h3_demo_log : DependencyLogSink nat := MkDependencyLogSink (Some (fun n _ => S n)).
Definition h3_demo_limits : Http3Limits := MkHttp3Limits 8 0 0.
Definition h3_demo_world : Http3World Loopback.Native nat nat nat := MkHttp3World (1, ∅) wide_pool 0%nat 0%nat ∅.

Lemma h3_demo_fresh : http3_fresh (acquire := pool_acquire) (reset := pool_reset) h3_demo_world.
Proof. split; [exact wide_pool_implements|reflexivity..]. Qed.

Definition h3_demo_create : http3_op (L := nat) (E := nat) := HCreate 0 http3_server h3_demo_limits h3_demo_sink h3_demo_log.
Definition h3_demo_created : outcome (Http3Client (N := Loopback.Native) (C := nat) (L := nat) (E := nat)) :=
  exec_http3 (lib := Loopback.nghttp3) (MkHttp3Client ∅ h3_demo_world) h3_demo_create.

(** The second reception fails, after which the session is terminal; the error is logged once,
    the sink was told twice, and the release leaves nothing behind. *)
Example session_becomes_terminal :
  ('(r, w) ← Http3Session_create Loopback.nghttp3 http3_server h3_demo_limits h3_demo_sink h3_demo_log h3_demo_world;
   match r with
   | Err _ => Stop Undefined
   | Ok t =>
       '(r1, w) ← Http3Session_receive Loopback.nghttp3 t 4 [1; 2] false w;
       '(r2, w) ← Http3Session_receive Loopback.nghttp3 t 4 [3] true w;
       '(r3, w) ← Http3Session_receive Loopback.nghttp3 t 4 [4] true w;
       let pins := ba_live_pins (hw_arena w) in
       '(t, w) ← Http3Session_release Loopback.nghttp3 t w;
       Ret (r1, has_value r2, r3, hw_log w, hw_sinks w, pins, ba_live_pins (hw_arena w), (hw_library w).2)
   end) = Ret (Ok 2, false, Err h3_inactive_error, 1%nat, 2%nat, 1, 0, ∅).
Proof. vm_compute. reflexivity. Qed.

(** Names are required, and names and values together fit the limit. *)
Example headers_are_bounded :
  (let field name value := MkHttp3Header (replicate name 97) (replicate value 98) in
   '(r, w) ← Http3Session_create Loopback.nghttp3 http3_client h3_demo_limits (MkHttp3EventSink None) h3_demo_log h3_demo_world;
   match r with
   | Err _ => Stop Undefined
   | Ok t =>
       '(_, w) ← Http3Session_bind_streams Loopback.nghttp3 t 2 6 10 w;
       let submit headers := '(r, _) ← Http3Session_submit_request Loopback.nghttp3 t 0 headers w; Ret r in
       r1 ← submit [field 4%nat 1%nat; field 1%nat 2%nat];
       r2 ← submit [field 4%nat 1%nat; field 1%nat 3%nat];
       r3 ← submit [field 0%nat 1%nat];
       r4 ← submit [];
       r5 ← submit (replicate 65 (field 1%nat 0%nat));
       Ret [r1; r2; r3; r4; r5]
   end) = Ret [Ok tt; Err h3_field_limit_error; Err h3_field_limit_error; Err h3_field_count_error; Err h3_field_count_error].
Proof. vm_compute. reflexivity. Qed.

(** A client from its first output to its last: the bytes offered are accepted and acknowledged. *)
Example client_sends :
  ('(r, w) ← Http3Session_create Loopback.nghttp3 http3_client h3_demo_limits (MkHttp3EventSink None) h3_demo_log h3_demo_world;
   match r with
   | Err _ => Stop Undefined
   | Ok t =>
       '(r1, w) ← Http3Session_bind_streams Loopback.nghttp3 t 2 6 10 w;
       '(r2, w) ← Http3Session_submit_request Loopback.nghttp3 t 0 [MkHttp3Header [97] [98]] w;
       '(r3, w) ← Http3Session_next_output Loopback.nghttp3 t w;
       '(r4, w) ← Http3Session_mark_output_written Loopback.nghttp3 t 2 3 w;
       '(r5, w) ← Http3Session_acknowledge_stream_data Loopback.nghttp3 t 2 3 w;
       '(r6, w) ← Http3Session_close_stream Loopback.nghttp3 t 0 256 w;
       '(r7, w) ← Http3Session_shutdown Loopback.nghttp3 t w;
       Ret ([r1; r2; r4; r5; r6; r7], match r3 with Ok o => span_size (ho_bytes o) | Err _ => -1 end)
   end) = Ret (replicate 6 (Ok tt), 3).
Proof. vm_compute. reflexivity. Qed.

(** The adapter has no check of its own: a server that submits a request, and a client that does
    so before its streams are bound, misuse the library. *)
Example misuse_is_forwarded :
  (let submit role :=
     '(r, w) ← Http3Session_create Loopback.nghttp3 role h3_demo_limits (MkHttp3EventSink None) h3_demo_log h3_demo_world;
     match r with
     | Err _ => Ret false
     | Ok t => '(_, _) ← Http3Session_submit_request Loopback.nghttp3 t 0 [MkHttp3Header [97] [98]] w; Ret true
     end in
   [submit http3_server; submit http3_client]) = [Stop Undefined; Stop Undefined].
Proof. vm_compute. reflexivity. Qed.

Lemma h3_demo_legal : http3_legal (MkHttp3Client ∅ h3_demo_world) h3_demo_create.
Proof. split; [reflexivity|]. unfold limits_ok, varint_max. cbn. lia. Qed.


Definition h3_demo_session : Http3Session :=
  MkHttp3Session (Some 1) (Some (MkPointer 0 32)) (Some 9%nat) 1 (MkArenaPin (Some 9%nat)).

Lemma h3_demo_active : match h3_demo_created with
  | Ret client => hc_sessions client !! 0%nat = Some h3_demo_session /\ (hw_library (hc_world client)).2 = {[1 := new_connection (MkPointer 0 32) true]}
  | Stop _ => False
  end.
Proof. vm_compute. split; reflexivity. Qed.

Lemma http3_operations_exact_witness :
  exists client reply w', h3_demo_created = Ret client /\
    call_session (lib := Loopback.nghttp3) h3_demo_session (HReceive 4 [1; 2] false) (hc_world client) = Ret (reply, w').
Proof.
  pose proof h3_demo_active as H. destruct h3_demo_created as [client|] eqn:Erun; [|destruct H]. destruct H as [Ht Hlib].
  destruct (http3_operations_exact (lib := Loopback.nghttp3) h3_demo_world client 0 h3_demo_session (HReceive 4 [1; 2] false) h3_demo_fresh
    (hr_step _ _ h3_demo_create client (hr_start _) h3_demo_legal Erun) Ht) as (p & c & state & reply & w' & _ & _ & _ & _ & Hrun & _).
  - intros E0. discriminate E0.
  - split; [cbn; unfold size_max, u64_max; lia|]. intros c p state v Hc _ _ _ Hv. injection Hc as <-. cbn [connections Loopback.laws] in Hv.
    rewrite Hlib in Hv. apply lookup_singleton_Some in Hv as [_ <-]. apply (bool_decide_unpack _). vm_compute. exact I.
  - exists client, reply, w'. split; [reflexivity|exact Hrun].
Defined.
