(* ===== verification/Http2.v ===== *)
(** * HTTP/2 sessions

    Models [src/adapters/contract/laghu/adapters/http2.hpp] and [src/adapters/http2.cpp]: the
    allocator a session gives to nghttp2, over a bounded arena and a free list of its own, the
    creation of a session, the callbacks with their limits, the queue of rejected streams and
    the provider of data, every operation, moves and release.

    Nghttp2 keeps everything about a session in the memory of that session, so it is a record
    of functions over the state [N] of one session, and its calls are conversations.  The
    objects for callbacks and options are the library's own, in a state [G].  The native
    session objects, the states of the sessions and the headers of their blocks are in the
    storage of the arena, found by their addresses, and gone when it is reset.  Event sinks and
    data providers act on a state [E]; a provider is an object of the caller, known by its
    address.  Input views are the bytes they show; the views of events and output are
    addresses. *)
From S2P Require Import Prelude Contract CheckedArithmetic Identifiers MemoryBudget BudgetInvariant Views BinaryEnvelope BoundedArena NativeMemory NativeSpec Dependencies Conversations.
From Stdlib Require Import ZArith Lia String Ascii.
From stdpp Require Import base numbers list gmap option.

Set Default Goal Selector "!".
#[local] Open Scope Z_scope.

(** ** Streams, limits and events *)
Inductive Http2Role := http2_client | http2_server | http2_role_unlisted (value : Z).

Definition h2_wire_error := core_error invalid_input "HTTP/2 stream ID must be positive".

Record Http2StreamId := MkHttp2StreamId { wire_value : Z }.
Definition Http2StreamId_default : Http2StreamId := MkHttp2StreamId 0.
Definition Http2StreamId_from_wire (value : Z) : Result Http2StreamId := if value <=? 0 then Err h2_wire_error else Ok (MkHttp2StreamId value).
Definition Http2StreamId_valid (this : Http2StreamId) : bool := 0 <? wire_value this.

Definition maximum_submission_headers : nat := 64.
Definition maximum_settings : nat := 16.
Record Http2Limits := MkHttp2Limits { h2_header_block_bytes : Z; h2_header_fields : Z; h2_debug_data_bytes : Z }.

Record Http2Header := MkHttp2Header { h2_name : list Z; h2_value : list Z; h2_sensitive : bool }.
Record Http2Setting := MkHttp2Setting { h2_identifier : Z; h2_setting : Z }.

Inductive Http2EventKind :=
  | h2_headers_begin | h2_header | h2_data | h2_frame_received | h2_settings | h2_reset | h2_goaway | h2_window_update | h2_stream_closed.

Record Http2Event := MkHttp2Event {
  ev_kind : Http2EventKind; ev_stream : Http2StreamId; ev_name : ByteView; ev_value : ByteView; ev_data : ByteView;
  ev_code : Z; ev_setting_value : Z; ev_last_stream_id : Z; ev_window_increment : Z; ev_debug_data : ByteView;
  ev_end_stream : bool; ev_sensitive : bool; ev_settings_ack : bool }.

Inductive Http2CallbackAction := continue_processing | pause | reject_stream | fail_session | action_unlisted (value : Z).
Inductive Http2DataReadState := read_more | read_end | read_deferred | read_unlisted (value : Z).
Record Http2DataReadResult := MkHttp2DataReadResult { dr_bytes : Z; dr_state : Http2DataReadState }.

(** A provider is given the size of its output; it leaves bytes at the front of it. *)
Record Http2DataProvider (E : Type) := MkHttp2DataProvider {
  dp_read : option (Z -> E -> Result Http2DataReadResult * list Z * E) }.
Arguments MkHttp2DataProvider {E}.
Arguments dp_read {E}.
Definition Http2DataProvider_enabled {E} (this : Http2DataProvider E) : bool := bool_decide (is_Some (dp_read this)).

Record Http2EventSink (E : Type) := MkHttp2EventSink { es_write : option (Http2Event -> E -> Http2CallbackAction * E) }.
Arguments MkHttp2EventSink {E}.
Arguments es_write {E}.

Record Http2IoInterest := MkHttp2IoInterest { io_read : bool; io_write : bool; io_timer : bool }.

Definition h2_role_error := core_error invalid_input "HTTP/2 role is invalid".
Definition h2_limits_error := core_error invalid_range "HTTP/2 limits must be nonzero and bounded".
Definition h2_inactive_error := core_error invalid_state "HTTP/2 session is inactive or its arena was reset".
Definition h2_input_error := core_error invalid_range "HTTP/2 peer input exceeds its configured bound".
Definition h2_rejected_error := core_error exhaustion "HTTP/2 rejected-stream queue is exhausted".
Definition h2_provider_error := core_error invalid_state "HTTP/2 data provider failed".
Definition h2_provider_inactive_error := core_error invalid_state "HTTP/2 data provider is inactive".
Definition h2_provider_size_error := core_error invalid_range "HTTP/2 data provider returned an invalid size".
Definition h2_header_count_error := core_error invalid_range "HTTP/2 header submission exceeds its bound".
Definition h2_header_block_error := core_error invalid_range "HTTP/2 header block exceeds its bound".
Definition h2_stream_error := core_error invalid_input "HTTP/2 stream ID is invalid".
Definition h2_settings_error := core_error invalid_range "HTTP/2 settings exceed their bound".
Definition h2_data_error := core_error invalid_input "HTTP/2 data submission is invalid".
Definition h2_goaway_error := core_error invalid_range "HTTP/2 GOAWAY arguments exceed their bounds".

(** ** The library *)

(** The header of a frame and the members of the union that the callback reads. *)
Record nghttp2_frame := MkNghttp2Frame {
  fr_stream_id : Z; fr_flags : Z; fr_type : Z; fr_settings : list (Z * Z); fr_error_code : Z; fr_last_stream_id : Z;
  fr_opaque : span; fr_window_increment : Z }.

Record nghttp2_nv := MkNghttp2Nv { nv2_name : list Z; nv2_value : list Z; nv2_namelen : Z; nv2_valuelen : Z; nv2_flags : Z }.
Definition nghttp2_nv_default : nghttp2_nv := MkNghttp2Nv [] [] 0 0 0.

(** The callbacks that are set, with their arguments.  A read gets the block of the buffer and
    the place in it, the length and the data source. *)
Inductive Http2Callback :=
  | On_begin_headers (frame : nghttp2_frame)
  | On_header (frame : nghttp2_frame) (name value : span) (flags : Z)
  | On_data (flags stream : Z) (data : span)
  | On_frame_received (frame : nghttp2_frame)
  | On_stream_closed (stream code : Z)
  | On_data_source_read (stream : Z) (block : pointer) (offset length data_flags : Z) (source : option Z).

(** The result of a callback, and the data flags after a read. *)
Abbreviation Http2Reply := (Z * Z)%type.
Abbreviation Http2Call A := (conversation Http2Callback Http2Reply A).

(** Which callback a setter is for. *)
Inductive Http2CallbackName := set_begin_headers | set_header | set_data_chunk | set_frame_recv | set_stream_close.

(** A new session answers its result, and its address with its state. *)
Record Nghttp2 (N G : Type) := MkNghttp2 {
  NGHTTP2_ERR_NOMEM : Z; NGHTTP2_ERR_INVALID_ARGUMENT : Z; NGHTTP2_ERR_INVALID_HEADER_BLOCK : Z; NGHTTP2_ERR_STREAM_ID_NOT_AVAILABLE : Z;
  NGHTTP2_ERR_PAUSE : Z; NGHTTP2_ERR_TEMPORAL_CALLBACK_FAILURE : Z; NGHTTP2_ERR_CALLBACK_FAILURE : Z; NGHTTP2_ERR_DEFERRED : Z;
  NGHTTP2_ERR_STREAM_CLOSED : Z; NGHTTP2_CANCEL : Z; NGHTTP2_FLAG_NONE : Z; NGHTTP2_FLAG_END_STREAM : Z; NGHTTP2_FLAG_END_HEADERS : Z;
  NGHTTP2_FLAG_ACK : Z; NGHTTP2_DATA_FLAG_EOF : Z; NGHTTP2_NV_FLAG_NONE : Z; NGHTTP2_NV_FLAG_NO_INDEX : Z;
  NGHTTP2_SETTINGS : Z; NGHTTP2_RST_STREAM : Z; NGHTTP2_GOAWAY : Z; NGHTTP2_WINDOW_UPDATE : Z;
  nghttp2_session_callbacks_new : G -> Z * option Z * G;
  nghttp2_session_callbacks_set : Http2CallbackName -> Z -> G -> outcome G;
  nghttp2_session_callbacks_del : Z -> G -> outcome G;
  nghttp2_option_new : G -> Z * option Z * G;
  nghttp2_option_set_no_auto_window_update : Z -> Z -> G -> outcome G;
  nghttp2_option_del : Z -> G -> outcome G;
  nghttp2_session_client_new3 : Z -> pointer -> Z -> G -> Http2Call (Z * option (pointer * N));
  nghttp2_session_server_new3 : Z -> pointer -> Z -> G -> Http2Call (Z * option (pointer * N));
  nghttp2_session_del : N -> Http2Call unit;
  nghttp2_session_mem_recv : list Z -> N -> Http2Call (Z * N);
  nghttp2_session_mem_send : N -> Http2Call (Z * option pointer * N);
  nghttp2_session_want_read : N -> Z;
  nghttp2_session_want_write : N -> Z;
  nghttp2_submit_headers : Z -> Z -> list nghttp2_nv -> N -> Http2Call (Z * N);
  nghttp2_submit_settings : Z -> list (Z * Z) -> N -> Http2Call (Z * N);
  nghttp2_submit_data : Z -> Z -> Z -> N -> Http2Call (Z * N);
  nghttp2_session_resume_data : Z -> N -> Http2Call (Z * N);
  nghttp2_submit_rst_stream : Z -> Z -> Z -> N -> Http2Call (Z * N);
  nghttp2_submit_goaway : Z -> Z -> Z -> list Z -> N -> Http2Call (Z * N);
  nghttp2_submit_window_update : Z -> Z -> Z -> N -> Http2Call (Z * N) }.

(** ** The allocator of a session

    [s] has the worker and the free list of the session, its arena and the blocks.  The headers
    have the layout of those of the pool, and the search, the reuse of a block and a block from
    the arena are the same statements; there is no pool to synchronize with. *)
Section memory.
Context {C : Type}.
Implicit Types (s : PoolState C).

Definition h2_arena_allocate s (size : Z) : outcome (option pointer * PoolState C) :=
  let payload_size := if size =? 0 then 1 else size in
  '(previous, reusable) ← first_fit (base.size (ps_headers s)) (ps_headers s) payload_size None (np_free_list (ps_pool s));
  match reusable with
  | Some a => s ← unlink s payload_size previous a; Ret (Some (payload_of a), s)
  | None => allocate_block s payload_size
  end.

Definition memory_malloc s (size : Z) : outcome (option pointer * PoolState C) := h2_arena_allocate s size.

Definition memory_free s (address : option pointer) : outcome (PoolState C) :=
  match address with
  | None => Ret s
  | Some p =>
      let a := header_of p in
      x ← header (ps_headers s) a;
      Ret (set_pool_list s (Some a) (<[a := MkArenaAllocation (aa_capacity x) (aa_used x) (np_free_list (ps_pool s))]> (ps_headers s)))
  end.

Definition memory_calloc s (count size : Z) : outcome (option pointer * PoolState C) :=
  if negb (count =? 0) && (size_max / count <? size) then Ret (None, s) else
  let total := u64 (count * size) in
  '(output, s) ← h2_arena_allocate s total;
  match output with
  | None => Ret (None, s)
  | Some p => m ← store_bytes (ps_memory s) p (replicate (Z.to_nat total) 0); Ret (Some p, set_memory s m)
  end.

Definition memory_realloc s (address : option pointer) (size : Z) : outcome (option pointer * PoolState C) :=
  match address with
  | None => h2_arena_allocate s size
  | Some p =>
      if size =? 0 then s ← memory_free s (Some p); Ret (None, s) else
      let old := header_of p in
      x ← header (ps_headers s) old;
      if size <=? aa_capacity x then
        Ret (Some p, set_headers s (<[old := MkArenaAllocation (aa_capacity x) size (aa_next x)]> (ps_headers s)))
      else
      '(output, s) ← h2_arena_allocate s size;
      match output with
      | None => Ret (None, s)
      | Some q =>
          x ← header (ps_headers s) old;
          m ← memcpy (ps_memory s) q p (if aa_used x <? size then aa_used x else size);
          s ← memory_free (set_memory s m) (Some p);
          Ret (Some q, s)
      end
  end.

(** What the library may ask for; it writes to its blocks itself. *)
Definition h2_exec s (op : PoolOp) : outcome (option pointer * PoolState C) :=
  match op with
  | PMalloc size => memory_malloc s size
  | PCalloc count size => memory_calloc s count size
  | PRealloc address size => memory_realloc s address size
  | PFree address => s ← memory_free s address; Ret (None, s)
  | PWrite _ _ _ | PReset _ => exec_pool s op
  end.
End memory.

Section http2.
Context {N G C L E : Type} (lib : Nghttp2 N G).
Implicit Types (e : E).

(** ** State *)
Definition maximum_pending_resets : nat := 64.

(** The arena of the state is the one of the world. *)
Record NativeState := MkNativeState {
  ns_worker : WorkerId; ns_limits : Http2Limits; ns_event_sink : Http2EventSink E; ns_log_sink : DependencyLogSink L;
  ns_header_bytes : Z; ns_header_fields : Z; ns_free_allocations : option pointer; ns_pending_reset_streams : list Z;
  ns_pending_reset_count : Z; ns_data_provider_error : Error; ns_input_limit_failed : bool; ns_pending_reset_overflow : bool;
  ns_data_provider_failed : bool }.

(** The sizes of the fields, with 112 bytes for an error and 256 for the pending resets, padded. *)
Definition sizeof_NativeState : Z := 480.
Definition alignof_NativeState : Z := 8.

Definition NativeState_initial (worker : WorkerId) (limits : Http2Limits) (events : Http2EventSink E) (log : DependencyLogSink L) : NativeState :=
  MkNativeState worker limits events log 0 0 None (replicate maximum_pending_resets 0) 0 h2_provider_error false false false.

Implicit Types (st : NativeState).
Definition set_header_counts st (bytes fields : Z) : NativeState :=
  MkNativeState (ns_worker st) (ns_limits st) (ns_event_sink st) (ns_log_sink st) bytes fields (ns_free_allocations st)
    (ns_pending_reset_streams st) (ns_pending_reset_count st) (ns_data_provider_error st) (ns_input_limit_failed st)
    (ns_pending_reset_overflow st) (ns_data_provider_failed st).
Definition set_free_allocations st (free : option pointer) : NativeState :=
  MkNativeState (ns_worker st) (ns_limits st) (ns_event_sink st) (ns_log_sink st) (ns_header_bytes st) (ns_header_fields st) free
    (ns_pending_reset_streams st) (ns_pending_reset_count st) (ns_data_provider_error st) (ns_input_limit_failed st)
    (ns_pending_reset_overflow st) (ns_data_provider_failed st).
Definition set_pending st (streams : list Z) (count : Z) (overflow : bool) : NativeState :=
  MkNativeState (ns_worker st) (ns_limits st) (ns_event_sink st) (ns_log_sink st) (ns_header_bytes st) (ns_header_fields st)
    (ns_free_allocations st) streams count (ns_data_provider_error st) (ns_input_limit_failed st) overflow (ns_data_provider_failed st).
Definition set_input_limit_failed st (failed : bool) : NativeState :=
  MkNativeState (ns_worker st) (ns_limits st) (ns_event_sink st) (ns_log_sink st) (ns_header_bytes st) (ns_header_fields st)
    (ns_free_allocations st) (ns_pending_reset_streams st) (ns_pending_reset_count st) (ns_data_provider_error st) failed
    (ns_pending_reset_overflow st) (ns_data_provider_failed st).
Definition set_data_provider st (failure : Error) (failed : bool) : NativeState :=
  MkNativeState (ns_worker st) (ns_limits st) (ns_event_sink st) (ns_log_sink st) (ns_header_bytes st) (ns_header_fields st)
    (ns_free_allocations st) (ns_pending_reset_streams st) (ns_pending_reset_count st) failure (ns_input_limit_failed st)
    (ns_pending_reset_overflow st) failed.

Definition native_status (code : Z) : DependencyStatus :=
  if code =? NGHTTP2_ERR_NOMEM _ _ lib then status_exhaustion else
  if (code =? NGHTTP2_ERR_INVALID_ARGUMENT _ _ lib) || (code =? NGHTTP2_ERR_INVALID_HEADER_BLOCK _ _ lib) then status_invalid_input else
  if code =? NGHTTP2_ERR_STREAM_ID_NOT_AVAILABLE _ _ lib then status_exhaustion else status_corrupt_data.

(** ** Callbacks *)
Definition h2_stream_id (value : Z) : Http2StreamId :=
  match Http2StreamId_from_wire value with Ok id => id | Err _ => Http2StreamId_default end.

(** Whether a stream is among the first [count] pending ones, from [index] on. *)
Fixpoint pending_loop (count index : nat) (streams : list Z) (stream : Z) : outcome bool :=
  match count with
  | O => Ret false
  | S count =>
      value ← slot streams (Z.of_nat index);
      if value =? stream then Ret true else pending_loop count (S index) streams stream
  end.

Definition callback_result st e (event : Http2Event) (pausable rejectable : bool) : outcome (Z * NativeState * E) :=
  match es_write (ns_event_sink st) with
  | None => Ret (0, st, e)
  | Some write =>
      let '(action, e) := write event e in
      match action with
      | continue_processing => Ret (0, st, e)
      | _ =>
          let is_pause := match action with pause => true | _ => false end in
          let is_reject := match action with reject_stream => true | _ => false end in
          let is_data := match ev_kind event with h2_data => true | _ => false end in
          if is_pause && pausable then Ret (NGHTTP2_ERR_PAUSE _ _ lib, st, e) else
          if is_reject && rejectable then Ret (NGHTTP2_ERR_TEMPORAL_CALLBACK_FAILURE _ _ lib, st, e) else
          if is_reject && is_data && Http2StreamId_valid (ev_stream event) then
            let rejected_stream := wire_value (ev_stream event) in
            found ← pending_loop (Z.to_nat (ns_pending_reset_count st)) 0 (ns_pending_reset_streams st) rejected_stream;
            if (found : bool) then Ret (0, st, e) else
            if ns_pending_reset_count st =? Z.of_nat (length (ns_pending_reset_streams st)) then
              Ret (NGHTTP2_ERR_CALLBACK_FAILURE _ _ lib, set_pending st (ns_pending_reset_streams st) (ns_pending_reset_count st) true, e)
            else
              streams ← set_slot (ns_pending_reset_streams st) (ns_pending_reset_count st) rejected_stream;
              Ret (NGHTTP2_ERR_PAUSE _ _ lib,
                   set_pending st streams (u64 (ns_pending_reset_count st + 1)) (ns_pending_reset_overflow st), e)
          else Ret (NGHTTP2_ERR_CALLBACK_FAILURE _ _ lib, st, e)
      end
  end.

Definition Http2Event_of (kind : Http2EventKind) (stream : Z) (end_stream : bool) : Http2Event :=
  MkHttp2Event kind (h2_stream_id stream) empty_span empty_span empty_span 0 0 0 0 empty_span end_stream false false.

Definition frame_flag (frame : nghttp2_frame) (flag : Z) : bool := negb (Z.land (fr_flags frame) flag =? 0).
Definition frame_ends frame : bool := frame_flag frame (NGHTTP2_FLAG_END_STREAM _ _ lib).

Definition on_begin_headers st e (frame : nghttp2_frame) : outcome (Z * NativeState * E) :=
  callback_result (set_header_counts st 0 0) e (Http2Event_of h2_headers_begin (fr_stream_id frame) (frame_ends frame)) false true.

Definition on_header st e (frame : nghttp2_frame) (name value : span) (flags : Z) : outcome (Z * NativeState * E) :=
  let name_length := span_size name in
  let value_length := span_size value in
  if (u64 (size_max - value_length) <? name_length) || (u64 (size_max - name_length - value_length) <? ns_header_bytes st) then
    Ret (NGHTTP2_ERR_TEMPORAL_CALLBACK_FAILURE _ _ lib, set_input_limit_failed st true, e)
  else
  let st := set_header_counts st (u64 (ns_header_bytes st + u64 (name_length + value_length))) (u64 (ns_header_fields st + 1)) in
  if (h2_header_block_bytes (ns_limits st) <? ns_header_bytes st) || (h2_header_fields (ns_limits st) <? ns_header_fields st) then
    Ret (NGHTTP2_ERR_TEMPORAL_CALLBACK_FAILURE _ _ lib, set_input_limit_failed st true, e)
  else
  match ByteView_from name, ByteView_from value with
  | Ok name_view, Ok value_view =>
      callback_result st e
        (MkHttp2Event h2_header (h2_stream_id (fr_stream_id frame)) name_view value_view empty_span 0 0 0 0 empty_span
           (frame_ends frame) (negb (Z.land flags (NGHTTP2_NV_FLAG_NO_INDEX _ _ lib) =? 0)) false) true true
  | _, _ => Ret (NGHTTP2_ERR_CALLBACK_FAILURE _ _ lib, st, e)
  end.

Definition on_data st e (flags stream : Z) (data : span) : outcome (Z * NativeState * E) :=
  match ByteView_from data with
  | Err _ => Ret (NGHTTP2_ERR_CALLBACK_FAILURE _ _ lib, st, e)
  | Ok data_view =>
      callback_result st e
        (MkHttp2Event h2_data (h2_stream_id stream) empty_span empty_span data_view 0 0 0 0 empty_span
           (negb (Z.land flags (NGHTTP2_FLAG_END_STREAM _ _ lib) =? 0)) false false) true false
  end.

Definition settings_event frame (code value : Z) : Http2Event :=
  MkHttp2Event h2_settings (h2_stream_id (fr_stream_id frame)) empty_span empty_span empty_span code value 0 0 empty_span
    (frame_ends frame) false (frame_flag frame (NGHTTP2_FLAG_ACK _ _ lib)).

Fixpoint settings_loop (settings : list (Z * Z)) st e frame : outcome (Z * NativeState * E) :=
  match settings with
  | [] => Ret (0, st, e)
  | (settings_id, value) :: settings =>
      '(result, st, e) ← callback_result st e (settings_event frame (u32 settings_id) value) false false;
      if negb (result =? 0) then Ret (result, st, e) else settings_loop settings st e frame
  end.

Definition on_frame_received st e (frame : nghttp2_frame) : outcome (Z * NativeState * E) :=
  let event kind code last increment debug :=
    MkHttp2Event kind (h2_stream_id (fr_stream_id frame)) empty_span empty_span empty_span code 0 last increment debug
      (frame_ends frame) false false in
  if fr_type frame =? NGHTTP2_SETTINGS _ _ lib then
    match fr_settings frame with
    | [] => callback_result st e (settings_event frame 0 0) false false
    | settings => settings_loop settings st e frame
    end
  else if fr_type frame =? NGHTTP2_RST_STREAM _ _ lib then
    callback_result st e (event h2_reset (fr_error_code frame) 0 0 empty_span) false false
  else if fr_type frame =? NGHTTP2_GOAWAY _ _ lib then
    if h2_debug_data_bytes (ns_limits st) <? span_size (fr_opaque frame) then
      Ret (NGHTTP2_ERR_CALLBACK_FAILURE _ _ lib, set_input_limit_failed st true, e)
    else
    match ByteView_from (fr_opaque frame) with
    | Err _ => Stop Undefined
    | Ok debug => callback_result st e (event h2_goaway (fr_error_code frame) (fr_last_stream_id frame) 0 debug) false false
    end
  else if fr_type frame =? NGHTTP2_WINDOW_UPDATE _ _ lib then
    callback_result st e (event h2_window_update 0 0 (fr_window_increment frame) empty_span) false false
  else callback_result st e (event h2_frame_received 0 0 0 empty_span) false false.

Definition on_stream_closed st e (stream code : Z) : outcome (Z * NativeState * E) :=
  callback_result st e
    (MkHttp2Event h2_stream_closed (h2_stream_id stream) empty_span empty_span empty_span code 0 0 0 empty_span false false false) false false.

(** The result, the data flags, the state, and what the provider wrote to the buffer. *)
Definition on_data_source_read (providers : gmap Z (Http2DataProvider E)) st e (buffer : pointer) (length data_flags : Z) (source : option Z) :
    outcome (Z * Z * NativeState * list Z * E) :=
  let failed failure := (NGHTTP2_ERR_CALLBACK_FAILURE _ _ lib, data_flags, set_data_provider st failure true) in
  match source with
  | None => Ret (failed h2_provider_inactive_error, [], e)
  | Some address =>
      match providers !! address with
      | None => Stop Undefined
      | Some provider =>
          match dp_read provider with
          | None => Ret (failed h2_provider_inactive_error, [], e)
          | Some read =>
              match MutableByteView_from (MkSpan (Some buffer) length) with
              | Err failure => Ret (failed failure, [], e)
              | Ok _ =>
                  let '(produced, written, e) := read length e in
                  match produced with
                  | Err failure => Ret (failed failure, written, e)
                  | Ok produced =>
                      let deferred := match dr_state produced with read_deferred => true | _ => false end in
                      if (length <? dr_bytes produced) || (deferred && negb (dr_bytes produced =? 0)) then
                        Ret (failed h2_provider_size_error, written, e)
                      else if deferred then Ret (NGHTTP2_ERR_DEFERRED _ _ lib, data_flags, st, written, e)
                      else
                        let data_flags := match dr_state produced with
                                          | read_end => Z.lor data_flags (NGHTTP2_DATA_FLAG_EOF _ _ lib)
                                          | _ => data_flags
                                          end in
                        Ret (cast int64_t (dr_bytes produced), data_flags, st, written, e)
                  end
              end
          end
      end
  end.

(** ** The world *)
Record Http2World := MkHttp2World {
  w2_arena : BoundedArena (C * Memory); w2_heap : Heap; w2_context : C * Memory; w2_headers : Headers; w2_globals : G; w2_log : L;
  w2_env : E; w2_providers : gmap Z (Http2DataProvider E); w2_states : gmap pointer NativeState; w2_sessions : gmap pointer N }.
Implicit Types (w : Http2World).

Definition w2_set_states w (states : gmap pointer NativeState) : Http2World :=
  MkHttp2World (w2_arena w) (w2_heap w) (w2_context w) (w2_headers w) (w2_globals w) (w2_log w) (w2_env w) (w2_providers w) states (w2_sessions w).
Definition w2_set_state w (u : pointer) st : Http2World := w2_set_states w (<[u := st]> (w2_states w)).
Definition w2_set_env w e : Http2World :=
  MkHttp2World (w2_arena w) (w2_heap w) (w2_context w) (w2_headers w) (w2_globals w) (w2_log w) e (w2_providers w) (w2_states w) (w2_sessions w).
Definition w2_set_log w (l : L) : Http2World :=
  MkHttp2World (w2_arena w) (w2_heap w) (w2_context w) (w2_headers w) (w2_globals w) l (w2_env w) (w2_providers w) (w2_states w) (w2_sessions w).
Definition w2_set_globals w (g : G) : Http2World :=
  MkHttp2World (w2_arena w) (w2_heap w) (w2_context w) (w2_headers w) g (w2_log w) (w2_env w) (w2_providers w) (w2_states w) (w2_sessions w).
Definition w2_set_sessions w (sessions : gmap pointer N) : Http2World :=
  MkHttp2World (w2_arena w) (w2_heap w) (w2_context w) (w2_headers w) (w2_globals w) (w2_log w) (w2_env w) (w2_providers w) (w2_states w) sessions.
Definition w2_set_memory w (arena : BoundedArena (C * Memory)) (h : Heap) (c : C * Memory) (headers : Headers) : Http2World :=
  MkHttp2World arena h c headers (w2_globals w) (w2_log w) (w2_env w) (w2_providers w) (w2_states w) (w2_sessions w).

(** What the allocator of a state acts on, and the world after it. *)
Definition view_memory w st : PoolState C :=
  MkPoolState (MkNativeMemoryPool (ns_worker st) (ba_generation (w2_arena w)) (ns_free_allocations st))
    (w2_arena w) (w2_heap w) (w2_context w) (w2_headers w).
Definition put_memory w (u : pointer) st (s : PoolState C) : Http2World :=
  w2_set_state (w2_set_memory w (ps_arena s) (ps_heap s) (ps_context s) (ps_headers s)) u (set_free_allocations st (np_free_list (ps_pool s))).

(** The context of the allocator and the user data are those of a state that exists. *)
Definition h2_state_at w (u : pointer) : outcome NativeState :=
  match w2_states w !! u with Some st => Ret st | None => Stop Undefined end.

Definition h2_request (u : pointer) (op : PoolOp) w : outcome (option pointer * Http2World) :=
  st ← h2_state_at w u;
  '(r, s) ← h2_exec (view_memory w st) op;
  Ret (r, put_memory w u st s).

(** A callback other than a read. *)
Definition h2_event_callback st e (event : Http2Callback) : outcome (Z * NativeState * E) :=
  match event with
  | On_begin_headers frame => on_begin_headers st e frame
  | On_header frame name value flags => on_header st e frame name value flags
  | On_data flags stream data => on_data st e flags stream data
  | On_frame_received frame => on_frame_received st e frame
  | On_stream_closed stream code => on_stream_closed st e stream code
  | On_data_source_read _ _ _ _ _ _ => Stop Undefined
  end.

Definition h2_callback (u : pointer) (event : Http2Callback) w : outcome (Http2Reply * Http2World) :=
  st ← h2_state_at w u;
  match event with
  | On_data_source_read _ block offset length data_flags source =>
      '(result, data_flags, st, written, e) ← on_data_source_read (w2_providers w) st (w2_env w) (ptr_add block offset) length data_flags source;
      m ← store_bytes (snd (w2_context w)) (ptr_add block offset) written;
      Ret (result, data_flags, w2_set_state (w2_set_env (w2_set_memory w (w2_arena w) (w2_heap w) (fst (w2_context w), m) (w2_headers w)) e) u st)
  | _ =>
      '(result, st, e) ← h2_event_callback st (w2_env w) event;
      Ret (result, 0, w2_set_state (w2_set_env w e) u st)
  end.

Definition h2_native_error (operation : DependencyOperation) (code : Z) (sink : DependencyLogSink L) w : Error * Http2World :=
  let failure := normalize_dependency_error id_nghttp2 operation (native_status code) code in
  (failure, w2_set_log w (log_dependency_error sink (w2_log w) failure)).

(** A call on the session object at an address. *)
Definition h2_native {A} (session : pointer) (f : N -> Http2Call (A * N)) w : outcome (A * Http2World) :=
  match w2_sessions w !! session with
  | None => Stop Undefined
  | Some n =>
      '(answer, w) ← converse h2_request h2_callback (f n) w;
      Ret (fst answer, w2_set_sessions w (<[session := snd answer]> (w2_sessions w)))
  end.

(** ** Sessions *)
Record Http2Session := MkHttp2Session { q_session : option pointer; q_state : option pointer; q_arena : option nat; q_generation : Z }.
Definition no_session : Http2Session := MkHttp2Session None None None 0.

Definition validate_limits (limits : Http2Limits) : Result unit :=
  if (h2_header_block_bytes limits =? 0) || (h2_header_fields limits =? 0) || (Z.of_nat maximum_submission_headers <? h2_header_fields limits)
  then Err h2_limits_error else Ok tt.

Definition h2_failed {A} (operation : DependencyOperation) (code : Z) (sink : DependencyLogSink L) w : outcome (Result A * Http2World) :=
  let '(failure, w) := h2_native_error operation code sink w in Ret (Err failure, w).

Fixpoint set_callbacks (names : list Http2CallbackName) (callbacks : Z) (g : G) : outcome G :=
  match names with
  | [] => Ret g
  | name :: names => g ← nghttp2_session_callbacks_set _ _ lib name callbacks g; set_callbacks names callbacks g
  end.

Definition callback_names : list Http2CallbackName := [set_begin_headers; set_header; set_data_chunk; set_frame_recv; set_stream_close].

(** The part of [create] after the state: the callbacks, the options and the session. *)
Definition create_session (role : Http2Role) (u : pointer) (log_sink : DependencyLogSink L) w : outcome (Result Http2Session * Http2World) :=
  let '(result, callbacks, g) := nghttp2_session_callbacks_new _ _ lib (w2_globals w) in
  let w := w2_set_globals w g in
  if negb (result =? 0) then h2_failed op_http2_session result log_sink w else
  match callbacks with
  | None => Stop Undefined
  | Some callbacks =>
      g ← set_callbacks callback_names callbacks (w2_globals w);
      let '(result, options, g) := nghttp2_option_new _ _ lib g in
      if negb (result =? 0) then
        g ← nghttp2_session_callbacks_del _ _ lib callbacks g;
        h2_failed op_http2_session result log_sink (w2_set_globals w g)
      else
      match options with
      | None => Stop Undefined
      | Some options =>
          g ← nghttp2_option_set_no_auto_window_update _ _ lib options 1 g;
          '(answer, w) ← converse h2_request h2_callback
             (match role with
              | http2_client => nghttp2_session_client_new3 _ _ lib callbacks u options g
              | _ => nghttp2_session_server_new3 _ _ lib callbacks u options g
              end) (w2_set_globals w g);
          let '(result, native_session) := answer in
          g ← nghttp2_option_del _ _ lib options (w2_globals w);
          g ← nghttp2_session_callbacks_del _ _ lib callbacks g;
          let w := w2_set_globals w g in
          if negb (result =? 0) then h2_failed op_http2_session result log_sink w else
          let w := match native_session with
                   | Some (session, n) => w2_set_sessions w (<[session := n]> (w2_sessions w))
                   | None => w
                   end in
          Ret (Ok (MkHttp2Session (fst <$> native_session) (Some u) (Some (ba_address (w2_arena w))) (ba_generation (w2_arena w))), w)
      end
  end.

Definition Http2Session_create (worker : WorkerId) (role : Http2Role) (limits : Http2Limits) (event_sink : Http2EventSink E)
    (log_sink : DependencyLogSink L) w : outcome (Result Http2Session * Http2World) :=
  match role with
  | http2_role_unlisted _ => Ret (Err h2_role_error, w)
  | _ =>
      match validate_limits limits with
      | Err failure => Ret (Err failure, w)
      | Ok _ =>
          '(state_storage, (arena, h, c)) ← BoundedArena_try_allocate (w2_arena w) (w2_heap w) (w2_context w) worker sizeof_NativeState alignof_NativeState;
          let w := w2_set_memory w arena h c (w2_headers w) in
          match state_storage with
          | Err failure => Ret (Err failure, w)
          | Ok state_storage =>
              match ArenaView_bytes state_storage arena with
              | Err failure => Ret (Err failure, w)
              | Ok state_bytes =>
                  match span_data state_bytes with
                  | None => Stop Undefined
                  | Some u => create_session role u log_sink (w2_set_state w u (NativeState_initial worker limits event_sink log_sink))
                  end
              end
          end
      end
  end.

(** The session object and the state of a valid session. *)
Definition h2_require_valid {A} (this : Http2Session) w (k : pointer -> pointer -> outcome (Result A * Http2World)) : outcome (Result A * Http2World) :=
  match q_session this, q_state this, q_arena this with
  | Some session, Some u, Some _ =>
      if negb (ba_generation (w2_arena w) =? q_generation this) then Ret (Err h2_inactive_error, w) else k session u
  | _, _, _ => Ret (Err h2_inactive_error, w)
  end.

(** The loop over the pending resets. *)
Fixpoint reset_loop (fuel index : nat) (session u : pointer) w : outcome (Result unit * Http2World) :=
  st ← h2_state_at w u;
  if ns_pending_reset_count st <=? Z.of_nat index then Ret (Ok tt, w) else
  match fuel with
  | O => Stop OutOfFuel
  | S fuel =>
      stream ← slot (ns_pending_reset_streams st) (Z.of_nat index);
      '(result, w) ← h2_native session (nghttp2_submit_rst_stream _ _ lib (NGHTTP2_FLAG_NONE _ _ lib) stream (NGHTTP2_CANCEL _ _ lib)) w;
      if negb (result =? 0) && negb (result =? NGHTTP2_ERR_STREAM_CLOSED _ _ lib) then
        st ← h2_state_at w u;
        h2_failed op_http2_submit result (ns_log_sink st) (w2_set_state w u (set_pending st (ns_pending_reset_streams st) 0 (ns_pending_reset_overflow st)))
      else reset_loop fuel (S index) session u w
  end.

Definition Http2Session_receive (this : Http2Session) (input : list Z) w : outcome (Result Z * Http2World) :=
  h2_require_valid this w (fun session u =>
    '(result, w) ← h2_native session (nghttp2_session_mem_recv _ _ lib input) w;
    st ← h2_state_at w u;
    if ns_input_limit_failed st then Ret (Err h2_input_error, w2_set_state w u (set_input_limit_failed st false)) else
    if ns_pending_reset_overflow st then Ret (Err h2_rejected_error, w2_set_state w u (set_pending st (ns_pending_reset_streams st) 0 false)) else
    if result <? 0 then h2_failed op_http2_receive (cast int32_t result) (ns_log_sink st) w else
    '(r, w) ← reset_loop maximum_pending_resets 0 session u w;
    match r with
    | Err failure => Ret (Err failure, w)
    | Ok _ =>
        st ← h2_state_at w u;
        Ret (Ok (cast size_t result), w2_set_state w u (set_pending st (ns_pending_reset_streams st) 0 (ns_pending_reset_overflow st)))
    end).

Definition Http2Session_next_output (this : Http2Session) w : outcome (Result ByteView * Http2World) :=
  h2_require_valid this w (fun session u =>
    '(result, data, w) ← h2_native session (nghttp2_session_mem_send _ _ lib) w;
    st ← h2_state_at w u;
    if ns_data_provider_failed st then
      Ret (Err (ns_data_provider_error st), w2_set_state w u (set_data_provider st (ns_data_provider_error st) false))
    else if result <? 0 then h2_failed op_http2_send (cast int32_t result) (ns_log_sink st) w
    else Ret (ByteView_from (MkSpan data (cast size_t result)), w)).

Definition Http2Session_interest (this : Http2Session) w : outcome (Result Http2IoInterest * Http2World) :=
  h2_require_valid this w (fun session u =>
    match w2_sessions w !! session with
    | None => Stop Undefined
    | Some n => Ret (Ok (MkHttp2IoInterest (negb (nghttp2_session_want_read _ _ lib n =? 0)) (negb (nghttp2_session_want_write _ _ lib n =? 0)) false), w)
    end).

(** ** Submissions *)
Definition h2_size (bytes : list Z) : Z := Z.of_nat (length bytes).

Definition h2_header_refused (header : Http2Header) (maximum total : Z) : bool :=
  bool_decide (h2_name header = []) || (u64 (maximum - total) <? h2_size (h2_name header)) ||
  (u64 (maximum - total - h2_size (h2_name header)) <? h2_size (h2_value header)).

Definition nv2_of (header : Http2Header) : nghttp2_nv :=
  MkNghttp2Nv (h2_name header) (h2_value header) (h2_size (h2_name header)) (h2_size (h2_value header))
    (if h2_sensitive header then NGHTTP2_NV_FLAG_NO_INDEX _ _ lib else NGHTTP2_NV_FLAG_NONE _ _ lib).

(** The loop over the headers; the array of native ones is filled from [index] on. *)
Fixpoint headers_loop (headers : list Http2Header) (maximum : Z) (index : nat) (native : list nghttp2_nv) (total : Z) :
    outcome (Result (list nghttp2_nv)) :=
  match headers with
  | [] => Ret (Ok native)
  | header :: headers =>
      if h2_header_refused header maximum total then Ret (Err h2_header_block_error) else
      let total := u64 (total + u64 (h2_size (h2_name header) + h2_size (h2_value header))) in
      native ← set_slot native (Z.of_nat index) (nv2_of header);
      headers_loop headers maximum (S index) native total
  end.

(** The stream the library assigned, when it is asked for. *)
Definition submit_headers_impl (this : Http2Session) (native_stream_id : Z) (headers : list Http2Header) (end_stream assign : bool) w :
    outcome (Result (option Http2StreamId) * Http2World) :=
  h2_require_valid this w (fun session u =>
    st ← h2_state_at w u;
    if bool_decide (headers = []) || (h2_header_fields (ns_limits st) <? Z.of_nat (length headers)) ||
       (maximum_submission_headers <? length headers)%nat then Ret (Err h2_header_count_error, w) else
    native ← headers_loop headers (h2_header_block_bytes (ns_limits st)) 0 (replicate maximum_submission_headers nghttp2_nv_default) 0;
    match native with
    | Err failure => Ret (Err failure, w)
    | Ok native =>
        let flags := Z.lor (NGHTTP2_FLAG_END_HEADERS _ _ lib) (if end_stream then NGHTTP2_FLAG_END_STREAM _ _ lib else 0) in
        '(result, w) ← h2_native session (nghttp2_submit_headers _ _ lib flags native_stream_id (take (length headers) native)) w;
        if result <? 0 then h2_failed op_http2_submit result (ns_log_sink st) w else
        if (assign : bool) then
          match Http2StreamId_from_wire result with
          | Err failure => Ret (Err failure, w)
          | Ok converted => Ret (Ok (Some converted), w)
          end
        else Ret (Ok None, w)
    end).

Definition Http2Session_submit_request (this : Http2Session) (headers : list Http2Header) (end_stream : bool) w :
    outcome (Result Http2StreamId * Http2World) :=
  '(r, w) ← submit_headers_impl this (-1) headers end_stream true w;
  Ret (match r with Ok assigned => Ok (default Http2StreamId_default assigned) | Err failure => Err failure end, w).

Definition Http2Session_submit_headers (this : Http2Session) (stream : Http2StreamId) (headers : list Http2Header) (end_stream : bool) w :
    outcome (Result unit * Http2World) :=
  if negb (Http2StreamId_valid stream) then Ret (Err h2_stream_error, w) else
  '(r, w) ← submit_headers_impl this (wire_value stream) headers end_stream false w;
  Ret (match r with Ok _ => Ok tt | Err failure => Err failure end, w).

(** One call whose nonzero result is an error, after the checks of its arguments. *)
Definition h2_submit (this : Http2Session) (refused : option Error) (f : N -> Http2Call (Z * N)) w : outcome (Result unit * Http2World) :=
  h2_require_valid this w (fun session u =>
    match refused with
    | Some failure => Ret (Err failure, w)
    | None =>
        st ← h2_state_at w u;
        '(result, w) ← h2_native session f w;
        if negb (result =? 0) then h2_failed op_http2_submit result (ns_log_sink st) w else Ret (Ok tt, w)
    end).

Definition refuse_stream (stream : Http2StreamId) : option Error := if Http2StreamId_valid stream then None else Some h2_stream_error.

(** The entries of the array of settings, up to their number. *)
Definition setting_entry (setting : Http2Setting) : Z * Z := (cast int32_t (h2_identifier setting), h2_setting setting).
Definition Http2Session_submit_settings (this : Http2Session) (settings : list Http2Setting) w : outcome (Result unit * Http2World) :=
  h2_submit this (if (maximum_settings <? length settings)%nat then Some h2_settings_error else None)
    (nghttp2_submit_settings _ _ lib (NGHTTP2_FLAG_NONE _ _ lib) (map setting_entry settings)) w.

(** The provider is the caller's object at an address. *)
Definition Http2Session_submit_data (this : Http2Session) (stream : Http2StreamId) (provider : Z) (end_stream : bool) w : outcome (Result unit * Http2World) :=
  match w2_providers w !! provider with
  | None => Stop Undefined
  | Some object =>
      h2_submit this (if negb (Http2StreamId_valid stream) || negb (Http2DataProvider_enabled object) then Some h2_data_error else None)
        (nghttp2_submit_data _ _ lib (if end_stream then NGHTTP2_FLAG_END_STREAM _ _ lib else NGHTTP2_FLAG_NONE _ _ lib) (wire_value stream) provider) w
  end.

Definition Http2Session_resume_data (this : Http2Session) (stream : Http2StreamId) w : outcome (Result unit * Http2World) :=
  h2_submit this (refuse_stream stream) (nghttp2_session_resume_data _ _ lib (wire_value stream)) w.

Definition Http2Session_submit_reset (this : Http2Session) (stream : Http2StreamId) (error_code : Z) w : outcome (Result unit * Http2World) :=
  h2_submit this (refuse_stream stream) (nghttp2_submit_rst_stream _ _ lib (NGHTTP2_FLAG_NONE _ _ lib) (wire_value stream) error_code) w.

Definition Http2Session_submit_goaway (this : Http2Session) (last_stream_id error_code : Z) (debug_data : list Z) w : outcome (Result unit * Http2World) :=
  h2_require_valid this w (fun session u =>
    st ← h2_state_at w u;
    if (last_stream_id <? 0) || (h2_debug_data_bytes (ns_limits st) <? h2_size debug_data) then Ret (Err h2_goaway_error, w) else
    '(result, w) ← h2_native session (nghttp2_submit_goaway _ _ lib (NGHTTP2_FLAG_NONE _ _ lib) last_stream_id error_code debug_data) w;
    if negb (result =? 0) then h2_failed op_http2_submit result (ns_log_sink st) w else Ret (Ok tt, w)).

Definition Http2Session_submit_connection_window_update (this : Http2Session) (increment : Z) w : outcome (Result unit * Http2World) :=
  h2_submit this None (nghttp2_submit_window_update _ _ lib (NGHTTP2_FLAG_NONE _ _ lib) 0 increment) w.

Definition Http2Session_submit_stream_window_update (this : Http2Session) (stream : Http2StreamId) (increment : Z) w : outcome (Result unit * Http2World) :=
  h2_submit this (refuse_stream stream) (nghttp2_submit_window_update _ _ lib (NGHTTP2_FLAG_NONE _ _ lib) (wire_value stream) increment) w.

(** ** Release and moves *)
Definition Http2Session_release (this : Http2Session) w : outcome (Http2Session * Http2World) :=
  w ← (match q_session this, q_arena this with
       | Some session, Some _ =>
           if negb (ba_generation (w2_arena w) =? q_generation this) then Ret w else
           match w2_sessions w !! session with
           | None => Stop Undefined
           | Some n =>
               '(_, w) ← converse h2_request h2_callback (nghttp2_session_del _ _ lib n) w;
               Ret (w2_set_sessions w (delete session (w2_sessions w)))
           end
       | _, _ => Ret w
       end);
  Ret (no_session, w).

(** [this] and what is left of [other]. *)
Definition Http2Session_move_from (this other : Http2Session) : Http2Session * Http2Session := (other, no_session).
Definition Http2Session_move_construct (other : Http2Session) : Http2Session * Http2Session := Http2Session_move_from no_session other.

(** Between two distinct sessions; self-assignment does nothing. *)
Definition Http2Session_move_assign (this other : Http2Session) w : outcome (Http2Session * Http2Session * Http2World) :=
  '(this, w) ← Http2Session_release this w; Ret (Http2Session_move_from this other, w).
Definition Http2Session_destroy (this : Http2Session) w : outcome Http2World :=
  '(_, w) ← Http2Session_release this w; Ret w.
End http2.
Arguments NativeState : clear implicits.
Arguments Http2World : clear implicits.
