(* ===== verification/Http2Spec.v ===== *)
(** * The memory of HTTP/2 sessions

    The allocator of a session is the one of the native pool without its synchronization.
    Several sessions allocate from one arena, each with a free list of its own: every block of
    the arena belongs to one session, which has it in its list or owns it, and a call of the
    library for one session leaves the blocks of the others alone. *)
From S2P Require Import Prelude Contract CheckedArithmetic Identifiers MemoryBudget MemoryBudgetSpec BudgetInvariant Views BinaryEnvelope BlockSource BoundedArena ArenaSpec.
From S2P Require Import NativeMemory NativeSpec Dependencies CodecPool Conversations Http2.
From Stdlib Require Import ZArith Lia String Ascii.
From stdpp Require Import base numbers list gmap option fin_map_dom.

Set Default Goal Selector "!".
#[local] Open Scope Z_scope.

(** ** One allocator *)
Section allocator.
Context {C : Type}.
Implicit Types (s : PoolState C).

Lemma h2_allocate_malloc s size : synchronized s -> h2_arena_allocate s size = arena_malloc s size.
Proof. intros Hs. unfold h2_arena_allocate, arena_malloc. by rewrite synchronize_id. Qed.

Lemma h2_free_free s address : synchronized s -> memory_free s address = arena_free s address.
Proof. intros Hs. unfold memory_free, arena_free. by rewrite synchronize_id. Qed.

(** Allocation keeps the generation of the pool. *)
Lemma unlink_generation s size previous a s' : unlink s size previous a = Ret s' -> np_generation (ps_pool s') = np_generation (ps_pool s).
Proof.
  unfold unlink. intros H. apply outcome_bind_Ret_inv in H as (x & _ & H). apply outcome_bind_Ret_inv in H as (s1 & E1 & H). injection H as <-.
  destruct previous as [b|]; [|by injection E1 as <-]. apply outcome_bind_Ret_inv in E1 as (y & _ & E1). by injection E1 as <-.
Qed.

Lemma allocate_block_generation s size r s' : allocate_block s size = Ret (r, s') -> np_generation (ps_pool s') = np_generation (ps_pool s).
Proof.
  unfold allocate_block. destruct (_ <? size); [by intros [= _ <-]|].
  intros H. apply outcome_bind_Ret_inv in H as ([v [[arena h] c]] & E & H).
  destruct v as [v|]; [|by injection H as _ <-]. destruct (ArenaView_bytes v arena) as [b|]; [|by injection H as _ <-].
  destruct (span_data b); [|done]. by injection H as _ <-.
Qed.

Lemma malloc_synchronized s size r s' : synchronized s -> arena_malloc s size = Ret (r, s') -> synchronized s'.
Proof.
  intros Hs E. pose proof (arena_malloc_kept _ _ _ _ E) as [(Hg & _) _]. unfold synchronized. rewrite Hg, <- Hs.
  revert E. unfold arena_malloc. rewrite synchronize_id by done. intros H. apply outcome_bind_Ret_inv in H as ([previous a] & _ & H).
  destruct a as [a|]; [|by eapply allocate_block_generation]. apply outcome_bind_Ret_inv in H as (s1 & E1 & H). injection H as _ <-. by eapply unlink_generation.
Qed.

Lemma h2_exec_pool s op : synchronized s -> h2_exec s op = exec_pool s op.
Proof.
  intros Hs. destruct op as [size|count size|address size|address|p offset bytes|boundary]; cbn [h2_exec exec_pool]; try done.
  - by apply h2_allocate_malloc.
  - unfold memory_calloc, arena_calloc. by rewrite h2_allocate_malloc.
  - unfold memory_realloc, arena_realloc. destruct address as [p|]; [|by apply h2_allocate_malloc].
    rewrite h2_free_free, h2_allocate_malloc by done. destruct (size =? 0); [done|]. destruct (header _ _) as [x|]; [|done]. rewrite !outcome_bind_Ret.
    destruct (size <=? aa_capacity x); [done|]. destruct (arena_malloc s size) as [[r s']|] eqn:E; [|done]. rewrite !outcome_bind_Ret.
    destruct r as [q|]; [|done]. destruct (header (ps_headers s') _) as [y|]; [|done]. rewrite !outcome_bind_Ret. destruct (memcpy _ _ _ _) as [m|]; [|done].
    rewrite !outcome_bind_Ret. rewrite h2_free_free; [done|]. by eapply malloc_synchronized in E.
  - by rewrite h2_free_free.
Qed.

(** ** Headers *)

(** Blocks have at least one byte in use and no more than they have. *)
Definition headers_ok (headers : Headers) : Prop := forall a x, headers !! a = Some x -> 1 <= aa_used x <= aa_capacity x.

Lemma headers_ok_insert headers a x : headers_ok headers -> 1 <= aa_used x <= aa_capacity x -> headers_ok (<[a := x]> headers).
Proof. intros H Hx b y [[<- <-]|[_ Hy]]%lookup_insert_Some; [done|by apply (H b)]. Qed.

Lemma unlink_headers s size previous a s' : unlink s size previous a = Ret s' ->
  exists x, ps_headers s !! a = Some x /\
    match previous with
    | None => ps_headers s' = <[a := MkArenaAllocation (aa_capacity x) size None]> (ps_headers s)
    | Some b => exists y, ps_headers s !! b = Some y /\
        ps_headers s' = <[a := MkArenaAllocation (aa_capacity x) size None]> (<[b := MkArenaAllocation (aa_capacity y) (aa_used y) (aa_next x)]> (ps_headers s))
    end.
Proof.
  unfold unlink, header. destruct (ps_headers s !! a) as [x|] eqn:Ex; [|done]. rewrite outcome_bind_Ret. intros H. exists x. split; [done|].
  destruct previous as [b|].
  - destruct (ps_headers s !! b) as [y|] eqn:Ey; [|done]. rewrite !outcome_bind_Ret in H. injection H as <-. by exists y.
  - rewrite outcome_bind_Ret in H. by injection H as <-.
Qed.

Lemma allocate_block_headers s size r s' : allocate_block s size = Ret (r, s') ->
  match r with None => ps_headers s' = ps_headers s | Some p => ps_headers s' = <[header_of p := MkArenaAllocation size size None]> (ps_headers s) end.
Proof.
  unfold allocate_block. destruct (_ <? size); [by intros [= <- <-]|].
  intros H. apply outcome_bind_Ret_inv in H as ([v [[arena h] c]] & E & H).
  destruct v as [v|]; [|by injection H as <- <-]. destruct (ArenaView_bytes v arena) as [b|]; [|by injection H as <- <-].
  destruct (span_data b) as [a|]; [|done]. injection H as <- <-. by rewrite header_payload.
Qed.
End allocator.

Section headers.
Context {C : Type} {acquire : C * Memory -> Z -> Result MutableByteView * (C * Memory)}.
Context {reset : C * Memory -> Result unit * (C * Memory)} `{!PoolSource acquire reset}.
Implicit Types (s : PoolState C) (live : gmap pointer (list Z)) (free : list pointer).
Abbreviation pool_inv := (pool_inv (acquire := acquire) (reset := reset)).

(** [touched] apart, the headers outside the free list stay as they are. *)
Definition headers_kept free (touched : option pointer) (headers headers' : Headers) : Prop :=
  headers_ok headers' /\ forall a, a ∉ free -> Some (payload_of a) <> touched -> is_Some (headers !! a) -> headers' !! a = headers !! a.

Lemma malloc_headers s live free size r s' : pool_inv s live free -> synchronized s -> headers_ok (ps_headers s) -> is_size size ->
  arena_malloc s size = Ret (r, s') -> headers_kept free None (ps_headers s) (ps_headers s').
Proof.
  intros HI Hsync Hok Hsize Hrun. pose proof Hrun as Hrun'. revert Hrun. unfold arena_malloc. rewrite synchronize_id by done.
  set (n := if size =? 0 then 1 else size). assert (Hn : 1 <= n) by (unfold n, is_size in *; destruct (Z.eqb_spec size 0); lia).
  pose proof (pi_chain _ _ _ HI) as Hc. rewrite synchronize_id in Hc by done.
  destruct (first_fit _ _ _ _ _) as [[previous allocation]|] eqn:Ef; [|done]. rewrite outcome_bind_Ret.
  assert (Hfuel : (length free <= base.size (ps_headers s))%nat).
  { rewrite <- size_dom. rewrite <- (size_list_to_set (C := gset pointer) free) by apply (pi_nodup _ _ _ HI).
    apply subseteq_size. intros a Ha%elem_of_list_to_set. apply elem_of_dom, (pi_split _ _ _ HI). auto. }
  destruct (first_fit_run _ n None _ _ _ Hc Hfuel) as ([previous' allocation'] & Ef' & Hfit). rewrite Ef in Ef'. injection Ef' as <- <-.
  destruct Hfit as [(l1 & a & x & l2 & -> & _ & Hx & Hfit & [= -> ->])|[Hnone _]].
  - intros H. apply outcome_bind_Ret_inv in H as (s1 & Eu & H). injection H as _ <-. destruct (unlink_headers _ _ _ _ _ Eu) as (x' & Hx' & Hh).
    rewrite Hx in Hx'. injection Hx' as <-. destruct (list.last l1) as [b|] eqn:Eb.
    + destruct Hh as (y & Hy & ->). split.
      * apply headers_ok_insert; [|cbn; lia]. apply headers_ok_insert; [done|]. exact (Hok b y Hy).
      * intros c Hc' _ _. apply last_Some in Eb as [l1' ->]. rewrite !lookup_insert_ne; [done|intros <-; apply Hc'; set_solver|intros <-; apply Hc'; set_solver].
    + rewrite Hh. split; [apply headers_ok_insert; [done|cbn; lia]|]. intros c Hc' _ _. rewrite lookup_insert_ne; [done|]. intros <-. apply Hc'. set_solver.
  - simpl in Hnone. subst allocation. intros H. apply allocate_block_headers in H as Hh. destruct r as [p|]; [|by rewrite Hh].
    rewrite Hh. split; [apply headers_ok_insert; [done|]; cbn; lia|]. intros c Hc' _ [y Hy]. rewrite lookup_insert_ne; [done|]. intros <-.
    destruct (malloc_ok s live free size HI Hsize) as (r1 & s1 & free1 & E1 & Hres). rewrite Hrun' in E1. injection E1 as <- <-.
    destruct Hres as (Hlive & _). assert (Hin : header_of p ∈ free \/ is_Some (live !! payload_of (header_of p))) by (apply (pi_split _ _ _ HI); by exists y).
    rewrite payload_header, Hlive in Hin. destruct Hin as [|[? ?]]; done.
Qed.

Lemma free_headers s live free p bytes s' : pool_inv s live free -> synchronized s -> headers_ok (ps_headers s) -> live !! p = Some bytes ->
  arena_free s (Some p) = Ret s' -> headers_kept free (Some p) (ps_headers s) (ps_headers s').
Proof.
  intros HI Hsync Hok Hp. unfold arena_free. rewrite synchronize_id by done. unfold header.
  destruct (ps_headers s !! header_of p) as [x|] eqn:Ex; [|done]. rewrite outcome_bind_Ret. intros [= <-]. cbn. split.
  - apply headers_ok_insert; [done|]. exact (Hok _ _ Ex).
  - intros a _ Ha _. rewrite lookup_insert_ne; [done|]. intros <-. apply Ha. by rewrite payload_header.
Qed.

Definition touched (op : PoolOp) : option pointer := match op with PRealloc (Some p) _ | PFree (Some p) => Some p | _ => None end.

Lemma headers_kept_refl free t headers : headers_ok headers -> headers_kept free t headers headers.
Proof. by split. Qed.

Lemma exec_headers s live free op r s' : pool_inv s live free -> synchronized s -> headers_ok (ps_headers s) -> pool_legal live op ->
  is_reset op = false -> exec_pool s op = Ret (r, s') -> headers_kept free (touched op) (ps_headers s) (ps_headers s').
Proof.
  intros HI Hsync Hok Hl Hreset. destruct op as [size|count size|[p|] size|[p|]|p offset bytes|boundary]; cbn [exec_pool touched pool_legal] in *; try done.
  - by eapply malloc_headers.
  - unfold arena_calloc. destruct (_ && _); [intros [= _ <-]; by apply headers_kept_refl|]. intros H.
    apply outcome_bind_Ret_inv in H as ([r1 s1] & Em & H). eapply malloc_headers in Em; [|done..|unfold is_size, size_max; apply u64_range].
    destruct r1 as [p|]; [|by injection H as _ <-]. apply outcome_bind_Ret_inv in H as (m & _ & H). by injection H as _ <-.
  - destruct Hl as [Hsize Hp]. destruct (Hp p eq_refl) as [old Hold]. unfold arena_realloc. destruct (Z.eqb_spec size 0) as [|Hne].
    { intros H. apply outcome_bind_Ret_inv in H as (s1 & Ef & H). injection H as _ <-. by eapply free_headers in Ef. }
    unfold header. destruct (ps_headers s !! header_of p) as [x|] eqn:Ex; [|done]. rewrite outcome_bind_Ret. destruct (Z.leb_spec size (aa_capacity x)) as [Hle|Hgt].
    { intros [= _ <-]. cbn. split; [apply headers_ok_insert; [done|]; unfold is_size in Hsize; cbn; lia|].
      intros a _ Ha _. rewrite lookup_insert_ne; [done|]. intros <-. apply Ha. by rewrite payload_header. }
    intros H. apply outcome_bind_Ret_inv in H as ([r1 s1] & Em & H). pose proof Em as Em'. pose proof (malloc_synchronized _ _ _ _ Hsync Em) as Hsync1.
    destruct (malloc_headers s live free size r1 s1 HI Hsync Hok Hsize Em) as [Hok1 Hk1].
    destruct r1 as [q|]; [|injection H as _ <-; split; [done|]; intros a Ha _; by apply Hk1].
    apply outcome_bind_Ret_inv in H as (y & Ey & H). apply outcome_bind_Ret_inv in H as (m & _ & H). apply outcome_bind_Ret_inv in H as (s2 & Ef & H).
    injection H as _ <-. unfold header in Ey. destruct (ps_headers s1 !! header_of p) as [y'|] eqn:Ey'; [|done]. injection Ey as ->.
    unfold arena_free in Ef. rewrite synchronize_id in Ef by done. unfold header in Ef. cbn [set_memory ps_headers] in Ef. rewrite Ey', outcome_bind_Ret in Ef.
    injection Ef as <-. cbn. split; [apply headers_ok_insert; [done|]; exact (Hok1 _ _ Ey')|].
    intros a Ha Ht Hs. rewrite lookup_insert_ne; [by apply Hk1|]. intros <-. apply Ht. by rewrite payload_header.
  - destruct Hl as [Hsize _]. unfold arena_realloc. by eapply malloc_headers.
  - destruct (Hl p eq_refl) as [old Hold]. intros H. apply outcome_bind_Ret_inv in H as (s1 & Ef & H). injection H as _ <-. by eapply free_headers in Ef.
  - intros [= _ <-]. by apply headers_kept_refl.
  - intros H. apply outcome_bind_Ret_inv in H as (m & _ & H). injection H as _ <-. by apply headers_kept_refl.
Qed.
End headers.

(** ** Growth of the arena *)
Section growth.
Context {C : Type} {acquire : C * Memory -> Z -> Result MutableByteView * (C * Memory)}.
Context {reset : C * Memory -> Result unit * (C * Memory)} `{!PoolSource acquire reset}.
Implicit Types (s : PoolState C) (live : gmap pointer (list Z)) (free : list pointer).
Abbreviation pool_inv := (pool_inv (acquire := acquire) (reset := reset)).

(** What was behind the offset stays where it is; new blocks are put in front of it. *)
Record extends s s' : Prop := {
  ex_offset : ba_offset (ps_arena s) <= ba_offset (ps_arena s');
  ex_storage : ba_capacity (ps_arena s) <> 0 -> ba_storage (ps_arena s') = ba_storage (ps_arena s);
  ex_blocks : forall a k, capacities s' !! a = Some k -> capacities s !! a = Some k \/
    exists base start, span_data (ba_storage (ps_arena s')) = Some base /\ a = ptr_add base start /\ ba_offset (ps_arena s) <= start }.

Lemma extends_same s s' : ps_arena s' = ps_arena s -> capacities s' = capacities s -> extends s s'.
Proof. intros E1 E2. split; rewrite ?E1, ?E2; auto with lia. Qed.

Lemma extends_then s s1 s' : extends s s1 -> ps_arena s' = ps_arena s1 -> capacities s' = capacities s1 -> extends s s'.
Proof. intros [H1 H2 H3] E1 E2. split; rewrite ?E1, ?E2; done. Qed.

Lemma unlink_extends s size previous a s' : unlink s size previous a = Ret s' -> extends s s'.
Proof.
  intros E. apply extends_same.
  - unfold unlink in E. apply outcome_bind_Ret_inv in E as (x & _ & E). apply outcome_bind_Ret_inv in E as (s1 & E1 & E). injection E as <-.
    destruct previous as [b|]; [|by injection E1 as <-]. apply outcome_bind_Ret_inv in E1 as (y & _ & E1). by injection E1 as <-.
  - apply unlink_headers in E as (x & Hx & E). apply map_eq. intros b. destruct previous as [c|].
    + destruct E as (y & Hy & E). unfold capacities. rewrite E, !lookup_fmap. destruct (decide (b = a)) as [->|Hne].
      { by rewrite lookup_insert_eq, Hx. }
      rewrite lookup_insert_ne by done. destruct (decide (b = c)) as [->|Hne']; [by rewrite lookup_insert_eq, Hy|by rewrite lookup_insert_ne].
    + unfold capacities. rewrite E, !lookup_fmap. destruct (decide (b = a)) as [->|Hne]; [by rewrite lookup_insert_eq, Hx|by rewrite lookup_insert_ne].
Qed.

Lemma allocate_block_extends s live free size r s' : pool_inv s live free -> synchronized s -> 1 <= size <= size_max ->
  allocate_block s size = Ret (r, s') -> extends s s'.
Proof using PoolSource0.
  intros HI Hsync Hsize E. pose proof (allocate_block_headers _ _ _ _ E) as Hh. revert E. unfold allocate_block, sizeof_ArenaAllocation.
  rewrite (u64_small (size_max - 32)) by (unfold size_max, u64_max; lia).
  destruct (Z.ltb_spec (size_max - 32) size) as [|Hfit]; [intros [= _ <-]; by apply extends_same|].
  rewrite u64_small by (unfold size_max in *; lia).
  destruct (allocate_run acquire reset acquire_view (ps_arena s) (ps_heap s) (ps_context s)
    (np_worker (ps_pool s)) (32 + size) alignof_max_align_t (pi_arena _ _ _ HI) (pi_worker _ _ _ HI))
    as (v & arena & h & c & -> & Hctx & Hr); [unfold is_size; lia|by unfold is_size|].
  rewrite outcome_bind_Ret. destruct v as [view|e].
  2: { destruct Hr as (-> & _ & _). intros [= _ <-]. by apply extends_same. }
  destruct Hr as (Harena & Hsame & _ & Hview & Hvgen & _ & Hgen & Hstor & Hcase).
  rewrite decide_False in Hcase by lia. destruct Hcase as (_ & start & Hbytes & Hmod & Hrange & Hoff).
  unfold ArenaView_bytes, BoundedArena_view_for. rewrite Hview, Hvgen, Hgen, Z.eqb_refl. cbn [negb]. rewrite Hbytes. cbn [subspan span_data].
  destruct (span_data (ba_storage arena)) as [base|] eqn:Eb; [|done]. cbn [option_map fmap]. intros [= <- <-]. cbn [ps_arena set_headers ps_headers] in *.
  split; cbn [ps_arena set_headers]; [lia|done|]. intros a k. unfold capacities. cbn [ps_headers set_headers].
  rewrite fmap_insert. cbn [aa_capacity]. intros [[<- <-]|[Hne Ha]]%lookup_insert_Some; [|by left]. right. exists base, start. split; [done|].
  split; [done|lia].
Qed.

Lemma malloc_extends s live free size r s' : pool_inv s live free -> synchronized s -> is_size size -> arena_malloc s size = Ret (r, s') -> extends s s'.
Proof using PoolSource0.
  intros HI Hsync Hsize. unfold arena_malloc. rewrite synchronize_id by done. intros E. apply outcome_bind_Ret_inv in E as ([previous a] & _ & E).
  destruct a as [a|].
  - apply outcome_bind_Ret_inv in E as (s1 & Eu & E). injection E as _ <-. by eapply unlink_extends.
  - eapply allocate_block_extends; [done..| |exact E]. unfold is_size in Hsize. destruct (Z.eqb_spec size 0); unfold size_max, u64_max in *; lia.
Qed.

Lemma free_extends s p s' : synchronized s -> arena_free s (Some p) = Ret s' ->
  ps_arena s' = ps_arena s /\ capacities s' = capacities s /\ synchronized s'.
Proof.
  intros Hsync. unfold arena_free. rewrite synchronize_id by done. intros E. apply outcome_bind_Ret_inv in E as (x & Ex & E). injection E as <-.
  split; [done|]. split; [|done]. apply capacities_insert with x; [|done]. unfold header in Ex. destruct (ps_headers s !! _); [by injection Ex as ->|done].
Qed.

Lemma exec_extends s live free op r s' : pool_inv s live free -> synchronized s -> pool_legal live op -> is_reset op = false ->
  exec_pool s op = Ret (r, s') -> extends s s'.
Proof using PoolSource0.
  intros HI Hsync Hl Hreset. destruct op as [size|count size|[p|] size|[p|]|p offset bytes|boundary]; cbn [exec_pool pool_legal] in *; try done.
  - by eapply malloc_extends.
  - unfold arena_calloc. destruct (_ && _); [intros [= _ <-]; by apply extends_same|]. intros H.
    apply outcome_bind_Ret_inv in H as ([r1 s1] & Em & H). eapply malloc_extends in Em; [|done..|unfold is_size, size_max; apply u64_range].
    destruct r1 as [p|]; [|by injection H as _ <-]. apply outcome_bind_Ret_inv in H as (m & _ & H). injection H as _ <-. by eapply extends_then.
  - destruct Hl as [Hsize _]. unfold arena_realloc. destruct (size =? 0).
    { intros H. apply outcome_bind_Ret_inv in H as (s1 & Ef & H). injection H as _ <-. apply free_extends in Ef as (? & ? & _); [by apply extends_same|done]. }
    intros H. apply outcome_bind_Ret_inv in H as (x & Ex & H). unfold header in Ex. destruct (ps_headers s !! header_of p) as [x'|] eqn:Hx; [|done]. injection Ex as ->.
    destruct (size <=? aa_capacity x).
    { injection H as _ <-. apply extends_same; [done|]. by apply capacities_insert with x. }
    apply outcome_bind_Ret_inv in H as ([r1 s1] & Em & H). pose proof (malloc_synchronized _ _ _ _ Hsync Em) as Hsync1.
    eapply malloc_extends in Em; [|done..]. destruct r1 as [q|]; [|by injection H as _ <-].
    apply outcome_bind_Ret_inv in H as (y & _ & H). apply outcome_bind_Ret_inv in H as (m & _ & H). apply outcome_bind_Ret_inv in H as (s2 & Ef & H).
    injection H as _ <-. apply free_extends in Ef as (? & ? & _); [|done]. by eapply extends_then.
  - destruct Hl as [Hsize _]. unfold arena_realloc. by eapply malloc_extends.
  - intros H. apply outcome_bind_Ret_inv in H as (s1 & Ef & H). injection H as _ <-. apply free_extends in Ef as (? & ? & _); [by apply extends_same|done].
  - intros [= _ <-]. by apply extends_same.
  - intros H. apply outcome_bind_Ret_inv in H as (m & _ & H). injection H as _ <-. by apply extends_same.
Qed.

Lemma exec_synchronized s op r s' : synchronized s -> is_reset op = false -> exec_pool s op = Ret (r, s') -> synchronized s'.
Proof.
  intros Hsync Hreset. destruct op as [size|count size|[p|] size|[p|]|p offset bytes|boundary]; cbn [exec_pool] in *; try done.
  - by apply malloc_synchronized.
  - unfold arena_calloc. destruct (_ && _); [by intros [= _ <-]|]. intros H. apply outcome_bind_Ret_inv in H as ([r1 s1] & Em & H).
    apply malloc_synchronized in Em; [|done]. destruct r1; [|by injection H as _ <-]. apply outcome_bind_Ret_inv in H as (m & _ & H). by injection H as _ <-.
  - unfold arena_realloc. destruct (size =? 0).
    { intros H. apply outcome_bind_Ret_inv in H as (s1 & Ef & H). injection H as _ <-. by apply free_extends in Ef as (_ & _ & ?). }
    intros H. apply outcome_bind_Ret_inv in H as (x & _ & H). destruct (size <=? aa_capacity x); [by injection H as _ <-|].
    apply outcome_bind_Ret_inv in H as ([r1 s1] & Em & H). apply malloc_synchronized in Em; [|done]. destruct r1 as [q|]; [|by injection H as _ <-].
    apply outcome_bind_Ret_inv in H as (y & _ & H). apply outcome_bind_Ret_inv in H as (m & _ & H). apply outcome_bind_Ret_inv in H as (s2 & Ef & H).
    injection H as _ <-. by apply free_extends in Ef as (_ & _ & ?).
  - unfold arena_realloc. by apply malloc_synchronized.
  - intros H. apply outcome_bind_Ret_inv in H as (s1 & Ef & H). injection H as _ <-. by apply free_extends in Ef as (_ & _ & ?).
  - by intros [= _ <-].
  - intros H. apply outcome_bind_Ret_inv in H as (m & _ & H). by injection H as _ <-.
Qed.
End growth.

(** ** The blocks of one arena *)
Section blocks.
Context {C : Type} {acquire : C * Memory -> Z -> Result MutableByteView * (C * Memory)}.
Context {reset : C * Memory -> Result unit * (C * Memory)} `{!PoolSource acquire reset}.
Implicit Types (s : PoolState C) (live : gmap pointer (list Z)) (free : list pointer).
Abbreviation pool_inv := (pool_inv (acquire := acquire) (reset := reset)).

Record blocks_ok s : Prop := {
  bo_arena : arena_inv acquire reset (ps_arena s) (ps_heap s);
  bo_layout : layout (ba_storage (ps_arena s)) (ba_offset (ps_arena s)) (capacities s);
  bo_memory : ba_capacity (ps_arena s) <> 0 -> exists base l, located (ps_memory s) (ba_storage (ps_arena s)) base l;
  bo_headers : headers_ok (ps_headers s) }.

(** The contents of the blocks outside a free list. *)
Definition contents s (a : pointer) (x : ArenaAllocation) : option (list Z) := span_bytes (ps_memory s) (MkSpan (Some (payload_of a)) (aa_used x)).
Definition outside s free : gmap pointer (list Z) :=
  kmap payload_of (map_imap (fun a x => if decide (a ∈ free) then None else contents s a x) (ps_headers s)).

Lemma outside_lookup s free a : outside s free !! payload_of a = ps_headers s !! a ≫= fun x => if decide (a ∈ free) then None else contents s a x.
Proof. unfold outside. rewrite (lookup_kmap payload_of). by rewrite map_lookup_imap. Qed.

Lemma blocks_contents s a x : blocks_ok s -> ps_headers s !! a = Some x -> is_Some (contents s a x).
Proof using PoolSource0.
  intros [H1 H2 H3 H4] Hx. destruct (lay_place _ _ _ H2 a (aa_capacity x)) as (Hk & base & start & Hbase & -> & Hstart & _ & Hend).
  { apply capacities_lookup. eauto. }
  destruct H1 as [_ _ _ Ho Hst _]. unfold sizeof_ArenaAllocation in Hend. rewrite decide_False in Hst by lia. destruct Hst as (_ & Hmax & _).
  destruct H3 as (base' & l & Hloc); [lia|]. assert (base' = base) as -> by (destruct Hloc; congruence). destruct (H4 _ _ Hx) as [Hu1 Hu2].
  pose proof (located_bytes _ _ _ _ (storage_block_located _ _ _ _ start (aa_used x) Hloc ltac:(lia) ltac:(lia) ltac:(unfold sizeof_ArenaAllocation; lia))) as Hb.
  unfold contents. rewrite Hb. by eexists.
Qed.

Lemma chain_headers headers current free a : free_list_chain headers current free -> a ∈ free -> is_Some (headers !! a).
Proof.
  revert current. induction free as [|b free IH]; intros current; [by intros _ ?%elem_of_nil|]. intros (_ & next & Hn & Hc) [->|Ha]%elem_of_cons; [|by eapply IH].
  by destruct (headers !! b).
Qed.

(** A free list in the headers makes a pool of them. *)
Lemma pool_focus s free : blocks_ok s -> value_ (np_worker (ps_pool s)) = value_ (ba_worker (ps_arena s)) -> synchronized s ->
  free_list_chain (ps_headers s) (np_free_list (ps_pool s)) free -> NoDup free -> pool_inv s (outside s free) free.
Proof using PoolSource0.
  intros Hok Hw Hsync Hc Hnd. pose proof Hok as [H1 H2 H3 H4].
  split; try done.
  - by rewrite Hsync.
  - by rewrite synchronize_id.
  - intros a. rewrite outside_lookup. destruct (ps_headers s !! a) as [x|] eqn:Hx; cbn.
    + split; [intros _|by eauto]. destruct (decide (a ∈ free)); [by left|right]. by apply blocks_contents.
    + split; [by intros [? ?]|]. intros [Ha|[? ?]]; [|done]. destruct (chain_headers _ _ _ _ Hc Ha) as [? ?]. congruence.
  - intros a Ha. rewrite outside_lookup. destruct (ps_headers s !! a); cbn; [|done]. by rewrite decide_True.
  - intros a bytes. rewrite outside_lookup. destruct (ps_headers s !! a) as [x|] eqn:Hx; cbn; [|done].
    destruct (decide (a ∈ free)); [done|]. intros Hb. exists x. split; [done|]. split; [by apply (H4 a)|done].
Qed.

Lemma pool_unfocus s live free : pool_inv s live free -> headers_ok (ps_headers s) -> blocks_ok s /\ live = outside s free.
Proof.
  intros HI Hh. split; [split; [apply HI|apply HI|apply HI|done]|].
  apply map_eq. intros p. rewrite <- (payload_header p). generalize (header_of p). clear p. intros a. rewrite outside_lookup.
  destruct (live !! payload_of a) as [bytes|] eqn:Hl.
  - destruct (pi_contents _ _ _ HI a bytes Hl) as (x & Hx & _ & Hb). rewrite Hx. cbn. rewrite decide_False; [by rewrite <- Hb|].
    intros Ha. rewrite (pi_disjoint _ _ _ HI a Ha) in Hl. done.
  - destruct (ps_headers s !! a) as [x|] eqn:Hx; cbn; [|done]. destruct (proj1 (pi_split _ _ _ HI a) ltac:(by eexists)) as [Ha|[? ?]]; [|congruence].
    by rewrite decide_True.
Qed.
End blocks.

(** ** The blocks of one session *)
Section piece.
Context {C : Type} {acquire : C * Memory -> Z -> Result MutableByteView * (C * Memory)}.
Context {reset : C * Memory -> Result unit * (C * Memory)} `{!PoolSource acquire reset}.
Implicit Types (s : PoolState C) (live : gmap pointer (list Z)) (free : list pointer) (foreign : Headers) (own : Owned).
Abbreviation pool_inv := (pool_inv (acquire := acquire) (reset := reset)).
Abbreviation blocks_ok := (blocks_ok (acquire := acquire) (reset := reset)).

(** The blocks of the arena are those of the free list, those the library owns for this session
    and the [foreign] ones. *)
Record piece_ok s foreign free own : Prop := {
  pc_blocks : blocks_ok s;
  pc_worker : value_ (np_worker (ps_pool s)) = value_ (ba_worker (ps_arena s));
  pc_sync : synchronized s;
  pc_chain : free_list_chain (ps_headers s) (np_free_list (ps_pool s)) free;
  pc_nodup : NoDup free;
  pc_sized : sized own (outside s free);
  pc_foreign : foreign ⊆ ps_headers s;
  pc_free : forall a, a ∈ free -> foreign !! a = None;
  pc_own : forall p, p ∈ dom own -> foreign !! header_of p = None;
  pc_cover : forall a, is_Some (ps_headers s !! a) -> a ∈ free \/ payload_of a ∈ dom own \/ is_Some (foreign !! a) }.

Lemma piece_pool s foreign free own : piece_ok s foreign free own -> pool_inv s (outside s free) free.
Proof using PoolSource0. intros [H1 H2 H3 H4 H5 _ _ _ _ _]. by apply pool_focus. Qed.

Lemma outside_is_Some s free live a : pool_inv s live free -> a ∉ free -> is_Some (ps_headers s !! a) -> is_Some (live !! payload_of a).
Proof. intros HI Ha Hs. destruct (proj1 (pi_split _ _ _ HI a) Hs); done. Qed.

(** A request of the library touches no foreign block. *)
Lemma piece_request s foreign free own op : piece_ok s foreign free own -> owned_legal own op ->
  exists r s' free' own', h2_exec s op = Ret (r, s') /\ piece_ok s' foreign free' own' /\
    heap_step (outside s free) op r (outside s' free') /\ owned_step own op r own' /\ dom own' = own_after (dom own) op r /\
    extends s s' /\ kept s s'.
Proof using PoolSource0.
  intros HP Hl. pose proof (piece_pool _ _ _ _ HP) as HI. pose proof HP as [H1 H2 H3 H4 H5 H6 H7 H8 H9 H10].
  destruct (owned_pool_legal _ _ _ H6 Hl) as (Hpl & Hop & Hreset). rewrite h2_exec_pool by done.
  destruct (exec_pool_ok s _ free op HI Hpl) as (r & s' & live' & free' & Erun & Hstep & HI').
  pose proof (exec_pool_kept _ _ _ _ Hreset Erun) as Hkept. pose proof (exec_synchronized _ _ _ _ H3 Hreset Erun) as Hsync'.
  pose proof (exec_extends _ _ _ _ _ _ HI H3 Hpl Hreset Erun) as Hext.
  destruct (exec_headers _ _ _ _ _ _ HI H3 (bo_headers _ H1) Hpl Hreset Erun) as [Hok' Hsame].
  destruct (pool_unfocus _ _ _ HI' Hok') as [Hb' ->].
  destruct (heap_owned_step _ _ _ _ _ H6 Hl Hstep) as (own' & Ho & Hs' & Hdom).
  pose proof (heap_step_framed _ _ _ _ _ (sized_dom _ _ H6) Hop Hstep) as Hf. rewrite <- Hdom in Hf.
  assert (Hout : forall a x, foreign !! a = Some x -> ps_headers s' !! a = Some x /\ (a ∉ free') /\ (payload_of a ∉ dom own')).
  { intros a x Hx. assert (Hfree : a ∉ free) by (intros Hin; rewrite H8 in Hx; done).
    assert (Hown : payload_of a ∉ dom own) by (intros Hin%H9; rewrite header_payload in Hin; congruence).
    pose proof (lookup_weaken _ _ _ _ Hx H7) as Hh. destruct (fr_others _ _ _ _ Hf _ Hown) as [El Hno].
    { apply elem_of_dom. eapply outside_is_Some; [done|done|by eexists]. }
    split; [|split; [|done]].
    - rewrite Hsame; [done|done| |by eexists]. intros Ht. destruct op as [| |[p|] size|[p|]| |]; try done; cbn in Ht, Hop; congruence.
    - intros Hin. apply (pi_disjoint _ _ _ HI') in Hin. rewrite Hin in El. symmetry in El.
      destruct (outside_is_Some _ _ _ _ HI Hfree ltac:(by eexists)) as [? ?]. congruence. }
  exists r, s', free', own'. split; [done|]. split; [|done]. split; try done.
  - destruct Hkept as ((_ & _ & _ & Ew) & Ew'). by rewrite Ew, Ew'.
  - pose proof (pi_chain _ _ _ HI') as Hc. by rewrite synchronize_id in Hc.
  - apply (pi_nodup _ _ _ HI').
  - apply map_subseteq_spec. intros a x Hx. by apply Hout.
  - intros a Ha. destruct (foreign !! a) as [x|] eqn:Hx; [|done]. by destruct (Hout a x Hx) as (_ & ? & _).
  - intros p Hp. destruct (foreign !! header_of p) as [x|] eqn:Hx; [|done]. destruct (Hout _ x Hx) as (_ & _ & Hno). by rewrite payload_header in Hno.
  - intros a Ha. destruct (proj1 (pi_split _ _ _ HI' a) Ha) as [|Hl']; [by left|right]. destruct (decide (payload_of a ∈ dom own')) as [|Hno]; [by left|right].
    assert (Hd : payload_of a ∈ dom (outside s free) ∖ dom own) by (rewrite <- (fr_blocks _ _ _ _ Hf); apply elem_of_difference; split; [by apply elem_of_dom|done]).
    apply elem_of_difference in Hd as [Hd Hno']. apply elem_of_dom in Hd.
    destruct (H10 a) as [Hin|[Hin|Hin]]; [apply (pi_split _ _ _ HI); by right| |done|done].
    destruct Hd as [? Hd]. by rewrite (pi_disjoint _ _ _ HI a Hin) in Hd.
Qed.

(** ** Where the states are *)
Definition state_apart s (u : pointer) : Prop :=
  (exists base start, span_data (ba_storage (ps_arena s)) = Some base /\ u = ptr_add base start /\ 0 <= start /\
     start + sizeof_NativeState <= ba_offset (ps_arena s)) /\
  forall a k, capacities s !! a = Some k -> ptr_offset a + sizeof_ArenaAllocation + k <= ptr_offset u \/ ptr_offset u + sizeof_NativeState <= ptr_offset a.

Lemma state_extends s s' u : blocks_ok s -> extends s s' -> state_apart s u -> state_apart s' u.
Proof.
  intros Hb [E1 E2 E3] [(base & start & Hbase & -> & Hs & He) Ha]. destruct (bo_arena _ Hb) as [_ _ _ Ho _ _].
  rewrite <- E2 in Hbase by (unfold sizeof_NativeState in *; lia).
  split; [exists base, start; split; [done|]; split; [done|]; split; [done|lia]|].
  intros a k Hk. destruct (E3 a k Hk) as [Hold|(base' & start' & Hb' & -> & Hge)]; [by apply Ha|]. right.
  assert (base' = base) as -> by congruence. cbn. lia.
Qed.
End piece.

(** ** Callbacks *)
Definition pending {L E} (st : NativeState L E) : list Z := take (Z.to_nat (ns_pending_reset_count st)) (ns_pending_reset_streams st).

(** The limits are those creation accepts, the queue has room for all that is in it, and what is
    in it is there once. *)
Record state_ok {L E} (st : NativeState L E) : Prop := {
  so_limits : validate_limits (ns_limits st) = Ok tt;
  so_bytes : is_size (h2_header_block_bytes (ns_limits st));
  so_queue : length (ns_pending_reset_streams st) = maximum_pending_resets;
  so_count : 0 <= ns_pending_reset_count st <= Z.of_nat maximum_pending_resets;
  so_unique : NoDup (pending st);
  so_streams : Forall (fun stream => 0 < stream) (pending st) }.

(** What callbacks leave alone, and that they only add to the queue. *)
Record evolves {L E} (st st' : NativeState L E) : Prop := {
  ev_worker : ns_worker st' = ns_worker st;
  ev_limits : ns_limits st' = ns_limits st;
  ev_events : ns_event_sink st' = ns_event_sink st;
  ev_log : ns_log_sink st' = ns_log_sink st;
  ev_free : ns_free_allocations st' = ns_free_allocations st;
  ev_pending : pending st `prefix_of` pending st' }.

#[export] Instance evolves_preorder {L E} : PreOrder (@evolves L E).
Proof.
  split; [by split|]. intros a b c [A1 A2 A3 A4 A5 A6] [B1 B2 B3 B4 B5 B6]. split; [congruence..|by etransitivity].
Qed.

Definition h2_view_ok (v : span) : Prop := span_data v = None -> span_size v = 0.

Lemma h2_view_from v : h2_view_ok v -> ByteView_from v = Ok v.
Proof.
  intros H. unfold ByteView_from. destruct (bool_decide_reflect (span_data v = None)) as [Hn|]; [|done]. unfold span_empty. by rewrite (H Hn).
Qed.

(** A provider writes within the output it is given. *)
Definition provider_ok {E} (provider : Http2DataProvider E) : Prop :=
  forall read length (e : E), dp_read provider = Some read -> 0 <= length ->
    let '(r, written, _) := read length e in
    Z.of_nat (List.length written) <= length /\ match r with Ok x => is_size (dr_bytes x) | Err _ => True end.

(** The library calls back with views that are not null, a buffer of its own and one of the
    data sources it was given. *)
Definition h2_event_ok (sources : gset Z) (own : Owned) (event : Http2Callback) : Prop :=
  match event with
  | On_frame_received frame => h2_view_ok (fr_opaque frame)
  | On_data_source_read _ block offset length _ source =>
      (exists n, own !! block = Some n /\ 0 <= offset /\ 0 <= length /\ offset + length <= n) /\ exists x, source = Some x /\ x ∈ sources
  | _ => True
  end.

Section callbacks.
Context {N G L E : Type} (lib : Nghttp2 N G).
Implicit Types (st : NativeState L E) (e : E).

(** The reply to a callback, the state after it and what was written to the buffer. *)
Definition h2_reaction (providers : gmap Z (Http2DataProvider E)) (event : Http2Callback) st e : outcome (Http2Reply * NativeState L E * E * list Z) :=
  match event with
  | On_data_source_read _ block offset length data_flags source =>
      '(result, data_flags, st, written, e) ← on_data_source_read lib providers st e (ptr_add block offset) length data_flags source;
      Ret (result, data_flags, st, e, written)
  | _ => '(result, st, e) ← h2_event_callback lib st e event; Ret (result, 0, st, e, [])
  end.

Definition cleared st : NativeState L E := set_free_allocations st None.

Lemma pending_loop_run streams stream : forall count index, (index + count <= length streams)%nat ->
  pending_loop count index streams stream = Ret (bool_decide (stream ∈ take count (drop index streams))).
Proof.
  induction count as [|count IH]; intros index Hl; cbn [pending_loop]; [done|].
  destruct (lookup_lt_is_Some_2 streams index ltac:(lia)) as [x Hx]. rewrite (slot_ok _ _ x) by (by rewrite Nat2Z.id). rewrite outcome_bind_Ret.
  rewrite (drop_S _ _ _ Hx). cbn [take]. destruct (Z.eqb_spec x stream) as [->|Hne].
  - rewrite bool_decide_eq_true_2; [done|]. set_solver.
  - rewrite IH by lia. f_equal. apply bool_decide_ext. rewrite elem_of_cons. naive_solver.
Qed.

(** What a callback does to the state. *)
Definition reacts st e (m : outcome (Z * NativeState L E * E)) : Prop :=
  exists result st' e', m = Ret (result, st', e') /\ state_ok st' /\ evolves st st'.

Lemma reacts_same st e result e' : state_ok st -> reacts st e (Ret (result, st, e')).
Proof. intros H. exists result, st, e'. by split. Qed.

Lemma state_ok_pending st streams count overflow : state_ok st -> length streams = maximum_pending_resets ->
  0 <= count <= Z.of_nat maximum_pending_resets -> NoDup (take (Z.to_nat count) streams) -> Forall (fun s => 0 < s) (take (Z.to_nat count) streams) ->
  state_ok (set_pending st streams count overflow).
Proof. intros [H1 H2 H3 H4 H5 H6] ? ? ? ?. by split. Qed.

Lemma pending_push st stream : state_ok st -> ns_pending_reset_count st < Z.of_nat maximum_pending_resets ->
  set_slot (ns_pending_reset_streams st) (ns_pending_reset_count st) stream =
    Ret (<[Z.to_nat (ns_pending_reset_count st) := stream]> (ns_pending_reset_streams st)) /\
  take (Z.to_nat (u64 (ns_pending_reset_count st + 1))) (<[Z.to_nat (ns_pending_reset_count st) := stream]> (ns_pending_reset_streams st)) = pending st ++ [stream].
Proof.
  intros [H1 H2 H3 H4 H5 H6] Hlt. unfold maximum_pending_resets in *. split.
  - unfold set_slot. rewrite H3. rewrite (proj2 (Z.leb_gt _ _)) by lia. done.
  - rewrite u64_small by (unfold u64_max; lia). rewrite Z2Nat.inj_add, Nat.add_1_r by lia.
    rewrite (take_S_r _ _ stream) by (apply list_lookup_insert_eq; lia). unfold pending. by rewrite take_insert_ge by lia.
Qed.

Lemma callback_result_reacts st e event pausable rejectable : state_ok st -> reacts st e (callback_result lib st e event pausable rejectable).
Proof.
  intros Hok. unfold callback_result. destruct (es_write (ns_event_sink st)) as [write|]; [|by apply reacts_same].
  destruct (write event e) as [action e']. pose proof Hok as [H1 H2 H3 H4 H5 H6].
  assert (Hrej : forall stream, 0 < stream -> reacts st e
    (found ← pending_loop (Z.to_nat (ns_pending_reset_count st)) 0 (ns_pending_reset_streams st) stream;
     if (found : bool) then Ret (0, st, e') else
     if ns_pending_reset_count st =? Z.of_nat (length (ns_pending_reset_streams st)) then
       Ret (NGHTTP2_ERR_CALLBACK_FAILURE _ _ lib, set_pending st (ns_pending_reset_streams st) (ns_pending_reset_count st) true, e')
     else
       streams ← set_slot (ns_pending_reset_streams st) (ns_pending_reset_count st) stream;
       Ret (NGHTTP2_ERR_PAUSE _ _ lib, set_pending st streams (u64 (ns_pending_reset_count st + 1)) (ns_pending_reset_overflow st), e'))).
  { intros stream Hpos. rewrite pending_loop_run by (unfold maximum_pending_resets in *; lia). rewrite outcome_bind_Ret, drop_0. fold (pending st).
    destruct (bool_decide_reflect (stream ∈ pending st)) as [Hin|Hin]; [by apply reacts_same|].
    destruct (Z.eqb_spec (ns_pending_reset_count st) (Z.of_nat (length (ns_pending_reset_streams st)))) as [Heq|Hne].
    - exists (NGHTTP2_ERR_CALLBACK_FAILURE _ _ lib), (set_pending st (ns_pending_reset_streams st) (ns_pending_reset_count st) true), e'. split; [done|]. split; [by apply state_ok_pending|]. by split.
    - destruct (pending_push st stream Hok) as [-> Hp]; [lia|]. rewrite outcome_bind_Ret. eexists _, _, e'. split; [done|]. split.
      + apply state_ok_pending; [done|by rewrite length_insert| |rewrite Hp; apply NoDup_app; split; [done|]; split; [set_solver|apply NoDup_singleton]|].
        { rewrite u64_small; unfold maximum_pending_resets, u64_max in *; lia. }
        rewrite Hp. apply Forall_app. split; [done|]. by repeat constructor.
      + split; try done. unfold pending at 2. cbn [set_pending ns_pending_reset_count ns_pending_reset_streams]. rewrite Hp. by eexists. }
  destruct action; cbn [andb]; [by apply reacts_same|destruct pausable; by apply reacts_same| |by apply reacts_same..].
  destruct rejectable; [by apply reacts_same|]. destruct (_ && _) eqn:Ed; [|by apply reacts_same].
  apply Hrej. apply andb_prop in Ed as [_ Hv]. by apply Z.ltb_lt.
Qed.

Lemma reacts_from st st1 e m : evolves st st1 -> reacts st1 e m -> reacts st e m.
Proof. intros H (r & st' & e' & -> & Hok & Hev). exists r, st', e'. split; [done|]. split; [done|by etransitivity]. Qed.

Lemma counts_evolve st bytes fields : evolves st (set_header_counts st bytes fields).
Proof. by split. Qed.
Lemma counts_ok st bytes fields : state_ok st -> state_ok (set_header_counts st bytes fields).
Proof. by intros []. Qed.
Lemma limit_failed_reacts st e result b : state_ok st -> reacts st e (Ret (result, set_input_limit_failed st b, e)).
Proof. intros []. eexists _, _, _. split; [done|]. by split. Qed.

Lemma settings_reacts settings frame : forall st e, state_ok st -> reacts st e (settings_loop lib settings st e frame).
Proof.
  induction settings as [|[id value] settings IH]; intros st e Hok; cbn [settings_loop]; [by apply reacts_same|].
  destruct (callback_result_reacts st e (settings_event lib frame (u32 id) value) false false Hok) as (r & st1 & e1 & -> & Hok1 & Hev). rewrite outcome_bind_Ret.
  destruct (negb (r =? 0)); [by exists r, st1, e1|]. eapply reacts_from; [done|by apply IH].
Qed.

Lemma event_reacts st e sources own event : state_ok st -> h2_event_ok sources own event ->
  match event with On_data_source_read _ _ _ _ _ _ => True | _ => reacts st e (h2_event_callback lib st e event) end.
Proof.
  intros Hok Hv. destruct event as [frame|frame name value flags|flags stream data|frame|stream code|]; cbn [h2_event_callback h2_event_ok] in *; try done.
  - eapply reacts_from; [apply counts_evolve|]. by apply callback_result_reacts, counts_ok.
  - unfold on_header. destruct (_ || _); [by apply limit_failed_reacts|]. cbn zeta.
    set (st1 := set_header_counts st _ _). assert (Hok1 : state_ok st1) by (by apply counts_ok).
    eapply (reacts_from st st1); [apply counts_evolve|]. destruct (_ || _); [by apply limit_failed_reacts|].
    destruct (ByteView_from name); [|by apply reacts_same]. destruct (ByteView_from value); [by apply callback_result_reacts|by apply reacts_same].
  - unfold on_data. destruct (ByteView_from data); [by apply callback_result_reacts|by apply reacts_same].
  - unfold on_frame_received. destruct (_ =? _); [destruct (fr_settings frame); [by apply callback_result_reacts|by apply settings_reacts]|].
    destruct (_ =? _); [by apply callback_result_reacts|]. destruct (_ =? _).
    { destruct (_ <? _); [by apply limit_failed_reacts|]. rewrite (h2_view_from _ Hv). by apply callback_result_reacts. }
    destruct (_ =? _); by apply callback_result_reacts.
  - by apply callback_result_reacts.
Qed.

Lemma provider_failed_ok st failure b : state_ok st -> state_ok (set_data_provider st failure b) /\ evolves st (set_data_provider st failure b).
Proof. intros []. by split. Qed.

Lemma reaction_total providers sources own event st e : state_ok st -> h2_event_ok sources own event ->
  sources ⊆ dom providers -> (forall x p, providers !! x = Some p -> provider_ok p) ->
  exists reply st' e' written, h2_reaction providers event st e = Ret (reply, st', e', written) /\ state_ok st' /\ evolves st st' /\
    match event with On_data_source_read _ _ _ length _ _ => Z.of_nat (List.length written) <= length | _ => written = [] end.
Proof.
  intros Hok Hv Hs Hp. pose proof (event_reacts st e sources own event Hok Hv) as Hr.
  assert (Hev : forall m, reacts st e m -> exists reply st' e' written, ('(result, st, e) ← m; Ret (result, 0, st, e, [])) = Ret (reply, st', e', written) /\
    state_ok st' /\ evolves st st' /\ written = @nil Z).
  { intros m (result & st' & e' & -> & Hok' & Hev). rewrite outcome_bind_Ret. by exists (result, 0), st', e', []. }
  destruct event as [frame|frame name value flags|flags stream data|frame|stream code|stream block offset length data_flags source]; unfold h2_reaction; [by apply Hev..|].
  clear Hr Hev. destruct Hv as ((n & Hn & Ho & Hlen & Hfit) & x & -> & Hx). destruct (proj1 (elem_of_dom providers x)) as [p Hpx]; [set_solver|].
  unfold on_data_source_read. rewrite Hpx. specialize (Hp x p Hpx). unfold provider_ok in Hp.
  assert (Hfailed : forall (r f : Z) failure written e', Z.of_nat (List.length written) <= length ->
    exists (reply : Http2Reply) (st' : NativeState L E) (e'' : E) (written' : list Z),
      ('(result, data_flags, st, written, e) ← (Ret (r, f, set_data_provider st failure true, written, e') : outcome (Http2Reply * NativeState L E * list Z * E));
       Ret (result, data_flags, st, e, written)) = Ret (reply, st', e'', written') /\ state_ok st' /\ evolves st st' /\ Z.of_nat (List.length written') <= length).
  { intros r f failure written e' Hw. rewrite outcome_bind_Ret. eexists _, _, _, _. split; [done|]. destruct (provider_failed_ok st failure true Hok). done. }
  destruct (dp_read p) as [read|]; [|by apply Hfailed]. unfold MutableByteView_from. cbn [span_data]. rewrite bool_decide_eq_false_2 by done. cbn [andb].
  specialize (Hp read length e eq_refl Hlen). destruct (read length e) as [[r written] e']. destruct Hp as [Hw Hr].
  destruct r as [produced|failure]; [|by apply Hfailed]. cbn zeta. destruct (_ || _); [by apply Hfailed|].
  destruct (dr_state produced); rewrite outcome_bind_Ret; eexists _, _, _, _; (split; [done|split; [done|by split]]).
Qed.

(** ** The free list is not theirs *)
Definition clear_result (m : outcome (Z * NativeState L E * E)) : outcome (Z * NativeState L E * E) := '(r, st, e) ← m; Ret (r, cleared st, e).

Lemma callback_result_clear st e event pausable rejectable :
  callback_result lib (cleared st) e event pausable rejectable = clear_result (callback_result lib st e event pausable rejectable).
Proof.
  unfold callback_result, clear_result. cbn [cleared set_free_allocations ns_event_sink ns_pending_reset_count ns_pending_reset_streams ns_pending_reset_overflow].
  destruct (es_write _) as [write|]; [|done]. destruct (write event e) as [action e'].
  destruct action; cbn [andb]; [done|by destruct pausable| |done..].
  destruct rejectable; [done|]. destruct (_ && _); [|done]. destruct (pending_loop _ _ _ _) as [[]|]; [done| |done]. rewrite !outcome_bind_Ret.
  destruct (_ =? _); [done|]. by destruct (set_slot _ _ _).
Qed.

Lemma settings_clear settings frame : forall st e, settings_loop lib settings (cleared st) e frame = clear_result (settings_loop lib settings st e frame).
Proof.
  induction settings as [|[id value] settings IH]; intros st e; cbn [settings_loop]; [done|]. rewrite callback_result_clear.
  destruct (callback_result _ _ _ _ _ _) as [[[r st'] e']|]; [|done]. unfold clear_result at 1. rewrite !outcome_bind_Ret.
  destruct (negb _); [done|]. by rewrite IH.
Qed.

Lemma event_clear st e event : h2_event_callback lib (cleared st) e event = clear_result (h2_event_callback lib st e event).
Proof.
  destruct event as [frame|frame name value flags|flags stream data|frame|stream code|]; cbn [h2_event_callback]; [| | | | |done].
  - unfold on_begin_headers. change (set_header_counts (cleared st) 0 0) with (cleared (set_header_counts st 0 0)). by rewrite callback_result_clear.
  - unfold on_header. cbn [cleared set_free_allocations ns_header_bytes ns_header_fields]. destruct (_ || _); [done|]. cbn zeta.
    set (b := u64 _). set (f := u64 _). change (set_header_counts (set_free_allocations st None) b f) with (cleared (set_header_counts st b f)).
    cbn [cleared set_free_allocations ns_limits ns_header_bytes ns_header_fields]. destruct (_ || _); [done|].
    destruct (ByteView_from name); [|done]. destruct (ByteView_from value); [|done]. exact (callback_result_clear (set_header_counts st b f) e _ true true).
  - unfold on_data. destruct (ByteView_from data); [|done]. apply callback_result_clear.
  - unfold on_frame_received. cbn [cleared set_free_allocations ns_limits]. destruct (_ =? _); [destruct (fr_settings frame); [apply callback_result_clear|apply settings_clear]|].
    destruct (_ =? _); [apply callback_result_clear|]. destruct (_ =? _).
    { destruct (_ <? _); [done|]. destruct (ByteView_from _); [|done]. apply callback_result_clear. }
    destruct (_ =? _); apply callback_result_clear.
  - apply callback_result_clear.
Qed.

Lemma reaction_clear providers event st e reply st' e' written : h2_reaction providers event st e = Ret (reply, st', e', written) ->
  h2_reaction providers event (cleared st) e = Ret (reply, cleared st', e', written).
Proof.
  destruct event as [frame|frame name value flags|flags stream data|frame|stream code|stream block offset length data_flags source]; unfold h2_reaction;
    [rewrite event_clear; destruct (h2_event_callback _ _ _ _) as [[[r st1] e1]|]; [|done]; unfold clear_result; rewrite !outcome_bind_Ret; by intros [= <- <- <- <-]..|].
  unfold on_data_source_read. destruct source as [x|]; [|by intros [= <- <- <- <-]]. destruct (providers !! x) as [p|]; [|done].
  destruct (dp_read p) as [read|]; [|by intros [= <- <- <- <-]]. destruct (MutableByteView_from _); [|by intros [= <- <- <- <-]].
  destruct (read length e) as [[r w] e1]. destruct r as [produced|]; [|by intros [= <- <- <- <-]]. cbn zeta. destruct (_ || _); [by intros [= <- <- <- <-]|].
  destruct (dr_state produced); by intros [= <- <- <- <-].
Qed.
End callbacks.

(** ** The laws

    A call of nghttp2 on a session ends; the session keeps its address and the state it was
    given, its memory is its own, and it reads from the data sources it was given. *)
Section answers.
Context {N G : Type} (memory : N -> Owned) (user address : N -> pointer) (sources : N -> gset Z).

Definition answers {A} (valid : gset Z -> Owned -> Http2Callback -> Prop) (n : N) (f : N -> Http2Call (A * N)) (new : gset Z) (post : A -> Prop) : Prop :=
  behaves (user n) (valid (sources n)) (fun x own => own = memory (snd x) /\ user (snd x) = user n /\ address (snd x) = address n /\
    sources (snd x) ⊆ sources n ∪ new /\ post (fst x)) (memory n) (f n).

(** The functions that queue a frame make no callbacks. *)
Definition quiet (_ : gset Z) (_ : Owned) (_ : Http2Callback) : Prop := False.

Definition creates (user' : pointer) (c : Http2Call (Z * option (pointer * N))) : Prop :=
  behaves user' (h2_event_ok ∅) (fun x own =>
    if fst x =? 0 then exists n, snd x = Some (address n, n) /\ own = memory n /\ user n = user' /\ sources n = ∅ else own = ∅) ∅ c.

(** The objects of the library's own: [new] makes one, the setters keep them, [del] ends it. *)
Definition makes (objects others : G -> gset Z) (g : G) (x : Z * option Z * G) : Prop :=
  let '(r, object, g') := x in others g' = others g /\
    if r =? 0 then exists c, object = Some c /\ (c ∉ objects g) /\ objects g' = {[c]} ∪ objects g else objects g' = objects g.
Definition leaves (objects others : G -> gset Z) (gone : gset Z) (g : G) (m : outcome G) : Prop :=
  exists g', m = Ret g' /\ objects g' = objects g ∖ gone /\ others g' = others g.
End answers.

Class Nghttp2Laws {N G : Type} (lib : Nghttp2 N G) := {
  session_memory : N -> Owned;
  session_user : N -> pointer;
  session_address : N -> pointer;
  session_sources : N -> gset Z;
  callback_objects : G -> gset Z;
  option_objects : G -> gset Z;
  law_address n : session_address n ∈ dom (session_memory n);
  law_callbacks_new g : makes callback_objects option_objects g (nghttp2_session_callbacks_new _ _ lib g);
  law_callbacks_set name c g : c ∈ callback_objects g -> leaves callback_objects option_objects ∅ g (nghttp2_session_callbacks_set _ _ lib name c g);
  law_callbacks_del c g : c ∈ callback_objects g -> leaves callback_objects option_objects {[c]} g (nghttp2_session_callbacks_del _ _ lib c g);
  law_option_new g : makes option_objects callback_objects g (nghttp2_option_new _ _ lib g);
  law_option_set o value g : o ∈ option_objects g -> leaves option_objects callback_objects ∅ g (nghttp2_option_set_no_auto_window_update _ _ lib o value g);
  law_option_del o g : o ∈ option_objects g -> leaves option_objects callback_objects {[o]} g (nghttp2_option_del _ _ lib o g);
  law_client_new c o user g : c ∈ callback_objects g -> o ∈ option_objects g ->
    creates session_memory session_user session_address session_sources user (nghttp2_session_client_new3 _ _ lib c user o g);
  law_server_new c o user g : c ∈ callback_objects g -> o ∈ option_objects g ->
    creates session_memory session_user session_address session_sources user (nghttp2_session_server_new3 _ _ lib c user o g);
  law_del n : behaves (session_user n) (h2_event_ok (session_sources n)) (fun _ own => own = ∅) (session_memory n) (nghttp2_session_del _ _ lib n);
  law_recv n data : answers session_memory session_user session_address session_sources h2_event_ok n (nghttp2_session_mem_recv _ _ lib data) ∅
    (fun r => r <= Z.of_nat (length data));
  law_send n : answers session_memory session_user session_address session_sources h2_event_ok n (nghttp2_session_mem_send _ _ lib) ∅
    (fun r => fst r <= size_max /\ (snd r = None -> fst r <= 0));
  law_headers n flags stream fields : answers session_memory session_user session_address session_sources quiet n (nghttp2_submit_headers _ _ lib flags stream fields) ∅
    (fun r => stream = -1 -> r <> 0);
  law_settings n flags entries : answers session_memory session_user session_address session_sources quiet n (nghttp2_submit_settings _ _ lib flags entries) ∅ (fun _ => True);
  law_data n flags stream source : answers session_memory session_user session_address session_sources quiet n (nghttp2_submit_data _ _ lib flags stream source) {[source]} (fun _ => True);
  law_resume n stream : answers session_memory session_user session_address session_sources quiet n (nghttp2_session_resume_data _ _ lib stream) ∅ (fun _ => True);
  law_rst n flags stream code : answers session_memory session_user session_address session_sources quiet n (nghttp2_submit_rst_stream _ _ lib flags stream code) ∅ (fun _ => True);
  law_goaway n flags last code debug : answers session_memory session_user session_address session_sources quiet n (nghttp2_submit_goaway _ _ lib flags last code debug) ∅ (fun _ => True);
  law_window n flags stream increment : answers session_memory session_user session_address session_sources quiet n (nghttp2_submit_window_update _ _ lib flags stream increment) ∅ (fun _ => True) }.

(** ** One call *)
Section calls.
Context {N G C L E : Type} {acquire : C * Memory -> Z -> Result MutableByteView * (C * Memory)}.
Context {reset : C * Memory -> Result unit * (C * Memory)} `{!PoolSource acquire reset}.
Context {lib : Nghttp2 N G}.
Abbreviation World := (Http2World N G C L E).
Abbreviation State := (NativeState L E).
Implicit Types (w : World) (live : gmap pointer (list Z)) (st : State) (own : Owned) (foreign : Headers).
Abbreviation piece_ok := (piece_ok (acquire := acquire) (reset := reset)).

Definition providers_ok (providers : gmap Z (Http2DataProvider E)) : Prop := forall x p, providers !! x = Some p -> provider_ok p.

Lemma view_put w u st s : synchronized s -> np_worker (ps_pool s) = ns_worker st ->
  view_memory (put_memory w u st s) (set_free_allocations st (np_free_list (ps_pool s))) = s.
Proof. destruct s as [[worker g list] arena h c headers]. unfold synchronized. cbn. by intros -> ->. Qed.

Lemma view_evolves w st st' : evolves st st' -> view_memory w st' = view_memory w st.
Proof. intros [H1 H2 H3 H4 H5 H6]. unfold view_memory. by rewrite H1, H5. Qed.

(** What holds of a session while the library runs for it, and what a call keeps. *)
Definition h2_inv (u : pointer) (providers : gmap Z (Http2DataProvider E)) foreign own w live : Prop := exists st free,
  w2_states w !! u = Some st /\ state_ok st /\ piece_ok (view_memory w st) foreign free own /\ live = outside (view_memory w st) free /\
  (forall v, is_Some (w2_states w !! v) -> state_apart (view_memory w st) v) /\ w2_providers w = providers.

Record h2_step (u : pointer) w w' : Prop := {
  hs_log : w2_log w' = w2_log w;
  hs_globals : w2_globals w' = w2_globals w;
  hs_sessions : w2_sessions w' = w2_sessions w;
  hs_providers : w2_providers w' = w2_providers w;
  hs_arena : steady (w2_arena w) (w2_arena w');
  hs_others : delete u (w2_states w') = delete u (w2_states w);
  hs_state : forall st, w2_states w !! u = Some st -> exists st', w2_states w' !! u = Some st' /\ evolves (cleared st) (cleared st') }.

#[export] Instance h2_step_preorder u : PreOrder (h2_step u).
Proof.
  split.
  - intros w. split; try done. intros st Hst. by exists st.
  - intros w1 w2 w3 [A1 A2 A3 A4 A5 A6 A7] [B1 B2 B3 B4 B5 B6 B7]. split; try congruence; [by eapply steady_trans|].
    intros st Hst. destruct (A7 st Hst) as (st2 & Hst2 & E2). destruct (B7 st2 Hst2) as (st3 & Hst3 & E3). exists st3. split; [done|by etransitivity].
Qed.

(** What callbacks act on. *)
Definition h2_part (u : pointer) w : option State * E := (cleared <$> w2_states w !! u, w2_env w).
Definition h2_effect (providers : gmap Z (Http2DataProvider E)) (event : Http2Callback) (p : option State * E) (r : Http2Reply) (p' : option State * E) : Prop :=
  exists st st' written, p.1 = Some st /\ p'.1 = Some st' /\ h2_reaction lib providers event st p.2 = Ret (r, st', p'.2, written).

Lemma h2_callback_reaction u event w st : w2_states w !! u = Some st ->
  h2_callback lib u event w =
    ('(reply, st', e', written) ← h2_reaction lib (w2_providers w) event st (w2_env w);
     m ← (match event with On_data_source_read _ block offset _ _ _ => store_bytes (snd (w2_context w)) (ptr_add block offset) written | _ => Ret (snd (w2_context w)) end);
     Ret (reply, w2_set_state (w2_set_env (w2_set_memory w (w2_arena w) (w2_heap w) (fst (w2_context w), m) (w2_headers w)) e') u st')).
Proof.
  intros Hst. unfold h2_callback, h2_state_at, h2_reaction. rewrite Hst, outcome_bind_Ret.
  destruct event; try (destruct (h2_event_callback _ _ _ _) as [[[r st'] e']|]; [|done]; rewrite !outcome_bind_Ret; by destruct w as [? ? [] ? ? ? ? ? ? ?]).
  destruct (on_data_source_read _ _ _ _ _ _ _ _) as [[[[[r f] st'] written] e']|]; [|done]. by rewrite !outcome_bind_Ret.
Qed.

Lemma set_same_memory w : w2_set_memory w (w2_arena w) (w2_heap w) (fst (w2_context w), snd (w2_context w)) (w2_headers w) = w.
Proof. by destruct w as [? ? [] ? ? ? ? ? ? ?]. Qed.

Lemma states_insert w u st st' v : w2_states w !! u = Some st -> is_Some (<[u := st']> (w2_states w) !! v) -> is_Some (w2_states w !! v).
Proof. intros Hu. destruct (decide (v = u)) as [->|Hne]; [intros _; by eexists|by rewrite lookup_insert_ne]. Qed.

Lemma h2_step_state u w w' st st' : w2_log w' = w2_log w -> w2_globals w' = w2_globals w -> w2_sessions w' = w2_sessions w -> w2_providers w' = w2_providers w ->
  steady (w2_arena w) (w2_arena w') -> w2_states w !! u = Some st -> w2_states w' = <[u := st']> (w2_states w) -> evolves (cleared st) (cleared st') -> h2_step u w w'.
Proof.
  intros H1 H2 H3 H4 H5 Hst Hst' Hev. split; try done.
  - by rewrite Hst', delete_insert_eq.
  - intros ? Hs. assert (st0 = st) as -> by congruence. exists st'. by rewrite Hst', lookup_insert_eq.
Qed.

Lemma evolves_cleared st st' : evolves st st' -> evolves (cleared st) (cleared st').
Proof. by intros []. Qed.

Lemma serve_h2_request u providers foreign own w live op : h2_inv u providers foreign own w live -> owned_legal own op ->
  exists r w' live' own', h2_request u op w = Ret (r, w') /\ heap_step live op r live' /\ owned_step own op r own' /\
    dom own' = own_after (dom own) op r /\ h2_inv u providers foreign own' w' live' /\ h2_step u w w' /\ h2_part u w' = h2_part u w.
Proof using PoolSource0.
  intros (st & free & Hst & Hok & HP & -> & Ha & Hp) Hl.
  destruct (piece_request _ _ _ _ _ HP Hl) as (r & s' & free' & own' & Erun & HP' & Hstep & Ho & Hdom & Hext & Hkept).
  set (st' := set_free_allocations st (np_free_list (ps_pool s'))).
  exists r, (put_memory w u st s'), (outside s' free'), own'. unfold h2_request, h2_state_at. rewrite Hst, outcome_bind_Ret, Erun, outcome_bind_Ret.
  destruct Hkept as [Hsteady Hworker]. pose proof (view_put w u st s' (pc_sync _ _ _ _ HP') Hworker) as Hview. fold st' in Hview.
  do 4 (split; [done|]). split.
  { exists st', free'. rewrite Hview. split; [apply lookup_insert_eq|]. split; [by destruct Hok|]. split; [done|]. split; [done|]. split; [|done].
    intros v Hv. apply (state_extends _ _ _ (pc_blocks _ _ _ _ HP) Hext), Ha. exact (states_insert w u st _ v Hst Hv). }
  split; [apply (h2_step_state u _ _ st st'); try done; exact (reflexivity (R := evolves) (cleared st))|]. unfold h2_part. cbn. by rewrite lookup_insert_eq, Hst.
Qed.

Lemma serve_h2_callback u providers sources foreign own w live event : sources ⊆ dom providers -> providers_ok providers ->
  h2_inv u providers foreign own w live -> h2_event_ok sources own event ->
  exists r w' live', h2_callback lib u event w = Ret (r, w') /\ h2_inv u providers foreign own w' live' /\ h2_step u w w' /\
    h2_effect providers event (h2_part u w) r (h2_part u w') /\ framed (dom own) live (dom own) live'.
Proof using PoolSource0.
  intros Hsrc Hprov (st & free & Hst & Hok & HP & -> & Ha & Hp) Hv.
  destruct (reaction_total lib providers sources own event st (w2_env w) Hok Hv Hsrc Hprov) as (reply & st' & e' & written & Er & Hok' & Hev & Hw).
  rewrite (h2_callback_reaction u event w st Hst), Hp, Er, outcome_bind_Ret.
  assert (Hm : exists m free' , (match event with On_data_source_read _ block offset _ _ _ => store_bytes (snd (w2_context w)) (ptr_add block offset) written
      | _ => Ret (snd (w2_context w)) end) = Ret m /\ piece_ok (set_memory (view_memory w st) m) foreign free' own /\
      framed (dom own) (outside (view_memory w st) free) (dom own) (outside (set_memory (view_memory w st) m) free')).
  { assert (Hsame : exists m free', Ret (snd (w2_context w)) = Ret m /\ piece_ok (set_memory (view_memory w st) m) foreign free' own /\
      framed (dom own) (outside (view_memory w st) free) (dom own) (outside (set_memory (view_memory w st) m) free')).
    { exists (snd (w2_context w)), free. split; [done|].
      assert (set_memory (view_memory w st) (snd (w2_context w)) = view_memory w st) as -> by (by destruct w as [? ? [] ? ? ? ? ? ? ?]).
      split; [done|]. apply framed_refl, sized_dom, HP. }
    destruct event as [| | | | |stream block offset length flags source]; [exact Hsame..|]. clear Hsame.
    destruct Hv as ((n & Hn & Ho & Hlen & Hfit) & _).
    assert (Hl : owned_legal own (PWrite block offset written)) by (exists n; split; [done|]; lia).
    destruct (piece_request _ _ _ _ _ HP Hl) as (r & s' & free' & own' & Erun & HP' & Hstep & Hos & Hdom & _).
    cbn [h2_exec exec_pool] in Erun. apply outcome_bind_Ret_inv in Erun as (m & Em & Erun). injection Erun as <- <-.
    assert (own' = own) as -> by (by inversion Hos). exists m, free'. split; [exact Em|]. split; [done|].
    destruct (owned_pool_legal _ _ _ (pc_sized _ _ _ _ HP) Hl) as (_ & Hop & _). rewrite Hdom at 2.
    by apply heap_step_framed; [apply sized_dom, HP| |]. }
  destruct Hm as (m & free' & -> & HP' & Hf). rewrite outcome_bind_Ret. set (w' := w2_set_state _ _ _).
  assert (Hview : view_memory w' st' = set_memory (view_memory w st) m).
  { rewrite <- (view_evolves _ _ _ Hev). done. }
  eexists _, w', _. split; [done|]. split.
  { exists st', free'. rewrite Hview. split; [apply lookup_insert_eq|]. split; [done|]. split; [exact HP'|]. split; [done|]. split; [|done].
    intros v Hvs. change (state_apart (view_memory w st) v). apply Ha. exact (states_insert w u st _ v Hst Hvs). }
  split; [apply (h2_step_state u _ _ st st'); try done; by apply evolves_cleared|]. split; [|done].
  exists (cleared st), (cleared st'), written. unfold h2_part. cbn. rewrite Hst, lookup_insert_eq. split; [done|]. split; [done|]. by apply reaction_clear.
Qed.

Lemma http2_serves u providers sources foreign : sources ⊆ dom providers -> providers_ok providers ->
  Serves h2_request (h2_callback lib) u (h2_event_ok sources) (h2_inv u providers foreign) (h2_step u) (h2_part u) (h2_effect providers).
Proof using PoolSource0.
  intros Hs Hp. split.
  - intros own w live (st & free & _ & _ & HP & -> & _). apply HP.
  - intros own w live op. apply serve_h2_request.
  - intros own w live event. by apply serve_h2_callback.
Qed.
End calls.
