(* ===== verification/Http2Sessions.v ===== *)
(** * HTTP/2 sessions that share an arena

    The states and blocks of several sessions in one arena, each block with one owner, and the
    operations of a session against what the library answers: one conversation for a session
    keeps the blocks and states of the others. *)
From S2P Require Import Prelude Contract CheckedArithmetic Identifiers MemoryBudget MemoryBudgetSpec BudgetInvariant Views BinaryEnvelope BlockSource BoundedArena ArenaSpec.
From S2P Require Import NativeMemory NativeSpec Dependencies CodecPool Conversations Http2 Http2Spec.
From Stdlib Require Import ZArith Lia String Ascii.
From stdpp Require Import base numbers list gmap option fin_map_dom.

Set Default Goal Selector "!".
#[local] Open Scope Z_scope.

(** ** The blocks of all sessions *)
Section memory.
Context {N G C L E : Type} {acquire : C * Memory -> Z -> Result MutableByteView * (C * Memory)}.
Context {reset : C * Memory -> Result unit * (C * Memory)} `{!PoolSource acquire reset}.
Context {lib : Nghttp2 N G}.
Abbreviation World := (Http2World N G C L E).
Abbreviation State := (NativeState L E).
Abbreviation Piece := (list pointer * Owned)%type.
Implicit Types (w : World) (live : gmap pointer (list Z)) (st : State) (own : Owned) (pieces : gmap pointer Piece) (free : list pointer).
Abbreviation piece_ok := (piece_ok (acquire := acquire) (reset := reset)).
Abbreviation blocks_ok := (blocks_ok (acquire := acquire) (reset := reset)).
Abbreviation h2_inv := (h2_inv (acquire := acquire) (reset := reset)).

(** The arena with no free list. *)
Definition bare w : PoolState C :=
  MkPoolState (MkNativeMemoryPool (ba_worker (w2_arena w)) (ba_generation (w2_arena w)) None) (w2_arena w) (w2_heap w) (w2_context w) (w2_headers w).

(** The blocks of a session: its free list and what the library owns for it. *)
Definition piece_blocks (piece : Piece) : gset pointer := list_to_set piece.1 ∪ set_map header_of (dom piece.2).

Lemma piece_blocks_spec (piece : Piece) a : a ∈ piece_blocks piece <-> a ∈ piece.1 \/ payload_of a ∈ dom piece.2.
Proof.
  unfold piece_blocks. rewrite elem_of_union, elem_of_list_to_set, elem_of_map. split.
  - intros [|(p & -> & Hp)]; [by left|right]. by rewrite payload_header.
  - intros [|Hp]; [by left|right]. exists (payload_of a). by rewrite header_payload.
Qed.

Record piece_in (headers : Headers) st (piece : Piece) : Prop := {
  pn_chain : free_list_chain headers (ns_free_allocations st) piece.1;
  pn_nodup : NoDup piece.1;
  pn_owned : forall p n, piece.2 !! p = Some n -> (header_of p ∉ piece.1) /\ exists x, headers !! header_of p = Some x /\ aa_used x = n }.

Lemma piece_in_headers headers st piece a : piece_in headers st piece -> a ∈ piece_blocks piece -> is_Some (headers !! a).
Proof.
  intros [H1 H2 H3] [Ha|[n Hn]%elem_of_dom]%piece_blocks_spec; [by eapply chain_headers|].
  destruct (H3 _ _ Hn) as (_ & x & Hx & _). rewrite header_payload in Hx. by eexists.
Qed.

Lemma piece_in_kept headers headers' st piece : (forall a, a ∈ piece_blocks piece -> headers' !! a = headers !! a) -> piece_in headers st piece ->
  piece_in headers' st piece.
Proof.
  intros Hsame [R1 R2 R3]. split; [|done|].
  - eapply free_list_chain_agree; [|exact R1]. intros a Hin. rewrite Hsame; [done|]. apply piece_blocks_spec. by left.
  - intros p n Hp. destruct (R3 p n Hp) as (Hf & x & Hx & Hn). split; [done|]. exists x. split; [|done]. rewrite Hsame; [done|].
    apply piece_blocks_spec. right. rewrite payload_header. apply elem_of_dom. by eexists.
Qed.

(** Every block belongs to one session, and every state is where no block and no other state
    is. *)
Record h2_memory w pieces : Prop := {
  hm_blocks : blocks_ok (bare w);
  hm_states : dom (w2_states w) = dom pieces;
  hm_state : forall u st piece, w2_states w !! u = Some st -> pieces !! u = Some piece ->
    state_ok st /\ value_ (ns_worker st) = value_ (ba_worker (w2_arena w)) /\ piece_in (w2_headers w) st piece /\ state_apart (bare w) u;
  hm_cover : forall a, is_Some (w2_headers w !! a) -> exists u piece, pieces !! u = Some piece /\ a ∈ piece_blocks piece;
  hm_apart : forall u v p q, u <> v -> pieces !! u = Some p -> pieces !! v = Some q -> piece_blocks p ## piece_blocks q;
  hm_providers : providers_ok (w2_providers w) }.

Lemma bare_blocks w st : blocks_ok (bare w) <-> blocks_ok (view_memory w st).
Proof. split; intros []; by split. Qed.

Lemma contents_length s a x bytes : blocks_ok s -> ps_headers s !! a = Some x -> contents s a x = Some bytes -> Z.of_nat (length bytes) = aa_used x.
Proof.
  intros Hb Hx Hc. eapply (span_bytes_length _ (MkSpan (Some (payload_of a)) (aa_used x))); [|exact Hc]. destruct (bo_headers _ Hb a x Hx). cbn. lia.
Qed.

Lemma piece_sized s free own : blocks_ok s ->
  sized own (outside s free) <-> forall p n, own !! p = Some n -> (header_of p ∉ free) /\ exists x, ps_headers s !! header_of p = Some x /\ aa_used x = n.
Proof using PoolSource0.
  intros Hb. split; intros H p n Hp; specialize (H p n Hp).
  - destruct H as (bytes & Hl & Hn). rewrite <- (payload_header p), outside_lookup in Hl.
    destruct (ps_headers s !! header_of p) as [x|] eqn:Hx; [|done]. cbn in Hl. destruct (decide (header_of p ∈ free)); [done|]. split; [done|].
    exists x. split; [done|]. by rewrite <- (contents_length s _ x bytes Hb Hx Hl).
  - destruct H as (Hf & x & Hx & Hn). destruct (blocks_contents s _ x Hb Hx) as [bytes Hc]. exists bytes.
    rewrite <- (payload_header p), outside_lookup, Hx. cbn. rewrite decide_False by done. split; [done|]. by rewrite (contents_length s _ x bytes Hb Hx Hc).
Qed.

(** The blocks that are not of a piece. *)
Definition foreign_to w (piece : Piece) : Headers := filter (fun ax => ax.1 ∉ piece_blocks piece) (w2_headers w).

Lemma foreign_lookup w piece a : foreign_to w piece !! a = if decide (a ∈ piece_blocks piece) then None else w2_headers w !! a.
Proof.
  unfold foreign_to. destruct (decide (a ∈ piece_blocks piece)) as [Ha|Ha].
  - apply map_lookup_filter_None. right. intros x _ Hn. by apply Hn.
  - destruct (w2_headers w !! a) as [x|] eqn:Hx; [by apply map_lookup_filter_Some|apply map_lookup_filter_None; by left].
Qed.

Lemma memory_focus w pieces u st piece : h2_memory w pieces -> w2_states w !! u = Some st -> pieces !! u = Some piece ->
  h2_inv u (w2_providers w) (foreign_to w piece) piece.2 w (outside (bare w) piece.1).
Proof using PoolSource0.
  intros [H1 H2 H3 H4 H5 H6] Hst Hu. destruct (H3 u st piece Hst Hu) as (Hok & Hw & [P1 P2 P3] & Ha).
  exists st, piece.1. split; [done|]. split; [done|]. split; [|split; [done|split; [|done]]].
  - split; try done.
    + by apply bare_blocks.
    + by apply (piece_sized (bare w) piece.1 piece.2).
    + apply map_subseteq_spec. intros a x. rewrite foreign_lookup. by destruct (decide _).
    + intros a Hin. rewrite foreign_lookup, decide_True; [done|]. apply piece_blocks_spec. by left.
    + intros p Hp. rewrite foreign_lookup, decide_True; [done|]. apply piece_blocks_spec. right. by rewrite payload_header.
    + intros a Hs. destruct (decide (a ∈ piece_blocks piece)) as [Hin|Hout]; [apply piece_blocks_spec in Hin; tauto|]. do 2 right.
      rewrite foreign_lookup, decide_False by done. exact Hs.
  - intros v [stv Hv]. destruct (proj1 (elem_of_dom pieces v)) as [q Hq]; [rewrite <- H2; apply elem_of_dom; by eexists|].
    by destruct (H3 v stv q Hv Hq) as (_ & _ & _ & Hav).
Qed.

Lemma memory_unfocus w pieces u st0 piece w' own' live' : h2_memory w pieces -> w2_states w !! u = Some st0 -> pieces !! u = Some piece ->
  h2_inv u (w2_providers w) (foreign_to w piece) own' w' live' -> h2_step u w w' ->
  exists free', h2_memory w' (<[u := (free', own')]> pieces) /\ live' = outside (bare w') free'.
Proof using PoolSource0.
  intros [H1 H2 H3 H4 H5 H6] Hst0 Hu (st & free' & Hst & Hok & HP & -> & Ha & Hprov) [S1 S2 S3 S4 S5 S6 S7]. exists free'.
  split; [|done]. destruct HP as [P1 P2 P3 P4 P5 P6 P7 P8 P9 P10]. pose proof (proj1 (piece_sized _ _ _ P1) P6) as Powned.
  assert (Hother : forall v, v <> u -> w2_states w' !! v = w2_states w !! v).
  { intros v Hne. rewrite <- (lookup_delete_ne (w2_states w') u v), S6, lookup_delete_ne by done. done. }
  assert (Hforeign : forall v q a, v <> u -> pieces !! v = Some q -> a ∈ piece_blocks q -> foreign_to w piece !! a = w2_headers w !! a).
  { intros v q a Hne Hq Hin. rewrite foreign_lookup, decide_False; [done|]. intros Hin'. by apply (H5 v u q piece Hne Hq Hu a). }
  assert (Hnew : forall a, a ∈ piece_blocks (free', own') -> foreign_to w piece !! a = None).
  { intros a [Hin|Hin]%piece_blocks_spec; [by apply P8|]. rewrite <- (header_payload a). by apply P9. }
  assert (Hin_w : forall v q a, v <> u -> pieces !! v = Some q -> a ∈ piece_blocks q -> is_Some (w2_headers w !! a)).
  { intros v q a Hne Hq Hin. destruct (proj1 (elem_of_dom (w2_states w) v)) as [stv Hv]; [rewrite H2; apply elem_of_dom; by eexists|].
    destruct (H3 v stv q Hv Hq) as (_ & _ & Hpi & _). by eapply piece_in_headers. }
  split.
  - by apply (bare_blocks w' st).
  - rewrite dom_insert_L, <- H2. apply set_eq. intros v. rewrite elem_of_union, elem_of_singleton, !elem_of_dom.
    destruct (decide (v = u)) as [->|Hne]; [split; [by left|intros _; by eexists]|]. rewrite Hother by done. naive_solver.
  - intros v stv q Hv Hq. destruct (decide (v = u)) as [->|Hne].
    + rewrite lookup_insert_eq in Hq. injection Hq as <-. assert (stv = st) as -> by congruence. split; [done|]. split; [exact P2|].
      split; [by split|]. exact (Ha u ltac:(by eexists)).
    + rewrite lookup_insert_ne in Hq by done. pose proof Hv as Hv'. rewrite Hother in Hv by done. destruct (H3 v stv q Hv Hq) as (Q1 & Q2 & Q3 & Q4). split; [done|].
      destruct S5 as (_ & _ & _ & Ew). rewrite Ew. split; [done|]. split; [|exact (Ha v ltac:(by eexists))].
      apply (piece_in_kept (w2_headers w)); [|done]. intros a Hin. destruct (Hin_w v q a Hne Hq Hin) as [x Hx]. rewrite Hx.
      apply (lookup_weaken _ _ _ _ ltac:(rewrite (Hforeign v q a); done) P7).
  - intros a Hs. destruct (P10 a Hs) as [Hin|[Hin|Hin]].
    + exists u, (free', own'). rewrite lookup_insert_eq. split; [done|]. apply piece_blocks_spec. by left.
    + exists u, (free', own'). rewrite lookup_insert_eq. split; [done|]. apply piece_blocks_spec. by right.
    + rewrite foreign_lookup in Hin. destruct (decide (a ∈ piece_blocks piece)) as [|Hout]; [by destruct Hin|].
      destruct (H4 a Hin) as (v & q & Hq & Hinq). exists v, q. split; [|done]. rewrite lookup_insert_ne; [done|]. intros <-. congruence.
  - intros v v' q q' Hne Hq Hq'. destruct (decide (v = u)) as [->|Hnu].
    + rewrite lookup_insert_eq in Hq. injection Hq as <-. rewrite lookup_insert_ne in Hq' by done. intros a Hin Hin'.
      destruct (Hin_w v' q' a ltac:(done) Hq' Hin') as [x Hx]. rewrite <- (Hforeign v' q' a) in Hx by done. rewrite (Hnew a Hin) in Hx. done.
    + rewrite lookup_insert_ne in Hq by done. destruct (decide (v' = u)) as [->|Hnu'].
      * rewrite lookup_insert_eq in Hq'. injection Hq' as <-. intros a Hin Hin'.
        destruct (Hin_w v q a ltac:(done) Hq Hin) as [x Hx]. rewrite <- (Hforeign v q a) in Hx by done. rewrite (Hnew a Hin') in Hx. done.
      * rewrite lookup_insert_ne in Hq' by done. by apply (H5 v v').
  - by rewrite S4.
Qed.

(** The bytes of a block. *)
Definition block_of w (a : pointer) : option (list Z) := w2_headers w !! a ≫= contents (bare w) a.

Lemma block_outside w free a : a ∉ free -> block_of w a = outside (bare w) free !! payload_of a.
Proof. intros Ha. rewrite outside_lookup. unfold block_of. cbn. destruct (w2_headers w !! a); [|done]. cbn. by rewrite decide_False. Qed.

(** The blocks of the sessions other than [u] have the bytes they had. *)
Definition undisturbed (u : pointer) pieces w w' : Prop :=
  forall v q a, v <> u -> pieces !! v = Some q -> a ∈ piece_blocks q -> block_of w' a = block_of w a.

Lemma undisturbed_refl u pieces w : undisturbed u pieces w w.
Proof. by intros v q a. Qed.

Lemma framed_undisturbed u pieces w w' piece piece' : h2_memory w pieces -> pieces !! u = Some piece -> h2_memory w' (<[u := piece']> pieces) ->
  framed (dom piece.2) (outside (bare w) piece.1) (dom piece'.2) (outside (bare w') piece'.1) -> undisturbed u pieces w w'.
Proof using PoolSource0.
  intros HM Hu HM' Hf v q a Hne Hq Hin. pose proof (hm_apart _ _ HM v u q piece Hne Hq Hu a Hin) as Hout. rewrite piece_blocks_spec in Hout.
  pose proof (hm_apart _ _ HM' v u q piece' Hne ltac:(by rewrite lookup_insert_ne) (lookup_insert_eq _ _ _) a Hin) as Hout'. rewrite piece_blocks_spec in Hout'.
  destruct (proj1 (elem_of_dom (w2_states w) v)) as [stv Hv]; [rewrite (hm_states _ _ HM); apply elem_of_dom; by eexists|].
  destruct (hm_state _ _ HM v stv q Hv Hq) as (_ & _ & Hpi & _). destruct (piece_in_headers _ _ _ _ Hpi Hin) as [x Hx].
  rewrite (block_outside w' piece'.1), (block_outside w piece.1) by tauto. apply (fr_others _ _ _ _ Hf); [tauto|]. apply elem_of_dom.
  rewrite outside_lookup. cbn. rewrite Hx. cbn. rewrite decide_False by tauto. apply blocks_contents; [apply HM|done].
Qed.

(** A conversation for the session with state [u]. *)
Lemma converse_memory {A} (valid : Owned -> Http2Callback -> Prop) effect (post : A -> Owned -> Prop) (c : Http2Call A) w pieces u piece :
  h2_memory w pieces -> pieces !! u = Some piece ->
  (forall foreign, Serves h2_request (h2_callback lib) u valid (h2_inv u (w2_providers w) foreign) (h2_step u) (h2_part u) effect) ->
  behaves u valid post piece.2 c ->
  exists a w' piece' trace, converse h2_request (h2_callback lib) c w = Ret (a, w') /\ post a piece'.2 /\ h2_memory w' (<[u := piece']> pieces) /\
    h2_step u w w' /\ undisturbed u pieces w w' /\ exchanges c trace a /\ replies effect (h2_part u w) trace (h2_part u w').
Proof using PoolSource0.
  intros HM Hu HS Hb. destruct (proj1 (elem_of_dom (w2_states w) u)) as [st Hst]; [rewrite (hm_states _ _ HM); apply elem_of_dom; by eexists|].
  pose proof (memory_focus w pieces u st piece HM Hst Hu) as Hi. specialize (HS (foreign_to w piece)).
  destruct (converse_run h2_request (h2_callback lib) u valid _ (h2_step u) (h2_part u) effect post c piece.2 w _ Hb Hi)
    as (a & w' & live' & own' & trace & Erun & Hpost & Hi' & Hstep & Hf & Hex & Hrep).
  destruct (memory_unfocus w pieces u st piece w' own' live' HM Hst Hu Hi' Hstep) as (free' & HM' & ->).
  exists a, w', (free', own'), trace. split; [done|]. split; [done|]. split; [done|]. split; [done|]. split; [|done]. by eapply framed_undisturbed.
Qed.

Lemma quiet_serves u (providers : gmap Z (Http2DataProvider E)) sources foreign :
  Serves (W := World) h2_request (h2_callback lib) u (quiet sources) (h2_inv u providers foreign) (h2_step u) (h2_part u) (fun _ _ _ _ => False).
Proof using PoolSource0.
  split; [|intros own w live op; apply serve_h2_request|by intros].
  intros own w live (st & free & _ & _ & HP & -> & _). apply HP.
Qed.
End memory.

(** ** Operations and what they return *)
Inductive http2_call :=
  | QReceive (input : list Z)
  | QOutput
  | QInterest
  | QRequest (headers : list Http2Header) (end_stream : bool)
  | QHeaders (stream : Http2StreamId) (headers : list Http2Header) (end_stream : bool)
  | QSettings (settings : list Http2Setting)
  | QData (stream : Http2StreamId) (provider : Z) (end_stream : bool)
  | QResume (stream : Http2StreamId)
  | QReset (stream : Http2StreamId) (code : Z)
  | QGoaway (last_stream_id code : Z) (debug_data : list Z)
  | QWindow (increment : Z)
  | QStreamWindow (stream : Http2StreamId) (increment : Z).

Inductive http2_reply := QDone | QCount (bytes : Z) | QView (output : ByteView) | QIo (interest : Http2IoInterest) | QStream (stream : Http2StreamId).

Definition h2_reply {A} (f : A -> http2_reply) (r : Result A) : Result http2_reply := match r with Ok a => Ok (f a) | Err e => Err e end.

Definition call_http2 {N G C L E} (lib : Nghttp2 N G) (this : Http2Session) (call : http2_call) (w : Http2World N G C L E) :
    outcome (Result http2_reply * Http2World N G C L E) :=
  match call with
  | QReceive input => '(r, w) ← Http2Session_receive lib this input w; Ret (h2_reply QCount r, w)
  | QOutput => '(r, w) ← Http2Session_next_output lib this w; Ret (h2_reply QView r, w)
  | QInterest => '(r, w) ← Http2Session_interest lib this w; Ret (h2_reply QIo r, w)
  | QRequest headers end_stream => '(r, w) ← Http2Session_submit_request lib this headers end_stream w; Ret (h2_reply QStream r, w)
  | QHeaders stream headers end_stream => '(r, w) ← Http2Session_submit_headers lib this stream headers end_stream w; Ret (h2_reply (fun _ => QDone) r, w)
  | QSettings settings => '(r, w) ← Http2Session_submit_settings lib this settings w; Ret (h2_reply (fun _ => QDone) r, w)
  | QData stream provider end_stream => '(r, w) ← Http2Session_submit_data lib this stream provider end_stream w; Ret (h2_reply (fun _ => QDone) r, w)
  | QResume stream => '(r, w) ← Http2Session_resume_data lib this stream w; Ret (h2_reply (fun _ => QDone) r, w)
  | QReset stream code => '(r, w) ← Http2Session_submit_reset lib this stream code w; Ret (h2_reply (fun _ => QDone) r, w)
  | QGoaway last code debug => '(r, w) ← Http2Session_submit_goaway lib this last code debug w; Ret (h2_reply (fun _ => QDone) r, w)
  | QWindow increment => '(r, w) ← Http2Session_submit_connection_window_update lib this increment w; Ret (h2_reply (fun _ => QDone) r, w)
  | QStreamWindow stream increment => '(r, w) ← Http2Session_submit_stream_window_update lib this stream increment w; Ret (h2_reply (fun _ => QDone) r, w)
  end.

(** A view shows at most as many bytes as a size can count, and a provider is an object. *)
Definition http2_call_legal {E} (providers : gmap Z (Http2DataProvider E)) (call : http2_call) : Prop :=
  match call with
  | QReceive input => Z.of_nat (length input) <= size_max
  | QData _ provider _ => provider ∈ dom providers
  | _ => True
  end.

(** ** Header blocks *)
Definition h2_field_size (header : Http2Header) : Z := h2_size (h2_name header) + h2_size (h2_value header).
Definition h2_block_size (headers : list Http2Header) : Z := foldr (fun header total => h2_field_size header + total) 0 headers.

(** Every field has a name, and all of them fit. *)
Definition h2_block_fits (headers : list Http2Header) (maximum : Z) : Prop :=
  Forall (fun header => h2_name header <> []) headers /\ h2_block_size headers <= maximum.
#[export] Instance h2_block_fits_dec headers maximum : Decision (h2_block_fits headers maximum).
Proof. unfold h2_block_fits. apply _. Defined.

(** The header blocks a submission refuses. *)
Definition header_refusal (headers : list Http2Header) (limits : Http2Limits) : option Error :=
  if bool_decide (1 <= Z.of_nat (length headers) <= h2_header_fields limits) then
    if decide (h2_block_fits headers (h2_header_block_bytes limits)) then None else Some h2_header_block_error
  else Some h2_header_count_error.

Lemma h2_block_size_nonneg headers : 0 <= h2_block_size headers.
Proof. unfold h2_block_size. induction headers as [|h headers IH]; cbn [foldr]; [lia|]. unfold h2_field_size, h2_size in *. lia. Qed.

Lemma h2_header_refused_spec header maximum total : 0 <= total <= maximum -> maximum <= size_max ->
  h2_header_refused header maximum total = false <-> h2_name header <> [] /\ total + h2_field_size header <= maximum.
Proof.
  intros Ht Hm. unfold h2_header_refused, h2_field_size, h2_size. unfold size_max in Hm. rewrite u64_small by lia. rewrite !orb_false_iff, bool_decide_eq_false, !Z.ltb_ge.
  split.
  - intros [[H1 H2] H3]. rewrite u64_small in H3 by lia. split; [done|]. lia.
  - intros [H1 H2]. rewrite u64_small by lia. split; [split; [done|]|]; lia.
Qed.

Lemma h2_headers_loop_run {N G} (lib : Nghttp2 N G) headers maximum : forall done total,
  0 <= total <= maximum -> maximum <= size_max -> (length done + length headers <= maximum_submission_headers)%nat ->
  exists r, headers_loop lib headers maximum (length done) (done ++ replicate (maximum_submission_headers - length done) nghttp2_nv_default) total = Ret r /\
    if decide (h2_block_fits headers (maximum - total)) then exists native, r = Ok native /\ take (length done + length headers) native = done ++ map (nv2_of lib) headers
    else r = Err h2_header_block_error.
Proof.
  induction headers as [|h headers IH]; intros done total Ht Hm Hlen; cbn [headers_loop].
  { eexists. split; [reflexivity|]. destruct (decide _) as [_|Hno].
    - eexists. split; [reflexivity|]. cbn [length map]. by rewrite Nat.add_0_r, take_app_length, app_nil_r.
    - exfalso. apply Hno. split; [constructor|]. cbn. lia. }
  destruct (h2_header_refused h maximum total) eqn:Hr.
  - eexists. split; [reflexivity|]. destruct (decide _) as [[Hn Hs]|_]; [|reflexivity]. exfalso.
    apply not_false_iff_true in Hr. apply Hr. apply h2_header_refused_spec; [done..|]. apply Forall_cons in Hn as [Hn _].
    split; [done|]. cbn in Hs. pose proof (h2_block_size_nonneg headers). unfold h2_block_size in *. lia.
  - apply h2_header_refused_spec in Hr as [Hname Hfit]; [|done..]. cbn [length] in Hlen. unfold size_max, maximum_submission_headers in *.
    unfold set_slot. rewrite length_app, length_replicate, (proj2 (Z.leb_gt _ _)) by lia. rewrite outcome_bind_Ret, Nat2Z.id.
    rewrite insert_app_r_alt by lia. rewrite Nat.sub_diag. destruct (64 - length done)%nat as [|room] eqn:Eroom; [lia|]. cbn [replicate insert list_insert].
    unfold h2_field_size, h2_size in Hfit. unfold h2_size. rewrite (u64_small (Z.of_nat (length (h2_name h)) + _)) by lia. rewrite u64_small by lia.
    destruct (IH (done ++ [nv2_of lib h]) (total + (Z.of_nat (length (h2_name h)) + Z.of_nat (length (h2_value h)))) ltac:(lia) Hm) as (r & Er & Hres).
    { rewrite length_app. cbn. lia. }
    exists r. split.
    + rewrite <- Er. rewrite length_app. cbn [length]. rewrite <- app_assoc. cbn [app]. replace (length done + 1)%nat with (S (length done)) by lia.
      do 3 f_equal. f_equal. lia.
    + revert Hres. set (t' := total + _). rewrite length_app. cbn [length map]. rewrite <- app_assoc. cbn [app].
      replace (length done + 1 + length headers)%nat with (length done + S (length headers))%nat by lia.
      destruct (decide (h2_block_fits headers (maximum - t'))) as [Hf|Hf].
      * intros Hn. destruct (decide _) as [_|Hno]; [done|]. exfalso. apply Hno. destruct Hf as [Hf1 Hf2]. split; [by constructor|].
        cbn. unfold h2_block_size, h2_field_size, h2_size, t' in *. lia.
      * intros ->. destruct (decide _) as [[Hy1 Hy2]|_]; [|done]. exfalso. apply Hf. apply Forall_cons in Hy1 as [_ Hy1].
        split; [done|]. cbn in Hy2. unfold h2_block_size, h2_field_size, h2_size, t' in *. lia.
Qed.

(** ** The world between operations *)
Section sessions.
Context {N G C L E : Type} {acquire : C * Memory -> Z -> Result MutableByteView * (C * Memory)}.
Context {reset : C * Memory -> Result unit * (C * Memory)} `{!PoolSource acquire reset}.
Context {lib : Nghttp2 N G} {laws : Nghttp2Laws lib}.
Abbreviation World := (Http2World N G C L E).
Abbreviation State := (NativeState L E).
Abbreviation Piece := (list pointer * Owned)%type.
Implicit Types (w : World) (st : State) (own : Owned) (pieces : gmap pointer Piece) (owners : gmap pointer pointer).
Abbreviation h2_memory := (h2_memory (acquire := acquire) (reset := reset)).

(** [owners] are the native sessions by the address of their state: what the library owns
    belongs to native sessions, and a released state has nothing left of it. *)
Record h2_resting w pieces owners : Prop := {
  h2r_memory : h2_memory w pieces;
  h2r_owners : forall u a, owners !! u = Some a -> exists n free, w2_sessions w !! a = Some n /\ session_user n = u /\ session_address n = a /\
    pieces !! u = Some (free, session_memory n) /\ session_sources n ⊆ dom (w2_providers w);
  h2r_sessions : forall a n, w2_sessions w !! a = Some n -> owners !! session_user n = Some a;
  h2r_released : forall u piece, pieces !! u = Some piece -> owners !! u = None -> piece.2 = ∅ }.

(** What a call for the session at [a] with state [u] may change. *)
Record h2_called (u a : pointer) w w' : Prop := {
  hc2_globals : w2_globals w' = w2_globals w;
  hc2_sessions : delete a (w2_sessions w') = delete a (w2_sessions w);
  hc2_providers : w2_providers w' = w2_providers w;
  hc2_arena : steady (w2_arena w) (w2_arena w');
  hc2_others : delete u (w2_states w') = delete u (w2_states w) }.

Lemma h2_called_refl u a w : h2_called u a w w.
Proof. by split. Qed.

Lemma h2_called_trans u a w1 w2 w3 : h2_called u a w1 w2 -> h2_called u a w2 w3 -> h2_called u a w1 w3.
Proof. intros [A1 A2 A3 A4 A5] [B1 B2 B3 B4 B5]. split; try congruence. by eapply steady_trans. Qed.

(** What the library is told and reports while it runs [f], and its answer. *)
Definition asks {A} (u : pointer) (f : N -> Http2Call (A * N)) (n : N) w (x : A) (n' : N) w' : Prop :=
  exists trace, exchanges (f n) trace (x, n') /\ replies (h2_effect (lib := lib) (w2_providers w)) (h2_part u w) trace (h2_part u w').

Lemma resting_called w pieces owners u a n n' w1 piece free :
  h2_resting w pieces owners -> owners !! u = Some a -> w2_sessions w !! a = Some n -> pieces !! u = Some (free, session_memory n) ->
  h2_memory w1 (<[u := piece]> pieces) -> h2_step u w w1 -> piece.2 = session_memory n' -> session_user n' = session_user n ->
  session_address n' = session_address n -> session_sources n' ⊆ dom (w2_providers w) ->
  let w' := w2_set_sessions w1 (<[a := n']> (w2_sessions w1)) in
  h2_resting w' (<[u := piece]> pieces) owners /\ h2_called u a w w'.
Proof.
  intros [R1 R2 R3 R4] Hu Hn Hp HM [S1 S2 S3 S4 S5 S6 S7] Hown Huser Haddr Hsrc. cbn zeta. destruct (R2 u a Hu) as (n0 & free0 & Hn0 & U1 & U2 & U3 & _).
  rewrite Hn in Hn0. injection Hn0 as <-. split.
  - split; cbn.
    + destruct HM as [M1 M2 M3 M4 M5 M6]. by split.
    + intros v b Hv. rewrite S4. destruct (decide (v = u)) as [->|Hne].
      * assert (b = a) as -> by congruence. exists n', piece.1. rewrite !lookup_insert_eq. split; [done|]. split; [congruence|]. split; [congruence|].
        split; [|done]. rewrite <- Hown. by destruct piece.
      * destruct (R2 v b Hv) as (m & freev & Hm & V1 & V2 & V3 & V4). exists m, freev. rewrite S3, !lookup_insert_ne; try done. intros <-.
        congruence.
    + intros b m. rewrite S3. intros [[<- <-]|[Hne Hm]]%lookup_insert_Some; [congruence|by apply R3].
    + intros v q. destruct (decide (v = u)) as [->|Hne]; [congruence|]. rewrite lookup_insert_ne by done. apply R4.
  - split; try done. cbn. by rewrite S3, delete_insert_eq.
Qed.

Lemma owner_session w pieces owners u a : h2_resting w pieces owners -> owners !! u = Some a ->
  exists n free st, w2_sessions w !! a = Some n /\ session_user n = u /\ pieces !! u = Some (free, session_memory n) /\
    w2_states w !! u = Some st /\ state_ok st /\ session_sources n ⊆ dom (w2_providers w).
Proof.
  intros [R1 R2 R3 R4] Hu. destruct (R2 u a Hu) as (n & free & Hn & U1 & _ & U3 & U4).
  destruct (proj1 (elem_of_dom (w2_states w) u)) as [st Hst]; [rewrite (hm_states _ _ R1); apply elem_of_dom; by eexists|].
  exists n, free, st. do 4 (split; [done|]). split; [|done]. by destruct (hm_state _ _ R1 u st _ Hst U3).
Qed.

(** One call of the library on a session. *)
Definition calls {A} (f : N -> Http2Call (A * N)) w pieces owners (u a : pointer) (post : A -> Prop) (asked : A -> N -> World -> Prop) : Prop :=
  exists x w' piece n', h2_native lib a f w = Ret (x, w') /\ post x /\ h2_resting w' (<[u := piece]> pieces) owners /\ h2_called u a w w' /\
    w2_log w' = w2_log w /\ undisturbed u pieces w w' /\
    (forall st, w2_states w !! u = Some st -> exists st', w2_states w' !! u = Some st' /\ evolves (cleared st) (cleared st')) /\ w2_sessions w' !! a = Some n' /\ asked x n' w'.

Lemma h2_native_run {A} (f : N -> Http2Call (A * N)) post w pieces owners u a n : h2_resting w pieces owners -> owners !! u = Some a -> w2_sessions w !! a = Some n ->
  answers session_memory session_user session_address session_sources h2_event_ok n f ∅ post ->
  calls f w pieces owners u a post (fun x n' w' => asks u f n w x n' w').
Proof using PoolSource0.
  intros HR Hu Hn Hf. destruct (owner_session _ _ _ _ _ HR Hu) as (n0 & free & st & Hn0 & U1 & U2 & U3 & U4 & U5). rewrite Hn in Hn0. injection Hn0 as <-.
  unfold answers in Hf. rewrite U1 in Hf. pose proof (hm_providers _ _ (h2r_memory _ _ _ HR)) as Hprov.
  destruct (converse_memory (lib := lib) _ _ _ _ w pieces u _ (h2r_memory _ _ _ HR) U2 (fun foreign => http2_serves u _ _ foreign U5 Hprov) Hf)
    as ([x n'] & w1 & piece & trace & Erun & (P1 & P2 & P3 & P4 & P5) & HM & Hstep & Hun & Hex & Hrep). cbn [fst snd] in *.
  destruct (resting_called w pieces owners u a n n' w1 piece free HR Hu Hn U2 HM Hstep P1 ltac:(congruence) P3 ltac:(set_solver)) as [HR' Hc].
  eexists x, _, piece, n'. unfold h2_native. rewrite Hn, Erun, outcome_bind_Ret. split; [done|]. split; [done|]. split; [exact HR'|]. split; [exact Hc|].
  split; [apply (hs_log _ _ _ Hstep)|]. split; [exact Hun|]. split; [exact (hs_state _ _ _ Hstep)|]. split; [cbn; apply lookup_insert_eq|]. by exists trace.
Qed.

(** The functions that queue a frame leave the state alone. *)
Lemma h2_quiet_run {A} (f : N -> Http2Call (A * N)) new post w pieces owners u a n : h2_resting w pieces owners -> owners !! u = Some a -> w2_sessions w !! a = Some n ->
  answers session_memory session_user session_address session_sources quiet n f new post -> new ⊆ dom (w2_providers w) ->
  calls f w pieces owners u a post (fun x n' w' => exchanges (f n) [] (x, n') /\ h2_part u w' = h2_part u w).
Proof using PoolSource0.
  intros HR Hu Hn Hf Hnew. destruct (owner_session _ _ _ _ _ HR Hu) as (n0 & free & st & Hn0 & U1 & U2 & U3 & U4 & U5). rewrite Hn in Hn0. injection Hn0 as <-.
  unfold answers in Hf. rewrite U1 in Hf.
  destruct (converse_memory (lib := lib) _ _ _ _ w pieces u _ (h2r_memory _ _ _ HR) U2 (fun foreign => quiet_serves u _ _ foreign) Hf)
    as ([x n'] & w1 & piece & trace & Erun & (P1 & P2 & P3 & P4 & P5) & HM & Hstep & Hun & Hex & Hrep). cbn [fst snd] in *.
  destruct (resting_called w pieces owners u a n n' w1 piece free HR Hu Hn U2 HM Hstep P1 ltac:(congruence) P3 ltac:(set_solver)) as [HR' Hc].
  eexists x, _, piece, n'. unfold h2_native. rewrite Hn, Erun, outcome_bind_Ret. split; [done|]. split; [done|]. split; [exact HR'|]. split; [exact Hc|].
  split; [apply (hs_log _ _ _ Hstep)|]. split; [exact Hun|]. split; [exact (hs_state _ _ _ Hstep)|]. split; [cbn; apply lookup_insert_eq|]. remember (h2_part u w) as p0 eqn:Ep. remember (h2_part u w1) as p1 eqn:Ep1.
  destruct Hrep; [|done]. split; [done|]. by rewrite Ep1.
Qed.

(** ** What an operation reports *)
Definition h2_error (operation : DependencyOperation) (code : Z) : Error := normalize_dependency_error id_nghttp2 operation (native_status lib code) code.

(** A reply, and the error that is logged. *)
Abbreviation Report := (Result http2_reply * option Error)%type.
Definition failed (operation : DependencyOperation) (code : Z) : Report := (Err (h2_error operation code), Some (h2_error operation code)).
Definition refused (failure : Error) : Report := (Err failure, None).
Definition answered (reply : http2_reply) : Report := (Ok reply, None).

(** The library queues the frame, and its result decides the reply. *)
Definition queues (u a : pointer) (n : N) (f : N -> Http2Call (Z * N)) (reply : Z -> Report) w (report : Report) w' : Prop :=
  exists r n', exchanges (f n) [] (r, n') /\ w2_sessions w' !! a = Some n' /\ h2_part u w' = h2_part u w /\ report = reply r.
Definition unit_report (r : Z) : Report := if r =? 0 then answered QDone else failed op_http2_submit r.

(** The rejected streams are reset in order, up to the first that the library refuses. *)
Definition rst (stream : Z) : N -> Http2Call (Z * N) := nghttp2_submit_rst_stream _ _ lib (NGHTTP2_FLAG_NONE _ _ lib) stream (NGHTTP2_CANCEL _ _ lib).
Definition rst_accepted (r : Z) : bool := (r =? 0) || (r =? NGHTTP2_ERR_STREAM_CLOSED _ _ lib).
Inductive resets : list Z -> N -> N -> option Z -> Prop :=
  | rs_done n : resets [] n n None
  | rs_next stream streams n r n1 n2 o : exchanges (rst stream n) [] (r, n1) -> rst_accepted r = true -> resets streams n1 n2 o -> resets (stream :: streams) n n2 o
  | rs_refused stream streams n r n1 : exchanges (rst stream n) [] (r, n1) -> rst_accepted r = false -> resets (stream :: streams) n n1 (Some r).

Definition receive_outcome (u a : pointer) (n : N) (input : list Z) w (report : Report) w' : Prop :=
  exists r n1 w1 st1 n2 st2, asks u (nghttp2_session_mem_recv _ _ lib input) n w r n1 w1 /\ r <= Z.of_nat (length input) /\
    h2_part u w1 = (Some (cleared st1), w2_env w1) /\
    w2_sessions w' !! a = Some n2 /\ h2_part u w' = (Some (cleared st2), w2_env w1) /\
    if ns_input_limit_failed st1 then report = refused h2_input_error /\ n2 = n1 /\ cleared st2 = set_input_limit_failed (cleared st1) false else
    if ns_pending_reset_overflow st1 then report = refused h2_rejected_error /\ n2 = n1 /\ pending st2 = [] /\ ns_pending_reset_overflow st2 = false else
    if r <? 0 then report = failed op_http2_receive (cast int32_t r) /\ n2 = n1 /\ cleared st2 = cleared st1 else
    pending st2 = [] /\ exists o, resets (pending st1) n1 n2 o /\
      report = match o with None => answered (QCount r) | Some code => failed op_http2_submit code end.

Definition output_outcome (u a : pointer) (n : N) w (report : Report) w' : Prop :=
  exists r data n1 w1 st1 st2, asks u (nghttp2_session_mem_send _ _ lib) n w (r, data) n1 w1 /\ h2_part u w1 = (Some (cleared st1), w2_env w1) /\
    w2_sessions w' !! a = Some n1 /\ h2_part u w' = (Some (cleared st2), w2_env w1) /\
    if ns_data_provider_failed st1 then report = refused (ns_data_provider_error st1) /\ cleared st2 = set_data_provider (cleared st1) (ns_data_provider_error st1) false
    else cleared st2 = cleared st1 /\ report = if r <? 0 then failed op_http2_send (cast int32_t r) else answered (QView (MkSpan data r)).

Definition submits (u a : pointer) (n : N) (limits : Http2Limits) (stream : Z) (headers : list Http2Header) (end_stream : bool) (reply : Z -> Report) w (report : Report) w' : Prop :=
  match header_refusal headers limits with
  | Some e => report = refused e /\ w' = w
  | None => queues u a n (nghttp2_submit_headers _ _ lib (Z.lor (NGHTTP2_FLAG_END_HEADERS _ _ lib) (if end_stream then NGHTTP2_FLAG_END_STREAM _ _ lib else 0))
      stream (map (nv2_of lib) headers)) reply w report w'
  end.

(** What the library is asked to queue, after the checks of the arguments. *)
Definition submission (limits : Http2Limits) (providers : gmap Z (Http2DataProvider E)) (call : http2_call) : option (option Error * (N -> Http2Call (Z * N))) :=
  let none := NGHTTP2_FLAG_NONE _ _ lib in
  match call with
  | QSettings settings => Some (if (maximum_settings <? length settings)%nat then Some h2_settings_error else None,
      nghttp2_submit_settings _ _ lib none (map setting_entry settings))
  | QData stream provider end_stream => Some (
      (if Http2StreamId_valid stream then match providers !! provider with Some p => if Http2DataProvider_enabled p then None else Some h2_data_error | None => Some h2_data_error end
       else Some h2_data_error),
      nghttp2_submit_data _ _ lib (if end_stream then NGHTTP2_FLAG_END_STREAM _ _ lib else none) (wire_value stream) provider)
  | QResume stream => Some (refuse_stream stream, nghttp2_session_resume_data _ _ lib (wire_value stream))
  | QReset stream code => Some (refuse_stream stream, nghttp2_submit_rst_stream _ _ lib none (wire_value stream) code)
  | QGoaway last code debug => Some (if (last <? 0) || (h2_debug_data_bytes limits <? h2_size debug) then Some h2_goaway_error else None,
      nghttp2_submit_goaway _ _ lib none last code debug)
  | QWindow increment => Some (None, nghttp2_submit_window_update _ _ lib none 0 increment)
  | QStreamWindow stream increment => Some (refuse_stream stream, nghttp2_submit_window_update _ _ lib none (wire_value stream) increment)
  | _ => None
  end.

(** The report of an operation on a session. *)
Definition http2_outcome (u a : pointer) st (n : N) (call : http2_call) w (report : Report) w' : Prop :=
  match call with
  | QReceive input => receive_outcome u a n input w report w'
  | QOutput => output_outcome u a n w report w'
  | QInterest => w' = w /\ report = answered (QIo (MkHttp2IoInterest (negb (nghttp2_session_want_read _ _ lib n =? 0)) (negb (nghttp2_session_want_write _ _ lib n =? 0)) false))
  | QRequest headers end_stream => submits u a n (ns_limits st) (-1) headers end_stream
      (fun r => if r <? 0 then failed op_http2_submit r else answered (QStream (MkHttp2StreamId r))) w report w'
  | QHeaders stream headers end_stream =>
      if Http2StreamId_valid stream then submits u a n (ns_limits st) (wire_value stream) headers end_stream
        (fun r => if r <? 0 then failed op_http2_submit r else answered QDone) w report w'
      else report = refused h2_stream_error /\ w' = w
  | _ => match submission (ns_limits st) (w2_providers w) call with
         | None => False
         | Some (Some e, _) => report = refused e /\ w' = w
         | Some (None, f) => queues u a n f unit_report w report w'
         end
  end.

(** What an operation leaves. *)
Record http2_effect w pieces owners (u a : pointer) st (report : Report) w' pieces' : Prop := {
  he_resting : h2_resting w' pieces' owners;
  he_called : h2_called u a w w';
  he_undisturbed : undisturbed u pieces w w';
  he_log : w2_log w' = match report.2 with Some e => log_dependency_error (ns_log_sink st) (w2_log w) e | None => w2_log w end }.

Lemma resting_log w pieces owners l : h2_resting w pieces owners -> h2_resting (w2_set_log w l) pieces owners.
Proof. intros [[M1 M2 M3 M4 M5 M6] R2 R3 R4]. by split. Qed.

(** A change of the state that is not about memory. *)
Lemma resting_state w pieces owners u st st' : h2_resting w pieces owners -> w2_states w !! u = Some st -> state_ok st' ->
  ns_worker st' = ns_worker st -> ns_free_allocations st' = ns_free_allocations st -> h2_resting (w2_set_state w u st') pieces owners.
Proof.
  intros [[M1 M2 M3 M4 M5 M6] R2 R3 R4] Hst Hok Hw Hf. split; [|done..]. split; try done.
  - cbn. rewrite dom_insert_lookup_L by (by eexists). done.
  - intros v stv q. cbn. intros [[<- <-]|[Hne Hv]]%lookup_insert_Some Hq; [|by apply M3]. destruct (M3 u st q Hst Hq) as (_ & Q2 & [Q3 Q4 Q5] & Q6).
    split; [done|]. split; [by rewrite Hw|]. split; [|done]. split; [by rewrite Hf|done..].
Qed.

Lemma called_state u a w w' st : h2_called u a w w' -> h2_called u a w (w2_set_state w' u st).
Proof. intros [H1 H2 H3 H4 H5]. split; try done. cbn. by rewrite delete_insert_eq. Qed.
Lemma called_log u a w w' l : h2_called u a w w' -> h2_called u a w (w2_set_log w' l).
Proof. by intros []. Qed.

Lemma part_state u w st : w2_states w !! u = Some st -> h2_part u w = (Some (cleared st), w2_env w).
Proof. intros Hst. unfold h2_part. by rewrite Hst. Qed.
Lemma part_set u w st : h2_part u (w2_set_state w u st) = (Some (cleared st), w2_env w).
Proof. unfold h2_part. cbn. by rewrite lookup_insert_eq. Qed.

Lemma undisturbed_trans u pieces pieces' w1 w2 w3 : undisturbed u pieces w1 w2 -> (forall v, v <> u -> pieces' !! v = pieces !! v) ->
  undisturbed u pieces' w2 w3 -> undisturbed u pieces w1 w3.
Proof. intros H1 Heq H2 v q a Hne Hq Ha. rewrite (H2 v q a Hne); [by apply (H1 v q a)|by rewrite Heq|done]. Qed.

(** ** The resets *)
Lemma part_states u w w' st : h2_part u w' = h2_part u w -> w2_states w !! u = Some st -> exists st', w2_states w' !! u = Some st' /\ cleared st' = cleared st /\ w2_env w' = w2_env w.
Proof. unfold h2_part. intros Hp Hst. rewrite Hst in Hp. destruct (w2_states w' !! u) as [st'|]; [|done]. exists st'. cbn in Hp. split; [done|]. split; congruence. Qed.

Lemma cleared_fields st st' : cleared st' = cleared st -> pending st' = pending st /\ ns_pending_reset_count st' = ns_pending_reset_count st /\
  ns_pending_reset_streams st' = ns_pending_reset_streams st /\ ns_log_sink st' = ns_log_sink st /\ ns_worker st' = ns_worker st.
Proof. unfold cleared, set_free_allocations, pending. intros H. injection H. intros. split_and!; congruence. Qed.

Lemma h2_emptied_ok st streams overflow : state_ok st -> length streams = maximum_pending_resets -> state_ok (set_pending st streams 0 overflow).
Proof. intros Hok Hl. apply state_ok_pending; first [done|constructor]. Qed.

Lemma owner_state_ok w pieces owners u a st : h2_resting w pieces owners -> owners !! u = Some a -> w2_states w !! u = Some st -> state_ok st.
Proof. intros HR Hu Hst. destruct (owner_session _ _ _ _ _ HR Hu) as (? & ? & st0 & _ & _ & _ & Hst0 & Hok & _). congruence. Qed.

Definition reset_result u (a : pointer) w st (n : N) (res : Result unit) w' (rest : list Z) : Prop :=
  exists n2 o st2, resets rest n n2 o /\ w2_sessions w' !! a = Some n2 /\ w2_states w' !! u = Some st2 /\ w2_env w' = w2_env w /\
    match o with
    | None => res = Ok tt /\ w2_log w' = w2_log w /\ cleared st2 = cleared st
    | Some code => res = Err (h2_error op_http2_submit code) /\ w2_log w' = log_dependency_error (ns_log_sink st) (w2_log w) (h2_error op_http2_submit code) /\
        cleared st2 = set_pending (cleared st) (ns_pending_reset_streams st) 0 (ns_pending_reset_overflow st)
    end.

Lemma reset_loop_run owners u a : owners !! u = Some a -> forall fuel index w pieces st n, h2_resting w pieces owners -> w2_sessions w !! a = Some n ->
  w2_states w !! u = Some st -> ns_pending_reset_count st <= Z.of_nat (index + fuel) -> Z.of_nat index <= ns_pending_reset_count st ->
  exists res w' pieces', reset_loop lib fuel index a u w = Ret (res, w') /\ reset_result u a w st n res w' (drop index (pending st)) /\
    h2_resting w' pieces' owners /\ h2_called u a w w' /\ undisturbed u pieces w w' /\ (forall v, v <> u -> pieces' !! v = pieces !! v).
Proof using PoolSource0.
  intros Hu. induction fuel as [|fuel IH]; intros index w pieces st n HR Hn Hst Hfuel Hle; cbn [reset_loop]; unfold h2_state_at; rewrite Hst, outcome_bind_Ret;
    pose proof (owner_state_ok _ _ _ _ _ _ HR Hu Hst) as Hok; pose proof Hok as [_ _ Hq Hcount _ _];
    assert (Hlen : length (pending st) = Z.to_nat (ns_pending_reset_count st)) by (unfold pending; rewrite length_take, Hq; lia).
  all: destruct (Z.leb_spec (ns_pending_reset_count st) (Z.of_nat index)) as [Hdone|Hmore]; [|try lia].
  1,2: exists (Ok tt), w, pieces; split; [done|]; rewrite drop_ge by lia; split; [exists n, None, st; split; [constructor|done]|];
    split; [done|]; split; [apply h2_called_refl|]; split; [apply undisturbed_refl|done].
  destruct (lookup_lt_is_Some_2 (pending st) index ltac:(lia)) as [stream Hs]. rewrite (drop_S _ _ _ Hs).
  unfold pending in Hs. apply lookup_take_Some in Hs as [Hs _]. rewrite (slot_ok _ _ stream) by (by rewrite Nat2Z.id). rewrite outcome_bind_Ret.
  destruct (h2_quiet_run (rst stream) ∅ _ w pieces owners u a n HR Hu Hn (law_rst _ _ _ _) ltac:(set_solver))
    as (r & w1 & piece & n1 & Erun & _ & HR1 & Hc & Hlog & Hun & _ & Hn1 & Hex & Hpart). unfold rst in Erun. rewrite Erun, outcome_bind_Ret.
  destruct (part_states u w w1 st Hpart Hst) as (st1 & Hst1 & Ecl & Henv). destruct (cleared_fields _ _ Ecl) as (Ep & Ec & Es & El & Ew).
  destruct (rst_accepted r) eqn:Hacc.
  - replace (negb (r =? 0) && negb (r =? NGHTTP2_ERR_STREAM_CLOSED N G lib)) with false by (unfold rst_accepted in Hacc; rewrite <- negb_orb, Hacc; done).
    destruct (IH (S index) w1 _ st1 n1 HR1 Hn1 Hst1 ltac:(lia) ltac:(lia)) as (res & w' & pieces' & -> & (n2 & o & st2 & Hres & R1 & R2 & R3 & R4) & HR' & Hc' & Hun' & Hp').
    exists res, w', pieces'. split; [done|]. split.
    { exists n2, o, st2. rewrite Ep in Hres. split; [by eapply rs_next|]. split; [done|]. split; [done|]. split; [congruence|].
      rewrite Hlog, El, Es in R4. replace (ns_pending_reset_overflow st1) with (ns_pending_reset_overflow st) in R4 by (unfold cleared, set_free_allocations in Ecl; congruence).
      by rewrite Ecl in R4. }
    split; [done|]. split; [by eapply h2_called_trans|]. split; [eapply undisturbed_trans; [exact Hun| |exact Hun']; intros v Hv; by rewrite lookup_insert_ne|].
    intros v Hv. by rewrite Hp', lookup_insert_ne.
  - replace (negb (r =? 0) && negb (r =? NGHTTP2_ERR_STREAM_CLOSED N G lib)) with true by (unfold rst_accepted in Hacc; rewrite <- negb_orb, Hacc; done).
    rewrite Hst1, outcome_bind_Ret. unfold h2_failed, h2_native_error. set (st2 := set_pending st1 _ _ _).
    eexists _, _, _. split; [done|]. split.
    { exists n1, (Some r), st2. split; [by eapply rs_refused|]. split; [done|]. split; [cbn; apply lookup_insert_eq|]. split; [done|].
      split; [done|]. split; [cbn; by rewrite Hlog, El|]. unfold st2. rewrite <- Ecl, <- Es.
      replace (ns_pending_reset_overflow st) with (ns_pending_reset_overflow st1) by (unfold cleared, set_free_allocations in Ecl; congruence). done. }
    split; [apply resting_log; eapply resting_state; [exact HR1|exact Hst1| |done|done]; apply h2_emptied_ok; [by eapply owner_state_ok|congruence]|].
    split; [by apply called_log, called_state|]. split; [exact Hun|]. intros v Hv. by rewrite lookup_insert_ne.
Qed.

(** ** Operations on an active session *)
Definition active_http2 w (a u : pointer) : Http2Session := MkHttp2Session (Some a) (Some u) (Some (ba_address (w2_arena w))) (ba_generation (w2_arena w)).

Lemma active_valid {A} w (a u : pointer) (k : pointer -> pointer -> outcome (Result A * World)) : h2_require_valid (active_http2 w a u) w k = k a u.
Proof. unfold h2_require_valid. cbn. by rewrite Z.eqb_refl. Qed.

Section active.
Context (w : World) (pieces : gmap pointer Piece) (owners : gmap pointer pointer) (a u : pointer) (st : State) (n : N).
Hypothesis (HR : h2_resting w pieces owners) (Hu : owners !! u = Some a) (Hst : w2_states w !! u = Some st) (Hn : w2_sessions w !! a = Some n).

Definition http2_runs (call : http2_call) : Prop := exists report w' pieces',
  call_http2 lib (active_http2 w a u) call w = Ret (report.1, w') /\ http2_outcome u a st n call w report w' /\ http2_effect w pieces owners u a st report w' pieces'.

Lemma refused_effect e : http2_effect w pieces owners u a st (refused e) w pieces.
Proof using HR. split; [done|apply h2_called_refl|apply undisturbed_refl|done]. Qed.

(** One call that queues a frame. *)
Lemma queues_run (f : N -> Http2Call (Z * N)) new post (reply : Z -> Report) :
  answers session_memory session_user session_address session_sources quiet n f new post -> new ⊆ dom (w2_providers w) ->
  exists r w1, h2_native lib a f w = Ret (r, w1) /\ post r /\ (forall l, queues u a n f reply w (reply r) (w2_set_log w1 l)) /\
    exists pieces', http2_effect w pieces owners u a st (reply r)
      (w2_set_log w1 (match (reply r).2 with Some e => log_dependency_error (ns_log_sink st) (w2_log w1) e | None => w2_log w1 end)) pieces'.
Proof using All.
  intros Hf Hnew. destruct (h2_quiet_run f new post w pieces owners u a n HR Hu Hn Hf Hnew) as (r & w1 & piece & n1 & Erun & Hpost & HR1 & Hc & Hlog & Hun & _ & Hn1 & Hex & Hpart).
  exists r, w1. split; [done|]. split; [done|]. split; [intros l; by exists r, n1|]. exists (<[u := piece]> pieces).
  split; [by apply resting_log|by apply called_log|exact Hun|]. cbn. by rewrite Hlog.
Qed.

Lemma set_same_log2 w0 : w2_set_log w0 (w2_log w0) = w0.
Proof. by destruct w0. Qed.

(** The operations that check their arguments, make one call and check its result. *)
Lemma h2_submit_runs refusal (f : N -> Http2Call (Z * N)) new :
  answers session_memory session_user session_address session_sources quiet n f new (fun _ => True) -> new ⊆ dom (w2_providers w) ->
  exists report w' pieces', ('(r, w') ← h2_submit lib (active_http2 w a u) refusal f w; Ret (h2_reply (fun _ => QDone) r, w')) = Ret (report.1, w') /\
    (match refusal with Some e => report = refused e /\ w' = w | None => queues u a n f unit_report w report w' end) /\
    http2_effect w pieces owners u a st report w' pieces'.
Proof using All.
  intros Hf Hnew. unfold h2_submit. rewrite active_valid. destruct refusal as [e|].
  { rewrite outcome_bind_Ret. exists (refused e), w, pieces. split; [done|]. split; [done|]. apply refused_effect. }
  unfold h2_state_at. rewrite Hst, outcome_bind_Ret. destruct (queues_run f new _ unit_report Hf Hnew) as (r & w1 & -> & _ & Hq & pieces' & He). rewrite outcome_bind_Ret.
  unfold unit_report in *. destruct (Z.eqb_spec r 0) as [->|Hne]; cbn [negb].
  - rewrite outcome_bind_Ret. eexists (answered QDone), _, pieces'. split; [done|]. specialize (Hq (w2_log w1)). cbn in He. rewrite set_same_log2 in Hq, He. done.
  - unfold h2_failed, h2_native_error. rewrite outcome_bind_Ret. eexists (failed op_http2_submit r), _, pieces'. split; [done|]. split; [apply Hq|exact He].
Qed.

Lemma submission_runs call refusal f : submission (ns_limits st) (w2_providers w) call = Some (refusal, f) -> http2_call_legal (w2_providers w) call -> http2_runs call.
Proof using All.
  intros Hs Hl. unfold http2_runs.
  destruct call as [| | | | |settings|stream provider end_stream|stream|stream code|last code debug|increment|stream increment]; try done; cbn [call_http2 http2_outcome];
    rewrite Hs; cbn [submission] in Hs; injection Hs as Hr Hf.
  - unfold Http2Session_submit_settings. rewrite Hr, Hf. destruct (h2_submit_runs refusal f ∅) as (report & w' & pieces' & ? & Hc & ?); [subst f; apply law_settings|set_solver|].
    exists report, w', pieces'. by destruct refusal.
  - unfold Http2Session_submit_data. cbn in Hl. apply elem_of_dom in Hl as Hp. destruct Hp as [p Hp]. rewrite Hp in *.
    replace (if negb (Http2StreamId_valid stream) || negb (Http2DataProvider_enabled p) then Some h2_data_error else None) with refusal
      by (subst refusal; destruct (Http2StreamId_valid stream), (Http2DataProvider_enabled p); done). rewrite Hf.
    destruct (h2_submit_runs refusal f {[provider]}) as (report & w' & pieces' & ? & Hc & ?); [subst f; apply law_data|set_solver|].
    exists report, w', pieces'. by destruct refusal.
  - unfold Http2Session_resume_data. rewrite Hr, Hf. destruct (h2_submit_runs refusal f ∅) as (report & w' & pieces' & ? & Hc & ?); [subst f; apply law_resume|set_solver|].
    exists report, w', pieces'. by destruct refusal.
  - unfold Http2Session_submit_reset. rewrite Hr, Hf. destruct (h2_submit_runs refusal f ∅) as (report & w' & pieces' & ? & Hc & ?); [subst f; apply law_rst|set_solver|].
    exists report, w', pieces'. by destruct refusal.
  - destruct (h2_submit_runs refusal f ∅) as (report & w' & pieces' & Erun & Hc & ?); [subst f; apply law_goaway|set_solver|].
    exists report, w', pieces'. split; [|by destruct refusal]. rewrite <- Erun. unfold Http2Session_submit_goaway, h2_submit. rewrite !active_valid.
    unfold h2_state_at. rewrite Hst, outcome_bind_Ret, <- Hf, <- Hr. by destruct (_ || _).
  - unfold Http2Session_submit_connection_window_update. rewrite Hr, Hf. destruct (h2_submit_runs refusal f ∅) as (report & w' & pieces' & ? & Hc & ?); [subst f; apply law_window|set_solver|].
    exists report, w', pieces'. by destruct refusal.
  - unfold Http2Session_submit_stream_window_update. rewrite Hr, Hf. destruct (h2_submit_runs refusal f ∅) as (report & w' & pieces' & ? & Hc & ?); [subst f; apply law_window|set_solver|].
    exists report, w', pieces'. by destruct refusal.
Qed.

(** The loop over the headers of a submission. *)
Lemma header_refusal_run headers :
  match header_refusal headers (ns_limits st) with
  | Some e => (if bool_decide (headers = []) || (h2_header_fields (ns_limits st) <? Z.of_nat (length headers)) || (maximum_submission_headers <? length headers)%nat
               then e = h2_header_count_error
               else headers_loop lib headers (h2_header_block_bytes (ns_limits st)) 0 (replicate maximum_submission_headers nghttp2_nv_default) 0 = Ret (Err e))
  | None => (bool_decide (headers = []) || (h2_header_fields (ns_limits st) <? Z.of_nat (length headers)) || (maximum_submission_headers <? length headers)%nat) = false /\
      exists native, headers_loop lib headers (h2_header_block_bytes (ns_limits st)) 0 (replicate maximum_submission_headers nghttp2_nv_default) 0 = Ret (Ok native) /\
        take (length headers) native = map (nv2_of lib) headers
  end.
Proof using HR Hu Hst Hn.
  destruct (owner_session _ _ _ _ _ HR Hu) as (n0 & free & st0 & _ & _ & _ & Hst0 & [Hlim Hsz _ _ _ _] & _). rewrite Hst in Hst0. injection Hst0 as <-.
  unfold validate_limits in Hlim. destruct (_ || _) eqn:Ev in Hlim; [done|]. rewrite !orb_false_iff, !Z.eqb_neq, Z.ltb_ge in Ev. destruct Ev as [[Hb0 Hf0] Hf]. clear Hlim.
  unfold header_refusal, is_size in *. unfold maximum_submission_headers in *.
  destruct (bool_decide_reflect (1 <= Z.of_nat (length headers) <= h2_header_fields (ns_limits st))) as [Hc|Hc].
  - assert (Hfalse : (bool_decide (headers = []) || (h2_header_fields (ns_limits st) <? Z.of_nat (length headers)) || (64 <? length headers)%nat) = false).
    { rewrite bool_decide_eq_false_2 by (intros ->; cbn in Hc; lia). rewrite (proj2 (Z.ltb_ge _ _)), (proj2 (Nat.ltb_ge _ _)) by lia. done. }
    destruct (h2_headers_loop_run lib headers (h2_header_block_bytes (ns_limits st)) [] 0) as (r & Er & Hr); [lia|lia|cbn; unfold maximum_submission_headers; lia|].
    rewrite Z.sub_0_r in Hr. cbn [length app Nat.sub] in Er. unfold maximum_submission_headers in Er. rewrite Nat.sub_0_r in Er. rewrite Hfalse.
    destruct (decide _) as [_|_]; [|by rewrite <- Hr]. split; [done|]. destruct Hr as (native & -> & Ht). exists native. by split.
  - destruct (bool_decide_reflect (headers = [])) as [|Hne]; [done|]. destruct (Z.ltb_spec (h2_header_fields (ns_limits st)) (Z.of_nat (length headers))); [done|].
    exfalso. apply Hc. split; [|done]. destruct headers; [done|]. cbn [length]. lia.
Qed.

Lemma headers_impl_runs stream headers end_stream assign : (assign = true -> stream = -1) ->
  exists r report w' pieces', submit_headers_impl lib (active_http2 w a u) stream headers end_stream assign w = Ret (r, w') /\
    submits u a n (ns_limits st) stream headers end_stream
      (fun r => if r <? 0 then failed op_http2_submit r else answered (if (assign : bool) then QStream (MkHttp2StreamId r) else QDone)) w report w' /\
    http2_effect w pieces owners u a st report w' pieces' /\
    match r with Ok s => report.1 = Ok (if (assign : bool) then QStream (default Http2StreamId_default s) else QDone) | Err e => report.1 = Err e end.
Proof using All.
  intros Hassign. unfold submit_headers_impl, submits. rewrite active_valid. unfold h2_state_at. rewrite Hst, outcome_bind_Ret.
  pose proof (header_refusal_run headers) as Href. destruct (header_refusal headers (ns_limits st)) as [e|].
  { destruct (_ || _).
    - subst e. eexists _, (refused h2_header_count_error), w, pieces. split; [done|]. split; [done|]. split; [apply refused_effect|done].
    - rewrite Href, outcome_bind_Ret. eexists _, (refused e), w, pieces. split; [done|]. split; [done|]. split; [apply refused_effect|done]. }
  destruct Href as [-> (native & -> & Ht)]. rewrite outcome_bind_Ret. cbn zeta. rewrite Ht. set (f := nghttp2_submit_headers _ _ lib _ _ _).
  set (reply := fun r => _ : Report). destruct (queues_run f ∅ _ reply (law_headers _ _ _ _) ltac:(set_solver)) as (r & w1 & -> & Hpost & Hq & pieces' & He). rewrite outcome_bind_Ret.
  unfold reply in Hq, He. destruct (Z.ltb_spec r 0) as [Hneg|Hpos].
  - unfold h2_failed, h2_native_error. eexists _, (failed op_http2_submit r), _, pieces'. split; [done|]. split; [apply Hq|]. split; [exact He|done].
  - specialize (Hq (w2_log w1)). cbn in He. rewrite set_same_log2 in Hq, He. destruct assign.
    + unfold Http2StreamId_from_wire. rewrite (proj2 (Z.leb_gt r 0)) by (specialize (Hpost (Hassign eq_refl)); lia).
      eexists _, (answered (QStream (MkHttp2StreamId r))), _, pieces'. split; [done|]. split; [exact Hq|]. split; [exact He|done].
    + eexists _, (answered QDone), _, pieces'. split; [done|]. split; [exact Hq|]. split; [exact He|done].
Qed.

Lemma request_runs headers end_stream : http2_runs (QRequest headers end_stream).
Proof using All.
  unfold http2_runs. cbn [call_http2 http2_outcome]. unfold Http2Session_submit_request.
  destruct (headers_impl_runs (-1) headers end_stream true ltac:(done)) as (r & report & w' & pieces' & -> & Hs & He & Hrep). rewrite !outcome_bind_Ret.
  exists report, w', pieces'. split; [|done]. destruct r; by rewrite Hrep.
Qed.

Lemma headers_runs stream headers end_stream : http2_runs (QHeaders stream headers end_stream).
Proof using All.
  unfold http2_runs. cbn [call_http2 http2_outcome]. unfold Http2Session_submit_headers. destruct (Http2StreamId_valid stream); cbn [negb].
  - destruct (headers_impl_runs (wire_value stream) headers end_stream false ltac:(done)) as (r & report & w' & pieces' & -> & Hs & He & Hrep). rewrite !outcome_bind_Ret.
    exists report, w', pieces'. split; [|done]. destruct r; by rewrite Hrep.
  - exists (refused h2_stream_error), w, pieces. split; [done|]. split; [done|]. apply refused_effect.
Qed.

Lemma interest_runs : http2_runs QInterest.
Proof using All.
  unfold http2_runs. cbn [call_http2 http2_outcome]. unfold Http2Session_interest. rewrite active_valid, Hn. eexists (answered _), w, pieces. split; [done|].
  split; [done|]. split; [done|apply h2_called_refl|apply undisturbed_refl|done].
Qed.

(** The state after a call with callbacks. *)
Lemma native_state_run {A} (f : N -> Http2Call (A * N)) post :
  answers session_memory session_user session_address session_sources h2_event_ok n f ∅ post ->
  exists x w1 piece n1 st1, h2_native lib a f w = Ret (x, w1) /\ post x /\ h2_resting w1 (<[u := piece]> pieces) owners /\ h2_called u a w w1 /\
    w2_log w1 = w2_log w /\ undisturbed u pieces w w1 /\ w2_states w1 !! u = Some st1 /\ state_ok st1 /\ ns_log_sink st1 = ns_log_sink st /\
    w2_sessions w1 !! a = Some n1 /\ asks u f n w x n1 w1.
Proof using All.
  intros Hf. destruct (h2_native_run f post w pieces owners u a n HR Hu Hn Hf) as (x & w1 & piece & n1 & Erun & Hpost & HR1 & Hc & Hlog & Hun & Hev & Hn1 & Hasks).
  destruct (Hev st Hst) as (st1 & Hst1 & Hevolves). exists x, w1, piece, n1, st1. do 7 (split; [done|]). split; [by eapply owner_state_ok|].
  split; [exact (ev_log _ _ Hevolves)|done].
Qed.

Lemma h2_output_runs : http2_runs QOutput.
Proof using All.
  unfold http2_runs. cbn [call_http2 http2_outcome]. unfold Http2Session_next_output. rewrite active_valid.
  destruct (native_state_run _ _ (law_send n)) as ([r data] & w1 & piece & n1 & st1 & -> & [Hmax Hnull] & HR1 & Hc & Hlog & Hun & Hst1 & Hok1 & Hsink & Hn1 & Hasks).
  cbn [fst snd] in *. rewrite outcome_bind_Ret. unfold h2_state_at. rewrite Hst1, outcome_bind_Ret.
  assert (Hout : forall report w', w2_sessions w' !! a = Some n1 -> forall st2, h2_part u w' = (Some (cleared st2), w2_env w1) ->
    (if ns_data_provider_failed st1 then report = refused (ns_data_provider_error st1) /\ cleared st2 = set_data_provider (cleared st1) (ns_data_provider_error st1) false
     else cleared st2 = cleared st1 /\ report = if r <? 0 then failed op_http2_send (cast int32_t r) else answered (QView (MkSpan data r))) ->
    output_outcome u a n w report w').
  { intros report w' Hs st2 Hp H. exists r, data, n1, w1, st1, st2. split; [done|]. split; [by apply part_state|]. done. }
  destruct (ns_data_provider_failed st1) eqn:Ef.
  { rewrite outcome_bind_Ret. set (st2 := set_data_provider _ _ _). eexists (refused _), _, (<[u := piece]> pieces). split; [done|].
    split; [by refine (Hout _ _ _ st2 (part_set _ _ _) _)|]. split; [|by apply called_state|exact Hun|done].
    destruct (provider_failed_ok st1 (ns_data_provider_error st1) false Hok1). by eapply resting_state. }
  destruct (Z.ltb_spec r 0) as [Hneg|Hpos].
  - unfold h2_failed, h2_native_error. rewrite outcome_bind_Ret. eexists (failed op_http2_send (cast int32_t r)), _, (<[u := piece]> pieces). split; [done|].
    split; [by refine (Hout _ _ _ st1 (part_state _ _ _ Hst1) _)|].
    split; [by apply resting_log|by apply called_log|exact Hun|]. cbn. by rewrite Hlog, Hsink.
  - replace (cast size_t r) with r by (symmetry; apply cast_in_range; [done|unfold size_max, u64_max in *; cbn; lia]).
    rewrite h2_view_from by (intros Hd; specialize (Hnull Hd); cbn; lia). rewrite outcome_bind_Ret.
    eexists (answered _), w1, (<[u := piece]> pieces). split; [done|]. split; [by refine (Hout _ _ _ st1 (part_state _ _ _ Hst1) _)|]. by split.
Qed.

Lemma h2_receive_runs input : Z.of_nat (length input) <= size_max -> http2_runs (QReceive input).
Proof using All.
  intros Hlen. unfold http2_runs. cbn [call_http2 http2_outcome]. unfold Http2Session_receive. rewrite active_valid.
  destruct (native_state_run _ _ (law_recv n input)) as (r & w1 & piece & n1 & st1 & -> & Hle & HR1 & Hc & Hlog & Hun & Hst1 & Hok1 & Hsink & Hn1 & Hasks).
  rewrite outcome_bind_Ret. unfold h2_state_at. rewrite Hst1, outcome_bind_Ret. pose proof Hok1 as [O1 O2 O3 O4 O5 O6].
  assert (Hout : forall report w' n2 st2, w2_sessions w' !! a = Some n2 -> h2_part u w' = (Some (cleared st2), w2_env w1) ->
    (if ns_input_limit_failed st1 then report = refused h2_input_error /\ n2 = n1 /\ cleared st2 = set_input_limit_failed (cleared st1) false else
     if ns_pending_reset_overflow st1 then report = refused h2_rejected_error /\ n2 = n1 /\ pending st2 = [] /\ ns_pending_reset_overflow st2 = false else
     if r <? 0 then report = failed op_http2_receive (cast int32_t r) /\ n2 = n1 /\ cleared st2 = cleared st1 else
     pending st2 = [] /\ exists o, resets (pending st1) n1 n2 o /\ report = match o with None => answered (QCount r) | Some code => failed op_http2_submit code end) ->
    receive_outcome u a n input w report w').
  { intros report w' n2 st2 Hs Hp H. exists r, n1, w1, st1, n2, st2. split; [done|]. split; [done|]. split; [by apply part_state|]. done. }
  destruct (ns_input_limit_failed st1).
  { rewrite outcome_bind_Ret. set (st2 := set_input_limit_failed _ _). eexists (refused _), _, (<[u := piece]> pieces). split; [done|].
    split; [by refine (Hout _ _ n1 st2 _ (part_set _ _ _) _)|]. split; [|by apply called_state|exact Hun|done].
    eapply resting_state; [done|done| |done|done]. by split. }
  destruct (ns_pending_reset_overflow st1) eqn:Eo.
  { rewrite outcome_bind_Ret. set (st2 := set_pending _ _ _ _). eexists (refused _), _, (<[u := piece]> pieces). split; [done|].
    split; [by refine (Hout _ _ n1 st2 _ (part_set _ _ _) _)|]. split; [|by apply called_state|exact Hun|done].
    eapply resting_state; [done|done| |done|done]. by apply h2_emptied_ok. }
  destruct (Z.ltb_spec r 0) as [Hneg|Hpos].
  { unfold h2_failed, h2_native_error. rewrite outcome_bind_Ret. eexists (failed op_http2_receive (cast int32_t r)), _, (<[u := piece]> pieces). split; [done|].
    split; [by refine (Hout _ _ n1 st1 _ (part_state _ _ _ Hst1) _)|]. split; [by apply resting_log|by apply called_log|exact Hun|]. cbn. by rewrite Hlog, Hsink. }
  destruct (reset_loop_run owners u a Hu maximum_pending_resets 0 w1 _ st1 n1 HR1 Hn1 Hst1 ltac:(lia) ltac:(lia))
    as (res & w2 & pieces2 & -> & (n2 & o & st2 & Hres & R1 & R2 & R3 & R4) & HR2 & Hc2 & Hun2 & Hp2). rewrite outcome_bind_Ret.
  assert (Hun' : undisturbed u pieces w w2) by (eapply undisturbed_trans; [exact Hun| |exact Hun2]; intros v Hv; by rewrite lookup_insert_ne).
  pose proof (h2_called_trans _ _ _ _ _ Hc Hc2) as Hc'. destruct o as [code|]; destruct R4 as (-> & Elog & Ecl).
  - rewrite outcome_bind_Ret. eexists (failed op_http2_submit code), w2, pieces2. split; [done|]. split.
    { refine (Hout _ _ n2 st2 _ _ _); [done|rewrite <- R3; by apply part_state|]. split; [|by exists (Some code)].
      change (pending (cleared st2) = []). by rewrite Ecl. }
    split; [done|done|done|]. cbn. by rewrite Elog, Hlog, Hsink.
  - rewrite R2, !outcome_bind_Ret. replace (cast size_t r) with r by (symmetry; apply cast_in_range; [done|unfold size_max, u64_max in *; cbn; lia]).
    set (st3 := set_pending _ _ _ _). eexists (answered (QCount r)), _, pieces2. split; [done|]. split.
    { refine (Hout _ _ n2 st3 _ _ _); [done|rewrite <- R3; apply part_set|]. split; [done|]. by exists None. }
    split; [|by apply called_state|exact Hun'|cbn; congruence]. pose proof (owner_state_ok _ _ _ _ _ _ HR2 Hu R2) as Hok2. eapply resting_state; [done|done| |done|done].
    apply h2_emptied_ok; [done|apply Hok2].
Qed.

Lemma http2_active call : http2_call_legal (w2_providers w) call -> http2_runs call.
Proof using All.
  intros Hl. destruct call; first [by apply h2_receive_runs|apply h2_output_runs|apply interest_runs|apply request_runs|apply headers_runs|eapply submission_runs; [reflexivity|done]].
Qed.
End active.

(** ** The state of a new session *)
Definition blocks_kept w w' : Prop := forall a, is_Some (w2_headers w !! a) -> block_of w' a = block_of w a.

Lemma no_capacity w pieces : h2_memory w pieces -> ba_capacity (w2_arena w) = 0 -> w2_headers w = ∅ /\ pieces = ∅.
Proof using PoolSource0.
  intros [H1 H2 H3 H4 H5 H6] Hc. destruct (bo_arena _ H1) as [_ _ _ Ho _ _]. cbn in Ho. split.
  - apply map_empty. intros a. destruct (w2_headers w !! a) as [x|] eqn:Hx; [|done].
    destruct (lay_place _ _ _ (bo_layout _ H1) a (aa_capacity x)) as (K1 & base & start & _ & _ & K2 & _ & K3); [apply capacities_lookup; eauto|].
    cbn in K3. unfold sizeof_ArenaAllocation in K3. lia.
  - apply map_empty. intros u. destruct (pieces !! u) as [q|] eqn:Hq; [|done]. destruct (proj1 (elem_of_dom (w2_states w) u)) as [st Hst]; [rewrite H2; apply elem_of_dom; by eexists|].
    destruct (H3 u st q Hst Hq) as (_ & _ & _ & (base & start & _ & _ & K2 & K3) & _). cbn in K3. unfold sizeof_NativeState in K3. lia.
Qed.

(** A refused allocation. *)
Lemma memory_refused w pieces h c : h2_memory w pieces -> arena_inv acquire reset (w2_arena w) h -> (ba_capacity (w2_arena w) <> 0 -> c = w2_context w) ->
  h2_memory (w2_set_memory w (w2_arena w) h c (w2_headers w)) pieces /\ blocks_kept w (w2_set_memory w (w2_arena w) h c (w2_headers w)).
Proof using PoolSource0.
  intros HM Hai Hc. destruct HM as [[B1 B2 B3 B4] H2 H3 H4 H5 H6] eqn:EHM. split.
  - split; try done. split; try done. intros Hcap. cbn in *. rewrite (Hc Hcap). by apply B3.
  - intros a Ha. destruct (Z.eq_dec (ba_capacity (w2_arena w)) 0) as [E0|E0].
    + destruct (no_capacity w pieces HM E0) as [Hno _]. rewrite Hno in Ha. by destruct Ha.
    + rewrite (Hc E0). by destruct w.
Qed.

Lemma memory_state w pieces arena h c base l start st : h2_memory w pieces -> arena_inv acquire reset arena h -> steady (w2_arena w) arena ->
  (ba_capacity (w2_arena w) <> 0 -> c = w2_context w /\ ba_storage arena = ba_storage (w2_arena w)) -> located (snd c) (ba_storage arena) base l ->
  ba_offset (w2_arena w) <= start -> ba_offset arena = start + sizeof_NativeState ->
  state_ok st -> value_ (ns_worker st) = value_ (ba_worker (w2_arena w)) -> ns_free_allocations st = None ->
  let u := ptr_add base start in let w' := w2_set_state (w2_set_memory w arena h c (w2_headers w)) u st in
  pieces !! u = None /\ h2_memory w' (<[u := ([], ∅)]> pieces) /\ blocks_kept w w'.
Proof using PoolSource0.
  intros HM Hai Hsteady Hsame Hloc Hstart Hoff Hok Hw Hf u w'. pose proof HM as [[B1 B2 B3 B4] H2 H3 H4 H5 H6]. pose proof (bo_arena _ (hm_blocks _ _ HM)) as [_ _ _ Ho _ _]. cbn in Ho.
  pose proof (loc_data _ _ _ _ Hloc) as Hbase. unfold sizeof_NativeState in Hoff.
  assert (Hext : extends (bare w) (bare w')) by (split; cbn; [lia|intros Hc; by apply Hsame|by left]).
  assert (Hlay : layout (ba_storage arena) (ba_offset (w2_arena w)) (capacities (bare w))).
  { destruct (Z.eq_dec (ba_capacity (w2_arena w)) 0) as [E0|E0].
    - destruct (no_capacity w pieces HM E0) as [Hno _]. unfold capacities. cbn. rewrite Hno, fmap_empty. apply layout_empty.
    - destruct (Hsame E0) as [_ ->]. exact B2. }
  assert (Hnone : pieces !! u = None).
  { destruct (pieces !! u) as [q|] eqn:Hq; [|done]. destruct (proj1 (elem_of_dom (w2_states w) u)) as [st0 Hst0]; [rewrite H2; apply elem_of_dom; by eexists|].
    destruct (H3 u st0 q Hst0 Hq) as (_ & _ & _ & (base0 & start0 & K1 & K2 & K3 & K4) & _). cbn in K1, K4. unfold sizeof_NativeState in K4.
    rewrite <- (proj2 (Hsame ltac:(lia))), Hbase in K1. injection K1 as <-. injection K2 as K2. lia. }
  assert (Hapart : state_apart (bare w') u).
  { split; [exists base, start; cbn; unfold sizeof_NativeState; split; [done|]; split; [done|]; lia|]. intros a k Hk. left.
    destruct (lay_place _ _ _ Hlay a k Hk) as (_ & base0 & start0 & K1 & -> & _ & _ & K4). assert (base0 = base) as -> by congruence. cbn. lia. }
  split; [done|]. split.
  - split.
    + split; [exact Hai| |intros _; by exists base, l|exact B4]. destruct Hlay as [L1 L2]. split; [|exact L2]. intros a k Hk.
      destruct (L1 a k Hk) as (? & b0 & s0 & ? & ? & ? & ? & ?). split; [done|]. exists b0, s0. split_and!; try done. cbn. lia.
    + cbn. by rewrite !dom_insert_L, H2.
    + intros v stv q Hv Hq. cbn in Hv. destruct Hsteady as (_ & _ & _ & Ew). cbn. rewrite Ew. destruct (decide (v = u)) as [->|Hne].
      * rewrite lookup_insert_eq in Hv. rewrite lookup_insert_eq in Hq. injection Hv as <-. injection Hq as <-. split; [done|]. split; [done|]. split; [|done].
        split; [exact Hf|constructor|by intros p n0]. 
      * rewrite lookup_insert_ne in Hv by done. rewrite lookup_insert_ne in Hq by done. destruct (H3 v stv q Hv Hq) as (Q1 & Q2 & Q3 & Q4). split; [done|]. split; [done|]. split; [done|].
        by apply (state_extends _ _ _ (hm_blocks _ _ HM) Hext).
    + intros a Ha. destruct (H4 a Ha) as (v & q & Hq & Hin). exists v, q. split; [|done]. rewrite lookup_insert_ne; [done|]. intros <-. congruence.
    + intros v v' q q' Hne Hq Hq' a Ha Ha'. assert (Hempty : a ∉ piece_blocks ([], ∅)) by (rewrite piece_blocks_spec; set_solver).
      destruct (decide (v = u)) as [->|Hnu]; [rewrite lookup_insert_eq in Hq; by injection Hq as <-|].
      destruct (decide (v' = u)) as [->|Hnu']; [rewrite lookup_insert_eq in Hq'; by injection Hq' as <-|].
      rewrite lookup_insert_ne in Hq by done. rewrite lookup_insert_ne in Hq' by done. by apply (H5 v v' q q' Hne Hq Hq' a).
    + exact H6.
  - intros a Ha. destruct (Z.eq_dec (ba_capacity (w2_arena w)) 0) as [E0|E0].
    + destruct (no_capacity w pieces HM E0) as [Hno _]. rewrite Hno in Ha. by destruct Ha.
    + destruct (Hsame E0) as [-> _]. done.
Qed.

(** ** Creation *)

(** The library has the objects it had, and what was there is as it was. *)
Record h2_grown w w' : Prop := {
  hg_callbacks : callback_objects (w2_globals w') = callback_objects (w2_globals w);
  hg_options : option_objects (w2_globals w') = option_objects (w2_globals w);
  hg_providers : w2_providers w' = w2_providers w;
  hg_arena : steady (w2_arena w) (w2_arena w');
  hg_states : forall v, is_Some (w2_states w !! v) -> w2_states w' !! v = w2_states w !! v;
  hg_blocks : blocks_kept w w' }.

(** Success leaves a session that nobody had, with the limits and sinks it was given; failure no
    native session. *)
Definition http2_creation w owners (limits : Http2Limits) (events : Http2EventSink E) (log_sink : DependencyLogSink L) (r : Result Http2Session) w' pieces' : Prop :=
  h2_grown w w' /\
  match r with
  | Err _ => h2_resting w' pieces' owners /\ w2_sessions w' = w2_sessions w
  | Ok t => exists u a n st, owners !! u = None /\ t = active_http2 w' a u /\ h2_resting w' pieces' (<[u := a]> owners) /\
      w2_sessions w !! a = None /\ w2_sessions w' = <[a := n]> (w2_sessions w) /\ w2_states w' !! u = Some st /\
      ns_limits st = limits /\ ns_event_sink st = events /\ ns_log_sink st = log_sink
  end.

Lemma set_callbacks_run c names : forall g, c ∈ callback_objects g -> leaves callback_objects option_objects ∅ g (set_callbacks lib names c g).
Proof.
  induction names as [|name names IH]; intros g Hc; cbn [set_callbacks]; [exists g; split; [done|]; split; [set_solver|done]|].
  destruct (law_callbacks_set name c g Hc) as (g1 & -> & E1 & E2). rewrite outcome_bind_Ret.
  destruct (IH g1) as (g2 & -> & E3 & E4); [set_solver|]. exists g2. split; [done|]. split; [set_solver|congruence].
Qed.

(** A block belongs to one session, so a new native session is none of the others. *)
Lemma address_fresh w pieces owners u piece n : h2_resting w pieces owners -> owners !! u = None -> pieces !! u = None ->
  forall w1, h2_memory w1 (<[u := piece]> pieces) -> piece.2 = session_memory n -> w2_sessions w !! session_address n = None.
Proof.
  intros [R1 R2 R3 R4] Hu Hp w1 HM1 Hown. destruct (w2_sessions w !! session_address n) as [m|] eqn:Hm; [|done]. exfalso.
  pose proof (R3 _ _ Hm) as Ho. destruct (R2 _ _ Ho) as (m' & free & Hm' & V1 & V2 & V3 & _). rewrite Hm in Hm'. injection Hm' as <-.
  assert (Hne : session_user m <> u) by congruence.
  assert (Hin : header_of (session_address n) ∈ piece_blocks piece) by (apply piece_blocks_spec; right; rewrite payload_header, Hown; apply law_address).
  assert (Hin' : header_of (session_address n) ∈ piece_blocks (free, session_memory m)).
  { apply piece_blocks_spec. right. rewrite payload_header. cbn. rewrite <- V2. apply law_address. }
  apply (hm_apart _ _ HM1 (session_user m) u _ _ Hne ltac:(by rewrite lookup_insert_ne) (lookup_insert_eq _ _ _) _ Hin' Hin).
Qed.

Lemma memory_same w w' pieces : h2_memory w pieces -> w2_arena w' = w2_arena w -> w2_heap w' = w2_heap w -> snd (w2_context w') = snd (w2_context w) ->
  w2_headers w' = w2_headers w -> w2_states w' = w2_states w -> w2_providers w' = w2_providers w -> h2_memory w' pieces.
Proof.
  destruct w as [arena h [c m] headers g l e providers states sessions], w' as [arena' h' [c' m'] headers' g' l' e' providers' states' sessions'].
  cbn. intros [[B1 B2 B3 B4] H2 H3 H4 H5 H6] -> -> -> -> -> ->. by split.
Qed.

(** A state whose session was not created is left with its free list. *)
Lemma resting_abandoned w pieces owners w' u piece : h2_resting w pieces owners -> pieces !! u = None -> owners !! u = None ->
  h2_memory w' (<[u := piece]> pieces) -> piece.2 = ∅ -> w2_sessions w' = w2_sessions w -> w2_providers w' = w2_providers w -> h2_resting w' (<[u := piece]> pieces) owners.
Proof.
  intros [R1 R2 R3 R4] Hp Hu HM Hown Es Ep. split; [done| | |].
  - intros v a Hv. rewrite Es, Ep. assert (v <> u) by congruence. rewrite lookup_insert_ne by done. by apply R2.
  - rewrite Es. exact R3.
  - intros v q. intros [[<- <-]|[Hne Hq]]%lookup_insert_Some; [done|by apply R4].
Qed.

Lemma h2_resting_created w pieces owners w' u piece n : h2_resting w pieces owners -> pieces !! u = None -> owners !! u = None ->
  h2_memory w' (<[u := piece]> pieces) -> piece.2 = session_memory n -> session_user n = u -> session_sources n = ∅ ->
  w2_sessions w !! session_address n = None -> w2_sessions w' = <[session_address n := n]> (w2_sessions w) -> w2_providers w' = w2_providers w ->
  h2_resting w' (<[u := piece]> pieces) (<[u := session_address n]> owners).
Proof.
  intros [R1 R2 R3 R4] Hp Hu HM Hown Huser Hsrc Hfresh Es Ep. split; [done| | |].
  - intros v a. rewrite Es, Ep. intros [[<- <-]|[Hne Hv]]%lookup_insert_Some.
    + exists n, piece.1. rewrite !lookup_insert_eq. do 3 (split; [done|]). split; [rewrite <- Hown; by destruct piece|set_solver].
    + destruct (R2 v a Hv) as (m & free & Hm & V). exists m, free. rewrite !lookup_insert_ne; [done|done|congruence].
  - intros a m. rewrite Es. intros [[<- <-]|[Hne Hm]]%lookup_insert_Some; [rewrite Huser; apply lookup_insert_eq|].
    specialize (R3 a m Hm). rewrite lookup_insert_ne; [done|]. congruence.
  - intros v q. intros [[<- <-]|[Hne Hq]]%lookup_insert_Some; [by rewrite lookup_insert_eq|]. rewrite lookup_insert_ne by done. by apply R4.
Qed.

Section creating.
Context (w : World) (pieces : gmap pointer Piece) (owners : gmap pointer pointer) (w1 : World) (u : pointer) (st : State).
Context (limits : Http2Limits) (events : Http2EventSink E) (log_sink : DependencyLogSink L).
Hypothesis (HR : h2_resting w pieces owners) (Hp : pieces !! u = None) (Hu : owners !! u = None).
Hypothesis (HM1 : h2_memory w1 (<[u := ([], ∅)]> pieces)) (Es : w2_sessions w1 = w2_sessions w) (Ep : w2_providers w1 = w2_providers w).
Hypothesis (Eg : w2_globals w1 = w2_globals w) (Hk : blocks_kept w w1) (Ha : steady (w2_arena w) (w2_arena w1)) (Est : w2_states w1 = <[u := st]> (w2_states w)).
Hypothesis (Hst : ns_limits st = limits /\ ns_event_sink st = events /\ ns_log_sink st = log_sink).

Lemma state_new v : is_Some (w2_states w !! v) -> v <> u.
Proof using HR Hp.
  intros Hv ->. apply elem_of_dom in Hv. rewrite (hm_states _ _ (h2r_memory _ _ _ HR)) in Hv. apply elem_of_dom in Hv as [? ?]. congruence.
Qed.

(** Failures before the library has memory. *)
Lemma creation_failed e g l : callback_objects g = callback_objects (w2_globals w) -> option_objects g = option_objects (w2_globals w) ->
  http2_creation w owners limits events log_sink (Err e) (w2_set_log (w2_set_globals w1 g) l) (<[u := ([], ∅)]> pieces).
Proof using All.
  intros E1 E2. split.
  - split; try done. intros v Hv. cbn. rewrite Est, lookup_insert_ne; [done|]. intros <-. by apply state_new in Hv.
  - split; [|done]. apply (resting_abandoned w pieces owners); try done. by apply (memory_same w1).
Qed.

Lemma opened_run role c o g : c ∈ callback_objects g -> o ∈ option_objects g ->
  callback_objects g ∖ {[c]} = callback_objects (w2_globals w) -> option_objects g ∖ {[o]} = option_objects (w2_globals w) ->
  exists r w' pieces',
    ('(answer, w) ← converse h2_request (h2_callback lib)
       (match role with
        | http2_client => nghttp2_session_client_new3 _ _ lib c u o g
        | _ => nghttp2_session_server_new3 _ _ lib c u o g
        end) (w2_set_globals w1 g);
     let '(result, native_session) := answer in
     g ← nghttp2_option_del _ _ lib o (w2_globals w);
     g ← nghttp2_session_callbacks_del _ _ lib c g;
     let w := w2_set_globals w g in
     if negb (result =? 0) then h2_failed lib op_http2_session result log_sink w else
     let w := match native_session with
              | Some (session, n) => w2_set_sessions w (<[session := n]> (w2_sessions w))
              | None => w
              end in
     Ret (Ok (MkHttp2Session (fst <$> native_session) (Some u) (Some (ba_address (w2_arena w))) (ba_generation (w2_arena w))), w)) = Ret (r, w') /\
    http2_creation w owners limits events log_sink r w' pieces'.
Proof using All.
  intros Hc Ho Ec Eo. set (call := match role with http2_client => _ | _ => _ end).
  assert (Hlaw : creates session_memory session_user session_address session_sources u call) by (destruct role; [by apply law_client_new|by apply law_server_new..]).
  set (w2 := w2_set_globals w1 g). assert (HM2 : h2_memory w2 (<[u := ([], ∅)]> pieces)) by (by apply (memory_same w1)).
  destruct (converse_memory (lib := lib) _ _ _ call w2 _ u ([], ∅) HM2 (lookup_insert_eq _ _ _)
    (fun foreign => http2_serves u (w2_providers w2) ∅ foreign ltac:(set_solver) (hm_providers _ _ HM2)) Hlaw)
    as ([result native] & w3 & piece & trace & Erun & Hpost & HM3 & [S1 S2 S3 S4 S5 S6 S7] & Hun & _). rewrite insert_insert_eq in HM3. rewrite Erun, outcome_bind_Ret.
  cbn [fst snd] in Hpost. change (w2_globals w2) with g in S2. rewrite S2.
  destruct (law_option_del o g Ho) as (g1 & -> & F1 & F2). rewrite outcome_bind_Ret.
  destruct (law_callbacks_del c g1) as (g2 & -> & F3 & F4); [congruence|]. rewrite outcome_bind_Ret. cbn zeta.
  destruct (S7 st) as (st3 & Hst3 & Hev); [cbn; rewrite Est; apply lookup_insert_eq|]. destruct Hev as [V1 V2 V3 V4 V5 V6]. cbn in V2, V3, V4.
  assert (Ep3 : w2_providers w3 = w2_providers w) by (rewrite S4; exact Ep). assert (Es3 : w2_sessions w3 = w2_sessions w) by (rewrite S3; exact Es).
  assert (Hgrown : forall s l, h2_grown w (w2_set_log (w2_set_sessions (w2_set_globals w3 g2) s) l)).
  { intros s l. split; cbn; [by rewrite F3, F2|by rewrite F4, F1|exact Ep3|by eapply steady_trans| |].
    - intros v Hv. pose proof (state_new v Hv) as Hne. rewrite <- (lookup_delete_ne (w2_states w3) u v), S6, lookup_delete_ne by done. cbn. by rewrite Est, lookup_insert_ne.
    - intros b Hb. rewrite <- (Hk b Hb). destruct (hm_cover _ _ (h2r_memory _ _ _ HR) b Hb) as (v & q & Hq & Hin). assert (v <> u) by congruence.
      apply (Hun v q b); [done|by rewrite lookup_insert_ne|done]. }
  destruct (Z.eqb_spec result 0) as [->|Hne]; cbn [negb].
  - destruct Hpost as (n & -> & Hown & Huser & Hsrc). cbn [fmap option_fmap option_map fst].
    pose proof (address_fresh w pieces owners u piece n HR Hu Hp w3 HM3 Hown) as Hfresh.
    eexists _, _, (<[u := piece]> pieces). split; [done|]. split.
    { specialize (Hgrown (<[session_address n := n]> (w2_sessions w3)) (w2_log w3)). destruct w3. exact Hgrown. }
    exists u, (session_address n), n, st3. split; [done|]. split; [done|].
    split; [eapply (h2_resting_created w pieces owners); try done; [by apply (memory_same w3)|cbn; by rewrite Es3]|].
    split; [done|]. split; [cbn; by rewrite Es3|]. split; [exact Hst3|]. destruct Hst as (T1 & T2 & T3). split; [congruence|]. split; congruence.
  - unfold h2_failed, h2_native_error. eexists _, _, (<[u := piece]> pieces). split; [done|]. split.
    { match goal with |- h2_grown _ (w2_set_log _ ?l) => specialize (Hgrown (w2_sessions w3) l) end. destruct w3. exact Hgrown. }
    split; [|exact Es3]. apply (resting_abandoned w); try done. by apply (memory_same w3).
Qed.

Lemma create_session_run role : exists r w' pieces', create_session lib role u log_sink w1 = Ret (r, w') /\ http2_creation w owners limits events log_sink r w' pieces'.
Proof using All.
  unfold create_session. rewrite Eg. pose proof (law_callbacks_new (w2_globals w)) as Hnew. destruct (nghttp2_session_callbacks_new _ _ lib (w2_globals w)) as [[r c] g].
  destruct Hnew as [Eo Hnew]. cbn [w2_set_globals w2_globals]. destruct (Z.eqb_spec r 0) as [->|Hne]; cbn [negb].
  2:{ unfold h2_failed, h2_native_error.  eexists _, _, _. split; [done|]. by apply creation_failed. }
  destruct Hnew as (c0 & -> & Hc & Ec). destruct (set_callbacks_run c0 callback_names g) as (g1 & -> & E1 & E2); [rewrite Ec; clear; set_solver|]. rewrite outcome_bind_Ret.
  rewrite difference_empty_L, Ec in E1. rewrite Eo in E2.
  pose proof (law_option_new g1) as Hopt. destruct (nghttp2_option_new _ _ lib g1) as [[r' o] g2]. destruct Hopt as [Ec2 Hopt]. rewrite E1 in Ec2.
  destruct (Z.eqb_spec r' 0) as [->|Hne]; cbn [negb].
  2:{ destruct (law_callbacks_del c0 g2) as (g3 & -> & E3 & E4); [rewrite Ec2; clear; set_solver|]. rewrite outcome_bind_Ret.
      unfold h2_failed, h2_native_error. eexists _, _, _. split; [done|]. apply creation_failed; [rewrite E3, Ec2; clear - Hc; set_solver|congruence]. }
  destruct Hopt as (o0 & -> & Ho & Eo2). rewrite E2 in Ho, Eo2. destruct (law_option_set o0 1 g2) as (g3 & -> & E5 & E6); [rewrite Eo2; clear; set_solver|]. rewrite outcome_bind_Ret.
  rewrite difference_empty_L, Eo2 in E5. rewrite Ec2 in E6.
  apply opened_run; rewrite ?E5, ?E6; [clear; set_solver|clear; set_solver|clear - Hc; set_solver|clear - Ho; set_solver].
Qed.
End creating.

(** Where nothing has come of it. *)
Lemma creation_refused w pieces owners limits events log_sink e w' : h2_resting w pieces owners -> h2_memory w' pieces -> w2_sessions w' = w2_sessions w ->
  w2_providers w' = w2_providers w -> w2_globals w' = w2_globals w -> w2_states w' = w2_states w -> steady (w2_arena w) (w2_arena w') -> blocks_kept w w' ->
  http2_creation w owners limits events log_sink (Err e) w' pieces.
Proof.
  intros [R1 R2 R3 R4] HM Es Ep Eg Est Ha Hk. split; [split; try congruence; done|]. split; [|done].
  split; [done|by rewrite Es, Ep|by rewrite Es|done].
Qed.

Lemma http2_create_run worker role limits events log_sink w pieces owners : h2_resting w pieces owners -> is_size (h2_header_block_bytes limits) ->
  exists r w' pieces', Http2Session_create lib worker role limits events log_sink w = Ret (r, w') /\ http2_creation w owners limits events log_sink r w' pieces' /\
    match role, validate_limits limits with
    | http2_role_unlisted _, _ => r = Err h2_role_error /\ w' = w
    | _, Err e => r = Err e /\ w' = w
    | _, Ok _ => True
    end.
Proof using PoolSource0.
  intros HR Hsize. pose proof (h2r_memory _ _ _ HR) as HM. unfold Http2Session_create.
  assert (Hsame : forall e, http2_creation w owners limits events log_sink (Err e) w pieces) by (intros e; by apply creation_refused).
  destruct (validate_limits limits) as [[]|e] eqn:Hv.
  2:{ destruct role; eexists _, w, pieces; done. }
  set (body := '(_, _) ← _; _). assert (Hbody : exists r w' pieces', body = Ret (r, w') /\ http2_creation w owners limits events log_sink r w' pieces').
  2:{ destruct Hbody as (r & w' & pieces' & Eb & Hcr). destruct role; [exists r, w', pieces'; done..|]. eexists _, w, pieces. done. }
  unfold body. clear body. destruct (Z.eq_dec (value_ worker) (value_ (ba_worker (w2_arena w)))) as [Hw|Hw].
  2:{ unfold BoundedArena_try_allocate, BoundedArena_require_worker. rewrite (proj2 (Z.eqb_neq _ _) Hw). cbn [negb]. rewrite outcome_bind_Ret. eexists _, _, pieces. split; [done|].
      destruct w. apply Hsame. }
  pose proof (hm_blocks _ _ HM) as HB.
  destruct (allocate_run acquire reset acquire_view (w2_arena w) (w2_heap w) (w2_context w) worker sizeof_NativeState alignof_NativeState (bo_arena _ HB) Hw)
    as (r & arena & h & c & Erun & Hctx & Hr); [unfold is_size, sizeof_NativeState, size_max, u64_max; lia|unfold is_size, alignof_NativeState, size_max, u64_max; lia|].
  pose proof (try_allocate_steady _ _ _ _ _ _ _ _ _ _ Erun) as Hsteady. rewrite Erun, outcome_bind_Ret. destruct r as [v|e].
  2:{ destruct Hr as (-> & _ & Hai). destruct (memory_refused w pieces h c HM Hai Hctx) as [HM' Hk]. eexists _, _, pieces. split; [done|]. by apply creation_refused. }
  destruct Hr as (Hai & Hsm & _ & Hview & Hvgen & _ & Hgen & Hstor & Hcase). rewrite decide_False in Hcase by done.
  destruct Hcase as (Hfirst & start & Hbytes & _ & Hrange & Hoff).
  assert (exists base l, located (snd c) (ba_storage arena) base l) as (base & l & Hloc).
  { destruct (Z.eq_dec (ba_capacity (w2_arena w)) 0) as [E0|E0]; [eapply acquire_located; by apply Hfirst|]. rewrite (Hctx E0), (Hstor E0). by apply (bo_memory _ HB). }
  unfold ArenaView_bytes, BoundedArena_view_for. rewrite Hview, Hvgen, Hgen, Z.eqb_refl. cbn [negb]. rewrite Hbytes. cbn [subspan span_data].
  rewrite (loc_data _ _ _ _ Hloc). cbn [option_map fmap option_fmap]. set (st := NativeState_initial worker limits events log_sink).
  assert (Hok : state_ok st).
  { split; [done|done|exact (length_replicate _ _)|cbn; unfold maximum_pending_resets; lia|constructor|constructor]. }
  destruct (memory_state w pieces arena h c base l start st HM Hai Hsteady (fun E => conj (Hctx E) (Hstor E)) Hloc ltac:(lia) Hoff Hok Hw eq_refl) as (Hp & HM1 & Hk).
  apply (create_session_run w pieces owners _ (ptr_add base start) st); try done.
  destruct (owners !! ptr_add base start) as [a|] eqn:Ho; [|done]. destruct (h2r_owners _ _ _ HR _ _ Ho) as (? & ? & _ & _ & _ & Hno & _). congruence.
Qed.

(** ** Release *)
Definition inert w (t : Http2Session) : Prop := q_session t = None \/ q_generation t < ba_generation (w2_arena w).

Lemma release_inert w t : inert w t -> Http2Session_release lib t w = Ret (no_session, w).
Proof.
  intros Ht. unfold Http2Session_release. destruct (q_session t) as [a|] eqn:Ea; [|done]. destruct (q_arena t); [|done].
  destruct Ht as [|Hg]; [congruence|]. rewrite (proj2 (Z.eqb_neq _ _)) by lia. done.
Qed.

Lemma call_inert w t call : inert w t -> http2_call_legal (w2_providers w) call ->
  exists e, call_http2 lib t call w = Ret (Err e, w) /\
    e = match call with QHeaders stream _ _ => if Http2StreamId_valid stream then h2_inactive_error else h2_stream_error | _ => h2_inactive_error end.
Proof.
  intros Ht Hl. assert (Hv : forall A (k : pointer -> pointer -> outcome (Result A * World)), h2_require_valid t w k = Ret (Err h2_inactive_error, w)).
  { intros A k. unfold h2_require_valid. destruct (q_session t) as [a|] eqn:Ea; [|done]. destruct (q_state t); [|done]. destruct (q_arena t); [|done].
    destruct Ht as [|Hg]; [congruence|]. by rewrite (proj2 (Z.eqb_neq _ _)) by lia. }
  eexists. split; [|done]. destruct call; cbn [call_http2]; unfold Http2Session_receive, Http2Session_next_output, Http2Session_interest, Http2Session_submit_request,
    Http2Session_submit_headers, submit_headers_impl, Http2Session_submit_settings, Http2Session_submit_data, Http2Session_resume_data, Http2Session_submit_reset,
    Http2Session_submit_goaway, Http2Session_submit_connection_window_update, Http2Session_submit_stream_window_update, h2_submit; rewrite ?Hv; try done.
  - by destruct (Http2StreamId_valid stream).
  - cbn in Hl. apply elem_of_dom in Hl as [p ->]. by rewrite Hv.
Qed.

Lemma h2_release_run w pieces owners u a : h2_resting w pieces owners -> owners !! u = Some a ->
  exists w' pieces', Http2Session_release lib (active_http2 w a u) w = Ret (no_session, w') /\ h2_resting w' pieces' (delete u owners) /\
    w2_sessions w' = delete a (w2_sessions w) /\ h2_called u a w w' /\ undisturbed u pieces w w'.
Proof using PoolSource0.
  intros HR Hu. destruct (owner_session _ _ _ _ _ HR Hu) as (n & free & st & Hn & U1 & U2 & U3 & U4 & U5). unfold Http2Session_release. cbn [active_http2 q_session q_arena q_generation].
  rewrite Z.eqb_refl. cbn [negb]. rewrite Hn. pose proof (law_del n) as Hdel. rewrite U1 in Hdel. pose proof (h2r_memory _ _ _ HR) as HM.
  destruct (converse_memory (lib := lib) _ _ _ _ w pieces u _ HM U2 (fun foreign => http2_serves u _ _ foreign U5 (hm_providers _ _ HM)) Hdel)
    as ([] & w1 & piece & trace & Erun & Hown & HM1 & [S1 S2 S3 S4 S5 S6 S7] & Hun & _). rewrite Erun, !outcome_bind_Ret.
  eexists _, (<[u := piece]> pieces). split; [done|]. destruct HR as [R1 R2 R3 R4]. split; [|split; [by cbn; rewrite S3|split; [|exact Hun]]].
  - split; [by apply (memory_same w1)| | |]; cbn; rewrite ?S3, ?S4.
    + intros v b [Hne Hv]%lookup_delete_Some. destruct (R2 v b Hv) as (m & fm & Hm & V1 & V). exists m, fm. rewrite lookup_insert_ne by done.
      split; [|done]. rewrite lookup_delete_ne; [done|]. intros <-. congruence.
    + intros b m [Hne Hm]%lookup_delete_Some. specialize (R3 b m Hm). rewrite lookup_delete_ne; [done|]. congruence.
    + intros v q [[<- <-]|[Hne Hq]]%lookup_insert_Some; [done|]. rewrite lookup_delete_ne by done. by apply R4.
  - split; try done. cbn. by rewrite S3, delete_delete_eq.
Qed.
End sessions.
