(* ===== verification/Http2Client.v ===== *)
(** * Programs with HTTP/2 sessions

    Programs that create, use, move and destroy sessions, provide data and reset the arena in
    any order; the input a session lets through to its sink; a library that satisfies the laws
    and the witnesses. *)
From S2P Require Import Prelude Contract CheckedArithmetic Identifiers MemoryBudget MemoryBudgetSpec BudgetInvariant Views BinaryEnvelope BlockSource BoundedArena ArenaSpec.
From S2P Require Import NativeMemory NativeSpec Dependencies CodecPool Conversations Http2 Http2Spec Http2Sessions.
From Stdlib Require Import ZArith Lia String Ascii.
From stdpp Require Import base numbers list gmap option fin_map_dom.

Set Default Goal Selector "!".
#[local] Open Scope Z_scope.

Section clients.
Context {N G C L E : Type} {acquire : C * Memory -> Z -> Result MutableByteView * (C * Memory)}.
Context {reset : C * Memory -> Result unit * (C * Memory)} `{!PoolSource acquire reset}.
Context {lib : Nghttp2 N G} {laws : Nghttp2Laws lib}.
Abbreviation World := (Http2World N G C L E).
Abbreviation State := (NativeState L E).
Abbreviation Piece := (list pointer * Owned)%type.
Implicit Types (w : World) (st : State) (pieces : gmap pointer Piece) (owners : gmap pointer pointer) (handles : gmap nat Http2Session).
Abbreviation h2_memory := (h2_memory (acquire := acquire) (reset := reset)).
Abbreviation h2_resting := (h2_resting (acquire := acquire) (reset := reset)).

(** ** Handles *)














Definition provide w (address : Z) (provider : Http2DataProvider E) : World :=
  MkHttp2World (w2_arena w) (w2_heap w) (w2_context w) (w2_headers w) (w2_globals w) (w2_log w) (w2_env w) (<[address := provider]> (w2_providers w)) (w2_states w) (w2_sessions w).

(** What lies in the storage is gone when the arena has been reset. *)
Definition reset_arena w (boundary : ArenaQuiescentBoundary) : outcome World :=
  '(r, (arena, h, c)) ← BoundedArena_reset (w2_arena w) (w2_heap w) (w2_context w) (ba_worker (w2_arena w)) boundary;
  Ret (if has_value r then w2_set_sessions (w2_set_states (w2_set_memory w arena h c ∅) ∅) ∅ else w2_set_memory w arena h c (w2_headers w)).

















End clients.

(** ** The input a session lets through *)
Section input.
Context {N G L E0 : Type} (lib : Nghttp2 N G) (write : Http2Event -> E0 -> Http2CallbackAction * E0).
Abbreviation Record0 := (list Http2Event * E0)%type.
Abbreviation State0 := (NativeState L Record0).
Implicit Types (st : State0) (events : list Http2Event) (limits : Http2Limits).

(** A sink that keeps what it is given. *)
Definition recorder : Http2EventSink Record0 := MkHttp2EventSink (Some (fun event r => let '(action, e) := write event r.2 in (action, (r.1 ++ [event], e)))).

(** The bytes and fields since the last block began. *)
Definition block_step (totals : Z * Z) (event : Http2Event) : Z * Z :=
  match ev_kind event with
  | h2_headers_begin => (0, 0)
  | h2_header => (totals.1 + (span_size (ev_name event) + span_size (ev_value event)), totals.2 + 1)
  | _ => totals
  end.
Definition block_totals events : Z * Z := foldl block_step (0, 0) events.

Definition within limits (totals : Z * Z) : Prop := totals.1 <= h2_header_block_bytes limits /\ totals.2 <= h2_header_fields limits.
Definition blocks_within limits events : Prop := forall before, before `prefix_of` events -> within limits (block_totals before).

Definition callback_sized (event : Http2Callback) : Prop :=
  match event with On_header _ name value _ => is_size (span_size name) /\ is_size (span_size value) | _ => True end.

(** Callbacks other than reads, with operations and reads in between, which leave the counters
    and the record alone. *)
Inductive history st0 (r0 : Record0) : nat -> State0 -> Record0 -> Prop :=
  | hist_start : history st0 r0 0 st0 r0
  | hist_callback k st r event result st' r' : history st0 r0 k st r -> callback_sized event ->
      h2_event_callback lib st r event = Ret (result, st', r') -> history st0 r0 (S k) st' r'
  | hist_other k st r st' e : history st0 r0 k st r -> ns_header_bytes st' = ns_header_bytes st -> ns_header_fields st' = ns_header_fields st ->
      ns_limits st' = ns_limits st -> ns_event_sink st' = ns_event_sink st -> history st0 r0 k st' (r.1, e).

Record counted limits (k : nat) st events : Prop := {
  ct_limits : ns_limits st = limits;
  ct_sink : ns_event_sink st = recorder;
  ct_bytes : (block_totals events).1 <= ns_header_bytes st <= size_max;
  ct_positive : 0 <= ns_header_bytes st;
  ct_fields : (block_totals events).2 <= ns_header_fields st <= Z.of_nat k;
  ct_fields_positive : 0 <= ns_header_fields st;
  ct_within : blocks_within limits events }.

Lemma block_totals_snoc events event : block_totals (events ++ [event]) = block_step (block_totals events) event.
Proof. unfold block_totals. by rewrite foldl_app. Qed.

Lemma within_snoc limits events event : blocks_within limits events -> within limits (block_totals (events ++ [event])) -> blocks_within limits (events ++ [event]).
Proof.
  intros H1 H2 before [rest Hr]. destruct rest as [|x rest _] using rev_ind; [rewrite app_nil_r in Hr; by rewrite <- Hr|].
  rewrite app_assoc in Hr. apply app_inj_tail in Hr as [-> _]. apply H1. by eexists.
Qed.

(** One event given to the sink. *)
Lemma callback_result_recorded st (r : Record0) event pausable rejectable result st' r' : ns_event_sink st = recorder ->
  callback_result lib st r event pausable rejectable = Ret (result, st', r') ->
  r'.1 = r.1 ++ [event] /\ ns_limits st' = ns_limits st /\ ns_event_sink st' = ns_event_sink st /\ ns_header_bytes st' = ns_header_bytes st /\ ns_header_fields st' = ns_header_fields st.
Proof.
  intros Hs. unfold callback_result. rewrite Hs. cbn [recorder es_write]. destruct (write event r.2) as [action e].
  destruct action; cbn [andb]; [by intros [= <- <- <-]|destruct pausable; by intros [= <- <- <-]| |by intros [= <- <- <-]..].
  destruct rejectable; [by intros [= <- <- <-]|]. destruct (_ && _); [|by intros [= <- <- <-]]. destruct (pending_loop _ _ _ _) as [[]|]; [by intros [= <- <- <-]| |done].
  rewrite outcome_bind_Ret. destruct (_ =? _); [by intros [= <- <- <-]|]. destruct (set_slot _ _ _); [|done]. rewrite outcome_bind_Ret. by intros [= <- <- <-].
Qed.

Lemma counted_event limits k st (r : Record0) event pausable rejectable result st' r' : counted limits k st r.1 ->
  within limits (block_step (block_totals r.1) event) -> (block_step (block_totals r.1) event).1 <= ns_header_bytes st ->
  (block_step (block_totals r.1) event).2 <= ns_header_fields st ->
  callback_result lib st r event pausable rejectable = Ret (result, st', r') -> counted limits k st' r'.1.
Proof.
  intros [C1 C2 C3 C4 C5 C6 C7] Hw Hb Hf Hrun. destruct (callback_result_recorded _ _ _ _ _ _ _ _ C2 Hrun) as (-> & E1 & E2 & E3 & E4).
  split; rewrite ?E1, ?E2, ?E3, ?E4, ?block_totals_snoc; try done; try lia. apply within_snoc; [done|]. by rewrite block_totals_snoc.
Qed.

Lemma counted_within limits k st events : counted limits k st events -> within limits (block_totals events).
Proof. intros [C1 C2 C3 C4 C5 C6 C7]. by apply C7. Qed.

(** An event that is no header. *)
Lemma counted_plain limits k st (r : Record0) event pausable rejectable result st' r' : counted limits k st r.1 ->
  match ev_kind event with h2_headers_begin | h2_header => False | _ => True end ->
  callback_result lib st r event pausable rejectable = Ret (result, st', r') -> counted limits k st' r'.1.
Proof.
  intros Hc Hk. pose proof Hc as [C1 C2 C3 C4 C5 C6 C7]. assert (Hs : block_step (block_totals r.1) event = block_totals r.1) by (unfold block_step; by destruct (ev_kind event)).
  apply counted_event; [done|rewrite Hs; by eapply counted_within|rewrite Hs; lia|rewrite Hs; lia].
Qed.

Lemma counted_settings limits k frame settings : forall st (r : Record0) result st' r', counted limits k st r.1 ->
  settings_loop lib settings st r frame = Ret (result, st', r') -> counted limits k st' r'.1.
Proof.
  induction settings as [|[id value] settings IH]; intros st r result st' r' Hc; cbn [settings_loop]; [by intros [= <- <- <-]|].
  intros H. apply outcome_bind_Ret_inv in H as ([[r1 st1] e1] & E1 & H). apply (counted_plain limits k) in E1; [|done|done].
  destruct (negb _); [by injection H as <- <- <-|by eapply IH].
Qed.

Lemma counted_more limits k st events : counted limits k st events -> counted limits (S k) st events.
Proof. intros [C1 C2 C3 C4 C5 C6 C7]. split; try done. lia. Qed.

Lemma counted_callback limits k st (r : Record0) event result st' r' : is_size (h2_header_block_bytes limits) -> 0 <= h2_header_fields limits -> Z.of_nat k < u64_max ->
  counted limits k st r.1 -> callback_sized event -> h2_event_callback lib st r event = Ret (result, st', r') -> counted limits (S k) st' r'.1.
Proof.
  intros Hlim Hlf Hk Hc Hsz. pose proof Hc as [C1 C2 C3 C4 C5 C6 C7]. pose proof (counted_more _ _ _ _ Hc) as Hm.
  destruct event as [frame|frame name value flags|flags stream data|frame|stream code|]; cbn [h2_event_callback]; [| | | | |done].
  - unfold on_begin_headers. intros H. assert (Hz : block_step (block_totals r.1) (Http2Event_of h2_headers_begin (fr_stream_id frame) (frame_ends lib frame)) = (0, 0)) by done.
    unfold is_size in Hlim. destruct (callback_result_recorded (set_header_counts st 0 0) _ _ _ _ _ _ _ C2 H) as (-> & E1 & E2 & E3 & E4).
    split; rewrite ?E1, ?E2, ?E3, ?E4, ?block_totals_snoc, ?Hz; cbn; try done; try (unfold size_max, u64_max; lia).
    apply within_snoc; [done|]. rewrite block_totals_snoc, Hz. split; cbn; lia.
  - unfold on_header. cbn [callback_sized] in Hsz. destruct Hsz as [S1 S2]. unfold is_size, size_max, u64_max in *.
    destruct ((u64 _ <? _) || _) eqn:Eo; [intros [= <- <- <-]; by destruct Hm|]. apply orb_false_iff in Eo as [O1 O2]. apply Z.ltb_ge in O1, O2.
    rewrite u64_small in O1 by (unfold u64_max; lia). rewrite u64_small in O2 by (unfold u64_max; lia).
    rewrite (u64_small (span_size name + _)) by (unfold u64_max; lia). rewrite (u64_small (ns_header_bytes st + _)) by (unfold u64_max; lia).
    rewrite (u64_small (ns_header_fields st + 1)) by (unfold u64_max; lia). cbn zeta. set (st1 := set_header_counts st _ _).
    assert (Hc1 : counted limits (S k) st1 r.1) by (split; try done; cbn; unfold size_max, u64_max; lia).
    destruct ((h2_header_block_bytes (ns_limits st1) <? _) || _) eqn:El; [intros [= <- <- <-]; by destruct Hc1|]. apply orb_false_iff in El as [L1 L2]. apply Z.ltb_ge in L1, L2.
    destruct (ByteView_from name) as [nv|] eqn:En; [|by intros [= <- <- <-]]. destruct (ByteView_from value) as [vv|] eqn:Ev; [|by intros [= <- <- <-]].
    assert (Hid : forall v v', ByteView_from v = Ok v' -> v' = v) by (intros v v'; unfold ByteView_from; destruct (_ && _); by intros [= <-]).
    apply Hid in En as ->. apply Hid in Ev as ->. subst limits. apply counted_event; [done|split; cbn in *; lia|cbn in *; lia|cbn in *; lia].
  - unfold on_data. destruct (ByteView_from data); [|by intros [= <- <- <-]]. by apply counted_plain.
  - unfold on_frame_received. destruct (_ =? _); [destruct (fr_settings frame); [by apply counted_plain|by apply counted_settings]|].
    destruct (_ =? _); [by apply counted_plain|]. destruct (_ =? _).
    { destruct (_ <? _); [intros [= <- <- <-]; by destruct Hm|]. destruct (ByteView_from _); [|done]. by apply counted_plain. }
    destruct (_ =? _); by apply counted_plain.
  - by apply counted_plain.
Qed.

(** C26: Whatever the peer sends, in any number of input calls short of 2^64 callbacks, every header
    block that reaches the sink of a session has at most the fields and, over names and values, at
    most the bytes that the session was created with, at every moment. *)
Theorem http2_input_bounded (worker : WorkerId) limits (log : DependencyLogSink L) (e : E0) (k : nat) st (r : Record0) :
  is_size (h2_header_block_bytes limits) -> is_size (h2_header_fields limits) -> Z.of_nat k <= u64_max ->
  history (NativeState_initial worker limits recorder log) ([], e) k st r -> blocks_within limits r.1.
Proof.
  intros Hb Hf Hk Hh. unfold is_size in Hf. enough (counted limits k st r.1) as [] by done.
  induction Hh as [|k st r event result st' r' Hh IH Hsz Hrun|k st r st' e' Hh IH E1 E2 E3 E4].
  - split; cbn; try done; try (unfold size_max, u64_max; lia). intros before ->%prefix_nil_inv. unfold is_size in Hb. split; cbn; lia.
  - apply (counted_callback limits k st r event result); [done|lia|lia|apply IH; lia|done|done].
  - specialize (IH Hk). destruct IH as [C1 C2 C3 C4 C5 C6 C7]. split; rewrite ?E1, ?E2, ?E3, ?E4; done.
Qed.
End input.

(** ** A library that answers at once

    A native session is one block of eight bytes, with its address, its user, the data source it
    was given and the streams it was asked to reset.  Input is taken whole, with one data frame on
    the stream its first byte names; output asks the source for up to eight bytes. *)
Module Mirror.
Record Native := MkNative { m_address : pointer; m_user : pointer; m_source : option Z; m_resets : list Z }.
(** The live objects for callbacks and for options. *)
Abbreviation Globals := (gset Z * gset Z)%type.

Definition m_memory (n : Native) : Owned := {[m_address n := 8]}.
Definition m_sources (n : Native) : gset Z := match m_source n with Some x => {[x]} | None => ∅ end.

Definition new3 (c : Z) (user : pointer) (o : Z) (g : Globals) : Http2Call (Z * option (pointer * Native)) :=
  Request user (PMalloc 8) (fun r => match r with Some p => Answer (0, Some (p, MkNative p user None [])) | None => Answer (-901, None) end).

Definition recv (input : list Z) (n : Native) : Http2Call (Z * Native) :=
  match input with
  | [] => Answer (0, n)
  | stream :: _ => Callback (m_user n) (On_data 0 stream empty_span) (fun r => Answer (if fst r =? -902 then -902 else Z.of_nat (length input), n))
  end.

Definition send (n : Native) : Http2Call (Z * option pointer * Native) :=
  match m_source n with
  | None => Answer (0, None, n)
  | Some x => Callback (m_user n) (On_data_source_read 1 (m_address n) 0 8 0 (Some x)) (fun r =>
      if fst r <? 0 then Answer (fst r, None, n) else Answer (Z.min (fst r) 8, Some (m_address n), n))
  end.

Definition answer_zero (n : Native) : Http2Call (Z * Native) := Answer (0, n).

Definition nghttp2 : Nghttp2 Native Globals := {|
  NGHTTP2_ERR_NOMEM := -901; NGHTTP2_ERR_INVALID_ARGUMENT := -501; NGHTTP2_ERR_INVALID_HEADER_BLOCK := -513; NGHTTP2_ERR_STREAM_ID_NOT_AVAILABLE := -509;
  NGHTTP2_ERR_PAUSE := -526; NGHTTP2_ERR_TEMPORAL_CALLBACK_FAILURE := -521; NGHTTP2_ERR_CALLBACK_FAILURE := -902; NGHTTP2_ERR_DEFERRED := -508;
  NGHTTP2_ERR_STREAM_CLOSED := -510; NGHTTP2_CANCEL := 8; NGHTTP2_FLAG_NONE := 0; NGHTTP2_FLAG_END_STREAM := 1; NGHTTP2_FLAG_END_HEADERS := 4;
  NGHTTP2_FLAG_ACK := 1; NGHTTP2_DATA_FLAG_EOF := 1; NGHTTP2_NV_FLAG_NONE := 0; NGHTTP2_NV_FLAG_NO_INDEX := 1;
  NGHTTP2_SETTINGS := 4; NGHTTP2_RST_STREAM := 3; NGHTTP2_GOAWAY := 7; NGHTTP2_WINDOW_UPDATE := 8;
  nghttp2_session_callbacks_new g := if decide (1 ∈ g.1) then (-901, None, g) else (0, Some 1, ({[1]} ∪ g.1, g.2));
  nghttp2_session_callbacks_set _ c g := if decide (c ∈ g.1) then Ret g else Stop Undefined;
  nghttp2_session_callbacks_del c g := if decide (c ∈ g.1) then Ret (g.1 ∖ {[c]}, g.2) else Stop Undefined;
  nghttp2_option_new g := if decide (2 ∈ g.2) then (-901, None, g) else (0, Some 2, (g.1, {[2]} ∪ g.2));
  nghttp2_option_set_no_auto_window_update o _ g := if decide (o ∈ g.2) then Ret g else Stop Undefined;
  nghttp2_option_del o g := if decide (o ∈ g.2) then Ret (g.1, g.2 ∖ {[o]}) else Stop Undefined;
  nghttp2_session_client_new3 := new3;
  nghttp2_session_server_new3 := new3;
  nghttp2_session_del n := Request (m_user n) (PFree (Some (m_address n))) (fun _ => Answer tt);
  nghttp2_session_mem_recv := recv;
  nghttp2_session_mem_send := send;
  nghttp2_session_want_read _ := 1;
  nghttp2_session_want_write n := match m_source n with Some _ => 1 | None => 0 end;
  nghttp2_submit_headers _ stream _ n := Answer (if stream =? -1 then 1 else 0, n);
  nghttp2_submit_settings _ _ := answer_zero;
  nghttp2_submit_data _ _ source n := Answer (0, MkNative (m_address n) (m_user n) (Some source) (m_resets n));
  nghttp2_session_resume_data _ := answer_zero;
  nghttp2_submit_rst_stream _ stream _ n := Answer (0, MkNative (m_address n) (m_user n) (m_source n) (m_resets n ++ [stream]));
  nghttp2_submit_goaway _ _ _ _ := answer_zero;
  nghttp2_submit_window_update _ _ _ := answer_zero |}.

Lemma new3_law c o user g : creates m_memory m_user m_address m_sources user (new3 c user o g).
Proof.
  unfold creates, new3. cbn [behaves]. split; [done|]. split; [cbn; unfold is_size, size_max, u64_max; lia|]. intros r own Hstep.
  destruct r as [p|]; cbn [behaves fst snd]; [|by inversion Hstep]. exists (MkNative p user None []). split; [done|]. split; [|done].
  inversion Hstep as [|op m q Hr Hq| | | |]; subst. by injection Hr as <-.
Qed.

#[export] Instance laws : Nghttp2Laws nghttp2.
Proof.
  refine {| session_memory := m_memory; session_user := m_user; session_address := m_address; session_sources := m_sources;
            callback_objects := fst; option_objects := snd |}; cbn [nghttp2 nghttp2_session_callbacks_new nghttp2_session_callbacks_set nghttp2_session_callbacks_del
    nghttp2_option_new nghttp2_option_set_no_auto_window_update nghttp2_option_del nghttp2_session_client_new3 nghttp2_session_server_new3 nghttp2_session_del
    nghttp2_session_mem_recv nghttp2_session_mem_send nghttp2_submit_headers nghttp2_submit_settings nghttp2_submit_data nghttp2_session_resume_data
    nghttp2_submit_rst_stream nghttp2_submit_goaway nghttp2_submit_window_update].
  - intros n. apply elem_of_dom. exists 8. apply lookup_singleton_eq.
  - intros g. unfold makes. destruct (decide (1 ∈ g.1)); [done|]. split; [done|]. by exists 1.
  - intros name c g Hc. rewrite decide_True by done. exists g. split; [done|]. split; [set_solver|done].
  - intros c g Hc. rewrite decide_True by done. by eexists.
  - intros g. unfold makes. destruct (decide (2 ∈ g.2)); [done|]. split; [done|]. by exists 2.
  - intros o value g Ho. rewrite decide_True by done. exists g. split; [done|]. split; [set_solver|done].
  - intros o g Ho. rewrite decide_True by done. by eexists.
  - intros. apply new3_law.
  - intros. apply new3_law.
  - intros n. cbn [behaves]. split; [done|]. split; [cbn; exists 8; apply lookup_singleton_eq|]. intros r own Hstep.
    inversion Hstep; subst; [done|done|]. unfold m_memory. apply delete_singleton_eq.
  - intros n data. unfold answers, recv. destruct data as [|stream data]; cbn [behaves fst snd]; [split_and!; try done; set_solver|]. split; [done|]. split; [done|].
    intros r. split_and!; try done; [set_solver|]. cbn [length]. destruct (_ =? _); lia.
  - intros n. unfold answers, send. destruct (m_source n) as [x|] eqn:Ex; cbn [behaves fst snd].
    2:{ split_and!; first [done|set_solver|unfold size_max, u64_max; lia]. }
    split; [done|]. split.
    { split; [exists 8; split; [apply lookup_singleton_eq|lia]|]. exists x. split; [done|]. unfold m_sources. rewrite Ex. set_solver. }
    intros [r f]. cbn [fst]. destruct (Z.ltb_spec r 0); cbn [behaves fst snd]; split_and!; first [done|set_solver|unfold size_max, u64_max; lia|intros; lia].
  - intros n flags stream fields. unfold answers. cbn. split_and!; try done; [set_solver|]. intros ->. done.
  - intros n flags entries. unfold answers. cbn. split_and!; try done; set_solver.
  - intros n flags stream source. unfold answers. cbn. split_and!; try done. unfold m_sources. cbn. set_solver.
  - intros n stream. unfold answers. cbn. split_and!; try done; set_solver.
  - intros n flags stream code. unfold answers. cbn. split_and!; try done. unfold m_sources. cbn. set_solver.
  - intros n flags last code debug. unfold answers. cbn. split_and!; try done; set_solver.
  - intros n flags stream increment. unfold answers. cbn. split_and!; try done; set_solver.
Defined.
End Mirror.
#[export] Existing Instance Mirror.laws.

(** ** An arena of 4096 bytes *)
Definition h2_demo_tree : Heap := MkHeap {[ 0%nat := MkMemoryBudget demo_worker 5000 0 0 0 None ]} ∅ 1.
Definition h2_demo_heap : Heap := (MemoryReservation_construct h2_demo_tree).2.
Definition h2_demo_arena : BoundedArena (nat * Memory) := BoundedArena_construct 9 demo_worker 0 (arena_source pool_acquire pool_reset) 1 1024 4096.
Definition h2_demo_world : Http2World Mirror.Native Mirror.Globals nat nat nat :=
  MkHttp2World h2_demo_arena h2_demo_heap (0%nat, ∅) ∅ (∅, ∅) 0%nat 0%nat ∅ ∅ ∅.




(** Events are counted and all data is rejected. *)
Definition h2_demo_sink : Http2EventSink nat := MkHttp2EventSink (Some (fun _ n => (reject_stream, S n))).
Definition h2_demo_log : DependencyLogSink nat := MkDependencyLogSink (Some (fun n _ => S n)).
Definition h2_demo_limits : Http2Limits := MkHttp2Limits 8 2 4.
Definition h2_demo_provider : Http2DataProvider nat := MkHttp2DataProvider (Some (fun size n => (Ok (MkHttp2DataReadResult 2 read_end), [7; 7], n))).

(** Two sessions: the first resets the stream whose data it rejected, and its output is what the
    provider wrote; both are inactive after the arena was reset. *)
Example sessions_share_an_arena :
  ('(r, w) ← Http2Session_create Mirror.nghttp2 demo_worker http2_server h2_demo_limits h2_demo_sink h2_demo_log h2_demo_world;
   '(s, w) ← Http2Session_create Mirror.nghttp2 demo_worker http2_client h2_demo_limits (MkHttp2EventSink None) h2_demo_log (provide w 5 h2_demo_provider);
   match r, s with
   | Ok t, Ok t' =>
       '(received, w) ← Http2Session_receive Mirror.nghttp2 t [3; 9] w;
       '(submitted, w) ← Http2Session_submit_data Mirror.nghttp2 t (MkHttp2StreamId 1) 5 true w;
       '(output, w) ← Http2Session_next_output Mirror.nghttp2 t w;
       let resets := map Mirror.m_resets (map snd (map_to_list (w2_sessions w))) in
       w ← reset_arena w (MkArenaQuiescentBoundary 9 1);
       '(stale, w) ← Http2Session_interest Mirror.nghttp2 t' w;
       Ret (received, submitted, has_value output, resets, stale, w2_env w, base.size (w2_states w))
   | _, _ => Stop Undefined
   end) = Ret (Ok 2, Ok tt, true, [[]; [3]], Err h2_inactive_error, 1%nat, 0%nat).
Proof. vm_compute. reflexivity. Qed.

(** Blocks are refused when a name is missing, when the fields do not fit or are too many. *)
Example blocks_are_bounded :
  (let field name value := MkHttp2Header (replicate name 97) (replicate value 98) false in
   '(r, w) ← Http2Session_create Mirror.nghttp2 demo_worker http2_client h2_demo_limits (MkHttp2EventSink None) h2_demo_log h2_demo_world;
   match r with
   | Err _ => Stop Undefined
   | Ok t =>
       let submit headers := '(r, _) ← Http2Session_submit_request Mirror.nghttp2 t headers true w; Ret r in
       r1 ← submit [field 4%nat 1%nat; field 1%nat 2%nat];
       r2 ← submit [field 4%nat 1%nat; field 1%nat 3%nat];
       r3 ← submit [field 0%nat 1%nat];
       r4 ← submit [];
       r5 ← submit (replicate 3 (field 1%nat 0%nat));
       Ret [r1; r2; r3; r4; r5]
   end) = Ret [Ok (MkHttp2StreamId 1); Err h2_header_block_error; Err h2_header_block_error; Err h2_header_count_error; Err h2_header_count_error].
Proof. vm_compute. reflexivity. Qed.






(** A block with one field of two bytes, given to a sink that accepts everything. *)
Definition h2_accept (event : Http2Event) (e : unit) : Http2CallbackAction * unit := (continue_processing, e).
Definition h2_demo_frame : nghttp2_frame := MkNghttp2Frame 1 4 1 [] 0 0 empty_span 0.
Definition h2_demo_start : NativeState nat (list Http2Event * unit) := NativeState_initial demo_worker h2_demo_limits (recorder h2_accept) h2_demo_log.
Definition h2_demo_callbacks : list Http2Callback :=
  [On_begin_headers h2_demo_frame; On_header h2_demo_frame (MkSpan (Some (MkPointer 0 0)) 1) (MkSpan (Some (MkPointer 0 1)) 1) 0].
Fixpoint run_callbacks (events : list Http2Callback) (st : NativeState nat (list Http2Event * unit)) (r : list Http2Event * unit) :
    outcome (NativeState nat (list Http2Event * unit) * (list Http2Event * unit)) :=
  match events with
  | [] => Ret (st, r)
  | event :: events => '(_, st, r) ← h2_event_callback Mirror.nghttp2 st r event; run_callbacks events st r
  end.

Lemma run_callbacks_history events : forall k st r st' r', Forall callback_sized events -> history Mirror.nghttp2 h2_demo_start ([], tt) k st r ->
  run_callbacks events st r = Ret (st', r') -> history Mirror.nghttp2 h2_demo_start ([], tt) (k + length events) st' r'.
Proof.
  induction events as [|event events IH]; intros k st r st' r' Hs Hh; cbn [run_callbacks length].
  - intros [= <- <-]. by rewrite Nat.add_0_r.
  - intros H. apply outcome_bind_Ret_inv in H as ([[result st1] r1] & E1 & H). apply Forall_cons in Hs as [Hs1 Hs]. rewrite Nat.add_succ_r, <- Nat.add_succ_l.
    apply (IH (S k) st1 r1); [done| |done]. by eapply hist_callback.
Qed.

Lemma http2_input_bounded_witness :
  exists st r, run_callbacks h2_demo_callbacks h2_demo_start ([], tt) = Ret (st, r) /\ length r.1 = 2%nat /\ blocks_within h2_demo_limits r.1.
Proof.
  destruct (run_callbacks h2_demo_callbacks h2_demo_start ([], tt)) as [[st r]|] eqn:Erun; [|vm_compute in Erun; discriminate Erun].
  exists st, r. split; [reflexivity|]. split; [vm_compute in Erun; by injection Erun as <- <-|].
  apply (http2_input_bounded Mirror.nghttp2 h2_accept demo_worker h2_demo_limits h2_demo_log tt 2 st r);
    [unfold is_size, size_max, u64_max; cbn; lia|unfold is_size, size_max, u64_max; cbn; lia|unfold u64_max; lia|].
  apply (run_callbacks_history h2_demo_callbacks 0 h2_demo_start ([], tt)); [|apply hist_start|exact Erun].
  repeat constructor; cbn; unfold is_size, size_max, u64_max; lia.
Defined.
